(* ===== verification/_CoqProject ===== *)
-Q . S2P
Prelude.v
GoStrings.v
Signals.v
Naming.v
Config.v
Json.v
Quantity.v
Policy.v
Model.v
Store.v
Hoare.v
Budget.v
Lease.v
LeaseProtocol.v
Scheduler.v
Admission.v
AdmissionSpec.v
AdmissionOrder.v
AdmissionQuota.v
AdmissionGuard.v
Controller.v
ControllerSpec.v
ControllerSafety.v
Creation.v
PodResources.v
Retry.v
Cleanup.v
JobInfos.v
Components.v
JobExec.v
RunJob.v
RunJobSpec.v
JobRunner.v
Pool.v
KubeJobs.v
PodLogs.v
DelayQueue.v
DelayItems.v
DelayLoops.v
DelayRecovery.v
Sha1.v
Sha256.v
Outbox.v
DelayDispatch.v
OutboxSpec.v
OutboxRecovery.v
Instant.v
KubeSpec.v
InstantSpec.v
RetryProtocol.v
Results.v
ResultsSpec.v
DelaySpec.v
EventLoop.v
EventLoopSpec.v
Cancel.v
CancelSpec.v
CallbackReplay.v
CancelRecovery.v
CancelRecoverySpec.v
CancelReach.v
Scheduled.v
ScheduledSpec.v
Workflows.v
Plan.v
Restore.v
RestoreSpec.v
Evaluation.v
Generate.v
GenerateSpec.v
Locker.v
