(* ===== verification/Prelude.v ===== *)
(** * The runtime core of Eruun, modelled and verified

    Eruun is a control plane that runs application workflows and jobs on Kubernetes.
    Several API servers and workers share one SQL database; there is no other
    coordinator.  What keeps them from running a task twice, from admitting more jobs
    than the cluster allows or from losing a job after a crash are the operations of
    [src/pkg/apiserver/domain/repository] on a few tables, and the pure functions of
    configuration, naming and checkpoints they use.  This library models those and
    proves them correct.  Paths below are relative to [src/pkg/apiserver].

    ** The program's parts, and the files that model them

    - This file: record update, Go errors and results, 64-bit integers, durations and
      instants (nanoseconds since 1970), lists, and the tactics [bool_to_prop],
      [case_goal] and [case_hyp].
    - [GoStrings]: [strings], [strconv], [fnv] on byte strings; [utils/random.go],
      [utils/strings.go], [utils/cron.go].
    - [Naming]: [workflow/naming/naming.go], names and labels of Kubernetes objects.
    - [Config]: [config/consts.go] and the status predicates; the small policies of
      [workflow/config].
    - [Json]: JSON texts and how Go's decoder stores them in variables.
    - [Quantity]: the interface to Kubernetes quantities and metadata.  [QuantityOps]
      are the operations, [QuantityLaws] their documented meaning, [KubernetesJson]
      their decoders; the clients ([Policy], [Budget], [PodResources], [Retry]) are
      proved against the classes, and [ZQuantity], [ZKubernetesJson] are instances.
    - [Policy]: scheduler policy, retry policy, callback timeout ([workflow/config]).
    - [Model]: the rows ([domain/model]), with their columns.
    - [Store]: the datastore contract ([infrastructure/datastore], [datastore/sql]).
      [Entity] is the class of a persisted struct; [M] is a database program, run in
      a [World] that holds the database and what other sessions will do.
    - [Hoare]: triples for such programs under interference; [Store] also has
      [guarantees] (every single commit of a program respects a relation, on the
      database it finds then), [lasting] (what another session's commit leaves in the
      middle of a run is respected to its end) and [never] (no run ends in a given
      error).
    - [Lease], [LeaseProtocol]: task ownership ([repository/workflow_lease.go]).
    - [Signals]: cancellation through Redis ([workflow/signal/cancel.go]).
    - [Controller]: the run of one workflow task ([event/workflow/controller*.go]): the
      persistence of the task, the loop over steps and priorities, approval pauses,
      failure clean-up, the deferred acknowledgement and callback.  [ControllerSpec] has
      the abstract run and the refinement, [ControllerSafety] what a run may write and
      announce.
    - [JobInfos]: the record of a job execution ([jobinfo/info.go],
      [database_reset_checkpoint.go]).
    - [Components]: the observed status of a component
      ([repository/component_runtime_status.go], [jobexec/component_status.go]).
    - [JobExec]: status transitions of a job, ownership checks, the intent of cleaning up
      after a cancellation, recovery of an admission ([jobinfo/status_*.go],
      [jobexec/batch.go], [jobexec/cancel_recovery.go], [jobinstant/scheduling.go]).
    - [RunJob], [RunJobSpec]: the run of one job ([event/workflow/job/job.go]);
      [JobRunner]: the runner as the workflow controller calls it; [Pool]: the worker
      pool of [event/workflow/job/job_pool.go], a step relation over its goroutines.
    - [KubeJobs]: Kubernetes Jobs through the client library ([jobexec/batch.go],
      [delete.go], [resource_reconcile.go], [cleanup_tracker.go], [cancel_recovery.go]);
      [DelayQueue]: jobs that start later ([jobinfo/delay_queue.go]); [Instant]: the
      controller of instant jobs with its retry loop ([jobinstant/instant.go],
      [retry.go], [retry_resources.go], [informer/job_observer.go]).  [KubeSpec] puts it
      behind the runner's interface, [InstantSpec] states the protocol of its attempts
      and [RetryProtocol] proves that they follow it.
    - [CancelRecovery], [CancelRecoverySpec], [CancelReach]: removing what cancelled jobs
      left on the cluster, page by page ([jobexec/cancel_recovery.go],
      [startCancelledWorkflowRecovery] of [event/workflow/workflow.go]).  [Scheduled],
      [ScheduledSpec]: the controller of scheduled jobs and their CronJobs
      ([jobdelay/scheduled.go]).
    - [PodLogs]: the logs of a finished Job's Pods and the removal of the Job
      ([jobexec/pod_logs.go]).  [Sha1], [Sha256]: [crypto/sha1] and [crypto/sha256].
    - [Outbox], [OutboxSpec], [OutboxRecovery]: the table of Job results that wait to be
      processed ([jobresult/result_outbox.go]): creation, dispatch to the queue, claims
      and leases, recovery.  [Results], [ResultsSpec]: the consumer that waits for the
      Job, records its result and removes it ([jobresult/result.go]).
    - [DelayItems], [DelayLoops], [DelayRecovery], [DelayDispatch], [DelaySpec]: the
      dispatcher of jobs that start later ([jobdelay/delay_dispatcher.go]): its queue of
      items, the goroutines on it (a step relation), the recovery of due checkpoints, and
      the dispatch of one job.
    - [Budget]: declared resources and quota ([repository/job_scheduler_resources.go]).
    - [Scheduler]: queueing, polling and releasing jobs ([repository/job_scheduler.go],
      [job_scheduler_recovery.go]).
    - [Admission]: [AdmitQueuedJobs], the tick that admits jobs, with [AdmissionSpec],
      [AdmissionOrder], [AdmissionQuota] and [AdmissionGuard] about it.
    - [Creation]: the durable token bucket and the bound on starting sandboxes
      ([repository/resource_creation_budget.go], [sandbox_start_budget.go]).
    - [PodResources]: the peak of a Pod and its growth after running out of memory
      ([event/workflow/job/jobinstant]).
    - [Retry]: retry checkpoints and the live Job they belong to
      ([event/workflow/job/jobinfo/retry_checkpoint.go]).
    - [EventLoop], [EventLoopSpec]: the leader's dispatch of waiting tasks, the worker's
      handling of a message, the restarts of a controller, the start-up and the reapers
      ([event/workflow/dispatcher.go], [workflow.go], [workflow_dispatch.go]).
    - [Cancel], [CancelSpec]: cancellation and approval by a user, and the replay of one
      terminal callback ([domain/service/workflow/workflow_cancel.go],
      [workflow_callback.go], [internal/cancelsignal]); [CallbackReplay]: the loop that
      replays them all ([startTerminalCallbackRecovery]), a step relation over its
      goroutines.
    - [Workflows]: workflow definitions and the part of one that a version update runs
      ([domain/model/workflow.go], [job_builder_execution_scope.go]).  The job builder
      ([event/workflow/job_builder*.go]): [Plan] makes the executions of each step,
      [Restore] gives jobs their keys and takes over what earlier generations committed,
      [Evaluation] renders evaluations ([jobs/builder.go]), [Generate] reads the task's
      inputs, puts clean-ups between the steps and assembles the plan; [RestoreSpec] and
      [GenerateSpec] have the theorems.
    - [Cleanup]: cleanup records ([domain/model/workflow_queue.go]).
    - [Locker]: the in-process locker and the application schedule lock
      ([infrastructure/locker], [domain/service/internal/schedulelock]).

    How they interact: a leader claims a queued task for dispatch (a new generation and
    token), a worker claims it for execution and renews its lease; every write of the
    worker is conditional on the columns that identify it, and [Scheduler]'s operations
    check the same ownership first.  A ready job is enqueued with the Pod resources of
    [PodResources]; the tick, under the lock of the policy row of [Policy], scans the
    job table, releases what lost its owner, and admits jobs while [Budget] and the
    concurrency limits allow; the same row lock serialises [Creation].  After a crash
    the reaper of [Lease] requeues the task, and [Retry] decides which live Job the next
    worker may attach to.

    [EventLoop] connects the two ends: the leader claims a task and publishes its
    generation and token, the worker that receives them claims the execution, starts
    [Controller.run] with a heartbeat beside it and acknowledges the message; a run that
    cannot tell whether its last write went through is started again from the row.  A
    user's cancellation ([Cancel]) writes the row, signals the worker through [Signals]
    and, where no worker owns the task, triggers the callback itself.

    Inside a worker, [Controller.run] drives one task; it reaches jobs through the class
    of what a run calls ([WorkflowDeps]: job builder, job runner, workspace manager,
    callback); [Generate.builder_deps] and [JobRunner] fill it with the builder and the
    runner modelled here.  [RunJob.runJob] is the run of one job: it waits for its admission with
    [Scheduler]'s operations, locks its owner's row with [Lease], calls the controller of
    its job type (the record [JobController]), and saves its record with [JobInfos] and
    the component's status with [Components].  Cancellation reaches both through
    [Signals] and through the task's row.

    ** How state and operations are represented

    A Go method on the datastore is an [M] program with the same guards, early returns
    and statements in the same order; [let!] is [:=] followed by the error check.
    Before each statement the surroundings may do nothing, make the statement fail, or
    commit any change of another session.  So a theorem about a program for every
    [World] is about every interleaving at statement granularity and every crash point
    of the backend, and hypotheses on [w_env] say what other sessions are assumed to
    respect.  Transactions drop their writes when their body or the commit fails.
    Closures that share variables pass them in a record ([tick], [jobResourceBudget]).
    A run adds to the world the state of its Go values: [Controller.Exec] for a workflow
    (programs [C], notation [do!]), [RunJob.JobRun] for a job (programs [J], notation
    [job!]), [KubeJobs.KubeRun] for a job on a cluster (programs [K], notations [kube!]
    and, with the error check, [must!]), [Cancel.S] for the service (notation [sdo!]).
    The cluster is a function from everything the
    run asked and was told to the next answer, so that a theorem for every [Cluster] is
    about every behaviour of the API server, the network and other clients.  Each look at a context takes the next entry of a list of signals, so that a
    theorem for every such list is about a cancellation at any look.
    Integers are [Z] with wrap-around written where Go computes on 64 bits ([u64],
    [i64]); floats are IEEE binary64.

    ** What the theorems show

    - Admission: a tick leaves at most as many admitted jobs as the policy allows or as
      there were, and one more for each job that is re-attached to a new owner meanwhile,
      in total and per workspace ([AdmissionSpec.admission_capacity]); no
      other operation admits ([AdmissionGuard.only_ticks_admit]); it admits the most
      preferred job, without starvation ([AdmissionOrder.admission_picks_best]), uses the
      capacity there is ([admission_uses_capacity]), stays within the declared quota
      ([AdmissionQuota.admission_within_quota]) and ends ([tick_terminates]).
    - Ownership: under every interleaving of leaders, workers and reapers a generation is
      executed by at most one worker and generations never go back
      ([LeaseProtocol.one_executor_per_generation]); a stale owner has no effect
      ([stale_owner_is_fenced]); the reaper recovers exactly the expired tasks.
    - Runs of a workflow: every run, whatever the job runner does and whenever it is
      cancelled, executes the batches of its plan in order and ends as the plan says
      ([ControllerSpec.run_follows_plan]); it never overwrites a terminal status another
      session committed for its generation ([ControllerSafety.terminal_status_final]);
      each of its writes respects the row as it is then;
      it announces at most one end, and only one the store has settled on
      ([callback_announces_settled]).
    - Runs of a job: admitted, then owned, then run, cleaned up, recorded and released,
      each at most once and in this order; a run that is not stopped by the
      infrastructure leaves a settled status that has been recorded
      ([RunJobSpec.run_job_protocol]).  The runner implements what the controller of the
      workflow assumes ([JobRunner.job_runner_composes]), and the instant-job controller
      what the runner assumes ([KubeSpec.instant_controller_lawful]), and so does the one of
      scheduled jobs ([ScheduledSpec.scheduled_controller_lawful]), which owns the CronJob it
      writes and removes no other ([scheduled_cron_owned]).
    - Event loop: once a message is acknowledged nobody can start an execution with it,
      and every operation of the loop keeps it so ([EventLoopSpec.dispatch_ack_is_final]);
      a claim and its delivery start the execution once, a redelivery changes nothing
      ([dispatch_runs_once]); restarts never overwrite what has ended
      ([restarts_keep_the_end]).
    - Cancellation: each write of the service is one the workers, leaders and controllers
      above allow ([CancelSpec.cancellation_respects_everyone]); a cancellation that
      reports success leaves the task cancelled and announces it
      ([cancel_is_announced]); the intent to call back is on record before the callback
      is triggered ([callback_intent_is_durable]); the replay has at most eight callbacks
      at work, none twice at a time, loses none of those it lists, and can return when the
      process stops ([CallbackReplay.replay_bounded_and_exact]).  What a cancelled job left on the cluster
      is removed only when it is the execution's, and marked so only with evidence
      ([CancelRecoverySpec.cancelled_cleanup_safe]); records that cannot be cleaned do not
      hide the others, as long as they fail within the time of their page, which its
      records share ([CancelReach.cleanup_reaches_all]).  Signals reach every watcher with
      their reason ([Signals]).
    - Pool: every interleaving starts each job at most once and none after a
      cancellation ([Pool.pool_runs_each_once]), and returns ([pool_terminates]).
    - Attempts: a Job is created only by the owner, from the checkpoint on record, when
      the one it replaces is gone and its Pods have ended, at most once per attempt and
      within the policy's attempts; a run succeeds only on a complete Job of the attempt
      on record ([RetryProtocol.retry_protocol]); the loop ends ([attempts_terminate]).
    - Results: every operation keeps the outbox well typed ([OutboxSpec.outbox_well_typed]);
      an old consumer of a row changes nothing ([result_owner_is_fenced],
      [ResultsSpec.lost_consumer_is_harmless]); nothing is removed from the cluster before
      the result is on record, and then only the bound Job and Pods it owns
      ([ResultsSpec.result_durable_before_cleanup]); the recovery
      of rows is exact ([OutboxRecovery.recovery_pass_exact]).
    - Delayed jobs: each execution is at most once in the dispatcher, is never early and
      never forgotten ([DelayLoops.delay_queue_exact]); every due checkpoint is found
      within a bounded number of passes ([DelayRecovery.recovery_sweep_complete]); a
      dispatch creates at most one Job, after its admission, the one its checkpoint and
      its workspace determine, and leaves its result in the
      outbox ([DelaySpec.delay_dispatch_protocol]).
    - Plans: a plan takes over exactly the newest committed record of each of its slots
      ([RestoreSpec.committed_work_taken_over]); no two jobs of a plan have the same
      execution key ([plan_jobs_apart]); clean-ups of removed components come before the
      steps they are recorded for, one for each component, and where their records cannot
      be read there is one that fails ([GenerateSpec.cleanups_precede_their_step]); the
      builder writes nothing of its own, and what it returns is complete and owned by its
      run ([generated_plan_well_formed]); a version update restricted to some components
      deploys no others and keeps the rest of the workflow
      ([Workflows.execution_scope_exact]).
    - Records: a job's record never goes back to an earlier attempt or from a success to
      a failure ([JobInfos.execution_record_monotone]); what one save writes
      ([save_job_info_exact]); a component's status is written on its own row, in the
      allowed columns, while what was seen holds ([Components.component_status_writes]).
    - Creation: permits granted in any window are bounded by burst and rate; a refusal
      costs nothing and its wait suffices; a rate change keeps the debt; starting
      sandboxes stay within their limit.
    - Recovery: an accepted checkpoint is within its retry budget; a live Job belongs to
      one execution; the scheduler re-admits what a worker can resume, up to the checks
      that only the worker makes ([Retry.recovery_agrees]).
    - Pods: the admission request is the Pod's peak; growth is exact, capped and keeps
      the template valid.
    - Pure functions: policy round trip and validation, cleanup graphs (equivalence of
      the depth-first search with "closed and acyclic" for every map order); lemmas:
      names are DNS labels, bounds of timeouts.
    - Locker: mutual exclusion ([Locker.locker_mutual_exclusion]), with lemmas on the
      hand-over, waiting and the exclusion of operations on one application.

    ** Bounds and fuel

    The scan of jobs recurses on the last identity, which descends; the admission rounds
    on one more than the queue's length, because a round takes a job out of the queue;
    the scan of retained sandboxes takes a bound on its pages, and one more than the
    number of sandboxes is enough when it runs alone: [AdmissionOrder.tick_terminates].
    The search of [Cleanup] takes one more than the number of tasks, proved enough in
    [resolution_graph_valid].  [Locker.Lock] takes the number of attempts to look at;
    one more than the retry count is enough ([lock_waits]), and without a retry count
    the code may wait for ever.  The JSON parser's fuel is the text's length; string
    loops take the length of their input, and 64 digits print any 64-bit number.
    Saves retry as often as the code says ([JobInfoSaveMaxAttempts], the attempts of
    [Controller.persist_attempts]).  A wait for an admission ends: [jr_polls] timers fire
    before its context is cancelled, which stands for any finite wait; the renewals
    during a clean-up, the wake-ups of a wait on the cluster ([kr_ticks]) and the looks
    at a deadline ([kr_looks]) are such numbers too.  A consumer claims a row in at most
    two attempts and an update of a record in [JobInfoSaveMaxAttempts], as in the code.  The
    recovery of checkpoints reads pages of 100 rows: [(cursor + top id) / 100 + 1] passes
    meet every row that stays due.  The loop of attempts takes
    [turns_left], proved enough in [attempts_terminate].  The restarts of a controller
    have no bound in the code: [runs] and [reloads] are the numbers looked at, and the
    theorem, about the rows at every end, holds for all of them; [reloads] used up is a
    cancelled context, which the code answers in the same way.  A cancellation tries three
    times, as in the code.  The loop over the pages of cancelled jobs is looked at for any
    number of turns; [2 * (n / 100 + 1) * (n + 1)] settle what can be settled of [n] records.

    ** What is assumed of other sessions

    [admission_capacity] relies on [tick_rely]: the policy row is locked, so no other
    tick and no policy change interleaves, and nobody else admits a job
    ([AdmissionGuard.only_ticks_admit]).  Other sessions may re-attach the executions of a
    set ([EnqueueJobForScheduling] of a recovered execution); one that is re-attached
    after a tick has found its owner gone keeps its admission uncounted until the next
    tick, so the bound grows by the size of the set.  [LeaseProtocol]
    assumes of other sessions only what it proves of every lease operation.

    The theorems on results and delayed jobs ask of other sessions that settled records
    keep status and identity ([settled_kept]), that the row of a result is not removed
    ([row_stays]) where they promise its presence, and of [delay_queue_exact] that
    [sort.Slice] sorts.  A consumer's token is fresh: no other claim of the row uses it.

    The theorems on dispatch and cancellation ask of other sessions what they prove of
    every operation: that a spent token stays spent ([spent_kept], a new claim draws a
    fresh one), that a cancelled task stays cancelled ([cancel_kept]), that an intent to
    call back stays on record ([intent_kept]).

    [retry_protocol] asks one law of the cluster: updating an object keeps its UID.  A
    failed statement is an [ErrDatabase], which wraps no context error: the code's
    deletion of a Job lets every error that wraps [context.Canceled] pass the ownership
    check, and with a statement that failed for a cancelled context the request that
    follows, on the same context, is not sent.

    ** What is not modelled

    - In [Store]: gorm's mapping beyond the fragment used, LIKE filters, collation,
      column lengths and the rounding of datetime columns; NULL and the empty string
      are told apart only where the column is a pointer.
    - Quantities are opaque values with the documented laws; [metav1.ObjectMeta] and
      Pod specs are records of the fields read.
    - [Json] differs from encoding/json as its header says.
    - The controllers of the job types other than instant and scheduled jobs: [RunJob] takes one as a
      [JobController], and [RunJobSpec] assumes of it [JobControllerLaws] (it does not
      touch the runner's events, and only its [Run] writes the job's status).
      [json.Marshal] of checkpoints and payloads and the message
      queue are parameters; telemetry and the invalidation of caches are left out, and
      so are the labels of a Pod template ([StampWorkspaceJobPodIdentity]).  An
      acknowledgement is one step, although the code's write is asynchronous to the
      run's other goroutines.
    - The workspace manager: the dispatcher of delayed jobs takes the namespace it reads,
      the preparation of the workload and the tenant's client as the record [Manager].
      The broker's redelivery is a step that may happen at any time.
    - The delivery of a callback once it is triggered and the loading of its
      configuration are parameters; goroutines that renew leases are represented by
      their writes.
    - Of the event loop: its tickers, the worker's read loop with its back-off and the
      semaphore of concurrent tasks; the clean-up fence of StatefulSets is a parameter,
      and so is the query for tasks whose callback is due (a LIKE on JSON text).
    - Of the job builder: [buildJobsForComponent], which renders the Kubernetes objects of
      a component (with shared resources and node pools), [BuildTask], which does so for
      the stages of a workspace's Job, the runner's container of an evaluation and the
      decoders of [jobs] are parameters; [generated_plan_well_formed] asks nothing of
      them, and what it says of writes is relative to the first two.  The clean-up of a
      component's resources is a parameter of [Generate.cleanup_Run].  [plan_jobs_apart]
      asks that the digests of the texts behind the keys of the plan differ where the
      texts do.
    - Traits, the application, account and conversion services, HTTP and
      gRPC, messaging, the Redis locks, informers and object storage: they translate
      specifications into Kubernetes objects or queries through the client libraries,
      and a model of them would be a model of those libraries' types. *)

From Stdlib Require Export ZArith Lia String Ascii Bool List.
From stdpp Require Export base option list gmap strings sorting.

#[global] Open Scope Z_scope.

(** ** Functional record update

    Go updates a struct field by field.  [Settable R] gives the eta expansion of
    a record constructor; [set p f r] is then [r] with the field [p] replaced by
    [f (p r)].  The setter is computed from the eta expansion, so it unfolds to
    a plain record expression. *)

Class Settable (R : Type) := settable_eta : R -> R.

Class Setter {R T : Type} (proj : R -> T) := set : (T -> T) -> R -> R.
Arguments set {R T} proj {Setter} _ _.

Ltac build_setter R proj :=
  let body :=
    constr:(fun r : R =>
      ltac:(let e := eval cbv beta delta [settable_eta] in (settable_eta (R := R) r) in
            let e := match e with ?f _ => let f' := eval red in f in constr:(f' r) | _ => e end in
            let e := eval cbv beta in e in
            exact e)) in
  exact (fun (f : _ -> _) (r : R) =>
           ltac:(let e := eval cbv beta in (body r) in
                 let g := eval pattern (proj r) in e in
                 match g with ?F _ => let t := eval cbv beta in (F (f (proj r))) in exact t end)).

#[export] Hint Extern 1 (@Setter ?R ?T ?proj) => build_setter R proj : typeclass_instances.

Declare Scope eruun_scope.
Delimit Scope eruun_scope with eruun.
#[global] Open Scope eruun_scope.

Notation "r <| p := v |>" := (set p (fun _ => v) r)
  (at level 1, left associativity, p constr, v constr, format "r  <| p  :=  v |>") : eruun_scope.

(** ** Errors

    Go errors are values.  The sentinels the modelled packages compare with
    [errors.Is] are constructors; [Errorf] is an error without a cause and
    [Wrapf] is [fmt.Errorf] with a [%w] verb around its cause. *)

Inductive error :=
  (* infrastructure/datastore *)
  | ErrPrimaryEmpty | ErrTableNameEmpty | ErrNilEntity | ErrRecordExist
  | ErrRecordNotExist | ErrIndexInvalid | ErrEntityInvalid | ErrDatabase
  (* domain/repository *)
  | ErrWorkflowFencingUnsupported | ErrWorkflowClockUnsupported
  | ErrWorkflowOwnershipRequired | ErrWorkflowOwnershipLost
  | ErrJobAdmissionExpired | ErrJobAdmissionReleased | ErrWorkflowLeaseRenewalFailed
  (* workflow/signal *)
  | ErrCancelSignalBackendUnavailable | ErrInfrastructureStop
  (* event/workflow and its job packages *)
  | ErrWorkflowTaskPersistenceUncertain | ErrWorkflowJobOwnershipChanged
  | ErrJobAdmissionRecoveryExecutionLost
  (* k8s.io/apimachinery/pkg/api/errors *)
  | ErrNotFound | ErrAlreadyExists | ErrConflict
  (* event/workflow/job/jobinfo *)
  | ErrJobExecutionIdentityChanged
  (* event/workflow/job/jobresult *)
  | ErrResultQueueUnavailable | ErrResultDispatchNoRetry | ErrResultOutboxOwnershipLost
  (* event/workflow/job/jobdelay *)
  | ErrDelayDispatchNoRetry | ErrDelayWaitingAdmission
  (* infrastructure/locker *)
  | ErrLockNotHeld | ErrLockAlreadyHeld | ErrLockAcquireFailed | ErrLockerClosed
  (* utils/bcode *)
  | ErrApplicationNotExist | ErrApplicationOperationLocked | ErrDistributedLockUnavailable
  | ErrForbidden | ErrWorkflowConfig | ErrWorkflowNotExist | ErrWorkflowTaskNotExist | ErrWorkflowTaskNotCancellable
  | ErrWorkflowTaskCancelConflict | ErrWorkflowCancelSignalUnavailable | ErrVersionUpdateTaskNotCancellable
  | ErrWorkflowApprovalActionInvalid | ErrWorkflowTaskNotAwaitingApproval | ErrWorkflowTaskRunning
  | ErrWorkflowTaskCancelling | ErrApplicationConfig
  (* domain/service/workflow *)
  | ErrPendingStatefulSetCleanup
  (* context *)
  | ContextCanceled | DeadlineExceeded
  (* a Status carried by an error (jobinfo.StatusError) *)
  | StatusError (status : string) (cause : error)
  | Errorf (msg : string)
  | Wrapf (msg : string) (cause : error)
  (* errors.Join of two errors *)
  | ErrJoin (e1 e2 : error).

#[export] Instance error_eq_dec : EqDecision error.
Proof. solve_decision. Defined.

(** [errors.Is]: the target itself or something it wraps. *)
Fixpoint errors_is (target e : error) : bool :=
  bool_decide (e = target) ||
  match e with
  | Wrapf _ c | StatusError _ c => errors_is target c
  | ErrJoin a b => errors_is target a || errors_is target b
  | _ => false
  end.

Inductive result (A : Type) :=
  | Ok (a : A)
  | Err (e : error).
Arguments Ok {A} a.
Arguments Err {A} e.

Definition is_ok {A} (r : result A) : bool := match r with Ok _ => true | Err _ => false end.

Definition result_bind {A B} (r : result A) (f : A -> result B) : result B :=
  match r with Ok a => f a | Err e => Err e end.

Notation "'check!' x <- r ; k" := (result_bind r (fun x => k))
  (at level 100, x name, r at level 99, k at level 200, right associativity) : eruun_scope.

(** ** Integers and time

    An unsigned 64-bit counter wraps; an instant is a number of nanoseconds
    since the Unix epoch and a duration a number of nanoseconds. *)

Definition two64 : Z := 2 ^ 64.
Definition u64 (z : Z) : Z := z mod two64.
Definition max_int64 : Z := 2 ^ 63 - 1.
Definition min_int64 : Z := - 2 ^ 63.
Definition in_int64 (z : Z) : Prop := min_int64 <= z <= max_int64.
(** Two's complement wrap-around of a signed 64-bit result. *)
Definition i64 (z : Z) : Z := (z + 2 ^ 63) mod two64 - 2 ^ 63.

Definition Nanosecond : Z := 1.
Definition Microsecond : Z := 1000.
Definition Millisecond : Z := 1000 * Microsecond.
Definition Second : Z := 1000 * Millisecond.
Definition Minute : Z := 60 * Second.
Definition Hour : Z := 60 * Minute.

(** [time.Time.Unix]: whole seconds, rounded towards the past. *)
Definition unix (t : Z) : Z := t / Second.

(** [time.Time.Sub] saturates. *)
Definition time_sub (a b : Z) : Z := Z.max min_int64 (Z.min max_int64 (a - b)).

Lemma u64_range z : 0 <= u64 z < two64.
Proof. apply Z.mod_pos_bound. reflexivity. Qed.

Lemma u64_small z : 0 <= z < two64 -> u64 z = z.
Proof. apply Z.mod_small. Qed.

Lemma u64_succ z : 0 <= z < two64 - 1 -> u64 (z + 1) = z + 1.
Proof. intros. apply u64_small. lia. Qed.

Lemma i64_small z : in_int64 z -> i64 z = z.
Proof.
  intros [Hl Hh]. unfold i64, two64, min_int64, max_int64 in *.
  rewrite Z.mod_small; lia.
Qed.

(** ** Strings *)

Definition str_empty (s : string) : bool := String.eqb s "".

Lemma str_empty_true s : str_empty s = true <-> s = ""%string.
Proof. apply String.eqb_eq. Qed.

Lemma str_empty_false s : str_empty s = false <-> s <> ""%string.
Proof. apply String.eqb_neq. Qed.

(** ** Lists *)

Lemma filter_length_le {A} (P Q : A -> bool) (l : list A) :
  (forall x, In x l -> P x = true -> Q x = true) ->
  (length (List.filter P l) <= length (List.filter Q l))%nat.
Proof.
  induction l as [|x l IH]; cbn; intros H; [lia|].
  specialize (IH (fun y Hy => H y (or_intror Hy))).
  pose proof (H x (or_introl eq_refl)) as Hx.
  destruct (P x); destruct (Q x); cbn; lia.
Qed.

Lemma filter_length_lt {A} (P Q : A -> bool) (l : list A) x :
  (forall y, In y l -> P y = true -> Q y = true) -> In x l -> Q x = true -> P x = false ->
  (length (List.filter P l) < length (List.filter Q l))%nat.
Proof.
  intros H Hx Qx Px. induction l as [|y l IH]; [done|]. cbn.
  pose proof (filter_length_le P Q l (fun z Hz => H z (or_intror Hz))) as Le.
  destruct Hx as [->|Hx].
  - rewrite Px, Qx. cbn. lia.
  - specialize (IH (fun z Hz => H z (or_intror Hz)) Hx).
    pose proof (H y (or_introl eq_refl)) as Hy.
    destruct (P y); destruct (Q y); cbn; lia || (by discriminate Hy).
Qed.

Lemma last_cons {A} (x : A) l d : List.last (x :: l) d = List.last l x.
Proof.
  revert x d. induction l as [|y l IH]; intros x d; [done|].
  change (List.last (y :: l) d = List.last (y :: l) x). by rewrite !IH.
Qed.

Lemma existsb_false {A} (P : A -> bool) (l : list A) :
  existsb P l = false -> forall x, In x l -> P x = false.
Proof.
  intros E x Hx. destruct (P x) eqn:Px; [|done].
  rewrite <- E. symmetry. apply existsb_exists. eauto.
Qed.

(** ** Tactics *)

(** Split every hypothesis that is a boolean conjunction or a negated
    comparison into propositions [lia] and [congruence] understand. *)
Ltac bool_to_prop :=
  repeat match goal with
  | H : (_ && _) = true |- _ => apply andb_true_iff in H; destruct H
  | H : (_ || _) = false |- _ => apply orb_false_iff in H; destruct H
  | H : negb _ = true |- _ => apply negb_true_iff in H
  | H : negb _ = false |- _ => apply negb_false_iff in H
  | H : (_ =? _)%string = true |- _ => apply String.eqb_eq in H
  | H : (_ =? _)%string = false |- _ => apply String.eqb_neq in H
  | H : str_empty _ = true |- _ => apply str_empty_true in H
  | H : str_empty _ = false |- _ => apply str_empty_false in H
  | H : (_ =? _) = true |- _ => apply Z.eqb_eq in H
  | H : (_ =? _) = false |- _ => apply Z.eqb_neq in H
  | H : (_ <=? _) = true |- _ => apply Z.leb_le in H
  | H : (_ <=? _) = false |- _ => apply Z.leb_gt in H
  | H : (_ <? _) = true |- _ => apply Z.ltb_lt in H
  | H : (_ <? _) = false |- _ => apply Z.ltb_ge in H
  end.

(** Case analysis on the next [if] or [match] of the goal, keeping the equation. *)
Ltac case_goal :=
  match goal with
  | |- context [if ?c then _ else _] =>
      lazymatch c with context [if _ then _ else _] => fail | _ => destruct c eqn:? end
  | |- context [match ?c with _ => _ end] =>
      lazymatch c with context [match _ with _ => _ end] => fail | _ => destruct c eqn:? end
  end.

Ltac case_hyp H :=
  match type of H with
  | context [match ?c with _ => _ end] =>
      lazymatch c with context [match _ with _ => _ end] => fail | _ => destruct c eqn:? end
  end.

(** What holds of a lower row whenever of a higher one splits a sorted list. *)
Lemma sorted_split {A} (R : A -> A -> Prop) (p : A -> bool) l :
  StronglySorted R l -> (forall a b, R a b -> p b = true -> p a = true) ->
  l = (List.filter p l ++ List.filter (fun a => negb (p a)) l)%list.
Proof.
  intros S D. induction S as [|a l S IH F]; [done|]. cbn. destruct (p a) eqn:E; cbn.
  - by rewrite <- IH.
  - assert (N : List.filter p l = []).
    { clear IH. induction F as [|b l Rab F IHF]; [done|]. cbn. inversion_clear S as [|? ? S' _].
      destruct (p b) eqn:Eb; [|auto]. rewrite (D a b Rab Eb) in E. done. }
    rewrite N in IH |- *. cbn in *. by rewrite <- IH.
Qed.

Lemma filter_perm {A} (P : A -> bool) l l' :
  l ≡ₚ l' -> List.filter P l ≡ₚ List.filter P l'.
Proof.
  induction 1 as [|x l l' _ IH|x y l|l1 l2 l3 _ IH1 _ IH2]; cbn; [done| | |by etrans].
  - destruct (P x); [by constructor|done].
  - destruct (P x), (P y); try done. constructor.
Qed.

