(* ===== verification/GoStrings.v ===== *)
(** The part of Go's [strings], [strconv] and [hash/fnv] packages the modelled
    code uses, on byte strings, and the helpers of [pkg/apiserver/utils] built
    on it ([random.go], [strings.go], [cron.go]).

    A Go string is a byte sequence, modelled as [String.string]; the functions
    work on [list ascii] and are wrapped.  [TrimSpace] removes the UTF-8
    encodings of every rune with the Unicode White_Space property, as
    [strings.TrimSpace] does.  [ToLower] lowers ASCII letters and the two other
    runes whose lower case is an ASCII letter (U+0130 and U+212A); the bytes of
    all other runes are kept, which no modelled caller can tell apart because
    they compare with ASCII constants or keep [a-z0-9-] only; [ToUpper] likewise,
    for the methods of requests. *)

From Stdlib Require Import OrdersEx.
From S2P Require Import Prelude.

Abbreviation bytes := (list ascii).

Definition explode : string -> bytes := list_ascii_of_string.
Definition implode : bytes -> string := string_of_list_ascii.

Lemma explode_implode l : explode (implode l) = l.
Proof. apply list_ascii_of_string_of_list_ascii. Qed.

Lemma implode_explode s : implode (explode s) = s.
Proof. apply string_of_list_ascii_of_string. Qed.

Lemma length_explode s : length (explode s) = String.length s.
Proof. induction s; cbn; congruence. Qed.

Lemma length_implode l : String.length (implode l) = length l.
Proof. rewrite <- length_explode, explode_implode. done. Qed.

Definition code (c : ascii) : Z := Z.of_N (N_of_ascii c).
Definition chr (z : Z) : ascii := ascii_of_N (Z.to_N z).

(** ** Character classes *)

Definition between (lo hi : Z) (c : ascii) : bool := (lo <=? code c) && (code c <=? hi).
Definition is_lower_alnum (c : ascii) : bool := between 97 122 c || between 48 57 c.
Definition is_dash (c : ascii) : bool := Ascii.eqb c "-".
Definition dns_char (c : ascii) : bool := is_lower_alnum c || is_dash c.

(** ** [strings.TrimSpace] *)

Definition space1 (c : ascii) : bool := between 9 13 c || (code c =? 32).
Definition space2 (a b : ascii) : bool :=
  (code a =? 194) && ((code b =? 133) || (code b =? 160)).
Definition space3 (a b c : ascii) : bool :=
  ((code a =? 225) && (code b =? 154) && (code c =? 128)) ||
  ((code a =? 226) && (code b =? 128) &&
     (between 128 138 c || (code c =? 168) || (code c =? 169) || (code c =? 175))) ||
  ((code a =? 226) && (code b =? 129) && (code c =? 159)) ||
  ((code a =? 227) && (code b =? 128) && (code c =? 128)).

(** Drop one leading space rune, if there is one. *)
Definition drop_space (p2 : ascii -> ascii -> bool) (p3 : ascii -> ascii -> ascii -> bool)
    (l : bytes) : option bytes :=
  match l with
  | a :: r =>
      if space1 a then Some r else
      match r with
      | b :: r' =>
          if p2 a b then Some r' else
          match r' with
          | c :: r'' => if p3 a b c then Some r'' else None
          | [] => None
          end
      | [] => None
      end
  | [] => None
  end.

Fixpoint trim_spaces (fuel : nat) p2 p3 (l : bytes) : bytes :=
  match fuel, drop_space p2 p3 l with
  | S n, Some r => trim_spaces n p2 p3 r
  | _, _ => l
  end.

Definition trim_left (l : bytes) : bytes := trim_spaces (length l) space2 space3 l.
Definition trim_right (l : bytes) : bytes :=
  rev (trim_spaces (length l) (fun a b => space2 b a) (fun a b c => space3 c b a) (rev l)).

Definition TrimSpace (s : string) : string := implode (trim_right (trim_left (explode s))).

(** [strings.TrimSpace(s) == ""] *)
Definition blank (s : string) : bool := str_empty (TrimSpace s).

Lemma blank_empty : blank "" = true.
Proof. reflexivity. Qed.

Lemma blank_nonempty s : blank s = false -> s <> ""%string.
Proof. intros H ->. discriminate. Qed.

(** ** [strings.ToLower] *)

Definition lower1 (c : ascii) : ascii := if between 65 90 c then chr (code c + 32) else c.

Fixpoint to_lower (l : bytes) : bytes :=
  match l with
  | a :: r =>
      match r with
      | b :: r' =>
          if (code a =? 196) && (code b =? 176) then "i"%char :: to_lower r' else
          match r' with
          | c :: r'' =>
              if (code a =? 226) && (code b =? 132) && (code c =? 170)
              then "k"%char :: to_lower r'' else lower1 a :: to_lower r
          | [] => lower1 a :: to_lower r
          end
      | [] => [lower1 a]
      end
  | [] => []
  end.

Definition ToLower (s : string) : string := implode (to_lower (explode s)).

(** ** [strings.ToUpper]: ASCII letters, and the runes U+0131 and U+017F whose upper case is one *)

Definition upper1 (c : ascii) : ascii := if between 97 122 c then chr (code c - 32) else c.

Fixpoint to_upper (l : bytes) : bytes :=
  match l with
  | a :: r =>
      match r with
      | b :: r' =>
          if (code a =? 196) && (code b =? 177) then "I"%char :: to_upper r'
          else if (code a =? 197) && (code b =? 191) then "S"%char :: to_upper r'
          else upper1 a :: to_upper r
      | [] => [upper1 a]
      end
  | [] => []
  end.

Definition ToUpper (s : string) : string := implode (to_upper (explode s)).

(** ** Prefixes, trimming, joining *)

Definition HasPrefix (s p : string) : bool := String.prefix p s.

Fixpoint drop_while {A} (p : A -> bool) (l : list A) : list A :=
  match l with
  | a :: r => if p a then drop_while p r else l
  | [] => []
  end.

(** [strings.Trim(s, cutset)] *)
Definition trim_by (p : ascii -> bool) (l : bytes) : bytes :=
  rev (drop_while p (rev (drop_while p l))).

Fixpoint Join (l : list string) (sep : string) : string :=
  match l with
  | [] => ""
  | [x] => x
  | x :: r => x ++ sep ++ Join r sep
  end%string.

(** [strings.Fields]: the maximal runs of bytes outside spaces. *)
Fixpoint fields_aux (fuel : nat) (cur l : bytes) : list bytes :=
  let flush := match cur with [] => [] | _ => [rev cur] end in
  match fuel, l with
  | S n, a :: r =>
      match drop_space space2 space3 l with
      | Some r' => flush ++ fields_aux n [] r'
      | None => fields_aux n (a :: cur) r
      end
  | _, _ => flush
  end.

Definition Fields (s : string) : list string :=
  map implode (fields_aux (length (explode s)) [] (explode s)).

(** ** [strconv.FormatUint] and [hash/fnv.New64a] *)

Definition digit (d : Z) : ascii := if d <? 10 then chr (48 + d) else chr (87 + d).

Fixpoint format_digits (fuel : nat) (base z : Z) (acc : bytes) : bytes :=
  match fuel with
  | S n => let acc' := digit (z mod base) :: acc in
           if z <? base then acc' else format_digits n base (z / base) acc'
  | O => acc
  end.

(** 64 digits are enough for any 64-bit value in base 2 and above. *)
Definition FormatUint (z base : Z) : string := implode (format_digits 64 base z []).

Definition FormatInt (z base : Z) : string :=
  if z <? 0 then ("-" ++ FormatUint (- z) base)%string else FormatUint z base.

Definition fnv64a (l : bytes) : Z :=
  fold_left (fun h c => u64 (Z.lxor h (code c) * 1099511628211)) l 14695981039346656037.

(** ** utils/random.go: [ToRFC1123Name] *)

(** [regexp.MustCompile(`[^a-z0-9-]+`).ReplaceAllString(s, "-")] *)
Fixpoint replace_runs (in_run : bool) (l : bytes) : bytes :=
  match l with
  | c :: r =>
      if dns_char c then c :: replace_runs false r
      else if in_run then replace_runs true r
      else "-"%char :: replace_runs true r
  | [] => []
  end.

(** [strings.Contains(s, "--")] *)
Fixpoint contains_dd (l : bytes) : bool :=
  match l with
  | a :: ((b :: _) as r) => (is_dash a && is_dash b) || contains_dd r
  | _ => false
  end.

(** [strings.ReplaceAll(s, "--", "-")] *)
Fixpoint replace_dd (l : bytes) : bytes :=
  match l with
  | a :: r =>
      match r with
      | b :: r' =>
          if is_dash a && is_dash b then "-"%char :: replace_dd r' else a :: replace_dd r
      | [] => [a]
      end
  | [] => []
  end.

(** [for strings.Contains(s, "--") { s = strings.ReplaceAll(s, "--", "-") }] *)
Fixpoint collapse (fuel : nat) (l : bytes) : bytes :=
  if contains_dd l then
    match fuel with S n => collapse n (replace_dd l) | O => l end
  else l.

Definition rfc1123_bytes (l : bytes) : bytes :=
  let l := replace_runs false (to_lower l) in
  trim_by is_dash (collapse (length l) l).

Definition ToRFC1123Name (s : string) : string :=
  let r := rfc1123_bytes (explode s) in
  match r with [] => "port"%string | _ => implode r end.

(** ** utils/strings.go *)

(** The replacer of [NormalizeLowerStrip] deletes space, LF, CR and TAB. *)
Definition strip_char (c : ascii) : bool :=
  (code c =? 32) || (code c =? 10) || (code c =? 13) || (code c =? 9).

Definition NormalizeLowerStrip (val : string) : string :=
  if str_empty val then ""%string
  else implode (List.filter (fun c => negb (strip_char c)) (to_lower (explode val))).

Fixpoint unique_trimmed (seen : gset string) (values : list string) : list string :=
  match values with
  | [] => []
  | v :: r =>
      let v := TrimSpace v in
      if str_empty v then unique_trimmed seen r
      else if bool_decide (v ∈ seen) then unique_trimmed seen r
      else v :: unique_trimmed ({[v]} ∪ seen) r
  end.

Definition UniqueTrimmed (values : list string) : list string := unique_trimmed ∅ values.

(** ** utils/cron.go *)

Definition NormalizeCronSchedule (schedule : string) : result string :=
  let trimmed := TrimSpace schedule in
  if str_empty trimmed then Err (Errorf "schedule is empty") else
  let fields := Fields trimmed in
  match length fields with
  | 5%nat => Ok (Join fields " ")
  | 6%nat =>
      let f0 := nth 0 fields ""%string in
      if negb (f0 =? "0")%string && negb (f0 =? "00")%string
      then Err (Errorf "cron seconds field must be 0")
      else Ok (Join (tl fields) " ")
  | _ => Err (Errorf "cron expression must have 5 or 6 fields")
  end.

Example cron_six : NormalizeCronSchedule " 0  5 * *	* 1 " = Ok "5 * * * 1"%string.
Proof. reflexivity. Qed.
Example rfc_example : ToRFC1123Name "--My_App..Name--" = "my-app-name"%string.
Proof. reflexivity. Qed.
Example format_example : FormatUint 255 36 = "73"%string.
Proof. reflexivity. Qed.

(** ** Lemmas *)

Lemma drop_while_suffix {A} (p : A -> bool) l : exists m, l = m ++ drop_while p l.
Proof.
  induction l as [|a l [m IH]]; cbn; [by exists []|].
  destruct (p a); [exists (a :: m); cbn; congruence | by exists []].
Qed.

Lemma drop_while_head {A} (p : A -> bool) l a r : drop_while p l = a :: r -> p a = false.
Proof.
  induction l as [|b l IH]; cbn; [discriminate|].
  destruct (p b) eqn:E; [auto|]. intros [= <- <-]. done.
Qed.

Lemma trim_by_infix p l : exists m n, l = m ++ trim_by p l ++ n.
Proof.
  unfold trim_by. destruct (drop_while_suffix p l) as [m Hm].
  destruct (drop_while_suffix p (rev (drop_while p l))) as [n Hn].
  exists m, (rev n). rewrite <- rev_app_distr, <- Hn, rev_involutive. exact Hm.
Qed.

Lemma trim_by_Forall p (P : ascii -> Prop) l : List.Forall P l -> List.Forall P (trim_by p l).
Proof.
  destruct (trim_by_infix p l) as (m & n & E). rewrite E at 1. intros H.
  apply List.Forall_app in H as [_ H]. apply List.Forall_app in H as [H _]. done.
Qed.

Lemma trim_by_length p l : (length (trim_by p l) <= length l)%nat.
Proof.
  destruct (trim_by_infix p l) as (m & n & E).
  apply (f_equal (@length _)) in E. rewrite !length_app in E. lia.
Qed.

Lemma trim_by_last p l a r : rev (trim_by p l) = a :: r -> p a = false.
Proof. unfold trim_by. rewrite rev_involutive. apply drop_while_head. Qed.

(** Trimming keeps the first byte when it is not in the cut set. *)
Lemma trim_by_head p a l : p a = false -> exists r, trim_by p (a :: l) = a :: r.
Proof.
  intros Ha. unfold trim_by. cbn [drop_while]. rewrite Ha. cbn [rev].
  induction (rev l) as [|b m IH]; cbn.
  - rewrite Ha. cbn. eauto.
  - destruct (p b); [exact IH|]. cbn. rewrite rev_app_distr. cbn. eauto.
Qed.

Lemma trim_by_first p l a r : trim_by p l = a :: r -> p a = false.
Proof.
  unfold trim_by. destruct (drop_while p l) as [|b m] eqn:E; [discriminate|].
  intros H. pose proof (drop_while_head _ _ _ _ E) as Hb.
  destruct (trim_by_head p b m Hb) as [r' Hr]. unfold trim_by in Hr.
  cbn [drop_while] in Hr. rewrite Hb in Hr. rewrite Hr in H. congruence.
Qed.

Lemma contains_dd_prefix l m : contains_dd (l ++ m) = false -> contains_dd l = false.
Proof.
  induction l as [|a [|b l] IH]; intros H; [done|done|].
  cbn [app contains_dd] in H |- *. apply orb_false_iff in H as [H1 H2].
  rewrite H1. apply IH. exact H2.
Qed.

Lemma contains_dd_suffix l m : contains_dd (l ++ m) = false -> contains_dd m = false.
Proof.
  induction l as [|a l IH]; [done|]. intros H. apply IH.
  cbn [app contains_dd] in H. destruct (l ++ m); [done|].
  apply orb_false_iff in H. tauto.
Qed.

Lemma trim_by_no_dd p l : contains_dd l = false -> contains_dd (trim_by p l) = false.
Proof.
  destruct (trim_by_infix p l) as (m & n & E). rewrite E at 1. intros H.
  eapply contains_dd_prefix, contains_dd_suffix, H.
Qed.

Lemma replace_runs_dns b l : List.Forall (fun c => dns_char c = true) (replace_runs b l).
Proof.
  revert b. induction l as [|c l IH]; intros b; cbn; [constructor|].
  destruct (dns_char c) eqn:E; [by constructor|].
  destruct b; [auto|]. by constructor.
Qed.

Lemma replace_dd_spec l :
  (List.Forall (fun c => dns_char c = true) l ->
   List.Forall (fun c => dns_char c = true) (replace_dd l)) /\
  (length (replace_dd l) <= length l)%nat /\
  (contains_dd l = true -> (length (replace_dd l) < length l)%nat).
Proof.
  induction l as [l IH] using (induction_ltof1 _ (@length ascii)); unfold ltof in IH.
  destruct l as [|a [|b r]]; [cbn; auto with lia|cbn; auto with lia|].
  destruct (IH r) as (Fr & Lr & _); [cbn; lia|].
  destruct (IH (b :: r)) as (Fb & Lb & Sb); [cbn; lia|].
  change (replace_dd (a :: b :: r)) with
    (if is_dash a && is_dash b then "-"%char :: replace_dd r else a :: replace_dd (b :: r)).
  cbn [contains_dd].
  destruct (is_dash a && is_dash b); cbn [orb length] in *; (split; [|split]).
  - intros H. inversion_clear H as [|? ? _ H']. inversion_clear H'. constructor; auto.
  - lia.
  - lia.
  - intros H. inversion_clear H. constructor; auto.
  - lia.
  - intros H. specialize (Sb H). lia.
Qed.

Lemma collapse_spec fuel l :
  (length l <= fuel)%nat ->
  List.Forall (fun c => dns_char c = true) l ->
  contains_dd (collapse fuel l) = false /\
  List.Forall (fun c => dns_char c = true) (collapse fuel l) /\
  (length (collapse fuel l) <= length l)%nat.
Proof.
  revert l. induction fuel as [|fuel IH]; intros l Hl HF; cbn [collapse].
  - destruct l; [cbn; auto | cbn in Hl; lia].
  - destruct (contains_dd l) eqn:E; [|auto].
    destruct (replace_dd_spec l) as (F & L & S). specialize (S E).
    destruct (IH (replace_dd l)) as (A & B & C); [lia|auto|].
    split; [done|split; [done|lia]].
Qed.

(** What [ToRFC1123Name] promises: a nonempty run of [a-z0-9-] without double
    dashes that neither starts nor ends with a dash. *)
Record dns_segment (l : bytes) : Prop := {
  seg_nonempty : l <> [];
  seg_chars : List.Forall (fun c => dns_char c = true) l;
  seg_no_dd : contains_dd l = false;
  seg_first : forall a r, l = a :: r -> is_dash a = false;
  seg_last : forall a r, rev l = a :: r -> is_dash a = false;
}.

Lemma rfc1123_bytes_spec l :
  List.Forall (fun c => dns_char c = true) (rfc1123_bytes l) /\
  contains_dd (rfc1123_bytes l) = false.
Proof.
  unfold rfc1123_bytes. cbv zeta.
  destruct (collapse_spec (length (replace_runs false (to_lower l)))
              (replace_runs false (to_lower l))) as (A & B & _);
    [lia | apply replace_runs_dns |].
  split; [by apply trim_by_Forall | by apply trim_by_no_dd].
Qed.

Lemma ToRFC1123Name_segment s : dns_segment (explode (ToRFC1123Name s)).
Proof.
  unfold ToRFC1123Name. cbv zeta.
  destruct (rfc1123_bytes (explode s)) as [|a r] eqn:E.
  - split.
    + done.
    + apply List.Forall_forall. intros x [<-|[<-|[<-|[<-|[]]]]]; reflexivity.
    + reflexivity.
    + intros a r H. vm_compute in H. injection H as <- _. reflexivity.
    + intros a r H. vm_compute in H. injection H as <- _. reflexivity.
  - rewrite explode_implode, <- E. destruct (rfc1123_bytes_spec (explode s)) as [F D].
    split; [congruence | done | done | |]; unfold rfc1123_bytes; cbv zeta; intros b m H.
    + eapply trim_by_first; eauto.
    + eapply trim_by_last; eauto.
Qed.

(** ** The order of strings *)

Lemma string_ltb_lt a b : String.ltb a b = true <-> String_as_OT.lt a b.
Proof.
  unfold String.ltb, String_as_OT.lt.
  change (String_as_OT.compare a b) with (String.compare a b).
  destruct (String.compare a b); split; congruence.
Qed.

Lemma string_ltb_trans a b c :
  String.ltb a b = true -> String.ltb b c = true -> String.ltb a c = true.
Proof. rewrite !string_ltb_lt. apply String_as_OT.lt_strorder. Qed.

Lemma string_ltb_irrefl a : String.ltb a a = false.
Proof.
  apply not_true_iff_false. rewrite string_ltb_lt.
  apply (StrictOrder_Irreflexive (R := String_as_OT.lt)).
Qed.

Lemma string_ltb_total a b : String.ltb a b = true \/ a = b \/ String.ltb b a = true.
Proof.
  unfold String.ltb. rewrite (String.compare_antisym b a). destruct (String.compare a b) eqn:E; cbn; auto.
  right. left. by apply String.compare_eq_iff.
Qed.

(** ** Decimal numbers *)

Definition decimal_value (l : bytes) (acc : Z) : Z :=
  fold_left (fun v c => v * 10 + (code c - 48)) l acc.

Lemma decimal_digit d : 0 <= d < 10 -> code (digit d) = 48 + d /\ is_dash (digit d) = false.
Proof.
  intros H. assert (Hd : In (Z.to_nat d) (seq 0 10)) by (apply in_seq; lia).
  rewrite <- (Z2Nat.id d) by lia. revert Hd. generalize (Z.to_nat d). intros n Hn.
  pose proof (proj1 (List.forallb_forall
    (fun n => (code (digit (Z.of_nat n)) =? 48 + Z.of_nat n) && negb (is_dash (digit (Z.of_nat n))))
    (seq 0 10)) eq_refl n Hn) as E.
  cbv beta in E. bool_to_prop. done.
Qed.

Lemma format_decimal fuel z acc :
  0 <= z < 10 ^ Z.of_nat fuel -> decimal_value (format_digits fuel 10 z acc) 0 = decimal_value acc z.
Proof.
  revert z acc. induction fuel as [|n IH]; intros z acc H; cbn [format_digits].
  { change (10 ^ Z.of_nat 0) with 1 in H. by replace z with 0 by lia. }
  assert (M : 0 <= z mod 10 < 10) by (apply Z.mod_pos_bound; lia).
  destruct (decimal_digit _ M) as [D _]. pose proof (Z.div_mod z 10 ltac:(lia)) as E.
  assert (B : 10 ^ Z.of_nat (S n) = 10 * 10 ^ Z.of_nat n)
    by (rewrite Nat2Z.inj_succ, Z.pow_succ_r; lia).
  destruct (z <? 10) eqn:L; bool_to_prop.
  - unfold decimal_value. cbn [fold_left]. rewrite D, Z.mod_small by lia. f_equal. lia.
  - rewrite IH by (split; [apply Z.div_pos; lia|apply Z.div_lt_upper_bound; lia]).
    unfold decimal_value. cbn [fold_left]. rewrite D. f_equal. lia.
Qed.

Lemma format_decimal_no_dash fuel z acc :
  0 <= z -> existsb is_dash acc = false -> existsb is_dash (format_digits fuel 10 z acc) = false.
Proof.
  revert z acc. induction fuel as [|n IH]; intros z acc Hz Ha; cbn [format_digits]; [done|].
  assert (Hd : existsb is_dash (digit (z mod 10) :: acc) = false).
  { cbn. destruct (decimal_digit (z mod 10)) as [_ ->]; [apply Z.mod_pos_bound; lia|done]. }
  destruct (z <? 10); [done|]. apply IH; [apply Z.div_pos; lia|done].
Qed.

Lemma FormatUint_decimal_inj a b :
  0 <= a < two64 -> 0 <= b < two64 -> FormatUint a 10 = FormatUint b 10 -> a = b.
Proof.
  assert (L : two64 < 10 ^ Z.of_nat 64) by reflexivity.
  intros Ha Hb E. unfold FormatUint in E. apply (f_equal explode) in E. rewrite !explode_implode in E.
  apply (f_equal (fun l => decimal_value l 0)) in E.
  rewrite !format_decimal in E by lia. exact E.
Qed.

(** ** [strconv.ParseUint] and [ParseInt], base 10 and 64 bits *)

Definition is_digit (c : ascii) : bool := (48 <=? code c) && (code c <=? 57).

Definition ParseUint (s : string) : option Z :=
  let l := explode s in
  if negb (str_empty s) && forallb is_digit l && (decimal_value l 0 <? two64)
  then Some (decimal_value l 0) else None.

Definition ParseInt (s : string) : option Z :=
  let '(negative, digits) :=
    match explode s with
    | "-"%char :: r => (true, r)
    | "+"%char :: r => (false, r)
    | l => (false, l)
    end in
  match ParseUint (implode digits) with
  | None => None
  | Some n =>
      if negative : bool then (if 2 ^ 63 <? n then None else Some (- n))
      else (if max_int64 <? n then None else Some n)
  end.

Lemma format_digits_spec fuel z acc : (0 < fuel)%nat -> 0 <= z -> forallb is_digit acc = true ->
  forallb is_digit (format_digits fuel 10 z acc) = true /\ format_digits fuel 10 z acc <> [].
Proof.
  revert z acc. induction fuel as [|n IH]; intros z acc F Hz Ha; [lia|]. cbn [format_digits].
  assert (M : 0 <= z mod 10 < 10) by (apply Z.mod_pos_bound; lia).
  assert (Hd : forallb is_digit (digit (z mod 10) :: acc) = true).
  { cbn. rewrite Ha, andb_true_r. unfold is_digit. destruct (decimal_digit _ M) as [-> _].
    apply andb_true_intro. split; apply Z.leb_le; lia. }
  destruct (z <? 10); [by split|]. destruct n as [|n]; [by split|]. apply IH; [lia|apply Z.div_pos; lia|done].
Qed.

Lemma ParseUint_digits l n : forallb is_digit l = true -> l <> [] -> decimal_value l 0 = n -> n < two64 ->
  ParseUint (implode l) = Some n.
Proof.
  intros D N V B. unfold ParseUint. rewrite explode_implode, D, V.
  rewrite (proj2 (Z.ltb_lt n two64) B). by destruct l.
Qed.

Lemma ParseUint_FormatUint n : 0 <= n < two64 -> ParseUint (FormatUint n 10) = Some n.
Proof.
  assert (L : two64 < 10 ^ Z.of_nat 64) by reflexivity. intros B. unfold FormatUint.
  assert (X : forall fuel, (0 < fuel)%nat -> n < 10 ^ Z.of_nat fuel -> ParseUint (implode (format_digits fuel 10 n [])) = Some n).
  { intros fuel F M. destruct (format_digits_spec fuel n [] F ltac:(lia) eq_refl) as [D N].
    apply ParseUint_digits; [done|done| |lia]. rewrite format_decimal by lia. reflexivity. }
  apply X; lia.
Qed.

(** What follows the last dash of a string. *)
Lemma last_segment_inj a b s t :
  existsb is_dash s = false -> existsb is_dash t = false ->
  (a ++ "-"%char :: s = b ++ "-"%char :: t)%list -> s = t.
Proof.
  intros Hs Ht E. apply app_eq_app in E as [l [[-> E]|[-> E]]].
  - destruct l as [|c l]; [by injection E|]. injection E as <- ->.
    rewrite existsb_app in Ht. apply orb_false_iff in Ht as [_ Ht]. discriminate.
  - destruct l as [|c l]; [by injection E|]. injection E as <- ->.
    rewrite existsb_app in Hs. apply orb_false_iff in Hs as [_ Hs]. discriminate.
Qed.

Lemma explode_app s t : explode (s ++ t)%string = (explode s ++ explode t)%list.
Proof. unfold explode. induction s as [|c s IH]; [done|]. cbn. by rewrite <- IH. Qed.
