(* ===== verification/Signals.v ===== *)
(** Cancellation signals: [pkg/apiserver/workflow/signal/cancel.go], and the durable
    callback intent of [pkg/apiserver/workflow/workflow.go].

    Redis is a parameter: [Redis] has the two commands the code sends, and
    [RedisLaws] the documented meaning of a key with a time to live. *)

From S2P Require Import Prelude GoStrings.

(** ** Trimming is idempotent *)

Lemma drop_space_app p2 p3 l m r : drop_space p2 p3 l = Some r -> drop_space p2 p3 (l ++ m) <> None.
Proof.
  destruct l as [|a [|b [|c l]]]; cbn; repeat case_match; done.
Qed.

Lemma drop_space_shorter p2 p3 l r : drop_space p2 p3 l = Some r -> (length r < length l)%nat.
Proof.
  destruct l as [|a [|b [|c l]]]; cbn; repeat case_match; intros; simplify_eq; cbn; lia.
Qed.

Lemma trim_spaces_stuck fuel p2 p3 l :
  (length l <= fuel)%nat -> drop_space p2 p3 (trim_spaces fuel p2 p3 l) = None.
Proof.
  revert l. induction fuel as [|n IH]; intros l L.
  - destruct l; [done|cbn in L; lia].
  - cbn [trim_spaces]. destruct (drop_space p2 p3 l) eqn:D; [|done].
    apply IH. apply drop_space_shorter in D. lia.
Qed.

Lemma trim_spaces_id fuel p2 p3 l : drop_space p2 p3 l = None -> trim_spaces fuel p2 p3 l = l.
Proof. destruct fuel; [done|]. cbn. by intros ->. Qed.

Lemma trim_spaces_suffix fuel p2 p3 l : exists m, l = m ++ trim_spaces fuel p2 p3 l.
Proof.
  revert l. induction fuel as [|n IH]; intros l; [by exists []|]. cbn [trim_spaces].
  destruct (drop_space p2 p3 l) as [r|] eqn:D; [|by exists []].
  assert (X : exists m, l = m ++ r).
  { destruct l as [|a [|b [|c l]]]; cbn in D; repeat case_match; simplify_eq;
      first [by exists [a]|by exists [a; b]|by exists [a; b; c]]. }
  destruct X as [m ->], (IH r) as [m' E]. exists (m ++ m'). by rewrite <- app_assoc, <- E.
Qed.

Lemma trim_right_prefix l : exists m, l = trim_right l ++ m.
Proof.
  unfold trim_right.
  set (p2 := fun a b => space2 b a). set (p3 := fun a b c => space3 c b a).
  destruct (trim_spaces_suffix (length l) p2 p3 (rev l)) as [m E].
  exists (rev m). rewrite <- rev_app_distr, <- E. symmetry. apply rev_involutive.
Qed.

Lemma trim_idem l : trim_right (trim_left (trim_right (trim_left l))) = trim_right (trim_left l).
Proof.
  set (k := trim_left l). assert (K : drop_space space2 space3 k = None) by (by apply trim_spaces_stuck).
  assert (L : trim_left (trim_right k) = trim_right k).
  { apply trim_spaces_id. destruct (trim_right_prefix k) as [m E].
    destruct (drop_space space2 space3 (trim_right k)) eqn:D; [|done].
    apply (drop_space_app _ _ _ m) in D. by rewrite <- E in D. }
  rewrite L. unfold trim_right at 1. rewrite trim_spaces_id.
  - apply rev_involutive.
  - unfold trim_right. rewrite rev_involutive. apply trim_spaces_stuck. by rewrite length_rev.
Qed.

Lemma TrimSpace_idem s : TrimSpace (TrimSpace s) = TrimSpace s.
Proof. unfold TrimSpace. by rewrite explode_implode, trim_idem. Qed.

Definition plain (c : ascii) : bool := between 33 126 c.

Lemma drop_space_plain p2 p3 a l :
  plain a = true ->
  (forall a b, plain a = true -> p2 a b = false) -> (forall a b c, plain a = true -> p3 a b c = false) ->
  drop_space p2 p3 (a :: l) = None.
Proof.
  intros P H2 H3. cbn. assert (space1 a = false) as ->.
  { unfold plain, between, space1, between in *. lia. }
  destruct l as [|b [|c l]]; [done| |]; rewrite (H2 a b P); [done|]. by rewrite (H3 a b c P).
Qed.

Lemma TrimSpace_plain l : forallb plain l = true -> TrimSpace (implode l) = implode l.
Proof.
  intros P. unfold TrimSpace. rewrite explode_implode. f_equal.
  assert (L : trim_left l = l).
  { apply trim_spaces_id. destruct l as [|a l]; [done|]. cbn in P. apply andb_true_iff in P as [P _].
    apply drop_space_plain; [done|..]; intros; unfold plain, between, space2, space3, between in *; lia. }
  rewrite L. unfold trim_right. rewrite trim_spaces_id; [apply rev_involutive|].
  destruct (rev l) as [|a r] eqn:E; [done|].
  assert (Pa : plain a = true).
  { apply (proj1 (forallb_forall plain l) P), in_rev. rewrite E. by left. }
  apply drop_space_plain; [done|..]; intros; unfold plain, between, space2, space3, between in *; lia.
Qed.

(** ** Markers *)

Definition cancelKeyPrefix : string := "eruun:workflow:cancel:".
Definition defaultExpiry : Z := 45 * Second.
Definition cancelCheckInterval : Z := 1 * Second.

Definition cancelMarker (reason : string) : string :=
  let trimmed := TrimSpace reason in
  let trimmed := if str_empty trimmed then "cancelled"%string else trimmed in
  ("cancelled:" ++ trimmed)%string.

Definition isCancelledToken (val : string) : bool := HasPrefix val "cancelled:".

(** [strings.SplitN(s, ":", 2)] *)
Fixpoint split_colon (l : bytes) : list bytes :=
  match l with
  | [] => [[]]
  | c :: r =>
      if Ascii.eqb c ":" then [[]; r]
      else match split_colon r with
           | [a; b] => [c :: a; b]
           | [a] => [c :: a]
           | x => x
           end
  end.

Definition extractCancelReason (val : string) : string :=
  if negb (isCancelledToken val) then "cancelled"%string else
  match map implode (split_colon (explode val)) with
  | [_; reason] => if str_empty reason then "cancelled"%string else reason
  | _ => "cancelled"%string
  end.

(** ** The watcher *)

Class Redis (R : Type) := {
  redis_get : R -> Z -> string -> result (option string);  (* [None] is redis.Nil *)
  redis_set : R -> Z -> string -> string -> Z -> result R;
}.

(** A key set with a time to live holds its value until then, whatever is written
    under other keys: [redis_elsewhere key r r'] when [r'] is [r] after such writes. *)
Class RedisLaws (R : Type) `{Redis R} := {
  redis_elsewhere : string -> R -> R -> Prop;
  redis_set_get r r' r'' t t' key value ttl got :
    redis_set r t key value ttl = Ok r' -> redis_elsewhere key r' r'' ->
    t <= t' < t + ttl -> redis_get r'' t' key = Ok got -> got = Some value;
}.

Record CancelWatcher := {
  cw_key : string;
  cw_reason : string;     (* cancelState *)
  cw_cancelled : bool;    (* the derived context was cancelled *)
}.

Section Watcher.
Context {R : Type} `{Redis R}.

Definition WatchWithClient (cli : option R) (now : Z) (taskID : string) : result CancelWatcher :=
  let taskID := TrimSpace taskID in
  if str_empty taskID then Err (Errorf "taskID is required") else
  match cli with
  | None => Err (Wrapf "redis client is nil" ErrCancelSignalBackendUnavailable)
  | Some cli =>
      let key := (cancelKeyPrefix ++ taskID)%string in
      match redis_get cli now key with
      | Err e => Err (Wrapf "inspect cancel key" e)
      | Ok existing =>
          let existing := default ""%string existing in
          if isCancelledToken existing
          then Ok (Build_CancelWatcher key (extractCancelReason existing) true)
          else Ok (Build_CancelWatcher key "" false)
      end
  end.

Definition CancelWithClient (cli : option R) (now : Z) (taskID reason : string) : result R :=
  let taskID := TrimSpace taskID in
  if str_empty taskID then Err (Errorf "taskID is required") else
  match cli with
  | None => Err (Wrapf "redis client is nil" ErrCancelSignalBackendUnavailable)
  | Some cli =>
      redis_set cli now (cancelKeyPrefix ++ taskID)%string (cancelMarker reason) defaultExpiry
  end.

(** One tick of [maintain]. *)
Definition step (cli : R) (now : Z) (w : CancelWatcher) : CancelWatcher :=
  match redis_get cli now (cw_key w) with
  | Ok (Some val) =>
      if isCancelledToken val
      then Build_CancelWatcher (cw_key w) (extractCancelReason val) true
      else w
  | _ => w
  end.
End Watcher.

(** ** The durable callback intent *)

Definition terminalCallbackPendingPrefix : string := "terminal callback pending: ".

(** The bytes of one encoded rune of more than one byte. *)
Definition valid_rune (l : bytes) : bool :=
  let cont := between 128 191 in
  match l with
  | [a; b] => between 194 223 a && cont b
  | [a; b; c] =>
      ((code a =? 224) && between 160 191 b ||
       (code a =? 237) && between 128 159 b ||
       (between 225 236 a || between 238 239 a) && cont b) && cont c
  | [a; b; c; d] =>
      ((code a =? 240) && between 144 191 b ||
       (code a =? 244) && between 128 143 b ||
       between 241 243 a && cont b) && cont c && cont d
  | _ => false
  end.

(** The size [utf8.DecodeLastRuneInString] reports; [l] is the string reversed. *)
Definition last_rune_size (l : bytes) : nat :=
  match l with
  | [] => 0%nat
  | c :: _ =>
      if code c <? 128 then 1%nat
      else if valid_rune (rev (take 2 l)) then 2%nat
      else if valid_rune (rev (take 3 l)) then 3%nat
      else if valid_rune (rev (take 4 l)) then 4%nat
      else 1%nat
  end.

Fixpoint drop_runes (fuel : nat) (limit : nat) (l : bytes) : bytes :=
  match fuel with
  | O => l
  | S n => if (limit <? length l)%nat then drop_runes n limit (drop (last_rune_size l) l) else l
  end.

Definition TerminalCallbackPendingReason (reason : string) : string :=
  let normalized := explode (TrimSpace reason) in
  let limit := (255 - String.length terminalCallbackPendingPrefix)%nat in
  (terminalCallbackPendingPrefix ++
     implode (rev (drop_runes (length normalized) limit (rev normalized))))%string.

Definition IsTerminalCallbackPending (reason : string) : bool :=
  HasPrefix reason terminalCallbackPendingPrefix.

(** [strings.TrimPrefix] *)
Definition TrimPrefix (s p : string) : string :=
  if HasPrefix s p then implode (drop (String.length p) (explode s)) else s.

Definition TerminalCallbackReason (reason : string) : string :=
  TrimSpace (TrimPrefix reason terminalCallbackPendingPrefix).

(** ** Every watcher sees the reason *)

Lemma has_prefix_app p s : HasPrefix (p ++ s) p = true.
Proof. unfold HasPrefix. induction p as [|c p IH]; [by destruct s|].
  change (String c p ++ s)%string with (String c (p ++ s)). cbn [String.prefix].
  destruct (ascii_dec c c) as [_|N]; [exact IH|by destruct N].
Qed.

Lemma trim_prefix_app p s : TrimPrefix (p ++ s) p = s.
Proof.
  unfold TrimPrefix. rewrite has_prefix_app, explode_app, <- length_explode, drop_app_length.
  apply implode_explode.
Qed.

Lemma marker_token reason : isCancelledToken (cancelMarker reason) = true.
Proof. apply has_prefix_app. Qed.

Lemma split_colon_app l m : ~ In ":"%char l -> split_colon (l ++ ":"%char :: m) = [l; m].
Proof.
  induction l as [|c l IH]; [done|]. intros N. cbn.
  destruct (Ascii.eqb_spec c ":"); [subst; exfalso; apply N; by left|].
  rewrite IH; [done|]. intros I. apply N. by right.
Qed.

(** The reason a watcher reports for a published marker. *)
Definition published_reason (reason : string) : string :=
  if blank reason then "cancelled"%string else TrimSpace reason.

Lemma marker_reason reason : extractCancelReason (cancelMarker reason) = published_reason reason.
Proof.
  unfold extractCancelReason. rewrite marker_token. cbn [negb].
  unfold cancelMarker, published_reason, blank.
  set (x := if str_empty (TrimSpace reason) then _ else _).
  change ("cancelled:" ++ x)%string with ("cancelled" ++ String ":" x)%string.
  rewrite explode_app. change (explode (String ":" x)) with (":"%char :: explode x).
  rewrite split_colon_app by (cbn; intuition discriminate). cbn [map]. rewrite implode_explode.
  assert (X : str_empty x = false) by (unfold x; by case_match).
  by rewrite X.
Qed.

Lemma last_rune_size_pos l : l <> [] -> (1 <= last_rune_size l)%nat.
Proof. destruct l as [|c l]; [done|]. intros _. cbn. repeat case_match; lia. Qed.

Lemma drop_runes_length fuel limit l :
  (length l <= fuel)%nat -> (length (drop_runes fuel limit l) <= Nat.min limit (length l))%nat.
Proof.
  revert l. induction fuel as [|n IH]; intros l L; [destruct l; cbn in *; lia|]. cbn [drop_runes].
  destruct (Nat.ltb_spec limit (length l)) as [A|A]; [|lia].
  assert (l <> []) as P%last_rune_size_pos by (intros ->; cbn in A; lia).
  specialize (IH (drop (last_rune_size l) l)). rewrite length_drop in IH. lia.
Qed.

Lemma drop_runes_id fuel limit l : (length l <= limit)%nat -> drop_runes fuel limit l = l.
Proof. intros L. destruct fuel; [done|]. cbn [drop_runes]. destruct (Nat.ltb_spec limit (length l)); [lia|done]. Qed.

(** A cancellation is delivered.  A watcher that polls Redis successfully
    before the marker expires is cancelled and reports the published reason, and so
    is one that starts then; polling every interval there are forty-five chances.
    The durable intent written on the task always fits its column of 255 bytes, is
    recognised as an intent, and gives back the trimmed reason whenever that is short
    enough to be stored whole. *)
Theorem cancellation_delivered {R : Type} `{RedisLaws R} (cli cli' cli'' : R) now t taskID reason :
  CancelWithClient (Some cli) now taskID reason = Ok cli' ->
  redis_elsewhere (cancelKeyPrefix ++ TrimSpace taskID)%string cli' cli'' -> now <= t < now + defaultExpiry ->
  (forall w got, cw_key w = (cancelKeyPrefix ++ TrimSpace taskID)%string ->
     redis_get cli'' t (cw_key w) = Ok got ->
     step cli'' t w = Build_CancelWatcher (cw_key w) (published_reason reason) true) /\
  (forall w, WatchWithClient (Some cli'') t taskID = Ok w ->
     cw_cancelled w = true /\ cw_reason w = published_reason reason) /\
  defaultExpiry = 45 * cancelCheckInterval /\
  (String.length (TerminalCallbackPendingReason reason) <= 255)%nat /\
  IsTerminalCallbackPending (TerminalCallbackPendingReason reason) = true /\
  ((String.length (TrimSpace reason) <= 228)%nat ->
   TerminalCallbackReason (TerminalCallbackPendingReason reason) = TrimSpace reason).
Proof.
  intros S E T. unfold CancelWithClient in S. destruct (str_empty (TrimSpace taskID)) eqn:Tk; [done|].
  assert (G : forall got, redis_get cli'' t (cancelKeyPrefix ++ TrimSpace taskID)%string = Ok got ->
    got = Some (cancelMarker reason)) by (intros got; apply (redis_set_get _ _ _ _ _ _ _ _ _ S E T)).
  assert (L : forall n, (String.length (terminalCallbackPendingPrefix ++ n) = 27 + String.length n)%nat).
  { intros n. by rewrite <- !length_explode, explode_app, length_app. }
  split; [|split; [|split; [done|split; [|split]]]].
  - intros w got K Hg. unfold step. rewrite Hg. rewrite K in Hg. rewrite (G _ Hg), marker_token.
    by rewrite marker_reason.
  - intros w. unfold WatchWithClient. rewrite Tk. destruct (redis_get _ _ _) as [got|e]; [|done].
    rewrite (G _ eq_refl). cbn [default from_option id]. rewrite marker_token, marker_reason. by intros [= <-].
  - unfold TerminalCallbackPendingReason. rewrite L, length_implode, length_rev.
    change (255 - String.length terminalCallbackPendingPrefix)%nat with 228%nat.
    set (b := explode (TrimSpace reason)). pose proof (drop_runes_length (length b) 228 (rev b)) as B.
    rewrite length_rev in B. lia.
  - apply has_prefix_app.
  - intros B. unfold TerminalCallbackReason, TerminalCallbackPendingReason. rewrite trim_prefix_app.
    rewrite drop_runes_id by (rewrite length_rev, length_explode; exact B).
    by rewrite rev_involutive, implode_explode, TrimSpace_idem.
Qed.

(** ** Witness *)

(** Redis as a map of values with the instant they expire. *)
Definition MapRedis : Type := gmap string (string * Z).

#[export] Instance Redis_map : Redis MapRedis := {|
  redis_get r now key := Ok (match r !! key with
    | Some (v, until) => if now <? until then Some v else None | None => None end);
  redis_set r now key value ttl := Ok (<[key := (value, now + ttl)]> r) |}.

#[export] Instance RedisLaws_map : RedisLaws MapRedis.
Proof.
  refine {| redis_elsewhere key r r' := r' !! key = r !! key |}.
  cbn. intros r r' r'' t t' key value ttl got [= <-] E T. rewrite E. setoid_rewrite lookup_insert_eq.
  destruct (Z.ltb_spec t' (t + ttl)); [by intros [= <-]|lia].
Defined.

Definition sample_redis : MapRedis :=
  <["eruun:workflow:cancel:task"%string := ("cancelled:by the user"%string, 45 * Second)]> ∅.

Lemma cancellation_delivered_witness :
  CancelWithClient (Some (∅ : MapRedis)) 0 " task " " by the user " = Ok sample_redis /\
  step sample_redis Second (Build_CancelWatcher "eruun:workflow:cancel:task" "" false) =
    Build_CancelWatcher "eruun:workflow:cancel:task" "by the user" true.
Proof.
  assert (C : CancelWithClient (Some (∅ : MapRedis)) 0 " task " " by the user " = Ok sample_redis) by reflexivity.
  assert (Same : redis_elsewhere (cancelKeyPrefix ++ TrimSpace " task ")%string sample_redis sample_redis)
    by reflexivity.
  split; [exact C|].
  destruct (cancellation_delivered (R := MapRedis) ∅ sample_redis sample_redis 0 Second " task "
    " by the user " C Same (conj (Zle_bool_imp_le 0 Second eq_refl) eq_refl)) as [W _].
  apply (W (Build_CancelWatcher "eruun:workflow:cancel:task" "" false)
    (Some "cancelled:by the user"%string)); reflexivity.
Defined.
