(* ===== verification/Naming.v ===== *)
(** Resource naming, [pkg/apiserver/workflow/naming/naming.go].

    Every name a component gets in Kubernetes is built here: the application and
    component segments are normalised, joined, and cut to the length limit with
    a stable hash suffix.  [IsValidLabelValue] of k8s.io/apimachinery is a
    parameter: [true] when [len(validation.IsValidLabelValue(v)) == 0]. *)

From S2P Require Import Prelude GoStrings.

Definition maxResourceNameLength : nat := 63.
Definition maxControllerOwnedResourceNameLength : nat := 52.
Definition hashSuffixLength : nat := 10.
Definition defaultComponentName : string := "component".
Definition defaultAppSegment : string := "app".
Definition defaultLabelValue : string := "label".

Definition normalizeSegment (value fallback : string) : string :=
  if blank value then fallback else
  let normalized := ToRFC1123Name value in
  if str_empty normalized then fallback else normalized.

Definition resourceSubject (app component : string) : string :=
  if str_empty app then component
  else if str_empty component then app
  else if (component =? app)%string || HasPrefix component (app ++ "-") then component
  else (app ++ "-" ++ component)%string.

Definition stableHashSuffix (value : string) (size : nat) : string :=
  if (size <=? 0)%nat then ""%string else
  let hash := explode (FormatUint (fnv64a (explode value)) 36) in
  if (size <=? length hash)%nat then implode (take size hash)
  else implode (List.repeat "0"%char (size - length hash) ++ hash).

Definition boundedRFC1123Name (value : string) (maxLen : nat) (fallback : string) : string :=
  let maxLen := if (maxLen <? 1)%nat then maxResourceNameLength else maxLen in
  let normalized := ToRFC1123Name value in
  let normalized := if str_empty normalized then fallback else normalized in
  if (String.length normalized <=? maxLen)%nat then normalized else
  let hashPart := stableHashSuffix normalized hashSuffixLength in
  let prefixLen := Z.of_nat maxLen - Z.of_nat (String.length hashPart) - 1 in
  if prefixLen <? 1 then
    if (maxLen <? String.length hashPart)%nat then implode (take maxLen (explode hashPart))
    else hashPart
  else
    let prefixLen := Z.to_nat prefixLen in
    let prefix := implode (trim_by is_dash (take prefixLen (explode normalized))) in
    let prefix :=
      if str_empty prefix then
        if (prefixLen <? String.length fallback)%nat
        then implode (take prefixLen (explode fallback)) else fallback
      else prefix in
    (prefix ++ "-" ++ hashPart)%string.

Definition buildResourceName (maxLen : nat) (appName componentName : string) : string :=
  let component := normalizeSegment componentName defaultComponentName in
  let app := normalizeSegment appName defaultAppSegment in
  boundedRFC1123Name (resourceSubject app component) maxLen defaultComponentName.

Definition WebServiceName (name appName : string) : string :=
  buildResourceName maxResourceNameLength appName name.
Definition ServiceName (name appName : string) : string :=
  buildResourceName maxResourceNameLength appName name.
Definition StoreServerName (name appName : string) : string :=
  buildResourceName maxControllerOwnedResourceNameLength appName name.
Definition GatewayRouteName (name appName : string) : string :=
  buildResourceName maxResourceNameLength appName name.
Definition JobName (name appName : string) : string :=
  buildResourceName maxResourceNameLength appName name.
Definition CronJobName (name appName : string) : string :=
  buildResourceName maxControllerOwnedResourceNameLength appName name.

Definition ApplicationResourceKey (appName : string) : string :=
  normalizeSegment appName defaultAppSegment.

Definition BoundedLabelValue (value : string) : string :=
  boundedRFC1123Name value maxResourceNameLength defaultLabelValue.

Definition NormalizeLabelValue (value : string) : string :=
  if blank value then ""%string
  else boundedRFC1123Name value maxResourceNameLength defaultLabelValue.

Definition NormalizeInvalidLabelValue (IsValidLabelValue : string -> bool) (value : string)
    : string :=
  if IsValidLabelValue value then value else NormalizeLabelValue value.

(** A nil map and an empty map have the same lookups; both are [∅]. *)
Definition NormalizeLabelValues (values : gmap string string) : gmap string string :=
  if bool_decide (size values = 0%nat) then ∅ else NormalizeLabelValue <$> values.

(** ** A DNS label: what Kubernetes accepts as a resource name *)

Record dns_label (maxLen : nat) (s : string) : Prop := {
  label_length : (1 <= String.length s <= maxLen)%nat;
  label_chars : List.Forall (fun c => dns_char c = true) (explode s);
  label_first : forall a r, explode s = a :: r -> is_lower_alnum a = true;
  label_last : forall a r, rev (explode s) = a :: r -> is_lower_alnum a = true;
}.

Lemma dns_char_not_dash c : dns_char c = true -> is_dash c = false -> is_lower_alnum c = true.
Proof. unfold dns_char. intros H E. rewrite E in H. destruct (is_lower_alnum c); done. Qed.

Lemma segment_label s maxLen :
  dns_segment (explode s) -> (String.length s <= maxLen)%nat -> dns_label maxLen s.
Proof.
  intros [N F D A Z] L. pose proof (proj1 (List.Forall_forall _ _) F) as F'.
  split.
  - rewrite <- length_explode in *. destruct (explode s); [done|cbn in *; lia].
  - done.
  - intros a r E. apply dns_char_not_dash; [|eauto]. apply F'. rewrite E. by left.
  - intros a r E. apply dns_char_not_dash; [|eauto]. apply F'. apply in_rev. rewrite E. by left.
Qed.

(** ** The hash suffix is ten base-36 digits *)

Lemma digit_alnum d : 0 <= d < 36 -> is_lower_alnum (digit d) = true.
Proof.
  intros H. assert (Hd : In (Z.to_nat d) (seq 0 36)) by (apply in_seq; lia).
  rewrite <- (Z2Nat.id d) by lia. revert Hd. generalize (Z.to_nat d). intros n Hn.
  apply (proj1 (List.forallb_forall (fun n => is_lower_alnum (digit (Z.of_nat n))) (seq 0 36))
           eq_refl n Hn).
Qed.

Lemma format_digits_alnum fuel z acc :
  0 <= z -> List.Forall (fun c => is_lower_alnum c = true) acc ->
  List.Forall (fun c => is_lower_alnum c = true) (format_digits fuel 36 z acc).
Proof.
  revert z acc. induction fuel as [|n IH]; intros z acc Hz Ha; cbn [format_digits]; [done|].
  assert (Hd : List.Forall (fun c => is_lower_alnum c = true) (digit (z mod 36) :: acc)).
  { constructor; [apply digit_alnum; apply Z.mod_pos_bound; lia | done]. }
  destruct (z <? 36); [done|]. apply IH; [apply Z.div_pos; lia | done].
Qed.

Lemma fnv64a_nonneg l : 0 <= fnv64a l.
Proof.
  unfold fnv64a. assert (H : 0 <= 14695981039346656037) by lia. revert H.
  generalize 14695981039346656037. induction l as [|c l IH]; intros z Hz; [done|].
  cbn [fold_left]. apply IH, u64_range.
Qed.

Lemma Forall_repeat {A} (P : A -> Prop) x n : P x -> List.Forall P (List.repeat x n).
Proof. intros H. induction n; cbn; auto. Qed.

Lemma stableHashSuffix_spec value :
  String.length (stableHashSuffix value hashSuffixLength) = hashSuffixLength /\
  List.Forall (fun c => is_lower_alnum c = true)
    (explode (stableHashSuffix value hashSuffixLength)).
Proof.
  unfold stableHashSuffix. change (hashSuffixLength <=? 0)%nat with false. cbv iota zeta.
  unfold FormatUint. rewrite explode_implode.
  assert (H := format_digits_alnum 64 (fnv64a (explode value)) [] (fnv64a_nonneg _)
                 (List.Forall_nil _)).
  set (hash := format_digits 64 36 (fnv64a (explode value)) []) in *. clearbody hash.
  destruct (hashSuffixLength <=? length hash)%nat eqn:E;
    rewrite length_implode, explode_implode.
  - apply Nat.leb_le in E. split; [rewrite length_take; lia|].
    apply (proj2 (List.Forall_forall _ _)). intros x Hx.
    apply (proj1 (List.Forall_forall _ _) H). apply list_elem_of_In, elem_of_take in Hx.
    destruct Hx as (i & Hi & _). apply list_elem_of_In. by eapply list_elem_of_lookup_2.
  - apply Nat.leb_gt in E. rewrite length_app, repeat_length. split; [lia|].
    apply List.Forall_app. split; [by apply Forall_repeat | done].
Qed.

Lemma lower_alnum_dns c : is_lower_alnum c = true -> dns_char c = true.
Proof. unfold dns_char. by intros ->. Qed.

#[local] Hint Resolve lower_alnum_dns : core.

Definition effectiveMaxLen (maxLen : nat) : nat :=
  if (maxLen <? 1)%nat then maxResourceNameLength else maxLen.

Lemma effectiveMaxLen_pos n : (1 <= effectiveMaxLen n)%nat.
Proof. unfold effectiveMaxLen. destruct (Nat.ltb_spec n 1); unfold maxResourceNameLength; lia. Qed.

(** A nonempty word of lower-case letters and digits is a label. *)
Lemma alnum_label maxLen l :
  (1 <= length l <= maxLen)%nat -> List.Forall (fun c => is_lower_alnum c = true) l ->
  dns_label maxLen (implode l).
Proof.
  intros L F. pose proof (proj1 (List.Forall_forall _ _) F) as F'.
  split; rewrite ?length_implode, ?explode_implode; [done|..].
  - eapply List.Forall_impl; [|exact F]. auto.
  - intros a r ->. apply F'. by left.
  - intros a r E. apply F'. apply in_rev. rewrite E. by left.
Qed.

(** A label made of a segment prefix, a dash and an alphanumeric suffix. *)
Lemma prefixed_label maxLen (l h : bytes) a r :
  l = a :: r -> is_lower_alnum a = true -> List.Forall (fun c => dns_char c = true) l ->
  h <> [] -> List.Forall (fun c => is_lower_alnum c = true) h ->
  (length l + 1 + length h <= maxLen)%nat ->
  dns_label maxLen (implode l ++ "-" ++ implode h)%string.
Proof.
  intros -> Ha Fl Hh Fh L. set (l := a :: r) in *.
  assert (E : explode (implode l ++ "-" ++ implode h)%string = l ++ "-"%char :: h).
  { rewrite !explode_app, !explode_implode. reflexivity. }
  split.
  - rewrite <- length_explode, E, length_app. cbn [length] in *. lia.
  - rewrite E. apply List.Forall_app. split; [done|]. constructor; [done|].
    eapply List.Forall_impl; [|exact Fh]. auto.
  - rewrite E. intros b m [= <- _]. done.
  - rewrite E. intros b m. rewrite rev_app_distr. cbn [rev].
    destruct (rev h) as [|c t] eqn:Eh.
    + apply (f_equal (@rev _)) in Eh. rewrite rev_involutive in Eh. done.
    + intros [= <- _]. apply (proj1 (List.Forall_forall _ _) Fh). apply in_rev.
      rewrite Eh. by left.
Qed.

Lemma Forall_take {A} (P : A -> Prop) n l : List.Forall P l -> List.Forall P (take n l).
Proof.
  revert n. induction l as [|x l IH]; intros [|n] H; cbn; auto.
  inversion_clear H. constructor; auto.
Qed.

Lemma str_empty_implode l : l <> [] -> str_empty (implode l) = false.
Proof. intros H. apply str_empty_false. destruct l; done. Qed.

Lemma segment_nonempty s : dns_segment (explode s) -> str_empty s = false.
Proof. intros [N _ _ _ _]. apply str_empty_false. intros ->. done. Qed.

Lemma boundedRFC1123Name_label value maxLen fallback :
  dns_label (effectiveMaxLen maxLen) (boundedRFC1123Name value maxLen fallback).
Proof.
  unfold boundedRFC1123Name. fold (effectiveMaxLen maxLen). cbv zeta.
  pose proof (effectiveMaxLen_pos maxLen) as Hpos. set (m := effectiveMaxLen maxLen) in *.
  pose proof (ToRFC1123Name_segment value) as Seg. set (n := ToRFC1123Name value) in *.
  rewrite (segment_nonempty n Seg).
  destruct (String.length n <=? m)%nat eqn:E.
  { apply segment_label; [done | by apply Nat.leb_le]. }
  apply Nat.leb_gt in E. destruct (stableHashSuffix_spec n) as [Lh Fh].
  set (h := stableHashSuffix n hashSuffixLength) in *. rewrite Lh.
  unfold hashSuffixLength in *.
  destruct (Z.ltb_spec (Z.of_nat m - Z.of_nat 10 - 1) 1) as [Hs|Hs].
  - destruct (Nat.ltb_spec m 10).
    + apply alnum_label; [rewrite length_take, length_explode; lia | by apply Forall_take].
    + rewrite <- (implode_explode h). apply alnum_label; [rewrite length_explode; lia | done].
  - destruct Seg as [Nn Fn _ An _].
    destruct (explode n) as [|a r] eqn:En; [done|].
    pose proof (An a r eq_refl) as Ha.
    replace (Z.to_nat (Z.of_nat m - Z.of_nat 10 - 1)) with (S (m - 12)) by lia.
    cbn [take].
    destruct (trim_by_head is_dash a (take (m - 12) r) Ha) as [t Ht]. rewrite Ht.
    rewrite str_empty_implode by done.
    rewrite <- (implode_explode h). eapply prefixed_label; [reflexivity|..].
    + apply dns_char_not_dash; [|done]. by inversion Fn.
    + rewrite <- Ht. apply trim_by_Forall. inversion_clear Fn. constructor; [done|].
      by apply Forall_take.
    + intros Eh. rewrite <- length_explode, Eh in Lh. done.
    + done.
    + pose proof (trim_by_length is_dash (a :: take (m - 12) r)) as Lt. rewrite Ht in Lt.
      cbn [length] in *. rewrite length_take in Lt. rewrite length_explode. lia.
Qed.

(** ** Normalised names are fixed points *)

Lemma dns_char_range c : dns_char c = true -> between 65 90 c = false /\ 45 <= code c <= 122.
Proof. destruct c as [[] [] [] [] [] [] [] []]; vm_compute; intuition discriminate. Qed.

Lemma lower1_dns c : dns_char c = true -> lower1 c = c.
Proof. intros H. unfold lower1. by destruct (dns_char_range c H) as [-> _]. Qed.

Lemma to_lower_dns l : List.Forall (fun c => dns_char c = true) l -> to_lower l = l.
Proof.
  induction l as [|a l IH]; intros H; [done|]. inversion_clear H as [|? ? Ha Hl].
  pose proof (lower1_dns a Ha) as La. destruct (dns_char_range a Ha) as [_ Ra].
  specialize (IH Hl). cbn [to_lower]. destruct l as [|b [|c r]].
  - by rewrite La.
  - replace (code a =? 196) with false by (symmetry; apply Z.eqb_neq; lia).
    cbn [andb]. by rewrite La, IH.
  - replace (code a =? 196) with false by (symmetry; apply Z.eqb_neq; lia).
    replace (code a =? 226) with false by (symmetry; apply Z.eqb_neq; lia).
    cbn [andb]. by rewrite La, IH.
Qed.

Lemma replace_runs_id b l :
  List.Forall (fun c => dns_char c = true) l -> replace_runs b l = l.
Proof.
  revert b. induction l as [|c l IH]; intros b H; [done|]. inversion_clear H as [|? ? Hc Hl].
  cbn [replace_runs]. rewrite Hc. by rewrite IH.
Qed.

Lemma collapse_id n l : contains_dd l = false -> collapse n l = l.
Proof. intros H. destruct n; cbn [collapse]; by rewrite H. Qed.

Lemma trim_by_id p l :
  (forall a r, l = a :: r -> p a = false) -> (forall a r, rev l = a :: r -> p a = false) ->
  trim_by p l = l.
Proof.
  intros A Z. unfold trim_by.
  replace (drop_while p l) with l
    by (destruct l as [|a l]; [done|cbn; by rewrite (A a l eq_refl)]).
  destruct (rev l) as [|a r] eqn:E.
  - apply (f_equal (@rev _)) in E. by rewrite rev_involutive in E.
  - cbn [drop_while]. rewrite (Z a r eq_refl), <- E. apply rev_involutive.
Qed.

Lemma ToRFC1123Name_segment_id s : dns_segment (explode s) -> ToRFC1123Name s = s.
Proof.
  intros [N F D A Z]. unfold ToRFC1123Name, rfc1123_bytes. cbv zeta.
  rewrite (to_lower_dns _ F), (replace_runs_id _ _ F), (collapse_id _ _ D), (trim_by_id _ _ A Z).
  destruct (explode s) eqn:E; [done|]. rewrite <- E. apply implode_explode.
Qed.

(** Every Kubernetes object name the runtime derives from a component and an
    application name is a DNS label (lower-case letters, digits and dashes, not
    starting or ending with a dash) of at most 63 bytes, and of at most 52 bytes
    for the StatefulSets and CronJobs whose controllers append to it, whatever
    the two input strings are. *)
Theorem resource_names_are_labels :
  forall name app : string,
    dns_label maxResourceNameLength (WebServiceName name app) /\
    dns_label maxResourceNameLength (ServiceName name app) /\
    dns_label maxResourceNameLength (GatewayRouteName name app) /\
    dns_label maxResourceNameLength (JobName name app) /\
    dns_label maxControllerOwnedResourceNameLength (StoreServerName name app) /\
    dns_label maxControllerOwnedResourceNameLength (CronJobName name app).
Proof.
  intros name app.
  pose proof (fun m => boundedRFC1123Name_label
    (resourceSubject (normalizeSegment app defaultAppSegment)
       (normalizeSegment name defaultComponentName)) m defaultComponentName) as H.
  repeat split; apply H.
Qed.

(** Label normalisation keeps a blank value empty and otherwise yields a label
    of at most 63 bytes; it changes no value that is already such a normalised
    segment, so normalising twice is normalising once for short values; and the
    map version normalises every value and keeps every key. *)
Theorem label_normalisation :
  (forall v, NormalizeLabelValue v = ""%string \/
             dns_label maxResourceNameLength (NormalizeLabelValue v)) /\
  (forall v, ToRFC1123Name (ToRFC1123Name v) = ToRFC1123Name v) /\
  (forall v, dns_segment (explode v) -> (String.length v <= maxResourceNameLength)%nat ->
             BoundedLabelValue v = v) /\
  (forall (m : gmap string string) k,
     NormalizeLabelValues m !! k = NormalizeLabelValue <$> (m !! k)).
Proof.
  split; [|split; [|split]].
  - intros v. unfold NormalizeLabelValue. destruct (blank v); [by left|right].
    apply (boundedRFC1123Name_label v maxResourceNameLength).
  - intros v. apply ToRFC1123Name_segment_id, ToRFC1123Name_segment.
  - intros v Hv L. unfold BoundedLabelValue, boundedRFC1123Name. cbv zeta.
    rewrite (ToRFC1123Name_segment_id v Hv), (segment_nonempty v Hv).
    change (maxResourceNameLength <? 1)%nat with false. cbv iota.
    by rewrite (proj2 (Nat.leb_le _ _) L).
  - intros m k. unfold NormalizeLabelValues. case_bool_decide as E.
    + apply map_size_empty_inv in E as ->. by rewrite !lookup_empty.
    + by rewrite lookup_fmap.
Qed.
