(* ===== verification/Config.v ===== *)
(** Shared constants and classifications: [pkg/apiserver/config/consts.go],
    [pkg/apiserver/workflow/config] failure and run policies, and the status
    classifications of [domain/model/workflow_queue.go],
    [domain/repository/job_scheduler.go] and
    [event/workflow/job/jobinfo/info_status.go].

    [config.Status], [config.JobType] and the other enumerations of the source
    are string types, so they are strings here. *)

From S2P Require Import Prelude GoStrings.

Abbreviation Status := string (only parsing).
Abbreviation JobType := string (only parsing).

(** ** [config.Status] *)

Definition StatusCompleted : Status := "completed".
Definition StatusCreated : Status := "created".
Definition StatusRunning : Status := "running".
Definition StatusPassed : Status := "passed".
Definition StatusSkipped : Status := "skipped".
Definition StatusFailed : Status := "failed".
Definition StatusTimeout : Status := "timeout".
Definition StatusCancelled : Status := "cancelled".
Definition StatusWaiting : Status := "waiting".
Definition StatusQueued : Status := "queued".
Definition StatusBlocked : Status := "blocked".
Definition QueueItemPending : Status := "pending".
Definition StatusNotRun : Status := "notRun".
Definition StatusPrepare : Status := "prepare".
Definition StatusReject : Status := "reject".
Definition StatusDistributed : Status := "distributed".
Definition StatusWaitingApprove : Status := "wait_for_approval".
Definition StatusDebugBefore : Status := "debug_before".
Definition StatusDebugAfter : Status := "debug_after".

(** Every status the source declares. *)
Definition declared_statuses : list Status :=
  [StatusCompleted; StatusCreated; StatusRunning; StatusPassed; StatusSkipped; StatusFailed;
   StatusTimeout; StatusCancelled; StatusWaiting; StatusQueued; StatusBlocked;
   QueueItemPending; StatusNotRun; StatusPrepare; StatusReject; StatusDistributed;
   StatusWaitingApprove; StatusDebugBefore; StatusDebugAfter].

(** ** [config.JobType] *)

Definition ServerJob : JobType := "webservice".
Definition StoreJob : JobType := "store".
Definition ConfJob : JobType := "config".
Definition SecretJob : JobType := "secret".
Definition InstantJob : JobType := "job".
Definition ScheduledJob : JobType := "scheduledjob".
Definition JobDeploy : JobType := "deploy".
Definition JobDeployService : JobType := "service_deploy".
Definition JobDeployStore : JobType := "store_deploy".
Definition JobDeployPVC : JobType := "store_pvc_deploy".
Definition JobDeployConfigMap : JobType := "configmap_deploy".
Definition JobDeploySecret : JobType := "secret_deploy".
Definition JobDeployRoute : JobType := "route_deploy".
Definition JobDeleteResource : JobType := "resource_delete".
Definition JobDeployInstant : JobType := "instant_job".
Definition JobDeployScheduled : JobType := "scheduled_job".
Definition JobDeployCallback : JobType := "callback".
Definition JobCleanupResources : JobType := "cleanup_resources".
Definition JobDatabaseReset : JobType := "database_reset".
Definition JobLogArchiveUpload : JobType := "log_archive_upload".
Definition JobVersionRestart : JobType := "version_restart".
Definition JobCommand : JobType := "command".
Definition JobEval : JobType := "eval".

Definition JobDelayStatePending : string := "pending".
Definition JobDelayStateDispatched : string := "dispatched".

Definition AnnotationJobStartTime : string := "eruun.job/startTime".
Definition AnnotationJobTaskID : string := "eruun.job/taskId".
Definition AnnotationJobExecutionKey : string := "eruun.io/job-execution-key".
Definition AnnotationJobRunGeneration : string := "eruun.io/job-run-generation".
Definition AnnotationJobRetryPolicy : string := "eruun.io/job-retry-policy".
Definition AnnotationJobAttempt : string := "eruun.io/job-attempt".

(** Membership in a [switch] list of string constants. *)
Definition one_of (l : list string) (s : string) : bool := existsb (String.eqb s) l.

Lemma one_of_In l s : one_of l s = true <-> In s l.
Proof.
  unfold one_of. rewrite existsb_exists. split.
  - intros (x & Hx & E). apply String.eqb_eq in E. by subst.
  - intros H. exists s. split; [done | apply String.eqb_refl].
Qed.

(** ** config/consts.go *)

Definition NormalizeWorkflowTaskType (value : string) : string := ToLower (TrimSpace value).

Definition IsSupportedWorkflowTaskType (value : string) : bool :=
  one_of ["workflow"; "update"; "database_reset"; "log_archive_upload"]%string
    (NormalizeWorkflowTaskType value).

Definition ParseWorkflowMode (mode : string) : string :=
  if (mode =? "DAG")%string then "DAG"%string else "StepByStep"%string.

Definition ParseWorkflowStepType (stepType : string) : string :=
  if (ToLower (TrimSpace stepType) =? "approval")%string then "approval"%string
  else "component"%string.

Definition IsSupportedWorkflowJobType (jobType : JobType) : bool :=
  one_of [""%string; JobDeploy; JobCleanupResources; JobDatabaseReset; JobLogArchiveUpload]
    (TrimSpace jobType).

Definition ComponentTypeUsesPods (componentType : JobType) : bool :=
  one_of [ServerJob; StoreJob; InstantJob; ScheduledJob] (TrimSpace componentType).

Definition IsParallel (m : string) : bool := (m =? "DAG")%string.

Definition IsWorkspaceJobType (value : JobType) : bool :=
  (value =? JobCommand)%string || (value =? JobEval)%string.

Definition IsInstantJobType (value : JobType) : bool :=
  (value =? JobDeployInstant)%string || IsWorkspaceJobType value.

(** ** Status classifications *)

(** domain/model/workflow_queue.go *)
Definition IsWorkflowActiveStatus (status : Status) : bool :=
  one_of [StatusCreated; StatusRunning; StatusWaiting; StatusQueued; StatusBlocked;
          QueueItemPending; StatusPrepare; StatusWaitingApprove; StatusDistributed;
          StatusDebugBefore; StatusDebugAfter] status.

Definition IsRetryableVersionUpdateCleanupTaskStatus (status : Status) : bool :=
  one_of [StatusFailed; StatusTimeout; StatusCancelled; StatusReject; StatusPassed;
          StatusSkipped] status.

(** domain/repository/workflow.go *)
Definition activeWorkflowTaskStatusValues : list string :=
  [""%string; StatusCreated; StatusRunning; StatusWaiting; StatusQueued; StatusBlocked;
   QueueItemPending; StatusPrepare; StatusWaitingApprove; StatusDistributed;
   StatusDebugBefore; StatusDebugAfter].

(** domain/repository/job_scheduler.go *)
Definition jobSchedulingTerminal (status : string) : bool :=
  one_of [StatusCompleted; StatusPassed; StatusSkipped; StatusFailed; StatusTimeout;
          StatusCancelled; StatusReject; StatusNotRun] status.

(** event/workflow/job/jobinfo/info_status.go *)
Definition isSuccessfulTerminalJobStatus (status : Status) : bool :=
  one_of [StatusCompleted; StatusPassed; StatusSkipped] status.

Definition shouldKeepExistingJobInfoStatus (current : string) (next : Status) : bool :=
  if negb (isSuccessfulTerminalJobStatus (TrimSpace current)) then false
  else negb (isSuccessfulTerminalJobStatus next).

(** ** workflow/config: failure and run policies.  The second component tells
    whether the input was recognised. *)

Definition WorkflowFailurePolicyCleanupFailed : string := "cleanup_failed".
Definition WorkflowFailurePolicyCleanupAll : string := "cleanup_all".
Definition WorkflowTaskTypeJob : string := "job".
Definition JobRunPolicyRecreate : string := "recreate".
Definition JobRunPolicySkipIfCompleted : string := "skip_if_completed".

Definition NormalizeJobFailurePolicy (policy : string) : string * bool :=
  let normalized := ToLower (TrimSpace policy) in
  if (normalized =? "")%string then (""%string, true)
  else if (normalized =? WorkflowFailurePolicyCleanupFailed)%string
  then (WorkflowFailurePolicyCleanupFailed, true)
  else (""%string, false).

Definition NormalizeJobRunPolicy (policy : string) : string * bool :=
  let normalized := ToLower (TrimSpace policy) in
  if (normalized =? "")%string then (JobRunPolicySkipIfCompleted, true)
  else if (normalized =? JobRunPolicyRecreate)%string then (JobRunPolicyRecreate, true)
  else if (normalized =? JobRunPolicySkipIfCompleted)%string
  then (JobRunPolicySkipIfCompleted, true)
  else (JobRunPolicySkipIfCompleted, false).

Definition NormalizeWorkflowFailurePolicy (policy : string) : string * bool :=
  let normalized := ToLower (TrimSpace policy) in
  if (normalized =? "")%string then (WorkflowFailurePolicyCleanupAll, true)
  else if (normalized =? WorkflowFailurePolicyCleanupFailed)%string
  then (WorkflowFailurePolicyCleanupFailed, true)
  else if (normalized =? WorkflowFailurePolicyCleanupAll)%string
  then (WorkflowFailurePolicyCleanupAll, true)
  else (WorkflowFailurePolicyCleanupFailed, false).

(** The execution statuses split exactly: every status the source declares is
    either active (the lifecycle code may still cancel or recover it) or terminal
    for scheduling, never both; the database query for active tasks lists
    exactly the active statuses and the empty one; the statuses whose cleanup may
    be retried are terminal and none of them is the completed status; the
    successful terminal statuses are terminal; and a job record in a successful
    terminal status is only ever overwritten by another one. *)
Theorem status_partition :
  (forall s, In s declared_statuses ->
     IsWorkflowActiveStatus s = negb (jobSchedulingTerminal s)) /\
  (forall s, In s activeWorkflowTaskStatusValues <->
     s = ""%string \/ IsWorkflowActiveStatus s = true) /\
  (forall s, IsRetryableVersionUpdateCleanupTaskStatus s = true ->
     jobSchedulingTerminal s = true /\ s <> StatusCompleted) /\
  (forall s, isSuccessfulTerminalJobStatus s = true -> jobSchedulingTerminal s = true) /\
  (forall c n, shouldKeepExistingJobInfoStatus c n = false ->
     isSuccessfulTerminalJobStatus (TrimSpace c) = true ->
     isSuccessfulTerminalJobStatus n = true).
Proof.
  split; [|split; [|split; [|split]]].
  - intros s H. apply one_of_In in H. unfold one_of in H. cbn [existsb declared_statuses] in H.
    repeat (apply orb_prop in H as [H|H]; [apply String.eqb_eq in H as ->; reflexivity|]).
    discriminate.
  - intros s. unfold IsWorkflowActiveStatus. rewrite one_of_In.
    unfold activeWorkflowTaskStatusValues. cbn [In]. intuition.
  - intros s H. apply one_of_In in H. cbn [In] in H.
    repeat destruct H as [<-|H]; try (split; [reflexivity|discriminate]). done.
  - intros s H. apply one_of_In in H. cbn [In] in H.
    repeat destruct H as [<-|H]; try reflexivity. done.
  - intros c n H Hc. unfold shouldKeepExistingJobInfoStatus in H. rewrite Hc in H. cbn in H.
    by apply negb_false_iff in H.
Qed.
