(* ===== verification/Json.v ===== *)
(** JSON documents, as the [encoding/json] package of the source language reads
    them.

    [json_parse] is the text syntax: a document is parsed into a [Json] value
    whose object fields are in textual order and whose integer literals are kept
    apart from the other number literals, as [strconv.ParseInt] does.  float64
    values are IEEE binary64 numbers of the Standard Library ([spec_float], 53
    bits of precision).  The [dec_*] functions store a value in a Go variable of
    the given type, [None] being a type error; a JSON null, like a missing field,
    leaves the zero value.  Struct fields match their tag up to letter case,
    unknown fields are ignored, and of a repeated field the last one counts.

    Three things differ from the library: bytes that are not UTF-8 are kept
    instead of replaced, the nesting limit of 10000 levels is not enforced, and
    a repeated field replaces the earlier one instead of merging nested structs. *)

From Corelib Require Import SpecFloat.
From S2P Require Import Prelude GoStrings.

Inductive Json :=
  | JNull
  | JBool (b : bool)
  | JInt (z : Z)
  | JFloat (f : spec_float)
  | JStr (s : string)
  | JArr (l : list Json)
  | JObj (fields : list (string * Json)).

(** ** float64 *)

Definition float64 := spec_float.
Definition f64_of_Z (z : Z) : float64 := binary_normalize 53 1024 z 0 false.
Definition f64_ltb : float64 -> float64 -> bool := SFltb.
Definition f64_div : float64 -> float64 -> float64 := SFdiv 53 1024.
Definition f64_isNaN (f : float64) : bool := match f with S754_nan => true | _ => false end.
Definition f64_isInf (f : float64) : bool := match f with S754_infinity _ => true | _ => false end.

(** The literal 0.1 rounded to binary64. *)
Definition f64_tenth : float64 := S754_finite false 7205759403792794 (-56).

(** [math.Ceil] of a finite value, as an integer. *)
Definition f64_ceil (f : float64) : Z :=
  match f with
  | S754_finite s m e =>
      let v := if s then Z.neg m else Z.pos m in
      if 0 <=? e then v * 2 ^ e else - ((- v) / 2 ^ (- e))
  | _ => 0
  end.

(** A decimal literal [m * 10^e], correctly rounded. *)
Definition f64_decimal (m e : Z) : float64 :=
  if 0 <=? e then f64_of_Z (m * 10 ^ e)
  else match m with
       | Z0 => S754_zero false
       | Zpos p => f64_div (S754_finite false p 0) (S754_finite false (Z.to_pos (10 ^ (- e))) 0)
       | Zneg p => f64_div (S754_finite true p 0) (S754_finite false (Z.to_pos (10 ^ (- e))) 0)
       end.

(** ** Text *)

Definition chars := list ascii.

Definition digit_of (c : ascii) : option Z :=
  let n := Z.of_nat (nat_of_ascii c) in
  if (48 <=? n) && (n <=? 57) then Some (n - 48) else None.

Definition hex_of (c : ascii) : option Z :=
  let n := Z.of_nat (nat_of_ascii c) in
  if (48 <=? n) && (n <=? 57) then Some (n - 48)
  else if (97 <=? n) && (n <=? 102) then Some (n - 87)
  else if (65 <=? n) && (n <=? 70) then Some (n - 55)
  else None.

Definition json_space (c : ascii) : bool :=
  existsb (Ascii.eqb c) [" "; "009"; "010"; "013"]%char.

Fixpoint skip_space (l : chars) : chars :=
  match l with
  | c :: r => if json_space c then skip_space r else l
  | [] => []
  end.

Fixpoint literal (w : chars) (l : chars) : option chars :=
  match w, l with
  | [], _ => Some l
  | a :: w', c :: l' => if Ascii.eqb a c then literal w' l' else None
  | _, [] => None
  end.

(** A run of digits: its value, how many there are, and the rest. *)
Fixpoint digits (acc n : Z) (l : chars) : Z * Z * chars :=
  match l with
  | c :: r => match digit_of c with Some d => digits (acc * 10 + d) (n + 1) r | None => (acc, n, l) end
  | [] => (acc, n, [])
  end.

Definition byte (n : Z) : ascii := ascii_of_nat (Z.to_nat n).

(** The UTF-8 encoding of a code point. *)
Definition utf8 (n : Z) : chars :=
  if n <? 128 then [byte n]
  else if n <? 2048 then [byte (192 + n / 64); byte (128 + n mod 64)]
  else if n <? 65536
  then [byte (224 + n / 4096); byte (128 + n / 64 mod 64); byte (128 + n mod 64)]
  else [byte (240 + n / 262144); byte (128 + n / 4096 mod 64); byte (128 + n / 64 mod 64);
        byte (128 + n mod 64)].

Definition hex4 (l : chars) : option (Z * chars) :=
  match l with
  | a :: b :: c :: d :: r =>
      match hex_of a, hex_of b, hex_of c, hex_of d with
      | Some a, Some b, Some c, Some d => Some (((a * 16 + b) * 16 + c) * 16 + d, r)
      | _, _, _, _ => None
      end
  | _ => None
  end.

Definition surrogate (lo : Z) (n : Z) : bool := (lo <=? n) && (n <? lo + 1024).
Definition replacement_char : Z := 65533.

(** [\u]: a surrogate pair is one code point, a lone half the replacement
    character. *)
Definition unicode_escape (l : chars) : option (chars * chars) :=
  match hex4 l with
  | None => None
  | Some (n, r) =>
      if surrogate 55296 n then
        match r with
        | b :: u :: r' =>
            if Ascii.eqb b "\" && Ascii.eqb u "u" then
              match hex4 r' with
              | Some (m, r'') =>
                  if surrogate 56320 m
                  then Some (utf8 (65536 + (n - 55296) * 1024 + (m - 56320)), r'')
                  else Some (utf8 replacement_char, r)
              | None => None
              end
            else Some (utf8 replacement_char, r)
        | _ => Some (utf8 replacement_char, r)
        end
      else if surrogate 56320 n then Some (utf8 replacement_char, r)
      else Some (utf8 n, r)
  end.

Definition simple_escape (c : ascii) : option ascii :=
  match List.find (fun p => Ascii.eqb (fst p) c)
    [("034", "034"); ("\", "\"); ("/", "/"); ("b", "008"); ("f", "012"); ("n", "010");
     ("r", "013"); ("t", "009")]%char with
  | Some (_, v) => Some v
  | None => None
  end.

(** The body of a string literal, after its opening quote. *)
Fixpoint string_body (fuel : nat) (l : chars) : option (chars * chars) :=
  match fuel with
  | O => None
  | S fuel =>
      match l with
      | [] => None
      | c :: r =>
          if Ascii.eqb c "034" then Some ([], r)
          else if Ascii.eqb c "\" then
            match r with
            | e :: r' =>
                let unit_ :=
                  if Ascii.eqb e "u" then unicode_escape r'
                  else match simple_escape e with Some v => Some ([v], r') | None => None end in
                match unit_ with
                | Some (u, r'') =>
                    match string_body fuel r'' with
                    | Some (s, rest) => Some (u ++ s, rest)
                    | None => None
                    end
                | None => None
                end
            | [] => None
            end
          else if (nat_of_ascii c <? 32)%nat then None
          else match string_body fuel r with
               | Some (s, rest) => Some (c :: s, rest)
               | None => None
               end
      end
  end.

(** The fraction and exponent of a number whose integer part is [int]. *)
Definition number_tail (neg : bool) (int : Z) (l : chars) : option (Json * chars) :=
  let signed z := if (neg : bool) then - z else z in
  let '(frac, l1) :=
    match l with
    | c :: r => if Ascii.eqb c "." then (Some (digits int 0 r), r) else (None, l)
    | [] => (None, l)
    end in
  let mantissa :=
    match frac with
    | None => Some (int, 0, l1)
    | Some (v, n, r) => if n =? 0 then None else Some (v, n, r)
    end in
  match mantissa with
  | None => None
  | Some (m, scale, r) =>
      match r with
      | c :: r1 =>
          if Ascii.eqb c "e" || Ascii.eqb c "E" then
            let '(eneg, r2) :=
              match r1 with
              | s :: r2 => if Ascii.eqb s "-" then (true, r2)
                           else if Ascii.eqb s "+" then (false, r2) else (false, r1)
              | [] => (false, r1)
              end in
            let '(ex, n, r3) := digits 0 0 r2 in
            if n =? 0 then None
            else Some (JFloat (f64_decimal (signed m) ((if eneg then - ex else ex) - scale)), r3)
          else match frac with
               | None => Some (JInt (signed m), r)
               | Some _ => Some (JFloat (f64_decimal (signed m) (- scale)), r)
               end
      | [] => match frac with
              | None => Some (JInt (signed m), r)
              | Some _ => Some (JFloat (f64_decimal (signed m) (- scale)), r)
              end
      end
  end.

Definition number (l : chars) : option (Json * chars) :=
  let '(neg, l) := match l with
                   | c :: r => if Ascii.eqb c "-" then (true, r) else (false, l)
                   | [] => (false, l)
                   end in
  match l with
  | c :: r =>
      match digit_of c with
      | Some 0 => number_tail neg 0 r
      | Some d => let '(v, _, r') := digits d 1 r in number_tail neg v r'
      | None => None
      end
  | [] => None
  end.

Fixpoint value (fuel : nat) (l : chars) : option (Json * chars) :=
  match fuel with
  | O => None
  | S fuel =>
      let l := skip_space l in
      match l with
      | [] => None
      | c :: r =>
          if Ascii.eqb c "n"
          then match literal (explode "null") l with Some r => Some (JNull, r) | None => None end
          else if Ascii.eqb c "t"
          then match literal (explode "true") l with Some r => Some (JBool true, r) | None => None end
          else if Ascii.eqb c "f"
          then match literal (explode "false") l with Some r => Some (JBool false, r) | None => None end
          else if Ascii.eqb c "034"
          then match string_body (length r) r with
               | Some (s, r) => Some (JStr (implode s), r)
               | None => None
               end
          else if Ascii.eqb c "[" then
            match skip_space r with
            | d :: r' => if Ascii.eqb d "]" then Some (JArr [], r') else elements fuel r
            | [] => None
            end
          else if Ascii.eqb c "{" then
            match skip_space r with
            | d :: r' => if Ascii.eqb d "}" then Some (JObj [], r') else members fuel r
            | [] => None
            end
          else number l
      end
  end
with elements (fuel : nat) (l : chars) : option (Json * chars) :=
  match fuel with
  | O => None
  | S fuel =>
      match value fuel l with
      | None => None
      | Some (v, r) =>
          match skip_space r with
          | c :: r' =>
              if Ascii.eqb c "]" then Some (JArr [v], r')
              else if Ascii.eqb c "," then
                match elements fuel r' with
                | Some (JArr vs, r'') => Some (JArr (v :: vs), r'')
                | _ => None
                end
              else None
          | [] => None
          end
      end
  end
with members (fuel : nat) (l : chars) : option (Json * chars) :=
  match fuel with
  | O => None
  | S fuel =>
      match skip_space l with
      | q :: r =>
          if negb (Ascii.eqb q "034") then None else
          match string_body (length r) r with
          | None => None
          | Some (k, r) =>
              match skip_space r with
              | c :: r =>
                  if negb (Ascii.eqb c ":") then None else
                  match value fuel r with
                  | None => None
                  | Some (v, r) =>
                      match skip_space r with
                      | c :: r' =>
                          if Ascii.eqb c "}" then Some (JObj [(implode k, v)], r')
                          else if Ascii.eqb c "," then
                            match members fuel r' with
                            | Some (JObj kvs, r'') => Some (JObj ((implode k, v) :: kvs), r'')
                            | _ => None
                            end
                          else None
                      | [] => None
                      end
                  end
              | [] => None
              end
          end
      | [] => None
      end
  end.

(** A document is one value with nothing but space after it. *)
Definition json_parse (text : string) : option Json :=
  let l := explode text in
  match value (2 * length l + 1) l with
  | Some (v, r) => match skip_space r with [] => Some v | _ => None end
  | None => None
  end.

(** ** Decoding into Go variables *)

(** A key matches a struct tag up to letter case. *)
Definition json_key_is (tag key : string) : bool := (ToLower key =? ToLower tag)%string.

Definition json_field (tag : string) (fields : list (string * Json)) : Json :=
  fold_left (fun v kv => if json_key_is tag (fst kv) then snd kv else v) fields JNull.

(** A field that may be absent. *)
Definition json_optional (tag : string) (fields : list (string * Json)) : option Json :=
  fold_left (fun v kv => if json_key_is tag (fst kv) then Some (snd kv) else v) fields None.

(** The fields of a struct; a null leaves all of them alone. *)
Definition dec_struct (j : Json) : option (list (string * Json)) :=
  match j with JObj l => Some l | JNull => Some [] | _ => None end.

Definition dec_string (j : Json) : option string :=
  match j with JStr s => Some s | JNull => Some "" | _ => None end%string.

Definition dec_int_in (lo hi : Z) (j : Json) : option Z :=
  match j with
  | JInt z => if (lo <=? z) && (z <=? hi) then Some z else None
  | JNull => Some 0
  | _ => None
  end.
Definition dec_int64 : Json -> option Z := dec_int_in min_int64 max_int64.
Definition dec_uint64 : Json -> option Z := dec_int_in 0 (two64 - 1).

Definition dec_bool (j : Json) : option bool :=
  match j with JBool b => Some b | JNull => Some false | _ => None end.

(** [[]T]: nil on null. *)
Definition dec_list {T} (dec : Json -> option T) (j : Json) : option (list T) :=
  match j with
  | JNull => Some []
  | JArr l => mapM dec l
  | _ => None
  end.

(** [map[string]T]: every value is decoded, the last of equal keys counts. *)
Fixpoint dec_fields {T} (dec : Json -> option T) (l : list (string * Json)) (m : gmap string T)
    : option (gmap string T) :=
  match l with
  | [] => Some m
  | (k, v) :: r =>
      match dec v with Some t => dec_fields dec r (<[k := t]> m) | None => None end
  end.

Definition dec_map {T} (dec : Json -> option T) (j : Json) : option (option (gmap string T)) :=
  match j with
  | JNull => Some None
  | JObj l => match dec_fields dec l ∅ with Some m => Some (Some m) | None => None end
  | _ => None
  end.

(** A pointer to a struct: nil on null. *)
Definition dec_ptr {T} (dec : Json -> option T) (j : Json) : option (option T) :=
  match j with
  | JNull => Some None
  | _ => match dec j with Some t => Some (Some t) | None => None end
  end.

Notation "'decode!' x <- o ; k" := (match o with Some x => k | None => None end)
  (at level 100, x pattern, o at level 99, k at level 200, right associativity) : eruun_scope.

Definition jq (s : string) : string := String "034" (s ++ String "034" EmptyString).

Example json_parse_example :
  json_parse (" {" ++ jq "a" ++ ": [1, -2.5e1, true, null], " ++ jq "b" ++ ":" ++
              jq "x\n\u0041" ++ "} ") =
  Some (JObj [("a", JArr [JInt 1; JFloat (f64_of_Z (-25)); JBool true; JNull]);
              ("b", JStr (String "x" (String "010" (String "A" EmptyString))))])%string.
Proof. vm_compute. reflexivity. Qed.
