(* ===== verification/Quantity.v ===== *)
(** The interface to k8s.io/apimachinery: [resource.Quantity] and [ObjectMeta].

    Quantities are third-party values: the model is generic in their type, and
    uses them through the operations the source calls.  The laws are the
    documented meaning of those operations: a quantity has an exact value, a
    number of nano-units, [Add], [Sub] and [Mul] are exact on it, [Cmp] and
    [Sign] compare it.  [Mul] also tells whether the product fits its compact
    representation.  [KubernetesJson] is how these types read JSON.  [ZQuantity] and
    [ZKubernetesJson] are concrete instances for evaluation. *)

From S2P Require Import Prelude GoStrings Json.

Class QuantityOps (Q : Type) := {
  q_zero : Q;
  q_add : Q -> Q -> Q;
  q_sub : Q -> Q -> Q;
  q_mul : Q -> Z -> Q * bool;
  q_cmp : Q -> Q -> comparison;
  q_sign : Q -> Z;
  q_of_int : Z -> Q; (* [resource.NewQuantity] *)
}.

Class QuantityLaws (Q : Type) `{QuantityOps Q} := {
  q_val : Q -> Z;
  q_zero_val : q_val q_zero = 0;
  q_add_val : forall a b, q_val (q_add a b) = q_val a + q_val b;
  q_sub_val : forall a b, q_val (q_sub a b) = q_val a - q_val b;
  q_mul_val : forall a y, q_val (fst (q_mul a y)) = q_val a * y;
  q_cmp_val : forall a b, q_cmp a b = Z.compare (q_val a) (q_val b);
  q_sign_val : forall a, q_sign a = Z.sgn (q_val a);
}.

(** The fields of [metav1.ObjectMeta] the source reads. *)
Record ObjectMeta := {
  om_Name : string;
  om_Namespace : string;
  om_Annotations : gmap string string;
}.

(** [Quantity.UnmarshalJSON], [resource.ParseQuantity] and the decoder of
    [ObjectMeta]. *)
Class KubernetesJson (Q : Type) := {
  q_unmarshal : Json -> option Q;
  q_parse : string -> option Q;
  decode_object_meta : Json -> option ObjectMeta;
}.

(** Indexing a missing key of a string map gives the empty string. *)
Definition str_get (m : gmap string string) (k : string) : string := default ""%string (m !! k).

Section Derived.
Context {Q : Type} `{QuantityOps Q}.

(** [a.Cmp(b) > 0] *)
Definition q_gtb (a b : Q) : bool := match q_cmp a b with Gt => true | _ => false end.

(** Indexing a missing key of a [corev1.ResourceList] gives the zero quantity. *)
Definition q_get (m : gmap string Q) (k : string) : Q := default q_zero (m !! k).

Context `{!QuantityLaws Q}.

Lemma q_gtb_val a b : q_gtb a b = (q_val b <? q_val a).
Proof. unfold q_gtb. rewrite q_cmp_val, Z.ltb_antisym. unfold Z.leb. by destruct (_ ?= _). Qed.

Lemma q_sign_pos a : (q_sign a <=? 0) = false <-> 0 < q_val a.
Proof. rewrite Z.leb_gt, q_sign_val. lia. Qed.

Lemma q_sign_neg a : (q_sign a <? 0) = true <-> q_val a < 0.
Proof. rewrite Z.ltb_lt, q_sign_val. lia. Qed.
End Derived.

#[export] Instance ZQuantity : QuantityOps Z := {|
  q_zero := 0; q_add := Z.add; q_sub := Z.sub;
  q_mul a y := (a * y, (min_int64 <=? a * y) && (a * y <=? max_int64));
  q_cmp := Z.compare; q_sign := Z.sgn; q_of_int z := z |}.

#[export] Instance ZQuantityLaws : QuantityLaws Z.
Proof. by refine {| q_val := fun z => z |}. Defined.

(** Whole numbers as quantities, and the three fields of [ObjectMeta] only. *)
Definition z_parse (s : string) : option Z :=
  match json_parse s with Some (JInt z) => Some z | _ => None end.

#[export] Instance ZKubernetesJson : KubernetesJson Z := {|
  q_unmarshal j := match j with
                   | JInt z => Some z
                   | JStr s => z_parse s
                   | JNull => Some 0
                   | _ => None
                   end;
  q_parse := z_parse;
  decode_object_meta j :=
    decode! l <- dec_struct j;
    decode! name <- dec_string (json_field "name" l);
    decode! namespace <- dec_string (json_field "namespace" l);
    decode! annotations <- dec_map dec_string (json_field "annotations" l);
    Some (Build_ObjectMeta name namespace (default ∅ annotations)) |}.
