(* ===== verification/Policy.v ===== *)
(** Scheduler, retry and callback policies: [pkg/apiserver/workflow/config]
    ([job_scheduler.go], [job_retry_policy.go], [workflow_callback_timeout.go]).

    A policy setting is a JSON column, so it arrives as blank, malformed, or a
    [Json] value. *)

From Corelib Require Import SpecFloat.
From S2P Require Import Prelude GoStrings Json Quantity.

(** A raw document of a policy setting. *)
Inductive RawMessage :=
  | RawBlank
  | RawInvalid
  | RawValue (j : Json).

(** ** job_scheduler.go *)

Definition JobSchedulerPriority : string := "priority".
Definition JobSchedulerFIFO : string := "fifo".
Definition JobSchedulingQueued : string := "queued".
Definition JobSchedulingAdmitted : string := "admitted".
Definition JobSchedulingReleased : string := "released".
Definition MaxEvaluationTimeoutSecondsBound : Z := 14 * 24 * 60 * 60.

Record JobSchedulerPolicy := {
  Strategy : string;
  MaxConcurrentJobs : Z;
  MaxConcurrentJobsPerWorkspace : Z;
  AgingSeconds : Z;
  MaxEvaluationTimeoutSeconds : Z;
  ResourceCreationQPS : float64;
  ResourceCreationBurst : Z;
  MaxStartingSandboxes : Z;
}.

#[export] Instance eta_JobSchedulerPolicy : Settable JobSchedulerPolicy := fun p =>
  Build_JobSchedulerPolicy (Strategy p) (MaxConcurrentJobs p) (MaxConcurrentJobsPerWorkspace p)
    (AgingSeconds p) (MaxEvaluationTimeoutSeconds p) (ResourceCreationQPS p)
    (ResourceCreationBurst p) (MaxStartingSandboxes p).

Definition DefaultJobSchedulerPolicy : JobSchedulerPolicy := {|
  Strategy := JobSchedulerPriority; MaxConcurrentJobs := 100;
  MaxConcurrentJobsPerWorkspace := 10; AgingSeconds := 60;
  MaxEvaluationTimeoutSeconds := MaxEvaluationTimeoutSecondsBound;
  ResourceCreationQPS := f64_of_Z 5; ResourceCreationBurst := 10;
  MaxStartingSandboxes := 100 |}.

Definition ValidateJobSchedulerPolicy (p : JobSchedulerPolicy) : result unit :=
  if negb (Strategy p =? JobSchedulerPriority)%string && negb (Strategy p =? JobSchedulerFIFO)%string
  then Err (Errorf "job scheduler strategy must be priority or fifo")
  else if (MaxConcurrentJobs p <? 1) || (10000 <? MaxConcurrentJobs p)
  then Err (Errorf "maxConcurrentJobs must be between 1 and 10000")
  else if (MaxConcurrentJobsPerWorkspace p <? 1) ||
          (MaxConcurrentJobs p <? MaxConcurrentJobsPerWorkspace p)
  then Err (Errorf "maxConcurrentJobsPerWorkspace must be between 1 and maxConcurrentJobs")
  else if (AgingSeconds p <? 1) || (86400 <? AgingSeconds p)
  then Err (Errorf "agingSeconds must be between 1 and 86400")
  else if (MaxEvaluationTimeoutSeconds p <? 60) ||
          (MaxEvaluationTimeoutSecondsBound <? MaxEvaluationTimeoutSeconds p)
  then Err (Errorf "maxEvaluationTimeoutSeconds must be between 60 and 1209600")
  else if f64_isNaN (ResourceCreationQPS p) || f64_isInf (ResourceCreationQPS p) ||
          f64_ltb (ResourceCreationQPS p) f64_tenth ||
          f64_ltb (f64_of_Z 1000) (ResourceCreationQPS p)
  then Err (Errorf "resourceCreationQPS must be between 0.1 and 1000")
  else if (ResourceCreationBurst p <? 1) || (1000 <? ResourceCreationBurst p)
  then Err (Errorf "resourceCreationBurst must be between 1 and 1000")
  else if (MaxStartingSandboxes p <? 1) || (10000 <? MaxStartingSandboxes p)
  then Err (Errorf "maxStartingSandboxes must be between 1 and 10000")
  else Ok tt.

Definition ResolveJobSchedulingPriority (name : string) : result Z :=
  if (name =? "")%string || (name =? "normal")%string then Ok 50
  else if (name =? "background")%string then Ok 0
  else if (name =? "high")%string then Ok 100
  else Err (Errorf "unknown job scheduling class").

Definition ValidateJobSchedulingClass (name : string) : result unit :=
  check! _ <- ResolveJobSchedulingPriority name; Ok tt.

Definition decode_error {A} : result A := Err (Errorf "decode job scheduler policy").

(** Decoding an [int] or [int64] field: an integer literal in range. *)
Definition decode_int (j : Json) : result Z :=
  match j with
  | JInt z => if (min_int64 <=? z) && (z <=? max_int64) then Ok z else decode_error
  | _ => decode_error
  end.

Definition decode_float (j : Json) : result float64 :=
  match j with
  | JInt z => let f := f64_of_Z z in if f64_isInf f then decode_error else Ok f
  | JFloat f => if f64_isInf f then decode_error else Ok f
  | _ => decode_error
  end.

Definition decode_string (j : Json) : result string :=
  match j with JStr s => Ok s | _ => decode_error end.

Definition decode_policy_field (p : JobSchedulerPolicy) (kv : string * Json)
    : result JobSchedulerPolicy :=
  let '(k, v) := kv in
  if json_key_is "strategy" k
  then check! s <- decode_string v; Ok (p <| Strategy := s |>)
  else if json_key_is "maxConcurrentJobs" k
  then check! z <- decode_int v; Ok (p <| MaxConcurrentJobs := z |>)
  else if json_key_is "maxConcurrentJobsPerWorkspace" k
  then check! z <- decode_int v; Ok (p <| MaxConcurrentJobsPerWorkspace := z |>)
  else if json_key_is "agingSeconds" k
  then check! z <- decode_int v; Ok (p <| AgingSeconds := z |>)
  else if json_key_is "maxEvaluationTimeoutSeconds" k
  then check! z <- decode_int v; Ok (p <| MaxEvaluationTimeoutSeconds := z |>)
  else if json_key_is "resourceCreationQPS" k
  then check! f <- decode_float v; Ok (p <| ResourceCreationQPS := f |>)
  else if json_key_is "resourceCreationBurst" k
  then check! z <- decode_int v; Ok (p <| ResourceCreationBurst := z |>)
  else if json_key_is "maxStartingSandboxes" k
  then check! z <- decode_int v; Ok (p <| MaxStartingSandboxes := z |>)
  else decode_error. (* DisallowUnknownFields *)

Fixpoint decode_policy_fields (p : JobSchedulerPolicy) (l : list (string * Json))
    : result JobSchedulerPolicy :=
  match l with
  | [] => Ok p
  | kv :: r => check! p' <- decode_policy_field p kv; decode_policy_fields p' r
  end.

(** Duplicate keys of the raw field map keep their last value. *)
Fixpoint last_is_null (key : string) (l : list (string * Json)) (acc : bool) : bool :=
  match l with
  | [] => acc
  | (k, v) :: r =>
      last_is_null key r
        (if (k =? key)%string then match v with JNull => true | _ => false end else acc)
  end.

(** A null stored under a repeated key leaves the struct field unchanged. *)
Definition json_not_null (kv : string * Json) : bool :=
  match snd kv with JNull => false | _ => true end.

Definition known_policy_key (k : string) : bool :=
  existsb (fun tag => json_key_is tag k)
    ["strategy"; "maxConcurrentJobs"; "maxConcurrentJobsPerWorkspace"; "agingSeconds";
     "maxEvaluationTimeoutSeconds"; "resourceCreationQPS"; "resourceCreationBurst";
     "maxStartingSandboxes"]%string.

(** The decoder's trailing-data check cannot fail after the first [Unmarshal]
    accepted the whole text, so it does not appear. *)
Definition ParseJobSchedulerPolicy (value : RawMessage) : result JobSchedulerPolicy :=
  match value with
  | RawBlank | RawValue JNull => Err (Errorf "job scheduler policy must be an object")
  | RawValue (JObj fields) =>
      if existsb (fun kv => last_is_null (fst kv) fields false) fields
      then Err (Errorf "job scheduler policy field cannot be null")
      else if negb (forallb (fun kv => known_policy_key (fst kv)) fields) then decode_error
      else
        check! p <- decode_policy_fields DefaultJobSchedulerPolicy
                      (List.filter json_not_null fields);
        check! _ <- ValidateJobSchedulerPolicy p;
        Ok p
  | _ => decode_error
  end.

(** [json.Marshal] of a policy, as a value. *)
Definition policy_json (p : JobSchedulerPolicy) : Json := JObj [
  ("strategy", JStr (Strategy p));
  ("maxConcurrentJobs", JInt (MaxConcurrentJobs p));
  ("maxConcurrentJobsPerWorkspace", JInt (MaxConcurrentJobsPerWorkspace p));
  ("agingSeconds", JInt (AgingSeconds p));
  ("maxEvaluationTimeoutSeconds", JInt (MaxEvaluationTimeoutSeconds p));
  ("resourceCreationQPS", JFloat (ResourceCreationQPS p));
  ("resourceCreationBurst", JInt (ResourceCreationBurst p));
  ("maxStartingSandboxes", JInt (MaxStartingSandboxes p))]%string.

Definition NormalizeJobSchedulerPolicyValue (value : RawMessage) : result RawMessage :=
  check! p <- ParseJobSchedulerPolicy value; Ok (RawValue (policy_json p)).

(** ** workflow_callback_timeout.go.  Durations and seconds are int64. *)

Definition DefaultWorkflowCallbackTimeout : Z := 10 * Second.
Definition DefaultWorkflowCallbackTimeoutMax : Z := 72 * Hour.
Definition maxDurationSeconds : Z := max_int64 / Second.

Definition ResolveWorkflowCallbackTimeoutMax (cfgCallbackTimeoutMax : Z) : Z :=
  if 0 <? cfgCallbackTimeoutMax then cfgCallbackTimeoutMax
  else DefaultWorkflowCallbackTimeoutMax.

Definition ResolveWorkflowCallbackTimeoutMaxSeconds (max : Z) : Z :=
  if max <=? 0 then 0
  else if max <? Second then 1
  else
    let maxSeconds := Z.quot max Second in
    if negb (Z.rem max Second =? 0) && (maxSeconds <? maxDurationSeconds)
    then i64 (maxSeconds + 1) else maxSeconds.

Definition ClampWorkflowCallbackTimeoutSeconds (seconds max : Z) : Z :=
  if seconds <=? 0 then 0
  else
    let seconds := if maxDurationSeconds <? seconds then maxDurationSeconds else seconds in
    if 0 <? max then
      let maxSeconds := ResolveWorkflowCallbackTimeoutMaxSeconds max in
      if (0 <? maxSeconds) && (maxSeconds <? seconds) then maxSeconds else seconds
    else seconds.

Definition ResolveWorkflowCallbackTimeout (seconds max : Z) : Z :=
  if 0 <? seconds then
    let cappedSeconds := ClampWorkflowCallbackTimeoutSeconds seconds max in
    let timeout := i64 (cappedSeconds * Second) in
    if (0 <? max) && (max <? timeout) then max else timeout
  else
    let timeout := DefaultWorkflowCallbackTimeout in
    if (0 <? max) && (max <? timeout) then max else timeout.

(** ** job_retry_policy.go *)

Section RetryPolicy.
Context {Q : Type} `{QuantityOps Q}.

Record JobRetryPolicy := {
  OnOOM : string;
  MaxRetries : Z;
  BackoffSeconds : Z;
  MemoryGrowthFactor : Z;
  CPUGrowthFactor : Z;
  MaxResources : gmap string Q;
}.

Definition ResourceCPU : string := "cpu".
Definition ResourceMemory : string := "memory".

(** The loop over [MaxResources]; Go visits the map in an unspecified order,
    which only decides which of several errors is reported. *)
Fixpoint validate_max_resources (l : list (string * Q)) : result unit :=
  match l with
  | [] => Ok tt
  | (name, quantity) :: r =>
      if negb (name =? ResourceCPU)%string && negb (name =? ResourceMemory)%string
      then Err (Errorf "maxResources only supports cpu and memory")
      else if q_sign quantity <=? 0 then Err (Errorf "maxResources entry must be positive")
      else validate_max_resources r
  end.

(** [Validate] on a nil policy succeeds. *)
Definition ValidateJobRetryPolicy (policy : option JobRetryPolicy) : result unit :=
  match policy with
  | None => Ok tt
  | Some p =>
      let noResources := bool_decide (size (MaxResources p) = 0%nat) in
      if (OnOOM p =? "stop")%string then
        if negb (MaxRetries p =? 0) || negb (BackoffSeconds p =? 0) ||
           negb (MemoryGrowthFactor p =? 0) || negb (CPUGrowthFactor p =? 0) ||
           negb noResources
        then Err (Errorf "onOOM stop does not accept retry or resource growth settings")
        else Ok tt
      else if (OnOOM p =? "retry")%string || (OnOOM p =? "resize")%string then
        if (MaxRetries p <? 1) || (10 <? MaxRetries p)
        then Err (Errorf "maxRetries must be between 1 and 10")
        else if (BackoffSeconds p <? 1) || (3600 <? BackoffSeconds p)
        then Err (Errorf "backoffSeconds must be between 1 and 3600")
        else if (OnOOM p =? "retry")%string then
          if negb (MemoryGrowthFactor p =? 0) || negb (CPUGrowthFactor p =? 0) ||
             negb noResources
          then Err (Errorf "onOOM retry does not accept resource growth settings")
          else Ok tt
        else if (MemoryGrowthFactor p <? 2) || (4 <? MemoryGrowthFactor p)
        then Err (Errorf "memoryGrowthFactor must be between 2 and 4")
        else if (CPUGrowthFactor p <? 0) || (4 <? CPUGrowthFactor p)
        then Err (Errorf "cpuGrowthFactor must be between 0 and 4; 0 or 1 leaves CPU unchanged")
        else
          check! _ <- validate_max_resources (map_to_list (MaxResources p));
          if q_sign (q_get (MaxResources p) ResourceMemory) <=? 0
          then Err (Errorf "maxResources.memory is required for resize")
          else if (1 <? CPUGrowthFactor p) &&
                  (q_sign (q_get (MaxResources p) ResourceCPU) <=? 0)
          then Err (Errorf "maxResources.cpu is required when CPU grows")
          else Ok tt
      else Err (Errorf "onOOM must be stop, retry, or resize")
  end.
End RetryPolicy.
Arguments JobRetryPolicy Q : clear implicits.

(** ** Properties *)

Lemma maxDurationSeconds_value : maxDurationSeconds = 9223372036.
Proof. reflexivity. Qed.

Lemma i64_mul_second s : 0 <= s <= maxDurationSeconds -> i64 (s * Second) = s * Second.
Proof.
  rewrite maxDurationSeconds_value. intros H. apply i64_small.
  unfold in_int64, min_int64, max_int64, Second, Millisecond, Microsecond. lia.
Qed.

Lemma callback_max_seconds max :
  0 < max <= max_int64 ->
  let m := ResolveWorkflowCallbackTimeoutMaxSeconds max in
  0 < m <= maxDurationSeconds /\ (max <= m * Second \/ m = maxDurationSeconds) /\
  (m - 1) * Second < max.
Proof.
  intros [H0 H1]. unfold ResolveWorkflowCallbackTimeoutMaxSeconds.
  destruct (Z.leb_spec max 0); [lia|].
  assert (ES : Second = 1000000000) by reflexivity.
  assert (EM : max_int64 = 9223372036854775807) by reflexivity.
  rewrite maxDurationSeconds_value in *.
  destruct (Z.ltb_spec max Second); [cbv zeta; rewrite ES in *; lia|].
  rewrite Z.quot_div_nonneg, Z.rem_mod_nonneg by lia. cbv zeta.
  pose proof (Z.div_mod max Second ltac:(lia)) as D.
  pose proof (Z.mod_pos_bound max Second ltac:(lia)) as B.
  rewrite ES in *.
  set (q := max / 1000000000) in *. set (r := max mod 1000000000) in *.
  assert (Hq : 0 < q <= 9223372036) by lia.
  destruct (Z.eqb_spec r 0) as [Er|Er]; cbn [negb andb]; [lia|].
  destruct (Z.ltb_spec q 9223372036); [|lia].
  rewrite i64_small by (unfold in_int64, min_int64, max_int64; lia). lia.
Qed.

(** resolving a callback timeout never overflows: for every int64 number of
    seconds and every int64 upper bound the result is a positive int64 duration,
    at most the bound when there is one; a positive request is granted exactly,
    capped by the largest representable number of seconds and by the bound; an
    absent request gets the ten-second default under the same bound. *)
Theorem callback_timeout_bounds :
  forall seconds max : Z, in_int64 seconds -> in_int64 max ->
    let r := ResolveWorkflowCallbackTimeout seconds max in
    let want := if 0 <? seconds then Z.min seconds maxDurationSeconds * Second
                else DefaultWorkflowCallbackTimeout in
    0 < r <= max_int64 /\ r = (if 0 <? max then Z.min want max else want).
Proof.
  intros seconds max [Hs1 Hs2] [Hm1 Hm2]. cbv zeta.
  assert (ES : Second = 1000000000) by reflexivity.
  assert (EM : max_int64 = 9223372036854775807) by reflexivity.
  assert (ED : maxDurationSeconds = 9223372036) by reflexivity.
  unfold ResolveWorkflowCallbackTimeout. destruct (Z.ltb_spec 0 seconds) as [Hs|Hs].
  2:{ unfold DefaultWorkflowCallbackTimeout. destruct (Z.ltb_spec 0 max); cbn [andb];
      [destruct (Z.ltb_spec max (10 * Second))|]; lia. }
  unfold ClampWorkflowCallbackTimeoutSeconds.
  destruct (Z.leb_spec seconds 0); [lia|].
  replace (if maxDurationSeconds <? seconds then maxDurationSeconds else seconds)
    with (Z.min seconds maxDurationSeconds)
    by (destruct (Z.ltb_spec maxDurationSeconds seconds); lia).
  set (s := Z.min seconds maxDurationSeconds). assert (Hs' : 0 < s <= maxDurationSeconds) by lia.
  destruct (Z.ltb_spec 0 max) as [Hx|Hx].
  2:{ cbn [andb]. rewrite i64_mul_second by lia. rewrite ES in *. lia. }
  pose proof (callback_max_seconds max ltac:(lia)) as (Hm & Hc & Hf). cbv zeta in Hm, Hc, Hf.
  set (m := ResolveWorkflowCallbackTimeoutMaxSeconds max) in *. cbn [andb].
  destruct (Z.ltb_spec 0 m); [|lia]. cbn [andb].
  destruct (Z.ltb_spec m s).
  - rewrite i64_mul_second by lia. rewrite ES in *.
    destruct (Z.ltb_spec max (m * 1000000000)); lia.
  - rewrite i64_mul_second by lia. rewrite ES in *.
    destruct (Z.ltb_spec max (s * 1000000000)); lia.
Qed.

Lemma callback_timeout_bounds_witness :
  ResolveWorkflowCallbackTimeout max_int64 (72 * Hour + 1) = 72 * Hour + 1.
Proof.
  destruct (callback_timeout_bounds max_int64 (72 * Hour + 1)) as [_ ->].
  - unfold in_int64. vm_compute. split; discriminate.
  - unfold in_int64. vm_compute. split; discriminate.
  - reflexivity.
Defined.

Lemma validate_policy_bounds p :
  ValidateJobSchedulerPolicy p = Ok tt ->
  1 <= MaxConcurrentJobs p <= 10000 /\
  1 <= MaxConcurrentJobsPerWorkspace p <= MaxConcurrentJobs p /\
  1 <= AgingSeconds p <= 86400 /\
  60 <= MaxEvaluationTimeoutSeconds p <= MaxEvaluationTimeoutSecondsBound /\
  1 <= ResourceCreationBurst p <= 1000 /\ 1 <= MaxStartingSandboxes p <= 10000 /\
  (Strategy p = JobSchedulerPriority \/ Strategy p = JobSchedulerFIFO).
Proof.
  unfold ValidateJobSchedulerPolicy. intros H.
  repeat (match type of H with (if ?c then _ else _) = _ => destruct c eqn:?; [discriminate|] end).
  bool_to_prop. repeat split; try lia.
  destruct (Strategy p =? JobSchedulerPriority)%string eqn:E1; bool_to_prop; [by left|].
  destruct (Strategy p =? JobSchedulerFIFO)%string eqn:E2; bool_to_prop; [by right|done].
Qed.

Lemma decode_int_small z : 0 <= z <= 10000000 -> decode_int (JInt z) = Ok z.
Proof.
  intros H. unfold decode_int. unfold min_int64, max_int64.
  destruct (Z.leb_spec (- 2 ^ 63) z), (Z.leb_spec z (2 ^ 63 - 1)); cbn [andb]; lia || done.
Qed.

Ltac eval_keys :=
  repeat match goal with
  | |- context [json_key_is ?a ?b] =>
      let v := eval vm_compute in (json_key_is a b) in change (json_key_is a b) with v
  end; cbv iota.

Lemma validate_policy_float p : ValidateJobSchedulerPolicy p = Ok tt ->
  f64_isNaN (ResourceCreationQPS p) = false /\ f64_isInf (ResourceCreationQPS p) = false /\
  f64_ltb (ResourceCreationQPS p) f64_tenth = false /\ f64_ltb (f64_of_Z 1000) (ResourceCreationQPS p) = false.
Proof.
  intros V. unfold ValidateJobSchedulerPolicy in V.
  repeat (match type of V with (if ?c then _ else _) = _ => destruct c eqn:?; [discriminate|] end).
  repeat match goal with H : _ || _ = false |- _ => apply orb_false_iff in H; destruct H end. done.
Qed.

Lemma decode_policy_json p :
  ValidateJobSchedulerPolicy p = Ok tt ->
  decode_policy_fields DefaultJobSchedulerPolicy
    (match policy_json p with JObj l => l | _ => [] end) = Ok p.
Proof.
  intros V. pose proof (validate_policy_bounds p V) as (B1 & B2 & B3 & B4 & B5 & B6 & _).
  pose proof (proj1 (proj2 (validate_policy_float p V))) as Hinf.
  unfold MaxEvaluationTimeoutSecondsBound in B4.
  unfold policy_json. cbn [decode_policy_fields decode_policy_field].
  eval_keys. cbn [decode_string decode_float]. rewrite !decode_int_small, Hinf by lia.
  cbn [result_bind]. destruct p. reflexivity.
Qed.

(** A rate between 0.1 and 1000: it is [m * 2 ^ e], where 0.1 is [7205759403792794 * 2 ^ -56] as a float64. *)
Definition rate_within (rate : float64) : Prop :=
  exists m e, rate = S754_finite false m e /\ -56 <= e <= -43 /\
    (2 ^ 52 <= Z.pos m < 2 ^ 53 -> 7205759403792794 <= Z.pos m * 2 ^ (e + 56) <= 1000 * 2 ^ 56).

Lemma not_below m1 e1 m2 e2 : f64_ltb (S754_finite false m1 e1) (S754_finite false m2 e2) = false ->
  e2 < e1 \/ e1 = e2 /\ Z.pos m2 <= Z.pos m1.
Proof.
  unfold f64_ltb, SFltb, SFcompare. destruct (Z.compare_spec e1 e2) as [E| |]; [|discriminate|by left].
  change (Pos.compare_cont Eq m1 m2) with (Pos.compare m1 m2).
  destruct (Pos.compare_spec m1 m2) as [Em| |]; [|discriminate|]; intros _; right; split; lia || done.
Qed.

Lemma rate_checked rate : f64_isNaN rate = false -> f64_isInf rate = false -> f64_ltb rate f64_tenth = false ->
  f64_ltb (f64_of_Z 1000) rate = false -> rate_within rate.
Proof.
  replace (f64_of_Z 1000) with (S754_finite false 8796093022208000 (-43)) by (vm_compute; reflexivity).
  intros N I L U. destruct rate as [s|s| |[|] m e]; try discriminate N; try discriminate I; try discriminate L; clear N I.
  apply not_below in L as Lo, U as Hi. exists m, e. split; [done|].
  split; [lia|]. intros B. assert (P : 2 ^ (e + 56) = 1 /\ e = -56 \/ 2 <= 2 ^ (e + 56) /\ -56 < e).
  { destruct Lo as [Lo|[E _]]; [right|left; by rewrite E]. split; [|done]. change 2 with (2 ^ 1) at 1. apply Z.pow_le_mono_r; lia. }
  split; [destruct P as [[E1 E2]|[P _]]; [rewrite E1; lia|nia]|].
  destruct Hi as [Hi|[E Hi]]; [|rewrite <- E; change (2 ^ (-43 + 56)) with 8192; lia].
  assert (2 ^ (e + 56) <= 2 ^ 12) by (apply Z.pow_le_mono_r; lia). change (2 ^ 12) with 4096 in *.
  assert (0 <= 2 ^ (e + 56)) by (apply Z.pow_nonneg; lia). nia.
Qed.

Lemma validate_policy_rate p : ValidateJobSchedulerPolicy p = Ok tt -> rate_within (ResourceCreationQPS p).
Proof. intros (N & I & L & U)%validate_policy_float. by apply rate_checked. Qed.

(** C39: the scheduler policy survives its JSON form: writing a valid policy and
    parsing it back gives the same policy, so re-normalising a stored value
    changes nothing; and every policy the parser accepts, whatever the document
    and whichever fields it omits, is within all the documented bounds, in
    particular at least one job may run and no workspace may exceed the global
    limit.  In the JSON form a float64 stands for its decimal text. *)
Theorem scheduler_policy_roundtrip :
  (forall p, ValidateJobSchedulerPolicy p = Ok tt ->
     ParseJobSchedulerPolicy (RawValue (policy_json p)) = Ok p) /\
  (forall value n, NormalizeJobSchedulerPolicyValue value = Ok n ->
     NormalizeJobSchedulerPolicyValue n = Ok n) /\
  (forall value p, ParseJobSchedulerPolicy value = Ok p ->
     1 <= MaxConcurrentJobs p <= 10000 /\
     1 <= MaxConcurrentJobsPerWorkspace p <= MaxConcurrentJobs p /\
     1 <= AgingSeconds p <= 86400 /\ 60 <= MaxEvaluationTimeoutSeconds p <= 1209600 /\
     rate_within (ResourceCreationQPS p) /\
     1 <= ResourceCreationBurst p <= 1000 /\ 1 <= MaxStartingSandboxes p <= 10000 /\
     (Strategy p = JobSchedulerPriority \/ Strategy p = JobSchedulerFIFO)).
Proof.
  assert (RT : forall p, ValidateJobSchedulerPolicy p = Ok tt ->
     ParseJobSchedulerPolicy (RawValue (policy_json p)) = Ok p).
  { intros p V. pose proof (decode_policy_json p V) as D.
    unfold ParseJobSchedulerPolicy. unfold policy_json in D |- *. cbv iota in D.
    change (existsb _ _) with false. change (forallb _ _) with true. cbv iota.
    cbn [negb]. change (List.filter json_not_null ?l) with l. rewrite D.
    cbn [result_bind]. by rewrite V. }
  assert (PV : forall value p, ParseJobSchedulerPolicy value = Ok p ->
     ValidateJobSchedulerPolicy p = Ok tt).
  { intros value p H. unfold ParseJobSchedulerPolicy in H.
    destruct value as [| |[]]; try discriminate.
    destruct (existsb _ _); [discriminate|]. destruct (negb _); [discriminate|].
    destruct (decode_policy_fields _ _) as [q|]; [|discriminate]. cbn [result_bind] in H.
    destruct (ValidateJobSchedulerPolicy q) as [[]|] eqn:E; [|discriminate].
    cbn [result_bind] in H. congruence. }
  split; [exact RT | split].
  - intros value n H. unfold NormalizeJobSchedulerPolicyValue in *.
    destruct (ParseJobSchedulerPolicy value) as [p|] eqn:E; [|discriminate].
    cbn [result_bind] in H. injection H as <-. rewrite (RT p (PV _ _ E)). reflexivity.
  - intros value p H. pose proof (validate_policy_bounds p (PV _ _ H)).
    pose proof (validate_policy_rate p (PV _ _ H)). unfold MaxEvaluationTimeoutSecondsBound in *. tauto.
Qed.

(** The default policy, written and read back. *)
Lemma scheduler_policy_roundtrip_witness :
  ParseJobSchedulerPolicy (RawValue (policy_json DefaultJobSchedulerPolicy)) = Ok DefaultJobSchedulerPolicy /\
  rate_within (ResourceCreationQPS DefaultJobSchedulerPolicy).
Proof.
  assert (V : ValidateJobSchedulerPolicy DefaultJobSchedulerPolicy = Ok tt) by (vm_compute; reflexivity).
  pose proof (proj1 scheduler_policy_roundtrip _ V) as E. split; [exact E|].
  exact (proj1 (proj2 (proj2 (proj2 (proj2 (proj2 (proj2 scheduler_policy_roundtrip) _ _ E)))))).
Defined.

Section RetryPolicySpec.
Context {Q : Type} `{QuantityLaws Q}.

Lemma validate_max_resources_ok l :
  validate_max_resources l = Ok tt <->
  forall k (q : Q), In (k, q) l -> (k = ResourceCPU \/ k = ResourceMemory) /\ 0 < q_val q.
Proof.
  induction l as [|[k q] l IH]; cbn [validate_max_resources].
  - split; [intros _ ? ? []|done].
  - destruct (negb (k =? ResourceCPU)%string && negb (k =? ResourceMemory)%string) eqn:E1.
    { split; [discriminate|]. intros Hl. destruct (Hl k q (or_introl eq_refl)) as [[->| ->] _];
      rewrite String.eqb_refl, ?andb_false_r in E1; discriminate. }
    destruct (q_sign q <=? 0) eqn:E2.
    { split; [discriminate|]. intros Hl. destruct (Hl k q (or_introl eq_refl)) as [_ Hq].
      apply q_sign_pos in Hq. congruence. }
    rewrite IH. split.
    + intros Hl k' q' [[= <- <-]|Hin]; [|by apply Hl]. split; [|by apply q_sign_pos].
      destruct (k =? ResourceCPU)%string eqn:K1; bool_to_prop; [by left|].
      destruct (k =? ResourceMemory)%string eqn:K2; bool_to_prop; [by right|done].
    + intros Hl k' q' Hin. apply Hl. by right.
Qed.

(** What a retry policy must satisfy, as the documentation of the fields has it. *)
Definition retry_policy_valid (p : JobRetryPolicy Q) : Prop :=
  let noGrowth := MemoryGrowthFactor p = 0 /\ CPUGrowthFactor p = 0 /\ MaxResources p = ∅ in
  let budget := 1 <= MaxRetries p <= 10 /\ 1 <= BackoffSeconds p <= 3600 in
  (OnOOM p = "stop"%string /\ MaxRetries p = 0 /\ BackoffSeconds p = 0 /\ noGrowth) \/
  (OnOOM p = "retry"%string /\ budget /\ noGrowth) \/
  (OnOOM p = "resize"%string /\ budget /\
   2 <= MemoryGrowthFactor p <= 4 /\ 0 <= CPUGrowthFactor p <= 4 /\
   (forall k q, MaxResources p !! k = Some q ->
      (k = ResourceCPU \/ k = ResourceMemory) /\ 0 < q_val q) /\
   is_Some (MaxResources p !! ResourceMemory) /\
   (1 < CPUGrowthFactor p -> is_Some (MaxResources p !! ResourceCPU))).

Lemma q_get_pos (m : gmap string Q) k :
  (forall k q, m !! k = Some q -> (k = ResourceCPU \/ k = ResourceMemory) /\ 0 < q_val q) ->
  (q_sign (q_get m k) <=? 0) = false <-> is_Some (m !! k).
Proof.
  intros Hm. rewrite q_sign_pos. unfold q_get. destruct (m !! k) as [q|] eqn:E; cbn.
  - split; [eauto|]. intros _. by apply (Hm k q).
  - rewrite q_zero_val. split; [lia|]. by intros [? ?].
Qed.
End RetryPolicySpec.

Lemma size_zero_empty {Q} (m : gmap string Q) :
  bool_decide (size m = 0%nat) = true <-> m = ∅.
Proof. rewrite bool_decide_eq_true. apply map_size_empty_iff. Qed.

Lemma if_err_ok (c : bool) e (r : result unit) :
  (if c then Err e else r) = Ok tt <-> c = false /\ r = Ok tt.
Proof. destruct c; intuition discriminate. Qed.

Lemma range_false lo hi z : (z <? lo) || (hi <? z) = false <-> lo <= z <= hi.
Proof. rewrite orb_false_iff, !Z.ltb_ge. lia. Qed.

Lemma no_growth_false {Q} (a b : Z) (m : gmap string Q) :
  negb (a =? 0) || negb (b =? 0) || negb (bool_decide (size m = 0%nat)) = false <->
  a = 0 /\ b = 0 /\ m = ∅.
Proof. rewrite !orb_false_iff, !negb_false_iff, !Z.eqb_eq, size_zero_empty. tauto. Qed.

(** a retry policy is accepted exactly when it is one of the three documented
    shapes: "stop" with no other setting; "retry" with one to ten retries, a
    back-off between a second and an hour, and no growth settings; or "resize"
    with the same budget, a memory growth factor between two and four, a CPU
    factor between zero and four, positive limits for cpu and memory only, a
    memory limit, and a CPU limit when CPU grows. *)
Theorem retry_policy_validation {Q : Type} `{QuantityLaws Q} (p : JobRetryPolicy Q) :
  ValidateJobRetryPolicy (Some p) = Ok tt <-> retry_policy_valid p.
Proof.
  unfold ValidateJobRetryPolicy, retry_policy_valid. cbv zeta.
  destruct (OnOOM p =? "stop")%string eqn:Es; bool_to_prop.
  { rewrite if_err_ok, Es, !orb_false_iff, !negb_false_iff, !Z.eqb_eq, size_zero_empty.
    intuition (congruence || discriminate). }
  destruct (OnOOM p =? "retry")%string eqn:Er; bool_to_prop; cbn [orb].
  { rewrite !if_err_ok, !range_false, no_growth_false, Er.
    intuition (congruence || discriminate). }
  destruct (OnOOM p =? "resize")%string eqn:Ez; bool_to_prop.
  2:{ split; [discriminate|]. intuition congruence. }
  rewrite !if_err_ok, !range_false, Ez.
  assert (Hl : validate_max_resources (map_to_list (MaxResources p)) = Ok tt <->
    forall k q, MaxResources p !! k = Some q ->
        (k = ResourceCPU \/ k = ResourceMemory) /\ 0 < q_val q).
  { rewrite validate_max_resources_ok. setoid_rewrite <- elem_of_map_to_list.
    by setoid_rewrite list_elem_of_In. }
  destruct (validate_max_resources _) as [[]|e]; cbn [result_bind].
  2:{ assert (~ forall k q, MaxResources p !! k = Some q ->
        (k = ResourceCPU \/ k = ResourceMemory) /\ 0 < q_val q) by (intros F; by apply Hl in F).
      intuition (congruence || discriminate). }
  pose proof (proj1 Hl eq_refl) as F.
  rewrite !if_err_ok, (q_get_pos _ _ F), andb_false_iff, (q_get_pos _ _ F), Z.ltb_ge.
  destruct (Z.le_gt_cases (CPUGrowthFactor p) 1); intuition (lia || congruence || discriminate).
Qed.
