(* ===== verification/Model.v ===== *)
(** The persisted entities, [pkg/apiserver/domain/model]: [WorkflowQueue],
    [JobInfo], [JobSandbox], [SystemSetting], [ResourceCreationBudget], [Applications],
    [ApplicationComponent], [JobArtifact], [Workspace], [JobResultOutbox] and [Workflow], as
    records with the columns the ORM tags give their fields.

    Every field of the Go structs is present except nested JSON blobs that no
    modelled operation reads; those are kept as opaque strings.  A [*time.Time] or
    [*string] is an option, [None] for SQL NULL.  The embedded [BaseModel] is the
    last two fields. *)

From S2P Require Import Prelude Json Policy.

(** ** Column values *)

Inductive Val :=
  | VNull
  | VStr (s : string)
  | VInt (z : Z)
  | VBool (b : bool)
  | VTime (t : Z).

#[export] Instance Val_eq_dec : EqDecision Val.
Proof. solve_decision. Defined.

Definition val_eqb (a b : Val) : bool :=
  match a, b with
  | VNull, VNull => true
  | VStr x, VStr y => String.eqb x y
  | VInt x, VInt y | VTime x, VTime y => x =? y
  | VBool x, VBool y => Bool.eqb x y
  | _, _ => false
  end.

Lemma val_eqb_eq a b : val_eqb a b = true <-> a = b.
Proof.
  destruct a, b; cbn; rewrite ?String.eqb_eq, ?Z.eqb_eq, ?Bool.eqb_true_iff;
    split; intros H; congruence || discriminate.
Qed.

Definition val_rank (a : Val) : Z :=
  match a with VNull => 0 | VBool _ => 1 | VInt _ => 2 | VTime _ => 3 | VStr _ => 4 end.

(** The order of a column; NULL sorts first. *)
Definition val_ltb (a b : Val) : bool :=
  match a, b with
  | VStr x, VStr y => String.ltb x y
  | VInt x, VInt y | VTime x, VTime y => x <? y
  | VBool x, VBool y => negb x && y
  | _, _ => val_rank a <? val_rank b
  end.

(** [time.Time{}], the zero instant 0001-01-01T00:00:00Z. *)
Definition time_zero : Z := -62135596800 * Second.

(** The zero value of a field, which [Updates] with a struct leaves alone. *)
Definition val_zero (v : Val) : bool :=
  match v with
  | VNull => true
  | VStr s => str_empty s
  | VInt z => z =? 0
  | VBool b => negb b
  | VTime t => t =? time_zero
  end.

Record Column (E : Type) := {
  col_get : E -> Val;
  col_set : Val -> E -> option E;  (* [None]: the database rejects the value *)
}.
Arguments col_get {E} _ _.
Arguments col_set {E} _ _ _.

Section Columns.
Context {E : Type}.

Definition str_col (p : E -> string) `{!Setter p} : Column E := {|
  col_get e := VStr (p e);
  col_set v e := match v with VStr s => Some (set p (fun _ => s) e) | _ => None end |}.

Definition int_col (p : E -> Z) `{!Setter p} : Column E := {|
  col_get e := VInt (p e);
  col_set v e := match v with VInt z => Some (set p (fun _ => z) e) | _ => None end |}.

Definition bool_col (p : E -> bool) `{!Setter p} : Column E := {|
  col_get e := VBool (p e);
  col_set v e := match v with VBool b => Some (set p (fun _ => b) e) | _ => None end |}.

Definition time_col (p : E -> Z) `{!Setter p} : Column E := {|
  col_get e := VTime (p e);
  col_set v e := match v with VTime t => Some (set p (fun _ => t) e) | _ => None end |}.

Definition time_ptr_col (p : E -> option Z) `{!Setter p} : Column E := {|
  col_get e := match p e with Some t => VTime t | None => VNull end;
  col_set v e := match v with
    | VTime t => Some (set p (fun _ => Some t) e)
    | VNull => Some (set p (fun _ => None) e)
    | _ => None end |}.

Definition str_ptr_col (p : E -> option string) `{!Setter p} : Column E := {|
  col_get e := match p e with Some s => VStr s | None => VNull end;
  col_set v e := match v with
    | VStr s => Some (set p (fun _ => Some s) e)
    | VNull => Some (set p (fun _ => None) e)
    | _ => None end |}.
End Columns.

(** [if v != "" { index[key] = v }] *)
Definition index_str (key v : string) : list (string * Val) :=
  if str_empty v then [] else [(key, VStr v)].

(** ** WorkflowQueue *)

Record WorkflowQueue := {
  wq_TaskID : string;
  wq_WorkspaceID : string;
  wq_IdempotencyKey : option string;
  wq_ProjectID : string;
  wq_WorkflowName : string;
  wq_AppID : string;
  wq_WorkflowID : string;
  wq_WorkflowDisplayName : string;
  wq_Status : string;
  wq_TaskCreator : string;
  wq_TaskRevoker : string;
  wq_CancelSource : string;
  wq_Type : string;
  wq_ExecuteAt : Z;
  wq_CurrentStep : Z;
  wq_ApprovalPending : bool;
  wq_PendingApprovalStep : string;
  wq_ApprovalDeadline : option Z;
  wq_Callback : option string;
  wq_CleanupInfo : string;
  wq_ResourceActionInfo : string;
  wq_JobDefinitionID : string;
  wq_JobDefinitionRevision : Z;
  wq_JobSpec : string;
  wq_RunGeneration : Z;
  wq_RunToken : string;
  wq_WorkerID : string;
  wq_LeaseExpiresAt : option Z;
  wq_DispatchAttempts : Z;
  wq_SchedulingReason : string;
  wq_CreateTime : Z;
  wq_UpdateTime : Z;
}.

#[export] Instance eta_WorkflowQueue : Settable WorkflowQueue := fun q =>
  Build_WorkflowQueue (wq_TaskID q) (wq_WorkspaceID q) (wq_IdempotencyKey q) (wq_ProjectID q)
    (wq_WorkflowName q) (wq_AppID q) (wq_WorkflowID q) (wq_WorkflowDisplayName q) (wq_Status q)
    (wq_TaskCreator q) (wq_TaskRevoker q) (wq_CancelSource q) (wq_Type q) (wq_ExecuteAt q)
    (wq_CurrentStep q) (wq_ApprovalPending q) (wq_PendingApprovalStep q) (wq_ApprovalDeadline q)
    (wq_Callback q) (wq_CleanupInfo q) (wq_ResourceActionInfo q) (wq_JobDefinitionID q)
    (wq_JobDefinitionRevision q) (wq_JobSpec q) (wq_RunGeneration q) (wq_RunToken q)
    (wq_WorkerID q) (wq_LeaseExpiresAt q) (wq_DispatchAttempts q) (wq_SchedulingReason q)
    (wq_CreateTime q) (wq_UpdateTime q).

Definition workflow_queue_columns : list (string * Column WorkflowQueue) := [
  ("task_id", str_col wq_TaskID);
  ("workspace_id", str_col wq_WorkspaceID);
  ("idempotency_key", str_ptr_col wq_IdempotencyKey);
  ("project_id", str_col wq_ProjectID);
  ("workflow_name", str_col wq_WorkflowName);
  ("app_id", str_col wq_AppID);
  ("workflow_id", str_col wq_WorkflowID);
  ("workflow_display_name", str_col wq_WorkflowDisplayName);
  ("status", str_col wq_Status);
  ("task_creator", str_col wq_TaskCreator);
  ("task_revoker", str_col wq_TaskRevoker);
  ("cancel_source", str_col wq_CancelSource);
  ("type", str_col wq_Type);
  ("execute_at", int_col wq_ExecuteAt);
  ("current_step", int_col wq_CurrentStep);
  ("approval_pending", bool_col wq_ApprovalPending);
  ("pending_approval_step", str_col wq_PendingApprovalStep);
  ("approval_deadline", time_ptr_col wq_ApprovalDeadline);
  ("callback", str_ptr_col wq_Callback);
  ("cleanup_info", str_col wq_CleanupInfo);
  ("resource_action_info", str_col wq_ResourceActionInfo);
  ("job_definition_id", str_col wq_JobDefinitionID);
  ("job_definition_revision", int_col wq_JobDefinitionRevision);
  ("job_spec", str_col wq_JobSpec);
  ("run_generation", int_col wq_RunGeneration);
  ("run_token", str_col wq_RunToken);
  ("worker_id", str_col wq_WorkerID);
  ("lease_expires_at", time_ptr_col wq_LeaseExpiresAt);
  ("dispatch_attempts", int_col wq_DispatchAttempts);
  ("scheduling_reason", str_col wq_SchedulingReason);
  ("create_time", time_col wq_CreateTime);
  ("update_time", time_col wq_UpdateTime)]%string.

(** The zero struct [model.WorkflowQueue{}]. *)
Definition workflow_queue_zero : WorkflowQueue :=
  Build_WorkflowQueue "" "" None "" "" "" "" "" "" "" "" "" "" 0 0 false "" None None "" "" ""
    0 "" 0 "" "" None 0 "" time_zero time_zero.

Definition workflow_queue_index (wq : WorkflowQueue) : list (string * Val) :=
  index_str "app_id" (wq_AppID wq) ++ index_str "workspace_id" (wq_WorkspaceID wq) ++
  index_str "task_id" (wq_TaskID wq) ++
  match wq_IdempotencyKey wq with Some k => index_str "idempotency_key" k | None => [] end ++
  index_str "status" (wq_Status wq).

(** ** JobInfo *)

Record JobInfo := {
  job_ID : Z;
  job_Type : string;
  job_WorkflowID : string;
  job_ProductID : string;
  job_WorkspaceID : string;
  job_AppID : string;
  job_TaskID : string;
  job_Status : string;
  job_StartTime : Z;
  job_EndTime : Z;
  job_Info : string;
  job_InternalInfo : string;
  job_EvaluationInfo : string;
  job_ServiceName : string;
  job_Error : string;
  job_Production : bool;
  job_TargetEnv : string;
  job_ExecutionKey : option string;
  job_RunGeneration : Z;
  job_Attempt : Z;
  job_SchedulingState : string;
  job_SchedulingClass : string;
  job_SchedulingPriority : Z;
  job_SchedulingQueuedAt : option Z;
  job_SchedulingGeneration : Z;
  job_SchedulingOwnerStatus : string;
  job_SchedulingExpiresAt : option Z;
  job_SchedulingReason : string;
  job_SchedulingResources : string;
  job_DelayState : string;
  job_DelayExecuteAt : Z;
  job_DelayPayload : string;
  job_CreateTime : Z;
  job_UpdateTime : Z;
}.

#[export] Instance eta_JobInfo : Settable JobInfo := fun j =>
  Build_JobInfo (job_ID j) (job_Type j) (job_WorkflowID j) (job_ProductID j) (job_WorkspaceID j)
    (job_AppID j) (job_TaskID j) (job_Status j) (job_StartTime j) (job_EndTime j) (job_Info j)
    (job_InternalInfo j) (job_EvaluationInfo j) (job_ServiceName j) (job_Error j)
    (job_Production j) (job_TargetEnv j) (job_ExecutionKey j) (job_RunGeneration j)
    (job_Attempt j) (job_SchedulingState j) (job_SchedulingClass j) (job_SchedulingPriority j)
    (job_SchedulingQueuedAt j) (job_SchedulingGeneration j) (job_SchedulingOwnerStatus j)
    (job_SchedulingExpiresAt j) (job_SchedulingReason j) (job_SchedulingResources j)
    (job_DelayState j) (job_DelayExecuteAt j) (job_DelayPayload j) (job_CreateTime j)
    (job_UpdateTime j).

Definition job_info_columns : list (string * Column JobInfo) := [
  ("id", int_col job_ID);
  ("type", str_col job_Type);
  ("workflow_id", str_col job_WorkflowID);
  ("product_id", str_col job_ProductID);
  ("workspace_id", str_col job_WorkspaceID);
  ("app_id", str_col job_AppID);
  ("task_id", str_col job_TaskID);
  ("status", str_col job_Status);
  ("start_time", int_col job_StartTime);
  ("end_time", int_col job_EndTime);
  ("info", str_col job_Info);
  ("internal_info", str_col job_InternalInfo);
  ("evaluation_info", str_col job_EvaluationInfo);
  ("service_name", str_col job_ServiceName);
  ("error", str_col job_Error);
  ("production", bool_col job_Production);
  ("target_env", str_col job_TargetEnv);
  ("execution_key", str_ptr_col job_ExecutionKey);
  ("run_generation", int_col job_RunGeneration);
  ("attempt", int_col job_Attempt);
  ("scheduling_state", str_col job_SchedulingState);
  ("scheduling_class", str_col job_SchedulingClass);
  ("scheduling_priority", int_col job_SchedulingPriority);
  ("scheduling_queued_at", time_ptr_col job_SchedulingQueuedAt);
  ("scheduling_generation", int_col job_SchedulingGeneration);
  ("scheduling_owner_status", str_col job_SchedulingOwnerStatus);
  ("scheduling_expires_at", time_ptr_col job_SchedulingExpiresAt);
  ("scheduling_reason", str_col job_SchedulingReason);
  ("scheduling_resources", str_col job_SchedulingResources);
  ("delay_state", str_col job_DelayState);
  ("delay_execute_at", int_col job_DelayExecuteAt);
  ("delay_payload", str_col job_DelayPayload);
  ("create_time", time_col job_CreateTime);
  ("update_time", time_col job_UpdateTime)]%string.

Definition job_info_zero : JobInfo :=
  Build_JobInfo 0 "" "" "" "" "" "" "" 0 0 "" "" "" "" "" false "" None 0 0 "" "" 0 None 0 ""
    None "" "" "" 0 "" time_zero time_zero.

Definition job_info_index (j : JobInfo) : list (string * Val) :=
  index_str "workspace_id" (job_WorkspaceID j) ++ index_str "task_id" (job_TaskID j) ++
  index_str "workflow_id" (job_WorkflowID j).

(** ** JobTask

    The in-memory job a controller executes.  Its payload [JobInfo] is a value of any type: nil, a component of an
    application, a text, a Kubernetes Job, the notification of a callback with the execution it is for, or something
    else.  Of an object the runtime reads the labels and annotations, which are fields of the task here, and of a
    database reset the execution key.  [JobTask.ResourceAppName] is left out. *)

Record ApplicationComponent := {
  ac_ID : Z;
  ac_AppID : string;
  ac_Name : string;
  ac_Namespace : string;
  ac_Image : string;
  ac_Replicas : Z;
  ac_ComponentType : string;
  ac_Properties : option Json;
  ac_Traits : option Json;
  ac_Status : string;
  ac_ReadyReplicas : Z;
  ac_LastAbnormal : string;
  ac_ResourceAppName : string;   (* set while a task runs; not a column *)
  ac_CreateTime : Z;
  ac_UpdateTime : Z;
}.

#[export] Instance eta_ApplicationComponent : Settable ApplicationComponent := fun c =>
  Build_ApplicationComponent (ac_ID c) (ac_AppID c) (ac_Name c) (ac_Namespace c) (ac_Image c)
    (ac_Replicas c) (ac_ComponentType c) (ac_Properties c) (ac_Traits c) (ac_Status c)
    (ac_ReadyReplicas c) (ac_LastAbnormal c) (ac_ResourceAppName c) (ac_CreateTime c)
    (ac_UpdateTime c).

Definition application_component_zero : ApplicationComponent :=
  Build_ApplicationComponent 0 "" "" "" "" 0 "" None None "" 0 "" "" time_zero time_zero.

Inductive JobPayload :=
  | PayloadNil
  | PayloadComponent (component : ApplicationComponent)
  | PayloadText (text : string)
  | PayloadBatchJob
  | PayloadCallback (executionKey : string)
  | PayloadOther.

Record JobTask := {
  jt_Name : string;
  jt_Namespace : string;
  jt_WorkflowID : string;
  jt_ProjectID : string;
  jt_WorkspaceID : string;
  jt_AppID : string;
  jt_TaskID : string;
  jt_JobInfo : JobPayload;
  jt_InfoLabels : gmap string string;
  jt_InfoAnnotations : gmap string string;
  jt_InfoResetKey : option string;
  jt_JobType : string;
  jt_FailurePolicy : string;
  jt_Status : string;
  jt_StartTime : Z;
  jt_EndTime : Z;
  jt_Info : string;
  jt_InternalInfo : string;
  jt_EvaluationInfo : string;
  jt_Error : string;
  jt_Timeout : Z;
  jt_RetryCount : Z;
  jt_SchedulingClass : string;
  jt_ExecutionKey : string;
  jt_RunGeneration : Z;
  jt_OwnerRunGeneration : Z;
  jt_OwnerStatus : string;
  jt_RunToken : string;
  jt_WorkerID : string;
  jt_Attempt : Z;
  jt_DelayState : string;
  jt_DelayExecuteAt : Z;
  jt_DelayPayload : string;
}.

#[export] Instance eta_JobTask : Settable JobTask := fun j =>
  Build_JobTask (jt_Name j) (jt_Namespace j) (jt_WorkflowID j) (jt_ProjectID j) (jt_WorkspaceID j)
    (jt_AppID j) (jt_TaskID j) (jt_JobInfo j) (jt_InfoLabels j) (jt_InfoAnnotations j) (jt_InfoResetKey j) (jt_JobType j)
    (jt_FailurePolicy j) (jt_Status j) (jt_StartTime j) (jt_EndTime j) (jt_Info j)
    (jt_InternalInfo j) (jt_EvaluationInfo j) (jt_Error j) (jt_Timeout j) (jt_RetryCount j)
    (jt_SchedulingClass j) (jt_ExecutionKey j) (jt_RunGeneration j) (jt_OwnerRunGeneration j)
    (jt_OwnerStatus j) (jt_RunToken j) (jt_WorkerID j) (jt_Attempt j) (jt_DelayState j)
    (jt_DelayExecuteAt j) (jt_DelayPayload j).

Definition job_task_zero : JobTask :=
  Build_JobTask "" "" "" "" "" "" "" PayloadNil ∅ ∅ None "" "" "" 0 0 "" "" "" "" 0 0 "" "" 0 0 "" "" "" 0 "" 0 "".

(** ** JobSandbox *)

Record JobSandbox := {
  sb_ID : string;
  sb_WorkspaceID : string;
  sb_TaskID : string;
  sb_JobID : Z;
  sb_ExecutionKey : string;
  sb_TrialID : string;
  sb_RequestDigest : string;
  sb_Image : string;
  sb_StorageMiB : Z;
  sb_Namespace : string;
  sb_SandboxName : string;
  sb_SandboxUID : string;
  sb_AdmittedAt : option Z;
  sb_PodName : string;
  sb_PodUID : string;
  sb_RunnerPodName : string;
  sb_RunnerUID : string;
  sb_State : string;
  sb_Reason : string;
  sb_Deadline : Z;
  sb_RetainUntil : option Z;
  sb_StartReserved : bool;
  sb_SlotReserved : bool;
  sb_ReleaseRequested : bool;
  sb_CreateAttempts : Z;
  sb_LeaseToken : string;
  sb_LeaseUntil : option Z;
  sb_ReconcileAt : Z;
  sb_CreateTime : Z;
  sb_UpdateTime : Z;
}.

#[export] Instance eta_JobSandbox : Settable JobSandbox := fun s =>
  Build_JobSandbox (sb_ID s) (sb_WorkspaceID s) (sb_TaskID s) (sb_JobID s) (sb_ExecutionKey s)
    (sb_TrialID s) (sb_RequestDigest s) (sb_Image s) (sb_StorageMiB s) (sb_Namespace s)
    (sb_SandboxName s) (sb_SandboxUID s) (sb_AdmittedAt s) (sb_PodName s) (sb_PodUID s)
    (sb_RunnerPodName s) (sb_RunnerUID s) (sb_State s) (sb_Reason s) (sb_Deadline s)
    (sb_RetainUntil s) (sb_StartReserved s) (sb_SlotReserved s) (sb_ReleaseRequested s)
    (sb_CreateAttempts s) (sb_LeaseToken s) (sb_LeaseUntil s) (sb_ReconcileAt s)
    (sb_CreateTime s) (sb_UpdateTime s).

Definition job_sandbox_columns : list (string * Column JobSandbox) := [
  ("id", str_col sb_ID);
  ("workspace_id", str_col sb_WorkspaceID);
  ("task_id", str_col sb_TaskID);
  ("job_id", int_col sb_JobID);
  ("execution_key", str_col sb_ExecutionKey);
  ("trial_id", str_col sb_TrialID);
  ("request_digest", str_col sb_RequestDigest);
  ("image", str_col sb_Image);
  ("storage_mib", int_col sb_StorageMiB);
  ("namespace", str_col sb_Namespace);
  ("sandbox_name", str_col sb_SandboxName);
  ("sandbox_uid", str_col sb_SandboxUID);
  ("admitted_at", time_ptr_col sb_AdmittedAt);
  ("pod_name", str_col sb_PodName);
  ("pod_uid", str_col sb_PodUID);
  ("runner_pod_name", str_col sb_RunnerPodName);
  ("runner_uid", str_col sb_RunnerUID);
  ("state", str_col sb_State);
  ("reason", str_col sb_Reason);
  ("deadline", time_col sb_Deadline);
  ("retain_until", time_ptr_col sb_RetainUntil);
  ("start_reserved", bool_col sb_StartReserved);
  ("slot_reserved", bool_col sb_SlotReserved);
  ("release_requested", bool_col sb_ReleaseRequested);
  ("create_attempts", int_col sb_CreateAttempts);
  ("lease_token", str_col sb_LeaseToken);
  ("lease_until", time_ptr_col sb_LeaseUntil);
  ("reconcile_at", time_col sb_ReconcileAt);
  ("create_time", time_col sb_CreateTime);
  ("update_time", time_col sb_UpdateTime)]%string.

Definition job_sandbox_zero : JobSandbox :=
  Build_JobSandbox "" "" "" 0 "" "" "" "" 0 "" "" "" None "" "" "" "" "" "" time_zero None
    false false false 0 "" None time_zero time_zero time_zero.

Definition job_sandbox_index (s : JobSandbox) : list (string * Val) :=
  index_str "id" (sb_ID s) ++ index_str "workspace_id" (sb_WorkspaceID s) ++
  index_str "task_id" (sb_TaskID s) ++ index_str "execution_key" (sb_ExecutionKey s) ++
  index_str "state" (sb_State s) ++
  (if sb_StartReserved s then [("start_reserved"%string, VBool true)] else []) ++
  (if sb_SlotReserved s then [("slot_reserved"%string, VBool true)] else []).

(** ** SystemSetting and ResourceCreationBudget *)

Record SystemSetting := {
  ss_Type : string;
  ss_Value : RawMessage;
  ss_CreateTime : Z;
  ss_UpdateTime : Z;
}.

#[export] Instance eta_SystemSetting : Settable SystemSetting := fun s =>
  Build_SystemSetting (ss_Type s) (ss_Value s) (ss_CreateTime s) (ss_UpdateTime s).

(** The JSON value column is never compared or updated by column. *)
Definition system_setting_columns : list (string * Column SystemSetting) := [
  ("type", str_col ss_Type);
  ("create_time", time_col ss_CreateTime);
  ("update_time", time_col ss_UpdateTime)]%string.

Definition SystemSettingTypeWorkflowScheduler : string := "workflow_scheduler".

Definition system_setting_index (s : SystemSetting) : list (string * Val) :=
  index_str "type" (ss_Type s).

Record ResourceCreationBudget := {
  rb_ID : string;
  rb_AvailableAt : Z;
  rb_IntervalMicros : Z;
  rb_CreateTime : Z;
  rb_UpdateTime : Z;
}.

#[export] Instance eta_ResourceCreationBudget : Settable ResourceCreationBudget := fun b =>
  Build_ResourceCreationBudget (rb_ID b) (rb_AvailableAt b) (rb_IntervalMicros b)
    (rb_CreateTime b) (rb_UpdateTime b).

Definition resource_creation_budget_columns : list (string * Column ResourceCreationBudget) := [
  ("id", str_col rb_ID);
  ("available_at", time_col rb_AvailableAt);
  ("interval_micros", int_col rb_IntervalMicros);
  ("create_time", time_col rb_CreateTime);
  ("update_time", time_col rb_UpdateTime)]%string.

(** ** Applications

    The JSON documents (callback, properties, traits) are never compared or updated
    by column.  [ResourceAppName] is not stored. *)

Record Applications := {
  app_WorkspaceID : string;
  app_ID : string;
  app_Name : string;
  app_Namespace : string;
  app_Version : string;
  app_Alias : string;
  app_Project : string;
  app_Description : string;
  app_Icon : string;
  app_TemplateEnabled : bool;
  app_Callback : option Json;
  app_CreateTime : Z;
  app_UpdateTime : Z;
}.

#[export] Instance eta_Applications : Settable Applications := fun a =>
  Build_Applications (app_WorkspaceID a) (app_ID a) (app_Name a) (app_Namespace a) (app_Version a)
    (app_Alias a) (app_Project a) (app_Description a) (app_Icon a) (app_TemplateEnabled a)
    (app_Callback a) (app_CreateTime a) (app_UpdateTime a).

Definition applications_zero : Applications :=
  Build_Applications "" "" "" "" "" "" "" "" "" false None time_zero time_zero.

Definition applications_columns : list (string * Column Applications) := [
  ("workspaceid", str_col app_WorkspaceID);
  ("id", str_col app_ID);
  ("name", str_col app_Name);
  ("namespace", str_col app_Namespace);
  ("version", str_col app_Version);
  ("alias", str_col app_Alias);
  ("project", str_col app_Project);
  ("description", str_col app_Description);
  ("icon", str_col app_Icon);
  ("tmp_enable", bool_col app_TemplateEnabled);
  ("create_time", time_col app_CreateTime);
  ("update_time", time_col app_UpdateTime)]%string.

Definition applications_index (a : Applications) : list (string * Val) :=
  index_str "workspaceid" (app_WorkspaceID a) ++ index_str "id" (app_ID a) ++
  index_str "name" (app_Name a) ++ index_str "version" (app_Version a) ++
  index_str "project" (app_Project a) ++
  (if app_TemplateEnabled a then [("tmp_enable"%string, VBool true)] else []).

Definition application_component_columns : list (string * Column ApplicationComponent) := [
  ("id", int_col ac_ID);
  ("app_id", str_col ac_AppID);
  ("name", str_col ac_Name);
  ("namespace", str_col ac_Namespace);
  ("image", str_col ac_Image);
  ("replicas", int_col ac_Replicas);
  ("component_type", str_col ac_ComponentType);
  ("status", str_col ac_Status);
  ("ready_replicas", int_col ac_ReadyReplicas);
  ("last_abnormal", str_col ac_LastAbnormal);
  ("create_time", time_col ac_CreateTime);
  ("update_time", time_col ac_UpdateTime)]%string.

Definition application_component_index (c : ApplicationComponent) : list (string * Val) :=
  index_str "name" (ac_Name c) ++ index_str "app_id" (ac_AppID c).

(** ** JobArtifact *)

Record JobArtifact := {
  art_ID : string;
  art_WorkspaceID : string;
  art_TaskID : string;
  art_ExecutionKey : string;
  art_Kind : string;
  art_Name : string;
  art_Digest : string;
  art_Size : Z;
  art_Chunks : Z;
  art_Manifest : string;
  art_Summary : string;
  art_Reference : string;
  art_ExpiresAt : option Z;
  art_Expired : bool;
  art_CreateTime : Z;
  art_UpdateTime : Z;
}.

#[export] Instance eta_JobArtifact : Settable JobArtifact := fun a =>
  Build_JobArtifact (art_ID a) (art_WorkspaceID a) (art_TaskID a) (art_ExecutionKey a) (art_Kind a) (art_Name a)
    (art_Digest a) (art_Size a) (art_Chunks a) (art_Manifest a) (art_Summary a) (art_Reference a)
    (art_ExpiresAt a) (art_Expired a) (art_CreateTime a) (art_UpdateTime a).

Definition job_artifact_zero : JobArtifact :=
  Build_JobArtifact "" "" "" "" "" "" "" 0 0 "" "" "" None false time_zero time_zero.

Definition job_artifact_columns : list (string * Column JobArtifact) := [
  ("id", str_col art_ID);
  ("workspace_id", str_col art_WorkspaceID);
  ("task_id", str_col art_TaskID);
  ("execution_key", str_col art_ExecutionKey);
  ("kind", str_col art_Kind);
  ("name", str_col art_Name);
  ("digest", str_col art_Digest);
  ("size", int_col art_Size);
  ("chunks", int_col art_Chunks);
  ("manifest", str_col art_Manifest);
  ("summary", str_col art_Summary);
  ("reference", str_col art_Reference);
  ("expires_at", time_ptr_col art_ExpiresAt);
  ("expired", bool_col art_Expired);
  ("create_time", time_col art_CreateTime);
  ("update_time", time_col art_UpdateTime)]%string.

Definition job_artifact_index (a : JobArtifact) : list (string * Val) :=
  index_str "id" (art_ID a) ++ index_str "workspace_id" (art_WorkspaceID a) ++
  index_str "task_id" (art_TaskID a) ++ index_str "execution_key" (art_ExecutionKey a) ++
  index_str "kind" (art_Kind a).

(** ** Workspace *)

Record Workspace := {
  ws_ID : string;
  ws_Name : string;
  ws_Kind : string;
  ws_OwnerID : string;
  ws_Namespace : string;
  ws_PersonalUserID : option string;
  ws_JobResultPolicy : string;
  ws_CreateTime : Z;
  ws_UpdateTime : Z;
}.

#[export] Instance eta_Workspace : Settable Workspace := fun w =>
  Build_Workspace (ws_ID w) (ws_Name w) (ws_Kind w) (ws_OwnerID w) (ws_Namespace w) (ws_PersonalUserID w)
    (ws_JobResultPolicy w) (ws_CreateTime w) (ws_UpdateTime w).

Definition workspace_zero : Workspace := Build_Workspace "" "" "" "" "" None "" time_zero time_zero.

Definition workspace_columns : list (string * Column Workspace) := [
  ("id", str_col ws_ID);
  ("name", str_col ws_Name);
  ("kind", str_col ws_Kind);
  ("ownerid", str_col ws_OwnerID);
  ("namespace", str_col ws_Namespace);
  ("personaluserid", str_ptr_col ws_PersonalUserID);
  ("job_result_policy", str_col ws_JobResultPolicy);
  ("create_time", time_col ws_CreateTime);
  ("update_time", time_col ws_UpdateTime)]%string.

Definition workspace_index (w : Workspace) : list (string * Val) :=
  index_str "id" (ws_ID w) ++ index_str "ownerid" (ws_OwnerID w) ++ index_str "kind" (ws_Kind w) ++
  index_str "namespace" (ws_Namespace w).

(** ** Workflow

    A workflow definition; [Steps] and [Callback] hold the JSON of their columns, the members of an object in the
    order [json.Marshal] writes them. *)

Record Workflow := {
  flow_ID : string;
  flow_Name : string;
  flow_Namespace : string;
  flow_Alias : string;
  flow_Disabled : bool;
  flow_ProjectID : string;
  flow_AppID : string;
  flow_Description : string;
  flow_WorkflowType : string;
  flow_Status : string;
  flow_Steps : option Json;
  flow_Callback : option Json;
  flow_CreateTime : Z;
  flow_UpdateTime : Z;
}.

#[export] Instance eta_Workflow : Settable Workflow := fun f =>
  Build_Workflow (flow_ID f) (flow_Name f) (flow_Namespace f) (flow_Alias f) (flow_Disabled f) (flow_ProjectID f)
    (flow_AppID f) (flow_Description f) (flow_WorkflowType f) (flow_Status f) (flow_Steps f) (flow_Callback f)
    (flow_CreateTime f) (flow_UpdateTime f).

Definition workflow_zero : Workflow :=
  Build_Workflow "" "" "" "" false "" "" "" "" "" None None time_zero time_zero.

Definition workflow_columns : list (string * Column Workflow) := [
  ("id", str_col flow_ID);
  ("name", str_col flow_Name);
  ("namespace", str_col flow_Namespace);
  ("alias", str_col flow_Alias);
  ("disabled", bool_col flow_Disabled);
  ("project_id", str_col flow_ProjectID);
  ("app_id", str_col flow_AppID);
  ("description", str_col flow_Description);
  ("workflow_type", str_col flow_WorkflowType);
  ("status", str_col flow_Status);
  ("create_time", time_col flow_CreateTime);
  ("update_time", time_col flow_UpdateTime)]%string.

Definition workflow_index (f : Workflow) : list (string * Val) :=
  index_str "id" (flow_ID f) ++ index_str "name" (flow_Name f) ++ index_str "app_id" (flow_AppID f).

(** ** JobResultOutbox *)

Record JobResultOutbox := {
  ob_ID : string;
  ob_TaskID : string;
  ob_ExecutionKey : string;
  ob_RunGeneration : Z;
  ob_JobType : string;
  ob_Namespace : string;
  ob_Name : string;
  ob_ServiceName : string;
  ob_TimeoutSeconds : Z;
  ob_State : string;
  ob_JobUID : string;
  ob_LeaseExpiresAt : option Z;
  ob_MessageID : string;
  ob_Attempts : Z;
  ob_LastError : string;
  ob_CreateTime : Z;
  ob_UpdateTime : Z;
}.

#[export] Instance eta_JobResultOutbox : Settable JobResultOutbox := fun o =>
  Build_JobResultOutbox (ob_ID o) (ob_TaskID o) (ob_ExecutionKey o) (ob_RunGeneration o) (ob_JobType o)
    (ob_Namespace o) (ob_Name o) (ob_ServiceName o) (ob_TimeoutSeconds o) (ob_State o) (ob_JobUID o)
    (ob_LeaseExpiresAt o) (ob_MessageID o) (ob_Attempts o) (ob_LastError o) (ob_CreateTime o) (ob_UpdateTime o).

Definition job_result_outbox_zero : JobResultOutbox :=
  Build_JobResultOutbox "" "" "" 0 "" "" "" "" 0 "" "" None "" 0 "" time_zero time_zero.

Definition job_result_outbox_columns : list (string * Column JobResultOutbox) := [
  ("id", str_col ob_ID);
  ("task_id", str_col ob_TaskID);
  ("execution_key", str_col ob_ExecutionKey);
  ("run_generation", int_col ob_RunGeneration);
  ("job_type", str_col ob_JobType);
  ("namespace", str_col ob_Namespace);
  ("name", str_col ob_Name);
  ("service_name", str_col ob_ServiceName);
  ("timeout_seconds", int_col ob_TimeoutSeconds);
  ("state", str_col ob_State);
  ("job_uid", str_col ob_JobUID);
  ("lease_expires_at", time_ptr_col ob_LeaseExpiresAt);
  ("message_id", str_col ob_MessageID);
  ("attempts", int_col ob_Attempts);
  ("last_error", str_col ob_LastError);
  ("create_time", time_col ob_CreateTime);
  ("update_time", time_col ob_UpdateTime)]%string.

Definition job_result_outbox_index (o : JobResultOutbox) : list (string * Val) :=
  index_str "id" (ob_ID o) ++ index_str "task_id" (ob_TaskID o) ++
  index_str "execution_key" (ob_ExecutionKey o) ++ index_str "state" (ob_State o).
