(* ===== verification/Store.v ===== *)
(** The data store: [pkg/apiserver/infrastructure/datastore], its interface
    ([datastore.go]) and its SQL implementation ([sql/driver.go],
    [sql/transaction.go]).

    The database is one table of rows per entity and the server clock.  gorm and
    MySQL themselves are third-party: what they contribute is the meaning of one
    statement on the current rows.  A program is a function on a [World], the
    database together with what its surroundings will do: before each statement
    the next event of [w_env] happens, either nothing, a failure of the backend
    (the statement returns an error and changes nothing) or a commit of another
    session ([EnvWrite f]), which is how READ COMMITTED exposes concurrent writers
    between two statements.  With no events left nothing else happens, which is
    the sequential behaviour.

    A transaction runs its body and commits; when the body fails, or the commit
    itself does, its own writes are dropped and only the interleaved commits of
    other sessions remain.  Row locks are not a separate state: what a lock
    excludes is stated as a hypothesis on the events by the theorems that need
    it.  The query language is the fragment the modelled code uses (equality on
    index fields, IN, <>, <, ORDER BY, LIMIT); LIKE filters are not modelled. *)

From S2P Require Import Prelude GoStrings Policy Model.

(** ** The database *)

Record Database := {
  db_clock_micro : Z;  (* the server clock, microseconds since the epoch, UTC *)
  db_queue : gmap string WorkflowQueue;
  db_jobs : gmap Z JobInfo;
  db_next_job : Z;     (* AUTO_INCREMENT of the job table *)
  db_sandboxes : gmap string JobSandbox;
  db_settings : gmap string SystemSetting;
  db_budgets : gmap string ResourceCreationBudget;
  db_apps : gmap string Applications;
  db_components : gmap Z ApplicationComponent;
  db_next_component : Z;  (* AUTO_INCREMENT of the component table *)
  db_artifacts : gmap string JobArtifact;
  db_workspaces : gmap string Workspace;
  db_outbox : gmap string JobResultOutbox;
  db_workflows : gmap string Workflow;
}.

#[export] Instance eta_Database : Settable Database := fun d =>
  Build_Database (db_clock_micro d) (db_queue d) (db_jobs d) (db_next_job d) (db_sandboxes d)
    (db_settings d) (db_budgets d) (db_apps d) (db_components d) (db_next_component d)
    (db_artifacts d) (db_workspaces d) (db_outbox d) (db_workflows d).

Definition db_empty (micro : Z) : Database := Build_Database micro ∅ ∅ 1 ∅ ∅ ∅ ∅ ∅ 1 ∅ ∅ ∅ ∅.

(** The [Entity] interface of the source, with its table in the database.  A
    job's primary key is its number, of which [PrimaryKey()] is the decimal
    form; it is never empty. *)
Class Entity (E K : Type) `{Countable K} := {
  PrimaryKey : E -> K;
  primary_empty : K -> bool;
  TableName : string;
  columns : list (string * Column E);
  Index : E -> list (string * Val);
  SetCreateTime : Z -> E -> E;
  SetUpdateTime : Z -> E -> E;
  table : Database -> gmap K E;
  with_table : gmap K E -> Database -> Database;
  (* the key the database assigns on insertion, and the unique indexes *)
  assign_key : E -> Database -> E * Database;
  unique_ok : E -> Database -> bool;
}.

#[export] Instance Entity_WorkflowQueue : Entity WorkflowQueue string := {|
  PrimaryKey := wq_TaskID; primary_empty := str_empty;
  TableName := "eruun_workflow_queue"; columns := workflow_queue_columns;
  Index := workflow_queue_index;
  SetCreateTime t q := q <| wq_CreateTime := t |>;
  SetUpdateTime t q := q <| wq_UpdateTime := t |>;
  table := db_queue; with_table t d := d <| db_queue := t |>;
  assign_key q d := (q, d);
  unique_ok q d :=
    match wq_IdempotencyKey q with
    | None => true
    | Some k => forallb (fun kr => negb (bool_decide (wq_IdempotencyKey (snd kr) = Some k)))
                  (map_to_list (db_queue d))
    end |}.

#[export] Instance Entity_JobInfo : Entity JobInfo Z := {|
  PrimaryKey := job_ID; primary_empty _ := false;
  TableName := "eruun_job"; columns := job_info_columns;
  Index := job_info_index;
  SetCreateTime t j := j <| job_CreateTime := t |>;
  SetUpdateTime t j := j <| job_UpdateTime := t |>;
  table := db_jobs; with_table t d := d <| db_jobs := t |>;
  assign_key j d :=
    if job_ID j =? 0
    then (j <| job_ID := db_next_job d |>, d <| db_next_job := db_next_job d + 1 |>)
    else (j, d);
  unique_ok j d :=
    match job_ExecutionKey j with
    | None => true
    | Some k => forallb (fun kr => negb (bool_decide (job_ExecutionKey (snd kr) = Some k)))
                  (map_to_list (db_jobs d))
    end |}.

#[export] Instance Entity_JobSandbox : Entity JobSandbox string := {|
  PrimaryKey := sb_ID; primary_empty := str_empty;
  TableName := "eruun_job_sandbox"; columns := job_sandbox_columns;
  Index := job_sandbox_index;
  SetCreateTime t s := s <| sb_CreateTime := t |>;
  SetUpdateTime t s := s <| sb_UpdateTime := t |>;
  table := db_sandboxes; with_table t d := d <| db_sandboxes := t |>;
  assign_key s d := (s, d); unique_ok _ _ := true |}.

#[export] Instance Entity_SystemSetting : Entity SystemSetting string := {|
  PrimaryKey := ss_Type; primary_empty := str_empty;
  TableName := "eruun_system_setting"; columns := system_setting_columns;
  Index := system_setting_index;
  SetCreateTime t s := s <| ss_CreateTime := t |>;
  SetUpdateTime t s := s <| ss_UpdateTime := t |>;
  table := db_settings; with_table t d := d <| db_settings := t |>;
  assign_key s d := (s, d); unique_ok _ _ := true |}.

#[export] Instance Entity_ResourceCreationBudget : Entity ResourceCreationBudget string := {|
  PrimaryKey := rb_ID; primary_empty := str_empty;
  TableName := "eruun_resource_creation_budget"; columns := resource_creation_budget_columns;
  Index _ := [];
  SetCreateTime t b := b <| rb_CreateTime := t |>;
  SetUpdateTime t b := b <| rb_UpdateTime := t |>;
  table := db_budgets; with_table t d := d <| db_budgets := t |>;
  assign_key b d := (b, d); unique_ok _ _ := true |}.

#[export] Instance Entity_Applications : Entity Applications string := {|
  PrimaryKey := app_ID; primary_empty := str_empty;
  TableName := "eruun_applications"; columns := applications_columns;
  Index := applications_index;
  SetCreateTime t a := a <| app_CreateTime := t |>;
  SetUpdateTime t a := a <| app_UpdateTime := t |>;
  table := db_apps; with_table t d := d <| db_apps := t |>;
  assign_key a d := (a, d); unique_ok _ _ := true |}.

(** [PrimaryKey()] of a component is its name, the key of its row its number: the
    operations on components check the name themselves. *)
#[export] Instance Entity_ApplicationComponent : Entity ApplicationComponent Z := {|
  PrimaryKey := ac_ID; primary_empty _ := false;
  TableName := "eruun_app_components"; columns := application_component_columns;
  Index := application_component_index;
  SetCreateTime t c := c <| ac_CreateTime := t |>;
  SetUpdateTime t c := c <| ac_UpdateTime := t |>;
  table := db_components; with_table t d := d <| db_components := t |>;
  assign_key c d :=
    if ac_ID c =? 0
    then (c <| ac_ID := db_next_component d |>, d <| db_next_component := db_next_component d + 1 |>)
    else (c, d);
  unique_ok _ _ := true |}.

#[export] Instance Entity_JobArtifact : Entity JobArtifact string := {|
  PrimaryKey := art_ID; primary_empty := str_empty;
  TableName := "eruun_job_artifact"; columns := job_artifact_columns;
  Index := job_artifact_index;
  SetCreateTime t a := a <| art_CreateTime := t |>;
  SetUpdateTime t a := a <| art_UpdateTime := t |>;
  table := db_artifacts; with_table t d := d <| db_artifacts := t |>;
  assign_key a d := (a, d); unique_ok _ _ := true |}.

#[export] Instance Entity_Workspace : Entity Workspace string := {|
  PrimaryKey := ws_ID; primary_empty := str_empty;
  TableName := "eruun_workspaces"; columns := workspace_columns;
  Index := workspace_index;
  SetCreateTime t w := w <| ws_CreateTime := t |>;
  SetUpdateTime t w := w <| ws_UpdateTime := t |>;
  table := db_workspaces; with_table t d := d <| db_workspaces := t |>;
  assign_key w d := (w, d);
  unique_ok w d :=
    forallb (fun kr =>
      negb (ws_Namespace (snd kr) =? ws_Namespace w)%string &&
      match ws_PersonalUserID w with
      | None => true
      | Some u => negb (bool_decide (ws_PersonalUserID (snd kr) = Some u))
      end) (map_to_list (db_workspaces d)) |}.

#[export] Instance Entity_JobResultOutbox : Entity JobResultOutbox string := {|
  PrimaryKey := ob_ID; primary_empty := str_empty;
  TableName := "eruun_job_result_outbox"; columns := job_result_outbox_columns;
  Index := job_result_outbox_index;
  SetCreateTime t o := o <| ob_CreateTime := t |>;
  SetUpdateTime t o := o <| ob_UpdateTime := t |>;
  table := db_outbox; with_table t d := d <| db_outbox := t |>;
  assign_key o d := (o, d); unique_ok _ _ := true |}.

#[export] Instance Entity_Workflow : Entity Workflow string := {|
  PrimaryKey := flow_ID; primary_empty := str_empty;
  TableName := "eruun_workflow"; columns := workflow_columns;
  Index := workflow_index;
  SetCreateTime t f := f <| flow_CreateTime := t |>;
  SetUpdateTime t f := f <| flow_UpdateTime := t |>;
  table := db_workflows; with_table t d := d <| db_workflows := t |>;
  assign_key f d := (f, d); unique_ok _ _ := true |}.

(** ** Programs *)

Inductive EnvEvent :=
  | EnvQuiet
  | EnvFault
  | EnvWrite (f : Database -> Database).

Record World := { w_db : Database; w_env : list EnvEvent; w_wall : Z }.

#[export] Instance eta_World : Settable World := fun w =>
  Build_World (w_db w) (w_env w) (w_wall w).

(** What other sessions committed. *)
Definition env_apply (e : EnvEvent) (d : Database) : Database :=
  match e with EnvWrite f => f d | _ => d end.

Definition env_replay (es : list EnvEvent) (d : Database) : Database :=
  fold_left (fun d e => env_apply e d) es d.

Definition M (A : Type) : Type := World -> result A * World.

Definition ret {A} (a : A) : M A := fun w => (Ok a, w).
Definition throw {A} (e : error) : M A := fun w => (Err e, w).
Definition bind {A B} (m : M A) (k : A -> M B) : M B := fun w =>
  match m w with
  | (Ok a, w') => k a w'
  | (Err e, w') => (Err e, w')
  end.

(** The error as a value, for callers that inspect it. *)
Definition try {A} (m : M A) : M (result A) := fun w => let '(r, w') := m w in (Ok r, w').

Definition lift_result {A} (r : result A) : M A := match r with Ok a => ret a | Err e => throw e end.

(** [fmt.Errorf("msg: %w", err)] around a failing step. *)
Definition wrap_error {A} (msg : string) (m : M A) : M A := fun w =>
  match m w with
  | (Err e, w') => (Err (Wrapf msg e), w')
  | r => r
  end.

Notation "'let!' x := m 'in' k" := (bind m (fun x => k))
  (at level 10, x pattern, m at level 100, k at level 200) : eruun_scope.
Notation "'guard!' c 'else' e ; k" := (if c then k else throw e)
  (at level 10, c at level 99, e at level 99, k at level 200) : eruun_scope.

(** One statement. *)
Definition statement {A} (f : Z -> Database -> result A * Database) : M A := fun w =>
  match w_env w with
  | EnvFault :: es => (Err ErrDatabase, w <| w_env := es |>)
  | e :: es =>
      let '(r, d) := f (w_wall w) (env_apply e (w_db w)) in
      (r, w <| w_env := es |> <| w_db := d |>)
  | [] => let '(r, d) := f (w_wall w) (w_db w) in (r, w <| w_db := d |>)
  end.

(** [WithTransaction] and [WithReadCommittedTransaction]: the body, then the
    commit, which is a statement of its own.  On failure the database keeps only
    what other sessions committed meanwhile. *)
Definition rollback (w w' : World) : World :=
  w' <| w_db := env_replay (take (length (w_env w) - length (w_env w')) (w_env w)) (w_db w) |>.

Definition WithReadCommittedTransaction {A} (body : M A) : M A := fun w =>
  match (let! a := body in let! _ := statement (fun _ d => (Ok tt, d)) in ret a) w with
  | (Ok a, w') => (Ok a, w')
  | (Err e, w') => (Err e, rollback w w')
  end.

Definition WithTransaction {A} (body : M A) : M A := WithReadCommittedTransaction body.

(** ** Queries *)

Record FilterOptions := {
  In_ : list (string * list Val);
  NotEqual : list (string * Val);
  LessThan : list (string * Val);
}.
Definition no_filter : FilterOptions := Build_FilterOptions [] [] [].

Inductive SortOrder := SortOrderAscending | SortOrderDescending.

Record ListOptions := {
  Filter : FilterOptions;
  Page : Z;
  PageSize : Z;
  SortBy : list (string * SortOrder);
}.
Definition no_options : ListOptions := Build_ListOptions no_filter 0 0 [].

Inductive Cond :=
  | CIsNull               (* the condition value is a nil interface *)
  | CEq (v : Val).        (* column = value; never true on NULL *)

Section Driver.
Context {E K : Type} `{Entity E K}.

Definition find_col (c : string) : option (Column E) :=
  match List.find (fun kc => String.eqb (fst kc) c) columns with
  | Some (_, col) => Some col
  | None => None
  end.

Definition get_col (c : string) (e : E) : Val :=
  match find_col c with Some col => col_get col e | None => VNull end.

Definition known (cs : list string) : bool :=
  forallb (fun c => match find_col c with Some _ => true | None => false end) cs.

Definition is_null (v : Val) : bool := match v with VNull => true | _ => false end.

Definition cond_holds (e : E) (c : string * Cond) : bool :=
  match snd c with
  | CIsNull => is_null (get_col (fst c) e)
  | CEq v => negb (is_null v) && val_eqb (get_col (fst c) e) v
  end.

Definition conds_hold (cs : list (string * Cond)) (e : E) : bool := forallb (cond_holds e) cs.

Fixpoint apply_updates (us : list (string * Val)) (e : E) : option E :=
  match us with
  | [] => Some e
  | (c, v) :: r =>
      match find_col c with
      | Some col => match col_set col v e with Some e' => apply_updates r e' | None => None end
      | None => None
      end
  end.

(** *** driver.go *)

Definition Add (entity : E) : M E :=
  guard! negb (primary_empty (PrimaryKey entity)) else ErrPrimaryEmpty;
  guard! negb (str_empty TableName) else ErrTableNameEmpty;
  statement (fun now d =>
    let entity := SetUpdateTime now (SetCreateTime now entity) in
    let '(entity, d') := assign_key entity d in
    match table d' !! PrimaryKey entity with
    | Some _ => (Err ErrRecordExist, d)
    | None =>
        if unique_ok entity d
        then (Ok entity, with_table (<[PrimaryKey entity := entity]> (table d')) d')
        else (Err ErrRecordExist, d)
    end).

Fixpoint add_all (entities : list E) : M unit :=
  match entities with
  | [] => ret tt
  | e :: r => let! _ := Add e in add_all r
  end.

(** A failure that is not already a datastore error is wrapped; every error of
    [Add] is one. *)
Definition BatchAdd (entities : list E) : M unit :=
  match entities with
  | [] => ret tt
  | _ => WithTransaction (add_all entities)
  end.

Definition Get (key : K) : M E :=
  guard! negb (primary_empty key) else ErrPrimaryEmpty;
  guard! negb (str_empty TableName) else ErrTableNameEmpty;
  statement (fun _ d =>
    match table d !! key with
    | Some e => (Ok e, d)
    | None => (Err ErrRecordNotExist, d)
    end).

(** The lock is held until the transaction ends. *)
Definition GetForUpdate (key : K) : M E := Get key.

(** [Updates] with a struct writes its non-zero fields. *)
Definition put_row (entity row : E) : E :=
  fold_left (fun r kc =>
    let v := col_get (snd kc) entity in
    if val_zero v then r else default r (col_set (snd kc) v r)) columns row.

Definition Put (entity : E) : M unit :=
  guard! negb (primary_empty (PrimaryKey entity)) else ErrPrimaryEmpty;
  guard! negb (str_empty TableName) else ErrTableNameEmpty;
  statement (fun now d =>
    let entity := SetUpdateTime now entity in
    match table d !! PrimaryKey entity with
    | Some row =>
        (Ok tt, with_table (<[PrimaryKey entity := put_row entity row]> (table d)) d)
    | None => (Ok tt, d)
    end).

Definition Delete (key : K) : M unit :=
  guard! negb (primary_empty key) else ErrPrimaryEmpty;
  guard! negb (str_empty TableName) else ErrTableNameEmpty;
  let! _ := Get key in
  statement (fun _ d => (Ok tt, with_table (delete key (table d)) d)).

(** The WHERE clause of List, Count and DeleteByFilter. *)
Definition row_matches (index : list (string * Val)) (f : FilterOptions) (e : E) : bool :=
  forallb (fun kv => val_eqb (get_col (fst kv) e) (snd kv)) index &&
  forallb (fun kv => existsb (fun v => negb (is_null v) && val_eqb (get_col (fst kv) e) v)
                       (snd kv)) (In_ f) &&
  forallb (fun kv => let c := get_col (fst kv) e in
                     negb (is_null c) && negb (val_eqb c (snd kv))) (NotEqual f) &&
  forallb (fun kv => let c := get_col (fst kv) e in
                     negb (is_null c) && val_ltb c (snd kv)) (LessThan f).

Definition filter_columns (f : FilterOptions) : list string :=
  map fst (In_ f) ++ map fst (NotEqual f) ++ map fst (LessThan f).

Fixpoint row_le (sort : list (string * SortOrder)) (a b : E) : bool :=
  match sort with
  | [] => true
  | (k, o) :: r =>
      let va := get_col k a in let vb := get_col k b in
      if val_eqb va vb then row_le r a b
      else match o with
           | SortOrderAscending => val_ltb va vb
           | SortOrderDescending => val_ltb vb va
           end
  end.

Definition rows (d : Database) : list E := map snd (map_to_list (table d)).

Definition page_of (op : ListOptions) (l : list E) : list E :=
  if (0 <? PageSize op) && (0 <? Page op)
  then take (Z.to_nat (PageSize op)) (drop (Z.to_nat (PageSize op * (Page op - 1))) l)
  else l.

Definition select (index : list (string * Val)) (op : ListOptions) (d : Database) : list E :=
  let l := List.filter (row_matches index (Filter op)) (rows d) in
  page_of op (match SortBy op with
              | [] => l
              | s => merge_sort (fun a b => Is_true (row_le s a b)) l
              end).

Definition List_ (index : list (string * Val)) (op : ListOptions) : M (list E) :=
  guard! negb (str_empty TableName) else ErrTableNameEmpty;
  statement (fun _ d =>
    if known (map fst index ++ filter_columns (Filter op) ++ map fst (SortBy op))
    then (Ok (select index op d), d)
    else (Err ErrDatabase, d)).

Definition Count (index : list (string * Val)) (f : FilterOptions) : M Z :=
  guard! negb (str_empty TableName) else ErrTableNameEmpty;
  statement (fun _ d =>
    if known (map fst index ++ filter_columns f)
    then (Ok (Z.of_nat (length (List.filter (row_matches index f) (rows d)))), d)
    else (Err ErrDatabase, d)).

Definition DeleteByFilter (index : list (string * Val)) (f : FilterOptions) : M unit :=
  guard! negb (str_empty TableName) else ErrTableNameEmpty;
  if (length index + length (filter_columns f) =? 0)%nat
  then throw (Errorf "delete by filter requires at least one condition")
  else statement (fun _ d =>
    if known (map fst index ++ filter_columns f)
    then (Ok tt, with_table (filter (fun kr => row_matches index f (snd kr) = false)
                               (table d)) d)
    else (Err ErrDatabase, d)).

Definition CompareAndSwapWithConditions (key : K) (conditions : list (string * Cond))
    (updates : list (string * Val)) : M bool :=
  guard! negb (primary_empty key) else ErrPrimaryEmpty;
  guard! negb (str_empty TableName) else ErrTableNameEmpty;
  guard! negb (length conditions =? 0)%nat
    else Errorf "compare and swap requires at least one condition";
  statement (fun now d =>
    if known (map fst conditions) then
      match table d !! key with
      | Some row =>
          if conds_hold conditions row then
            match apply_updates (updates ++ [("update_time"%string, VTime now)]) row with
            | Some row' => (Ok true, with_table (<[key := row']> (table d)) d)
            | None => (Err ErrDatabase, d)
            end
          else (Ok false, d)
      | None => (Ok false, d)
      end
    else (Err ErrDatabase, d)).

(** The same for an entity whose primary key is zero: gorm adds no condition on it. *)
Definition CompareAndSwapRows (conditions : list (string * Cond)) (updates : list (string * Val)) : M bool :=
  guard! negb (str_empty TableName) else ErrTableNameEmpty;
  guard! negb (length conditions =? 0)%nat
    else Errorf "compare and swap requires at least one condition";
  statement (fun now d =>
    if known (map fst conditions) then
      let updates := updates ++ [("update_time"%string, VTime now)] in
      let hit kr := conds_hold conditions (snd kr) in
      let rows := map_to_list (table d) in
      if negb (existsb hit rows) then (Ok false, d)
      else if forallb (fun kr => negb (hit kr) || bool_decide (is_Some (apply_updates updates (snd kr)))) rows
      then (Ok true, with_table ((fun row => if conds_hold conditions row
                                            then default row (apply_updates updates row) else row) <$> table d) d)
      else (Err ErrDatabase, d)
    else (Err ErrDatabase, d)).

Definition IsExistByCondition (conditions : list (string * Cond)) : M bool :=
  guard! negb (str_empty TableName) else ErrTableNameEmpty;
  guard! negb (length conditions =? 0)%nat else Errorf "condition map is empty";
  statement (fun _ d =>
    if known (map fst conditions)
    then (Ok (existsb (conds_hold conditions) (rows d)), d) else (Err ErrDatabase, d)).

Definition CompareAndSwap (key : K) (conditionField : string) (conditionValue : Cond)
    (updates : list (string * Val)) : M bool :=
  CompareAndSwapWithConditions key [(conditionField, conditionValue)] updates.
End Driver.

Definition CurrentDatabaseTime : M Z :=
  statement (fun _ d =>
    if db_clock_micro d <=? 0
    then (Err (Errorf "query current database time returned zero value"), d)
    else (Ok (db_clock_micro d * Microsecond), d)).

(** ** What a program did to the database *)

(** [noeffect w w']: going from [w] to [w'], the program consumed some events and
    changed nothing itself; the database differs by the commits of others only. *)
Definition noeffect (w w' : World) : Prop :=
  exists es, w_env w = es ++ w_env w' /\ w_db w' = env_replay es (w_db w) /\ w_wall w' = w_wall w.

#[export] Instance noeffect_preorder : PreOrder noeffect.
Proof.
  split.
  - intros w. by exists [].
  - intros w1 w2 w3 (e1 & A1 & B1 & C1) (e2 & A2 & B2 & C2). exists (e1 ++ e2).
    unfold env_replay in *. rewrite fold_left_app, <- B1, <- B2, <- app_assoc, <- A2, A1.
    split; [done|split; [done|congruence]].
Qed.

(** Every program consumes its events from the front and keeps its clock. *)
Definition advances {A} (m : M A) : Prop :=
  forall w r w', m w = (r, w') ->
    exists es, w_env w = es ++ w_env w' /\ w_wall w' = w_wall w.

(** A program that never writes. *)
Definition read_only {A} (m : M A) : Prop :=
  forall w r w', m w = (r, w') -> noeffect w w'.

Create HintDb store.

Lemma noeffect_advances w w' : noeffect w w' ->
  exists es, w_env w = es ++ w_env w' /\ w_wall w' = w_wall w.
Proof. intros (es & A & _ & C). eauto. Qed.

Lemma read_only_advances {A} (m : M A) : read_only m -> advances m.
Proof. intros H w r w' E. apply noeffect_advances. eapply H, E. Qed.

Lemma advances_ret {A} (a : A) : advances (ret a).
Proof. intros w r w' [= <- <-]. by exists []. Qed.

Lemma advances_throw {A} e : advances (@throw A e).
Proof. intros w r w' [= <- <-]. by exists []. Qed.

Lemma advances_bind {A B} (m : M A) (k : A -> M B) :
  advances m -> (forall a, advances (k a)) -> advances (bind m k).
Proof.
  intros Hm Hk w r w' E. unfold bind in E. destruct (m w) as [[a|e] w1] eqn:Em.
  - destruct (Hm _ _ _ Em) as (e1 & A1 & B1). destruct (Hk a _ _ _ E) as (e2 & A2 & B2).
    exists (e1 ++ e2). split; [by rewrite <- app_assoc, <- A2|congruence].
  - injection E as <- <-. eauto.
Qed.

Lemma advances_try {A} (m : M A) : advances m -> advances (try m).
Proof.
  intros Hm w r w' E. unfold try in E. destruct (m w) as [r1 w1] eqn:Em.
  injection E as <- <-. eauto.
Qed.

Lemma advances_wrap {A} msg (m : M A) : advances m -> advances (wrap_error msg m).
Proof.
  intros Hm w r w' E. unfold wrap_error in E.
  destruct (m w) as [[a|e] w1] eqn:Em; injection E as <- <-; eauto.
Qed.

Lemma advances_lift {A} (r : result A) : advances (lift_result r).
Proof. destruct r; [apply advances_ret | apply advances_throw]. Qed.

Lemma read_only_ret {A} (a : A) : read_only (ret a).
Proof. intros w r w' [= <- <-]. reflexivity. Qed.

Lemma read_only_throw {A} e : read_only (@throw A e).
Proof. intros w r w' [= <- <-]. reflexivity. Qed.

Lemma read_only_lift {A} (r : result A) : read_only (lift_result r).
Proof. destruct r; [apply read_only_ret | apply read_only_throw]. Qed.

Lemma read_only_bind {A B} (m : M A) (k : A -> M B) :
  read_only m -> (forall a, read_only (k a)) -> read_only (bind m k).
Proof.
  intros Hm Hk w r w' E. unfold bind in E. destruct (m w) as [[a|e] w1] eqn:Em.
  - etrans; [eapply Hm, Em | eapply Hk, E].
  - injection E as <- <-. eapply Hm, Em.
Qed.

Lemma read_only_try {A} (m : M A) : read_only m -> read_only (try m).
Proof.
  intros Hm w r w' E. unfold try in E. destruct (m w) as [r1 w1] eqn:Em.
  injection E as <- <-. eauto.
Qed.

Lemma read_only_wrap {A} msg (m : M A) : read_only m -> read_only (wrap_error msg m).
Proof.
  intros Hm w r w' E. unfold wrap_error in E.
  destruct (m w) as [[a|e] w1] eqn:Em; injection E as <- <-; eauto.
Qed.

(** A statement fails, or runs on the database the other sessions left. *)
Lemma statement_spec {A} (f : Z -> Database -> result A * Database) w r w' :
  statement f w = (r, w') ->
  exists w1, noeffect w w1 /\
    ((r = Err ErrDatabase /\ w' = w1) \/
     exists d, f (w_wall w) (w_db w1) = (r, d) /\ w' = w1 <| w_db := d |>).
Proof.
  unfold statement. destruct w as [db [|[| |g] es] t]; cbn; intros E.
  - destruct (f t db) as [r0 d] eqn:F. injection E as <- <-.
    exists (Build_World db [] t). split; [reflexivity|]. right. eauto.
  - destruct (f t db) as [r0 d] eqn:F. injection E as <- <-.
    exists (Build_World db es t). split; [by exists [EnvQuiet]|]. right. eauto.
  - injection E as <- <-. exists (Build_World db es t). split; [by exists [EnvFault]|]. by left.
  - destruct (f t (g db)) as [r0 d] eqn:F. injection E as <- <-.
    exists (Build_World (g db) es t). split; [by exists [EnvWrite g]|]. right. eauto.
Qed.

Lemma advances_statement {A} (f : Z -> Database -> result A * Database) : advances (statement f).
Proof.
  intros w r w' E. destruct (statement_spec _ _ _ _ E) as (w1 & N & H).
  apply noeffect_advances in N. destruct H as [[_ ->]|(d & _ & ->)]; exact N.
Qed.

Lemma read_only_statement {A} (f : Z -> Database -> result A * Database) :
  (forall t d r d', f t d = (r, d') -> d' = d) -> read_only (statement f).
Proof.
  intros Hf w r w' E. destruct (statement_spec _ _ _ _ E) as (w1 & N & H).
  destruct H as [[_ ->]|(d & F & ->)]; [done|]. apply Hf in F. subst d. by destruct w1.
Qed.

#[export] Hint Resolve advances_ret advances_throw advances_bind advances_try advances_wrap
  advances_lift advances_statement read_only_ret read_only_throw read_only_lift read_only_bind
  read_only_try read_only_wrap : store.

Ltac store_step :=
  repeat match goal with
  | |- forall _, _ => intros ?
  | |- advances (bind _ _) => apply advances_bind
  | |- read_only (bind _ _) => apply read_only_bind
  | |- advances (try _) => apply advances_try
  | |- read_only (try _) => apply read_only_try
  | |- advances (wrap_error _ _) => apply advances_wrap
  | |- read_only (wrap_error _ _) => apply read_only_wrap
  | |- advances (if ?c then _ else _) => destruct c
  | |- read_only (if ?c then _ else _) => destruct c
  | |- advances (match ?c with _ => _ end) => destruct c
  | |- read_only (match ?c with _ => _ end) => destruct c
  | |- _ => solve [eauto with store]
  end.

(** A failed transaction leaves no trace of its own. *)
Lemma transaction_spec {A} (body : M A) w r w' :
  advances body -> WithReadCommittedTransaction body w = (r, w') ->
  match r with
  | Err _ => noeffect w w'
  | Ok a => exists w1, body w = (Ok a, w1) /\ noeffect w1 w'
  end.
Proof.
  intros Hb. unfold WithReadCommittedTransaction.
  set (commit := let! a := body in let! _ := statement _ in ret a).
  assert (Hc : advances commit) by (unfold commit; store_step).
  destruct (commit w) as [[a|e] w1] eqn:E; intros [= <- <-].
  - unfold commit, bind at 1 in E. destruct (body w) as [[b|?] w2] eqn:Eb; [|discriminate].
    unfold bind in E.
    destruct (statement (fun _ d => (Ok tt, d)) w2) as [[u|?] w3] eqn:Es; [|discriminate].
    injection E as -> ->. exists w2. split; [done|].
    eapply (read_only_statement (fun _ d => (Ok tt, d))); [|exact Es]. by intros t d r d' [= _ <-].
  - destruct (Hc _ _ _ E) as (es & Ee & Ew). exists es.
    split; [exact Ee|split; [|exact Ew]]. unfold rollback. cbn.
    rewrite Ee, length_app. replace (length es + _ - _)%nat with (length es) by lia.
    by rewrite take_app_length.
Qed.

Lemma advances_transaction {A} (body : M A) :
  advances body -> advances (WithReadCommittedTransaction body).
Proof.
  intros Hb w r w' E. pose proof (transaction_spec body w r w' Hb E) as T.
  destruct r as [a|e]; [|by apply noeffect_advances].
  destruct T as (w1 & Eb & N). destruct (Hb _ _ _ Eb) as (e1 & A1 & B1).
  apply noeffect_advances in N as (e2 & A2 & B2). exists (e1 ++ e2).
  split; [by rewrite <- app_assoc, <- A2|congruence].
Qed.

#[export] Hint Resolve advances_transaction : store.

Section DriverSpec.
Context {E K : Type} `{Entity E K}.

Lemma read_only_Get key : read_only (Get (E := E) key).
Proof.
  unfold Get. store_step. apply read_only_statement. intros t d r d'.
  destruct (table d !! key); congruence.
Qed.

Lemma read_only_List index op : read_only (List_ (E := E) index op).
Proof.
  unfold List_. store_step. apply read_only_statement. intros t d r d'.
  destruct (known _); congruence.
Qed.

Lemma read_only_Count index f : read_only (Count (E := E) index f).
Proof.
  unfold Count. store_step. apply read_only_statement. intros t d r d'.
  destruct (known _); congruence.
Qed.

Lemma read_only_exist conditions : read_only (IsExistByCondition (E := E) conditions).
Proof.
  unfold IsExistByCondition. store_step. apply read_only_statement. intros t d r d'.
  destruct (known _); congruence.
Qed.

(** A compare-and-swap that reports success changed exactly the row it names,
    from a state that met every condition; otherwise it changed nothing. *)
Lemma cas_spec key conditions updates w r w' :
  CompareAndSwapWithConditions (E := E) key conditions updates w = (r, w') ->
  match r with
  | Ok true => exists w1 row row', noeffect w w1 /\
      table (w_db w1) !! key = Some row /\ conds_hold conditions row = true /\
      apply_updates (updates ++ [("update_time"%string, VTime (w_wall w))]) row = Some row' /\
      w' = w1 <| w_db := with_table (<[key := row']> (table (w_db w1))) (w_db w1) |>
  | _ => noeffect w w'
  end.
Proof.
  unfold CompareAndSwapWithConditions.
  destruct (negb (primary_empty key)); [|by intros [= <- <-]].
  destruct (negb (str_empty TableName)); [|by intros [= <- <-]].
  destruct (negb (length conditions =? 0)%nat); [|by intros [= <- <-]].
  intros Es. destruct (statement_spec _ _ _ _ Es) as (w1 & N & [[-> ->]|(d & F & ->)]); [done|].
  assert (Hsame : w1 <| w_db := w_db w1 |> = w1) by by destruct w1.
  destruct (known _); [|injection F as <- <-; by rewrite Hsame].
  destruct (table (w_db w1) !! key) as [row|] eqn:Er;
    [|injection F as <- <-; by rewrite Hsame].
  destruct (conds_hold conditions row) eqn:Ec; [|injection F as <- <-; by rewrite Hsame].
  destruct (apply_updates _ row) as [row'|] eqn:Eu;
    [|injection F as <- <-; by rewrite Hsame].
  injection F as <- <-. eauto 10.
Qed.

Lemma advances_cas key conditions updates :
  advances (CompareAndSwapWithConditions (E := E) key conditions updates).
Proof. unfold CompareAndSwapWithConditions. store_step. Qed.

Lemma advances_cas_rows conditions updates : advances (CompareAndSwapRows (E := E) conditions updates).
Proof. unfold CompareAndSwapRows. store_step. Qed.

Lemma advances_Add e : advances (Add (E := E) e).
Proof. unfold Add. store_step. Qed.

Lemma advances_Put e : advances (Put (E := E) e).
Proof. unfold Put. store_step. Qed.
End DriverSpec.

#[export] Hint Resolve read_only_Get read_only_List read_only_Count read_only_exist advances_cas
  advances_cas_rows advances_Add
  advances_Put : store.
#[export] Hint Extern 5 (advances _) =>
  simple apply read_only_advances; solve [eauto with store] : store.

Lemma read_only_clock : read_only CurrentDatabaseTime.
Proof.
  apply read_only_statement. intros t d r d'. destruct (_ <=? _); congruence.
Qed.
#[export] Hint Resolve read_only_clock : store.

(** ** Rely and guarantee

    [P] relates the database before and after one commit.  A run alternates between
    commits of other sessions and commits of its own: [commits w w'] says that it leads
    from [w] to [w'] and that each commit of its own respects [P], at the database it
    finds then.  A program [guarantees P] if all its runs are such, whatever the other
    sessions commit in between: a check that is followed by an unconditional write does
    not, since the others may commit between the two.

    When the other sessions' commits respect [P] too (the rely [env_respects]), so does
    the whole run. *)

Inductive turn (P : Database -> Database -> Prop) : World -> World -> Prop :=
  | turn_others w w' : noeffect w w' -> turn P w w'
  | turn_own w d : P (w_db w) d -> turn P w (w <| w_db := d |>).

Definition commits (P : Database -> Database -> Prop) : relation World := rtc (turn P).

#[export] Instance commits_preorder P : PreOrder (commits P).
Proof. unfold commits. apply _. Qed.

Section RelyGuarantee.
Context (P : Database -> Database -> Prop) `{!PreOrder P}.

Definition env_respects (es : list EnvEvent) : Prop :=
  List.Forall (fun e => forall d, P d (env_apply e d)) es.

Definition guarantees {A} (m : M A) : Prop := forall w r w', m w = (r, w') -> commits P w w'.

Lemma env_respects_app es fs : env_respects (es ++ fs) <-> env_respects es /\ env_respects fs.
Proof. apply List.Forall_app. Qed.

Lemma env_replay_respects es d : env_respects es -> P d (env_replay es d).
Proof.
  revert d. induction es as [|e es IH]; intros d H; [reflexivity|].
  inversion_clear H as [|? ? He Hes]. cbn. etrans; [apply He|]. by apply IH.
Qed.

Lemma noeffect_respects w w' :
  noeffect w w' -> env_respects (w_env w) ->
  P (w_db w) (w_db w') /\ env_respects (w_env w').
Proof.
  intros (es & A & B & _) H. rewrite A in H. apply env_respects_app in H as [H1 H2].
  rewrite B. split; [by apply env_replay_respects | done].
Qed.

Lemma advances_respects {A} (m : M A) w r w' :
  advances m -> m w = (r, w') -> env_respects (w_env w) -> env_respects (w_env w').
Proof.
  intros Ha E H. destruct (Ha _ _ _ E) as (es & A' & _). rewrite A' in H.
  by apply env_respects_app in H as [_ H].
Qed.

Lemma commits_noeffect w w' : noeffect w w' -> commits P w w'.
Proof. intros N. by apply rtc_once, turn_others. Qed.

Lemma commits_write w d : P (w_db w) d -> commits P w (w <| w_db := d |>).
Proof. intros H. by apply rtc_once, turn_own. Qed.

Lemma commits_respects w w' : commits P w w' -> env_respects (w_env w) ->
  P (w_db w) (w_db w') /\ env_respects (w_env w').
Proof.
  induction 1 as [w|w w1 w' T _ IH]; intros He; [split; [reflexivity|done]|].
  assert (X : P (w_db w) (w_db w1) /\ env_respects (w_env w1))
    by (destruct T; [by apply noeffect_respects|by split]).
  destruct X as [X1 X2]. destruct (IH X2). split; [by etrans|done].
Qed.

(** A list cut in two ways. *)
Lemma cut_before {A} (l1 l2 m1 m2 : list A) (x : A) :
  l1 ++ x :: l2 = m1 ++ m2 -> (length m2 <= length l2)%nat -> exists l3, m1 = l1 ++ x :: l3 /\ l2 = l3 ++ m2.
Proof.
  revert m1. induction l1 as [|y l1 IH]; intros [|z m1] E L; cbn in E.
  - subst m2. cbn in L. lia.
  - injection E as -> ->. by exists m1.
  - subst m2. cbn in L. rewrite length_app in L. cbn in L. lia.
  - injection E as -> E. destruct (IH _ E L) as (l3 & -> & ->). by exists l3.
Qed.

Lemma cut_after {A} (l1 l2 m1 m2 : list A) (x : A) :
  l1 ++ x :: l2 = m1 ++ m2 -> (length l2 < length m2)%nat -> exists l3, l1 = m1 ++ l3 /\ m2 = l3 ++ x :: l2.
Proof.
  revert m1. induction l1 as [|y l1 IH]; intros [|z m1] E L; cbn in E.
  - by exists [].
  - injection E as -> ->. rewrite length_app in L. lia.
  - exists (y :: l1). by split.
  - injection E as -> E. destruct (IH _ E L) as (l3 & -> & ->). by exists l3.
Qed.

(** What each commit of another session during the run leaves is respected to the end of the run; [ev] is such a
    commit, [d1] the database it found. *)
Definition lasting (w w' : World) : Prop := forall es1 ev es2,
  w_env w = es1 ++ ev :: es2 -> (length (w_env w') <= length es2)%nat ->
  exists d1, P (w_db w) d1 /\ P (env_apply ev d1) (w_db w').

Lemma commits_lasting w w' : commits P w w' -> env_respects (w_env w) -> lasting w w'.
Proof.
  intros C He es1 ev es2. revert es1 He. induction C as [w|w w1 w' T C IH]; intros es1 He E L.
  - rewrite E, length_app in L. cbn in L. lia.
  - destruct T as [w w1 N|w d Hd].
    + destruct (noeffect_respects _ _ N He) as [P1 He1]. destruct N as (es & A & B & _). rewrite E in A.
      destruct (decide (length (w_env w1) <= length es2)%nat) as [Le|Gt].
      * destruct (cut_before _ _ _ _ _ A Le) as (es3 & -> & ->). rewrite E in He.
        apply env_respects_app in He as [H1 H2]. inversion_clear H2 as [|? ? Hev H3].
        apply env_respects_app in H3 as [H3 _].
        exists (env_replay es1 (w_db w)). split; [by apply env_replay_respects|].
        etrans; [by apply (env_replay_respects es3)|].
        assert (X : env_replay es3 (env_apply ev (env_replay es1 (w_db w))) = w_db w1)
          by (rewrite B; unfold env_replay; by rewrite fold_left_app).
        rewrite X. by apply (commits_respects _ _ C).
      * destruct (cut_after _ _ _ _ _ A) as (es3 & -> & X); [lia|].
        destruct (IH es3 He1 X L) as (d1 & Q1 & Q2). exists d1. split; [by etrans|done].
    + destruct (IH es1 He E L) as (d1 & Q1 & Q2). exists d1. split; [by etrans|done].
Qed.

Lemma commits_advances w w' : commits P w w' -> exists es, w_env w = es ++ w_env w' /\ w_wall w' = w_wall w.
Proof.
  induction 1 as [w|w w1 w' T _ (es & A & B)]; [by exists []|].
  destruct T as [w w1 N|w d _]; [|by exists es]. apply noeffect_advances in N as (es1 & A1 & B1).
  exists (es1 ++ es). split; [by rewrite <- app_assoc, <- A|congruence].
Qed.

Lemma guarantees_advances {A} (m : M A) : guarantees m -> advances m.
Proof. intros G w r w' E. eapply commits_advances, G, E. Qed.

(** From start to end, when the others respect [P]. *)
Lemma guarantees_run {A} (m : M A) w r w' :
  guarantees m -> m w = (r, w') -> env_respects (w_env w) -> P (w_db w) (w_db w') /\ env_respects (w_env w').
Proof. intros G E. apply commits_respects, (G _ _ _ E). Qed.

Lemma guarantees_read_only {A} (m : M A) : read_only m -> guarantees m.
Proof. intros H w r w' E. by apply commits_noeffect, (H _ _ _ E). Qed.

Lemma guarantees_bind_run {A B} (m : M A) (k : A -> M B) :
  guarantees m -> (forall w a w', m w = (Ok a, w') -> guarantees (k a)) -> guarantees (bind m k).
Proof.
  intros Gm Hk w r w' E. unfold bind in E. destruct (m w) as [[a|e] w1] eqn:Em.
  - etrans; [by eapply Gm|]. by eapply (Hk w a w1 Em).
  - injection E as <- <-. by eapply Gm.
Qed.

Lemma guarantees_bind {A B} (m : M A) (k : A -> M B) :
  guarantees m -> (forall a, guarantees (k a)) -> guarantees (bind m k).
Proof. intros Gm Hk. apply guarantees_bind_run; auto. Qed.

Lemma guarantees_try {A} (m : M A) : guarantees m -> guarantees (try m).
Proof.
  intros Gm w r w' E. unfold try in E. destruct (m w) as [r1 w1] eqn:Em. injection E as <- <-. by eapply Gm.
Qed.

Lemma guarantees_wrap {A} msg (m : M A) : guarantees m -> guarantees (wrap_error msg m).
Proof.
  intros Gm w r w' E. unfold wrap_error in E. destruct (m w) as [[a|e] w1] eqn:Em; injection E as <- <-; by eapply Gm.
Qed.

(** The writes of a transaction become visible together, when it commits: asking [P] of each of them is more. *)
Lemma guarantees_transaction {A} (body : M A) :
  guarantees body -> guarantees (WithReadCommittedTransaction body).
Proof.
  intros Gb w r w' E. pose proof (transaction_spec body w r w' (guarantees_advances _ Gb) E) as T. destruct r as [a|e].
  - destruct T as (w1 & Eb & N). etrans; [by eapply Gb|]. by apply commits_noeffect.
  - by apply commits_noeffect.
Qed.

Lemma guarantees_statement {A} (f : Z -> Database -> result A * Database) :
  (forall t d r d', f t d = (r, d') -> P d d') -> guarantees (statement f).
Proof.
  intros Hf w r w' E. destruct (statement_spec _ _ _ _ E) as (w1 & N & HF).
  etrans; [by apply commits_noeffect|]. destruct HF as [[_ ->]|(d & F & ->)]; [reflexivity|].
  apply commits_write. by eapply Hf.
Qed.

(** It is enough that the one write of a compare-and-swap respects [P]. *)
Lemma guarantees_cas {E K} `{Entity E K} key conditions updates :
  (forall now d row row', table d !! key = Some row -> conds_hold conditions row = true ->
     apply_updates (updates ++ [("update_time"%string, VTime now)]) row = Some row' ->
     P d (with_table (<[key := row']> (table d)) d)) ->
  guarantees (CompareAndSwapWithConditions (E := E) key conditions updates).
Proof.
  intros HP w r w' Er. pose proof (cas_spec key conditions updates w r w' Er) as C.
  destruct r as [[]|e]; [|by apply commits_noeffect|by apply commits_noeffect].
  destruct C as (w1 & row & row' & N1 & L & Hc & Hu & ->). etrans; [by apply commits_noeffect|].
  apply commits_write. eapply HP; eauto.
Qed.
End RelyGuarantee.
Arguments guarantees P {A} m.

(** ** Errors a program never ends in *)

Definition never {A} (e : error) (m : M A) : Prop := forall w w', m w <> (Err e, w').

Section Never.
Context (e0 : error).

Lemma never_ret {A} (a : A) : never e0 (ret a).
Proof. by intros w w' E. Qed.

Lemma never_throw {A} e : e <> e0 -> never e0 (@throw A e).
Proof. intros N w w' E. unfold throw in E. congruence. Qed.

Lemma never_bind_run {A B} (m : M A) (k : A -> M B) :
  never e0 m -> (forall w a w', m w = (Ok a, w') -> never e0 (k a)) -> never e0 (bind m k).
Proof.
  intros Nm Nk w w' E. unfold bind in E. destruct (m w) as [[a|e] w1] eqn:Em.
  - by eapply Nk.
  - injection E as -> ->. by eapply Nm.
Qed.

Lemma never_bind {A B} (m : M A) (k : A -> M B) :
  never e0 m -> (forall a, never e0 (k a)) -> never e0 (bind m k).
Proof. intros Nm Nk. apply never_bind_run; auto. Qed.

Lemma never_try {A} (m : M A) : never e0 (try m).
Proof. intros w w' E. unfold try in E. by destruct (m w). Qed.
End Never.

Lemma never_wrap {A} msg text (m : M A) : never (Errorf text) (wrap_error msg m).
Proof. intros w w' E. unfold wrap_error in E. by destruct (m w) as [[a|e] w1]. Qed.

#[export] Hint Resolve never_ret never_try never_wrap : store.

Ltac never_step :=
  repeat match goal with
  | |- forall _, _ => intros ?
  | |- never _ (bind _ _) => apply never_bind
  | |- never _ (if ?c then _ else _) => destruct c
  | |- never _ (match ?c with _ => _ end) => destruct c
  | |- never _ (throw _) => apply never_throw; discriminate
  | |- _ => solve [eauto with store]
  end.

(** ** Sequential runs

    With no event left a program runs alone. *)

Definition seqw (d : Database) (t : Z) : World := Build_World d [] t.

Lemma bind_ok {A B} (m : M A) (k : A -> M B) w a w' :
  m w = (Ok a, w') -> bind m k w = k a w'.
Proof. unfold bind. by intros ->. Qed.

Lemma bind_err {A B} (m : M A) (k : A -> M B) w e w' :
  m w = (Err e, w') -> bind m k w = (Err e, w').
Proof. unfold bind. by intros ->. Qed.

Lemma try_run {A} (m : M A) w r w' : m w = (r, w') -> try m w = (Ok r, w').
Proof. unfold try. by intros ->. Qed.

Lemma wrap_ok {A} msg (m : M A) w a w' : m w = (Ok a, w') -> wrap_error msg m w = (Ok a, w').
Proof. unfold wrap_error. by intros ->. Qed.

Lemma seq_statement {A} (f : Z -> Database -> result A * Database) d t r d' :
  f t d = (r, d') -> statement f (seqw d t) = (r, seqw d' t).
Proof. unfold statement. cbn. by intros ->. Qed.

Lemma seq_clock d t :
  0 < db_clock_micro d ->
  CurrentDatabaseTime (seqw d t) = (Ok (db_clock_micro d * Microsecond), seqw d t).
Proof.
  intros H. apply seq_statement. destruct (Z.leb_spec (db_clock_micro d) 0); [lia|done].
Qed.

Lemma seq_transaction_ok {A} (body : M A) d t a d' :
  body (seqw d t) = (Ok a, seqw d' t) ->
  WithReadCommittedTransaction body (seqw d t) = (Ok a, seqw d' t).
Proof. intros H. unfold WithReadCommittedTransaction, bind. rewrite H. reflexivity. Qed.

Lemma seq_transaction_err {A} (body : M A) d t e w' :
  body (seqw d t) = (Err e, w') -> w_env w' = [] -> w_wall w' = t ->
  WithReadCommittedTransaction body (seqw d t) = (Err e, seqw d t).
Proof.
  intros H E W. unfold WithReadCommittedTransaction, bind. rewrite H.
  unfold rollback. destruct w' as [d' es t']. cbn in E, W. by subst.
Qed.

Section SeqDriver.
Context {E K : Type} `{Entity E K}.

Lemma seq_Get key e d t :
  primary_empty key = false -> str_empty TableName = false -> table d !! key = Some e ->
  Get (E := E) key (seqw d t) = (Ok e, seqw d t).
Proof. intros P T L. unfold Get. rewrite P, T. apply seq_statement. by rewrite L. Qed.

Lemma seq_List index op d t :
  str_empty TableName = false ->
  known (map fst index ++ filter_columns (Filter op) ++ map fst (SortBy op)) = true ->
  List_ (E := E) index op (seqw d t) = (Ok (select index op d), seqw d t).
Proof. intros T Kn. unfold List_. rewrite T. apply seq_statement. by rewrite Kn. Qed.

Lemma seq_cas_true key conditions updates row row' d t :
  primary_empty key = false -> str_empty TableName = false -> conditions <> [] ->
  known (map fst conditions) = true -> table d !! key = Some row ->
  conds_hold conditions row = true ->
  apply_updates (updates ++ [("update_time"%string, VTime t)]) row = Some row' ->
  CompareAndSwapWithConditions (E := E) key conditions updates (seqw d t) =
    (Ok true, seqw (with_table (<[key := row']> (table d)) d) t).
Proof.
  intros P T N Kn L C U. unfold CompareAndSwapWithConditions. rewrite P, T.
  destruct conditions; [done|]. apply seq_statement. by rewrite Kn, L, C, U.
Qed.

Lemma seq_cas_false key conditions updates d t :
  primary_empty key = false -> str_empty TableName = false -> conditions <> [] ->
  known (map fst conditions) = true ->
  (forall row, table d !! key = Some row -> conds_hold conditions row = false) ->
  CompareAndSwapWithConditions (E := E) key conditions updates (seqw d t) =
    (Ok false, seqw d t).
Proof.
  intros P T N Kn C. unfold CompareAndSwapWithConditions. rewrite P, T.
  destruct conditions; [done|]. apply seq_statement. rewrite Kn.
  destruct (table d !! key) as [row|] eqn:L; [|done]. by rewrite (C row eq_refl).
Qed.

Lemma elem_rows d e : In e (rows d) <-> exists k, table d !! k = Some e.
Proof.
  unfold rows. rewrite in_map_iff. split.
  - intros ([k v] & <- & Hin). exists k. by apply list_elem_of_In, elem_of_map_to_list in Hin.
  - intros [k L]. exists (k, e). split; [done|]. by apply list_elem_of_In, elem_of_map_to_list.
Qed.

(** What a query returns is a page of the matching rows, in some order. *)
Lemma select_sorted index op d :
  exists l, select index op d = page_of op l /\
    l ≡ₚ List.filter (row_matches index (Filter op)) (rows d).
Proof.
  unfold select. destruct (SortBy op) as [|s0 s].
  - eauto.
  - eexists. split; [reflexivity|]. apply merge_sort_Permutation.
Qed.

Lemma page_of_subset op (l : list E) e : In e (page_of op l) -> In e l.
Proof.
  unfold page_of. destruct (_ && _); [|done]. intros Hin.
  assert (T : forall n (m : list E), In e (take n m) -> In e m).
  { intros n m. rewrite <- (take_drop n m) at 2. rewrite in_app_iff. auto. }
  apply T in Hin. set (n := Z.to_nat _) in Hin. rewrite <- (take_drop n l), in_app_iff. auto.
Qed.

Lemma select_matches index op d e :
  In e (select index op d) -> row_matches index (Filter op) e = true /\ In e (rows d).
Proof.
  intros Hin. destruct (select_sorted index op d) as (l & Es & P). rewrite Es in Hin.
  apply page_of_subset in Hin. apply (Permutation_in _ P), filter_In in Hin. tauto.
Qed.

(** The first page is everything when it is large enough. *)
Lemma select_first_page index op d :
  Page op = 1 ->
  Z.of_nat (length (List.filter (row_matches index (Filter op)) (rows d))) <= PageSize op ->
  select index op d ≡ₚ List.filter (row_matches index (Filter op)) (rows d).
Proof.
  intros P L. destruct (select_sorted index op d) as (l & -> & Pm).
  unfold page_of. destruct (_ && _); [|done].
  rewrite P. replace (PageSize op * (1 - 1)) with 0 by lia. cbn [Z.to_nat].
  rewrite drop_0, take_ge; [done|]. rewrite (Permutation_length Pm). lia.
Qed.
End SeqDriver.

(** ** The order of a query *)

Lemma val_ltb_trans a b c : val_ltb a b = true -> val_ltb b c = true -> val_ltb a c = true.
Proof.
  destruct a as [| |x|[]|x], b as [| |y|[]|y], c as [| |z|[]|z]; cbn; try done;
    rewrite ?Z.ltb_lt; try lia; apply string_ltb_trans.
Qed.

Lemma val_ltb_irrefl a : val_ltb a a = false.
Proof. destruct a as [|s|z|[]|z]; cbn; try done; [apply string_ltb_irrefl|apply Z.ltb_irrefl..]. Qed.

Lemma val_eqb_sym a b : val_eqb a b = val_eqb b a.
Proof. apply eq_true_iff_eq. rewrite !val_eqb_eq. split; congruence. Qed.

Lemma val_trichotomy a b : val_eqb a b = false -> val_ltb a b = false -> val_ltb b a = true.
Proof.
  destruct a as [|x|x|[]|x], b as [|y|y|[]|y]; cbn; try done.
  - intros N L. destruct (string_ltb_total x y) as [|[->|]]; try congruence. by rewrite String.eqb_refl in N.
  - rewrite Z.eqb_neq, Z.ltb_ge, Z.ltb_lt. lia.
  - rewrite Z.eqb_neq, Z.ltb_ge, Z.ltb_lt. lia.
Qed.

Section RowOrder.
Context {E K : Type} `{Entity E K}.

Lemma row_le_trans s (a b c : E) : row_le s a b = true -> row_le s b c = true -> row_le s a c = true.
Proof.
  revert a b c. induction s as [|[k o] s IH]; intros a b c; [done|]. cbn.
  destruct (val_eqb (get_col k a) (get_col k b)) eqn:Eab.
  - apply val_eqb_eq in Eab as ->. destruct (val_eqb (get_col k b) (get_col k c)); eauto.
  - destruct (val_eqb (get_col k b) (get_col k c)) eqn:Ebc.
    + apply val_eqb_eq in Ebc as <-. by rewrite Eab.
    + intros L1 L2. destruct (val_eqb (get_col k a) (get_col k c)) eqn:Eac.
      * exfalso. apply val_eqb_eq in Eac. rewrite Eac in L1.
        destruct o; pose proof (val_ltb_trans _ _ _ L1 L2) as X; by rewrite val_ltb_irrefl in X.
      * destruct o; eapply val_ltb_trans; eauto.
Qed.

Lemma row_le_total s (a b : E) : row_le s a b = true \/ row_le s b a = true.
Proof.
  revert a b. induction s as [|[k o] s IH]; intros a b; [by left|]. cbn.
  destruct (val_eqb (get_col k a) (get_col k b)) eqn:Eab.
  - apply val_eqb_eq in Eab. rewrite Eab. rewrite (proj2 (val_eqb_eq _ _) eq_refl). apply IH.
  - rewrite (val_eqb_sym (get_col k b)), Eab.
    destruct (val_ltb (get_col k a) (get_col k b)) eqn:L; [destruct o; auto|].
    pose proof (val_trichotomy _ _ Eab L). destruct o; auto.
Qed.

(** The rows of a sorted query, all pages together. *)
Lemma select_sorted_by index op d :
  SortBy op <> [] -> exists l : list E, select index op d = page_of op l /\
    l ≡ₚ List.filter (row_matches index (Filter op)) (rows d) /\
    StronglySorted (fun a b : E => Is_true (row_le (SortBy op) a b)) l.
Proof.
  intros N. unfold select. destruct (SortBy op) as [|s0 s] eqn:Es; [done|].
  eexists. split; [reflexivity|]. split; [apply merge_sort_Permutation|].
  apply StronglySorted_merge_sort.
  - intros a b c. rewrite !Is_true_true. apply row_le_trans.
  - intros a b. rewrite !Is_true_true. apply row_le_total.
Qed.
End RowOrder.

(** ** What a program read *)

(** At some moment of the run so far, or of what other sessions commit next, the store meets [F]. *)
Definition moment (w : World) (F : Database -> Prop) : Prop := exists w1, noeffect w w1 /\ F (w_db w1).

Lemma moment_later w w1 F : noeffect w w1 -> moment w1 F -> moment w F.
Proof. intros N (w2 & N2 & X). exists w2. split; [by etrans|done]. Qed.

Lemma moment_Get {E K} `{Entity E K} key w (row : E) w' : Get (E := E) key w = (Ok row, w') ->
  moment w (fun d => table d !! key = Some row).
Proof.
  unfold Get. do 2 (destruct (negb _); [|done]). intros Em. destruct (statement_spec _ _ _ _ Em) as (w1 & N & [[X _]|(d & F & _)]); [done|].
  exists w1. split; [done|]. destruct (table (w_db w1) !! key) as [r|]; [|done]. by injection F as <-.
Qed.

Lemma moment_List {E K} `{Entity E K} index op w (rows : list E) w' : List_ (E := E) index op w = (Ok rows, w') ->
  moment w (fun d => rows = select index op d).
Proof.
  unfold List_. destruct (negb _); [|done]. intros Em. destruct (statement_spec _ _ _ _ Em) as (w1 & N & [[X _]|(d & F & _)]); [done|].
  exists w1. split; [done|]. case_match; [|done]. by injection F as <-.
Qed.

(** A row a query listed was in its table. *)
Lemma moment_listed {E K} `{Entity E K} index op w (rows : list E) w' e : List_ (E := E) index op w = (Ok rows, w') ->
  In e rows -> exists key, moment w (fun d => table d !! key = Some e).
Proof.
  intros L I. destruct (moment_List _ _ _ _ _ L) as (w1 & N & ->). apply select_matches in I as [_ I].
  apply elem_rows in I as [key I]. exists key, w1. by split.
Qed.
