(* ===== verification/Hoare.v ===== *)
(** Triples for programs on the data store under interference.

    [triple R P m Post]: when every commit of the other sessions respects [R],
    a run of [m] from a database that meets [P] ends in a result and a database
    that meet [Post], and leaves only such commits.  Assertions that must survive
    until the next statement have to be [stable]. *)

From S2P Require Import Prelude Model Store.

(** The errors of the driver itself. *)
Definition driver_error (e : error) : Prop :=
  match e with
  | ErrPrimaryEmpty | ErrTableNameEmpty | ErrDatabase | Errorf _ => True
  | _ => False
  end.

Lemma driver_error_is target e :
  driver_error e -> ~ driver_error target -> errors_is target e = false.
Proof.
  intros He Ht. destruct e; cbn in He |- *; try done;
    rewrite orb_false_r, bool_decide_false; try done; intros <-; by apply Ht.
Qed.

Section Triples.
Context (R : Database -> Database -> Prop).

Definition stable (P : Database -> Prop) : Prop := forall d d', R d d' -> P d -> P d'.

Definition triple {A} (P : Database -> Prop) (m : M A) (Post : result A -> Database -> Prop)
    : Prop :=
  forall w r w', env_respects R (w_env w) -> P (w_db w) -> m w = (r, w') ->
    Post r (w_db w') /\ env_respects R (w_env w').

(** A postcondition on success only. *)
Definition on_ok {A} (Post : A -> Database -> Prop) (r : result A) (d : Database) : Prop :=
  match r with Ok a => Post a d | Err _ => True end.

Lemma triple_weaken {A} (P P' : Database -> Prop) (m : M A) (Post Post' : _ -> _ -> Prop) :
  (forall d, P d -> P' d) -> (forall r d, Post' r d -> Post r d) ->
  triple P' m Post' -> triple P m Post.
Proof. intros HP HQ T w r w' He Hp E. destruct (T w r w' He (HP _ Hp) E). auto. Qed.

Lemma triple_ret {A} P (a : A) (Post : _ -> _ -> Prop) :
  (forall d, P d -> Post (Ok a) d) -> triple P (ret a) Post.
Proof. intros H w r w' He Hp [= <- <-]. auto. Qed.

Lemma triple_throw {A} P e (Post : result A -> _ -> Prop) :
  (forall d, P d -> Post (Err e) d) -> triple P (throw e) Post.
Proof. intros H w r w' He Hp [= <- <-]. auto. Qed.

Lemma triple_bind {A B} P (m : M A) (k : A -> M B) (Mid : A -> Database -> Prop)
    (Post : result B -> Database -> Prop) :
  triple P m (fun r d => match r with Ok a => Mid a d | Err e => Post (Err e) d end) ->
  (forall a, triple (Mid a) (k a) Post) -> triple P (bind m k) Post.
Proof.
  intros Tm Tk w r w' He Hp E. unfold bind in E. destruct (m w) as [[a|e] w1] eqn:Em.
  - destruct (Tm _ _ _ He Hp Em). eapply Tk; eauto.
  - injection E as <- <-. by destruct (Tm _ _ _ He Hp Em).
Qed.

Lemma triple_bind_ok {A B} P (m : M A) (k : A -> M B) (Mid : A -> Database -> Prop) Post :
  triple P m (on_ok Mid) -> (forall a, triple (Mid a) (k a) (on_ok Post)) ->
  triple P (bind m k) (on_ok Post).
Proof.
  intros Tm Tk. apply triple_bind with (Mid := Mid); [|exact Tk].
  eapply triple_weaken; [..|exact Tm]; [done|]. by intros [a|e] d.
Qed.

Lemma triple_on_ok {A} P P' (m : M A) (Post Post' : A -> Database -> Prop) :
  (forall d, P d -> P' d) -> (forall a d, Post' a d -> Post a d) ->
  triple P' m (on_ok Post') -> triple P m (on_ok Post).
Proof. intros HP HQ. apply triple_weaken; [done|]. intros [a|e] d; [apply HQ|done]. Qed.

Lemma triple_try {A} P (m : M A) (Post : result (result A) -> Database -> Prop) :
  triple P m (fun r d => Post (Ok r) d) -> triple P (try m) Post.
Proof.
  intros T w r w' He Hp E. unfold try in E. destruct (m w) as [r1 w1] eqn:Em.
  injection E as <- <-. eauto.
Qed.

Lemma triple_wrap {A} P msg (m : M A) (Post : result A -> Database -> Prop) :
  triple P m (fun r d => match r with Ok a => Post (Ok a) d | Err e => Post (Err (Wrapf msg e)) d end) ->
  triple P (wrap_error msg m) Post.
Proof.
  intros T w r w' He Hp E. unfold wrap_error in E.
  destruct (m w) as [[a|e] w1] eqn:Em; injection E as <- <-; by destruct (T _ _ _ He Hp Em).
Qed.

Lemma triple_lift {A} P (o : result A) (Post : result A -> Database -> Prop) :
  (forall d, P d -> Post o d) -> triple P (lift_result o) Post.
Proof. destruct o; [apply triple_ret | apply triple_throw]. Qed.

Lemma triple_bind_lift {A B} P (o : result A) (k : A -> M B) (Post : result B -> Database -> Prop) :
  (forall e d, o = Err e -> P d -> Post (Err e) d) -> (forall a, o = Ok a -> triple P (k a) Post) ->
  triple P (bind (lift_result o) k) Post.
Proof.
  intros HE HO. destruct o as [a|e]; [exact (HO a eq_refl)|].
  intros w r w' He Hp [= <- <-]. split; [by apply HE|done].
Qed.

Lemma triple_if {A} P (c : bool) (m n : M A) Post :
  (c = true -> triple P m Post) -> (c = false -> triple P n Post) ->
  triple P (if c then m else n) Post.
Proof. destruct c; auto. Qed.

(** Facts that do not depend on the database move to the context. *)
Lemma triple_pure {A} (F : Prop) P (m : M A) Post :
  (F -> triple P m Post) -> triple (fun d => F /\ P d) m Post.
Proof. intros T w r w' He [f Hp] E. eapply T; eauto. Qed.

Lemma triple_exists {A X} (P : X -> Database -> Prop) (m : M A) Post :
  (forall x, triple (P x) m Post) -> triple (fun d => exists x, P x d) m Post.
Proof. intros T w r w' He [x Hp] E. eapply T; eauto. Qed.

Context `{!PreOrder R}.

Lemma stable_noeffect P w w' :
  stable P -> noeffect w w' -> env_respects R (w_env w) -> P (w_db w) ->
  P (w_db w') /\ env_respects R (w_env w').
Proof.
  intros S N He Hp. destruct (noeffect_respects R _ _ N He) as [HR He'].
  split; [eapply S; eauto | done].
Qed.

Lemma triple_read_only {A} P (m : M A) (Post : result A -> Database -> Prop) :
  stable P -> read_only m -> (forall r d, P d -> Post r d) -> triple P m Post.
Proof.
  intros S Hm HQ w r w' He Hp E.
  destruct (stable_noeffect _ _ _ S (Hm _ _ _ E) He Hp). auto.
Qed.

Lemma triple_statement {A} P (f : Z -> Database -> result A * Database) Post :
  stable P -> (forall d, P d -> Post (Err ErrDatabase) d) ->
  (forall t d r d', P d -> f t d = (r, d') -> Post r d') -> triple P (statement f) Post.
Proof.
  intros S HE HQ w r w' He Hp E. destruct (statement_spec _ _ _ _ E) as (w1 & N & H).
  destruct (stable_noeffect _ _ _ S N He Hp) as [Hp1 He1].
  destruct H as [[-> ->]|(d & F & ->)]; [auto|]. split; [eapply HQ; eauto | done].
Qed.

(** A failed transaction keeps its precondition. *)
Lemma triple_transaction {A} P (body : M A) (Post : result A -> Database -> Prop) :
  advances body -> stable P -> (forall a, stable (Post (Ok a))) ->
  (forall e d, P d -> Post (Err e) d) ->
  triple P body (on_ok (fun a => Post (Ok a))) ->
  triple P (WithReadCommittedTransaction body) Post.
Proof.
  intros Ab S SQ HE T w r w' He Hp E. pose proof (transaction_spec body w r w' Ab E) as Tr.
  destruct r as [a|e].
  - destruct Tr as (w1 & Eb & N). destruct (T _ _ _ He Hp Eb) as [HQ He1].
    eapply (stable_noeffect (Post (Ok a))); eauto.
  - destruct (stable_noeffect _ _ _ S Tr He Hp). auto.
Qed.

(** A compare-and-swap: written, refused or failed. *)
Lemma triple_cas {E K} `{Entity E K} P key conditions updates Post :
  stable P -> (forall e d, driver_error e -> P d -> Post (Err e) d) ->
  (forall d, P d ->
     (forall row, table d !! key = Some row -> conds_hold conditions row = false) ->
     Post (Ok false) d) ->
  (forall now d row row', P d -> table d !! key = Some row -> conds_hold conditions row = true ->
     apply_updates (updates ++ [("update_time"%string, VTime now)]) row = Some row' ->
     Post (Ok true) (with_table (<[key := row']> (table d)) d)) ->
  triple P (CompareAndSwapWithConditions (E := E) key conditions updates) Post.
Proof.
  intros S HE HF HT. unfold CompareAndSwapWithConditions.
  repeat (apply triple_if; intros ?; [|apply triple_throw; intros d; by apply HE]).
  apply triple_statement; [done|intros d; by apply HE|]. intros t d r d' Hp F.
  destruct (known _); [|injection F as <- <-; by apply HE].
  destruct (table d !! key) as [row|] eqn:L;
    [|injection F as <- <-; apply HF; [done|congruence]].
  destruct (conds_hold conditions row) eqn:C.
  - destruct (apply_updates _ row) eqn:U; injection F as <- <-; [eauto|by apply HE].
  - injection F as <- <-. apply HF; [done|]. intros row' Hr. rewrite L in Hr. by injection Hr as <-.
Qed.

Lemma triple_List {E K} `{Entity E K} P index op Post :
  stable P -> (forall e d, P d -> Post (Err e) d) ->
  (forall d, P d -> Post (Ok (select index op d)) d) ->
  triple P (List_ (E := E) index op) Post.
Proof.
  intros S HE HQ. unfold List_.
  apply triple_if; intros ?; [|apply triple_throw; auto].
  apply triple_statement; [done|auto|]. intros t d r d' Hp F.
  destruct (known _); injection F as <- <-; auto.
Qed.

Lemma triple_Count {E K} `{Entity E K} P index f Post :
  stable P -> (forall e d, P d -> Post (Err e) d) ->
  (forall d, P d ->
     Post (Ok (Z.of_nat (length (List.filter (row_matches (E := E) index f) (rows d))))) d) ->
  triple P (Count (E := E) index f) Post.
Proof.
  intros S HE HQ. unfold Count. apply triple_if; intros ?; [|apply triple_throw; auto].
  apply triple_statement; [done|auto|]. intros t d r d' Hp F.
  destruct (known _); injection F as <- <-; auto.
Qed.

Lemma triple_Get {E K} `{Entity E K} P key Post :
  stable P -> (forall e d, P d -> Post (Err e) d) ->
  (forall d row, P d -> table d !! key = Some row -> Post (Ok row) d) ->
  triple P (Get (E := E) key) Post.
Proof.
  intros S HE HQ. unfold Get.
  repeat (apply triple_if; intros ?; [|apply triple_throw; auto]).
  apply triple_statement; [done|auto|]. intros t d r d' Hp F.
  destruct (table d !! key) as [row|] eqn:L; injection F as <- <-; auto.
Qed.
End Triples.
