(* ===== verification/Budget.v ===== *)
(** The declared resource budget of job admission,
    [pkg/apiserver/domain/repository/job_scheduler_resources.go].

    A [corev1.ResourceList] is a map from resource names to quantities, [None]
    for the nil map, which the code tells apart from an empty one: nil means the
    declaration is unavailable, empty that the job needs nothing.  The budget is
    one record passed along; the code mutates it in place. *)

From S2P Require Import Prelude GoStrings Config Json Quantity Policy Model Store.

Definition ResourcePods : string := "pods".
Definition ResourceRequestsCPU : string := "requests.cpu".
Definition ResourceRequestsMemory : string := "requests.memory".
Definition ResourceLimitsCPU : string := "limits.cpu".
Definition ResourceLimitsMemory : string := "limits.memory".
Definition ResourceRequestsEphemeralStorage : string := "requests.ephemeral-storage".
Definition ResourceLimitsEphemeralStorage : string := "limits.ephemeral-storage".

Definition budgetResources : list string :=
  [ResourcePods; ResourceRequestsCPU; ResourceRequestsMemory; ResourceLimitsCPU;
   ResourceLimitsMemory; ResourceRequestsEphemeralStorage; ResourceLimitsEphemeralStorage].

Definition jobSchedulerBatchSize : Z := 100.

Definition resourceFreeJob (kind : string) : bool :=
  one_of [JobDeployService; JobDeployPVC; JobDeployConfigMap; JobDeploySecret; JobDeployRoute;
          JobDeleteResource; JobDeployCallback; JobCleanupResources; JobLogArchiveUpload;
          JobDatabaseReset; JobVersionRestart] kind.

(** [spec.ResourceTraitsSpec] without its GPU field, which admission ignores. *)
Record ResourceTraitsSpec := {
  rt_CPU : string;
  rt_Memory : string;
  rt_CPULimit : string;
  rt_MemoryLimit : string;
}.

Definition dec_resource_traits (j : Json) : option ResourceTraitsSpec :=
  decode! l <- dec_struct j;
  decode! cpu <- dec_string (json_field "cpu" l);
  decode! memory <- dec_string (json_field "memory" l);
  decode! _ <- dec_string (json_field "gpu" l);
  decode! cpuLimit <- dec_string (json_field "cpuLimit" l);
  decode! memoryLimit <- dec_string (json_field "memoryLimit" l);
  Some (Build_ResourceTraitsSpec cpu memory cpuLimit memoryLimit).

Definition dec_evaluation (j : Json) : option (Z * option ResourceTraitsSpec) :=
  decode! l <- dec_struct j;
  decode! concurrency <- dec_int64 (json_field "concurrency" l);
  decode! resources <- dec_ptr dec_resource_traits (json_field "sandboxResources" l);
  Some (concurrency, resources).

(** The struct literal of [evaluationResourceTraits]: its resources and its
    evaluation declaration. *)
Definition dec_evaluation_info (j : Json)
    : option (option ResourceTraitsSpec * option (Z * option ResourceTraitsSpec)) :=
  decode! l <- dec_struct j;
  decode! traits <- dec_struct (json_field "traits" l);
  decode! resources <- dec_ptr dec_resource_traits (json_field "resources" traits);
  decode! evaluation <- dec_ptr dec_evaluation (json_field "eval" traits);
  Some (resources, evaluation).

Definition evaluationResourceTraits (job : JobInfo)
    : result (option ResourceTraitsSpec * option ResourceTraitsSpec * Z) :=
  let unavailable := Err (Errorf "evaluation resource declaration unavailable") in
  match json_parse (job_EvaluationInfo job) with
  | None => unavailable
  | Some j =>
      match dec_evaluation_info j with
      | Some (runner, Some (concurrency, trial)) =>
          if (concurrency <? 1) || (16 <? concurrency) then unavailable
          else Ok (runner, trial, concurrency)
      | _ => unavailable
      end
  end.

(** [corev1.ResourceList] *)
Abbreviation ResourceList Q := (gmap string Q).

Section Budget.
Context {Q : Type} `{QuantityOps Q} `{KubernetesJson Q}.

Record jobResourceBudget := {
  b_quota : (ResourceList Q);
  b_keys : list string;
  b_used : gmap string (ResourceList Q);
  b_unknown : gset string;
  b_activeExecutions : gset string;
  b_retainedExecutions : gmap string (ResourceList Q);
  b_candidates : gmap Z (option (ResourceList Q));
}.

#[export] Instance eta_jobResourceBudget : Settable jobResourceBudget := fun b =>
  Build_jobResourceBudget (b_quota b) (b_keys b) (b_used b) (b_unknown b)
    (b_activeExecutions b) (b_retainedExecutions b) (b_candidates b).

(** The loop of [newJobResourceBudget] over the resources a quota can name. *)
Fixpoint quota_keys (given : (ResourceList Q)) (names : list string) (quota : (ResourceList Q))
    (keys : list string) : result ((ResourceList Q) * list string) :=
  match names with
  | [] => Ok (quota, keys)
  | key :: r =>
      match given !! key with
      | Some q =>
          if q_sign q <? 0 then Err (Errorf "negative job admission quota")
          else quota_keys given r (<[key := q]> quota) (keys ++ [key])
      | None => quota_keys given r quota keys
      end
  end.

Definition newJobResourceBudget (quotas : list (option (ResourceList Q)))
    : result (option jobResourceBudget) :=
  match quotas with
  | _ :: _ :: _ => Err (Errorf "job admission requires one workspace resource budget")
  | [] | [None] => Ok None
  | [Some given] =>
      check! qk <- quota_keys given budgetResources ∅ [];
      Ok (Some (Build_jobResourceBudget (fst qk) (snd qk) ∅ ∅ ∅ ∅ ∅))
  end.

(** One entry of the map literal of [traitResourceDemand]. *)
Fixpoint trait_entries (l : list (string * string)) (resources : (ResourceList Q))
    : option (ResourceList Q) :=
  match l with
  | [] => Some resources
  | (key, text) :: r =>
      match q_parse text with
      | Some q => if q_sign q <=? 0 then None else trait_entries r (<[key := q]> resources)
      | None => None
      end
  end.

Definition traitResourceDemand (traits : option ResourceTraitsSpec) : option (ResourceList Q) :=
  match traits with
  | None => None
  | Some t =>
      match q_parse "1" with
      | None => None (* [MustParse] would panic; "1" is a quantity *)
      | Some one =>
          trait_entries
            [(ResourceRequestsCPU, rt_CPU t); (ResourceRequestsMemory, rt_Memory t);
             (ResourceLimitsCPU, rt_CPULimit t); (ResourceLimitsMemory, rt_MemoryLimit t)]
            {[ResourcePods := one]}
      end
  end.

(** [demand[key] += q * concurrency] for the keys [demand] has. *)
Definition add_trials (trial : (ResourceList Q)) (concurrency : Z) (demand : (ResourceList Q))
    : (ResourceList Q) :=
  map_imap (fun key sum =>
    match trial !! key with
    | Some q => Some (q_add sum (fst (q_mul q concurrency)))
    | None => Some sum
    end) demand.

Definition has_negative (demand : (ResourceList Q)) : bool :=
  existsb (fun kq => q_sign (snd kq) <? 0) (map_to_list demand).

(** The declared demand column: [Err] where the code returns nil. *)
Definition declared_demand (job : JobInfo) : result (option (ResourceList Q)) :=
  if str_empty (job_SchedulingResources job) then Ok None else
  match json_parse (job_SchedulingResources job) with
  | None => Err (Errorf "resource declaration unavailable")
  | Some j =>
      match dec_map q_unmarshal j with
      | Some (Some demand) =>
          if has_negative demand || (q_sign (q_get demand ResourcePods) <=? 0)
          then Err (Errorf "resource declaration unavailable")
          else Ok (Some demand)
      | _ => Err (Errorf "resource declaration unavailable")
      end
  end.

Definition scheduledJobResourceDemand (job : JobInfo) : option (ResourceList Q) :=
  if resourceFreeJob (job_Type job) then Some ∅ else
  match declared_demand job with
  | Err _ => None
  | Ok demand =>
      if negb (job_Type job =? JobEval)%string then demand else
      match evaluationResourceTraits job with
      | Err _ => None
      | Ok (runner, trial, concurrency) =>
          let demand := match demand with None => traitResourceDemand runner | _ => demand end in
          match demand, traitResourceDemand trial with
          | Some demand, Some trialDemand =>
              Some (delete ResourceLimitsEphemeralStorage
                     (delete ResourceRequestsEphemeralStorage
                       (add_trials trialDemand concurrency demand)))
          | _, _ => None
          end
      end
  end.

(** The loop of [add] over the quota's keys. *)
Fixpoint add_keys (keys : list string) (demand : (ResourceList Q)) (used : (ResourceList Q))
    (unknown : bool) : (ResourceList Q) * bool :=
  match keys with
  | [] => (used, unknown)
  | key :: r =>
      match demand !! key with
      | Some q => add_keys r demand (<[key := q_add (q_get used key) q]> used) unknown
      | None => add_keys r demand used true
      end
  end.

Definition is_empty (demand : (ResourceList Q)) : bool := bool_decide (demand = ∅).

Definition used_in (b : jobResourceBudget) (workspace : string) : (ResourceList Q) :=
  default ∅ (b_used b !! workspace).

Definition add (b : jobResourceBudget) (workspace : string) (demand : option (ResourceList Q))
    : jobResourceBudget :=
  match demand with
  | None => b <| b_unknown := {[workspace]} ∪ b_unknown b |>
  | Some demand =>
      if (size demand =? 0)%nat then b else
      let '(used, unknown) := add_keys (b_keys b) demand (used_in b workspace) false in
      let b := b <| b_used := <[workspace := used]> (b_used b) |> in
      if unknown then b <| b_unknown := {[workspace]} ∪ b_unknown b |> else b
  end.

(** The loop of [reason] over the quota's keys. *)
Fixpoint reason_keys (keys : list string) (quota demand used : (ResourceList Q)) : string :=
  match keys with
  | [] => ""
  | key :: r =>
      match demand !! key with
      | None => "resource declaration unavailable for quota " ++ key
      | Some q =>
          if q_gtb (q_add (q_get used key) q) (q_get quota key)
          then "workspace resource budget exhausted: " ++ key
          else reason_keys r quota demand used
      end
  end%string.

Definition reason (b : jobResourceBudget) (workspace : string) (demand : option (ResourceList Q))
    : string :=
  match demand with
  | None => "resource declaration unavailable for workspace admission"
  | Some demand =>
      if (size demand =? 0)%nat then ""
      else if bool_decide (workspace ∈ b_unknown b)
      then "workspace has an active resource reservation with unknown size"
      else reason_keys (b_keys b) (b_quota b) demand (used_in b workspace)
  end%string.

(** The missing part of a recovered bundle. *)
Definition subtract_retained (retained demand : (ResourceList Q)) : (ResourceList Q) :=
  map_imap (fun key q =>
    match retained !! key with
    | Some existing => let q := q_sub q existing in Some (if q_sign q <? 0 then q_zero else q)
    | None => Some q
    end) demand.

Definition candidateDemand (b : jobResourceBudget) (job : JobInfo) : option (ResourceList Q) :=
  match default None (b_candidates b !! job_ID job), job_ExecutionKey job with
  | Some demand, Some key =>
      let retained := default ∅ (b_retainedExecutions b !! key) in
      if (size retained =? 0)%nat then Some demand
      else Some (subtract_retained retained demand)
  | demand, _ => demand
  end.

(** [a[key] += q] for every key of [demand]. *)
Definition merge_quantities (a demand : (ResourceList Q)) : (ResourceList Q) :=
  map_fold (fun key q acc => <[key := q_add (q_get acc key) q]> acc) a demand.

(** *** Retained sandboxes *)

(** The first loop over a page: the descending-identity check, and the parents
    still to be charged. *)
Fixpoint retained_parents (b : jobResourceBudget) (lastID : string) (page : list JobSandbox)
    : result (string * list Z) :=
  match page with
  | [] => Ok (lastID, [])
  | row :: r =>
      if str_empty (sb_ID row) || (negb (str_empty lastID) && negb (String.ltb (sb_ID row) lastID))
      then Err (Errorf "invalid Sandbox resource reservation page")
      else
        check! rest <- retained_parents b (sb_ID row) r;
        Ok (fst rest, if bool_decide (sb_ExecutionKey row ∈ b_activeExecutions b) then snd rest
                      else sb_JobID row :: snd rest)
  end.

(** One sandbox of the second loop. *)
Definition charge_sandbox (jobs : list JobInfo) (b : jobResourceBudget)
    (row : JobSandbox) : jobResourceBudget :=
  if bool_decide (sb_ExecutionKey row ∈ b_activeExecutions b) then b else
  match List.find (fun job => job_ID job =? sb_JobID row) jobs with
  | None => add b (sb_WorkspaceID row) None
  | Some job =>
      if negb (job_WorkspaceID job =? sb_WorkspaceID row)%string ||
         negb (bool_decide (job_ExecutionKey job = Some (sb_ExecutionKey row))) ||
         negb (job_Type job =? JobEval)%string
      then add b (sb_WorkspaceID row) None else
      match evaluationResourceTraits job with
      | Err _ => add b (sb_WorkspaceID row) None
      | Ok (_, trial, _) =>
          match traitResourceDemand trial with
          | None => add b (sb_WorkspaceID row) None
          | Some demand =>
              if sb_StorageMiB row <=? 0 then add b (sb_WorkspaceID row) None else
              let storage := q_of_int (i64 (sb_StorageMiB row * 1024 * 1024)) in
              let demand := <[ResourceLimitsEphemeralStorage := storage]>
                              (<[ResourceRequestsEphemeralStorage := storage]> demand) in
              let b := add b (sb_WorkspaceID row) (Some demand) in
              b <| b_retainedExecutions :=
                <[sb_ExecutionKey row :=
                    merge_quantities (default ∅ (b_retainedExecutions b !! sb_ExecutionKey row))
                      demand]> (b_retainedExecutions b) |>
          end
      end
  end.

Definition sandbox_page (lastID : string) : ListOptions :=
  Build_ListOptions
    (Build_FilterOptions [] []
       (if str_empty lastID then [] else [("id"%string, VStr lastID)]))
    1 jobSchedulerBatchSize [("id"%string, SortOrderDescending)].

(** The parents' ids are sent as decimal strings, which the database compares as
    numbers.  [pages] bounds the number of pages. *)
Fixpoint addRetainedSandboxes (pages : nat) (lastID : string)
    (b : jobResourceBudget) : M jobResourceBudget :=
  match pages with
  | O => throw (Errorf "out of pages")
  | S pages =>
      let! page := wrap_error "load retained Sandbox resource reservations"
        (List_ (E := JobSandbox) (Index (job_sandbox_zero <| sb_SlotReserved := true |>))
           (sandbox_page lastID)) in
      let! cursor := lift_result (retained_parents b lastID page) in
      let! jobs :=
        match snd cursor with
        | [] => ret []
        | ids => wrap_error "load retained Sandbox declarations"
                   (List_ (E := JobInfo) (Index job_info_zero)
                      (Build_ListOptions
                         (Build_FilterOptions [("id"%string, map VInt ids)] [] [])
                         1 (Z.of_nat (length ids)) []))
        end in
      let b := fold_left (charge_sandbox jobs) page b in
      if Z.of_nat (length page) <? jobSchedulerBatchSize then ret b
      else addRetainedSandboxes pages (fst cursor) b
  end.
End Budget.
Arguments jobResourceBudget Q : clear implicits.
