(* ===== verification/Lease.v ===== *)
(** Execution leases, [pkg/apiserver/domain/repository/workflow_lease.go], and the
    task queries of [workflow.go].

    A [WorkflowQueue] row is claimed for dispatch (a new generation and token),
    claimed for execution by one worker, renewed, released, paused at an
    approval, expired and recovered.  Every write is a compare-and-swap on the
    columns that identify the owner.  [token] stands for [uuid.NewString()].

    Go's [(value, error)] results with a zero value on error are [M]; the
    recovery loops, which return what they did before the error, return the
    error next to their count.  The store adapters are production ones, so the
    type assertions for optional capabilities succeed and are not modelled. *)

From S2P Require Import Prelude GoStrings Config Policy Model Store.

Definition workflowLeaseRecoveryBatchSize : Z := 100.
Definition workflowDispatchQueryBatchSize : Z := 100.

(** [time.Now()] of the running process. *)
Definition wall_clock : M Z := fun w => (Ok (w_wall w), w).

Definition currentWorkflowDatabaseTime : M Z :=
  let! now := wrap_error "query workflow database clock" CurrentDatabaseTime in
  guard! negb (now =? time_zero) else Errorf "query workflow database clock: zero timestamp";
  ret now.

Definition ownership_required {A} (msg : string) : M A :=
  throw (Wrapf msg ErrWorkflowOwnershipRequired).

Definition validateWorkflowExecutionIdentity (taskID : string) (generation : Z) (token : string)
    : M unit :=
  if blank taskID || (generation =? 0) || blank token
  then ownership_required "workflow execution identity requires task, generation, and token"
  else ret tt.

Definition UpdateTaskFieldsIfConditions (taskID : string) (conditions : list (string * Cond))
    (updates : list (string * Val)) : M bool :=
  guard! negb (str_empty taskID) else ErrPrimaryEmpty;
  CompareAndSwapWithConditions (E := WorkflowQueue) taskID conditions updates.

(** workflow.go *)
Definition UpdateTaskFieldsIfStatus (taskID : string) (status : string)
    (fields : list (string * Val)) : M bool :=
  guard! negb (str_empty taskID) else ErrPrimaryEmpty;
  CompareAndSwap (E := WorkflowQueue) taskID "status" (CEq (VStr status)) fields.

Definition TaskByID (taskID : string) : M WorkflowQueue := Get (E := WorkflowQueue) taskID.

Open Scope string_scope.
Open Scope Z_scope.

Definition ClaimWorkflowTaskForDispatch (task : option WorkflowQueue) (leaseDuration : Z)
    (token : string) : M (option WorkflowQueue * bool) :=
  match task with
  | None => throw ErrPrimaryEmpty
  | Some task =>
      guard! negb (blank (wq_TaskID task)) else ErrPrimaryEmpty;
      guard! 0 <? leaseDuration else Errorf "workflow dispatch lease duration must be positive";
      let! now := currentWorkflowDatabaseTime in
      let expiresAt := now + leaseDuration in
      let! updated := UpdateTaskFieldsIfConditions (wq_TaskID task)
        [("status", CEq (VStr StatusWaiting));
         ("run_generation", CEq (VInt (wq_RunGeneration task)))]
        [("status", VStr StatusQueued);
         ("run_generation", VInt (u64 (wq_RunGeneration task + 1)));
         ("run_token", VStr token);
         ("worker_id", VStr "");
         ("lease_expires_at", VTime expiresAt);
         ("dispatch_attempts", VInt (u64 (wq_DispatchAttempts task + 1)));
         ("scheduling_reason", VStr "waiting task selected")] in
      if negb updated then ret (None, false)
      else ret (Some (task <| wq_Status := StatusQueued |>
                           <| wq_RunGeneration := u64 (wq_RunGeneration task + 1) |>
                           <| wq_RunToken := token |>
                           <| wq_WorkerID := "" |>
                           <| wq_LeaseExpiresAt := Some expiresAt |>
                           <| wq_DispatchAttempts := u64 (wq_DispatchAttempts task + 1) |>
                           <| wq_SchedulingReason := "waiting task selected" |>), true)
  end.

(** The columns that identify a worker's ownership of a generation. *)
Definition owner_conditions (status : string) (generation : Z) (token workerID : string)
    : list (string * Cond) :=
  [("status", CEq (VStr status)); ("run_generation", CEq (VInt generation));
   ("run_token", CEq (VStr token)); ("worker_id", CEq (VStr workerID))].

Definition ClaimWorkflowTaskForExecution (taskID : string) (generation : Z)
    (token workerID : string) (leaseDuration : Z) : M (option WorkflowQueue * bool) :=
  let! _ := validateWorkflowExecutionIdentity taskID generation token in
  if blank workerID
  then ownership_required "workflow execution claim requires worker identity" else
  guard! 0 <? leaseDuration else Errorf "workflow execution lease duration must be positive";
  let! now := currentWorkflowDatabaseTime in
  let expiresAt := now + leaseDuration in
  let! updated := UpdateTaskFieldsIfConditions taskID
    [("status", CEq (VStr StatusQueued)); ("run_generation", CEq (VInt generation));
     ("run_token", CEq (VStr token))]
    [("status", VStr StatusRunning); ("worker_id", VStr workerID);
     ("lease_expires_at", VTime expiresAt);
     ("scheduling_reason", VStr "worker claimed dispatch")] in
  if negb updated then ret (None, false) else
  let! task := TaskByID taskID in
  if negb (wq_Status task =? StatusRunning)%string || negb (wq_RunGeneration task =? generation) ||
     negb (wq_RunToken task =? token)%string || negb (wq_WorkerID task =? workerID)%string
  then ret (Some task, false)
  else ret (Some task, true).

Definition RenewWorkflowTaskLease (taskID : string) (generation : Z) (token workerID : string)
    (leaseDuration : Z) : M bool :=
  let! _ := validateWorkflowExecutionIdentity taskID generation token in
  if blank workerID
  then ownership_required "workflow lease renewal requires worker identity" else
  guard! 0 <? leaseDuration else Errorf "workflow execution lease duration must be positive";
  let! now := currentWorkflowDatabaseTime in
  UpdateTaskFieldsIfConditions taskID (owner_conditions StatusRunning generation token workerID)
    [("lease_expires_at", VTime (now + leaseDuration))].

Definition RenewCancelledWorkflowTaskLease (taskID : string) (generation : Z)
    (token workerID : string) (leaseDuration : Z) : M bool :=
  let! _ := validateWorkflowExecutionIdentity taskID generation token in
  if blank workerID
  then ownership_required "workflow cleanup lease requires worker identity" else
  guard! 0 <? leaseDuration else Errorf "workflow cleanup lease duration must be positive";
  let! now := currentWorkflowDatabaseTime in
  UpdateTaskFieldsIfConditions taskID (owner_conditions StatusCancelled generation token workerID)
    [("lease_expires_at", VTime (now + leaseDuration))].

Definition ExpireWorkflowTaskLease (taskID : string) (generation : Z) (token workerID : string)
    : M bool :=
  let! _ := validateWorkflowExecutionIdentity taskID generation token in
  if blank workerID
  then ownership_required "workflow lease expiration requires worker identity" else
  let! now := currentWorkflowDatabaseTime in
  UpdateTaskFieldsIfConditions taskID (owner_conditions StatusRunning generation token workerID)
    [("lease_expires_at", VTime now); ("scheduling_reason", VStr "worker execution stopped")].

Definition PersistApprovalCheckpoint (task : option WorkflowQueue) (stepName : string)
    (stepIndex timeout : Z) : M bool :=
  match task with
  | None => throw ErrPrimaryEmpty
  | Some task =>
      let! _ := validateWorkflowExecutionIdentity (wq_TaskID task) (wq_RunGeneration task)
                  (wq_RunToken task) in
      if blank (wq_WorkerID task)
      then ownership_required "approval checkpoint requires worker identity" else
      let! deadline :=
        (if 0 <? timeout
         then let! now := currentWorkflowDatabaseTime in ret (VTime (now + timeout))
         else ret VNull) in
      UpdateTaskFieldsIfConditions (wq_TaskID task)
        [("status", CEq (VStr StatusRunning)); ("current_step", CEq (VInt stepIndex));
         ("run_generation", CEq (VInt (wq_RunGeneration task)));
         ("run_token", CEq (VStr (wq_RunToken task)));
         ("worker_id", CEq (VStr (wq_WorkerID task)))]
        [("status", VStr StatusWaitingApprove); ("current_step", VInt stepIndex);
         ("approval_pending", VBool true); ("pending_approval_step", VStr stepName);
         ("approval_deadline", deadline)]
  end.

(** One checkpoint of [ExpireApprovalDeadlines]; [true] when it was expired. *)
Definition expire_approval (now : Z) (task : WorkflowQueue) : M bool :=
  match wq_ApprovalDeadline task with
  | Some deadline =>
      if negb (wq_Status task =? StatusWaitingApprove)%string ||
         negb (wq_ApprovalPending task) || negb (deadline <? now)
      then ret false
      else UpdateTaskFieldsIfConditions (wq_TaskID task)
        [("status", CEq (VStr StatusWaitingApprove)); ("approval_pending", CEq (VBool true));
         ("current_step", CEq (VInt (wq_CurrentStep task)));
         ("pending_approval_step", CEq (VStr (wq_PendingApprovalStep task)));
         ("run_generation", CEq (VInt (wq_RunGeneration task)));
         ("approval_deadline", CEq (VTime deadline))]
        [("status", VStr StatusTimeout); ("approval_pending", VBool false);
         ("pending_approval_step", VStr ""); ("run_token", VStr ""); ("worker_id", VStr "");
         ("lease_expires_at", VNull);
         ("scheduling_reason", VStr "approval deadline exceeded")]
  | None => ret false
  end.

Fixpoint expire_approvals (now : Z) (tasks expired : list WorkflowQueue)
    : M (list WorkflowQueue * option error) :=
  match tasks with
  | [] => ret (expired, None)
  | task :: r =>
      let! updated := try (expire_approval now task) in
      match updated with
      | Ok true => expire_approvals now r (expired ++ [task])
      | Ok false => expire_approvals now r expired
      | Err e => ret (expired, Some e)
      end
  end.

Definition batch_options (f : FilterOptions) (limit : Z) (key : string) : ListOptions :=
  Build_ListOptions f 1 limit [(key, SortOrderAscending)].

Definition ExpireApprovalDeadlines (limit : Z) : M (list WorkflowQueue * option error) :=
  guard! negb ((limit <? 1) || (10000 <? limit))
    else Errorf "approval deadline batch limit must be 1..10000";
  let! now := currentWorkflowDatabaseTime in
  let! entities := List_ (E := WorkflowQueue)
    (Index (workflow_queue_zero <| wq_Status := StatusWaitingApprove |>))
    (batch_options (Build_FilterOptions [] [] [("approval_deadline", VTime now)])
       limit "approval_deadline") in
  expire_approvals now (take (Z.to_nat limit) entities) [].

Definition UpdateTaskFieldsIfOwned (task : option WorkflowQueue) (expectedStatus : string)
    (updates : list (string * Val)) : M bool :=
  match task with
  | None => throw ErrPrimaryEmpty
  | Some task =>
      guard! negb (str_empty (wq_TaskID task)) else ErrPrimaryEmpty;
      let! _ := validateWorkflowExecutionIdentity (wq_TaskID task) (wq_RunGeneration task)
                  (wq_RunToken task) in
      if blank (wq_WorkerID task)
      then ownership_required "owned update requires worker identity" else
      UpdateTaskFieldsIfConditions (wq_TaskID task)
        (owner_conditions expectedStatus (wq_RunGeneration task) (wq_RunToken task)
           (wq_WorkerID task)) updates
  end.

(** The status column an owner snapshot is fenced on. *)
Definition owner_status (task : WorkflowQueue) : string :=
  if str_empty (wq_Status task) then StatusRunning else wq_Status task.

Definition WithWorkflowTaskOwnership {A} (task : option WorkflowQueue) (persist : M A) : M A :=
  match task with
  | None => throw ErrPrimaryEmpty
  | Some task =>
      guard! negb (blank (wq_TaskID task)) else ErrPrimaryEmpty;
      let! _ :=
        (if jobSchedulingTerminal (wq_Status task) then ret tt
         else
           let! _ := validateWorkflowExecutionIdentity (wq_TaskID task) (wq_RunGeneration task)
                       (wq_RunToken task) in
           if blank (wq_WorkerID task)
           then ownership_required "owned persistence requires worker identity"
           else ret tt) in
      WithReadCommittedTransaction (
        let! owned := wrap_error "verify workflow execution ownership"
          (UpdateTaskFieldsIfConditions (wq_TaskID task)
             (owner_conditions (owner_status task) (wq_RunGeneration task) (wq_RunToken task)
                (wq_WorkerID task)) []) in
        guard! owned else Wrapf "task generation worker" ErrWorkflowOwnershipLost;
        persist)
  end.

Definition ReleaseWorkflowDispatchClaim (task : option WorkflowQueue) (reason : string)
    : M bool :=
  match task with
  | None => throw ErrNilEntity
  | Some task =>
      guard! negb (str_empty (wq_TaskID task)) else ErrNilEntity;
      let! _ := validateWorkflowExecutionIdentity (wq_TaskID task) (wq_RunGeneration task)
                  (wq_RunToken task) in
      UpdateTaskFieldsIfConditions (wq_TaskID task)
        [("status", CEq (VStr StatusQueued));
         ("run_generation", CEq (VInt (wq_RunGeneration task)));
         ("run_token", CEq (VStr (wq_RunToken task)))]
        [("status", VStr StatusWaiting); ("run_token", VStr ""); ("worker_id", VStr "");
         ("lease_expires_at", VNull); ("scheduling_reason", VStr reason)]
  end.

(** ** Recovery of expired leases *)

(** One row of [RecoverExpiredWorkflowTasks]; [true] when it was recovered. *)
Definition recover_task (now : Z) (task : WorkflowQueue) : M bool :=
  let! _ := wrap_error "active workflow task has invalid execution identity"
    (validateWorkflowExecutionIdentity (wq_TaskID task) (wq_RunGeneration task)
       (wq_RunToken task)) in
  match wq_LeaseExpiresAt task with
  | None => throw (Errorf "active workflow task has no lease expiration")
  | Some expires =>
      if now <? expires then ret false
      else UpdateTaskFieldsIfConditions (wq_TaskID task)
        [("status", CEq (VStr (wq_Status task)));
         ("run_generation", CEq (VInt (wq_RunGeneration task)));
         ("run_token", CEq (VStr (wq_RunToken task)));
         ("lease_expires_at", CEq (VTime expires))]
        [("status", VStr StatusWaiting); ("run_token", VStr ""); ("worker_id", VStr "");
         ("lease_expires_at", VNull); ("scheduling_reason", VStr "execution lease expired")]
  end.

(** The loops count what they recovered before an error. *)
Fixpoint recover_all (recover : WorkflowQueue -> M bool) (tasks : list WorkflowQueue)
    (recovered : Z) : M (Z * option error) :=
  match tasks with
  | [] => ret (recovered, None)
  | task :: r =>
      let! updated := try (recover task) in
      match updated with
      | Ok true => recover_all recover r (recovered + 1)
      | Ok false => recover_all recover r recovered
      | Err e => ret (recovered, Some e)
      end
  end.

Definition expired_lease_filter (statuses : list string) (now : Z) : FilterOptions :=
  Build_FilterOptions
    (match statuses with [] => [] | _ => [("status", map VStr statuses)] end)
    [("run_token", VStr "")] [("lease_expires_at", VTime now)].

Definition RecoverExpiredWorkflowTasks (limits : list Z) : M (Z * option error) :=
  guard! (length limits <=? 1)%nat else Errorf "workflow recovery accepts one batch limit";
  let limit := match limits with l :: _ => l | [] => workflowLeaseRecoveryBatchSize end in
  guard! negb ((limit <? 1) || (10000 <? limit))
    else Errorf "workflow recovery batch limit must be 1..10000";
  let! now := currentWorkflowDatabaseTime in
  let! entities := List_ (E := WorkflowQueue) (Index workflow_queue_zero)
    (batch_options (expired_lease_filter [StatusQueued; StatusRunning] now) limit
       "lease_expires_at") in
  recover_all (recover_task now) (take (Z.to_nat limit) entities) 0.

(** job_scheduler.go *)
Definition recoverableKubernetesJobInfo (job : JobInfo) : bool :=
  IsInstantJobType (job_Type job) || (job_Type job =? JobDeployScheduled)%string.

(** One child record of [TerminalizeCancelledWorkflowJobs]. *)
Definition terminalize_job (reason preserveCallbackKey : string) (job : JobInfo) : M unit :=
  if jobSchedulingTerminal (job_Status job) then ret tt else
  let executionKey := match job_ExecutionKey job with Some k => TrimSpace k | None => "" end in
  if (job_Type job =? JobDeployCallback)%string &&
     (str_empty preserveCallbackKey || (executionKey =? preserveCallbackKey)%string)
  then ret tt else
  let! now := wall_clock in
  let! updated := wrap_error "terminalize cancelled workflow job"
    (CompareAndSwapWithConditions (E := JobInfo) (job_ID job)
      ([("status", CEq (VStr (job_Status job)));
        ("run_generation", CEq (VInt (job_RunGeneration job)));
        ("attempt", CEq (VInt (job_Attempt job)))] ++
       (if str_empty executionKey then [] else [("execution_key", CEq (VStr executionKey))]))
      ([("status", VStr StatusCancelled); ("error", VStr (TrimSpace reason));
        ("end_time", VInt (unix now));
        ("scheduling_reason", VStr "parent workflow cancelled")] ++
       (if negb (recoverableKubernetesJobInfo job) && negb (str_empty (job_SchedulingState job)) &&
           negb (job_SchedulingState job =? JobSchedulingReleased)%string
        then [("scheduling_state", VStr JobSchedulingReleased)] else []))) in
  guard! updated else Wrapf "cancelled workflow job changed during recovery" ErrWorkflowOwnershipLost;
  ret tt.

Fixpoint for_each {A} (f : A -> M unit) (l : list A) : M unit :=
  match l with
  | [] => ret tt
  | x :: r => let! _ := f x in for_each f r
  end.

Definition TerminalizeCancelledWorkflowJobs (taskID reason preserveCallbackKey : string)
    : M unit :=
  let! entities := try (List_ (E := JobInfo)
    (Index (job_info_zero <| job_TaskID := taskID |>)) no_options) in
  match entities with
  | Err e =>
      if errors_is ErrRecordNotExist e then ret tt
      else throw (Wrapf "list cancelled workflow jobs" e)
  | Ok jobs => for_each (terminalize_job reason preserveCallbackKey) jobs
  end.

(** One row of [RecoverExpiredCancelledWorkflowTasks]; [true] when it converged. *)
Definition recover_cancelled_task (now : Z) (task : WorkflowQueue) : M bool :=
  let! _ := wrap_error "cancelled workflow task has invalid execution identity"
    (validateWorkflowExecutionIdentity (wq_TaskID task) (wq_RunGeneration task)
       (wq_RunToken task)) in
  match wq_LeaseExpiresAt task with
  | None => throw (Errorf "cancelled workflow task has incomplete cleanup lease")
  | Some expires =>
      if now <? expires then ret false else
      let conditions :=
        [("status", CEq (VStr StatusCancelled));
         ("run_generation", CEq (VInt (wq_RunGeneration task)));
         ("run_token", CEq (VStr (wq_RunToken task)));
         ("worker_id", CEq (VStr (wq_WorkerID task)));
         ("lease_expires_at", CEq (VTime expires))] in
      WithReadCommittedTransaction (
        let! owned := UpdateTaskFieldsIfConditions (wq_TaskID task) conditions [] in
        if negb owned then ret false else
        let! _ := TerminalizeCancelledWorkflowJobs (wq_TaskID task)
                    "worker cleanup lease expired" "" in
        let! cleared := UpdateTaskFieldsIfConditions (wq_TaskID task) conditions
          [("run_token", VStr ""); ("worker_id", VStr ""); ("lease_expires_at", VNull)] in
        guard! cleared
          else Wrapf "cancelled workflow task changed during recovery" ErrWorkflowOwnershipLost;
        ret true)
  end.

Definition RecoverExpiredCancelledWorkflowTasks : M (Z * option error) :=
  let! now := currentWorkflowDatabaseTime in
  let! entities := List_ (E := WorkflowQueue)
    (Index (workflow_queue_zero <| wq_Status := StatusCancelled |>))
    (batch_options (expired_lease_filter [] now) workflowLeaseRecoveryBatchSize
       "lease_expires_at") in
  recover_all (recover_cancelled_task now)
    (take (Z.to_nat workflowLeaseRecoveryBatchSize) entities) 0.

(** ** workflow.go: task queries *)

Definition WaitingTasks : M (list WorkflowQueue) :=
  let! databaseNow := currentWorkflowDatabaseTime in
  let now := unix databaseNow in
  let! queues := List_ (E := WorkflowQueue)
    (Index (workflow_queue_zero <| wq_Status := StatusWaiting |>))
    (Build_ListOptions (Build_FilterOptions [] [] [("execute_at", VInt (now + 1))])
       1 workflowDispatchQueryBatchSize [("create_time", SortOrderAscending)]) in
  ret (List.filter
         (fun wq => negb ((0 <? wq_ExecuteAt wq) && (now <? wq_ExecuteAt wq))) queues).

Definition FindActiveWorkflowTasksByAppID (appID : string) : M (list WorkflowQueue) :=
  let appID := TrimSpace appID in
  if str_empty appID then ret [] else
  List_ (E := WorkflowQueue) (Index (workflow_queue_zero <| wq_AppID := appID |>))
    (Build_ListOptions
       (Build_FilterOptions [("status", map VStr activeWorkflowTaskStatusValues)] [] [])
       0 0 [("create_time", SortOrderDescending)]).

Definition FindWorkflowTasksByAppID (appID : string) : M (list WorkflowQueue) :=
  List_ (E := WorkflowQueue) (Index (workflow_queue_zero <| wq_AppID := appID |>))
    (Build_ListOptions no_filter 0 0 [("create_time", SortOrderDescending)]).

Definition TaskByIdempotencyKey (idempotencyKey : string) : M WorkflowQueue :=
  let idempotencyKey := TrimSpace idempotencyKey in
  guard! negb (str_empty idempotencyKey) else ErrIndexInvalid;
  let! entities := List_ (E := WorkflowQueue)
    (Index (workflow_queue_zero <| wq_IdempotencyKey := Some idempotencyKey |>)) no_options in
  match entities with
  | task :: _ => ret task
  | [] => throw ErrRecordNotExist
  end.

Definition DeleteWorkflowTasksByAppID (appID : string) : M unit :=
  if str_empty appID then ret tt
  else DeleteByFilter (E := WorkflowQueue)
    (Index (workflow_queue_zero <| wq_AppID := appID |>)) no_filter.

Definition DeleteJobInfosByAppID (appID : string) : M unit :=
  if str_empty appID then ret tt
  else DeleteByFilter (E := JobInfo) (Index job_info_zero)
    (Build_FilterOptions [("app_id", [VStr appID])] [] []).

Record ApproveTaskCondition := {
  atc_ApprovalPending : bool;
  atc_Status : string;
  atc_CurrentStep : Z;
  atc_PendingApprovalStep : string;
}.

Definition ApproveTaskCAS (taskID : string) (expected : ApproveTaskCondition)
    (updates : list (string * Val)) : M bool :=
  CompareAndSwapWithConditions (E := WorkflowQueue) taskID
    [("approval_pending", CEq (VBool (atc_ApprovalPending expected)));
     ("status", CEq (VStr (atc_Status expected)));
     ("current_step", CEq (VInt (atc_CurrentStep expected)));
     ("pending_approval_step", CEq (VStr (atc_PendingApprovalStep expected)))]
    updates.

(** ** Columns as fields

    Conditions and updates by column name, as tests and updates of the record
    fields they name. *)

Section QueueColumns.
Context (q : WorkflowQueue) (cs : list (string * Cond)) (us : list (string * Val)).

Lemma conds_nil : conds_hold (E := WorkflowQueue) [] q = true.
Proof. reflexivity. Qed.
Lemma cond_status s : conds_hold (("status", CEq (VStr s)) :: cs) q =
  (wq_Status q =? s)%string && conds_hold cs q.
Proof. reflexivity. Qed.
Lemma cond_generation g : conds_hold (("run_generation", CEq (VInt g)) :: cs) q =
  (wq_RunGeneration q =? g) && conds_hold cs q.
Proof. reflexivity. Qed.
Lemma cond_token t : conds_hold (("run_token", CEq (VStr t)) :: cs) q =
  (wq_RunToken q =? t)%string && conds_hold cs q.
Proof. reflexivity. Qed.
Lemma cond_worker t : conds_hold (("worker_id", CEq (VStr t)) :: cs) q =
  (wq_WorkerID q =? t)%string && conds_hold cs q.
Proof. reflexivity. Qed.
Lemma cond_step i : conds_hold (("current_step", CEq (VInt i)) :: cs) q =
  (wq_CurrentStep q =? i) && conds_hold cs q.
Proof. reflexivity. Qed.
Lemma cond_pending b : conds_hold (("approval_pending", CEq (VBool b)) :: cs) q =
  Bool.eqb (wq_ApprovalPending q) b && conds_hold cs q.
Proof. reflexivity. Qed.
Lemma cond_pending_step s : conds_hold (("pending_approval_step", CEq (VStr s)) :: cs) q =
  (wq_PendingApprovalStep q =? s)%string && conds_hold cs q.
Proof. reflexivity. Qed.
Lemma cond_deadline t : conds_hold (("approval_deadline", CEq (VTime t)) :: cs) q =
  match wq_ApprovalDeadline q with Some t' => t' =? t | None => false end && conds_hold cs q.
Proof. unfold conds_hold. cbn. by destruct (wq_ApprovalDeadline q). Qed.
Lemma cond_lease t : conds_hold (("lease_expires_at", CEq (VTime t)) :: cs) q =
  match wq_LeaseExpiresAt q with Some t' => t' =? t | None => false end && conds_hold cs q.
Proof. unfold conds_hold. cbn. by destruct (wq_LeaseExpiresAt q). Qed.

Lemma upd_nil : apply_updates (E := WorkflowQueue) [] q = Some q.
Proof. reflexivity. Qed.
Lemma upd_status s : apply_updates (("status", VStr s) :: us) q =
  apply_updates us (q <| wq_Status := s |>).
Proof. reflexivity. Qed.
Lemma upd_generation g : apply_updates (("run_generation", VInt g) :: us) q =
  apply_updates us (q <| wq_RunGeneration := g |>).
Proof. reflexivity. Qed.
Lemma upd_token t : apply_updates (("run_token", VStr t) :: us) q =
  apply_updates us (q <| wq_RunToken := t |>).
Proof. reflexivity. Qed.
Lemma upd_worker t : apply_updates (("worker_id", VStr t) :: us) q =
  apply_updates us (q <| wq_WorkerID := t |>).
Proof. reflexivity. Qed.
Lemma upd_step i : apply_updates (("current_step", VInt i) :: us) q =
  apply_updates us (q <| wq_CurrentStep := i |>).
Proof. reflexivity. Qed.
Lemma upd_pending b : apply_updates (("approval_pending", VBool b) :: us) q =
  apply_updates us (q <| wq_ApprovalPending := b |>).
Proof. reflexivity. Qed.
Lemma upd_pending_step s : apply_updates (("pending_approval_step", VStr s) :: us) q =
  apply_updates us (q <| wq_PendingApprovalStep := s |>).
Proof. reflexivity. Qed.
Lemma upd_deadline t : apply_updates (("approval_deadline", VTime t) :: us) q =
  apply_updates us (q <| wq_ApprovalDeadline := Some t |>).
Proof. reflexivity. Qed.
Lemma upd_deadline_null : apply_updates (("approval_deadline", VNull) :: us) q =
  apply_updates us (q <| wq_ApprovalDeadline := None |>).
Proof. reflexivity. Qed.
Lemma upd_lease t : apply_updates (("lease_expires_at", VTime t) :: us) q =
  apply_updates us (q <| wq_LeaseExpiresAt := Some t |>).
Proof. reflexivity. Qed.
Lemma upd_lease_null : apply_updates (("lease_expires_at", VNull) :: us) q =
  apply_updates us (q <| wq_LeaseExpiresAt := None |>).
Proof. reflexivity. Qed.
Lemma upd_attempts n : apply_updates (("dispatch_attempts", VInt n) :: us) q =
  apply_updates us (q <| wq_DispatchAttempts := n |>).
Proof. reflexivity. Qed.
Lemma upd_reason s : apply_updates (("scheduling_reason", VStr s) :: us) q =
  apply_updates us (q <| wq_SchedulingReason := s |>).
Proof. reflexivity. Qed.
Lemma upd_time t : apply_updates (("update_time", VTime t) :: us) q =
  apply_updates us (q <| wq_UpdateTime := t |>).
Proof. reflexivity. Qed.
End QueueColumns.

Create Rewrite HintDb queue_cols.
#[export] Hint Rewrite conds_nil cond_status cond_generation cond_token cond_worker cond_step
  cond_pending cond_pending_step cond_deadline cond_lease upd_nil upd_status upd_generation
  upd_token upd_worker upd_step upd_pending upd_pending_step upd_deadline upd_deadline_null
  upd_lease upd_lease_null upd_attempts upd_reason upd_time : queue_cols.

(** Turn the conditions and updates of a queue compare-and-swap into facts about
    the fields of its row. *)
Ltac queue_simpl_in Hc Hu :=
  unfold owner_conditions in Hc; cbn [app] in Hc, Hu;
  autorewrite with queue_cols in Hc, Hu;
  injection Hu as <-; bool_to_prop.
