(* ===== verification/LeaseProtocol.v ===== *)
(** The ownership protocol of [Lease]: who may execute a task.

    [ownership_le] orders the owner columns of a row: a later generation, or the
    same generation with the token kept and at most one worker written into the
    empty worker column, or with the token cleared for good.  [lease_protocol]
    is that order on every row of the table.  Each lease operation guarantees it
    under interference that respects it, so it holds along every interleaving of
    any number of leaders and workers. *)

From S2P Require Import Prelude GoStrings Config Policy Model Store Lease.

Definition ownership_le (r r' : WorkflowQueue) : Prop :=
  wq_TaskID r' = wq_TaskID r /\
  (wq_RunGeneration r < wq_RunGeneration r' \/
   (wq_RunGeneration r = wq_RunGeneration r' /\
    (wq_RunToken r' = ""%string \/
     (wq_RunToken r' = wq_RunToken r /\
      (wq_WorkerID r' = wq_WorkerID r \/ wq_WorkerID r = ""%string))))).

(** A task handed to the dispatcher has no worker yet. *)
Definition lease_row_ok (r : WorkflowQueue) : Prop :=
  wq_Status r = StatusQueued -> wq_WorkerID r = ""%string.

Definition lease_protocol (d d' : Database) : Prop :=
  forall id r, db_queue d !! id = Some r -> lease_row_ok r ->
    exists r', db_queue d' !! id = Some r' /\ lease_row_ok r' /\ ownership_le r r'.

#[export] Instance ownership_le_preorder : PreOrder ownership_le.
Proof.
  split.
  - intros r. split; [done|]. right. split; [done|]. right. auto.
  - intros a b c [T1 H1] [T2 H2]. split; [congruence|].
    destruct H1 as [H1|[G1 H1]], H2 as [H2|[G2 H2]]; try (left; lia).
    right. split; [congruence|].
    destruct H1 as [H1|[K1 W1]], H2 as [H2|[K2 W2]]; try (left; congruence).
    right. split; [congruence|]. destruct W1 as [W1|W1], W2 as [W2|W2];
      try (by left; congruence); by right; congruence.
Qed.

#[export] Instance lease_protocol_preorder : PreOrder lease_protocol.
Proof.
  split.
  - intros d id r H I. exists r. split; [done|split; [done|reflexivity]].
  - intros a b c H1 H2 id r H I. destruct (H1 id r H I) as (r1 & A1 & I1 & L1).
    destruct (H2 id r1 A1 I1) as (r2 & A2 & I2 & L2). exists r2.
    split; [done|split; [done|by transitivity r1]].
Qed.

(** The write of a compare-and-swap on one queue row. *)
Lemma lease_protocol_insert d key row row' :
  db_queue d !! key = Some row ->
  (lease_row_ok row -> lease_row_ok row' /\ ownership_le row row') ->
  lease_protocol d (with_table (<[key := row']> (table d)) d).
Proof.
  intros L H id r Hr I. cbn. destruct (decide (key = id)) as [->|Hne].
  - rewrite lookup_insert_eq. rewrite L in Hr. injection Hr as <-.
    destruct (H I). eauto.
  - rewrite lookup_insert_ne by done. exists r. split; [done|split; [done|reflexivity]].
Qed.

(** Writes to other tables keep the queue. *)
Lemma lease_protocol_other d d' : db_queue d' = db_queue d -> lease_protocol d d'.
Proof.
  intros E id r Hr I. rewrite E. exists r. split; [done|split; [done|reflexivity]].
Qed.

(** ** Every operation guarantees the protocol *)

Create HintDb protocol.

Lemma protocol_read_only {A} (m : M A) : read_only m -> guarantees lease_protocol m.
Proof. apply guarantees_read_only. Qed.
Lemma protocol_bind {A B} (m : M A) (k : A -> M B) :
  guarantees lease_protocol m -> (forall a, guarantees lease_protocol (k a)) ->
  guarantees lease_protocol (bind m k).
Proof. apply guarantees_bind. Qed.
Lemma protocol_transaction {A} (m : M A) :
  guarantees lease_protocol m -> guarantees lease_protocol (WithReadCommittedTransaction m).
Proof. apply guarantees_transaction. Qed.

(** Compare-and-swap on a queue row: the written row must follow its row. *)
Lemma protocol_queue_cas key conditions updates :
  (forall now row row', conds_hold conditions row = true -> lease_row_ok row ->
     apply_updates (updates ++ [("update_time"%string, VTime now)]) row = Some row' ->
     lease_row_ok row' /\ ownership_le row row') ->
  guarantees lease_protocol
    (CompareAndSwapWithConditions (E := WorkflowQueue) key conditions updates).
Proof.
  intros H. apply guarantees_cas. intros now d row row' L Hc Hu.
  eapply lease_protocol_insert; [exact L|]. intros I. eapply H; eauto.
Qed.

Lemma protocol_update taskID conditions updates :
  (forall now row row', conds_hold conditions row = true -> lease_row_ok row ->
     apply_updates (updates ++ [("update_time"%string, VTime now)]) row = Some row' ->
     lease_row_ok row' /\ ownership_le row row') ->
  guarantees lease_protocol (UpdateTaskFieldsIfConditions taskID conditions updates).
Proof.
  intros H. unfold UpdateTaskFieldsIfConditions.
  destruct (negb (str_empty taskID)); [by apply protocol_queue_cas|].
  apply protocol_read_only. auto with store.
Qed.

Lemma read_only_identity taskID g t : read_only (validateWorkflowExecutionIdentity taskID g t).
Proof. unfold validateWorkflowExecutionIdentity, ownership_required. store_step. Qed.

Lemma read_only_task_clock : read_only currentWorkflowDatabaseTime.
Proof. unfold currentWorkflowDatabaseTime. store_step. Qed.

Lemma read_only_required {A} msg : read_only (@ownership_required A msg).
Proof. apply read_only_throw. Qed.

Lemma read_only_TaskByID id : read_only (TaskByID id).
Proof. apply read_only_Get. Qed.

Lemma read_only_wall_clock : read_only wall_clock.
Proof. intros w r w' [= <- <-]. reflexivity. Qed.

Lemma advances_update taskID conditions updates :
  advances (UpdateTaskFieldsIfConditions taskID conditions updates).
Proof. unfold UpdateTaskFieldsIfConditions. store_step. Qed.

#[export] Hint Resolve advances_update read_only_wall_clock read_only_identity read_only_task_clock read_only_required
  read_only_TaskByID : store.

Ltac protocol_step :=
  repeat match goal with
  | |- forall _, _ => intros ?
  | |- guarantees _ (bind _ _) => apply protocol_bind
  | |- guarantees _ (try _) => apply guarantees_try
  | |- guarantees _ (wrap_error _ _) => apply guarantees_wrap
  | |- guarantees _ (WithReadCommittedTransaction _) => apply protocol_transaction
  | |- guarantees _ (if ?c then _ else _) => destruct c
  | |- guarantees _ (match ?c with _ => _ end) => destruct c
  | |- guarantees _ (UpdateTaskFieldsIfConditions _ _ _) => apply protocol_update; intros ? ? ? ? ?
  | |- guarantees _ _ => solve [auto with protocol]
  | |- guarantees _ _ => apply protocol_read_only; solve [auto with store | store_step]
  end.

(** The columns of the written row. *)
Ltac ownership_facts :=
  match goal with
  | Hc : conds_hold _ ?row = true, Hu : apply_updates _ ?row = Some _ |- _ =>
      queue_simpl_in Hc Hu; unfold lease_row_ok, ownership_le in *; cbn in *
  end.

Ltac ownership_solve :=
  ownership_facts; split; [intros; first [discriminate | congruence | auto]|];
  split; [done|]; first [right; split; [done|]; auto; fail | left; lia | auto 6].

(** The bound keeps the 64-bit generation counter from wrapping. *)
Lemma protocol_claim_dispatch task d token :
  (forall t, task = Some t -> 0 <= wq_RunGeneration t < two64 - 1) ->
  guarantees lease_protocol (ClaimWorkflowTaskForDispatch task d token).
Proof.
  intros Hb. unfold ClaimWorkflowTaskForDispatch. destruct task as [task|]; [|protocol_step].
  specialize (Hb task eq_refl). protocol_step. ownership_facts.
  split; [done|split; [done|left]]. rewrite u64_succ; lia.
Qed.

Lemma blank_false_ne s : blank s = false -> s <> ""%string.
Proof. apply blank_nonempty. Qed.

Lemma protocol_claim_execution id g token worker d :
  guarantees lease_protocol (ClaimWorkflowTaskForExecution id g token worker d).
Proof.
  unfold ClaimWorkflowTaskForExecution. protocol_step.
  ownership_facts. split; [discriminate|split; [done|right]].
  split; [done|right]. split; [done|right]. auto.
Qed.

Lemma protocol_renew id g t w d :
  guarantees lease_protocol (RenewWorkflowTaskLease id g t w d).
Proof. unfold RenewWorkflowTaskLease. protocol_step. ownership_solve. Qed.

Lemma protocol_renew_cancelled id g t w d :
  guarantees lease_protocol (RenewCancelledWorkflowTaskLease id g t w d).
Proof. unfold RenewCancelledWorkflowTaskLease. protocol_step. ownership_solve. Qed.

Lemma protocol_expire id g t w : guarantees lease_protocol (ExpireWorkflowTaskLease id g t w).
Proof. unfold ExpireWorkflowTaskLease. protocol_step. ownership_solve. Qed.

Lemma protocol_checkpoint task name i timeout :
  guarantees lease_protocol (PersistApprovalCheckpoint task name i timeout).
Proof.
  unfold PersistApprovalCheckpoint. protocol_step.
  destruct a0; try discriminate; ownership_solve.
Qed.

Lemma protocol_expire_approval now task :
  guarantees lease_protocol (expire_approval now task).
Proof. unfold expire_approval. protocol_step. ownership_solve. Qed.

Lemma protocol_expire_approvals now tasks expired :
  guarantees lease_protocol (expire_approvals now tasks expired).
Proof.
  revert expired. induction tasks as [|t tasks IH]; intros expired; cbn [expire_approvals].
  - protocol_step.
  - apply protocol_bind; [apply guarantees_try, protocol_expire_approval|].
    intros [[]|]; try apply IH. protocol_step.
Qed.

Lemma protocol_deadlines limit : guarantees lease_protocol (ExpireApprovalDeadlines limit).
Proof. unfold ExpireApprovalDeadlines. protocol_step. apply protocol_expire_approvals. Qed.

Lemma protocol_release task reason :
  guarantees lease_protocol (ReleaseWorkflowDispatchClaim task reason).
Proof. unfold ReleaseWorkflowDispatchClaim. protocol_step. ownership_solve. Qed.

Lemma protocol_recover_task now task : guarantees lease_protocol (recover_task now task).
Proof. unfold recover_task. protocol_step. ownership_solve. Qed.

Lemma protocol_recover_all recover tasks n :
  (forall t, guarantees lease_protocol (recover t)) ->
  guarantees lease_protocol (recover_all recover tasks n).
Proof.
  intros Hr. revert n. induction tasks as [|t tasks IH]; intros n; cbn [recover_all].
  - protocol_step.
  - apply protocol_bind; [apply guarantees_try, Hr|].
    intros [[]|]; try apply IH. protocol_step.
Qed.

Lemma protocol_recover limits : guarantees lease_protocol (RecoverExpiredWorkflowTasks limits).
Proof.
  unfold RecoverExpiredWorkflowTasks. protocol_step.
  all: apply protocol_recover_all; intros; apply protocol_recover_task.
Qed.

(** Operations that write other tables only. *)
Definition keeps_queue {E K} `{Entity E K} : Prop :=
  forall t d, db_queue (with_table t d) = db_queue d.

Lemma protocol_other_cas {E K} `{Entity E K} key conditions updates :
  keeps_queue (E := E) ->
  guarantees lease_protocol (CompareAndSwapWithConditions (E := E) key conditions updates).
Proof.
  intros Hk. apply guarantees_cas. intros. apply lease_protocol_other, Hk.
Qed.

Lemma protocol_terminalize_job reason pk job :
  guarantees lease_protocol (terminalize_job reason pk job).
Proof.
  unfold terminalize_job. protocol_step. by apply protocol_other_cas.
Qed.

Lemma protocol_for_each {A} (f : A -> M unit) l :
  (forall a, guarantees lease_protocol (f a)) -> guarantees lease_protocol (for_each f l).
Proof.
  intros Hf. induction l as [|a l IH]; cbn [for_each]; [protocol_step|].
  apply protocol_bind; auto.
Qed.

Lemma protocol_terminalize id reason pk :
  guarantees lease_protocol (TerminalizeCancelledWorkflowJobs id reason pk).
Proof.
  unfold TerminalizeCancelledWorkflowJobs. protocol_step.
  apply protocol_for_each. intros. apply protocol_terminalize_job.
Qed.

Lemma protocol_recover_cancelled_task now task :
  guarantees lease_protocol (recover_cancelled_task now task).
Proof.
  unfold recover_cancelled_task. protocol_step.
  - ownership_solve.
  - apply protocol_terminalize.
  - ownership_solve.
Qed.

Lemma protocol_recover_cancelled :
  guarantees lease_protocol RecoverExpiredCancelledWorkflowTasks.
Proof.
  unfold RecoverExpiredCancelledWorkflowTasks. protocol_step.
  apply protocol_recover_all. intros. apply protocol_recover_cancelled_task.
Qed.

Lemma protocol_with_ownership {A} task (persist : M A) :
  guarantees lease_protocol persist ->
  guarantees lease_protocol (WithWorkflowTaskOwnership task persist).
Proof.
  intros Hp. unfold WithWorkflowTaskOwnership. protocol_step; ownership_solve.
Qed.

#[export] Hint Resolve protocol_claim_dispatch protocol_claim_execution protocol_renew
  protocol_renew_cancelled protocol_expire protocol_checkpoint protocol_deadlines
  protocol_release protocol_recover protocol_recover_cancelled protocol_with_ownership
  protocol_terminalize : protocol.

(** Every operation of the lease protocol, by whoever runs it. *)
Inductive lease_operation : forall A, M A -> Prop :=
  | op_claim_dispatch task d token :
      (forall t, task = Some t -> 0 <= wq_RunGeneration t < two64 - 1) ->
      lease_operation _ (ClaimWorkflowTaskForDispatch task d token)
  | op_claim_execution id g token worker d :
      lease_operation _ (ClaimWorkflowTaskForExecution id g token worker d)
  | op_renew id g token worker d :
      lease_operation _ (RenewWorkflowTaskLease id g token worker d)
  | op_renew_cancelled id g token worker d :
      lease_operation _ (RenewCancelledWorkflowTaskLease id g token worker d)
  | op_expire id g token worker : lease_operation _ (ExpireWorkflowTaskLease id g token worker)
  | op_checkpoint task name i timeout :
      lease_operation _ (PersistApprovalCheckpoint task name i timeout)
  | op_deadlines limit : lease_operation _ (ExpireApprovalDeadlines limit)
  | op_release task reason : lease_operation _ (ReleaseWorkflowDispatchClaim task reason)
  | op_recover limits : lease_operation _ (RecoverExpiredWorkflowTasks limits)
  | op_recover_cancelled : lease_operation _ RecoverExpiredCancelledWorkflowTasks
  | op_terminalize id reason key :
      lease_operation _ (TerminalizeCancelledWorkflowJobs id reason key)
  | op_owned A task (persist : M A) : guarantees lease_protocol persist ->
      lease_operation _ (WithWorkflowTaskOwnership task persist).

Lemma lease_operation_guarantees A (m : M A) :
  lease_operation A m -> guarantees lease_protocol m.
Proof. intros []; auto with protocol. Qed.

(** C2: one executor per generation.  Run any operation of the lease protocol (a
    dispatch claim, an execution claim, a renewal, an approval pause or timeout,
    a release, a recovery, an owned write) while any other sessions interleave
    any commits that respect the protocol between its statements.  Generations
    never go back; and if a task had a worker before and still has a token in
    the same generation afterwards, it is the same token and the same worker. *)
Theorem one_executor_per_generation :
  forall A (m : M A) w r w' id row,
    lease_operation A m -> env_respects lease_protocol (w_env w) -> m w = (r, w') ->
    db_queue (w_db w) !! id = Some row -> lease_row_ok row ->
    exists row', db_queue (w_db w') !! id = Some row' /\ lease_row_ok row' /\
      wq_RunGeneration row <= wq_RunGeneration row' /\
      (wq_RunGeneration row' = wq_RunGeneration row -> wq_RunToken row' <> ""%string ->
       wq_RunToken row' = wq_RunToken row /\
       (wq_WorkerID row <> ""%string -> wq_WorkerID row' = wq_WorkerID row)).
Proof.
  intros A m w r w' id row Hop He E Hr I.
  destruct (guarantees_run _ m w r w' (lease_operation_guarantees A m Hop) E He) as [G _].
  destruct (G id row Hr I) as (row' & Hr' & I' & _ & L). exists row'.
  split; [done|split; [done|]]. destruct L as [L|[L1 [L2|[L2 L3]]]].
  - split; [lia|intros ?; lia].
  - split; [lia|]. intros _ ?. done.
  - split; [lia|]. intros _ _. split; [done|]. intros Hw. destruct L3; congruence.
Qed.

(** ** Fencing of stale owners *)

(** The task moved on from generation [g]: it was dispatched again, or the token
    of that generation was cleared. *)
Definition superseded (g : Z) (r : WorkflowQueue) : Prop :=
  g < wq_RunGeneration r \/ (wq_RunGeneration r = g /\ wq_RunToken r = ""%string).

Lemma superseded_stable g r r' : superseded g r -> ownership_le r r' -> superseded g r'.
Proof.
  intros [H|[H1 H2]] [_ [L|[L1 [L2|[L2 _]]]]]; unfold superseded; try (left; lia);
    right; split; congruence || lia.
Qed.

(** The owner operations of the worker [worker] for generation [g] of task [id];
    [true] means the operation took effect. *)
Inductive owner_operation (id : string) (g : Z) (token worker : string) : M bool -> Prop :=
  | own_claim d :
      owner_operation id g token worker
        (let! p := ClaimWorkflowTaskForExecution id g token worker d in ret (snd p))
  | own_renew d : owner_operation id g token worker (RenewWorkflowTaskLease id g token worker d)
  | own_renew_cancelled d :
      owner_operation id g token worker (RenewCancelledWorkflowTaskLease id g token worker d)
  | own_expire : owner_operation id g token worker (ExpireWorkflowTaskLease id g token worker)
  | own_checkpoint task name i timeout :
      wq_TaskID task = id -> wq_RunGeneration task = g -> wq_RunToken task = token ->
      owner_operation id g token worker (PersistApprovalCheckpoint (Some task) name i timeout)
  | own_release task reason :
      wq_TaskID task = id -> wq_RunGeneration task = g -> wq_RunToken task = token ->
      owner_operation id g token worker (ReleaseWorkflowDispatchClaim (Some task) reason)
  | own_update task status updates :
      wq_TaskID task = id -> wq_RunGeneration task = g -> wq_RunToken task = token ->
      owner_operation id g token worker (UpdateTaskFieldsIfOwned (Some task) status updates)
  | own_persist A task (persist : M A) :
      wq_TaskID task = id -> wq_RunGeneration task = g -> wq_RunToken task = token ->
      jobSchedulingTerminal (wq_Status task) = false -> advances persist ->
      owner_operation id g token worker
        (let! _ := WithWorkflowTaskOwnership (Some task) persist in ret true).

(** [m] changes nothing and returns no value that counts as success. *)
Definition no_success {A} (ok : A -> bool) (m : M A) (w : World) : Prop :=
  forall r w', m w = (r, w') -> noeffect w w' /\ forall a, r = Ok a -> ok a = false.

Lemma no_success_bind {A B} (okA : A -> bool) (okB : B -> bool) (m : M A) (k : A -> M B) w :
  no_success okA m w ->
  (forall a w', okA a = false -> noeffect w w' -> no_success okB (k a) w') ->
  no_success okB (bind m k) w.
Proof.
  intros Hm Hk r w' E. unfold bind in E. destruct (m w) as [[a|e] w1] eqn:Em.
  - destruct (Hm _ _ Em) as [N Ha].
    destruct (Hk a w1 (Ha a eq_refl) N r w' E) as [N' Hr]. split; [by transitivity w1|done].
  - injection E as <- <-. destruct (Hm _ _ Em) as [N _]. split; [done|discriminate].
Qed.

Lemma no_success_read {A B} (okB : B -> bool) (m : M A) (k : A -> M B) w :
  read_only m -> (forall a w', noeffect w w' -> no_success okB (k a) w') ->
  no_success okB (bind m k) w.
Proof.
  intros Hm Hk. apply (no_success_bind (fun _ => false)); [|auto].
  intros r w' E. split; [eapply Hm, E|done].
Qed.

Lemma no_success_ret {A} (ok : A -> bool) a w : ok a = false -> no_success ok (ret a) w.
Proof. intros H r w' [= <- <-]. split; [reflexivity|]. by intros b [= <-]. Qed.

Lemma no_success_throw {A} (ok : A -> bool) e w : no_success ok (throw e) w.
Proof. intros r w' [= <- <-]. split; [reflexivity|discriminate]. Qed.

Lemma no_success_wrap {A} (ok : A -> bool) msg m w :
  no_success ok m w -> no_success ok (wrap_error msg m) w.
Proof.
  intros Hm r w' E. unfold wrap_error in E.
  destruct (m w) as [[a|e] w1] eqn:Em; injection E as <- <-; destruct (Hm _ _ Em) as [N Ha];
    (split; [done|]); [exact Ha|discriminate].
Qed.

Lemma no_success_transaction {A} (ok : A -> bool) (body : M A) w :
  advances body -> no_success ok body w -> no_success ok (WithReadCommittedTransaction body) w.
Proof.
  intros Ha Hb r w' E. pose proof (transaction_spec body w r w' Ha E) as T.
  destruct r as [a|e]; [|split; [done|discriminate]].
  destruct T as (w1 & Eb & N). destruct (Hb _ _ Eb) as [N1 Hok].
  split; [by transitivity w1|]. intros b [= <-]. by apply Hok.
Qed.

Section Fenced.
Context (id : string) (g : Z) (token : string).
Hypothesis Htoken : token <> ""%string.

(** Worlds in which the task moved on, whatever others do meanwhile. *)
Definition moved_on (w : World) : Prop :=
  env_respects lease_protocol (w_env w) /\
  exists row, db_queue (w_db w) !! id = Some row /\ lease_row_ok row /\ superseded g row.

Lemma moved_on_stable w w' : moved_on w -> noeffect w w' -> moved_on w'.
Proof.
  intros [He (row & Hr & I & S)] N.
  destruct (noeffect_respects lease_protocol w w' N He) as [P He'].
  destruct (P id row Hr I) as (row' & Hr' & I' & L).
  split; [done|]. exists row'. split; [done|split; [done|]]. by eapply superseded_stable.
Qed.

Definition fenced_conditions (conditions : list (string * Cond)) : Prop :=
  forall row, conds_hold conditions row = true ->
    wq_RunGeneration row = g /\ wq_RunToken row = token.

Lemma fenced_owner status worker :
  fenced_conditions (owner_conditions status g token worker).
Proof.
  intros row H. unfold owner_conditions in H. autorewrite with queue_cols in H.
  by bool_to_prop.
Qed.

(** Any update fenced on the generation and the token fails. *)
Lemma fenced_update conditions updates w :
  fenced_conditions conditions -> moved_on w ->
  no_success (fun b => b) (UpdateTaskFieldsIfConditions id conditions updates) w.
Proof.
  intros Hc Hm. unfold UpdateTaskFieldsIfConditions.
  destruct (negb (str_empty id)); [|apply no_success_throw]. intros r w' E.
  pose proof (cas_spec _ _ _ _ _ _ E) as C.
  destruct r as [[]|e]; [|split; [done|by intros ? [= <-]]|split; [done|discriminate]].
  destruct C as (w1 & row & row' & N & L & Hrow & _).
  destruct (moved_on_stable w w1 Hm N) as [_ (row1 & L1 & _ & S)].
  cbn in L. rewrite L1 in L. injection L as ->. destruct (Hc _ Hrow) as [Hg Ht].
  destruct S as [S|[_ S]]; [lia | congruence].
Qed.
End Fenced.

Ltac fenced_step :=
  repeat match goal with
  | |- forall _, _ => intros ?
  | |- no_success _ (if ?c then _ else _) _ => destruct c eqn:?
  | |- no_success _ (throw _) _ => apply no_success_throw
  | |- no_success _ (ownership_required _) _ => apply no_success_throw
  | |- no_success _ (bind (UpdateTaskFieldsIfConditions _ _ _) _) _ =>
      apply (no_success_bind (fun b => b)); [eapply fenced_update|]
  | |- no_success _ (bind _ _) _ => apply no_success_read; [solve [eauto with store | store_step]|]
  | |- no_success _ (UpdateTaskFieldsIfConditions _ _ _) _ => eapply fenced_update
  | |- moved_on _ _ _ => eapply moved_on_stable; [|eassumption]
  | |- _ => eassumption
  | |- fenced_conditions _ _ (owner_conditions _ _ _ _) => apply fenced_owner
  end.

Ltac fenced_list :=
  let H := fresh in intros ? H; autorewrite with queue_cols in H; by bool_to_prop.

(** C28: stale owners are fenced.  Once a task moved on from a generation (it was
    dispatched again, or the generation's token was cleared by a release, a
    recovery or an approval timeout), no operation of the old owner has any
    effect, ever: not its claim, its renewals, its expiry, its approval pause,
    its release, its owned updates whatever they write, nor a side effect it
    wraps in its ownership, which is not even committed.  This holds under any
    interleaving that respects the protocol. *)
Theorem stale_owner_is_fenced :
  forall id g token worker m w row,
    owner_operation id g token worker m -> token <> ""%string ->
    env_respects lease_protocol (w_env w) ->
    db_queue (w_db w) !! id = Some row -> lease_row_ok row -> superseded g row ->
    no_success (fun b => b) m w.
Proof.
  intros id g token worker m w row Hop Ht He Hr I S.
  assert (Hm : moved_on id g w) by (split; [done|]; eauto).
  destruct Hop as [d|d|d| |task name i timeout <- <- <-|task reason <- <- <-
                  |task status updates <- <- <-|A task persist <- <- <- Hterm Hp].
  - apply (no_success_bind snd); [|intros; by apply no_success_ret].
    unfold ClaimWorkflowTaskForExecution. fenced_step; [fenced_list|by apply no_success_ret|..].
    all: subst; discriminate.
  - unfold RenewWorkflowTaskLease. fenced_step.
  - unfold RenewCancelledWorkflowTaskLease. fenced_step.
  - unfold ExpireWorkflowTaskLease. fenced_step.
  - unfold PersistApprovalCheckpoint. fenced_step. fenced_list.
  - unfold ReleaseWorkflowDispatchClaim. fenced_step. fenced_list.
  - unfold UpdateTaskFieldsIfOwned. fenced_step.
  - apply (no_success_bind (fun _ => true)); [|discriminate].
    unfold WithWorkflowTaskOwnership. rewrite Hterm. fenced_step.
    apply no_success_transaction; [store_step|].
    apply (no_success_bind (fun b => b)); [apply no_success_wrap; fenced_step|].
    intros b w2 -> _. apply no_success_throw.
Qed.

(** ** Recovery of expired leases, run alone *)

(** The table stores each row under its key. *)
Definition queue_wf (d : Database) : Prop :=
  forall id r, db_queue d !! id = Some r -> wq_TaskID r = id /\ id <> ""%string.

Definition expired_lease (now : Z) (r : WorkflowQueue) : bool :=
  ((wq_Status r =? StatusQueued)%string || (wq_Status r =? StatusRunning)%string) &&
  negb (str_empty (wq_RunToken r)) &&
  match wq_LeaseExpiresAt r with Some e => e <? now | None => false end.

Definition recovered_row (t : Z) (r : WorkflowQueue) : WorkflowQueue :=
  r <| wq_Status := StatusWaiting |> <| wq_RunToken := ""%string |> <| wq_WorkerID := ""%string |>
    <| wq_LeaseExpiresAt := None |>
    <| wq_SchedulingReason := "execution lease expired"%string |> <| wq_UpdateTime := t |>.

(** The identity columns every claimed row has. *)
Definition valid_identity (r : WorkflowQueue) : Prop :=
  blank (wq_TaskID r) = false /\ wq_RunGeneration r <> 0 /\ blank (wq_RunToken r) = false.

Lemma expired_lease_matches now r :
  row_matches [] (expired_lease_filter [StatusQueued; StatusRunning] now) r = expired_lease now r.
Proof.
  unfold row_matches, expired_lease, expired_lease_filter, str_empty. cbn.
  destruct (wq_LeaseExpiresAt r); cbn; rewrite ?orb_false_r, ?andb_true_r, ?andb_false_r; done.
Qed.

Lemma validate_identity_ok r w :
  valid_identity r ->
  validateWorkflowExecutionIdentity (wq_TaskID r) (wq_RunGeneration r) (wq_RunToken r) w =
    (Ok tt, w).
Proof.
  intros (A & B & C). unfold validateWorkflowExecutionIdentity. rewrite A, C.
  destruct (Z.eqb_spec (wq_RunGeneration r) 0); done.
Qed.

Lemma seq_task_clock d t :
  0 < db_clock_micro d ->
  currentWorkflowDatabaseTime (seqw d t) = (Ok (db_clock_micro d * Microsecond), seqw d t).
Proof.
  intros H. unfold currentWorkflowDatabaseTime.
  erewrite bind_ok by (by apply wrap_ok, seq_clock).
  cbv beta. replace (db_clock_micro d * Microsecond =? time_zero) with false; [done|].
  symmetry. apply Z.eqb_neq. unfold time_zero, Microsecond, Second, Millisecond, Microsecond. lia.
Qed.

Lemma recover_task_seq now r d t :
  db_queue d !! wq_TaskID r = Some r -> wq_TaskID r <> ""%string ->
  expired_lease now r = true -> valid_identity r ->
  recover_task now r (seqw d t) =
    (Ok true, seqw (d <| db_queue := <[wq_TaskID r := recovered_row t r]> (db_queue d) |>) t).
Proof.
  intros L Hid X V. unfold recover_task.
  erewrite bind_ok by (apply wrap_ok, validate_identity_ok, V).
  unfold expired_lease in X. apply andb_true_iff in X as [_ X].
  destruct (wq_LeaseExpiresAt r) as [e|] eqn:El; [|done]. apply Z.ltb_lt in X.
  destruct (Z.ltb_spec now e); [lia|]. unfold UpdateTaskFieldsIfConditions.
  rewrite (proj2 (str_empty_false _) Hid). cbn [negb].
  erewrite (seq_cas_true (E := WorkflowQueue)) with (row := r); try done.
  - by apply str_empty_false.
  - autorewrite with queue_cols. by rewrite El, !String.eqb_refl, !Z.eqb_refl.
Qed.

Definition recover_map (t : Z) (l : list WorkflowQueue) (m : gmap string WorkflowQueue) :=
  fold_left (fun m r => <[wq_TaskID r := recovered_row t r]> m) l m.

Lemma recover_map_lookup t l m id :
  NoDup (map wq_TaskID l) ->
  recover_map t l m !! id =
    match List.find (fun r => String.eqb (wq_TaskID r) id) l with
    | Some r => Some (recovered_row t r)
    | None => m !! id
    end.
Proof.
  revert m. induction l as [|r l IH]; intros m ND; [done|]. cbn [map] in ND.
  apply NoDup_cons in ND as [Hr ND]. change (recover_map t (r :: l) m)
    with (recover_map t l (<[wq_TaskID r := recovered_row t r]> m)).
  rewrite IH by done. cbn [List.find]. destruct (String.eqb_spec (wq_TaskID r) id) as [<-|Hne].
  - destruct (List.find _ l) as [r'|] eqn:F; [|by rewrite lookup_insert_eq].
    apply find_some in F as [Hin E]. apply String.eqb_eq in E. exfalso. apply Hr.
    rewrite <- E. apply list_elem_of_In, in_map, Hin.
  - destruct (List.find _ l); [done|]. by rewrite lookup_insert_ne.
Qed.

Lemma recover_all_seq now l d t n :
  NoDup (map wq_TaskID l) ->
  (forall r, In r l -> db_queue d !! wq_TaskID r = Some r /\ wq_TaskID r <> ""%string /\
     expired_lease now r = true /\ valid_identity r) ->
  recover_all (recover_task now) l n (seqw d t) =
    (Ok (n + Z.of_nat (length l), None),
     seqw (d <| db_queue := recover_map t l (db_queue d) |>) t).
Proof.
  revert d n. induction l as [|r l IH]; intros d n ND Hl; cbn [recover_all].
  - cbn [length]. rewrite Z.add_0_r. by destruct d.
  - cbn [map] in ND. apply NoDup_cons in ND as [Hr ND].
    destruct (Hl r (or_introl eq_refl)) as (L & Hid & X & V).
    erewrite bind_ok by (apply try_run, recover_task_seq; eauto). cbv iota.
    rewrite IH; [|done|].
    + cbn [length]. do 2 f_equal. f_equal. lia.
    + intros r' Hin. destruct (Hl r' (or_intror Hin)) as (L' & Hid' & X' & V').
      split; [|done]. cbn. rewrite lookup_insert_ne; [done|].
      intros E. apply Hr. rewrite E. by apply list_elem_of_In, in_map.
Qed.

Lemma rows_nodup d : queue_wf d -> NoDup (map wq_TaskID (rows (E := WorkflowQueue) d)).
Proof.
  intros W. unfold rows. cbn [table Entity_WorkflowQueue].
  replace (map wq_TaskID (map snd (map_to_list (db_queue d))))
    with (map fst (map_to_list (db_queue d))).
  - apply NoDup_fst_map_to_list.
  - rewrite map_map. apply map_ext_in. intros [k r] Hin.
    apply list_elem_of_In, elem_of_map_to_list in Hin. cbn. by destruct (W k r Hin) as [<- _].
Qed.

Lemma NoDup_map_filter {A B} (f : A -> B) (p : A -> bool) l :
  NoDup (map f l) -> NoDup (map f (List.filter p l)).
Proof.
  induction l as [|a l IH]; [done|]. cbn. intros H. apply NoDup_cons in H as [Ha H].
  destruct (p a); cbn; [|auto]. apply NoDup_cons. split; [|auto].
  rewrite list_elem_of_In, in_map_iff in *. intros (b & E & Hin). apply Ha.
  exists b. apply filter_In in Hin. tauto.
Qed.

(** The lease reaper, run alone, does exactly its job.  When the expired
    leases fit the batch limit, it recovers all of them and nothing else: every
    queued or running task whose token is set and whose lease ended before the
    database clock goes back to waiting with its owner columns cleared and its
    generation kept, every other row and table is untouched (in particular a
    lease that has not ended yet), and the count returned is the number of
    expired leases. *)
Theorem reaper_recovers_exactly_expired :
  forall d t limit,
    let now := db_clock_micro d * Microsecond in
    let expired := List.filter (expired_lease now) (rows (E := WorkflowQueue) d) in
    queue_wf d -> 0 < db_clock_micro d -> 1 <= limit <= 10000 ->
    (forall r, In r expired -> valid_identity r) ->
    Z.of_nat (length expired) <= limit ->
    RecoverExpiredWorkflowTasks [limit] (seqw d t) =
      (Ok (Z.of_nat (length expired), None),
       seqw (d <| db_queue := (fun r => if expired_lease now r then recovered_row t r else r)
                                <$> db_queue d |>) t).
Proof.
  intros d t limit now expired W Hc Hlim Hv Hn. unfold RecoverExpiredWorkflowTasks.
  cbn [length Nat.leb negb]. cbv iota zeta beta.
  destruct (Z.ltb_spec limit 1); [lia|]. destruct (Z.ltb_spec 10000 limit); [lia|].
  cbn [orb negb]. cbv iota.
  erewrite bind_ok by (by apply seq_task_clock). fold now.
  erewrite bind_ok by (by apply seq_List).
  set (op := batch_options _ limit _).
  assert (P : select (Index workflow_queue_zero) op d ≡ₚ expired).
  { assert (E : List.filter (row_matches (Index workflow_queue_zero) (Filter op)) (rows d)
                = expired) by (apply filter_ext; intros; apply expired_lease_matches).
    rewrite <- E. apply select_first_page; [done|]. rewrite E. exact Hn. }
  assert (ND : NoDup (map wq_TaskID (select (Index workflow_queue_zero) op d))).
  { rewrite P. apply NoDup_map_filter, rows_nodup, W. }
  rewrite firstn_all2 by (rewrite (Permutation_length P); lia).
  rewrite recover_all_seq; [|done|].
  - rewrite (Permutation_length P). do 2 f_equal. f_equal.
    assert (HM : recover_map t (select (Index workflow_queue_zero) op d) (db_queue d) =
      (fun r => if expired_lease now r then recovered_row t r else r) <$> db_queue d);
      [|by rewrite HM].
    apply map_eq. intros id.
    rewrite recover_map_lookup, lookup_fmap by done.
    destruct (List.find _ _) as [r|] eqn:F.
    + apply find_some in F as [Hin E]. apply String.eqb_eq in E.
      rewrite P in Hin. apply filter_In in Hin as [Hin X]. apply elem_rows in Hin as [k L].
      cbn in L. destruct (W _ _ L) as [<- _]. rewrite E in L. rewrite L. cbn. by rewrite X.
    + destruct (db_queue d !! id) as [r|] eqn:L; [|done]. cbn.
      destruct (expired_lease now r) eqn:X; [|done]. exfalso.
      destruct (W _ _ L) as [E _].
      assert (Hin : In r (select (Index workflow_queue_zero) op d)).
      { rewrite P. apply filter_In. split; [|done]. apply elem_rows. eauto. }
      apply (find_none _ _ F) in Hin. rewrite E, String.eqb_refl in Hin. done.
  - intros r Hin. rewrite P in Hin. pose proof (Hv r Hin) as V.
    apply filter_In in Hin as [Hin X]. apply elem_rows in Hin as [k L]. cbn in L.
    destruct (W _ _ L) as [E Hk]. subst k. done.
Qed.

(** ** Evaluation *)

Definition sample_task : WorkflowQueue :=
  workflow_queue_zero <| wq_TaskID := "task-1" |> <| wq_Status := StatusRunning |>
    <| wq_RunGeneration := 3 |> <| wq_RunToken := "token-3" |> <| wq_WorkerID := "worker-a" |>
    <| wq_LeaseExpiresAt := Some (1000 * Second) |>.

Definition sample_db (task : WorkflowQueue) : Database :=
  (db_empty 1500000000) <| db_queue := {[wq_TaskID task := task]} |>.

Lemma one_executor_per_generation_witness :
  let m := RenewWorkflowTaskLease "task-1" 3 "token-3" "worker-a" (30 * Second) in
  let w := seqw (sample_db sample_task) 0 in
  exists row', db_queue (w_db (snd (m w))) !! "task-1"%string = Some row' /\ lease_row_ok row' /\
    3 <= wq_RunGeneration row' /\
    (wq_RunGeneration row' = 3 -> wq_RunToken row' <> ""%string ->
     wq_RunToken row' = "token-3"%string /\
     ("worker-a" <> "" -> wq_WorkerID row' = "worker-a")%string).
Proof.
  intros m w.
  apply (one_executor_per_generation bool m w (fst (m w)) (snd (m w)) "task-1" sample_task).
  - constructor.
  - constructor.
  - by destruct (m w).
  - reflexivity.
  - intros H. discriminate H.
Defined.

Lemma stale_owner_is_fenced_witness :
  no_success (fun b => b)
    (RenewWorkflowTaskLease "task-1" 2 "token-2" "worker-b" (30 * Second))
    (seqw (sample_db sample_task) 0).
Proof.
  apply (stale_owner_is_fenced "task-1" 2 "token-2" "worker-b" _ _ sample_task).
  - constructor.
  - discriminate.
  - constructor.
  - reflexivity.
  - intros H. discriminate H.
  - left. reflexivity.
Defined.

Lemma reaper_recovers_exactly_expired_witness :
  let d := sample_db sample_task in
  RecoverExpiredWorkflowTasks [100] (seqw d 0) =
    (Ok (Z.of_nat (length (List.filter (expired_lease (1500000000 * Microsecond)) (rows d))), None),
     seqw (d <| db_queue := (fun r => if expired_lease (1500000000 * Microsecond) r
                                      then recovered_row 0 r else r) <$> db_queue d |>) 0) /\
  List.filter (expired_lease (1500000000 * Microsecond)) (rows d) = [sample_task].
Proof.
  assert (F : List.filter (expired_lease (1500000000 * Microsecond))
                (rows (sample_db sample_task)) = [sample_task]) by (vm_compute; reflexivity).
  split; [|exact F].
  apply (reaper_recovers_exactly_expired (sample_db sample_task) 0 100).
  - intros id r H.
    change (({["task-1"%string := sample_task]} : gmap string WorkflowQueue) !! id = Some r) in H.
    apply lookup_singleton_Some in H as [<- <-]. split; [reflexivity|discriminate].
  - reflexivity.
  - lia.
  - change (db_clock_micro (sample_db sample_task)) with 1500000000. rewrite F.
    intros r [<-|[]]. repeat split; discriminate.
  - change (db_clock_micro (sample_db sample_task)) with 1500000000. rewrite F. discriminate.
Defined.
