(* ===== verification/Scheduler.v ===== *)
(** Global job admission,
    [pkg/apiserver/domain/repository/job_scheduler.go] and
    [job_scheduler_recovery.go].

    A job row is enqueued by the owner of its workflow task (or, detached, by the
    dispatcher of delayed jobs), admitted by [AdmitQueuedJobs] under the lock of
    the policy row, polled with [IsJobAdmitted] and released.  Optional variadic
    arguments are lists.  Where the code mutates a struct it was given ([*job =
    *current]), the operation returns the new struct; where a closure updates
    captured variables, they are passed along. *)

From S2P Require Import Prelude GoStrings Config Json Quantity Policy Model Store Lease Budget.

(** ** Policy *)

Definition LoadJobSchedulerPolicy : M JobSchedulerPolicy :=
  let! setting := wrap_error "load job scheduler policy"
    (Get (E := SystemSetting) SystemSettingTypeWorkflowScheduler) in
  lift_result (ParseJobSchedulerPolicy (ss_Value setting)).

Definition EnsureJobSchedulerPolicy : M unit :=
  let! loaded := try LoadJobSchedulerPolicy in
  match loaded with
  | Ok _ => ret tt
  | Err e =>
      if negb (errors_is ErrRecordNotExist e) then throw e else
      let! added := try (Add (E := SystemSetting)
        (Build_SystemSetting SystemSettingTypeWorkflowScheduler
           (RawValue (policy_json DefaultJobSchedulerPolicy)) time_zero time_zero)) in
      match added with
      | Ok _ => ret tt
      | Err e =>
          if errors_is ErrRecordExist e
          then let! _ := LoadJobSchedulerPolicy in ret tt
          else throw e
      end
  end.

(** The policy document of a database, and the policy it stands for. *)
Definition scheduler_policy (d : Database) : option RawMessage :=
  ss_Value <$> db_settings d !! SystemSettingTypeWorkflowScheduler.

Definition policy_in_force (p : JobSchedulerPolicy) (d : Database) : Prop :=
  exists raw, scheduler_policy d = Some raw /\ ParseJobSchedulerPolicy raw = Ok p.

(** ** Guards *)

Definition validateJobSchedulingOwner (owner : option WorkflowQueue) : M unit :=
  match owner with
  | None => ret tt
  | Some owner =>
      guard! negb (str_empty (wq_TaskID owner)) else ErrPrimaryEmpty;
      if jobSchedulingTerminal (wq_Status owner) then ret tt else
      let! _ := validateWorkflowExecutionIdentity (wq_TaskID owner) (wq_RunGeneration owner)
                  (wq_RunToken owner) in
      guard! negb (str_empty (wq_WorkerID owner)) else ErrWorkflowOwnershipRequired;
      ret tt
  end.

Definition withJobSchedulingOwner {A} (owner : option WorkflowQueue) (fn : M A) : M A :=
  match owner with
  | Some _ => WithWorkflowTaskOwnership owner fn
  | None => WithReadCommittedTransaction fn
  end.

Definition jobAdmissionExpired (job : JobInfo) (now : Z) : bool :=
  match job_SchedulingExpiresAt job with Some t => negb (now <? t) | None => false end.

Definition cancelledKubernetesCleanupPending (job : JobInfo) : bool :=
  recoverableKubernetesJobInfo job && (job_Status job =? StatusCancelled)%string &&
  (job_SchedulingReason job =? "parent workflow cancelled")%string.

Definition validateSchedulableJob (job : JobInfo) (owner : option WorkflowQueue) (now : Z)
    (deadline : option Z) : result unit :=
  if str_empty (job_WorkspaceID job) then Err (Errorf "job scheduling requires a workspace")
  else if jobSchedulingTerminal (job_Status job) then Err ErrJobAdmissionReleased
  else if match deadline with Some t => negb (now <? t) | None => false end
  then Err ErrJobAdmissionExpired
  else match owner with
  | None =>
      if negb (job_DelayState job =? JobDelayStatePending)%string ||
         str_empty (job_DelayPayload job) || (unix now <? job_DelayExecuteAt job) ||
         negb (job_Status job =? StatusDistributed)%string || negb (bool_decide (is_Some deadline))
      then Err (Errorf "detached job admission requires a due pending checkpoint and deadline")
      else Ok tt
  | Some owner =>
      if negb (str_empty (wq_Status owner)) && negb (wq_Status owner =? StatusRunning)%string &&
         (negb (job_Type job =? JobDeployCallback)%string || negb (bool_decide (is_Some deadline)))
      then Err (Errorf "non-running workflow admission requires a bounded callback")
      else Ok tt
  end.

Definition matchJobSchedulingOwner (job : JobInfo) (owner : option WorkflowQueue) : result unit :=
  match owner with
  | None =>
      if negb (str_empty (job_SchedulingOwnerStatus job)) || str_empty (job_DelayState job) ||
         negb (job_SchedulingGeneration job =? job_RunGeneration job)
      then Err ErrWorkflowOwnershipLost else Ok tt
  | Some owner =>
      if negb (job_TaskID job =? wq_TaskID owner)%string ||
         negb (job_SchedulingGeneration job =? wq_RunGeneration owner) ||
         negb (job_SchedulingOwnerStatus job =? owner_status owner)%string
      then Err ErrWorkflowOwnershipLost else Ok tt
  end.

Definition matchJobSchedulingDeadline (job : JobInfo) (owner : option WorkflowQueue)
    (expected : list (option Z)) : result unit :=
  let unbounded := bool_decide (is_Some owner) && bool_decide (job_SchedulingExpiresAt job = None) in
  match expected with
  | [] => if unbounded then Ok tt else Err ErrWorkflowOwnershipRequired
  | [None] => if unbounded then Ok tt else Err ErrWorkflowOwnershipLost
  | [Some t] =>
      match job_SchedulingExpiresAt job with
      | Some t' => if t' =? t then Ok tt else Err ErrWorkflowOwnershipLost
      | None => Err ErrWorkflowOwnershipLost
      end
  | _ => Err (Errorf "job admission requires one expected deadline")
  end.

(** A typed nil pointer as a condition is never satisfied. *)
Definition jobSchedulingConditions (job : JobInfo) : list (string * Cond) :=
  [("execution_key", CEq (match job_ExecutionKey job with Some k => VStr k | None => VNull end));
   ("run_generation", CEq (VInt (job_RunGeneration job)));
   ("scheduling_generation", CEq (VInt (job_SchedulingGeneration job)));
   ("scheduling_expires_at",
      match job_SchedulingExpiresAt job with Some t => CEq (VTime t) | None => CIsNull end)]%string ++
  (if str_empty (job_SchedulingState job) then []
   else [("scheduling_state"%string, CEq (VStr (job_SchedulingState job)))]) ++
  (if str_empty (job_SchedulingOwnerStatus job) then []
   else [("scheduling_owner_status"%string, CEq (VStr (job_SchedulingOwnerStatus job)))]).

Definition updateJobScheduling (job : JobInfo) (conditions : list (string * Cond))
    (updates : list (string * Val)) : M unit :=
  let! updated := wrap_error "update job scheduling"
    (CompareAndSwapWithConditions (E := JobInfo) (job_ID job) conditions updates) in
  guard! updated else ErrWorkflowOwnershipLost;
  ret tt.

Definition scheduledJobByExecutionKey (owner : option WorkflowQueue) (key : string) : M JobInfo :=
  guard! negb (str_empty key) else ErrPrimaryEmpty;
  let query :=
    match owner with
    | Some o => if str_empty (wq_AppID o)
                then job_info_zero <| job_TaskID := wq_TaskID o |>
                                   <| job_WorkspaceID := wq_WorkspaceID o |>
                else job_info_zero
    | None => job_info_zero
    end in
  let! entities := wrap_error "load scheduled job"
    (List_ (E := JobInfo) (Index query)
       (Build_ListOptions
          (Build_FilterOptions [("execution_key"%string, [VStr key])] [] []) 1 2 [])) in
  match entities with
  | [job] => ret job
  | _ => throw ErrRecordNotExist
  end.

Section Scheduler.
Context {Q : Type} `{QuantityOps Q} `{KubernetesJson Q}.

(** ** job_scheduler_recovery.go *)

Record jobAdmissionRecoveryIdentity := {
  ri_UID : string;
  ri_Namespace : string;
  ri_Name : string;
  ri_TaskID : string;
  ri_ExecutionKey : string;
  ri_RunGeneration : Z;
  ri_Deadline : Z;
  ri_Attempt : Z;
  ri_Kind : string;
}.

#[export] Instance jobAdmissionRecoveryIdentity_eq_dec : EqDecision jobAdmissionRecoveryIdentity.
Proof. solve_decision. Defined.

(** The anonymous checkpoint struct; its job is the metadata of the nested one. *)
Record admission_checkpoint := {
  cp_Kind : string;
  cp_Version : Z;
  cp_Attempt : Z;
  cp_CurrentUID : string;
  cp_Deadline : Z;
  cp_Job : option ObjectMeta;
}.

Definition dec_checkpoint_job (j : Json) : option ObjectMeta :=
  decode! l <- dec_struct j;
  decode_object_meta (json_field "metadata" l).

Definition dec_checkpoint (text : string) : option admission_checkpoint :=
  decode! j <- json_parse text;
  decode! l <- dec_struct j;
  decode! kind <- dec_string (json_field "kind" l);
  decode! version <- dec_int64 (json_field "version" l);
  decode! attempt <- dec_uint64 (json_field "attempt" l);
  decode! uid <- dec_string (json_field "currentUID" l);
  decode! deadline <- dec_int64 (json_field "deadline" l);
  decode! job <- dec_ptr dec_checkpoint_job (json_field "job" l);
  Some (Build_admission_checkpoint kind version attempt uid deadline job).

(** [json.Unmarshal] of a retry policy. *)
Definition dec_retry_policy (text : string) : option (JobRetryPolicy Q) :=
  decode! j <- json_parse text;
  decode! l <- dec_struct j;
  decode! onOOM <- dec_string (json_field "onOOM" l);
  decode! maxRetries <- dec_uint64 (json_field "maxRetries" l);
  decode! backoff <- dec_int64 (json_field "backoffSeconds" l);
  decode! memory <- dec_int64 (json_field "memoryGrowthFactor" l);
  decode! cpu <- dec_int64 (json_field "cpuGrowthFactor" l);
  decode! resources <- dec_map q_unmarshal (json_field "maxResources" l);
  Some (Build_JobRetryPolicy onOOM maxRetries backoff memory cpu (default ∅ resources)).

Definition jobAdmissionCheckpointIdentity (job : JobInfo) (now : Z)
    : option jobAdmissionRecoveryIdentity :=
  match job_ExecutionKey job with
  | None => None
  | Some key =>
      if (negb (job_Type job =? JobCommand)%string && negb (job_Type job =? JobEval)%string) ||
         str_empty key || (job_RunGeneration job =? 0)
      then None else
      decode! cp <- dec_checkpoint (job_InternalInfo job);
      match cp_Job cp with
      | None => None
      | Some metadata =>
          let annotation := str_get (om_Annotations metadata) in
          if negb (cp_Kind cp =? "instant_job_retry")%string || negb (cp_Version cp =? 1) ||
             str_empty (cp_CurrentUID cp) || negb (cp_Attempt cp =? 1) ||
             negb (cp_Attempt cp =? job_Attempt job) || negb (now <? cp_Deadline cp) ||
             str_empty (om_Name metadata) || str_empty (om_Namespace metadata) ||
             negb (annotation AnnotationJobTaskID =? job_TaskID job)%string ||
             negb (annotation AnnotationJobExecutionKey =? key)%string ||
             negb (annotation AnnotationJobRunGeneration =? FormatUint (job_RunGeneration job) 10)%string ||
             negb (annotation AnnotationJobAttempt =? FormatUint (cp_Attempt cp) 10)%string
          then None else
          decode! policy <- dec_retry_policy (annotation AnnotationJobRetryPolicy);
          if negb (OnOOM policy =? "stop")%string ||
             negb (is_ok (ValidateJobRetryPolicy (Some policy)))
          then None
          else Some (Build_jobAdmissionRecoveryIdentity (cp_CurrentUID cp)
                       (om_Namespace metadata) (om_Name metadata) (job_TaskID job) key
                       (job_RunGeneration job) (cp_Deadline cp) (cp_Attempt cp) (job_Type job))
      end
  end.

Definition recoverableJobAdmission (job : JobInfo) (now : Z)
    : option jobAdmissionRecoveryIdentity :=
  if bool_decide (job_SchedulingQueuedAt job = None) || (job_SchedulingGeneration job =? 0) ||
     jobSchedulingTerminal (job_Status job) || jobAdmissionExpired job now
  then None
  else if negb (job_SchedulingState job =? JobSchedulingAdmitted)%string then None
  else jobAdmissionCheckpointIdentity job now.

(** ** Enqueue *)

Definition loadQueuedJobCheckpoint (owner : option WorkflowQueue) (job : JobInfo) (key : string)
    : M JobInfo :=
  let! found := try (scheduledJobByExecutionKey owner key) in
  let! current :=
    match found with
    | Ok current => ret current
    | Err e =>
        if errors_is ErrRecordNotExist e && bool_decide (is_Some owner)
        then wrap_error "create queued job" (Add (E := JobInfo) job)
        else throw (Wrapf "load queued job" e)
    end in
  let! current :=
    match owner with
    | Some _ => ret current
    | None =>
        let! locked := wrap_error "lock delayed job checkpoint"
          (CompareAndSwap (E := JobInfo) (job_ID current) "execution_key" (CEq (VStr key)) []) in
        guard! locked else ErrWorkflowOwnershipLost;
        Get (E := JobInfo) (job_ID current)
    end in
  guard! bool_decide (job_ExecutionKey current = Some key) &&
         (job_RunGeneration current =? job_RunGeneration job) else ErrWorkflowOwnershipLost;
  ret current.

(** The recovery check of [EnqueueJobForScheduling]. *)
Definition recovered_admission (owner : option WorkflowQueue) (current job : JobInfo)
    (status : string) (now : Z) (confirmedUID : string) : result bool :=
  match owner, jobAdmissionCheckpointIdentity current now, jobAdmissionCheckpointIdentity job now with
  | Some _, Some persisted, Some supplied =>
      if negb (status =? StatusRunning)%string || negb (confirmedUID =? ri_UID persisted)%string ||
         negb (bool_decide (persisted = supplied))
      then Err (Wrapf "recovered Job admission checkpoint changed" ErrWorkflowOwnershipLost)
      else Ok (bool_decide (is_Some (recoverableJobAdmission current now)))
  | _, _, _ => Err (Wrapf "recovered Job admission checkpoint changed" ErrWorkflowOwnershipLost)
  end.

Definition time_val (t : option Z) : Val := match t with Some t => VTime t | None => VNull end.

(** The columns an enqueue writes. *)
Definition enqueue_updates (recoverAdmission : bool) (class : string) (priority : Z)
    (queuedAt : option Z) (generation : Z) (status : string) (deadline : option Z)
    (current job : JobInfo) : list (string * Val) :=
  ([("scheduling_state",
      VStr (if recoverAdmission then JobSchedulingAdmitted else JobSchedulingQueued));
    ("scheduling_class", VStr class); ("scheduling_priority", VInt priority);
    ("scheduling_queued_at", time_val queuedAt);
    ("scheduling_generation", VInt generation); ("scheduling_owner_status", VStr status);
    ("scheduling_expires_at", time_val deadline);
    ("scheduling_reason", VStr (if recoverAdmission then "reattached existing Job execution"
                                else "waiting for global job admission"))]%string ++
   (if str_empty (job_SchedulingResources current) &&
       negb (str_empty (job_SchedulingResources job))
    then [("scheduling_resources"%string, VStr (job_SchedulingResources job))] else []))%list.

(** The body of the transaction of [EnqueueJobForScheduling]. *)
Definition enqueue_job (owner : option WorkflowQueue) (job : JobInfo) (key : string)
    (deadline : option Z) (confirmedUID : list string) : M JobInfo :=
  let! current := loadQueuedJobCheckpoint owner job key in
  let! now := currentWorkflowDatabaseTime in
  let '(generation, status) :=
    match owner with
    | None => (job_RunGeneration current, ""%string)
    | Some o => (wq_RunGeneration o, owner_status o)
    end in
  guard! match owner with
         | Some o => (job_TaskID current =? wq_TaskID o)%string
         | None => true
         end else ErrWorkflowOwnershipLost;
  let! _ := lift_result (validateSchedulableJob current owner now deadline) in
  let! recoverAdmission :=
    match confirmedUID with
    | [uid] => if str_empty uid then ret false
               else lift_result (recovered_admission owner current job status now uid)
    | _ => ret false
    end in
  let class := if str_empty (job_SchedulingClass job) then "normal"%string
               else job_SchedulingClass job in
  let! priority := lift_result (ResolveJobSchedulingPriority class) in
  let same := (job_SchedulingGeneration current =? generation) &&
              (job_SchedulingOwnerStatus current =? status)%string &&
              bool_decide (is_Some (job_SchedulingQueuedAt current)) in
  let live := negb (jobAdmissionExpired current now) in
  if same && bool_decide (is_Some owner) && negb (status =? StatusRunning)%string &&
     (job_Type current =? JobDeployCallback)%string &&
     ((job_SchedulingState current =? JobSchedulingQueued)%string ||
      (job_SchedulingState current =? JobSchedulingAdmitted)%string) && live
  then throw (Wrapf "callback already has an active admission" ErrWorkflowOwnershipLost)
  else if same && (job_SchedulingState current =? JobSchedulingAdmitted)%string && live
  then ret current
  else
    let queuedAt := if same then job_SchedulingQueuedAt current else Some now in
    let queuedAt := if recoverAdmission : bool then job_SchedulingQueuedAt current else queuedAt in
    let updates := enqueue_updates recoverAdmission class priority queuedAt generation status
                     deadline current job in
    let! _ := updateJobScheduling current (jobSchedulingConditions current) updates in
    Get (E := JobInfo) (job_ID current).

Definition EnqueueJobForScheduling (owner : option WorkflowQueue) (job : option JobInfo)
    (deadline : option Z) (confirmedUID : list string) : M JobInfo :=
  guard! (length confirmedUID <=? 1)%nat
    else Errorf "job admission recovery requires one confirmed UID";
  match job with
  | None => throw ErrPrimaryEmpty
  | Some job =>
      match job_ExecutionKey job with
      | None => throw ErrPrimaryEmpty
      | Some key =>
          guard! negb (str_empty key) else ErrPrimaryEmpty;
          let! _ := validateJobSchedulingOwner owner in
          withJobSchedulingOwner owner (enqueue_job owner job key deadline confirmedUID)
      end
  end.

(** ** Validity of an admission *)

(** Cached parent workflows, [None] for the nil map. *)
Abbreviation Parents := (option (gmap string (option WorkflowQueue))) (only parsing).

Definition load_parent (taskID : string) (parents : Parents)
    : M (option WorkflowQueue * Parents) :=
  match (match parents with Some m => m !! taskID | None => None end) with
  | Some parent => ret (parent, parents)
  | None =>
      let! loaded := try (Get (E := WorkflowQueue) taskID) in
      let! parent :=
        match loaded with
        | Ok parent => ret (Some parent)
        | Err e => if errors_is ErrRecordNotExist e then ret None
                   else throw (Wrapf "load scheduling workflow" e)
        end in
      ret (parent, match parents with Some m => Some (<[taskID := parent]> m) | None => None end)
  end.

Definition lease_live (parent : WorkflowQueue) (now : Z) : bool :=
  match wq_LeaseExpiresAt parent with Some t => now <? t | None => false end.

(** The verdict of [jobSchedulingCurrent] on a job of an existing parent. *)
Definition current_under (parent : WorkflowQueue) (job : JobInfo) (now : Z)
    (retainRunningAdmission : bool) : bool :=
  let admitted := (job_SchedulingState job =? JobSchedulingAdmitted)%string in
  if retainRunningAdmission && admitted &&
     one_of [StatusWaiting; StatusQueued; StatusRunning] (wq_Status parent) &&
     bool_decide (is_Some (recoverableJobAdmission job now))
  then true
  else if negb (wq_RunGeneration parent =? job_SchedulingGeneration job) then false
  else if (wq_Status parent =? StatusCancelled)%string &&
          (job_SchedulingOwnerStatus job =? StatusRunning)%string && admitted &&
          recoverableKubernetesJobInfo job
  then true
  else if jobAdmissionExpired job now then false
  else if negb (wq_Status parent =? job_SchedulingOwnerStatus job)%string then
    (wq_Status parent =? StatusCancelled)%string &&
    (job_SchedulingOwnerStatus job =? StatusRunning)%string && admitted &&
    negb (str_empty (wq_RunToken parent)) && negb (str_empty (wq_WorkerID parent)) &&
    lease_live parent now
  else if negb (jobSchedulingTerminal (wq_Status parent)) &&
          (str_empty (wq_RunToken parent) || str_empty (wq_WorkerID parent))
  then false
  else if (wq_Status parent =? StatusRunning)%string then
    if retainRunningAdmission && admitted then true else lease_live parent now
  else (job_Type job =? JobDeployCallback)%string &&
       bool_decide (is_Some (job_SchedulingExpiresAt job)).

Definition jobSchedulingCurrent (job : JobInfo) (now : Z) (parents : Parents)
    (retainRunningAdmission : bool) : M (bool * Parents) :=
  if str_empty (job_WorkspaceID job) || bool_decide (job_SchedulingQueuedAt job = None)
  then ret (false, parents)
  else if cancelledKubernetesCleanupPending job
  then ret ((job_SchedulingState job =? JobSchedulingAdmitted)%string, parents)
  else if jobSchedulingTerminal (job_Status job) then ret (false, parents)
  else if str_empty (job_SchedulingOwnerStatus job) then
    ret (negb (jobAdmissionExpired job now) &&
         (job_DelayState job =? JobDelayStatePending)%string &&
         negb (str_empty (job_DelayPayload job)) && (job_Status job =? StatusDistributed)%string &&
         (job_DelayExecuteAt job <=? unix now) &&
         (job_SchedulingGeneration job =? job_RunGeneration job) &&
         bool_decide (is_Some (job_SchedulingExpiresAt job)), parents)
  else
    let! loaded := load_parent (job_TaskID job) parents in
    match loaded with
    | (None, parents) => ret (false, parents)
    | (Some parent, parents) =>
        ret (current_under parent job now retainRunningAdmission, parents)
    end.

(** ** Polling and release *)

Definition is_job_admitted (owner : option WorkflowQueue) (executionKey : string)
    (expectedDeadline : list (option Z)) : M bool :=
  let! job := scheduledJobByExecutionKey owner executionKey in
  let! _ := lift_result (matchJobSchedulingOwner job owner) in
  let! _ := lift_result (matchJobSchedulingDeadline job owner expectedDeadline) in
  let! now := currentWorkflowDatabaseTime in
  guard! negb (jobAdmissionExpired job now) else ErrJobAdmissionExpired;
  let! valid := jobSchedulingCurrent job now None false in
  guard! fst valid else ErrWorkflowOwnershipLost;
  if (job_SchedulingState job =? JobSchedulingQueued)%string then ret false
  else if (job_SchedulingState job =? JobSchedulingAdmitted)%string then ret true
  else throw ErrJobAdmissionReleased.

Definition IsJobAdmitted (owner : option WorkflowQueue) (executionKey : string)
    (expectedDeadline : list (option Z)) : M bool :=
  let! _ := validateJobSchedulingOwner owner in
  withJobSchedulingOwner owner (is_job_admitted owner executionKey expectedDeadline).

Definition released (reason : string) : list (string * Val) :=
  [("scheduling_state", VStr JobSchedulingReleased); ("scheduling_reason", VStr reason)]%string.

(** The body of the transaction of [ReleaseJobAdmission]. *)
Definition release_job (owner : option WorkflowQueue) (executionKey reason : string)
    (expectedDeadline : list (option Z)) : M unit :=
  let! job := scheduledJobByExecutionKey owner executionKey in
  let! _ := lift_result (matchJobSchedulingOwner job owner) in
  let! _ := lift_result (matchJobSchedulingDeadline job owner expectedDeadline) in
  if (job_SchedulingState job =? JobSchedulingReleased)%string then ret tt else
  let! keep :=
    (if (job_SchedulingState job =? JobSchedulingAdmitted)%string &&
        negb (str_empty (job_InternalInfo job))
     then let! now := currentWorkflowDatabaseTime in
          ret (bool_decide (is_Some (recoverableJobAdmission job now)))
     else ret false) in
  if (keep : bool) then ret tt else
  let! outcome := try (updateJobScheduling job (jobSchedulingConditions job) (released reason)) in
  match outcome with
  | Ok _ => ret tt
  | Err e =>
      if negb (errors_is ErrWorkflowOwnershipLost e) then throw e else
      let! latest := scheduledJobByExecutionKey owner executionKey in
      if is_ok (matchJobSchedulingOwner latest owner) &&
         is_ok (matchJobSchedulingDeadline latest owner expectedDeadline) &&
         (job_SchedulingState latest =? JobSchedulingReleased)%string
      then ret tt else throw e
  end.

Definition ReleaseJobAdmission (owner : option WorkflowQueue) (executionKey reason : string)
    (expectedDeadline : list (option Z)) : M unit :=
  let! _ := validateJobSchedulingOwner owner in
  let! releaseOwner :=
    match owner with
    | Some o =>
        if str_empty (wq_Status o) || (wq_Status o =? StatusRunning)%string then
          let! current := wrap_error "load job admission release owner"
            (Get (E := WorkflowQueue) (wq_TaskID o)) in
          ret (if (wq_Status current =? StatusCancelled)%string &&
                  (wq_RunGeneration current =? wq_RunGeneration o) &&
                  (wq_RunToken current =? wq_RunToken o)%string &&
                  (wq_WorkerID current =? wq_WorkerID o)%string
               then Some current else owner)
        else ret owner
    | None => ret owner
    end in
  withJobSchedulingOwner releaseOwner (release_job owner executionKey reason expectedDeadline).

(** The body of the transaction of [ReleaseLostJobAdmission]. *)
Definition release_lost (owner : WorkflowQueue) (supplied : JobInfo) (key reason : string)
    : M unit :=
  let! current := scheduledJobByExecutionKey (Some owner) key in
  guard! (job_TaskID current =? wq_TaskID owner)%string else ErrWorkflowOwnershipLost;
  let! now := currentWorkflowDatabaseTime in
  let suppliedIdentity := jobAdmissionCheckpointIdentity supplied now in
  guard! bool_decide (is_Some suppliedIdentity) &&
         bool_decide (jobAdmissionCheckpointIdentity current now = suppliedIdentity)
    else Wrapf "lost Job admission checkpoint changed" ErrWorkflowOwnershipLost;
  if (job_SchedulingState current =? JobSchedulingQueued)%string ||
     (job_SchedulingState current =? JobSchedulingReleased)%string then ret tt else
  guard! (job_SchedulingState current =? JobSchedulingAdmitted)%string
    else ErrWorkflowOwnershipLost;
  let! outcome := try (updateJobScheduling current
    (jobSchedulingConditions current ++
     [("task_id", CEq (VStr (job_TaskID current))); ("type", CEq (VStr (job_Type current)));
      ("attempt", CEq (VInt (job_Attempt current)));
      ("internal_info", CEq (VStr (job_InternalInfo current)))]%string)
    (released reason)) in
  match outcome with
  | Ok _ => ret tt
  | Err e =>
      if negb (errors_is ErrWorkflowOwnershipLost e) then throw e else
      let! latest := scheduledJobByExecutionKey (Some owner) key in
      if (job_TaskID latest =? wq_TaskID owner)%string &&
         bool_decide (jobAdmissionCheckpointIdentity latest now = suppliedIdentity) &&
         ((job_SchedulingState latest =? JobSchedulingQueued)%string ||
          (job_SchedulingState latest =? JobSchedulingReleased)%string)
      then ret tt else throw e
  end.

Definition ReleaseLostJobAdmission (owner : option WorkflowQueue) (supplied : option JobInfo)
    (reason : string) : M unit :=
  match owner with
  | None => throw ErrWorkflowOwnershipRequired
  | Some o =>
      let! _ := validateJobSchedulingOwner owner in
      match supplied with
      | None => throw ErrPrimaryEmpty
      | Some job =>
          match job_ExecutionKey job with
          | None => throw ErrPrimaryEmpty
          | Some key =>
              guard! negb (str_empty key) else ErrPrimaryEmpty;
              withJobSchedulingOwner owner (release_lost o job key reason)
          end
      end
  end.
End Scheduler.
