(* ===== verification/Admission.v ===== *)
(** The admission tick, [AdmitQueuedJobs] of
    [pkg/apiserver/domain/repository/job_scheduler.go].

    Under the lock of the policy row a tick scans every queued and admitted job in
    pages of descending identity, releases the ones whose ownership is gone,
    counts the others, and then admits queued jobs one by one, best first, while
    there is capacity.  The variables the code's closures share are the record
    [tick]; the queue snapshot, a list of pointers, is a list whose elements are
    updated by job identity. *)

From S2P Require Import Prelude GoStrings Config Json Quantity Policy Model Store Lease Budget.
From S2P Require Import Scheduler.

(** [SchedulingQueuedAt] is not nil on any job that passed [jobSchedulingCurrent]. *)
Definition queued_at (job : JobInfo) : Z := default 0 (job_SchedulingQueuedAt job).

Definition per_workspace (active : gmap string Z) (workspace : string) : Z :=
  default 0 (active !! workspace).

(** Priority plus one point for every [AgingSeconds] of waiting. *)
Definition score (p : JobSchedulerPolicy) (now : Z) (job : JobInfo) : Z :=
  let wait := Z.max 0 (unix now - unix (queued_at job)) in
  job_SchedulingPriority job + Z.quot wait (AgingSeconds p).

Definition preferScheduledJob (a b : JobInfo) (p : JobSchedulerPolicy) (now : Z)
    (active : gmap string Z) : bool :=
  let by_age :=
    if negb (queued_at a =? queued_at b) then queued_at a <? queued_at b
    else job_ID a <? job_ID b in
  if (Strategy p =? JobSchedulerPriority)%string then
    if negb (score p now a =? score p now b) then score p now b <? score p now a
    else
      let wa := per_workspace active (job_WorkspaceID a) in
      let wb := per_workspace active (job_WorkspaceID b) in
      if negb (wa =? wb) then wa <? wb else by_age
  else by_age.

(** The admission metadata the queue snapshot retains. *)
Definition snapshot (job : JobInfo) : JobInfo :=
  job_info_zero <| job_ID := job_ID job |> <| job_Type := job_Type job |>
    <| job_WorkspaceID := job_WorkspaceID job |> <| job_ExecutionKey := job_ExecutionKey job |>
    <| job_RunGeneration := job_RunGeneration job |>
    <| job_SchedulingState := job_SchedulingState job |>
    <| job_SchedulingGeneration := job_SchedulingGeneration job |>
    <| job_SchedulingOwnerStatus := job_SchedulingOwnerStatus job |>
    <| job_SchedulingQueuedAt := job_SchedulingQueuedAt job |>
    <| job_SchedulingPriority := job_SchedulingPriority job |>
    <| job_SchedulingExpiresAt := job_SchedulingExpiresAt job |>
    <| job_SchedulingReason := job_SchedulingReason job |>.

(** The owner fields a cached parent keeps. *)
Definition parent_snapshot (parent : WorkflowQueue) : WorkflowQueue :=
  workflow_queue_zero <| wq_TaskID := wq_TaskID parent |>
    <| wq_RunGeneration := wq_RunGeneration parent |> <| wq_Status := wq_Status parent |>
    <| wq_RunToken := wq_RunToken parent |> <| wq_WorkerID := wq_WorkerID parent |>
    <| wq_LeaseExpiresAt := wq_LeaseExpiresAt parent |>.

Section Admission.
Context {Q : Type} `{QuantityOps Q} `{KubernetesJson Q}.

Record tick := {
  t_active : Z;
  t_perWorkspace : gmap string Z;
  t_parents : gmap string (option WorkflowQueue);
  t_queued : list JobInfo;
  t_resources : option (jobResourceBudget Q);
}.

#[export] Instance eta_tick : Settable tick := fun t =>
  Build_tick (t_active t) (t_perWorkspace t) (t_parents t) (t_queued t) (t_resources t).

(** ** The scan *)

Definition job_page (states : list string) (lastID : Z) : ListOptions :=
  Build_ListOptions
    (Build_FilterOptions [("scheduling_state"%string, map VStr states)] []
       (if lastID =? 0 then [] else [("id"%string, VInt lastID)]))
    1 jobSchedulerBatchSize [("id"%string, SortOrderDescending)].

(** Parents of the page that are not cached yet, in order, cached as absent. *)
Fixpoint missing_parents (page : list JobInfo) (parents : gmap string (option WorkflowQueue))
    : gmap string (option WorkflowQueue) * list string :=
  match page with
  | [] => (parents, [])
  | job :: r =>
      if str_empty (job_SchedulingOwnerStatus job) ||
         bool_decide (is_Some (parents !! job_TaskID job))
      then missing_parents r parents
      else
        let '(parents, ids) := missing_parents r (<[job_TaskID job := None]> parents) in
        (parents, job_TaskID job :: ids)
  end.

Definition load_page_parents (page : list JobInfo)
    (parents : gmap string (option WorkflowQueue)) : M (gmap string (option WorkflowQueue)) :=
  let '(parents, ids) := missing_parents page parents in
  match ids with
  | [] => ret parents
  | _ =>
      let! rows := wrap_error "load scheduling workflows"
        (List_ (E := WorkflowQueue) (Index workflow_queue_zero)
           (Build_ListOptions (Build_FilterOptions [("task_id"%string, map VStr ids)] [] [])
              1 (Z.of_nat (length ids)) [])) in
      ret (fold_left (fun m row => <[wq_TaskID row := Some (parent_snapshot row)]> m) rows parents)
  end.

(** The loop over a page, which checks that identities descend. *)
Fixpoint visit_page (visit : JobInfo -> tick -> M tick) (page : list JobInfo) (lastID : Z)
    (t : tick) : M (Z * tick) :=
  match page with
  | [] => ret (lastID, t)
  | job :: r =>
      guard! negb ((job_ID job <=? 0) || (negb (lastID =? 0) && (lastID <=? job_ID job)))
        else Errorf "invalid job scheduler page";
      let! t := visit job t in
      visit_page visit r (job_ID job) t
  end.

(** One page; [None] when it was the last one. *)
Definition scan_page (states : list string) (visit : JobInfo -> tick -> M tick) (lastID : Z)
    (t : tick) : M (option Z * tick) :=
  let! page := wrap_error "list scheduled jobs"
    (List_ (E := JobInfo) (Index job_info_zero) (job_page states lastID)) in
  let! parents := load_page_parents page (t_parents t) in
  let! visited := visit_page visit page lastID (t <| t_parents := parents |>) in
  ret (if Z.of_nat (length page) <? jobSchedulerBatchSize then None else Some (fst visited),
       snd visited).

(** Identities are positive and descend, so [fuel = lastID] is enough. *)
Fixpoint scan_pages (states : list string) (visit : JobInfo -> tick -> M tick) (fuel : nat)
    (lastID : Z) (t : tick) : M tick :=
  match fuel with
  | O => throw (Errorf "out of pages")
  | S fuel =>
      let! next := scan_page states visit lastID t in
      match next with
      | (None, t) => ret t
      | (Some lastID, t) => scan_pages states visit fuel lastID t
      end
  end.

Definition scanScheduledJobs (states : list string) (visit : JobInfo -> tick -> M tick)
    (t : tick) : M tick :=
  let! next := scan_page states visit 0 t in
  match next with
  | (None, t) => ret t
  | (Some lastID, t) => scan_pages states visit (Z.to_nat lastID) lastID t
  end.

(** A lost compare-and-swap is left to the next tick. *)
Definition ignore_lost (m : M unit) : M bool :=
  let! r := try m in
  match r with
  | Ok _ => ret true
  | Err e => if errors_is ErrWorkflowOwnershipLost e then ret false else throw e
  end.

(** The scan's visitor. *)
Definition count_job (now : Z) (job : JobInfo) (t : tick) : M tick :=
  let! verdict := jobSchedulingCurrent job now (Some (t_parents t)) true in
  let '(valid, parents) := verdict in
  let t := t <| t_parents := default (t_parents t) parents |> in
  if negb valid then
    let! _ := ignore_lost (updateJobScheduling job (jobSchedulingConditions job)
      (released "execution completed or scheduling ownership expired")) in
    ret t
  else if (job_SchedulingState job =? JobSchedulingAdmitted)%string then
    ret (t <| t_active := t_active t + 1 |>
           <| t_perWorkspace := <[job_WorkspaceID job :=
                 per_workspace (t_perWorkspace t) (job_WorkspaceID job) + 1]> (t_perWorkspace t) |>
           <| t_resources :=
                match t_resources t with
                | None => None
                | Some b =>
                    let b := add b (job_WorkspaceID job) (scheduledJobResourceDemand job) in
                    Some (match job_ExecutionKey job with
                          | Some key => b <| b_activeExecutions := {[key]} ∪ b_activeExecutions b |>
                          | None => b
                          end)
                end |>)
  else
    ret (t <| t_resources :=
                match t_resources t with
                | None => None
                | Some b => Some (b <| b_candidates :=
                    <[job_ID job := scheduledJobResourceDemand job]> (b_candidates b) |>)
                end |>
           <| t_queued := (t_queued t ++ [snapshot job])%list |>).

(** ** The admission loop *)

Definition mark (id : Z) (f : JobInfo -> JobInfo) (jobs : list JobInfo) : list JobInfo :=
  map (fun job => if job_ID job =? id then f job else job) jobs.

(** The quota check of a command or evaluation job. *)
Definition quota_reason (t : tick) (job : JobInfo) : string :=
  match t_resources t with
  | Some b =>
      if (job_Type job =? JobCommand)%string || (job_Type job =? JobEval)%string
      then reason b (job_WorkspaceID job) (candidateDemand b job) else ""%string
  | None => ""%string
  end.

Definition eligible (p : JobSchedulerPolicy) (t : tick) (job : JobInfo) : bool :=
  (job_SchedulingState job =? JobSchedulingQueued)%string &&
  (per_workspace (t_perWorkspace t) (job_WorkspaceID job) <? MaxConcurrentJobsPerWorkspace p).

(** One pass over the queue: the best admissible job, and the queue with the
    reasons of the jobs the quota holds back. *)
Fixpoint pick (p : JobSchedulerPolicy) (now : Z) (t : tick) (jobs : list JobInfo)
    (best : option JobInfo) : M (list JobInfo * option JobInfo) :=
  match jobs with
  | [] => ret ([], best)
  | job :: r =>
      let keep (job : JobInfo) (best : option JobInfo) :=
        let! rest := pick p now t r best in
        ret (job :: fst rest, snd rest) in
      if negb (eligible p t job) then keep job best
      else
        let why := quota_reason t job in
        if negb (str_empty why) then
          if (job_SchedulingReason job =? why)%string then keep job best
          else
            let! _ := ignore_lost (updateJobScheduling job (jobSchedulingConditions job)
              [("scheduling_reason"%string, VStr why)]) in
            keep (job <| job_SchedulingReason := why |>) best
        else
          match best with
          | Some b => keep job (if preferScheduledJob job b p now (t_perWorkspace t)
                                then Some job else best)
          | None => keep job (Some job)
          end
  end.

(** After a successful admission of [best]. *)
Definition charge (t : tick) (best : JobInfo) : tick :=
  t <| t_active := t_active t + 1 |>
    <| t_resources :=
         match t_resources t with
         | Some b => Some (add b (job_WorkspaceID best) (candidateDemand b best))
         | None => None
         end |>
    <| t_queued := mark (job_ID best)
         (fun job => job <| job_SchedulingState := JobSchedulingAdmitted |>) (t_queued t) |>
    <| t_perWorkspace := <[job_WorkspaceID best :=
          per_workspace (t_perWorkspace t) (job_WorkspaceID best) + 1]> (t_perWorkspace t) |>.

Definition admit_updates : list (string * Val) :=
  [("scheduling_state", VStr JobSchedulingAdmitted);
   ("scheduling_reason", VStr "admitted by global job scheduler")]%string.

(** Every round takes a job out of the queue, so one more round than there are
    jobs is enough. *)
Fixpoint admit_rounds (p : JobSchedulerPolicy) (now : Z) (rounds : nat) (t : tick)
    (admitted : Z) : M (tick * Z) :=
  match rounds with
  | O => throw (Errorf "out of rounds")
  | S rounds =>
      if negb ((t_active t <? MaxConcurrentJobs p) && (admitted <? jobSchedulerBatchSize))
      then ret (t, admitted)
      else
        let! picked := pick p now t (t_queued t) None in
        let t := t <| t_queued := fst picked |> in
        match snd picked with
        | None => ret (t, admitted)
        | Some best =>
            let! won := ignore_lost
              (updateJobScheduling best (jobSchedulingConditions best) admit_updates) in
            if negb won
            then admit_rounds p now rounds
                   (t <| t_queued := mark (job_ID best)
                       (fun job => job <| job_SchedulingState := JobSchedulingReleased |>)
                       (t_queued t) |>) admitted
            else admit_rounds p now rounds (charge t best) (admitted + 1)
        end
  end.

Definition new_tick (resources : option (jobResourceBudget Q)) : tick :=
  Build_tick 0 ∅ ∅ [] resources.

(** Locking the policy row: a compare-and-swap that changes nothing. *)
Definition lock_policy : M unit :=
  let! locked := wrap_error "lock job scheduler policy"
    (CompareAndSwap (E := SystemSetting) SystemSettingTypeWorkflowScheduler "type"
       (CEq (VStr SystemSettingTypeWorkflowScheduler)) []) in
  guard! locked else Wrapf "lock job scheduler policy" ErrRecordNotExist;
  ret tt.

(** The transaction of [AdmitQueuedJobs]. *)
Definition admission_tick (pages : nat) (resources : option (jobResourceBudget Q))
    : M (tick * Z) :=
  let! _ := lock_policy in
  let! policy := LoadJobSchedulerPolicy in
  let! now := currentWorkflowDatabaseTime in
  let! t := scanScheduledJobs [JobSchedulingQueued; JobSchedulingAdmitted] (count_job now)
              (new_tick resources) in
  let! resources :=
    match t_resources t with
    | None => ret None
    | Some b => let! b := addRetainedSandboxes pages "" b in ret (Some b)
    end in
  let t := t <| t_resources := resources |> in
  admit_rounds policy now (S (length (t_queued t))) t 0.

Definition AdmitQueuedJobs (pages : nat) (quotas : list (option (ResourceList Q))) : M Z :=
  let! resources := lift_result (newJobResourceBudget quotas) in
  wrap_error "admit queued jobs"
    (WithReadCommittedTransaction
       (let! done := admission_tick pages resources in ret (snd done))).
End Admission.
Arguments tick Q : clear implicits.

(** ** Lemmas on the queue *)

Lemma mark_ids id f jobs : (forall j, job_ID (f j) = job_ID j) ->
  map job_ID (mark id f jobs) = map job_ID jobs.
Proof.
  intros Hf. unfold mark. rewrite map_map. apply map_ext. intros j.
  destruct (job_ID j =? id); [apply Hf | done].
Qed.

Lemma in_mark id f jobs j' : In j' (mark id f jobs) ->
  exists j, In j jobs /\ (job_ID j = id /\ j' = f j \/ job_ID j <> id /\ j' = j).
Proof.
  unfold mark. rewrite in_map_iff. intros (j & <- & Hj). exists j. split; [done|].
  destruct (Z.eqb_spec (job_ID j) id); auto.
Qed.
