(* ===== verification/AdmissionSpec.v ===== *)
(** Correctness of job admission: capacity, fairness and progress of the tick of
    [Admission], whatever the other sessions commit meanwhile. *)

From S2P Require Import Prelude GoStrings Config Json Quantity Policy Model Store Hoare Lease.
From S2P Require Import LeaseProtocol Budget Scheduler Admission.

(** ** Admitted rows *)

Definition admitted (job : JobInfo) : bool :=
  (job_SchedulingState job =? JobSchedulingAdmitted)%string.

(** Rows are stored under their identity, which the database assigns in
    increasing order, and an admitted row has an execution key. *)
Definition job_table_ok (d : Database) : Prop :=
  0 < db_next_job d /\
  forall id r, db_jobs d !! id = Some r ->
    job_ID r = id /\ 0 < id < db_next_job d /\
    (admitted r = true -> is_Some (job_ExecutionKey r)).

(** The admitted jobs that satisfy [sel], as a set of identities. *)
Definition admitted_ids (sel : JobInfo -> bool) (d : Database) : gset Z :=
  dom (filter (fun kr => admitted (snd kr) && sel (snd kr) = true) (db_jobs d)).

Definition admitted_count (d : Database) : Z := Z.of_nat (size (admitted_ids (fun _ => true) d)).
Definition admitted_in (workspace : string) (d : Database) : Z :=
  Z.of_nat (size (admitted_ids (fun j => (job_WorkspaceID j =? workspace)%string) d)).

(** The columns that identify an admission. *)
Definition same_admission (r r' : JobInfo) : Prop :=
  job_ExecutionKey r' = job_ExecutionKey r /\ job_RunGeneration r' = job_RunGeneration r /\
  job_SchedulingGeneration r' = job_SchedulingGeneration r /\
  job_SchedulingExpiresAt r' = job_SchedulingExpiresAt r /\
  job_SchedulingOwnerStatus r' = job_SchedulingOwnerStatus r.

(** One row after [d], given the rows of [d]: it keeps its workspace, and it is
    admitted only if it was.  An admitted row whose identity is [fixed] is still the
    same admission: no existing execution was re-attached to another owner. *)
Definition row_follows (fixed : Z -> bool) (d : Database) (id : Z) (r' : JobInfo) : Prop :=
  (exists r, db_jobs d !! id = Some r /\ job_WorkspaceID r' = job_WorkspaceID r /\
     (admitted r' = true -> admitted r = true /\ (fixed id = true -> same_admission r r'))) \/
  (db_next_job d <= id /\ admitted r' = false).

Definition no_new_admission (fixed : Z -> bool) (d d' : Database) : Prop :=
  job_table_ok d -> job_table_ok d' /\ db_next_job d <= db_next_job d' /\
    forall id r', db_jobs d' !! id = Some r' -> row_follows fixed d id r'.

#[export] Instance no_new_admission_preorder fixed : PreOrder (no_new_admission fixed).
Proof.
  split.
  - intros d T. split; [done|split; [lia|]]. intros id r L. left. exists r.
    split; [done|split; [done|]]. intros A. split; [done|]. intros _. done.
  - intros a b c H1 H2 T. destruct (H1 T) as (T1 & N1 & F1). destruct (H2 T1) as (T2 & N2 & F2).
    split; [done|split; [lia|]]. intros id r L.
    destruct (F2 id r L) as [(r1 & L1 & W1 & A1)|[Hid Hr]]; [|right; split; [lia|done]].
    destruct (F1 id r1 L1) as [(r0 & L0 & W0 & A0)|[Hid Hr]].
    + left. exists r0. split; [done|split; [congruence|]]. intros A.
      destruct (A1 A) as [A1' S1]. destruct (A0 A1') as [A0' S0]. split; [done|]. intros St.
      destruct (S1 St) as (? & ? & ? & ? & ?), (S0 St) as (? & ? & ? & ? & ?).
      repeat split; congruence.
    + right. split; [lia|]. destruct (admitted r) eqn:E; [|done]. destruct (A1 eq_refl). congruence.
Qed.

(** What a tick relies on: the policy row is locked, and no commit of the other
    sessions admits a job; those of [moved] they may re-attach. *)
Definition tick_rely (moved : gset Z) (d d' : Database) : Prop :=
  scheduler_policy d' = scheduler_policy d /\ no_new_admission (fun id => bool_decide (id ∉ moved)) d d'.

#[export] Instance tick_rely_preorder moved : PreOrder (tick_rely moved).
Proof.
  split.
  - intros d. split; [done|reflexivity].
  - intros a b c [P1 N1] [P2 N2]. split; [congruence|by transitivity b].
Qed.

(** ** The conditions of an admission *)

Section JobColumns.
Context (j : JobInfo) (cs : list (string * Cond)).

Lemma jcond_key v : conds_hold (("execution_key"%string, CEq v) :: cs) j =
  match job_ExecutionKey j with Some k => negb (is_null v) && val_eqb (VStr k) v | None => false end
  && conds_hold cs j.
Proof. unfold conds_hold. cbn. destruct (job_ExecutionKey j); [done|]. by destruct v. Qed.

Lemma jcond_generation g : conds_hold (("run_generation"%string, CEq (VInt g)) :: cs) j =
  (job_RunGeneration j =? g) && conds_hold cs j.
Proof. reflexivity. Qed.

Lemma jcond_sched_generation g :
  conds_hold (("scheduling_generation"%string, CEq (VInt g)) :: cs) j =
  (job_SchedulingGeneration j =? g) && conds_hold cs j.
Proof. reflexivity. Qed.

Lemma jcond_expires t :
  conds_hold (("scheduling_expires_at"%string,
                match t with Some t => CEq (VTime t) | None => CIsNull end) :: cs) j =
  bool_decide (job_SchedulingExpiresAt j = t) && conds_hold cs j.
Proof.
  unfold conds_hold. cbn. f_equal. apply eq_true_iff_eq. rewrite bool_decide_eq_true.
  destruct t as [t|]; cbn; destruct (job_SchedulingExpiresAt j) as [t'|]; cbn;
    rewrite ?Z.eqb_eq; split; congruence.
Qed.

Lemma jcond_state s : conds_hold (("scheduling_state"%string, CEq (VStr s)) :: cs) j =
  (job_SchedulingState j =? s)%string && conds_hold cs j.
Proof. reflexivity. Qed.

Lemma jcond_owner_status s :
  conds_hold (("scheduling_owner_status"%string, CEq (VStr s)) :: cs) j =
  (job_SchedulingOwnerStatus j =? s)%string && conds_hold cs j.
Proof. reflexivity. Qed.
End JobColumns.

(** A row meets the conditions taken from a copy of it exactly when it is the
    same admission in the same state. *)
Lemma scheduling_conditions job r :
  conds_hold (jobSchedulingConditions job) r = true <->
  (exists k, job_ExecutionKey job = Some k /\ job_ExecutionKey r = Some k) /\
  job_RunGeneration r = job_RunGeneration job /\
  job_SchedulingGeneration r = job_SchedulingGeneration job /\
  job_SchedulingExpiresAt r = job_SchedulingExpiresAt job /\
  (job_SchedulingState job <> ""%string -> job_SchedulingState r = job_SchedulingState job) /\
  (job_SchedulingOwnerStatus job <> ""%string ->
     job_SchedulingOwnerStatus r = job_SchedulingOwnerStatus job).
Proof.
  unfold jobSchedulingConditions. cbn [app]. unfold index_str.
  rewrite jcond_key, jcond_generation, jcond_sched_generation, jcond_expires.
  rewrite !andb_true_iff, !Z.eqb_eq, bool_decide_eq_true.
  assert (K : match job_ExecutionKey r with
      | Some k => negb (is_null match job_ExecutionKey job with Some k => VStr k | None => VNull end) &&
                  val_eqb (VStr k) match job_ExecutionKey job with Some k => VStr k | None => VNull end
      | None => false end = true <->
    exists k, job_ExecutionKey job = Some k /\ job_ExecutionKey r = Some k).
  { destruct (job_ExecutionKey r) as [k|], (job_ExecutionKey job) as [k'|]; cbn;
      rewrite ?String.eqb_eq; split; try (intros (? & ? & ?); congruence); try discriminate.
    intros ->. eauto. }
  rewrite K. clear K.
  destruct (str_empty (job_SchedulingState job)) eqn:E1,
    (str_empty (job_SchedulingOwnerStatus job)) eqn:E2; bool_to_prop; cbn [app];
    rewrite ?jcond_state, ?jcond_owner_status, ?andb_true_iff, ?String.eqb_eq;
    unfold conds_hold; cbn; tauto.
Qed.

(** ** Pages of the scan *)

Lemma job_page_matches states lastID r :
  row_matches (E := JobInfo) [] (Filter (job_page states lastID)) r = true <->
  In (job_SchedulingState r) states /\ (lastID = 0 \/ job_ID r < lastID).
Proof.
  unfold row_matches. cbn [job_page Filter In_ NotEqual LessThan forallb].
  rewrite !andb_true_r, andb_true_l, andb_true_iff.
  assert (S : existsb (fun v => negb (is_null v) && val_eqb (get_col "scheduling_state" r) v)
                (map VStr states) = true <-> In (job_SchedulingState r) states).
  { rewrite existsb_exists. split.
    - intros (v & Hv & E). apply in_map_iff in Hv as (s & <- & Hs). apply andb_true_iff in E as [_ E].
      apply val_eqb_eq in E. cbn in E. by injection E as ->.
    - intros Hs. eexists. split; [by apply in_map|]. cbn. apply String.eqb_refl. }
  cbn [fst snd]. rewrite S. apply and_iff_compat_l.
  destruct (Z.eqb_spec lastID 0) as [->|N]; cbn.
  - split; [by left | done].
  - rewrite andb_true_r, Z.ltb_lt. lia.
Qed.

(** Every matching row below [lastID] is on the page, or the page is full and
    stops above it. *)
Lemma job_page_spec states lastID d :
  job_table_ok d ->
  let page := select (E := JobInfo) [] (job_page states lastID) d in
  (forall j, In j page -> db_jobs d !! job_ID j = Some j /\ In (job_SchedulingState j) states /\
     (lastID = 0 \/ job_ID j < lastID)) /\
  (forall id r, db_jobs d !! id = Some r -> In (job_SchedulingState r) states ->
     (lastID = 0 \/ id < lastID) ->
     In r page \/ (jobSchedulerBatchSize <= Z.of_nat (length page) /\
                   forall j, In j page -> id < job_ID j)).
Proof.
  intros [_ T] page.
  assert (F : forall j, In j page -> db_jobs d !! job_ID j = Some j /\
                In (job_SchedulingState j) states /\ (lastID = 0 \/ job_ID j < lastID)).
  { intros j Hj. apply select_matches in Hj as [Hm Hr]. apply job_page_matches in Hm as Hs.
    split; [|done]. apply elem_rows in Hr as [k Hk]. destruct (T k j Hk) as [-> _]. done. }
  split; [exact F|]. intros id r Hr Hs Hid. destruct (T id r Hr) as (Eid & _).
  destruct (existsb (fun j => job_ID j =? id) page) eqn:Ex.
  - left. apply existsb_exists in Ex as (j & Hj & E). apply Z.eqb_eq in E.
    destruct (F j Hj) as [Lj _]. rewrite E, Hr in Lj. injection Lj as ->. done.
  - right.
    set (R := fun a b : JobInfo => Is_true (row_le [("id"%string, SortOrderDescending)] a b)).
    assert (ER : forall a b, R a b <-> job_ID b <= job_ID a).
    { intros a b. unfold R. rewrite Is_true_true. cbn.
      destruct (Z.eqb_spec (job_ID a) (job_ID b)); [split; [lia|done]|]. rewrite Z.ltb_lt. lia. }
    set (l := merge_sort R (List.filter (row_matches [] (Filter (job_page states lastID))) (rows d))).
    assert (Ep : page = take 100 (drop 0 l)) by reflexivity. rewrite drop_0 in Ep.
    assert (Hin : In r l).
    { apply (Permutation_in _ (Permutation_sym (merge_sort_Permutation R _))), filter_In.
      split; [apply elem_rows; eauto|]. apply job_page_matches. rewrite Eid. auto. }
    assert (Srt : StronglySorted R l).
    { apply StronglySorted_merge_sort.
      - intros a b c. rewrite !ER. lia.
      - intros a b. rewrite !ER. lia. }
    rewrite <- (take_drop 100 l) in Hin, Srt. rewrite <- Ep in Hin, Srt.
    apply StronglySorted_app in Srt as (Hall & _ & _).
    assert (Hne : forall j, In j page -> job_ID j <> id).
    { intros j Hj E. apply (existsb_false _ _ Ex) in Hj. by apply Z.eqb_neq in Hj. }
    apply in_app_or in Hin as [Hin|Hin]; [by destruct (Hne r Hin)|].
    split.
    + rewrite Ep, length_take.
      assert (length l > 100)%nat; [|unfold jobSchedulerBatchSize; lia].
      destruct (Nat.le_gt_cases (length l) 100) as [Hle|]; [|lia].
      by rewrite drop_ge in Hin.
    + intros j Hj. assert (R j r) as HR
        by (apply Hall; by apply list_elem_of_In).
      apply ER in HR. specialize (Hne j Hj). lia.
Qed.

(** ** The scan *)

Lemma table_ok_insert d id row row' :
  job_table_ok d -> db_jobs d !! id = Some row -> job_ID row' = job_ID row ->
  job_ExecutionKey row' = job_ExecutionKey row ->
  (admitted row' = true -> is_Some (job_ExecutionKey row)) ->
  job_table_ok (with_table (<[id := row']> (table d)) d).
Proof.
  intros [N T] L I K A. split; [done|]. cbn. intros id' r.
  destruct (decide (id = id')) as [<-|Ne].
  - rewrite lookup_insert_eq. intros [= <-]. destruct (T id row L) as (E & B & _).
    rewrite I, K. auto.
  - rewrite lookup_insert_ne by done. apply T.
Qed.

(** A write that admits nothing and keeps the workspace. *)
Lemma write_follows moved d id row row' :
  db_jobs d !! id = Some row -> job_ID row' = job_ID row ->
  job_WorkspaceID row' = job_WorkspaceID row -> job_ExecutionKey row' = job_ExecutionKey row ->
  (admitted row' = true -> admitted row = true /\ same_admission row row') ->
  tick_rely moved d (with_table (<[id := row']> (table d)) d).
Proof.
  intros L I W K A. split; [done|]. intros T. split; [|split; [done|]].
  - eapply table_ok_insert; eauto. intros A'. destruct (A A'). by apply (proj2 T id row L).
  - cbn. intros id' r. destruct (decide (id = id')) as [<-|Ne].
    + rewrite lookup_insert_eq. intros [= <-]. left. exists row.
      split; [done|split; [done|]]. intros A'. destruct (A A'). auto.
    + rewrite lookup_insert_ne by done. intros Lr. left. exists r.
      split; [done|split; [done|]]. intros A'. split; [done|]. intros _. done.
Qed.

Lemma triple_update_job R `{!PreOrder R} P job conditions updates (Post : bool -> _ -> Prop) :
  stable R P ->
  (forall d, P d -> (forall row, db_jobs d !! job_ID job = Some row ->
                       conds_hold conditions row = false) -> Post false d) ->
  (forall now d row row', P d -> db_jobs d !! job_ID job = Some row ->
     conds_hold conditions row = true ->
     apply_updates (updates ++ [("update_time"%string, VTime now)]) row = Some row' ->
     Post true (with_table (<[job_ID job := row']> (table d)) d)) ->
  triple R P (ignore_lost (updateJobScheduling job conditions updates)) (on_ok Post).
Proof.
  intros S HF HT. unfold ignore_lost.
  eapply triple_bind with (Mid := fun r d =>
    match r with
    | Ok _ => Post true d
    | Err e => errors_is ErrWorkflowOwnershipLost e = true -> Post false d
    end).
  - apply triple_try. unfold updateJobScheduling.
    eapply triple_bind with (Mid := fun b d => Post b d).
    + apply triple_wrap. apply triple_cas; try done.
      intros e d He _ Hl. cbn in Hl.
      by rewrite (driver_error_is ErrWorkflowOwnershipLost e He) in Hl by (intros []).
    + intros [|]; [by apply triple_ret|]. apply triple_throw. auto.
  - intros [u|e]; [by apply triple_ret|]. apply triple_if; intros He.
    + apply triple_ret. intros d Hd. by apply Hd.
    + by apply triple_throw.
Qed.

Section Scan.
Context {Q : Type} `{QuantityOps Q} `{KubernetesJson Q}.
Context (moved : gset Z) (d0 : Database).

Local Abbreviation rely := (tick_rely moved).
Local Abbreviation follows := (no_new_admission (fun id => bool_decide (id ∉ moved))).

(** The counters of a tick describe the set [S] of counted jobs, with the
    workspace of each; the snapshot is disjoint from it. *)
Record counted (S : gmap Z string) (t : tick Q) : Prop := {
  c_active : t_active t = Z.of_nat (size S);
  c_workspace : forall ws, per_workspace (t_perWorkspace t) ws =
                  Z.of_nat (size (filter (fun kw => snd kw = ws) S));
  c_nodup : NoDup (map job_ID (t_queued t));
  c_disjoint : forall j, In j (t_queued t) ->
                 job_SchedulingState j = JobSchedulingQueued -> S !! job_ID j = None;
}.

(** A snapshot still names the workspace of its row. *)
Definition snapshot_of (d : Database) (j : JobInfo) : Prop :=
  job_ID j < db_next_job d /\
  forall r, db_jobs d !! job_ID j = Some r -> job_WorkspaceID r = job_WorkspaceID j.

(** The scan after all identities of [cov] were visited, the last being [last]. *)
Definition scan_inv (last : Z) (cov : Z -> Prop) (t : tick Q) (d : Database) : Prop :=
  rely d0 d /\ exists S, counted S t /\
    (forall id ws, S !! id = Some ws -> (last <> 0 /\ last <= id) /\
       exists r, db_jobs d0 !! id = Some r /\ admitted r = true /\ job_WorkspaceID r = ws) /\
    (forall j, In j (t_queued t) -> (last <> 0 /\ last <= job_ID j) /\ snapshot_of d j) /\
    (forall id r, db_jobs d !! id = Some r -> admitted r = true -> cov id -> id ∉ moved ->
       S !! id = Some (job_WorkspaceID r)).

Hypothesis table0 : job_table_ok d0.

Lemma rely_table d : rely d0 d -> job_table_ok d.
Proof. intros [_ N]. by destruct (N table0). Qed.

Lemma snapshot_follows fixed d d' j :
  job_table_ok d -> no_new_admission fixed d d' -> snapshot_of d j -> snapshot_of d' j.
Proof.
  intros T N [Hid Hw]. destruct (N T) as (_ & Hn & Fw). split; [lia|]. intros r L.
  destruct (Fw _ r L) as [(r1 & L1 & W1 & _)|[? _]]; [|lia]. rewrite W1. auto.
Qed.

Lemma stable_scan_inv last cov t : stable rely (scan_inv last cov t).
Proof.
  intros d d' HR (R0 & S & C & A & B & F). split; [by transitivity d|].
  exists S. split; [done|split; [done|]]. destruct HR as [_ N]. split.
  { intros j Hj. destruct (B j Hj). split; [done|].
    apply (snapshot_follows (fun id => bool_decide (id ∉ moved)) d); [by apply rely_table|done|done]. }
  intros id r L Ad Hc Nm. destruct (N (rely_table _ R0)) as (_ & _ & Fw).
  destruct (Fw id r L) as [(r1 & L1 & W1 & A1)|[_ ?]]; [|congruence].
  destruct (A1 Ad) as [Ad1 _]. rewrite W1. eapply F; eauto.
Qed.

Lemma stable_rely d1 : stable rely (rely d1).
Proof. intros d d' HR H1. by transitivity d. Qed.

Lemma stable_and P P' : stable rely P -> stable rely P' ->
  stable rely (fun d => P d /\ P' d).
Proof. intros S S' d d' HR [HP HP']. split; eauto. Qed.

Lemma stable_const (F : Prop) : stable rely (fun _ => F).
Proof. by intros d d' _ HF. Qed.

Lemma read_only_current job now parents retain :
  read_only (jobSchedulingCurrent (Q := Q) job now parents retain).
Proof.
  unfold jobSchedulingCurrent, load_parent. store_step.
Qed.

(** Only the counters and the queue of a tick matter. *)
Definition same_counters (t t' : tick Q) : Prop :=
  t_active t' = t_active t /\ t_perWorkspace t' = t_perWorkspace t /\ t_queued t' = t_queued t.

Lemma counted_ext S t t' : same_counters t t' -> counted S t -> counted S t'.
Proof. intros (Ea & Ew & Eq) [A W N D]. split; rewrite ?Ea, ?Ew, ?Eq; done. Qed.

Lemma scan_inv_ext last cov t t' d :
  same_counters t t' -> scan_inv last cov t d -> scan_inv last cov t' d.
Proof.
  intros E (R0 & S & C & A & B & F). split; [done|]. exists S.
  split; [by eapply counted_ext|]. destruct E as (_ & _ & ->). done.
Qed.

(** Visiting an identity below the previous ones whose row is not admitted. *)
Lemma scan_skip last cov t d id :
  0 < id -> (last = 0 \/ id < last) ->
  (forall r, db_jobs d !! id = Some r -> id ∉ moved -> admitted r = false) ->
  scan_inv last cov t d -> scan_inv id (fun i => cov i \/ i = id) t d.
Proof.
  intros Hp Hl Hn (R0 & S & C & A & B & F). split; [done|]. exists S. split; [done|].
  split; [|split].
  - intros i ws Hi. destruct (A i ws Hi) as [? ?]. split; [lia|done].
  - intros j Hj. destruct (B j Hj) as [? ?]. split; [lia|done].
  - intros i r L Ad [Hc| ->] Nm; [by eapply F|]. by rewrite (Hn r L Nm) in Ad.
Qed.

Lemma size_filter_insert (S : gmap Z string) id ws w :
  S !! id = None ->
  Z.of_nat (size (filter (fun kw => snd kw = w) (<[id := ws]> S))) =
  Z.of_nat (size (filter (fun kw => snd kw = w) S)) + (if decide (ws = w) then 1 else 0).
Proof.
  intros N. destruct (decide (ws = w)) as [E|E].
  - rewrite map_filter_insert_True by done. rewrite map_size_insert_None; [lia|].
    apply map_lookup_filter_None. by left.
  - rewrite map_filter_insert_not' by (cbn; intros; congruence). lia.
Qed.

Lemma counted_insert S t t' id ws :
  S !! id = None -> counted S t ->
  t_active t' = t_active t + 1 ->
  t_perWorkspace t' = <[ws := per_workspace (t_perWorkspace t) ws + 1]> (t_perWorkspace t) ->
  NoDup (map job_ID (t_queued t')) ->
  (forall j, In j (t_queued t') -> job_SchedulingState j = JobSchedulingQueued ->
     job_ID j <> id /\ S !! job_ID j = None) ->
  counted (<[id := ws]> S) t'.
Proof.
  intros N [A W _ _] Ea Ew Hn Hd. unfold per_workspace in W. split.
  - rewrite Ea, A, map_size_insert_None by done. lia.
  - intros w. rewrite Ew, size_filter_insert by done. unfold per_workspace.
    destruct (decide (ws = w)) as [->|Ne].
    + rewrite lookup_insert_eq. cbn. rewrite W. done.
    + rewrite lookup_insert_ne by done. rewrite Z.add_0_r. apply W.
  - done.
  - intros j Hj Hs. destruct (Hd j Hj Hs). by rewrite lookup_insert_ne by done.
Qed.

(** Visiting an admitted job. *)
Lemma scan_count d1 last cov t t' d job :
  rely d0 d1 -> rely d1 d -> db_jobs d1 !! job_ID job = Some job ->
  0 < job_ID job -> (last = 0 \/ job_ID job < last) -> admitted job = true ->
  t_active t' = t_active t + 1 ->
  t_perWorkspace t' = <[job_WorkspaceID job :=
      per_workspace (t_perWorkspace t) (job_WorkspaceID job) + 1]> (t_perWorkspace t) ->
  t_queued t' = t_queued t ->
  scan_inv last cov t d -> scan_inv (job_ID job) (fun i => cov i \/ i = job_ID job) t' d.
Proof.
  intros R1 R2 L Hp Hl Ad Ea Ew Eq (R0 & S & C & A & B & F). split; [done|].
  assert (N : S !! job_ID job = None).
  { destruct (S !! job_ID job) as [ws|] eqn:E; [|done]. destruct (A _ _ E) as [? _]. lia. }
  exists (<[job_ID job := job_WorkspaceID job]> S). split; [|split; [|split]].
  - eapply counted_insert; eauto; rewrite Eq; [apply C|]. intros j Hj Hs. split.
    + destruct (B j Hj) as [? _]. lia.
    + by apply (c_disjoint S t).
  - intros i ws. destruct (decide (job_ID job = i)) as [<-|Ne].
    + rewrite lookup_insert_eq. intros [= <-]. split; [lia|].
      destruct R1 as [_ N1]. destruct (N1 table0) as (_ & _ & Fw).
      destruct (Fw _ _ L) as [(r & Lr & Wr & Ar)|[_ ?]]; [|congruence].
      exists r. destruct (Ar Ad). auto.
    + rewrite lookup_insert_ne by done. intros Hi. destruct (A i ws Hi). split; [lia|done].
  - rewrite Eq. intros j Hj. destruct (B j Hj). split; [lia|done].
  - intros i r Lr Adr Hc Nm. destruct (decide (job_ID job = i)) as [<-|Ne].
    + rewrite lookup_insert_eq. destruct R2 as [_ N2].
      destruct (N2 (rely_table _ R1)) as (_ & _ & Fw).
      destruct (Fw _ _ Lr) as [(r1 & L1 & W1 & _)|[_ ?]]; [|congruence]. congruence.
    + rewrite lookup_insert_ne by done. destruct Hc as [Hc|?]; [by eapply F|congruence].
Qed.

(** Visiting a queued job. *)
Lemma scan_queue d1 last cov t t' d job :
  rely d0 d1 -> rely d1 d -> db_jobs d1 !! job_ID job = Some job ->
  0 < job_ID job -> (last = 0 \/ job_ID job < last) -> admitted job = false ->
  t_active t' = t_active t -> t_perWorkspace t' = t_perWorkspace t ->
  t_queued t' = (t_queued t ++ [snapshot job])%list ->
  scan_inv last cov t d -> scan_inv (job_ID job) (fun i => cov i \/ i = job_ID job) t' d.
Proof.
  intros R1 R2 L Hp Hl Ad Ea Ew Eq (R0 & S & C & A & B & F).
  pose proof (rely_table _ R1) as T1.
  destruct (proj2 T1 _ _ L) as (_ & Bd & _).
  assert (Sn : snapshot_of d1 (snapshot job)).
  { split; [cbn; lia|]. cbn. intros r Lr. congruence. }
  destruct R2 as [_ N2]. destruct (N2 T1) as (_ & _ & Fw).
  split; [done|]. exists S. split; [split|split; [|split]].
  - rewrite Ea. apply C.
  - rewrite Ew. apply C.
  - rewrite Eq, map_app. apply NoDup_app. split; [apply C|]. split; [|apply NoDup_singleton].
    intros i Hi Hj. apply list_elem_of_In in Hi, Hj. apply in_map_iff in Hi as (j & <- & Hj'). destruct (B j Hj') as [? _].
    cbn in Hj. destruct Hj as [Hj|[]]. cbn in Hj. lia.
  - rewrite Eq. intros j Hj Hs. apply in_app_or in Hj as [Hj|[<-|[]]]; [by apply C|].
    cbn. destruct (S !! job_ID job) as [ws|] eqn:E; [|done]. destruct (A _ _ E) as [? _]. lia.
  - intros i ws Hi. destruct (A i ws Hi) as [? ?]. split; [lia|done].
  - rewrite Eq. intros j Hj. apply in_app_or in Hj as [Hj|[<-|[]]].
    + destruct (B j Hj). split; [lia|done].
    + cbn. split; [lia|]. by apply (snapshot_follows (fun id => bool_decide (id ∉ moved)) d1).
  - intros i r Lr Adr [Hc| ->] Nm; [by eapply F|].
    destruct (Fw _ _ Lr) as [(r1 & L1 & _ & A1)|[_ ?]]; [|congruence].
    destruct (A1 Adr). congruence.
Qed.

Lemma released_row reason now row row' :
  apply_updates (E := JobInfo) (released reason ++ [("update_time"%string, VTime now)]) row =
    Some row' ->
  row' = row <| job_SchedulingState := JobSchedulingReleased |>
             <| job_SchedulingReason := reason |> <| job_UpdateTime := now |>.
Proof. cbn. congruence. Qed.

(** A row that no longer meets the conditions of an admission seen earlier is not
    admitted. *)
Lemma lost_not_admitted d1 d job :
  job_ID job ∉ moved -> job_table_ok d1 -> follows d1 d -> db_jobs d1 !! job_ID job = Some job ->
  (forall row, db_jobs d !! job_ID job = Some row ->
     conds_hold (jobSchedulingConditions job) row = false) ->
  forall r, db_jobs d !! job_ID job = Some r -> admitted r = false.
Proof.
  intros Nm T1 N L Hc r Lr. destruct (N T1) as (T & _ & Fw).
  destruct (admitted r) eqn:Ad; [exfalso|done].
  destruct (Fw _ _ Lr) as [(r1 & L1 & _ & A1)|[_ ?]]; [|congruence].
  rewrite L in L1. injection L1 as <-. destruct (A1 Ad) as [Ad1 Same].
  destruct (Same (bool_decide_eq_true_2 _ Nm)) as (E1 & E2 & E3 & E4 & E5).
  assert (conds_hold (jobSchedulingConditions job) r = true) as Hh; [|by rewrite Hc in Hh].
  apply scheduling_conditions. destruct (proj2 T _ _ Lr) as (_ & _ & [k Hk]); [done|].
  unfold admitted in *. bool_to_prop. repeat split; try congruence. exists k. split; congruence.
Qed.

Lemma count_job_spec d1 last cov t job now :
  rely d0 d1 -> db_jobs d1 !! job_ID job = Some job ->
  In (job_SchedulingState job) [JobSchedulingQueued; JobSchedulingAdmitted] ->
  0 < job_ID job -> (last = 0 \/ job_ID job < last) ->
  triple rely (fun d => rely d1 d /\ scan_inv last cov t d) (count_job now job t)
    (on_ok (fun t' d => rely d1 d /\
                        scan_inv (job_ID job) (fun i => cov i \/ i = job_ID job) t' d)).
Proof.
  intros R1 L Hs Hp Hl. pose proof (rely_table _ R1) as T1.
  set (Pre := fun d => rely d1 d /\ scan_inv last cov t d).
  assert (SP : stable rely Pre) by (apply stable_and; [apply stable_rely|apply stable_scan_inv]).
  unfold count_job. apply triple_bind_ok with (Mid := fun _ => Pre).
  { apply triple_read_only; [apply _|exact SP|apply read_only_current|]. by intros [?|?] d. }
  intros [valid parents]. set (t1 := t <| t_parents := _ |>).
  assert (E1 : same_counters t t1) by done.
  destruct valid; cbn [negb].
  - assert (Hn : admitted job = false \/ admitted job = true) by (destruct (admitted job); auto).
    unfold admitted in Hn. destruct Hn as [Ad|Ad]; rewrite Ad.
    + apply triple_ret. intros d [R2 Inv]. split; [done|]. by apply (scan_queue d1 last cov t).
    + apply triple_ret. intros d [R2 Inv]. split; [done|]. by apply (scan_count d1 last cov t).
  - apply triple_bind_ok with (Mid := fun _ d => rely d1 d /\
      scan_inv (job_ID job) (fun i => cov i \/ i = job_ID job) t d).
    2:{ intros _. apply triple_ret. intros d [R2 Inv]. split; [done|].
        by eapply scan_inv_ext. }
    apply triple_update_job; [apply _|exact SP|..].
    + intros d [R2 Inv] Hc. split; [done|]. apply (scan_skip last); try done.
      intros r Lr Nm. by apply (lost_not_admitted d1 d job Nm T1 (proj2 R2)).
    + intros u d row row' [R2 Inv] Lr Hc Hu. apply released_row in Hu.
      assert (HR : rely d (with_table (<[job_ID job := row']> (table d)) d)).
      { eapply write_follows; eauto; subst row'; done. }
      split; [by transitivity d|]. apply (scan_skip last); [done|done| |].
      * cbn. intros r. rewrite lookup_insert_eq. intros [= <-] _. by subst row'.
      * eapply stable_scan_inv; eauto.
Qed.

(** Visiting a page read from [d1]. *)
Lemma visit_page_spec d1 now page : forall last cov t,
  rely d0 d1 ->
  (forall j, In j page -> db_jobs d1 !! job_ID j = Some j /\
     In (job_SchedulingState j) [JobSchedulingQueued; JobSchedulingAdmitted]) ->
  triple rely (fun d => rely d1 d /\ scan_inv last cov t d)
    (visit_page (count_job now) page last t)
    (on_ok (fun v d => rely d1 d /\
       scan_inv (fst v) (fun i => cov i \/ In i (map job_ID page)) (snd v) d /\
       ((page = [] /\ fst v = last) \/
        (0 < fst v /\ exists j, In j page /\ job_ID j = fst v)))).
Proof.
  induction page as [|j page IH]; intros last cov t R1 Hpage; cbn [visit_page].
  { apply triple_ret. intros d [R2 (R0 & S & C & A & B & F)]. cbn. split; [done|].
    split; [|by left]. split; [done|]. exists S. split; [done|split; [done|split; [done|]]].
    intros i r L Ad [Hc|[]] Nm. by apply F. }
  destruct (Hpage j (or_introl eq_refl)) as [L Hs].
  apply triple_if; intros G; [|by apply triple_throw].
  apply negb_true_iff, orb_false_iff in G as [G1 G2]. apply Z.leb_gt in G1.
  assert (Hl : last = 0 \/ job_ID j < last).
  { apply andb_false_iff in G2 as [G2|G2]; bool_to_prop; [by left|right; lia]. }
  eapply triple_bind_ok; [apply count_job_spec; eauto|].
  - intros t'. eapply triple_on_ok; [..|apply IH; [done|]].
    + intros d Hd. exact Hd.
    + intros v d (R2 & (R0 & S & C & A & B & F) & Hv).
      split; [done|]. split; [split; [done|]|].
      * exists S. split; [done|split; [done|split; [done|]]].
        intros i r Lr Ad Hc Nm. apply (F i r Lr Ad); [|done]. cbn in Hc.
        destruct Hc as [Hc|[Hc|Hc]]; auto.
      * right. destruct Hv as [[-> ->]|(Hp & j2 & Hj2 & E)].
        -- split; [done|]. exists j. split; [by left|done].
        -- split; [done|]. exists j2. split; [by right|done].
    + intros j' Hj'. apply Hpage. by right.
Qed.

Lemma scan_extend last cov cov' t d :
  (forall id r, db_jobs d !! id = Some r -> admitted r = true -> cov' id -> cov id) ->
  scan_inv last cov t d -> scan_inv last cov' t d.
Proof.
  intros Hc (R0 & S & C & A & B & F). split; [done|]. exists S.
  split; [done|split; [done|split; [done|]]]. intros id r L Ad Hid. eauto.
Qed.

(** The identities a scan has passed when the last one was [last]. *)
Definition passed (last id : Z) : Prop := last <> 0 /\ last <= id.

Lemma scan_page_spec now last t :
  0 <= last ->
  triple rely (scan_inv last (passed last) t)
    (scan_page [JobSchedulingQueued; JobSchedulingAdmitted] (count_job now) last t)
    (on_ok (fun n d => exists last',
       match fst n with None => True | Some l => l = last' /\ 0 < l /\ (last = 0 \/ l < last) end /\
       scan_inv last' (match fst n with None => fun _ => True | Some _ => passed last' end)
         (snd n) d)).
Proof.
  intros Hlast. unfold scan_page.
  apply triple_bind_ok with (Mid := fun page d => exists d1, (rely d0 d1 /\
      page = select (E := JobInfo) [] (job_page [JobSchedulingQueued; JobSchedulingAdmitted] last) d1) /\
      rely d1 d /\ scan_inv last (passed last) t d).
  { apply triple_wrap. apply triple_List; [apply _|apply stable_scan_inv|done|].
    intros d Inv. exists d. split; [split; [apply Inv|done]|]. split; [reflexivity|done]. }
  intros page. apply triple_exists. intros d1. apply triple_pure. intros [R1 Ep].
  pose proof (job_page_spec [JobSchedulingQueued; JobSchedulingAdmitted] last d1
    (rely_table _ R1)) as PS. cbv zeta in PS. rewrite <- Ep in PS. destruct PS as [P1 P2].
  set (Pre := fun d => rely d1 d /\ scan_inv last (passed last) t d).
  assert (SP : stable rely Pre) by (apply stable_and; [apply stable_rely|apply stable_scan_inv]).
  apply triple_bind_ok with (Mid := fun _ => Pre).
  { apply triple_read_only; [apply _|exact SP| |by intros [?|?] d].
    unfold load_page_parents. destruct (missing_parents page (t_parents t)) as [m ids].
    store_step. }
  intros parents. eapply triple_bind_ok.
  { eapply triple_on_ok; [..|apply (visit_page_spec d1 now page last (passed last)); [done|]].
    - intros d [R2 Inv]. split; [exact R2|]. eapply scan_inv_ext; [|exact Inv]. done.
    - intros v d Hd. exact Hd.
    - intros j Hj. by destruct (P1 j Hj) as (? & ? & _). }
  intros v. apply triple_ret. intros d (R2 & Inv & Hv). exists (fst v).
  assert (Hcov : forall id r, db_jobs d !! id = Some r -> admitted r = true ->
    (passed last id \/ In id (map job_ID page)) \/
    (jobSchedulerBatchSize <= Z.of_nat (length page) /\ forall j, In j page -> id < job_ID j)).
  { intros id r Lr Ad. destruct R2 as [_ N2]. destruct (N2 (rely_table _ R1)) as (_ & _ & Fw).
    destruct (Fw _ _ Lr) as [(r1 & L1 & _ & A1)|[_ ?]]; [|congruence].
    destruct (A1 Ad) as [Ad1 _]. unfold admitted in Ad1. apply String.eqb_eq in Ad1.
    destruct (decide (last <> 0 /\ last <= id)) as [Hp|Hp]; [by left; left|].
    destruct (P2 id r1 L1) as [Hin|Hfull]; [rewrite Ad1; cbn; auto|lia| |by right].
    left. right. apply in_map_iff. exists r1. split; [|done].
    by destruct (proj2 (rely_table _ R1) _ _ L1). }
  destruct (Z.ltb_spec (Z.of_nat (length page)) jobSchedulerBatchSize) as [Hlen|Hlen]; cbn [fst snd].
  - split; [done|]. eapply scan_extend; [|exact Inv]. intros id r Lr Ad _.
    destruct (Hcov id r Lr Ad) as [Hc|[Hf _]]; [exact Hc|lia].
  - destruct Hv as [[-> _]|(Hp & j & Hj & E)]; [by unfold jobSchedulerBatchSize in Hlen; cbn in Hlen|].
    split; [split; [done|split; [done|rewrite <- E; by destruct (P1 j Hj) as (_ & _ & ?)]]|].
    eapply scan_extend; [|exact Inv]. intros id r Lr Ad [_ Hid].
    destruct (Hcov id r Lr Ad) as [Hc|[_ Hf]]; [exact Hc|]. specialize (Hf j Hj). lia.
Qed.

Lemma scan_pages_spec now fuel : forall last t,
  0 < last ->
  triple rely (scan_inv last (passed last) t)
    (scan_pages [JobSchedulingQueued; JobSchedulingAdmitted] (count_job now) fuel last t)
    (on_ok (fun t' d => exists last', scan_inv last' (fun _ => True) t' d)).
Proof.
  induction fuel as [|fuel IH]; intros last t Hl; cbn [scan_pages]; [by apply triple_throw|].
  eapply triple_bind_ok; [apply scan_page_spec; lia|].
  intros [[last'|] t']; cbn [fst snd].
  - apply triple_exists. intros l. apply triple_pure. intros (-> & Hp & _). by apply IH.
  - apply triple_ret. intros d (l & _ & Inv). by exists l.
Qed.

Lemma scan_spec now t :
  t_active t = 0 -> t_perWorkspace t = ∅ -> t_queued t = [] ->
  triple rely (rely d0)
    (scanScheduledJobs [JobSchedulingQueued; JobSchedulingAdmitted] (count_job now) t)
    (on_ok (fun t' d => exists last', scan_inv last' (fun _ => True) t' d)).
Proof.
  intros Ea Ew Eq. unfold scanScheduledJobs.
  eapply triple_bind_ok; [eapply triple_on_ok; [..|apply (scan_page_spec now 0 t)]; [|done|lia]|].
  - intros d R0. split; [done|]. exists ∅. split; [split|split; [|split]].
    + by rewrite Ea, map_size_empty.
    + intros ws. by rewrite Ew, map_filter_empty, map_size_empty.
    + rewrite Eq. apply NoDup_nil_2.
    + by rewrite Eq.
    + intros id ws L. by rewrite lookup_empty in L.
    + by rewrite Eq.
    + intros id r _ _ [? _] _. done.
  - intros [[last'|] t']; cbn [fst snd].
    + apply triple_exists. intros l. apply triple_pure. intros (-> & Hp & _).
      by apply scan_pages_spec.
    + apply triple_ret. intros d (l & _ & Inv). by exists l.
Qed.

(** ** The admission rounds *)

Lemma read_only_retained pages : forall last (b : jobResourceBudget Q),
  read_only (addRetainedSandboxes pages last b).
Proof.
  induction pages as [|pages IH]; intros last b; cbn [addRetainedSandboxes]; store_step.
Qed.

(** The counted set covers every admitted row, and the snapshot names rows. *)
Definition admission_inv (t : tick Q) (d : Database) : Prop :=
  job_table_ok d /\ exists S, counted S t /\
    (forall j, In j (t_queued t) -> snapshot_of d j) /\
    (forall id r, db_jobs d !! id = Some r -> admitted r = true -> id ∉ moved ->
       S !! id = Some (job_WorkspaceID r)).

Lemma stable_admission_inv t : stable rely (admission_inv t).
Proof.
  intros d d' [_ N] (T & S & C & B & F). destruct (N T) as (T' & _ & Fw).
  split; [done|]. exists S. split; [done|split].
  - intros j Hj. apply (snapshot_follows (fun id => bool_decide (id ∉ moved)) d); auto.
  - intros id r L Ad Nm. destruct (Fw _ _ L) as [(r1 & L1 & W1 & A1)|[_ ?]]; [|congruence].
    destruct (A1 Ad) as [Ad1 _]. rewrite W1. eauto.
Qed.

(** A snapshot after its reason was updated. *)
Definition reason_only (j j' : JobInfo) : Prop :=
  exists why, j' = j <| job_SchedulingReason := why |>.

Lemma reason_only_refl j : reason_only j j.
Proof. exists (job_SchedulingReason j). by destruct j. Qed.

Lemma reason_only_in l l' j' : Forall2 reason_only l l' -> In j' l' ->
  exists j, In j l /\ reason_only j j'.
Proof.
  induction 1 as [|a a' l l' E _ IH]; [done|]. intros [<-|Hj].
  - exists a. split; [by left|done].
  - destruct (IH Hj) as (j & Hj' & E'). exists j. split; [by right|done].
Qed.

Lemma reason_only_ids l l' : Forall2 reason_only l l' -> map job_ID l' = map job_ID l.
Proof. induction 1 as [|a a' l l' [w ->] _ IH]; [done|]. cbn. by rewrite IH. Qed.

Lemma admission_reasons t q d :
  Forall2 reason_only (t_queued t) q -> admission_inv t d ->
  admission_inv (t <| t_queued := q |>) d.
Proof.
  intros E (T & S & [A W N D] & B & F). split; [done|]. exists S. split; [|split; [|done]].
  - split; [done|done|cbn; by rewrite (reason_only_ids _ _ E)|]. cbn. intros j' Hj' Hs.
    destruct (reason_only_in _ _ _ E Hj') as (j & Hj & w & ->). by apply (D j).
  - cbn. intros j' Hj'. destruct (reason_only_in _ _ _ E Hj') as (j & Hj & w & ->). by apply (B j).
Qed.

(** Writing the reason of a row keeps its admission. *)
Lemma reason_row why now row row' :
  apply_updates (E := JobInfo)
    ([("scheduling_reason"%string, VStr why)] ++ [("update_time"%string, VTime now)]) row =
    Some row' ->
  row' = row <| job_SchedulingReason := why |> <| job_UpdateTime := now |>.
Proof. cbn. congruence. Qed.

Lemma pick_spec p now t : forall jobs best,
  triple rely (admission_inv t) (pick p now t jobs best)
    (on_ok (fun r d => (Forall2 reason_only jobs (fst r) /\
       forall b, snd r = Some b -> best = Some b \/ (In b (fst r) /\ eligible p t b = true)) /\
       admission_inv t d)).
Proof.
  assert (Keep : forall job job' r best best', reason_only job job' ->
    (forall b, best' = Some b -> best = Some b \/ (b = job' /\ eligible p t b = true)) ->
    triple rely (admission_inv t) (pick p now t r best')
      (on_ok (fun res d => (Forall2 reason_only r (fst res) /\
         forall b, snd res = Some b -> best' = Some b \/ (In b (fst res) /\ eligible p t b = true)) /\
         admission_inv t d)) ->
    triple rely (admission_inv t)
      (let! rest := pick p now t r best' in ret (job' :: fst rest, snd rest))
      (on_ok (fun res d => (Forall2 reason_only (job :: r) (fst res) /\
         forall b, snd res = Some b -> best = Some b \/ (In b (fst res) /\ eligible p t b = true)) /\
         admission_inv t d))).
  { intros job job' r best best' E Hb T. eapply triple_bind_ok; [exact T|].
    intros res. apply triple_pure. intros [HF HB]. apply triple_ret. intros d Inv.
    split; [|done]. split; [by constructor|]. cbn. intros b Eb.
    destruct (HB b Eb) as [Hbb|[? ?]]; [|auto]. destruct (Hb b Hbb) as [?|[-> ?]]; auto. }
  induction jobs as [|job r IH]; intros best; cbn [pick].
  { apply triple_ret. intros d Inv. split; [|done]. split; [constructor|]. auto. }
  destruct (eligible p t job) eqn:El; cbn [negb].
  2:{ apply (Keep job job r best best); auto using reason_only_refl. }
  destruct (str_empty (quota_reason t job)); cbn [negb].
  - destruct best as [b|]; [destruct (preferScheduledJob _ _ _ _ _)|];
      (eapply Keep; [apply reason_only_refl| |apply IH]); intros b' [= <-]; auto.
  - destruct (_ =? _)%string.
    { apply (Keep job job r best best); auto using reason_only_refl. }
    eapply triple_bind_ok with (Mid := fun _ => admission_inv t).
    2:{ intros _. apply (Keep job _ r best best); [by eexists|auto|apply IH]. }
    apply triple_update_job; [apply _|apply stable_admission_inv|done|].
    intros u d row row' Inv L Hc Hu. apply reason_row in Hu.
    eapply stable_admission_inv; [|exact Inv]. by eapply write_follows; eauto; subst row'.
Qed.

Definition set_state (s : string) (j : JobInfo) : JobInfo := j <| job_SchedulingState := s |>.

Lemma admission_lost t id d :
  admission_inv t d ->
  admission_inv (t <| t_queued := mark id (set_state JobSchedulingReleased) (t_queued t) |>) d.
Proof.
  intros (T & S & [A W N D] & B & F). split; [done|]. exists S. split; [|split; [|done]].
  - split; [done|done|cbn; by rewrite mark_ids|]. cbn. intros j' Hj' Hs.
    apply in_mark in Hj' as (j & Hj & [[_ ->]|[_ ->]]); [done|]. by apply D.
  - cbn. intros j' Hj'. apply in_mark in Hj' as (j & Hj & [[_ ->]|[_ ->]]); exact (B j Hj).
Qed.

Lemma admit_row now row row' :
  apply_updates (E := JobInfo) (admit_updates ++ [("update_time"%string, VTime now)]) row =
    Some row' ->
  row' = row <| job_SchedulingState := JobSchedulingAdmitted |>
             <| job_SchedulingReason := "admitted by global job scheduler" |>
             <| job_UpdateTime := now |>.
Proof. cbn. congruence. Qed.

Lemma admission_won p t best now d row row' :
  In best (t_queued t) -> eligible p t best = true -> admission_inv t d ->
  db_jobs d !! job_ID best = Some row -> conds_hold (jobSchedulingConditions best) row = true ->
  apply_updates (E := JobInfo) (admit_updates ++ [("update_time"%string, VTime now)]) row =
    Some row' ->
  admission_inv (charge t best) (with_table (<[job_ID best := row']> (table d)) d).
Proof.
  intros Hb El (T & S & C & B & F) L Hc Hu. apply admit_row in Hu.
  apply scheduling_conditions in Hc as ((k & _ & Hk) & _).
  unfold eligible in El. apply andb_true_iff in El as [Es _]. apply String.eqb_eq in Es.
  assert (N : S !! job_ID best = None) by (by apply (c_disjoint S t C)).
  split; [eapply table_ok_insert; eauto; by subst row'|].
  exists (<[job_ID best := job_WorkspaceID best]> S). split; [|split].
  - apply (counted_insert S t); try done.
    + cbn. rewrite mark_ids by done. apply C.
    + cbn. intros j' Hj' Hs. apply in_mark in Hj' as (j & Hj & [[_ ->]|[Ne ->]]); [done|].
      split; [done|]. by apply C.
  - cbn. intros j' Hj'.
    assert (Hs : exists j, In j (t_queued t) /\ job_ID j' = job_ID j /\
                           job_WorkspaceID j' = job_WorkspaceID j).
    { apply in_mark in Hj' as (j & Hj & [[_ ->]|[_ ->]]); eauto. }
    destruct Hs as (j & Hj & E1 & E2). destruct (B j Hj) as [Hid Hw].
    split; [cbn; lia|]. cbn. rewrite E1, E2. intros r.
    destruct (decide (job_ID best = job_ID j)) as [E|Ne].
    + rewrite <- E, lookup_insert_eq. intros [= <-]. rewrite E in L. subst row'. cbn. by apply Hw.
    + rewrite lookup_insert_ne by done. apply Hw.
  - cbn. intros id r. destruct (decide (job_ID best = id)) as [<-|Ne].
    + rewrite !lookup_insert_eq. intros [= <-] _ _. subst row'. cbn. f_equal. symmetry.
      by apply (B best Hb).
    + rewrite !lookup_insert_ne by done. apply F.
Qed.

(** The counters stay below the policy's limits, or below where they started. *)
Definition bounded (p : JobSchedulerPolicy) (active : Z) (workspaces : string -> Z) (t : tick Q)
    : Prop :=
  t_active t <= Z.max active (MaxConcurrentJobs p) /\
  forall ws, per_workspace (t_perWorkspace t) ws <=
             Z.max (workspaces ws) (MaxConcurrentJobsPerWorkspace p).

Lemma admit_rounds_spec p now active workspaces rounds : forall t n,
  bounded p active workspaces t -> n <= jobSchedulerBatchSize ->
  triple rely (admission_inv t) (admit_rounds p now rounds t n)
    (on_ok (fun r d => (bounded p active workspaces (fst r) /\ snd r <= jobSchedulerBatchSize) /\
                       admission_inv (fst r) d)).
Proof.
  induction rounds as [|rounds IH]; intros t n Hb Hn; cbn [admit_rounds]; [by apply triple_throw|].
  apply triple_if; intros G; [by apply triple_ret|].
  apply negb_false_iff, andb_true_iff in G as [G1 G2]. apply Z.ltb_lt in G1, G2.
  eapply triple_bind_ok; [apply pick_spec|]. intros [q [best|]]; cbn [fst snd].
  2:{ apply triple_pure. intros [HF _]. apply triple_ret. intros d Inv. split; [done|].
      by apply admission_reasons. }
  apply triple_pure. intros [HF HB].
  destruct (HB best eq_refl) as [?|[Hin El]]; [done|].
  set (t1 := t <| t_queued := q |>).
  assert (El1 : eligible p t1 best = true) by exact El.
  eapply triple_bind_ok with (Mid := fun won : bool =>
    if won then admission_inv (charge t1 best)
    else admission_inv (t1 <| t_queued :=
           mark (job_ID best) (set_state JobSchedulingReleased) (t_queued t1) |>)).
  - eapply triple_weaken; [intros d Inv; exact (admission_reasons t q d HF Inv)|
      intros r d Hd; exact Hd|].
    apply triple_update_job; [apply _|apply stable_admission_inv| |].
    + intros d Inv _. by apply admission_lost.
    + intros u d row row' Inv L Hc Hu. by eapply admission_won.
  - intros [|]; cbn [negb].
    + apply IH; [|unfold jobSchedulerBatchSize in *; lia]. destruct Hb as [H1 H2].
      unfold eligible in El. apply andb_true_iff in El as [_ El]. apply Z.ltb_lt in El.
      split; cbn; [lia|]. intros ws. unfold per_workspace in *. specialize (H2 ws).
      destruct (decide (job_WorkspaceID best = ws)) as [<-|Ne].
      * rewrite lookup_insert_eq. cbn. lia.
      * by rewrite lookup_insert_ne by done.
    + by apply IH.
Qed.

(** ** Every part of a tick consumes its events in order *)

Lemma advances_update_job job conditions updates :
  advances (ignore_lost (updateJobScheduling job conditions updates)).
Proof. unfold ignore_lost, updateJobScheduling. store_step. Qed.

Lemma advances_current job now parents retain :
  advances (jobSchedulingCurrent (Q := Q) job now parents retain).
Proof. apply read_only_advances, read_only_current. Qed.

Lemma advances_count_job now job (t : tick Q) : advances (count_job now job t).
Proof.
  unfold count_job. apply advances_bind; [apply advances_current|]. intros [valid parents].
  destruct (negb valid); [|store_step].
  apply advances_bind; [apply advances_update_job|]. store_step.
Qed.

Lemma advances_visit_page now page : forall last (t : tick Q),
  advances (visit_page (count_job now) page last t).
Proof.
  induction page as [|j page IH]; intros last t; cbn [visit_page]; [store_step|].
  destruct (negb _); [|store_step]. apply advances_bind; [apply advances_count_job|auto].
Qed.

Lemma advances_scan_page now last (t : tick Q) states :
  advances (scan_page states (count_job now) last t).
Proof.
  unfold scan_page, load_page_parents. apply advances_bind; [store_step|]. intros page.
  apply advances_bind.
  - destruct (missing_parents page (t_parents t)) as [m ids]. store_step.
  - intros parents. apply advances_bind; [apply advances_visit_page|]. store_step.
Qed.

Lemma advances_scan now (t : tick Q) states : advances (scanScheduledJobs states (count_job now) t).
Proof.
  assert (P : forall fuel last t, advances (scan_pages states (count_job now) fuel last t)).
  { induction fuel as [|fuel IH]; intros last t'; cbn [scan_pages]; [store_step|].
    apply advances_bind; [apply advances_scan_page|]. intros [[l|] t'']; [auto|store_step]. }
  unfold scanScheduledJobs. apply advances_bind; [apply advances_scan_page|].
  intros [[l|] t'']; [auto|store_step].
Qed.

Lemma advances_pick p now (t : tick Q) jobs : forall best, advances (pick p now t jobs best).
Proof.
  induction jobs as [|job r IH]; intros best; cbn [pick]; [store_step|].
  repeat case_goal; repeat (apply advances_bind; [solve [auto | apply advances_update_job]|]);
    store_step; apply advances_bind; auto; store_step.
Qed.

Lemma advances_admit_rounds p now rounds : forall (t : tick Q) n,
  advances (admit_rounds p now rounds t n).
Proof.
  induction rounds as [|rounds IH]; intros t n; cbn [admit_rounds]; [store_step|].
  destruct (negb _); [store_step|]. apply advances_bind; [apply advances_pick|].
  intros [q [best|]]; cbn [snd]; [|store_step].
  apply advances_bind; [apply advances_update_job|]. intros [|]; cbn [negb]; auto.
Qed.

Lemma advances_lock : advances lock_policy.
Proof. unfold lock_policy, CompareAndSwap. store_step. Qed.

Lemma advances_load : advances LoadJobSchedulerPolicy.
Proof. unfold LoadJobSchedulerPolicy. store_step. Qed.

Lemma advances_tick pages (resources : option (jobResourceBudget Q)) :
  advances (admission_tick pages resources).
Proof.
  unfold admission_tick. apply advances_bind; [apply advances_lock|]. intros _.
  apply advances_bind; [apply advances_load|]. intros policy.
  apply advances_bind; [apply read_only_advances, read_only_task_clock|]. intros now.
  apply advances_bind; [apply advances_scan|]. intros t.
  apply advances_bind; [|intros r; apply advances_admit_rounds].
  destruct (t_resources t); [|store_step].
  apply advances_bind; [apply read_only_advances, read_only_retained|]. store_step.
Qed.

(** ** Capacity *)

Lemma size_dom_le {B} (X : gset Z) (m : gmap Z B) :
  (forall k, k ∈ X -> is_Some (m !! k)) -> (size X <= size m)%nat.
Proof.
  intros Hs. rewrite <- (size_dom (D := gset Z) m). apply subseteq_size.
  intros k Hk. apply elem_of_dom. by apply Hs.
Qed.

Lemma size_split {B} (X : gset Z) (m : gmap Z B) :
  (forall k, k ∈ X -> is_Some (m !! k) \/ k ∈ moved) -> Z.of_nat (size X) <= Z.of_nat (size m) + Z.of_nat (size moved).
Proof.
  intros Hs. assert (L : (size (X ∖ moved) <= size m)%nat).
  { apply size_dom_le. intros k [Hk N]%elem_of_difference. by destruct (Hs k Hk). }
  assert (size X <= size (X ∖ moved) + size moved)%nat; [|lia].
  transitivity (size ((X ∖ moved) ∪ moved)); [|by rewrite size_union by set_solver].
  apply subseteq_size. intros k Hk. destruct (decide (k ∈ moved)); set_solver.
Qed.

Lemma admitted_ids_elem sel d id :
  id ∈ admitted_ids sel d <->
  exists r, db_jobs d !! id = Some r /\ admitted r = true /\ sel r = true.
Proof.
  unfold admitted_ids. rewrite elem_of_dom. split.
  - intros [r Hr]. apply map_lookup_filter_Some in Hr as [L A]. cbn in A.
    apply andb_true_iff in A as [A B]. eauto.
  - intros (r & L & A & B). exists r. apply map_lookup_filter_Some. cbn. by rewrite A, B.
Qed.

(** What a counted set says about the admitted rows, in total and by workspace. *)
Lemma counted_upper S t d :
  counted S t ->
  (forall id r, db_jobs d !! id = Some r -> admitted r = true -> id ∉ moved -> S !! id = Some (job_WorkspaceID r)) ->
  admitted_count d <= t_active t + Z.of_nat (size moved) /\
  forall ws, admitted_in ws d <= per_workspace (t_perWorkspace t) ws + Z.of_nat (size moved).
Proof.
  intros [A W _ _] F. unfold admitted_count, admitted_in. split.
  - rewrite A. apply size_split. intros id Hid.
    apply admitted_ids_elem in Hid as (r & L & Ad & _). destruct (decide (id ∈ moved)) as [I|I]; [by right|left]. eauto.
  - intros ws. rewrite W. apply size_split. intros id Hid.
    apply admitted_ids_elem in Hid as (r & L & Ad & E). destruct (decide (id ∈ moved)) as [I|I]; [by right|left].
    exists (job_WorkspaceID r). apply map_lookup_filter_Some. split; [eauto|].
    by apply String.eqb_eq in E.
Qed.

Lemma counted_lower S t d :
  counted S t ->
  (forall id ws, S !! id = Some ws ->
     exists r, db_jobs d !! id = Some r /\ admitted r = true /\ job_WorkspaceID r = ws) ->
  t_active t <= admitted_count d /\
  forall ws, per_workspace (t_perWorkspace t) ws <= admitted_in ws d.
Proof.
  intros [A W _ _] F. unfold admitted_count, admitted_in. split.
  - rewrite A. apply inj_le. rewrite <- (size_dom (D := gset Z) S). apply subseteq_size.
    intros id Hid. apply elem_of_dom in Hid as [ws Hws]. destruct (F id ws Hws) as (r & L & Ad & _).
    apply admitted_ids_elem. eauto.
  - intros ws. rewrite W. apply inj_le.
    rewrite <- (size_dom (D := gset Z) (filter _ S)). apply subseteq_size.
    intros id Hid. apply elem_of_dom in Hid as [ws' Hws].
    apply map_lookup_filter_Some in Hws as [Hws E]. cbn in E. subst ws'.
    destruct (F id ws Hws) as (r & L & Ad & E). apply admitted_ids_elem. exists r.
    split; [done|split; [done|]]. by apply String.eqb_eq.
Qed.

Lemma lock_policy_spec :
  triple rely (rely d0) lock_policy (on_ok (fun _ => rely d0)).
Proof.
  unfold lock_policy, CompareAndSwap.
  apply triple_bind_ok with (Mid := fun _ => rely d0).
  - apply triple_wrap. apply triple_cas; [apply _|apply stable_rely|done|done|].
    intros now d row row' R0 L _ Hu. cbn in Hu. injection Hu as <-.
    refine (stable_rely d0 d _ _ R0). split; [|exact (PreOrder_Reflexive (R := follows) d)].
    unfold scheduler_policy. cbn. cbn in L. rewrite L.
    by rewrite lookup_insert_eq.
  - intros [|]; [by apply triple_ret|by apply triple_throw].
Qed.

Lemma load_policy_spec :
  triple rely (rely d0) LoadJobSchedulerPolicy
    (on_ok (fun p d => policy_in_force p d0 /\ rely d0 d)).
Proof.
  unfold LoadJobSchedulerPolicy.
  apply triple_bind_ok with (Mid := fun s d => scheduler_policy d0 = Some (ss_Value s) /\ rely d0 d).
  - apply triple_wrap. apply triple_Get; [apply _|apply stable_rely|done|].
    intros d row R0 L. split; [|done]. rewrite <- (proj1 R0). unfold scheduler_policy.
    cbn in L. by rewrite L.
  - intros s. apply triple_pure. intros Es. apply triple_lift. intros d R0.
    destruct (ParseJobSchedulerPolicy (ss_Value s)) as [p|e] eqn:E; [|done]. cbn.
    split; [|done]. by exists (ss_Value s).
Qed.

Lemma admission_tick_spec pages (resources : option (jobResourceBudget Q)) :
  triple rely (rely d0) (admission_tick pages resources)
    (on_ok (fun r d => (snd r <= jobSchedulerBatchSize /\ exists p, policy_in_force p d0 /\
         bounded p (admitted_count d0) (fun ws => admitted_in ws d0) (fst r)) /\
       admission_inv (fst r) d)).
Proof.
  unfold admission_tick. eapply triple_bind_ok; [apply lock_policy_spec|]. intros [].
  eapply triple_bind_ok; [apply load_policy_spec|]. intros p. apply triple_pure. intros Hp.
  apply triple_bind_ok with (Mid := fun _ => rely d0).
  { apply triple_read_only; [apply _|apply stable_rely|apply read_only_task_clock|by intros [?|?] d]. }
  intros now. eapply triple_bind_ok; [by apply scan_spec|]. intros t. apply triple_exists. intros last.
  apply triple_bind_ok with (Mid := fun _ => scan_inv last (fun _ => True) t).
  { destruct (t_resources t); [|by apply triple_ret].
    apply triple_bind_ok with (Mid := fun _ => scan_inv last (fun _ => True) t);
      [|intros b; by apply triple_ret].
    apply triple_read_only; [apply _|apply stable_scan_inv|apply read_only_retained|by intros [?|?] d]. }
  intros r. set (t1 := t <| t_resources := r |>).
  eapply triple_weaken; [| |apply triple_pure; intros Hb; apply admit_rounds_spec; [exact Hb|]].
  - intros d (R0 & S & C & A & B & F). apply (counted_ext _ _ t1) in C; [|done].
    destruct (counted_lower S t1 d0 C) as [L1 L2]; [intros id ws Hi; by apply (A id ws)|].
    split.
    + split; [apply Z.le_trans with (1 := L1), Z.le_max_l|]. intros ws.
      apply Z.le_trans with (1 := L2 ws), Z.le_max_l.
    + split; [by apply rely_table|]. exists S. split; [done|split].
      * intros j Hj. by apply B.
      * intros id r' L Ad. by apply F.
  - intros [[t' n]|e] d; [|done]. intros [[Hb Hn] Inv]. split; [|done]. split; [done|].
    exists p. done.
  - done.
Qed.
End Scan.


(** *** A concrete tick: two queued jobs, room for one, another session advancing
    the clock between two statements. *)

Definition sample_parent : WorkflowQueue :=
  workflow_queue_zero <| wq_TaskID := "task-1" |> <| wq_Status := StatusRunning |>
    <| wq_RunGeneration := 1 |> <| wq_RunToken := "token" |> <| wq_WorkerID := "worker" |>
    <| wq_LeaseExpiresAt := Some (2000 * Second) |>.

Definition sample_job (id : Z) (key : string) (queued priority : Z) : JobInfo :=
  job_info_zero <| job_ID := id |> <| job_Type := JobDeployInstant |>
    <| job_WorkspaceID := "ws-1" |> <| job_TaskID := "task-1" |> <| job_Status := StatusRunning |>
    <| job_ExecutionKey := Some key |> <| job_RunGeneration := 1 |>
    <| job_SchedulingState := JobSchedulingQueued |> <| job_SchedulingGeneration := 1 |>
    <| job_SchedulingOwnerStatus := StatusRunning |> <| job_SchedulingPriority := priority |>
    <| job_SchedulingQueuedAt := Some (queued * Second) |>.

Definition sample_setting : SystemSetting :=
  Build_SystemSetting SystemSettingTypeWorkflowScheduler
    (RawValue (JObj [("maxConcurrentJobs", JInt 1); ("maxConcurrentJobsPerWorkspace", JInt 1)]%string))
    0 0.

Definition sample_admission_db : Database := {|
  db_clock_micro := 1000 * 1000000;
  db_queue := {["task-1"%string := sample_parent]};
  db_jobs := <[1 := sample_job 1 "key-1" 900 50]> {[2 := sample_job 2 "key-2" 950 50]};
  db_next_job := 3;
  db_sandboxes := ∅;
  db_settings := {[SystemSettingTypeWorkflowScheduler := sample_setting]};
  db_budgets := ∅; db_apps := ∅; db_components := ∅; db_next_component := 1;
  db_artifacts := ∅; db_workspaces := ∅; db_outbox := ∅; db_workflows := ∅ |}.

Definition sample_tick_world : World := {|
  w_db := sample_admission_db;
  w_env := [EnvQuiet; EnvQuiet; EnvWrite (fun d => d <| db_clock_micro := 1001 * 1000000 |>)];
  w_wall := 1000 * Second |}.

Lemma sample_table_ok : job_table_ok sample_admission_db.
Proof.
  split; [reflexivity|]. intros id r L.
  change (<[1 := sample_job 1 "key-1" 900 50]> ({[2 := sample_job 2 "key-2" 950 50]}
            : gmap Z JobInfo) !! id = Some r) in L.
  apply lookup_insert_Some in L as [[<- <-]|[_ L]].
  - split; [reflexivity|split; [split; reflexivity|discriminate]].
  - apply lookup_singleton_Some in L as [<- <-].
    split; [reflexivity|split; [split; reflexivity|discriminate]].
Qed.

