(* ===== verification/AdmissionOrder.v ===== *)
(** The order of admission: which job a tick picks, that it leaves no capacity
    unused, that waiting jobs are not starved, and that its loops end. *)

From S2P Require Import Prelude GoStrings Config Json Quantity Policy Model Store Lease.
From S2P Require Import Budget Scheduler Admission.

Section Order.
Context {Q : Type} `{QuantityOps Q} `{KubernetesJson Q}.
Context (p : JobSchedulerPolicy) (now : Z).

(** ** The preference order *)

(** What the comparison means: higher score first, then the workspace with fewer
    active jobs, then the older request, then the smaller identity; under FIFO
    only the last two. *)
Definition prefers (active : gmap string Z) (a b : JobInfo) : Prop :=
  let by_age := queued_at a < queued_at b \/
                (queued_at a = queued_at b /\ job_ID a < job_ID b) in
  if (Strategy p =? JobSchedulerPriority)%string then
    score p now b < score p now a \/
    (score p now a = score p now b /\
     let wa := per_workspace active (job_WorkspaceID a) in
     let wb := per_workspace active (job_WorkspaceID b) in
     wa < wb \/ (wa = wb /\ by_age))
  else by_age.

Lemma prefer_spec active a b :
  preferScheduledJob a b p now active = true <-> prefers active a b.
Proof.
  unfold preferScheduledJob, prefers. cbv zeta.
  destruct (Strategy p =? JobSchedulerPriority)%string;
    repeat case_goal; bool_to_prop; rewrite ?Z.ltb_lt; lia.
Qed.

Lemma prefers_trans active a b c :
  prefers active a b -> prefers active b c -> prefers active a c.
Proof. unfold prefers. cbv zeta. destruct (_ =? _)%string; lia. Qed.

Lemma prefers_total active a b :
  job_ID a <> job_ID b -> prefers active a b \/ prefers active b a.
Proof. unfold prefers. cbv zeta. destruct (_ =? _)%string; lia. Qed.

Lemma prefers_irrefl active a : ~ prefers active a a.
Proof. unfold prefers. cbv zeta. destruct (_ =? _)%string; lia. Qed.

(** ** One pass over the queue *)

(** A job the pass may choose. *)
Definition admissible (t : tick Q) (job : JobInfo) : bool :=
  eligible p t job && str_empty (quota_reason t job).

Definition better (t : tick Q) (best : option JobInfo) (job : JobInfo) : option JobInfo :=
  match best with
  | Some b => if preferScheduledJob job b p now (t_perWorkspace t) then Some job else best
  | None => Some job
  end.

(** The jobs of a pass keep everything but their reason, and what the pass
    chooses is a fold over the admissible ones. *)
Definition same_but_reason (j j' : JobInfo) : Prop :=
  exists why, j' = j <| job_SchedulingReason := why |>.

Lemma same_refl j : same_but_reason j j.
Proof. exists (job_SchedulingReason j). by destruct j. Qed.

Lemma pick_run t jobs : forall best w q chosen w',
  pick p now t jobs best w = (Ok (q, chosen), w') ->
  Forall2 same_but_reason jobs q /\
  chosen = fold_left (better t) (List.filter (admissible t) jobs) best /\
  (forall j, In j jobs -> admissible t j = true -> In j q).
Proof.
  assert (Keep : forall job job' r best best' w q chosen w', same_but_reason job job' ->
    (admissible t job = true -> job' = job) ->
    best' = fold_left (better t) (List.filter (admissible t) [job]) best ->
    (forall w q chosen w', pick p now t r best' w = (Ok (q, chosen), w') ->
       Forall2 same_but_reason r q /\
       chosen = fold_left (better t) (List.filter (admissible t) r) best' /\
       (forall j, In j r -> admissible t j = true -> In j q)) ->
    (let! rest := pick p now t r best' in ret (job' :: fst rest, snd rest)) w = (Ok (q, chosen), w') ->
    Forall2 same_but_reason (job :: r) q /\
    chosen = fold_left (better t) (List.filter (admissible t) (job :: r)) best /\
    (forall j, In j (job :: r) -> admissible t j = true -> In j q)).
  { intros job job' r best best' w q chosen w' E Ha Eb IH Run. unfold bind in Run.
    destruct (pick p now t r best' w) as [[[q1 c1]|e] w1] eqn:Ep; [|discriminate].
    injection Run as <- <- <-. destruct (IH _ _ _ _ Ep) as (HF & -> & Hin). cbn [fst snd].
    split; [by constructor|split].
    - change (job :: r) with ([job] ++ r)%list. by rewrite List.filter_app, fold_left_app, <- Eb.
    - intros j [<-|Hj] Hadm; [rewrite (Ha Hadm); by left|right; auto]. }
  induction jobs as [|job r IH]; intros best w q chosen w'; cbn [pick].
  { intros [= <- <- <-]. split; [constructor|]. split; [done|]. by intros j []. }
  destruct (eligible p t job) eqn:El; cbn [negb].
  2:{ apply (Keep job job r best best); [apply same_refl|done| |apply IH].
      unfold admissible. cbn. by rewrite El. }
  destruct (str_empty (quota_reason t job)) eqn:Eq; cbn [negb].
  - assert (Ad : admissible t job = true) by (unfold admissible; by rewrite El, Eq).
    destruct best as [b|]; (apply Keep; [apply same_refl|done| |apply IH]);
      cbn; by rewrite Ad.
  - assert (Ad : admissible t job = false) by (unfold admissible; by rewrite El, Eq).
    destruct (_ =? _)%string.
    { apply (Keep job job r best best); [apply same_refl|done| |apply IH]. cbn. by rewrite Ad. }
    intros Run. unfold bind at 1 in Run.
    destruct (ignore_lost _ w) as [[u|e] w1]; [|discriminate].
    revert Run. apply Keep; [by eexists|congruence| |apply IH]. cbn. by rewrite Ad.
Qed.

(** The fold returns the most preferred job, identities being distinct. *)
Definition at_least (t : tick Q) (c j : JobInfo) : Prop :=
  j = c \/ prefers (t_perWorkspace t) c j.

Lemma at_least_trans t a b c : at_least t a b -> at_least t b c -> at_least t a c.
Proof.
  intros [->|H1] [->|H2]; [by left|by right|by right|right; by eapply prefers_trans].
Qed.

Lemma better_spec t best j :
  (forall b, best = Some b -> job_ID j = job_ID b -> j = b) ->
  exists c, better t best j = Some c /\ (best = Some c \/ c = j) /\ at_least t c j /\
    (forall b, best = Some b -> at_least t c b).
Proof.
  intros Inj. destruct best as [b|]; cbn.
  2:{ exists j. split; [done|split; [by right|split; [by left|done]]]. }
  destruct (preferScheduledJob j b p now (t_perWorkspace t)) eqn:E.
  - apply prefer_spec in E. exists j. split; [done|split; [by right|split; [by left|]]].
    intros b' [= <-]. by right.
  - exists b. split; [done|split; [by left|split]].
    + destruct (Z.eq_dec (job_ID j) (job_ID b)) as [Ei|Ne]; [left; by apply Inj|].
      destruct (prefers_total (t_perWorkspace t) j b Ne) as [Hp|Hp]; [|by right].
      apply prefer_spec in Hp. congruence.
    + intros b' [= <-]. by left.
Qed.

Lemma fold_better t l : forall best,
  (forall a b, (best = Some a \/ In a l) -> (best = Some b \/ In b l) ->
     job_ID a = job_ID b -> a = b) ->
  match fold_left (better t) l best with
  | None => best = None /\ l = []
  | Some c => (best = Some c \/ In c l) /\ forall j, best = Some j \/ In j l -> at_least t c j
  end.
Proof.
  induction l as [|j l IH]; intros best Inj; cbn [fold_left].
  { destruct best as [c|]; [|done]. split; [by left|]. intros j [[= ->]|[]]. by left. }
  destruct (better_spec t best j) as (c & -> & Hc & Hj & Hb).
  { intros b Eb. apply Inj; [right; by left|by left]. }
  assert (Back : forall x, Some c = Some x \/ In x l -> best = Some x \/ In x (j :: l)).
  { intros x [[= <-]|Hx]; [destruct Hc as [?| ->]; [by left|right; by left]|right; by right]. }
  specialize (IH (Some c) (fun a b Ha Hb' => Inj a b (Back a Ha) (Back b Hb'))).
  destruct (fold_left (better t) l (Some c)) as [m|]; [|by destruct IH].
  destruct IH as [Hm Hall].
  assert (Hmc : at_least t m c) by (apply Hall; by left).
  split.
  - by apply Back.
  - intros x [Hx|[<-|Hx]].
    + eapply at_least_trans; [exact Hmc|]. by apply Hb.
    + by eapply at_least_trans.
    + apply Hall. by right.
Qed.

(** *** Rounds *)

Definition is_queued (job : JobInfo) : bool :=
  (job_SchedulingState job =? JobSchedulingQueued)%string.

Definition queue_length (t : tick Q) : nat := length (List.filter is_queued (t_queued t)).

Lemma filter_same l l' : Forall2 same_but_reason l l' ->
  length (List.filter is_queued l') = length (List.filter is_queued l).
Proof.
  induction 1 as [|a a' l l' [w ->] _ IH]; [done|]. cbn [List.filter].
  change (is_queued (a <| job_SchedulingReason := w |>)) with (is_queued a).
  destruct (is_queued a); cbn; by rewrite IH.
Qed.

Lemma mark_shrinks id f l j :
  (forall x, is_queued (f x) = false) -> In j l -> job_ID j = id -> is_queued j = true ->
  (length (List.filter is_queued (mark id f l)) < length (List.filter is_queued l))%nat.
Proof.
  intros Hf Hj Hid Hq. unfold mark.
  assert (Le : forall m, (length (List.filter is_queued
      (map (fun job => if (job_ID job =? id)%Z then f job else job) m)) <=
    length (List.filter is_queued m))%nat).
  { induction m as [|x m IH]; cbn; [lia|].
    destruct (job_ID x =? id); [rewrite Hf|]; destruct (is_queued x); cbn; lia. }
  induction l as [|x l IH]; [done|]. cbn. destruct Hj as [->|Hj].
  - rewrite (proj2 (Z.eqb_eq _ _) Hid), Hf, Hq. cbn. specialize (Le l). lia.
  - specialize (IH Hj).
    destruct (job_ID x =? id); [rewrite Hf|]; destruct (is_queued x); cbn; lia.
Qed.

Lemma chosen_in_queue t q chosen w w' c :
  pick p now t (t_queued t) None w = (Ok (q, chosen), w') -> chosen = Some c ->
  In c q /\ admissible t c = true.
Proof.
  intros Run Ec. apply pick_run in Run as (_ & E & Hin). subst chosen.
  assert (Hc : In c (List.filter (admissible t) (t_queued t))).
  { revert Ec. generalize (List.filter (admissible t) (t_queued t)) as l.
    assert (Gen : forall l best, fold_left (better t) l best = Some c -> best = Some c \/ In c l).
    { induction l as [|x l IH]; intros best E; cbn in E; [by left|].
      destruct (IH _ E) as [E'|]; [|right; by right].
      destruct best as [b|]; cbn in E'; [destruct (preferScheduledJob _ _ _ _ _)|];
        injection E' as <-; (by left) || (right; by left). }
    intros l E. destruct (Gen l None (eq_sym (eq_sym E))) as [?|?]; [done|done]. }
  apply filter_In in Hc as [Hc Ha]. auto.
Qed.

(** *** Termination

    Running out of rounds or pages would be an error of its own; [never e m]
    says that no run of [m] ends in [e]. *)

Lemma never_update msg job conditions updates :
  never (Errorf msg) (ignore_lost (updateJobScheduling job conditions updates)).
Proof.
  assert (N : never (Errorf msg) (updateJobScheduling job conditions updates))
    by (unfold updateJobScheduling; never_step).
  intros w w' E. unfold ignore_lost, bind, try in E.
  destruct (updateJobScheduling _ _ _ w) as [[u|e] w1] eqn:Eu; [discriminate|].
  destruct (errors_is _ e); [discriminate|]. injection E as -> ->. by eapply N.
Qed.

Lemma never_pick msg t jobs : forall best, never (Errorf msg) (pick p now t jobs best).
Proof.
  induction jobs as [|job r IH]; intros best; cbn [pick]; [never_step|].
  repeat case_goal; repeat (apply never_bind; [solve [auto | apply never_update]|]);
    never_step; apply never_bind; auto; never_step.
Qed.

Lemma rounds_suffice rounds : forall t n,
  (queue_length t < rounds)%nat -> never (Errorf "out of rounds") (admit_rounds p now rounds t n).
Proof.
  induction rounds as [|rounds IH]; intros t n Hr; [lia|]. cbn [admit_rounds].
  destruct (negb _); [never_step|]. apply never_bind_run; [apply never_pick|].
  intros w [q chosen] w' Ep. cbn [fst snd]. destruct chosen as [best|]; [|never_step].
  destruct (chosen_in_queue _ _ _ _ _ _ Ep eq_refl) as [Hin Ha].
  pose proof (pick_run _ _ _ _ _ _ _ Ep) as (HF & _ & _).
  assert (Hq : is_queued best = true).
  { unfold admissible, eligible in Ha. by apply andb_true_iff in Ha as [[Ha _]%andb_true_iff _]. }
  assert (Le : forall s, s <> JobSchedulingQueued ->
    (length (List.filter is_queued (mark (job_ID best)
       (fun job => job <| job_SchedulingState := s |>) q)) < rounds)%nat).
  { intros s Hs. eapply Nat.lt_le_trans; [eapply mark_shrinks; eauto|].
    - intros x. unfold is_queued. cbn. by apply String.eqb_neq.
    - rewrite (filter_same _ _ HF). unfold queue_length in Hr. lia. }
  apply never_bind; [apply never_update|]. intros [|]; cbn [negb]; apply IH; by apply Le.
Qed.

Lemma never_current msg job parents retain :
  never (Errorf msg) (jobSchedulingCurrent (Q := Q) job now parents retain).
Proof. unfold jobSchedulingCurrent, load_parent. never_step. Qed.

Lemma never_count_job msg job t : never (Errorf msg) (count_job (Q := Q) now job t).
Proof.
  unfold count_job. apply never_bind; [apply never_current|]. intros [v ps].
  destruct (negb v); [|never_step]. apply never_bind; [apply never_update|never_step].
Qed.

Lemma never_visit msg page : msg <> "invalid job scheduler page"%string -> forall last t,
  never (Errorf msg) (visit_page (count_job (Q := Q) now) page last t).
Proof.
  intros Hm. induction page as [|j page IH]; intros last t; cbn [visit_page]; [never_step|].
  destruct (negb _); [|apply never_throw; congruence].
  apply never_bind; [apply never_count_job|auto].
Qed.

Lemma never_scan_page msg states last t : msg <> "invalid job scheduler page"%string ->
  never (Errorf msg) (scan_page (Q := Q) states (count_job now) last t).
Proof.
  intros Hm. unfold scan_page, load_page_parents. apply never_bind; [never_step|]. intros page.
  apply never_bind; [destruct (missing_parents page (t_parents t)); never_step|].
  intros ps. apply never_bind; [by apply never_visit|never_step].
Qed.

(** The identities of a page descend below the previous one. *)
Lemma visit_descends visit page : forall last (t : tick Q) w l t' w',
  visit_page visit page last t w = (Ok (l, t'), w') ->
  (page = [] /\ l = last) \/ (0 < l /\ (last = 0 \/ l < last)).
Proof.
  induction page as [|j page IH]; intros last t w l t' w'; cbn [visit_page].
  { intros [= <- _ _]. by left. }
  destruct (negb _) eqn:G; [|discriminate]. unfold bind.
  destruct (visit j t w) as [[t1|e] w1]; [|discriminate]. intros Run. right.
  apply negb_true_iff, orb_false_iff in G as [G1 G2]. apply Z.leb_gt in G1.
  assert (Hl : last = 0 \/ job_ID j < last).
  { apply andb_false_iff in G2 as [G2|G2]; bool_to_prop; [by left|right; lia]. }
  destruct (IH _ _ _ _ _ _ Run) as [[_ ->]|[? ?]]; lia.
Qed.

Lemma scan_page_descends states visit last (t : tick Q) w l t' w' :
  scan_page states visit last t w = (Ok (Some l, t'), w') -> 0 < l /\ (last = 0 \/ l < last).
Proof.
  unfold scan_page, bind. destruct (wrap_error _ _ w) as [[page|e] w1]; [|discriminate].
  destruct (load_page_parents _ _ w1) as [[ps|e] w2]; [|discriminate].
  destruct (visit_page _ _ _ _ w2) as [[[l1 t1]|e] w3] eqn:Ev; [|discriminate].
  cbn [fst snd]. destruct (Z.ltb_spec (Z.of_nat (length page)) jobSchedulerBatchSize) as [Hlt|Hge];
    [discriminate|]. intros [= <- _ _].
  destruct (visit_descends _ _ _ _ _ _ _ _ Ev) as [[-> _]|Hd]; [|done].
  by unfold jobSchedulerBatchSize in Hge; cbn in Hge.
Qed.

Lemma pages_suffice states fuel : forall last t, 0 < last <= Z.of_nat fuel ->
  never (Errorf "out of pages") (scan_pages (Q := Q) states (count_job now) fuel last t).
Proof.
  induction fuel as [|fuel IH]; intros last t Hl; [lia|]. cbn [scan_pages].
  apply never_bind_run; [by apply never_scan_page|]. intros w [[l|] t'] w' Er; [|never_step].
  apply scan_page_descends in Er. apply IH. lia.
Qed.

Lemma scan_suffices states t :
  never (Errorf "out of pages") (scanScheduledJobs (Q := Q) states (count_job now) t).
Proof.
  unfold scanScheduledJobs. apply never_bind_run; [by apply never_scan_page|].
  intros w [[l|] t'] w' Er; [|never_step]. apply scan_page_descends in Er.
  apply pages_suffice. lia.
Qed.

(** The retained sandboxes: run alone, one page more than there are sandboxes is
    enough. *)
Definition slot_rows (d : Database) (last : string) : list JobSandbox :=
  List.filter (row_matches (Index (job_sandbox_zero <| sb_SlotReserved := true |>))
                 (Filter (sandbox_page last))) (rows d).

Lemma slot_matches last r :
  row_matches (Index (job_sandbox_zero <| sb_SlotReserved := true |>))
    (Filter (sandbox_page last)) r = true <->
  sb_SlotReserved r = true /\ (last = ""%string \/ String.ltb (sb_ID r) last = true).
Proof.
  unfold row_matches. cbn [sandbox_page Filter In_ NotEqual LessThan forallb Index
    Entity_JobSandbox job_sandbox_index].
  change (forallb _ _) with (Bool.eqb (sb_SlotReserved r) true && true) at 1.
  rewrite !andb_true_r, !andb_true_iff, Bool.eqb_true_iff.
  apply and_iff_compat_l. destruct (str_empty last) eqn:E; bool_to_prop; cbn.
  - split; [by left|done].
  - rewrite andb_true_r. split; [by right|]. by intros [?|?].
Qed.

Lemma retained_descends (b : jobResourceBudget Q) page : forall last last' ids,
  retained_parents b last page = Ok (last', ids) ->
  (page = [] /\ last' = last) \/
  ((exists r, In r page /\ sb_ID r = last') /\ last' <> ""%string /\
   (last = ""%string \/ String.ltb last' last = true)).
Proof.
  induction page as [|r page IH]; intros last last' ids; cbn [retained_parents].
  { intros [= <- _]. by left. }
  destruct (_ || _) eqn:G; [discriminate|].
  destruct (retained_parents b (sb_ID r) page) as [[l i]|e] eqn:E; cbn; [|discriminate].
  intros [= <- _]. right. apply orb_false_iff in G as [G1 G2]. apply str_empty_false in G1.
  assert (Hl : last = ""%string \/ String.ltb (sb_ID r) last = true).
  { apply andb_false_iff in G2 as [G2|G2]; apply negb_false_iff in G2; [left|by right].
    by apply str_empty_true. }
  destruct (IH _ _ _ E) as [[-> ->]|((r' & Hr' & Er') & Hne & Hlt)].
  - split; [|done]. exists r. split; [by left|done].
  - split; [exists r'; split; [by right|done]|split; [done|]].
    destruct Hlt as [?|Hlt]; [done|]. destruct Hl as [?|Hl]; [by left|right].
    by eapply string_ltb_trans.
Qed.

Lemma retained_suffice d t pages : forall last (b : jobResourceBudget Q) w',
  (length (slot_rows d last) < pages)%nat ->
  addRetainedSandboxes pages last b (seqw d t) <> (Err (Errorf "out of pages"), w').
Proof.
  induction pages as [|pages IH]; intros last b w' Hlen; [lia|]. cbn [addRetainedSandboxes].
  set (page := select (E := JobSandbox) (Index (job_sandbox_zero <| sb_SlotReserved := true |>))
                 (sandbox_page last) d).
  assert (EL : List_ (E := JobSandbox) (Index (job_sandbox_zero <| sb_SlotReserved := true |>))
                 (sandbox_page last) (seqw d t) = (Ok page, seqw d t)).
  { apply seq_List; [done|]. cbn. by destruct (str_empty last). }
  unfold bind at 1. rewrite (wrap_ok _ _ _ _ _ EL).
  destruct (retained_parents b last page) as [[last' ids]|e] eqn:Er; cbn [lift_result].
  2:{ unfold bind, throw. intros [= -> _]. revert Er. clear.
      generalize page last. induction page0 as [|r l IH]; intros k; cbn; [discriminate|].
      destruct (_ || _); [discriminate|]. specialize (IH (sb_ID r)).
      destruct (retained_parents b (sb_ID r) l) as [[? ?]|?]; cbn; [discriminate|]. done. }
  unfold bind at 1, ret at 1. cbn [snd fst].
  assert (Tail : forall jobs w1, w1 = seqw d t ->
    (if Z.of_nat (length page) <? jobSchedulerBatchSize
     then ret (fold_left (charge_sandbox jobs) page b)
     else addRetainedSandboxes pages last' (fold_left (charge_sandbox jobs) page b)) w1
    <> (Err (Errorf "out of pages"), w')).
  { intros jobs w1 ->.
    destruct (Z.ltb_spec (Z.of_nat (length page)) jobSchedulerBatchSize) as [Hlt|Hge]; [discriminate|].
    apply IH. eapply Nat.lt_le_trans; [|exact (proj1 (Nat.lt_succ_r _ _) Hlen)].
    destruct (retained_descends _ _ _ _ _ Er) as [[E _]|((r & Hr & Hid) & Hne & Hlt)].
    { rewrite E in Hge. by unfold jobSchedulerBatchSize in Hge; cbn in Hge. }
    apply select_matches in Hr as [Hm Hin].
    apply (filter_length_lt _ _ _ r); [|done|done|].
    - intros y _ Hy. apply slot_matches in Hy as [Hs Hy]. apply slot_matches. split; [done|].
      destruct Hy as [?|Hy]; [done|]. destruct Hlt as [?|Hlt]; [by left|right].
      by eapply string_ltb_trans.
    - apply not_true_iff_false. rewrite slot_matches. intros [_ [?|Hy]]; [done|].
      rewrite Hid, string_ltb_irrefl in Hy. done. }
  destruct ids as [|i ids]; [by apply (Tail [] (seqw d t))|].
  unfold bind. erewrite wrap_ok; [|apply seq_List; done]. by apply Tail.
Qed.
End Order.

(** ** Properties *)

(** Identities are those of database rows, so they are distinct. *)
Definition distinct_ids (jobs : list JobInfo) : Prop := NoDup (map job_ID jobs).

Lemma distinct_inj jobs a b :
  distinct_ids jobs -> In a jobs -> In b jobs -> job_ID a = job_ID b -> a = b.
Proof.
  unfold distinct_ids. induction jobs as [|j jobs IH]; [done|]. cbn.
  intros [Hn Nd]%NoDup_cons Ha Hb E.
  assert (Out : forall x, In x jobs -> job_ID x <> job_ID j).
  { intros x Hx Ex. apply Hn, list_elem_of_In. rewrite <- Ex. by apply in_map. }
  destruct Ha as [->|Ha], Hb as [->|Hb]; [done|by destruct (Out b Hb)|by destruct (Out a Ha)|auto].
Qed.

Lemma pick_best {Q : Type} `{QuantityOps Q} `{KubernetesJson Q} p now (t : tick Q) jobs w q chosen w' :
  distinct_ids jobs -> pick p now t jobs None w = (Ok (q, chosen), w') ->
  match chosen with
  | None => forall j, In j jobs -> admissible p t j = false
  | Some c => In c jobs /\ admissible p t c = true /\
      forall j, In j jobs -> admissible p t j = true ->
        j = c \/ preferScheduledJob c j p now (t_perWorkspace t) = true
  end.
Proof.
  intros Inj Run. apply pick_run in Run as (_ & -> & _).
  pose proof (fold_better p now t (List.filter (admissible p t) jobs) None) as Hf.
  destruct (fold_left _ _ None) as [c|].
  - destruct Hf as [[?|Hc] Hall]; [|done|].
    { intros a b [?|Ha] [?|Hb]; try done. apply filter_In in Ha as [Ha _], Hb as [Hb _].
      by apply (distinct_inj jobs). }
    apply filter_In in Hc as [Hc Ac]. split; [done|split; [done|]]. intros j Hj Aj.
    destruct (Hall j) as [->|Hp]; [right; by apply filter_In|by left|right].
    by apply prefer_spec.
  - destruct Hf as [_ Hf].
    { intros a b [?|Ha] [?|Hb]; try done. apply filter_In in Ha as [Ha _], Hb as [Hb _].
      by apply (distinct_inj jobs). }
    intros j Hj. destruct (admissible p t j) eqn:Aj; [|done].
    assert (In j (List.filter (admissible p t) jobs)) as Hin by by apply filter_In.
    by rewrite Hf in Hin.
Qed.

Lemma aging_preferred p now active a b ca cb :
  1 <= AgingSeconds p -> Strategy p = JobSchedulerPriority ->
  ResolveJobSchedulingPriority ca = Ok (job_SchedulingPriority a) ->
  ResolveJobSchedulingPriority cb = Ok (job_SchedulingPriority b) ->
  unix (queued_at a) + 101 * AgingSeconds p <= unix (queued_at b) ->
  unix (queued_at a) + 101 * AgingSeconds p <= unix now ->
  preferScheduledJob a b p now active = true.
Proof.
  intros HA HS Pa Pb Hq Hn. apply prefer_spec. unfold prefers. rewrite HS. cbn zeta.
  change (JobSchedulerPriority =? JobSchedulerPriority)%string with true. cbn iota. left.
  assert (Range : forall c z, ResolveJobSchedulingPriority c = Ok z -> 0 <= z <= 100).
  { intros c z. unfold ResolveJobSchedulingPriority.
    repeat case_goal; intros [= <-]; lia. }
  apply Range in Pa, Pb. unfold score. rewrite !Z.quot_div_nonneg by lia.
  set (A := AgingSeconds p) in *. set (x := unix (queued_at a)) in *.
  set (y := unix (queued_at b)) in *. set (z := unix now) in *.
  assert (H : Z.max 0 (z - y) / A + 101 <= Z.max 0 (z - x) / A); [|lia].
  rewrite <- Z.div_add by lia. apply Z.div_le_mono; lia.
Qed.

(** C27: the tick picks the right job.  A pass over the queue returns, whatever
    happens to the rows meanwhile, a queued job whose workspace has room and which
    the quota does not hold back, and no other such job is preferred to it; it
    returns nothing only when there is no such job.  The preference is a strict
    total order on jobs, and a waiting job cannot starve: under the priority
    strategy, once a job has waited a hundred and one aging periods, no job
    queued that much later is picked before it, whatever their classes. *)
Theorem admission_picks_best {Q : Type} `{QuantityOps Q} `{KubernetesJson Q}
    p now (t : tick Q) jobs w q chosen w' :
  distinct_ids jobs -> pick p now t jobs None w = (Ok (q, chosen), w') ->
  match chosen with
  | None => forall j, In j jobs -> admissible p t j = false
  | Some c => In c jobs /\ admissible p t c = true /\
      forall j, In j jobs -> admissible p t j = true ->
        j = c \/ preferScheduledJob c j p now (t_perWorkspace t) = true
  end /\
  (forall active a b, job_ID a <> job_ID b ->
     preferScheduledJob a b p now active = negb (preferScheduledJob b a p now active)) /\
  (forall active a b c, preferScheduledJob a b p now active = true ->
     preferScheduledJob b c p now active = true -> preferScheduledJob a c p now active = true) /\
  (1 <= AgingSeconds p -> Strategy p = JobSchedulerPriority ->
   forall a ca, ResolveJobSchedulingPriority ca = Ok (job_SchedulingPriority a) ->
   In a jobs -> admissible p t a = true ->
   unix (queued_at a) + 101 * AgingSeconds p <= unix now ->
   (forall b, In b jobs -> b <> a ->
      (exists cb, ResolveJobSchedulingPriority cb = Ok (job_SchedulingPriority b)) /\
      unix (queued_at a) + 101 * AgingSeconds p <= unix (queued_at b)) ->
   chosen = Some a).
Proof.
  intros Inj Run. pose proof (pick_best _ _ _ _ _ _ _ _ Inj Run) as Hb.
  assert (Asym : forall active a b, preferScheduledJob a b p now active = true ->
            preferScheduledJob b a p now active = true -> False).
  { intros active a b H1 H2. apply prefer_spec in H1, H2.
    by eapply prefers_irrefl, prefers_trans. }
  split; [done|split; [|split]].
  - intros active a b Ne. apply eq_true_iff_eq. rewrite negb_true_iff. split.
    + intros H1. apply not_true_iff_false. intros H2. by eapply Asym.
    + intros H2. apply not_true_iff_false in H2. rewrite prefer_spec in H2 |- *.
      destruct (prefers_total p now active a b Ne); tauto.
  - intros active a b c H1 H2. rewrite prefer_spec in *. by eapply prefers_trans.
  - intros HA HS a ca Pa Ha Aa Hn Hall. destruct chosen as [c|]; [|by rewrite Hb in Aa].
    destruct Hb as (Hc & Ac & Hbest). destruct (Hbest a Ha Aa) as [->|Hp]; [done|].
    destruct (decide (job_ID c = job_ID a)) as [E|Ne]; [by rewrite (distinct_inj jobs c a Inj Hc Ha E)|exfalso].
    destruct (Hall c Hc) as [[cb Pc] Hq]; [congruence|].
    eapply Asym; [exact Hp|]. by eapply aging_preferred.
Qed.

(** A tick leaves no capacity unused: when its rounds end, the concurrency
    limit is reached, or the batch is full, or none of the jobs still queued could
    be admitted. *)
Theorem admission_uses_capacity {Q : Type} `{QuantityOps Q} `{KubernetesJson Q}
    p now rounds (t : tick Q) n w t' n' w' :
  distinct_ids (t_queued t) ->
  admit_rounds p now rounds t n w = (Ok (t', n'), w') ->
  MaxConcurrentJobs p <= t_active t' \/ jobSchedulerBatchSize <= n' \/
  forall j, In j (t_queued t') -> admissible p t' j = false.
Proof.
  revert t n w. induction rounds as [|rounds IH]; intros t n w Inj; cbn [admit_rounds]; [done|].
  destruct (negb _) eqn:G.
  { intros [= <- <- _]. apply negb_true_iff, andb_false_iff in G as [G|G]; bool_to_prop; auto. }
  unfold bind at 1. destruct (pick p now t (t_queued t) None w) as [[[q chosen]|e] w1] eqn:Ep;
    [|done]. cbn [fst snd].
  pose proof (pick_best _ _ _ _ _ _ _ _ Inj Ep) as Hb.
  pose proof (pick_run _ _ _ _ _ _ _ _ _ Ep) as (HF & _ & _).
  assert (Ids : map job_ID q = map job_ID (t_queued t)).
  { clear - HF. induction HF as [|a a' l l' [why ->] _ IH]; [done|]. cbn. by rewrite IH. }
  destruct chosen as [best|].
  - assert (D : forall f, (forall j, job_ID (f j) = job_ID j) ->
                  distinct_ids (mark (job_ID best) f q)).
    { intros f Hf. unfold distinct_ids. by rewrite mark_ids, Ids by done. }
    unfold bind. destruct (ignore_lost _ w1) as [[[|]|e] w2]; [| |done]; cbn [negb]; apply IH.
    + refine (D (fun job => job <| job_SchedulingState := JobSchedulingAdmitted |>) _). by intros j.
    + refine (D (fun job => job <| job_SchedulingState := JobSchedulingReleased |>) _). by intros j.
  - intros [= <- <- _]. right. right. cbn. clear - HF Hb.
    induction HF as [|a a' l l' [why ->] _ IHF]; [done|]. intros j [<-|Hj].
    + exact (Hb a (or_introl eq_refl)).
    + apply IHF; [|done]. intros j' Hj'. apply Hb. by right.
Qed.

(** The loops of a tick end.  Under any interleaving the scan never runs out
    of pages, because identities are positive and descend, and the admission
    rounds never run out, because each takes a job out of the queue; run alone,
    the scan of the retained sandboxes ends within one page more than there are
    sandboxes. *)
Theorem tick_terminates {Q : Type} `{QuantityOps Q} `{KubernetesJson Q} p now (t : tick Q) :
  (forall states, never (Errorf "out of pages") (scanScheduledJobs states (count_job now) t)) /\
  (forall n, never (Errorf "out of rounds")
               (admit_rounds p now (S (length (t_queued t))) t n)) /\
  (forall d wall b w', addRetainedSandboxes (S (size (db_sandboxes d))) "" b (seqw d wall) <>
     (Err (Errorf "out of pages"), w')).
Proof.
  split; [|split].
  - intros states. apply scan_suffices.
  - intros n. apply rounds_suffice. unfold queue_length.
    pose proof (filter_length_le is_queued (fun _ => true) (t_queued t) (fun _ _ _ => eq_refl)) as Le.
    assert (E : forall l : list JobInfo, List.filter (fun _ => true) l = l)
      by (induction l as [|x l IH]; cbn; congruence).
    rewrite E in Le. lia.
  - intros d wall b w'. apply retained_suffice. unfold slot_rows.
    eapply Nat.le_lt_trans; [apply filter_length_le with (Q := fun _ => true); done|].
    assert (E : forall l : list JobSandbox, List.filter (fun _ => true) l = l)
      by (induction l as [|x l IH]; cbn; congruence).
    rewrite E. unfold rows. rewrite length_map. cbn. rewrite length_map_to_list. lia.
Qed.

(** *** A concrete queue: an old background job and a young high one. *)

Definition queued_job (id queued priority : Z) : JobInfo :=
  job_info_zero <| job_ID := id |> <| job_WorkspaceID := "ws-1" |>
    <| job_ExecutionKey := Some "key" |> <| job_SchedulingState := JobSchedulingQueued |>
    <| job_SchedulingQueuedAt := Some (queued * Second) |> <| job_SchedulingPriority := priority |>.

Definition sample_queue : list JobInfo := [queued_job 7 9000 100; queued_job 3 100 0].
Definition sample_tick : tick Z := Build_tick 0 ∅ ∅ sample_queue None.
Definition sample_policy : JobSchedulerPolicy := DefaultJobSchedulerPolicy <| MaxConcurrentJobs := 1 |>
  <| MaxConcurrentJobsPerWorkspace := 1 |>.
Definition sample_now : Z := 10000 * Second.
Definition quiet_world : World := seqw (db_empty 1) 0.

Lemma sample_distinct : distinct_ids sample_queue.
Proof. apply (bool_decide_unpack _). vm_compute. reflexivity. Qed.

Lemma admission_picks_best_witness :
  pick sample_policy sample_now sample_tick sample_queue None quiet_world =
    (Ok (sample_queue, Some (queued_job 3 100 0)), quiet_world) /\
  preferScheduledJob (queued_job 3 100 0) (queued_job 7 9000 100) sample_policy sample_now ∅ = true.
Proof.
  assert (E : pick sample_policy sample_now sample_tick sample_queue None quiet_world =
    (Ok (sample_queue, Some (queued_job 3 100 0)), quiet_world)) by (vm_compute; reflexivity).
  split; [exact E|].
  destruct (admission_picks_best _ _ _ _ _ _ _ _ sample_distinct E) as ((_ & _ & Hb) & _).
  destruct (Hb (queued_job 7 9000 100)) as [H|H]; [left; reflexivity|vm_compute; reflexivity| |exact H].
  discriminate H.
Defined.

Lemma admission_uses_capacity_witness :
  exists t' n' w',
    admit_rounds sample_policy sample_now 3 sample_tick 0 quiet_world = (Ok (t', n'), w') /\
    (MaxConcurrentJobs sample_policy <= t_active t' \/ jobSchedulerBatchSize <= n' \/
     forall j, In j (t_queued t') -> admissible sample_policy t' j = false).
Proof.
  assert (Ok_ : is_ok (fst (admit_rounds sample_policy sample_now 3 sample_tick 0 quiet_world)) = true)
    by (vm_compute; reflexivity).
  destruct (admit_rounds sample_policy sample_now 3 sample_tick 0 quiet_world)
    as [[[t' n']|e] w'] eqn:Run; [|discriminate Ok_].
  exists t', n', w'. split; [reflexivity|].
  exact (admission_uses_capacity sample_policy sample_now 3 sample_tick 0 quiet_world t' n' w'
           sample_distinct Run).
Defined.
