(* ===== verification/AdmissionQuota.v ===== *)
(** The declared resource quota under admission: what the rounds of a tick charge
    to a workspace stays within its quota. *)

From S2P Require Import Prelude GoStrings Config Json Quantity Policy Model Store Lease.
From S2P Require Import Budget Scheduler Admission AdmissionOrder.

Section Quota.
Context {Q : Type} `{QuantityLaws Q} `{!KubernetesJson Q}.
Implicit Types b : jobResourceBudget Q.

(** ** Adding up *)

(** What is reserved of a resource in a workspace, and its quota. *)
Definition reserved (b : jobResourceBudget Q) (workspace key : string) : Z :=
  q_val (q_get (used_in b workspace) key).
Definition quota_of (b : jobResourceBudget Q) (key : string) : Z := q_val (q_get (b_quota b) key).

Definition requested (demand : gmap string Q) (key : string) : Z := q_val (q_get demand key).

Lemma q_get_insert (m : gmap string Q) k k' q :
  q_get (<[ k := q ]> m) k' = if decide (k = k') then q else q_get m k'.
Proof.
  unfold q_get. case_decide as E; [subst; by rewrite lookup_insert_eq|by rewrite lookup_insert_ne].
Qed.

Lemma q_get_missing (m : gmap string Q) k : m !! k = None -> q_val (q_get m k) = 0.
Proof. intros E. unfold q_get. rewrite E. apply q_zero_val. Qed.

Lemma add_keys_spec keys demand used unknown :
  NoDup keys ->
  let '(used', unknown') := add_keys keys demand used unknown in
  (forall k, q_val (q_get used' k) =
     q_val (q_get used k) + if decide (k ∈ keys) then requested demand k else 0) /\
  (unknown' = true <-> unknown = true \/ exists k, k ∈ keys /\ demand !! k = None).
Proof.
  revert used unknown. induction keys as [|key keys IH]; intros used unknown Nd; cbn [add_keys].
  { split; [intros k; case_decide as E; [by apply elem_of_nil in E|lia]|].
    split; [auto|]. intros [?|(k & E & _)]; [done|by apply elem_of_nil in E]. }
  apply NoDup_cons in Nd as [Nin Nd]. unfold requested in *.
  destruct (demand !! key) as [q|] eqn:Ed.
  - specialize (IH (<[ key := q_add (q_get used key) q ]> used) unknown Nd).
    destruct (add_keys keys demand _ _) as [used' unknown']. destruct IH as [U K]. split.
    + intros k. rewrite U, q_get_insert. destruct (decide (key = k)) as [<-|Ne].
      * rewrite !decide_False by done. rewrite decide_True by by left.
        rewrite q_add_val. unfold q_get at 3. rewrite Ed. cbn. lia.
      * f_equal. apply decide_ext. rewrite elem_of_cons. naive_solver.
    + rewrite K. setoid_rewrite elem_of_cons. naive_solver.
  - specialize (IH used true Nd). destruct (add_keys keys demand used true) as [used' unknown'].
    destruct IH as [U K]. split.
    + intros k. rewrite U. f_equal. destruct (decide (k = key)) as [->|Ne].
      * rewrite decide_False by done. rewrite decide_True by by left. by rewrite q_get_missing.
      * apply decide_ext. rewrite elem_of_cons. naive_solver.
    + rewrite K. split; [intros _; right; exists key; split; [by left|done]|by left].
Qed.

(** A demand fits when the quota's resources are all declared and available. *)
Lemma reason_keys_empty keys quota demand used :
  reason_keys keys quota demand used = ""%string <->
  forall k, k ∈ keys -> is_Some (demand !! k) /\
    q_val (q_get used k) + requested demand k <= q_val (q_get quota k).
Proof.
  unfold requested. induction keys as [|key keys IH]; cbn [reason_keys].
  { split; [intros _ k E; by apply elem_of_nil in E|done]. }
  setoid_rewrite elem_of_cons. destruct (demand !! key) as [q|] eqn:Ed.
  - rewrite q_gtb_val, q_add_val.
    assert (Eq : q_get demand key = q) by (unfold q_get; by rewrite Ed).
    destruct (Z.ltb_spec (q_val (q_get quota key)) (q_val (q_get used key) + q_val q)).
    + split; [done|]. intros A. destruct (A key (or_introl eq_refl)) as [_ A']. rewrite Eq in A'. lia.
    + rewrite IH. split; [|auto]. intros A k [->|I]; [|auto]. rewrite Ed, Eq. split; [eauto|lia].
  - split; [done|]. intros A. destruct (A key (or_introl eq_refl)) as [[q E] _]. congruence.
Qed.

(** The verdict of [reason] on a demand. *)
Definition fits (b : jobResourceBudget Q) (workspace : string) (demand : option (ResourceList Q)) : Prop :=
  match demand with
  | None => False
  | Some demand => demand = ∅ \/ ~ workspace ∈ b_unknown b /\ forall k, k ∈ b_keys b ->
      is_Some (demand !! k) /\ reserved b workspace k + requested demand k <= quota_of b k
  end.

Lemma reason_empty b workspace demand : reason b workspace demand = ""%string <-> fits b workspace demand.
Proof.
  unfold reason, fits, reserved, quota_of. destruct demand as [demand|]; [|done].
  destruct (size demand =? 0)%nat eqn:E.
  { apply Nat.eqb_eq, map_size_empty_inv in E. split; [by left|done]. }
  apply Nat.eqb_neq in E. assert (demand <> ∅) by (intros ->; by apply E).
  case_bool_decide; [split; [done|intros [?|[? _]]; done]|].
  rewrite reason_keys_empty. split; [by right|]. intros [?|[_ ?]]; done.
Qed.

(** ** What an admission reserves *)

Record same_quota (b b' : jobResourceBudget Q) : Prop := {
  sq_quota : b_quota b' = b_quota b;
  sq_keys : b_keys b' = b_keys b;
  sq_candidates : b_candidates b' = b_candidates b;
  sq_retained : b_retainedExecutions b' = b_retainedExecutions b
}.

(** Reservations grow within the quota only, and not at all in a workspace whose
    reservations are not known. *)
Record within (b b' : jobResourceBudget Q) : Prop := {
  wi_same : same_quota b b';
  wi_quota : forall w k, k ∈ b_keys b -> reserved b' w k = reserved b w k \/ reserved b' w k <= quota_of b k;
  wi_unknown : forall w k, w ∈ b_unknown b -> reserved b' w k = reserved b w k;
  wi_still : b_unknown b ⊆ b_unknown b'
}.

Lemma within_refl b : within b b.
Proof. split; [by split|by left|done|done]. Qed.

Lemma within_trans b1 b2 b3 : within b1 b2 -> within b2 b3 -> within b1 b3.
Proof.
  intros [[Q1 K1 C1 R1] W1 U1 S1] [[Q2 K2 C2 R2] W2 U2 S2]. split.
  - split; congruence.
  - intros w k Hk. destruct (W2 w k) as [E|L]; [congruence| |].
    + rewrite E. by apply W1.
    + right. unfold quota_of in *. by rewrite Q1 in L.
  - intros w k Hw. rewrite U2, U1; auto.
  - set_solver.
Qed.

Lemma used_in_insert b w u w' :
  used_in (b <| b_used := <[ w := u ]> (b_used b) |>) w' = if decide (w = w') then u else used_in b w'.
Proof.
  unfold used_in. cbn. case_decide as E; [subst; by rewrite lookup_insert_eq|by rewrite lookup_insert_ne].
Qed.

Lemma add_within b w demand :
  NoDup (b_keys b) -> (fits b w demand \/ demand = None) -> within b (add b w demand).
Proof.
  intros Nd F. destruct demand as [demand|].
  2:{ split; [by split|by left|done|cbn; set_solver]. }
  destruct F as [F|?]; [|done]. unfold add. destruct (size demand =? 0)%nat eqn:E; [apply within_refl|].
  destruct F as [->|[Nu F]]; [by rewrite map_size_empty in E|].
  pose proof (add_keys_spec (b_keys b) demand (used_in b w) false Nd) as A.
  destruct (add_keys _ _ _ _) as [used unknown]. destruct A as [U K].
  assert (W : within b (b <| b_used := <[ w := used ]> (b_used b) |>)).
  { split; [by split| | |done].
    - intros w' k Hk. unfold reserved. rewrite used_in_insert. case_decide as Ew; [subst w'|by left].
      right. rewrite U, decide_True by done. by apply F.
    - intros w' k Hw. unfold reserved. rewrite used_in_insert. case_decide; [congruence|done]. }
  destruct unknown; [|exact W].
  destruct W as [[? ? ? ?] ? ? ?]. split; [by split|done|done|cbn; set_solver].
Qed.

(** ** The admission rounds *)

(** A job whose demand is checked, or which takes nothing from the quota. *)
Definition accounted (b : jobResourceBudget Q) (job : JobInfo) : Prop :=
  job_Type job = JobCommand \/ job_Type job = JobEval \/
  match default None (b_candidates b !! job_ID job) with Some demand => demand = ∅ | None => True end.

Lemma subtract_empty retained : subtract_retained (Q := Q) retained ∅ = ∅.
Proof. unfold subtract_retained. apply map_imap_empty. Qed.

Lemma candidate_fits p (t : tick Q) b job :
  t_resources t = Some b -> accounted b job -> admissible p t job = true ->
  fits b (job_WorkspaceID job) (candidateDemand b job) \/ candidateDemand b job = None.
Proof.
  intros Eb Ac Ad. unfold admissible in Ad. apply andb_true_iff in Ad as [_ Ad].
  apply str_empty_true in Ad. unfold quota_reason in Ad. rewrite Eb in Ad.
  destruct ((job_Type job =? JobCommand)%string || (job_Type job =? JobEval)%string) eqn:T.
  { left. by apply reason_empty. }
  apply orb_false_iff in T as [T1 T2]. bool_to_prop.
  destruct Ac as [?|[?|Ac]]; [done|done|]. unfold candidateDemand.
  destruct (default None (b_candidates b !! job_ID job)) as [demand|]; [|by right]. subst demand.
  left. destruct (job_ExecutionKey job); [|by left].
  destruct (_ =? 0)%nat; [by left|]. left. apply subtract_empty.
Qed.

Lemma accounted_same b b' job job' :
  same_quota b b' -> job_ID job' = job_ID job -> job_Type job' = job_Type job ->
  accounted b job -> accounted b' job'.
Proof. intros S Ei Et. unfold accounted. by rewrite (sq_candidates _ _ S), Ei, Et. Qed.

Lemma accounted_mark b id f jobs :
  (forall j, job_ID (f j) = job_ID j /\ job_Type (f j) = job_Type j) ->
  (forall j, In j jobs -> accounted b j) -> forall j, In j (mark id f jobs) -> accounted b j.
Proof.
  intros Hf Ha j' (j & Hj & [[_ ->]|[_ ->]])%in_mark; [|auto].
  destruct (Hf j) as [Ei Et]. by apply (accounted_same b b j); [split| | |auto].
Qed.

Lemma accounted_pick b jobs q :
  Forall2 same_but_reason jobs q -> (forall j, In j jobs -> accounted b j) ->
  forall j, In j q -> accounted b j.
Proof.
  induction 1 as [|j j' l l' [why ->] _ IH]; intros Ha x; [done|]. intros [<-|Hx].
  - apply (accounted_same b b j); [by split|done|done|]. apply Ha. by left.
  - apply IH; [|done]. intros y Hy. apply Ha. by right.
Qed.
End Quota.

(** C33: admission respects the declared quota.  Start the rounds of a tick with any
    reservations, on a queue in which every job that declares resources is a command
    or evaluation job, and let other sessions do what they want meanwhile.  Then,
    for every workspace and every resource of the quota, what is reserved at the end
    is what was reserved at the start or is within the quota; and in a workspace
    with a reservation of unknown size nothing more is reserved. *)
Theorem admission_within_quota {Q : Type} `{QuantityLaws Q} `{!KubernetesJson Q}
    p now rounds (t : tick Q) n w t' n' w' b :
  t_resources t = Some b -> NoDup (b_keys b) -> (forall j, In j (t_queued t) -> accounted b j) ->
  admit_rounds p now rounds t n w = (Ok (t', n'), w') ->
  exists b', t_resources t' = Some b' /\
    (forall workspace k, k ∈ b_keys b ->
       reserved b' workspace k = reserved b workspace k \/ reserved b' workspace k <= quota_of b k) /\
    (forall workspace k, workspace ∈ b_unknown b -> reserved b' workspace k = reserved b workspace k).
Proof.
  intros Eb Nd Ac Run. enough (exists b', t_resources t' = Some b' /\ within b b') as (b' & E & []) by eauto.
  revert t n w b Eb Nd Ac Run. induction rounds as [|rounds IH]; intros t n w b Eb Nd Ac;
    cbn [admit_rounds]; [done|].
  destruct (negb _). { intros [= <- <- _]. eauto using within_refl. }
  unfold bind at 1. destruct (pick p now t (t_queued t) None w) as [[[q chosen]|e] w1] eqn:Ep; [|done].
  cbn [fst snd]. pose proof (pick_run _ _ _ _ _ _ _ _ _ Ep) as (HF & _ & _).
  pose proof (accounted_pick _ _ _ HF Ac) as Aq.
  destruct chosen as [best|]; [|intros [= <- <- _]; eauto using within_refl].
  destruct (chosen_in_queue _ _ _ _ _ _ _ _ Ep eq_refl) as [Hin Ad].
  unfold bind. destruct (ignore_lost _ w1) as [[[|]|e] w2]; [| |done]; cbn [negb]; intros Run.
  - pose proof (add_within b (job_WorkspaceID best) (candidateDemand b best) Nd
      (candidate_fits p t b best Eb (Aq best Hin) Ad)) as W.
    set (b1 := add b (job_WorkspaceID best) (candidateDemand b best)) in *.
    destruct (IH (charge (t <| t_queued := q |>) best) (n + 1) w2 b1) as (b' & E' & W').
    + unfold charge. cbn. by rewrite Eb.
    + by rewrite (sq_keys _ _ (wi_same _ _ W)).
    + cbn. refine (accounted_mark b1 (job_ID best) (fun j => j <| job_SchedulingState := _ |>) _ _ _).
      * by intros j.
      * intros j Hj. apply (accounted_same b b1 j); [apply W|done|done|auto].
    + exact Run.
    + eauto using within_trans.
  - refine ((fun Eb' Ac' => IH _ n w2 b Eb' Nd Ac' Run) _ _); [exact Eb|].
    apply (accounted_mark b (job_ID best) (fun j => j <| job_SchedulingState := JobSchedulingReleased |>));
      [by intros j|exact Aq].
Qed.

(** The budget a tick starts with names each resource once, and only resources of
    the given quota. *)
Lemma quota_keys_spec {Q : Type} `{QuantityOps Q} (given : gmap string Q) names : forall quota keys quota' keys',
  quota_keys given names quota keys = Ok (quota', keys') -> NoDup (keys ++ names) ->
  NoDup keys' /\ keys' ⊆ (keys ++ names)%list.
Proof.
  induction names as [|key names IH]; intros quota keys quota' keys'; cbn [quota_keys].
  { intros [= <- <-]. by rewrite app_nil_r. }
  destruct (given !! key) as [q|].
  - destruct (q_sign q <? 0); [done|]. intros E Nd. apply IH in E; rewrite <- app_assoc in *; done.
  - intros E Nd. destruct (IH _ _ _ _ E) as [Nd' S].
    + apply NoDup_app in Nd as (N1 & N2 & N3). apply NoDup_cons in N3 as [_ N3].
      apply NoDup_app. split; [done|split; [|done]]. set_solver.
    + split; [done|]. set_solver.
Qed.

(** ** A quota of two pods *)

Definition quota_job (id : Z) : JobInfo :=
  job_info_zero <| job_ID := id |> <| job_WorkspaceID := "ws-1" |> <| job_Type := JobCommand |>
    <| job_ExecutionKey := Some "key" |> <| job_SchedulingState := JobSchedulingQueued |>
    <| job_SchedulingQueuedAt := Some 0 |>.

Definition quota_budget : jobResourceBudget Z :=
  Build_jobResourceBudget {[ResourcePods := 2]} [ResourcePods] {["ws-1"%string := {[ResourcePods := 1]}]}
    ∅ ∅ ∅ {[ 5 := Some {[ResourcePods := 2]} ]}.

Definition quota_tick : tick Z := Build_tick 1 ∅ ∅ [quota_job 5] (Some quota_budget).

Lemma admission_within_quota_witness :
  exists t' n' w' b', admit_rounds sample_policy 0 2 quota_tick 0 quiet_world = (Ok (t', n'), w') /\
    t_resources t' = Some b' /\ reserved b' "ws-1" ResourcePods <= 2.
Proof.
  assert (Ok_ : is_ok (fst (admit_rounds sample_policy 0 2 quota_tick 0 quiet_world)) = true)
    by (vm_compute; reflexivity).
  destruct (admit_rounds sample_policy 0 2 quota_tick 0 quiet_world) as [[[t' n']|e] w'] eqn:Run;
    [|discriminate Ok_].
  destruct (admission_within_quota sample_policy 0 2 quota_tick 0 quiet_world t' n' w' quota_budget)
    as (b' & E & W & _); [reflexivity|apply NoDup_singleton| |exact Run|].
  - intros j [<-|[]]. left. reflexivity.
  - exists t', n', w', b'. split; [reflexivity|]. split; [exact E|].
    destruct (W "ws-1"%string ResourcePods) as [->|L]; [left|vm_compute; discriminate|exact L].
Defined.
