(* ===== verification/AdmissionGuard.v ===== *)
(** Only a tick admits: every other operation of the scheduler can only shrink
    the set of admitted jobs.  This is what [AdmissionSpec] asks of the other
    sessions. *)

From S2P Require Import Prelude GoStrings Config Json Quantity Policy Model Store Hoare Lease.
From S2P Require Import LeaseProtocol Budget Scheduler Admission AdmissionSpec.

Section Guard.
Context {Q : Type} `{QuantityOps Q} `{KubernetesJson Q}.
Context (strict : bool).

Abbreviation keeps := (guarantees (no_new_admission (fun _ => strict))) (only parsing).

Lemma keeps_read_only {A} (m : M A) : read_only m -> keeps m.
Proof. apply guarantees_read_only. Qed.

Lemma keeps_bind {A B} (m : M A) (k : A -> M B) :
  keeps m -> (forall a, keeps (k a)) -> keeps (bind m k).
Proof. apply guarantees_bind. Qed.

Lemma keeps_try {A} (m : M A) : keeps m -> keeps (try m).
Proof. apply guarantees_try. Qed.

Lemma keeps_wrap {A} msg (m : M A) : keeps m -> keeps (wrap_error msg m).
Proof. apply guarantees_wrap. Qed.

(** A write of one job row. *)
Lemma row_write d id row row' :
  db_jobs d !! id = Some row -> job_ID row' = job_ID row ->
  job_WorkspaceID row' = job_WorkspaceID row -> job_ExecutionKey row' = job_ExecutionKey row ->
  (admitted row' = true -> admitted row = true /\ (strict = true -> same_admission row row')) ->
  no_new_admission (fun _ => strict) d (with_table (<[id := row']> (table d)) d).
Proof.
  intros L I W K A T. split; [|split; [done|]].
  - eapply table_ok_insert; eauto. intros A'. destruct (A A'). by apply (proj2 T id row L).
  - cbn. intros id' r. destruct (decide (id = id')) as [<-|Ne].
    + rewrite lookup_insert_eq. intros [= <-]. left. exists row. auto.
    + rewrite lookup_insert_ne by done. intros Lr. left. exists r.
      split; [done|split; [done|]]. intros A'. split; [done|]. intros _. done.
Qed.

(** Writes to the other tables. *)
Lemma keeps_queue_cas key conditions updates :
  keeps (CompareAndSwapWithConditions (E := WorkflowQueue) key conditions updates).
Proof.
  apply guarantees_cas. intros now d row row' _ _ _.
  exact (PreOrder_Reflexive (R := no_new_admission (fun _ => strict)) d).
Qed.

Lemma keeps_ownership {A} owner (persist : M A) :
  keeps persist -> keeps (WithWorkflowTaskOwnership owner persist).
Proof.
  intros Hp. unfold WithWorkflowTaskOwnership. destruct owner as [o|];
    [|apply keeps_read_only; auto with store].
  destruct (negb _); [|apply keeps_read_only; auto with store].
  apply keeps_bind.
  - apply keeps_read_only. destruct (jobSchedulingTerminal _); [auto with store|].
    apply read_only_bind; [apply read_only_identity|]. intros _.
    destruct (blank _); [apply read_only_required|auto with store].
  - intros _. apply guarantees_transaction. apply keeps_bind.
    + apply keeps_wrap. unfold UpdateTaskFieldsIfConditions.
      destruct (negb _); [apply keeps_queue_cas|apply keeps_read_only; auto with store].
    + intros [|]; [exact Hp|apply keeps_read_only; auto with store].
Qed.

Lemma keeps_owner {A} owner (fn : M A) : keeps fn -> keeps (withJobSchedulingOwner owner fn).
Proof.
  intros Hf. destruct owner; [by apply keeps_ownership|].
  by apply guarantees_transaction.
Qed.

Lemma read_only_by_key owner key : read_only (scheduledJobByExecutionKey owner key).
Proof. unfold scheduledJobByExecutionKey. store_step. Qed.

Lemma read_only_owner owner : read_only (validateJobSchedulingOwner owner).
Proof.
  unfold validateJobSchedulingOwner. destruct owner; [|auto with store].
  destruct (negb _); [|auto with store]. destruct (jobSchedulingTerminal _); [auto with store|].
  apply read_only_bind; [apply read_only_identity|]. store_step.
Qed.

Lemma keeps_update job conditions updates :
  (forall now row row', conds_hold conditions row = true ->
     apply_updates (updates ++ [("update_time"%string, VTime now)]) row = Some row' ->
     job_ID row' = job_ID row /\ job_WorkspaceID row' = job_WorkspaceID row /\
     job_ExecutionKey row' = job_ExecutionKey row /\
     (admitted row' = true -> admitted row = true /\ (strict = true -> same_admission row row'))) ->
  keeps (updateJobScheduling job conditions updates).
Proof.
  intros HU. unfold updateJobScheduling. apply keeps_bind.
  - apply keeps_wrap. apply guarantees_cas. intros now d row row' L Hc Hu.
    destruct (HU _ _ _ Hc Hu) as (I & W & K & A). by eapply row_write.
  - intros [|]; apply keeps_read_only; auto with store.
Qed.

Lemma keeps_release job conditions reason :
  keeps (updateJobScheduling job conditions (released reason)).
Proof.
  apply keeps_update. intros now row row' _ Hu. apply released_row in Hu. by subst row'.
Qed.

Lemma keeps_is_admitted owner key expected :
  keeps (IsJobAdmitted (Q := Q) owner key expected).
Proof.
  unfold IsJobAdmitted. apply keeps_bind; [apply keeps_read_only, read_only_owner|]. intros _.
  apply keeps_owner, keeps_read_only. unfold is_job_admitted.
  repeat (apply read_only_bind; [solve [apply read_only_by_key | auto with store
    | apply read_only_task_clock]|intros ?]).
  destruct (negb _); [|auto with store].
  apply read_only_bind; [apply read_only_current|]. store_step.
Qed.

Lemma keeps_release_job owner key reason expected :
  keeps (ReleaseJobAdmission (Q := Q) owner key reason expected).
Proof.
  unfold ReleaseJobAdmission. apply keeps_bind; [apply keeps_read_only, read_only_owner|]. intros _.
  apply keeps_bind; [apply keeps_read_only; store_step|]. intros o. apply keeps_owner.
  unfold release_job. apply keeps_bind; [apply keeps_read_only, read_only_by_key|]. intros job.
  do 2 (apply keeps_bind; [apply keeps_read_only; auto with store|intros _]).
  destruct (_ =? _)%string; [apply keeps_read_only; auto with store|].
  apply keeps_bind.
  { apply keeps_read_only. destruct (_ && _); [|auto with store].
    apply read_only_bind; [apply read_only_task_clock|auto with store]. }
  intros [|]; [apply keeps_read_only; auto with store|].
  apply keeps_bind; [apply keeps_try, keeps_release|].
  intros [[]|e]; [apply keeps_read_only; auto with store|].
  destruct (negb _); [apply keeps_read_only; auto with store|].
  apply keeps_read_only, read_only_bind; [apply read_only_by_key|]. store_step.
Qed.

Lemma keeps_release_lost owner supplied reason :
  keeps (ReleaseLostJobAdmission (Q := Q) owner supplied reason).
Proof.
  unfold ReleaseLostJobAdmission. destruct owner as [o|]; [|apply keeps_read_only; auto with store].
  apply keeps_bind; [apply keeps_read_only, read_only_owner|]. intros _.
  destruct supplied as [job|]; [|apply keeps_read_only; auto with store].
  destruct (job_ExecutionKey job) as [key|]; [|apply keeps_read_only; auto with store].
  destruct (negb _); [|apply keeps_read_only; auto with store].
  apply keeps_owner. unfold release_lost.
  apply keeps_bind; [apply keeps_read_only, read_only_by_key|]. intros current.
  destruct (_ =? _)%string; [|apply keeps_read_only; auto with store].
  apply keeps_bind; [apply keeps_read_only, read_only_task_clock|]. intros now. cbv zeta.
  destruct (_ && _); [|apply keeps_read_only; auto with store].
  destruct (_ || _); [apply keeps_read_only; auto with store|].
  destruct (_ =? _)%string; [|apply keeps_read_only; auto with store].
  apply keeps_bind; [apply keeps_try, keeps_release|].
  intros [[]|e]; [apply keeps_read_only; auto with store|].
  destruct (negb _); [apply keeps_read_only; auto with store|].
  apply keeps_read_only, read_only_bind; [apply read_only_by_key|]. store_step.
Qed.

Lemma keeps_Add job : admitted job = false -> job_ID job = 0 -> keeps (Add (E := JobInfo) job).
Proof.
  intros Ad I. unfold Add.
  destruct (negb (primary_empty _)); [|apply keeps_read_only; auto with store].
  destruct (negb (str_empty _)); [|apply keeps_read_only; auto with store].
  apply guarantees_statement. intros t d r d'. cbn. rewrite I. cbn.
  set (new := _ <| job_ID := _ |>).
  assert (Refl : no_new_admission (fun _ => strict) d d) by reflexivity.
  destruct (db_jobs d !! db_next_job d) eqn:L; [by intros [= _ <-]|].
  destruct (match job_ExecutionKey job with Some _ => _ | None => _ end); [|by intros [= _ <-]].
  intros [= _ <-] [N T]. split; [|split].
  - split; [cbn; lia|]. cbn. intros id r' Hr.
    destruct (decide (db_next_job d = id)) as [<-|Ne].
    + rewrite lookup_insert_eq in Hr. injection Hr as <-. cbn. split; [done|split; [lia|]].
      intros A. change (admitted job = true) in A. congruence.
    + rewrite lookup_insert_ne in Hr by done. destruct (T id r' Hr) as (? & ? & ?).
      split; [done|split; [lia|done]].
  - cbn. lia.
  - cbn. intros id r' Hr. destruct (decide (db_next_job d = id)) as [<-|Ne].
    + rewrite lookup_insert_eq in Hr. injection Hr as <-. right. split; [lia|exact Ad].
    + rewrite lookup_insert_ne in Hr by done. left. exists r'.
      split; [done|split; [done|]]. intros A. split; [done|]. intros _. done.
Qed.

Lemma enqueue_row recover class priority queuedAt generation status deadline current job now row row' :
  apply_updates (E := JobInfo)
    (enqueue_updates recover class priority queuedAt generation status deadline current job ++
     [("update_time"%string, VTime now)]) row = Some row' ->
  job_ID row' = job_ID row /\ job_WorkspaceID row' = job_WorkspaceID row /\
  job_ExecutionKey row' = job_ExecutionKey row /\ admitted row' = recover.
Proof.
  unfold enqueue_updates, time_val.
  destruct recover, queuedAt, deadline, (str_empty _ && _); cbn; intros [= <-]; done.
Qed.

Lemma keeps_load owner job key :
  admitted job = false -> job_ID job = 0 -> keeps (loadQueuedJobCheckpoint owner job key).
Proof.
  intros Ad I. unfold loadQueuedJobCheckpoint.
  apply keeps_bind; [apply keeps_try, keeps_read_only, read_only_by_key|]. intros found.
  apply keeps_bind.
  { destruct found as [current|e]; [apply keeps_read_only; auto with store|].
    destruct (_ && _); [by apply keeps_wrap, keeps_Add|apply keeps_read_only; auto with store]. }
  intros current. apply keeps_bind; [|intros c; apply keeps_read_only; store_step].
  destruct owner as [o|]; [apply keeps_read_only; auto with store|].
  apply keeps_bind.
  - apply keeps_wrap. apply guarantees_cas. intros now d row row' L _ Hu.
    cbn in Hu. injection Hu as <-. eapply row_write; eauto.
    intros A. split; [exact A|]. intros _. done.
  - intros locked. apply keeps_read_only. store_step.
Qed.

(** A recovered admission is one that is still active. *)
Lemma recovered_is_admitted owner current job status now uid :
  recovered_admission (Q := Q) owner current job status now uid = Ok true ->
  admitted current = true.
Proof.
  unfold recovered_admission. destruct owner; [|discriminate].
  destruct (jobAdmissionCheckpointIdentity current now); [|discriminate].
  destruct (jobAdmissionCheckpointIdentity job now); [|discriminate].
  destruct (_ || _); [discriminate|]. intros [= E]. apply bool_decide_eq_true in E as [i E].
  unfold recoverableJobAdmission in E. destruct (_ || _); [discriminate|].
  unfold admitted. by destruct (job_SchedulingState current =? JobSchedulingAdmitted)%string.
Qed.

Lemma keeps_enqueue owner job deadline uid :
  (forall j, job = Some j -> admitted j = false /\ job_ID j = 0) ->
  (strict = true -> uid = []) ->
  keeps (EnqueueJobForScheduling (Q := Q) owner job deadline uid).
Proof.
  intros Hj Hstrict. unfold EnqueueJobForScheduling.
  destruct (_ <=? _)%nat; [|apply keeps_read_only; auto with store].
  destruct job as [job|]; [|apply keeps_read_only; auto with store].
  destruct (Hj job eq_refl) as [Ad I].
  destruct (job_ExecutionKey job) as [key|]; [|apply keeps_read_only; auto with store].
  destruct (negb _); [|apply keeps_read_only; auto with store].
  apply keeps_bind; [apply keeps_read_only, read_only_owner|]. intros _. apply keeps_owner.
  unfold enqueue_job. apply keeps_bind; [by apply keeps_load|]. intros current.
  apply keeps_bind; [apply keeps_read_only, read_only_task_clock|]. intros now.
  destruct (match owner with Some o => _ | None => _ end) as [generation status].
  destruct (match owner with Some o => _ | None => _ end); [|apply keeps_read_only; auto with store].
  apply keeps_bind; [apply keeps_read_only; auto with store|]. intros _.
  set (decide_recovery := match uid with [] => _ | _ => _ end).
  assert (RO : read_only decide_recovery)
    by (unfold decide_recovery; destruct uid as [|u [|]]; store_step).
  apply guarantees_bind_run; [by apply keeps_read_only|].
  intros w recover w' Hrec.
  assert (Hrecover : recover = true -> strict = false /\ admitted current = true).
  { intros ->. unfold decide_recovery in Hrec. destruct uid as [|u [|u2 us]]; [discriminate| |discriminate].
    destruct strict; [by specialize (Hstrict eq_refl)|]. split; [done|].
    destruct (str_empty u); [discriminate|].
    destruct (recovered_admission _ _ _ _ _ _) as [b|e] eqn:Er; [|discriminate].
    injection Hrec as -> _. by eapply recovered_is_admitted. }
  apply keeps_bind; [apply keeps_read_only; auto with store|]. intros priority. cbv zeta.
  destruct (_ && _); [apply keeps_read_only; auto with store|].
  destruct (_ && _); [apply keeps_read_only; auto with store|].
  apply keeps_bind; [|intros _; apply keeps_read_only; auto with store].
  apply keeps_update. intros u row row' Hc Hu. apply enqueue_row in Hu as (Ei & Ew & Ek & Ea).
  split; [done|split; [done|split; [done|]]]. rewrite Ea. intros Et.
  destruct (Hrecover Et) as [Es Eadm]. split; [|by rewrite Es].
  apply scheduling_conditions in Hc as (_ & _ & _ & _ & Hs & _). unfold admitted in *.
  apply String.eqb_eq in Eadm. rewrite Hs by (rewrite Eadm; discriminate). by rewrite Eadm.
Qed.
End Guard.

(** C30: only a tick admits.  Whatever the other sessions commit meanwhile, as long
    as they admit nothing, enqueueing, polling and releasing a job, alone or in
    any order, never add a job to the admitted ones and never move one to another
    workspace; and unless an enqueue re-attaches a confirmed execution, every job
    that stays admitted is still the same admission.  A re-attached execution
    was admitted before: it keeps its slot, it does not take a new one. *)
Theorem only_ticks_admit {Q : Type} `{QuantityOps Q} `{KubernetesJson Q}
    strict owner job deadline uid key reason expected supplied :
  (forall j, job = Some j -> admitted j = false /\ job_ID j = 0) ->
  (strict = true -> uid = []) ->
  guarantees (no_new_admission (fun _ => strict)) (EnqueueJobForScheduling (Q := Q) owner job deadline uid) /\
  guarantees (no_new_admission (fun _ => strict)) (IsJobAdmitted (Q := Q) owner key expected) /\
  guarantees (no_new_admission (fun _ => strict)) (ReleaseJobAdmission (Q := Q) owner key reason expected) /\
  guarantees (no_new_admission (fun _ => strict)) (ReleaseLostJobAdmission (Q := Q) owner supplied reason).
Proof.
  intros Hj Hs. split; [by apply keeps_enqueue|split; [apply keeps_is_admitted|split]].
  - apply keeps_release_job.
  - apply keeps_release_lost.
Qed.

Lemma only_ticks_admit_witness :
  (forall j, Some (sample_job 0 "key-3" 960 50) = Some j -> admitted j = false /\ job_ID j = 0) /\
  guarantees (no_new_admission (fun _ => true))
    (EnqueueJobForScheduling (Q := Z) (Some sample_parent) (Some (sample_job 0 "key-3" 960 50))
       None []).
Proof.
  assert (Hj : forall j, Some (sample_job 0 "key-3" 960 50) = Some j ->
            admitted j = false /\ job_ID j = 0) by (intros j [= <-]; split; reflexivity).
  split; [exact Hj|].
  apply (only_ticks_admit (Q := Z) true (Some sample_parent) (Some (sample_job 0 "key-3" 960 50))
           None [] "key-3" "done" [] None Hj (fun _ => eq_refl)).
Defined.
