(* ===== verification/Controller.v ===== *)
(** The workflow controller: [pkg/apiserver/event/workflow/controller.go],
    [controller_run.go] and [controller_approval.go].

    One controller runs one task.  It keeps a copy of the task's row, the status it
    last knows to be stored and three flags about persistence; every write of the row
    is a compare-and-swap on its execution identity and that status, and a miss or a
    failure stops the controller.  [Exec] is that state with the world, the run's
    context and the fields of [workflowRun]; [C] is the monad of the controller's
    methods, which return Go errors as values.

    The context can be cancelled from outside between any two statements that look at
    it: [ex_signals] holds what happens before each look.  Starting jobs goes through
    the interface [JobRunner].  The job builder, the workspace manager and the message
    of an error are parameters of the run. *)

From S2P Require Import Prelude GoStrings Config Json Policy Model Store Lease Signals.

(** ** The state of a run *)

Inductive RunEvent :=
  | EvBatch (step priority : Z) (tasks : list JobTask)  (* jobs of a group, as they ended *)
  | EvCleanup (tasks : list JobTask)
  | EvReload (row : WorkflowQueue)
  | EvNotify (stepName : string)
  | EvCallback (status reason : string).

Record Exec := {
  ex_world : World;
  ex_signals : list (option error);  (* what cancels the context, look by look *)
  ex_cause : option error;           (* context.Cause; [None] while not cancelled *)
  (* WorkflowCtl *)
  wc_task : WorkflowQueue;
  wc_persistedTaskStatus : string;
  wc_taskPersistenceStopped : bool;
  wc_taskOwnershipLost : bool;
  wc_taskPersistenceUncertain : bool;
  wc_terminalCallbackOnce : bool;
  wc_terminalReason : string;
  wc_runCancel : bool;               (* registered *)
  (* workflowRun *)
  wr_failureReason : string;
  wr_skipExitAck : bool;
  wr_suppressTerminalCallback : bool;
  ex_log : list RunEvent;            (* what the run did, oldest first *)
}.

#[export] Instance eta_Exec : Settable Exec := fun e =>
  Build_Exec (ex_world e) (ex_signals e) (ex_cause e) (wc_task e) (wc_persistedTaskStatus e)
    (wc_taskPersistenceStopped e) (wc_taskOwnershipLost e) (wc_taskPersistenceUncertain e)
    (wc_terminalCallbackOnce e) (wc_terminalReason e) (wc_runCancel e) (wr_failureReason e)
    (wr_skipExitAck e) (wr_suppressTerminalCallback e) (ex_log e).

Definition C (A : Type) : Type := Exec -> A * Exec.

Definition cret {A} (a : A) : C A := fun e => (a, e).
Definition cbind {A B} (m : C A) (k : A -> C B) : C B := fun e => let '(a, e') := m e in k a e'.
Definition get_exec : C Exec := fun e => (e, e).
Definition modify (f : Exec -> Exec) : C unit := fun e => (tt, f e).
Definition emit (ev : RunEvent) : C unit := modify (fun e => e <| ex_log := (ex_log e ++ [ev])%list |>).

(** A program on the data store. *)
Definition db {A} (m : M A) : C (result A) := fun e =>
  let '(r, w) := m (ex_world e) in (r, e <| ex_world := w |>).

Notation "'do!' x := m 'in' k" := (cbind m (fun x => k))
  (at level 10, x pattern, m at level 100, k at level 200) : eruun_scope.

(** [if stopped, err := m; stopped { return err }] *)
Notation "'stop!' m ; k" :=
  (cbind m (fun s => match s with Some err => cret err | None => k end))
  (at level 10, m at level 99, k at level 200) : eruun_scope.

(** ** The context *)

Definition is_err (target : error) (e : option error) : bool :=
  match e with Some e => errors_is target e | None => false end.

(** [cancel(cause)]: the first cancellation decides; a nil cause is [context.Canceled]. *)
Definition cancel_ctx (cause : option error) (e : Exec) : Exec :=
  match ex_cause e with
  | Some _ => e
  | None => e <| ex_cause := Some (default ContextCanceled cause) |>
  end.

(** [context.Cause(ctx)], which is nil exactly when [ctx.Err()] is. *)
Definition ctx_cause : C (option error) := fun e =>
  let e' := match ex_signals e with
            | [] => e
            | None :: r => e <| ex_signals := r |>
            | Some c :: r => cancel_ctx (Some c) (e <| ex_signals := r |>)
            end in
  (ex_cause e', e').

Definition IsInfrastructureStop : C bool :=
  do! cause := ctx_cause in cret (is_err ErrInfrastructureStop cause).

(** ** domain/service/workflow/workflow_cleanup_jobs.go *)

Definition JobInfoSourceVersionUpdateRemove : string := "version_update_remove".

Definition isVersionUpdateRemoveCleanupJobInfo (jobInfo : JobInfo) : bool :=
  if negb (TrimSpace (job_Type jobInfo) =? JobCleanupResources)%string then false else
  let raw := TrimSpace (job_InternalInfo jobInfo) in
  if str_empty raw then false else
  match (decode! j <- json_parse raw;
         decode! l <- dec_struct j;
         dec_string (json_field "source" l)) with
  | Some source => (source =? JobInfoSourceVersionUpdateRemove)%string
  | None => false
  end.

Definition shouldTerminalizePrecreatedCleanupStatus (status : string) : bool :=
  one_of [""%string; StatusCreated; StatusQueued; StatusWaiting; QueueItemPending] status.

Definition shouldTerminalizePrecreatedCleanupTargetStatus (status : string) : bool :=
  one_of [StatusCancelled; StatusFailed; StatusTimeout; StatusReject] status.

Definition terminalize_precreated (targetStatus reason : string) (now : Z) (jobInfo : JobInfo)
    : M unit :=
  if negb (isVersionUpdateRemoveCleanupJobInfo jobInfo) ||
     negb (shouldTerminalizePrecreatedCleanupStatus (TrimSpace (job_Status jobInfo)))
  then ret tt else
  let! _ := CompareAndSwap (E := JobInfo) (job_ID jobInfo) "status" (CEq (VStr (job_Status jobInfo)))
    [("status", VStr targetStatus); ("end_time", VInt now); ("error", VStr (TrimSpace reason))]%string in
  ret tt.

Definition TerminalizePrecreatedVersionUpdateCleanupJobs (taskID targetStatus reason : string)
    : M unit :=
  let taskID := TrimSpace taskID in
  if str_empty taskID then ret tt else
  let targetStatus := TrimSpace targetStatus in
  if negb (shouldTerminalizePrecreatedCleanupTargetStatus targetStatus) then ret tt else
  let! entities := try (List_ (E := JobInfo) (Index (job_info_zero <| job_TaskID := taskID |>))
    (Build_ListOptions (Build_FilterOptions [("type"%string, [VStr JobCleanupResources])] [] []) 0 0 [])) in
  match entities with
  | Err e => if errors_is ErrRecordNotExist e then ret tt else throw e
  | Ok jobs =>
      let! now := wall_clock in
      for_each (terminalize_precreated targetStatus reason (unix now)) jobs
  end.

(** ** controller.go *)

Definition taskPersistenceCASAttempts : nat := 2.

Definition isWorkflowTerminal (status : string) : bool :=
  (status =? StatusCompleted)%string || (status =? StatusPassed)%string ||
  (status =? StatusFailed)%string || (status =? StatusTimeout)%string ||
  (status =? StatusReject)%string || (status =? StatusCancelled)%string.

Definition workflowTaskExecutionIdentityEqual (left right : WorkflowQueue) : bool :=
  (wq_RunGeneration left =? wq_RunGeneration right) &&
  (wq_RunToken left =? wq_RunToken right)%string && (wq_WorkerID left =? wq_WorkerID right)%string.

Definition workflowTaskPersistenceFieldsEqual (left right : WorkflowQueue) : bool :=
  if negb ((wq_Status left =? wq_Status right)%string && (wq_CurrentStep left =? wq_CurrentStep right) &&
           Bool.eqb (wq_ApprovalPending left) (wq_ApprovalPending right) &&
           (wq_PendingApprovalStep left =? wq_PendingApprovalStep right)%string)
  then false
  else if str_empty (wq_RunToken right) then true
  else workflowTaskExecutionIdentityEqual left right.

(** The row to follow, or [None] when the snapshot is stored. *)
Fixpoint persist_attempts (attempts : nat) (taskSnapshot : WorkflowQueue) (expectedStatus : string)
    (updates : list (string * Val)) : M (option WorkflowQueue) :=
  match attempts with
  | O => throw (Wrapf "compare and swap did not converge" ErrWorkflowTaskPersistenceUncertain)
  | S attempts =>
      let! persisted := try (UpdateTaskFieldsIfOwned (Some taskSnapshot) expectedStatus updates) in
      match persisted with
      | Err e => throw (ErrJoin ErrWorkflowTaskPersistenceUncertain (Wrapf "compare and swap workflow task" e))
      | Ok true => ret None
      | Ok false =>
          let! latest := try (TaskByID (wq_TaskID taskSnapshot)) in
          match latest with
          | Err e => throw (ErrJoin ErrWorkflowTaskPersistenceUncertain
                              (Wrapf "reload workflow task after compare and swap miss" e))
          | Ok latest =>
              if negb (workflowTaskExecutionIdentityEqual latest taskSnapshot) then ret (Some latest)
              else if workflowTaskPersistenceFieldsEqual latest taskSnapshot then ret None
              else if negb (wq_Status latest =? expectedStatus)%string then ret (Some latest)
              else persist_attempts attempts taskSnapshot expectedStatus updates
          end
      end
  end.

Definition persistWorkflowTaskSnapshot := persist_attempts taskPersistenceCASAttempts.

Definition mutateTask (mut : WorkflowQueue -> WorkflowQueue) : C unit :=
  modify (fun e => e <| wc_task := mut (wc_task e) |>).

Definition snapshotTask : C WorkflowQueue := fun e => (wc_task e, e).

Definition resetTaskPersistenceForRun : C unit := modify (fun e =>
  e <| wc_persistedTaskStatus := wq_Status (wc_task e) |> <| wc_taskPersistenceStopped := false |>
    <| wc_taskPersistenceUncertain := false |> <| wc_runCancel := false |>
    <| wc_taskOwnershipLost := false |>).

Definition workflowStopCause (uncertain ownershipLost : bool) : option error :=
  if uncertain || ownershipLost then Some ErrInfrastructureStop else None.

Definition adopt_row (row : option WorkflowQueue) (e : Exec) : Exec :=
  match row with
  | Some row => e <| wc_task := row |> <| wc_persistedTaskStatus := wq_Status row |>
  | None => e
  end.

Definition stopTaskPersistence (authoritativeTask : option WorkflowQueue)
    (uncertain ownershipLost : bool) : C unit := modify (fun e =>
  let e := e <| wc_taskOwnershipLost := wc_taskOwnershipLost e || ownershipLost |> in
  let e :=
    if wc_taskPersistenceStopped e then
      (if wc_taskPersistenceUncertain e && match authoritativeTask with Some _ => true | None => false end
       then (adopt_row authoritativeTask e) <| wc_taskPersistenceUncertain := false |> else e)
    else (adopt_row authoritativeTask e) <| wc_taskPersistenceStopped := true |>
           <| wc_taskPersistenceUncertain := uncertain |> in
  if wc_runCancel e then cancel_ctx (workflowStopCause uncertain (wc_taskOwnershipLost e)) e else e).

(** [(stopped, err)]: [None] while persistence goes on. *)
Definition workflowRunStopResult (e : Exec) : option (option error) :=
  if negb (wc_taskPersistenceStopped e) then None
  else if wc_taskPersistenceUncertain e then Some (Some ErrWorkflowTaskPersistenceUncertain)
  else Some None.

Definition terminalCallbackSuppressed (e : Exec) : bool :=
  wc_taskPersistenceStopped e && (wc_taskPersistenceUncertain e || wc_taskOwnershipLost e).

Definition setTerminalStatus (status reason : string) : C unit := modify (fun e =>
  let task := (wc_task e) <| wq_Status := status |> in
  e <| wc_terminalReason := TrimSpace reason |>
    <| wc_task := if (status =? StatusCancelled)%string
                  then task <| wq_SchedulingReason := TerminalCallbackPendingReason reason |> else task |>).

Definition setCurrentStep (step : Z) : C unit := mutateTask (fun task => task <| wq_CurrentStep := step |>).

Definition shouldTerminalizeSkippedCleanupForWorkflowStatus (status : string) : bool :=
  one_of [StatusCancelled; StatusFailed; StatusTimeout; StatusReject] status.

(** A failure is only logged. *)
Definition terminalizePrecreatedVersionUpdateCleanupJobs (taskID status reason : string) : C unit :=
  if negb (shouldTerminalizeSkippedCleanupForWorkflowStatus status) then cret tt else
  do! _ := db (TerminalizePrecreatedVersionUpdateCleanupJobs taskID status reason) in cret tt.

(** The columns a snapshot is stored in. *)
Definition task_updates (task : WorkflowQueue) : list (string * Val) :=
  ([("status", VStr (wq_Status task)); ("current_step", VInt (wq_CurrentStep task));
   ("approval_pending", VBool (wq_ApprovalPending task));
   ("pending_approval_step", VStr (wq_PendingApprovalStep task))]%string ++
  (if (wq_Status task =? StatusCancelled)%string && IsTerminalCallbackPending (wq_SchedulingReason task)
   then [("scheduling_reason"%string, VStr (wq_SchedulingReason task))] else []))%list.

(** The context was stopped by infrastructure or by losing the lease; [cause] was read
    before [ctx.Err()]. *)
Definition persistence_skipped (cause err : option error) : C bool :=
  match err with
  | None => cret false
  | Some _ =>
      do! infrastructure := IsInfrastructureStop in
      cret (infrastructure || is_err ErrWorkflowLeaseRenewalFailed cause || is_err ErrWorkflowOwnershipLost cause)
  end.

Definition updateWorkflowTask : C unit :=
  do! e := get_exec in
  let taskSnapshot := wc_task e in
  let expectedStatus := wc_persistedTaskStatus e in
  if wc_taskPersistenceStopped e then cret tt else
  do! cause := ctx_cause in
  do! err := ctx_cause in
  do! skip := persistence_skipped cause err in
  if skip : bool then stopTaskPersistence None true false else
  do! authoritativeTask := db (persistWorkflowTaskSnapshot taskSnapshot expectedStatus (task_updates taskSnapshot)) in
  match authoritativeTask with
  | Err _ => stopTaskPersistence None true false
  | Ok (Some row) =>
      stopTaskPersistence (Some row) false (negb (workflowTaskExecutionIdentityEqual row taskSnapshot))
  | Ok None =>
      do! _ := modify (fun e =>
        if negb (wc_taskPersistenceStopped e) && (wc_persistedTaskStatus e =? expectedStatus)%string
        then e <| wc_persistedTaskStatus := wq_Status taskSnapshot |> else e) in
      do! e := get_exec in
      terminalizePrecreatedVersionUpdateCleanupJobs (wq_TaskID taskSnapshot) (wq_Status taskSnapshot)
        (wc_terminalReason e)
  end.

Definition updateWorkflowStatus : C unit :=
  do! _ := mutateTask (fun task => task <| wq_Status := StatusCompleted |>
    <| wq_ApprovalPending := false |> <| wq_PendingApprovalStep := ""%string |>) in
  updateWorkflowTask.

(** ** controller_approval.go *)

Record ApprovalExecution := {
  ap_NotifyURL : string;
  ap_Message : string;
  ap_Method : string;
  ap_Headers : option (gmap string string);
  ap_TimeoutSeconds : Z;
}.

Record StepExecution := {
  se_generationError : option error;
  se_SchedulingClass : string;
  se_Name : string;
  se_Mode : string;
  se_StepType : string;
  se_FailurePolicy : string;
  se_Approval : option ApprovalExecution;
  se_Jobs : option (gmap Z (list JobTask));
}.

#[export] Instance eta_StepExecution : Settable StepExecution := fun s =>
  Build_StepExecution (se_generationError s) (se_SchedulingClass s) (se_Name s) (se_Mode s) (se_StepType s)
    (se_FailurePolicy s) (se_Approval s) (se_Jobs s).

Definition persistApprovalCheckpoint (taskID stepName : string) (stepIndex timeout : Z) : C (result bool) :=
  do! taskSnapshot := snapshotTask in
  db (PersistApprovalCheckpoint (Some (taskSnapshot <| wq_TaskID := taskID |>)) stepName stepIndex timeout).

Definition reloadTaskSnapshot (taskID : string) : C (option error) :=
  do! task := db (TaskByID taskID) in
  match task with
  | Err e => if errors_is ErrRecordNotExist e then cret None else cret (Some e)
  | Ok task =>
      do! _ := mutateTask (fun _ => task) in
      do! _ := emit (EvReload task) in
      cret None
  end.

Definition isApprovalCheckpointPersisted (task : WorkflowQueue) (stepName : string) (stepIndex : Z) : bool :=
  wq_ApprovalPending task && (wq_CurrentStep task =? stepIndex) &&
  (TrimSpace (wq_PendingApprovalStep task) =? TrimSpace stepName)%string &&
  ((wq_Status task =? StatusWaitingApprove)%string || (wq_Status task =? StatusWaiting)%string).

Definition shouldFailOnApprovalCheckpointMiss (task : WorkflowQueue) (stepIndex : Z) : bool :=
  negb (isWorkflowTerminal (wq_Status task)) && negb (wq_ApprovalPending task) &&
  negb (stepIndex <? wq_CurrentStep task) &&
  one_of [StatusRunning; StatusQueued; StatusWaiting] (wq_Status task).

(** The notification job runs on its own and does not touch the task. *)
Definition triggerApprovalNotification (stepExec : StepExecution) (stepName : string) : C unit :=
  match se_Approval stepExec with
  | Some approval => if blank (ap_NotifyURL approval) then cret tt else emit (EvNotify stepName)
  | None => cret tt
  end.

Definition approval_step_name (stepExec : StepExecution) (stepIndex : Z) : string :=
  let stepName := TrimSpace (se_Name stepExec) in
  if str_empty stepName then ("step-" ++ FormatInt (stepIndex + 1) 10)%string else stepName.

Definition approval_timeout (stepExec : StepExecution) : Z :=
  match se_Approval stepExec with
  | Some approval => if 0 <? ap_TimeoutSeconds approval then i64 (ap_TimeoutSeconds approval * Second) else 0
  | None => 0
  end.

Definition pauseAtApprovalStep (stepExec : StepExecution) (stepIndex : Z) : C (result bool) :=
  let stepName := approval_step_name stepExec stepIndex in
  do! task := snapshotTask in
  let taskID := TrimSpace (wq_TaskID task) in
  if str_empty taskID then cret (Err (Errorf "invalid workflow task context for approval checkpoint")) else
  do! persisted := persistApprovalCheckpoint taskID stepName stepIndex (approval_timeout stepExec) in
  match persisted with
  | Err e => cret (Err (Wrapf "persist approval checkpoint" e))
  | Ok false =>
      do! err := reloadTaskSnapshot taskID in
      match err with
      | Some e => cret (Err (Wrapf "reload workflow task snapshot" e))
      | None =>
          do! snapshot := snapshotTask in
          if isApprovalCheckpointPersisted snapshot stepName stepIndex then cret (Ok false)
          else if shouldFailOnApprovalCheckpointMiss snapshot stepIndex
          then cret (Err (Errorf "approval checkpoint cas miss while task still active"))
          else cret (Ok false)
      end
  | Ok true =>
      do! _ := mutateTask (fun task => task <| wq_Status := StatusWaitingApprove |>
        <| wq_CurrentStep := stepIndex |> <| wq_ApprovalPending := true |>
        <| wq_PendingApprovalStep := stepName |>) in
      do! _ := triggerApprovalNotification stepExec stepName in
      cret (Ok true)
  end.

(** ** job_builder_common.go *)

Definition determineStepConcurrency (mode : string) (jobCount sequentialLimit : Z) : Z :=
  if jobCount <=? 0 then 0
  else if IsParallel mode then jobCount
  else
    let sequentialLimit := Z.max 1 sequentialLimit in
    if jobCount <? sequentialLimit then jobCount else sequentialLimit.

Definition sortedPriorities (jobs : gmap Z (list JobTask)) : list Z :=
  merge_sort Z.le (map fst (map_to_list jobs)).

(** ** controller_run.go: verdicts on jobs *)

Definition isJobSuccessStatus (task : JobTask) : bool :=
  one_of [StatusCompleted; StatusSkipped; StatusPassed] (jt_Status task) ||
  one_of [JobDeployScheduled; JobDeployInstant] (jt_JobType task) &&
  one_of [StatusDistributed; StatusQueued; StatusWaiting] (jt_Status task).

Definition isWorkflowFailureCleanupTriggerJob (jobType : string) : bool :=
  one_of [JobDeploy; JobDeployService; JobDeployStore; JobDeployPVC; JobDeployConfigMap;
          JobDeploySecret; JobDeployRoute; JobDeployInstant; JobDeployScheduled] jobType.

Definition shouldCleanupAllOnWorkflowFailure (policy : string) (task : JobTask) : bool :=
  let '(override, ok) := NormalizeJobFailurePolicy (jt_FailurePolicy task) in
  let effectivePolicy := if ok && negb (str_empty override) then override else policy in
  let '(normalized, ok) := NormalizeWorkflowFailurePolicy effectivePolicy in
  if negb ok || negb (normalized =? WorkflowFailurePolicyCleanupAll)%string then false
  else if negb (jt_Status task =? StatusFailed)%string && negb (jt_Status task =? StatusTimeout)%string
  then false
  else isWorkflowFailureCleanupTriggerJob (jt_JobType task).

(** The first element with the property, with its position, which is the identity of
    the pointer. *)
Fixpoint first_from {A} (n : nat) (P : A -> bool) (l : list A) : option (nat * A) :=
  match l with
  | [] => None
  | x :: r => if P x then Some (n, x) else first_from (S n) P r
  end.

Definition workflowFailureCleanupTrigger (policy : string) (tasks : list JobTask) : option (nat * JobTask) :=
  first_from 0 (shouldCleanupAllOnWorkflowFailure policy) tasks.

Definition workflowFailureReason (workflowName : string) (primaryFailure : nat * JobTask)
    (cleanupTrigger : option (nat * JobTask)) : string :=
  let describe (task : JobTask) := (jt_Name task ++ " (status=" ++ jt_Status task ++ ")")%string in
  let reason := ("workflow " ++ workflowName ++ " failed at job " ++ describe (snd primaryFailure))%string in
  match cleanupTrigger with
  | Some (i, task) =>
      if (i =? fst primaryFailure)%nat then reason
      else (reason ++ "; cleanup_all triggered by job " ++ describe task)%string
  | None => reason
  end.

(** [errors.Join] of the failed cleanup jobs. *)
Fixpoint workflowFailureCleanupError (cleanupJobs : list JobTask) : option error :=
  match cleanupJobs with
  | [] => None
  | cleanupJob :: rest =>
      if isJobSuccessStatus cleanupJob then workflowFailureCleanupError rest else
      let message := ("cleanup job " ++ jt_Name cleanupJob ++ " status=" ++ jt_Status cleanupJob)%string in
      let detail := TrimSpace (jt_Error cleanupJob) in
      let err := Errorf (if str_empty detail then message else (message ++ ": " ++ detail)%string) in
      match workflowFailureCleanupError rest with
      | Some e => Some (ErrJoin err e)
      | None => Some err
      end
  end.

(** ** controller_run.go: the run *)

(** What the run calls outside this file: [RunJobs] is [job.RunJobs], given the
    acknowledgement; the rest are the job builder, workspace manager and clean-up
    controller of other packages, [error_text] an error's message, and [range_jobs]
    the order in which Go visits a map. *)
Class WorkflowDeps := {
  RunJobs : list JobTask -> Z -> bool -> C unit -> C (option error * list JobTask);
  prepareWorkspace : WorkflowQueue -> M string;
  GenerateJobTasks : WorkflowQueue -> M (list StepExecution);
  buildWorkflowFailureCleanupJobs : WorkflowQueue -> M (list JobTask);
  saveCleanupInfo : JobTask -> M unit;
  workspaceManager : bool;
  workspaceEnsure : M unit;
  workspaceEnsureEvaluationRunner : M unit;
  evaluationConfigured : bool;
  prepareJobTask : JobTask -> string -> result bool * JobTask;
  range_jobs : gmap Z (list JobTask) -> list Z;
  error_text : error -> string;
}.

Section WorkflowRun.
Context `{WorkflowDeps}.

Definition skip_exit_ack : C unit := modify (fun e => e <| wr_skipExitAck := true |>).
Definition set_failure_reason (reason : string) : C unit :=
  modify (fun e => e <| wr_failureReason := reason |>).

(** [(stopped, err)]; [None] when the run goes on. *)
Definition stopForInfrastructureStop : C (option (option error)) :=
  do! stop := IsInfrastructureStop in
  if stop : bool then
    do! cause := ctx_cause in
    do! _ := modify (fun e => e <| wr_skipExitAck := true |> <| wr_suppressTerminalCallback := true |>) in
    cret (Some cause)
  else cret None.

Definition stopForJobInfrastructure (err : error) : C (option error) :=
  do! _ := modify (fun e => cancel_ctx (Some err)
    (e <| wr_skipExitAck := true |> <| wr_suppressTerminalCallback := true |>
       <| wr_failureReason := error_text err |>)) in
  cret (Some err).

Definition stopAfterPersistence : C (option (option error)) :=
  do! err := ctx_cause in
  do! _ := (match err with Some _ => stopTaskPersistence None true false | None => cret tt end) in
  do! e := get_exec in
  match workflowRunStopResult e with
  | None => cret None
  | Some err =>
      do! _ := skip_exit_ack in
      do! _ := (match err with Some x => set_failure_reason (error_text x) | None => cret tt end) in
      cret (Some err)
  end.

(** A failure before any job of the run: the task fails without a callback. *)
Definition fail_workspace (err : error) : C unit :=
  do! _ := modify (fun e => e <| wr_failureReason := error_text err |> <| wr_suppressTerminalCallback := true |>) in
  mutateTask (fun t => t <| wq_Status := StatusFailed |>).

Fixpoint prepare_tasks (tasks : list JobTask) (appID : string) : list JobTask * option error :=
  match tasks with
  | [] => ([], None)
  | task :: rest =>
      let '(r, task) := prepareJobTask task appID in
      match r with
      | Err e => (task :: rest, Some e)
      | Ok _ => let '(rest, err) := prepare_tasks rest appID in (task :: rest, err)
      end
  end.

Fixpoint prepare_groups (priorities : list Z) (jobs : gmap Z (list JobTask)) (appID : string)
    : gmap Z (list JobTask) * option error :=
  match priorities with
  | [] => (jobs, None)
  | p :: rest =>
      let '(tasks, err) := prepare_tasks (default [] (jobs !! p)) appID in
      let jobs := <[p := tasks]> jobs in
      match err with Some e => (jobs, Some e) | None => prepare_groups rest jobs appID end
  end.

Fixpoint prepare_steps (steps : list StepExecution) (appID : string) : list StepExecution * option error :=
  match steps with
  | [] => ([], None)
  | step :: rest =>
      match se_generationError step, se_Jobs step with
      | None, Some jobs =>
          let '(jobs, err) := prepare_groups (range_jobs jobs) jobs appID in
          let step := step <| se_Jobs := Some jobs |> in
          match err with
          | Some e => (step :: rest, Some e)
          | None => let '(rest, err) := prepare_steps rest appID in (step :: rest, err)
          end
      | _, _ => let '(rest, err) := prepare_steps rest appID in (step :: rest, err)
      end
  end.

(** [deploy, _ := r.prepareJobTask(task, appID)] over the tasks. *)
Definition requires_namespace (tasks : list JobTask) (appID : string) : bool * list JobTask :=
  let prepared := map (fun task => prepareJobTask task appID) tasks in
  (existsb (fun r => match fst r with Ok deploy => deploy | Err _ => false end) prepared, map snd prepared).

Definition ensureWorkspaceForJobs (tasks : list JobTask) (appID : string) : C (result bool * list JobTask) :=
  if negb workspaceManager then cret (Ok false, tasks) else
  let '(requiresNamespace, tasks) := requires_namespace tasks appID in
  if negb requiresNamespace then cret (Ok false, tasks) else
  do! r := db workspaceEnsure in
  match r with
  | Err e => do! _ := fail_workspace e in cret (Err (Wrapf "initialize workspace before deployment" e), tasks)
  | Ok _ => cret (Ok true, tasks)
  end.

Definition needs_evaluation_runner (task : JobTask) : bool :=
  (jt_JobType task =? JobEval)%string &&
  negb (isWorkflowTerminal (jt_Status task) || (jt_Status task =? StatusSkipped)%string).

Definition ensureEvaluationRunner (tasks : list JobTask) : C (option error) :=
  if negb workspaceManager || negb (existsb needs_evaluation_runner tasks) then cret None
  else if negb evaluationConfigured then cret (Some (Errorf "evaluation runner configuration is required"))
  else
    do! r := db workspaceEnsureEvaluationRunner in
    match r with
    | Err e => do! _ := fail_workspace e in cret (Some (Wrapf "initialize evaluation runner" e))
    | Ok _ => cret None
    end.

Definition runWorkflowFailureCleanup : C (option error) :=
  do! task := snapshotTask in
  do! cleanupJobs := db (buildWorkflowFailureCleanupJobs task) in
  match cleanupJobs with
  | Err e => cret (Some e)
  | Ok [] => cret None
  | Ok cleanupJobs =>
      do! (err, cleanupJobs) := RunJobs cleanupJobs 1 false updateWorkflowTask in
      do! _ := emit (EvCleanup cleanupJobs) in
      match err with
      | Some e => cret (Some e)
      | None => cret (workflowFailureCleanupError cleanupJobs)
      end
  end.

(** The end of a run at its first unsuccessful job. *)
Definition abort_at (reason : string) (task : JobTask) : C (option error) :=
  do! _ := setTerminalStatus
    (if (jt_Status task =? StatusCancelled)%string then StatusCancelled else StatusFailed) reason in
  do! e := get_exec in
  do! _ := set_failure_reason (wc_terminalReason e) in
  cret (Some (Errorf reason)).

Definition fail_at (workflowName : string) (cleanupTrigger : option (nat * JobTask))
    (primaryFailure : nat * JobTask) : C (option error) :=
  let reason := workflowFailureReason workflowName primaryFailure cleanupTrigger in
  match cleanupTrigger with
  | None => abort_at reason (snd primaryFailure)
  | Some _ =>
      do! cleanupErr := runWorkflowFailureCleanup in
      stop! stopAfterPersistence;
      match cleanupErr with
      | None => abort_at reason (snd primaryFailure)
      | Some e =>
          if errors_is ErrInfrastructureStop e then stopForJobInfrastructure e
          else abort_at (reason ++ "; cleanup_all failed: " ++ error_text e)%string (snd primaryFailure)
      end
  end.

(** Early return out of the loop over the groups of a step. *)
Definition return_if {A} (m : C (option (option error))) (k : C (option error + A)) : C (option error + A) :=
  do! s := m in match s with Some err => cret (inl err) | None => k end.

Definition run_group (workflowName appID : string) (seqLimit stepIdx : Z) (stepExec : StepExecution)
    (priority : Z) (tasksInPriority : list JobTask) (namespaceReady : bool) : C (option error + bool) :=
  do! (ready, tasks) :=
    (if namespaceReady then cret (Ok true, tasksInPriority)
     else ensureWorkspaceForJobs tasksInPriority appID) in
  match ready with
  | Err e => cret (inl (Some e))
  | Ok namespaceReady =>
      do! err := ensureEvaluationRunner tasks in
      match err with
      | Some e => cret (inl (Some e))
      | None =>
          do! (err, tasks) := RunJobs tasks
            (determineStepConcurrency (se_Mode stepExec) (Z.of_nat (length tasks)) seqLimit)
            (negb (IsParallel (se_Mode stepExec))) updateWorkflowTask in
          do! _ := emit (EvBatch stepIdx priority tasks) in
          match err with
          | Some e => do! r := stopForJobInfrastructure e in cret (inl r)
          | None =>
              return_if stopAfterPersistence (
              return_if stopForInfrastructureStop (
              match first_from 0 (fun task => negb (isJobSuccessStatus task)) tasks with
              | None => cret (inr namespaceReady)
              | Some failure =>
                  do! r := fail_at workflowName
                    (workflowFailureCleanupTrigger (se_FailurePolicy stepExec) tasks) failure in
                  cret (inl r)
              end))
          end
      end
  end.

Fixpoint run_groups (workflowName appID : string) (seqLimit stepIdx : Z) (stepExec : StepExecution)
    (jobs : gmap Z (list JobTask)) (priorities : list Z) (namespaceReady : bool) : C (option error + bool) :=
  match priorities with
  | [] => cret (inr namespaceReady)
  | priority :: rest =>
      match default [] (jobs !! priority) with
      | [] => run_groups workflowName appID seqLimit stepIdx stepExec jobs rest namespaceReady
      | tasks =>
          do! r := run_group workflowName appID seqLimit stepIdx stepExec priority tasks namespaceReady in
          match r with
          | inl err => cret (inl err)
          | inr namespaceReady =>
              run_groups workflowName appID seqLimit stepIdx stepExec jobs rest namespaceReady
          end
      end
  end.

(** The end of a step: the checkpoint is stored before the next one starts. *)
Definition finish_step (stepIdx : Z) : C (option (option error)) :=
  do! stopped := stopForInfrastructureStop in
  match stopped with
  | Some err => cret (Some err)
  | None =>
      do! _ := setCurrentStep (stepIdx + 1) in
      do! _ := updateWorkflowTask in
      stopAfterPersistence
  end.

Definition complete_workflow : C (option error) :=
  stop! stopForInfrastructureStop;
  do! _ := updateWorkflowStatus in
  stop! stopAfterPersistence;
  do! _ := skip_exit_ack in
  cret None.

Definition run_approval (stepExec : StepExecution) (stepIdx : Z) : C (option error) :=
  do! paused := pauseAtApprovalStep stepExec stepIdx in
  match paused with
  | Err e =>
      do! _ := skip_exit_ack in
      do! _ := set_failure_reason (error_text e) in
      cret (Some e)
  | Ok true => cret None
  | Ok false => do! _ := skip_exit_ack in cret None
  end.

Fixpoint run_steps (workflowName appID : string) (seqLimit : Z) (steps : list StepExecution)
    (stepIdx : Z) (namespaceReady : bool) : C (option error) :=
  match steps with
  | [] => complete_workflow
  | stepExec :: rest =>
      stop! stopForInfrastructureStop;
      if (se_StepType stepExec =? "approval")%string then run_approval stepExec stepIdx else
      match se_Jobs stepExec with
      | None =>
          stop! finish_step stepIdx;
          run_steps workflowName appID seqLimit rest (stepIdx + 1) namespaceReady
      | Some jobs =>
          do! r := run_groups workflowName appID seqLimit stepIdx stepExec jobs (sortedPriorities jobs) namespaceReady in
          match r with
          | inl err => cret err
          | inr namespaceReady =>
              stop! finish_step stepIdx;
              run_steps workflowName appID seqLimit rest (stepIdx + 1) namespaceReady
          end
      end
  end.

Fixpoint save_cleanup_infos (tasks : list JobTask) : C (option error) :=
  match tasks with
  | [] => cret None
  | task :: rest =>
      do! r := db (saveCleanupInfo task) in
      match r with Err e => cret (Some e) | Ok _ => save_cleanup_infos rest end
  end.

Definition JobPriorityLow : Z := 20.

Definition run_generation_failure (stepExec : StepExecution) (err : error) : C (option error) :=
  do! saved := save_cleanup_infos (default [] (default ∅ (se_Jobs stepExec) !! JobPriorityLow)) in
  match saved with
  | Some e => stopForJobInfrastructure (Wrapf "persist workflow generation failure" e)
  | None =>
      do! _ := setTerminalStatus StatusFailed (error_text err) in
      do! e := get_exec in
      do! _ := set_failure_reason (wc_terminalReason e) in
      cret (Some err)
  end.

(** [startStep >= len(stepExecutions)] leaves no step and completes at once. *)
Definition runSteps (taskForGeneration : WorkflowQueue) (stepExecutions : list StepExecution)
    (concurrency : Z) : C (option error) :=
  let startStep := Z.max 0 (wq_CurrentStep taskForGeneration) in
  let run := run_steps (wq_WorkflowName taskForGeneration) (wq_AppID taskForGeneration)
               (Z.max 1 concurrency) (drop (Z.to_nat startStep) stepExecutions) startStep false in
  match stepExecutions with
  | [stepExec] =>
      match se_generationError stepExec with
      | Some err => run_generation_failure stepExec err
      | None => run
      end
  | _ => run
  end.

(** Deferred: the last acknowledgement, then the callback. *)
Definition exit_ack : C unit :=
  do! e := get_exec in
  if wr_skipExitAck e then cret tt
  else if (wq_Status (wc_task e) =? StatusWaitingApprove)%string && wq_ApprovalPending (wc_task e) then cret tt
  else updateWorkflowTask.

Definition triggerWorkflowCallbackOnce (status reason : string) : C unit :=
  if negb (isWorkflowTerminal status) then cret tt else
  do! e := get_exec in
  if wc_terminalCallbackOnce e then cret tt else
  do! _ := modify (fun e => e <| wc_terminalCallbackOnce := true |>) in
  let reason :=
    if (status =? StatusCancelled)%string && blank reason && IsTerminalCallbackPending (wq_SchedulingReason (wc_task e))
    then TerminalCallbackReason (wq_SchedulingReason (wc_task e)) else reason in
  emit (EvCallback status reason).

Definition deferred_callback : C unit :=
  do! e := get_exec in
  if wr_suppressTerminalCallback e || terminalCallbackSuppressed e then cret tt
  else triggerWorkflowCallbackOnce (wq_Status (wc_task e)) (wr_failureReason e).

Definition run_jobs_of_task (concurrency : Z) : C (option error) :=
  do! taskForGeneration := snapshotTask in
  do! generated := db (GenerateJobTasks taskForGeneration) in
  match generated with
  | Err e =>
      let runErr := ErrJoin ErrInfrastructureStop (Wrapf "restore workflow job executions" e) in
      do! _ := skip_exit_ack in
      do! _ := set_failure_reason (error_text runErr) in
      cret (Some runErr)
  | Ok stepExecutions =>
      let '(stepExecutions, err) :=
        if workspaceManager then prepare_steps stepExecutions (wq_AppID taskForGeneration)
        else (stepExecutions, None) in
      match err with
      | Some e => do! _ := fail_workspace e in cret (Some e)
      | None => runSteps taskForGeneration stepExecutions concurrency
      end
  end.

Definition run_started (concurrency : Z) : C (option error) :=
  stop! stopForInfrastructureStop;
  do! e := get_exec in
  do! _ := mutateTask (fun task =>
    let task := task <| wq_Status := StatusRunning |> in
    if wq_CreateTime task =? time_zero then task <| wq_CreateTime := w_wall (ex_world e) |> else task) in
  do! _ := updateWorkflowTask in
  stop! stopAfterPersistence;
  stop! stopForInfrastructureStop;
  do! err := run_jobs_of_task concurrency in
  do! _ := exit_ack in
  cret err.

(** [run]: a fresh context and a fresh [workflowRun]. *)
Definition run (concurrency : Z) : C (option error) :=
  do! _ := resetTaskPersistenceForRun in
  do! _ := modify (fun e => e <| wc_runCancel := true |> <| wr_failureReason := ""%string |>
    <| wr_skipExitAck := false |> <| wr_suppressTerminalCallback := false |>) in
  do! err := run_started concurrency in
  do! _ := deferred_callback in
  do! _ := modify (fun e => e <| wc_runCancel := false |>) in
  cret err.

Definition Run (concurrency : Z) : C (option error) :=
  do! task := snapshotTask in
  do! workspaceID := db (prepareWorkspace task) in
  match workspaceID with
  | Err e =>
      do! _ := resetTaskPersistenceForRun in
      do! _ := mutateTask (fun task => task <| wq_Status := StatusFailed |>) in
      do! _ := updateWorkflowTask in
      cret (Some (Wrapf "prepare workflow workspace" e))
  | Ok workspaceID =>
      do! _ := mutateTask (fun task => task <| wq_WorkspaceID := workspaceID |>) in
      run concurrency
  end.
End WorkflowRun.
