(* ===== verification/ControllerSpec.v ===== *)
(** The workflow controller follows its plan.

    The specification of a run is [plan_run]: the batches of jobs a plan allows, in
    order, and how the run ends.  Every execution of [runSteps], whatever other
    sessions do and however the context is cancelled, is one of them, provided the
    job runner reaches the controller's state only through the acknowledgement it is
    given ([JobRunnerLaws]). *)

From S2P Require Import Prelude GoStrings Config Policy Model Store Lease Signals Controller.

(** ** Programs of the controller *)

(** From a state that meets [P], [m] ends in a value and a state that meet [Q]. *)
Definition ends {A} (P : Exec -> Prop) (m : C A) (Q : A -> Exec -> Prop) : Prop :=
  forall e, P e -> Q (fst (m e)) (snd (m e)).

Lemma ends_ret {A} P (a : A) (Q : A -> Exec -> Prop) : (forall e, P e -> Q a e) -> ends P (cret a) Q.
Proof. intros H e. apply H. Qed.

Lemma ends_bind {A B} P (m : C A) (k : A -> C B) Mid (Q : B -> Exec -> Prop) :
  ends P m Mid -> (forall a, ends (Mid a) (k a) Q) -> ends P (cbind m k) Q.
Proof.
  intros Hm Hk e HP. unfold cbind. specialize (Hm e HP). destruct (m e) as [a e']. apply Hk, Hm.
Qed.

Lemma ends_weaken {A} (P P' : Exec -> Prop) (m : C A) (Q Q' : A -> Exec -> Prop) :
  (forall e, P e -> P' e) -> (forall a e, Q' a e -> Q a e) -> ends P' m Q' -> ends P m Q.
Proof. intros H1 H2 H e HP. apply H2, H, H1, HP. Qed.

Lemma ends_if {A} P (c : bool) (m n : C A) Q :
  (c = true -> ends P m Q) -> (c = false -> ends P n Q) -> ends P (if c then m else n) Q.
Proof. destruct c; auto. Qed.

Lemma ends_modify P f (Q : unit -> Exec -> Prop) : (forall e, P e -> Q tt (f e)) -> ends P (modify f) Q.
Proof. intros H e. apply H. Qed.

Lemma ends_get P (Q : Exec -> Exec -> Prop) : (forall e, P e -> Q e e) -> ends P get_exec Q.
Proof. intros H e. apply H. Qed.

(** A program that keeps a preorder from its start to its end. *)
Definition keeps {A} (R : relation Exec) (m : C A) : Prop := forall e, R e (snd (m e)).

Section Keeps.
Context (R : relation Exec) `{!PreOrder R}.

Lemma keeps_ret {A} (a : A) : keeps R (cret a).
Proof. intros e. reflexivity. Qed.

Lemma keeps_get : keeps R get_exec.
Proof. intros e. reflexivity. Qed.

Lemma keeps_cbind {A B} (m : C A) (k : A -> C B) : keeps R m -> (forall a, keeps R (k a)) -> keeps R (cbind m k).
Proof.
  intros Hm Hk e. unfold cbind. specialize (Hm e). destruct (m e) as [a e']. cbn in Hm |- *.
  etransitivity; [exact Hm|apply Hk].
Qed.

Lemma keeps_if {A} (c : bool) (m n : C A) : keeps R m -> keeps R n -> keeps R (if c then m else n).
Proof. by destruct c. Qed.

Lemma keeps_modify f : (forall e, R e (f e)) -> keeps R (modify f).
Proof. intros H e. apply H. Qed.
End Keeps.

(** ** What acknowledging may change *)

(** Time passing outside the controller. *)
Definition outside (W : relation World) (e e' : Exec) : Prop :=
  exists w s c, W (ex_world e) w /\ (forall x, ex_cause e = Some x -> c = Some x) /\
    e' = e <| ex_world := w |> <| ex_signals := s |> <| ex_cause := c |>.

(** The run's own fields stay; the task only changes when persistence stops, and a
    status becomes the stored one only by being the task's. *)
Record acked (e e' : Exec) : Prop := {
  acked_log : ex_log e' = ex_log e;
  acked_reason : wr_failureReason e' = wr_failureReason e;
  acked_skip : wr_skipExitAck e' = wr_skipExitAck e;
  acked_suppress : wr_suppressTerminalCallback e' = wr_suppressTerminalCallback e;
  acked_once : wc_terminalCallbackOnce e' = wc_terminalCallbackOnce e;
  acked_terminal : wc_terminalReason e' = wc_terminalReason e;
  acked_cancel : wc_runCancel e' = wc_runCancel e;
  acked_cause x : ex_cause e = Some x -> ex_cause e' = Some x;
  acked_stopped : wc_taskPersistenceStopped e = true -> wc_taskPersistenceStopped e' = true;
  acked_lost : wc_taskOwnershipLost e = true -> wc_taskOwnershipLost e' = true;
  acked_live : wc_taskPersistenceStopped e' = false ->
    wc_task e' = wc_task e /\ wc_taskOwnershipLost e' = wc_taskOwnershipLost e /\
    wc_taskPersistenceUncertain e' = wc_taskPersistenceUncertain e /\
    (wc_persistedTaskStatus e' = wc_persistedTaskStatus e \/
     wc_persistedTaskStatus e' = wq_Status (wc_task e));
}.

#[export] Instance acked_preorder : PreOrder acked.
Proof.
  split; [by constructor; auto|]. intros a b c [] []. constructor; try congruence; eauto.
  intros S. destruct (acked_live1 S) as (T1 & L1 & U1 & P1).
  destruct (wc_taskPersistenceStopped b) eqn:Sb; [rewrite acked_stopped1 in S; [done|exact eq_refl]|].
  destruct (acked_live0 eq_refl) as (T0 & L0 & U0 & P0). rewrite T0 in *.
  repeat split; try congruence. destruct P1; [destruct P0|]; intuition congruence.
Qed.

Lemma acked_outside W e e' : outside W e e' -> acked e e'.
Proof. intros (w & s & c & _ & M & ->). constructor; cbn; auto. Qed.

(** While persistence goes on, the task acknowledged is the task stored. *)
Definition stored (e : Exec) : Prop :=
  wc_taskPersistenceStopped e = false -> wc_persistedTaskStatus e = wq_Status (wc_task e).

Lemma keeps_acked_outside {A} (m : C A) : (forall e, outside (fun _ _ => True) e (snd (m e))) -> keeps acked m.
Proof. intros H e. eapply acked_outside, H. Qed.

Lemma outside_refl e : outside (fun _ _ => True) e e.
Proof. exists (ex_world e), (ex_signals e), (ex_cause e). repeat split; auto. by destruct e. Qed.

Lemma outside_poll e : outside (fun _ _ => True) e (snd (ctx_cause e)).
Proof.
  exists (ex_world e), (ex_signals (snd (ctx_cause e))), (ex_cause (snd (ctx_cause e))). split; [done|].
  destruct e as [w [|[x|] r] [y|]]; (split; [|reflexivity]); cbn; congruence.
Qed.

Lemma acked_ctx_cause : keeps acked ctx_cause.
Proof. apply keeps_acked_outside, outside_poll. Qed.

Lemma acked_db {A} (m : M A) : keeps acked (db m).
Proof.
  apply keeps_acked_outside. intros e. unfold db. destruct (m (ex_world e)) as [r w].
  exists w, (ex_signals e), (ex_cause e). split; [done|]. split; [auto|]. by destruct e.
Qed.

Create HintDb acked.
#[export] Hint Resolve keeps_ret keeps_get keeps_cbind keeps_if acked_ctx_cause acked_db : acked.

(** Walk through a program that only acknowledges. *)
Ltac acked_tac :=
  repeat match goal with
  | |- keeps acked _ => solve [eauto with acked typeclass_instances]
  | |- keeps acked (cbind _ _) => apply keeps_cbind; [exact acked_preorder| |intros ?]
  | |- keeps acked (if _ then _ else _) => apply keeps_if
  | |- keeps acked (match ?x with _ => _ end) => destruct x
  end.

#[export] Instance outside_preorder W : PreOrder W -> PreOrder (outside W).
Proof.
  intros P. split.
  - intros e. exists (ex_world e), (ex_signals e), (ex_cause e). split; [reflexivity|]. split; [auto|].
    by destruct e.
  - intros e1 e2 e3 (w & s & c & Hw & Hc & ->) (w' & s' & c' & Hw' & Hc' & ->).
    exists w', s', c'. split; [etransitivity; [exact Hw|exact Hw']|]. split; [|by destruct e1].
    intros x X. apply Hc', Hc, X.
Qed.

Definition any_world (w w' : World) : Prop := True.
#[export] Instance any_world_preorder : PreOrder any_world.
Proof. by split. Qed.

Lemma outside_infrastructure : keeps (outside any_world) IsInfrastructureStop.
Proof.
  unfold IsInfrastructureStop. apply keeps_cbind; [apply _|intros e; apply outside_poll|].
  intros a. by apply keeps_ret, _.
Qed.

(** What stopping does: the task may be replaced, the context is cancelled. *)
Lemma stop_persistence_run row uncertain lost e : exists task p u c,
  snd (stopTaskPersistence row uncertain lost e) =
    e <| ex_cause := c |> <| wc_task := task |> <| wc_persistedTaskStatus := p |>
      <| wc_taskPersistenceStopped := true |> <| wc_taskOwnershipLost := wc_taskOwnershipLost e || lost |>
      <| wc_taskPersistenceUncertain := u |> /\
  (forall x, ex_cause e = Some x -> c = Some x) /\
  (task = wc_task e /\ p = wc_persistedTaskStatus e \/ exists r, row = Some r /\ task = r /\ p = wq_Status r) /\
  (wc_taskPersistenceStopped e = false -> u = uncertain /\ (forall r, row = Some r -> task = r /\ p = wq_Status r)) /\
  (wc_taskPersistenceStopped e = true -> wc_taskPersistenceUncertain e = false -> u = false) /\
  (wc_taskPersistenceStopped e = true -> row = None -> u = wc_taskPersistenceUncertain e) /\
  (wc_runCancel e = true -> c <> None).
Proof.
  set (e' := snd _).
  exists (wc_task e'), (wc_persistedTaskStatus e'), (wc_taskPersistenceUncertain e'), (ex_cause e'). subst e'.
  destruct e as [w s cause t p st lo un once tr [|] fr sk su lg], st, un, row as [r|], cause as [x|];
    (split; [reflexivity|]; cbn; intuition (try done; try congruence; eauto)).
Qed.

Lemma stop_persistence_stops row uncertain lost e :
  wc_taskPersistenceStopped (snd (stopTaskPersistence row uncertain lost e)) = true.
Proof. by destruct (stop_persistence_run row uncertain lost e) as (t & p & u & c & -> & _). Qed.

Lemma acked_stop row uncertain lost : keeps acked (stopTaskPersistence row uncertain lost).
Proof.
  intros e. destruct (stop_persistence_run row uncertain lost e) as (t & p & u & c & -> & M & _).
  constructor; cbn; auto; try done. by intros ->.
Qed.
Lemma acked_infrastructure : keeps acked IsInfrastructureStop.
Proof. unfold IsInfrastructureStop. acked_tac. Qed.
#[export] Hint Resolve acked_infrastructure acked_stop : acked.

Lemma outside_skipped cause err : keeps (outside any_world) (persistence_skipped cause err).
Proof.
  destruct err; [|by apply keeps_ret, _]. apply keeps_cbind; [apply _|apply outside_infrastructure|].
  intros a. by apply keeps_ret, _.
Qed.

(** One acknowledgement: nothing when stopped; else persistence stops, or the task is
    the one stored. *)
Lemma update_cases e0 :
  (wc_taskPersistenceStopped e0 = true /\ snd (updateWorkflowTask e0) = e0) \/
  wc_taskPersistenceStopped e0 = false /\ exists e1, outside any_world e0 e1 /\
    ((exists row uncertain lost, snd (updateWorkflowTask e0) = snd (stopTaskPersistence row uncertain lost e1)) \/
     snd (updateWorkflowTask e0) = e1 <| wc_persistedTaskStatus := wq_Status (wc_task e0) |>).
Proof.
  destruct (updateWorkflowTask e0) as [u e'] eqn:E. cbn [snd].
  unfold updateWorkflowTask, get_exec in E. unfold cbind at 1 in E. cbn iota in E.
  destruct (wc_taskPersistenceStopped e0) eqn:S; [left; by injection E|]. right. split; [done|].
  pose proof (outside_poll e0) as O1. unfold cbind at 1 in E. destruct (ctx_cause e0) as [cause e1]. cbn [snd] in O1.
  pose proof (outside_poll e1) as O2. unfold cbind at 1 in E. destruct (ctx_cause e1) as [err e2]. cbn [snd] in O2.
  pose proof (outside_skipped cause err e2) as O3. unfold cbind at 1 in E.
  destruct (persistence_skipped cause err e2) as [skip e3]. cbn [snd] in O3.
  assert (O : outside any_world e0 e3) by (etransitivity; [exact O1|etransitivity; [exact O2|exact O3]]).
  destruct skip; [exists e3; split; [done|left; exists None, true, false; by rewrite E]|].
  unfold cbind at 1, db in E.
  destruct (persistWorkflowTaskSnapshot _ _ _ (ex_world e3)) as [r w].
  assert (O4 : forall w', outside any_world e0 (e3 <| ex_world := w' |>)).
  { intros w'. destruct O as (? & s & c & _ & Hc & ->). exists w', s, c. by split; [|split; [|destruct e0]]. }
  destruct r as [[row|]|x].
  - exists (e3 <| ex_world := w |>). split; [apply O4|left]. eexists _, _, _. by rewrite E.
  - destruct (O4 w) as (w0 & s0 & c0 & _ & _ & E4).
    unfold cbind at 1, modify in E. rewrite E4 in E. cbn [wc_taskPersistenceStopped wc_persistedTaskStatus set] in E.
    rewrite S, String.eqb_refl in E. cbn [negb andb] in E. rewrite <- E4 in E.
    unfold cbind at 1 in E. unfold terminalizePrecreatedVersionUpdateCleanupJobs in E.
    destruct (negb _); [exists (e3 <| ex_world := w |>); split; [apply O4|right; by injection E]|].
    unfold cbind, db, cret in E.
    match type of E with context [TerminalizePrecreatedVersionUpdateCleanupJobs ?a ?b ?c ?d] =>
      destruct (TerminalizePrecreatedVersionUpdateCleanupJobs a b c d) as [r' w'] end.
    exists (e3 <| ex_world := w' |>). split; [apply O4|right]. injection E as <- <-. by destruct e3.
  - exists (e3 <| ex_world := w |>). split; [apply O4|left]. eexists _, _, _. by rewrite E.
Qed.

Lemma acked_update : keeps acked updateWorkflowTask.
Proof.
  intros e. destruct (update_cases e) as [[_ ->]|(S & e1 & O & H)]; [reflexivity|].
  transitivity e1; [eapply acked_outside, O|]. destruct H as [(r & u & l & ->)| ->]; [apply acked_stop|].
  assert (T : wc_task e1 = wc_task e) by (by destruct O as (? & ? & ? & _ & _ & ->)).
  constructor; cbn; auto. rewrite T. auto.
Qed.
#[export] Hint Resolve acked_update : acked.

(** After an acknowledgement the task is the one stored, or persistence has stopped. *)
Lemma stored_update e : stored (snd (updateWorkflowTask e)).
Proof.
  destruct (update_cases e) as [[S ->]|(S & e1 & O & [(r & u & l & ->)| ->])]; intros F.
  - congruence.
  - by rewrite stop_persistence_stops in F.
  - cbn. destruct O as (? & ? & ? & _ & _ & ->). done.
Qed.

(** ** The job runner

    It may do anything outside the controller, and otherwise only acknowledges: a
    relation that holds of both holds of the whole call.  It returns the jobs it got. *)
Class JobRunnerLaws `{WorkflowDeps} (W : relation World) := {
  run_jobs_length tasks n stop ack e : length (snd (fst (RunJobs tasks n stop ack e))) = length tasks;
  run_jobs_acks tasks n stop ack (R : relation Exec) :
    PreOrder R -> keeps R ack -> (forall e e', outside W e e' -> R e e') ->
    keeps R (RunJobs tasks n stop ack);
}.

(** ** The specification *)

Inductive Outcome :=
  | Completed
  | Paused (step : Z)
  | Failed (step : Z) (status : string)
  | Interrupted.

(** A group of jobs that all succeeded. *)
Definition group_done (step : Z) (jobs : gmap Z (list JobTask)) (priority : Z) (ev : RunEvent) : Prop :=
  exists tasks, ev = EvBatch step priority tasks /\
    length tasks = length (default [] (jobs !! priority)) /\
    Forall (fun task => isJobSuccessStatus task = true) tasks.

(** The groups of a step: its priorities with jobs, lowest first. *)
Definition step_groups (jobs : gmap Z (list JobTask)) : list Z :=
  List.filter (fun p => match default [] (jobs !! p) with [] => false | _ => true end) (sortedPriorities jobs).

(** The group a run ends at, with the clean-up it may start. *)
Definition group_fails (step : Z) (stepExec : StepExecution) (jobs : gmap Z (list JobTask)) (priority : Z)
    (status : string) (evs : list RunEvent) : Prop :=
  exists tasks i failure cleanup, evs = (EvBatch step priority tasks :: cleanup)%list /\
    length tasks = length (default [] (jobs !! priority)) /\
    first_from 0 (fun task => negb (isJobSuccessStatus task)) tasks = Some (i, failure) /\
    status = jt_Status failure /\
    (cleanup = [] \/ exists c, cleanup = [EvCleanup c] /\
       workflowFailureCleanupTrigger (se_FailurePolicy stepExec) tasks <> None).

Inductive plan_run : list StepExecution -> Z -> list RunEvent -> Outcome -> Prop :=
  | plan_done i : plan_run [] i [] Completed
  | plan_cut steps i : plan_run steps i [] Interrupted
  | plan_pause s steps i evs :
      se_StepType s = "approval"%string -> evs = [] \/ (exists n, evs = [EvNotify n]) ->
      plan_run (s :: steps) i evs (Paused i)
  | plan_moved s steps i row :
      se_StepType s = "approval"%string -> plan_run (s :: steps) i [EvReload row] Interrupted
  | plan_empty s steps i evs o :
      se_StepType s <> "approval"%string -> se_Jobs s = None ->
      plan_run steps (i + 1) evs o -> plan_run (s :: steps) i evs o
  | plan_step s steps i jobs done evs o :
      se_StepType s <> "approval"%string -> se_Jobs s = Some jobs ->
      Forall2 (group_done i jobs) (step_groups jobs) done ->
      plan_run steps (i + 1) evs o -> plan_run (s :: steps) i (done ++ evs) o
  | plan_fail s steps i jobs before p after done evs status :
      se_StepType s <> "approval"%string -> se_Jobs s = Some jobs ->
      step_groups jobs = (before ++ p :: after)%list ->
      Forall2 (group_done i jobs) before done -> group_fails i s jobs p status evs ->
      plan_run (s :: steps) i (done ++ evs) (Failed i status)
  | plan_interrupted s steps i jobs before after done evs :
      se_StepType s <> "approval"%string -> se_Jobs s = Some jobs ->
      step_groups jobs = (before ++ after)%list ->
      Forall2 (group_done i jobs) before done ->
      evs = [] \/ (exists p rest tasks cleanup, after = (p :: rest)%list /\
        evs = (EvBatch i p tasks :: cleanup)%list /\ (cleanup = [] \/ exists c, cleanup = [EvCleanup c])) ->
      plan_run (s :: steps) i (done ++ evs) Interrupted.

(** What the state and the error say of an outcome.  [origin] is the status the run
    started with. *)
Definition outcome_state (origin : string) (last : Z) (o : Outcome) (err : option error) (e : Exec) : Prop :=
  match o with
  | Completed =>
      err = None /\ wc_taskPersistenceStopped e = false /\ wq_Status (wc_task e) = StatusCompleted /\
      wc_persistedTaskStatus e = StatusCompleted /\ wq_CurrentStep (wc_task e) = last /\
      wq_ApprovalPending (wc_task e) = false
  | Paused i =>
      err = None /\ wc_taskPersistenceStopped e = false /\ wq_Status (wc_task e) = StatusWaitingApprove /\
      wq_ApprovalPending (wc_task e) = true /\ wq_CurrentStep (wc_task e) = i
  | Failed i status =>
      err <> None /\ wc_taskPersistenceStopped e = false /\
      wq_Status (wc_task e) = (if (status =? StatusCancelled)%string then StatusCancelled else StatusFailed) /\
      wc_persistedTaskStatus e = origin /\ wq_CurrentStep (wc_task e) = i /\ wr_skipExitAck e = false
  | Interrupted =>
      (err = None -> wc_taskPersistenceStopped e = true \/ wr_skipExitAck e = true) /\
      (wc_taskPersistenceStopped e = false -> wc_persistedTaskStatus e = origin)
  end.

(** ** Every run is a run of the plan *)

Section Follows.
Context `{JobRunnerLaws W}.
Context (origin : string).

(** Persistence goes on, the task is at step [i] and [L] is the log. *)
Record live (i : Z) (L : list RunEvent) (e : Exec) : Prop := {
  live_running : wc_taskPersistenceStopped e = false;
  live_persisted : wc_persistedTaskStatus e = origin;
  live_status : wq_Status (wc_task e) = origin;
  live_step : wq_CurrentStep (wc_task e) = i;
  live_log : ex_log e = L;
  live_skip : wr_skipExitAck e = false;
}.

(** The same unless persistence has stopped. *)
Definition maybe (i : Z) (L : list RunEvent) (e : Exec) : Prop :=
  ex_log e = L /\ (wc_taskPersistenceStopped e = false -> live i L e).

Lemma live_maybe i L e : live i L e -> maybe i L e.
Proof. intros X. split; [apply X|auto]. Qed.

Lemma acked_maybe i L e e' : maybe i L e -> acked e e' -> maybe i L e'.
Proof.
  intros [Hl Hm] A. destruct A. split; [congruence|]. intros S.
  destruct (wc_taskPersistenceStopped e); [by rewrite acked_stopped0 in S|].
  destruct (Hm eq_refl), (acked_live0 S) as (T & _ & _ & P).
  constructor; rewrite ?T; try congruence; destruct P; try congruence.
Qed.

Lemma maybe_acked {A} i L (m : C A) : keeps acked m -> ends (maybe i L) m (fun _ => maybe i L).
Proof. intros K e Hm. eapply acked_maybe; [exact Hm|apply K]. Qed.

Lemma live_acked {A} i L (m : C A) : keeps acked m -> ends (live i L) m (fun _ => maybe i L).
Proof. intros K. eapply ends_weaken; [apply live_maybe|intros ? ? Hq; exact Hq|by apply maybe_acked]. Qed.

Lemma live_outside {A} i L (m : C A) : keeps (outside any_world) m -> ends (live i L) m (fun _ => live i L).
Proof. intros K e []. destruct (K e) as (w & s & c & _ & _ & ->). by constructor. Qed.

(** An interrupted end. *)
Definition cut (L : list RunEvent) (err : option error) (e : Exec) : Prop :=
  ex_log e = L /\ outcome_state origin 0 Interrupted err e.

Lemma cut_maybe i L err e :
  maybe i L e -> (err = None -> wc_taskPersistenceStopped e = true \/ wr_skipExitAck e = true) -> cut L err e.
Proof. intros [Hl Hm] E. split; [done|]. split; [done|]. intros S. apply (Hm S). Qed.

(** A look at the context returns its cause, which never changes once there is one. *)
Lemma ends_poll i L : ends (live i L) ctx_cause (fun c e => live i L e /\ ex_cause e = c).
Proof. intros e Hl. split; [|done]. exact (live_outside i L ctx_cause outside_poll e Hl). Qed.

Lemma ends_poll_again i L c :
  ends (fun e => live i L e /\ ex_cause e = Some c) ctx_cause (fun c' e => live i L e /\ c' = Some c).
Proof.
  intros e [Hl X]. split; [exact (live_outside i L ctx_cause outside_poll e Hl)|].
  destruct (outside_poll e) as (? & ? & c' & _ & Hc & E).
  change (fst (ctx_cause e)) with (ex_cause (snd (ctx_cause e))). rewrite E. cbn. by apply Hc.
Qed.

Lemma ends_infrastructure i L :
  ends (live i L) stopForInfrastructureStop
    (fun s e => match s with None => live i L e | Some err => cut L err e end).
Proof.
  unfold stopForInfrastructureStop, IsInfrastructureStop.
  eapply ends_bind with (Mid := fun stop e => live i L e /\ (stop = true -> exists c, ex_cause e = Some c)).
  { eapply ends_bind; [apply ends_poll|]. intros c. apply ends_ret. intros e [Hl X]. split; [done|].
    destruct c; [by eauto|done]. }
  intros stop. destruct stop; [|by apply ends_ret; intros e []].
  intros e [Hl X]. destruct (X eq_refl) as [c Xc]. revert e Hl Xc X. intros e Hl Xc _.
  assert (E : ends (fun e => live i L e /\ ex_cause e = Some c)
    (do! cause := ctx_cause in
     do! _ := modify (fun e => e <| wr_skipExitAck := true |> <| wr_suppressTerminalCallback := true |>) in
     cret (Some cause))
    (fun s e => match s with None => live i L e | Some err => cut L err e end)).
  { eapply ends_bind; [apply ends_poll_again|]. intros c'.
    eapply ends_bind with (Mid := fun _ e => cut L c' e); [|intros u; by apply ends_ret].
    apply ends_modify. intros e' [[] ->]. split; [done|]. by split. }
  apply E. auto.
Qed.

Lemma ends_after i L :
  ends (maybe i L) stopAfterPersistence
    (fun s e => match s with
                | None => live i L e
                | Some err => wc_taskPersistenceStopped e = true /\ cut L err e end).
Proof.
  unfold stopAfterPersistence.
  eapply ends_bind; [apply maybe_acked, acked_ctx_cause|]. intros err.
  eapply ends_bind; [apply (maybe_acked i L)|].
  { destruct err; [apply acked_stop|by apply keeps_ret, _]. }
  intros ?. eapply ends_bind; [apply ends_get with (Q := fun a e => a = e /\ maybe i L e); auto|].
  intros a1 e [-> Hm]. unfold workflowRunStopResult.
  destruct (wc_taskPersistenceStopped e) eqn:S; cbn [negb]; [|by apply Hm].
  unfold cbind, skip_exit_ack, set_failure_reason, modify, cret.
  destruct Hm as [Hl Hm], (wc_taskPersistenceUncertain e); cbn;
    (split; [done|split; [done|split; cbn; [by auto|by rewrite S]]]).
Qed.

Lemma ends_finish i L :
  ends (live i L) (finish_step i)
    (fun s e => match s with None => live (i + 1) L e | Some err => cut L err e end).
Proof.
  unfold finish_step. eapply ends_bind; [apply ends_infrastructure|]. intros [err|]; [by apply ends_ret|].
  eapply ends_bind with (Mid := fun _ => live (i + 1) L).
  { intros e []. by constructor. }
  intros ?. eapply ends_bind; [apply live_acked, acked_update|]. intros ?.
  eapply ends_weaken; [| |apply ends_after]; [done|]. intros [err|] e; [by intros []|done].
Qed.

Lemma ends_complete i L :
  ends (live i L) complete_workflow
    (fun err e => ex_log e = L /\ (outcome_state origin i Completed err e \/ outcome_state origin i Interrupted err e)).
Proof.
  unfold complete_workflow. eapply ends_bind; [apply ends_infrastructure|]. intros [err|].
  { apply ends_ret. intros e [Hl Hc]. auto. }
  set (Q := fun e : Exec => ex_log e = L /\ (wc_taskPersistenceStopped e = false ->
    wq_Status (wc_task e) = StatusCompleted /\ wq_ApprovalPending (wc_task e) = false /\
    wq_CurrentStep (wc_task e) = i /\ wc_persistedTaskStatus e = StatusCompleted)).
  assert (K : forall A (m : C A), keeps acked m -> ends Q m (fun _ => Q)).
  { intros A m K e (Hl & Hq). specialize (K e). destruct K. split; [by rewrite acked_log0|]. intros S.
    destruct (wc_taskPersistenceStopped e); [by rewrite acked_stopped0 in S|].
    destruct (acked_live0 S) as (T & _ & _ & P), (Hq eq_refl) as (? & ? & ? & ?). rewrite T.
    repeat split; try done. destruct P; congruence. }
  eapply ends_bind with (Mid := fun _ => Q).
  { intros e Hl. unfold updateWorkflowStatus, cbind, mutateTask, modify.
    set (e1 := e <| wc_task := _ |>). pose proof (acked_update e1) as A. pose proof (stored_update e1) as P.
    destruct A, Hl. split; [by rewrite acked_log0|]. intros S.
    destruct (acked_live0 S) as (T & _). rewrite (P S), T. by repeat split. }
  intros ?. eapply ends_bind with (Mid := fun s e => match s with
    | None => wc_taskPersistenceStopped e = false /\ Q e
    | Some err => wc_taskPersistenceStopped e = true /\ ex_log e = L end).
  { unfold stopAfterPersistence. eapply ends_bind; [apply K, acked_ctx_cause|]. intros err.
    eapply ends_bind; [apply K; destruct err; [apply acked_stop|by apply keeps_ret, _]|]. intros ?.
    eapply ends_bind; [apply ends_get with (Q := fun a e => a = e /\ Q e); auto|].
    intros a1 e [-> HQ]. unfold workflowRunStopResult.
    destruct (wc_taskPersistenceStopped e) eqn:S; cbn [negb]; [|done].
    unfold cbind, skip_exit_ack, set_failure_reason, modify, cret.
    destruct HQ, (wc_taskPersistenceUncertain e); done. }
  intros [err|].
  - apply ends_ret. intros e [S Hl]. split; [done|right]. split; [auto|]. by rewrite S.
  - intros e [S [Hl Hq]]. destruct (Hq S) as (? & ? & ? & ?). split; [done|left]. by repeat split.
Qed.
(** The run ends with [evs] after [L], as outcome [o] of a plan at step [i]. *)
Definition finishes (i : Z) (L : list RunEvent) (Spec : list RunEvent -> Outcome -> Prop)
    (err : option error) (e : Exec) : Prop :=
  exists evs o, ex_log e = (L ++ evs)%list /\ Spec evs o /\ outcome_state origin i o err e.

Lemma finishes_cut i L (Spec : list RunEvent -> Outcome -> Prop) evs err e :
  Spec evs Interrupted -> cut (L ++ evs) err e -> finishes i L Spec err e.
Proof. intros Hs [Hl Hc]. by exists evs, Interrupted. Qed.

Lemma finishes_cut0 i L (Spec : list RunEvent -> Outcome -> Prop) err e :
  Spec [] Interrupted -> cut L err e -> finishes i L Spec err e.
Proof. intros Hs Hc. apply (finishes_cut i L Spec []); [done|]. by rewrite app_nil_r. Qed.

Lemma outside_db {A} (m : M A) : keeps (outside any_world) (db m).
Proof.
  intros e. unfold db. destruct (m (ex_world e)) as [r w].
  exists w, (ex_signals e), (ex_cause e). split; [done|]. split; [auto|]. by destruct e.
Qed.

Lemma cut_live i L err e : live i L e -> err <> None -> cut L err e.
Proof. intros [] N. split; [done|]. by split. Qed.

(** At an approval the run pauses, or leaves a row that moved on alone. *)
Definition approval_events (i : Z) (evs : list RunEvent) (o : Outcome) : Prop :=
  (o = Paused i /\ (evs = [] \/ exists n, evs = [EvNotify n])) \/
  (o = Interrupted /\ (evs = [] \/ exists row, evs = [EvReload row])).

Definition approval_result (i : Z) (L : list RunEvent) (r : result bool) (e : Exec) : Prop :=
  match r with
  | Ok true => exists evs, ex_log e = (L ++ evs)%list /\ approval_events i evs (Paused i) /\
                 outcome_state origin i (Paused i) None e
  | _ => exists evs, ex_log e = (L ++ evs)%list /\ approval_events i evs Interrupted /\
           wc_persistedTaskStatus e = origin
  end.

Lemma approval_still i L r e : r <> Ok true -> live i L e -> approval_result i L r e.
Proof.
  intros N []. assert (X : exists evs, ex_log e = (L ++ evs)%list /\ approval_events i evs Interrupted /\
    wc_persistedTaskStatus e = origin).
  { exists []. rewrite app_nil_r. repeat split; auto. right. auto. }
  by destruct r as [[|]|].
Qed.

Lemma ends_pause s i L : ends (live i L) (pauseAtApprovalStep s i) (approval_result i L).
Proof.
  unfold pauseAtApprovalStep.
  eapply ends_bind; [exact (fun e Hl => Hl : (fun _ => live i L) (wc_task e) e)|]. intros task.
  apply ends_if; intros _; [apply ends_ret; intros e; by apply approval_still|].
  eapply ends_bind.
  { unfold persistApprovalCheckpoint.
    eapply ends_bind; [exact (fun e Hl => Hl : (fun _ => live i L) (wc_task e) e)|]. intros t.
    apply (live_outside i L), outside_db. }
  intros [[|]|x]; [| |apply ends_ret; intros e; by apply approval_still].
  - eapply ends_bind with (Mid := fun _ e => ex_log e = L /\ outcome_state origin i (Paused i) None e).
    { intros e []. by repeat split. }
    intros ?. unfold triggerApprovalNotification.
    assert (N : forall e evs, ex_log e = (L ++ evs)%list -> approval_events i evs (Paused i) ->
      outcome_state origin i (Paused i) None e -> approval_result i L (Ok true) e) by (intros; exists evs; auto).
    eapply ends_bind with (Mid := fun _ => approval_result i L (Ok true)); [|intros ?; by apply ends_ret].
    destruct (se_Approval s) as [ap|].
    + apply ends_if; intros _.
      * apply ends_ret. intros e [Hl Ho]. apply (N e []); [by rewrite app_nil_r|left; auto|done].
      * intros e [Hl Ho]. apply (N _ [EvNotify (approval_step_name s i)]); [by cbn; rewrite Hl|left; eauto|done].
    + apply ends_ret. intros e [Hl Ho]. apply (N e []); [by rewrite app_nil_r|left; auto|done].
  - unfold reloadTaskSnapshot. eapply ends_bind with (Mid := fun _ e => approval_result i L (Ok false) e).
    { eapply ends_bind; [apply (live_outside i L), outside_db|]. intros [row|x].
      - intros e []. exists [EvReload row]. cbn. rewrite live_log0. repeat split; [right; eauto|done].
      - apply ends_if; intros _; apply ends_ret; intros e; by apply approval_still. }
    intros [x|]; [by apply ends_ret|].
    eapply ends_bind; [exact (fun e Hl => Hl : (fun _ => approval_result i L (Ok false)) (wc_task e) e)|].
    intros snapshot. repeat (apply ends_if; intros _); by apply ends_ret.
Qed.

Lemma ends_approval s i L : ends (live i L) (run_approval s i) (finishes i L (approval_events i)).
Proof.
  unfold run_approval. eapply ends_bind; [apply ends_pause|]. intros [[|]|x].
  - apply ends_ret. intros e (evs & Hl & He & Ho). by exists evs, (Paused i).
  - intros e (evs & Hl & He & Hp). exists evs, Interrupted. split; [done|]. split; [done|]. cbn. auto.
  - intros e (evs & Hl & He & Hp). exists evs, Interrupted. split; [done|]. split; [done|]. cbn. auto.
Qed.

(** The end at an unsuccessful job. *)
Definition failure_events (status : string) (trigger : bool) (evs : list RunEvent) (o : Outcome) (i : Z) : Prop :=
  (o = Failed i status \/ o = Interrupted) /\ (evs = [] \/ trigger = true /\ exists c, evs = [EvCleanup c]).

Lemma ends_abort reason task i L evs trigger :
  evs = [] \/ trigger = true /\ (exists c, evs = [EvCleanup c]) ->
  ends (live i (L ++ evs)) (abort_at reason task)
    (finishes i L (fun evs o => failure_events (jt_Status task) trigger evs o i)).
Proof.
  intros He e Hl. exists evs, (Failed i (jt_Status task)). split; [apply Hl|].
  split; [split; [by left|done]|]. destruct Hl.
  unfold abort_at, setTerminalStatus, set_failure_reason, modify, get_exec, cbind, cret. cbn.
  destruct (jt_Status task =? StatusCancelled)%string; by repeat split.
Qed.

Lemma acked_run_jobs tasks n stop : keeps acked (RunJobs tasks n stop updateWorkflowTask).
Proof. apply run_jobs_acks; [exact acked_preorder|exact acked_update|apply acked_outside]. Qed.

Lemma ends_cleanup i L :
  ends (live i L) runWorkflowFailureCleanup
    (fun _ e => exists evs, (evs = [] \/ exists c, evs = [EvCleanup c]) /\ maybe i (L ++ evs) e).
Proof.
  unfold runWorkflowFailureCleanup.
  assert (Z : forall e, maybe i L e -> exists evs, (evs = [] \/ exists c, evs = [EvCleanup c]) /\ maybe i (L ++ evs) e).
  { intros e Hm. exists []. rewrite app_nil_r. auto. }
  eapply ends_bind; [exact (fun e Hl => Hl : (fun _ => live i L) (wc_task e) e)|]. intros task.
  eapply ends_bind; [apply (live_outside i L), outside_db|].
  intros [[|t ts]|x]; try (apply ends_ret; intros e Hl; by apply Z, live_maybe).
  eapply ends_bind; [apply live_acked, acked_run_jobs|]. intros [err c].
  eapply ends_bind with (Mid := fun _ e => exists evs, (evs = [] \/ exists c, evs = [EvCleanup c]) /\ maybe i (L ++ evs) e).
  { intros e [Hl Hm]. exists [EvCleanup c]. split; [eauto|]. cbn.
    split; [by rewrite <- Hl|]. intros S. destruct (Hm S). constructor; cbn; congruence. }
  intros ?. destruct err; by apply ends_ret.
Qed.

Lemma ends_stop_job err i L : ends (live i L) (stopForJobInfrastructure err) (fun r e => r <> None /\ cut L r e).
Proof.
  intros e []. unfold stopForJobInfrastructure, cbind, modify, cret, cancel_ctx. cbn.
  destruct (ex_cause e); cbn; (split; [done|]; split; [done|]; by split).
Qed.

Lemma ends_fail_at name trigger failure i L :
  ends (live i L) (fail_at name trigger failure)
    (finishes i L (fun evs o => failure_events (jt_Status (snd failure))
       (match trigger with Some _ => true | None => false end) evs o i)).
Proof.
  unfold fail_at. destruct trigger as [trigger|].
  2:{ intros e Hl. apply (ends_abort _ _ i L [] false); [auto|]. by rewrite app_nil_r. }
  set (Spec := fun evs o => _).
  eapply ends_bind; [apply ends_cleanup|]. intros cleanupErr e (evs & He & Hm).
  assert (He' : evs = [] \/ true = true /\ exists c, evs = [EvCleanup c]) by intuition.
  assert (Cut : forall r e, cut (L ++ evs) r e -> finishes i L Spec r e).
  { intros r e' Hc. apply (finishes_cut i L Spec evs); [split; auto|done]. }
  revert e Hm. change (ends (maybe i (L ++ evs)) (stop! stopAfterPersistence;
    match cleanupErr with
    | None => abort_at (workflowFailureReason name failure (Some trigger)) (snd failure)
    | Some e => if errors_is ErrInfrastructureStop e then stopForJobInfrastructure e
                else abort_at (workflowFailureReason name failure (Some trigger) ++ "; cleanup_all failed: " ++ error_text e)%string (snd failure)
    end) (finishes i L Spec)).
  eapply ends_bind; [apply ends_after|]. intros [err|].
  - apply ends_ret. intros e [_ Hc]. by apply Cut.
  - destruct cleanupErr as [x|]; [apply ends_if; intros _|]; try by apply ends_abort.
    eapply ends_weaken; [intros e Hl; exact Hl| |apply ends_stop_job]. intros r e [_ Hc]. by apply Cut.
Qed.
(** A group of jobs. *)
Definition group_events (i : Z) (s : StepExecution) (jobs : gmap Z (list JobTask)) (p : Z)
    (evs : list RunEvent) (o : Outcome) : Prop :=
  (exists status, o = Failed i status /\ group_fails i s jobs p status evs) \/
  (o = Interrupted /\ (evs = [] \/ exists tasks cleanup, evs = (EvBatch i p tasks :: cleanup)%list /\
     (cleanup = [] \/ exists c, cleanup = [EvCleanup c]))).

Definition group_result (i : Z) (L : list RunEvent) (s : StepExecution) (jobs : gmap Z (list JobTask)) (p : Z)
    (r : option error + bool) (e : Exec) : Prop :=
  match r with
  | inr _ => exists ev, group_done i jobs p ev /\ live i (L ++ [ev]) e
  | inl err => finishes i L (group_events i s jobs p) err e
  end.

Lemma ends_fail_workspace x i L : ends (live i L) (fail_workspace x) (fun _ => cut L (Some x)).
Proof. intros e []. split; [done|]. by split. Qed.

Lemma cut_error L x y e : cut L (Some x) e -> cut L (Some y) e.
Proof. intros [Hl [_ Hp]]. split; [done|]. by split. Qed.

Lemma ends_ensure_workspace tasks appID i L :
  ends (live i L) (ensureWorkspaceForJobs tasks appID)
    (fun r e => length (snd r) = length tasks /\
       match fst r with Ok _ => live i L e | Err x => cut L (Some x) e end).
Proof.
  unfold ensureWorkspaceForJobs. apply ends_if; intros _; [by apply ends_ret|].
  destruct (requires_namespace tasks appID) as [req ts] eqn:R.
  assert (N : length ts = length tasks).
  { unfold requires_namespace in R. injection R as _ <-. by rewrite !length_map. }
  apply ends_if; intros _; [by apply ends_ret|].
  eapply ends_bind; [apply (live_outside i L), outside_db|]. intros [u|x]; [by apply ends_ret|].
  eapply ends_bind; [apply ends_fail_workspace|]. intros ?. apply ends_ret. intros e Hc. split; [done|].
  by eapply cut_error.
Qed.

Lemma ends_evaluation_runner tasks i L :
  ends (live i L) (ensureEvaluationRunner tasks)
    (fun r e => match r with None => live i L e | Some x => cut L (Some x) e end).
Proof.
  unfold ensureEvaluationRunner. apply ends_if; intros _; [by apply ends_ret|].
  apply ends_if; intros _; [apply ends_ret; intros e Hl; by eapply cut_live|].
  eapply ends_bind; [apply (live_outside i L), outside_db|]. intros [u|x]; [by apply ends_ret|].
  eapply ends_bind; [apply ends_fail_workspace|]. intros ?. apply ends_ret. intros e. apply cut_error.
Qed.

Lemma first_from_none {A} n (P : A -> bool) l :
  first_from n P l = None -> Forall (fun x => P x = false) l.
Proof.
  revert n. induction l as [|x l IH]; intros n; cbn; [constructor|]. destruct (P x) eqn:X; [done|].
  intros E. constructor; eauto.
Qed.

(** The jobs of a group have run: the group is done, or the run ends. *)
Lemma ends_batch name s jobs p i L tasks err (ready : bool) :
  length tasks = length (default [] (jobs !! p)) ->
  ends (maybe i (L ++ [EvBatch i p tasks]))
    (match err with
     | Some x => do! r := stopForJobInfrastructure x in cret (inl r)
     | None =>
         return_if stopAfterPersistence (
         return_if stopForInfrastructureStop (
         match first_from 0 (fun task => negb (isJobSuccessStatus task)) tasks with
         | None => cret (inr ready)
         | Some failure =>
             do! r := fail_at name (workflowFailureCleanupTrigger (se_FailurePolicy s) tasks) failure in
             cret (inl r)
         end))
     end) (group_result i L s jobs p).
Proof.
  intros N. set (L' := (L ++ [EvBatch i p tasks])%list).
  assert (Cut : forall r e, cut L' r e -> group_result i L s jobs p (inl r) e).
  { intros r e Hc. apply (finishes_cut i L _ [EvBatch i p tasks]); [|done]. right. split; [done|right].
    exists tasks, []. auto. }
  destruct err as [x|].
  - intros e Hm. unfold stopForJobInfrastructure, cbind, modify, cret. cbn. apply Cut. split.
    + unfold cancel_ctx. cbn. destruct (ex_cause e); exact (proj1 Hm).
    + split; [done|]. unfold cancel_ctx. cbn. destruct Hm as [_ Hm], (ex_cause e); cbn; intros S;
        exact (live_persisted _ _ _ (Hm S)).
  - unfold return_if. eapply ends_bind; [apply ends_after|]. intros [r|]; [by apply ends_ret; intros e []; apply Cut|].
    eapply ends_bind; [apply ends_infrastructure|]. intros [r|]; [by apply ends_ret; intros e; apply Cut|].
    destruct (first_from 0 _ tasks) as [failure|] eqn:F.
    2:{ apply ends_ret. intros e Hl. exists (EvBatch i p tasks). split; [|done]. exists tasks.
        split; [done|split; [done|]]. apply first_from_none in F. eapply Forall_impl; [exact F|].
        intros t Ht. by apply negb_false_iff in Ht. }
    eapply ends_bind; [apply ends_fail_at|]. intros r. apply ends_ret. intros e (evs & o & Hl & [Ho Hc] & Hs).
    exists (EvBatch i p tasks :: evs)%list, o. split; [rewrite Hl; unfold L'; by rewrite <- app_assoc|].
    split; [|done]. destruct Ho as [-> | ->].
    + left. eexists. split; [done|]. destruct failure as [k f]. exists tasks, k, f, evs.
      split; [done|split; [done|split; [done|split; [done|]]]].
      destruct Hc as [->|[T [c ->]]]; [auto|right; exists c; split; [done|]].
      by destruct (workflowFailureCleanupTrigger (se_FailurePolicy s) tasks).
    + right. split; [done|right]. exists tasks, evs. intuition.
Qed.

Lemma ends_group name appID n i L s jobs p ready :
  ends (live i L) (run_group name appID n i s p (default [] (jobs !! p)) ready) (group_result i L s jobs p).
Proof.
  set (tasks := default [] (jobs !! p)).
  assert (Cut0 : forall x e, cut L (Some x) e -> group_result i L s jobs p (inl (Some x)) e).
  { intros x e. apply finishes_cut0. right. auto. }
  unfold run_group. eapply ends_bind with (Mid := fun r e => length (snd r) = length tasks /\
    match fst r with Ok _ => live i L e | Err x => cut L (Some x) e end).
  { destruct ready; [by apply ends_ret|apply ends_ensure_workspace]. }
  intros [[ns|x] ts]; cbn [fst snd]; [|by apply ends_ret; intros e []; apply Cut0].
  intros e [N Hl]. revert e Hl. eapply ends_bind; [apply ends_evaluation_runner|].
  intros [x|]; [by apply ends_ret; intros e; apply Cut0|].
  set (run := RunJobs ts _ _ _).
  eapply ends_bind with (Mid := fun r e => length (snd r) = length ts /\ maybe i L e).
  { intros e Hl. split; [apply run_jobs_length|]. exact (live_acked i L run (acked_run_jobs _ _ _) e Hl). }
  intros [err ts']. cbn [snd]. intros e [N' Hm]. revert e Hm.
  eapply ends_bind with (Mid := fun _ => maybe i (L ++ [EvBatch i p ts'])).
  { intros e [Hl Hm]. split; [cbn; by rewrite Hl|]. intros S. destruct (Hm S). constructor; cbn; congruence. }
  intros ?. apply ends_batch. by rewrite N'.
Qed.
(** The groups of a step, from some of them on. *)
Definition groups_result (i : Z) (L : list RunEvent) (s : StepExecution) (jobs : gmap Z (list JobTask))
    (groups : list Z) (r : option error + bool) (e : Exec) : Prop :=
  match r with
  | inr _ => exists evs, Forall2 (group_done i jobs) groups evs /\ live i (L ++ evs) e
  | inl err => exists before p after evs, groups = (before ++ p :: after)%list /\
      Forall2 (group_done i jobs) before evs /\ finishes i (L ++ evs) (group_events i s jobs p) err e
  end.

Lemma ends_groups name appID n i L s jobs priorities ready :
  ends (live i L) (run_groups name appID n i s jobs priorities ready)
    (groups_result i L s jobs
       (List.filter (fun p => match default [] (jobs !! p) with [] => false | _ => true end) priorities)).
Proof.
  revert L ready. induction priorities as [|p ps IH]; intros L ready.
  { apply ends_ret. intros e Hl. exists []. rewrite app_nil_r. auto. }
  cbn [run_groups List.filter]. destruct (default [] (jobs !! p)) as [|t ts] eqn:D; [apply IH|].
  eapply ends_bind; [rewrite <- D; apply ends_group|]. intros [err|ready'].
  - apply ends_ret. intros e Hf. exists [], p, (List.filter (fun p => match default [] (jobs !! p) with [] => false | _ => true end) ps), [].
    rewrite app_nil_r. auto.
  - intros e (ev & Hd & Hl). specialize (IH _ ready' e Hl).
    destruct (run_groups name appID n i s jobs ps ready' e) as [[err|r] e']; cbn [fst snd groups_result] in IH |- *.
    + destruct IH as (before & q & after & evs & -> & Hb & Hf).
      exists (p :: before), q, after, (ev :: evs)%list. split; [done|]. split; [by constructor|].
      by rewrite <- app_assoc in Hf.
    + destruct IH as (evs & Hb & Hl'). exists (ev :: evs)%list. split; [by constructor|].
      by rewrite <- app_assoc in Hl'.
Qed.

Lemma finishes_weaken i j L (Spec Spec' : list RunEvent -> Outcome -> Prop) err e evs0 :
  (forall evs o, Spec evs o -> Spec' (evs0 ++ evs)%list o) -> (forall evs o, Spec evs o -> o = Completed -> i = j) ->
  finishes i (L ++ evs0) Spec err e -> finishes j L Spec' err e.
Proof.
  intros H1 H2 (evs & o & Hl & Hs & Ho). exists (evs0 ++ evs)%list, o.
  split; [by rewrite app_assoc|]. split; [auto|]. destruct o; try exact Ho. by rewrite <- (H2 _ _ Hs eq_refl).
Qed.

Lemma group_plan i s steps jobs before p after done evs o :
  se_StepType s <> "approval"%string -> se_Jobs s = Some jobs ->
  step_groups jobs = (before ++ p :: after)%list -> Forall2 (group_done i jobs) before done ->
  group_events i s jobs p evs o -> plan_run (s :: steps) i (done ++ evs) o.
Proof.
  intros T J G D [(status & -> & F)|(-> & C)]; [by eapply plan_fail|].
  eapply plan_interrupted; [done|done|exact G|done|].
  destruct C as [->|(tasks & cl & -> & C)]; [by left|right]. by exists p, after, tasks, cl.
Qed.

Lemma ends_steps name appID n steps i L ready :
  ends (live i L) (run_steps name appID n steps i ready)
    (finishes (i + Z.of_nat (length steps)) L (plan_run steps i)).
Proof.
  revert i L ready. induction steps as [|s steps IH]; intros i L ready.
  { cbn [run_steps length]. rewrite Z.add_0_r. eapply ends_weaken; [intros e Hl; exact Hl| |apply ends_complete].
    intros err e [Hl [Hc|Hc]]; exists [];
      [exists Completed|exists Interrupted]; rewrite app_nil_r; (split; [done|]); (split; [constructor|done]). }
  cbn [run_steps]. set (j := i + Z.of_nat (length (s :: steps))).
  assert (J : i + 1 + Z.of_nat (length steps) = j) by (unfold j; cbn [length]; lia).
  assert (Cut0 : forall r e, cut L r e -> finishes j L (plan_run (s :: steps) i) r e).
  { intros r e. apply finishes_cut0. constructor. }
  eapply ends_bind; [apply ends_infrastructure|]. intros [r|]; [by apply ends_ret; intros e; apply Cut0|].
  destruct (String.eqb_spec (se_StepType s) "approval") as [T|T].
  { eapply ends_weaken; [intros e Hl; exact Hl| |apply ends_approval]. intros err e Hf.
    rewrite <- (app_nil_r L) in Hf. eapply finishes_weaken; [|idtac|exact Hf]; cbn [app].
    - intros evs o [(-> & He)|(-> & [->|[row ->]])]; [by apply plan_pause|constructor|by apply plan_moved].
    - intros evs o [(-> & _)|(-> & _)]; done. }
  assert (Next : forall ready L' (Hs : forall evs o, plan_run steps (i + 1) evs o -> plan_run (s :: steps) i (L' ++ evs) o),
    ends (live i (L ++ L')) (stop! finish_step i; run_steps name appID n steps (i + 1) ready)
      (finishes j L (plan_run (s :: steps) i))).
  { intros ready' L' Hs. eapply ends_bind; [apply ends_finish|]. intros [r|].
    - apply ends_ret. intros e Hc. apply (finishes_cut j L _ L'); [|done].
      rewrite <- (app_nil_r L'). apply Hs. constructor.
    - eapply ends_weaken; [intros e Hl; exact Hl| |apply IH]. intros r e Hf.
      eapply finishes_weaken; [exact Hs|intros _ _ _ _; exact J|exact Hf]. }
  destruct (se_Jobs s) as [jobs|] eqn:Jobs.
  - eapply ends_bind; [apply ends_groups|]. fold (step_groups jobs). intros [err|ready'].
    + apply ends_ret. intros e (before & p & after & evs & G & D & Hf).
      eapply finishes_weaken; [|idtac|exact Hf].
      * intros evs' o He. by eapply group_plan.
      * intros evs' o [(? & -> & _)|(-> & _)]; done.
    + intros e (evs & D & Hl). revert e Hl. apply Next. intros evs' o. by eapply plan_step.
  - intros e Hl. rewrite <- (app_nil_r L) in Hl. revert e Hl. apply Next. intros evs o. by apply plan_empty.
Qed.
End Follows.

(** C7: a run follows its plan.  Whatever other sessions commit, whenever the context
    is cancelled and whatever the job runner does, the batches a run executes are
    those of its plan from the task's current step on: the groups of a step in order
    of priority, each of them successful before the next one starts, and no step
    before the checkpoint of the one before it.  It completes only after the last
    group of the last step, and the completed status is then the stored one; it pauses
    only at an approval step; it fails at the first group with an unsuccessful job,
    with that job's verdict, at that step, and runs the clean-up of everything only
    when the policy of a failed job asks for it.  Otherwise it was interrupted: it
    claims nothing, and unless persistence stopped the stored status is the one it
    started with. *)
Theorem run_follows_plan `{JobRunnerLaws W} task plan concurrency e err e' :
  (forall s, plan = [s] -> se_generationError s = None) ->
  wc_taskPersistenceStopped e = false -> wc_persistedTaskStatus e = wq_Status (wc_task e) ->
  wr_skipExitAck e = false -> wq_CurrentStep (wc_task e) = Z.max 0 (wq_CurrentStep task) ->
  runSteps task plan concurrency e = (err, e') ->
  let start := Z.max 0 (wq_CurrentStep task) in
  let steps := drop (Z.to_nat start) plan in
  exists evs o, ex_log e' = (ex_log e ++ evs)%list /\ plan_run steps start evs o /\
    outcome_state (wq_Status (wc_task e)) (start + Z.of_nat (length steps)) o err e'.
Proof.
  intros G S P K I E start steps. assert (Hl : live (wq_Status (wc_task e)) start (ex_log e) e) by by constructor.
  assert (R : run_steps (wq_WorkflowName task) (wq_AppID task) (Z.max 1 concurrency) steps start false e = (err, e')).
  { rewrite <- E. unfold runSteps. destruct plan as [|s [|s' plan]]; try done. by rewrite (G s eq_refl). }
  pose proof (ends_steps _ (wq_WorkflowName task) (wq_AppID task) (Z.max 1 concurrency) steps start (ex_log e) false e Hl) as F.
  rewrite R in F. exact F.
Qed.

(** ** Witness *)

(** A runner that acknowledges once and completes every job. *)
Definition sample_runner (tasks : list JobTask) (n : Z) (stop : bool) (ack : C unit)
    : C (option error * list JobTask) :=
  do! _ := ack in cret (None, map (fun t => t <| jt_Status := StatusCompleted |>) tasks).

#[export] Instance sample_deps : WorkflowDeps := {|
  RunJobs := sample_runner;
  prepareWorkspace _ := ret "space"%string;
  GenerateJobTasks _ := ret [];
  buildWorkflowFailureCleanupJobs _ := ret [];
  saveCleanupInfo _ := ret tt;
  workspaceManager := false;
  workspaceEnsure := ret tt;
  workspaceEnsureEvaluationRunner := ret tt;
  evaluationConfigured := false;
  prepareJobTask task _ := (Ok true, task);
  range_jobs jobs := sortedPriorities jobs;
  error_text _ := "error"%string |}.

#[export] Instance sample_runner_laws W : JobRunnerLaws (H := sample_deps) W.
Proof.
  split.
  - intros tasks n stop ack e. cbn. unfold sample_runner, cbind, cret. destruct (ack e). apply length_map.
  - intros tasks n stop ack R P A _. cbn. apply keeps_cbind; [done|exact A|]. intros u. by apply keeps_ret.
Qed.

Definition sample_row : WorkflowQueue :=
  workflow_queue_zero <| wq_TaskID := "task"%string |> <| wq_Status := StatusRunning |>
    <| wq_RunGeneration := 1 |> <| wq_RunToken := "token"%string |> <| wq_WorkerID := "worker"%string |>.

Definition sample_exec (env : list EnvEvent) : Exec :=
  Build_Exec (Build_World ((db_empty 1) <| db_queue := {["task"%string := sample_row]} |>) env 0)
    [] None sample_row StatusRunning false false false false "" true "" false false [].

Definition sample_step (name mode : string) (jobs : gmap Z (list JobTask)) : StepExecution :=
  Build_StepExecution None "" name mode "component" "" None (Some jobs).

Definition sample_plan : list StepExecution :=
  [sample_step "deploy" "StepByStep"
     (<[10 := [job_task_zero <| jt_Name := "web"%string |>]]> {[1 := [job_task_zero <| jt_Name := "store"%string |>]]});
   sample_step "report" "DAG" {[20 := [job_task_zero <| jt_Name := "call"%string |>]]}].

Definition batch_of (ev : RunEvent) : option (Z * Z) :=
  match ev with EvBatch step priority _ => Some (step, priority) | _ => None end.

Lemma run_follows_plan_witness :
  let '(err, e') := runSteps (H := sample_deps) sample_row sample_plan 1 (sample_exec []) in
  err = None /\ map batch_of (ex_log e') = [Some (0, 1); Some (0, 10); Some (1, 20)] /\
  exists evs o, ex_log e' = evs /\ plan_run sample_plan 0 evs o /\
    outcome_state StatusRunning 2 o err e' /\ wc_persistedTaskStatus e' = StatusCompleted.
Proof.
  assert (B : let '(err, e') := runSteps (H := sample_deps) sample_row sample_plan 1 (sample_exec []) in
    err = None /\ map batch_of (ex_log e') = [Some (0, 1); Some (0, 10); Some (1, 20)] /\
    wc_persistedTaskStatus e' = StatusCompleted) by (vm_compute; auto).
  destruct (runSteps (H := sample_deps) sample_row sample_plan 1 (sample_exec [])) as [err e'] eqn:E.
  destruct B as (B1 & B2 & B3). split; [exact B1|]. split; [exact B2|].
  destruct (run_follows_plan (H := sample_deps) (W := any_world) sample_row sample_plan 1 (sample_exec []) err e'
    ltac:(discriminate) eq_refl eq_refl eq_refl eq_refl E) as (evs & o & L & P & O).
  exists evs, o. split; [exact L|]. split; [exact P|]. split; [exact O|exact B3].
Defined.
