(* ===== verification/ControllerSafety.v ===== *)
(** What a controller never does: overwrite a decision of another session, or announce
    an end the store does not hold.

    Both follow from one walk over the run.  [task_protocol] is what everybody keeps of
    the task's row; [base] holds of the controller all along, [act] while jobs are
    running, [on] while persistence goes on too, and [fin] and [shut] once the run is
    ending. *)

From S2P Require Import Prelude GoStrings Config Policy Model Store Hoare Lease LeaseProtocol.
From S2P Require Import Signals Controller ControllerSpec.

Lemma terminal_workflow s : isWorkflowTerminal s = true -> jobSchedulingTerminal s = true.
Proof.
  intros T. unfold isWorkflowTerminal in T.
  repeat (apply orb_prop in T as [T|T]); apply String.eqb_eq in T; by subst.
Qed.

(** ** What sessions may do to a settled task

    Tasks are stored under their identifier, and the row of task [id] is not created
    twice; its generation does not go back, and within a generation a terminal status
    stays. *)
Definition keyed (d : Database) : Prop :=
  forall x r, db_queue d !! x = Some r -> wq_TaskID r = x.

Definition settled_le (r r' : WorkflowQueue) : Prop :=
  wq_RunGeneration r <= wq_RunGeneration r' /\
  (wq_RunGeneration r' = wq_RunGeneration r -> jobSchedulingTerminal (wq_Status r) = true ->
   wq_Status r' = wq_Status r).

Definition task_protocol (id : string) (d d' : Database) : Prop :=
  (keyed d -> keyed d') /\
  match db_queue d !! id, db_queue d' !! id with
  | Some r, Some r' => settled_le r r'
  | None, Some _ => False
  | _, None => True
  end.

#[export] Instance settled_le_preorder : PreOrder settled_le.
Proof.
  split; [by split|]. intros a b c [G1 S1] [G2 S2]. split; [lia|]. intros G T.
  assert (G1' : wq_RunGeneration b = wq_RunGeneration a) by lia. rewrite <- (S1 G1' T).
  apply S2; [congruence|]. by rewrite (S1 G1' T).
Qed.

#[export] Instance task_protocol_preorder id : PreOrder (task_protocol id).
Proof.
  split.
  - intros d. split; [done|]. by destruct (db_queue d !! id).
  - intros a b c [K1 H1] [K2 H2]. split; [auto|].
    destruct (db_queue a !! id), (db_queue b !! id), (db_queue c !! id); try done. by etransitivity.
Qed.

(** The store has settled on the status of [t], unless the row is gone or of a later run. *)
Definition holds (id : string) (t : WorkflowQueue) (d : Database) : Prop :=
  jobSchedulingTerminal (wq_Status t) = true ->
  match db_queue d !! id with
  | Some r => wq_RunGeneration t < wq_RunGeneration r \/
              (wq_RunGeneration r = wq_RunGeneration t /\ wq_Status r = wq_Status t)
  | None => True
  end.

Lemma holds_stable id t : stable (task_protocol id) (holds id t).
Proof.
  intros d d' [_ P] H T. specialize (H T). destruct (db_queue d !! id) as [r|], (db_queue d' !! id) as [r'|]; try done.
  destruct P as [G S]. destruct H as [H|[E H]]; [left; lia|].
  destruct (decide (wq_RunGeneration r' = wq_RunGeneration r)); [right|left; lia].
  split; [congruence|]. rewrite S; congruence.
Qed.

Lemma holds_row id r d : db_queue d !! id = Some r -> holds id r d.
Proof. intros L _. rewrite L. auto. Qed.

Lemma keyed_stable id : stable (task_protocol id) keyed.
Proof. by intros d d' [K _]. Qed.

(** A write of one row of the queue. *)
Lemma task_protocol_insert id d key row row' :
  db_queue d !! key = Some row -> wq_TaskID row' = wq_TaskID row -> settled_le row row' ->
  task_protocol id d (with_table (<[key := row']> (table d)) d).
Proof.
  intros L T S. split.
  - intros K x r. cbn. destruct (decide (key = x)) as [->|N].
    + rewrite lookup_insert_eq. intros [= <-]. rewrite T. by apply K.
    + rewrite lookup_insert_ne by done. apply K.
  - cbn. destruct (decide (key = id)) as [->|N].
    + by rewrite lookup_insert_eq, L.
    + rewrite lookup_insert_ne by done. by destruct (db_queue d !! id).
Qed.

Lemma task_protocol_other id d d' : db_queue d' = db_queue d -> task_protocol id d d'.
Proof. intros E. unfold task_protocol, keyed. rewrite E. split; [done|]. by destruct (db_queue d !! id). Qed.

(** ** The controller's own writes *)

Lemma task_updates_settled t p now row row' :
  jobSchedulingTerminal p = false \/ wq_Status t = p ->
  conds_hold (owner_conditions p (wq_RunGeneration t) (wq_RunToken t) (wq_WorkerID t)) row = true ->
  apply_updates (task_updates t ++ [("update_time"%string, VTime now)]) row = Some row' ->
  wq_TaskID row' = wq_TaskID row /\ settled_le row row' /\
  wq_RunGeneration row' = wq_RunGeneration t /\ wq_Status row' = wq_Status t.
Proof.
  intros P Hc Hu. unfold task_updates in Hu.
  assert (D : wq_Status row = p -> jobSchedulingTerminal (wq_Status row) = true -> wq_Status t = wq_Status row)
    by (intros E T; destruct P; congruence).
  destruct (_ && _); queue_simpl_in Hc Hu; (split; [done|]);
    (split; [split; [cbn; lia|intros _; by apply D]|by split]).
Qed.

(** A program that only reads. *)
Ltac ro RO := apply RO; solve [auto with store].

Lemma persist_protocol id n t p : jobSchedulingTerminal p = false \/ wq_Status t = p ->
  guarantees (task_protocol id) (persist_attempts n t p (task_updates t)).
Proof.
  intros P. assert (RO : forall A (m : M A), read_only m -> guarantees (task_protocol id) m)
    by (intros A m; apply guarantees_read_only).
  induction n as [|n IH]; cbn [persist_attempts]; [ro RO|].
  apply guarantees_bind; [apply guarantees_try|].
  - unfold UpdateTaskFieldsIfOwned. destruct (negb _); [|ro RO].
    apply guarantees_bind; [ro RO|]. intros ?. destruct (blank _); [ro RO|].
    unfold UpdateTaskFieldsIfConditions. destruct (negb _); [|ro RO]. apply guarantees_cas.
    intros now d row row' L Hc Hu. destruct (task_updates_settled _ _ _ _ _ P Hc Hu) as (T & S & _).
    by apply task_protocol_insert with row.
  - intros [[|]|x]; [ro RO| |ro RO].
    apply guarantees_bind; [apply guarantees_try; ro RO|]. intros [latest|x]; [|ro RO].
    destruct (negb _); [ro RO|]. destruct (workflowTaskPersistenceFieldsEqual _ _); [ro RO|].
    destruct (negb _); [ro RO|exact IH].
Qed.

(** What persisting learns: the snapshot is stored, or the row returned is. *)
Lemma persist_holds id n t p : wq_TaskID t = id -> jobSchedulingTerminal p = false \/ wq_Status t = p ->
  triple (task_protocol id) keyed (persist_attempts n t p (task_updates t))
    (fun r d => keyed d /\ match r with
     | Ok None => holds id t d
     | Ok (Some row) => wq_TaskID row = id /\ holds id row d
     | Err _ => True
     end).
Proof.
  intros I P. induction n as [|n IH]; cbn [persist_attempts]; [by apply triple_throw|].
  apply triple_bind with (Mid := fun r d => keyed d /\ (r = Ok true -> holds id t d)).
  - apply triple_try. unfold UpdateTaskFieldsIfOwned.
    assert (Th : forall e, triple (task_protocol id) keyed (throw e)
      (fun r d => keyed d /\ (r = Ok true -> holds id t d))) by (intros e; by apply triple_throw).
    destruct (negb _); [|apply Th].
    apply triple_bind with (Mid := fun _ => keyed).
    + apply triple_read_only; [apply _|apply keyed_stable|auto with store|]. by intros [u|e] d.
    + intros ?. destruct (blank _); [apply Th|]. unfold UpdateTaskFieldsIfConditions.
      destruct (negb _); [|apply Th]. apply triple_cas; [apply _|apply keyed_stable|done|done|].
      intros now d row row' K L Hc Hu. destruct (task_updates_settled _ _ _ _ _ P Hc Hu) as (T & S & G & St).
      split.
      * apply (task_protocol_insert id _ _ _ _ L T S), K.
      * intros _ _. cbn. rewrite I, lookup_insert_eq. auto.
  - intros [[|]|x]; [apply triple_ret; intros d [K Ho]; auto| |by apply triple_throw; intros d []].
    eapply triple_weaken; [intros d [K _]; exact K|intros r d HQ; exact HQ|].
    apply triple_bind with (Mid := fun r d => keyed d /\ forall row, r = Ok row -> wq_TaskID row = id /\ holds id row d).
    + apply triple_try. unfold TaskByID. apply triple_Get; [apply _|apply keyed_stable|done|].
      intros d row K L. split; [done|]. intros ? [= <-]. rewrite I in L. split; [by apply K|by apply holds_row].
    + intros [latest|x]; [|by apply triple_throw; intros d []].
      apply triple_if; intros E1; [by apply triple_ret; intros d [K Ho]; split; [|apply Ho]|].
      apply triple_if; intros E2.
      { apply triple_ret. intros d [K Ho]. split; [done|]. destruct (Ho latest eq_refl) as [T Hl].
        unfold workflowTaskExecutionIdentityEqual in E1. unfold workflowTaskPersistenceFieldsEqual in E2.
        destruct (negb (_ && _)) eqn:E3 in E2; [done|]. bool_to_prop.
        unfold holds in *. by replace (wq_Status t) with (wq_Status latest);
          replace (wq_RunGeneration t) with (wq_RunGeneration latest). }
      apply triple_if; intros E3; [by apply triple_ret; intros d [K Ho]; split; [|apply Ho]|].
      eapply triple_weaken; [intros d [K _]; exact K|intros r d HQ; exact HQ|exact IH].
Qed.

Lemma checkpoint_protocol id task name i timeout :
  guarantees (task_protocol id) (PersistApprovalCheckpoint task name i timeout).
Proof.
  assert (RO : forall A (m : M A), read_only m -> guarantees (task_protocol id) m)
    by (intros A m; apply guarantees_read_only).
  unfold PersistApprovalCheckpoint. destruct task as [task|]; [|ro RO].
  apply guarantees_bind; [ro RO|]. intros ?. destruct (blank _); [ro RO|].
  apply guarantees_bind; [apply RO; store_step|]. intros v. unfold UpdateTaskFieldsIfConditions.
  destruct (negb _); [|ro RO]. apply guarantees_cas. intros now d row row' L Hc Hu.
  assert (S : wq_TaskID row' = wq_TaskID row /\ settled_le row row').
  { destruct v; try discriminate; queue_simpl_in Hc Hu; (split; [done|]);
      (split; [cbn; lia|intros _ T; by replace (wq_Status row) with StatusRunning in T]). }
  destruct S. by apply task_protocol_insert with row.
Qed.

Lemma precreated_protocol id taskID status reason :
  guarantees (task_protocol id) (TerminalizePrecreatedVersionUpdateCleanupJobs taskID status reason).
Proof.
  assert (RO : forall A (m : M A), read_only m -> guarantees (task_protocol id) m)
    by (intros A m; apply guarantees_read_only).
  unfold TerminalizePrecreatedVersionUpdateCleanupJobs.
  destruct (str_empty _); [ro RO|]. destruct (negb _); [ro RO|].
  apply guarantees_bind; [apply guarantees_try; ro RO|]. intros [jobs|x].
  - apply guarantees_bind; [ro RO|]. intros now. induction jobs as [|j jobs IH]; cbn [for_each]; [ro RO|].
    apply guarantees_bind; [|intros ?; exact IH]. unfold terminalize_precreated.
    destruct (_ || _); [ro RO|]. apply guarantees_bind; [|intros ?; ro RO].
    apply guarantees_cas. intros. by apply task_protocol_other.
  - destruct (errors_is _ _); ro RO.
Qed.

(** ** The walk *)

(** What the run and the code it calls do: every commit of theirs respects the task's row. *)
Abbreviation respectful id := (commits (task_protocol id)).

Lemma respectful_run id w w' : respectful id w w' -> env_respects (task_protocol id) (w_env w) ->
  env_respects (task_protocol id) (w_env w') /\ task_protocol id (w_db w) (w_db w').
Proof. intros C E. by destruct (commits_respects _ _ _ C E). Qed.

(** The other packages' programs respect it too. *)
Class RespectfulDeps `{WorkflowDeps} (id : string) := {
  respectful_generate t : guarantees (task_protocol id) (GenerateJobTasks t);
  respectful_build t : guarantees (task_protocol id) (buildWorkflowFailureCleanupJobs t);
  respectful_save t : guarantees (task_protocol id) (saveCleanupInfo t);
  respectful_ensure : guarantees (task_protocol id) workspaceEnsure;
  respectful_runner : guarantees (task_protocol id) workspaceEnsureEvaluationRunner;
}.

Section Walk.
Context (id : string) (w0 : World) (L0 : list RunEvent) (once : bool).
Context `{!WorkflowDeps} `{!RespectfulDeps id} `{!JobRunnerLaws (respectful id)}.
Hypothesis id_trimmed : TrimSpace id = id.

Definition not_callback (ev : RunEvent) : Prop := match ev with EvCallback _ _ => False | _ => True end.

Definition settles (e : Exec) : Prop := holds id (wc_task e) (w_db (ex_world e)).

(** Persistence that stopped knows why: ownership is lost, the state is uncertain, or
    the store has settled on the task's status. *)
Definition calm (e : Exec) : Prop :=
  wc_taskPersistenceStopped e = true ->
  wc_taskPersistenceUncertain e = true \/ wc_taskOwnershipLost e = true \/ settles e.

Record base (e : Exec) : Prop := {
  base_env : env_respects (task_protocol id) (w_env (ex_world e));
  base_commits : respectful id w0 (ex_world e);
  base_keyed : keyed (w_db (ex_world e));
  base_task : wq_TaskID (wc_task e) = id;
  base_once : wc_terminalCallbackOnce e = once;
  base_calm : calm e;
  base_quiet : exists evs, ex_log e = (L0 ++ evs)%list /\ Forall not_callback evs;
}.

Definition open_status (e : Exec) : Prop :=
  jobSchedulingTerminal (wc_persistedTaskStatus e) = false /\ jobSchedulingTerminal (wq_Status (wc_task e)) = false.

Record act (e : Exec) : Prop := {
  act_base : base e;
  act_skip : wr_skipExitAck e = false;
  act_open : wc_taskPersistenceStopped e = false -> open_status e;
}.

(** An acknowledgement is then safe. *)
Definition ackable (e : Exec) : Prop :=
  base e /\ (wc_taskPersistenceStopped e = false ->
    jobSchedulingTerminal (wc_persistedTaskStatus e) = false \/ wq_Status (wc_task e) = wc_persistedTaskStatus e).

(** The store has settled on the task's end, or it will not be announced. *)
Definition known (e : Exec) : Prop := wr_suppressTerminalCallback e = true \/ settles e.

Definition fin (e : Exec) : Prop :=
  ackable e /\ (wr_skipExitAck e = true -> wc_taskPersistenceStopped e = false -> known e).

(** Running with persistence going on. *)
Definition on (e : Exec) : Prop := act e /\ wc_taskPersistenceStopped e = false.

(** The end is settled without another acknowledgement. *)
Definition shut (e : Exec) : Prop := ackable e /\ (wc_taskPersistenceStopped e = false -> known e).

Lemma act_ackable e : act e -> ackable e.
Proof. intros [B _ O]. split; [done|]. intros S. left. apply (O S). Qed.

Lemma act_shut e : act e -> shut e.
Proof.
  intros A. split; [by apply act_ackable|]. intros S. right. intros T.
  by rewrite (proj2 (act_open _ A S)) in T.
Qed.

Lemma shut_fin e : shut e -> fin e.
Proof. intros [A K]. split; auto. Qed.

Lemma act_fin e : act e -> fin e.
Proof. intros A. by apply shut_fin, act_shut. Qed.

(** Changes that leave alone what [base] reads. *)
Lemma base_same e e' :
  base e -> ex_world e' = ex_world e -> ex_log e' = ex_log e -> wq_TaskID (wc_task e') = wq_TaskID (wc_task e) ->
  wc_terminalCallbackOnce e' = wc_terminalCallbackOnce e -> (calm e -> calm e') -> base e'.
Proof. intros [] W L T O Hc. constructor; rewrite ?W, ?L, ?T, ?O; auto. Qed.

Lemma base_outside e e' : base e -> outside (respectful id) e e' -> base e'.
Proof.
  intros [E D K T O Hc Q] (w & s & c & Hw & _ & ->). destruct (respectful_run _ _ _ Hw E) as [E' D'].
  constructor; cbn; auto; [by etransitivity|by apply D'|]. intros S. destruct (Hc S) as [X|[X|X]]; auto.
  right. right. by eapply holds_stable.
Qed.

Lemma act_outside e e' : act e -> outside (respectful id) e e' -> act e'.
Proof. intros [B K O] X. split; [by eapply base_outside| |]; destruct X as (w & s & c & _ & _ & ->); done. Qed.

Lemma settles_outside e e' : base e -> outside (respectful id) e e' -> settles e -> settles e'.
Proof.
  intros B (w & s & c & Hw & _ & ->). destruct (respectful_run _ _ _ Hw (base_env _ B)) as [_ D]. apply (holds_stable id _ _ _ D).
Qed.

Lemma kept_poll : keeps (outside (respectful id)) ctx_cause.
Proof.
  intros e. destruct (outside_poll e) as (w & s & c & _ & Hc & E).
  exists (ex_world e), s, c. split; [reflexivity|]. split; [done|].
  assert (X : ex_world (snd (ctx_cause e)) = ex_world e).
  { unfold ctx_cause. cbn. destruct (ex_signals e) as [|[x|] r]; try done. unfold cancel_ctx. by destruct (ex_cause _). }
  rewrite <- X. rewrite E. by destruct e.
Qed.

Lemma guarantees_respectful {A} (m : M A) w :
  guarantees (task_protocol id) m -> respectful id w (snd (m w)).
Proof. intros G. destruct (m w) as [r w'] eqn:R. exact (G _ _ _ R). Qed.

Lemma kept_db {A} (m : M A) : guarantees (task_protocol id) m -> keeps (outside (respectful id)) (db m).
Proof.
  intros K e. unfold db. pose proof (guarantees_respectful m (ex_world e) K) as g. destruct (m (ex_world e)) as [r w].
  exists w, (ex_signals e), (ex_cause e). split; [exact g|]. split; [auto|]. by destruct e.
Qed.

Lemma kept_infrastructure : keeps (outside (respectful id)) IsInfrastructureStop.
Proof.
  unfold IsInfrastructureStop. apply keeps_cbind; [apply _|apply kept_poll|]. intros a. by apply keeps_ret, _.
Qed.

Lemma kept_skipped cause err : keeps (outside (respectful id)) (persistence_skipped cause err).
Proof.
  destruct err; [|by apply keeps_ret, _]. apply keeps_cbind; [apply _|apply kept_infrastructure|].
  intros a. by apply keeps_ret, _.
Qed.

(** Stopping for a reason. *)
Lemma base_stop row uncertain lost e :
  base e -> wc_taskPersistenceStopped e = false ->
  match row with
  | Some r => wq_TaskID r = id /\ holds id r (w_db (ex_world e))
  | None => uncertain = true
  end -> base (snd (stopTaskPersistence row uncertain lost e)).
Proof.
  intros B S N. destruct (stop_persistence_run row uncertain lost e) as (t & p & u & c & -> & _ & T & U & _).
  destruct (U S) as [-> A]. apply (base_same e); [done|done|done| |done|]; cbn.
  - destruct T as [[-> _]|(r & -> & -> & _)]; [done|]. by rewrite (base_task _ B), (proj1 N).
  - intros _ _. destruct row as [r|]; [|by left]. right. right. unfold settles. cbn.
    destruct (A r eq_refl) as [-> _]. apply N.
Qed.

Lemma base_stop_uncertain e : base e -> base (snd (stopTaskPersistence None true false e)).
Proof.
  intros B. destruct (wc_taskPersistenceStopped e) eqn:S; [|by apply base_stop].
  destruct (stop_persistence_run None true false e) as (t & p & u & c & -> & _ & T & _ & _ & U & _).
  destruct T as [[-> ->]|(r & ? & _)]; [|done].
  apply (base_same e); [done..|]. intros Hc _. cbn. rewrite orb_false_r, (U S eq_refl). exact (Hc S).
Qed.

(** What persisting learns, for the controller's task. *)
Lemma persist_db t p : wq_TaskID t = id -> jobSchedulingTerminal p = false \/ wq_Status t = p ->
  ends base (db (persistWorkflowTaskSnapshot t p (task_updates t)))
    (fun r e => match r with
     | Ok None => holds id t (w_db (ex_world e))
     | Ok (Some row) => wq_TaskID row = id /\ holds id row (w_db (ex_world e))
     | Err _ => True
     end).
Proof.
  intros I P e B. unfold db.
  pose proof (persist_holds id taskPersistenceCASAttempts t p I P (ex_world e)) as T.
  unfold persistWorkflowTaskSnapshot. destruct (persist_attempts _ t p _ (ex_world e)) as [r w] eqn:R.
  by destruct (T r w (base_env _ B) (base_keyed _ B) eq_refl) as [[_ Ho] _].
Qed.

(** One acknowledgement. *)
Definition mid (t0 : WorkflowQueue) (p0 : string) (e : Exec) : Prop :=
  base e /\ wc_taskPersistenceStopped e = false /\ wc_task e = t0 /\ wc_persistedTaskStatus e = p0.

Definition updated (e : Exec) : Prop := base e /\ (wc_taskPersistenceStopped e = false -> settles e).

Lemma mid_kept {A} t0 p0 (m : C A) : keeps (outside (respectful id)) m -> ends (mid t0 p0) m (fun _ => mid t0 p0).
Proof.
  intros Hm e1 (B1 & S1 & T1 & P1). pose proof (Hm e1) as X. split; [by eapply base_outside|].
  by destruct X as (w & s & c & _ & _ & ->).
Qed.

(** Both facts of a program whose result is a fact about its end. *)
Lemma ends_and {A} P (m : C A) (Q Q' : A -> Exec -> Prop) :
  ends P m Q -> ends P m Q' -> ends P m (fun a e => Q a e /\ Q' a e).
Proof. intros H1 H2 e HP. auto. Qed.

Lemma update_stored t0 p0 : wq_TaskID t0 = id -> jobSchedulingTerminal p0 = false \/ wq_Status t0 = p0 ->
  ends (mid t0 p0) (do! authoritativeTask := db (persistWorkflowTaskSnapshot t0 p0 (task_updates t0)) in
     match authoritativeTask with
     | Err _ => stopTaskPersistence None true false
     | Ok (Some row) =>
         stopTaskPersistence (Some row) false (negb (workflowTaskExecutionIdentityEqual row t0))
     | Ok None =>
         do! _ := modify (fun e =>
           if negb (wc_taskPersistenceStopped e) && (wc_persistedTaskStatus e =? p0)%string
           then e <| wc_persistedTaskStatus := wq_Status t0 |> else e) in
         do! e := get_exec in
         terminalizePrecreatedVersionUpdateCleanupJobs (wq_TaskID t0) (wq_Status t0) (wc_terminalReason e)
     end) (fun _ => updated).
Proof.
  intros I J.
  assert (St : forall row u l, ends (fun e => mid t0 p0 e /\
      match row with Some r => wq_TaskID r = id /\ holds id r (w_db (ex_world e)) | None => u = true end)
    (stopTaskPersistence row u l) (fun _ => updated)).
  { intros row u l e1 [(B1 & S1 & _) R]. split; [by apply base_stop|]. by rewrite stop_persistence_stops. }
  eapply ends_bind.
  { apply ends_and; [apply mid_kept, kept_db, persist_protocol, J|].
    eapply ends_weaken; [|intros a e X; exact X|apply (persist_db t0 p0 I J)]. by intros e []. }
  intros [[row|]|x].
  - eapply ends_weaken; [|intros a e X; exact X|apply (St (Some row))]. by intros e [].
  - eapply ends_bind with (Mid := fun _ e => base e /\ settles e).
    { apply ends_modify. intros e [(B & S & T & P0) Ho]. rewrite <- T in Ho. destruct (_ && _); [|done].
      split; [|done]. apply (base_same e); [done..|]. intros _ S2. cbn in S2. congruence. }
    intros ?. eapply ends_bind; [apply ends_get with (Q := fun a e => base e /\ settles e); auto|]. intros e2.
    unfold terminalizePrecreatedVersionUpdateCleanupJobs. apply ends_if; intros _; [apply ends_ret; by intros e []|].
    eapply ends_bind with (Mid := fun _ e => base e /\ settles e); [|intros ?; apply ends_ret; by intros e []].
    intros e [B Ho]. pose proof (kept_db _ (precreated_protocol id (wq_TaskID t0) (wq_Status t0) (wc_terminalReason e2)) e) as O.
    split; [by eapply base_outside|by eapply settles_outside].
  - eapply ends_weaken; [|intros a e X; exact X|apply (St None true false)]. by intros e [].
Qed.

Lemma base_update : ends ackable updateWorkflowTask
  (fun _ => updated).
Proof.
  intros e [B J]. destruct (wc_taskPersistenceStopped e) eqn:S.
  { unfold updateWorkflowTask, cbind, get_exec. rewrite S. split; [done|]. unfold cret, snd. by rewrite S. }
  specialize (J eq_refl). set (t0 := wc_task e) in *. set (p0 := wc_persistedTaskStatus e) in *.
  assert (E : ends (fun e' => e' = e /\ mid t0 p0 e') updateWorkflowTask
    (fun _ => updated)); [|by apply E].
  unfold updateWorkflowTask.
  eapply ends_bind; [apply ends_get with (Q := fun a e1 => a = e /\ mid t0 p0 e1); by intros e1 [-> ?]|].
  intros a e1 [-> M]. rewrite S. fold t0 p0.
  revert e1 M. refine (ends_bind (mid t0 p0) ctx_cause _ (fun _ => mid t0 p0) (fun _ => updated) (mid_kept t0 p0 _ kept_poll) _ : ends (mid t0 p0) _ (fun _ => updated)). intros cause.
  eapply ends_bind; [apply mid_kept, kept_poll|]. intros err.
  eapply ends_bind; [apply mid_kept, kept_skipped|]. intros skip. apply ends_if; intros _.
  - intros e1 (B1 & S1 & _). split; [by apply base_stop|]. by rewrite stop_persistence_stops.
  - apply update_stored; [exact (base_task _ B)|destruct J; auto].
Qed.

Lemma act_update : ends act updateWorkflowTask (fun _ => act).
Proof.
  intros e A. pose proof (acked_update e) as K. destruct K.
  split; [apply (base_update e), act_ackable, A|rewrite acked_skip; apply A|]. destruct A as [_ _ O]. intros S.
  destruct (acked_live S) as (T & _ & _ & P).
  destruct (wc_taskPersistenceStopped e); [by rewrite acked_stopped in S|]. destruct (O eq_refl).
  split; rewrite ?T; [|done]. by destruct P as [-> | ->].
Qed.

(** After the last acknowledgement the store has settled on the end. *)
Lemma shut_update : ends ackable updateWorkflowTask (fun _ => shut).
Proof.
  intros e A. destruct (base_update e A) as [B St]. split; [split; [done|]|].
  - intros S. right. by rewrite (stored_update e S).
  - intros S. right. by apply St.
Qed.

(** *** Through the run *)

Lemma on_kept {A} (m : C A) : keeps (outside (respectful id)) m -> ends on m (fun _ => on).
Proof.
  intros K e [Ha S]. pose proof (K e) as O. split; [by eapply act_outside|].
  by destruct O as (w & s & c & _ & _ & ->).
Qed.

Lemma on_act {A} (m : C A) Q : ends act m Q -> ends on m Q.
Proof. intros E e [Ha _]. by apply E. Qed.

Lemma on_snapshot : ends on snapshotTask (fun _ => on).
Proof. by intros e. Qed.

Lemma act_run_jobs tasks n stop : ends on (RunJobs tasks n stop updateWorkflowTask) (fun _ => act).
Proof.
  intros e [Ha _].
  apply (run_jobs_acks (W := (respectful id)) tasks n stop updateWorkflowTask (fun e e' => act e -> act e')); [| | |exact Ha].
  - split; [by intros x|]. intros a b c X Y Z. by apply Y, X.
  - intros x. apply act_update.
  - intros x y O X. by eapply act_outside.
Qed.

Lemma base_emit e ev : not_callback ev -> base e -> base (e <| ex_log := (ex_log e ++ [ev])%list |>).
Proof.
  intros N [E D K T O Hc (evs & Hl & Hq)]. constructor; auto. cbn.
  exists (evs ++ [ev])%list. split; [by rewrite Hl, app_assoc|]. apply Forall_app. auto.
Qed.

Lemma act_emit ev : not_callback ev -> ends act (emit ev) (fun _ => act).
Proof. intros N e [B K O]. split; [by apply base_emit|done|done]. Qed.

(** Changes of an ongoing run that only touch the task or the run's own fields. *)
Lemma on_base (f : Exec -> Exec) e :
  on e -> ex_world (f e) = ex_world e -> ex_log (f e) = ex_log e ->
  wq_TaskID (wc_task (f e)) = wq_TaskID (wc_task e) -> wc_terminalCallbackOnce (f e) = wc_terminalCallbackOnce e ->
  wc_taskPersistenceStopped (f e) = wc_taskPersistenceStopped e -> base (f e).
Proof. intros [[B K O] S] W Lg T On S'. apply (base_same e); auto. intros _ X. congruence. Qed.

Lemma on_change (f : Exec -> Exec) e :
  on e -> ex_world (f e) = ex_world e -> ex_log (f e) = ex_log e ->
  wq_TaskID (wc_task (f e)) = wq_TaskID (wc_task e) -> wc_terminalCallbackOnce (f e) = wc_terminalCallbackOnce e ->
  wc_persistedTaskStatus (f e) = wc_persistedTaskStatus e ->
  wc_taskPersistenceStopped (f e) = wc_taskPersistenceStopped e -> ackable (f e).
Proof.
  intros Ho W Lg T On P S'. split; [by apply on_base|]. rewrite S', P. intros _. left. apply (act_open _ (proj1 Ho)), Ho.
Qed.

Lemma fin_modify (f : Exec -> Exec) :
  (forall e, ex_world (f e) = ex_world e /\ ex_log (f e) = ex_log e /\
     wq_TaskID (wc_task (f e)) = wq_TaskID (wc_task e) /\ wc_terminalCallbackOnce (f e) = wc_terminalCallbackOnce e /\
     wc_persistedTaskStatus (f e) = wc_persistedTaskStatus e /\
     wc_taskPersistenceStopped (f e) = wc_taskPersistenceStopped e /\
     (wr_skipExitAck (f e) = wr_skipExitAck e \/ wr_suppressTerminalCallback (f e) = true)) ->
  forall e, on e -> fin (f e).
Proof.
  intros F e Ho. destruct (F e) as (W & Lg & T & On & P & S & K). split; [by apply on_change|].
  intros Sk _. destruct K as [K|K]; [|by left]. rewrite K, (act_skip _ (proj1 Ho)) in Sk. done.
Qed.

Lemma on_set_step i : ends on (setCurrentStep i) (fun _ => on).
Proof.
  intros e Ho. pose proof Ho as [[B K O] S]. split; [|done]. split; [|done|done].
  by apply (on_base (fun e => e <| wc_task := (wc_task e) <| wq_CurrentStep := i |> |>)).
Qed.

Lemma shut_infrastructure :
  ends on stopForInfrastructureStop (fun s e => match s with None => on e | Some _ => shut e end).
Proof.
  unfold stopForInfrastructureStop. eapply ends_bind; [apply on_kept, kept_infrastructure|].
  intros stop. apply ends_if; intros _; [|by apply ends_ret].
  eapply ends_bind; [apply on_kept, kept_poll|]. intros c.
  eapply ends_bind with (Mid := fun _ => shut); [|intros ?; by apply ends_ret].
  intros e Ho. split; [by apply (on_change (fun e => e <| wr_skipExitAck := true |> <| wr_suppressTerminalCallback := true |>))|].
  intros _. by left.
Qed.

(** [stopAfterPersistence] keeps what holds of running and of ending states alike. *)
Lemma ends_after_stop (P : Exec -> Prop) :
  (forall e, P e -> ackable e) -> (forall e, P e -> P (snd (ctx_cause e))) ->
  ends P stopAfterPersistence
    (fun s e => match s with None => P e /\ wc_taskPersistenceStopped e = false | Some _ => shut e end).
Proof.
  intros HA HP. unfold stopAfterPersistence.
  eapply ends_bind; [exact (fun e p => HP e p : (fun _ => P) (fst (ctx_cause e)) _)|]. intros err.
  eapply ends_bind with (Mid := fun _ e => (wc_taskPersistenceStopped e = true /\ base e) \/ P e).
  { destruct err; [|apply ends_ret; by right]. intros x p. left. split; [apply stop_persistence_stops|].
    by apply base_stop_uncertain, HA. }
  intros ?. eapply ends_bind; [apply ends_get with (Q := fun a e => a = e /\ ((wc_taskPersistenceStopped e = true /\ base e) \/ P e)); auto|].
  intros a1 e [-> Hd]. unfold workflowRunStopResult. destruct (wc_taskPersistenceStopped e) eqn:S; cbn [negb].
  - assert (B : base e) by (destruct Hd as [[_ B]|p]; [done|apply (HA _ p)]).
    assert (X : forall e' : Exec, ex_world e' = ex_world e -> ex_log e' = ex_log e -> wc_task e' = wc_task e ->
      wc_terminalCallbackOnce e' = wc_terminalCallbackOnce e -> wc_taskPersistenceStopped e' = true ->
      (calm e -> calm e') -> shut e').
    { intros e' W Lg T On S' Hc. split; [split|]; [|by rewrite S'..]. by apply (base_same e); rewrite ?T. }
    unfold cbind, skip_exit_ack, set_failure_reason, modify, cret. by destruct (wc_taskPersistenceUncertain e); apply X.
  - cbn. destruct Hd as [[S' _]|p]; [congruence|done].
Qed.

Lemma shut_after : ends act stopAfterPersistence (fun s e => match s with None => on e | Some _ => shut e end).
Proof.
  eapply ends_weaken; [intros e A; exact A| |apply (ends_after_stop act act_ackable)].
  - intros [err|] e; done.
  - intros e A. eapply act_outside; [exact A|apply kept_poll].
Qed.

Lemma shut_finish i : ends on (finish_step i) (fun s e => match s with None => on e | Some _ => shut e end).
Proof.
  unfold finish_step. eapply ends_bind; [apply shut_infrastructure|]. intros [err|]; [by apply ends_ret|].
  eapply ends_bind; [apply on_set_step|]. intros ?. eapply ends_bind; [apply on_act, act_update|]. intros ?.
  apply shut_after.
Qed.
Lemma on_ret {A} (a : A) : ends on (cret a) (fun _ => fin).
Proof. apply ends_ret. intros e [A1 _]. by apply act_fin. Qed.

Lemma fin_skip : ends shut skip_exit_ack (fun _ => fin).
Proof.
  intros e [[B J] K]. split; [|intros _; exact K]. split; [|exact J]. by apply (base_same e).
Qed.

Lemma fin_reason x : ends fin (set_failure_reason x) (fun _ => fin).
Proof. intros e [[B J] K]. split; [split; [by apply (base_same e)|exact J]|exact K]. Qed.

Lemma fin_complete : ends on complete_workflow (fun _ => fin).
Proof.
  unfold complete_workflow. eapply ends_bind; [apply shut_infrastructure|].
  intros [err|]; [apply ends_ret; apply shut_fin|].
  set (P := shut).
  eapply ends_bind with (Mid := fun _ => P).
  { intros e Ho. unfold updateWorkflowStatus, cbind, mutateTask, modify.
    set (f := fun e : Exec => e <| wc_task := (wc_task e) <| wq_Status := StatusCompleted |>
      <| wq_ApprovalPending := false |> <| wq_PendingApprovalStep := ""%string |> |>).
    apply (shut_update (f e)). by apply (on_change f). }
  intros ?. eapply ends_bind; [apply (ends_after_stop P); [by intros e []|]|].
  - intros e [[B J] K]. pose proof (kept_poll e) as O. pose proof (base_outside _ _ B O) as B'.
    pose proof (settles_outside _ _ B O) as St. destruct O as (w & s & c & _ & _ & E). unfold P, shut, ackable, known in *.
    rewrite E in *. cbn in *. intuition.
  - intros [err|]; [apply ends_ret; apply shut_fin|].
    eapply ends_bind with (Mid := fun _ => fin); [|intros ?; by apply ends_ret].
    intros e [Sh S]. by apply fin_skip.
Qed.

Lemma shut_reload : ends on (reloadTaskSnapshot id) (fun _ => shut).
Proof.
  unfold reloadTaskSnapshot.
  eapply ends_bind with (Mid := fun r e => on e /\ forall row, r = Ok row -> wq_TaskID row = id /\ holds id row (w_db (ex_world e))).
  { apply ends_and; [apply on_kept, kept_db, guarantees_read_only; [auto with store]|].
    intros e [[B _ _] _]. unfold db. destruct (TaskByID id (ex_world e)) as [r w] eqn:R. cbn.
    assert (T : triple (task_protocol id) keyed (TaskByID id)
      (fun r d => forall row, r = Ok row -> wq_TaskID row = id /\ holds id row d)).
    { apply triple_Get; [apply _|apply keyed_stable|done|]. intros d row K L ? [= <-].
      split; [by apply K|by apply holds_row]. }
    by destruct (T _ _ _ (base_env _ B) (base_keyed _ B) R) as [Ho _]. }
  intros [row|x].
  - intros e [[[B K O] S] Ho]. destruct (Ho row eq_refl) as [T St].
    assert (B' : base (e <| wc_task := row |>)).
    { apply (base_same e); [done|done|done|cbn; by rewrite T, (base_task _ B)|done|]. intros _ X. cbn in X. congruence. }
    split; [split; [exact (base_emit _ (EvReload row) Logic.I B')|intros _; left; apply (O S)]|].
    intros _. right. exact St.
  - apply ends_if; intros _; apply ends_ret; intros e [[A _] _]; by apply act_shut.
Qed.

Lemma fin_approval s i : ends on (run_approval s i) (fun _ => fin).
Proof.
  unfold run_approval.
  eapply ends_bind with (Mid := fun r e => match r with Ok true => fin e | _ => shut e end).
  { assert (Stay : forall r, r <> Ok true -> ends on (cret r) (fun r e => match r with Ok true => fin e | _ => shut e end)).
    { intros r N. apply ends_ret. intros e [A _]. apply act_shut in A. by destruct r as [[|]|]. }
    unfold pauseAtApprovalStep.
    eapply ends_bind; [exact (fun e Ho => conj (base_task _ (act_base _ (proj1 Ho))) Ho : (fun t e => wq_TaskID t = id /\ on e) (wc_task e) e)|].
    intros t e [I Ho]. rewrite I, id_trimmed. revert e Ho.
    refine (_ : ends on _ (fun r e => match r with Ok true => fin e | _ => shut e end)).
    apply ends_if; intros _; [by apply Stay|].
    eapply ends_bind; [eapply ends_bind; [apply on_snapshot|intros t'; apply on_kept, kept_db, checkpoint_protocol]|].
    intros [[|]|x]; [| |by apply Stay].
    - eapply ends_bind with (Mid := fun _ => on).
      { intros e Ho. pose proof Ho as [[B K O] S]. split; [|done]. split; [|done|].
        - by apply (on_base (fun e => e <| wc_task := (wc_task e) <| wq_Status := StatusWaitingApprove |>
            <| wq_CurrentStep := i |> <| wq_ApprovalPending := true |>
            <| wq_PendingApprovalStep := approval_step_name s i |> |>)).
        - intros T. split; [apply (O T)|done]. }
      intros ?. eapply ends_bind with (Mid := fun _ => act); [|intros ?; apply ends_ret; apply act_fin].
      unfold triggerApprovalNotification. destruct (se_Approval s) as [ap|]; [apply ends_if; intros _|];
        try (by apply ends_ret; intros e []). by apply on_act, act_emit.
    - eapply ends_bind; [apply shut_reload|]. intros [x|]; [by apply ends_ret|].
      eapply ends_bind; [exact (fun e h => h : (fun _ => shut) (wc_task e) e)|]. intros t'.
      repeat (apply ends_if; intros _); by apply ends_ret. }
  intros [[|]|x]; [by apply ends_ret| |].
  - eapply ends_bind; [apply fin_skip|]. intros ?. by apply ends_ret.
  - eapply ends_bind; [apply fin_skip|]. intros ?. eapply ends_bind with (Mid := fun _ => fin); [|intros ?; by apply ends_ret].
    by apply fin_reason.
Qed.

Lemma fin_workspace x : ends on (fail_workspace x) (fun _ => fin).
Proof.
  intros e. refine (fin_modify (fun e => (e <| wr_failureReason := error_text x |> <| wr_suppressTerminalCallback := true |>)
    <| wc_task := (wc_task e) <| wq_Status := StatusFailed |> |>) _ e). intros e'. repeat split. by right.
Qed.

Lemma fin_stop_job err : ends act (stopForJobInfrastructure err) (fun _ => fin).
Proof.
  intros e [B K O]. unfold stopForJobInfrastructure, cbind, modify, cret, cancel_ctx. cbn.
  assert (X : forall e', ex_world e' = ex_world e -> ex_log e' = ex_log e -> wc_task e' = wc_task e ->
    wc_persistedTaskStatus e' = wc_persistedTaskStatus e -> wc_taskPersistenceStopped e' = wc_taskPersistenceStopped e ->
    wc_taskPersistenceUncertain e' = wc_taskPersistenceUncertain e -> wc_taskOwnershipLost e' = wc_taskOwnershipLost e ->
    wc_terminalCallbackOnce e' = wc_terminalCallbackOnce e -> wr_suppressTerminalCallback e' = true -> fin e').
  { intros e' E1 E2 E3 E4 E5 E6 E7 On E8. split; [split|].
    - apply (base_same e); rewrite ?E3; auto. unfold calm, settles. by rewrite E1, E3, E5, E6, E7.
    - rewrite E5, E3, E4. intros S. left. apply (O S).
    - intros _ _. by left. }
  destruct (ex_cause e); by apply X.
Qed.

Lemma fin_terminal st reason (x : error) : ends on
  (do! _ := setTerminalStatus st reason in do! e := get_exec in
   do! _ := set_failure_reason (wc_terminalReason e) in cret (Some x)) (fun _ => fin).
Proof.
  intros e. refine (fin_modify (fun e => e <| wc_terminalReason := TrimSpace reason |>
    <| wc_task := if (st =? StatusCancelled)%string
         then (wc_task e) <| wq_Status := st |> <| wq_SchedulingReason := TerminalCallbackPendingReason reason |>
         else (wc_task e) <| wq_Status := st |> |> <| wr_failureReason := TrimSpace reason |>) _ e).
  intros e'. repeat split; [cbn; by destruct (_ =? _)%string|by left].
Qed.

Lemma fin_abort reason task : ends on (abort_at reason task) (fun _ => fin).
Proof. apply fin_terminal. Qed.

Lemma fin_generation s err : ends on (run_generation_failure s err) (fun _ => fin).
Proof.
  unfold run_generation_failure. eapply ends_bind with (Mid := fun _ => on).
  { generalize (default [] (default ∅ (se_Jobs s) !! JobPriorityLow)). induction l as [|t l IH]; [by apply ends_ret|].
    cbn [save_cleanup_infos]. eapply ends_bind; [apply on_kept, kept_db, respectful_save|].
    intros [u|x]; [exact IH|by apply ends_ret]. }
  intros [x|]; [apply on_act, fin_stop_job|apply fin_terminal].
Qed.

(** Programs that go on, or end the run. *)
Definition on_or_fin {A} (r : option error + A) (e : Exec) : Prop :=
  match r with inl _ => fin e | inr _ => on e end.

Lemma on_return {A} (m : C (option (option error))) (k : C (option error + A)) P :
  ends P m (fun s e => match s with None => on e | Some _ => shut e end) ->
  ends on k on_or_fin -> ends P (return_if m k) on_or_fin.
Proof.
  intros Hm Hk. unfold return_if. eapply ends_bind; [exact Hm|]. intros [err|]; [apply ends_ret, shut_fin|exact Hk].
Qed.

Lemma on_workspace tasks appID : ends on (ensureWorkspaceForJobs tasks appID)
  (fun r e => match fst r with Ok _ => on e | Err _ => fin e end).
Proof.
  unfold ensureWorkspaceForJobs. apply ends_if; intros _; [by apply ends_ret|].
  destruct (requires_namespace tasks appID) as [need tasks']. apply ends_if; intros _; [by apply ends_ret|].
  eapply ends_bind; [apply on_kept, kept_db, respectful_ensure|]. intros [u|x]; [by apply ends_ret|].
  eapply ends_bind; [apply fin_workspace|]. intros ?. by apply ends_ret.
Qed.

Lemma on_runner tasks : ends on (ensureEvaluationRunner tasks)
  (fun r e => match r with None => on e | Some _ => fin e end).
Proof.
  unfold ensureEvaluationRunner. apply ends_if; intros _; [by apply ends_ret|].
  apply ends_if; intros _; [apply ends_ret; intros e [A _]; by apply act_fin|].
  eapply ends_bind; [apply on_kept, kept_db, respectful_runner|]. intros [u|x]; [by apply ends_ret|].
  eapply ends_bind; [apply fin_workspace|]. intros ?. by apply ends_ret.
Qed.

Lemma act_cleanup : ends on runWorkflowFailureCleanup (fun _ => act).
Proof.
  unfold runWorkflowFailureCleanup. eapply ends_bind; [apply on_snapshot|]. intros t.
  eapply ends_bind; [apply on_kept, kept_db, respectful_build|].
  assert (Stay : forall r : option error, ends on (cret r) (fun _ => act)) by (intros r; by apply ends_ret; intros e []).
  intros [[|j js]|x]; [apply Stay| |apply Stay].
  eapply ends_bind; [apply act_run_jobs|]. intros [err js']. eapply ends_bind; [by apply act_emit|]. intros ?.
  destruct err; by apply ends_ret.
Qed.

Lemma fin_fail name trigger primary : ends on (fail_at name trigger primary) (fun _ => fin).
Proof.
  unfold fail_at. destruct trigger; [|apply fin_abort]. eapply ends_bind; [apply act_cleanup|]. intros cl.
  eapply ends_bind; [apply shut_after|]. intros [err|]; [apply ends_ret, shut_fin|].
  destruct cl as [x|]; [|apply fin_abort]. apply ends_if; intros _; [apply on_act, fin_stop_job|apply fin_abort].
Qed.

Lemma on_group name appID n i s p tasks ready :
  ends on (run_group name appID n i s p tasks ready) on_or_fin.
Proof.
  unfold run_group. eapply ends_bind with (Mid := fun r e => match fst r with Ok _ => on e | Err _ => fin e end).
  { destruct ready; [by apply ends_ret|apply on_workspace]. }
  intros [[ns|x] ts]; cbn [fst]; [|by apply ends_ret].
  eapply ends_bind; [apply on_runner|]. intros [x|]; [by apply ends_ret|].
  eapply ends_bind; [apply act_run_jobs|]. intros [err ts'].
  eapply ends_bind; [by apply act_emit|]. intros ?. destruct err as [x|].
  { eapply ends_bind; [apply fin_stop_job|]. intros r. by apply ends_ret. }
  apply on_return; [apply shut_after|]. apply on_return; [apply shut_infrastructure|].
  destruct (first_from _ _ _); [|by apply ends_ret]. eapply ends_bind; [apply fin_fail|]. intros r. by apply ends_ret.
Qed.

Lemma on_groups name appID n i s jobs priorities ready :
  ends on (run_groups name appID n i s jobs priorities ready) on_or_fin.
Proof.
  revert ready. induction priorities as [|p ps IH]; intros ready; [by apply ends_ret|]. cbn [run_groups].
  destruct (default [] (jobs !! p)); [apply IH|]. eapply ends_bind; [apply on_group|].
  intros [err|r]; [by apply ends_ret|apply IH].
Qed.

Lemma fin_steps name appID n steps i ready : ends on (run_steps name appID n steps i ready) (fun _ => fin).
Proof.
  revert i ready. induction steps as [|s steps IH]; intros i ready; [apply fin_complete|]. cbn [run_steps].
  eapply ends_bind; [apply shut_infrastructure|]. intros [err|]; [apply ends_ret, shut_fin|].
  apply ends_if; intros _; [apply fin_approval|].
  assert (Next : forall r, ends on (stop! finish_step i; run_steps name appID n steps (i + 1) r) (fun _ => fin)).
  { intros r. eapply ends_bind; [apply shut_finish|]. intros [err|]; [apply ends_ret, shut_fin|apply IH]. }
  destruct (se_Jobs s); [|apply Next]. eapply ends_bind; [apply on_groups|].
  intros [err|r]; [by apply ends_ret|apply Next].
Qed.

Lemma fin_jobs_of_task n : ends on (run_jobs_of_task n) (fun _ => fin).
Proof.
  unfold run_jobs_of_task. eapply ends_bind; [apply on_snapshot|]. intros t.
  eapply ends_bind; [apply on_kept, kept_db, respectful_generate|]. intros [steps|x].
  - destruct (if workspaceManager then _ else _) as [steps' [x|]].
    + eapply ends_bind; [apply fin_workspace|]. intros ?. by apply ends_ret.
    + unfold runSteps. destruct steps' as [|s [|]]; try apply fin_steps.
      destruct (se_generationError s); [apply fin_generation|apply fin_steps].
  - eapply ends_bind; [eapply ends_weaken; [|idtac|apply fin_skip]|].
    + intros e [A _]. by apply act_shut.
    + intros a e F. exact F.
    + intros ?. eapply ends_bind with (Mid := fun _ => fin); [|intros ?; by apply ends_ret].
      apply fin_reason.
Qed.

(** *** The end of a run *)

Definition closed (e : Exec) : Prop := base e /\ (wc_taskPersistenceStopped e = false -> known e).

Lemma shut_closed e : shut e -> closed e.
Proof. intros [[B _] K]. by split. Qed.

Lemma closed_exit : ends fin exit_ack (fun _ => closed).
Proof.
  unfold exit_ack.
  eapply ends_bind; [apply ends_get with (Q := fun a e => a = e /\ fin e); auto|]. intros a e [-> F].
  destruct (wr_skipExitAck e) eqn:Sk; [split; [apply F|by apply F]|].
  destruct (_ && _) eqn:W; [|apply shut_closed, shut_update, F].
  split; [apply F|]. intros _. right. intros T. apply andb_prop in W as [W _]. apply String.eqb_eq in W.
  cbn in T. by rewrite W in T.
Qed.

Lemma closed_started n : ends on (run_started n) (fun _ => closed).
Proof.
  unfold run_started. eapply ends_bind; [apply shut_infrastructure|].
  intros [err|]; [apply ends_ret, shut_closed|].
  eapply ends_bind; [apply ends_get with (Q := fun a => on); auto|]. intros e0.
  eapply ends_bind with (Mid := fun _ => on).
  { intros e Ho. pose proof Ho as [[B K O] S]. unfold mutateTask, modify. cbn.
    split; [split; [|done|]|done].
    - set (f := fun e : Exec => e <| wc_task := if wq_CreateTime ((wc_task e) <| wq_Status := StatusRunning |>) =? time_zero
        then (wc_task e) <| wq_Status := StatusRunning |> <| wq_CreateTime := w_wall (ex_world e0) |>
        else (wc_task e) <| wq_Status := StatusRunning |> |>).
      assert (Bf : base (f e)) by (apply on_base; try done; unfold f; cbn; by destruct (_ =? _)). exact Bf.
    - intros _. split; [apply (O S)|]. cbn. by destruct (_ =? _). }
  intros ?. eapply ends_bind; [apply on_act, act_update|]. intros ?.
  eapply ends_bind; [apply shut_after|]. intros [err|]; [apply ends_ret, shut_closed|].
  eapply ends_bind; [apply shut_infrastructure|]. intros [err|]; [apply ends_ret, shut_closed|].
  eapply ends_bind; [apply fin_jobs_of_task|]. intros err.
  eapply ends_bind; [apply closed_exit|]. intros ?. by apply ends_ret.
Qed.

(** The callback of a run: none, or the last thing the run does, once, when the task
    ended in a status the store has settled on. *)
Definition announced (e : Exec) : Prop :=
  exists evs, Forall not_callback evs /\
    (ex_log e = (L0 ++ evs)%list \/
     exists status reason, ex_log e = (L0 ++ evs ++ [EvCallback status reason])%list /\
       once = false /\ wc_terminalCallbackOnce e = true /\
       status = wq_Status (wc_task e) /\ isWorkflowTerminal status = true /\
       terminalCallbackSuppressed e = false /\ wr_suppressTerminalCallback e = false /\ settles e).

(** What the next run of the task may start from. *)
Definition lasts (e : Exec) : Prop :=
  respectful id w0 (ex_world e) /\ env_respects (task_protocol id) (w_env (ex_world e)) /\
  wq_TaskID (wc_task e) = id.

Lemma base_lasts e : base e -> lasts e.
Proof. by intros []. Qed.

Definition ended (e : Exec) : Prop := announced e /\ lasts e.

Lemma ended_callback : ends closed deferred_callback (fun _ => ended).
Proof.
  intros e [[E D K T O Hc (evs & Hl & Hq)] Kn]. unfold deferred_callback, cbind, get_exec.
  assert (Quiet : ended e) by (split; [exists evs; auto|by split]).
  destruct (wr_suppressTerminalCallback e || terminalCallbackSuppressed e) eqn:Sup; [exact Quiet|].
  apply orb_false_iff in Sup as [Su Ts]. unfold triggerWorkflowCallbackOnce.
  destruct (negb (isWorkflowTerminal _)) eqn:Tm; [exact Quiet|]. unfold cbind, get_exec.
  destruct (wc_terminalCallbackOnce e) eqn:On; [exact Quiet|].
  split; [|by split]. exists evs. split; [done|]. right. eexists _, _. cbn. rewrite Hl, <- app_assoc.
  split; [reflexivity|]. split; [done|]. split; [done|]. split; [done|].
  split; [by apply negb_false_iff in Tm|]. split; [exact Ts|]. split; [exact Su|]. unfold settles. cbn.
  unfold terminalCallbackSuppressed in Ts. unfold calm, known, settles in *. rewrite Su in Kn.
  destruct (wc_taskPersistenceStopped e); [|by destruct (Kn eq_refl)]. cbn in Ts.
  apply orb_false_iff in Ts as [U L]. rewrite U, L in Hc. by destruct (Hc eq_refl) as [|[|]].
Qed.

(** A run from a task that has not ended. *)
Lemma ended_run n :
  ends (fun e => ex_log e = L0 /\ wc_terminalCallbackOnce e = once /\ ex_world e = w0 /\ keyed (w_db w0) /\
      env_respects (task_protocol id) (w_env (ex_world e)) /\ wq_TaskID (wc_task e) = id /\
      jobSchedulingTerminal (wq_Status (wc_task e)) = false) (run n) (fun _ => ended).
Proof.
  unfold run.
  eapply ends_bind with (Mid := fun _ e => base e /\ wc_taskPersistenceStopped e = false /\ open_status e).
  { intros [] (L & O & D & K & E & T & N). cbn in L, O, D, E, T, N. rewrite <- D in K.
    unfold open_status. cbn -[jobSchedulingTerminal]. split; [|auto].
    constructor; cbn; try done; [by rewrite D|]. exists []. rewrite L, app_nil_r. by split. }
  intros ?. eapply ends_bind with (Mid := fun _ => on).
  { intros e (B & S & N). split; [|exact S]. split; [|done|intros _; exact N]. by apply (base_same e). }
  intros ?. eapply ends_bind; [apply closed_started|]. intros err.
  eapply ends_bind; [apply ended_callback|]. intros ?.
  eapply ends_bind with (Mid := fun _ => ended); [|intros ?; by apply ends_ret]. by intros e.
Qed.
End Walk.

(** [Run] prepares a workspace first; without one it fails the task. *)
Section Prepared.
Context (id : string) `{!WorkflowDeps} `{!RespectfulDeps id} `{!JobRunnerLaws (respectful id)}.
Hypothesis id_trimmed : TrimSpace id = id.
Hypothesis prepared : forall t, guarantees (task_protocol id) (prepareWorkspace t).

(** What a run may start from. *)
Definition startable (e : Exec) : Prop :=
  keyed (w_db (ex_world e)) /\ env_respects (task_protocol id) (w_env (ex_world e)) /\ wq_TaskID (wc_task e) = id /\
  jobSchedulingTerminal (wq_Status (wc_task e)) = false.

Lemma lasts_run n e : startable e -> lasts id (ex_world e) (snd (run n e)).
Proof.
  intros (K & E & T & N).
  assert (X : ended id (ex_world e) (ex_log e) (wc_terminalCallbackOnce e) (snd (run n e))) by (apply ended_run; auto 10).
  by destruct X.
Qed.

Lemma lasts_failed e : startable e ->
  lasts id (ex_world e) (snd ((do! _ := resetTaskPersistenceForRun in
      do! _ := mutateTask (fun task => task <| wq_Status := StatusFailed |>) in updateWorkflowTask) e)).
Proof.
  intros (K & E & T & N). unfold cbind. cbn [fst snd resetTaskPersistenceForRun mutateTask modify].
  match goal with |- lasts _ _ (snd (updateWorkflowTask ?e1)) => set (e1' := e1) end.
  apply (base_lasts id _ (ex_log e) (wc_terminalCallbackOnce e)).
  apply (shut_update id (ex_world e) (ex_log e) (wc_terminalCallbackOnce e) e1').
  subst e1'. destruct e as [w sg c t pers st unc lost term reason rc fr sk sup lg]. cbn in *.
  split; [|intros _; by left]. constructor; cbn; try done. exists []. by rewrite app_nil_r.
Qed.

Lemma lasts_trans w w' e : respectful id w w' -> lasts id w' e -> lasts id w e.
Proof. intros P (P' & E & T). split; [by etransitivity|by split]. Qed.

Lemma lasts_Run n e : startable e -> lasts id (ex_world e) (snd (Run n e)).
Proof.
  intros S. unfold Run, cbind, snapshotTask, get_exec. cbn [fst snd].
  pose proof (kept_db id _ (prepared (wc_task e)) e) as (w1 & s1 & c1 & W & _ & E1).
  destruct (db (prepareWorkspace (wc_task e)) e) as [r e1]. cbn [snd] in E1. subst e1.
  destruct S as (K & E & T & N). destruct (respectful_run _ _ _ W E) as [E1 P1].
  apply (lasts_trans _ w1); [exact W|].
  set (e1 := e <| ex_world := w1 |> <| ex_signals := s1 |> <| ex_cause := c1 |>).
  assert (S1 : startable e1) by (split; [by apply P1|]; destruct e; auto).
  destruct r as [workspaceID|err].
  - apply (lasts_run n (snd (mutateTask (fun task => task <| wq_WorkspaceID := workspaceID |>) e1))).
    destruct S1 as (? & ? & ? & ?). repeat split; destruct e; auto.
  - pose proof (lasts_failed e1 S1) as L. revert L. unfold cbind. cbn [resetTaskPersistenceForRun mutateTask modify].
    by destruct (updateWorkflowTask _).
Qed.
End Prepared.

(** C14: a terminal status is final.  While a controller runs a task that has not
    ended, let every commit of the other sessions keep the task's row as the protocol
    asks: its generation does not go back, within a generation a terminal status stays,
    so that a cancellation or a timeout decided elsewhere is for good, and a deleted
    row stays deleted.  Then, whatever is committed while the run goes on, and whenever
    its context is cancelled, each single write of the run respects it too, on the row
    as the others have left it by then, and what each commit of another session in the
    middle of the run leaves is respected to the run's end: also a terminal status that
    is committed then is never overwritten within its generation.  So it does from the
    start of the run to its end.  The code the run calls is assumed to respect the row in
    the same way, write by write. *)
Theorem terminal_status_final `{!WorkflowDeps} id n e :
  RespectfulDeps id -> JobRunnerLaws (respectful id) -> TrimSpace id = id ->
  wq_TaskID (wc_task e) = id -> jobSchedulingTerminal (wq_Status (wc_task e)) = false ->
  keyed (w_db (ex_world e)) -> env_respects (task_protocol id) (w_env (ex_world e)) ->
  let d := w_db (ex_world e) in
  let d' := w_db (ex_world (snd (run n e))) in
  commits (task_protocol id) (ex_world e) (ex_world (snd (run n e))) /\
  lasting (task_protocol id) (ex_world e) (ex_world (snd (run n e))) /\ keyed d' /\
  match db_queue d !! id, db_queue d' !! id with
  | Some r, Some r' =>
      wq_RunGeneration r <= wq_RunGeneration r' /\
      (wq_RunGeneration r' = wq_RunGeneration r -> jobSchedulingTerminal (wq_Status r) = true ->
       wq_Status r' = wq_Status r)
  | None, r' => r' = None
  | _, None => True
  end.
Proof.
  intros RD JL Tr I N K E d d'.
  assert (X : ended id (ex_world e) (ex_log e) (wc_terminalCallbackOnce e) (snd (run n e))) by (apply ended_run; auto 10).
  revert X. subst d'. generalize (snd (run n e)). intros e' [_ [C _]].
  destruct (respectful_run _ _ _ C E) as [_ [K' P]]. split; [exact C|].
  split; [apply commits_lasting; [apply _|exact C|exact E]|]. split; [by apply K'|].
  subst d. by destruct (db_queue (w_db (ex_world e)) !! id) as [r|], (db_queue (w_db (ex_world e')) !! id) as [r'|].
Qed.

(** C34: a run announces only what is settled.  Under the same rely, a run sends at
    most one terminal callback, none when one was sent before, and sends it last,
    after everything else it did; when it does, the announced status is the task's, it
    is terminal, ownership was not lost and persistence is not uncertain, and the
    task's row, if it is still there and of the same generation, has exactly that
    status.  In particular a run that loses its lease, or cannot tell whether its last
    write went through, announces nothing. *)
Theorem callback_announces_settled `{!WorkflowDeps} id n e :
  RespectfulDeps id -> JobRunnerLaws (respectful id) -> TrimSpace id = id ->
  wq_TaskID (wc_task e) = id -> jobSchedulingTerminal (wq_Status (wc_task e)) = false ->
  keyed (w_db (ex_world e)) -> env_respects (task_protocol id) (w_env (ex_world e)) ->
  let e' := snd (run n e) in
  exists evs, Forall not_callback evs /\
    (ex_log e' = (ex_log e ++ evs)%list \/
     exists status reason, ex_log e' = (ex_log e ++ evs ++ [EvCallback status reason])%list /\
       wc_terminalCallbackOnce e = false /\ wc_terminalCallbackOnce e' = true /\
       status = wq_Status (wc_task e') /\ isWorkflowTerminal status = true /\
       (wc_taskPersistenceStopped e' = true ->
        wc_taskOwnershipLost e' = false /\ wc_taskPersistenceUncertain e' = false) /\
       forall row, db_queue (w_db (ex_world e')) !! id = Some row ->
         wq_RunGeneration row <= wq_RunGeneration (wc_task e') -> wq_Status row = status).
Proof.
  intros RD JL Tr I N K E. cbn zeta.
  assert (X : ended id (ex_world e) (ex_log e) (wc_terminalCallbackOnce e) (snd (run n e)))
    by (apply ended_run; auto 10).
  revert X. generalize (snd (run n e)). intros e' [(evs & Q & A) _]. exists evs. split; [exact Q|].
  destruct A as [A|(status & reason & A & O & O' & -> & T & S & _ & St)]; [by left|right].
  exists (wq_Status (wc_task e')), reason. split; [exact A|]. split; [exact O|]. split; [exact O'|].
  split; [done|]. split; [exact T|]. split.
  - intros X. unfold terminalCallbackSuppressed in S. rewrite X in S. cbn in S.
    apply orb_false_iff in S as [U L]. by split.
  - intros row L G. specialize (St (terminal_workflow _ T)). rewrite L in St. destruct St as [|[_ ->]]; [lia|done].
Qed.

(** ** Witnesses *)

(** Another session cancels the sample task, unless it has ended. *)
Definition sample_cancel (d : Database) : Database :=
  match db_queue d !! "task"%string with
  | Some r =>
      if jobSchedulingTerminal (wq_Status r) then d
      else with_table (<["task"%string := r <| wq_Status := StatusCancelled |>]> (table d)) d
  | None => d
  end.

Lemma sample_cancel_respects d : task_protocol "task" d (sample_cancel d).
Proof.
  unfold sample_cancel. destruct (db_queue d !! "task"%string) as [r|] eqn:L; [|reflexivity].
  destruct (jobSchedulingTerminal (wq_Status r)) eqn:T; [reflexivity|].
  apply task_protocol_insert with r; [exact L|done|]. split; [cbn; lia|]. by rewrite T.
Qed.

#[export] Instance sample_respectful : RespectfulDeps (H := sample_deps) "task".
Proof. split; cbn; intros; apply guarantees_read_only; auto with store. Qed.

Definition sample_env : list EnvEvent := [EnvQuiet; EnvWrite sample_cancel].

Lemma sample_env_respects : env_respects (task_protocol "task") sample_env.
Proof.
  constructor; [intros d; exact (reflexivity d)|]. constructor; [intros d; exact (sample_cancel_respects d)|constructor].
Qed.

Lemma sample_keyed env : keyed (w_db (ex_world (sample_exec env))).
Proof.
  intros x r. cbn. intros L. apply lookup_singleton_Some in L as [<- <-]. reflexivity.
Qed.

(** What is respected to the end after that commit: the task has ended. *)
Lemma sample_ended w w' r r' :
  lasting (task_protocol "task") w w' -> w_env w = sample_env -> w_env w' = [] ->
  db_queue (w_db w) !! "task"%string = Some r -> db_queue (w_db w') !! "task"%string = Some r' ->
  wq_RunGeneration r' = wq_RunGeneration r -> jobSchedulingTerminal (wq_Status r') = true.
Proof.
  intros La E1 E2 L L' G. destruct (La [EnvQuiet] (EnvWrite sample_cancel) []) as (d1 & [_ P1] & [_ P2]);
    [exact E1|by rewrite E2|]. rewrite L in P1. rewrite L' in P2. cbn [env_apply] in P2. unfold sample_cancel in P2.
  destruct (db_queue d1 !! "task"%string) as [r1|] eqn:L1; [|by rewrite L1 in P2].
  destruct (jobSchedulingTerminal (wq_Status r1)) eqn:T.
  - rewrite L1 in P2. destruct P1 as [P1 _], P2 as [P2 S]. rewrite S; [done|lia|done].
  - cbn in P2. rewrite lookup_insert_eq in P2. destruct P1 as [P1 _], P2 as [P2 S]. cbn in P2, S. rewrite S; [done|lia|done].
Qed.

(** The task is cancelled while it runs: the run leaves it so. *)
Lemma terminal_status_final_witness :
  let e' := snd (run (H := sample_deps) 1 (sample_exec sample_env)) in
  keyed (w_db (ex_world e')) /\ commits (task_protocol "task") (ex_world (sample_exec sample_env)) (ex_world e') /\
  exists row, db_queue (w_db (ex_world e')) !! "task"%string = Some row /\ jobSchedulingTerminal (wq_Status row) = true.
Proof.
  cbv zeta. pose proof (terminal_status_final (H := sample_deps) "task" 1 (sample_exec sample_env) sample_respectful
    (sample_runner_laws _) eq_refl eq_refl eq_refl (sample_keyed _) sample_env_respects) as T.
  assert (B : (wq_RunGeneration <$> db_queue (w_db (ex_world (snd (run (H := sample_deps) 1 (sample_exec sample_env))))) !! "task"%string)
    = Some 1) by (vm_compute; reflexivity).
  assert (N : w_env (ex_world (snd (run (H := sample_deps) 1 (sample_exec sample_env)))) = []) by (vm_compute; reflexivity).
  revert B N T. cbv zeta. generalize (snd (run (H := sample_deps) 1 (sample_exec sample_env))). intros e' B N (C & La & K & _).
  split; [exact K|]. split; [exact C|].
  destruct (db_queue (w_db (ex_world e')) !! "task"%string) as [row|] eqn:L; [|discriminate B]. injection B as G.
  exists row. split; [reflexivity|]. eapply sample_ended; [exact La|reflexivity|exact N|reflexivity|exact L|exact G].
Defined.

(** ... and announces the cancellation. *)
Lemma callback_announces_settled_witness :
  let e' := snd (run (H := sample_deps) 1 (sample_exec sample_env)) in
  ex_log e' = [EvCallback StatusCancelled ""%string] /\
  forall row, db_queue (w_db (ex_world e')) !! "task"%string = Some row ->
    wq_RunGeneration row <= wq_RunGeneration (wc_task e') -> wq_Status row = StatusCancelled.
Proof.
  assert (B : ex_log (snd (run (H := sample_deps) 1 (sample_exec sample_env))) = [EvCallback StatusCancelled ""%string])
    by (vm_compute; reflexivity).
  pose proof (callback_announces_settled (H := sample_deps) "task" 1 (sample_exec sample_env) sample_respectful
    (sample_runner_laws _) eq_refl eq_refl eq_refl (sample_keyed _) sample_env_respects) as T.
  revert B T. cbv zeta. generalize (snd (run (H := sample_deps) 1 (sample_exec sample_env))). intros e' B T.
  split; [exact B|]. destruct T as (evs & Q & [A|(status & reason & A & _ & _ & _ & _ & _ & St)]).
  - rewrite B in A. cbn in A. subst evs. by inversion_clear Q.
  - rewrite B in A. cbn in A. destruct evs as [|ev evs]; [|by destruct evs].
    injection A as <- <-. exact St.
Defined.
