(* ===== verification/Creation.v ===== *)
(** Creation budgets: [pkg/apiserver/domain/repository/resource_creation_budget.go],
    [sandbox_start_budget.go] and
    [domain/model/resource_creation_budget.go].

    [ReserveResourceCreation] is a rate limiter kept in one database row: its
    [AvailableAt] runs ahead of the clock by one interval per permit, at most a
    burst ahead.  [ReserveSandboxStart] counts the sandboxes that are starting.
    Both hold the lock of the policy row.  Durations are int64 nanoseconds. *)

From S2P Require Import Prelude GoStrings Config Json Quantity Policy Model Store Lease.
From S2P Require Import LeaseProtocol Hoare Budget Scheduler Admission.

Definition resourceCreationReservation (now available previousInterval interval burst : Z)
    : Z * Z :=
  let available :=
    if available <? now then now
    else if (0 <? previousInterval) && negb (previousInterval =? interval) && (now <? available)
    then
      let remaining := time_sub available now in
      let whole := Z.quot remaining previousInterval in
      let remainder := Z.rem remaining previousInterval in
      let previousMicros := Z.quot previousInterval Microsecond in
      let intervalMicros := Z.quot interval Microsecond in
      let remainderMicros := Z.quot (i64 (remainder + Microsecond - 1)) Microsecond in
      let fractionMicros :=
        Z.quot (i64 (i64 (remainderMicros * intervalMicros) + previousMicros - 1)) previousMicros in
      let fraction := i64 (fractionMicros * Microsecond) in
      let scaled := i64 (i64 (whole * interval) + fraction) in
      now + scaled
    else available in
  let earliest := available + i64 (i64 (- (burst - 1)) * interval) in
  if now <? earliest then (available, time_sub earliest now)
  else (available + interval, 0).

(** [InitializeUnknownInterval] *)
Definition InitializeUnknownInterval (b : ResourceCreationBudget) (now interval burst : Z)
    : ResourceCreationBudget :=
  if negb (rb_IntervalMicros b =? 0) then b else
  let b :=
    if now <? rb_AvailableAt b then
      let fullDebt := now + i64 (burst * interval) in
      if rb_AvailableAt b <? fullDebt then b <| rb_AvailableAt := fullDebt |> else b
    else b in
  b <| rb_IntervalMicros := Z.quot interval Microsecond |>.

Definition creation_budget_id : string := "jobs-and-sandboxes".
Definition new_budget : ResourceCreationBudget :=
  Build_ResourceCreationBudget creation_budget_id time_zero 0 time_zero time_zero.

(** The permit interval of a policy, rounded up to microseconds. *)
Definition creation_interval (p : JobSchedulerPolicy) : Z :=
  f64_ceil (f64_div (f64_of_Z 1000000) (ResourceCreationQPS p)) * Microsecond.

(** The row after a reservation, whether it changed, and the wait. *)
Definition reserve_row (now : Z) (p : JobSchedulerPolicy) (create : bool)
    (budget : ResourceCreationBudget) : ResourceCreationBudget * bool * Z :=
  let interval := creation_interval p in
  let unknownInterval := negb create && (rb_IntervalMicros budget =? 0) in
  let budget := if unknownInterval
                then InitializeUnknownInterval budget now interval (ResourceCreationBurst p)
                else budget in
  let previousInterval := i64 (rb_IntervalMicros budget * Microsecond) in
  let '(next, delay) := resourceCreationReservation now (rb_AvailableAt budget) previousInterval
                          interval (ResourceCreationBurst p) in
  let intervalMicros := Z.quot interval Microsecond in
  let changed := create || unknownInterval || negb (rb_IntervalMicros budget =? intervalMicros) ||
                 negb (rb_AvailableAt budget =? next) in
  (budget <| rb_AvailableAt := next |> <| rb_IntervalMicros := intervalMicros |>, changed, delay).

Definition lock_policy_row (missing : error) : M unit :=
  let! locked := CompareAndSwap (E := SystemSetting) SystemSettingTypeWorkflowScheduler "type"
    (CEq (VStr SystemSettingTypeWorkflowScheduler)) [] in
  guard! locked else missing;
  ret tt.

Definition reserve_creation : M Z :=
  let! _ := lock_policy_row ErrRecordNotExist in
  let! policy := LoadJobSchedulerPolicy in
  let! now := currentWorkflowDatabaseTime in
  let! found := try (Get (E := ResourceCreationBudget) creation_budget_id) in
  let! loaded :=
    match found with
    | Ok budget => ret (budget, false)
    | Err e => if errors_is ErrRecordNotExist e then ret (new_budget, true) else throw e
    end in
  let '(budget, create) := loaded in
  let '(budget, changed, wait) := reserve_row now policy create budget in
  if negb changed then ret wait
  else if (create : bool) then let! _ := Add (E := ResourceCreationBudget) budget in ret wait
  else let! _ := Put (E := ResourceCreationBudget) budget in ret wait.

Definition ReserveResourceCreation : M Z :=
  wrap_error "reserve resource creation" (WithReadCommittedTransaction reserve_creation).

(** ** Sandbox starts *)

(** A scoped store offers the count as an aggregate of its own; it is the same
    count over all workspaces. *)
Definition reserve_start (id : string) : M bool :=
  let! _ := lock_policy_row ErrRecordNotExist in
  let! policy := LoadJobSchedulerPolicy in
  let! row := GetForUpdate (E := JobSandbox) id in
  if negb (sb_SlotReserved row) || sb_ReleaseRequested row ||
     (sb_State row =? "released")%string || (sb_State row =? "failed")%string ||
     negb (str_empty (sb_PodUID row))
  then ret false
  else if sb_StartReserved row then ret true
  else
    let! count := Count (E := JobSandbox)
      (Index (job_sandbox_zero <| sb_StartReserved := true |>)) no_filter in
    if MaxStartingSandboxes policy <=? count then ret false
    else CompareAndSwap (E := JobSandbox) (sb_ID row) "id" (CEq (VStr id))
           [("start_reserved"%string, VBool true)].

Definition ReserveSandboxStart (id : string) : M bool :=
  guard! negb (str_empty id)
    else Errorf "sandbox start budget requires identity and read-committed transactions";
  wrap_error "reserve sandbox start" (WithReadCommittedTransaction (reserve_start id)).

(** ** Running alone *)

(** What the rate limiter remembers. *)
Definition budget_state (d : Database) : option (Z * Z) :=
  (fun b => (rb_AvailableAt b, rb_IntervalMicros b)) <$> db_budgets d !! creation_budget_id.

Definition budget_table_ok (d : Database) : Prop :=
  forall b, db_budgets d !! creation_budget_id = Some b -> rb_ID b = creation_budget_id.

Definition settings_ok (d : Database) : Prop :=
  forall s, db_settings d !! SystemSettingTypeWorkflowScheduler = Some s ->
    ss_Type s = SystemSettingTypeWorkflowScheduler.

Definition loaded_budget (d : Database) : ResourceCreationBudget * bool :=
  match db_budgets d !! creation_budget_id with
  | Some b => (b, false)
  | None => (new_budget, true)
  end.

Lemma seq_lock missing d t s :
  db_settings d !! SystemSettingTypeWorkflowScheduler = Some s ->
  ss_Type s = SystemSettingTypeWorkflowScheduler ->
  lock_policy_row missing (seqw d t) =
    (Ok tt, seqw (d <| db_settings := <[SystemSettingTypeWorkflowScheduler :=
                      s <| ss_UpdateTime := t |>]> (db_settings d) |>) t).
Proof.
  intros L K. unfold lock_policy_row, CompareAndSwap.
  erewrite bind_ok by (apply (seq_cas_true (E := SystemSetting) _ _ _ s); try done;
    unfold conds_hold; cbn; by rewrite K, String.eqb_refl).
  reflexivity.
Qed.

Lemma seq_load_policy d t p : policy_in_force p d ->
  LoadJobSchedulerPolicy (seqw d t) = (Ok p, seqw d t).
Proof.
  intros (raw & Hr & Hp). unfold scheduler_policy in Hr. apply fmap_Some in Hr as (s & L & ->).
  unfold LoadJobSchedulerPolicy.
  erewrite bind_ok by (by apply wrap_ok, (seq_Get (E := SystemSetting))).
  unfold lift_result. by rewrite Hp.
Qed.

(** Storing the budget row keeps its two columns. *)
Definition store_budget (create : bool) (b : ResourceCreationBudget) (wait : Z) : M Z :=
  if create then let! _ := Add (E := ResourceCreationBudget) b in ret wait
  else let! _ := Put (E := ResourceCreationBudget) b in ret wait.

Lemma put_budget entity row :
  rb_ID entity = creation_budget_id -> rb_ID row = creation_budget_id ->
  rb_AvailableAt entity <> time_zero -> rb_IntervalMicros entity <> 0 ->
  let row' := put_row entity row in
  rb_ID row' = creation_budget_id /\ rb_AvailableAt row' = rb_AvailableAt entity /\
  rb_IntervalMicros row' = rb_IntervalMicros entity.
Proof.
  intros I I' Ha Hi. cbv zeta. unfold put_row. cbn. rewrite I. cbn.
  rewrite (proj2 (Z.eqb_neq _ _) Ha), (proj2 (Z.eqb_neq _ _) Hi). cbn.
  destruct (rb_CreateTime entity =? time_zero), (rb_UpdateTime entity =? time_zero); done.
Qed.

Lemma seq_store_budget d t b create wait :
  rb_ID b = creation_budget_id -> rb_AvailableAt b <> time_zero -> rb_IntervalMicros b <> 0 ->
  (if create : bool then db_budgets d !! creation_budget_id = None
   else exists row, db_budgets d !! creation_budget_id = Some row /\ rb_ID row = creation_budget_id) ->
  exists d', store_budget create b wait (seqw d t) = (Ok wait, seqw d' t) /\
    budget_state d' = Some (rb_AvailableAt b, rb_IntervalMicros b) /\ budget_table_ok d' /\
    db_settings d' = db_settings d /\ db_clock_micro d' = db_clock_micro d.
Proof.
  intros I Ha Hi Hrow. unfold store_budget, budget_state, budget_table_ok. destruct create.
  - eexists. split.
    { unfold Add. cbn [PrimaryKey primary_empty Entity_ResourceCreationBudget]. rewrite I. cbn [negb].
      erewrite bind_ok; [reflexivity|]. apply seq_statement. cbn. rewrite I, Hrow. reflexivity. }
    cbn. rewrite lookup_insert_eq. cbn. split; [done|split; [|done]].
    intros b' [= <-]. exact I.
  - destruct Hrow as (row & L & Ir).
    destruct (put_budget (b <| rb_UpdateTime := t |>) row) as (I' & A' & M'); try done.
    remember (put_row (b <| rb_UpdateTime := t |>) row) as row' eqn:Erow.
    exists (d <| db_budgets := <[creation_budget_id := row']> (db_budgets d) |>). split.
    { unfold Put. cbn [PrimaryKey primary_empty Entity_ResourceCreationBudget]. rewrite I. cbn [negb].
      rewrite (bind_ok _ _ _ tt (seqw (d <| db_budgets :=
        <[creation_budget_id := row']> (db_budgets d) |>) t)); [reflexivity|].
      apply seq_statement. cbn -[put_row]. by rewrite I, L, Erow. }
    cbn. rewrite lookup_insert_eq. cbn. split; [|split; [|done]].
    + rewrite A', M'. done.
    + intros b' [= <-]. exact I'.
Qed.

Lemma reserve_row_id now p create b : rb_ID (fst (fst (reserve_row now p create b))) = rb_ID b.
Proof.
  unfold reserve_row, InitializeUnknownInterval.
  destruct (resourceCreationReservation _ _ _ _ _) as [next delay]. cbn. by repeat case_goal.
Qed.

Lemma reserve_row_unchanged now p create b :
  snd (fst (reserve_row now p create b)) = false ->
  create = false /\
  rb_AvailableAt (fst (fst (reserve_row now p create b))) = rb_AvailableAt b /\
  rb_IntervalMicros (fst (fst (reserve_row now p create b))) = rb_IntervalMicros b.
Proof.
  unfold reserve_row. destruct (negb create && (rb_IntervalMicros b =? 0)) eqn:U;
    destruct (resourceCreationReservation _ _ _ _ _) as [next delay]; cbn;
    rewrite ?orb_true_r; cbn; [done|]. intros E. bool_to_prop. subst. auto.
Qed.

(** The effect of one reservation, run alone. *)
Lemma reserve_run d t p :
  policy_in_force p d -> settings_ok d -> budget_table_ok d -> 0 < db_clock_micro d ->
  let now := db_clock_micro d * Microsecond in
  let '(b, create) := loaded_budget d in
  let '(b', changed, wait) := reserve_row now p create b in
  rb_AvailableAt b' <> time_zero -> rb_IntervalMicros b' <> 0 ->
  exists d', ReserveResourceCreation (seqw d t) = (Ok wait, seqw d' t) /\
    budget_state d' = Some (rb_AvailableAt b', rb_IntervalMicros b') /\ budget_table_ok d' /\
    scheduler_policy d' = scheduler_policy d /\ settings_ok d' /\
    db_clock_micro d' = db_clock_micro d.
Proof.
  intros Hp Hs Ht Hc now.
  destruct (loaded_budget d) as [b create] eqn:El.
  destruct (reserve_row now p create b) as [[b' changed] wait] eqn:Er. intros Ha Hi.
  pose proof Hp as (raw & Hraw & _). unfold scheduler_policy in Hraw.
  apply fmap_Some in Hraw as (s & L & Eraw).
  set (d1 := d <| db_settings := <[SystemSettingTypeWorkflowScheduler :=
               s <| ss_UpdateTime := t |>]> (db_settings d) |>).
  assert (Hpol : scheduler_policy d1 = scheduler_policy d).
  { unfold scheduler_policy. cbn. by rewrite lookup_insert_eq, L. }
  assert (Hs1 : settings_ok d1).
  { intros s'. cbn. rewrite lookup_insert_eq. intros [= <-]. cbn. by apply Hs. }
  assert (Hp1 : policy_in_force p d1) by (unfold policy_in_force; by rewrite Hpol).
  unfold ReserveResourceCreation.
  enough (exists d', reserve_creation (seqw d t) = (Ok wait, seqw d' t) /\
    budget_state d' = Some (rb_AvailableAt b', rb_IntervalMicros b') /\ budget_table_ok d' /\
    db_settings d' = db_settings d1 /\ db_clock_micro d' = db_clock_micro d) as (d' & E & HS & HT & HQ & HC).
  { exists d'. rewrite (wrap_ok _ _ _ wait (seqw d' t)) by by apply seq_transaction_ok.
    split; [done|split; [done|split; [done|split]]].
    - rewrite <- Hpol. unfold scheduler_policy. by rewrite HQ.
    - split; [|done]. intros s'. rewrite HQ. apply Hs1. }
  unfold reserve_creation.
  erewrite bind_ok by (apply (seq_lock _ d t s); [done|by apply Hs]). fold d1.
  erewrite bind_ok by (by apply (seq_load_policy d1 t p)).
  erewrite bind_ok by (apply seq_task_clock; exact Hc).
  change (db_clock_micro d1 * Microsecond) with now.
  pose proof (reserve_row_id now p create b) as Hid. rewrite Er in Hid. cbn in Hid.
  assert (Store : rb_ID b = creation_budget_id ->
    (if create : bool then db_budgets d1 !! creation_budget_id = None
     else exists row, db_budgets d1 !! creation_budget_id = Some row /\ rb_ID row = creation_budget_id) ->
    exists d', store_budget create b' wait (seqw d1 t) = (Ok wait, seqw d' t) /\
      budget_state d' = Some (rb_AvailableAt b', rb_IntervalMicros b') /\ budget_table_ok d' /\
      db_settings d' = db_settings d1 /\ db_clock_micro d' = db_clock_micro d).
  { intros Hb Hrow. exact (seq_store_budget d1 t b' create wait (eq_trans Hid Hb) Ha Hi Hrow). }
  unfold loaded_budget in El.
  destruct (db_budgets d !! creation_budget_id) as [b0|] eqn:Lb; injection El as <- <-.
  - erewrite bind_ok by (apply try_run, (seq_Get (E := ResourceCreationBudget)); [done|done|exact Lb]).
    cbn beta iota. unfold bind at 1, ret at 1. cbn beta iota. rewrite Er.
    destruct changed; cbn [negb].
    + apply Store; [by apply Ht|]. exists b0. split; [exact Lb|by apply Ht].
    + pose proof (reserve_row_unchanged now p false b0) as Hun. rewrite Er in Hun.
      destruct (Hun eq_refl) as (_ & EA & EM). cbn in EA, EM. exists d1. split; [done|].
      split; [|by split; [exact Ht|]]. unfold budget_state. cbn. rewrite Lb. cbn. by rewrite EA, EM.
  - erewrite bind_ok by (apply try_run; unfold Get; apply seq_statement; cbn; by rewrite Lb).
    cbn beta iota. change (errors_is ErrRecordNotExist ErrRecordNotExist) with true.
    cbn beta iota. unfold bind at 1, ret at 1. cbn beta iota. rewrite Er.
    destruct changed; cbn [negb].
    + apply Store; [done|exact Lb].
    + pose proof (reserve_row_unchanged now p true new_budget) as Hun. rewrite Er in Hun.
      by destruct (Hun eq_refl).
Qed.

(** ** The rate *)

(** A validated policy has an interval of at most ten seconds and a burst of at
    most a thousand. *)
Definition rate_ok (interval burst : Z) : Prop :=
  0 < interval <= 10000000 * Microsecond /\ Z.rem interval Microsecond = 0 /\ 1 <= burst <= 1000.

Lemma time_sub_pos a b : b < a -> 0 < time_sub a b.
Proof. unfold time_sub, min_int64, max_int64. lia. Qed.

Lemma burst_product interval burst : rate_ok interval burst ->
  i64 (i64 (- (burst - 1)) * interval) = - (burst - 1) * interval.
Proof.
  intros ([? ?] & _ & ? & ?). unfold Microsecond in *.
  rewrite (i64_small (- (burst - 1))) by (unfold in_int64, min_int64, max_int64; lia).
  apply i64_small. unfold in_int64, min_int64, max_int64. nia.
Qed.

(** With an unchanged interval, a reservation compares the debt with the burst. *)
Lemma reservation_same now available interval burst previous :
  rate_ok interval burst -> previous = interval \/ previous = 0 \/ available <= now ->
  let a := Z.max available now in
  resourceCreationReservation now available previous interval burst =
    if now <? a - (burst - 1) * interval
    then (a, time_sub (a - (burst - 1) * interval) now) else (a + interval, 0).
Proof.
  intros R Hp a. unfold resourceCreationReservation. rewrite (burst_product _ _ R).
  assert (Ea : (if available <? now then now
    else if (0 <? previous) && negb (previous =? interval) && (now <? available) then
      now + i64 (i64 (Z.quot (time_sub available now) previous * interval) +
        i64 (Z.quot (i64 (i64 (Z.quot (i64 (Z.rem (time_sub available now) previous + Microsecond - 1))
          Microsecond * Z.quot interval Microsecond) + Z.quot previous Microsecond - 1))
          (Z.quot previous Microsecond) * Microsecond))
    else available) = a).
  { unfold a. destruct (Z.ltb_spec available now); [lia|].
    destruct (_ && _) eqn:E; [|lia]. exfalso. bool_to_prop. lia. }
  cbv zeta. rewrite Ea. replace (a + - (burst - 1) * interval) with (a - (burst - 1) * interval) by lia.
  done.
Qed.

Definition micros_ok (p : JobSchedulerPolicy) : Prop :=
  rate_ok (creation_interval p) (ResourceCreationBurst p).

Lemma interval_micros interval burst : rate_ok interval burst ->
  0 < Z.quot interval Microsecond /\ i64 (Z.quot interval Microsecond * Microsecond) = interval.
Proof.
  intros ([H1 H2] & Hr & _). unfold Microsecond in *.
  pose proof (Z.quot_rem interval 1000). assert (E : Z.quot interval 1000 * 1000 = interval) by lia.
  rewrite E. split; [lia|]. apply i64_small. unfold in_int64, min_int64, max_int64. lia.
Qed.

(** The limiter of a database: no row yet, or a row of the policy's interval. *)
Definition limiter (p : JobSchedulerPolicy) (d : Database) (debt : option Z) : Prop :=
  match debt with
  | None => budget_state d = None
  | Some available => budget_state d = Some (available, Z.quot (creation_interval p) Microsecond)
  end.

Definition debt_at (debt : option Z) (now : Z) : Z :=
  match debt with Some available => Z.max available now | None => now end.

Definition limiter_ok (p : JobSchedulerPolicy) (d : Database) : Prop :=
  policy_in_force p d /\ settings_ok d /\ budget_table_ok d /\ 0 < db_clock_micro d.

Definition clock_now (d : Database) : Z := db_clock_micro d * Microsecond.

Lemma reserve_limiter p d t debt :
  micros_ok p -> limiter_ok p d -> limiter p d debt ->
  let now := clock_now d in
  let a := debt_at debt now in
  let free := a - (ResourceCreationBurst p - 1) * creation_interval p in
  exists d', limiter_ok p d' /\ db_clock_micro d' = db_clock_micro d /\
    (if now <? free
     then ReserveResourceCreation (seqw d t) = (Ok (time_sub free now), seqw d' t) /\
          limiter p d' (Some a)
     else ReserveResourceCreation (seqw d t) = (Ok 0, seqw d' t) /\
          limiter p d' (Some (a + creation_interval p))).
Proof.
  intros R (Hp & Hs & Ht & Hc) L now a free. unfold micros_ok in R.
  destruct (interval_micros _ _ R) as [Mpos Mi].
  pose proof (reserve_run d t p Hp Hs Ht Hc) as Run. cbv zeta in Run. fold (clock_now d) now in Run.
  assert (Na : now <= a) by (unfold a, debt_at; destruct debt; lia).
  assert (Hpos : 0 < now) by (unfold now, clock_now, Microsecond; lia).
  assert (Tz : time_zero < 0) by reflexivity.
  assert (HT : 0 < creation_interval p) by apply R.
  assert (Row : exists changed, exists b : ResourceCreationBudget,
    let '(b0, create) := loaded_budget d in
    reserve_row now p create b0 = (b, changed, if now <? free then time_sub free now else 0) /\
    rb_AvailableAt b = (if now <? free then a else a + creation_interval p) /\
    rb_IntervalMicros b = Z.quot (creation_interval p) Microsecond).
  { unfold limiter, budget_state, loaded_budget in *. unfold reserve_row.
    destruct debt as [available|]; destruct (db_budgets d !! creation_budget_id) as [b0|]; try done;
      try (injection L as La Lm).
    - rewrite Lm. assert (Mz : (Z.quot (creation_interval p) Microsecond =? 0) = false)
        by (apply Z.eqb_neq; lia).
      rewrite Mz. cbn [negb andb]. rewrite Lm, Mi, La.
      rewrite reservation_same by auto. cbn [debt_at] in a. fold a free.
      destruct (now <? free); cbn; eauto.
    - cbn [negb andb].
      change (rb_AvailableAt new_budget) with time_zero.
      change (i64 (rb_IntervalMicros new_budget * Microsecond)) with 0.
      rewrite reservation_same by auto.
      replace (Z.max time_zero now) with a by (unfold a; cbn; lia). fold free.
      destruct (now <? free); cbn; eauto. }
  destruct Row as (changed & b & Row). destruct (loaded_budget d) as [b0 create].
  destruct Row as (Er & Ea & Em). rewrite Er in Run.
  destruct Run as (d' & E & HS & HT' & HQ & HSt & HC).
  - rewrite Ea. destruct (now <? free); lia.
  - rewrite Em. lia.
  - exists d'. split; [|split; [done|]].
    + split; [|split; [done|split; [done|lia]]]. unfold policy_in_force. by rewrite HQ.
    + rewrite Ea, Em in HS. by destruct (now <? free).
Qed.

(** Other sessions between two reservations: the rows stay, the clock advances. *)
Definition later (d d' : Database) : Prop :=
  budget_state d' = budget_state d /\ scheduler_policy d' = scheduler_policy d /\
  (settings_ok d -> settings_ok d') /\ (budget_table_ok d -> budget_table_ok d') /\
  db_clock_micro d <= db_clock_micro d'.

(** A history of reservations, each with its time and its answer. *)
Inductive reservations : Database -> list (Z * Z) -> Database -> Prop :=
  | reservations_nil d : reservations d [] d
  | reservations_step d d1 d2 d3 t wait l :
      ReserveResourceCreation (seqw d t) = (Ok wait, seqw d1 t) -> later d1 d2 ->
      reservations d2 l d3 -> reservations d ((clock_now d, wait) :: l) d3.

Definition permits (l : list (Z * Z)) : Z :=
  Z.of_nat (length (List.filter (fun e => snd e =? 0) l)).

Definition last_time (l : list (Z * Z)) (t : Z) : Z := List.last (map fst l) t.

Lemma later_limiter p d d' debt :
  later d d' -> limiter_ok p d -> limiter p d debt -> limiter_ok p d' /\ limiter p d' debt.
Proof.
  intros (HB & HP & HS & HT & HC) (Pp & Ss & Tt & Cc) L. split.
  - split; [unfold policy_in_force in *; by rewrite HP|]. split; [auto|split; [auto|lia]].
  - unfold limiter in *. by rewrite HB.
Qed.

Lemma last_time_cons t wait l d : last_time ((t, wait) :: l) d = last_time l t.
Proof. unfold last_time. cbn [map fst]. apply last_cons. Qed.

Lemma permits_cons t wait l :
  permits ((t, wait) :: l) = permits l + (if wait =? 0 then 1 else 0).
Proof. unfold permits. cbn. destruct (wait =? 0); cbn [length]; lia. Qed.

Lemma history_bound p d l d' : reservations d l d' -> forall debt,
  micros_ok p -> limiter_ok p d -> limiter p d debt ->
  (forall t, t <= clock_now d -> t <= last_time l t) /\
  (0 < permits l ->
   debt_at debt (clock_now d) + permits l * creation_interval p <=
     last_time l (clock_now d) + ResourceCreationBurst p * creation_interval p).
Proof.
  induction 1 as [d|d d1 d2 d3 w wait l E HL _ IH]; intros debt R Ok L.
  { split; [intros t Ht; reflexivity|]. intros Hp. by unfold permits in Hp. }
  destruct (reserve_limiter p d w debt R Ok L) as (dx & Ok1 & Hc & Run).
  set (now := clock_now d) in *. set (a := debt_at debt now) in *.
  set (T := creation_interval p) in *. set (B := ResourceCreationBurst p) in *.
  assert (HT : 0 < T) by apply R.
  assert (Na : now <= a) by (unfold a, debt_at; destruct debt; lia).
  assert (Later : forall debt1, dx = d1 -> limiter p dx debt1 ->
    now <= clock_now d2 /\ limiter_ok p d2 /\ limiter p d2 debt1).
  { intros debt1 -> L1. destruct (later_limiter p d1 d2 debt1 HL Ok1 L1) as [Ok2 L2].
    split; [|done]. destruct HL as (_ & _ & _ & _ & HC). unfold now, clock_now.
    apply Z.mul_le_mono_nonneg_r; [unfold Microsecond; lia|lia]. }
  assert (Step : exists granted : bool, (wait =? 0) = granted /\ dx = d1 /\
    limiter p dx (Some (a + (if granted then T else 0))) /\
    (granted = true -> a + T <= now + B * T)).
  { destruct (Z.ltb_spec now (a - (B - 1) * T)) as [Hlt|Hge]; destruct Run as [Run L1];
      rewrite E in Run; injection Run as -> ->.
    - exists false. rewrite Z.add_0_r. split; [|done]. apply Z.eqb_neq.
      pose proof (time_sub_pos _ _ Hlt). lia.
    - exists true. split; [done|split; [done|split; [done|]]]. intros _. lia. }
  destruct Step as (granted & Ew & -> & L1 & Hg).
  destruct (Later _ eq_refl L1) as (Hn & Ok2 & L2).
  destruct (IH _ R Ok2 L2) as [IH1 IH2]. cbn [debt_at] in IH2. split.
  - intros t Ht. rewrite last_time_cons. etransitivity; [exact Ht|]. by apply IH1.
  - rewrite last_time_cons, permits_cons, Ew. intros Hpos. specialize (IH1 now Hn).
    assert (Lt : last_time l now = last_time l (clock_now d2) \/ l = []).
    { unfold last_time. destruct l as [|[x y] l']; [by right|left]. cbn [map fst]. by rewrite !last_cons. }
    destruct (Z.le_gt_cases (permits l) 0) as [Hz|Hz].
    + assert (E0 : permits l = 0) by (unfold permits in *; lia). rewrite E0 in *.
      destruct granted; [|lia]. specialize (Hg eq_refl). lia.
    + specialize (IH2 Hz). destruct Lt as [Lt| ->]; [|by unfold permits in Hz].
      rewrite Lt. destruct granted; lia.
Qed.

(** C36: the creation rate is bounded.  In any window of a history of reservations
    under one policy, made one at a time because each holds the policy lock, the
    number of granted permits beyond the burst is at most the elapsed time over
    the permit interval, whatever happened before the window. *)
Theorem creation_rate_bound p d l d' debt :
  micros_ok p -> limiter_ok p d -> limiter p d debt -> reservations d l d' ->
  (permits l - ResourceCreationBurst p) * creation_interval p <=
    last_time l (clock_now d) - clock_now d.
Proof.
  intros R Ok L Hres. destruct (history_bound p d l d' Hres debt R Ok L) as [H1 H2].
  specialize (H1 (clock_now d) ltac:(reflexivity)).
  assert (HT : 0 < creation_interval p) by apply R.
  assert (HB : 1 <= ResourceCreationBurst p) by apply R.
  destruct (Z.le_gt_cases (permits l) 0) as [Hz|Hz]; [nia|]. specialize (H2 Hz).
  assert (clock_now d <= debt_at debt (clock_now d)) by (unfold debt_at; destruct debt; lia). lia.
Qed.

(** A refused reservation costs nothing and waiting is enough.  A reservation
    answers with a wait exactly when the debt exceeds the burst; it then leaves
    the debt as it was, and after that wait, if nobody else reserved meanwhile,
    the next reservation is granted at once. *)
Theorem refused_reservation p d t debt :
  micros_ok p -> limiter_ok p d -> limiter p d debt ->
  exists wait d1, ReserveResourceCreation (seqw d t) = (Ok wait, seqw d1 t) /\ 0 <= wait /\
    (wait = 0 <-> debt_at debt (clock_now d) <=
                  clock_now d + (ResourceCreationBurst p - 1) * creation_interval p) /\
    (0 < wait -> limiter p d1 debt) /\
    (wait < max_int64 -> forall d2 t2, later d1 d2 -> 0 < wait ->
       clock_now d + wait <= clock_now d2 ->
       exists d3, ReserveResourceCreation (seqw d2 t2) = (Ok 0, seqw d3 t2)).
Proof.
  intros R Ok L. destruct (reserve_limiter p d t debt R Ok L) as (d1 & Ok1 & Hc & Run).
  set (now := clock_now d) in *. set (a := debt_at debt now) in *.
  set (T := creation_interval p) in *. set (B := ResourceCreationBurst p) in *.
  assert (HBT : 0 <= (B - 1) * T) by (destruct R as ([? ?] & _ & ? & ?); unfold B, T; nia).
  destruct (Z.ltb_spec now (a - (B - 1) * T)) as [Hlt|Hge]; destruct Run as [Run L1].
  - assert (Ha : debt = Some a).
    { unfold a, debt_at in *. destruct debt as [x|]; [|lia]. f_equal. lia. }
    exists (time_sub (a - (B - 1) * T) now), d1. pose proof (time_sub_pos _ _ Hlt) as Hpos.
    split; [done|split; [lia|split; [|split]]].
    + split; intros; lia.
    + intros _. by rewrite Ha.
    + intros Hmax d2 t2 HL _ Hclk.
      destruct (later_limiter p d1 d2 (Some a) HL Ok1 L1) as [Ok2 L2].
      destruct (reserve_limiter p d2 t2 (Some a) R Ok2 L2) as (d3 & _ & _ & Run3).
      cbn [debt_at] in Run3. exists d3. fold T B in Run3.
      replace (clock_now d2 <? Z.max a (clock_now d2) - (B - 1) * T) with false in Run3; [by destruct Run3|].
      symmetry. apply Z.ltb_ge. unfold time_sub in *.
      unfold min_int64, max_int64 in *. lia.
  - exists 0, d1. split; [done|split; [lia|split; [|split]]].
    + split; intros; lia.
    + lia.
    + intros _ d2 t2 _ ?. lia.
Qed.

(** ** A change of rate *)

Lemma ceil_div a b : 0 <= a -> 0 < b -> a <= Z.quot (a + b - 1) b * b < a + b.
Proof.
  intros Ha Hb. rewrite Z.quot_div_nonneg by lia.
  pose proof (Z.div_mod (a + b - 1) b ltac:(lia)). pose proof (Z.mod_pos_bound (a + b - 1) b Hb). nia.
Qed.

(** Changing the rate keeps the debt.  When the policy's interval changes, the
    outstanding debt, measured in permits, is carried over: the rescaled debt is
    never shorter than the old one, and longer by less than a microsecond; the
    reservation then goes on as with an unchanged interval. *)
Theorem rescaled_debt now remaining previous interval burst :
  rate_ok interval burst -> rate_ok previous burst -> previous <> interval ->
  0 < remaining <= burst * previous -> Z.rem remaining Microsecond = 0 ->
  exists scaled,
    remaining * interval <= scaled * previous < remaining * interval + Microsecond * previous /\
    resourceCreationReservation now (now + remaining) previous interval burst =
      resourceCreationReservation now (now + scaled) interval interval burst.
Proof.
  intros RI RP Ne Hr Hm.
  assert (HI := RI). assert (HP := RP). destruct HI as ([HI1 HI2] & HI3 & HB), HP as ([HP1 HP2] & HP3 & _).
  unfold Microsecond in *.
  assert (Hmax : remaining <= 1000 * 10000000000) by nia.
  set (Im := Z.quot interval 1000). set (Pm := Z.quot previous 1000).
  assert (EI : interval = Im * 1000) by (pose proof (Z.quot_rem interval 1000); unfold Im; lia).
  assert (EP : previous = Pm * 1000) by (pose proof (Z.quot_rem previous 1000); unfold Pm; lia).
  set (whole := Z.quot remaining previous). set (part := Z.rem remaining previous).
  assert (Eq : remaining = previous * whole + part) by (apply Z.quot_rem'; lia).
  assert (Bp : 0 <= part < previous) by (apply Z.rem_bound_pos; lia).
  assert (Bw : 0 <= whole <= burst) by (unfold whole; rewrite Z.quot_div_nonneg by lia;
    split; [apply Z.div_pos; lia|apply Z.div_le_upper_bound; lia]).
  assert (Hpart : exists m, part = m * 1000).
  { pose proof (Z.quot_rem remaining 1000 ltac:(lia)) as E. exists (Z.quot remaining 1000 - Pm * whole). nia. }
  destruct Hpart as [m Em].
  assert (Em' : Z.quot (i64 (part + 1000 - 1)) 1000 = m).
  { rewrite i64_small by (unfold in_int64, min_int64, max_int64; lia).
    rewrite Z.quot_div_nonneg by lia. symmetry. apply Z.div_unique with (r := 999); lia. }
  set (fraction := Z.quot (m * Im + Pm - 1) Pm).
  assert (Bf : m * Im <= fraction * Pm < m * Im + Pm) by (apply ceil_div; nia).
  assert (Bf2 : 0 <= fraction <= Im).
  { assert (HmP : (m + 1) * Im <= Pm * Im) by (apply Z.mul_le_mono_nonneg_r; lia).
    split; [apply Z.quot_pos; nia|].
    apply Z.lt_succ_r, (Z.mul_lt_mono_pos_r Pm); [lia|]. rewrite Z.mul_succ_l. lia. }
  exists (whole * interval + fraction * 1000). split.
  - rewrite Eq. rewrite Em. nia.
  - unfold resourceCreationReservation.
    replace (now + remaining <? now) with false by (symmetry; apply Z.ltb_ge; lia).
    assert (Hs : 0 <= whole * interval + fraction * 1000) by nia.
    replace (now + (whole * interval + fraction * 1000) <? now) with false
      by (symmetry; apply Z.ltb_ge; lia).
    replace (0 <? previous) with true by (symmetry; apply Z.ltb_lt; lia).
    replace (previous =? interval) with false by (symmetry; by apply Z.eqb_neq).
    replace (now <? now + remaining) with true by (symmetry; apply Z.ltb_lt; lia).
    rewrite (Z.eqb_refl interval), andb_false_r. cbn [negb andb].
    replace (time_sub (now + remaining) now) with remaining
      by (unfold time_sub, min_int64, max_int64; lia).
    unfold Microsecond. fold whole part Im Pm. cbv zeta. rewrite Em'.
    rewrite (i64_small (m * Im)) by (unfold in_int64, min_int64, max_int64; nia).
    rewrite (i64_small (m * Im + Pm - 1)) by (unfold in_int64, min_int64, max_int64; nia).
    fold fraction.
    rewrite (i64_small (fraction * 1000)) by (unfold in_int64, min_int64, max_int64; nia).
    rewrite (i64_small (whole * interval)) by (unfold in_int64, min_int64, max_int64; nia).
    rewrite (i64_small (whole * interval + fraction * 1000))
      by (unfold in_int64, min_int64, max_int64; nia).
    done.
Qed.

(** ** Sandbox starts *)

Definition starting_ids (d : Database) : gset string :=
  dom (filter (fun kr => sb_StartReserved (snd kr) = true) (db_sandboxes d)).

Definition starting_count (d : Database) : Z := Z.of_nat (size (starting_ids d)).

Lemma starting_elem d id :
  id ∈ starting_ids d <-> exists r, db_sandboxes d !! id = Some r /\ sb_StartReserved r = true.
Proof.
  unfold starting_ids. rewrite elem_of_dom. split.
  - intros [r Hr]. apply map_lookup_filter_Some in Hr as [L A]. eauto.
  - intros (r & L & A). exists r. by apply map_lookup_filter_Some.
Qed.

(** What a start relies on: the policy row is locked, and no other commit marks a
    sandbox as starting. *)
Definition start_rely (d d' : Database) : Prop :=
  scheduler_policy d' = scheduler_policy d /\ starting_ids d' ⊆ starting_ids d.

#[export] Instance start_rely_preorder : PreOrder start_rely.
Proof.
  split; [by intros d|]. intros a b c [P1 S1] [P2 S2]. split; [congruence|set_solver].
Qed.

Lemma starting_filter d :
  Z.of_nat (length (List.filter
    (row_matches (E := JobSandbox) (Index (job_sandbox_zero <| sb_StartReserved := true |>))
       no_filter) (rows d))) =
  starting_count d.
Proof.
  assert (M : forall r, row_matches (E := JobSandbox) (Index (job_sandbox_zero <| sb_StartReserved := true |>))
                no_filter r = sb_StartReserved r).
  { intros r. unfold row_matches. cbn. by destruct (sb_StartReserved r). }
  unfold starting_count, starting_ids. rewrite size_dom. f_equal.
  match goal with |- context [List.filter _ ?l] =>
    change l with (map snd (map_to_list (db_sandboxes d))) end. generalize (db_sandboxes d) as m. intros m.
  induction m as [|k r m L IH] using map_ind.
  { by rewrite map_to_list_empty, map_filter_empty, map_size_empty. }
  assert (Pm : map snd (map_to_list (<[k := r]> m)) ≡ₚ r :: map snd (map_to_list m)).
  { rewrite (map_to_list_insert _ _ _ L). done. }
  rewrite (Permutation_length (filter_perm _ _ _ Pm)). cbn [List.filter]. rewrite M.
  destruct (sb_StartReserved r) eqn:E; cbn [length]; rewrite IH.
  - rewrite map_filter_insert_True by done. rewrite map_size_insert_None; [done|].
    apply map_lookup_filter_None. by left.
  - by rewrite map_filter_insert_not' by (cbn; intros; congruence).
Qed.

Lemma starting_insert d id (row' : JobSandbox) :
  starting_count (with_table (<[id := row']> (table d)) d) <= starting_count d + 1.
Proof.
  unfold starting_count.
  assert (Hs : starting_ids (with_table (<[id := row']> (table d)) d) ⊆ {[id]} ∪ starting_ids d).
  { intros k Hk. apply starting_elem in Hk as (r & L & A). cbn in L.
    destruct (decide (id = k)) as [->|Ne]; [set_solver|].
    rewrite lookup_insert_ne in L by done. apply elem_of_union_r, starting_elem. eauto. }
  apply subseteq_size in Hs. pose proof (size_union_alt {[id]} (starting_ids d)) as Hu.
  rewrite size_singleton in Hu.
  assert (size (starting_ids d ∖ {[id]}) <= size (starting_ids d))%nat
    by (apply subseteq_size; intros k; rewrite elem_of_difference; tauto). lia.
Qed.

Section Start.
Context (d0 : Database).

Lemma stable_start d1 : stable start_rely (start_rely d1).
Proof. intros d d' HR H1. by transitivity d. Qed.

Lemma start_lock missing :
  triple start_rely (start_rely d0) (lock_policy_row missing) (on_ok (fun _ => start_rely d0)).
Proof.
  unfold lock_policy_row, CompareAndSwap. apply triple_bind_ok with (Mid := fun _ => start_rely d0).
  - apply triple_cas; [apply _|apply stable_start|done|done|].
    intros now d row row' R0 L _ Hu. cbn in Hu. injection Hu as <-.
    refine (stable_start d0 d _ _ R0). split; [|done].
    unfold scheduler_policy. cbn. cbn in L. rewrite L. by rewrite lookup_insert_eq.
  - intros [|]; [by apply triple_ret|by apply triple_throw].
Qed.

Lemma start_policy :
  triple start_rely (start_rely d0) LoadJobSchedulerPolicy
    (on_ok (fun p d => policy_in_force p d0 /\ start_rely d0 d)).
Proof.
  unfold LoadJobSchedulerPolicy.
  apply triple_bind_ok with (Mid := fun s d => scheduler_policy d0 = Some (ss_Value s) /\ start_rely d0 d).
  - apply triple_wrap. apply triple_Get; [apply _|apply stable_start|done|].
    intros d row R0 L. split; [|done]. rewrite <- (proj1 R0). unfold scheduler_policy.
    cbn in L. by rewrite L.
  - intros s. apply triple_pure. intros Es. apply triple_lift. intros d R0.
    destruct (ParseJobSchedulerPolicy (ss_Value s)) as [p|e] eqn:E; [|done]. cbn.
    split; [|done]. by exists (ss_Value s).
Qed.

(** The bound holds wherever the transaction commits. *)
Definition within (p : JobSchedulerPolicy) (d : Database) : Prop :=
  starting_count d <= Z.max (starting_count d0) (MaxStartingSandboxes p).

Lemma stable_within p : stable start_rely (within p).
Proof.
  intros d d' [_ HS] H. unfold within, starting_count in *. apply subseteq_size in HS. lia.
Qed.

Lemma rely_within p d : start_rely d0 d -> within p d.
Proof.
  intros [_ HS]. unfold within, starting_count. apply subseteq_size in HS. lia.
Qed.

Lemma reserve_start_spec id :
  triple start_rely (start_rely d0) (reserve_start id)
    (on_ok (fun _ d => exists p, policy_in_force p d0 /\ within p d)).
Proof.
  unfold reserve_start. eapply triple_bind_ok; [apply start_lock|]. intros [].
  eapply triple_bind_ok; [apply start_policy|]. intros p. apply triple_pure. intros Hp.
  assert (Done : forall b : bool, triple start_rely (start_rely d0) (ret b)
    (on_ok (fun _ d => exists p, policy_in_force p d0 /\ within p d))).
  { intros b. apply triple_ret. intros d R0. exists p. split; [done|]. by apply rely_within. }
  apply triple_bind_ok with (Mid := fun _ => start_rely d0).
  { apply triple_Get; [apply _|apply stable_start|done|]. auto. }
  intros row. apply triple_if; intros _; [apply Done|]. apply triple_if; intros _; [apply Done|].
  apply triple_bind_ok with (Mid := fun c d => start_rely d0 d /\ starting_count d <= c).
  { apply triple_Count; [apply _|apply stable_start|done|]. intros d R0. split; [done|].
    rewrite starting_filter. reflexivity. }
  intros c. apply triple_if; intros Hc.
  - eapply triple_weaken; [|intros r d Hd; exact Hd|apply Done]. by intros d [R0 _].
  - apply Z.leb_gt in Hc. unfold CompareAndSwap.
    apply triple_cas; [apply _| |done| |].
    + intros d d' HR [R0 Hd]. split; [by eapply stable_start|].
      destruct HR as [_ HS]. unfold starting_count in *. apply subseteq_size in HS. lia.
    + intros d [R0 _] _. exists p. split; [done|]. by apply rely_within.
    + intros now d row0 row' [R0 Hd] _ _ _. exists p. split; [done|].
      pose proof (starting_insert d (sb_ID row) row') as Hi. unfold within. lia.
Qed.
End Start.

(** Sandbox starts are bounded.  Whatever the other sessions commit meanwhile,
    as long as they respect the policy lock and mark no sandbox as starting
    themselves, a reservation that commits leaves at most [MaxStartingSandboxes]
    starting sandboxes, unless there were more before, and then not one more. *)
Theorem sandbox_start_bound id w b w' :
  env_respects start_rely (w_env w) -> ReserveSandboxStart id w = (Ok b, w') ->
  exists p, policy_in_force p (w_db w) /\
    starting_count (w_db w') <= Z.max (starting_count (w_db w)) (MaxStartingSandboxes p).
Proof.
  intros He E. set (d0 := w_db w) in *.
  assert (Tr : triple start_rely (start_rely d0) (ReserveSandboxStart id)
    (on_ok (fun _ d => exists p, policy_in_force p d0 /\ within d0 p d))).
  { unfold ReserveSandboxStart. apply triple_if; intros _; [|by apply triple_throw].
    apply triple_wrap. eapply triple_weaken; [done| |apply triple_transaction].
    - intros r d Hr. instantiate (1 := on_ok (fun _ d => exists p, policy_in_force p d0 /\ within d0 p d)) in Hr.
      by destruct r.
    - apply _.
    - unfold reserve_start, lock_policy_row, CompareAndSwap, GetForUpdate. store_step.
    - apply stable_start.
    - intros a d d' HR (p & Hp & Hw). exists p. split; [done|]. by eapply stable_within.
    - done.
    - apply reserve_start_spec. }
  destruct (Tr w (Ok b) w' He) as [(p & Hp & Hw) _]; [reflexivity|done|]. eauto.
Qed.

(** *** A concrete limiter: the default policy, five permits a second with a burst
    of ten, and two reservations a second apart. *)

Definition default_setting : SystemSetting :=
  Build_SystemSetting SystemSettingTypeWorkflowScheduler
    (RawValue (policy_json DefaultJobSchedulerPolicy)) 0 0.

Definition limiter_db : Database :=
  (db_empty (1000 * 1000000)) <| db_settings := {[SystemSettingTypeWorkflowScheduler := default_setting]} |>.

Definition reserved_db : Database := w_db (snd (ReserveResourceCreation (seqw limiter_db 0))).
Definition later_db : Database := reserved_db <| db_clock_micro := 1001 * 1000000 |>.
Definition later_reserved_db : Database := w_db (snd (ReserveResourceCreation (seqw later_db 0))).

Lemma default_rate : micros_ok DefaultJobSchedulerPolicy.
Proof.
  split; [split; [vm_compute; reflexivity|vm_compute; discriminate]|].
  split; [vm_compute; reflexivity|split; vm_compute; discriminate].
Qed.

Lemma limiter_db_ok : limiter_ok DefaultJobSchedulerPolicy limiter_db.
Proof.
  split; [|split; [|split]].
  - exists (RawValue (policy_json DefaultJobSchedulerPolicy)). split; vm_compute; reflexivity.
  - intros s E. vm_compute in E. injection E as <-. reflexivity.
  - intros b E. vm_compute in E. discriminate E.
  - reflexivity.
Qed.

Lemma sample_reservations :
  reservations limiter_db [(1000 * Second, 0); (1001 * Second, 0)] later_reserved_db.
Proof.
  apply (reservations_step limiter_db reserved_db later_db later_reserved_db 0 0).
  - vm_compute. reflexivity.
  - split; [vm_compute; reflexivity|split; [vm_compute; reflexivity|split; [|split]]].
    + intros _ s E. vm_compute in E. injection E as <-. reflexivity.
    + intros _ b E. vm_compute in E. injection E as <-. reflexivity.
    + vm_compute. discriminate.
  - apply (reservations_step later_db later_reserved_db later_reserved_db later_reserved_db 0 0).
    + vm_compute. reflexivity.
    + split; [reflexivity|split; [reflexivity|split; [auto|split; [auto|reflexivity]]]].
    + constructor.
Qed.

Lemma creation_rate_bound_witness :
  (permits [(1000 * Second, 0); (1001 * Second, 0)] - 10) * creation_interval DefaultJobSchedulerPolicy
    <= last_time [(1000 * Second, 0); (1001 * Second, 0)] (clock_now limiter_db) - clock_now limiter_db.
Proof.
  apply (creation_rate_bound DefaultJobSchedulerPolicy limiter_db _ later_reserved_db None default_rate
           limiter_db_ok); [reflexivity|exact sample_reservations].
Defined.

Lemma refused_reservation_witness :
  exists wait d1, ReserveResourceCreation (seqw limiter_db 0) = (Ok wait, seqw d1 0) /\ 0 <= wait.
Proof.
  destruct (refused_reservation DefaultJobSchedulerPolicy limiter_db 0 None default_rate limiter_db_ok
              eq_refl) as (wait & d1 & E & H & _).
  exists wait, d1. split; [exact E|exact H].
Defined.

Lemma rescaled_debt_witness :
  exists scaled,
    (1500 * Millisecond) * (100 * Millisecond) <= scaled * (200 * Millisecond) <
      (1500 * Millisecond) * (100 * Millisecond) + Microsecond * (200 * Millisecond) /\
    resourceCreationReservation (1000 * Second) (1000 * Second + 1500 * Millisecond)
        (200 * Millisecond) (100 * Millisecond) 10 =
      resourceCreationReservation (1000 * Second) (1000 * Second + scaled)
        (100 * Millisecond) (100 * Millisecond) 10.
Proof.
  apply (rescaled_debt (1000 * Second) (1500 * Millisecond) (200 * Millisecond) (100 * Millisecond) 10);
    try (split; [split|split; [|split]]); try split; vm_compute; try reflexivity; discriminate.
Defined.

Definition sample_sandbox : JobSandbox :=
  job_sandbox_zero <| sb_ID := "sandbox-1" |> <| sb_SlotReserved := true |>.

Definition sandbox_world : World := {|
  w_db := limiter_db <| db_sandboxes := {["sandbox-1"%string := sample_sandbox]} |>;
  w_env := [EnvQuiet; EnvWrite (fun d => d <| db_clock_micro := 1001 * 1000000 |>)];
  w_wall := 0 |}.

Lemma sandbox_start_bound_witness :
  fst (ReserveSandboxStart "sandbox-1" sandbox_world) = Ok true /\
  exists p, policy_in_force p (w_db sandbox_world) /\
    starting_count (w_db (snd (ReserveSandboxStart "sandbox-1" sandbox_world))) <=
      Z.max (starting_count (w_db sandbox_world)) (MaxStartingSandboxes p).
Proof.
  assert (E : fst (ReserveSandboxStart "sandbox-1" sandbox_world) = Ok true)
    by (vm_compute; reflexivity).
  split; [exact E|].
  apply (sandbox_start_bound "sandbox-1" sandbox_world true).
  - unfold env_respects. cbn [w_env sandbox_world].
    repeat (apply List.Forall_cons; [intros d; exact (PreOrder_Reflexive (R := start_rely) d)|]).
    apply List.Forall_nil.
  - rewrite <- E. apply surjective_pairing.
Defined.
