(* ===== verification/PodResources.v ===== *)
(** What a Pod needs: the resources a job asks admission for
    ([event/workflow/job/jobinstant/scheduling_resources.go]) and their growth after
    an out-of-memory failure ([jobinstant/retry_resources.go],
    [jobinfo/retry_checkpoint.go]).

    The Kubernetes types are records of the fields the code reads.  A
    [ResourceList] is a map; a missing map and an empty one are not told apart here
    because the code indexes them only. *)

From S2P Require Import Prelude GoStrings Config Json Quantity Policy Model Store Budget.

Definition ResourceEphemeralStorage : string := "ephemeral-storage".
Definition ContainerRestartPolicyAlways : string := "Always".

(** What Kubernetes reports of a Job. *)
Record JobCondition := {
  jc_Type : string;
  jc_Status : string;
  jc_Reason : string;
  jc_Message : string
}.

Record JobStatus := {
  js_Conditions : list JobCondition;
  js_Active : Z;
  js_Succeeded : Z;
  js_Failed : Z;
  js_StartTime : option Z;
  js_CompletionTime : option Z
}.

Definition job_status_zero : JobStatus := Build_JobStatus [] 0 0 0 None None.

Section PodResources.
Context {Q : Type} `{QuantityOps Q}.

(** ** Kubernetes objects *)

Record ResourceRequirements := {
  rr_Requests : gmap string Q;
  rr_Limits : gmap string Q
}.
#[export] Instance eta_ResourceRequirements : Settable ResourceRequirements := fun r =>
  Build_ResourceRequirements (rr_Requests r) (rr_Limits r).

Record Container := {
  co_Name : string;
  co_Resources : ResourceRequirements;
  co_RestartPolicy : option string
}.
#[export] Instance eta_Container : Settable Container := fun c =>
  Build_Container (co_Name c) (co_Resources c) (co_RestartPolicy c).

Record PodSpec := {
  ps_InitContainers : list Container;
  ps_Containers : list Container;
  ps_RestartPolicy : string;
  ps_Resources : option ResourceRequirements;
  ps_Overhead : gmap string Q
}.
#[export] Instance eta_PodSpec : Settable PodSpec := fun s =>
  Build_PodSpec (ps_InitContainers s) (ps_Containers s) (ps_RestartPolicy s) (ps_Resources s) (ps_Overhead s).

Record Job := {
  kj_Name : string;
  kj_Namespace : string;
  kj_UID : string;
  kj_Annotations : gmap string string;
  kj_Parallelism : option Z;
  kj_BackoffLimit : option Z;
  kj_Pod : PodSpec;
  kj_Labels : gmap string string;
  kj_ResourceVersion : string;
  kj_CreationTimestamp : option Z;    (* [None]: the zero time *)
  kj_TTLSecondsAfterFinished : option Z;
  kj_Completions : option Z;
  kj_Status : JobStatus
}.
#[export] Instance eta_Job : Settable Job := fun j =>
  Build_Job (kj_Name j) (kj_Namespace j) (kj_UID j) (kj_Annotations j) (kj_Parallelism j)
    (kj_BackoffLimit j) (kj_Pod j) (kj_Labels j) (kj_ResourceVersion j) (kj_CreationTimestamp j)
    (kj_TTLSecondsAfterFinished j) (kj_Completions j) (kj_Status j).

Definition pod_spec_zero : PodSpec := Build_PodSpec [] [] ""%string None ∅.
Definition job_zero : Job :=
  Build_Job "" "" "" ∅ None None pod_spec_zero ∅ "" None None None job_status_zero.

(** ** [admissionPodResource] *)

Definition resource_values (limits : bool) (r : ResourceRequirements) : gmap string Q :=
  if limits then rr_Limits r else rr_Requests r.

(** The quantity and whether it is known. *)
Definition containerResource (name : string) (limits : bool) (container : Container) : Q * bool :=
  match resource_values limits (co_Resources container) !! name with
  | Some q => (q, 0 <=? q_sign q)
  | None => (q_zero, false)
  end.

(** The loop over the containers. *)
Fixpoint sum_containers (name : string) (limits : bool) (l : list Container) (total : Q) : option Q :=
  match l with
  | [] => Some total
  | container :: l =>
      let '(q, known) := containerResource name limits container in
      if known then sum_containers name limits l (q_add total q) else None
  end.

Definition restartable (container : Container) : bool :=
  match co_RestartPolicy container with
  | Some policy => (policy =? ContainerRestartPolicyAlways)%string
  | None => false
  end.

(** The loop over the init containers: [restartable], [initPeak] and [total]. *)
Fixpoint peak_init (name : string) (limits : bool) (l : list Container) (running initPeak total : Q)
    : option (Q * Q) :=
  match l with
  | [] => Some (initPeak, total)
  | container :: l =>
      let '(q, known) := containerResource name limits container in
      if negb known then None else
      let '(running, total, q) :=
        if restartable container then (q_add running q, q_add total q, q_add running q)
        else (running, total, q_add q running) in
      let initPeak := if q_gtb q initPeak then q else initPeak in
      peak_init name limits l running initPeak total
  end.

Definition admissionPodResource (pod : PodSpec) (name : string) (limits : bool) : Q * bool :=
  match sum_containers name limits (ps_Containers pod) q_zero with
  | None => (q_zero, false)
  | Some total =>
      match peak_init name limits (ps_InitContainers pod) q_zero q_zero total with
      | None => (q_zero, false)
      | Some (initPeak, total) =>
          let total := if q_gtb initPeak total then initPeak else total in
          let total :=
            match ps_Resources pod with
            | Some r =>
                match resource_values limits r !! name with
                | Some declared => if q_gtb declared total then declared else total
                | None => total
                end
            | None => total
            end in
          let total :=
            match ps_Overhead pod !! name with Some overhead => q_add total overhead | None => total end in
          (total, true)
      end
  end.

(** The six fields of the snapshot, in the order of the two loops. *)
Definition snapshot_fields : list (string * bool * string) :=
  [(ResourceCPU, false, ResourceRequestsCPU); (ResourceCPU, true, ResourceLimitsCPU);
   (ResourceMemory, false, ResourceRequestsMemory); (ResourceMemory, true, ResourceLimitsMemory);
   (ResourceEphemeralStorage, false, ResourceRequestsEphemeralStorage);
   (ResourceEphemeralStorage, true, ResourceLimitsEphemeralStorage)].

Definition snapshot_field (pod : PodSpec) (parallelism : Z) (resources : gmap string Q)
    (field : string * bool * string) : gmap string Q :=
  let '(name, limits, key) := field in
  let '(quantity, known) := admissionPodResource pod name limits in
  if known then <[ key := fst (q_mul quantity parallelism) ]> resources else resources.

Definition job_resources (workload : Job) : gmap string Q :=
  let parallelism := default 1 (kj_Parallelism workload) in
  fold_left (snapshot_field (kj_Pod workload) parallelism) snapshot_fields
    {[ ResourcePods := q_of_int parallelism ]}.

(** [encode] is [json.Marshal] of a resource list. *)
Definition jobSchedulingResourceSnapshot (encode : gmap string Q -> result string) (jobType : string)
    (workload : option Job) : result string :=
  if negb (jobType =? JobCommand)%string && negb (jobType =? JobEval)%string then Ok ""%string
  else match workload with
       | None => Ok ""%string
       | Some workload => encode (job_resources workload)
       end.

(** ** Growth after an out-of-memory failure *)

(** The map literal both functions range over. *)
Definition growth_factors (policy : JobRetryPolicy Q) : list (string * Z) :=
  [(ResourceMemory, MemoryGrowthFactor policy); (ResourceCPU, CPUGrowthFactor policy)].

(** One resource of one container. *)
Definition validate_resource (policy : JobRetryPolicy Q) (container : Container) (nf : string * Z)
    : result unit :=
  let '(name, factor) := nf in
  if factor <=? 1 then Ok tt else
  let request := q_get (rr_Requests (co_Resources container)) name in
  let limit := q_get (rr_Limits (co_Resources container)) name in
  let cap := q_get (MaxResources policy) name in
  if (q_sign request <=? 0) || (q_sign limit <=? 0) || q_gtb request limit
  then Err (Errorf ("resize requires positive " ++ name ++ " requests <= limits for container " ++ co_Name container))
  else if q_gtb limit cap
  then Err (Errorf ("container " ++ co_Name container ++ " " ++ name ++ " limit exceeds maxResources"))
  else Ok tt.

Fixpoint all_ok {A} (f : A -> result unit) (l : list A) : result unit :=
  match l with
  | [] => Ok tt
  | a :: l => match f a with Ok _ => all_ok f l | Err e => Err e end
  end.

(** [order] is the order in which the two loops over the map literal meet it. *)
Definition ValidateRetryJobResources (order : list (string * Z)) (job : Job) (policy : JobRetryPolicy Q)
    : result unit :=
  if negb (OnOOM policy =? "resize")%string then Ok tt else
  all_ok (fun container => all_ok (validate_resource policy container) order)
    (ps_InitContainers (kj_Pod job) ++ ps_Containers (kj_Pod job)).

Definition exceeds (container name : string) : error :=
  Errorf ("OOM retry stopped: growing container " ++ container ++ " " ++ name ++ " exceeds maxResources").

(** [quantity.Mul(factor)] and the comparison with the cap. *)
Definition grow_quantity (cap : Q) (factor : Z) (container name : string) (resources : gmap string Q)
    : result (gmap string Q) :=
  let '(quantity, exact) := q_mul (q_get resources name) factor in
  if negb exact || q_gtb quantity cap then Err (exceeds container name)
  else Ok (<[ name := quantity ]> resources).

Definition grow_resource (policy : JobRetryPolicy Q) (container : Container) (nf : string * Z)
    : result Container :=
  let '(name, factor) := nf in
  if factor <=? 1 then Ok container else
  let cap := q_get (MaxResources policy) name in
  check! requests <- grow_quantity cap factor (co_Name container) name (rr_Requests (co_Resources container));
  check! limits <- grow_quantity cap factor (co_Name container) name (rr_Limits (co_Resources container));
  Ok (container <| co_Resources := Build_ResourceRequirements requests limits |>).

Fixpoint grow_container (policy : JobRetryPolicy Q) (order : list (string * Z)) (container : Container)
    : result Container :=
  match order with
  | [] => Ok container
  | nf :: order => check! container <- grow_resource policy container nf; grow_container policy order container
  end.

(** One list of containers and how many of them failed. *)
Fixpoint grow_containers (policy : JobRetryPolicy Q) (order : list (string * Z)) (oom : gset string)
    (l : list Container) : result (list Container * nat) :=
  match l with
  | [] => Ok ([], 0%nat)
  | container :: l =>
      if bool_decide (co_Name container ∈ oom) then
        check! grown <- grow_container policy order container;
        check! rest <- grow_containers policy order oom l;
        Ok (grown :: fst rest, S (snd rest))
      else
        check! rest <- grow_containers policy order oom l;
        Ok (container :: fst rest, snd rest)
  end.

Definition growOOMJobResources (order : list (string * Z)) (job : Job) (policy : JobRetryPolicy Q)
    (oomContainers : gset string) : result Job :=
  check! _ <- ValidateRetryJobResources order job policy;
  check! init <- grow_containers policy order oomContainers (ps_InitContainers (kj_Pod job));
  check! main <- grow_containers policy order oomContainers (ps_Containers (kj_Pod job));
  if negb (snd init + snd main =? size oomContainers)%nat
  then Err (Errorf "OOM retry stopped: failed container is absent from the submitted Job template")
  else Ok (job <| kj_Pod := (kj_Pod job) <| ps_InitContainers := fst init |> <| ps_Containers := fst main |> |>).
End PodResources.
Arguments ResourceRequirements Q : clear implicits.
Arguments Container Q : clear implicits.
Arguments PodSpec Q : clear implicits.
Arguments Job Q : clear implicits.

(** ** The peak of a Pod *)

Section Peak.
Context {Q : Type} `{QuantityLaws Q}.
Variables (name : string) (limits : bool).
Implicit Types (c : Container Q) (l : list (Container Q)).

Definition demand_of c : Z := q_val (fst (containerResource name limits c)).

(** A container declares the resource. *)
Definition declares c : Prop :=
  exists q, resource_values limits (co_Resources c) !! name = Some q /\ 0 <= q_val q.

Lemma declares_known c : snd (containerResource name limits c) = true <-> declares c.
Proof.
  unfold containerResource, declares. destruct (_ !! name) as [q|]; cbn.
  - rewrite Z.leb_le, q_sign_val. split; [intros; exists q; split; [done|lia]|].
    intros (q' & [= ->] & ?). lia.
  - split; [done|]. by intros (? & ? & _).
Qed.

Lemma declares_nonneg c : declares c -> 0 <= demand_of c.
Proof. intros (q & E & N). unfold demand_of, containerResource. by rewrite E. Qed.

Fixpoint total_demand l : Z :=
  match l with [] => 0 | c :: l => demand_of c + total_demand l end.

(** The sidecars: init containers that keep running. *)
Definition sidecars l : list (Container Q) := List.filter restartable l.

Lemma sidecars_total c l :
  total_demand (sidecars (c :: l)) = (if restartable c then demand_of c else 0) + total_demand (sidecars l).
Proof. unfold sidecars. cbn [List.filter]. by destruct (restartable c). Qed.

Lemma total_demand_nonneg l : (forall c, In c l -> declares c) -> 0 <= total_demand l.
Proof.
  induction l as [|c l IH]; intros A; cbn; [lia|].
  pose proof (declares_nonneg c (A c (or_introl eq_refl))). specialize (IH (fun x Hx => A x (or_intror Hx))). lia.
Qed.

Lemma sum_containers_spec l total :
  match sum_containers name limits l total with
  | Some t => (forall c, In c l -> declares c) /\ q_val t = q_val total + total_demand l
  | None => ~ forall c, In c l -> declares c
  end.
Proof.
  revert total. induction l as [|c l IH]; intros total; cbn; [split; [done|lia]|].
  pose proof (declares_known c) as K. unfold demand_of. destruct (containerResource name limits c) as [q known].
  cbn [fst snd] in *. destruct known.
  - specialize (IH (q_add total q)). destruct (sum_containers _ _ l _) as [t|].
    + destruct IH as [A E]. rewrite q_add_val in E. split; [|lia].
      intros c' [<-|Hc]; [by apply K|auto].
    + intros A. apply IH. auto.
  - intros A. assert (false = true) by (apply K; auto). discriminate.
Qed.

(** What runs while each init container is the current one. *)
Fixpoint init_usages (running : Z) l : list Z :=
  match l with
  | [] => []
  | c :: l =>
      (running + demand_of c) :: init_usages (if restartable c then running + demand_of c else running) l
  end.

Lemma init_usages_spec running l u :
  In u (init_usages running l) <->
  exists pre c post, l = (pre ++ c :: post)%list /\ u = running + total_demand (sidecars pre) + demand_of c.
Proof.
  revert running. induction l as [|c l IH]; intros running; cbn [init_usages].
  { split; [done|]. intros (pre & c & post & E & _). by destruct pre. }
  split.
  - intros [<-|Hu].
    + exists [], c, l. split; [done|]. change (total_demand (sidecars [])) with 0. lia.
    + apply IH in Hu as (pre & c' & post & -> & ->). exists (c :: pre), c', post. split; [done|].
      rewrite sidecars_total. destruct (restartable c); lia.
  - intros (pre & c' & post & E & ->). destruct pre as [|c0 pre]; cbn in E; injection E as -> ->.
    + left. change (total_demand (sidecars [])) with 0. lia.
    + right. apply IH. exists pre, c', post. split; [done|]. rewrite sidecars_total. destruct (restartable c0); lia.
Qed.

Lemma peak_init_spec l running initPeak total :
  match peak_init name limits l running initPeak total with
  | Some (peak, t) => (forall c, In c l -> declares c) /\
      q_val peak = fold_left Z.max (init_usages (q_val running) l) (q_val initPeak) /\
      q_val t = q_val total + total_demand (sidecars l)
  | None => ~ forall c, In c l -> declares c
  end.
Proof.
  revert running initPeak total. induction l as [|c l IH]; intros running initPeak total.
  { cbn. split; [done|split; [done|lia]]. }
  rewrite sidecars_total. cbn [peak_init init_usages fold_left In].
  pose proof (declares_known c) as K. destruct (containerResource name limits c) as [q known] eqn:Ec.
  cbn [fst snd] in *. destruct known; cbn [negb].
  2:{ intros A. assert (false = true) by (apply K; auto). discriminate. }
  assert (Dc : demand_of c = q_val q) by (unfold demand_of; by rewrite Ec).
  assert (M : forall a, q_val a = q_val running + q_val q ->
    q_val (if q_gtb a initPeak then a else initPeak) = Z.max (q_val initPeak) (q_val running + q_val q)).
  { intros a Ea. rewrite q_gtb_val, Ea. destruct (Z.ltb_spec (q_val initPeak) (q_val running + q_val q)); lia. }
  assert (Step : forall r t a, q_val a = q_val running + q_val q ->
    match peak_init name limits l r (if q_gtb a initPeak then a else initPeak) t with
    | Some (peak, t') => (forall c', c = c' \/ In c' l -> declares c') /\
        q_val peak = fold_left Z.max (init_usages (q_val r) l) (Z.max (q_val initPeak) (q_val running + q_val q)) /\
        q_val t' = q_val t + total_demand (sidecars l)
    | None => ~ forall c', c = c' \/ In c' l -> declares c'
    end).
  { intros r t a Ea. specialize (IH r (if q_gtb a initPeak then a else initPeak) t).
    rewrite M in IH by done. destruct (peak_init _ _ l r _ t) as [[peak t']|]; [|intros A; apply IH; auto].
    destruct IH as (A & P & T). split; [|done]. intros c' [<-|?]; [by apply K|auto]. }
  destruct (restartable c).
  - specialize (Step (q_add running q) (q_add total q) (q_add running q) ltac:(by rewrite q_add_val)).
    rewrite !q_add_val in Step. destruct (peak_init _ _ l _ _ _) as [[peak t']|]; [|done].
    destruct Step as (A & P & T). rewrite Dc. split; [done|]. split; [done|lia].
  - rewrite Dc. rewrite Z.add_0_l. exact (Step running total (q_add q running) ltac:(rewrite q_add_val; lia)).
Qed.

Lemma fold_max_spec us z :
  (forall u, In u us -> u <= fold_left Z.max us z) /\ z <= fold_left Z.max us z /\
  (fold_left Z.max us z = z \/ In (fold_left Z.max us z) us).
Proof.
  revert z. induction us as [|u us IH]; intros z; cbn; [split; [done|split; [lia|by left]]|].
  destruct (IH (Z.max z u)) as (A & B & C). split; [|split; [lia|]].
  - intros x [<-|Hx]; [lia|auto].
  - destruct C as [C|C]; [|by right; right]. rewrite C.
    destruct (Z.max_spec z u) as [[_ E]|[_ E]]; [right; left|left]; lia.
Qed.
End Peak.

(** What a Pod uses in its main phase, and while an init container runs. *)
Definition main_usage {Q : Type} `{QuantityLaws Q} name limits (pod : PodSpec Q) : Z :=
  total_demand name limits (sidecars (ps_InitContainers pod)) + total_demand name limits (ps_Containers pod).

Definition is_phase {Q : Type} `{QuantityLaws Q} name limits (pod : PodSpec Q) (u : Z) : Prop :=
  u = main_usage name limits pod \/
  exists pre c post, ps_InitContainers pod = (pre ++ c :: post)%list /\
     u = total_demand name limits (sidecars pre) + demand_of name limits c.

(** Or what is declared for the Pod as a whole. *)
Definition is_usage {Q : Type} `{QuantityLaws Q} name limits (pod : PodSpec Q) (u : Z) : Prop :=
  is_phase name limits pod u \/
  (exists r declared, ps_Resources pod = Some r /\ resource_values limits r !! name = Some declared /\
     u = q_val declared).

Lemma phases_usage {Q : Type} `{QuantityLaws Q} name limits (pod : PodSpec Q) :
  (forall c, In c (ps_InitContainers pod) -> declares name limits c) ->
  (forall c, In c (ps_Containers pod) -> declares name limits c) ->
  let m := Z.max (main_usage name limits pod) (fold_left Z.max (init_usages name limits 0 (ps_InitContainers pod)) 0) in
  is_phase name limits pod m /\ forall u, is_phase name limits pod u -> u <= m.
Proof.
  intros D2 D1 m. destruct (fold_max_spec (init_usages name limits 0 (ps_InitContainers pod)) 0) as (A & B & C).
  assert (N : 0 <= main_usage name limits pod).
  { unfold main_usage. pose proof (total_demand_nonneg name limits (ps_Containers pod) D1).
    pose proof (total_demand_nonneg name limits (sidecars (ps_InitContainers pod))
      (fun c Hc => D2 c (proj1 (proj1 (filter_In _ _ _) Hc)))). lia. }
  split.
  - unfold m. destruct (Z.max_spec_le (main_usage name limits pod)
      (fold_left Z.max (init_usages name limits 0 (ps_InitContainers pod)) 0)) as [[L E]|[L E]]; rewrite E; [|by left].
    destruct C as [C|C]; [left; lia|right]. apply init_usages_spec in C as (pre & c & post & E' & U).
    exists pre, c, post. split; [done|lia].
  - intros u [->|(pre & c & post & E & ->)]; [lia|].
    assert (I : In (total_demand name limits (sidecars pre) + demand_of name limits c)
      (init_usages name limits 0 (ps_InitContainers pod))).
    { apply init_usages_spec. exists pre, c, post. split; [done|lia]. }
    apply A in I. lia.
Qed.

(** The admission request covers the Pod's peak.  A resource is known exactly
    when every container declares it with a non-negative amount.  Then the request
    is the Pod's overhead on top of the largest of its usages: all containers with
    all sidecars, each init container with the sidecars started before it, and the
    amount declared for the whole Pod; it bounds each of them and is one of them. *)
Theorem admission_covers_pod {Q : Type} `{QuantityLaws Q} (pod : PodSpec Q) name limits :
  let '(total, known) := admissionPodResource pod name limits in
  (known = true <-> forall c, In c (ps_InitContainers pod ++ ps_Containers pod)%list -> declares name limits c) /\
  (known = true -> exists peak,
     q_val total = peak + q_val (q_get (ps_Overhead pod) name) /\
     is_usage name limits pod peak /\ forall u, is_usage name limits pod u -> u <= peak).
Proof.
  unfold admissionPodResource. pose proof (sum_containers_spec name limits (ps_Containers pod) q_zero) as S.
  destruct (sum_containers _ _ _ _) as [total|].
  2:{ split; [|done]. split; [done|]. intros A. destruct S. intros c Hc. apply A, in_app_iff. by right. }
  destruct S as [D1 S].
  pose proof (peak_init_spec name limits (ps_InitContainers pod) q_zero q_zero total) as P.
  destruct (peak_init _ _ _ _ _ _) as [[peak t]|].
  2:{ split; [|done]. split; [done|]. intros A. destruct P. intros c Hc. apply A, in_app_iff. by left. }
  destruct P as (D2 & P & T). rewrite q_zero_val in *. split.
  { split; [intros _ c [Hc|Hc]%in_app_iff; auto|done]. }
  intros _. set (main := if q_gtb peak t then peak else t).
  assert (M : q_val main = Z.max (main_usage name limits pod) (q_val peak)).
  { unfold main, main_usage. rewrite q_gtb_val.
    destruct (Z.ltb_spec (q_val t) (q_val peak)); lia. }
  clearbody main.
  set (top := match ps_Resources pod with Some _ => _ | None => main end).
  assert (Top : (forall u, is_usage name limits pod u -> u <= q_val top) /\ is_usage name limits pod (q_val top)).
  { pose proof (phases_usage name limits pod D2 D1) as [F U]. cbv zeta in *. rewrite <- P, <- M in *.
    subst top. destruct (ps_Resources pod) as [r|] eqn:Er.
    2:{ split; [intros u [Hu|(? & ? & ? & _)]; [auto|congruence]|by left]. }
    destruct (resource_values limits r !! name) as [d|] eqn:Ed.
    2:{ split; [intros u [Hu|(? & ? & ? & ? & _)]; [auto|congruence]|by left]. }
    rewrite q_gtb_val. destruct (Z.ltb_spec (q_val main) (q_val d)) as [L|L].
    - split; [|right; eauto]. intros u [Hu|(r' & d' & Er' & Ed' & ->)]; [apply U in Hu; lia|].
      simplify_eq. lia.
    - split; [|by left]. intros u [Hu|(r' & d' & Er' & Ed' & ->)]; [auto|]. simplify_eq. lia. }
  exists (q_val top). split; [|by destruct Top]. unfold q_get.
  destruct (ps_Overhead pod !! name); cbn; rewrite ?q_add_val, ?q_zero_val; lia.
Qed.

(** ** Growth *)

Lemma result_bind_ok {A B} (r : result A) (f : A -> result B) b :
  result_bind r f = Ok b <-> exists a, r = Ok a /\ f a = Ok b.
Proof. destruct r; cbn; naive_solver. Qed.

Section Growth.
Context {Q : Type} `{QuantityLaws Q}.
Variable policy : JobRetryPolicy Q.
Implicit Types (c : Container Q) (l : list (Container Q)) (m : gmap string Q).

Definition cap (name : string) : Z := q_val (q_get (MaxResources policy) name).

(** One resource list can grow by a factor. *)
Definition can_grow_list (name : string) (factor : Z) m : Prop :=
  snd (q_mul (q_get m name) factor) = true /\ q_val (q_get m name) * factor <= cap name.

Definition can_grow c (nf : string * Z) : Prop :=
  1 < snd nf -> can_grow_list (fst nf) (snd nf) (rr_Requests (co_Resources c)) /\
    can_grow_list (fst nf) (snd nf) (rr_Limits (co_Resources c)).

(** What growth does to a resource list. *)
Definition list_grows (order : list (string * Z)) m m' : Prop :=
  (forall name factor, (name, factor) ∈ order -> 1 < factor ->
     q_val (q_get m' name) = q_val (q_get m name) * factor /\ q_val (q_get m' name) <= cap name) /\
  (forall name, (forall factor, (name, factor) ∈ order -> factor <= 1) -> m' !! name = m !! name).

Definition grows (order : list (string * Z)) c c' : Prop :=
  co_Name c' = co_Name c /\ co_RestartPolicy c' = co_RestartPolicy c /\
  list_grows order (rr_Requests (co_Resources c)) (rr_Requests (co_Resources c')) /\
  list_grows order (rr_Limits (co_Resources c)) (rr_Limits (co_Resources c')).

Lemma grow_quantity_ok name factor container m m' :
  grow_quantity (q_get (MaxResources policy) name) factor container name m = Ok m' <->
  can_grow_list name factor m /\ m' = <[ name := fst (q_mul (q_get m name) factor) ]> m.
Proof.
  unfold grow_quantity, can_grow_list, cap. pose proof (q_mul_val (q_get m name) factor) as V.
  destruct (q_mul (q_get m name) factor) as [q exact]. cbn [fst snd] in *. rewrite q_gtb_val, V.
  destruct exact; cbn [negb orb]; [|naive_solver].
  destruct (Z.ltb_spec (q_val (q_get (MaxResources policy) name)) (q_val (q_get m name) * factor)).
  - split; [done|]. lia.
  - split; [intros [= <-]; split; [split; [done|lia]|done]|]. by intros [_ ->].
Qed.

Lemma list_grows_cons name factor order m m' :
  NoDup (name :: order.*1) ->
  (1 < factor -> can_grow_list name factor m) ->
  list_grows order (if 1 <? factor then <[ name := fst (q_mul (q_get m name) factor) ]> m else m) m' ->
  list_grows ((name, factor) :: order) m m'.
Proof.
  intros [Nin Nd]%NoDup_cons Cg [G S].
  assert (Fresh : forall f, (name, f) ∉ order).
  { intros f I. apply Nin, list_elem_of_fmap. by exists (name, f). }
  assert (Same : forall k, k <> name ->
    (if 1 <? factor then <[ name := fst (q_mul (q_get m name) factor) ]> m else m) !! k = m !! k).
  { intros k Hk. destruct (1 <? factor); [by rewrite lookup_insert_ne|done]. }
  split.
  - intros k f [[= -> ->]|I]%elem_of_cons Hf.
    + destruct (Cg Hf) as [_ L]. unfold q_get at 1 3. rewrite S by (intros f' I; by apply Fresh in I).
      rewrite (proj2 (Z.ltb_lt _ _) Hf), lookup_insert_eq. cbn. rewrite q_mul_val. lia.
    + destruct (G k f I Hf) as [E L]. split; [|done]. rewrite E. f_equal. unfold q_get. rewrite Same; [done|].
      intros ->. by apply Fresh in I.
  - intros k Hk. rewrite S by (intros f I; apply Hk; by right).
    destruct (decide (k = name)) as [->|Ne]; [|by apply Same].
    rewrite (proj2 (Z.ltb_ge _ _)); [done|]. apply Hk. by left.
Qed.

Lemma can_grow_list_insert name factor k q m :
  k <> name -> can_grow_list name factor (<[ k := q ]> m) <-> can_grow_list name factor m.
Proof. intros Ne. unfold can_grow_list, q_get. by rewrite lookup_insert_ne. Qed.

Lemma grow_container_spec order c :
  NoDup order.*1 ->
  match grow_container policy order c with
  | Ok c' => grows order c c' /\ forall nf, nf ∈ order -> can_grow c nf
  | Err _ => ~ forall nf, nf ∈ order -> can_grow c nf
  end.
Proof.
  revert c. induction order as [|[name factor] order IH]; intros c Nd; cbn [grow_container].
  { split; [|intros nf I; by apply elem_of_nil in I]. repeat split; intros; by apply elem_of_nil in H1. }
  cbn [fmap list_fmap fst] in Nd. pose proof Nd as [Nin Nd']%NoDup_cons.
  unfold grow_resource. destruct (Z.leb_spec factor 1) as [L|L]; cbn [result_bind].
  - specialize (IH c Nd'). destruct (grow_container policy order c) as [c'|e].
    + destruct IH as [(E1 & E2 & G1 & G2) A]. split.
      * split; [done|split; [done|]].
        split; apply list_grows_cons; try done; try lia; by rewrite (proj2 (Z.ltb_ge _ _)).
      * intros nf [->|I]%elem_of_cons; [|auto]. intros Hf. cbn in Hf. lia.
    + intros A. apply IH. intros nf I. apply A. by right.
  - set (req := rr_Requests (co_Resources c)). set (lim := rr_Limits (co_Resources c)).
    destruct (grow_quantity _ factor (co_Name c) name req) as [req'|e] eqn:E1; cbn [result_bind].
    2:{ intros A. destruct (A (name, factor)) as [C1 _]; [by left|done|].
        assert (X : grow_quantity (q_get (MaxResources policy) name) factor (co_Name c) name req =
          Ok (<[ name := fst (q_mul (q_get req name) factor) ]> req)) by by apply grow_quantity_ok.
        congruence. }
    destruct (grow_quantity _ factor (co_Name c) name lim) as [lim'|e] eqn:E2; cbn [result_bind].
    2:{ intros A. destruct (A (name, factor)) as [_ C2]; [by left|done|].
        assert (X : grow_quantity (q_get (MaxResources policy) name) factor (co_Name c) name lim =
          Ok (<[ name := fst (q_mul (q_get lim name) factor) ]> lim)) by by apply grow_quantity_ok.
        congruence. }
    apply grow_quantity_ok in E1 as [C1 ->], E2 as [C2 ->].
    set (c1 := c <| co_Resources := _ |>).
    assert (Carry : forall nf, nf ∈ order -> can_grow c1 nf <-> can_grow c nf).
    { intros [k f] I. assert (Ne : name <> k).
      { intros ->. apply Nin, list_elem_of_fmap. by exists (k, f). }
      unfold can_grow, c1. cbn. by rewrite !can_grow_list_insert. }
    specialize (IH c1 Nd'). destruct (grow_container policy order c1) as [c'|e].
    + destruct IH as [(N1 & N2 & G1 & G2) A]. split.
      * split; [exact N1|split; [exact N2|]].
        split; apply list_grows_cons; try done; by rewrite (proj2 (Z.ltb_lt _ _)).
      * intros nf [->|I]%elem_of_cons; [by intros _|]. apply Carry; auto.
    + intros A. apply IH. intros nf I. apply Carry; [done|]. apply A. by right.
Qed.

(** Growth of the containers that failed. *)
Definition grown_if (order : list (string * Z)) (oom : gset string) c c' : Prop :=
  if decide (co_Name c ∈ oom) then grows order c c' else c' = c.

Definition failed (oom : gset string) l : list (Container Q) :=
  List.filter (fun c => bool_decide (co_Name c ∈ oom)) l.

Lemma grow_containers_spec order oom l :
  NoDup order.*1 ->
  match grow_containers policy order oom l with
  | Ok (l', n) => Forall2 (grown_if order oom) l l' /\ n = length (failed oom l) /\
      forall c nf, In c (failed oom l) -> nf ∈ order -> can_grow c nf
  | Err _ => ~ forall c nf, In c (failed oom l) -> nf ∈ order -> can_grow c nf
  end.
Proof.
  intros Nd. induction l as [|c l IH]; cbn [grow_containers failed List.filter]; [done|].
  fold (failed oom l). unfold grown_if at 1. case_bool_decide as D.
  - pose proof (grow_container_spec order c Nd) as G.
    destruct (grow_container policy order c) as [c'|e]; cbn [result_bind].
    2:{ intros A. apply G. intros nf. apply A. by left. }
    destruct G as [G C]. destruct (grow_containers policy order oom l) as [[l' n]|e]; cbn [result_bind fst snd].
    + destruct IH as (F & -> & A). split; [|split; [done|]].
      * constructor; [|done]. unfold grown_if. by rewrite decide_True.
      * intros c0 nf [<-|I]; auto.
    + intros A. apply IH. intros c0 nf I. apply A. by right.
  - destruct (grow_containers policy order oom l) as [[l' n]|e]; cbn [result_bind fst snd]; [|done].
    destruct IH as (F & -> & A). split; [|done]. constructor; [|done]. unfold grown_if. by rewrite decide_False.
Qed.
End Growth.

Lemma all_ok_spec {A} (f : A -> result unit) l : all_ok f l = Ok tt <-> forall a, In a l -> f a = Ok tt.
Proof.
  induction l as [|a l IH]; cbn; [done|]. destruct (f a) as [[]|e] eqn:E.
  - rewrite IH. naive_solver.
  - split; [done|]. intros H. rewrite H in E by auto. done.
Qed.

(** A container whose resources may grow. *)
Definition resizable {Q : Type} `{QuantityLaws Q} (policy : JobRetryPolicy Q) (c : Container Q) (nf : string * Z) : Prop :=
  1 < snd nf ->
  let request := q_val (q_get (rr_Requests (co_Resources c)) (fst nf)) in
  let limit := q_val (q_get (rr_Limits (co_Resources c)) (fst nf)) in
  0 < request <= limit /\ limit <= cap policy (fst nf).

Lemma validate_resource_ok {Q : Type} `{QuantityLaws Q} (policy : JobRetryPolicy Q) c nf :
  validate_resource policy c nf = Ok tt <-> resizable policy c nf.
Proof.
  destruct nf as [name factor]. unfold validate_resource, resizable, cap. cbn [fst snd].
  destruct (Z.leb_spec factor 1); [split; [lia|done]|]. rewrite !q_gtb_val.
  set (rq := q_get _ name). set (lm := q_get (rr_Limits _) name). set (cp := q_get (MaxResources policy) name).
  destruct (q_sign rq <=? 0) eqn:E1; cbn [orb].
  { split; [done|]. intros A. apply not_false_iff_true in E1. rewrite q_sign_pos in E1. lia. }
  rewrite q_sign_pos in E1. destruct (q_sign lm <=? 0) eqn:E2; cbn [orb].
  { split; [done|]. intros A. apply not_false_iff_true in E2. rewrite q_sign_pos in E2. lia. }
  destruct (Z.ltb_spec (q_val lm) (q_val rq)); [split; [done|lia]|].
  destruct (Z.ltb_spec (q_val cp) (q_val lm)); [split; [done|lia]|]. split; [lia|done].
Qed.

Lemma grows_resizable {Q : Type} `{QuantityLaws Q} (policy : JobRetryPolicy Q) order c c' nf :
  grows policy order c c' -> nf ∈ order -> resizable policy c nf -> resizable policy c' nf.
Proof.
  destruct nf as [name factor]. intros (_ & _ & [R _] & [L _]) I V Hf. specialize (V Hf). cbn [fst snd] in *.
  destruct (R name factor I Hf) as [-> _], (L name factor I Hf) as [E B]. rewrite E in *.
  cbn zeta in *. nia.
Qed.

(** The validation of a job's template under a policy. *)
Definition job_resizable {Q : Type} `{QuantityLaws Q} (order : list (string * Z)) (policy : JobRetryPolicy Q)
    (job : Job Q) : Prop :=
  OnOOM policy = "resize"%string ->
  forall c nf, In c (ps_InitContainers (kj_Pod job) ++ ps_Containers (kj_Pod job))%list -> nf ∈ order ->
    resizable policy c nf.

Lemma validate_job_ok {Q : Type} `{QuantityLaws Q} order (policy : JobRetryPolicy Q) job :
  ValidateRetryJobResources order job policy = Ok tt <-> job_resizable order policy job.
Proof.
  unfold ValidateRetryJobResources, job_resizable. destruct (String.eqb_spec (OnOOM policy) "resize"); cbn [negb].
  2:{ split; [by intros _ ?|done]. }
  rewrite all_ok_spec. setoid_rewrite all_ok_spec. setoid_rewrite validate_resource_ok.
  setoid_rewrite list_elem_of_In. naive_solver.
Qed.

Lemma grown_if_in {Q : Type} `{QuantityLaws Q} (policy : JobRetryPolicy Q) order oom l l' c' :
  Forall2 (grown_if policy order oom) l l' -> In c' l' ->
  exists c, In c l /\ (grows policy order c c' \/ c' = c).
Proof.
  induction 1 as [|c d l l' G _ IH]; [done|]. intros [<-|Hc].
  - exists c. split; [by left|]. unfold grown_if in G. case_decide; auto.
  - destruct (IH Hc) as (x & Hx & G'). exists x. split; [by right|done].
Qed.

Definition with_containers {Q : Type} (job : Job Q) (init main : list (Container Q)) : Job Q :=
  job <| kj_Pod := (kj_Pod job) <| ps_InitContainers := init |> <| ps_Containers := main |> |>.

(** Growth after an out-of-memory failure.  The next job template is the old
    one with, in every failed container and for every growing resource, request and
    limit multiplied by the factor and within the policy's cap, all else unchanged;
    it satisfies the policy's validation again.  The retry is refused exactly when
    the template is not valid, some failed container cannot grow within the cap, or
    the failed containers are not those of the template.  None of this depends on
    the order in which Go visits the factors. *)
Theorem oom_growth {Q : Type} `{QuantityLaws Q} order (job : Job Q) policy oom :
  order ≡ₚ growth_factors policy ->
  let init := ps_InitContainers (kj_Pod job) in
  let main := ps_Containers (kj_Pod job) in
  match growOOMJobResources order job policy oom with
  | Ok next => exists init' main', next = with_containers job init' main' /\
      Forall2 (grown_if policy (growth_factors policy) oom) init init' /\
      Forall2 (grown_if policy (growth_factors policy) oom) main main' /\
      ValidateRetryJobResources order next policy = Ok tt
  | Err _ => ~ (ValidateRetryJobResources order job policy = Ok tt /\
      (forall c nf, In c (failed oom init ++ failed oom main) -> nf ∈ order -> can_grow policy c nf) /\
      (length (failed oom init) + length (failed oom main) = size oom)%nat)
  end.
Proof.
  intros P init main. unfold growOOMJobResources.
  assert (Nd : NoDup order.*1).
  { rewrite P. cbn. apply (bool_decide_unpack _). reflexivity. }
  destruct (ValidateRetryJobResources order job policy) as [[]|e] eqn:V; cbn [result_bind]; [|by intros [? _]].
  pose proof (grow_containers_spec policy order oom init Nd) as G1. fold init main.
  destruct (grow_containers policy order oom init) as [[init' n1]|e]; cbn [result_bind].
  2:{ intros (_ & A & _). apply G1. intros c nf I. apply A, in_app_iff. by left. }
  pose proof (grow_containers_spec policy order oom main Nd) as G2.
  destruct (grow_containers policy order oom main) as [[main' n2]|e]; cbn [result_bind].
  2:{ intros (_ & A & _). apply G2. intros c nf I. apply A, in_app_iff. by right. }
  destruct G1 as (F1 & -> & A1), G2 as (F2 & -> & A2). cbn [fst snd].
  destruct (Nat.eqb_spec (length (failed oom init) + length (failed oom main)) (size oom)) as [E|E]; cbn [negb];
    [|by intros (_ & _ & ?)].
  exists init', main'. split; [done|].
  assert (Sub : forall c c', grown_if policy order oom c c' -> grown_if policy (growth_factors policy) oom c c').
  { intros c c'. unfold grown_if. case_decide; [|done]. unfold grows, list_grows. by setoid_rewrite P. }
  split; [by eapply Forall2_impl|]. split; [by eapply Forall2_impl|].
  apply validate_job_ok in V. apply validate_job_ok. intros R c nf Hc I. specialize (V R).
  apply in_app_iff in Hc as [Hc|Hc].
  - destruct (grown_if_in _ _ _ _ _ _ F1 Hc) as (x & Hx & [G| ->]).
    + eapply grows_resizable; [done|done|]. apply V; [|done]. apply in_app_iff. by left.
    + apply V; [|done]. apply in_app_iff. by left.
  - destruct (grown_if_in _ _ _ _ _ _ F2 Hc) as (x & Hx & [G| ->]).
    + eapply grows_resizable; [done|done|]. apply V; [|done]. apply in_app_iff. by right.
    + apply V; [|done]. apply in_app_iff. by right.
Qed.

(** *** A job of two containers, one of which ran out of memory *)

Definition sample_container (name : string) (memory : Z) : Container Z :=
  {| co_Name := name; co_RestartPolicy := None;
     co_Resources := {| rr_Requests := {[ ResourceMemory := memory ]}; rr_Limits := {[ ResourceMemory := memory ]} |} |}.

Definition oom_job : Job Z :=
  job_zero <| kj_Name := "job"%string |> <| kj_Namespace := "ns"%string |> <| kj_UID := "uid"%string |>
    <| kj_BackoffLimit := Some 0 |>
    <| kj_Pod := pod_spec_zero <| ps_RestartPolicy := "Never"%string |>
                   <| ps_Containers := [sample_container "main" 10; sample_container "log" 5] |> |>.

Definition oom_policy : JobRetryPolicy Z :=
  {| OnOOM := "resize"; MaxRetries := 3; BackoffSeconds := 10; MemoryGrowthFactor := 2; CPUGrowthFactor := 0;
     MaxResources := {[ ResourceMemory := 30 ]} |}.

Lemma oom_growth_witness :
  exists init' main', growOOMJobResources (rev (growth_factors oom_policy)) oom_job oom_policy {[ "main"%string ]} =
      Ok (with_containers oom_job init' main') /\
    Forall2 (grown_if oom_policy (growth_factors oom_policy) {[ "main"%string ]})
      (ps_Containers (kj_Pod oom_job)) main'.
Proof.
  pose proof (oom_growth (rev (growth_factors oom_policy)) oom_job oom_policy {[ "main"%string ]}) as H.
  assert (R : is_ok (growOOMJobResources (rev (growth_factors oom_policy)) oom_job oom_policy {[ "main"%string ]}) = true)
    by (vm_compute; reflexivity).
  destruct (growOOMJobResources _ _ _ _) as [next|e]; [|discriminate R].
  destruct H as (init' & main' & -> & _ & F & _); [symmetry; apply Permutation_rev|].
  exists init', main'. split; [reflexivity|exact F].
Defined.
