(* ===== verification/Retry.v ===== *)
(** The durable checkpoint of an instant job and the checks that bind it to a live
    Kubernetes Job: [pkg/apiserver/event/workflow/job/jobinfo/retry_checkpoint.go]
    and the retention of [jobinstant/retry.go].

    Decoding a [batchv1.Job] is the Kubernetes library's: [decode_job] is a
    parameter, and its one law is that it reads the object's metadata as the
    decoder of [ObjectMeta] does. *)

From S2P Require Import Prelude GoStrings Config Json Quantity Policy Model Store Lease Budget.
From S2P Require Import Scheduler PodResources.

Definition RestartPolicyNever : string := "Never".
Definition DefaultJobTTLSeconds : Z := 3600.
Definition max_int32 : Z := 2 ^ 31 - 1.

Section Retry.
Context {Q : Type} `{QuantityOps Q} `{KubernetesJson Q}.
Variable decode_job : Json -> option (Job Q).
(** The order in which Go visits the growth factors. *)
Variable order : JobRetryPolicy Q -> list (string * Z).

Record InstantJobRetryCheckpoint := {
  rc_Kind : string;
  rc_Version : Z;
  rc_Attempt : Z;
  rc_PreviousUID : string;
  rc_CurrentUID : string;
  rc_RetryAt : Z;
  rc_Deadline : Z;
  rc_Job : option (Job Q);
  rc_Runner : option Json
}.

(** [json.Unmarshal] of a checkpoint; any JSON value is a raw message. *)
Definition dec_retry_checkpoint (text : string) : option InstantJobRetryCheckpoint :=
  decode! j <- json_parse text;
  decode! l <- dec_struct j;
  decode! kind <- dec_string (json_field "kind" l);
  decode! version <- dec_int64 (json_field "version" l);
  decode! attempt <- dec_uint64 (json_field "attempt" l);
  decode! previous <- dec_string (json_field "previousUID" l);
  decode! current <- dec_string (json_field "currentUID" l);
  decode! retryAt <- dec_int64 (json_field "retryAt" l);
  decode! deadline <- dec_int64 (json_field "deadline" l);
  decode! job <- dec_ptr decode_job (json_field "job" l);
  Some (Build_InstantJobRetryCheckpoint kind version attempt previous current retryAt deadline job
          (json_optional "runner" l)).

Definition annotation_of (job : Job Q) (key : string) : string := str_get (kj_Annotations job) key.

Definition RetryJobMatchesTask (job : option (Job Q)) (task : JobTask) : bool :=
  match job with
  | None => false
  | Some job =>
      negb (str_empty (jt_TaskID task)) && negb (str_empty (jt_ExecutionKey task)) &&
      (0 <? jt_RunGeneration task) &&
      (annotation_of job AnnotationJobTaskID =? jt_TaskID task)%string &&
      (annotation_of job AnnotationJobExecutionKey =? jt_ExecutionKey task)%string &&
      (annotation_of job AnnotationJobRunGeneration =? FormatUint (jt_RunGeneration task) 10)%string
  end.

Definition RetryPolicyFromJob (job : option (Job Q)) : result (option (JobRetryPolicy Q)) :=
  match job with
  | None => Err (Errorf "job is nil")
  | Some job =>
      let raw := annotation_of job AnnotationJobRetryPolicy in
      if str_empty raw then Ok None else
      match dec_retry_policy raw with
      | None => Err (Errorf "decode jobRetryPolicy")
      | Some policy =>
          match ValidateJobRetryPolicy (Some policy) with
          | Err e => Err (Wrapf "validate jobRetryPolicy" e)
          | Ok _ =>
              if negb (blank (annotation_of job AnnotationJobStartTime))
              then Err (Errorf "jobRetryPolicy does not support startTime")
              else if negb (bool_decide (kj_BackoffLimit job = Some 0)) ||
                      negb (ps_RestartPolicy (kj_Pod job) =? RestartPolicyNever)%string
              then Err (Errorf "jobRetryPolicy requires backoffLimit 0 and restartPolicy Never")
              else
                check! _ <- ValidateRetryJobResources (order policy) job policy;
                Ok (Some policy)
          end
      end
  end.

Definition DecodeInstantJobRetryCheckpoint (task : option JobTask) : result InstantJobRetryCheckpoint :=
  match task with
  | None => Err (Errorf "instant Job retry checkpoint task is nil")
  | Some task =>
      match dec_retry_checkpoint (jt_InternalInfo task) with
      | None => Err (Errorf "decode instant Job retry checkpoint")
      | Some cp =>
          match rc_Job cp with
          | None => Err (Errorf "invalid instant Job retry checkpoint")
          | Some job =>
              if negb (rc_Kind cp =? "instant_job_retry")%string || negb (rc_Version cp =? 1) ||
                 str_empty (kj_Name job) || str_empty (kj_Namespace job) || (rc_Attempt cp =? 0) ||
                 (rc_Deadline cp <=? 0)
              then Err (Errorf "invalid instant Job retry checkpoint")
              else if negb (RetryJobMatchesTask (Some job) task) ||
                 negb (annotation_of job AnnotationJobAttempt =? FormatUint (rc_Attempt cp) 10)%string ||
                 ((0 <? jt_Attempt task) && negb (jt_Attempt task =? rc_Attempt cp))
              then Err (Errorf "instant Job retry checkpoint execution identity or attempt does not match")
              else
                match RetryPolicyFromJob (Some job) with
                | Ok (Some policy) =>
                    if (u64 (MaxRetries policy + 1) <? rc_Attempt cp) ||
                       ((1 <? rc_Attempt cp) && (str_empty (rc_PreviousUID cp) || (rc_RetryAt cp <=? 0)))
                    then Err (Errorf "instant Job retry checkpoint exceeds its retry budget or lacks prior identity")
                    else Ok cp
                | _ => Err (Errorf "instant Job retry checkpoint policy is invalid")
                end
          end
      end
  end.

(** The execution identity of a job row. *)
Definition task_of (record : JobInfo) (key : string) : JobTask :=
  job_task_zero <| jt_TaskID := job_TaskID record |> <| jt_ExecutionKey := key |>
    <| jt_RunGeneration := job_RunGeneration record |> <| jt_Attempt := job_Attempt record |>
    <| jt_InternalInfo := job_InternalInfo record |>.

Definition HasInstantJobRetryCheckpoint (record : option JobInfo) : bool :=
  match record with
  | Some record => IsInstantJobType (job_Type record) && negb (blank (job_InternalInfo record))
  | None => false
  end.

Definition ValidateInstantJobRetryExecution (record : option JobInfo) (live : option (Job Q)) : result unit :=
  let incomplete := Err (Errorf "Job execution checkpoint identity is incomplete") in
  match record, live with
  | Some row, Some live =>
      match job_ExecutionKey row with
      | None => incomplete
      | Some key =>
          if negb (HasInstantJobRetryCheckpoint record) || str_empty (kj_UID live) then incomplete else
          let task := task_of row key in
          check! cp <- DecodeInstantJobRetryCheckpoint (Some task);
          match rc_Job cp with
          | None => incomplete
          | Some job =>
              if negb (kj_Namespace live =? kj_Namespace job)%string || negb (kj_Name live =? kj_Name job)%string ||
                 negb (RetryJobMatchesTask (Some live) task) ||
                 negb (annotation_of live AnnotationJobAttempt =? FormatUint (rc_Attempt cp) 10)%string ||
                 (negb (str_empty (rc_CurrentUID cp)) && negb (rc_CurrentUID cp =? kj_UID live)%string) ||
                 (kj_UID live =? rc_PreviousUID cp)%string
              then Err ErrJobExecutionIdentityChanged
              else Ok tt
          end
      end
  | _, _ => incomplete
  end.

(** The runner's extension of a checkpoint and the attempt's deadline. *)
Definition EvaluationRunnerCheckpoint (record : option JobInfo) : result (option Json * Z) :=
  match record with
  | Some row =>
      match job_ExecutionKey row with
      | Some key =>
          if (job_Type row =? JobEval)%string then
            check! cp <- DecodeInstantJobRetryCheckpoint (Some (task_of row key));
            Ok (rc_Runner cp, rc_Deadline cp)
          else Err (Errorf "evaluation runner checkpoint identity is incomplete")
      | None => Err (Errorf "evaluation runner checkpoint identity is incomplete")
      end
  | None => Err (Errorf "evaluation runner checkpoint identity is incomplete")
  end.
End Retry.
Arguments InstantJobRetryCheckpoint Q : clear implicits.

(** [retryJobRetentionSeconds]; [None] is the zero time. *)
Definition retryJobRetentionSeconds (deadline : Z) (earliestTermination : option Z) : result Z :=
  match earliestTermination with
  | None => Err (Errorf "job retry retention requires an authoritative timestamp")
  | Some earliest =>
      let remaining := time_sub deadline earliest in
      let seconds :=
        if 0 <? remaining then i64 (DefaultJobTTLSeconds + (Z.quot remaining Second + 1))
        else DefaultJobTTLSeconds in
      if max_int32 <? seconds
      then Err (Errorf "job retry recovery deadline exceeds the Kubernetes TTL range")
      else Ok seconds
  end.

(** ** What an accepted checkpoint guarantees *)

Lemma dec_int_in_range lo hi j z : lo <= 0 <= hi -> dec_int_in lo hi j = Some z -> lo <= z <= hi.
Proof. intros R. unfold dec_int_in. repeat case_goal; intros [= <-]; bool_to_prop; lia. Qed.

Section RetryProps.
Context {Q : Type} `{QuantityLaws Q} `{!KubernetesJson Q}.
Variable decode_job : Json -> option (Job Q).
Variable order : JobRetryPolicy Q -> list (string * Z).

Lemma dec_checkpoint_attempt text cp :
  dec_retry_checkpoint decode_job text = Some cp -> 0 <= rc_Attempt cp < two64.
Proof.
  unfold dec_retry_checkpoint. intros E.
  repeat match type of E with
  | match ?o with _ => _ end = _ => destruct o eqn:?; [|discriminate]
  end.
  injection E as <-. cbn [rc_Attempt].
  match goal with H : dec_uint64 _ = Some _ |- _ => apply dec_int_in_range in H; unfold two64 in *; lia end.
Qed.

Lemma retry_policy_ok job policy :
  RetryPolicyFromJob order (Some job) = Ok (Some policy) ->
  ValidateJobRetryPolicy (Some policy) = Ok tt /\
  dec_retry_policy (annotation_of job AnnotationJobRetryPolicy) = Some policy /\
  blank (annotation_of job AnnotationJobStartTime) = true /\ kj_BackoffLimit job = Some 0 /\
  ps_RestartPolicy (kj_Pod job) = RestartPolicyNever /\
  ValidateRetryJobResources (order policy) job policy = Ok tt.
Proof.
  unfold RetryPolicyFromJob. destruct (str_empty _); [done|].
  destruct (dec_retry_policy _) as [p|] eqn:D; [|done].
  destruct (ValidateJobRetryPolicy (Some p)) as [[]|e] eqn:V; [|done].
  destruct (blank _) eqn:B; cbn [negb]; [|done]. case_bool_decide as L; cbn [negb orb]; [|done].
  destruct (String.eqb_spec (ps_RestartPolicy (kj_Pod job)) RestartPolicyNever); cbn [negb]; [|done].
  destruct (ValidateRetryJobResources (order p) job p) as [[]|e'] eqn:R; cbn; [|done].
  by intros [= <-].
Qed.

(** The conditions of [DecodeInstantJobRetryCheckpoint]. *)
Definition checkpoint_ok (task : JobTask) (cp : InstantJobRetryCheckpoint Q) (job : Job Q)
    (policy : JobRetryPolicy Q) : Prop :=
  rc_Job cp = Some job /\ RetryPolicyFromJob order (Some job) = Ok (Some policy) /\
  rc_Kind cp = "instant_job_retry"%string /\ rc_Version cp = 1 /\
  kj_Name job <> ""%string /\ kj_Namespace job <> ""%string /\ rc_Attempt cp <> 0 /\ 0 < rc_Deadline cp /\
  RetryJobMatchesTask (Some job) task = true /\
  annotation_of job AnnotationJobAttempt = FormatUint (rc_Attempt cp) 10 /\
  (0 < jt_Attempt task -> jt_Attempt task = rc_Attempt cp) /\
  rc_Attempt cp <= u64 (MaxRetries policy + 1) /\
  (1 < rc_Attempt cp -> rc_PreviousUID cp <> ""%string /\ 0 < rc_RetryAt cp).

Lemma decode_checkpoint_spec task cp :
  DecodeInstantJobRetryCheckpoint decode_job order (Some task) = Ok cp <->
  dec_retry_checkpoint decode_job (jt_InternalInfo task) = Some cp /\
  exists job policy, checkpoint_ok task cp job policy.
Proof.
  unfold DecodeInstantJobRetryCheckpoint, checkpoint_ok.
  destruct (dec_retry_checkpoint decode_job (jt_InternalInfo task)) as [cp'|]; [|split; [done|by intros [? _]]].
  destruct (rc_Job cp') as [job|] eqn:J.
  2:{ split; [done|]. intros [[= ->] (job & policy & J' & _)]. congruence. }
  set (P1 := _ || (rc_Deadline cp' <=? 0)).
  set (P2 := _ || ((0 <? jt_Attempt task) && _)).
  assert (E1 : P1 = false <-> rc_Kind cp' = "instant_job_retry"%string /\ rc_Version cp' = 1 /\
    kj_Name job <> ""%string /\ kj_Namespace job <> ""%string /\ rc_Attempt cp' <> 0 /\ 0 < rc_Deadline cp').
  { unfold P1. rewrite !orb_false_iff, !negb_false_iff, String.eqb_eq, !str_empty_false, Z.eqb_eq, Z.eqb_neq, Z.leb_gt.
    tauto. }
  assert (E2 : P2 = false <-> RetryJobMatchesTask (Some job) task = true /\
    annotation_of job AnnotationJobAttempt = FormatUint (rc_Attempt cp') 10 /\
    (0 < jt_Attempt task -> jt_Attempt task = rc_Attempt cp')).
  { unfold P2. rewrite !orb_false_iff, !negb_false_iff, String.eqb_eq, andb_false_iff, negb_false_iff, Z.eqb_eq, Z.ltb_ge.
    intuition lia. }
  destruct P1.
  { split; [done|]. intros [[= ->] (job' & policy & J' & A)]. rewrite J in J'. injection J' as <-. cut (true = false); [done|]. apply E1. tauto. }
  destruct P2.
  { split; [done|]. intros [[= ->] (job' & policy & J' & A)]. rewrite J in J'. injection J' as <-. cut (true = false); [done|]. apply E2. tauto. }
  destruct (RetryPolicyFromJob order (Some job)) as [[policy|]|e] eqn:R.
  2-3: split; [done|]; intros [[= ->] (job' & policy' & J' & R' & _)]; congruence.
  destruct (_ || _) eqn:B.
  - split; [done|]. intros [[= ->] (job' & policy' & J' & R' & A)].
    assert (job' = job) as -> by congruence. assert (policy' = policy) as -> by congruence.
    apply orb_true_iff in B as [B|B].
    + apply Z.ltb_lt in B. lia.
    + apply andb_true_iff in B as [B1 B2]. apply Z.ltb_lt in B1. apply orb_true_iff in B2.
      rewrite str_empty_true, Z.leb_le in B2. intuition (congruence || lia).
  - apply orb_false_iff in B as [B1 B2]. apply Z.ltb_ge in B1.
    rewrite andb_false_iff, Z.ltb_ge, orb_false_iff, str_empty_false, Z.leb_gt in B2. split.
    + intros [= <-]. split; [done|]. exists job, policy. intuition lia.
    + by intros [[= ->] _].
Qed.
End RetryProps.

Lemma matches_task {Q : Type} (job : Job Q) task :
  RetryJobMatchesTask (Some job) task = true <->
  jt_TaskID task <> ""%string /\ jt_ExecutionKey task <> ""%string /\ 0 < jt_RunGeneration task /\
  annotation_of job AnnotationJobTaskID = jt_TaskID task /\
  annotation_of job AnnotationJobExecutionKey = jt_ExecutionKey task /\
  annotation_of job AnnotationJobRunGeneration = FormatUint (jt_RunGeneration task) 10.
Proof.
  unfold RetryJobMatchesTask.
  rewrite !andb_true_iff, !negb_true_iff, !str_empty_false, !String.eqb_eq, Z.ltb_lt. tauto.
Qed.

(** A valid policy's retries. *)
Lemma valid_policy_retries {Q : Type} `{QuantityOps Q} (p : JobRetryPolicy Q) :
  ValidateJobRetryPolicy (Some p) = Ok tt ->
  0 <= MaxRetries p <= 10 /\ (OnOOM p = "stop"%string -> MaxRetries p = 0).
Proof.
  unfold ValidateJobRetryPolicy. destruct (String.eqb_spec (OnOOM p) "stop") as [S|S].
  - destruct (_ || _) eqn:B; [done|]. intros _. repeat (apply orb_false_iff in B as [B _]). bool_to_prop. lia.
  - destruct (_ || _); [|done]. destruct ((MaxRetries p <? 1) || (10 <? MaxRetries p)) eqn:B; [done|].
    intros _. apply orb_false_iff in B as [B1 B2]. bool_to_prop. split; [lia|done].
Qed.

(** The retry budget a policy grants: one attempt, and its retries. *)
Definition attempts_allowed {Q : Type} (policy : JobRetryPolicy Q) : Z := MaxRetries policy + 1.

(** a checkpoint that is accepted stays within its budget.  It carries a job
    whose annotations name the task, its execution key, generation and the attempt,
    and whose valid retry policy allows the attempt: at most one more than its
    retries, never more than eleven, and the first one only when an out-of-memory
    failure must stop the job.  A retry names the attempt it replaces. *)
Theorem checkpoint_within_budget {Q : Type} `{QuantityLaws Q} `{!KubernetesJson Q} decode_job order task
    (cp : InstantJobRetryCheckpoint Q) :
  DecodeInstantJobRetryCheckpoint decode_job order (Some task) = Ok cp ->
  exists job policy, rc_Job cp = Some job /\ RetryPolicyFromJob order (Some job) = Ok (Some policy) /\
    ValidateJobRetryPolicy (Some policy) = Ok tt /\ 1 <= rc_Attempt cp <= attempts_allowed policy /\ attempts_allowed policy <= 11 /\
    (OnOOM policy = "stop"%string -> rc_Attempt cp = 1) /\
    RetryJobMatchesTask (Some job) task = true /\
    annotation_of job AnnotationJobAttempt = FormatUint (rc_Attempt cp) 10 /\ 0 < rc_Deadline cp /\
    (1 < rc_Attempt cp -> rc_PreviousUID cp <> ""%string /\ 0 < rc_RetryAt cp).
Proof.
  intros (D & job & policy & C)%decode_checkpoint_spec. exists job, policy.
  destruct C as (J & R & _ & _ & _ & _ & N & Dl & M & A & _ & B & P).
  pose proof (retry_policy_ok _ _ _ R) as [V _]. destruct (valid_policy_retries _ V) as [L1 L2].
  apply dec_checkpoint_attempt in D. unfold attempts_allowed.
  rewrite u64_small in B by (unfold two64 in *; lia).
  repeat match goal with |- _ /\ _ => split end; auto; try lia; try by apply P.
  intros S. apply L2 in S. lia.
Qed.

Lemma live_execution_spec {Q : Type} `{QuantityLaws Q} `{!KubernetesJson Q} decode_job order row (live : Job Q) :
  ValidateInstantJobRetryExecution decode_job order (Some row) (Some live) = Ok tt <->
  HasInstantJobRetryCheckpoint (Some row) = true /\ kj_UID live <> ""%string /\
  exists key cp job, job_ExecutionKey row = Some key /\
    DecodeInstantJobRetryCheckpoint decode_job order (Some (task_of row key)) = Ok cp /\ rc_Job cp = Some job /\
    kj_Namespace live = kj_Namespace job /\ kj_Name live = kj_Name job /\
    RetryJobMatchesTask (Some live) (task_of row key) = true /\
    annotation_of live AnnotationJobAttempt = FormatUint (rc_Attempt cp) 10 /\
    (rc_CurrentUID cp = ""%string \/ rc_CurrentUID cp = kj_UID live) /\ kj_UID live <> rc_PreviousUID cp.
Proof.
  unfold ValidateInstantJobRetryExecution. destruct (job_ExecutionKey row) as [key|] eqn:K.
  2:{ split; [done|]. intros (_ & _ & ? & ? & ? & ? & _). congruence. }
  destruct (HasInstantJobRetryCheckpoint (Some row)) eqn:HC; cbn [negb orb].
  2:{ split; [done|]. by intros [? _]. }
  destruct (str_empty (kj_UID live)) eqn:U.
  { split; [done|]. intros (_ & N & _). apply str_empty_true in U. done. }
  apply str_empty_false in U.
  destruct (DecodeInstantJobRetryCheckpoint decode_job order (Some (task_of row key))) as [cp|e] eqn:D; cbn [result_bind].
  2:{ split; [done|]. intros (_ & _ & key' & cp & job & [= <-] & D' & _). congruence. }
  destruct (rc_Job cp) as [job|] eqn:J.
  2:{ split; [done|]. intros (_ & _ & key' & cp' & job & [= <-] & D' & J' & _). congruence. }
  set (B := _ || (kj_UID live =? rc_PreviousUID cp)%string).
  assert (E : B = false <-> kj_Namespace live = kj_Namespace job /\ kj_Name live = kj_Name job /\
    RetryJobMatchesTask (Some live) (task_of row key) = true /\
    annotation_of live AnnotationJobAttempt = FormatUint (rc_Attempt cp) 10 /\
    (rc_CurrentUID cp = ""%string \/ rc_CurrentUID cp = kj_UID live) /\ kj_UID live <> rc_PreviousUID cp).
  { unfold B. rewrite !orb_false_iff, andb_false_iff, !negb_false_iff, str_empty_true, !String.eqb_eq, String.eqb_neq. tauto. }
  destruct B.
  - split; [done|]. intros (_ & _ & key' & cp' & job' & [= <-] & D' & J' & X).
    assert (cp' = cp) as -> by congruence. assert (job' = job) as -> by congruence.
    cut (true = false); [done|]. by apply E.
  - split; [intros _|done]. split; [done|split; [done|]]. exists key, cp, job.
    pose proof (proj1 E eq_refl). tauto.
Qed.

(** The columns a checkpoint is matched on. *)
Lemma task_of_task r key : jt_TaskID (task_of r key) = job_TaskID r.
Proof. done. Qed.
Lemma task_of_key r key : jt_ExecutionKey (task_of r key) = key.
Proof. done. Qed.
Lemma task_of_generation r key : jt_RunGeneration (task_of r key) = job_RunGeneration r.
Proof. done. Qed.
Lemma task_of_attempt r key : jt_Attempt (task_of r key) = job_Attempt r.
Proof. done. Qed.
Lemma task_of_info r key : jt_InternalInfo (task_of r key) = job_InternalInfo r.
Proof. done. Qed.

(** A live Job identifies one execution and attempt.  If two rows accept the
    same live Job, they are rows of the same task, execution key and generation, and
    of the same attempt; and a row whose checkpoint knows the Job's UID accepts only
    that object, and never the one the attempt replaces. *)
Theorem live_job_identifies_execution {Q : Type} `{QuantityLaws Q} `{!KubernetesJson Q} decode_job order
    row row' (live live' : Job Q) :
  0 <= job_RunGeneration row < two64 -> 0 <= job_RunGeneration row' < two64 ->
  ValidateInstantJobRetryExecution decode_job order (Some row) (Some live) = Ok tt ->
  (ValidateInstantJobRetryExecution decode_job order (Some row') (Some live) = Ok tt ->
   job_TaskID row' = job_TaskID row /\ job_ExecutionKey row' = job_ExecutionKey row /\
   job_RunGeneration row' = job_RunGeneration row /\
   exists cp cp' key, DecodeInstantJobRetryCheckpoint decode_job order (Some (task_of row key)) = Ok cp /\
     DecodeInstantJobRetryCheckpoint decode_job order (Some (task_of row' key)) = Ok cp' /\
     rc_Attempt cp' = rc_Attempt cp) /\
  (ValidateInstantJobRetryExecution decode_job order (Some row) (Some live') = Ok tt ->
   forall key cp, job_ExecutionKey row = Some key ->
     DecodeInstantJobRetryCheckpoint decode_job order (Some (task_of row key)) = Ok cp ->
     rc_CurrentUID cp <> ""%string -> kj_UID live' = kj_UID live /\ kj_UID live <> rc_PreviousUID cp).
Proof.
  intros G G' (_ & U & key & cp & job & K & D & J & _ & _ & M & A & C & P)%live_execution_spec.
  apply matches_task in M as (_ & _ & _ & T1 & T2 & T3). rewrite task_of_task in T1. rewrite task_of_key in T2. rewrite task_of_generation in T3. split.
  - intros (_ & _ & key' & cp' & job' & K' & D' & J' & _ & _ & M' & A' & _)%live_execution_spec.
    apply matches_task in M' as (_ & _ & _ & T1' & T2' & T3'). rewrite task_of_task in T1'.
    rewrite task_of_key in T2'. rewrite task_of_generation in T3'.
    assert (key' = key) as -> by congruence. split; [congruence|]. split; [congruence|].
    split; [apply FormatUint_decimal_inj; [done|done|congruence]|]. exists cp, cp', key. split; [done|]. split; [done|].
    apply decode_checkpoint_spec in D as [D _], D' as [D' _].
    apply dec_checkpoint_attempt in D, D'. apply FormatUint_decimal_inj; [done|done|congruence].
  - intros (_ & _ & key' & cp' & job' & K' & D' & J' & _ & _ & _ & _ & C' & _)%live_execution_spec.
    intros k c Hk Hc Hn. assert (key' = k) as -> by congruence. assert (key = k) as -> by congruence.
    assert (cp' = c) as -> by congruence. assert (cp = c) as -> by congruence.
    destruct C, C'; try done. split; [congruence|done].
Qed.

(** a finished attempt is kept long enough.  The retention granted to a Job that
    terminates no earlier than the given time ends more than the default retention
    after the recovery deadline, and fits the Kubernetes field. *)
Theorem retention_covers_deadline deadline earliest seconds :
  retryJobRetentionSeconds deadline (Some earliest) = Ok seconds ->
  DefaultJobTTLSeconds <= seconds <= max_int32 /\
  forall termination, earliest <= termination ->
    deadline + DefaultJobTTLSeconds * Second <= termination + seconds * Second.
Proof.
  unfold retryJobRetentionSeconds. destruct (Z.ltb_spec 0 (time_sub deadline earliest)) as [R|R].
  - set (rest := Z.quot (time_sub deadline earliest) Second).
    assert (B : 0 <= rest <= 9223372036 /\ time_sub deadline earliest < (rest + 1) * Second).
    { unfold rest. rewrite Z.quot_div_nonneg by (lia || reflexivity).
      assert (T : time_sub deadline earliest <= max_int64) by (unfold time_sub, min_int64, max_int64; lia).
      pose proof (Z.div_mod (time_sub deadline earliest) Second ltac:(discriminate)) as E.
      pose proof (Z.mod_pos_bound (time_sub deadline earliest) Second eq_refl).
      split; [|lia]. split; [apply Z.div_pos; [lia|reflexivity]|].
      change 9223372036 with (max_int64 / Second). apply Z.div_le_mono; [reflexivity|done]. }
    rewrite i64_small by (unfold in_int64, min_int64, max_int64, DefaultJobTTLSeconds; lia).
    destruct (Z.ltb_spec max_int32 (DefaultJobTTLSeconds + (rest + 1))) as [L|L]; [done|]. intros [= <-].
    unfold DefaultJobTTLSeconds, max_int32 in *. split; [lia|]. intros termination Ht.
    assert (S : deadline - earliest <= time_sub deadline earliest).
    { unfold time_sub, min_int64, max_int64 in *. unfold Second, Millisecond, Microsecond in *. lia. }
    unfold Second, Millisecond, Microsecond in *. lia.
  - destruct (Z.ltb_spec max_int32 DefaultJobTTLSeconds) as [L|L]; [done|]. intros [= <-].
    split; [unfold DefaultJobTTLSeconds, max_int32; lia|]. intros termination Ht.
    unfold time_sub, min_int64, max_int64, Second, Millisecond, Microsecond, DefaultJobTTLSeconds in *. lia.
Qed.

(** ** The scheduler's recovery check agrees *)

Section Agreement.
Context {Q : Type} `{QuantityLaws Q} `{!KubernetesJson Q}.
Variable decode_job : Json -> option (Job Q).
Variable order : JobRetryPolicy Q -> list (string * Z).

Definition metadata_of (job : Job Q) : ObjectMeta :=
  Build_ObjectMeta (kj_Name job) (kj_Namespace job) (kj_Annotations job).

(** Decoding a Job reads its metadata. *)
Definition reads_metadata : Prop :=
  forall j job, decode_job j = Some job -> dec_checkpoint_job (Q := Q) j = Some (metadata_of job).

Lemma dec_checkpoint_agrees text cp job :
  reads_metadata -> dec_retry_checkpoint decode_job text = Some cp -> rc_Job cp = Some job ->
  dec_checkpoint (Q := Q) text = Some (Build_admission_checkpoint (rc_Kind cp) (rc_Version cp) (rc_Attempt cp)
    (rc_CurrentUID cp) (rc_Deadline cp) (Some (metadata_of job))).
Proof.
  intros R E J. unfold dec_retry_checkpoint in E. unfold dec_checkpoint.
  repeat match type of E with
  | match ?o with _ => _ end = _ => destruct o eqn:?; [|discriminate]
  end.
  injection E as <-. cbn [rc_Kind rc_Version rc_Attempt rc_CurrentUID rc_Deadline rc_Job] in *. subst.
  match goal with H : dec_ptr _ _ = Some _ |- _ => revert H end. unfold dec_ptr.
  destruct (json_field "job" _); try (destruct (decode_job _) eqn:D; [|discriminate]; apply R in D; rewrite D);
    by intros [= ->].
Qed.

(** The parts of a retry policy check the scheduler leaves to the executor. *)
Definition retry_shape (job : Job Q) : Prop :=
  blank (annotation_of job AnnotationJobStartTime) = true /\ kj_BackoffLimit job = Some 0 /\
  ps_RestartPolicy (kj_Pod job) = RestartPolicyNever.

Lemma stop_policy_from_job job policy :
  retry_shape job -> OnOOM policy = "stop"%string ->
  (RetryPolicyFromJob order (Some job) = Ok (Some policy) <->
   annotation_of job AnnotationJobRetryPolicy <> ""%string /\
   dec_retry_policy (annotation_of job AnnotationJobRetryPolicy) = Some policy /\
   is_ok (ValidateJobRetryPolicy (Some policy)) = true).
Proof.
  intros (B & L & N) S. unfold RetryPolicyFromJob. rewrite B, L, N. cbn [negb].
  rewrite bool_decide_true by done. rewrite String.eqb_refl. cbn [negb orb].
  destruct (str_empty _) eqn:E; bool_to_prop; [split; [done|by intros [? _]]|].
  destruct (dec_retry_policy _) as [p|]; [|split; [done|by intros (_ & ? & _)]].
  destruct (ValidateJobRetryPolicy (Some p)) as [[]|e] eqn:V.
  - unfold ValidateRetryJobResources. split.
    + destruct (negb (OnOOM p =? "resize")%string); cbn [result_bind]; [|destruct (all_ok _ _); cbn [result_bind]];
        try discriminate; intros [= ->]; by rewrite V.
    + intros (_ & [= ->] & _). rewrite S. done.
  - split; [done|]. intros (_ & [= ->] & V'). by rewrite V in V'.
Qed.
End Agreement.

Lemma empty_policy {Q : Type} `{KubernetesJson Q} : dec_retry_policy (Q := Q) "" = None.
Proof. reflexivity. Qed.

(** With a checkpoint that decodes and a job shaped as retries require it. *)
Lemma recovery_of_shape {Q : Type} `{QuantityLaws Q} `{!KubernetesJson Q} decode_job order row key cp (job : Job Q) now id :
  reads_metadata decode_job -> 0 <= job_RunGeneration row -> job_TaskID row <> ""%string -> 0 <= now ->
  job_ExecutionKey row = Some key -> dec_retry_checkpoint decode_job (job_InternalInfo row) = Some cp ->
  rc_Job cp = Some job -> retry_shape job ->
  jobAdmissionCheckpointIdentity (Q := Q) row now = Some id <->
  DecodeInstantJobRetryCheckpoint decode_job order (Some (task_of row key)) = Ok cp /\
  (exists policy, RetryPolicyFromJob order (Some job) = Ok (Some policy) /\ OnOOM policy = "stop"%string) /\
  (job_Type row = JobCommand \/ job_Type row = JobEval) /\ job_Attempt row = 1 /\
  rc_CurrentUID cp <> ""%string /\ now < rc_Deadline cp /\
  id = Build_jobAdmissionRecoveryIdentity (rc_CurrentUID cp) (kj_Namespace job) (kj_Name job)
         (job_TaskID row) key (job_RunGeneration row) (rc_Deadline cp) 1 (job_Type row).
Proof.
  intros R G Tid Now K D J Sh. unfold jobAdmissionCheckpointIdentity. rewrite K.
  rewrite (dec_checkpoint_agrees _ _ _ _ R D J). cbn [cp_Job cp_Kind cp_Version cp_Attempt cp_CurrentUID cp_Deadline].
  rewrite decode_checkpoint_spec, task_of_info.
  unfold metadata_of. cbn [om_Name om_Namespace om_Annotations].
  change (str_get (kj_Annotations job)) with (annotation_of job).
  destruct ((negb (job_Type row =? JobCommand)%string && _) || _ || _) eqn:B1.
  { split; [done|]. intros ((_ & job' & policy & C) & _ & T & _).
    destruct C as (J' & _ & _ & _ & _ & _ & _ & _ & M & _). apply matches_task in M as (_ & N & G' & _).
    cbn in N, G'. exfalso. rewrite !orb_true_iff, andb_true_iff, !negb_true_iff, !String.eqb_neq, str_empty_true, Z.eqb_eq in B1.
    destruct B1 as [[[? ?]|?]|?]; [by destruct T|done|lia]. }
  rewrite !orb_false_iff, andb_false_iff, !negb_false_iff, !String.eqb_eq, str_empty_false, Z.eqb_neq in B1.
  destruct B1 as [[T Ne] Gn].
  set (B2 := _ || negb (annotation_of job AnnotationJobAttempt =? _)%string).
  assert (E2 : B2 = false <-> rc_Kind cp = "instant_job_retry"%string /\ rc_Version cp = 1 /\
    rc_CurrentUID cp <> ""%string /\ rc_Attempt cp = 1 /\ rc_Attempt cp = job_Attempt row /\
    now < rc_Deadline cp /\ kj_Name job <> ""%string /\ kj_Namespace job <> ""%string /\
    RetryJobMatchesTask (Some job) (task_of row key) = true /\
    annotation_of job AnnotationJobAttempt = FormatUint (rc_Attempt cp) 10).
  { unfold B2. rewrite matches_task, !orb_false_iff, !negb_false_iff, !String.eqb_eq, !Z.eqb_eq, Z.ltb_lt, !str_empty_false.
    rewrite task_of_task, task_of_key, task_of_generation. intuition lia. }
  destruct B2.
  - split; [done|]. intros ((_ & job' & policy & C) & (policy' & R' & S') & _ & At & U & Dl & _).
    unfold checkpoint_ok in C. assert (job' = job) as -> by (destruct C; congruence).
    assert (policy' = policy) as -> by (destruct C as (_ & C & _); congruence).
    cut (true = false); [done|]. apply E2.
    destruct C as (_ & Rp & Kd & Vs & Nm & Ns & Na & _ & M & An & _ & Bd & _).
    pose proof (retry_policy_ok _ _ _ Rp) as [V _]. destruct (valid_policy_retries _ V) as [_ Z0].
    rewrite (Z0 S'), u64_small in Bd by (unfold two64; lia). apply dec_checkpoint_attempt in D.
    repeat match goal with |- _ /\ _ => split end; auto; lia.
  - destruct (proj1 E2 eq_refl) as (Kd & Vs & U & At & At' & Dl & Nm & Ns & M & An). split.
    + destruct (dec_retry_policy _) as [policy|] eqn:Dp; [|done].
      destruct (_ || _) eqn:B; [done|]. intros [= <-]. apply orb_false_iff in B as [S V].
      rewrite negb_false_iff in S, V. apply String.eqb_eq in S.
      assert (Rp : RetryPolicyFromJob order (Some job) = Ok (Some policy)).
      { apply stop_policy_from_job; [done|done|]. split; [|done]. intros E. rewrite E, empty_policy in Dp. done. }
      pose proof (retry_policy_ok _ _ _ Rp) as [V' _]. destruct (valid_policy_retries _ V') as [_ Z0].
      split; [split; [done|]|].
      * exists job, policy. unfold checkpoint_ok. rewrite (Z0 S), u64_small by (unfold two64; lia).
        repeat match goal with |- _ /\ _ => split end; auto; rewrite ?task_of_attempt; lia.
      * split; [by exists policy|]. split; [done|]. split; [lia|]. split; [done|]. split; [done|]. by rewrite At.
    + intros (_ & (policy & Rp & S) & _ & _ & _ & _ & ->).
      apply stop_policy_from_job in Rp as (_ & -> & V); [|done|done]. rewrite S, V. cbn. by rewrite At.
Qed.

(** A job with a retry policy has the shape retries require. *)
Lemma policy_shape {Q : Type} `{QuantityOps Q} `{!KubernetesJson Q} order (job : Job Q) policy :
  RetryPolicyFromJob order (Some job) = Ok (Some policy) -> retry_shape job.
Proof.
  unfold RetryPolicyFromJob. destruct (str_empty _); [done|]. destruct (dec_retry_policy _) as [p|]; [|done].
  destruct (ValidateJobRetryPolicy _); [|done]. destruct (negb (blank _)) eqn:B; [done|].
  destruct (_ || _) eqn:S; [done|]. intros _. apply negb_false_iff in B. apply orb_false_iff in S as [L N].
  apply negb_false_iff, bool_decide_eq_true in L. apply negb_false_iff, String.eqb_eq in N. done.
Qed.


(** ** A checkpoint of a first attempt *)

(** A decoder of the fields the witnesses use. *)
Definition z_decode_job (j : Json) : option (Job Z) :=
  decode! l <- dec_struct j;
  decode! meta <- decode_object_meta (Q := Z) (json_field "metadata" l);
  decode! spec <- dec_struct (json_field "spec" l);
  decode! backoff <- dec_ptr dec_int64 (json_field "backoffLimit" spec);
  decode! template <- dec_struct (json_field "template" spec);
  decode! pod <- dec_struct (json_field "spec" template);
  decode! restart <- dec_string (json_field "restartPolicy" pod);
  Some (job_zero <| kj_Name := om_Name meta |> <| kj_Namespace := om_Namespace meta |>
          <| kj_Annotations := om_Annotations meta |> <| kj_BackoffLimit := backoff |>
          <| kj_Pod := pod_spec_zero <| ps_RestartPolicy := restart |> |>).

Lemma z_reads_metadata : reads_metadata z_decode_job.
Proof.
  intros j job. unfold z_decode_job, dec_checkpoint_job. destruct (dec_struct j) as [l|]; [|discriminate].
  destruct (decode_object_meta _) as [meta|]; [|discriminate].
  repeat match goal with |- match ?o with _ => _ end = _ -> _ => destruct o; [|discriminate] end.
  intros [= <-]. by destruct meta.
Qed.

Definition member (key value : string) : string := (jq key ++ ":" ++ value)%string.
Definition object (l : list string) : string := ("{" ++ Join l "," ++ "}")%string.

(** The policy is a JSON text inside a JSON text: its quotes are escaped. *)
Definition escaped_policy : string :=
  let q := (String "092" (String "034" EmptyString))%char in
  (String "034" ("{" ++ q ++ "onOOM" ++ q ++ ":" ++ q ++ "stop" ++ q ++ "}" ++ String "034" EmptyString))%string.

Definition sample_checkpoint : string :=
  object [member "kind" (jq "instant_job_retry"); member "version" "1"; member "attempt" "1";
    member "currentUID" (jq "uid-1"); member "deadline" "9000";
    member "job" (object [
      member "metadata" (object [member "name" (jq "job"); member "namespace" (jq "ns");
        member "annotations" (object [member AnnotationJobTaskID (jq "task-1");
          member AnnotationJobExecutionKey (jq "key"); member AnnotationJobRunGeneration (jq "7");
          member AnnotationJobAttempt (jq "1"); member AnnotationJobRetryPolicy escaped_policy])]);
      member "spec" (object [member "backoffLimit" "0";
        member "template" (object [member "spec" (object [member "restartPolicy" (jq "Never")])])])])].

Definition sample_row : JobInfo :=
  job_info_zero <| job_Type := JobCommand |> <| job_TaskID := "task-1" |> <| job_ExecutionKey := Some "key"%string |>
    <| job_RunGeneration := 7 |> <| job_Attempt := 1 |> <| job_InternalInfo := sample_checkpoint |>.

Definition no_order (p : JobRetryPolicy Z) : list (string * Z) := growth_factors p.

Example sample_accepted :
  is_ok (DecodeInstantJobRetryCheckpoint z_decode_job no_order (Some (task_of sample_row "key"))) = true.
Proof. vm_compute. reflexivity. Qed.

Definition sample_live : option (Job Z) :=
  match dec_retry_checkpoint z_decode_job sample_checkpoint with
  | Some cp => option_map (fun job : Job Z => job <| kj_UID := "uid-1" |>) (rc_Job cp)
  | None => None
  end.

Lemma checkpoint_within_budget_witness :
  exists cp, DecodeInstantJobRetryCheckpoint z_decode_job no_order (Some (task_of sample_row "key")) = Ok cp /\
    exists policy : JobRetryPolicy Z, 1 <= rc_Attempt cp <= attempts_allowed policy.
Proof.
  pose proof sample_accepted as A.
  destruct (DecodeInstantJobRetryCheckpoint z_decode_job no_order (Some (task_of sample_row "key")))
    as [cp|e] eqn:D; [|discriminate A].
  destruct (checkpoint_within_budget _ _ _ _ D) as (job & policy & _ & _ & _ & B & _).
  exists cp. split; [reflexivity|]. exists policy. exact B.
Defined.

Lemma live_job_identifies_execution_witness :
  exists live, ValidateInstantJobRetryExecution z_decode_job no_order (Some sample_row) (Some live) = Ok tt /\
    forall row, 0 <= job_RunGeneration row < two64 ->
      ValidateInstantJobRetryExecution z_decode_job no_order (Some row) (Some live) = Ok tt ->
      job_TaskID row = "task-1"%string.
Proof.
  assert (A : is_ok (match sample_live with
                     | Some live => ValidateInstantJobRetryExecution z_decode_job no_order (Some sample_row) (Some live)
                     | None => Err ErrDatabase end) = true) by (vm_compute; reflexivity).
  destruct sample_live as [live|]; [|discriminate A]. exists live.
  destruct (ValidateInstantJobRetryExecution z_decode_job no_order (Some sample_row) (Some live)) as [[]|e] eqn:V;
    [|discriminate A].
  split; [reflexivity|]. intros row R Vr.
  destruct (live_job_identifies_execution z_decode_job no_order sample_row row live live) as [U _];
    [split; [discriminate|reflexivity]|exact R|exact V|]. exact (proj1 (U Vr)).
Defined.

Lemma retention_covers_deadline_witness :
  DefaultJobTTLSeconds <= 3611 <= max_int32 /\ 10 * Second + DefaultJobTTLSeconds * Second <= 0 + 3611 * Second.
Proof.
  destruct (retention_covers_deadline (10 * Second) 0 3611 eq_refl) as [B H].
  split; [exact B|exact (H 0 (Z.le_refl 0))].
Defined.

Lemma sample_shape job cp :
  dec_retry_checkpoint z_decode_job sample_checkpoint = Some cp -> rc_Job cp = Some job -> retry_shape job.
Proof.
  intros D J.
  assert (S : match dec_retry_checkpoint z_decode_job sample_checkpoint ≫= rc_Job with
              | Some j => blank (annotation_of j AnnotationJobStartTime) &&
                  bool_decide (kj_BackoffLimit j = Some 0) && (ps_RestartPolicy (kj_Pod j) =? RestartPolicyNever)%string
              | None => false end = true) by (vm_compute; reflexivity).
  rewrite D in S. cbn [mbind option_bind] in S. rewrite J in S.
  apply andb_true_iff in S as [S R]. apply andb_true_iff in S as [S L].
  split; [exact S|split; [exact (bool_decide_eq_true_1 _ L)|by apply String.eqb_eq]].
Qed.

