(* ===== verification/Cleanup.v ===== *)
(** Version-update cleanup records: the functions on them in
    [pkg/apiserver/domain/model/workflow_queue.go].

    A cleanup task names the unfinished migration attempts it resolves.  The
    references of one task are normalised, and the references of all tasks are
    checked to be closed and acyclic by a three-colour depth-first search.  Go
    ranges over the map in any order, so the order is a parameter of the search:
    a permutation of the map's entries, one for each of its two loops. *)

From S2P Require Import Prelude GoStrings.

(** ** Sets of names *)

#[local] Instance string_le_dec : RelDecision String.le.
Proof. intros a b. unfold String.le. apply _. Defined.

(** [sort.Strings] *)
Definition sort_strings (l : list string) : list string := merge_sort String.le l.

Definition add_name (seen : gset string) (rawName : string) : gset string :=
  let name := TrimSpace rawName in
  if negb (str_empty name) then {[ name ]} ∪ seen else seen.

Definition NormalizeVersionUpdateCleanupPVCTemplateNames (groups : list (list string)) : list string :=
  let seen := fold_left (fun seen group => fold_left add_name group seen) groups ∅ in
  sort_strings (elements seen).

Definition EqualVersionUpdateCleanupPVCTemplateNames (left right : list string) : bool :=
  bool_decide (NormalizeVersionUpdateCleanupPVCTemplateNames [left] =
               NormalizeVersionUpdateCleanupPVCTemplateNames [right]).

(** ** References of one task *)

Fixpoint resolution_ids (taskID : string) (values : list string) (seen : gset string)
    (result : list string) : Prelude.result (list string) :=
  match values with
  | [] => Ok (sort_strings result)
  | rawValue :: rest =>
      let value := TrimSpace rawValue in
      if str_empty value then
        Err (Errorf ("task " ++ taskID ++ " has an empty resolvesTaskIDs entry"))
      else if String.eqb value taskID then
        Err (Errorf ("task " ++ taskID ++ " cannot resolve itself"))
      else if bool_decide (value ∈ seen) then
        Err (Errorf ("task " ++ taskID ++ " resolves StatefulSet cleanup task " ++ value ++ " more than once"))
      else resolution_ids taskID rest ({[ value ]} ∪ seen) (result ++ [value])%list
  end%string.

Definition NormalizeVersionUpdateCleanupResolutionTaskIDs (taskID : string) (values : list string)
    : result (list string) :=
  match values with
  | [] => Ok []
  | _ => resolution_ids (TrimSpace taskID) values ∅ []
  end.

(** ** The graph of all references *)

Inductive resolution_state := resolutionVisiting | resolutionVisited.

#[export] Instance resolution_state_eq_dec : EqDecision resolution_state.
Proof. solve_decision. Defined.

Abbreviation states := (gmap string resolution_state).

Definition successors (references : gmap string (list string)) (taskID : string) : list string :=
  default [] (references !! taskID).

(** Visit the tasks of a list in order, stopping at the first error. *)
Fixpoint visit_each (visit : string -> states -> option (result states)) (l : list string) (st : states)
    : option (result states) :=
  match l with
  | [] => Some (Ok st)
  | taskID :: rest =>
      match visit taskID st with
      | Some (Ok st') => visit_each visit rest st'
      | r => r
      end
  end.

(** One search step: [None] only when the fuel is used up. *)
Fixpoint visit (fuel : nat) (references : gmap string (list string)) (taskID : string) (st : states)
    : option (result states) :=
  match fuel with
  | O => None
  | S n =>
      match st !! taskID with
      | Some resolutionVisiting =>
          Some (Err (Errorf ("StatefulSet cleanup resolution graph contains a cycle at task " ++ taskID)))
      | Some resolutionVisited => Some (Ok st)
      | None =>
          match visit_each (visit n references) (successors references taskID)
                  (<[ taskID := resolutionVisiting ]> st) with
          | Some (Ok st') => Some (Ok (<[ taskID := resolutionVisited ]> st'))
          | r => r
          end
      end
  end%string.

(** The first loop: every reference names a task of the map. *)
Fixpoint check_known (references : gmap string (list string)) (entries : list (string * list string))
    : result unit :=
  match entries with
  | [] => Ok tt
  | (taskID, resolved) :: rest =>
      match List.find (fun r => match references !! r with Some _ => false | None => true end) resolved with
      | Some r => Err (Errorf ("task " ++ taskID ++ " resolves unknown StatefulSet cleanup task " ++ r))
      | None => check_known references rest
      end
  end%string.

(** [first] and [second] are the orders in which the two loops meet the map's
    entries.  A chain of unfinished visits holds distinct tasks of the map, so
    one call more than its size is enough fuel. *)
Definition ValidateVersionUpdateCleanupResolutionGraph (references : gmap string (list string))
    (first : list (string * list string)) (second : list string) : option (result unit) :=
  match check_known references first with
  | Err e => Some (Err e)
  | Ok _ =>
      match visit_each (visit (S (size references)) references) second ∅ with
      | Some (Ok _) => Some (Ok tt)
      | Some (Err e) => Some (Err e)
      | None => None
      end
  end.

(** ** The callback a task uses *)

Section Callback.
Context {JSONStruct WorkflowQueue Workflow Applications : Type}.
Variables (queue_callback : WorkflowQueue -> option JSONStruct)
  (workflow_callback : Workflow -> option JSONStruct) (app_callback : Applications -> option JSONStruct).

Definition WorkflowCallbackSource (task : option WorkflowQueue) (workflow : option Workflow)
    (app : option Applications) : option JSONStruct :=
  match task ≫= queue_callback with
  | Some c => Some c
  | None =>
      match workflow ≫= workflow_callback with
      | Some c => Some c
      | None => match app with Some a => app_callback a | None => None end
      end
  end.

End Callback.

(** ** The search decides closed and acyclic *)

Section Graph.
Variable references : gmap string (list string).

Definition edge (x y : string) : Prop := y ∈ successors references x.
Definition closed : Prop := forall x y, edge x y -> is_Some (references !! y).
Definition acyclic : Prop := forall x, ~ tc edge x x.

(** Finished tasks lead to finished tasks only and are on no cycle. *)
Definition finished (st : states) : Prop :=
  forall x, st !! x = Some resolutionVisited ->
    (forall y, edge x y -> st !! y = Some resolutionVisited) /\ ~ tc edge x x.

Definition unmarked (st : states) : nat := size (dom references ∖ dom st : gset string).

(** What a visit that succeeds leaves: the open tasks as they were, and no task
    that was finished reopened. *)
Record extends (st st' : states) : Prop := {
  ext_finished : finished st';
  ext_open : forall z, st' !! z = Some resolutionVisiting <-> st !! z = Some resolutionVisiting;
  ext_grows : forall z, st !! z = Some resolutionVisited -> st' !! z = Some resolutionVisited
}.

Definition visited (targets : list string) (st : states) (out : option (result states)) : Prop :=
  match out with
  | Some (Ok st') => extends st st' /\ forall x, x ∈ targets -> st' !! x = Some resolutionVisited
  | Some (Err _) => ~ acyclic
  | None => False
  end.

(** The hypotheses of a visit to the targets, reached from every open task. *)
Record ready (fuel : nat) (targets : list string) (st : states) : Prop := {
  ready_known : forall x, x ∈ targets -> is_Some (references !! x);
  ready_finished : finished st;
  ready_open : forall g x, st !! g = Some resolutionVisiting -> x ∈ targets -> tc edge g x;
  ready_fuel : (unmarked st < fuel)%nat
}.

Lemma finished_tc st x y :
  finished st -> st !! x = Some resolutionVisited -> tc edge x y -> st !! y = Some resolutionVisited.
Proof. intros F Hx T. induction T as [x y E|x y z E _ IH]; [|apply IH]; by apply (F x Hx). Qed.

Lemma extends_refl st : finished st -> extends st st.
Proof. by split. Qed.

Lemma extends_trans st1 st2 st3 : extends st1 st2 -> extends st2 st3 -> extends st1 st3.
Proof. intros [_ O1 G1] [F2 O2 G2]. split; [done| |auto]. intros z. by rewrite O2, O1. Qed.

Lemma unmarked_extends st st' : extends st st' -> (unmarked st' <= unmarked st)%nat.
Proof.
  intros [_ O G]. unfold unmarked. apply subseteq_size. intros x. rewrite !elem_of_difference, !(not_elem_of_dom (D := gset string)).
  intros [D N]. split; [done|]. destruct (st !! x) as [[]|] eqn:E; [|by apply G in E; congruence|done].
  apply O in E. congruence.
Qed.

Lemma unmarked_insert st x c :
  is_Some (references !! x) -> st !! x = None -> (unmarked (<[ x := c ]> st) < unmarked st)%nat.
Proof.
  intros R N. unfold unmarked. apply subset_size. rewrite dom_insert_L. split.
  - apply difference_mono; [done|apply union_subseteq_r].
  - apply (elem_of_dom (D := gset string)) in R. apply (not_elem_of_dom (D := gset string)) in N.
    clear -R N. set_solver.
Qed.

Lemma visit_each_spec (v : string -> states -> option (result states)) fuel l st :
  (forall x s, ready fuel [x] s -> visited [x] s (v x s)) ->
  ready fuel l st -> visited l st (visit_each v l st).
Proof.
  intros V. revert st. induction l as [|x l IH]; intros st [K F O Fu]; cbn.
  { split; [by apply extends_refl|]. intros x I. by apply elem_of_nil in I. }
  assert (R : ready fuel [x] st).
  { split; [|done| |done].
    - intros y ->%list_elem_of_singleton. apply K. by left.
    - intros g y G ->%list_elem_of_singleton. apply O; [done|by left]. }
  specialize (V x st R). destruct (v x st) as [[st'|e]|]; [|exact V|exact V].
  destruct V as [E M].
  assert (R' : ready fuel l st').
  { split; [|by apply ext_finished in E| |].
    - intros y I. apply K. by right.
    - intros g y G I. apply O; [by apply (ext_open _ _ E)|by right].
    - apply unmarked_extends in E. lia. }
  specialize (IH st' R'). destruct (visit_each v l st') as [[st''|e]|]; [|exact IH|exact IH].
  destruct IH as [E' M']. split; [by eapply extends_trans|].
  intros y [->|I]%elem_of_cons; [|auto]. apply (ext_grows _ _ E'), M. by left.
Qed.

Lemma visit_spec fuel x st :
  closed -> ready fuel [x] st -> visited [x] st (visit fuel references x st).
Proof.
  intros C. revert x st. induction fuel as [|n IH]; intros x st [K F O Fu]; [lia|].
  assert (I : x ∈ [x]) by by left. cbn. destruct (st !! x) as [[]|] eqn:E.
  - intros A. by apply (A x), O.
  - split; [by apply extends_refl|]. by intros y ->%list_elem_of_singleton.
  - set (st1 := <[ x := resolutionVisiting ]> st).
    assert (R : ready n (successors references x) st1).
    { split.
      - intros y S. by apply (C x y).
      - intros y [[_ ?]|[N Y]]%lookup_insert_Some; [done|]. destruct (F y Y) as [FS FA].
        split; [|done]. intros z Z. unfold st1. specialize (FS z Z).
        rewrite lookup_insert_ne; congruence.
      - intros g y [[<- _]|[N G]]%lookup_insert_Some S; [by apply tc_once|].
        eapply tc_r; [|exact S]. by apply O.
      - pose proof (unmarked_insert st x resolutionVisiting (K x I) E). unfold st1. lia. }
    pose proof (visit_each_spec (visit n references) n _ _ IH R) as V.
    destruct (visit_each _ _ st1) as [[st2|e]|]; [|exact V|exact V]. destruct V as [X M].
    assert (Open : st2 !! x = Some resolutionVisiting) by (apply (ext_open _ _ X), lookup_insert_eq).
    split; [|intros y ->%list_elem_of_singleton; apply lookup_insert_eq].
    assert (Keep : forall y, st2 !! y = Some resolutionVisited ->
      <[ x := resolutionVisited ]> st2 !! y = Some resolutionVisited).
    { intros y Y. rewrite lookup_insert_ne; [done|]. congruence. }
    split.
    + intros y [[<- _]|[N Y]]%lookup_insert_Some.
      * split; [auto|]. intros T.
        assert (B : st2 !! x = Some resolutionVisited); [|congruence].
        inversion T as [? ? S|? z ? S T']; subst; [by apply M|].
        eapply finished_tc; [apply X|by apply (M z)|exact T'].
      * destruct (ext_finished _ _ X y Y) as [FS FA]. auto.
    + intros z. destruct (decide (x = z)) as [<-|N].
      * rewrite lookup_insert_eq, E. done.
      * rewrite lookup_insert_ne by done. rewrite (ext_open _ _ X). unfold st1.
        by rewrite lookup_insert_ne.
    + intros z Z. apply Keep, (ext_grows _ _ X). unfold st1. rewrite lookup_insert_ne; congruence.
Qed.

Lemma find_known (l : list string) :
  match List.find (fun r => match references !! r with Some _ => false | None => true end) l with
  | Some r => r ∈ l /\ references !! r = None
  | None => forall r, r ∈ l -> is_Some (references !! r)
  end.
Proof.
  induction l as [|r l IH]; cbn; [intros r I; by apply elem_of_nil in I|].
  destruct (references !! r) eqn:E; [|by split; [left|]].
  destruct (List.find _ l) as [r'|].
  - destruct IH. split; [by right|done].
  - intros r' [->|I]%elem_of_cons; [by rewrite E|auto].
Qed.

Lemma check_known_spec entries :
  is_ok (check_known references entries) = true <->
  forall x ys y, (x, ys) ∈ entries -> y ∈ ys -> is_Some (references !! y).
Proof.
  induction entries as [|[x ys] l IH]; cbn.
  { split; [|done]. intros _ x ys y I. by apply elem_of_nil in I. }
  pose proof (find_known ys) as F. destruct (List.find _ ys) as [r|].
  - destruct F as [I N]. split; [done|]. intros A. destruct (A x ys r) as [? E]; [by left|done|congruence].
  - rewrite IH. split.
    + intros A x' ys' y [[= -> ->]|I]%elem_of_cons Y; [auto|by eapply A].
    + intros A x' ys' y I. apply (A x'). by right.
Qed.

Lemma closed_entries first :
  first ≡ₚ map_to_list references ->
  closed <-> forall x ys y, (x, ys) ∈ first -> y ∈ ys -> is_Some (references !! y).
Proof.
  intros P. unfold closed, edge, successors. split.
  - intros C x ys y I Y. rewrite P, elem_of_map_to_list in I. apply (C x). by rewrite I.
  - intros A x y Y. destruct (references !! x) as [ys|] eqn:E; [|by apply elem_of_nil in Y].
    apply (A x ys); [|done]. by rewrite P, elem_of_map_to_list.
Qed.

Lemma elem_of_keys second x :
  second ≡ₚ (map_to_list references).*1 -> x ∈ second <-> is_Some (references !! x).
Proof.
  intros P. rewrite P, list_elem_of_fmap. split.
  - intros ([y ys] & -> & I). apply elem_of_map_to_list in I. by exists ys.
  - intros [ys E]. exists (x, ys). by rewrite elem_of_map_to_list.
Qed.
End Graph.

(** C38: the search decides whether the references are closed and acyclic.  In
    whatever orders the two loops meet the map's entries, the validation returns
    (its fuel is never used up), and it succeeds exactly when every reference names
    a task of the map and no task resolves itself through a chain of references. *)
Theorem resolution_graph_valid references first second :
  first ≡ₚ map_to_list references -> second ≡ₚ (map_to_list references).*1 ->
  exists r, ValidateVersionUpdateCleanupResolutionGraph references first second = Some r /\
    (is_ok r = true <-> closed references /\ acyclic references).
Proof.
  intros P Q. unfold ValidateVersionUpdateCleanupResolutionGraph.
  pose proof (check_known_spec references first) as K. rewrite <- (closed_entries _ _ P) in K.
  destruct (check_known references first) as [u|e]; [|exists (Err e); cbn in *; intuition discriminate].
  assert (C : closed references) by by apply K.
  assert (R : ready references (S (size references)) second ∅).
  { split.
    - intros x. by apply elem_of_keys.
    - intros x E. by rewrite lookup_empty in E.
    - intros g x E. by rewrite lookup_empty in E.
    - unfold unmarked. rewrite dom_empty_L, difference_empty_L, size_dom. lia. }
  pose proof (visit_each_spec references _ _ second ∅ (fun x s => visit_spec references _ x s C) R) as V.
  destruct (visit_each _ second ∅) as [[st|e]|]; [| |done]; (eexists; split; [done|cbn]).
  - split; [|done]. intros _. split; [done|]. intros x T. destruct V as [X M].
    assert (I : x ∈ second).
    { apply (elem_of_keys _ _ _ Q). inversion T as [? y S|? y ? S _]; subst;
        unfold edge, successors in S; destruct (references !! x); eauto; by apply elem_of_nil in S. }
    by apply (ext_finished _ _ _ X x (M x I)).
  - split; [done|]. intros [_ A]. by destruct V.
Qed.

Lemma resolution_graph_valid_witness :
  let references : gmap string (list string) :=
    <[ "c" := [] ]> (<[ "b" := ["c"] ]> (<[ "a" := ["b"; "c"] ]> ∅)) in
  closed references /\ acyclic references.
Proof.
  intros references.
  destruct (resolution_graph_valid references (map_to_list references) (map_to_list references).*1)
    as (r & E & H); [done|done|].
  vm_compute in E. apply H. injection E as <-. reflexivity.
Defined.

(** ** Normalised names *)

Lemma sort_strings_perm l : sort_strings l ≡ₚ l.
Proof. apply merge_sort_Permutation. Qed.

Lemma sort_strings_sorted l : Sorted String.le (sort_strings l).
Proof. apply (Sorted_merge_sort String.le). Qed.

(** [sort.Strings] depends on the collection only, not on the order in which the
    names were met. *)
Lemma sort_strings_unique l l' : l ≡ₚ l' -> sort_strings l = sort_strings l'.
Proof.
  intros P. apply (StronglySorted_unique String.le).
  - apply (StronglySorted_merge_sort String.le).
  - apply (StronglySorted_merge_sort String.le).
  - by rewrite !sort_strings_perm.
Qed.

Lemma elem_of_add_names group seen x :
  x ∈ fold_left add_name group seen <->
  x ∈ seen \/ x <> ""%string /\ exists r, r ∈ group /\ TrimSpace r = x.
Proof.
  revert seen. induction group as [|r l IH]; intros seen; cbn.
  { split; [auto|]. intros [?|(_ & r & I & _)]; [done|by apply elem_of_nil in I]. }
  rewrite IH. unfold add_name. setoid_rewrite elem_of_cons.
  destruct (str_empty (TrimSpace r)) eqn:E; cbn; bool_to_prop; [naive_solver congruence|].
  rewrite elem_of_union, elem_of_singleton. naive_solver.
Qed.

Definition template_name (groups : list (list string)) (x : string) : Prop :=
  x <> ""%string /\ exists g r, g ∈ groups /\ r ∈ g /\ TrimSpace r = x.

Lemma elem_of_all_names groups seen x :
  x ∈ fold_left (fun seen group => fold_left add_name group seen) groups seen <->
  x ∈ seen \/ template_name groups x.
Proof.
  unfold template_name. revert seen. induction groups as [|g l IH]; intros seen; cbn.
  { split; [auto|]. intros [?|(_ & g & r & I & _)]; [done|by apply elem_of_nil in I]. }
  rewrite IH, elem_of_add_names. setoid_rewrite elem_of_cons. naive_solver.
Qed.

Lemma elem_of_template_names groups x :
  x ∈ NormalizeVersionUpdateCleanupPVCTemplateNames groups <-> template_name groups x.
Proof.
  unfold NormalizeVersionUpdateCleanupPVCTemplateNames.
  rewrite sort_strings_perm, elem_of_elements, elem_of_all_names. set_solver.
Qed.

Lemma template_names_NoDup groups : NoDup (NormalizeVersionUpdateCleanupPVCTemplateNames groups).
Proof. unfold NormalizeVersionUpdateCleanupPVCTemplateNames. rewrite sort_strings_perm. apply NoDup_elements. Qed.

(** Template names are normalised as a sorted set.  The result holds, sorted
    and without duplicates, exactly the trimmed non-blank names of all groups, it
    depends on nothing but that set, and [Equal] compares these sets. *)
Theorem template_names_normalised groups left right :
  let names := NormalizeVersionUpdateCleanupPVCTemplateNames groups in
  Sorted String.le names /\ NoDup names /\
  (forall x, x ∈ names <-> x <> ""%string /\ exists g r, g ∈ groups /\ r ∈ g /\ TrimSpace r = x) /\
  (EqualVersionUpdateCleanupPVCTemplateNames left right = true <->
   forall x, template_name [left] x <-> template_name [right] x).
Proof.
  intros names. split; [apply sort_strings_sorted|]. split; [apply template_names_NoDup|].
  split; [apply elem_of_template_names|].
  unfold EqualVersionUpdateCleanupPVCTemplateNames. rewrite bool_decide_eq_true. split.
  - intros E x. by rewrite <- !elem_of_template_names, E.
  - intros H. apply (StronglySorted_unique String.le).
    + apply (StronglySorted_merge_sort String.le).
    + apply (StronglySorted_merge_sort String.le).
    + apply NoDup_Permutation; [apply template_names_NoDup..|].
      intros x. by rewrite !elem_of_template_names.
Qed.

(** ** Normalised references *)

Definition references_ok (taskID : string) (values : list string) : Prop :=
  NoDup (map TrimSpace values) /\
  forall v, v ∈ map TrimSpace values -> v <> ""%string /\ v <> taskID.

Lemma resolution_ids_spec taskID values seen acc :
  (forall x, x ∈ seen <-> x ∈ acc) ->
  match resolution_ids taskID values seen acc with
  | Ok ids => ids = sort_strings (acc ++ map TrimSpace values)%list /\
      references_ok taskID values /\ forall v, v ∈ map TrimSpace values -> v ∉ acc
  | Err _ => ~ (references_ok taskID values /\ forall v, v ∈ map TrimSpace values -> v ∉ acc)
  end.
Proof.
  unfold references_ok. revert seen acc. induction values as [|r l IH]; intros seen acc S; cbn.
  { rewrite app_nil_r. repeat split; try constructor; set_solver. }
  assert (C : forall P : string -> Prop, (forall v, v ∈ TrimSpace r :: map TrimSpace l -> P v) <->
    P (TrimSpace r) /\ forall v, v ∈ map TrimSpace l -> P v).
  { intros P. setoid_rewrite elem_of_cons. naive_solver. }
  destruct (str_empty (TrimSpace r)) eqn:E; bool_to_prop; [rewrite !C; naive_solver|].
  destruct (TrimSpace r =? taskID)%string eqn:T; bool_to_prop; [rewrite !C; naive_solver|].
  case_bool_decide as D; rewrite S in D; [rewrite !C; naive_solver|].
  assert (S' : forall x, x ∈ {[ TrimSpace r ]} ∪ seen <-> x ∈ (acc ++ [TrimSpace r])%list).
  { intros x. rewrite elem_of_union, elem_of_singleton, elem_of_app, list_elem_of_singleton, S. tauto. }
  assert (F : (forall v, v ∈ map TrimSpace l -> ~ v ∈ (acc ++ [TrimSpace r])%list) <->
    (TrimSpace r ∉ map TrimSpace l) /\ forall v, v ∈ map TrimSpace l -> v ∉ acc).
  { setoid_rewrite elem_of_app. setoid_rewrite list_elem_of_singleton. naive_solver. }
  specialize (IH _ _ S').
  destruct (resolution_ids taskID l _ _) as [ids|e]; rewrite F in IH; rewrite !C, NoDup_cons.
  - rewrite <- app_assoc in IH. tauto.
  - tauto.
Qed.

(** The references of one task are validated exactly.  They are accepted when
    their trimmed values are non-blank, distinct and not the task itself; then the
    result is those values, sorted.  An empty list of references is accepted as is. *)
Theorem resolution_references_validated taskID values :
  match NormalizeVersionUpdateCleanupResolutionTaskIDs taskID values with
  | Ok ids => ids ≡ₚ map TrimSpace values /\ Sorted String.le ids /\
      references_ok (TrimSpace taskID) values
  | Err _ => ~ references_ok (TrimSpace taskID) values
  end.
Proof.
  destruct values as [|r l]; cbn [NormalizeVersionUpdateCleanupResolutionTaskIDs].
  { repeat split; try constructor; by apply elem_of_nil in H. }
  pose proof (resolution_ids_spec (TrimSpace taskID) (r :: l) ∅ [] ltac:(set_solver)) as H.
  destruct (resolution_ids _ _ _ _) as [ids|e].
  - destruct H as (-> & ? & _). split; [apply sort_strings_perm|].
    split; [apply sort_strings_sorted|done].
  - intros R. apply H. split; [done|]. intros v _ I. by apply elem_of_nil in I.
Qed.
