(* ===== verification/JobInfos.v ===== *)
(** The durable record of a job: [pkg/apiserver/event/workflow/job/jobinfo/info.go] and
    [database_reset_checkpoint.go].

    [SaveJobInfo] stores what a worker knows of an execution under the ownership of its
    task.  [execution_record_monotone] says that no interleaving of such writes takes a
    record back; [save_job_info_exact] says what one write does when it runs alone,
    faults of the database included.

    [encode_checkpoint] is [json.Marshal] of a retry checkpoint, which contains a
    Kubernetes Job, and [scope] the workspace in the request's context. *)

From S2P Require Import Prelude GoStrings Config Json Quantity Policy Model Store Hoare Lease LeaseProtocol Budget.
From S2P Require Import Signals Scheduler PodResources Retry Cleanup.

Definition JobInfoSaveMaxAttempts : nat := 8.
Definition AnnotationComponentName : string := "eruun.io/component-name".
Definition LabelComponentName : string := "eruun.io/component-name".
Definition DatabaseResetReplicaCheckpointVersion : Z := 2.

(** ** Ownership *)

Definition job_owner (job : JobTask) : WorkflowQueue :=
  workflow_queue_zero
    <| wq_Status := if str_empty (jt_OwnerStatus job) then StatusRunning else jt_OwnerStatus job |>
    <| wq_TaskID := jt_TaskID job |>
    <| wq_RunGeneration := if jt_OwnerRunGeneration job =? 0 then jt_RunGeneration job
                           else jt_OwnerRunGeneration job |>
    <| wq_RunToken := jt_RunToken job |> <| wq_WorkerID := jt_WorkerID job |>.

Definition WithJobInfoOwnership {A} (job : JobTask) (persist : M A) : M A :=
  WithWorkflowTaskOwnership (Some (job_owner job)) persist.

Definition addJobInfoIfWorkflowOwned (job : JobTask) (jobInfo : JobInfo) : M unit :=
  WithJobInfoOwnership job (let! _ := Add (E := JobInfo) jobInfo in ret tt).

Definition putJobInfoIfWorkflowOwned (job : JobTask) (jobInfo : JobInfo) : M unit :=
  WithJobInfoOwnership job (Put (E := JobInfo) jobInfo).

Definition compareAndSwapJobInfoIfWorkflowOwned (job : JobTask) (jobInfo : JobInfo)
    (conditions : list (string * Cond)) (updates : list (string * Val)) : M bool :=
  WithJobInfoOwnership job (CompareAndSwapWithConditions (E := JobInfo) (job_ID jobInfo) conditions updates).

(** ** Records *)

Definition JobInfoExecutionKey (jobInfo : JobInfo) : string :=
  match job_ExecutionKey jobInfo with Some key => TrimSpace key | None => ""%string end.

Definition rawComponentNameFromJobInfo (job : JobTask) : string :=
  TrimSpace (str_get (jt_InfoAnnotations job) AnnotationComponentName).

Definition ComponentNameFromJobInfo (job : JobTask) : string :=
  let name := rawComponentNameFromJobInfo job in
  if negb (str_empty name) then name else TrimSpace (str_get (jt_InfoLabels job) LabelComponentName).

Definition ResolveJobServiceName (job : JobTask) : string :=
  let name := rawComponentNameFromJobInfo job in
  if negb (str_empty name) then name else
  let name := TrimSpace (jt_Name job) in
  if negb (str_empty name) then name else ComponentNameFromJobInfo job.

Definition BuildJobInfoRecord (job : JobTask) : JobInfo :=
  job_info_zero
    <| job_Type := jt_JobType job |> <| job_WorkflowID := jt_WorkflowID job |>
    <| job_ProductID := jt_ProjectID job |> <| job_WorkspaceID := jt_WorkspaceID job |>
    <| job_AppID := jt_AppID job |> <| job_TaskID := jt_TaskID job |>
    <| job_Status := jt_Status job |> <| job_StartTime := jt_StartTime job |>
    <| job_EndTime := jt_EndTime job |> <| job_Info := jt_Info job |>
    <| job_InternalInfo := jt_InternalInfo job |> <| job_EvaluationInfo := jt_EvaluationInfo job |>
    <| job_Error := jt_Error job |> <| job_ServiceName := ResolveJobServiceName job |>
    <| job_RunGeneration := jt_RunGeneration job |>
    <| job_Attempt := Z.max (jt_Attempt job) (u64 (i64 (jt_RetryCount job + 1))) |>
    <| job_DelayState := jt_DelayState job |> <| job_DelayExecuteAt := jt_DelayExecuteAt job |>
    <| job_DelayPayload := jt_DelayPayload job |>
    <| job_ExecutionKey := if str_empty (jt_ExecutionKey job) then None else Some (jt_ExecutionKey job) |>.

Definition copyJobInfoRecord (existing jobInfo : JobInfo) : JobInfo :=
  existing
    <| job_Type := job_Type jobInfo |> <| job_WorkflowID := job_WorkflowID jobInfo |>
    <| job_ProductID := job_ProductID jobInfo |> <| job_WorkspaceID := job_WorkspaceID jobInfo |>
    <| job_AppID := job_AppID jobInfo |> <| job_TaskID := job_TaskID jobInfo |>
    <| job_Status := job_Status jobInfo |> <| job_StartTime := job_StartTime jobInfo |>
    <| job_EndTime := job_EndTime jobInfo |> <| job_Info := job_Info jobInfo |>
    <| job_InternalInfo := job_InternalInfo jobInfo |>
    <| job_EvaluationInfo := job_EvaluationInfo jobInfo |>
    <| job_ServiceName := job_ServiceName jobInfo |> <| job_Error := job_Error jobInfo |>
    <| job_Production := job_Production jobInfo |> <| job_TargetEnv := job_TargetEnv jobInfo |>
    <| job_ExecutionKey := job_ExecutionKey jobInfo |>
    <| job_RunGeneration := job_RunGeneration jobInfo |> <| job_Attempt := job_Attempt jobInfo |>
    <| job_DelayState := job_DelayState jobInfo |>
    <| job_DelayExecuteAt := job_DelayExecuteAt jobInfo |>
    <| job_DelayPayload := job_DelayPayload jobInfo |>.

(** Columns as Go's map holds them: a column written twice keeps the last value. *)
Definition VersionUpdateCleanupJobInfoUpdates (jobInfo : JobInfo) (includeInternalInfo : bool)
    : list (string * Val) :=
  ([("type", VStr (job_Type jobInfo)); ("workflow_id", VStr (job_WorkflowID jobInfo));
    ("product_id", VStr (job_ProductID jobInfo)); ("workspace_id", VStr (job_WorkspaceID jobInfo));
    ("app_id", VStr (job_AppID jobInfo)); ("task_id", VStr (job_TaskID jobInfo));
    ("status", VStr (job_Status jobInfo)); ("start_time", VInt (job_StartTime jobInfo));
    ("end_time", VInt (job_EndTime jobInfo)); ("info", VStr (job_Info jobInfo));
    ("evaluation_info", VStr (job_EvaluationInfo jobInfo));
    ("service_name", VStr (job_ServiceName jobInfo)); ("error", VStr (job_Error jobInfo));
    ("production", VBool (job_Production jobInfo)); ("target_env", VStr (job_TargetEnv jobInfo));
    ("execution_key", if str_empty (JobInfoExecutionKey jobInfo) then VNull
                      else VStr (JobInfoExecutionKey jobInfo));
    ("run_generation", VInt (job_RunGeneration jobInfo)); ("attempt", VInt (job_Attempt jobInfo));
    ("delay_state", VStr (job_DelayState jobInfo));
    ("delay_execute_at", VInt (job_DelayExecuteAt jobInfo));
    ("delay_payload", VStr (job_DelayPayload jobInfo))]%string ++
   (if includeInternalInfo then [("internal_info"%string, VStr (job_InternalInfo jobInfo))] else []))%list.

Definition VersionUpdateCleanupJobInfoConditions (existing : JobInfo) : list (string * Cond) :=
  [("status", CEq (VStr (job_Status existing))); ("internal_info", CEq (VStr (job_InternalInfo existing)));
   ("execution_key", match job_ExecutionKey existing with Some key => CEq (VStr key) | None => CIsNull end);
   ("run_generation", CEq (VInt (job_RunGeneration existing)));
   ("attempt", CEq (VInt (job_Attempt existing)))]%string.

Definition versionUpdateCleanupJobInfoNeedsFencing (existing desired : JobInfo) : bool :=
  (0 <? job_RunGeneration existing) || (0 <? job_RunGeneration desired) ||
  negb (str_empty (JobInfoExecutionKey existing)) || negb (str_empty (JobInfoExecutionKey desired)).

Definition VersionUpdateCleanupJobInfoWriteIsStale (existing desired : JobInfo) : bool :=
  if negb (versionUpdateCleanupJobInfoNeedsFencing existing desired) then false
  else if negb (job_RunGeneration desired =? job_RunGeneration existing)
  then job_RunGeneration desired <? job_RunGeneration existing
  else
    let storedKey := JobInfoExecutionKey existing in
    if negb (str_empty storedKey) && negb (storedKey =? JobInfoExecutionKey desired)%string then true
    else job_Attempt desired <? job_Attempt existing.

Definition VersionUpdateCleanupJobInfoSameExecution (existing desired : JobInfo) : bool :=
  if negb (versionUpdateCleanupJobInfoNeedsFencing existing desired) then true
  else if negb (job_RunGeneration existing =? job_RunGeneration desired) ||
          negb (job_Attempt existing =? job_Attempt desired) then false
  else
    let storedKey := JobInfoExecutionKey existing in
    str_empty storedKey || (storedKey =? JobInfoExecutionKey desired)%string.

Definition VersionUpdateCleanupJobInfoOwnershipMatches (existing desired : JobInfo) : bool :=
  if negb (versionUpdateCleanupJobInfoNeedsFencing existing desired) then true
  else
    let storedKey := JobInfoExecutionKey existing in
    (job_RunGeneration existing =? job_RunGeneration desired) &&
    (job_Attempt existing =? job_Attempt desired) && negb (str_empty storedKey) &&
    (storedKey =? JobInfoExecutionKey desired)%string.

(** ** Markers of a version update's clean-up *)

Record VersionUpdateCleanupJobMarker := {
  vm_Source : string;
  vm_RequireStatefulSetDeletion : bool;
  vm_StatefulSetPVCTemplatesToDelete : list string;
}.

Definition parseVersionUpdateCleanupInternalInfo (raw : string) : option VersionUpdateCleanupJobMarker :=
  let raw := TrimSpace raw in
  if str_empty raw then None else
  decode! j <- json_parse raw;
  decode! l <- dec_struct j;
  decode! source <- dec_string (json_field "source" l);
  decode! deletion <- dec_bool (json_field "requireStatefulSetDeletion" l);
  decode! templates <- dec_list dec_string (json_field "statefulSetPVCTemplatesToDelete" l);
  if (source =? "version_update_remove")%string
  then Some (Build_VersionUpdateCleanupJobMarker source deletion templates) else None.

Definition IsVersionUpdateRemoveCleanupInternalInfo (raw : string) : bool :=
  match parseVersionUpdateCleanupInternalInfo raw with Some _ => true | None => false end.

Definition VersionUpdateCleanupRequiresStatefulSetDeletion (raw : string) : bool :=
  match parseVersionUpdateCleanupInternalInfo raw with
  | Some marker => vm_RequireStatefulSetDeletion marker
  | None => false
  end.

Definition VersionUpdateCleanupStatefulSetPVCTemplatesToDelete (raw : string) : list string :=
  match parseVersionUpdateCleanupInternalInfo raw with
  | Some marker =>
      if negb (vm_RequireStatefulSetDeletion marker) then []
      else match vm_StatefulSetPVCTemplatesToDelete marker with
           | [] => []
           | names => NormalizeVersionUpdateCleanupPVCTemplateNames [names]
           end
  | None => []
  end.

(** [componentType] is that of the component, [None] without one. *)
Definition ValidateVersionUpdateCleanupInternalInfo (raw : string) (componentType : option string)
    : result unit :=
  match parseVersionUpdateCleanupInternalInfo raw with
  | None => Ok tt
  | Some marker =>
      match NormalizeVersionUpdateCleanupPVCTemplateNames [vm_StatefulSetPVCTemplatesToDelete marker] with
      | [] => Ok tt
      | _ =>
          if negb (vm_RequireStatefulSetDeletion marker)
          then Err (Errorf "version update cleanup PVC deletion requires StatefulSet deletion")
          else if bool_decide (componentType = Some StoreJob) then Ok tt
          else Err (Errorf "version update cleanup PVC deletion is only valid for store components")
      end
  end.

(** ** database_reset_checkpoint.go *)

Record DatabaseResetReplicaCheckpoint := {
  dr_Version : Z;
  dr_ExecutionKey : string;
  dr_Prepared : bool;
  dr_OriginalReplicas : option (gmap string Z);
}.

Definition dec_int32 : Json -> option Z := dec_int_in (- 2 ^ 31) (2 ^ 31 - 1).

Definition dec_reset_checkpoint (raw : string) : option DatabaseResetReplicaCheckpoint :=
  decode! j <- json_parse raw;
  decode! l <- dec_struct j;
  decode! version <- dec_int64 (json_field "version" l);
  decode! key <- dec_string (json_field "executionKey" l);
  decode! prepared <- dec_bool (json_field "prepared" l);
  decode! replicas <- dec_map dec_int32 (json_field "originalReplicas" l);
  Some (Build_DatabaseResetReplicaCheckpoint version key prepared replicas).

Definition DecodeDatabaseResetReplicaCheckpoint (raw : string) : result DatabaseResetReplicaCheckpoint :=
  if blank raw then Err (Errorf "database reset replica checkpoint is empty") else
  match dec_reset_checkpoint raw with
  | None => Err (Errorf "decode database reset replica checkpoint")
  | Some checkpoint =>
      if negb (dr_Version checkpoint =? DatabaseResetReplicaCheckpointVersion)
      then Err (Errorf "database reset replica checkpoint version is unsupported") else
      let key := TrimSpace (dr_ExecutionKey checkpoint) in
      if str_empty key then Err (Errorf "database reset replica checkpoint execution key is missing") else
      match dr_Prepared checkpoint, dr_OriginalReplicas checkpoint with
      | true, None => Err (Errorf "database reset replica checkpoint original replicas are missing")
      | false, Some _ =>
          Err (Errorf "database reset replica checkpoint is not prepared but contains original replicas")
      | prepared, replicas =>
          Ok (Build_DatabaseResetReplicaCheckpoint (dr_Version checkpoint) key prepared replicas)
      end
  end.

Definition DatabaseResetExecutionKeyFromJob (job : JobTask) : string :=
  match jt_InfoResetKey job with Some key => TrimSpace key | None => ""%string end.

Fixpoint select_checkpoint (executionKey : string) (candidates : list JobInfo) (matched : option JobInfo)
    : result (option JobInfo) :=
  match candidates with
  | [] => Ok matched
  | candidate :: rest =>
      match DecodeDatabaseResetReplicaCheckpoint (job_InternalInfo candidate) with
      | Err e => Err (Wrapf "inspect database reset replica checkpoint record" e)
      | Ok checkpoint =>
          if negb (dr_ExecutionKey checkpoint =? executionKey)%string
          then select_checkpoint executionKey rest matched
          else match matched with
               | Some _ => Err (Errorf "multiple database reset replica checkpoints found for execution key")
               | None => select_checkpoint executionKey rest (Some candidate)
               end
      end
  end.

Definition SelectDatabaseResetCheckpointJobInfo (job : JobTask) (candidates : list JobInfo)
    : result (option JobInfo) :=
  let executionKey := DatabaseResetExecutionKeyFromJob job in
  if str_empty executionKey then Err (Errorf "database reset execution key is missing")
  else select_checkpoint executionKey candidates None.

(** The next record and the job, which keep a prepared checkpoint. *)
Definition preservePreparedDatabaseResetCheckpointForSave (job : JobTask) (existing next : JobInfo)
    : result (JobTask * JobInfo) :=
  let executionKey := DatabaseResetExecutionKeyFromJob job in
  if str_empty executionKey then Err (Errorf "database reset execution key is missing") else
  match DecodeDatabaseResetReplicaCheckpoint (job_InternalInfo existing) with
  | Err e => Err (Wrapf "decode existing database reset replica checkpoint" e)
  | Ok existingCheckpoint =>
      if negb (dr_ExecutionKey existingCheckpoint =? executionKey)%string
      then Err (Errorf "existing database reset replica checkpoint execution key does not match job execution key") else
      match DecodeDatabaseResetReplicaCheckpoint (job_InternalInfo next) with
      | Err e => Err (Wrapf "decode next database reset replica checkpoint" e)
      | Ok nextCheckpoint =>
          if negb (dr_ExecutionKey nextCheckpoint =? executionKey)%string
          then Err (Errorf "next database reset replica checkpoint execution key does not match job execution key")
          else if dr_Prepared existingCheckpoint && negb (dr_Prepared nextCheckpoint)
          then Ok (job <| jt_InternalInfo := job_InternalInfo existing |>,
                   next <| job_InternalInfo := job_InternalInfo existing |>)
          else Ok (job, next)
      end
  end.

(** ** Queries and writes *)

Section JobInfos.
Context {Q : Type} `{QuantityOps Q} `{KubernetesJson Q}.
Variable decode_job : Json -> option (Job Q).
Variable order : JobRetryPolicy Q -> list (string * Z).
Variable encode_checkpoint : InstantJobRetryCheckpoint Q -> result string.
Variable scope : option string.

Definition LoadJobInfos (taskID jobType serviceName : string) : M (list JobInfo) :=
  if blank taskID then ret [] else
  let query := job_info_zero <| job_TaskID := TrimSpace taskID |> in
  let! query :=
    (match scope with
     | Some workspaceID =>
         if negb (IsWorkspaceJobType jobType) then ret query else
         let! _ :=
           (if (jobType =? JobEval)%string
            then let! _ := wrap_error "resolve job parent scope" (Get (E := WorkflowQueue) (job_TaskID query)) in ret tt
            else ret tt) in
         ret (query <| job_WorkspaceID := workspaceID |>)
     | None => ret query
     end) in
  List_ (E := JobInfo) (Index query)
    (Build_ListOptions
       (Build_FilterOptions
          ((if str_empty jobType then [] else [("type"%string, [VStr jobType])]) ++
           (if str_empty serviceName then [] else [("service_name"%string, [VStr serviceName])])) [] [])
       0 0 [("create_time"%string, SortOrderDescending)]).

Definition FindExistingJobInfo (job : JobTask) : M (option JobInfo) :=
  let! candidates := LoadJobInfos (jt_TaskID job) (jt_JobType job) (ResolveJobServiceName job) in
  let candidates :=
    if 0 <? jt_RunGeneration job
    then List.filter (fun candidate => job_RunGeneration candidate =? jt_RunGeneration job) candidates
    else candidates in
  if (jt_JobType job =? JobDatabaseReset)%string
  then lift_result (SelectDatabaseResetCheckpointJobInfo job candidates) else
  let executionKey := TrimSpace (jt_ExecutionKey job) in
  if negb (str_empty executionKey)
  then ret (List.find (fun candidate => JobInfoExecutionKey candidate =? executionKey)%string candidates)
  else if negb (str_empty (jt_ExecutionKey job))
  then ret (List.find (fun candidate => bool_decide (job_ExecutionKey candidate = Some (jt_ExecutionKey job))) candidates)
  else ret (head candidates).

Definition FindExistingVersionUpdateCleanupJobInfo (job : JobTask) : M (option JobInfo) :=
  let! candidates := LoadJobInfos (jt_TaskID job) (jt_JobType job) (ResolveJobServiceName job) in
  ret (List.find (fun candidate => IsVersionUpdateRemoveCleanupInternalInfo (job_InternalInfo candidate)) candidates).

(** The runner's extension replaced in a record's checkpoint; [state] is a JSON value. *)
Definition SetEvaluationRunnerCheckpoint (record : JobInfo) (state : Json) : result JobInfo :=
  match job_ExecutionKey record with
  | Some key =>
      if negb (job_Type record =? JobEval)%string
      then Err (Errorf "evaluation runner checkpoint identity is incomplete") else
      check! cp <- DecodeInstantJobRetryCheckpoint decode_job order (Some (task_of record key));
      match encode_checkpoint (Build_InstantJobRetryCheckpoint (rc_Kind cp) (rc_Version cp) (rc_Attempt cp)
              (rc_PreviousUID cp) (rc_CurrentUID cp) (rc_RetryAt cp) (rc_Deadline cp) (rc_Job cp) (Some state)) with
      | Err e => Err (Wrapf "encode evaluation runner checkpoint" e)
      | Ok raw => Ok (record <| job_InternalInfo := raw |>)
      end
  | None => Err (Errorf "evaluation runner checkpoint identity is incomplete")
  end.

Definition preserveEvaluationRunnerCheckpoint (existing desired : JobInfo) : result JobInfo :=
  if negb (job_Type existing =? JobEval)%string || blank (job_InternalInfo existing) ||
     negb (job_Type desired =? JobEval)%string || negb (job_Attempt existing =? job_Attempt desired) ||
     negb (job_RunGeneration existing =? job_RunGeneration desired) ||
     negb (JobInfoExecutionKey existing =? JobInfoExecutionKey desired)%string
  then Ok desired else
  check! runner <- EvaluationRunnerCheckpoint decode_job order (Some existing);
  match fst runner with
  | None => Ok desired
  | Some state => SetEvaluationRunnerCheckpoint desired state
  end.

(** The columns a save is fenced on. *)
Definition save_conditions (existing : JobInfo) : list (string * Cond) :=
  [("status", CEq (VStr (job_Status existing))); ("internal_info", CEq (VStr (job_InternalInfo existing)));
   ("execution_key", CEq (VStr (JobInfoExecutionKey existing)));
   ("run_generation", CEq (VInt (job_RunGeneration existing)));
   ("attempt", CEq (VInt (job_Attempt existing)))]%string.

Fixpoint save_attempts (attempts : nat) (job : JobTask) (desired : JobInfo) : M unit :=
  match attempts with
  | O => throw (Errorf "save job info: concurrent execution state changes did not converge")
  | S attempts =>
      let! existing := FindExistingJobInfo job in
      match existing with
      | None =>
          let! added := try (Add (E := JobInfo) desired) in
          match added with
          | Err e => if errors_is ErrRecordExist e then save_attempts attempts job desired else throw e
          | Ok _ => ret tt
          end
      | Some existing =>
          if job_Attempt desired <? job_Attempt existing then ret tt
          else if shouldKeepExistingJobInfoStatus (job_Status existing) (job_Status desired) then ret tt
          else
            let! next := wrap_error "save job info" (lift_result (preserveEvaluationRunnerCheckpoint existing desired)) in
            let! updated := wrap_error "save job info"
              (CompareAndSwapWithConditions (E := JobInfo) (job_ID existing) (save_conditions existing)
                 (VersionUpdateCleanupJobInfoUpdates next true)) in
            if updated then ret tt else save_attempts attempts job desired
      end
  end.

Definition saveExecutionJobInfo (job : JobTask) : M unit :=
  WithJobInfoOwnership job (save_attempts JobInfoSaveMaxAttempts job (BuildJobInfoRecord job)).

Definition SaveJobInfo (job : JobTask) : M unit :=
  if blank (jt_ExecutionKey job) then addJobInfoIfWorkflowOwned job (BuildJobInfoRecord job)
  else saveExecutionJobInfo job.

(** The job may take over the checkpoint stored before. *)
Definition SaveOrUpdateJobInfo (job : JobTask) : M (JobTask * result unit) :=
  let jobInfo := BuildJobInfoRecord job in
  let! existing := try (FindExistingJobInfo job) in
  match existing with
  | Err e => ret (job, Err e)
  | Ok None => let! r := try (addJobInfoIfWorkflowOwned job jobInfo) in ret (job, r)
  | Ok (Some existing) =>
      match (if (jt_JobType job =? JobDatabaseReset)%string
             then preservePreparedDatabaseResetCheckpointForSave job existing jobInfo
             else Ok (job, jobInfo)) with
      | Err e => ret (job, Err e)
      | Ok (job, jobInfo) =>
          let! r := try (putJobInfoIfWorkflowOwned job (copyJobInfoRecord existing jobInfo)) in ret (job, r)
      end
  end.

Fixpoint cleanup_save_attempts (attempts : nat) (job : JobTask) (desired : JobInfo) : M unit :=
  match attempts with
  | O => throw (Errorf "save version update cleanup job info: concurrent identity or state changes did not converge")
  | S attempts =>
      let! existing := FindExistingVersionUpdateCleanupJobInfo job in
      match existing with
      | None =>
          let! added := try (addJobInfoIfWorkflowOwned job desired) in
          match added with
          | Err e => if errors_is ErrRecordExist e then cleanup_save_attempts attempts job desired else throw e
          | Ok _ => ret tt
          end
      | Some existing =>
          if VersionUpdateCleanupJobInfoWriteIsStale existing desired then ret tt
          else if negb (versionUpdateCleanupJobInfoNeedsFencing existing desired)
          then putJobInfoIfWorkflowOwned job (copyJobInfoRecord existing desired)
          else
            let! updated := wrap_error "save version update cleanup job info"
              (compareAndSwapJobInfoIfWorkflowOwned job existing
                 (VersionUpdateCleanupJobInfoConditions existing)
                 (VersionUpdateCleanupJobInfoUpdates desired true)) in
            if updated then ret tt else cleanup_save_attempts attempts job desired
      end
  end.

Definition SaveOrUpdateVersionUpdateCleanupJobInfo (job : JobTask) : M unit :=
  cleanup_save_attempts JobInfoSaveMaxAttempts job (BuildJobInfoRecord job).
End JobInfos.

(** ** The columns of a save *)

(** The execution key as it is stored. *)
Definition stored_key (jobInfo : JobInfo) : option string :=
  if str_empty (JobInfoExecutionKey jobInfo) then None else Some (JobInfoExecutionKey jobInfo).

Definition saved_row (row desired : JobInfo) (now : Z) : JobInfo :=
  (copyJobInfoRecord row (desired <| job_ExecutionKey := stored_key desired |>)) <| job_UpdateTime := now |>.

Lemma save_updates row desired now :
  apply_updates (VersionUpdateCleanupJobInfoUpdates desired true ++ [("update_time"%string, VTime now)])%list row =
  Some (saved_row row desired now).
Proof.
  unfold VersionUpdateCleanupJobInfoUpdates, saved_row, stored_key.
  generalize (JobInfoExecutionKey desired). intros key. destruct row, desired.
  destruct (str_empty key); vm_compute; reflexivity.
Qed.

Lemma save_conditions_hold existing row :
  conds_hold (save_conditions existing) row = true <->
  job_Status row = job_Status existing /\ job_InternalInfo row = job_InternalInfo existing /\
  job_ExecutionKey row = Some (JobInfoExecutionKey existing) /\
  job_RunGeneration row = job_RunGeneration existing /\ job_Attempt row = job_Attempt existing.
Proof.
  unfold conds_hold. cbn. rewrite !andb_true_iff, !String.eqb_eq, !Z.eqb_eq.
  destruct (job_ExecutionKey row); cbn; rewrite ?String.eqb_eq; intuition congruence.
Qed.

Lemma cleanup_conditions_hold existing row :
  conds_hold (VersionUpdateCleanupJobInfoConditions existing) row = true <->
  job_Status row = job_Status existing /\ job_InternalInfo row = job_InternalInfo existing /\
  job_ExecutionKey row = job_ExecutionKey existing /\
  job_RunGeneration row = job_RunGeneration existing /\ job_Attempt row = job_Attempt existing.
Proof.
  unfold conds_hold, VersionUpdateCleanupJobInfoConditions.
  destruct (job_ExecutionKey existing); cbn; rewrite !andb_true_iff, !String.eqb_eq, !Z.eqb_eq;
    destruct (job_ExecutionKey row); cbn; rewrite ?String.eqb_eq; intuition congruence.
Qed.

(** ** Records only move forward

    Rows of jobs are numbered as they are added.  [record_le]: a record moves to a
    later run of its task, or, within a run, to the same or a later attempt of the
    execution it is bound to; with [settled] a success stays a success. *)

Definition succeeded (r : JobInfo) : bool := isSuccessfulTerminalJobStatus (TrimSpace (job_Status r)).

Definition record_le (settled : bool) (r r' : JobInfo) : Prop :=
  job_RunGeneration r < job_RunGeneration r' \/
  (job_RunGeneration r' = job_RunGeneration r /\ job_Attempt r <= job_Attempt r' /\
   (JobInfoExecutionKey r <> ""%string -> JobInfoExecutionKey r' = JobInfoExecutionKey r) /\
   (settled = true -> succeeded r = true -> succeeded r' = true)).

Definition job_ids_ok (d : Database) : Prop :=
  0 < db_next_job d /\ forall id r, db_jobs d !! id = Some r -> id < db_next_job d.

Definition records (settled : bool) (d d' : Database) : Prop :=
  job_ids_ok d ->
  job_ids_ok d' /\ db_next_job d <= db_next_job d' /\
  forall id, match db_jobs d !! id, db_jobs d' !! id with
    | Some r, Some r' => 0 < job_RunGeneration r -> record_le settled r r'
    | None, Some _ => db_next_job d <= id
    | _, None => True
    end.

Lemma record_le_trans settled a b c : record_le settled a b -> record_le settled b c -> record_le settled a c.
Proof.
  intros [G1|(G1 & A1 & K1 & S1)] [G2|(G2 & A2 & K2 & S2)]; [left; lia..|].
  right. split; [lia|]. split; [lia|]. split; [|auto].
  intros N. rewrite <- (K1 N). apply K2. by rewrite (K1 N).
Qed.

#[export] Instance records_preorder settled : PreOrder (records settled).
Proof.
  split.
  - intros d I. split; [done|]. split; [lia|]. intros id. destruct (db_jobs d !! id) as [r|]; [|done].
    intros _. right. repeat split; auto; lia.
  - intros a b c X Y Ia. destruct (X Ia) as (Ib & N1 & R1). destruct (Y Ib) as (Ic & N2 & R2).
    split; [done|]. split; [lia|]. intros id. specialize (R1 id). specialize (R2 id).
    destruct (db_jobs a !! id) as [r|] eqn:La, (db_jobs b !! id) as [r1|], (db_jobs c !! id) as [r2|]; try done; try lia.
    + intros G. assert (L : record_le settled r r1) by auto.
      apply (record_le_trans _ _ r1); [done|]. apply R2. destruct L as [L|[L _]]; lia.
    + destruct Ia as [_ Ia]. specialize (Ia _ _ La). lia.
Qed.

Lemma records_other settled d d' :
  db_jobs d' = db_jobs d -> db_next_job d' = db_next_job d -> records settled d d'.
Proof.
  intros E N I. unfold job_ids_ok in *. rewrite E, N. split; [done|]. split; [lia|]. intros id.
  destruct (db_jobs d !! id); [|done]. intros _. right. repeat split; auto; lia.
Qed.

(** The write of a compare-and-swap on one job row. *)
Lemma records_insert settled d key row row' :
  db_jobs d !! key = Some row -> (0 < job_RunGeneration row -> record_le settled row row') ->
  records settled d (with_table (<[key := row']> (table d)) d).
Proof.
  intros L W I. split.
  { split; [apply I|]. intros id r. cbn. destruct (decide (key = id)) as [->|N].
    - intros _. by apply (proj2 I _ _ L).
    - rewrite lookup_insert_ne by done. apply I. }
  split; [cbn; lia|]. intros id. cbn. destruct (decide (key = id)) as [->|N].
  - by rewrite L, lookup_insert_eq.
  - rewrite lookup_insert_ne by done. destruct (db_jobs d !! id); [|done].
    intros _. right. repeat split; auto; lia.
Qed.

Lemma records_add settled desired :
  job_ID desired = 0 -> guarantees (records settled) (Add (E := JobInfo) desired).
Proof.
  intros Z0. unfold Add. cbn [primary_empty Entity_JobInfo negb TableName]. cbn [str_empty].
  apply guarantees_statement. intros t d r d' F. cbn in F. rewrite Z0 in F. cbn in F.
  set (new := set job_ID _ _) in F. destruct (db_jobs d !! db_next_job d) eqn:L.
  { injection F as <- <-. reflexivity. }
  destruct (match job_ExecutionKey _ with Some _ => _ | None => _ end); injection F as <- <-; [|reflexivity].
  intros I. cbn. split.
  { split; [cbn; destruct I; lia|]. intros id x. cbn. destruct (decide (db_next_job d = id)) as [->|N].
    - intros _. lia.
    - rewrite lookup_insert_ne by done. intros X. apply I in X. lia. }
  split; [lia|]. intros id. destruct (decide (db_next_job d = id)) as [<-|N].
  - rewrite L, lookup_insert_eq. lia.
  - rewrite lookup_insert_ne by done. destruct (db_jobs d !! id); [|done].
    intros _. right. repeat split; auto; lia.
Qed.

Lemma saved_key row desired now : JobInfoExecutionKey (saved_row row desired now) = JobInfoExecutionKey desired.
Proof.
  unfold JobInfoExecutionKey at 1. change (job_ExecutionKey (saved_row row desired now)) with (stored_key desired).
  unfold stored_key. destruct (str_empty (JobInfoExecutionKey desired)) eqn:E.
  - apply str_empty_true in E. by rewrite E.
  - unfold JobInfoExecutionKey. destruct (job_ExecutionKey desired); [apply TrimSpace_idem|done].
Qed.

Section Guarantees.
Context {Q : Type} `{QuantityOps Q} `{KubernetesJson Q}.
Variable decode_job : Json -> option (Job Q).
Variable order : JobRetryPolicy Q -> list (string * Z).
Variable encode_checkpoint : InstantJobRetryCheckpoint Q -> result string.
Variable scope : option string.
Variable settled : bool.

Lemma records_read_only {A} (m : M A) : read_only m -> guarantees (records settled) m.
Proof. apply guarantees_read_only. Qed.

Lemma read_only_load taskID jobType serviceName : read_only (LoadJobInfos scope taskID jobType serviceName).
Proof. unfold LoadJobInfos. destruct scope; store_step. Qed.

Lemma read_only_find job : read_only (FindExistingJobInfo scope job).
Proof.
  unfold FindExistingJobInfo. apply read_only_bind; [apply read_only_load|]. intros l. store_step.
Qed.

Lemma read_only_find_cleanup job : read_only (FindExistingVersionUpdateCleanupJobInfo scope job).
Proof.
  unfold FindExistingVersionUpdateCleanupJobInfo. apply read_only_bind; [apply read_only_load|]. intros l. store_step.
Qed.

(** Writing under ownership only locks the task's row. *)
Lemma records_ownership {A} job (m : M A) :
  guarantees (records settled) m -> guarantees (records settled) (WithJobInfoOwnership job m).
Proof.
  intros G. unfold WithJobInfoOwnership, WithWorkflowTaskOwnership.
  destruct (negb _); [|apply records_read_only; auto with store].
  apply guarantees_bind; [apply records_read_only; store_step|]. intros ?.
  apply guarantees_transaction. apply guarantees_bind; [|].
  - apply guarantees_wrap. unfold UpdateTaskFieldsIfConditions.
    destruct (negb _); [|apply records_read_only; auto with store].
    apply guarantees_cas. intros. by apply records_other.
  - intros [|]; [exact G|apply records_read_only; auto with store].
Qed.

Lemma records_try_add (desired : JobInfo) : job_ID desired = 0 ->
  guarantees (records settled) (let! _ := Add (E := JobInfo) desired in ret tt).
Proof.
  intros Z0. apply guarantees_bind; [by apply records_add|]. intros ?.
  apply records_read_only; auto with store.
Qed.

(** What was found is of the job's run and execution. *)
Lemma found_execution job w e w' :
  FindExistingJobInfo scope job w = (Ok (Some e), w') ->
  0 < jt_RunGeneration job -> blank (jt_ExecutionKey job) = false -> jt_JobType job <> JobDatabaseReset ->
  job_RunGeneration e = jt_RunGeneration job /\ JobInfoExecutionKey e = TrimSpace (jt_ExecutionKey job).
Proof.
  intros F G B T. unfold FindExistingJobInfo, bind in F.
  destruct (LoadJobInfos scope _ _ _ w) as [[l|x] w1]; [|done]. apply Z.ltb_lt in G. rewrite G in F.
  apply String.eqb_neq in T. rewrite T in F. unfold blank in B. rewrite B in F. cbn in F.
  injection F as F _. apply find_some in F as [I K]. apply String.eqb_eq in K.
  apply filter_In in I as [_ I]. apply Z.eqb_eq in I. done.
Qed.

Lemma preserved existing desired next :
  preserveEvaluationRunnerCheckpoint decode_job order encode_checkpoint existing desired = Ok next ->
  exists info, next = desired <| job_InternalInfo := info |>.
Proof.
  unfold preserveEvaluationRunnerCheckpoint. destruct (_ || _).
  { intros [= <-]. exists (job_InternalInfo desired). by destruct desired. }
  destruct (EvaluationRunnerCheckpoint decode_job order (Some existing)) as [[[st|] dl]|x]; cbn; [|intros [= <-]|done].
  - unfold SetEvaluationRunnerCheckpoint. destruct (job_ExecutionKey desired); [|done].
    destruct (negb _); [done|]. destruct (DecodeInstantJobRetryCheckpoint _ _ _) as [cp|x]; [|done].
    cbn. match goal with |- context [encode_checkpoint ?c] => destruct (encode_checkpoint c) as [raw|x] end; [|done].
    intros [= <-]. by exists raw.
  - exists (job_InternalInfo desired). by destruct desired.
Qed.

Lemma built_key job : blank (jt_ExecutionKey job) = false ->
  JobInfoExecutionKey (BuildJobInfoRecord job) = TrimSpace (jt_ExecutionKey job).
Proof.
  intros B. unfold JobInfoExecutionKey. change (job_ExecutionKey (BuildJobInfoRecord job)) with
    (if str_empty (jt_ExecutionKey job) then None else Some (jt_ExecutionKey job)).
  destruct (str_empty (jt_ExecutionKey job)) eqn:E; [|done]. apply str_empty_true in E. by rewrite E in B.
Qed.

Lemma trim_success s : isSuccessfulTerminalJobStatus s = true -> isSuccessfulTerminalJobStatus (TrimSpace s) = true.
Proof.
  unfold isSuccessfulTerminalJobStatus, one_of. intros E. cbn [existsb] in E |- *.
  repeat (apply orb_prop in E as [E|E]); try done; apply String.eqb_eq in E; by subst.
Qed.

Lemma saved_fields row desired info now :
  let r := saved_row row (desired <| job_InternalInfo := info |>) now in
  job_RunGeneration r = job_RunGeneration desired /\ job_Attempt r = job_Attempt desired /\
  job_Status r = job_Status desired /\ JobInfoExecutionKey r = JobInfoExecutionKey desired.
Proof.
  cbv zeta. rewrite saved_key. destruct row, desired. unfold saved_row, copyJobInfoRecord. by repeat split.
Qed.

(** The fenced write of a save. *)
Lemma records_save existing desired next :
  job_RunGeneration existing = job_RunGeneration desired ->
  JobInfoExecutionKey existing = JobInfoExecutionKey desired ->
  (job_Attempt desired <? job_Attempt existing) = false ->
  shouldKeepExistingJobInfoStatus (job_Status existing) (job_Status desired) = false ->
  preserveEvaluationRunnerCheckpoint decode_job order encode_checkpoint existing desired = Ok next ->
  guarantees (records settled) (CompareAndSwapWithConditions (E := JobInfo) (job_ID existing)
    (save_conditions existing) (VersionUpdateCleanupJobInfoUpdates next true)).
Proof.
  intros Hg Hk Ha Hs [info ->]%preserved. apply guarantees_cas. intros now d row row' L Hc Hu.
  rewrite save_updates in Hu. injection Hu as <-. apply save_conditions_hold in Hc as (C1 & C2 & C3 & C4 & C5).
  apply records_insert with row; [exact L|]. intros _. right.
  destruct (saved_fields row desired info now) as (F1 & F2 & F3 & F4).
  apply Z.ltb_ge in Ha. split; [congruence|]. split; [lia|]. split.
  - intros _. rewrite F4. unfold JobInfoExecutionKey at 2. rewrite C3, Hk.
    unfold JobInfoExecutionKey. destruct (job_ExecutionKey desired); [by rewrite TrimSpace_idem|done].
  - intros _ S. unfold succeeded in *. rewrite F3. unfold shouldKeepExistingJobInfoStatus in Hs.
    rewrite <- C1, S in Hs. cbn in Hs. apply trim_success. by apply negb_false_iff in Hs.
Qed.

Lemma advances_attempts n job desired :
  advances (save_attempts decode_job order encode_checkpoint scope n job desired).
Proof.
  induction n as [|n IH]; cbn [save_attempts]; [apply advances_throw|].
  apply advances_bind; [apply read_only_advances, read_only_find|]. intros [existing|].
  - destruct (_ <? _); [apply advances_ret|]. destruct (shouldKeepExistingJobInfoStatus _ _); [apply advances_ret|].
    apply advances_bind; [apply advances_wrap, advances_lift|]. intros next.
    apply advances_bind; [apply advances_wrap, advances_cas|]. intros [|]; [apply advances_ret|exact IH].
  - apply advances_bind; [apply advances_try, advances_Add|]. intros [x|x]; [apply advances_ret|].
    destruct (errors_is _ _); [exact IH|apply advances_throw].
Qed.

Lemma records_attempts n job : 0 < jt_RunGeneration job -> blank (jt_ExecutionKey job) = false ->
  jt_JobType job <> JobDatabaseReset ->
  guarantees (records settled) (save_attempts decode_job order encode_checkpoint scope n job (BuildJobInfoRecord job)).
Proof.
  intros G B T. pose proof (built_key job B) as K.
  assert (R : job_RunGeneration (BuildJobInfoRecord job) = jt_RunGeneration job) by done.
  assert (I : job_ID (BuildJobInfoRecord job) = 0) by done.
  revert K R I. generalize (BuildJobInfoRecord job). intros desired K R I.
  assert (RO : forall A (m : M A), read_only m -> guarantees (records settled) m) by (intros A m; apply records_read_only).
  induction n as [|n IH]; cbn [save_attempts]; [apply RO; auto with store|].
  apply guarantees_bind_run; [apply RO, read_only_find|]. intros w [existing|] w' F.
  + apply found_execution in F as [Fg Fk]; [|done..].
    destruct (job_Attempt desired <? job_Attempt existing) eqn:Ha; [apply RO; auto with store|].
    destruct (shouldKeepExistingJobInfoStatus _ _) eqn:Hs; [apply RO; auto with store|].
    apply guarantees_bind_run; [apply RO; auto with store|].
    intros w1 next w2 P. destruct (preserveEvaluationRunnerCheckpoint _ _ _ _ _) as [next'|x] eqn:Pe; [|done].
      assert (next' = next) as -> by (by injection P).
      apply guarantees_bind; [|intros [|]; [apply RO; auto with store|exact IH]].
      apply guarantees_wrap. apply (records_save _ desired); [congruence|congruence|done..].
  + apply guarantees_bind; [by apply guarantees_try, records_add|].
    intros [x|x]; [apply RO; auto with store|].
    destruct (errors_is _ _); [exact IH|apply RO; auto with store].
Qed.

Lemma records_cleanup_save existing desired : settled = false -> 0 < job_RunGeneration desired ->
  VersionUpdateCleanupJobInfoWriteIsStale existing desired = false ->
  guarantees (records settled) (CompareAndSwapWithConditions (E := JobInfo) (job_ID existing)
    (VersionUpdateCleanupJobInfoConditions existing) (VersionUpdateCleanupJobInfoUpdates desired true)).
Proof.
  intros -> G St. apply guarantees_cas. intros now d row row' L Hc Hu.
  rewrite save_updates in Hu. injection Hu as <-. apply cleanup_conditions_hold in Hc as (C1 & C2 & C3 & C4 & C5).
  apply records_insert with row; [exact L|]. intros _.
  assert (K : JobInfoExecutionKey row = JobInfoExecutionKey existing) by (unfold JobInfoExecutionKey; by rewrite C3).
  destruct (saved_fields row desired (job_InternalInfo desired) now) as (F1 & F2 & F3 & F4).
  replace (desired <| job_InternalInfo := job_InternalInfo desired |>) with desired in * by (by destruct desired).
  unfold VersionUpdateCleanupJobInfoWriteIsStale, versionUpdateCleanupJobInfoNeedsFencing in St.
  apply Z.ltb_lt in G. rewrite G, orb_true_r in St. cbn [orb negb] in St.
  destruct (Z.eqb_spec (job_RunGeneration desired) (job_RunGeneration existing)) as [E|E]; cbn [negb] in St.
  - right. destruct (_ && _) eqn:Ek; [done|]. apply Z.ltb_ge in St. split; [lia|]. split; [lia|]. split; [|done].
    intros N. rewrite F4, K. rewrite K in N. apply andb_false_iff in Ek as [Ek|Ek].
    + by apply negb_false_iff, str_empty_true in Ek.
    + symmetry. by apply negb_false_iff, String.eqb_eq in Ek.
  - left. apply Z.ltb_ge in St. lia.
Qed.

Lemma records_cleanup n job : settled = false -> 0 < jt_RunGeneration job ->
  guarantees (records settled) (cleanup_save_attempts scope n job (BuildJobInfoRecord job)).
Proof.
  intros Sf G. assert (R : 0 < job_RunGeneration (BuildJobInfoRecord job)) by done.
  assert (I : job_ID (BuildJobInfoRecord job) = 0) by done. revert R I. generalize (BuildJobInfoRecord job). intros desired R I.
  assert (RO : forall A (m : M A), read_only m -> guarantees (records settled) m) by (intros A m; apply records_read_only).
  induction n as [|n IH]; cbn [cleanup_save_attempts]; [apply RO; auto with store|].
  apply guarantees_bind; [apply RO, read_only_find_cleanup|]. intros [existing|].
  - destruct (VersionUpdateCleanupJobInfoWriteIsStale existing desired) eqn:St; [apply RO; auto with store|].
    assert (Fe : versionUpdateCleanupJobInfoNeedsFencing existing desired = true).
    { unfold versionUpdateCleanupJobInfoNeedsFencing. apply Z.ltb_lt in R. by rewrite R, orb_true_r. }
    rewrite Fe. cbn [negb]. apply guarantees_bind; [|intros [|]; [apply RO; auto with store|exact IH]].
    apply guarantees_wrap, records_ownership. by apply records_cleanup_save.
  - apply guarantees_bind; [by apply guarantees_try, records_ownership, records_try_add|].
    intros [x|x]; [apply RO; auto with store|]. destruct (errors_is _ _); [exact IH|apply RO; auto with store].
Qed.
End Guarantees.

(** C29: records only move forward.  Whatever other sessions commit between its
    statements, each single commit of saving an execution that belongs to a run takes no
    record back from what it is then: no record moves to an earlier run of its task, to an
    earlier attempt, or from one execution to another, and a success is not overwritten by
    a failure within its run.  The records of a version update's clean-up, which are
    recovered in place, keep the first three.  New records get numbers that were never
    used. *)
Theorem execution_record_monotone {Q : Type} `{QuantityOps Q} `{KubernetesJson Q} decode_job order encode scope job :
  0 < jt_RunGeneration job ->
  (jt_JobType job <> JobDatabaseReset ->
   forall settled, guarantees (records settled) (SaveJobInfo decode_job order encode scope job)) /\
  guarantees (records false) (SaveOrUpdateVersionUpdateCleanupJobInfo scope job).
Proof.
  intros G. split; [|by apply records_cleanup]. intros T settled. unfold SaveJobInfo.
  destruct (blank (jt_ExecutionKey job)) eqn:B; apply records_ownership.
  - by apply records_try_add.
  - by apply records_attempts.
Qed.

(** ** One save, run alone

    [job_id_ok]: rows are kept under their number.  [record_of]: the record of the
    job's execution, as a query can tell. *)

Definition job_id_ok (d : Database) : Prop := forall id r, db_jobs d !! id = Some r -> job_ID r = id.

Definition record_of (scope : option string) (job : JobTask) (r : JobInfo) : Prop :=
  job_TaskID r = TrimSpace (jt_TaskID job) /\
  (jt_JobType job <> ""%string -> job_Type r = jt_JobType job) /\
  (ResolveJobServiceName job <> ""%string -> job_ServiceName r = ResolveJobServiceName job) /\
  (forall workspace, scope = Some workspace -> IsWorkspaceJobType (jt_JobType job) = true ->
     workspace <> ""%string -> job_WorkspaceID r = workspace) /\
  job_RunGeneration r = jt_RunGeneration job /\ JobInfoExecutionKey r = TrimSpace (jt_ExecutionKey job).

(** What a save that succeeds leaves of the jobs. *)
Inductive saved {Q} `{QuantityOps Q} `{KubernetesJson Q} (decode_job : Json -> option (Job Q))
    (order : JobRetryPolicy Q -> list (string * Z)) (encode : InstantJobRetryCheckpoint Q -> result string)
    (scope : option string) (job : JobTask) (d : Database) : gmap Z JobInfo -> Prop :=
  | saved_new now :
      (forall id r, db_jobs d !! id = Some r -> ~ record_of scope job r) ->
      saved decode_job order encode scope job d
        (<[db_next_job d := (BuildJobInfoRecord job) <| job_CreateTime := now |> <| job_UpdateTime := now |>
             <| job_ID := db_next_job d |>]> (db_jobs d))
  | saved_already id r :
      db_jobs d !! id = Some r -> record_of scope job r ->
      job_Attempt (BuildJobInfoRecord job) < job_Attempt r \/
        (succeeded r = true /\ isSuccessfulTerminalJobStatus (jt_Status job) = false) ->
      saved decode_job order encode scope job d (db_jobs d)
  | saved_over id r next now :
      db_jobs d !! id = Some r -> record_of scope job r ->
      job_Attempt r <= job_Attempt (BuildJobInfoRecord job) ->
      (succeeded r = true -> isSuccessfulTerminalJobStatus (jt_Status job) = true) ->
      preserveEvaluationRunnerCheckpoint decode_job order encode r (BuildJobInfoRecord job) = Ok next ->
      saved decode_job order encode scope job d (<[id := saved_row r next now]> (db_jobs d)).

(** The owner's row of the task. *)
Definition owns (job : JobTask) (d : Database) : Prop :=
  exists row, db_queue d !! jt_TaskID job = Some row /\ wq_Status row = owner_status (job_owner job) /\
    wq_RunGeneration row = wq_RunGeneration (job_owner job) /\
    wq_RunToken row = jt_RunToken job /\ wq_WorkerID row = jt_WorkerID job.

Section Alone.
Context {Q : Type} `{QuantityOps Q} `{KubernetesJson Q}.
Variable decode_job : Json -> option (Job Q).
Variable order : JobRetryPolicy Q -> list (string * Z).
Variable encode_checkpoint : InstantJobRetryCheckpoint Q -> result string.
Variable scope : option string.

Lemma stable_eq P : stable eq P.
Proof. by intros d d' <-. Qed.

Lemma triple_Add (P : Database -> Prop) (entity : JobInfo) Post :
  (forall e d, P d -> Post (Err e) d) ->
  (forall now d, P d -> job_ID entity = 0 -> db_jobs d !! db_next_job d = None ->
     let row := entity <| job_CreateTime := now |> <| job_UpdateTime := now |> <| job_ID := db_next_job d |> in
     Post (Ok row) (with_table (<[db_next_job d := row]> (db_jobs d)) (d <| db_next_job := db_next_job d + 1 |>))) ->
  job_ID entity = 0 -> triple eq P (Add (E := JobInfo) entity) Post.
Proof.
  intros HE HO Z0. unfold Add. cbn [primary_empty Entity_JobInfo negb TableName]. cbn [str_empty].
  apply triple_statement; [apply _|apply stable_eq|auto|]. intros t d r d' Hp F. cbn in F. rewrite Z0 in F. cbn in F.
  destruct (db_jobs d !! db_next_job d) eqn:L; [injection F as <- <-; auto|].
  destruct (match job_ExecutionKey _ with Some _ => _ | None => _ end); injection F as <- <-; [|auto].
  by apply (HO t d).
Qed.

(** The query for a job's records. *)
Definition load_match (taskID jobType serviceName : string) (r : JobInfo) : Prop :=
  job_TaskID r = TrimSpace taskID /\ (jobType <> ""%string -> job_Type r = jobType) /\
  (serviceName <> ""%string -> job_ServiceName r = serviceName) /\
  (forall workspace, scope = Some workspace -> IsWorkspaceJobType jobType = true ->
     workspace <> ""%string -> job_WorkspaceID r = workspace).

Lemma index_str_match column s (r : JobInfo) value : get_col column r = VStr value ->
  forallb (fun kv => val_eqb (get_col (fst kv) r) (snd kv)) (index_str column s) = true <->
  (s <> ""%string -> value = s).
Proof.
  intros G. unfold index_str. destruct (str_empty s) eqn:E.
  - apply str_empty_true in E as ->. done.
  - cbn. rewrite G, andb_true_r. cbn. rewrite String.eqb_eq. apply str_empty_false in E. tauto.
Qed.

Lemma in_str_match column s (r : JobInfo) value : get_col column r = VStr value ->
  forallb (fun kv => existsb (fun v => negb (is_null v) && val_eqb (get_col (fst kv) r) v) (snd kv))
    (if str_empty s then [] else [(column, [VStr s])]) = true <->
  (s <> ""%string -> value = s).
Proof.
  intros G. destruct (str_empty s) eqn:E.
  - apply str_empty_true in E as ->. done.
  - cbn. rewrite G, andb_true_r, orb_false_r. cbn. rewrite String.eqb_eq. apply str_empty_false in E. tauto.
Qed.

(** The record a query matches on. *)
Definition load_query (taskID w : string) : JobInfo :=
  job_info_zero <| job_TaskID := TrimSpace taskID |> <| job_WorkspaceID := w |>.

Lemma load_row taskID jobType serviceName w r : blank taskID = false ->
  (w = ""%string \/ scope = Some w /\ IsWorkspaceJobType jobType = true) ->
  (forall workspace, scope = Some workspace -> IsWorkspaceJobType jobType = true -> w = workspace) ->
  row_matches (E := JobInfo) (Index (load_query taskID w))
    (Build_FilterOptions
       ((if str_empty jobType then [] else [("type"%string, [VStr jobType])]) ++
        (if str_empty serviceName then [] else [("service_name"%string, [VStr serviceName])])) [] []) r = true <->
  load_match taskID jobType serviceName r.
Proof.
  intros B W1 W2. unfold row_matches, load_match. cbn [In_ NotEqual LessThan forallb]. rewrite !andb_true_r, andb_true_iff, forallb_app, andb_true_iff.
  unfold Index, Entity_JobInfo, job_info_index. rewrite !forallb_app, !andb_true_iff.
  rewrite (index_str_match "workspace_id" w r (job_WorkspaceID r)), (index_str_match "task_id" _ r (job_TaskID r)),
    (in_str_match "type" _ r (job_Type r)), (in_str_match "service_name" _ r (job_ServiceName r)) by done.
  unfold blank in B. apply str_empty_false in B. cbn [load_query job_WorkspaceID job_TaskID].
  split.
  - intros ((X & Y & _) & T & S). split; [by apply Y|]. split; [done|]. split; [done|].
    intros ws Hs Hw N. rewrite <- (W2 ws Hs Hw) in *. auto.
  - intros (X & T & S & Z). split; [|done]. split; [|split; done]. intros N. destruct W1 as [->|[Hs Hw]]; [done|]. by apply Z.
Qed.

Lemma load_spec d1 taskID jobType serviceName : blank taskID = false ->
  triple eq (fun d => d = d1) (LoadJobInfos scope taskID jobType serviceName)
    (on_ok (fun l d => d = d1 /\
       forall r, In r l <-> (exists id, db_jobs d1 !! id = Some r) /\ load_match taskID jobType serviceName r)).
Proof.
  intros B. unfold LoadJobInfos. rewrite B.
  apply triple_bind_ok with (Mid := fun q d => (exists w, q = load_query taskID w /\
    (w = ""%string \/ scope = Some w /\ IsWorkspaceJobType jobType = true) /\
    (forall workspace, scope = Some workspace -> IsWorkspaceJobType jobType = true -> w = workspace)) /\ d = d1).
  { destruct scope as [ws|];
      [|apply triple_ret; intros d ->; split; [|done]; exists ""%string; split; [done|]; split; [auto|done]].
    destruct (IsWorkspaceJobType jobType) eqn:Ty; cbn [negb].
    - apply triple_bind_ok with (Mid := fun _ d => d = d1).
      + apply triple_read_only; [apply _|apply stable_eq| |by intros [] d].
        destruct (_ =? _)%string; [|auto with store]. apply read_only_bind; [|intros; auto with store].
        apply read_only_wrap. auto with store.
      + intros ?. apply triple_ret. intros d ->. split; [|done]. exists ws. split; [done|]. split; [auto|]. by intros ? [= <-].
    - apply triple_ret. intros d ->. split; [|done]. exists ""%string. split; [done|]. split; [auto|]. done. }
  intros q. apply triple_pure. intros (w & -> & W1 & W2).
  apply triple_List; [apply _|apply stable_eq|done|]. intros d ->. split; [done|]. intros r.
  set (op := Build_ListOptions _ 0 0 _).
  rewrite <- (load_row _ _ _ w r B W1 W2). pose proof (elem_rows (E := JobInfo) d1 r) as ER. cbn [table Entity_JobInfo] in ER. rewrite <- ER.
  destruct (select_sorted (E := JobInfo) (Index (load_query taskID w)) op d1) as (l & -> & P).
  unfold page_of. cbn [PageSize op Z.ltb Z.compare andb].
  split; [intros I; apply (Permutation_in _ P), filter_In in I; tauto|].
  intros I. apply (Permutation_in _ (Permutation_sym P)), filter_In. tauto.
Qed.

(** Finding the execution's record. *)
Lemma find_spec d1 job : blank (jt_TaskID job) = false -> 0 < jt_RunGeneration job ->
  blank (jt_ExecutionKey job) = false -> jt_JobType job <> JobDatabaseReset ->
  triple eq (fun d => d = d1) (FindExistingJobInfo scope job)
    (on_ok (fun o d => d = d1 /\
       match o with
       | Some r => (exists id, db_jobs d1 !! id = Some r) /\ record_of scope job r
       | None => forall id r, db_jobs d1 !! id = Some r -> ~ record_of scope job r
       end)).
Proof.
  intros B G X T. unfold FindExistingJobInfo.
  apply triple_bind_ok with (Mid := fun l d => (forall r, In r l <-> (exists id, db_jobs d1 !! id = Some r) /\
    load_match (jt_TaskID job) (jt_JobType job) (ResolveJobServiceName job) r) /\ d = d1).
  { eapply triple_weaken; [intros d Hd; exact Hd| |by apply load_spec]. intros [l|e] d; cbn; tauto. }
  intros l. apply triple_pure. intros L. apply Z.ltb_lt in G. apply String.eqb_neq in T. unfold blank in X.
  rewrite G, T, X. cbn [negb]. apply triple_ret. intros d ->. split; [done|].
  destruct (List.find _ _) as [r|] eqn:F.
  - apply find_some in F as [I K]. apply String.eqb_eq in K. apply filter_In in I as [I E]. apply Z.eqb_eq in E.
    apply L in I as (Hid & M1 & M2 & M3 & M4). split; [done|]. by repeat split.
  - intros id r Hr (M1 & M2 & M3 & M4 & E & K). apply (find_none _ _) with (x := r) in F.
    + by rewrite K, String.eqb_refl in F.
    + apply filter_In. rewrite E, Z.eqb_refl. split; [|done]. apply L. split; [by exists id|]. by repeat split.
Qed.

(** Success meets [Post]; a failure leaves the database as it was. *)
Definition or_same {A} (d1 : Database) (Post : A -> Database -> Prop) (r : result A) (d : Database) : Prop :=
  match r with Ok a => Post a d | Err _ => d = d1 end.

Lemma triple_unchanged {A} d1 (m : M A) Post : read_only m ->
  triple eq (fun d => d = d1) m (on_ok Post) -> triple eq (fun d => d = d1) m (or_same d1 Post).
Proof.
  intros RO T w r w' He Hp E. destruct (T _ _ _ He Hp E) as [X He']. split; [|done].
  destruct (triple_read_only eq _ m (fun _ d => d = d1) (stable_eq _) RO (fun _ _ Y => Y) _ _ _ He Hp E) as [Y _].
  by destruct r.
Qed.

Lemma triple_pure_r {A} (F : Prop) P (m : M A) Post :
  (F -> triple eq P m Post) -> triple eq (fun d => P d /\ F) m Post.
Proof. intros T w r w' He [Hp f] E. eapply T; eauto. Qed.

Lemma save_attempts_spec n d1 job : job_id_ok d1 -> blank (jt_TaskID job) = false -> 0 < jt_RunGeneration job ->
  blank (jt_ExecutionKey job) = false -> jt_JobType job <> JobDatabaseReset ->
  triple eq (fun d => d = d1) (save_attempts decode_job order encode_checkpoint scope n job (BuildJobInfoRecord job))
    (or_same d1 (fun _ d => saved decode_job order encode_checkpoint scope job d1 (db_jobs d))).
Proof.
  intros I B G X T. induction n as [|n IH]; cbn [save_attempts]; [by apply triple_throw|].
  eapply triple_bind; [apply (triple_unchanged d1); [apply read_only_find|by apply find_spec]|].
  intros [existing|]; apply triple_pure_r.
  - intros [[id L] M]. destruct (job_Attempt _ <? _) eqn:Ha.
    { apply triple_ret. intros d ->. eapply saved_already; [exact L|done|]. left. by apply Z.ltb_lt. }
    apply Z.ltb_ge in Ha. destruct (shouldKeepExistingJobInfoStatus _ _) eqn:Hs.
    { apply triple_ret. intros d ->. eapply saved_already; [exact L|done|]. right.
      unfold shouldKeepExistingJobInfoStatus in Hs. unfold succeeded.
      destruct (isSuccessfulTerminalJobStatus (TrimSpace _)); [|done]. split; [done|]. by apply negb_true_iff in Hs. }
    assert (Hk : succeeded existing = true -> isSuccessfulTerminalJobStatus (jt_Status job) = true).
    { unfold succeeded. unfold shouldKeepExistingJobInfoStatus in Hs. intros S. rewrite S in Hs. by apply negb_false_iff in Hs. }
    apply triple_bind with (Mid := fun next d => preserveEvaluationRunnerCheckpoint decode_job order encode_checkpoint
      existing (BuildJobInfoRecord job) = Ok next /\ d = d1).
    { apply triple_wrap, triple_lift. intros d ->. by destruct (preserveEvaluationRunnerCheckpoint _ _ _ _ _). }
    intros next. apply triple_pure. intros Pe.
    apply triple_bind with (Mid := fun (b : bool) d => if b then saved decode_job order encode_checkpoint scope job d1 (db_jobs d) else d = d1).
    + apply triple_wrap, triple_cas; [apply _|apply stable_eq|by intros e d _ ->|by intros d ->|].
      intros now d row row' -> L' _ Hu. rewrite save_updates in Hu. injection Hu as <-.
      pose proof (I _ _ L) as Id. subst id. cbn in L'. assert (row = existing) as -> by congruence. cbn.
      by apply saved_over.
    + intros [|]; [by apply triple_ret|exact IH].
  - intros M. apply triple_bind with (Mid := fun (x : result JobInfo) d =>
      match x with Ok _ => saved decode_job order encode_checkpoint scope job d1 (db_jobs d) | Err _ => d = d1 end).
    + apply triple_try, triple_Add; [by intros e d ->| |done]. intros now d -> _ _. by apply saved_new.
    + intros [x|e]; [by apply triple_ret|]. destruct (errors_is _ _); [exact IH|by apply triple_throw].
Qed.

Lemma saved_same d d' job J : db_jobs d' = db_jobs d -> db_next_job d' = db_next_job d ->
  saved decode_job order encode_checkpoint scope job d' J -> saved decode_job order encode_checkpoint scope job d J.
Proof.
  intros Ej En S. destruct S as [now L|id r L M X|id r next now L M A K P].
  - rewrite Ej, En. rewrite Ej in L. by apply saved_new.
  - rewrite Ej in *. by apply (saved_already _ _ _ _ _ _ id r).
  - rewrite Ej in *. by apply saved_over.
Qed.

(** Writing under ownership: the owner's row is there, or nothing is written. *)
Lemma ownership_spec {A} d1 job (persist : M A) (Post : A -> Database -> Prop) : advances persist ->
  (owns job d1 -> forall d2, db_jobs d2 = db_jobs d1 -> db_next_job d2 = db_next_job d1 ->
     triple eq (fun d => d = d2) persist (or_same d2 Post)) ->
  triple eq (fun d => d = d1) (WithJobInfoOwnership job persist) (or_same d1 (fun a d => owns job d1 /\ Post a d)).
Proof.
  intros Ad HP. unfold WithJobInfoOwnership, WithWorkflowTaskOwnership.
  apply triple_if; intros _; [|by apply triple_throw].
  apply triple_bind with (Mid := fun _ d => d = d1).
  { apply triple_unchanged; [store_step|]. apply triple_read_only; [apply _|apply stable_eq|store_step|by intros [] d]. }
  intros _. apply triple_transaction; [apply _| |apply stable_eq|intros a; apply stable_eq|by intros e d ->|].
  { apply advances_bind; [apply advances_wrap|intros [|]; [exact Ad|apply advances_throw]].
    unfold UpdateTaskFieldsIfConditions. destruct (negb _); [apply advances_cas|apply advances_throw]. }
  apply triple_bind_ok with (Mid := fun (b : bool) d => (b = true -> owns job d1) /\
    (db_jobs d = db_jobs d1 /\ db_next_job d = db_next_job d1)).
  - unfold UpdateTaskFieldsIfConditions. apply triple_wrap, triple_if; intros _; [|by apply triple_throw].
    apply triple_cas; [apply _|apply stable_eq|by intros e d _ ->|by intros d ->|].
    intros now d row row' -> L Hc _. split; [|done]. intros _. unfold owner_conditions in Hc.
    autorewrite with queue_cols in Hc. exists row. split; [exact L|]. rewrite !andb_true_iff, !String.eqb_eq, Z.eqb_eq in Hc. destruct Hc as (H1 & H2 & H3 & H4 & _). by repeat split.
  - intros owned. apply triple_pure. intros O. apply triple_if; [|intros _; by apply triple_throw].
    intros ->. specialize (O eq_refl). intros w r w' He [Ej En] E.
    destruct (HP O _ Ej En w r w' He eq_refl E) as [X He']. split; [|done]. by destruct r.
Qed.
Lemma save_execution_spec n d1 job : job_id_ok d1 -> blank (jt_TaskID job) = false -> 0 < jt_RunGeneration job ->
  blank (jt_ExecutionKey job) = false -> jt_JobType job <> JobDatabaseReset ->
  triple eq (fun d => d = d1)
    (WithJobInfoOwnership job (save_attempts decode_job order encode_checkpoint scope n job (BuildJobInfoRecord job)))
    (or_same d1 (fun _ d => owns job d1 /\ saved decode_job order encode_checkpoint scope job d1 (db_jobs d))).
Proof.
  intros I B G X T. apply ownership_spec; [apply advances_attempts|]. intros _ d2 Ej En.
  eapply triple_weaken; [intros d Hd; exact Hd| |apply save_attempts_spec; try assumption].
  - intros [[]|e] d; [by apply saved_same|done].
  - unfold job_id_ok. by rewrite Ej.
Qed.

Lemma SaveJobInfo_execution job : blank (jt_ExecutionKey job) = false ->
  SaveJobInfo decode_job order encode_checkpoint scope job =
  WithJobInfoOwnership job (save_attempts decode_job order encode_checkpoint scope JobInfoSaveMaxAttempts job (BuildJobInfoRecord job)).
Proof. intros X. unfold SaveJobInfo, saveExecutionJobInfo. rewrite X. reflexivity. Qed.
End Alone.

(** One save, run alone.  When no other session writes, saving the record of an
    execution either fails and leaves the database as it was, or the job's owner held
    the task and the records are what [saved] says: a new record under the next number,
    no write when a later attempt or a success is already recorded, or the execution's
    record overwritten with the columns of the job.  Losing the ownership, running out
    of attempts and any fault of the database are failures. *)
Theorem save_job_info_exact {Q : Type} `{QuantityOps Q} `{KubernetesJson Q} decode order encode scope job w r w' :
  env_respects eq (w_env w) -> job_id_ok (w_db w) -> blank (jt_TaskID job) = false -> 0 < jt_RunGeneration job ->
  blank (jt_ExecutionKey job) = false -> jt_JobType job <> JobDatabaseReset ->
  SaveJobInfo decode order encode scope job w = (r, w') ->
  match r with
  | Ok _ => owns job (w_db w) /\ saved decode order encode scope job (w_db w) (db_jobs (w_db w'))
  | Err _ => w_db w' = w_db w
  end.
Proof.
  intros He I B G X T E. rewrite SaveJobInfo_execution in E by done.
  destruct (save_execution_spec decode order encode scope JobInfoSaveMaxAttempts (w_db w) job I B G X T w r w' He eq_refl E)
    as [Y _].
  by destruct r.
Qed.

(** ** A concrete save *)

Definition sample_task : WorkflowQueue :=
  workflow_queue_zero <| wq_TaskID := "t1"%string |> <| wq_Status := StatusRunning |>
    <| wq_RunGeneration := 3 |> <| wq_RunToken := "tok"%string |> <| wq_WorkerID := "w1"%string |>.

Definition sample_execution : JobTask :=
  job_task_zero <| jt_TaskID := "t1"%string |> <| jt_Name := "web"%string |> <| jt_JobType := JobDeploy |>
    <| jt_ExecutionKey := "k1"%string |> <| jt_RunGeneration := 3 |> <| jt_Status := StatusRunning |>
    <| jt_RunToken := "tok"%string |> <| jt_WorkerID := "w1"%string |> <| jt_Attempt := 1 |>.

(** The execution is recorded with a failure of the same attempt. *)
Definition sample_records : Database :=
  (db_empty 1000) <| db_queue := {["t1"%string := sample_task]} |>
    <| db_jobs := {[7 := (BuildJobInfoRecord (sample_execution <| jt_Status := StatusFailed |>)) <| job_ID := 7 |>]} |>
    <| db_next_job := 8 |>.

Lemma execution_record_monotone_witness :
  0 < jt_RunGeneration sample_execution /\ jt_JobType sample_execution <> JobDatabaseReset /\
  guarantees (records true) (SaveJobInfo z_decode_job no_order (fun _ => Err ErrDatabase) None sample_execution).
Proof.
  split; [done|]. split; [done|].
  exact (proj1 (execution_record_monotone z_decode_job no_order (fun _ => Err ErrDatabase) None sample_execution eq_refl)
    ltac:(done) true).
Defined.

(** The failure is overwritten in place. *)
Lemma save_job_info_exact_witness :
  let w := seqw sample_records 50000 in
  let out := SaveJobInfo z_decode_job no_order (fun _ => Err ErrDatabase) None sample_execution w in
  fst out = Ok tt /\ owns sample_execution (w_db w) /\
  saved z_decode_job no_order (fun _ => Err ErrDatabase) None sample_execution (w_db w) (db_jobs (w_db (snd out))) /\
  (job_Status <$> db_jobs (w_db (snd out)) !! 7) = Some StatusRunning.
Proof.
  cbv zeta. set (w := seqw sample_records 50000).
  assert (F : fst (SaveJobInfo z_decode_job no_order (fun _ => Err ErrDatabase) None sample_execution w) = Ok tt)
    by (vm_compute; reflexivity).
  assert (R : (job_Status <$> db_jobs (w_db (snd (SaveJobInfo z_decode_job no_order (fun _ => Err ErrDatabase) None sample_execution w))) !! 7)
    = Some StatusRunning) by (vm_compute; reflexivity).
  assert (I : job_id_ok (w_db w)).
  { intros id r. cbn. intros [<- <-]%lookup_singleton_Some. reflexivity. }
  revert F R. destruct (SaveJobInfo _ _ _ _ _ w) as [r w'] eqn:E. cbn [fst snd]. intros -> R.
  destruct (save_job_info_exact z_decode_job no_order (fun _ => Err ErrDatabase) None sample_execution w (Ok tt) w'
    ltac:(constructor) I eq_refl eq_refl eq_refl ltac:(done) E) as [O S].
  by repeat split.
Defined.
