(* ===== verification/Components.v ===== *)
(** The runtime status of an application's components:
    [pkg/apiserver/domain/repository/component_runtime_status.go] and
    [event/workflow/job/jobexec/component_status.go].

    A component's specification and its runtime fields live in one row, written by
    different parts of the program.  [component_status_writes] says that the status
    writers touch nothing but the runtime fields.  Invalidating the cache after a
    write is not modelled. *)

From S2P Require Import Prelude GoStrings Config Json Quantity Policy Model Store Hoare Lease LeaseProtocol Budget.
From S2P Require Import Signals Scheduler PodResources Retry Cleanup JobInfos.

(** ** config/consts.go, domain/spec *)

Definition ComponentStatusRunning : string := "Running".
Definition ComponentStatusPending : string := "Pending".
Definition ComponentStatusFailed : string := "Failed".
Definition ComponentStatusCleaning : string := "Cleaning".

Definition LabelShareName : string := "eruun.io/share-name".
Definition LabelShareStrategy : string := "eruun.io/share-strategy".
Definition ShareStrategyDefault : string := "default".
Definition ShareStrategyIgnore : string := "ignore".
Definition ShareStrategyForce : string := "force".

Definition NormalizeShareStrategy (strategy : string) : string * bool :=
  let normalized := ToLower (TrimSpace strategy) in
  if str_empty normalized then (ShareStrategyDefault, true)
  else if (normalized =? ShareStrategyDefault)%string then (ShareStrategyDefault, true)
  else if (normalized =? ShareStrategyIgnore)%string then (ShareStrategyIgnore, true)
  else if (normalized =? ShareStrategyForce)%string then (ShareStrategyForce, true)
  else (ShareStrategyDefault, false).

(** jobinfo/info.go; a missing label reads as the empty string. *)
Definition ShareStrategyFromJobInfo (job : JobTask) : option string :=
  let shareName := TrimSpace (str_get (jt_InfoLabels job) LabelShareName) in
  if str_empty shareName then None else
  let raw := TrimSpace (str_get (jt_InfoLabels job) LabelShareStrategy) in
  let '(strategy, ok) := NormalizeShareStrategy raw in
  if negb ok && negb (str_empty raw) then None else Some strategy.

(** ** component_runtime_status.go *)

Definition componentRuntimeFieldAllowlist : list string := ["status"; "ready_replicas"; "last_abnormal"]%string.

Fixpoint normalizeComponentRuntimeFields (updates : list (string * Val)) : result (list (string * Val)) :=
  match updates with
  | [] => Ok []
  | (field, value) :: rest =>
      if negb (one_of componentRuntimeFieldAllowlist field) then Err (Errorf "unsupported component runtime field")
      else if is_null value then Err (Errorf "component runtime field cannot be nil")
      else check! fields <- normalizeComponentRuntimeFields rest; Ok ((field, value) :: fields)
  end.

Definition componentRuntimeFieldConditions (component : ApplicationComponent)
    : result (ApplicationComponent * list (string * Cond)) :=
  let appID := TrimSpace (ac_AppID component) in
  let name := TrimSpace (ac_Name component) in
  if str_empty appID then Err (Errorf "component app_id is empty")
  else if str_empty name then Err ErrPrimaryEmpty
  else Ok (application_component_zero <| ac_ID := ac_ID component |> <| ac_AppID := appID |> <| ac_Name := name |>,
           [("app_id"%string, CEq (VStr appID));
            if 0 <? ac_ID component then ("id"%string, CEq (VInt (ac_ID component)))
            else ("name"%string, CEq (VStr name))]).

Definition componentRuntimeFieldExists (conditions : list (string * Cond)) : M bool :=
  IsExistByCondition (E := ApplicationComponent) conditions.

(** The driver's compare-and-swap on a component. *)
Definition cas_component (entity : ApplicationComponent) (conditions : list (string * Cond))
    (fields : list (string * Val)) : M bool :=
  if ac_ID entity =? 0 then CompareAndSwapRows (E := ApplicationComponent) conditions fields
  else CompareAndSwapWithConditions (E := ApplicationComponent) (ac_ID entity) conditions fields.

Definition UpdateComponentRuntimeFields (component : ApplicationComponent) (updates : list (string * Val)) : M unit :=
  match updates with
  | [] => ret tt
  | _ =>
      let! fields := lift_result (normalizeComponentRuntimeFields updates) in
      let! target := lift_result (componentRuntimeFieldConditions component) in
      let '(entity, conditions) := target in
      let! updated := cas_component entity conditions fields in
      if updated then ret tt else
      let! exists_ := componentRuntimeFieldExists conditions in
      guard! exists_ else ErrRecordNotExist;
      ret tt
  end.

Definition UpdateComponentRuntimeFieldsIfUnchanged (component : ApplicationComponent)
    (updates : list (string * Val)) : M bool :=
  match updates with
  | [] => ret false
  | _ =>
      let! fields := lift_result (normalizeComponentRuntimeFields updates) in
      let! target := lift_result (componentRuntimeFieldConditions component) in
      let '(entity, identityConditions) := target in
      let conditions := (identityConditions ++
        [("status", CEq (VStr (ac_Status component)));
         ("ready_replicas", CEq (VInt (ac_ReadyReplicas component)));
         ("last_abnormal", CEq (VStr (ac_LastAbnormal component)))]%string)%list in
      let! updated := cas_component entity conditions fields in
      if updated then ret true else
      let! exists_ := componentRuntimeFieldExists identityConditions in
      guard! exists_ else ErrRecordNotExist;
      ret false
  end.

(** ** component_status.go *)

Definition isConfigComponentJobType (jobType : string) : bool :=
  one_of [JobDeployConfigMap; JobDeploySecret] jobType.

Definition shouldMarkComponentPendingOnJobStart (jobType : string) : bool :=
  one_of [JobDeploy; JobDeployStore; JobDeployInstant; JobDeployScheduled] jobType.

Definition componentStatusForJob (status : string) : option string :=
  if one_of [StatusCompleted; StatusPassed] status then Some ComponentStatusRunning
  else if one_of [StatusFailed; StatusTimeout; StatusReject; StatusCancelled] status
  then Some ComponentStatusFailed else None.

Definition isSharedDefaultSkippedConfigJob (job : JobTask) : bool :=
  if negb (jt_Status job =? StatusSkipped)%string then false
  else if negb (isConfigComponentJobType (jt_JobType job)) then false
  else match ShareStrategyFromJobInfo job with
       | Some strategy => (strategy =? ShareStrategyDefault)%string
       | None => false
       end.

(** A failed query counts as no component. *)
Definition findComponentForJob (job : JobTask) : M (option ApplicationComponent) :=
  let appID := TrimSpace (jt_AppID job) in
  let appID := if str_empty appID then TrimSpace (jt_WorkflowID job) else appID in
  let name := TrimSpace (jt_Name job) in
  if str_empty appID || str_empty name then ret None else
  let! entities := try (List_ (E := ApplicationComponent)
    (Index (application_component_zero <| ac_AppID := appID |>)) no_options) in
  match entities with
  | Err _ => ret None
  | Ok l => ret (List.find (fun component => ac_Name component =? name)%string l)
  end.

Definition syncConfigComponentStatus (job : JobTask) : M string :=
  let! target := findComponentForJob job in
  match target with
  | None => ret ""%string
  | Some target =>
      if negb (ac_ComponentType target =? ConfJob)%string && negb (ac_ComponentType target =? SecretJob)%string
      then ret ""%string
      else if (ac_Status target =? ComponentStatusCleaning)%string then ret ""%string
      else if negb (isConfigComponentJobType (jt_JobType job)) then ret ""%string
      else
        let status :=
          match componentStatusForJob (jt_Status job) with
          | Some status => Some status
          | None => if negb (isSharedDefaultSkippedConfigJob job) then None else Some ComponentStatusRunning
          end in
        match status with
        | None => ret ""%string
        | Some status =>
            let lastAbnormal := if (status =? ComponentStatusFailed)%string then TrimSpace (jt_Error job) else ""%string in
            let target := target <| ac_Status := status |> <| ac_LastAbnormal := lastAbnormal |> in
            let! _ := wrap_error "update component status"
              (UpdateComponentRuntimeFields target
                 [("status", VStr status); ("last_abnormal", VStr lastAbnormal)]%string) in
            ret (ac_AppID target)
        end
  end.

Definition SyncConfigComponentStatusIfWorkflowOwned (job : JobTask) : M unit :=
  if negb (isConfigComponentJobType (jt_JobType job)) then ret tt else
  let! _ := WithJobInfoOwnership job (syncConfigComponentStatus job) in ret tt.

Definition SyncComponentStatusOnJobStart (job : JobTask) : M string :=
  let! target := findComponentForJob job in
  match target with
  | None => ret ""%string
  | Some target =>
      if negb (shouldMarkComponentPendingOnJobStart (jt_JobType job)) then ret ""%string else
      let! _ := wrap_error "update component status to pending"
        (UpdateComponentRuntimeFields
           (target <| ac_Status := ComponentStatusPending |> <| ac_ReadyReplicas := 0 |> <| ac_LastAbnormal := ""%string |>)
           [("status", VStr ComponentStatusPending); ("ready_replicas", VInt 0); ("last_abnormal", VStr "")]%string) in
      ret (ac_AppID target)
  end.

(** [MarkComponentRuntime], without the cache; the component returned is the caller's copy. *)
Definition MarkComponentRuntime (component : ApplicationComponent) (status : string) (readyReplicas : Z)
    (lastAbnormal : string) : M ApplicationComponent :=
  let! _ := UpdateComponentRuntimeFields component
    [("status", VStr status); ("ready_replicas", VInt readyReplicas); ("last_abnormal", VStr lastAbnormal)]%string in
  ret (component <| ac_Status := status |> <| ac_ReadyReplicas := readyReplicas |> <| ac_LastAbnormal := lastAbnormal |>).

(** ** Only the runtime fields *)

(** The fields the status writers do not own. *)
Definition spec_of (c : ApplicationComponent) :=
  (ac_ID c, ac_AppID c, ac_Name c, ac_Namespace c, ac_Image c, ac_Replicas c, ac_ComponentType c,
   ac_Properties c, ac_Traits c, ac_CreateTime c).

Definition same_spec (c c' : ApplicationComponent) : Prop := spec_of c' = spec_of c.

#[export] Instance same_spec_preorder : PreOrder same_spec.
Proof. split; [done|]. unfold same_spec. intros a b c X Y. congruence. Qed.

(** No component appears or goes, and each keeps its specification. *)
Definition specs_kept (d d' : Database) : Prop :=
  forall id, match db_components d !! id, db_components d' !! id with
    | Some c, Some c' => same_spec c c'
    | None, None => True
    | _, _ => False
    end.

#[export] Instance specs_kept_preorder : PreOrder specs_kept.
Proof.
  split.
  - intros d id. by destruct (db_components d !! id).
  - intros a b c X Y id. specialize (X id). specialize (Y id).
    destruct (db_components a !! id), (db_components b !! id), (db_components c !! id); try done. by etrans.
Qed.

Lemma runtime_update field value (row row' : ApplicationComponent) :
  one_of componentRuntimeFieldAllowlist field = true \/ field = "update_time"%string ->
  apply_updates [(field, value)] row = Some row' -> same_spec row row'.
Proof.
  intros F U. assert (X : In field ["status"; "ready_replicas"; "last_abnormal"; "update_time"]%string).
  { destruct F as [F| ->]; [apply one_of_In in F; cbn in F |- *; tauto|cbn; tauto]. }
  destruct row. cbn in X. clear F. destruct X as [<-|[<-|[<-|[<-|[]]]]]; destruct value; vm_compute in U; try discriminate U;
    injection U as <-; reflexivity.
Qed.

Lemma runtime_updates (us : list (string * Val)) (row row' : ApplicationComponent) :
  Forall (fun kv => one_of componentRuntimeFieldAllowlist (fst kv) = true \/ fst kv = "update_time"%string) us ->
  apply_updates us row = Some row' -> same_spec row row'.
Proof.
  revert row. induction us as [|[c v] us IH]; intros row F U; [injection U as <-; reflexivity|].
  inversion_clear F. cbn in U. destruct (find_col c) as [col|] eqn:E; [|done].
  destruct (col_set col v row) as [row1|] eqn:S; [|done].
  transitivity row1; [apply (runtime_update c v); [done|cbn; by rewrite E, S]|by apply IH].
Qed.

Lemma normalized_fields updates fields : normalizeComponentRuntimeFields updates = Ok fields ->
  fields = updates /\ Forall (fun kv => one_of componentRuntimeFieldAllowlist (fst kv) = true) fields.
Proof.
  revert fields. induction updates as [|[c v] us IH]; intros fields; cbn [normalizeComponentRuntimeFields];
    [intros [= <-]; by split|].
  destruct (one_of componentRuntimeFieldAllowlist c) eqn:O; [|done]. destruct (is_null v); [done|]. cbn [negb].
  destruct (normalizeComponentRuntimeFields us) as [l|]; [|done]. intros [= <-].
  destruct (IH l eq_refl) as [-> F]. split; [done|by constructor].
Qed.

Lemma kept_read_only {A} (m : M A) : read_only m -> guarantees specs_kept m.
Proof. apply guarantees_read_only. Qed.

Lemma kept_cas entity conditions fields :
  Forall (fun kv => one_of componentRuntimeFieldAllowlist (fst kv) = true) fields ->
  guarantees specs_kept (cas_component entity conditions fields).
Proof.
  intros F. assert (FT : forall now, Forall (fun kv => one_of componentRuntimeFieldAllowlist (fst kv) = true \/ fst kv = "update_time"%string)
    (fields ++ [("update_time"%string, VTime now)])%list).
  { intros now. apply Forall_app. split; [|by constructor; [right|]]. eapply Forall_impl; [exact F|]. by left. }
  unfold cas_component. destruct (_ =? 0).
  - unfold CompareAndSwapRows. destruct (negb _); [|apply kept_read_only; auto with store].
    destruct (negb _); [|apply kept_read_only; auto with store].
    apply guarantees_statement. intros t d r d' E. cbn in E.
    destruct (known _); [|by injection E as <- <-]. destruct (negb _); [by injection E as <- <-|].
    destruct (forallb _ _) eqn:Al; injection E as <- <-; [|done]. intros id. cbn. rewrite lookup_fmap.
    destruct (db_components d !! id) as [c|] eqn:L; [|done]. cbn.
    destruct (conds_hold conditions c) eqn:C; [|reflexivity].
    rewrite forallb_forall in Al. specialize (Al (id, c)). apply elem_of_map_to_list in L. apply list_elem_of_In in L.
    specialize (Al L). cbn in Al. rewrite C in Al. cbn in Al. apply bool_decide_eq_true in Al as [c' U].
    rewrite U. by apply (runtime_updates _ _ _ (FT t)).
  - apply guarantees_cas. intros now d row row' L _ U id. cbn in L |- *.
    destruct (decide (ac_ID entity = id)) as [<-|N].
    + rewrite L, lookup_insert_eq. by apply (runtime_updates _ _ _ (FT now)).
    + rewrite lookup_insert_ne by done. by destruct (db_components d !! id).
Qed.

Ltac kept_ro := apply kept_read_only; auto with store.

Lemma kept_lift {A B} (r : result A) (k : A -> M B) :
  (forall a, r = Ok a -> guarantees specs_kept (k a)) -> guarantees specs_kept (bind (lift_result r) k).
Proof.
  intros HK. destruct r as [a|e]; [exact (HK a eq_refl)|].
  apply kept_read_only. intros w r w' [= <- <-]. reflexivity.
Qed.

Lemma kept_write component updates (conds : list (string * Cond) -> list (string * Cond)) {B} (k : bool -> list (string * Cond) -> M B) :
  (forall b c, guarantees specs_kept (k b c)) ->
  guarantees specs_kept
    (let! fields := lift_result (normalizeComponentRuntimeFields updates) in
     let! target := lift_result (componentRuntimeFieldConditions component) in
     let '(entity, conditions) := target in
     let! updated := cas_component entity (conds conditions) fields in k updated conditions).
Proof.
  intros HK. apply kept_lift. intros fields [_ F]%normalized_fields. apply kept_lift. intros [entity conditions] _.
  apply guarantees_bind; [by apply kept_cas|]. intros b. apply HK.
Qed.

Lemma kept_update component updates : guarantees specs_kept (UpdateComponentRuntimeFields component updates).
Proof.
  unfold UpdateComponentRuntimeFields. destruct updates as [|u us]; [kept_ro|].
  apply (kept_write component (u :: us) id). intros [|] c; [kept_ro|].
  kept_ro. unfold componentRuntimeFieldExists. store_step.
Qed.

Lemma kept_update_unchanged component updates :
  guarantees specs_kept (UpdateComponentRuntimeFieldsIfUnchanged component updates).
Proof.
  unfold UpdateComponentRuntimeFieldsIfUnchanged. destruct updates as [|u us]; [kept_ro|].
  apply (kept_write component (u :: us) (fun c => c ++ _)%list). intros [|] c; [kept_ro|].
  kept_ro. unfold componentRuntimeFieldExists. store_step.
Qed.

Lemma read_only_find_component job : read_only (findComponentForJob job).
Proof. unfold findComponentForJob. store_step. Qed.

(** Writing under ownership touches the queue only. *)
Lemma kept_ownership {A} job (m : M A) : guarantees specs_kept m -> guarantees specs_kept (WithJobInfoOwnership job m).
Proof.
  intros G. unfold WithJobInfoOwnership, WithWorkflowTaskOwnership.
  destruct (negb _); [|kept_ro]. apply guarantees_bind; [apply kept_read_only; store_step|]. intros ?.
  apply guarantees_transaction. apply guarantees_bind; [|intros [|]; [exact G|kept_ro]].
  apply guarantees_wrap. unfold UpdateTaskFieldsIfConditions. destruct (negb _); [|kept_ro].
  apply guarantees_cas. intros now d row row' _ _ _ id. cbn. by destruct (db_components d !! id).
Qed.

Lemma kept_sync job : guarantees specs_kept (syncConfigComponentStatus job).
Proof.
  unfold syncConfigComponentStatus. apply guarantees_bind; [apply kept_read_only, read_only_find_component|].
  intros [target|]; [|kept_ro].
  do 3 match goal with |- guarantees _ (if ?c then _ else _) => destruct c; [kept_ro|] end.
  match goal with |- guarantees _ (match ?o with _ => _ end) => destruct o as [status|]; [|kept_ro] end.
  apply guarantees_bind; [apply guarantees_wrap, kept_update|intros; kept_ro].
Qed.

Lemma kept_start job : guarantees specs_kept (SyncComponentStatusOnJobStart job).
Proof.
  unfold SyncComponentStatusOnJobStart. apply guarantees_bind; [apply kept_read_only, read_only_find_component|].
  intros [target|]; [|kept_ro]. destruct (negb _); [kept_ro|].
  apply guarantees_bind; [apply guarantees_wrap, kept_update|intros; kept_ro].
Qed.

Lemma kept_sync_owned job : guarantees specs_kept (SyncConfigComponentStatusIfWorkflowOwned job).
Proof.
  unfold SyncConfigComponentStatusIfWorkflowOwned. destruct (negb _); [kept_ro|].
  apply guarantees_bind; [apply kept_ownership, kept_sync|intros; kept_ro].
Qed.

Lemma kept_mark component status n abnormal : guarantees specs_kept (MarkComponentRuntime component status n abnormal).
Proof. unfold MarkComponentRuntime. apply guarantees_bind; [apply kept_update|intros; kept_ro]. Qed.

(** ** The observation of one snapshot *)

(** Rows are kept under their number. *)
Definition component_id_ok (d : Database) : Prop := forall id c, db_components d !! id = Some c -> ac_ID c = id.

Definition same_observation (c c' : ApplicationComponent) : Prop :=
  ac_Status c' = ac_Status c /\ ac_ReadyReplicas c' = ac_ReadyReplicas c /\ ac_LastAbnormal c' = ac_LastAbnormal c.

(** What writing against a snapshot does to the database. *)
Inductive observed (component : ApplicationComponent) (updates : list (string * Val)) (d : Database)
    : result bool -> Database -> Prop :=
  | observed_written row row' now :
      db_components d !! ac_ID component = Some row -> ac_AppID row = TrimSpace (ac_AppID component) ->
      same_observation component row ->
      apply_updates (updates ++ [("update_time"%string, VTime now)])%list row = Some row' ->
      observed component updates d (Ok true)
        (with_table (<[ac_ID component := row']> (db_components d)) d)
  | observed_stale row :
      db_components d !! ac_ID component = Some row -> ac_AppID row = TrimSpace (ac_AppID component) ->
      ~ same_observation component row -> observed component updates d (Ok false) d
  | observed_error e : observed component updates d (Err e) d.

Lemma identity_hold component row :
  conds_hold [("app_id"%string, CEq (VStr (TrimSpace (ac_AppID component)))); ("id"%string, CEq (VInt (ac_ID component)))] row = true <->
  ac_AppID row = TrimSpace (ac_AppID component) /\ ac_ID row = ac_ID component.
Proof. unfold conds_hold. cbn. rewrite !andb_true_iff, String.eqb_eq, Z.eqb_eq. tauto. Qed.

Lemma snapshot_hold component row :
  conds_hold [("status"%string, CEq (VStr (ac_Status component)));
    ("ready_replicas"%string, CEq (VInt (ac_ReadyReplicas component)));
    ("last_abnormal"%string, CEq (VStr (ac_LastAbnormal component)))] row = true <-> same_observation component row.
Proof.
  unfold conds_hold, same_observation. cbn. rewrite !andb_true_iff, !String.eqb_eq, Z.eqb_eq. tauto.
Qed.

Lemma update_unchanged_spec d1 component updates :
  component_id_ok d1 -> 0 < ac_ID component -> updates <> [] ->
  triple eq (fun d => d = d1) (UpdateComponentRuntimeFieldsIfUnchanged component updates) (observed component updates d1).
Proof.
  intros I P N. unfold UpdateComponentRuntimeFieldsIfUnchanged. destruct updates as [|u us]; [done|].
  apply triple_bind_lift; [intros e d _ ->; constructor|]. intros fields F.
  apply normalized_fields in F as [-> _].
  apply triple_bind_lift; [intros e d _ ->; constructor|]. intros [entity conditions] C.
  unfold componentRuntimeFieldConditions in C. destruct (str_empty _); [done|]. destruct (str_empty _); [done|].
  apply Z.ltb_lt in P as P'. rewrite P' in C. injection C as <- <-. unfold cas_component.
  set (entity := application_component_zero <| ac_ID := _ |> <| ac_AppID := _ |> <| ac_Name := _ |>).
  change (ac_ID entity) with (ac_ID component). apply Z.lt_neq in P. rewrite (proj2 (Z.eqb_neq _ _)) by done. clear entity.
  set (identity := [_; _]).
  apply triple_bind with (Mid := fun (b : bool) d => if b then observed component (u :: us) d1 (Ok true) d
    else d = d1 /\ forall row, db_components d1 !! ac_ID component = Some row ->
      ac_AppID row = TrimSpace (ac_AppID component) -> ~ same_observation component row).
  - apply triple_cas; [apply _|apply stable_eq|intros e d _ ->; constructor|..].
    + intros d -> M. split; [done|]. intros row L A S. specialize (M row L). unfold conds_hold in M.
      rewrite forallb_app in M. apply andb_false_iff in M as [M|M].
      * assert (X : conds_hold identity row = true) by (apply identity_hold; split; [done|by apply (I _ _ L)]).
        unfold conds_hold in X. congruence.
      * apply snapshot_hold in S. unfold conds_hold in S. congruence.
    + intros now d row row' -> L Hc U. unfold conds_hold in Hc. rewrite forallb_app, andb_true_iff in Hc.
      destruct Hc as [H1 H2]. apply identity_hold in H1 as [H1 _]. apply snapshot_hold in H2.
      by apply (observed_written component (u :: us) d1 row row' now).
  - intros [|]; [by apply triple_ret|].
    apply triple_bind with (Mid := fun (b : bool) d => (d = d1 /\ forall row, db_components d1 !! ac_ID component = Some row ->
      ac_AppID row = TrimSpace (ac_AppID component) -> ~ same_observation component row) /\
      (b = true -> exists row, db_components d1 !! ac_ID component = Some row /\ ac_AppID row = TrimSpace (ac_AppID component))).
    + unfold componentRuntimeFieldExists, IsExistByCondition. cbn [negb length identity].
      repeat (apply triple_if; intros _; [|by apply triple_throw; intros d [-> _]; constructor]).
      apply triple_statement; [apply _|apply stable_eq|intros d [-> _]; constructor|].
      intros t d r d' [-> M] E. destruct (known _); injection E as <- <-; [|constructor].
      split; [by split|]. intros X. apply existsb_exists in X as (row & X & C). apply elem_rows in X as [k L].
      apply identity_hold in C as [A E]. cbn in L. pose proof (I _ _ L) as Ek. exists row. by rewrite <- E, Ek.
    + intros b. apply triple_if; [|intros _; apply triple_throw; intros d [[-> _] _]; constructor].
      intros ->. apply triple_ret. intros d [[-> M] X]. destruct (X eq_refl) as (row & L & A).
      by apply (observed_stale _ _ _ row); auto.
Qed.

(** Component status writes.  Whatever other sessions do in the same discipline,
    the writers of a component's status leave its specification alone and neither add
    nor remove a component.  Writing against a snapshot that no one disturbs tells the
    three cases apart: the row was the snapshot's and now has the new fields, the row
    is another observation and is left as it is, or nothing was written. *)
Theorem component_status_writes component updates job status n abnormal :
  (guarantees specs_kept (UpdateComponentRuntimeFields component updates) /\
   guarantees specs_kept (UpdateComponentRuntimeFieldsIfUnchanged component updates) /\
   guarantees specs_kept (SyncConfigComponentStatusIfWorkflowOwned job) /\
   guarantees specs_kept (SyncComponentStatusOnJobStart job) /\
   guarantees specs_kept (MarkComponentRuntime component status n abnormal)) /\
  (forall w r w', env_respects eq (w_env w) -> component_id_ok (w_db w) -> 0 < ac_ID component -> updates <> [] ->
   UpdateComponentRuntimeFieldsIfUnchanged component updates w = (r, w') ->
   observed component updates (w_db w) r (w_db w')).
Proof.
  split; [exact (conj (kept_update _ _) (conj (kept_update_unchanged _ _)
    (conj (kept_sync_owned _) (conj (kept_start _) (kept_mark _ _ _ _)))))|].
  intros w r w' He I P N E. by apply (update_unchanged_spec (w_db w) component updates I P N w r w' He eq_refl E).
Qed.

Definition sample_component : ApplicationComponent :=
  application_component_zero <| ac_ID := 4 |> <| ac_AppID := "app"%string |> <| ac_Name := "web"%string |>
    <| ac_Status := ComponentStatusPending |>.

Definition sample_components : Database := (db_empty 1000) <| db_components := {[4 := sample_component]} |>.

(** The observation is written. *)
Lemma component_status_writes_witness :
  let updates := [("status"%string, VStr ComponentStatusRunning); ("ready_replicas"%string, VInt 2)] in
  let out := UpdateComponentRuntimeFieldsIfUnchanged sample_component updates (seqw sample_components 0) in
  fst out = Ok true /\ observed sample_component updates sample_components (Ok true) (w_db (snd out)) /\
  (ac_ReadyReplicas <$> db_components (w_db (snd out)) !! 4) = Some 2.
Proof.
  cbv zeta. set (updates := [_; _]).
  assert (F : fst (UpdateComponentRuntimeFieldsIfUnchanged sample_component updates (seqw sample_components 0)) = Ok true)
    by (vm_compute; reflexivity).
  assert (R : (ac_ReadyReplicas <$> db_components (w_db (snd (UpdateComponentRuntimeFieldsIfUnchanged sample_component updates
    (seqw sample_components 0)))) !! 4) = Some 2) by (vm_compute; reflexivity).
  assert (I : component_id_ok sample_components) by (intros id c; cbn; by intros [<- <-]%lookup_singleton_Some).
  revert F R. destruct (UpdateComponentRuntimeFieldsIfUnchanged _ _ _) as [r w'] eqn:E. cbn [fst snd]. intros -> R.
  split; [done|]. split; [|exact R].
  exact (proj2 (component_status_writes sample_component updates job_task_zero "" 0 "") (seqw sample_components 0) (Ok true) w'
    ltac:(constructor) I eq_refl ltac:(done) E).
Defined.
