(* ===== verification/JobExec.v ===== *)
(** What running a job needs of its record and of its task:
    [pkg/apiserver/event/workflow/job/jobexec/batch.go] (the ownership of a job's
    workflow), [cancel_recovery.go] (the durable intent to clean up a cancelled
    execution), [jobinfo/status_error.go] and [status_transition.go], and the
    admission steps of [jobinstant/scheduling.go].

    [error_text] is the message of an error.  The Kubernetes client only answers
    [Get] here: [live] is its answer, an [Err ErrNotFound] for a missing Job. *)

From S2P Require Import Prelude GoStrings Config Json Quantity Policy Model Store Lease Budget.
From S2P Require Import Signals Scheduler PodResources Retry Cleanup JobInfos.

(** ** jobinfo: errors that carry a status *)

(** [errors.As]: the first one in the tree. *)
Fixpoint ExtractStatusError (e : error) : option (string * error) :=
  match e with
  | StatusError status cause => Some (status, cause)
  | Wrapf _ cause => ExtractStatusError cause
  | ErrJoin a b => match ExtractStatusError a with Some x => Some x | None => ExtractStatusError b end
  | _ => None
  end.

Definition NewStatusError (status : string) (err : option error) : option error :=
  match err with Some e => Some (StatusError status e) | None => None end.

Definition StatusFromError (err : error) : string :=
  match ExtractStatusError err with Some (status, _) => status | None => StatusFailed end.

Section StatusTransition.
Variable error_text : error -> string.

Definition JobErrorMessage (err : option error) (message : string) : string :=
  let message := TrimSpace message in
  if negb (str_empty message) then message else
  match err with Some e => TrimSpace (error_text e) | None => ""%string end.

Definition ApplyJobError (job : JobTask) (err : option error) (message : string) : JobTask :=
  match err with
  | None => job
  | Some e => job <| jt_Error := JobErrorMessage (Some e) message |> <| jt_Status := StatusFromError e |>
  end.

Definition startJobTransition (job : JobTask) : JobTask :=
  job <| jt_Status := StatusRunning |> <| jt_Error := ""%string |>.

Definition finishJobTransitionWithError (job : JobTask) (err : option error) : JobTask :=
  ApplyJobError job err "".

Definition completeJobTransition (job : JobTask) : JobTask :=
  if (jt_Status job =? StatusSkipped)%string then job <| jt_Error := ""%string |>
  else job <| jt_Status := StatusCompleted |> <| jt_Error := ""%string |>.

(** [run] and [wait] see the job as it is and may change it. *)
Definition RunJobWithStatus (job : JobTask) (run : JobTask -> option error * JobTask) : option error * JobTask :=
  let '(err, job) := run (startJobTransition job) in
  match err with
  | Some e => (Some e, finishJobTransitionWithError job (Some e))
  | None => (None, completeJobTransition job)
  end.

Definition RunJobWithWait (job : JobTask) (run : JobTask -> option error * JobTask)
    (wait : option (JobTask -> option error * JobTask)) : option error * JobTask :=
  let '(err, job) := run (startJobTransition job) in
  match err with
  | Some e => (Some e, finishJobTransitionWithError job (Some e))
  | None =>
      if (jt_Status job =? StatusSkipped)%string then (None, job <| jt_Error := ""%string |>) else
      match wait with
      | None => (None, completeJobTransition job)
      | Some wait =>
          let '(err, job) := wait job in
          match err with
          | Some e => (Some e, finishJobTransitionWithError job (Some e))
          | None => (None, completeJobTransition job)
          end
      end
  end.
End StatusTransition.

(** ** batch.go: the ownership of a job's workflow *)

Definition JobOwnerGeneration (job : JobTask) : Z :=
  if 0 <? jt_OwnerRunGeneration job then jt_OwnerRunGeneration job else jt_RunGeneration job.

Definition CurrentJobWorkflowOwnershipStatus (job : JobTask) : M string :=
  if (jt_OwnerRunGeneration job =? 0) && blank (jt_WorkerID job) then ret StatusRunning else
  let generation := JobOwnerGeneration job in
  if blank (jt_TaskID job) || (generation =? 0) || blank (jt_RunToken job) || blank (jt_WorkerID job)
  then throw (ErrJoin ErrInfrastructureStop (Wrapf "incomplete ownership identity" ErrWorkflowJobOwnershipChanged)) else
  let! task := try (TaskByID (TrimSpace (jt_TaskID job))) in
  match task with
  | Err e => throw (ErrJoin ErrInfrastructureStop (Wrapf "load workflow ownership before Kubernetes update" e))
  | Ok task =>
      if negb (wq_RunGeneration task =? generation) || negb (wq_RunToken task =? jt_RunToken job)%string ||
         negb (wq_WorkerID task =? jt_WorkerID job)%string
      then throw (ErrJoin ErrInfrastructureStop (Wrapf "task generation is no longer owned by worker" ErrWorkflowJobOwnershipChanged))
      else ret (wq_Status task)
  end.

Definition EnsureCurrentJobWorkflowOwnership (job : JobTask) : M unit :=
  let! status := CurrentJobWorkflowOwnershipStatus job in
  if (status =? StatusRunning)%string then ret tt
  else throw (ErrJoin ErrInfrastructureStop (Wrapf "workflow status" ErrWorkflowJobOwnershipChanged)).

Definition EnsureJobWorkflowOwnership (job : JobTask) (operation : string) : M unit :=
  wrap_error ("verify workflow ownership before " ++ operation)%string (EnsureCurrentJobWorkflowOwnership job).

Definition isTerminalWorkflowJobTaskStatus (status : string) : bool :=
  one_of [StatusCompleted; StatusPassed; StatusSkipped; StatusFailed; StatusTimeout; StatusCancelled; StatusReject] status.

Definition JobTypeForTask (job : option JobTask) (fallback : string) : string :=
  match job with
  | None => fallback
  | Some job => if str_empty (jt_JobType job) then fallback else jt_JobType job
  end.

(** ** cancel_recovery.go *)

Definition cancelledJobCleanupPending : string := "parent workflow cancelled".
Definition CancelledJobCleanupComplete : string := "cancelled execution cleanup complete".
Definition CancelledJobCleanupPreserved : string :=
  "cancelled scheduled resource preserved: ownership origin unavailable".

Definition RecoverableKubernetesJobType (jobType : string) : bool :=
  IsInstantJobType jobType || (jobType =? JobDeployScheduled)%string.

Definition IsCancelledJobCleanupPending (record : option JobInfo) : bool :=
  match record with
  | Some record =>
      RecoverableKubernetesJobType (job_Type record) && (job_Status record =? StatusCancelled)%string &&
      (job_SchedulingReason record =? cancelledJobCleanupPending)%string
  | None => false
  end.

Definition cleanup_conditions (record : JobInfo) (expectedReason : string) : list (string * Cond) :=
  ([("status", CEq (VStr (job_Status record))); ("run_generation", CEq (VInt (job_RunGeneration record)));
    ("attempt", CEq (VInt (job_Attempt record)))]%string ++
   match job_ExecutionKey record with Some key => [("execution_key"%string, CEq (VStr key))] | None => [] end ++
   (if str_empty expectedReason then [] else [("scheduling_reason"%string, CEq (VStr expectedReason))]))%list.

Definition cleanup_updates (job : JobTask) (record : JobInfo) (outcome : string) : list (string * Val) :=
  (("scheduling_reason"%string, VStr outcome) ::
   (if (outcome =? cancelledJobCleanupPending)%string
    then [("status", VStr StatusCancelled); ("error", VStr (jt_Error job)); ("end_time", VInt (jt_EndTime job))]%string
    else if negb (str_empty (job_SchedulingState record))
    then [("scheduling_state"%string, VStr JobSchedulingReleased)] else []))%list.

Section CancelRecovery.
Variable scope : option string.

Definition update_cancelled_record (job : JobTask) (expectedReason outcome : string) : M unit :=
  let! record := wrap_error "load cancelled Job cleanup checkpoint" (FindExistingJobInfo scope job) in
  match record with
  | None => throw ErrRecordNotExist
  | Some record =>
      let! updated := CompareAndSwapWithConditions (E := JobInfo) (job_ID record)
        (cleanup_conditions record expectedReason) (cleanup_updates job record outcome) in
      guard! updated else Errorf "cancelled Job cleanup checkpoint changed";
      ret tt
  end.

Definition updateCancelledJobCleanup (job : JobTask) (expectedReason outcome : string) : M unit :=
  WithJobInfoOwnership job (update_cancelled_record job expectedReason outcome).

Definition BeginCancelledJobCleanup (job : JobTask) : M unit :=
  if negb (RecoverableKubernetesJobType (jt_JobType job)) then ret tt
  else updateCancelledJobCleanup job "" cancelledJobCleanupPending.

Definition FinishOnlineCancelledJobCleanup (job : JobTask) (outcome : string) : M unit :=
  if negb (RecoverableKubernetesJobType (jt_JobType job)) then ret tt
  else updateCancelledJobCleanup job cancelledJobCleanupPending outcome.
End CancelRecovery.

Definition finishCancelledJobCleanup (record : JobInfo) (outcome : string) : M unit :=
  let conditions :=
    [("status", CEq (VStr StatusCancelled));
     ("execution_key", CEq (match job_ExecutionKey record with Some key => VStr key | None => VNull end));
     ("run_generation", CEq (VInt (job_RunGeneration record))); ("attempt", CEq (VInt (job_Attempt record)));
     ("scheduling_reason", CEq (VStr cancelledJobCleanupPending))]%string in
  let updates :=
    (("scheduling_reason"%string, VStr outcome) ::
     (if negb (str_empty (job_SchedulingState record))
      then [("scheduling_state"%string, VStr JobSchedulingReleased)] else []))%list in
  let! updated := wrap_error "mark cancelled Kubernetes Job cleanup"
    (CompareAndSwapWithConditions (E := JobInfo) (job_ID record) conditions updates) in
  guard! updated else Errorf "cancelled Kubernetes Job checkpoint changed";
  ret tt.

(** ** scheduling.go: the admission of a job *)

Section AdmissionSteps.
Context {Q : Type} `{QuantityOps Q} `{KubernetesJson Q}.
Variable decode_job : Json -> option (Job Q).
Variable order : JobRetryPolicy Q -> list (string * Z).

Definition cancelledKubernetesJobMatches (record : JobInfo) (live : Job Q) : bool :=
  match job_ExecutionKey record with
  | None => false
  | Some key =>
      negb (str_empty (kj_UID live)) &&
      (annotation_of live AnnotationJobTaskID =? job_TaskID record)%string &&
      (annotation_of live AnnotationJobExecutionKey =? key)%string &&
      (annotation_of live AnnotationJobRunGeneration =? FormatUint (job_RunGeneration record) 10)%string &&
      ((job_Attempt record =? 0) ||
       (annotation_of live AnnotationJobAttempt =? FormatUint (job_Attempt record) 10)%string)
  end.

Definition retryDatabaseTime : M Z :=
  let! now := try CurrentDatabaseTime in
  match now with
  | Err e => throw (ErrJoin ErrInfrastructureStop (Wrapf "read Job retry database clock" e))
  | Ok now =>
      if now =? time_zero then throw (ErrJoin ErrInfrastructureStop (Errorf "Job retry database clock is zero"))
      else ret now
  end.

(** The checkpoint asks the client for its Job; [None] when it need not. *)
Definition recovery_needs_job (job : JobTask) : M (option (InstantJobRetryCheckpoint Q * Job Q)) :=
  if (negb (jt_JobType job =? JobCommand)%string && negb (jt_JobType job =? JobEval)%string) ||
     str_empty (jt_InternalInfo job)
  then ret None else
  let! cp := lift_result (DecodeInstantJobRetryCheckpoint decode_job order (Some job)) in
  let! now := retryDatabaseTime in
  if rc_Deadline cp <=? now then throw (StatusError StatusTimeout DeadlineExceeded) else
  if str_empty (rc_CurrentUID cp) then ret None else
  let! policy := lift_result (RetryPolicyFromJob order (rc_Job cp)) in
  match policy, rc_Job cp with
  | Some policy, Some cpJob =>
      if negb (OnOOM policy =? "stop")%string then ret None else ret (Some (cp, cpJob))
  | _, _ => throw (Errorf "nil retry policy")
  end.

Definition confirm_live (job : JobTask) (cp : InstantJobRetryCheckpoint Q) (live : result (Job Q)) : result string :=
  match live with
  | Err e =>
      if errors_is ErrNotFound e
      then Err (ErrJoin ErrJobAdmissionRecoveryExecutionLost (Wrapf "confirm existing Job admission" e))
      else Err (Wrapf "confirm existing Job admission" e)
  | Ok live =>
      match ValidateInstantJobRetryExecution decode_job order (Some (BuildJobInfoRecord job)) (Some live) with
      | Err e =>
          if errors_is ErrJobExecutionIdentityChanged e
          then Err (ErrJoin ErrJobAdmissionRecoveryExecutionLost e) else Err e
      | Ok _ => Ok (rc_CurrentUID cp)
      end
  end.

Definition admission_owner (job : JobTask) : WorkflowQueue :=
  (job_owner job) <| wq_AppID := jt_AppID job |> <| wq_WorkspaceID := jt_WorkspaceID job |>.

Definition releaseLostJobAdmission (job : JobTask) (cause : error) : M error :=
  if negb (errors_is ErrJobAdmissionRecoveryExecutionLost cause) then ret cause else
  let! r := try (ReleaseLostJobAdmission (Q := Q) (Some (admission_owner job)) (Some (BuildJobInfoRecord job))
    "recovered Kubernetes Job is missing or has a different execution identity") in
  match r with
  | Err e => ret (ErrJoin cause (ErrJoin ErrInfrastructureStop (Wrapf "release lost Job admission" e)))
  | Ok _ => ret cause
  end.
End AdmissionSteps.
