(* ===== verification/RunJob.v ===== *)
(** Running a job: [pkg/apiserver/event/workflow/job/job.go],
    [evaluation_recovery.go] and the wait of [jobinstant/scheduling.go].

    A job runs inside its workflow's run, so [JobRun] holds the controller's [Exec]:
    the world, the run's context and what acknowledging needs.  The job has a context
    of its own below that one, which its cancellation watcher can cancel, and the
    [JobTask] is shared with its controller.

    The surroundings are read off [JobRun] like the signals of [Exec]: what the
    watcher finds at each look, and how many timers fire
    while a job waits before the run's context is cancelled, so that every run ends.
    The controller of a job type is a parameter, [JobController]; so are the
    collection of logs and the pool that runs several jobs at a time. *)

From S2P Require Import Prelude GoStrings Config Json Quantity Policy Model Store Lease Budget.
From S2P Require Import Signals Scheduler PodResources Retry Cleanup JobInfos Components Controller JobExec.

(** ** The state of a run *)

Inductive JobEvent :=
  | JvAck (status : string)      (* the acknowledgement, with the job's status *)
  | JvAdmitted
  | JvOwned                      (* the owner's row was locked before the start *)
  | JvRun
  | JvClean
  | JvCleanCancelled
  | JvSave (job : JobTask)       (* [SaveInfo] and its projection succeeded *)
  | JvRelease.

Record JobRun := {
  jr_exec : Exec;
  jr_cause : option error;                    (* context.Cause of the job's context *)
  jr_watched : bool;
  jr_watch : list (option string);            (* cancellations the watcher finds, look by look *)
  jr_reason : string;                         (* cancelState *)
  jr_polls : nat;                             (* timers that fire while waiting for admission *)
  jr_stop : error;                            (* why the run's context is cancelled then *)
  jr_renewals : list (nat * bool);            (* per clean-up: renewals meanwhile, and its timeout *)
  jr_job : JobTask;
  jr_log : list JobEvent;
}.

#[export] Instance eta_JobRun : Settable JobRun := fun j =>
  Build_JobRun (jr_exec j) (jr_cause j) (jr_watched j) (jr_watch j) (jr_reason j) (jr_polls j)
    (jr_stop j) (jr_renewals j) (jr_job j) (jr_log j).

Definition J (A : Type) : Type := JobRun -> A * JobRun.

Definition jret {A} (a : A) : J A := fun j => (a, j).
Definition jbind {A B} (m : J A) (k : A -> J B) : J B := fun j => let '(a, j') := m j in k a j'.
Definition get_run : J JobRun := fun j => (j, j).
Definition jmodify (f : JobRun -> JobRun) : J unit := fun j => (tt, f j).
Definition jemit (ev : JobEvent) : J unit := jmodify (fun j => j <| jr_log := (jr_log j ++ [ev])%list |>).
Definition set_job (f : JobTask -> JobTask) : J unit := jmodify (fun j => j <| jr_job := f (jr_job j) |>).

(** A program of the workflow's controller. *)
Definition exec {A} (m : C A) : J A := fun j =>
  let '(a, e) := m (jr_exec j) in (a, j <| jr_exec := e |>).
Definition jdb {A} (m : M A) : J (result A) := exec (db m).

Notation "'job!' x := m 'in' k" := (jbind m (fun x => k))
  (at level 10, x pattern, m at level 100, k at level 200) : eruun_scope.

(** ** The contexts *)

(** [ctx.Err()] from the cause: a deadline keeps its error, all else is [context.Canceled]. *)
Definition ctx_err (cause : error) : error :=
  if bool_decide (cause = DeadlineExceeded) then DeadlineExceeded else ContextCanceled.

Definition cancel_job (cause : error) (j : JobRun) : JobRun :=
  match jr_cause j with Some _ => j | None => j <| jr_cause := Some cause |> end.

(** A look at the job's context: the run's context is above it, and its watcher may
    have cancelled it. *)
Definition job_cause : J (option error) := fun j =>
  let '(above, e) := ctx_cause (jr_exec j) in
  let j := j <| jr_exec := e |> in
  let j := match above with Some cause => cancel_job cause j | None => j end in
  let j :=
    if jr_watched j then
      match jr_watch j with
      | [] => j
      | None :: r => j <| jr_watch := r |>
      | Some reason :: r => cancel_job ContextCanceled (j <| jr_watch := r |> <| jr_reason := reason |>)
      end
    else j in
  (jr_cause j, j).

Definition job_infrastructure_stop : J bool :=
  job! cause := job_cause in jret (is_err ErrInfrastructureStop cause).

Definition suppressTerminalJobPersistence : J bool :=
  job! cause := job_cause in
  job! stop := job_infrastructure_stop in
  jret (stop || is_err ErrWorkflowLeaseRenewalFailed cause || is_err ErrWorkflowOwnershipLost cause).

Definition now_unix : J Z := fun j => (unix (w_wall (ex_world (jr_exec j))), j).

(** [errors.Join] *)
Definition join (a b : option error) : option error :=
  match a, b with
  | Some a, Some b => Some (ErrJoin a b)
  | Some a, None => Some a
  | None, b => b
  end.

Definition infrastructure (err : error) : option error := Some (ErrJoin ErrInfrastructureStop err).

(** ** Verdicts *)

Definition jobStatusFailed (status : string) : bool :=
  (status =? StatusCancelled)%string || (status =? StatusFailed)%string ||
  (status =? StatusTimeout)%string || (status =? StatusReject)%string.

Definition jobExecutionAlreadySettled (job : JobTask) : bool :=
  one_of [StatusCompleted; StatusPassed; StatusFailed; StatusTimeout; StatusCancelled; StatusReject] (jt_Status job) ||
  (jt_Status job =? StatusDistributed)%string &&
    (IsInstantJobType (jt_JobType job) || (jt_JobType job =? JobDeployScheduled)%string).

Definition jobRequiresApplicationWritePermission (jobType : string) : bool :=
  one_of [JobDeploy; JobDeployService; JobDeployStore; JobDeployPVC; JobDeployConfigMap; JobDeploySecret;
          JobDeployRoute; JobDeleteResource; JobDeployInstant; JobDeployScheduled; JobCleanupResources;
          JobDatabaseReset; JobVersionRestart] (TrimSpace jobType).

Definition requireApplicationForWrite (appID : string) : M unit :=
  let appID := TrimSpace appID in
  if str_empty appID then ret tt else
  let! app := try (Get (E := Applications) appID) in
  match app with
  | Err e => if errors_is ErrRecordNotExist e then throw (Errorf "application no longer exists")
             else throw (Wrapf "load application" e)
  | Ok _ => ret tt
  end.

Definition terminalJobPersistenceFailure (job : JobTask) (operation : string) (err : option error) : option error :=
  match err with
  | None => None
  | Some e =>
      if negb (jt_Status job =? StatusDistributed)%string && str_empty (jt_RunToken job) &&
         str_empty (jt_ExecutionKey job)
      then None else infrastructure (Wrapf operation e)
  end.

(** The error carries a timeout. *)
Definition is_timeout (e : error) : bool :=
  match ExtractStatusError e with Some (status, _) => (status =? StatusTimeout)%string | None => false end.

(** The [StatusError] itself. *)
Definition status_part (e : error) : option error :=
  match ExtractStatusError e with Some (status, cause) => Some (StatusError status cause) | None => None end.

(** ** The controller of a job *)

Inductive Ran := Returned (err : option error) | Panicked (message : string).

Record JobController := {
  ctl_Run : J Ran;
  ctl_Clean : J unit;
  ctl_SaveInfo : J (option error);
  ctl_CleanCancelled : option (J (string * option error));
}.

Section RunJob.
Context {Q : Type} `{QuantityOps Q} `{KubernetesJson Q}.
Variable decode_job : Json -> option (Job Q).
Variable order : JobRetryPolicy Q -> list (string * Z).
Variable scope : option string.
Variable error_text : error -> string.
(** The Job of a task's payload, its resources as JSON, and [ctx.Deadline()]. *)
Variable workload : JobTask -> option (Job Q).
Variable encode_resources : gmap string Q -> result string.
Variable deadline : option Z.
(** The Kubernetes client's [Get] of a Job; [None] without a client. *)
Variable client_Get : option (string -> string -> C (result (Job Q))).
(** [initJobCtl]: [None] for a job without a controller. *)
Variable initJobCtl : JobTask -> option JobController.
Variable finalizeCompletedJob : J unit.
(** The answer of the watcher's first look, and [Ack]. *)
Variable watch : string -> result CancelWatcher.
Variable Ack : C unit.

Definition ack : J unit :=
  job! j := get_run in
  job! _ := jemit (JvAck (jt_Status (jr_job j))) in
  exec Ack.

(** ** Terminal states *)

Definition persistTerminalJobState (ctl : option JobController) : J (option error) :=
  match ctl with
  | None => jret (Some (Errorf "persist terminal job state: job controller, job and datastore are required"))
  | Some ctl =>
      job! suppressed := suppressTerminalJobPersistence in
      if suppressed then jret None else
      job! j := get_run in
      job! saveErr := ctl_SaveInfo ctl in
      match saveErr with
      | Some e => jret (Some e)
      | None =>
          job! job := get_run in
          job! projected := jdb (SyncConfigComponentStatusIfWorkflowOwned (jr_job job)) in
          match projected with
          | Ok _ => job! _ := jemit (JvSave (jr_job j)) in jret None
          | Err e =>
              if errors_is ErrWorkflowOwnershipLost e
              then job! _ := jemit (JvSave (jr_job j)) in jret None
              else jret (Some e)
          end
      end
  end.

(** [return terminalJobPersistenceFailure(job, operation, persistTerminalJobState(...))] *)
Definition persist_or_stop (ctl : option JobController) (operation : string) : J (option error) :=
  job! err := persistTerminalJobState ctl in
  job! j := get_run in
  jret (terminalJobPersistenceFailure (jr_job j) operation err).

(** ** Cancellation *)

Definition adoptCancelledWorkflowOwner : J (result bool) :=
  job! j := get_run in
  job! status := jdb (CurrentJobWorkflowOwnershipStatus (jr_job j)) in
  match status with
  | Err e => jret (Err e)
  | Ok status =>
      if (status =? StatusRunning)%string then jret (Ok false)
      else if (status =? StatusCancelled)%string
      then job! _ := set_job (fun job => job <| jt_OwnerStatus := StatusCancelled |>) in jret (Ok true)
      else jret (Err (Wrapf ("workflow is " ++ status) ErrWorkflowJobOwnershipChanged))
  end.

Definition cancelledJobCleanupLeaseDuration : Z := 30 * Second.

Definition renewCancelledJobCleanupLease : J (option error) :=
  job! j := get_run in
  let job := jr_job j in
  job! renewed := jdb (RenewCancelledWorkflowTaskLease (jt_TaskID job) (JobOwnerGeneration job) (jt_RunToken job)
    (jt_WorkerID job) cancelledJobCleanupLeaseDuration) in
  match renewed with
  | Err e => jret (Some (Wrapf "renew cancelled workflow cleanup lease" e))
  | Ok false => jret (Some (Wrapf "cancelled workflow cleanup lease changed" ErrWorkflowJobOwnershipChanged))
  | Ok true => jret None
  end.

(** The renewals that happen while the controller cleans up; the first failure ends
    them and cancels the clean-up. *)
Fixpoint renew_meanwhile (ticks : nat) : J (option error) :=
  match ticks with
  | O => jret None
  | S ticks =>
      job! err := renewCancelledJobCleanupLease in
      match err with Some e => jret (Some e) | None => renew_meanwhile ticks end
  end.

Definition next_renewals : J (nat * bool) := fun j =>
  match jr_renewals j with
  | [] => ((0%nat, false), j)
  | x :: r => (x, j <| jr_renewals := r |>)
  end.

Definition clean_outcome (ctl : JobController) : J (string * option error) :=
  match ctl_CleanCancelled ctl with
  | Some clean => job! _ := jemit JvCleanCancelled in clean
  | None => job! _ := jemit JvClean in
            job! _ := ctl_Clean ctl in jret (CancelledJobCleanupComplete, None)
  end.

Definition cleanCancelledJob (ctl : JobController) : J (option error) :=
  job! lease := renewCancelledJobCleanupLease in
  match lease with
  | Some e => jret (Some e)
  | None =>
      job! j := get_run in
      job! begun := jdb (BeginCancelledJobCleanup scope (jr_job j)) in
      match begun with
      | Err e => jret (Some (Wrapf "persist cancelled job cleanup intent" e))
      | Ok _ =>
          job! renewals := next_renewals in
          job! outcome := clean_outcome ctl in
          job! renewErr := renew_meanwhile (fst renewals) in
          match snd outcome with
          | Some e => jret (Some e)
          | None =>
              match renewErr with
              | Some e => jret (Some (Wrapf "complete cancelled job cleanup intent" e))
              | None =>
                  job! j := get_run in
                  job! finished := jdb (FinishOnlineCancelledJobCleanup scope (jr_job j) (fst outcome)) in
                  match finished with
                  | Err e => jret (Some (Wrapf "complete cancelled job cleanup intent" e))
                  | Ok _ => if snd renewals : bool then jret (Some (Wrapf "clean cancelled job" DeadlineExceeded))
                            else jret None
                  end
              end
          end
      end
  end.

(** ** Admission *)

Definition confirmJobAdmissionRecovery : J (result string) :=
  job! j := get_run in
  job! wanted := jdb (recovery_needs_job decode_job order (jr_job j)) in
  match wanted with
  | Err e => jret (Err e)
  | Ok None => jret (Ok ""%string)
  | Ok (Some (cp, cpJob)) =>
      match client_Get with
      | None => jret (Err (Errorf "confirm existing Job admission: Kubernetes client is required"))
      | Some get =>
          job! live := exec (get (kj_Namespace cpJob) (kj_Name cpJob)) in
          jret (confirm_live decode_job order (jr_job j) cp live)
      end
  end.

(** Timers fire until the context is done. *)
Fixpoint wait_admitted (polls : nat) (job : JobTask) (expires : option Z) : J (option error) :=
  job! admitted := jdb (IsJobAdmitted (Q := Q) (Some (admission_owner job)) (jt_ExecutionKey job) [expires]) in
  match admitted with
  | Err e => jret (Some (Wrapf "wait for job admission" e))
  | Ok true => job! _ := jemit JvAdmitted in jret None
  | Ok false =>
      job! cause := job_cause in
      match cause with
      | Some cause => jret (Some (ctx_err cause))
      | None =>
          match polls with
          | S polls => wait_admitted polls job expires
          | O =>
              job! _ := jmodify (fun j => cancel_job (jr_stop j)
                (j <| jr_exec := cancel_ctx (Some (jr_stop j)) (jr_exec j) |>)) in
              job! j := get_run in
              jret (Some (ctx_err (default ContextCanceled (jr_cause j))))
          end
      end
  end.

(** Releasing the admission: [None] when there is nothing to release. *)
Definition release_admission (job : JobTask) (release : option (option Z)) : J (option error) :=
  match release with
  | None => jret None
  | Some expires =>
      job! r := jdb (ReleaseJobAdmission (Some (admission_owner job)) (jt_ExecutionKey job) "job execution returned" [expires]) in
      match r with
      | Err e => jret (Some e)
      | Ok _ => job! _ := jemit JvRelease in jret None
      end
  end.

Definition WaitForJobAdmission : J (option (option Z) * option error) :=
  job! j := get_run in
  let job := jr_job j in
  if str_empty (jt_RunToken job) && (jt_RunGeneration job =? 0) &&
     (str_empty (jt_OwnerStatus job) || (jt_OwnerStatus job =? StatusRunning)%string)
  then job! _ := jemit JvAdmitted in jret (None, None) else
  let record := (BuildJobInfoRecord job) <| job_SchedulingClass := jt_SchedulingClass job |> in
  match jobSchedulingResourceSnapshot encode_resources (jt_JobType job) (workload job) with
  | Err e => jret (None, Some (Wrapf "snapshot job admission resources" e))
  | Ok resources =>
      let record := record <| job_SchedulingResources := resources |> in
      job! confirmed := confirmJobAdmissionRecovery in
      match confirmed with
      | Err e =>
          if is_timeout e then jret (None, Some e) else
          job! cause := jdb (releaseLostJobAdmission (Q := Q) job (ErrJoin ErrInfrastructureStop e)) in
          jret (None, Some (match cause with Ok c => c | Err c => c end))
      | Ok uid =>
          job! queued := jdb (EnqueueJobForScheduling (Q := Q) (Some (admission_owner job)) (Some record) deadline [uid]) in
          match queued with
          | Err e => jret (None, Some (Wrapf "queue ready job" e))
          | Ok record =>
              job! err := wait_admitted (jr_polls j) job (job_SchedulingExpiresAt record) in
              jret (Some (job_SchedulingExpiresAt record), err)
          end
      end
  end.

(** ** An admitted job *)

(** The deferred end of [runAdmittedJob]: [recovered] is the panic's message,
    [cleaned] whether the body cleaned up. *)
Definition finish_job (ctl : JobController) (cleaned : bool) (recovered : option string)
    (resultErr : option error) : J (option error) :=
  job! stop := job_infrastructure_stop in
  if stop || is_err ErrInfrastructureStop resultErr then jret resultErr else
  job! _ := match recovered with
            | None => jret tt
            | Some message =>
                job! _ := (if cleaned then jret tt else job! _ := jemit JvClean in ctl_Clean ctl) in
                set_job (fun job => job <| jt_Status := StatusFailed |>
                                        <| jt_Error := ("job panic: " ++ message)%string |>)
            end in
  job! now := now_unix in
  job! _ := set_job (fun job => job <| jt_EndTime := now |>) in
  job! _ := ack in
  job! err := persist_or_stop (Some ctl) "persist terminal job state" in
  jret (join resultErr err).

(** The end of the body, after the verdict. *)
Definition complete_job (ctl : JobController) (cleaned : bool) : J (option error) :=
  job! j := get_run in
  job! _ := (if (jt_Status (jr_job j) =? StatusCompleted)%string then finalizeCompletedJob else jret tt) in
  job! j := get_run in
  if negb cleaned && jobStatusFailed (jt_Status (jr_job j))
  then job! _ := jemit JvClean in job! _ := ctl_Clean ctl in jret None
  else jret None.

(** What the job's own cancellation makes of it: whether it was cleaned up, and the
    error to return with. *)
Definition settle_cancelled (ctl : JobController) (runErr : option error) : J (bool * option error) :=
  job! owner := adoptCancelledWorkflowOwner in
  match owner with
  | Err e => jret (false, infrastructure e)
  | Ok false => jret (false, infrastructure ContextCanceled)
  | Ok true =>
      job! cause := job_cause in
      let cancelErr := match runErr with Some e => Some e | None => option_map ctx_err cause end in
      job! j := get_run in
      job! _ := set_job (fun job => ApplyJobError error_text job cancelErr (jr_reason j)) in
      job! now := now_unix in
      job! _ := set_job (fun job => job <| jt_Status := StatusCancelled |> <| jt_EndTime := now |>) in
      job! cleanupErr := cleanCancelledJob ctl in
      match cleanupErr with
      | Some e => jret (false, infrastructure e)
      | None => jret (true, None)
      end
  end.

(** The verdict on what [Run] returned: whether the job was cleaned up and, when the
    body returns here, its error. *)
Definition settle (ctl : JobController) (before : JobTask) (runErr : option error) : J (bool * option (option error)) :=
  job! stop := job_infrastructure_stop in
  job! lost :=
    (if stop || is_err ErrInfrastructureStop runErr || is_err ErrWorkflowOwnershipLost runErr then
       job! j := get_run in
       job! status := jdb (CurrentJobWorkflowOwnershipStatus (jr_job j)) in
       match status with
       | Ok status =>
           if (status =? StatusCancelled)%string
           then job! _ := set_job (fun job => job <| jt_OwnerStatus := StatusCancelled |>) in
                jret (Some ContextCanceled, None)
           else jret (runErr, Some None)
       | Err e => jret (runErr, Some (Some e))
       end
     else jret (runErr, None)) in
  match lost with
  | (runErr, Some ownershipErr) =>
      job! _ := set_job (fun job => job <| jt_Status := jt_Status before |> <| jt_Error := jt_Error before |>
                                        <| jt_EndTime := jt_EndTime before |>) in
      job! cause := job_cause in
      if is_err ErrInfrastructureStop cause then jret (false, Some cause)
      else jret (false, Some (join (Some ErrInfrastructureStop) (join runErr ownershipErr)))
  | (runErr, None) =>
      job! cause := job_cause in
      if is_err ContextCanceled runErr || is_err ContextCanceled (option_map ctx_err cause) then
        job! settled := settle_cancelled ctl runErr in
        match settled with
        | (cleaned, Some e) => jret (cleaned, Some (Some e))
        | (cleaned, None) => jret (cleaned, None)
        end
      else
        match runErr with
        | Some e =>
            job! _ := jemit JvClean in
            job! _ := ctl_Clean ctl in
            job! _ := set_job (fun job => ApplyJobError error_text job (Some e) (jt_Error job)) in
            job! _ := set_job (fun job =>
              if one_of [StatusFailed; StatusCancelled; StatusTimeout] (jt_Status job) then job
              else job <| jt_Status := StatusFailed |>) in
            jret (true, None)
        | None =>
            job! _ := set_job (fun job =>
              if one_of [StatusPrepare; StatusRunning] (jt_Status job) then job <| jt_Status := StatusCompleted |> else job) in
            jret (false, None)
        end
  end.

Definition execute_job (ctl : JobController) : J (option error) :=
  job! j := get_run in
  let before := jr_job j in
  job! _ := jemit JvRun in
  job! ran := ctl_Run ctl in
  match ran with
  | Panicked message => finish_job ctl false (Some message) None
  | Returned runErr =>
      job! verdict := settle ctl before runErr in
      match verdict with
      | (cleaned, Some resultErr) => finish_job ctl cleaned None resultErr
      | (cleaned, None) =>
          job! resultErr := complete_job ctl cleaned in
          finish_job ctl cleaned None resultErr
      end
  end.

(** A job whose application is gone. *)
Definition reject_job (ctl : JobController) (err : error) : J (option error) :=
  job! stop := job_infrastructure_stop in
  if stop then jret None else
  job! now := now_unix in
  job! _ := set_job (fun job => job <| jt_Status := StatusFailed |> <| jt_Error := error_text err |>
                                    <| jt_StartTime := now |> <| jt_EndTime := now |>) in
  job! _ := ack in
  persist_or_stop (Some ctl) "persist rejected job state".

Definition runAdmittedJob (ctl : JobController) : J (option error) :=
  job! j := get_run in
  let job := jr_job j in
  job! application :=
    (if jobRequiresApplicationWritePermission (jt_JobType job)
     then jdb (requireApplicationForWrite (jt_AppID job)) else jret (Ok tt)) in
  match application with
  | Err e => reject_job ctl e
  | Ok _ =>
      job! owned := jdb (WithJobInfoOwnership job (SyncComponentStatusOnJobStart job)) in
      match owned with
      | Err e => jret (infrastructure (Wrapf "verify workflow ownership before job execution" e))
      | Ok _ =>
          job! _ := jemit JvOwned in
          execute_job ctl
      end
  end.

(** ** runJob *)

(** What a failed admission makes of the job. *)
Definition refuse_admission (ctl : JobController) (admissionErr : error) : J (option error) :=
  job! suppressed := suppressTerminalJobPersistence in
  if suppressed then jret (infrastructure admissionErr) else
  job! j := get_run in
  job! status := jdb (CurrentJobWorkflowOwnershipStatus (jr_job j)) in
  match status with
  | Err ownershipErr => jret (infrastructure (ErrJoin admissionErr ownershipErr))
  | Ok status =>
      if (status =? StatusCancelled)%string then
        job! cause := job_cause in
        job! now := now_unix in
        job! _ := set_job (fun job =>
          let job := if str_empty (jt_OwnerStatus job) || (jt_OwnerStatus job =? StatusRunning)%string
                     then job <| jt_OwnerStatus := StatusCancelled |> else job in
          job <| jt_Status := StatusCancelled |>
              <| jt_Error := error_text (default ContextCanceled (option_map ctx_err cause)) |>
              <| jt_EndTime := now |>) in
        job! j := get_run in
        job! cleanErr :=
          (if IsInstantJobType (jt_JobType (jr_job j)) && negb (str_empty (jt_InternalInfo (jr_job j)))
           then cleanCancelledJob ctl else jret None) in
        match cleanErr with
        | Some e => jret (infrastructure e)
        | None => persistTerminalJobState (Some ctl)
        end
      else if is_timeout admissionErr && (status =? StatusRunning)%string then
        job! owned := jdb (WithJobInfoOwnership (jr_job j) (ret tt)) in
        match owned with
        | Err ownershipErr => jret (infrastructure (ErrJoin admissionErr ownershipErr))
        | Ok _ =>
            job! stop := job_infrastructure_stop in
            if stop then job_cause else
            job! now := now_unix in
            job! _ := set_job (fun job => ApplyJobError error_text job (status_part admissionErr) "") in
            job! _ := set_job (fun job => job <| jt_EndTime := now |>) in
            job! _ := jemit JvClean in
            job! _ := ctl_Clean ctl in
            job! _ := ack in
            persist_or_stop (Some ctl) "persist expired job state"
        end
      else jret (infrastructure admissionErr)
  end.

(** The deferred release of the admission. *)
Definition release_after (job : JobTask) (release : option (option Z)) (resultErr : option error) : J (option error) :=
  job! j := get_run in
  if is_err ErrInfrastructureStop resultErr && (jt_Status (jr_job j) =? StatusCancelled)%string &&
     RecoverableKubernetesJobType (jt_JobType (jr_job j))
  then jret resultErr else
  job! err := release_admission job release in
  match err with
  | Some e => jret (join resultErr (infrastructure e))
  | None => jret resultErr
  end.

Definition admit_and_run (ctl : JobController) : J (option error) :=
  job! stop := job_infrastructure_stop in
  if stop then job_cause else
  job! j := get_run in
  job! admission := WaitForJobAdmission in
  let '(release, admissionErr) := admission in
  job! resultErr := match admissionErr with
                    | Some e => refuse_admission ctl e
                    | None => runAdmittedJob ctl
                    end in
  release_after (jr_job j) release resultErr.

(** The cancellation watcher of a job of a task. *)
Definition watch_job (taskID : string) : J (option error) :=
  if str_empty taskID then jret None else
  match watch taskID with
  | Err e => jret (Some e)
  | Ok w =>
      job! _ := jmodify (fun j =>
        let j := j <| jr_watched := true |> <| jr_reason := cw_reason w |> in
        if cw_cancelled w then cancel_job ContextCanceled j else j) in
      jret None
  end.

Definition skip_job : J (option error) :=
  job! now := now_unix in
  job! _ := set_job (fun job => job <| jt_Error := ""%string |>
    <| jt_StartTime := if jt_StartTime job =? 0 then now else jt_StartTime job |>
    <| jt_EndTime := if jt_EndTime job =? 0 then now else jt_EndTime job |>) in
  job! _ := ack in
  job! j := get_run in
  match initJobCtl (jr_job j) with
  | None => jret None
  | Some ctl => persist_or_stop (Some ctl) "persist skipped job state"
  end.

Definition runJob (taskID : string) : J (option error) :=
  job! j := get_run in
  if jobExecutionAlreadySettled (jr_job j) then jret None
  else if (jt_Status (jr_job j) =? StatusSkipped)%string then skip_job else
  let jobCtl := initJobCtl (jr_job j) in
  job! now := now_unix in
  job! _ := set_job (fun job => job <| jt_Status := StatusPrepare |> <| jt_Error := ""%string |> <| jt_StartTime := now |>) in
  job! _ := ack in
  job! cause := job_cause in
  match cause with
  | Some cause =>
      job! stop := job_infrastructure_stop in
      if stop then jret None else
      job! now := now_unix in
      job! _ := set_job (fun job => job <| jt_Status := StatusCancelled |> <| jt_Error := error_text (ctx_err cause) |>
                                        <| jt_EndTime := now |>) in
      persist_or_stop jobCtl "persist cancelled job state"
  | None =>
      match jobCtl with
      | None =>
          job! now := now_unix in
          job! _ := set_job (fun job => job <| jt_Status := StatusFailed |>
            <| jt_Error := ("failed to initialize job controller for job: " ++ jt_Name job)%string |>
            <| jt_EndTime := now |>) in
          job! _ := ack in
          jret None
      | Some ctl =>
          job! watcher := watch_job taskID in
          match watcher with
          | Some e =>
              job! stop := job_infrastructure_stop in
              if stop then jret None else
              job! now := now_unix in
              job! _ := set_job (fun job => job <| jt_Status := StatusFailed |>
                <| jt_Error := ("activate cancellation watcher: " ++ error_text e)%string |> <| jt_EndTime := now |>) in
              job! _ := ack in
              persist_or_stop (Some ctl) "persist cancellation watcher failure"
          | None => admit_and_run ctl
          end
      end
  end.

(** ** evaluation_recovery.go *)

(** [InfrastructureStopCause] of the caller's context. *)
Definition InfrastructureStopCause : C (option error) :=
  do! stop := IsInfrastructureStop in if stop : bool then ctx_cause else cret None.

(** [recoveries] are the calls of the recovery after each run; it is done when none is
    left or one says so. *)
Fixpoint recover_rounds (recoveries : list (J (result bool))) (taskID : string) : J (option error) :=
  job! err := runJob taskID in
  match err with
  | Some e => jret (Some e)
  | None =>
      job! cause := exec ctx_cause in
      match cause with
      | Some _ => exec InfrastructureStopCause
      | None =>
          match recoveries with
          | [] => jret None
          | recover :: recoveries =>
              job! again := recover in
              match again with
              | Err e => jret (Some e)
              | Ok true => recover_rounds recoveries taskID
              | Ok false => jret None
              end
          end
      end
  end.

(** [recover] is the recovery of the context and its first call, if there is one. *)
Definition runJobWithEvaluationRecovery (recover : option (J (result bool) * list (J (result bool))))
    (taskID : string) : J (option error) :=
  job! j := get_run in
  match recover with
  | Some (preflight, recoveries) =>
      if negb (jt_JobType (jr_job j) =? JobEval)%string then runJob taskID else
      job! r := preflight in
      match r with
      | Err e => jret (Some e)
      | Ok _ => recover_rounds recoveries taskID
      end
  | None => runJob taskID
  end.
End RunJob.

(** ** RunJobs *)

(** What surrounds the run of one job. *)
Record Surroundings := {
  su_watch : list (option string);
  su_polls : nat;
  su_stop : error;
  su_renewals : list (nat * bool);
}.

(** One job inside the workflow's run: its context starts as the run's. *)
Definition in_run {A} (s : Surroundings) (job : JobTask) (m : J A) : C (A * JobTask) := fun e =>
  let '(a, j) := m (Build_JobRun e (ex_cause e) false (su_watch s) "" (su_polls s) (su_stop s) (su_renewals s) job []) in
  ((a, jr_job j), jr_exec j).

Section RunJobs.
(** [runJobWithEvaluationRecovery] for a position in the list, the authorization of
    the execution scope, and the pool of several workers. *)
Variable run_job : nat -> C unit -> JobTask -> C (option error * JobTask).
Variable authorizeJobs : list JobTask -> C (option error).
Variable pool_run : list JobTask -> Z -> bool -> C unit -> C (option error * list JobTask).

(** Runs [rest] after the jobs [ended]. *)
Fixpoint run_sequence (stopOnFailure : bool) (Ack : C unit) (ended rest : list JobTask)
    : C (option error * list JobTask) :=
  match rest with
  | [] => cret (None, ended)
  | job :: rest =>
      do! cause := ctx_cause in
      match cause with
      | Some _ => do! stop := InfrastructureStopCause in cret (stop, (ended ++ job :: rest)%list)
      | None =>
          do! ran := run_job (length ended) Ack job in
          let '(err, job) := ran in
          match err with
          | Some e => cret (Some e, (ended ++ job :: rest)%list)
          | None =>
              do! cause := ctx_cause in
              match cause with
              | Some _ => do! stop := InfrastructureStopCause in cret (stop, (ended ++ job :: rest)%list)
              | None =>
                  if jobStatusFailed (jt_Status job) && stopOnFailure
                  then cret (None, (ended ++ job :: rest)%list)
                  else run_sequence stopOnFailure Ack (ended ++ [job])%list rest
              end
          end
      end
  end.

Definition RunJobs (jobs : list JobTask) (concurrency : Z) (stopOnFailure : bool) (Ack : C unit)
    : C (option error * list JobTask) :=
  match jobs with
  | [] => cret (None, [])
  | _ =>
      do! denied := authorizeJobs jobs in
      match denied with
      | Some e => cret (Some e, jobs)
      | None => if concurrency =? 1 then run_sequence stopOnFailure Ack [] jobs
                else pool_run jobs concurrency stopOnFailure Ack
      end
  end.
End RunJobs.
