(* ===== verification/RunJobSpec.v ===== *)
(** What the run of a job does, in which order: theorems about [RunJob.v].

    Controllers are known by [JobControllerLaws]: a call of one may change the job and
    the world and consume what surrounds it, but the events of the run are the
    runner's, a cancelled context stays cancelled, and the workflow's own state is only
    reached through the acknowledgement. *)

From S2P Require Import Prelude GoStrings Config Json Quantity Policy Model Store Lease Budget.
From S2P Require Import Signals Scheduler PodResources Retry Cleanup JobInfos Components Controller ControllerSpec.
From S2P Require Import JobExec RunJob.

(** ** Programs of the job runner *)

(** From a state that meets [P], [m] ends in a value and a state that meet [Q]. *)
Definition jends {A} (P : JobRun -> Prop) (m : J A) (Q : A -> JobRun -> Prop) : Prop :=
  forall j, P j -> Q (fst (m j)) (snd (m j)).

Lemma jends_ret {A} P (a : A) (Q : A -> JobRun -> Prop) : (forall j, P j -> Q a j) -> jends P (jret a) Q.
Proof. intros H j. apply H. Qed.

Lemma jends_bind {A B} P (m : J A) (k : A -> J B) Mid (Q : B -> JobRun -> Prop) :
  jends P m Mid -> (forall a, jends (Mid a) (k a) Q) -> jends P (jbind m k) Q.
Proof.
  intros Hm Hk j HP. unfold jbind. specialize (Hm j HP). destruct (m j) as [a j']. apply Hk, Hm.
Qed.

Lemma jends_weaken {A} (P P' : JobRun -> Prop) (m : J A) (Q Q' : A -> JobRun -> Prop) :
  (forall j, P j -> P' j) -> (forall a j, Q' a j -> Q a j) -> jends P' m Q' -> jends P m Q.
Proof. intros H1 H2 H j HP. apply H2, H, H1, HP. Qed.

Lemma jends_if {A} P (c : bool) (m n : J A) Q :
  (c = true -> jends P m Q) -> (c = false -> jends P n Q) -> jends P (if c then m else n) Q.
Proof. destruct c; auto. Qed.

Lemma jends_get P (Q : JobRun -> JobRun -> Prop) : (forall j, P j -> Q j j) -> jends P get_run Q.
Proof. intros H j. apply H. Qed.

Lemma jends_modify P f (Q : unit -> JobRun -> Prop) : (forall j, P j -> Q tt (f j)) -> jends P (jmodify f) Q.
Proof. intros H j. apply H. Qed.

(** ** Silent programs

    [silent]: no event of the run, and a cause stays. *)

Record silent_step (j j' : JobRun) : Prop := {
  silent_log : jr_log j' = jr_log j;
  silent_cause x : jr_cause j = Some x -> jr_cause j' = Some x;
}.

#[export] Instance silent_step_preorder : PreOrder silent_step.
Proof. split; [by split|]. intros a b c [] []. split; [congruence|auto]. Qed.

(** The steps that also leave the job. *)
Record job_kept (j j' : JobRun) : Prop := {
  kept_silent : silent_step j j';
  kept_job : jr_job j' = jr_job j;
}.

#[export] Instance job_kept_preorder : PreOrder job_kept.
Proof.
  split; [intros j; split; [reflexivity|done]|]. intros a b c [] []. split; [by etrans|congruence].
Qed.

Definition jkeeps {A} (R : relation JobRun) (m : J A) : Prop := forall j, R j (snd (m j)).

Section JKeeps.
Context (R : relation JobRun) `{!PreOrder R}.

Lemma jkeeps_ret {A} (a : A) : jkeeps R (jret a).
Proof. intros j. reflexivity. Qed.

Lemma jkeeps_get : jkeeps R get_run.
Proof. intros j. reflexivity. Qed.

Lemma jkeeps_bind {A B} (m : J A) (k : A -> J B) : jkeeps R m -> (forall a, jkeeps R (k a)) -> jkeeps R (jbind m k).
Proof.
  intros Hm Hk j. unfold jbind. specialize (Hm j). destruct (m j) as [a j']. cbn in Hm. etrans; [exact Hm|apply Hk].
Qed.

Lemma jkeeps_if {A} (c : bool) (m n : J A) : jkeeps R m -> jkeeps R n -> jkeeps R (if c then m else n).
Proof. by destruct c. Qed.

Lemma jkeeps_modify f : (forall j, R j (f j)) -> jkeeps R (jmodify f).
Proof. intros H j. apply H. Qed.
End JKeeps.

Lemma exec_kept {A} (m : C A) : jkeeps job_kept (exec m).
Proof. intros j. unfold exec. destruct (m (jr_exec j)) as [a e]. by repeat split. Qed.

Lemma exec_value {A} (m : C A) j : fst (exec m j) = fst (m (jr_exec j)).
Proof. unfold exec. by destruct (m (jr_exec j)). Qed.

Lemma cancel_job_silent cause j : job_kept j (cancel_job cause j).
Proof. unfold cancel_job. destruct (jr_cause j) eqn:E; [reflexivity|]. split; [split; [done|congruence]|done]. Qed.

Lemma cause_kept : jkeeps job_kept job_cause.
Proof.
  intros j. unfold job_cause. destruct (ctx_cause (jr_exec j)) as [above e]. cbv zeta.
  set (j1 := j <| jr_exec := e |>). assert (K1 : job_kept j j1) by by repeat split.
  set (j2 := match above with Some cause => cancel_job cause j1 | None => j1 end).
  assert (K2 : job_kept j j2) by (etrans; [exact K1|]; subst j2; destruct above; [apply cancel_job_silent|reflexivity]).
  clearbody j2. clear K1 j1. destruct (jr_watched j2); [|exact K2]. destruct (jr_watch j2) as [|[reason|] r]; [exact K2|..].
  - etrans; [exact K2|]. cbn [snd]. etrans; [|apply cancel_job_silent]. by repeat split.
  - etrans; [exact K2|]. by repeat split.
Qed.

(** What a look returns is the cause from then on. *)
Lemma cause_value j : fst (job_cause j) = jr_cause (snd (job_cause j)).
Proof. unfold job_cause. by destruct (ctx_cause (jr_exec j)). Qed.

(** The steps that leave the job's verdict: its status and its durable identity. *)
Record quiet_step (j j' : JobRun) : Prop := {
  quiet_silent : silent_step j j';
  quiet_status : jt_Status (jr_job j') = jt_Status (jr_job j);
  quiet_token : jt_RunToken (jr_job j') = jt_RunToken (jr_job j);
  quiet_key : jt_ExecutionKey (jr_job j') = jt_ExecutionKey (jr_job j);
}.

#[export] Instance quiet_step_preorder : PreOrder quiet_step.
Proof.
  split; [by split|]. intros a b c [] []. split; [by etrans|congruence..].
Qed.

Lemma kept_quiet j j' : job_kept j j' -> quiet_step j j'.
Proof. intros [S E]. split; [done|by rewrite E..]. Qed.

Lemma jkeeps_weaken {A} (R R' : relation JobRun) (m : J A) : (forall j j', R j j' -> R' j j') -> jkeeps R m -> jkeeps R' m.
Proof. intros H K j. apply H, K. Qed.

Lemma kept_quiet_program {A} (m : J A) : jkeeps job_kept m -> jkeeps quiet_step m.
Proof. apply jkeeps_weaken, kept_quiet. Qed.

Lemma quiet_silent_program {A} (m : J A) : jkeeps quiet_step m -> jkeeps silent_step m.
Proof. apply jkeeps_weaken, quiet_silent. Qed.

Lemma set_job_silent f : jkeeps silent_step (set_job f).
Proof. intros j. by split. Qed.

Lemma set_job_quiet f :
  (forall job, jt_Status (f job) = jt_Status job /\ jt_RunToken (f job) = jt_RunToken job /\
     jt_ExecutionKey (f job) = jt_ExecutionKey job) -> jkeeps quiet_step (set_job f).
Proof. intros H j. destruct (H (jr_job j)) as (A & B & C). by split; [apply set_job_silent|..]. Qed.

Lemma now_kept : jkeeps job_kept now_unix.
Proof. intros j. reflexivity. Qed.

Lemma renewals_kept : jkeeps job_kept next_renewals.
Proof. intros j. unfold next_renewals. destruct (jr_renewals j); by repeat split. Qed.

Create HintDb jobs.
#[export] Hint Resolve exec_kept cause_kept now_kept renewals_kept kept_quiet_program quiet_silent_program
  set_job_silent : jobs.

(** Walk through a program that keeps a preorder. *)
Ltac jkeeps_tac :=
  repeat match goal with
  | |- forall _, _ => intros ?
  | |- jkeeps _ (jret _) => apply jkeeps_ret; apply _
  | |- jkeeps _ get_run => apply jkeeps_get; apply _
  | |- jkeeps _ (jbind _ _) => apply jkeeps_bind; [apply _| |intros ?]
  | |- jkeeps _ (jdb _) => unfold jdb
  | |- jkeeps _ (match ?x with _ => _ end) => destruct x
  | |- jkeeps _ _ => solve [eauto with jobs]
  end.

Lemma stop_kept : jkeeps job_kept job_infrastructure_stop.
Proof. unfold job_infrastructure_stop. jkeeps_tac. Qed.
#[export] Hint Resolve stop_kept : jobs.

Lemma suppress_kept : jkeeps job_kept suppressTerminalJobPersistence.
Proof. unfold suppressTerminalJobPersistence. jkeeps_tac. Qed.
#[export] Hint Resolve suppress_kept : jobs.

Lemma renew_kept : jkeeps job_kept renewCancelledJobCleanupLease.
Proof. unfold renewCancelledJobCleanupLease. jkeeps_tac. Qed.
#[export] Hint Resolve renew_kept : jobs.

Lemma renew_meanwhile_kept n : jkeeps job_kept (renew_meanwhile n).
Proof. induction n as [|n IH]; cbn [renew_meanwhile]; jkeeps_tac. Qed.
#[export] Hint Resolve renew_meanwhile_kept : jobs.

Lemma adopt_quiet : jkeeps quiet_step adoptCancelledWorkflowOwner.
Proof. unfold adoptCancelledWorkflowOwner. jkeeps_tac. by apply set_job_quiet. Qed.
#[export] Hint Resolve adopt_quiet : jobs.

(** ** Phases of a run

    What has happened so far; [ran] tells whether the controller ran, and the last two
    what status was saved. *)

Inductive Phase :=
  | Waiting | Granted | Owned | Ran
  | Cleaned (ran : bool)
  | Saved (ran : bool) (status : string)
  | Released (ran : bool) (status : option string).

(** A state worth recording: the execution is not under way. *)
Definition settled_status (status : string) : bool := negb (one_of [StatusPrepare; StatusRunning] status).

(** The phases of a job that has not been recorded. *)
Definition open_phase (p : Phase) : option bool :=
  match p with
  | Waiting | Granted => Some false
  | Ran => Some true
  | Cleaned ran => Some ran
  | _ => None
  end.

Definition has_run (p : Phase) : bool :=
  match p with
  | Ran | Cleaned true | Saved true _ | Released true _ => true
  | _ => false
  end.

Definition saved_status (p : Phase) : option string :=
  match p with Saved _ s => Some s | Released _ s => s | _ => None end.

(** The order of events: a job is admitted, then owned, then run, once each; it is
    cleaned up at most once and after that recorded at most once, in a settled state;
    releasing the admission comes last.  A job that is refused may be cleaned up (a
    live attempt of an earlier run) and recorded, but never runs. *)
Definition advance (p : Phase) (ev : JobEvent) : option Phase :=
  match ev with
  | JvAck _ => match open_phase p with Some _ => Some p | None => None end
  | JvAdmitted => match p with Waiting => Some Granted | _ => None end
  | JvOwned => match p with Granted => Some Owned | _ => None end
  | JvRun => match p with Owned => Some Ran | _ => None end
  | JvClean | JvCleanCancelled =>
      match p with Waiting => Some (Cleaned false) | Ran => Some (Cleaned true) | _ => None end
  | JvSave job =>
      match open_phase p with
      | Some ran => if settled_status (jt_Status job) then Some (Saved ran (jt_Status job)) else None
      | None => None
      end
  | JvRelease => match p with Released _ _ => None | _ => Some (Released (has_run p) (saved_status p)) end
  end.

Fixpoint follows (p : Phase) (evs : list JobEvent) : option Phase :=
  match evs with
  | [] => Some p
  | ev :: evs => match advance p ev with Some p => follows p evs | None => None end
  end.

Lemma follows_app p evs evs' : follows p (evs ++ evs') = match follows p evs with Some q => follows q evs' | None => None end.
Proof. revert p. induction evs as [|ev evs IH]; intros p; [done|]. cbn. by destruct (advance p ev). Qed.

(** ** Where a run is *)

Section Phases.
Context (L : list JobEvent).

(** In phase [p], with the job's status, token and execution key. *)
Record here (p : Phase) (s t k : string) (j : JobRun) : Prop := {
  here_log : exists evs, jr_log j = (L ++ evs)%list /\ follows Waiting evs = Some p;
  here_status : jt_Status (jr_job j) = s;
  here_token : jt_RunToken (jr_job j) = t;
  here_key : jt_ExecutionKey (jr_job j) = k;
}.

(** The same whatever the status is. *)
Definition phase (p : Phase) (j : JobRun) : Prop := exists evs, jr_log j = (L ++ evs)%list /\ follows Waiting evs = Some p.

(** The run must not write any more. *)
Definition stopping (j : JobRun) : Prop := exists cause, jr_cause j = Some cause /\
  (errors_is ErrInfrastructureStop cause || errors_is ErrWorkflowLeaseRenewalFailed cause ||
   errors_is ErrWorkflowOwnershipLost cause) = true.

(** A job without a durable identity. *)
Definition anonymous (job : JobTask) : Prop :=
  jt_RunToken job = ""%string /\ jt_ExecutionKey job = ""%string /\ jt_Status job <> StatusDistributed.

Lemma here_phase p s t k j : here p s t k j -> phase p j.
Proof. by intros []. Qed.

Lemma phase_here p j : phase p j -> here p (jt_Status (jr_job j)) (jt_RunToken (jr_job j)) (jt_ExecutionKey (jr_job j)) j.
Proof. by split. Qed.

Lemma phase_silent p j j' : silent_step j j' -> phase p j -> phase p j'.
Proof. intros [E _]. unfold phase. by rewrite E. Qed.

Lemma here_quiet p s t k j j' : quiet_step j j' -> here p s t k j -> here p s t k j'.
Proof.
  intros [S E1 E2 E3] [P <- <- <-]. split; [|done..]. by apply (phase_silent _ _ _ S).
Qed.

Lemma stopping_silent j j' : silent_step j j' -> stopping j -> stopping j'.
Proof. intros [_ M] (c & E & X). exists c. split; [by apply M|done]. Qed.

Lemma jends_quiet {A} (m : J A) p s t k : jkeeps quiet_step m -> jends (here p s t k) m (fun _ => here p s t k).
Proof. intros K j Hj. exact (here_quiet _ _ _ _ _ _ (K j) Hj). Qed.

Lemma jends_silent {A} (m : J A) p : jkeeps silent_step m -> jends (phase p) m (fun _ => phase p).
Proof. intros K j Hj. exact (phase_silent _ _ _ (K j) Hj). Qed.

Lemma jends_emit ev p q s t k : advance p ev = Some q -> jends (here p s t k) (jemit ev) (fun _ => here q s t k).
Proof.
  intros Ad j [(evs & E & F) S T K]. cbn. split; [|done..]. exists (evs ++ [ev])%list. cbn. rewrite E, <- app_assoc.
  split; [done|]. rewrite follows_app, F. cbn. by rewrite Ad.
Qed.

Lemma jends_set f p s t k s' :
  (forall job, jt_Status job = s -> jt_Status (f job) = s' /\ jt_RunToken (f job) = jt_RunToken job /\
     jt_ExecutionKey (f job) = jt_ExecutionKey job) ->
  jends (here p s t k) (set_job f) (fun _ => here p s' t k).
Proof. intros H j [P S T K]. destruct (H _ S) as (A & B & C). split; cbn; [done|done|congruence..]. Qed.

(** From any status. *)
Lemma jends_here {A} (m : J A) p (Q : A -> JobRun -> Prop) :
  (forall s t k, jends (here p s t k) m Q) -> jends (phase p) m Q.
Proof. intros H j Hj. apply (H _ _ _ j (phase_here _ _ Hj)). Qed.

(** A look at whether the run was stopped. *)
Lemma jends_stop p s t k : jends (here p s t k) job_infrastructure_stop
  (fun b j => here p s t k j /\ (b = true -> is_err ErrInfrastructureStop (jr_cause j) = true)).
Proof.
  intros j Hj. split; [apply (here_quiet _ _ _ _ _ _ (kept_quiet_program _ stop_kept j) Hj)|].
  unfold job_infrastructure_stop, jbind. pose proof (cause_value j) as E. destruct (job_cause j) as [c j']. cbn in *. by subst.
Qed.

Lemma jends_suppress p s t k : jends (here p s t k) suppressTerminalJobPersistence
  (fun b j => here p s t k j /\ (b = true -> stopping j)).
Proof.
  intros j Hj. split; [apply (here_quiet _ _ _ _ _ _ (kept_quiet_program _ suppress_kept j) Hj)|].
  unfold suppressTerminalJobPersistence, job_infrastructure_stop, jbind.
  pose proof (cause_value j) as E1. destruct (job_cause j) as [c1 j1]. cbn in E1. subst c1.
  pose proof (cause_value j1) as E2. destruct (cause_kept j1) as [[_ M] _]. destruct (job_cause j1) as [c2 j2].
  cbn [fst snd] in *. cbn. subst c2. destruct (jr_cause j1) as [c|] eqn:Ec.
  - rewrite (M c eq_refl). cbn. intros X. exists c. split; [by apply M|exact X].
  - rewrite !orb_false_r. destruct (jr_cause j2) as [c|] eqn:E; [|done]. cbn. intros X. exists c.
    split; [done|]. by rewrite X.
Qed.
End Phases.

(** ** Controllers *)

Record JobControllerLaws (ctl : JobController) : Prop := {
  run_silent : jkeeps silent_step (ctl_Run ctl);
  clean_quiet : jkeeps quiet_step (ctl_Clean ctl);
  save_quiet : jkeeps quiet_step (ctl_SaveInfo ctl);
  clean_cancelled_quiet m : ctl_CleanCancelled ctl = Some m -> jkeeps quiet_step m;
}.

Section Protocol.
Context {Q : Type} `{QuantityOps Q} `{KubernetesJson Q}.
Variable decode_job : Json -> option (Job Q).
Variable order : JobRetryPolicy Q -> list (string * Z).
Variable scope : option string.
Variable error_text : error -> string.
Variable workload : JobTask -> option (Job Q).
Variable encode_resources : gmap string Q -> result string.
Variable deadline : option Z.
Variable client_Get : option (string -> string -> C (result (Job Q))).
Variable initJobCtl : JobTask -> option JobController.
Variable finalizeCompletedJob : J unit.
Variable watch : string -> result CancelWatcher.
Variable Ack : C unit.
Context (L : list JobEvent).
Hypothesis Lawful : forall job ctl, initJobCtl job = Some ctl -> JobControllerLaws ctl.
Hypothesis Finalize : jkeeps quiet_step finalizeCompletedJob.

Abbreviation here := (here L).
Abbreviation phase := (phase L).

Lemma jends_ack p ran s t k : open_phase p = Some ran -> jends (here p s t k) (ack Ack) (fun _ => here p s t k).
Proof.
  intros O. unfold ack. apply jends_bind with (Mid := fun _ => here p s t k); [by apply jends_get|]. intros j.
  eapply jends_bind; [apply (jends_emit L _ p p); cbn; by rewrite O|]. intros ?.
  apply jends_quiet, kept_quiet_program, exec_kept.
Qed.

(** Recording a settled state. *)
Definition recorded (p : Phase) (ran : bool) (s t k : string) (done : option error -> JobRun -> Prop)
    (err : option error) (j : JobRun) : Prop :=
  exists q, (q = p \/ q = Saved ran s) /\ here q s t k j /\ (done err j -> q = Saved ran s \/ stopping j \/ anonymous (jr_job j)).

Lemma recorded_same p ran s t k (done : option error -> JobRun -> Prop) err j :
  here p s t k j -> (done err j -> stopping j) -> recorded p ran s t k done err j.
Proof. intros Hj X. exists p. split; [by left|]. split; [done|]. intros D. right. left. by apply X. Qed.

Lemma jends_persist ctl p ran s t k :
  (forall c, ctl = Some c -> JobControllerLaws c) -> open_phase p = Some ran -> settled_status s = true ->
  jends (here p s t k) (persistTerminalJobState ctl) (recorded p ran s t k (fun err _ => err = None)).
Proof.
  intros La O St. unfold persistTerminalJobState. destruct ctl as [ctl|]; [|apply jends_ret; intros j Hj; by apply recorded_same].
  specialize (La _ eq_refl). eapply jends_bind; [apply jends_suppress|]. intros b.
  apply jends_if; intros ->; [apply jends_ret; intros j [Hj X]; apply recorded_same; auto|].
  apply jends_bind with (Mid := fun j0 j => here p s t k j /\ jt_Status (jr_job j0) = s).
  { apply jends_get. intros j [Hj _]. split; [exact Hj|apply Hj]. }
  intros j0. eapply jends_bind with (Mid := fun _ j => here p s t k j /\ jt_Status (jr_job j0) = s).
  { intros j [Hj E]. split; [|exact E]. apply (here_quiet _ _ _ _ _ _ _ (save_quiet _ La j) Hj). }
  intros [e|]; [apply jends_ret; intros j [Hj _]; by apply recorded_same|].
  apply jends_bind with (Mid := fun _ j => here p s t k j /\ jt_Status (jr_job j0) = s); [by apply jends_get|]. intros j1.
  eapply jends_bind with (Mid := fun _ j => here p s t k j /\ jt_Status (jr_job j0) = s).
  { intros j [Hj E]. split; [|exact E]. apply (here_quiet _ _ _ _ _ _ _ (kept_quiet_program _ (exec_kept _) j) Hj). }
  assert (X : jends (fun j => here p s t k j /\ jt_Status (jr_job j0) = s) (job! _ := jemit (JvSave (jr_job j0)) in jret None)
    (recorded p ran s t k (fun err _ => err = None))).
  { intros j [Hj E]. exists (Saved ran s). split; [by right|]. split; [|by left].
    refine (jends_emit L (JvSave (jr_job j0)) p (Saved ran s) s t k _ j Hj). cbn. by rewrite O, E, St. }
  intros [[]|e]; [exact X|]. apply jends_if; intros _; [exact X|]. apply jends_ret. intros j [Hj _]. by apply recorded_same.
Qed.

Lemma failure_stops job operation err :
  is_err ErrInfrastructureStop (terminalJobPersistenceFailure job operation err) = false ->
  err = None \/ anonymous job.
Proof.
  unfold terminalJobPersistenceFailure. destruct err as [e|]; [|by left].
  destruct (negb _ && _ && _) eqn:A; [|cbn; done]. intros _. right.
  apply andb_true_iff in A as [A K]. apply andb_true_iff in A as [D T]. apply str_empty_true in K, T.
  apply negb_true_iff, String.eqb_neq in D. by split.
Qed.

(** Without an infrastructure stop the state was recorded or need not be. *)
Lemma jends_persist_or_stop ctl operation p ran s t k :
  (forall c, ctl = Some c -> JobControllerLaws c) -> open_phase p = Some ran -> settled_status s = true ->
  jends (here p s t k) (persist_or_stop ctl operation)
    (recorded p ran s t k (fun err _ => is_err ErrInfrastructureStop err = false)).
Proof.
  intros La O St. unfold persist_or_stop. eapply jends_bind; [by apply (jends_persist ctl p ran)|]. intros err.
  apply jends_bind with (Mid := fun j0 j => j0 = j /\ recorded p ran s t k (fun err _ => err = None) err j);
    [by apply jends_get|].
  intros j0. apply jends_ret. intros j [-> (q & Hq & Hj & X)]. exists q. split; [done|]. split; [done|].
  intros [E|A]%failure_stops; [by apply X|auto].
Qed.

(** What a run that did not report an infrastructure stop has settled. *)
Definition settled (s : string) (saved : option string) (j : JobRun) : Prop :=
  stopping j \/ settled_status s = true /\ (saved = Some s \/ anonymous (jr_job j)).

(** How a run may end, up to the release of the admission. *)
Definition ended (err : option error) (j : JobRun) : Prop :=
  exists q s t k, here q s t k j /\ (forall r o, q <> Released r o) /\
    (has_run q = true -> is_err ErrInfrastructureStop err = false -> settled s (saved_status q) j).

Lemma recorded_ended p ran s t k err j : open_phase p = Some ran -> settled_status s = true ->
  recorded p ran s t k (fun err _ => is_err ErrInfrastructureStop err = false) err j -> ended err j.
Proof.
  intros O St (q & Hq & Hj & X). exists q, s, t, k. split; [done|].
  split; [intros r o ->; destruct Hq as [<-|]; done|].
  intros _ E. destruct (X E) as [->|[Y|Y]]; [by right; split; [|left]|by left|by right; split; [|right]].
Qed.

(** A run that has not started its controller. *)
Lemma refused_ended p err j : phase p j -> has_run p = false -> (forall r o, p <> Released r o) -> ended err j.
Proof.
  intros Hj R N. exists p, (jt_Status (jr_job j)), (jt_RunToken (jr_job j)), (jt_ExecutionKey (jr_job j)).
  split; [by apply phase_here|]. split; [done|]. congruence.
Qed.

(** A run that ends in an infrastructure stop. *)
Lemma stopped_ended p err j : phase p j -> (forall r o, p <> Released r o) ->
  is_err ErrInfrastructureStop err = true \/ stopping j -> ended err j.
Proof.
  intros Hj N E. exists p, (jt_Status (jr_job j)), (jt_RunToken (jr_job j)), (jt_ExecutionKey (jr_job j)).
  split; [by apply phase_here|]. split; [done|]. intros _ F. destruct E as [E|E]; [congruence|by left].
Qed.

Lemma infrastructure_is e : is_err ErrInfrastructureStop (infrastructure e) = true.
Proof. reflexivity. Qed.

Lemma cause_stopping j : is_err ErrInfrastructureStop (jr_cause j) = true -> stopping j.
Proof. destruct (jr_cause j) as [c|] eqn:E; [|done]. cbn. intros X. exists c. by rewrite X. Qed.

Lemma join_is target a b : is_err target (join a b) = false -> target <> ErrNilEntity ->
  (forall x y, ErrJoin x y <> target) -> is_err target a = false /\ is_err target b = false.
Proof.
  intros E _ N. destruct a as [a|], b as [b|]; try done. cbn in E. apply orb_false_iff in E as [_ E]. by apply orb_false_iff in E.
Qed.

(** ** The end of an execution *)

Definition running_phase (cleaned : bool) : Phase := if cleaned then Cleaned true else Ran.

Lemma jends_clean ctl p q s t k : JobControllerLaws ctl -> advance p JvClean = Some q ->
  jends (here p s t k) (job! _ := jemit JvClean in ctl_Clean ctl) (fun _ => here q s t k).
Proof.
  intros La Ad. eapply jends_bind; [by apply jends_emit|]. intros ?. apply jends_quiet, clean_quiet, La.
Qed.

Lemma jends_clean_then {A} ctl p q s t k (m : J A) R : JobControllerLaws ctl -> advance p JvClean = Some q ->
  jends (here q s t k) m R -> jends (here p s t k) (job! _ := jemit JvClean in job! _ := ctl_Clean ctl in m) R.
Proof.
  intros La Ad Hm. eapply jends_bind; [by apply jends_emit|]. intros ?.
  eapply jends_bind; [apply jends_quiet, clean_quiet, La|]. by intros ?.
Qed.

Lemma jends_clean_outcome ctl p q s t k : JobControllerLaws ctl ->
  advance p JvClean = Some q -> advance p JvCleanCancelled = Some q ->
  jends (here p s t k) (clean_outcome ctl) (fun _ => here q s t k).
Proof.
  intros La A1 A2. unfold clean_outcome. destruct (ctl_CleanCancelled ctl) as [m|] eqn:E.
  - eapply jends_bind; [by apply jends_emit|]. intros ?. by apply jends_quiet, (clean_cancelled_quiet _ La).
  - apply (jends_clean_then _ _ _ _ _ _ _ _ La A1). by apply jends_ret.
Qed.

(** Cleaning up a cancelled execution, which fails early or late. *)
Lemma jends_clean_cancelled ctl p q s t k : JobControllerLaws ctl ->
  advance p JvClean = Some q -> advance p JvCleanCancelled = Some q ->
  jends (here p s t k) (cleanCancelledJob scope ctl)
    (fun err j => match err with None => here q s t k j | Some _ => here p s t k j \/ here q s t k j end).
Proof.
  intros La A1 A2. unfold cleanCancelledJob.
  eapply jends_bind; [apply jends_quiet, kept_quiet_program, renew_kept|]. intros [e|]; [apply jends_ret; by left|].
  apply jends_bind with (Mid := fun _ => here p s t k); [by apply jends_get|]. intros j0.
  eapply jends_bind; [apply jends_quiet, kept_quiet_program, exec_kept|]. intros [u|e]; [|apply jends_ret; by left].
  eapply jends_bind; [apply jends_quiet, kept_quiet_program, renewals_kept|]. intros renewals.
  eapply jends_bind; [by apply (jends_clean_outcome ctl p q)|]. intros outcome.
  eapply jends_bind; [apply jends_quiet, kept_quiet_program, renew_meanwhile_kept|]. intros renewErr.
  destruct (snd outcome) as [e|]; [apply jends_ret; by right|]. destruct renewErr as [e|]; [apply jends_ret; by right|].
  apply jends_bind with (Mid := fun _ => here q s t k); [by apply jends_get|]. intros j1.
  eapply jends_bind; [apply jends_quiet, kept_quiet_program, exec_kept|]. intros [[]|e]; [|apply jends_ret; by right].
  destruct (snd renewals); apply jends_ret; [by right|done].
Qed.

(** The deferred end. *)
Lemma finish_interrupted ctl cleaned recovered err p : (forall r o, p <> Released r o) ->
  is_err ErrInfrastructureStop err = true -> jends (phase p) (finish_job Ack ctl cleaned recovered err) ended.
Proof.
  intros N E. apply jends_here. intros s t k. unfold finish_job. eapply jends_bind; [apply jends_stop|]. intros b.
  rewrite E, orb_true_r. apply jends_ret. intros j [Hj _]. apply (stopped_ended p); [by eapply here_phase|done|by left].
Qed.

Lemma finish_recorded ctl p s t k err : JobControllerLaws ctl -> open_phase p = Some true -> settled_status s = true ->
  jends (here p s t k)
    (job! now := now_unix in
     job! _ := set_job (fun job => job <| jt_EndTime := now |>) in
     job! _ := ack Ack in
     job! err' := persist_or_stop (Some ctl) "persist terminal job state" in
     jret (join err err')) ended.
Proof.
  intros La O St. eapply jends_bind; [apply jends_quiet, kept_quiet_program, now_kept|]. intros now.
  eapply jends_bind; [apply jends_quiet, set_job_quiet; by intros []|]. intros ?.
  eapply jends_bind; [by apply (jends_ack p true)|]. intros ?.
  eapply jends_bind; [apply (jends_persist_or_stop (Some ctl) _ p true); try done; by intros c [= <-]|].
  intros err'. apply jends_ret. intros j Hr. apply (recorded_ended p true s t k) in Hr as (q & s' & t' & k' & Hj & N & X); [|done..].
  exists q, s', t', k'. split; [done|]. split; [done|]. intros R E. apply X; [done|].
  by apply (join_is _ err err') in E as [_ E].
Qed.

Lemma finish_settled ctl cleaned err p s t k : JobControllerLaws ctl -> open_phase p = Some true -> settled_status s = true ->
  jends (here p s t k) (finish_job Ack ctl cleaned None err) ended.
Proof.
  intros La O St. assert (N : forall r o, p <> Released r o) by (by intros r o ->).
  unfold finish_job. eapply jends_bind; [apply jends_stop|]. intros b.
  apply jends_if; intros B.
  - apply jends_ret. intros j [Hj X]. apply (stopped_ended p); [by eapply here_phase|done|].
    apply orb_true_iff in B as [->|B]; [right; by apply cause_stopping, X|by left].
  - eapply jends_weaken; [intros j [Hj _]; exact Hj|intros a j X; exact X|].
    apply jends_bind with (Mid := fun _ => here p s t k); [by apply jends_ret|]. intros ?. by apply finish_recorded.
Qed.

Lemma finish_panicked ctl message s t k : JobControllerLaws ctl ->
  jends (here Ran s t k) (finish_job Ack ctl false (Some message) None) ended.
Proof.
  intros La. unfold finish_job. eapply jends_bind; [apply jends_stop|]. intros b. rewrite orb_false_r.
  apply jends_if; intros ->.
  - apply jends_ret. intros j [Hj X]. apply (stopped_ended Ran); [by eapply here_phase|done|].
    right. by apply cause_stopping, X.
  - eapply jends_weaken; [intros j [Hj _]; exact Hj|intros a j X; exact X|].
    apply jends_bind with (Mid := fun _ => here (Cleaned true) StatusFailed t k); [|intros ?; by apply finish_recorded].
    eapply jends_bind; [by apply jends_clean|]. intros ?. apply jends_set. by intros [].
Qed.

Lemma jends_complete ctl cleaned s t k : JobControllerLaws ctl ->
  jends (here (running_phase cleaned) s t k) (complete_job finalizeCompletedJob ctl cleaned)
    (fun err j => err = None /\ exists p, open_phase p = Some true /\ here p s t k j).
Proof.
  intros La. assert (O : open_phase (running_phase cleaned) = Some true) by (by destruct cleaned).
  unfold complete_job. apply jends_bind with (Mid := fun _ => here (running_phase cleaned) s t k); [by apply jends_get|]. intros j0.
  apply jends_bind with (Mid := fun _ => here (running_phase cleaned) s t k).
  { apply jends_if; intros _; [by apply jends_quiet|by apply jends_ret]. }
  intros ?. apply jends_bind with (Mid := fun _ => here (running_phase cleaned) s t k); [by apply jends_get|]. intros j1.
  apply jends_if; intros E; [|apply jends_ret; eauto]. destruct cleaned; [done|].
  apply (jends_clean_then _ Ran (Cleaned true)); [done..|]. apply jends_ret. intros j Hj. split; [done|]. by exists (Cleaned true).
Qed.

(** ** The verdict *)

(** A write of the job whose status is always a settled one. *)
Definition some_settled (p : Phase) (j : JobRun) : Prop := exists s t k, here p s t k j /\ settled_status s = true.

Lemma jends_settle_set f p : (forall job, settled_status (jt_Status (f job)) = true) ->
  jends (phase p) (set_job f) (fun _ => some_settled p).
Proof.
  intros F j Hj. cbn. exists (jt_Status (f (jr_job j))), (jt_RunToken (f (jr_job j))), (jt_ExecutionKey (f (jr_job j))).
  split; [|apply F]. split; [exact Hj|done..].
Qed.

Lemma jends_settle_cancelled ctl runErr : JobControllerLaws ctl ->
  jends (phase Ran) (settle_cancelled scope error_text ctl runErr)
    (fun v j => match v with
      | (cleaned, Some e) => is_err ErrInfrastructureStop (Some e) = true /\ (phase Ran j \/ phase (Cleaned true) j)
      | (cleaned, None) => cleaned = true /\ some_settled (Cleaned true) j
      end).
Proof.
  intros La. unfold settle_cancelled.
  eapply jends_bind; [apply jends_silent, quiet_silent_program, adopt_quiet|]. intros [[|]|e];
    [|apply jends_ret; intros j Hj; split; [done|by left]..].
  eapply jends_bind; [apply jends_silent; auto with jobs|]. intros cause.
  apply jends_bind with (Mid := fun _ => phase Ran); [by apply jends_get|]. intros j0.
  eapply jends_bind; [apply jends_silent, set_job_silent|]. intros ?.
  eapply jends_bind; [apply jends_silent; auto with jobs|]. intros now.
  eapply jends_bind; [apply (jends_settle_set _ Ran); by intros []|]. intros ?.
  apply jends_bind with (Mid := fun err j => match err with None => some_settled (Cleaned true) j
    | Some _ => phase Ran j \/ phase (Cleaned true) j end).
  - intros j (s & t & k & Hj & St). pose proof (jends_clean_cancelled ctl Ran (Cleaned true) s t k La eq_refl eq_refl j Hj) as X.
    destruct (fst (cleanCancelledJob scope ctl j)).
    + destruct X; [left|right]; by eapply here_phase.
    + by exists s, t, k.
  - intros [e|]; apply jends_ret; done.
Qed.

Lemma jends_settle ctl before runErr : JobControllerLaws ctl ->
  jends (phase Ran) (settle scope error_text ctl before runErr)
    (fun v j => match v with
      | (_, Some err) => is_err ErrInfrastructureStop err = true /\ (phase Ran j \/ phase (Cleaned true) j)
      | (cleaned, None) => some_settled (running_phase cleaned) j
      end).
Proof.
  intros La. unfold settle. eapply jends_bind; [apply jends_silent; auto with jobs|]. intros stop.
  apply jends_bind with (Mid := fun _ => phase Ran).
  { apply jends_if; intros _; [|by apply jends_ret].
    apply jends_bind with (Mid := fun _ => phase Ran); [by apply jends_get|]. intros j0.
    eapply jends_bind; [apply jends_silent, quiet_silent_program, kept_quiet_program, exec_kept|]. intros [status|e]; [|by apply jends_ret].
    apply jends_if; intros _; [|by apply jends_ret].
    eapply jends_bind; [apply jends_silent, set_job_silent|]. intros ?. by apply jends_ret. }
  intros [runErr' [ownershipErr|]].
  - eapply jends_bind; [apply jends_silent, set_job_silent|]. intros ?.
    eapply jends_bind; [apply jends_silent; auto with jobs|]. intros cause.
    apply jends_if; intros E; apply jends_ret; intros j Hj; (split; [|by left]); [done|].
    by destruct runErr', ownershipErr.
  - eapply jends_bind; [apply jends_silent; auto with jobs|]. intros cause. apply jends_if; intros _.
    + eapply jends_bind; [by apply jends_settle_cancelled|]. intros [cleaned [e|]]; apply jends_ret; [done|].
      by intros j [-> X].
    + destruct runErr' as [e|].
      * apply jends_here. intros s t k. apply (jends_clean_then _ Ran (Cleaned true)); [done..|].
        apply jends_bind with (Mid := fun _ => phase (Cleaned true)).
        { intros j Hj. apply (phase_silent _ _ _ _ (set_job_silent _ j)). by eapply here_phase. }
        intros ?. eapply jends_bind; [apply (jends_settle_set _ (Cleaned true))|intros ?; by apply jends_ret].
        intros job. destruct (one_of [StatusFailed; StatusCancelled; StatusTimeout] (jt_Status job)) eqn:O; [|by destruct job].
        unfold one_of in O. cbn in O. rewrite orb_false_r in O.
        repeat (apply orb_true_iff in O as [O|O]); apply String.eqb_eq in O; by rewrite O.
      * eapply jends_bind; [apply (jends_settle_set _ Ran)|intros ?; by apply jends_ret].
        intros job. destruct (one_of [StatusPrepare; StatusRunning] (jt_Status job)) eqn:O; [by destruct job|].
        unfold settled_status. by rewrite O.
Qed.

Lemma jends_execute ctl : JobControllerLaws ctl ->
  jends (phase Owned) (execute_job scope error_text finalizeCompletedJob Ack ctl) ended.
Proof.
  intros La. unfold execute_job. apply jends_bind with (Mid := fun _ => phase Owned); [by apply jends_get|]. intros j0.
  apply jends_bind with (Mid := fun _ => phase Ran).
  { apply jends_here. intros s t k. eapply jends_weaken; [intros j Hj; exact Hj| |by apply (jends_emit L JvRun Owned Ran)].
    intros ? j. apply here_phase. }
  intros ?. eapply jends_bind; [apply jends_silent, run_silent, La|]. intros [runErr|message].
  - eapply jends_bind; [by apply jends_settle|]. intros [cleaned [err|]].
    + intros j [E [Hj|Hj]]; [apply (finish_interrupted _ _ _ _ Ran)|apply (finish_interrupted _ _ _ _ (Cleaned true))]; try done.
    + apply jends_bind with (Mid := fun err j => exists p s t k, open_phase p = Some true /\ settled_status s = true /\ here p s t k j).
      { intros j (s & t & k & Hj & St). destruct (jends_complete ctl cleaned s t k La j Hj) as [_ (p & O & X)]. eauto 10. }
      intros err j (p & s & t & k & O & St & Hj). by apply (finish_settled _ _ _ p s t k).
  - apply jends_here. intros s t k. by apply finish_panicked.
Qed.

Lemma jends_reject ctl e : JobControllerLaws ctl -> jends (phase Granted) (reject_job error_text Ack ctl e) ended.
Proof.
  intros La. apply jends_here. intros s t k. unfold reject_job. eapply jends_bind; [apply jends_stop|]. intros b.
  apply jends_if; intros _.
  - apply jends_ret. intros j [Hj _]. apply (refused_ended Granted); [by eapply here_phase|done|done].
  - eapply jends_weaken; [intros j [Hj _]; exact Hj|intros a j X; exact X|].
    eapply jends_bind; [apply jends_quiet, kept_quiet_program, now_kept|]. intros now.
    apply jends_bind with (Mid := fun _ => here Granted StatusFailed t k); [apply jends_set; by intros []|].
    intros ?. eapply jends_bind; [by apply (jends_ack Granted false)|]. intros ?.
    eapply jends_weaken; [intros j Hj; exact Hj| |apply (jends_persist_or_stop (Some ctl) _ Granted false StatusFailed t k); try done; by intros c [= <-]].
    intros err j. by apply recorded_ended.
Qed.

Lemma jends_admitted ctl : JobControllerLaws ctl ->
  jends (phase Granted) (runAdmittedJob scope error_text finalizeCompletedJob Ack ctl) ended.
Proof.
  intros La. unfold runAdmittedJob. apply jends_bind with (Mid := fun _ => phase Granted); [by apply jends_get|]. intros j0.
  apply jends_bind with (Mid := fun _ => phase Granted).
  { apply jends_if; intros _; [apply jends_silent; jkeeps_tac|by apply jends_ret]. }
  intros [u|e]; [|by apply jends_reject].
  eapply jends_bind; [apply jends_silent, quiet_silent_program, kept_quiet_program, exec_kept|]. intros [appID|e].
  - apply jends_bind with (Mid := fun _ => phase Owned); [|intros ?; by apply jends_execute].
    apply jends_here. intros s t k. eapply jends_weaken; [intros j Hj; exact Hj| |by apply (jends_emit L JvOwned Granted Owned)].
    intros ? j. apply here_phase.
  - apply jends_ret. intros j Hj. by apply (refused_ended Granted).
Qed.

(** ** Admission *)

Definition admission_phase (err : option error) : Phase := match err with None => Granted | Some _ => Waiting end.

Lemma jends_emit_phase ev p q : advance p ev = Some q -> jends (phase p) (jemit ev) (fun _ => phase q).
Proof.
  intros Ad. apply jends_here. intros s t k. eapply jends_weaken; [intros j Hj; exact Hj| |by apply (jends_emit L ev p q)].
  intros ? j. apply here_phase.
Qed.

Lemma jends_kept {A} (m : J A) p : jkeeps job_kept m -> jends (phase p) m (fun _ => phase p).
Proof. intros K. by apply jends_silent, quiet_silent_program, kept_quiet_program. Qed.

Lemma wait_phase n job expires : jends (phase Waiting) (wait_admitted (Q := Q) n job expires) (fun err => phase (admission_phase err)).
Proof.
  induction n as [|n IH]; cbn [wait_admitted];
    (eapply jends_bind; [apply jends_kept, exec_kept|]; intros [[|]|e];
     [eapply jends_bind; [by apply (jends_emit_phase JvAdmitted Waiting Granted)|]; intros ?; by apply jends_ret| |by apply jends_ret];
     eapply jends_bind; [apply jends_kept, cause_kept|]; intros [cause|]; [by apply jends_ret|]).
  - apply jends_bind with (Mid := fun _ => phase Waiting); [|intros ?; apply jends_bind with (Mid := fun _ => phase Waiting); [by apply jends_get|intros ?; by apply jends_ret]].
    apply jends_silent, jkeeps_modify. intros j. etrans; [|apply kept_silent, cancel_job_silent]. by split.
  - exact IH.
Qed.

Lemma admission_phases : jends (phase Waiting)
  (WaitForJobAdmission decode_job order workload encode_resources deadline client_Get)
  (fun v => phase (admission_phase (snd v))).
Proof.
  unfold WaitForJobAdmission. apply jends_bind with (Mid := fun _ => phase Waiting); [by apply jends_get|]. intros j0.
  apply jends_if; intros _.
  { eapply jends_bind; [by apply (jends_emit_phase JvAdmitted Waiting Granted)|]. intros ?. by apply jends_ret. }
  destruct (jobSchedulingResourceSnapshot _ _ _) as [resources|e]; [|by apply jends_ret].
  apply jends_bind with (Mid := fun _ => phase Waiting).
  { apply jends_kept. unfold confirmJobAdmissionRecovery. jkeeps_tac. }
  intros [uid|e].
  - eapply jends_bind; [apply jends_kept, exec_kept|]. intros [record|e]; [|by apply jends_ret].
    eapply jends_bind; [apply wait_phase|]. intros err. by apply jends_ret.
  - apply jends_if; intros _; [by apply jends_ret|]. eapply jends_bind; [apply jends_kept, exec_kept|]. intros ?. by apply jends_ret.
Qed.

Lemma jends_refuse ctl e : JobControllerLaws ctl -> jends (phase Waiting) (refuse_admission scope error_text Ack ctl e) ended.
Proof.
  intros La.
  assert (RW : forall err, jends (phase Waiting) (jret err) ended) by (intros err; apply jends_ret; intros j Hj; by apply (refused_ended Waiting)).
  assert (RC : forall err j, phase (Cleaned false) j -> ended err j) by (intros err j Hj; by apply (refused_ended (Cleaned false))).
  unfold refuse_admission. eapply jends_bind; [apply jends_kept, suppress_kept|]. intros suppressed.
  apply jends_if; intros _; [apply RW|]. apply jends_bind with (Mid := fun _ => phase Waiting); [by apply jends_get|]. intros j0.
  eapply jends_bind; [apply jends_kept, exec_kept|]. intros [status|x]; [|apply RW]. apply jends_if; intros _.
  - eapply jends_bind; [apply jends_kept, cause_kept|]. intros cause. eapply jends_bind; [apply jends_kept, now_kept|]. intros now.
    apply jends_bind with (Mid := fun _ => some_settled Waiting); [apply jends_settle_set; by intros []|]. intros ?.
    apply jends_bind with (Mid := fun _ => some_settled Waiting); [by apply jends_get|]. intros j1.
    apply jends_bind with (Mid := fun err j => match err with None => exists p, open_phase p = Some false /\ some_settled p j
      | Some _ => phase Waiting j \/ phase (Cleaned false) j end).
    + apply jends_if; intros _; [|apply jends_ret; intros j Hj; by exists Waiting].
      intros j (s & t & k & Hj & St). pose proof (jends_clean_cancelled ctl Waiting (Cleaned false) s t k La eq_refl eq_refl j Hj) as X.
      destruct (fst (cleanCancelledJob scope ctl j)); [destruct X; [left|right]; by eapply here_phase|].
      exists (Cleaned false). split; [done|]. by exists s, t, k.
    + intros [x|]; [apply jends_ret; intros j [Hj|Hj]; [by apply (refused_ended Waiting)|by apply RC]|].
      intros j (p & O & s & t & k & Hj & St).
      pose proof (jends_persist (Some ctl) p false s t k ltac:(by intros c [= <-]) O St j Hj) as (q & Hq & Hj' & _).
      apply (refused_ended q); [by eapply here_phase|destruct Hq as [->| ->]; [destruct p as [| | | |[]| |]|]; done|].
      intros r o ->. by destruct Hq as [<-|].
  - apply jends_if; intros T; [|apply RW]. apply andb_true_iff in T as [T _].
    eapply jends_bind; [apply jends_kept, exec_kept|]. intros [u|x]; [|apply RW].
    eapply jends_bind; [apply jends_kept, stop_kept|]. intros stop. apply jends_if; intros _.
    { intros j Hj. apply (refused_ended Waiting); [|done..]. apply (phase_silent _ _ _ _ (quiet_silent_program _ (kept_quiet_program _ cause_kept) j) Hj). }
    eapply jends_bind; [apply jends_kept, now_kept|]. intros now.
    apply jends_bind with (Mid := fun _ => some_settled Waiting).
    { apply jends_settle_set. intros job. unfold is_timeout in T. unfold ApplyJobError, status_part, StatusFromError.
      destruct (ExtractStatusError e) as [[st c]|]; [|done]. apply String.eqb_eq in T as ->. by destruct job. }
    intros ? j (s & t & k & Hj & St). revert j Hj. change (jends (here Waiting s t k)
      (job! _ := set_job (fun job => job <| jt_EndTime := now |>) in job! _ := jemit JvClean in job! _ := ctl_Clean ctl in
       job! _ := ack Ack in persist_or_stop (Some ctl) "persist expired job state") ended).
    eapply jends_bind; [apply jends_quiet, set_job_quiet; by intros []|]. intros ?.
    apply (jends_clean_then _ Waiting (Cleaned false)); [done..|].
    eapply jends_bind; [by apply (jends_ack (Cleaned false) false)|]. intros ?.
    eapply jends_weaken; [intros j Hj; exact Hj| |apply (jends_persist_or_stop (Some ctl) _ (Cleaned false) false s t k); try done; by intros c [= <-]].
    intros err j. by apply recorded_ended.
Qed.

(** ** The whole run *)

(** After the release: what holds at the end of a run. *)
Definition final (err : option error) (j : JobRun) : Prop :=
  exists q s t k, here q s t k j /\
    (has_run q = true -> is_err ErrInfrastructureStop err = false -> settled s (saved_status q) j).

Lemma ended_final err j : ended err j -> final err j.
Proof. intros (q & s & t & k & Hj & _ & X). by exists q, s, t, k. Qed.

Lemma settled_kept s o j j' : job_kept j j' -> settled s o j -> settled s o j'.
Proof. intros [S E] [X|X]; [left; by apply (stopping_silent _ _ S)|right; by rewrite E]. Qed.

Lemma ended_kept err {A} (m : J A) : jkeeps job_kept m -> jends (ended err) m (fun _ => ended err).
Proof.
  intros K j (q & s & t & k & Hj & N & X). exists q, s, t, k. specialize (K j).
  split; [by apply (here_quiet _ _ _ _ _ _ _ (kept_quiet _ _ K))|]. split; [done|]. intros R E. by apply (settled_kept _ _ _ _ K), X.
Qed.

Lemma jends_release job release err : jends (ended err) (release_after job release err) final.
Proof.
  unfold release_after. apply jends_bind with (Mid := fun _ => ended err); [by apply jends_get|]. intros j0.
  apply jends_if; intros _; [apply jends_ret; apply ended_final|].
  apply jends_bind with (Mid := fun e j => match e with Some _ => ended err j | None => final err j end).
  - unfold release_admission. destruct release as [expires|]; [|apply jends_ret; apply ended_final].
    eapply jends_bind; [apply ended_kept, exec_kept|]. intros [u|e]; [|by apply jends_ret].
    intros j (q & s & t & k & Hj & N & X).
    assert (Ad : advance q JvRelease = Some (Released (has_run q) (saved_status q))) by (destruct q; try done; by destruct (N ran status)).
    exists (Released (has_run q) (saved_status q)), s, t, k. split; [exact (jends_emit L _ q _ s t k Ad j Hj)|].
    cbn [has_run saved_status]. intros R E. assert (R' : has_run q = true) by (by destruct (has_run q)).
    by destruct (X R' E) as [Y|Y]; [left|right].
  - intros [e|]; apply jends_ret; [|done]. intros j (q & s & t & k & Hj & N & X). exists q, s, t, k. split; [done|].
    intros R E. apply X; [done|]. by apply (join_is _ err) in E as [E _].
Qed.

Lemma jends_admit ctl : JobControllerLaws ctl ->
  jends (phase Waiting) (admit_and_run decode_job order scope error_text workload encode_resources deadline client_Get
    finalizeCompletedJob Ack ctl) final.
Proof.
  intros La. unfold admit_and_run. eapply jends_bind; [apply jends_kept, stop_kept|]. intros stop. apply jends_if; intros _.
  { intros j Hj. apply ended_final, (refused_ended Waiting); [|done..].
    apply (phase_silent _ _ _ _ (quiet_silent_program _ (kept_quiet_program _ cause_kept) j) Hj). }
  apply jends_bind with (Mid := fun _ => phase Waiting); [by apply jends_get|]. intros j0.
  eapply jends_bind; [apply admission_phases|]. intros [release err]. cbn [snd].
  apply jends_bind with (Mid := ended); [|intros resultErr; apply jends_release].
  destruct err as [e|]; [by apply jends_refuse|by apply jends_admitted].
Qed.

Lemma jends_record ctl operation f : (forall c, ctl = Some c -> JobControllerLaws c) -> (forall job, settled_status (jt_Status (f job)) = true) ->
  jends (phase Waiting) (job! _ := set_job f in persist_or_stop ctl operation) final.
Proof.
  intros La F. eapply jends_bind; [by apply (jends_settle_set f Waiting)|]. intros ? j (s & t & k & Hj & St).
  apply ended_final, (recorded_ended Waiting false s t k); [done..|]. by apply jends_persist_or_stop.
Qed.

Lemma jends_watch taskID : jends (phase Waiting) (watch_job watch taskID) (fun _ => phase Waiting).
Proof.
  unfold watch_job. apply jends_if; intros _; [by apply jends_ret|]. destruct (watch taskID) as [w|e]; [|by apply jends_ret].
  apply jends_bind with (Mid := fun _ => phase Waiting); [|intros ?; by apply jends_ret]. apply jends_silent, jkeeps_modify. intros j.
  destruct (cw_cancelled w); [etrans; [|apply kept_silent, cancel_job_silent]|]; by split.
Qed.

Lemma waiting_final err j : phase Waiting j -> final err j.
Proof. intros Hj. apply ended_final. by apply (refused_ended Waiting). Qed.

Lemma jends_skip : jends (fun j => phase Waiting j /\ jt_Status (jr_job j) = StatusSkipped) (skip_job initJobCtl Ack) final.
Proof.
  unfold skip_job. intros j [Hj S]. revert j Hj S.
  assert (X : forall t k, jends (here Waiting StatusSkipped t k) (skip_job initJobCtl Ack) final).
  { intros t k. unfold skip_job. eapply jends_bind; [apply jends_quiet, kept_quiet_program, now_kept|]. intros now.
    eapply jends_bind; [apply jends_quiet, set_job_quiet; by intros []|]. intros ?.
    eapply jends_bind; [by apply (jends_ack Waiting false)|]. intros ?.
    apply jends_bind with (Mid := fun _ => here Waiting StatusSkipped t k); [by apply jends_get|]. intros j0.
    destruct (initJobCtl (jr_job j0)) as [ctl|] eqn:E.
    - eapply jends_weaken; [intros j Hj; exact Hj| |apply (jends_persist_or_stop (Some ctl) _ Waiting false StatusSkipped t k);
        [intros c [= <-]; by eapply Lawful|done..]].
      intros err j Hr. by apply ended_final, (recorded_ended Waiting false StatusSkipped t k).
    - apply jends_ret. intros j Hj. eapply waiting_final, here_phase, Hj. }
  intros j Hj S. apply (X (jt_RunToken (jr_job j)) (jt_ExecutionKey (jr_job j))). by rewrite <- S; apply phase_here.
Qed.

Lemma jends_run taskID : jends (phase Waiting)
  (runJob decode_job order scope error_text workload encode_resources deadline client_Get initJobCtl finalizeCompletedJob
     watch Ack taskID) final.
Proof.
  unfold runJob. apply jends_bind with (Mid := fun j0 j => j0 = j /\ phase Waiting j); [by apply jends_get|]. intros j0.
  apply jends_if; intros _; [apply jends_ret; intros j [_ Hj]; by apply waiting_final|].
  apply jends_if; intros S.
  { intros j [-> Hj]. apply jends_skip. split; [done|]. by apply String.eqb_eq. }
  assert (Lc : forall c, initJobCtl (jr_job j0) = Some c -> JobControllerLaws c) by (intros c; apply Lawful).
  eapply jends_weaken; [intros j [_ Hj]; exact Hj|intros a j X; exact X|].
  eapply jends_bind; [apply jends_kept, now_kept|]. intros now.
  eapply jends_bind; [apply jends_silent, set_job_silent|]. intros ?.
  apply jends_bind with (Mid := fun _ => phase Waiting).
  { apply jends_here. intros s t k. eapply jends_weaken; [intros j Hj; exact Hj| |by apply (jends_ack Waiting false)].
    intros ? j. apply here_phase. }
  intros ?. eapply jends_bind; [apply jends_kept, cause_kept|]. intros [cause|].
  - eapply jends_bind; [apply jends_kept, stop_kept|]. intros stop. apply jends_if; intros _; [by apply jends_ret; intros j; apply waiting_final|].
    eapply jends_bind; [apply jends_kept, now_kept|]. intros now'. apply jends_record; [done|by intros []].
  - destruct (initJobCtl (jr_job j0)) as [ctl|].
    + eapply jends_bind; [apply jends_watch|]. intros [e|]; [|by apply jends_admit, Lc].
      eapply jends_bind; [apply jends_kept, stop_kept|]. intros stop. apply jends_if; intros _; [by apply jends_ret; intros j; apply waiting_final|].
      eapply jends_bind; [apply jends_kept, now_kept|]. intros now'.
      eapply jends_bind; [apply (jends_settle_set _ Waiting); by intros []|]. intros ? j (s & t & k & Hj & St). revert j Hj.
      change (jends (here Waiting s t k) (job! _ := ack Ack in persist_or_stop (Some ctl) "persist cancellation watcher failure") final).
      eapply jends_bind; [by apply (jends_ack Waiting false)|]. intros ?.
      eapply jends_weaken; [intros j Hj; exact Hj| |apply (jends_persist_or_stop (Some ctl) _ Waiting false s t k); [intros c [= <-]; by apply Lc|done..]].
      intros err j Hr. by apply ended_final, (recorded_ended Waiting false s t k).
    + eapply jends_bind; [apply jends_kept, now_kept|]. intros now'.
      eapply jends_bind; [apply jends_silent, set_job_silent|]. intros ?.
      apply jends_here. intros s t k. eapply jends_bind; [by apply (jends_ack Waiting false)|]. intros ?.
      apply jends_ret. intros j Hj. eapply waiting_final, here_phase, Hj.
Qed.
End Protocol.

(** C5: the protocol of one run.  Whatever other sessions, signals and timers do, and
    for any controllers that keep [JobControllerLaws], the events of [runJob] come in
    order: a job runs at most once and only after its admission and after its owner's
    row was locked; it is cleaned up at most once; its state is saved at most once,
    after that and in a settled status; the admission is released last.  A run of the
    controller that does not end in an infrastructure stop has left a settled status,
    and the saved status is the job's, unless the run lost its right to write or the job
    has no durable identity. *)
Theorem run_job_protocol {Q : Type} `{QuantityOps Q} `{KubernetesJson Q} decode_job order scope error_text workload
    encode_resources deadline client_Get initJobCtl finalizeCompletedJob watch Ack taskID j err j' :
  (forall job ctl, initJobCtl job = Some ctl -> JobControllerLaws ctl) ->
  jkeeps quiet_step finalizeCompletedJob ->
  runJob decode_job order scope error_text workload encode_resources deadline client_Get initJobCtl finalizeCompletedJob
    watch Ack taskID j = (err, j') ->
  exists evs q, jr_log j' = (jr_log j ++ evs)%list /\ follows Waiting evs = Some q /\
    (has_run q = true -> is_err ErrInfrastructureStop err = false ->
     settled (jt_Status (jr_job j')) (saved_status q) j').
Proof.
  intros La Fi E.
  assert (P : phase (jr_log j) Waiting j) by (exists []; by rewrite app_nil_r).
  pose proof (jends_run decode_job order scope error_text workload encode_resources deadline client_Get initJobCtl
    finalizeCompletedJob watch Ack (jr_log j) La Fi taskID j P) as X.
  rewrite E in X. destruct X as (q & s & t & k & [(evs & E1 & E2) <- _ _] & Y). exists evs, q. by split; [|split].
Qed.

(** ** A concrete run *)

(** A controller that succeeds at once and saves its record. *)
Definition sample_controller : JobController := {|
  ctl_Run := job! _ := set_job (fun job => job <| jt_Status := StatusCompleted |>) in jret (Returned None);
  ctl_Clean := jret tt;
  ctl_SaveInfo := job! j := get_run in
    job! r := jdb (SaveJobInfo z_decode_job no_order (fun _ => Err ErrDatabase) None (jr_job j)) in
    jret (match r with Ok _ => None | Err e => Some e end);
  ctl_CleanCancelled := None;
|}.

Lemma sample_controller_laws : JobControllerLaws sample_controller.
Proof. split; cbn; [jkeeps_tac..|done]. Qed.

Definition sample_evaluation : JobTask :=
  sample_execution <| jt_JobType := JobEval |> <| jt_WorkspaceID := "ws"%string |> <| jt_SchedulingClass := "normal"%string |>.

(** The execution's record, admitted for the owner. *)
Definition sample_admitted : Database :=
  sample_records <| db_queue := {["t1"%string := sample_task <| wq_LeaseExpiresAt := Some (600 * Second) |>]} |>
    <| db_jobs := {[7 := (BuildJobInfoRecord sample_evaluation) <| job_ID := 7 |>
    <| job_SchedulingState := JobSchedulingAdmitted |> <| job_SchedulingGeneration := 3 |>
    <| job_SchedulingOwnerStatus := StatusRunning |> <| job_SchedulingQueuedAt := Some 0 |>
    <| job_SchedulingClass := "normal"%string |> ]} |>.

Definition sample_run : JobRun :=
  Build_JobRun (Build_Exec (seqw sample_admitted 50000) [] None sample_task StatusRunning false false false false "" true ""
    false false []) None false [] "" 0 ContextCanceled [] sample_evaluation [].

Definition sample_run_job : J (option error) :=
  runJob z_decode_job no_order None (fun _ => "failed"%string) (fun _ => None) (fun _ => Err ErrDatabase) None None
    (fun _ => Some sample_controller) (jret tt) (fun _ => Err ErrDatabase) (cret tt) "".

Lemma run_job_protocol_witness :
  exists evs q, jr_log (snd (sample_run_job sample_run)) = evs /\ follows Waiting evs = Some q /\
    q = Released true (Some StatusCompleted) /\ fst (sample_run_job sample_run) = None /\
    settled (jt_Status (jr_job (snd (sample_run_job sample_run)))) (saved_status q) (snd (sample_run_job sample_run)).
Proof.
  assert (G : forall j err j', sample_run_job j = (err, j') -> exists evs q, jr_log j' = (jr_log j ++ evs)%list /\
    follows Waiting evs = Some q /\ (has_run q = true -> is_err ErrInfrastructureStop err = false ->
      settled (jt_Status (jr_job j')) (saved_status q) j')).
  { intros j err j'. apply run_job_protocol; [intros job ctl [= <-]; exact sample_controller_laws|apply jkeeps_ret; apply _]. }
  assert (F : fst (sample_run_job sample_run) = None) by (vm_compute; reflexivity).
  assert (X : follows Waiting (jr_log (snd (sample_run_job sample_run))) = Some (Released true (Some StatusCompleted)))
    by (vm_compute; reflexivity).
  specialize (G sample_run _ _ (surjective_pairing _)). pose proof (eq_refl : jr_log sample_run = []) as Z0.
  revert F X G Z0. generalize (fst (sample_run_job sample_run)) (snd (sample_run_job sample_run)) (jr_log sample_run).
  intros err j' L -> X (evs & q & E & Fo & S) ->. exists evs, q. split; [exact E|]. split; [exact Fo|].
  cbn [app] in E. rewrite E, Fo in X. injection X as ->. by repeat split; apply S.
Defined.
