(* ===== verification/JobRunner.v ===== *)
(** The job runner as the controller's client: [RunJob.RunJobs] in the place of
    [Controller.RunJobs].

    The controller's theorems ask of the job runner what [JobRunnerLaws] says.  Here
    [job_runner] composes the run of the workflow's jobs, and it is shown to meet these
    laws: of a task's row it only writes the lease and the update time, whatever jobs it
    runs, so whoever relies on the row's status and generation may run it. *)

From S2P Require Import Prelude GoStrings Config Json Quantity Policy Model Store Hoare Lease LeaseProtocol.
From S2P Require Import Budget Signals Scheduler Admission AdmissionSpec AdmissionGuard PodResources Retry Cleanup.
From S2P Require Import JobInfos Components Controller ControllerSpec ControllerSafety JobExec RunJob RunJobSpec.

(** ** Relations on the database that look at owners only *)

(** What the holder of a lease may do to a task's row without changing its state. *)
Record same_owner (row row' : WorkflowQueue) : Prop := {
  same_task : wq_TaskID row' = wq_TaskID row;
  same_generation : wq_RunGeneration row' = wq_RunGeneration row;
  same_task_status : wq_Status row' = wq_Status row;
}.

Class OwnerFrame (R : relation Database) := {
  frame_preorder :: PreOrder R;
  frame_other d d' : db_queue d' = db_queue d -> R d d';
  frame_row d key row row' : db_queue d !! key = Some row -> same_owner row row' ->
    R d (with_table (<[key := row']> (table d)) d);
}.

#[export] Instance task_protocol_frame id : OwnerFrame (task_protocol id).
Proof.
  split; [apply _|apply task_protocol_other|]. intros d key row row' L [T G S].
  apply (task_protocol_insert id d key row row' L T). split; [lia|]. by intros _ _.
Qed.

Create HintDb frame.

Section Frame.
Context (R : relation Database) `{!OwnerFrame R}.

Lemma frame_read_only {A} (m : M A) : read_only m -> guarantees R m.
Proof. apply guarantees_read_only. Qed.

Lemma frame_bind {A B} (m : M A) (k : A -> M B) : guarantees R m -> (forall a, guarantees R (k a)) -> guarantees R (bind m k).
Proof. apply guarantees_bind. Qed.

Lemma frame_transaction {A} (m : M A) : guarantees R m -> guarantees R (WithReadCommittedTransaction m).
Proof. apply guarantees_transaction. Qed.

(** Statements on the other tables. *)
Lemma frame_statement {A} (f : Z -> Database -> result A * Database) :
  (forall t d, db_queue (snd (f t d)) = db_queue d) -> guarantees R (statement f).
Proof.
  intros Hf. apply guarantees_statement. intros t d r d' E. apply frame_other.
  specialize (Hf t d). by rewrite E in Hf.
Qed.

Lemma frame_job_cas key conditions updates :
  guarantees R (CompareAndSwapWithConditions (E := JobInfo) key conditions updates).
Proof. apply guarantees_cas. intros. by apply frame_other. Qed.

Lemma frame_component_cas key conditions updates :
  guarantees R (CompareAndSwapWithConditions (E := ApplicationComponent) key conditions updates).
Proof. apply guarantees_cas. intros. by apply frame_other. Qed.


Lemma frame_job_Add job : guarantees R (Add (E := JobInfo) job).
Proof.
  unfold Add. destruct (negb (primary_empty _)); [|apply frame_read_only; auto with store].
  destruct (negb (str_empty _)); [|apply frame_read_only; auto with store]. apply frame_statement. intros t d. cbn.
  repeat (case_match; simplify_eq; try done).
Qed.

Lemma frame_component_rows conditions updates :
  guarantees R (CompareAndSwapRows (E := ApplicationComponent) conditions updates).
Proof.
  unfold CompareAndSwapRows. destruct (negb _); [|apply frame_read_only; auto with store].
  destruct (negb _); [|apply frame_read_only; auto with store]. apply frame_statement. intros t d. cbv zeta.
  by repeat case_match.
Qed.

(** A fenced write of the owner that leaves the state of the task. *)
Lemma frame_owned taskID conditions updates :
  Forall (fun kv => fst kv = "lease_expires_at"%string) updates ->
  guarantees R (UpdateTaskFieldsIfConditions taskID conditions updates).
Proof.
  intros U. unfold UpdateTaskFieldsIfConditions. destruct (negb _); [|apply frame_read_only; auto with store].
  apply guarantees_cas. intros now d row row' L _ A. apply (frame_row d _ row row' L).
  clear L. revert row A. induction U as [|[c v] us E _ IH]; intros row A.
  - cbn in A. by injection A as <-.
  - cbn in E. subst c. destruct v; try discriminate A; specialize (IH _ A); destruct IH; by split.
Qed.

Lemma frame_ownership {A} owner (persist : M A) : guarantees R persist -> guarantees R (WithWorkflowTaskOwnership owner persist).
Proof.
  intros Hp. unfold WithWorkflowTaskOwnership. destruct owner as [o|]; [|apply frame_read_only; auto with store].
  destruct (negb _); [|apply frame_read_only; auto with store]. apply frame_bind.
  - apply frame_read_only. destruct (jobSchedulingTerminal _); [auto with store|].
    apply read_only_bind; [apply read_only_identity|]. intros _. destruct (blank _); [apply read_only_required|auto with store].
  - intros _. apply frame_transaction, frame_bind; [by apply guarantees_wrap, frame_owned|].
    intros [|]; [exact Hp|apply frame_read_only; auto with store].
Qed.

Lemma frame_job_ownership {A} job (persist : M A) : guarantees R persist -> guarantees R (WithJobInfoOwnership job persist).
Proof. apply frame_ownership. Qed.

Lemma frame_scheduling {A} owner (fn : M A) : guarantees R fn -> guarantees R (withJobSchedulingOwner owner fn).
Proof. intros Hf. destruct owner; [by apply frame_ownership|by apply frame_transaction]. Qed.
End Frame.

Create HintDb frame_ro.
#[export] Hint Resolve read_only_by_key read_only_owner read_only_task_clock read_only_identity read_only_required
  read_only_current read_only_find_component read_only_find read_only_ret read_only_throw read_only_lift read_only_Get
  read_only_List read_only_clock read_only_exist : frame_ro.
#[export] Hint Resolve frame_job_cas frame_component_cas frame_component_rows frame_job_Add : frame.

(** A program that only reads. *)
Ltac ro_step :=
  repeat match goal with
  | |- forall _, _ => intros ?
  | |- read_only (bind _ _) => apply read_only_bind
  | |- read_only (try _) => apply read_only_try
  | |- read_only (wrap_error _ _) => apply read_only_wrap
  | |- read_only (match ?x with _ => _ end) => destruct x
  | |- _ => solve [eauto with frame_ro]
  end.

(** Walk through a program that keeps a frame. *)
Ltac frame_step :=
  cbv zeta;
  repeat match goal with
  | |- forall _, _ => intros ?
  | |- guarantees _ _ => solve [eauto with frame]
  | |- guarantees _ _ => apply frame_read_only; solve [ro_step]
  | |- guarantees _ (bind _ _) => apply frame_bind; [|intros ?]
  | |- guarantees _ (try _) => apply guarantees_try
  | |- guarantees _ (wrap_error _ _) => apply guarantees_wrap
  | |- guarantees _ (WithReadCommittedTransaction _) => apply frame_transaction
  | |- guarantees _ (withJobSchedulingOwner _ _) => apply frame_scheduling; [assumption|]
  | |- guarantees _ (WithJobInfoOwnership _ _) => apply frame_job_ownership; [assumption|]
  | |- guarantees _ (match ?x with _ => _ end) => destruct x
  end.

Section RunnerOperations.
Context {Q : Type} `{QuantityOps Q} `{KubernetesJson Q}.
Context (R : relation Database) `{Frame : !OwnerFrame R}.

Lemma frame_update_scheduling job conditions updates : guarantees R (updateJobScheduling job conditions updates).
Proof. unfold updateJobScheduling. frame_step. Qed.
Hint Resolve frame_update_scheduling : frame.

Lemma frame_enqueue owner job deadline uid : guarantees R (EnqueueJobForScheduling (Q := Q) owner job deadline uid).
Proof.
  unfold EnqueueJobForScheduling, enqueue_job, loadQueuedJobCheckpoint, CompareAndSwap. frame_step.
Qed.

Lemma frame_is_admitted owner key expected : guarantees R (IsJobAdmitted (Q := Q) owner key expected).
Proof. unfold IsJobAdmitted, is_job_admitted. frame_step. Qed.

Lemma frame_release owner key reason expected : guarantees R (ReleaseJobAdmission (Q := Q) owner key reason expected).
Proof. unfold ReleaseJobAdmission, release_job. frame_step. Qed.

Lemma frame_release_lost owner supplied reason : guarantees R (ReleaseLostJobAdmission (Q := Q) owner supplied reason).
Proof. unfold ReleaseLostJobAdmission, release_lost. frame_step. Qed.

Lemma frame_renew_cancelled taskID generation token worker d :
  guarantees R (RenewCancelledWorkflowTaskLease taskID generation token worker d).
Proof.
  unfold RenewCancelledWorkflowTaskLease. frame_step. apply frame_owned; [assumption|]. by constructor.
Qed.

Lemma frame_component_update component updates : guarantees R (UpdateComponentRuntimeFields component updates).
Proof. unfold UpdateComponentRuntimeFields, cas_component, componentRuntimeFieldExists. frame_step. Qed.
Hint Resolve frame_component_update : frame.

Lemma frame_status_start job : guarantees R (WithJobInfoOwnership job (SyncComponentStatusOnJobStart job)).
Proof. unfold SyncComponentStatusOnJobStart. frame_step. Qed.

Lemma frame_status_end job : guarantees R (SyncConfigComponentStatusIfWorkflowOwned job).
Proof. unfold SyncConfigComponentStatusIfWorkflowOwned, syncConfigComponentStatus. frame_step. Qed.

Lemma frame_owns job : guarantees R (WithJobInfoOwnership job (ret tt)).
Proof. frame_step. Qed.

Lemma frame_ownership_status job : guarantees R (CurrentJobWorkflowOwnershipStatus job).
Proof. unfold CurrentJobWorkflowOwnershipStatus, TaskByID. frame_step. Qed.

Lemma frame_application appID : guarantees R (requireApplicationForWrite appID).
Proof. unfold requireApplicationForWrite. frame_step. Qed.

Lemma frame_cleanup scope job expected outcome : guarantees R (updateCancelledJobCleanup scope job expected outcome).
Proof. unfold updateCancelledJobCleanup, update_cancelled_record. frame_step. Qed.
Hint Resolve frame_cleanup : frame.

Lemma frame_begin scope job : guarantees R (BeginCancelledJobCleanup scope job).
Proof. unfold BeginCancelledJobCleanup. frame_step. Qed.

Lemma frame_finish scope job outcome : guarantees R (FinishOnlineCancelledJobCleanup scope job outcome).
Proof. unfold FinishOnlineCancelledJobCleanup. frame_step. Qed.

Context (decode_job : Json -> option (Job Q)) (order : JobRetryPolicy Q -> list (string * Z)).

Lemma frame_recovery job : guarantees R (recovery_needs_job decode_job order job).
Proof. unfold recovery_needs_job, retryDatabaseTime. frame_step. Qed.

Lemma frame_lost job cause : guarantees R (releaseLostJobAdmission (Q := Q) job cause).
Proof.
  unfold releaseLostJobAdmission. destruct (negb _); [frame_step|]. apply frame_bind; [|intros []; frame_step].
  apply guarantees_try, frame_release_lost.
Qed.

Lemma frame_save_attempts encode scope n job record :
  guarantees R (save_attempts decode_job order encode scope n job record).
Proof. induction n as [|n IH]; cbn [save_attempts]; frame_step; exact IH. Qed.

Lemma frame_save encode scope job : guarantees R (SaveJobInfo decode_job order encode scope job).
Proof.
  unfold SaveJobInfo. destruct (blank _); [unfold addJobInfoIfWorkflowOwned; frame_step|].
  unfold saveExecutionJobInfo. apply frame_job_ownership; [exact Frame|]. apply frame_save_attempts.
Qed.
End RunnerOperations.

#[export] Hint Resolve frame_enqueue frame_is_admitted frame_release frame_release_lost frame_renew_cancelled
  frame_component_update frame_status_start frame_status_end frame_owns frame_ownership_status frame_application
  frame_begin frame_finish frame_recovery frame_lost : frame.

(** ** The run of a job keeps what the acknowledgement and the surroundings keep *)

(** Time in which every commit of the code that runs respects [P]; [respectful] is the case of [task_protocol]. *)
Abbreviation respecting := commits.

Definition on_exec (R : relation Exec) (j j' : JobRun) : Prop := R (jr_exec j) (jr_exec j').

#[export] Instance on_exec_preorder R : PreOrder R -> PreOrder (on_exec R).
Proof. intros [Re Tr]. split; [intros j; apply Re|]. intros a b c. apply Tr. Qed.

(** A client that only acknowledges and lets time pass. *)
Definition tolerates (P : relation Database) (ack : C unit) {A} (m : J A) : Prop :=
  forall R, PreOrder R -> keeps R ack -> (forall e e', outside (respecting P) e e' -> R e e') -> jkeeps (on_exec R) m.

Record JobControllerFrame (P : relation Database) (ack : C unit) (ctl : JobController) : Prop := {
  run_tolerates : tolerates P ack (ctl_Run ctl);
  clean_tolerates : tolerates P ack (ctl_Clean ctl);
  save_tolerates : tolerates P ack (ctl_SaveInfo ctl);
  clean_cancelled_tolerates m : ctl_CleanCancelled ctl = Some m -> tolerates P ack m;
}.

Section Run.
Context (P : relation Database) `{FrameP : !OwnerFrame P} (Ack : C unit).
Context (R : relation Exec) `{PreR : !PreOrder R}.
Hypothesis R_ack : keeps R Ack.
Hypothesis R_outside : forall e e', outside (respecting P) e e' -> R e e'.

Abbreviation jR := (jkeeps (on_exec R)).

Lemma R_db {A} (m : M A) : guarantees P m -> keeps R (db m).
Proof.
  intros G e. apply R_outside. unfold db. destruct (m (ex_world e)) as [r w] eqn:E.
  exists w, (ex_signals e), (ex_cause e). split; [exact (G _ _ _ E)|split; [auto|by destruct e]].
Qed.

Lemma R_cause : keeps R ctx_cause.
Proof.
  intros e. apply R_outside. exists (ex_world e), (ex_signals (snd (ctx_cause e))), (ex_cause (snd (ctx_cause e))).
  split; [reflexivity|].
  destruct e as [w [|[x|] r] [y|]]; (split; [|reflexivity]); cbn; congruence.
Qed.

Lemma on_cancel cause e : R e (cancel_ctx cause e).
Proof.
  apply R_outside. exists (ex_world e), (ex_signals e), (ex_cause (cancel_ctx cause e)).
  split; [reflexivity|]. unfold cancel_ctx. destruct e as [w s [y|]]; (split; [|reflexivity]); cbn; congruence.
Qed.

Lemma on_exec_program {A} (m : C A) : keeps R m -> jR (exec m).
Proof. intros K j. unfold exec, on_exec. specialize (K (jr_exec j)). by destruct (m (jr_exec j)). Qed.

Lemma on_jdb {A} (m : M A) : guarantees P m -> jR (jdb m).
Proof. intros G. apply on_exec_program, R_db, G. Qed.

Lemma on_modify f : (forall j, jr_exec (f j) = jr_exec j) -> jR (jmodify f).
Proof. intros E j. unfold on_exec. cbn. rewrite E. reflexivity. Qed.

Lemma on_set f : jR (set_job f).
Proof. by apply on_modify. Qed.

Lemma on_emit ev : jR (jemit ev).
Proof. by apply on_modify. Qed.

Lemma on_now : jR now_unix.
Proof. intros j. unfold on_exec. reflexivity. Qed.

Lemma on_renewals : jR next_renewals.
Proof. intros j. unfold on_exec, next_renewals. destruct (jr_renewals j); reflexivity. Qed.

Lemma cancel_job_exec cause j : jr_exec (cancel_job cause j) = jr_exec j.
Proof. unfold cancel_job. by destruct (jr_cause j). Qed.

Lemma on_cause : jR job_cause.
Proof.
  intros j. unfold on_exec, job_cause. pose proof (R_cause (jr_exec j)) as K. destruct (ctx_cause (jr_exec j)) as [above e].
  cbn [snd] in *. cbv zeta. set (j1 := j <| jr_exec := e |>).
  assert (E1 : jr_exec (match above with Some cause => cancel_job cause j1 | None => j1 end) = e)
    by (destruct above; [by rewrite cancel_job_exec|done]).
  set (j2 := match above with Some cause => _ | None => _ end) in *. clearbody j2.
  destruct (jr_watched j2); [|by rewrite E1]. destruct (jr_watch j2) as [|[reason|] r]; rewrite ?cancel_job_exec; cbn; by rewrite E1.
Qed.
End Run.

Create HintDb runner.
#[export] Hint Resolve on_exec_program on_jdb on_set on_emit on_now on_renewals on_cause R_cause : runner.

(** Walk through a program of the runner. *)
Ltac runner_tac :=
  repeat match goal with
  | |- forall _, _ => intros ?
  | |- jkeeps _ (jret _) => apply jkeeps_ret; apply _
  | |- jkeeps _ get_run => apply jkeeps_get; apply _
  | |- jkeeps _ (jbind _ _) => apply jkeeps_bind; [apply _| |intros ?]
  | |- jkeeps _ (jdb _) => eapply on_jdb; [eassumption|]; solve [eauto with frame]
  | |- jkeeps _ _ => solve [eauto with runner]
  | |- jkeeps _ (match ?x with _ => _ end) => destruct x
  end.

Section RunnerSteps.
Context {Q : Type} `{QuantityOps Q} `{KubernetesJson Q}.
Variable decode_job : Json -> option (Job Q).
Variable order : JobRetryPolicy Q -> list (string * Z).
Variable scope : option string.
Variable error_text : error -> string.
Variable workload : JobTask -> option (Job Q).
Variable encode_resources : gmap string Q -> result string.
Variable deadline : option Z.
Variable client_Get : option (string -> string -> C (result (Job Q))).
Variable initJobCtl : JobTask -> option JobController.
Variable finalizeCompletedJob : J unit.
Variable watch : string -> result CancelWatcher.
Context (P : relation Database) `{FrameP : !OwnerFrame P} (Ack : C unit).
Context (R : relation Exec) `{PreR : !PreOrder R}.
Hypothesis R_ack : keeps R Ack.
Hypothesis R_outside : forall e e', outside (respecting P) e e' -> R e e'.
Hypothesis Get_kept : forall get namespace name, client_Get = Some get -> keeps R (get namespace name).
Hypothesis Finalize_kept : jkeeps (on_exec R) finalizeCompletedJob.

Record controller_kept (ctl : JobController) : Prop := {
  run_kept : jkeeps (on_exec R) (ctl_Run ctl);
  clean_kept : jkeeps (on_exec R) (ctl_Clean ctl);
  save_kept : jkeeps (on_exec R) (ctl_SaveInfo ctl);
  clean_cancelled_kept m : ctl_CleanCancelled ctl = Some m -> jkeeps (on_exec R) m;
}.
Hypothesis Controllers_kept : forall job ctl, initJobCtl job = Some ctl -> controller_kept ctl.

Abbreviation jR := (jkeeps (on_exec R)).

Lemma step_ack : jR (ack Ack).
Proof. unfold ack. runner_tac. Qed.
Hint Resolve step_ack : runner.

Lemma step_stop : jR job_infrastructure_stop.
Proof. unfold job_infrastructure_stop. runner_tac. Qed.
Hint Resolve step_stop : runner.

Lemma step_suppress : jR suppressTerminalJobPersistence.
Proof. unfold suppressTerminalJobPersistence. runner_tac. Qed.
Hint Resolve step_suppress : runner.

Lemma step_renew : jR renewCancelledJobCleanupLease.
Proof. unfold renewCancelledJobCleanupLease. runner_tac. Qed.
Hint Resolve step_renew : runner.

Lemma step_renew_meanwhile n : jR (renew_meanwhile n).
Proof. induction n as [|n IH]; cbn [renew_meanwhile]; runner_tac. Qed.
Hint Resolve step_renew_meanwhile : runner.

Lemma step_adopt : jR adoptCancelledWorkflowOwner.
Proof. unfold adoptCancelledWorkflowOwner. runner_tac. Qed.
Hint Resolve step_adopt : runner.

Lemma step_release job release : jR (release_admission (Q := Q) job release).
Proof. unfold release_admission. runner_tac. Qed.
Hint Resolve step_release : runner.

Lemma step_release_after job release err : jR (release_after (Q := Q) job release err).
Proof. unfold release_after. runner_tac. Qed.
Hint Resolve step_release_after : runner.

Lemma step_confirm : jR (confirmJobAdmissionRecovery decode_job order client_Get).
Proof.
  unfold confirmJobAdmissionRecovery. destruct client_Get as [get|] eqn:E; runner_tac.
Qed.
Hint Resolve step_confirm : runner.

Lemma step_wait n job expires : jR (wait_admitted (Q := Q) n job expires).
Proof.
  induction n as [|n IH]; cbn [wait_admitted]; runner_tac.
  intros j. unfold on_exec. cbn. rewrite cancel_job_exec. cbn. eapply on_cancel; eassumption.
Qed.
Hint Resolve step_wait : runner.

Lemma step_admission : jR (WaitForJobAdmission decode_job order workload encode_resources deadline client_Get).
Proof. unfold WaitForJobAdmission. cbv zeta. runner_tac. Qed.
Hint Resolve step_admission : runner.

Lemma step_persist ctl : (forall c, ctl = Some c -> controller_kept c) -> jR (persistTerminalJobState ctl).
Proof.
  intros Hc. unfold persistTerminalJobState. destruct ctl as [c|]; [|runner_tac]. destruct (Hc c eq_refl). runner_tac.
Qed.

Lemma step_persist_or_stop ctl operation : (forall c, ctl = Some c -> controller_kept c) -> jR (persist_or_stop ctl operation).
Proof. intros Hc. pose proof (step_persist ctl Hc). unfold persist_or_stop. runner_tac. Qed.

Section Controlled.
Context (ctl : JobController) (Hctl : controller_kept ctl).

Lemma step_run : jR (ctl_Run ctl). Proof. apply Hctl. Qed.
Lemma step_clean : jR (ctl_Clean ctl). Proof. apply Hctl. Qed.
Lemma step_persist_ctl : jR (persistTerminalJobState (Some ctl)).
Proof. apply step_persist. by intros c [= <-]. Qed.
Lemma step_persist_ctl_or operation : jR (persist_or_stop (Some ctl) operation).
Proof. apply step_persist_or_stop. by intros c [= <-]. Qed.
Hint Resolve step_run step_clean step_persist_ctl step_persist_ctl_or : runner.

Lemma step_outcome : jR (clean_outcome ctl).
Proof.
  unfold clean_outcome. destruct (ctl_CleanCancelled ctl) as [m|] eqn:E; [|runner_tac].
  pose proof (clean_cancelled_kept _ Hctl m E). runner_tac.
Qed.
Hint Resolve step_outcome : runner.

Lemma step_clean_cancelled : jR (cleanCancelledJob scope ctl).
Proof. unfold cleanCancelledJob. runner_tac. Qed.
Hint Resolve step_clean_cancelled : runner.

Lemma step_finish cleaned recovered err : jR (finish_job Ack ctl cleaned recovered err).
Proof. unfold finish_job. runner_tac. Qed.
Hint Resolve step_finish : runner.

Lemma step_complete cleaned : jR (complete_job finalizeCompletedJob ctl cleaned).
Proof. unfold complete_job. runner_tac. Qed.
Hint Resolve step_complete : runner.

Lemma step_settle before err : jR (settle scope error_text ctl before err).
Proof. unfold settle, settle_cancelled. runner_tac. Qed.
Hint Resolve step_settle : runner.

Lemma step_execute : jR (execute_job scope error_text finalizeCompletedJob Ack ctl).
Proof. unfold execute_job. runner_tac. Qed.
Hint Resolve step_execute : runner.

Lemma step_admitted : jR (runAdmittedJob scope error_text finalizeCompletedJob Ack ctl).
Proof. unfold runAdmittedJob, reject_job. runner_tac. Qed.
Hint Resolve step_admitted : runner.

Lemma step_refuse e : jR (refuse_admission scope error_text Ack ctl e).
Proof. unfold refuse_admission. cbv zeta. runner_tac. Qed.
Hint Resolve step_refuse : runner.

Lemma step_admit : jR (admit_and_run decode_job order scope error_text workload encode_resources deadline client_Get
  finalizeCompletedJob Ack ctl).
Proof. unfold admit_and_run. runner_tac. Qed.
End Controlled.

Lemma step_watch taskID : jR (watch_job watch taskID).
Proof.
  unfold watch_job. runner_tac. intros j. unfold on_exec. cbn. destruct (cw_cancelled _); rewrite ?cancel_job_exec; reflexivity.
Qed.
Hint Resolve step_watch : runner.

Lemma step_runJob taskID : jR (runJob decode_job order scope error_text workload encode_resources deadline client_Get
  initJobCtl finalizeCompletedJob watch Ack taskID).
Proof.
  assert (HP : forall ctl op, (forall c, ctl = Some c -> exists job, initJobCtl job = Some c) -> jR (persist_or_stop ctl op)).
  { intros ctl op X. apply step_persist_or_stop. intros c E. destruct (X c E) as [job Ej]. by eapply Controllers_kept. }
  unfold runJob. apply jkeeps_bind; [apply _|runner_tac|]. intros j0.
  destruct (jobExecutionAlreadySettled _); [runner_tac|]. destruct (_ =? _)%string.
  { unfold skip_job. do 4 (apply jkeeps_bind; [apply _|runner_tac|intros ?]).
    destruct (initJobCtl _) as [ctl|] eqn:E; [|runner_tac]. apply HP. intros c [= <-]. by eexists. }
  cbv zeta. do 4 (apply jkeeps_bind; [apply _|runner_tac|intros ?]).
  pose proof (HP (initJobCtl (jr_job j0)) "persist cancelled job state"%string ltac:(eauto)).
  match goal with |- jkeeps _ (match ?x with _ => _ end) => destruct x end; [runner_tac|].
  destruct (initJobCtl (jr_job j0)) as [ctl|] eqn:E; [|runner_tac].
  pose proof (step_admit ctl (Controllers_kept _ _ E)).
  pose proof (HP (Some ctl) "persist cancellation watcher failure"%string ltac:(intros c [= <-]; by eexists)). runner_tac.
Qed.

Lemma step_recover_rounds recoveries taskID : Forall (jkeeps (on_exec R)) recoveries ->
  jR (recover_rounds decode_job order scope error_text workload encode_resources deadline client_Get
    initJobCtl finalizeCompletedJob watch Ack recoveries taskID).
Proof.
  assert (S : jR (exec InfrastructureStopCause)).
  { apply on_exec_program. unfold InfrastructureStopCause, IsInfrastructureStop.
    pose proof (R_cause P R R_outside) as K. repeat first [apply keeps_cbind; [apply _| |intros ?]|exact K|apply keeps_ret, _].
    destruct a; [exact K|apply keeps_ret, _]. }
  pose proof (step_runJob taskID). induction 1 as [|recover recoveries K _ IH]; cbn [recover_rounds]; runner_tac.
Qed.

Lemma step_recovery recover taskID :
  (forall first rest, recover = Some (first, rest) -> jR first /\ Forall (jkeeps (on_exec R)) rest) ->
  jR (runJobWithEvaluationRecovery decode_job order scope error_text workload encode_resources deadline client_Get
    initJobCtl finalizeCompletedJob watch Ack recover taskID).
Proof.
  intros Hr. pose proof (step_runJob taskID). unfold runJobWithEvaluationRecovery. destruct recover as [[first rest]|]; [|runner_tac].
  destruct (Hr first rest eq_refl) as [K F]. pose proof (step_recover_rounds rest taskID F). runner_tac.
Qed.
End RunnerSteps.

(** ** The runner in the controller's place *)

Section Compose.
Context {Q : Type} `{QuantityOps Q} `{KubernetesJson Q}.
Variable decode_job : Json -> option (Job Q).
Variable order : JobRetryPolicy Q -> list (string * Z).
Variable scope : option string.
Variable error_text : error -> string.
Variable workload : JobTask -> option (Job Q).
Variable encode_resources : gmap string Q -> result string.
Variable deadline : option Z.
Variable client_Get : option (string -> string -> C (result (Job Q))).
(** Controllers acknowledge too. *)
Variable initJobCtl : C unit -> JobTask -> option JobController.
Variable finalizeCompletedJob : J unit.
Variable watch : string -> result CancelWatcher.
Variable surroundings : nat -> Surroundings.
Variable recovery : JobTask -> option (J (result bool) * list (J (result bool))).
Variable taskID : string.
Variable authorizeJobs : list JobTask -> C (option error).
Variable pool_run : list JobTask -> Z -> bool -> C unit -> C (option error * list JobTask).

(** One job of the list, in its surroundings. *)
Definition run_one (n : nat) (Ack : C unit) (job : JobTask) : C (option error * JobTask) :=
  in_run (surroundings n) job
    (runJobWithEvaluationRecovery decode_job order scope error_text workload encode_resources deadline client_Get
       (initJobCtl Ack) finalizeCompletedJob watch Ack (recovery job) taskID).

Definition job_runner : list JobTask -> Z -> bool -> C unit -> C (option error * list JobTask) :=
  RunJob.RunJobs run_one authorizeJobs pool_run.

(** The workflow's dependencies with this runner. *)
Definition with_runner (base : WorkflowDeps) : WorkflowDeps := {|
  Controller.RunJobs := job_runner;
  prepareWorkspace := @prepareWorkspace base;
  GenerateJobTasks := @GenerateJobTasks base;
  buildWorkflowFailureCleanupJobs := @buildWorkflowFailureCleanupJobs base;
  saveCleanupInfo := @saveCleanupInfo base;
  workspaceManager := @workspaceManager base;
  workspaceEnsure := @workspaceEnsure base;
  workspaceEnsureEvaluationRunner := @workspaceEnsureEvaluationRunner base;
  evaluationConfigured := @evaluationConfigured base;
  prepareJobTask := @prepareJobTask base;
  range_jobs := @range_jobs base;
  Controller.error_text := @Controller.error_text base;
|}.

(** What the parts of other packages must keep. *)
Record RunnerFrame (P : relation Database) : Prop := {
  frame_get get namespace name : client_Get = Some get -> keeps (outside (respecting P)) (get namespace name);
  frame_finalize ack : tolerates P ack finalizeCompletedJob;
  frame_controllers ack job ctl : initJobCtl ack job = Some ctl -> JobControllerFrame P ack ctl;
  frame_recoveries ack job first rest : recovery job = Some (first, rest) ->
    tolerates P ack first /\ Forall (fun m => tolerates P ack m) rest;
  frame_authorize jobs : keeps (outside (respecting P)) (authorizeJobs jobs);
  frame_pool jobs n stop ack R : PreOrder R -> keeps R ack -> (forall e e', outside (respecting P) e e' -> R e e') ->
    keeps R (pool_run jobs n stop ack);
  pool_length jobs n stop ack e : length (snd (fst (pool_run jobs n stop ack e))) = length jobs;
}.

Lemma keeps_outside {A} P (m : C A) (R : relation Exec) :
  (forall e e', outside (respecting P) e e' -> R e e') -> keeps (outside (respecting P)) m -> keeps R m.
Proof. intros I K e. apply I, K. Qed.

Section Lawful.
Context (P : relation Database) `{FrameP : !OwnerFrame P}.
Hypothesis Parts : RunnerFrame P.

Lemma run_one_kept n ack job (R : relation Exec) `{!PreOrder R} : keeps R ack ->
  (forall e e', outside (respecting P) e e' -> R e e') -> keeps R (run_one n ack job).
Proof.
  intros Ka Ko e. unfold run_one, in_run.
  match goal with |- context [runJobWithEvaluationRecovery ?a ?b ?c ?d ?f ?g ?h ?i ?j ?k ?l ?m ?o ?t] =>
    assert (K : jkeeps (on_exec R) (runJobWithEvaluationRecovery a b c d f g h i j k l m o t)) end.
  { apply (step_recovery _ _ _ _ _ _ _ _ _ _ _ P ack R Ka Ko).
    - intros get ns nm E. eapply keeps_outside; [exact Ko|]. by apply (frame_get _ Parts).
    - by apply (frame_finalize _ Parts ack).
    - intros job' ctl E. destruct (frame_controllers _ Parts ack job' ctl E) as [A B D F].
      split; [by apply A|by apply B|by apply D|]. intros m Em. by apply (F m Em).
    - intros first rest E. destruct (frame_recoveries _ Parts ack job first rest E) as [A B].
      split; [by apply A|]. eapply Forall_impl; [exact B|]. intros m X. by apply X. }
  set (j0 := Build_JobRun _ _ _ _ _ _ _ _ _ _). specialize (K j0). unfold on_exec in K.
  match goal with |- context [let '(_, _) := ?x in _] => destruct x as [a j'] end. exact K.
Qed.

Lemma infrastructure_kept (R : relation Exec) `{!PreOrder R} :
  (forall e e', outside (respecting P) e e' -> R e e') -> keeps R InfrastructureStopCause.
Proof.
  intros Ko. pose proof (R_cause P R Ko) as K. unfold InfrastructureStopCause, IsInfrastructureStop.
  apply keeps_cbind; [apply _|apply keeps_cbind; [apply _|exact K|intros ?; apply keeps_ret, _]|].
  intros [|]; [exact K|apply keeps_ret, _].
Qed.

Lemma sequence_kept stop ack (R : relation Exec) `{!PreOrder R} rest : keeps R ack ->
  (forall e e', outside (respecting P) e e' -> R e e') -> forall ended, keeps R (run_sequence run_one stop ack ended rest).
Proof.
  intros Ka Ko. pose proof (R_cause P R Ko) as Kc. pose proof (infrastructure_kept R Ko) as Ks.
  induction rest as [|job rest IH]; intros ended; cbn [run_sequence]; [apply keeps_ret, _|].
  assert (Kend : forall A (k : option error -> A), keeps R (do! s := InfrastructureStopCause in cret (k s)))
    by (intros A k; apply keeps_cbind; [apply _|exact Ks|intros ?; apply keeps_ret, _]).
  apply keeps_cbind; [apply _|exact Kc|]. intros [cause|]; [apply Kend|].
  apply keeps_cbind; [apply _|by apply run_one_kept|]. intros [[e|] job']; [apply keeps_ret, _|].
  apply keeps_cbind; [apply _|exact Kc|]. intros [cause|]; [apply Kend|].
  apply keeps_if; [apply keeps_ret, _|apply IH].
Qed.

Lemma sequence_length stop ack rest : forall ended e,
  length (snd (fst (run_sequence run_one stop ack ended rest e))) = (length ended + length rest)%nat.
Proof.
  assert (E : forall (m : C (option error)) (l : list JobTask) e,
    length (snd (fst ((do! s := m in cret (s, l)) e))) = length l) by (intros; unfold cbind; by destruct (m e)).
  induction rest as [|job rest IH]; intros ended e; cbn [run_sequence]; [cbn; lia|].
  unfold cbind at 1. destruct (ctx_cause e) as [[cause|] e1]; [rewrite E, length_app; done|].
  unfold cbind at 1. destruct (run_one _ _ _ _) as [[[err|] job'] e2]; [cbn; rewrite length_app; done|].
  unfold cbind at 1. destruct (ctx_cause e2) as [[cause|] e3]; [rewrite E, length_app; done|].
  destruct (_ && _); [cbn; by rewrite length_app|]. rewrite IH, length_app. cbn. lia.
Qed.
End Lawful.
End Compose.

(** C12: the runner implements what the controller asks of it, and the composition is
    safe.  Take the job runner of [job.go] for the workflow's: whatever jobs it is
    given, whatever happens to them, and as long as their controllers, the clients and
    the worker pool only acknowledge and respect the task's row, it returns the jobs it
    got and only acknowledges ([JobRunnerLaws]).  So every single write of a run of a
    workflow with this runner, whatever was committed before it while the jobs were running,
    respects the task's row as the store has it then: no write overwrites a terminal status
    of its generation, whenever it was committed, or brings back a deleted row. *)
Theorem job_runner_composes {Q : Type} `{QuantityOps Q} `{KubernetesJson Q} decode_job order scope error_text workload
    encode_resources deadline client_Get initJobCtl finalizeCompletedJob watch surroundings recovery taskID authorizeJobs
    pool_run (base : WorkflowDeps) id :
  RunnerFrame client_Get initJobCtl finalizeCompletedJob recovery authorizeJobs pool_run (task_protocol id) ->
  RespectfulDeps (H := base) id -> TrimSpace id = id ->
  let deps := with_runner decode_job order scope error_text workload encode_resources deadline client_Get initJobCtl
    finalizeCompletedJob watch surroundings recovery taskID authorizeJobs pool_run base in
  JobRunnerLaws (H := deps) (respectful id) /\
  forall n e, wq_TaskID (wc_task e) = id -> jobSchedulingTerminal (wq_Status (wc_task e)) = false ->
    keyed (w_db (ex_world e)) -> env_respects (task_protocol id) (w_env (ex_world e)) ->
    let e' := snd (Controller.run (H := deps) n e) in
    commits (task_protocol id) (ex_world e) (ex_world e') /\ task_protocol id (w_db (ex_world e)) (w_db (ex_world e')).
Proof.
  intros Parts RD Tr deps.
  assert (L : JobRunnerLaws (H := deps) (respectful id)).
  { split.
    - intros tasks n stop ack e. cbn. unfold job_runner, RunJob.RunJobs. destruct tasks as [|t tasks]; [done|].
      unfold cbind. destruct (authorizeJobs _ e) as [[denied|] e1]; [done|]. destruct (_ =? 1).
      + by rewrite sequence_length.
      + by apply (pool_length _ _ _ _ _ _ _ Parts).
    - intros tasks n stop ack R PR Ka Ko. cbn. unfold job_runner, RunJob.RunJobs.
      destruct tasks as [|t tasks]; [apply keeps_ret, _|].
      apply keeps_cbind; [apply _|eapply keeps_outside; [exact Ko|by apply (frame_authorize _ _ _ _ _ _ _ Parts)]|].
      intros [denied|]; [apply keeps_ret, _|]. apply keeps_if; [|by apply (frame_pool _ _ _ _ _ _ _ Parts)].
      apply (sequence_kept _ _ _ _ _ _ _ _ _ _ _ _ _ _ _ _ (task_protocol id) Parts); assumption. }
  split; [exact L|]. intros n e I N K E. cbv zeta.
  assert (RD' : RespectfulDeps (H := deps) id) by (destruct RD; by split).
  assert (X : ControllerSafety.ended id (ex_world e) (ex_log e) (wc_terminalCallbackOnce e) (snd (Controller.run (H := deps) n e))).
  { unshelve eapply ended_run; try assumption. by repeat split. }
  destruct X as [_ [C _]]. split; [exact C|]. exact (proj2 (respectful_run _ _ _ C E)).
Qed.

(** ** A concrete composition *)

(** A plan of one step with one evaluation. *)
Definition runner_deps : WorkflowDeps := {|
  Controller.RunJobs := sample_runner;
  prepareWorkspace _ := ret "space"%string;
  GenerateJobTasks _ := ret [sample_step "evaluate" "StepByStep" {[1 := [sample_evaluation]]}];
  buildWorkflowFailureCleanupJobs _ := ret [];
  saveCleanupInfo _ := ret tt;
  workspaceManager := false;
  workspaceEnsure := ret tt;
  workspaceEnsureEvaluationRunner := ret tt;
  evaluationConfigured := true;
  prepareJobTask task _ := (Ok true, task);
  range_jobs jobs := sortedPriorities jobs;
  Controller.error_text := fun _ => "error"%string |}.

#[export] Instance runner_respectful : RespectfulDeps (H := runner_deps) "t1".
Proof. split; intros; apply frame_read_only, read_only_ret. Qed.

Definition calm_surroundings (n : nat) : Surroundings := Build_Surroundings [] 0 ContextCanceled [].

Definition composed : WorkflowDeps :=
  with_runner z_decode_job no_order None (fun _ => "failed"%string) (fun _ => None) (fun _ => Err ErrDatabase) None None
    (fun _ _ => Some sample_controller) (jret tt) (fun _ => Err ErrDatabase) calm_surroundings (fun _ => None) ""
    (fun _ => cret None) (fun jobs _ _ _ => cret (None, jobs)) runner_deps.

Definition composed_start : Exec :=
  Build_Exec (seqw sample_admitted 50000) [] None (sample_task <| wq_LeaseExpiresAt := Some (600 * Second) |>)
    StatusRunning false false false false "" true "" false false [].

Lemma composed_parts : RunnerFrame (Q := Z) None (fun _ _ => Some sample_controller) (jret tt) (fun _ => None) (fun _ => cret None)
  (fun jobs _ _ _ => cret (None, jobs)) (task_protocol "t1").
Proof.
  split.
  - done.
  - intros ack R PR _ _. apply jkeeps_ret, _.
  - intros ack job ctl [= <-]. split; [..|done]; intros R PR Ka Ko; cbn.
    + apply jkeeps_bind; [apply _|apply on_set, PR|intros ?; apply jkeeps_ret, _].
    + apply jkeeps_ret, _.
    + apply jkeeps_bind; [apply _|apply jkeeps_get, _|]. intros j.
      apply jkeeps_bind; [apply _| |intros ?; apply jkeeps_ret, _].
      apply (on_jdb (task_protocol "t1") R Ko), frame_save, _.
  - done.
  - intros jobs. apply keeps_ret, _.
  - intros jobs n stop ack R PR _ _. apply keeps_ret, _.
  - done.
Qed.

(** The evaluation runs, its record is saved and released, and the task completes. *)
Lemma job_runner_composes_witness :
  let e' := snd (Controller.run (H := composed) 1 composed_start) in
  (wq_Status <$> db_queue (w_db (ex_world e')) !! "t1"%string) = Some StatusCompleted /\
  ((fun r => (job_Status r, job_SchedulingState r)) <$> db_jobs (w_db (ex_world e')) !! 7) =
    Some (StatusCompleted, JobSchedulingReleased) /\
  JobRunnerLaws (H := composed) (respectful "t1") /\
  commits (task_protocol "t1") (ex_world composed_start) (ex_world e') /\
  task_protocol "t1" (w_db (ex_world composed_start)) (w_db (ex_world e')).
Proof.
  assert (B : (wq_Status <$> db_queue (w_db (ex_world (snd (Controller.run (H := composed) 1 composed_start)))) !! "t1"%string)
    = Some StatusCompleted) by (vm_compute; reflexivity).
  assert (D : ((fun r => (job_Status r, job_SchedulingState r)) <$>
      db_jobs (w_db (ex_world (snd (Controller.run (H := composed) 1 composed_start)))) !! 7)
    = Some (StatusCompleted, JobSchedulingReleased)) by (vm_compute; reflexivity).
  destruct (job_runner_composes z_decode_job no_order None (fun _ => "failed"%string) (fun _ => None) (fun _ => Err ErrDatabase)
    None None (fun _ _ => Some sample_controller) (jret tt) (fun _ => Err ErrDatabase) calm_surroundings (fun _ => None) ""
    (fun _ => cret None) (fun jobs _ _ _ => cret (None, jobs)) runner_deps "t1" composed_parts runner_respectful eq_refl)
    as [L G].
  change (JobRunnerLaws (H := composed) (respectful "t1")) in L.
  specialize (G 1 composed_start eq_refl eq_refl). cbv zeta.
  assert (K : keyed (w_db (ex_world composed_start))).
  { intros x r. cbn. intros [<- <-]%lookup_singleton_Some. reflexivity. }
  specialize (G K ltac:(constructor)). split; [exact B|]. split; [exact D|]. split; [exact L|exact G].
Defined.
