(* ===== verification/Pool.v ===== *)
(** The worker pool: [pkg/apiserver/event/workflow/job/job_pool.go].

    [Pool.Run] starts [n] goroutines that receive jobs from an unbuffered channel while
    the caller sends them in order.  The state is what the goroutines share and where
    each of them is; [step] is one action of one of them, so its closure is every
    interleaving.  What the run of a job returns is arbitrary: a step takes any error and
    any job. *)

From S2P Require Import Prelude GoStrings Config Json Quantity Policy Model Store Lease Budget.
From S2P Require Import Signals Scheduler PodResources Retry Cleanup JobInfos Components Controller JobExec RunJob.
From stdpp Require Import relations.

(** Where a worker is, with the index of its job. *)
Inductive Worker :=
  | Idle                              (* at the receive *)
  | Received (i : nat)                (* about to look at the context *)
  | Running (i : nat)
  | Returned (i : nat) (err : option error)
  | Recorded (i : nat) (err : error)  (* runErrOnce is done, cancel(err) is next *)
  | Checked (i : nat).                (* about to look at the job's status *)

(** Where [Run] is. *)
Inductive Feeder :=
  | Looping
  | Sending                           (* at the select *)
  | Closed                            (* the channel is closed, waiting for the workers *)
  | Ended (err : option error).

Inductive PoolEvent := Started (i : nat) | Finished (i : nat) (err : option error).

Record Pool := {
  po_Jobs : list JobTask;
  po_next : nat;                      (* jobs sent *)
  po_feeder : Feeder;
  po_workers : list Worker;
  po_parent : option error;           (* context.Cause of the run's context *)
  po_cause : option error;            (* and of the pool's own *)
  po_runErr : option error;
  po_log : list PoolEvent;
}.

#[export] Instance eta_Pool : Settable Pool := fun p =>
  Build_Pool (po_Jobs p) (po_next p) (po_feeder p) (po_workers p) (po_parent p) (po_cause p) (po_runErr p)
    (po_log p).

Definition NewPool (jobs : list JobTask) (concurrency : nat) (parent : option error) : Pool :=
  Build_Pool jobs 0 Looping (replicate concurrency Idle) parent parent None [].

(** The first cause stays. *)
Definition cancel_pool (cause : error) (p : Pool) : Pool :=
  match po_cause p with Some _ => p | None => p <| po_cause := Some cause |> end.

Definition move (w : nat) (s : Worker) (p : Pool) : Pool := p <| po_workers := <[w := s]> (po_workers p) |>.

Definition log_pool (ev : PoolEvent) (p : Pool) : Pool := p <| po_log := (po_log p ++ [ev])%list |>.

Section Steps.
Variable stopOnFailure : bool.

(** The end of an iteration of a worker, before [wg.Done()]. *)
Definition stop_after (i : nat) (p : Pool) : Pool :=
  match po_Jobs p !! i with
  | Some job => if stopOnFailure && jobStatusFailed (jt_Status job) then cancel_pool ContextCanceled p else p
  | None => p
  end.

Inductive step (p : Pool) : Pool -> Prop :=
  | step_parent cause : po_parent p = None ->
      step p (cancel_pool cause (p <| po_parent := Some cause |>))
  | step_exhausted : po_feeder p = Looping -> po_next p = length (po_Jobs p) ->
      step p (p <| po_feeder := Closed |>)
  | step_stop : po_feeder p = Looping -> (po_next p < length (po_Jobs p))%nat -> po_cause p <> None ->
      step p (p <| po_feeder := Closed |>)
  | step_next : po_feeder p = Looping -> (po_next p < length (po_Jobs p))%nat -> po_cause p = None ->
      step p (p <| po_feeder := Sending |>)
  | step_send w : po_feeder p = Sending -> po_workers p !! w = Some Idle ->
      step p (move w (Received (po_next p)) (p <| po_feeder := Looping |> <| po_next := S (po_next p) |>))
  | step_break : po_feeder p = Sending -> po_cause p <> None ->
      step p (p <| po_feeder := Closed |>)
  | step_skip w i : po_workers p !! w = Some (Received i) -> po_cause p <> None ->
      step p (move w Idle p)
  | step_start w i : po_workers p !! w = Some (Received i) -> po_cause p = None ->
      step p (log_pool (Started i) (move w (Running i) p))
  | step_finish w i err job : po_workers p !! w = Some (Running i) ->
      step p (log_pool (Finished i err) (move w (Returned i err) (p <| po_Jobs := <[i := job]> (po_Jobs p) |>)))
  | step_success w i : po_workers p !! w = Some (Returned i None) ->
      step p (move w (Checked i) p)
  | step_record w i err : po_workers p !! w = Some (Returned i (Some err)) ->
      step p (move w (Recorded i err) (p <| po_runErr := Some (default err (po_runErr p)) |>))
  | step_cancel w i err : po_workers p !! w = Some (Recorded i err) ->
      step p (move w (Checked i) (cancel_pool err p))
  | step_done w i : po_workers p !! w = Some (Checked i) ->
      step p (move w Idle (stop_after i p))
  | step_return : po_feeder p = Closed -> Forall (fun s => s = Idle) (po_workers p) ->
      step p (p <| po_feeder := Ended (po_runErr p) |>).

Definition reachable (jobs : list JobTask) (n : nat) (parent : option error) (p : Pool) : Prop :=
  rtc step (NewPool jobs n parent) p.
End Steps.

(** What [RunJobs] returns after the pool: the pool's error, or why it was stopped. *)
Definition pool_result (p : Pool) : option (option error) :=
  match po_feeder p with
  | Ended (Some err) => Some (Some err)
  | Ended None => Some (if is_err ErrInfrastructureStop (po_parent p) then po_parent p else None)
  | _ => None
  end.

(** ** What the workers hold *)

Definition held (s : Worker) : list nat :=
  match s with
  | Idle => []
  | Received i | Running i | Returned i _ | Recorded i _ | Checked i => [i]
  end.

Definition started (p : Pool) : list nat := flat_map (fun ev => match ev with Started i => [i] | _ => [] end) (po_log p).
Definition finished (p : Pool) : list nat := flat_map (fun ev => match ev with Finished i _ => [i] | _ => [] end) (po_log p).
Definition errors (p : Pool) : list error :=
  flat_map (fun ev => match ev with Finished _ (Some e) => [e] | _ => [] end) (po_log p).

(** The job has been received and not yet run. *)
Definition unstarted (s : Worker) : bool := match s with Idle | Received _ => true | _ => false end.
(** Its run has not returned. *)
Definition unfinished (s : Worker) : bool := match s with Idle | Received _ | Running _ => true | _ => false end.

Record pool_ok (n total : nat) (p : Pool) : Prop := {
  ok_size : length (po_workers p) = n;
  ok_jobs : length (po_Jobs p) = total;
  ok_next : (po_next p <= total)%nat;
  ok_sending : po_feeder p = Sending -> (po_next p < total)%nat;
  ok_unique w w' s s' i : po_workers p !! w = Some s -> po_workers p !! w' = Some s' ->
    In i (held s) -> In i (held s') -> w = w';
  ok_held w s i : po_workers p !! w = Some s -> In i (held s) ->
    (i < po_next p)%nat /\ (In i (started p) <-> unstarted s = false) /\ (In i (finished p) <-> unfinished s = false);
  ok_started : NoDup (started p) /\ forall i, In i (started p) -> (i < po_next p)%nat;
  ok_finished : NoDup (finished p) /\ forall i, In i (finished p) -> In i (started p);
  ok_active i : In i (started p) -> In i (finished p) \/ exists w, po_workers p !! w = Some (Running i);
  ok_error e : po_runErr p = Some e -> In e (errors p);
  ok_errors : errors p <> [] -> po_runErr p <> None \/ exists w i e, po_workers p !! w = Some (Returned i (Some e));
  ok_recorded w i e : po_workers p !! w = Some (Recorded i e) -> po_runErr p <> None;
  ok_live : po_cause p = None -> forall i, (i < po_next p)%nat ->
    In i (started p) \/ exists w, po_workers p !! w = Some (Received i);
  ok_closed : (po_feeder p = Closed \/ exists err, po_feeder p = Ended err) -> po_cause p = None -> po_next p = total;
  ok_ended err : po_feeder p = Ended err -> err = po_runErr p /\ Forall (fun s => s = Idle) (po_workers p);
}.

Section Invariant.
Variable stopOnFailure : bool.
Abbreviation step := (step stopOnFailure).

Lemma ok_start jobs n parent : pool_ok n (length jobs) (NewPool jobs n parent).
Proof.
  assert (R : forall w s, replicate n Idle !! w = Some s -> s = Idle) by (intros w s [-> _]%lookup_replicate_1; done).
  split; cbn; try done; try lia.
  - apply length_replicate.
  - intros w w' s s' i ->%R. done.
  - by intros w s i ->%R.
  - split; [constructor|done].
  - split; [constructor|done].
  - by intros w i e ?%R.
  - by intros [|[]].
Qed.

(** A step that moves one worker and keeps what it holds, or takes it from it. *)
Lemma cancel_pool_other cause p :
  po_workers (cancel_pool cause p) = po_workers p /\ po_Jobs (cancel_pool cause p) = po_Jobs p /\
  po_next (cancel_pool cause p) = po_next p /\ po_feeder (cancel_pool cause p) = po_feeder p /\
  po_runErr (cancel_pool cause p) = po_runErr p /\ po_log (cancel_pool cause p) = po_log p /\
  po_cause (cancel_pool cause p) <> None /\ (po_cause p <> None -> po_cause (cancel_pool cause p) = po_cause p).
Proof. unfold cancel_pool. destruct (po_cause p) eqn:E; cbn; rewrite ?E; by repeat split. Qed.

(** What matters of the cause is whether there is one. *)
Lemma ok_cancel n total p p' : pool_ok n total p ->
  po_workers p' = po_workers p -> po_Jobs p' = po_Jobs p -> po_next p' = po_next p -> po_feeder p' = po_feeder p ->
  po_runErr p' = po_runErr p -> po_log p' = po_log p -> (po_cause p' = None -> po_cause p = None) -> pool_ok n total p'.
Proof.
  intros [] W J N F R L C. unfold started, finished, errors in *.
  split; unfold started, finished, errors; rewrite ?W, ?J, ?N, ?F, ?R, ?L; eauto.
Qed.

Lemma ok_feeder n total p f : pool_ok n total p ->
  (f = Sending -> (po_next p < total)%nat) ->
  ((f = Closed \/ exists err, f = Ended err) -> po_cause p = None -> po_next p = total) ->
  (forall err, f = Ended err -> err = po_runErr p /\ Forall (fun s => s = Idle) (po_workers p)) ->
  pool_ok n total (p <| po_feeder := f |>).
Proof. intros [] S C E. split; cbn; eauto. Qed.

Lemma moved w s p w' x : po_workers (move w s p) !! w' = Some x ->
  (w' = w /\ x = s) \/ (w' <> w /\ po_workers p !! w' = Some x).
Proof.
  cbn. intros [(-> & -> & _)|[N L]]%list_lookup_insert_Some; [by left|]. right. split; [congruence|done].
Qed.

Lemma moved_other w s p w' x : po_workers p !! w' = Some x -> po_workers p !! w <> Some x ->
  po_workers (move w s p) !! w' = Some x.
Proof. intros L N. cbn. rewrite list_lookup_insert_ne; [done|]. by intros ->. Qed.

Lemma not_ended n total p w s : pool_ok n total p -> po_workers p !! w = Some s -> s <> Idle ->
  forall err, po_feeder p <> Ended err.
Proof.
  intros K L N err E. destruct (ok_ended _ _ _ K _ E) as [_ F]. rewrite Forall_lookup in F. by apply N, (F w).
Qed.

(** Moving a worker on with the same job at the same stage of its run, or letting go of it. *)
Lemma ok_move n total p w s s' : pool_ok n total p -> po_workers p !! w = Some s -> s <> Idle ->
  (forall i, In i (held s') -> In i (held s) /\ unstarted s' = unstarted s /\ unfinished s' = unfinished s) ->
  (forall i, s <> Running i) ->
  (forall i, s = Received i -> po_cause p <> None) ->
  (forall i e, s = Returned i (Some e) -> po_runErr p <> None) ->
  (forall i e, s' = Recorded i e -> po_runErr p <> None) ->
  pool_ok n total (move w s' p).
Proof.
  intros K L NI H R1 R2 R3 R4. pose proof (not_ended _ _ _ _ _ K L NI) as NE. destruct K.
  split; try (cbn; rewrite ?length_insert; assumption).
  - intros w1 w2 s1 s2 i [[-> ->]|[N1 L1]]%moved [[-> ->]|[N2 L2]]%moved I1 I2; [done|..|by eauto].
    + symmetry. eapply ok_unique0; [exact L2|exact L|exact I2|]. by apply H.
    + eapply ok_unique0; [exact L1|exact L|exact I1|]. by apply H.
  - intros w1 s1 i [[-> ->]|[N1 L1]]%moved I; [|by apply (ok_held0 w1 s1 i)].
    destruct (H i I) as (I' & -> & ->). by apply (ok_held0 w s i).
  - intros i I. destruct (ok_active0 i I) as [|[w1 L1]]; [by left|]. right. exists w1. apply moved_other; [done|].
    rewrite L. intros [= ->]. by apply (R1 i).
  - intros E. destruct (ok_errors0 E) as [|(w1 & i & e & L1)]; [by left|]. destruct (decide (w1 = w)) as [->|N].
    + left. rewrite L in L1. injection L1 as ->. by apply (R3 i e).
    + right. exists w1, i, e. cbn. by rewrite list_lookup_insert_ne.
  - intros w1 i e [[-> E]|[N1 L1]]%moved; [by apply (R4 i e)|by apply (ok_recorded0 w1 i e)].
  - intros C i I. destruct (ok_live0 C i I) as [|[w1 L1]]; [by left|]. right. exists w1. apply moved_other; [done|].
    rewrite L. intros [= ->]. by apply (R2 i).
  - intros err E. by destruct (NE err).
Qed.

Lemma started_app p ev : started (log_pool ev p) = (started p ++ match ev with Started i => [i] | _ => [] end)%list.
Proof. unfold started. cbn. rewrite flat_map_app. cbn. by rewrite app_nil_r. Qed.

Lemma finished_app p ev : finished (log_pool ev p) = (finished p ++ match ev with Finished i _ => [i] | _ => [] end)%list.
Proof. unfold finished. cbn. rewrite flat_map_app. cbn. by rewrite app_nil_r. Qed.

Lemma errors_app p ev : errors (log_pool ev p) = (errors p ++ match ev with Finished _ (Some e) => [e] | _ => [] end)%list.
Proof. unfold errors. cbn. rewrite flat_map_app. cbn. by rewrite app_nil_r. Qed.

Lemma NoDup_snoc {A} (l : list A) x : NoDup l -> ~ In x l -> NoDup (l ++ [x]).
Proof.
  intros D N. apply NoDup_app. split; [done|]. split; [|apply NoDup_singleton].
  intros y Y%list_elem_of_In [->|[]]%list_elem_of_In. done.
Qed.

Lemma In_snoc {A} (l : list A) x y : In y (l ++ [x]) <-> In y l \/ y = x.
Proof. rewrite in_app_iff. cbn. intuition. Qed.

Lemma ok_send n total p w : pool_ok n total p -> po_feeder p = Sending -> po_workers p !! w = Some Idle ->
  pool_ok n total (move w (Received (po_next p)) (p <| po_feeder := Looping |> <| po_next := S (po_next p) |>)).
Proof.
  intros K F L. pose proof (ok_sending _ _ _ K F) as B. destruct K.
  set (p0 := p <| po_feeder := Looping |> <| po_next := S (po_next p) |>).
  assert (X : forall w' x, po_workers p !! w' = Some x -> x <> Idle -> po_workers (move w (Received (po_next p)) p0) !! w' = Some x).
  { intros w' x L' N. apply moved_other; [done|]. cbn. rewrite L. congruence. }
  split; try (cbn; rewrite ?length_insert; first [assumption|lia|congruence]).
  - intros w1 w2 s1 s2 i [[-> ->]|[N1 L1]]%moved [[-> ->]|[N2 L2]]%moved I1 I2; [done|..|by eauto].
    + destruct I1 as [<-|[]]. destruct (ok_held0 _ _ _ L2 I2). lia.
    + destruct I2 as [<-|[]]. destruct (ok_held0 _ _ _ L1 I1). lia.
  - intros w1 s1 i [[-> ->]|[N1 L1]]%moved I.
    + destruct I as [<-|[]]. split; [cbn; lia|]. cbn.
      split; (split; [intros Y|done]).
      * apply ok_started0 in Y. cbn in Y. lia.
      * apply ok_finished0, ok_started0 in Y. cbn in Y. lia.
    + destruct (ok_held0 _ _ _ L1 I) as (A & B' & C). split; [cbn; lia|by split].
  - split; [apply ok_started0|]. intros i I. apply ok_started0 in I. cbn. lia.
  - intros i I. destruct (ok_active0 i I) as [|[w1 L1]]; [by left|]. right. exists w1. by apply X.
  - intros E. destruct (ok_errors0 E) as [|(w1 & i & e & L1)]; [by left|]. right. exists w1, i, e. by apply X.
  - intros w1 i e [[-> ?]|[N1 L1]]%moved; [done|by apply (ok_recorded0 w1 i e)].
  - intros C i I. cbn in I. destruct (decide (i = po_next p)) as [->|N].
    + right. exists w. cbn. rewrite list_lookup_insert_eq; [done|]. by eapply lookup_lt_Some.
    + destruct (ok_live0 C i ltac:(lia)) as [|[w1 L1]]; [by left|]. right. exists w1. by apply X.
  - cbn. by intros [|[]].
Qed.

Lemma ok_begin n total p w i : pool_ok n total p -> po_workers p !! w = Some (Received i) -> po_cause p = None ->
  pool_ok n total (log_pool (Started i) (move w (Running i) p)).
Proof.
  intros K L C. pose proof (not_ended _ _ _ _ _ K L ltac:(done)) as NE. destruct K.
  destruct (ok_held0 w _ i L ltac:(by left)) as (B & S1 & S2).
  assert (NS : ~ In i (started p)) by (rewrite S1; done). assert (NF : ~ In i (finished p)) by (rewrite S2; done).
  set (p' := move w (Running i) p).
  split; try (cbn; rewrite ?length_insert; assumption).
  - intros w1 w2 s1 s2 k [[-> ->]|[N1 L1]]%moved [[-> ->]|[N2 L2]]%moved I1 I2; [done|..|by eauto].
    + eapply (ok_unique0 w w2); eauto.
    + eapply (ok_unique0 w1 w); eauto.
  - intros w1 s1 k L' I. rewrite started_app, finished_app, app_nil_r, In_snoc. apply moved in L' as [[-> ->]|[N1 L1]].
    + destruct I as [<-|[]]. split; [done|]. cbn. split; [tauto|]. split; [done|done].
    + destruct (ok_held0 _ _ _ L1 I) as (B' & S1' & S2'). split; [done|]. split; [|done].
      rewrite <- S1'. split; [|tauto]. intros [?| ->]; [done|]. destruct N1. eapply ok_unique0; eauto. by left.
  - rewrite started_app. split; [apply NoDup_snoc; [apply ok_started0|done]|].
    intros k [I| ->]%In_snoc; [by apply ok_started0|done].
  - rewrite started_app, finished_app, app_nil_r. split; [apply ok_finished0|]. intros k I. apply In_snoc. left. by apply ok_finished0.
  - intros k. rewrite started_app, finished_app, app_nil_r, In_snoc. intros [I| ->].
    + destruct (ok_active0 k I) as [|[w1 L1]]; [by left|]. right. exists w1. apply moved_other; [done|]. rewrite L. congruence.
    + right. exists w. cbn. rewrite list_lookup_insert_eq; [done|]. by eapply lookup_lt_Some.
  - intros e. rewrite errors_app, app_nil_r. apply ok_error0.
  - rewrite errors_app, app_nil_r. intros E. destruct (ok_errors0 E) as [|(w1 & k & e & L1)]; [by left|].
    right. exists w1, k, e. apply moved_other; [done|]. rewrite L. congruence.
  - intros w1 k e [[-> ?]|[N1 L1]]%moved; [done|by apply (ok_recorded0 w1 k e)].
  - intros C' k I. rewrite started_app, In_snoc. destruct (ok_live0 C' k I) as [|[w1 L1]]; [by left; left|].
    destruct (decide (k = i)) as [->|N]; [by left; right|]. right. exists w1. apply moved_other; [done|]. rewrite L. congruence.
  - intros err E. by destruct (NE err).
Qed.

Lemma ok_finish n total p w i err job : pool_ok n total p -> po_workers p !! w = Some (Running i) ->
  pool_ok n total (log_pool (Finished i err) (move w (Returned i err) (p <| po_Jobs := <[i := job]> (po_Jobs p) |>))).
Proof.
  intros K L. pose proof (not_ended _ _ _ _ _ K L ltac:(done)) as NE. destruct K.
  destruct (ok_held0 w _ i L ltac:(by left)) as (B & S1 & S2).
  assert (NS : In i (started p)) by (rewrite S1; done). assert (NF : ~ In i (finished p)) by (rewrite S2; done).
  split; try (cbn; rewrite ?length_insert; assumption).
  - intros w1 w2 s1 s2 k [[-> ->]|[N1 L1]]%moved [[-> ->]|[N2 L2]]%moved I1 I2; [done|..|by eauto].
    + eapply (ok_unique0 w w2); eauto.
    + eapply (ok_unique0 w1 w); eauto.
  - intros w1 s1 k L' I. rewrite started_app, finished_app, app_nil_r, In_snoc. apply moved in L' as [[-> ->]|[N1 L1]].
    + destruct I as [<-|[]]. split; [done|]. cbn. split; [by split|]. split; [done|by right].
    + destruct (ok_held0 _ _ _ L1 I) as (B' & S1' & S2'). split; [done|]. split; [done|].
      unfold finished in S2'. cbn in S2'. rewrite <- S2'. split; [|tauto].
      intros [?| ->]; [done|]. destruct N1. eapply ok_unique0; eauto. by left.
  - rewrite started_app, app_nil_r. exact ok_started0.
  - rewrite started_app, finished_app, app_nil_r. split; [apply NoDup_snoc; [apply ok_finished0|done]|].
    intros k [I| ->]%In_snoc; [by apply ok_finished0|done].
  - intros k. rewrite started_app, finished_app, app_nil_r, In_snoc. intros I. destruct (decide (k = i)) as [->|N]; [by left; right|].
    destruct (ok_active0 k I) as [|[w1 L1]]; [by left; left|]. right. exists w1. apply moved_other; [done|]. cbn. rewrite L. congruence.
  - intros e X. rewrite errors_app. apply in_or_app. left. by apply ok_error0.
  - destruct err as [e|].
    + right. exists w, i, e. cbn. rewrite list_lookup_insert_eq; [done|]. by eapply lookup_lt_Some.
    + rewrite errors_app, app_nil_r. intros E. destruct (ok_errors0 E) as [|(w1 & k & e & L1)]; [by left|].
      right. exists w1, k, e. apply moved_other; [done|]. cbn. rewrite L. congruence.
  - intros w1 k e [[-> ?]|[N1 L1]]%moved; [done|by apply (ok_recorded0 w1 k e)].
  - intros C' k I. rewrite started_app, app_nil_r. destruct (ok_live0 C' k I) as [|[w1 L1]]; [by left|].
    right. exists w1. apply moved_other; [done|]. cbn. rewrite L. congruence.
  - intros e E. by destruct (NE e).
Qed.

Lemma ok_record n total p w i err : pool_ok n total p -> po_workers p !! w = Some (Returned i (Some err)) ->
  In err (errors p) -> pool_ok n total (p <| po_runErr := Some (default err (po_runErr p)) |>).
Proof.
  intros K L I. pose proof (not_ended _ _ _ _ _ K L ltac:(done)) as NE. destruct K.
  split; cbn; try assumption; try done.
  - intros e [= <-]. destruct (po_runErr p) as [e'|]; [by apply ok_error0|done].
  - intros _. by left.
  - intros e E. by destruct (NE e).
Qed.

(** What a worker returned is in the log. *)
Definition returns_logged (p : Pool) : Prop :=
  forall w i e, po_workers p !! w = Some (Returned i (Some e)) -> In e (errors p).

Lemma ok_step n total p p' : pool_ok n total p -> returns_logged p -> step p p' -> pool_ok n total p' /\ returns_logged p'.
Proof.
  intros K RL S.
  assert (Move : forall w s q, returns_logged q -> (forall i e, s <> Returned i (Some e)) -> returns_logged (move w s q)).
  { intros w s q Q N w1 i e [[-> E]|[_ L]]%moved; [by destruct (N i e)|]. by apply (Q w1 i e). }
  assert (Cancel : forall c q, returns_logged q -> returns_logged (cancel_pool c q)).
  { intros c q Q w i e. destruct (cancel_pool_other c q) as (W & _ & _ & _ & _ & G & _).
    unfold errors. rewrite W, G. apply Q. }
  destruct S as [cause P|F E|F E C|F E C|w F L|F C|w i L C|w i L C|w i err job L|w i L|w i err L|w i err L|w i L|F A].
  - set (q := p <| po_parent := Some cause |>). assert (Kq : pool_ok n total q) by (eapply ok_cancel; [exact K|done..]).
    destruct (cancel_pool_other cause q) as (? & ? & ? & ? & ? & ? & ? & ?). split; [|by apply Cancel].
    eapply ok_cancel; [exact Kq|done..].
  - split; [|exact RL]. apply ok_feeder; [done|done| |done]. intros _ _. rewrite E. apply (ok_jobs _ _ _ K).
  - split; [|exact RL]. apply ok_feeder; [done|done|congruence|done].
  - split; [|exact RL]. apply ok_feeder; [done| |by intros [|[]]|done]. intros _. rewrite (ok_jobs _ _ _ K) in E. done.
  - split; [by apply ok_send|]. by apply Move.
  - split; [|exact RL]. apply ok_feeder; [done|done|congruence|done].
  - split; [|by apply Move]. eapply ok_move; [exact K|exact L|done|..]; try done. 
  - split; [by apply ok_begin|]. intros w1 k e X. rewrite errors_app, app_nil_r. revert X. by apply Move.
  - split; [by apply ok_finish|]. intros w1 k e [[-> [= _ E]]|[_ L1]]%moved; rewrite errors_app; apply in_or_app.
    + right. rewrite <- E. by left.
    + left. by apply (RL w1 k e).
  - split; [|by apply Move]. eapply ok_move; [exact K|exact L|..]; try done.
  - pose proof (ok_record _ _ _ _ _ _ K L (RL w i err L)) as Kr. split; [|by apply Move].
    eapply ok_move; [exact Kr|exact L|..]; try done.
  - destruct (cancel_pool_other err p) as (W & ? & ? & ? & Er & ? & ? & ?). split; [|by apply Move; [apply Cancel|]].
    assert (Kc : pool_ok n total (cancel_pool err p)) by (eapply ok_cancel; [exact K|done..]).
    eapply ok_move; [exact Kc|by rewrite W|..]; try done.
  - assert (X : exists q, (q = p \/ q = cancel_pool ContextCanceled p) /\ stop_after stopOnFailure i p = q).
    { unfold stop_after. destruct (po_Jobs p !! i) as [job|]; [|by exists p; auto]. destruct (_ && _); eauto. }
    destruct X as (q & [->| ->] & ->).
    + split; [|by apply Move]. eapply ok_move; [exact K|exact L|..]; done.
    + destruct (cancel_pool_other ContextCanceled p) as (W & ? & ? & ? & Er & ? & ? & ?). split; [|by apply Move; [apply Cancel|]].
      assert (Kc : pool_ok n total (cancel_pool ContextCanceled p)) by (eapply ok_cancel; [exact K|done..]).
      eapply ok_move; [exact Kc|by rewrite W|..]; done.
  - split; [|exact RL]. apply ok_feeder; [done|done| |].
    + intros _ C. apply (ok_closed _ _ _ K); [by left|done].
    + intros err [= <-]. by split.
Qed.

Lemma ok_steps n total p p' : pool_ok n total p -> returns_logged p -> rtc step p p' -> pool_ok n total p' /\ returns_logged p'.
Proof. intros K R S. induction S as [p|p q r S _ IH]; [done|]. destruct (ok_step _ _ _ _ K R S). by apply IH. Qed.

Lemma ok_reachable jobs n parent p : reachable stopOnFailure jobs n parent p -> pool_ok n (length jobs) p.
Proof.
  intros R. eapply ok_steps; [apply ok_start| |exact R]. intros w i e L. cbn in L.
  apply lookup_replicate_1 in L as [L _]. done.
Qed.

(** Once cancelled, the pool stays so and starts nothing. *)
Lemma cancelled_step p p' : step p p' -> po_cause p <> None -> po_cause p' <> None /\ started p' = started p.
Proof.
  intros S C. assert (X : forall c q, po_cause q <> None -> po_cause (cancel_pool c q) <> None /\ started (cancel_pool c q) = started q).
  { intros c q Q. destruct (cancel_pool_other c q) as (_ & _ & _ & _ & _ & G & N & _). unfold started. by rewrite G. }
  destruct S; try (by split); try done.
  - unfold cancel_pool, started. cbn. destruct (po_cause p) eqn:E; [|done]. split; [cbn; congruence|done].
  - unfold started. cbn. rewrite flat_map_app. cbn. by rewrite app_nil_r.
  - apply (X err p), C.
  - unfold stop_after. destruct (po_Jobs p !! i); [|by split]. destruct (_ && _); [apply (X _ p), C|by split].
Qed.

Lemma cancelled_steps p p' : rtc step p p' -> po_cause p <> None -> started p' = started p.
Proof.
  intros S. induction S as [p|p q r S _ IH]; [done|]. intros C. destruct (cancelled_step _ _ S C) as [C' E].
  by rewrite (IH C').
Qed.

(** ** Every interleaving ends *)

Definition worker_work (s : Worker) : nat :=
  match s with Idle => 0 | Received _ => 5 | Running _ => 4 | Returned _ _ => 3 | Recorded _ _ => 2 | Checked _ => 1 end.

Definition feeder_work (f : Feeder) : nat :=
  match f with Looping => 3 | Sending => 2 | Closed => 1 | Ended _ => 0 end.

(** The actions left: what the workers have before them, seven for each job not yet sent,
    the feeder's own, and the cancellation of the run. *)
Definition work (p : Pool) : nat :=
  sum_list_with worker_work (po_workers p) + 7 * (length (po_Jobs p) - po_next p) + feeder_work (po_feeder p) +
  (match po_parent p with Some _ => 0 | None => 1 end).

Lemma sum_insert (l : list Worker) w s s' : l !! w = Some s ->
  sum_list_with worker_work (<[w := s']> l) + worker_work s = sum_list_with worker_work l + worker_work s'.
Proof.
  revert w. induction l as [|x l IH]; intros [|w] L; try done.
  - injection L as ->. change (<[0%nat := s']> (s :: l)) with (s' :: l). cbn [sum_list_with]. lia.
  - change (<[S w := s']> (x :: l)) with (x :: <[w := s']> l). specialize (IH w L). cbn [sum_list_with]. lia.
Qed.

Lemma work_move p w s s' : po_workers p !! w = Some s -> work (move w s' p) + worker_work s = work p + worker_work s'.
Proof. intros L. unfold work. cbn -[sum_list_with Nat.mul]. pose proof (sum_insert _ _ _ s' L). lia. Qed.

Lemma work_cancel c p : work (cancel_pool c p) = work p.
Proof. unfold cancel_pool. by destruct (po_cause p). Qed.

Lemma step_works n total p p' : pool_ok n total p -> step p p' -> (work p' < work p)%nat.
Proof.
  intros K S.
  assert (Fd : forall q f, work (q <| po_feeder := f |>) + feeder_work (po_feeder q) = work q + feeder_work f)
    by (intros; unfold work; cbn -[sum_list_with Nat.mul]; lia).
  assert (Mv : forall w s s' q, work q = work p -> po_workers q = po_workers p -> po_workers p !! w = Some s ->
    (worker_work s' < worker_work s)%nat -> (work (move w s' q) < work p)%nat).
  { intros w s s' q E W L D. rewrite <- W in L. pose proof (work_move q w s s' L). lia. }
  destruct S as [cause P|F E|F E C|F E C|w F L|F C|w i L C|w i L C|w i err job L|w i L|w i err L|w i err L|w i L|F A].
  - rewrite work_cancel. unfold work. cbn -[sum_list_with Nat.mul]. rewrite P. lia.
  - pose proof (Fd p Closed). rewrite F in *. cbn in *. lia.
  - pose proof (Fd p Closed). rewrite F in *. cbn in *. lia.
  - pose proof (Fd p Sending). rewrite F in *. cbn in *. lia.
  - pose proof (ok_sending _ _ _ K F) as B. rewrite <- (ok_jobs _ _ _ K) in B. 
    set (q := p <| po_feeder := Looping |> <| po_next := S (po_next p) |>).
    pose proof (work_move q w Idle (Received (po_next p)) L) as M.
    assert (Q : work q + 6 = work p) by (subst q; unfold work; cbn -[sum_list_with Nat.mul Nat.sub]; rewrite F; cbn [feeder_work]; lia).
    cbn [worker_work] in M. lia.
  - pose proof (Fd p Closed). rewrite F in *. cbn in *. lia.
  - eapply Mv; [done..|exact L|cbn; lia].
  - change (work (log_pool (Started i) (move w (Running i) p)) < work p)%nat with (work (move w (Running i) p) < work p)%nat.
    eapply Mv; [done..|exact L|cbn; lia].
  - set (q := p <| po_Jobs := <[i := job]> (po_Jobs p) |>).
    change (work (move w (Returned i err) q) < work p)%nat.
    eapply Mv; [|done|exact L|cbn; lia]. unfold work. cbn -[sum_list_with Nat.mul]. by rewrite length_insert.
  - eapply Mv; [done..|exact L|cbn; lia].
  - eapply Mv; [|done|exact L|cbn; lia]. done.
  - destruct (cancel_pool_other err p) as (W & _). eapply Mv; [apply work_cancel|exact W|exact L|cbn; lia].
  - destruct (cancel_pool_other ContextCanceled p) as (W & _). unfold stop_after.
    destruct (po_Jobs p !! i); [|by eapply Mv; [done..|exact L|cbn; lia]].
    destruct (_ && _); eapply Mv; try exact L; try done; [apply work_cancel|cbn; lia|cbn; lia].
  - pose proof (Fd p (Ended (po_runErr p))). rewrite F in *. cbn in *. lia.
Qed.

(** A pool with a worker that has not returned can go on by itself. *)
Lemma step_progress n total p : pool_ok n total p -> (0 < n)%nat -> (forall err, po_feeder p <> Ended err) ->
  exists p', step p p' /\ po_parent p' = po_parent p.
Proof.
  intros K N NE.
  destruct (decide (Forall (fun s => held s = []) (po_workers p))) as [A|A].
  - assert (I : Forall (fun s => s = Idle) (po_workers p)) by (eapply Forall_impl; [exact A|]; by intros []).
    destruct (po_feeder p) eqn:F; [| | |by destruct (NE err)].
    + destruct (decide (po_next p = length (po_Jobs p))) as [E|E]; [eexists; split; [by apply step_exhausted|done]|].
      assert (B : (po_next p < length (po_Jobs p))%nat) by (pose proof (ok_next _ _ _ K); rewrite (ok_jobs _ _ _ K) in *; lia).
      destruct (po_cause p) eqn:C; [eexists; split; [apply step_stop; [done..|congruence]|done]|].
      eexists; split; [by apply step_next|done].
    + destruct (po_workers p) as [|s l] eqn:W; [pose proof (ok_size _ _ _ K) as Z0; rewrite W in Z0; cbn in Z0; lia|].
      inversion_clear I as [|? ? -> _]. eexists. split; [apply (step_send _ _ 0); [done|by rewrite W]|done].
    + eexists; split; [by apply step_return|done].
  - apply not_Forall_Exists in A; [|apply _]. apply Exists_exists in A as (s & I & H). apply list_elem_of_lookup in I as [w L].
    destruct s as [|i|i|i [e|]|i e|i]; [by destruct (H eq_refl)|..].
    + destruct (po_cause p) eqn:C; eexists; (split; [|]); [eapply step_skip; [exact L|congruence]|done|by eapply step_start|done].
    + exists (log_pool (Finished i None) (move w (Returned i None) (p <| po_Jobs := <[i := job_task_zero]> (po_Jobs p) |>))).
      split; [by apply step_finish|done].
    + eexists; split; [by eapply step_record|done].
    + eexists; split; [by eapply step_success|done].
    + eexists; split; [by eapply step_cancel|]. unfold cancel_pool. by destruct (po_cause p).
    + eexists; split; [by eapply step_done|]. unfold stop_after, cancel_pool. destruct (po_Jobs p !! i); [|done].
      destruct (_ && _); [|done]. by destruct (po_cause p).
Qed.

Lemma steps_end n total p : pool_ok n total p -> returns_logged p -> sn step p.
Proof.
  remember (work p) as k eqn:E. revert p E. induction (lt_wf k) as [k _ IH]. intros p -> K R. constructor. intros q S.
  unfold flip in S. destruct (ok_step _ _ _ _ K R S). eapply IH; [by eapply step_works|done..].
Qed.

(** ** Stopping on failure *)

(** A failed job has cancelled the pool, or its worker is about to. *)
Definition failures_stop (p : Pool) : Prop :=
  stopOnFailure = true -> forall i job, In i (finished p) -> po_Jobs p !! i = Some job ->
  jobStatusFailed (jt_Status job) = true ->
  po_cause p <> None \/ exists w s, po_workers p !! w = Some s /\ In i (held s).

Lemma failures_move p w s s' : failures_stop p -> po_workers p !! w = Some s ->
  (forall i, In i (held s) -> In i (held s') \/ ~ In i (finished p)) -> failures_stop (move w s' p).
Proof.
  intros Fs L H St i job I J F. destruct (Fs St i job I J F) as [C|(w1 & s1 & L1 & I1)]; [by left|]. right.
  destruct (decide (w1 = w)) as [->|N].
  - rewrite L in L1. injection L1 as <-. destruct (H i I1) as [I'|NI]; [|by destruct NI]. exists w, s'. split; [|done].
    cbn. rewrite list_lookup_insert_eq; [done|]. by eapply lookup_lt_Some.
  - exists w1, s1. split; [|done]. cbn. by rewrite list_lookup_insert_ne.
Qed.

Lemma failures_cancel c p : failures_stop (cancel_pool c p).
Proof. intros _ i job _ _ _. left. apply cancel_pool_other. Qed.

Lemma failures_same p p' : failures_stop p -> po_workers p' = po_workers p -> po_Jobs p' = po_Jobs p ->
  po_log p' = po_log p -> po_cause p' = po_cause p -> failures_stop p'.
Proof. intros Fs W J G C. unfold failures_stop, finished in *. rewrite W, J, G, C. exact Fs. Qed.

Lemma failures_step n total p p' : pool_ok n total p -> failures_stop p -> step p p' -> failures_stop p'.
Proof.
  intros K Fs S.
  destruct S as [cause P|F E|F E C|F E C|w F L|F C|w i L C|w i L C|w i err job L|w i L|w i err L|w i err L|w i L|F A];
    try (eapply failures_same; [exact Fs|done..]); try (by apply failures_cancel).
  - eapply failures_move; [|exact L|done]. eapply failures_same; [exact Fs|done..].
  - eapply failures_move; [exact Fs|exact L|]. intros k I. right. rewrite (proj2 (proj2 (ok_held _ _ _ K _ _ _ L I))). done.
  - assert (X : failures_stop (move w (Running i) p)) by (eapply failures_move; [exact Fs|exact L|auto]).
    intros St k job I J. rewrite finished_app, app_nil_r in I. by apply X.
  - destruct (ok_held _ _ _ K w _ i L ltac:(by left)) as (_ & _ & NF).
    intros St k job' I J Fd. rewrite finished_app, In_snoc in I. cbn [po_Jobs log_pool move set] in J. cbn in J.
    destruct (decide (k = i)) as [->|N].
    + right. exists w, (Returned i err). split; [|by left]. cbn. rewrite list_lookup_insert_eq; [done|]. by eapply lookup_lt_Some.
    + rewrite list_lookup_insert_ne in J by done. destruct I as [I| ->]; [|done].
      destruct (Fs St k job' I J Fd) as [C|(w1 & s1 & L1 & I1)]; [by left|]. right. exists w1, s1. split; [|done].
      cbn. rewrite list_lookup_insert_ne; [done|]. intros ->. rewrite L in L1. injection L1 as <-. by destruct I1.
  - eapply failures_move; [exact Fs|exact L|auto].
  - eapply failures_move; [|exact L|auto]. eapply failures_same; [exact Fs|done..].
  - intros St k job I J Fd. left. apply (cancel_pool_other err p).
  - assert (X : failures_stop p -> (forall job, po_Jobs p !! i = Some job -> stopOnFailure && jobStatusFailed (jt_Status job) = false) ->
      failures_stop (move w Idle p)).
    { intros _ NF St k job I J Fd. destruct (Fs St k job I J Fd) as [C|(w1 & s1 & L1 & I1)]; [by left|].
      destruct (decide (w1 = w)) as [->|N]; [|right; exists w1, s1; split; [cbn; by rewrite list_lookup_insert_ne|done]].
      rewrite L in L1. injection L1 as <-. destruct I1 as [<-|[]]. specialize (NF job J). by rewrite St, Fd in NF. }
    unfold stop_after. destruct (po_Jobs p !! i) as [ji|] eqn:Ji; [destruct (stopOnFailure && _) eqn:Sf|].
    + intros St k job I J Fd. left. apply (cancel_pool_other ContextCanceled p).
    + apply X; [done|]. by intros job [= <-].
    + by apply X.
Qed.

Lemma failures_steps n total p p' : pool_ok n total p -> returns_logged p -> failures_stop p -> rtc step p p' -> failures_stop p'.
Proof.
  intros K R Fs S. induction S as [p|p q r S _ IH]; [done|]. destruct (ok_step _ _ _ _ K R S). apply IH; [done..|].
  by apply (failures_step n total p).
Qed.

Lemma failures_reachable jobs n parent p : reachable stopOnFailure jobs n parent p -> failures_stop p.
Proof.
  intros R. eapply failures_steps; [apply ok_start| |by intros ????|exact R].
  intros w i e L. cbn in L. apply lookup_replicate_1 in L as [L _]. done.
Qed.
End Invariant.

(** C8: the pool runs each job once.  In every interleaving of the feeder, the workers
    and cancellations: no job starts twice or finishes twice, and none finishes that did
    not start; jobs in progress are held by different workers; once the pool's context
    is cancelled no further job starts.  When [Run] has returned, every job that started
    has finished; it returned an error exactly when one of the jobs did, and one of those;
    if nothing cancelled the pool, every job has run, and with [stopOnFailure] none of
    them failed. *)
Theorem pool_runs_each_once stop jobs n parent p : reachable stop jobs n parent p ->
  NoDup (started p) /\ NoDup (finished p) /\ (forall i, In i (finished p) -> In i (started p)) /\
  length (po_workers p) = n /\
  (forall w w' i, po_workers p !! w = Some (Running i) -> po_workers p !! w' = Some (Running i) -> w = w') /\
  (forall p', po_cause p <> None -> rtc (step stop) p p' -> started p' = started p) /\
  (forall err, po_feeder p = Ended err ->
     (forall i, In i (started p) -> In i (finished p)) /\
     (err = None <-> errors p = []) /\ (forall e, err = Some e -> In e (errors p)) /\
     (po_cause p = None ->
        (forall i, In i (finished p) <-> (i < length jobs)%nat) /\
        (stop = true -> Forall (fun job => jobStatusFailed (jt_Status job) = false) (po_Jobs p)))).
Proof.
  intros R. pose proof (ok_reachable stop jobs n parent p R) as K. pose proof (failures_reachable stop jobs n parent p R) as Fs.
  split; [apply K|]. split; [apply K|]. split; [apply (ok_finished _ _ _ K)|]. split; [apply K|].
  split; [intros w w' i L L'; by eapply (ok_unique _ _ _ K w w' _ _ i L L'); left|].
  split; [intros p' C S; by eapply cancelled_steps|]. intros err E.
  destruct (ok_ended _ _ _ K err E) as [-> A]. rewrite Forall_lookup in A.
  assert (NI : forall w s, po_workers p !! w = Some s -> s <> Idle -> False) by (intros w s L N; by apply N, (A w)).
  assert (SF : forall i, In i (started p) -> In i (finished p)).
  { intros i I. destruct (ok_active _ _ _ K i I) as [|[w L]]; [done|]. by destruct (NI _ _ L). }
  split; [exact SF|]. split; [|split; [apply (ok_error _ _ _ K)|]].
  - split; intros X.
    + destruct (errors p) as [|e l] eqn:Er; [done|].
      destruct (ok_errors _ _ _ K ltac:(congruence)) as [Y|(w & i & e' & L)]; [done|]. by destruct (NI _ _ L).
    + destruct (po_runErr p) as [e|] eqn:Y; [|done]. pose proof (ok_error _ _ _ K e Y) as I. by rewrite X in I.
  - intros C. assert (N : po_next p = length jobs) by (apply (ok_closed _ _ _ K); [by right; eexists|done]).
    assert (Fin : forall i, In i (finished p) <-> (i < length jobs)%nat).
    { intros i. split; intros I.
      - rewrite <- N. by apply (ok_started _ _ _ K), (ok_finished _ _ _ K).
      - rewrite <- N in I. destruct (ok_live _ _ _ K C i I) as [|[w L]]; [by apply SF|]. by destruct (NI _ _ L). }
    split; [exact Fin|]. intros St. apply Forall_lookup. intros i job J. destruct (jobStatusFailed (jt_Status job)) eqn:Fd; [|done].
    destruct (Fs St i job) as [Y|(w & s & L & I)]; try done.
    + apply Fin. rewrite <- (ok_jobs _ _ _ K). by eapply lookup_lt_Some.
    + rewrite (A w s L) in I. done.
Qed.

(** The pool ends.  Every interleaving is finite, and a pool with at least one
    worker that has not returned always has a next action of its own, so [Run] returns
    once the jobs it started do; without workers it waits for its context's end. *)
Theorem pool_terminates stop jobs n parent p : reachable stop jobs n parent p ->
  sn (step stop) p /\
  ((0 < n)%nat -> (forall err, po_feeder p <> Ended err) -> exists p', step stop p p' /\ po_parent p' = po_parent p) /\
  ((0 < n)%nat -> exists p', rtc (step stop) p p' /\ exists err, po_feeder p' = Ended err).
Proof.
  intros R. pose proof (ok_reachable stop jobs n parent p R) as K.
  assert (RL : returns_logged p).
  { refine (proj2 (ok_steps stop _ _ _ _ (ok_start jobs n parent) _ R)). intros w i e L. cbn in L.
    apply lookup_replicate_1 in L as [L _]. done. }
  clear R. split; [by eapply steps_end|]. split; [intros N NE; by eapply step_progress|]. intros N.
  pose proof (steps_end stop _ _ _ K RL) as A. revert K RL. induction A as [p _ IH]. intros K RL.
  destruct (po_feeder p) eqn:F; [..|exists p; split; [reflexivity|by eexists]].
  all: destruct (step_progress stop _ _ p K N ltac:(congruence)) as (q & S & _); destruct (ok_step stop _ _ _ _ K RL S) as [Kq Rq];
    destruct (IH q S Kq Rq) as (r & T & E); exists r; split; [by eapply rtc_l|done].
Qed.

(** ** A concrete run *)

Definition one_job : list JobTask := [job_task_zero].
Definition job_done : JobTask := job_task_zero <| jt_Status := StatusCompleted |>.

Definition pool_end : Pool :=
  Build_Pool [job_done] 1 (Ended None) [Idle] None None None [Started 0; Finished 0 None].

Lemma sample_reaches : reachable true one_job 1 None pool_end.
Proof.
  unfold reachable.
  eapply rtc_l; [by apply step_next; cbn; [|lia|]|]. cbn.
  eapply rtc_l; [by apply (step_send _ _ 0)|]. cbn.
  eapply rtc_l; [by apply step_exhausted|]. cbn.
  eapply rtc_l; [by apply (step_start _ _ 0 0)|]. cbn.
  eapply rtc_l; [by apply (step_finish _ _ 0 0 None job_done)|]. cbn.
  eapply rtc_l; [by apply (step_success _ _ 0 0)|]. cbn.
  eapply rtc_l; [by apply (step_done _ _ 0 0)|]. cbn.
  eapply rtc_l; [by apply step_return; [|repeat constructor]|]. reflexivity.
Qed.

Lemma pool_runs_each_once_witness :
  (forall i, In i (finished pool_end) <-> (i < 1)%nat) /\ errors pool_end = [] /\
  forall p', rtc (step true) pool_end p' -> po_cause pool_end <> None -> started p' = [0%nat].
Proof.
  destruct (pool_runs_each_once true one_job 1 None pool_end sample_reaches) as (_ & _ & _ & _ & _ & C & E).
  destruct (E None eq_refl) as (_ & [X _] & _ & Y). split; [exact (proj1 (Y eq_refl))|]. split; [exact (X eq_refl)|].
  intros p' S N. exact (C p' N S).
Defined.

Lemma pool_terminates_witness : exists p', rtc (step true) (NewPool one_job 1 None) p' /\ exists err, po_feeder p' = Ended err.
Proof.
  exact (proj2 (proj2 (pool_terminates true one_job 1 None (NewPool one_job 1 None) (rtc_refl _ _))) ltac:(lia)).
Defined.
