(* ===== verification/KubeJobs.v ===== *)
(** Kubernetes Jobs through the client library:
    [pkg/apiserver/event/workflow/job/jobexec/batch.go], [delete.go],
    [resource_reconcile.go], [cleanup_tracker.go], [cleanup_resource_executor.go],
    [DeleteCancelledBatchJob] of [cancel_recovery.go] and [StampJobExecutionIdentity]
    of [jobresult/result.go].

    The API server is not part of the repository: [Cluster] is what it answers to each
    request, as a function of everything the program did and was told before, so that a
    theorem for every [Cluster] is about every behaviour of the server, of the network
    and of the other clients.  [KubeRun] is a job's run ([RunJob.JobRun]) with the
    payload of the job, the record of requests and answers, and what bounds its waits. *)

From S2P Require Import Prelude GoStrings Config Json Quantity Policy Model Store Lease Budget.
From S2P Require Import Signals Scheduler PodResources Retry Cleanup JobInfos Components Controller JobExec RunJob.

Definition AnnotationJobRunPolicy : string := "eruun.job/runPolicy".
Definition LabelManagedBy : string := "app.kubernetes.io/managed-by".
Definition LabelAppID : string := "eruun.io/app-id".
Definition ManagedByEruun : string := "eruun".

(** [k8s.io/api]: conditions of a Job, phases of a Pod. *)
Definition ConditionTrue : string := "True".
Definition JobComplete : string := "Complete".
Definition JobFailed : string := "Failed".
Definition PodSucceeded : string := "Succeeded".
Definition PodFailed : string := "Failed".

Record OwnerReference := {
  or_APIVersion : string;
  or_Kind : string;
  or_Name : string;
  or_UID : string;
  or_Controller : option bool
}.

(** [cs_Terminated] is the reason of the current termination; of the other states it
    only matters whether they are there. *)
Record ContainerStatus := {
  cs_Name : string;
  cs_Waiting : bool;
  cs_Running : bool;
  cs_Terminated : option string;
  cs_LastTermination : bool;      (* [LastTerminationState] is not the zero state *)
  cs_RestartCount : Z;
  cs_ContainerID : string;
  cs_Ready : bool;
  cs_Started : option bool
}.

(** The containers of the specification are given by their names. *)
Record Pod := {
  pod_Name : string;
  pod_UID : string;
  pod_OwnerReferences : list OwnerReference;
  pod_InitContainers : list string;
  pod_Containers : list string;
  pod_Phase : string;
  pod_Reason : string;
  pod_InitContainerStatuses : list ContainerStatus;
  pod_ContainerStatuses : list ContainerStatus
}.

Record ResourceRef := {
  ref_Kind : string;
  ref_Namespace : string;
  ref_Name : string;
  ref_Created : bool
}.

Definition ResourceJob : string := "job".

(** A CronJob: its metadata, and the rest, which the code passes through. *)
Record CronJob := {
  cj_Namespace : string;
  cj_Name : string;
  cj_UID : string;
  cj_ResourceVersion : string;
  cj_Annotations : gmap string string;
  cj_Spec : Json
}.

#[export] Instance eta_CronJob : Settable CronJob := fun c =>
  Build_CronJob (cj_Namespace c) (cj_Name c) (cj_UID c) (cj_ResourceVersion c) (cj_Annotations c) (cj_Spec c).

(** Requests for CronJobs and their answers; [None] is a deletion without precondition. *)
Inductive CronEvent :=
  | CvGet (namespace name : string) (live : result CronJob)
  | CvCreate (cron : CronJob) (created : result CronJob)
  | CvUpdate (cron : CronJob) (updated : result CronJob)
  | CvDelete (namespace name : string) (uid : option string) (err : option error).

Section KubeJobs.
Context {Q : Type} `{QuantityOps Q} `{KubernetesJson Q}.

(** ** Requests, answers and what the program notes *)

Inductive KubeEvent :=
  | KvGet (namespace name : string) (live : result (Job Q))
  | KvCreate (job : Job Q) (created : result (Job Q))
  | KvUpdate (job : Job Q) (updated : result (Job Q))
  | KvDelete (namespace name uid : string) (version : option string) (err : option error)
  | KvPods (namespace name : string) (pods : result (list Pod))   (* the Pods labelled with the Job's name *)
  | KvObserve (namespace name : string) (snapshot : result (option (Job Q)))
  | KvPod (namespace name : string) (live : result Pod)
  | KvLogs (namespace pod container : string) (logs : result string)
  | KvDiscard (namespace name uid : string) (version : option string) (err : option error)  (* a background deletion *)
  | KvDeletePod (namespace name uid : string) (err : option error)
  | KvCron (ev : CronEvent)
  | KvAck (id reason : string) (err : option error)       (* a message is acknowledged to the broker *)
  | KvAdmitted (key : string)           (* the scheduler was seen to have admitted the execution *)
  | KvOwned (status : string)           (* the task's status, its row being this worker's *)
  | KvPermit                           (* a creation permit was taken *)
  | KvSaved (cp : InstantJobRetryCheckpoint Q).

Record Cluster := {
  on_get : list KubeEvent -> string -> string -> result (Job Q);
  on_create : list KubeEvent -> Job Q -> result (Job Q);
  on_update : list KubeEvent -> Job Q -> result (Job Q);
  on_delete : list KubeEvent -> string -> string -> string -> option string -> option error;
  on_pods : list KubeEvent -> string -> string -> result (list Pod);
  on_pod : list KubeEvent -> string -> string -> result Pod;
  on_logs : list KubeEvent -> string -> string -> string -> result string;  (* the stream, read to its end *)
  on_delete_pod : list KubeEvent -> string -> string -> string -> option error;
}.

(** The cache of the shared observer, which the client library fills. *)
Record JobCache := {
  cache_synced : bool;
  cache_stopped : list KubeEvent -> bool;
  cache_get : list KubeEvent -> string -> string -> result (option (Job Q));
}.

Record KubeRun := {
  kr_run : JobRun;
  kr_info : option (Job Q);            (* [JobTask.JobInfo] *)
  kr_tracked : list ResourceRef;       (* the clean-up tracker in the context *)
  kr_looks : list bool;                (* has the call's own deadline passed, look by look *)
  kr_expired : bool;
  kr_ticks : list nat;                 (* per wait: the wake-ups before its deadline *)
  kr_log : list KubeEvent;
}.

#[export] Instance eta_KubeRun : Settable KubeRun := fun k =>
  Build_KubeRun (kr_run k) (kr_info k) (kr_tracked k) (kr_looks k) (kr_expired k) (kr_ticks k) (kr_log k).

Definition K (A : Type) : Type := KubeRun -> A * KubeRun.

Definition kret {A} (a : A) : K A := fun k => (a, k).
Definition kbind {A B} (m : K A) (f : A -> K B) : K B := fun k => let '(a, k') := m k in f a k'.
Definition kget : K KubeRun := fun k => (k, k).
Definition kmodify (f : KubeRun -> KubeRun) : K unit := fun k => (tt, f k).
Definition note (ev : KubeEvent) : K unit := kmodify (fun k => k <| kr_log := (kr_log k ++ [ev])%list |>).

(** [if err != nil { return err }] *)
Definition kmust {A B} (m : K (result A)) (f : A -> K (result B)) : K (result B) :=
  kbind m (fun r => match r with Ok a => f a | Err e => kret (Err e) end).

Definition kok {A} (a : A) : K (result A) := kret (Ok a).
Definition kerr {A} (e : error) : K (result A) := kret (Err e).

(** The error of a step, wrapped. *)
Definition kwrap {A} (f : error -> error) (m : K (result A)) : K (result A) :=
  kbind m (fun r => kret (match r with Ok a => Ok a | Err e => Err (f e) end)).

(** A step of the job's run, and a program of the data store. *)
Definition in_job {A} (m : J A) : K A := fun k => let '(a, j) := m (kr_run k) in (a, k <| kr_run := j |>).
Definition kdb {A} (m : M A) : K (result A) := in_job (jdb m).

Definition get_job : K JobTask := fun k => (jr_job (kr_run k), k).
Definition update_job (f : JobTask -> JobTask) : K unit := in_job (set_job f).

(** [job.JobInfo = obj]: the task shows the object's metadata. *)
Definition set_info (job : Job Q) : K unit :=
  kbind (update_job (fun task => task <| jt_JobInfo := PayloadBatchJob |> <| jt_InfoLabels := kj_Labels job |>
                                      <| jt_InfoAnnotations := kj_Annotations job |> <| jt_InfoResetKey := None |>))
    (fun _ => kmodify (fun k => k <| kr_info := Some job |>)).

(** ** The contexts and waiting *)

(** [ctx.Err()] of the job's context. *)
Definition job_ctx : K (option error) := kbind (in_job job_cause) (fun cause => kret (option_map ctx_err cause)).

Definition next_look : K bool := fun k =>
  match kr_looks k with [] => (false, k) | late :: r => (late, k <| kr_looks := r |>) end.

Definition expire : K unit := kmodify (fun k => k <| kr_expired := true |>).

(** [ctx.Err()] of a context detached from the job's, which only its own time ends; a
    cancellation of its own is not told apart from that. *)
Definition detached_ctx : K (option error) :=
  kbind kget (fun k =>
  if kr_expired k then kret (Some DeadlineExceeded) else
  kbind next_look (fun late =>
  if late : bool then kbind expire (fun _ => kret (Some DeadlineExceeded)) else kret None)).

(** [ctx.Err()] of a context below the job's, with a deadline of its own. *)
Definition run_ctx : K (option error) :=
  kbind kget (fun k =>
  if kr_expired k then kret (Some DeadlineExceeded) else
  kbind job_ctx (fun stopped =>
  match stopped with
  | Some e => kret (Some e)
  | None =>
      kbind next_look (fun late =>
      if late : bool then kbind expire (fun _ => kret (Some DeadlineExceeded)) else kret None)
  end)).

Definition next_ticks : K nat := fun k =>
  match kr_ticks k with [] => (0%nat, k) | n :: r => (n, k <| kr_ticks := r |>) end.

(** [wait.PollUntilContextCancel] with [immediate]: the condition; while it is neither
    met nor failed, the context and the next tick.  After [ticks] of them the wait's
    deadline passes. *)
Fixpoint poll_until (ticks : nat) (look : K (option error)) (late : K unit) (condition : K (result bool))
    : K (result unit) :=
  kbind condition (fun r =>
  match r with
  | Err e => kerr e
  | Ok true => kok tt
  | Ok false =>
      kbind look (fun stopped =>
      match stopped with
      | Some e => kerr e
      | None =>
          match ticks with
          | S ticks => poll_until ticks look late condition
          | O => kbind late (fun _ => kerr DeadlineExceeded)
          end
      end)
  end).
End KubeJobs.
Arguments KubeEvent Q : clear implicits.
Arguments Cluster Q : clear implicits.
Arguments JobCache Q : clear implicits.
Arguments KubeRun Q : clear implicits.
Arguments K Q A : clear implicits.

Notation "'kube!' x := m 'in' k" := (kbind m (fun x => k))
  (at level 10, x pattern, m at level 100, k at level 200) : eruun_scope.
Notation "'must!' x := m 'in' k" := (kmust m (fun x => k))
  (at level 10, x pattern, m at level 100, k at level 200) : eruun_scope.

Section Operations.
Context {Q : Type} `{QuantityOps Q} `{KubernetesJson Q}.
(** [c.Client]; [None] is a nil client. *)
Variable client : option (Cluster Q).

Definition no_client : error := Errorf "client is nil".

(** ** [client.BatchV1().Jobs(namespace)] *)

Definition kube_Get (namespace name : string) : K Q (result (Job Q)) :=
  kube! k := kget in
  match client with
  | None => kerr no_client
  | Some cluster =>
      let live := on_get cluster (kr_log k) namespace name in
      kube! _ := note (KvGet namespace name live) in kret live
  end.

Definition kube_Create (job : Job Q) : K Q (result (Job Q)) :=
  kube! k := kget in
  match client with
  | None => kerr no_client
  | Some cluster =>
      let created := on_create cluster (kr_log k) job in
      kube! _ := note (KvCreate job created) in kret created
  end.

Definition kube_Update (job : Job Q) : K Q (result (Job Q)) :=
  kube! k := kget in
  match client with
  | None => kerr no_client
  | Some cluster =>
      let updated := on_update cluster (kr_log k) job in
      kube! _ := note (KvUpdate job updated) in kret updated
  end.

(** Foreground deletion with the UID, and the resource version if any, as preconditions. *)
Definition kube_Delete (namespace name uid : string) (version : option string) : K Q (result unit) :=
  kube! k := kget in
  match client with
  | None => kerr no_client
  | Some cluster =>
      let err := on_delete cluster (kr_log k) namespace name uid version in
      kube! _ := note (KvDelete namespace name uid version err) in
      kret (match err with Some e => Err e | None => Ok tt end)
  end.

Definition kube_Pods (namespace name : string) : K Q (result (list Pod)) :=
  kube! k := kget in
  match client with
  | None => kerr no_client
  | Some cluster =>
      let pods := on_pods cluster (kr_log k) namespace name in
      kube! _ := note (KvPods namespace name pods) in kret pods
  end.

(** ** batch.go: what a Job's status says *)

Definition jobRequiredCompletions (job : Job Q) : Z :=
  match kj_Completions job with
  | Some n => if n <=? 0 then 1 else n
  | None => 1
  end.

Definition failure_message (name : string) (condition : JobCondition) : string :=
  let msg := TrimSpace (jc_Message condition) in
  let msg := if str_empty msg then TrimSpace (jc_Reason condition) else msg in
  if str_empty msg then ("job " ++ name ++ " failed")%string else msg.

(** The loop over the conditions. *)
Fixpoint terminal_condition (name : string) (conditions : list JobCondition) : option (string * string) :=
  match conditions with
  | [] => None
  | condition :: rest =>
      if negb (jc_Status condition =? ConditionTrue)%string then terminal_condition name rest
      else if (jc_Type condition =? JobComplete)%string then Some (StatusCompleted, ""%string)
      else if (jc_Type condition =? JobFailed)%string then Some (StatusFailed, failure_message name condition)
      else terminal_condition name rest
  end.

(** The status and message of a Job that is done. *)
Definition JobTerminalStatus (job : Job Q) : option (string * string) :=
  match terminal_condition (kj_Name job) (js_Conditions (kj_Status job)) with
  | Some r => Some r
  | None =>
      if jobRequiredCompletions job <=? js_Succeeded (kj_Status job) then Some (StatusCompleted, ""%string)
      else if (0 <? js_Failed (kj_Status job)) && (js_Active (kj_Status job) =? 0)
      then Some (StatusFailed, ("job " ++ kj_Name job ++ " failed")%string)
      else None
  end.

(** [done && status == config.StatusCompleted] *)
Definition job_completed (job : Job Q) : bool :=
  match JobTerminalStatus job with Some (status, _) => (status =? StatusCompleted)%string | None => false end.

Definition podOwnedByJob (pod : Pod) (job : Job Q) : bool :=
  negb (str_empty (kj_UID job)) &&
  existsb (fun owner => (or_Kind owner =? "Job")%string && (or_UID owner =? kj_UID job)%string) (pod_OwnerReferences pod).

Definition jobSucceededOwnedPodsCompleted (namespace : string) (job : Job Q) : K Q (result bool) :=
  match client with
  | None => kerr no_client
  | Some _ =>
      if str_empty (kj_Name job) || str_empty (kj_UID job) then kok false else
      must! pods := kwrap (Wrapf "list pods for job") (kube_Pods namespace (kj_Name job)) in
      let succeeded := List.filter (fun pod => (pod_Phase pod =? PodSucceeded)%string && podOwnedByJob pod job) pods in
      kok (jobRequiredCompletions job <=? Z.of_nat (length succeeded))
  end.

Definition JobExists (namespace name : string) : K Q (result (option (Job Q))) :=
  match client with
  | None => kerr no_client
  | Some _ =>
      kube! r := kube_Get namespace name in
      match r with
      | Ok job => kok (Some job)
      | Err e => if errors_is ErrNotFound e then kok None else kerr e
      end
  end.

(** ** delete.go *)

Definition deleteJobForeground (namespace : string) (live : Job Q) : K Q (result unit) :=
  if negb (match client with Some _ => true | None => false end) || str_empty namespace ||
     str_empty (kj_Name live) || str_empty (kj_UID live)
  then kerr (Errorf "delete Job requires client, namespace, name and UID")
  else kube_Delete namespace (kj_Name live) (kj_UID live) None.

Definition jobUIDAbsent (namespace name uid : string) : K Q (result bool) :=
  kube! r := kube_Get namespace name in
  match r with
  | Ok job => kok (negb (kj_UID job =? uid)%string)
  | Err e => if errors_is ErrNotFound e then kok true else kerr (Wrapf "get job" e)
  end.

Definition waitForJobUIDDeletion (namespace name uid : string) : K Q (result unit) :=
  kube! ticks := next_ticks in
  kwrap (Wrapf "wait for job UID deletion")
    (poll_until ticks job_ctx (kret tt) (jobUIDAbsent namespace name uid)).

(** ** cancel_recovery.go: deleting a cancelled execution's Job *)

(** A missing or another object ends the wait. *)
Definition waitForCancelledKubernetesResourceDeletion (currentUID : K Q (result string)) (deletedUID kind : string)
    : K Q (result unit) :=
  kube! ticks := next_ticks in
  kwrap (Wrapf ("confirm cancelled Kubernetes " ++ kind ++ " deletion"))
    (poll_until ticks detached_ctx expire
      (kube! r := currentUID in
       match r with
       | Ok uid => kok (negb (uid =? deletedUID)%string)
       | Err e => if errors_is ErrNotFound e then kok true else kerr e
       end)).

Definition deleteCancelledKubernetesJob (namespace : string) (live : Job Q) : K Q (result unit) :=
  let wait := waitForCancelledKubernetesResourceDeletion
    (must! current := kube_Get namespace (kj_Name live) in kok (kj_UID current)) (kj_UID live) "Job" in
  kube! r := deleteJobForeground namespace live in
  match r with
  | Err e => if errors_is ErrNotFound e then wait else kerr (Wrapf "delete cancelled Kubernetes Job" e)
  | Ok _ => wait
  end.

Variable decode_job : Json -> option (Job Q).
Variable order : JobRetryPolicy Q -> list (string * Z).

(** Where the Job of a cancelled execution is: the task's record and payload, overridden
    by its checkpoint. *)
Definition cancelled_target (namespace : string) (task : JobTask) (info : option (Job Q)) : result (string * string) :=
  let record := BuildJobInfoRecord task in
  let target :=
    match info with
    | Some desired => (if str_empty (kj_Namespace desired) then namespace else kj_Namespace desired, kj_Name desired)
    | None => (namespace, TrimSpace (job_ServiceName record))
    end in
  if HasInstantJobRetryCheckpoint (Some record) then
    check! checkpoint <- DecodeInstantJobRetryCheckpoint decode_job order (Some task);
    let job := default job_zero (rc_Job checkpoint) in
    Ok (kj_Namespace job, kj_Name job)
  else Ok target.

Definition DeleteCancelledBatchJob (namespace : string) : K Q (result unit) :=
  kube! k := kget in
  let task := jr_job (kr_run k) in
  match client with
  | None => kerr (Errorf "cancelled Kubernetes Job dependencies are incomplete")
  | Some _ =>
      let record := BuildJobInfoRecord task in
      if match job_ExecutionKey record with Some key => blank key | None => true end
      then kerr (Errorf "cancelled Kubernetes Job identity is incomplete") else
      must! target := kret (cancelled_target namespace task (kr_info k)) in
      let '(namespace, resourceName) := target in
      if str_empty resourceName then kerr (Errorf "cancelled Kubernetes Job name is missing") else
      kube! r := kube_Get namespace resourceName in
      match r with
      | Err e => if errors_is ErrNotFound e then kok tt else kerr (Wrapf "get cancelled Kubernetes Job" e)
      | Ok live =>
          if negb (cancelledKubernetesJobMatches record live)
          then kerr (Errorf "cancelled Kubernetes Job execution identity changed") else
          must! _ := kwrap (Wrapf "validate cancelled Kubernetes Job checkpoint")
            (kret (if HasInstantJobRetryCheckpoint (Some record)
                   then ValidateInstantJobRetryExecution decode_job order (Some record) (Some live) else Ok tt)) in
          deleteCancelledKubernetesJob namespace live
      end
  end.

(** ** cleanup_tracker.go *)

(** The first entry for an object stays. *)
Definition track (ref : ResourceRef) : K Q unit := kmodify (fun k =>
  if existsb (fun existing => (ref_Kind existing =? ref_Kind ref)%string &&
       (ref_Namespace existing =? ref_Namespace ref)%string && (ref_Name existing =? ref_Name ref)%string) (kr_tracked k)
  then k else k <| kr_tracked := (kr_tracked k ++ [ref])%list |>).

Definition MarkResourceCreated (kind namespace name : string) : K Q unit :=
  track (Build_ResourceRef kind namespace name true).
Definition MarkResourceObserved (kind namespace name : string) : K Q unit :=
  track (Build_ResourceRef kind namespace name false).

Definition ResourcesForCleanup (kind : string) : K Q (list ResourceRef) :=
  kube! k := kget in
  kret (List.filter (fun ref => str_empty kind || (ref_Kind ref =? kind)%string) (kr_tracked k)).

(** ** cleanup_resource_executor.go, controller_base.go *)

(** Failures are only logged. *)
Fixpoint delete_refs (namespaceFallback : string) (deleteFn : string -> string -> K Q (result unit))
    (refs : list ResourceRef) : K Q unit :=
  match refs with
  | [] => kret tt
  | ref :: rest =>
      if negb (ref_Created ref) then delete_refs namespaceFallback deleteFn rest else
      let ns := if str_empty (ref_Namespace ref) then namespaceFallback else ref_Namespace ref in
      kube! _ := deleteFn ns (ref_Name ref) in
      delete_refs namespaceFallback deleteFn rest
  end.

Definition CleanupNamespacedResources (kind namespaceFallback : string)
    (deleteFn : string -> string -> K Q (result unit)) : K Q unit :=
  kube! refs := ResourcesForCleanup kind in delete_refs namespaceFallback deleteFn refs.

Definition CleanCreatedBatchJobs (c_Namespace : string) : K Q unit :=
  match client with
  | None => kret tt
  | Some _ =>
      CleanupNamespacedResources ResourceJob c_Namespace (fun namespace name =>
        must! live := kube_Get namespace name in deleteJobForeground namespace live)
  end.

(** ** resource_reconcile.go *)

Section Reconcile.
Context {T : Type}.
Variables (getFn createFn : K Q (result T)) (onExisting : T -> K Q (result unit)).

Definition CreateOrUpdateResource : K Q (result (T * bool)) :=
  kube! r := getFn in
  match r with
  | Ok existing => must! _ := onExisting existing in kok (existing, false)
  | Err e =>
      if negb (errors_is ErrNotFound e) then kerr e else
      kube! r := createFn in
      match r with
      | Ok created => kok (created, true)
      | Err e =>
          if errors_is ErrAlreadyExists e
          then must! existing := getFn in must! _ := onExisting existing in kok (existing, false)
          else kerr e
      end
  end.

Definition CreateOrUpdateTrackedResource (kind namespace name : string) : K Q (result (T * bool)) :=
  must! res := CreateOrUpdateResource in
  kube! _ := (if snd res : bool then MarkResourceCreated kind namespace name
              else MarkResourceObserved kind namespace name) in
  kok res.
End Reconcile.

(** ** batch.go: identities and run policies *)

Definition validateExistingJobExecutionIdentity (desired existing : Job Q) : M unit :=
  let changed := Wrapf "existing Job" ErrJobExecutionIdentityChanged in
  let desiredTaskID := TrimSpace (annotation_of desired AnnotationJobTaskID) in
  let existingTaskID := TrimSpace (annotation_of existing AnnotationJobTaskID) in
  if negb (str_empty desiredTaskID) && negb (str_empty existingTaskID) && negb (desiredTaskID =? existingTaskID)%string then
    let! existingTask := try (TaskByID existingTaskID) in
    match existingTask with
    | Err e => throw (ErrJoin ErrInfrastructureStop (Wrapf "load workflow task before replacing Kubernetes Job" e))
    | Ok existingTask =>
        guard! isTerminalWorkflowJobTaskStatus (wq_Status existingTask) else changed;
        ret tt
    end
  else
  let desiredKey := TrimSpace (annotation_of desired AnnotationJobExecutionKey) in
  let desiredGenerationRaw := TrimSpace (annotation_of desired AnnotationJobRunGeneration) in
  if str_empty desiredKey || str_empty desiredGenerationRaw then ret tt else
  match ParseUint desiredGenerationRaw with
  | None | Some 0 => throw changed
  | Some desiredGeneration =>
      let existingKey := TrimSpace (annotation_of existing AnnotationJobExecutionKey) in
      let existingGenerationRaw := TrimSpace (annotation_of existing AnnotationJobRunGeneration) in
      if str_empty existingGenerationRaw then
        (if negb (str_empty existingKey) && negb (existingKey =? desiredKey)%string then throw changed else ret tt)
      else
      match ParseUint existingGenerationRaw with
      | None | Some 0 => throw changed
      | Some existingGeneration =>
          if (desiredGeneration <? existingGeneration) ||
             ((existingGeneration =? desiredGeneration) && negb (existingKey =? desiredKey)%string)
          then throw changed else ret tt
      end
  end.

Definition completedJobFilters (appID componentName jobType : string) : FilterOptions :=
  Build_FilterOptions
    [("status", [VStr StatusCompleted]); ("type", [VStr jobType]); ("app_id", [VStr appID]);
     ("service_name", [VStr componentName])]%string [] [].

Definition jobCompletedInStore (jobType : string) (job : Job Q) : M bool :=
  if str_empty jobType then throw (Errorf "job type is empty") else
  let appID := TrimSpace (str_get (kj_Labels job) LabelAppID) in
  let componentName := TrimSpace (str_get (kj_Labels job) LabelComponentName) in
  if str_empty appID || str_empty componentName then ret false else
  let! count := Count (E := JobInfo) (Index job_info_zero) (completedJobFilters appID componentName jobType) in
  ret (0 <? count).

Definition RunPolicyFromJob (job : Job Q) : string :=
  fst (NormalizeJobRunPolicy (TrimSpace (annotation_of job AnnotationJobRunPolicy))).

Definition StartTimeFromJob (job : Job Q) : option Z :=
  let raw := TrimSpace (annotation_of job AnnotationJobStartTime) in
  if str_empty raw then None else ParseInt raw.

(** A positive generation. *)
Definition parse_generation (text : string) : option Z :=
  match ParseUint text with Some 0 => None | r => r end.

Definition adoptReusableJobExecution (desired existing : Job Q) : K Q (result (Job Q)) :=
  let desiredTaskID := TrimSpace (annotation_of desired AnnotationJobTaskID) in
  let desiredExecutionKey := TrimSpace (annotation_of desired AnnotationJobExecutionKey) in
  match parse_generation (TrimSpace (annotation_of desired AnnotationJobRunGeneration)) with
  | None => kerr (Errorf "job requires task, execution key, and run generation")
  | Some desiredGeneration =>
      if str_empty desiredTaskID || str_empty desiredExecutionKey
      then kerr (Errorf "job requires task, execution key, and run generation") else
      let existingTaskID := TrimSpace (annotation_of existing AnnotationJobTaskID) in
      let existingExecutionKey := TrimSpace (annotation_of existing AnnotationJobExecutionKey) in
      match parse_generation (TrimSpace (annotation_of existing AnnotationJobRunGeneration)) with
      | None => kerr (Errorf "job has incomplete execution identity")
      | Some existingGeneration =>
          if str_empty existingTaskID || str_empty existingExecutionKey
          then kerr (Errorf "job has incomplete execution identity") else
          if (existingExecutionKey =? desiredExecutionKey)%string && (existingGeneration =? desiredGeneration) &&
             (existingTaskID =? desiredTaskID)%string
          then kok existing else
          if (existingTaskID =? desiredTaskID)%string && (desiredGeneration <=? existingGeneration)
          then kerr (Wrapf "job belongs to another execution" ErrJobExecutionIdentityChanged) else
          kwrap (Wrapf "adopt reusable job")
            (kube_Update (existing <| kj_Annotations :=
               <[AnnotationJobRunGeneration := FormatUint desiredGeneration 10]>
               (<[AnnotationJobExecutionKey := desiredExecutionKey]>
               (<[AnnotationJobTaskID := desiredTaskID]> (kj_Annotations existing))) |>))
      end
  end.

Inductive runPolicyAction := runPolicyActionCreate | RunPolicyActionSkip.

Definition ApplyJobRunPolicy (job : Job Q) (jobType : string) : K Q (result runPolicyAction) :=
  match client with
  | None => kerr no_client
  | Some _ =>
      if str_empty (kj_Namespace job) then kerr (Errorf "job namespace is empty") else
      if str_empty (kj_Name job) then kerr (Errorf "job name is empty") else
      let policy := RunPolicyFromJob job in
      must! existing := JobExists (kj_Namespace job) (kj_Name job) in
      match existing with
      | None =>
          if (policy =? JobRunPolicySkipIfCompleted)%string then
            kube! completed := kdb (jobCompletedInStore jobType job) in
            match completed with
            | Ok true => kok RunPolicyActionSkip
            | Ok false | Err _ => kok runPolicyActionCreate
            end
          else kok runPolicyActionCreate
      | Some existing =>
          must! _ := kdb (validateExistingJobExecutionIdentity job existing) in
          if (policy =? JobRunPolicySkipIfCompleted)%string then
            match JobTerminalStatus existing with
            | Some (status, message) =>
                if (status =? StatusCompleted)%string then kok RunPolicyActionSkip
                else kerr (StatusError StatusFailed (Errorf ("existing job failed: " ++ message)))
            | None => must! _ := adoptReusableJobExecution job existing in kok runPolicyActionCreate
            end
          else
            kube! deleted := deleteJobForeground (kj_Namespace job) existing in
            match deleted with
            | Err e =>
                if negb (errors_is ErrNotFound e) then kerr (Wrapf "delete existing job" e) else
                must! _ := waitForJobUIDDeletion (kj_Namespace job) (kj_Name job) (kj_UID existing) in
                kok runPolicyActionCreate
            | Ok _ =>
                must! _ := waitForJobUIDDeletion (kj_Namespace job) (kj_Name job) (kj_UID existing) in
                kok runPolicyActionCreate
            end
      end
  end.

(** ** batch.go: creating a Job and waiting for it *)

Definition CreateBatchJob (job : Job Q) : K Q (result bool) :=
  kube! task := get_job in
  must! _ := kdb (EnsureCurrentJobWorkflowOwnership task) in
  must! res := CreateOrUpdateTrackedResource (kube_Get (kj_Namespace job) (kj_Name job)) (kube_Create job)
    (fun existing => kdb (validateExistingJobExecutionIdentity job existing)) ResourceJob (kj_Namespace job) (kj_Name job) in
  kok (snd res).

Variable error_text : error -> string.

(** What a failed wait returns. *)
Definition wait_failed (e : error) : string * string * option error :=
  if errors_is DeadlineExceeded e || errors_is ContextCanceled e
  then (StatusTimeout, error_text e, Some (StatusError StatusTimeout e))
  else (StatusFailed, error_text e, Some e).

(** The status and message the condition found. *)
Definition wait_found (status message : string) : string * string * option error :=
  if (status =? StatusFailed)%string then (status, message, Some (StatusError StatusFailed (Errorf message)))
  else (status, message, None).

(** A wait may be for one object only: [matches] looks at the live Job with what it
    remembers of the objects before. *)
Section Matching.
Context {S : Type}.
Variable matches : option (S -> Job Q -> bool * S).

Definition matched (seen : S) (job : Job Q) : bool * S :=
  match matches with Some f => f seen job | None => (true, seen) end.

(** The poll's condition: [Some] when it ends the wait. *)
Definition check_completion (namespace name : string) (seen : S) : K Q (option (string * string * option error) * S) :=
  kube! r := kube_Get namespace name in
  match r with
  | Err e => kret (if errors_is ErrNotFound e then None else Some (wait_failed e), seen)
  | Ok job =>
      let '(same, seen) := matched seen job in
      if negb same then kret (Some (wait_failed ErrJobExecutionIdentityChanged), seen) else
      match JobTerminalStatus job with
      | Some (status, message) => kret (Some (wait_found status message), seen)
      | None =>
          kube! completed := jobSucceededOwnedPodsCompleted namespace job in
          kret (match completed with
                | Err e => Some (wait_failed e)
                | Ok true => Some (wait_found StatusCompleted "")
                | Ok false => None
                end, seen)
      end
  end.

Fixpoint wait_completion (ticks : nat) (namespace name : string) (seen : S)
    : K Q (string * string * option error * S) :=
  kube! r := check_completion namespace name seen in
  let '(r, seen) := r in
  match r with
  | Some verdict => kret (verdict, seen)
  | None =>
      kube! stopped := job_ctx in
      match stopped with
      | Some e => kret (wait_failed e, seen)
      | None =>
          match ticks with
          | Datatypes.S ticks => wait_completion ticks namespace name seen
          | O => kret (wait_failed DeadlineExceeded, seen)
          end
      end
  end.

Definition WaitForJobCompletionMatching (namespace name : string) (seen : S)
    : K Q (string * string * option error * S) :=
  match client with
  | None => kret (StatusFailed, "client is nil"%string, Some no_client, seen)
  | Some _ => kube! ticks := next_ticks in wait_completion ticks namespace name seen
  end.
End Matching.

Definition WaitBatchJob (c_Namespace : string) : K Q (string * string * option error) :=
  kube! k := kget in
  let task := jr_job (kr_run k) in
  if jt_Timeout task <=? 0 then kret (StatusFailed, ""%string, Some (Errorf "job timeout is not set")) else
  let namespace := match kr_info k with
                   | Some job => if str_empty (kj_Namespace job) then c_Namespace else kj_Namespace job
                   | None => c_Namespace
                   end in
  let name := match kr_info k with
              | Some job => if str_empty (kj_Name job) then jt_Name task else kj_Name job
              | None => jt_Name task
              end in
  kube! waited := WaitForJobCompletionMatching None namespace name tt in
  kret (fst waited).
End Operations.

(** ** jobresult/result.go *)

Definition StampJobExecutionIdentity {Q} (task : JobTask) (job : Job Q) : Job Q :=
  let job := job <| kj_Labels := <[LabelManagedBy := ManagedByEruun]> (kj_Labels job) |> in
  let job := if blank (jt_TaskID task) then job
             else job <| kj_Annotations := <[AnnotationJobTaskID := TrimSpace (jt_TaskID task)]> (kj_Annotations job) |> in
  if blank (jt_ExecutionKey task) then job else
  let job := job <| kj_Annotations := <[AnnotationJobExecutionKey := TrimSpace (jt_ExecutionKey task)]> (kj_Annotations job) |> in
  let job := if 0 <? jt_RunGeneration task
             then job <| kj_Annotations :=
                    <[AnnotationJobRunGeneration := FormatUint (jt_RunGeneration task) 10]> (kj_Annotations job) |>
             else job in
  let attempt := if jt_Attempt task =? 0 then u64 (i64 (jt_RetryCount task + 1)) else jt_Attempt task in
  job <| kj_Annotations := <[AnnotationJobAttempt := FormatUint attempt 10]> (kj_Annotations job) |>.
