(* ===== verification/PodLogs.v ===== *)
(** The Pods of a finished Job: [pkg/apiserver/event/workflow/job/jobexec/pod_logs.go].

    The output of a Job's containers is read through the cluster ([Cluster]) and bound to
    the Pods of one Job when the caller names it; a completed Job is deleted with its UID
    as a precondition, and after it the Pods it owns that succeeded. *)

From S2P Require Import Prelude GoStrings Config Json Quantity Policy Model Store Lease Budget.
From S2P Require Import Signals Scheduler PodResources Retry Cleanup JobInfos Components Controller JobExec RunJob KubeJobs.

Definition DefaultJobLogLimitBytes : Z := 1024 * 1024.
Definition logTruncatedMarker : string := "[log truncated]".
Definition newline : string := String "010" EmptyString.
Definition is_newline (c : ascii) : bool := Ascii.eqb c "010".

(** [strings.TrimRight(text, "\n")] *)
Definition trim_newlines (text : string) : string := implode (rev (drop_while is_newline (rev (explode text)))).

(** The text and whether it was cut. *)
Definition finalizeLogContent (content : string) (limitBytes : Z) : string * bool :=
  if limitBytes <=? 0 then (content, false)
  else if Z.of_nat (String.length content) <? limitBytes then (content, false)
  else ((trim_newlines content ++ newline ++ logTruncatedMarker)%string, true).

Definition ends_line (text : string) : bool :=
  match rev (explode text) with c :: _ => is_newline c | [] => false end.

Definition PodLogContainerNames (pod : Pod) : list string :=
  List.filter (fun name => negb (str_empty name)) (pod_InitContainers pod ++ pod_Containers pod).

(** A state that proves the container never ran. *)
Definition never_started (status : ContainerStatus) : bool :=
  cs_Waiting status && negb (cs_Running status) && match cs_Terminated status with None => true | Some _ => false end &&
  negb (cs_LastTermination status) && (cs_RestartCount status =? 0) && str_empty (cs_ContainerID status) &&
  negb (cs_Ready status) && match cs_Started status with Some started => negb started | None => true end.

Definition podContainerNeverStarted (pod : Pod) (name : string) : bool :=
  if str_empty (pod_UID pod) || negb (pod_Phase pod =? PodFailed)%string then false else
  let statuses := if existsb (String.eqb name) (pod_InitContainers pod)
                  then pod_InitContainerStatuses pod else pod_ContainerStatuses pod in
  match List.find (fun status => (cs_Name status =? name)%string) statuses with
  | Some status => never_started status
  | None => false
  end.

Definition by_name (pods : list Pod) : list Pod :=
  merge_sort (fun a b => Is_true (negb (String.ltb (pod_Name b) (pod_Name a)))) pods.

Section PodLogs.
Context {Q : Type} `{QuantityOps Q} `{KubernetesJson Q}.
Variable client : option (Cluster Q).

(** ** Requests *)

Definition kube_Pod (namespace name : string) : K Q (result Pod) :=
  kube! k := kget in
  match client with
  | None => kerr no_client
  | Some cluster =>
      let live := on_pod cluster (kr_log k) namespace name in
      kube! _ := note (KvPod namespace name live) in kret live
  end.

Definition kube_Logs (namespace pod container : string) : K Q (result string) :=
  kube! k := kget in
  match client with
  | None => kerr no_client
  | Some cluster =>
      let logs := on_logs cluster (kr_log k) namespace pod container in
      kube! _ := note (KvLogs namespace pod container logs) in kret logs
  end.

Definition kube_Discard (namespace name uid : string) (version : option string) : K Q (result unit) :=
  kube! k := kget in
  match client with
  | None => kerr no_client
  | Some cluster =>
      let err := on_delete cluster (kr_log k) namespace name uid version in
      kube! _ := note (KvDiscard namespace name uid version err) in
      kret (match err with Some e => Err e | None => Ok tt end)
  end.

Definition kube_DeletePod (namespace name uid : string) : K Q (result unit) :=
  kube! k := kget in
  match client with
  | None => kerr no_client
  | Some cluster =>
      let err := on_delete_pod cluster (kr_log k) namespace name uid in
      kube! _ := note (KvDeletePod namespace name uid err) in
      kret (match err with Some e => Err e | None => Ok tt end)
  end.

(** ** Reading logs *)

Definition ReadPodContainerLogsWithMode (namespace podName container : string) : K Q (result string) :=
  must! content := kube_Logs namespace podName container in
  kok (fst (finalizeLogContent content DefaultJobLogLimitBytes)).

(** What was collected and what failed. *)
Record Collected := { co_text : string; co_errors : list error }.

(** After a container's output: a line break unless it ends with one. *)
Definition add_output (logs : string) (c : Collected) : Collected :=
  Build_Collected (co_text c ++ logs ++ (if ends_line logs then "" else newline)) (co_errors c).
Definition add_error (e : error) (c : Collected) : Collected := Build_Collected (co_text c) (co_errors c ++ [e]).

Definition header (pod : Pod) (container : string) (c : Collected) : Collected :=
  Build_Collected ((if str_empty (co_text c) then "" else co_text c ++ newline) ++
    "=== Pod: " ++ pod_Name pod ++ " (container: " ++ container ++ ") ===" ++ newline)%string (co_errors c).

(** The Pod is still the one that was listed; a container without logs still never ran. *)
Definition confirm_pod (namespace : string) (owner : Job Q) (pod : Pod) (container : string) (missing : bool) (logs : string)
    : K Q (result string) :=
  must! current := kwrap (Wrapf "verify pod after reading logs") (kube_Pod namespace (pod_Name pod)) in
  if negb (pod_UID current =? pod_UID pod)%string || negb (podOwnedByJob current owner)
  then kerr (Errorf "pod identity changed while reading logs") else
  if negb missing then kok logs else
  if negb (podContainerNeverStarted current container)
  then kerr (Errorf "pod container no longer confirms never-started state")
  else kok ("[logs unavailable: container never started before Pod failed (reason: " ++ pod_Reason current ++ ")]")%string.

Definition collect_container (namespace : string) (owner : option (Job Q)) (pod : Pod) (container : string)
    (c : Collected) : K Q Collected :=
  let c := header pod container c in
  match owner with
  | None =>
      kube! logs := ReadPodContainerLogsWithMode namespace (pod_Name pod) container in
      kret (match logs with Ok logs => add_output logs c | Err _ => c end)
  | Some job =>
      let missing := podContainerNeverStarted pod container in
      kube! logs := (if missing then kok ""%string
                     else kwrap (Wrapf "read pod container logs")
                            (ReadPodContainerLogsWithMode namespace (pod_Name pod) container)) in
      match logs with
      | Err e => kret (add_error e c)
      | Ok logs =>
          kube! confirmed := confirm_pod namespace job pod container missing logs in
          kret (match confirmed with Ok logs => add_output logs c | Err e => add_error e c end)
      end
  end.

Fixpoint collect_containers (namespace : string) (owner : option (Job Q)) (pod : Pod) (containers : list string)
    (c : Collected) : K Q Collected :=
  match containers with
  | [] => kret c
  | container :: rest =>
      kube! c := collect_container namespace owner pod container c in
      collect_containers namespace owner pod rest c
  end.

Fixpoint collect_pods (namespace : string) (owner : option (Job Q)) (pods : list Pod) (c : Collected) : K Q Collected :=
  match pods with
  | [] => kret c
  | pod :: rest =>
      if match owner with Some job => negb (podOwnedByJob pod job) | None => false end
      then collect_pods namespace owner rest c
      else
        kube! c := collect_containers namespace owner pod (PodLogContainerNames pod) c in
        collect_pods namespace owner rest c
  end.

(** [errors.Join(readErrors...)] *)
Fixpoint join_errors (e : error) (l : list error) : error :=
  match l with [] => e | e' :: l => ErrJoin e (join_errors e' l) end.

(** The logs that come with an error are not used by any caller. *)
Definition CollectJobPodLogsForJob (namespace jobName : string) (owner : option (Job Q)) : K Q (result string) :=
  match client with
  | None => kerr no_client
  | Some _ =>
      if str_empty namespace || str_empty jobName then kerr (Errorf "job namespace or name is empty") else
      must! pods := kwrap (Wrapf "list job pods") (kube_Pods client namespace jobName) in
      if (length pods =? 0)%nat then kerr (Errorf "no pods found for job") else
      kube! c := collect_pods namespace owner (by_name pods) (Build_Collected "" []) in
      match co_errors c with
      | e :: rest => kerr (join_errors e rest)
      | [] => let logs := TrimSpace (co_text c) in
              if str_empty logs then kerr (Errorf "no logs collected for job") else kok logs
      end
  end.

Definition CollectJobPodLogs (namespace jobName : string) : K Q (result string) :=
  CollectJobPodLogsForJob namespace jobName None.

(** ** Removing a completed Job and its Pods *)

Definition jobForCompletedCleanup (namespace name : string) (fallback : option (Job Q)) : K Q (result (option (Job Q))) :=
  match client with
  | None => kerr no_client
  | Some _ =>
      if str_empty namespace || str_empty name then kerr (Errorf "job namespace or name is empty") else
      let live :=
        kube! r := kube_Get client namespace name in
        match r with
        | Err e => if errors_is ErrNotFound e then kok None else kerr (Wrapf "get job" e)
        | Ok job => if str_empty (kj_UID job) then kerr (Errorf "job UID is empty") else kok (Some job)
        end in
      match fallback with
      | Some job =>
          if negb (str_empty (kj_UID job)) && (kj_Name job =? name)%string &&
             (str_empty (kj_Namespace job) || (kj_Namespace job =? namespace)%string)
          then kok (Some job) else live
      | None => live
      end
  end.

(** The first failure is returned; the loop goes on. *)
Fixpoint delete_completed_pods (namespace : string) (job : Job Q) (pods : list Pod) (deleted : Z) (firstErr : option error)
    : K Q (Z * option error) :=
  match pods with
  | [] => kret (deleted, firstErr)
  | pod :: rest =>
      if negb (pod_Phase pod =? PodSucceeded)%string || negb (podOwnedByJob pod job)
      then delete_completed_pods namespace job rest deleted firstErr
      else
        kube! r := kube_DeletePod namespace (pod_Name pod) (pod_UID pod) in
        match r with
        | Err e =>
            if errors_is ErrNotFound e then delete_completed_pods namespace job rest (deleted + 1) firstErr
            else delete_completed_pods namespace job rest deleted
                   (Some (match firstErr with Some first => first | None => Wrapf "delete completed pod" e end))
        | Ok _ => delete_completed_pods namespace job rest (deleted + 1) firstErr
        end
  end.

Definition deleteCompletedPodsForJob (namespace : string) (job : Job Q) : K Q (result Z) :=
  match client with
  | None => kerr no_client
  | Some _ =>
      if str_empty (kj_Name job) || str_empty (kj_UID job) then kok 0 else
      let namespace := if str_empty namespace then kj_Namespace job else namespace in
      if str_empty namespace then kerr (Errorf "job namespace is empty") else
      must! pods := kwrap (Wrapf "list completed pods for job") (kube_Pods client namespace (kj_Name job)) in
      kube! r := delete_completed_pods namespace job (by_name pods) 0 None in
      match snd r with Some e => kerr e | None => kok (fst r) end
  end.

(** The Job is deleted as it was found; what its deletion leaves of its Pods goes with it. *)
Definition remove_completed (namespace name : string) (job : Job Q) : K Q (result unit) :=
  let uid := kj_UID job in
  let version := if str_empty (kj_ResourceVersion job) then None else Some (kj_ResourceVersion job) in
  kube! deleted := kube_Discard namespace name uid version in
  must! _ := (match deleted with
              | Ok _ => waitForJobUIDDeletion client namespace name uid
              | Err e =>
                  if errors_is ErrNotFound e then kok tt
                  else if errors_is ErrConflict e then
                    must! absent := kwrap (Wrapf "verify job after UID conflict") (jobUIDAbsent client namespace name uid) in
                    if negb absent then kerr (Wrapf "delete job with identity precondition" e) else kok tt
                  else kerr (Wrapf "delete job with identity precondition" e)
              end) in
  must! _ := deleteCompletedPodsForJob namespace job in
  kok tt.

Definition DeleteCompletedJobAndPods (namespace name : string) (fallback : option (Job Q)) : K Q (result unit) :=
  must! cleanupJob := jobForCompletedCleanup namespace name fallback in
  match cleanupJob with Some job => remove_completed namespace name job | None => kok tt end.

(** ** The end of a completed job *)

Definition finalizeCompletedJob (job : Job Q) : K Q unit :=
  kube! task := get_job in
  match client with
  | None => kret tt
  | Some _ =>
      if negb (jt_Status task =? StatusCompleted)%string then kret tt else
      let namespace := if str_empty (kj_Namespace job) then jt_Namespace task else kj_Namespace job in
      let name := if str_empty (kj_Name job) then jt_Name task else kj_Name job in
      if str_empty namespace || str_empty name then kret tt else
      kube! logs := CollectJobPodLogs namespace name in
      kube! _ := (match logs with
                  | Ok logs => if str_empty logs then kret tt else update_job (fun task => task <| jt_Info := logs |>)
                  | Err _ => kret tt
                  end) in
      if IsInstantJobType (jt_JobType task) && negb (str_empty (jt_InternalInfo task)) then kret tt else
      kube! _ := DeleteCompletedJobAndPods namespace name (Some job) in
      kret tt
  end.

(** [completedJobForFinalize]: the payload is a Job and the job type one that runs it. *)
Definition completedJobForFinalize (task : JobTask) (info : option (Job Q)) : option (Job Q) :=
  if negb (jt_Status task =? StatusCompleted)%string then None else
  if negb (IsInstantJobType (jt_JobType task)) && negb (jt_JobType task =? JobDeployScheduled)%string then None else info.

Definition FinalizeCompletedJobIfNeeded : K Q unit :=
  kube! k := kget in
  match completedJobForFinalize (jr_job (kr_run k)) (kr_info k) with
  | Some job => finalizeCompletedJob job
  | None => kret tt
  end.
End PodLogs.
