(* ===== verification/DelayQueue.v ===== *)
(** Jobs that start later: [pkg/apiserver/event/workflow/job/jobinfo/delay_queue.go].

    The workload of a delayed job is its row's [DelayPayload]; the queue only carries a
    notification.  [encode_payload] and [encode_notification] are [json.Marshal], and
    the queue is an [Enqueue] of the messaging layer. *)

From S2P Require Import Prelude GoStrings Config Json Quantity Policy Model Store Lease Budget.
From S2P Require Import Signals Scheduler PodResources Retry Cleanup JobInfos Components Controller JobExec RunJob KubeJobs.

Definition DelayJobNotificationVersion : Z := 2.

Record DelayJobPayload {Q : Type} := {
  dp_ExecuteAt : Z;
  dp_Namespace : string;
  dp_JobType : string;
  dp_TaskID : string;
  dp_ExecutionKey : string;
  dp_RunGeneration : Z;
  dp_RunToken : string;
  dp_ServiceName : string;
  dp_TimeoutSeconds : Z;
  dp_Job : option (Job Q)
}.
Arguments DelayJobPayload Q : clear implicits.

Record delayJobNotification := {
  dn_Version : Z;
  dn_ExecuteAt : Z;
  dn_TaskID : string;
  dn_JobType : string;
  dn_ServiceName : string;
  dn_ExecutionKey : string;
  dn_RunGeneration : Z;
  dn_RunToken : string
}.

#[export] Instance delayJobNotification_eq_dec : EqDecision delayJobNotification.
Proof. solve_decision. Defined.

Definition NotificationForDelayJob {Q} (payload : DelayJobPayload Q) : delayJobNotification := {|
  dn_Version := DelayJobNotificationVersion;
  dn_ExecuteAt := dp_ExecuteAt payload;
  dn_TaskID := dp_TaskID payload;
  dn_JobType := dp_JobType payload;
  dn_ServiceName := dp_ServiceName payload;
  dn_ExecutionKey := dp_ExecutionKey payload;
  dn_RunGeneration := dp_RunGeneration payload;
  dn_RunToken := dp_RunToken payload |}.

Definition ValidateDelayJobIdentity {Q} (payload : DelayJobPayload Q) : result unit :=
  if blank (dp_TaskID payload) then Err (Errorf "delay payload task ID is required")
  else if blank (dp_ExecutionKey payload) then Err (Errorf "delay payload execution key is required")
  else if dp_RunGeneration payload =? 0 then Err (Errorf "delay payload run generation is required")
  else Ok tt.

Definition ValidateDelayJobPayload {Q} (payload : DelayJobPayload Q) : result unit :=
  match dp_Job payload with
  | None => Err (Errorf "delay payload and job are required")
  | Some job =>
      if blank (kj_Name job) then Err (Errorf "delay payload job name is required")
      else ValidateDelayJobIdentity payload
  end.

Definition IsSettledDelayedExecutionStatus (status : string) : bool :=
  one_of [StatusCompleted; StatusPassed; StatusSkipped; StatusFailed; StatusTimeout; StatusCancelled; StatusReject] status.

Definition EnqueueDelayJob {Q} (encode_notification : delayJobNotification -> result string)
    (queue : option (string -> result string)) (payload : DelayJobPayload Q) : result string :=
  check! _ <- ValidateDelayJobPayload payload;
  match queue with
  | None => Err (Errorf "delay queue is unavailable")
  | Some enqueue =>
      match encode_notification (NotificationForDelayJob payload) with
      | Err e => Err (Wrapf "marshal delay notification" e)
      | Ok raw => enqueue raw
      end
  end.

Section Persist.
Context {Q : Type} `{QuantityOps Q} `{KubernetesJson Q}.
Variable decode_job : Json -> option (Job Q).
Variable order : JobRetryPolicy Q -> list (string * Z).
Variable encode_checkpoint : InstantJobRetryCheckpoint Q -> result string.
Variable scope : option string.
Variable encode_payload : DelayJobPayload Q -> result string.

Definition PersistDelayJobCheckpoint (payload : DelayJobPayload Q) : K Q (result unit) :=
  must! _ := kret (ValidateDelayJobPayload payload) in
  match encode_payload payload with
  | Err e => kerr (Wrapf "marshal delay checkpoint" e)
  | Ok raw =>
      kube! _ := update_job (fun job => job <| jt_Status := StatusDistributed |> <| jt_Error := ""%string |>
        <| jt_DelayState := JobDelayStatePending |> <| jt_DelayExecuteAt := dp_ExecuteAt payload |>
        <| jt_DelayPayload := raw |>) in
      kube! task := get_job in
      kwrap (fun e => ErrJoin ErrInfrastructureStop (Wrapf "save delay checkpoint" e))
        (kdb (SaveJobInfo decode_job order encode_checkpoint scope task))
  end.
End Persist.
