(* ===== verification/DelayItems.v ===== *)
(** The delay dispatcher's own queue: [pkg/apiserver/event/workflow/job/jobdelay/delay_dispatcher.go].

    Four goroutines share the dispatcher: two loops turn deliveries into items, the
    recovery turns due checkpoints of the data store into items, and the schedule loop
    takes the item that is due first, waits and dispatches it.  [pending] holds the keys
    of all items there are; the mutex makes every operation on [items] and [pending]
    one step.  [sort_slice] is [sort.Slice] by [executeAt], whose order among items due
    at the same time is not specified; [queue] is the broker's [Ack].  Dispatching an item
    is in DelayDispatch.v. *)

From S2P Require Import Prelude GoStrings Config Json Quantity Policy Model Store Lease Budget.
From S2P Require Import Signals Scheduler PodResources Retry Cleanup JobInfos Components Controller JobExec RunJob KubeJobs.
From S2P Require Import DelayQueue.

Definition delayRecoveryPollInterval : Z := 3 * Second.
Definition delayRecoveryBatchSize : Z := 100.

Record delayItem {Q : Type} := {
  di_executeAt : Z;
  di_attempts : Z;
  di_msgID : string;
  di_key : string;
  di_payload : option (DelayJobPayload Q)
}.
Arguments delayItem Q : clear implicits.

Record DelayDispatcher {Q : Type} := {
  dd_pending : gset string;
  dd_items : list (delayItem Q);
  dd_wake : bool;               (* a token in the channel [wake] *)
  dd_recoveryBeforeID : Z
}.
Arguments DelayDispatcher Q : clear implicits.

#[export] Instance eta_delayItem {Q} : Settable (delayItem Q) := fun i =>
  Build_delayItem Q (di_executeAt i) (di_attempts i) (di_msgID i) (di_key i) (di_payload i).
#[export] Instance eta_DelayDispatcher {Q} : Settable (DelayDispatcher Q) := fun d =>
  Build_DelayDispatcher Q (dd_pending d) (dd_items d) (dd_wake d) (dd_recoveryBeforeID d).

(** ** Delays *)

(** The loop of [retryDelay] after its first step: [n] doublings are left. *)
Fixpoint double_delay (backoffMax : Z) (n : nat) (delay : Z) : Z :=
  match n with
  | O => delay
  | S n => let delay := i64 (delay * 2) in if backoffMax <=? delay then backoffMax else double_delay backoffMax n delay
  end.

Definition retryDelay (backoffMin backoffMax attempt : Z) : Z :=
  if attempt <? 1 then backoffMin else
  let delay := double_delay backoffMax (Z.to_nat (attempt - 1)) backoffMin in
  if delay <? backoffMin then backoffMin else delay.

(** [messaging.Ack]; the queue may be missing. *)
Definition Ack (queue : option (string -> option error)) (msgID : string) : option error :=
  match queue with
  | None => Some (Errorf "delay dispatcher queue is not configured")
  | Some ack => if str_empty msgID then None else ack msgID
  end.

Section Items.
Context {Q : Type}.
Variable sort_slice : list (delayItem Q) -> list (delayItem Q).
Variables backoffMin backoffMax : Z.

Implicit Types (item : delayItem Q) (d : DelayDispatcher Q).

Definition NewDelayDispatcher : DelayDispatcher Q := Build_DelayDispatcher Q ∅ [] false 0.

Definition itemKey item : string :=
  let key := TrimSpace (di_key item) in
  if negb (str_empty key) then key else
  let key := match di_payload item with Some payload => TrimSpace (dp_ExecutionKey payload) | None => ""%string end in
  if negb (str_empty key) then key else TrimSpace (di_msgID item).

(** ** The operations under the mutex *)

Definition sortItems (items : list (delayItem Q)) : list (delayItem Q) :=
  if (length items <? 2)%nat then items else sort_slice items.

(** Whether the item was accepted. *)
Definition addPending item d : bool * DelayDispatcher Q :=
  let key := itemKey item in
  if str_empty key then (false, d)
  else if bool_decide (key ∈ dd_pending d) then (false, d)
  else (true, d <| dd_pending := {[key]} ∪ dd_pending d |> <| dd_items := sortItems (dd_items d ++ [item]) |>).

Definition requeue item d : DelayDispatcher Q := d <| dd_items := sortItems (dd_items d ++ [item]) |>.

(** The first item and how long to wait for it. *)
Definition nextItem (now : Z) d : option (delayItem Q * Z) * DelayDispatcher Q :=
  match dd_items d with
  | [] => (None, d)
  | item :: rest =>
      let wait := time_sub (di_executeAt item * Second) now in
      (Some (item, if wait <? 0 then 0 else wait), d <| dd_items := rest |>)
  end.

Definition notify d : DelayDispatcher Q := d <| dd_wake := true |>.

Definition releasePendingMessages d : DelayDispatcher Q := d <| dd_items := [] |> <| dd_pending := ∅ |>.

(** [item.attempts++], the new [executeAt] and [requeue]. *)
Definition retry_item (now : Z) item d : DelayDispatcher Q :=
  let attempts := i64 (di_attempts item + 1) in
  requeue (item <| di_attempts := attempts |>
                <| di_executeAt := unix (now + retryDelay backoffMin backoffMax attempts) |>) d.

Definition acknowledge (queue : option (string -> option error)) (now : Z) item d : DelayDispatcher Q :=
  match Ack queue (di_msgID item) with
  | Some _ => retry_item now item d
  | None => d <| dd_pending := dd_pending d ∖ {[itemKey item]} |>
  end.

(** [marked] is what [markDelayCheckpointDispatched] returned. *)
Definition finish (queue : option (string -> option error)) (now : Z) (marked : result unit) item d : DelayDispatcher Q :=
  match marked with
  | Err _ => retry_item now item d
  | Ok _ => acknowledge queue now item d
  end.

(** The schedule loop after [dispatch] returned [dispatched]. *)
Definition after_dispatch (queue : option (string -> option error)) (now : Z) (dispatched marked : result unit) item d
    : DelayDispatcher Q :=
  match dispatched with
  | Err e =>
      if errors_is ErrDelayWaitingAdmission e
      then requeue (item <| di_executeAt := unix (now + delayRecoveryPollInterval) |>) d
      else if errors_is ErrDelayDispatchNoRetry e then acknowledge queue now item d
      else retry_item now item d
  | Ok _ => finish queue now marked item d
  end.
End Items.

(** ** Deliveries and checkpoints *)

Section Messages.
Context {Q : Type} `{QuantityOps Q} `{KubernetesJson Q}.
Variable decode_job : Json -> option (Job Q).
Variable sort_slice : list (delayItem Q) -> list (delayItem Q).

Definition dec_delay_payload (j : Json) : option (DelayJobPayload Q) :=
  decode! l <- dec_struct j;
  decode! executeAt <- dec_int64 (json_field "executeAt" l);
  decode! namespace <- dec_string (json_field "namespace" l);
  decode! jobType <- dec_string (json_field "jobType" l);
  decode! taskID <- dec_string (json_field "taskId" l);
  decode! executionKey <- dec_string (json_field "executionKey" l);
  decode! runGeneration <- dec_uint64 (json_field "runGeneration" l);
  decode! runToken <- dec_string (json_field "runToken" l);
  decode! serviceName <- dec_string (json_field "serviceName" l);
  decode! timeoutSeconds <- dec_int64 (json_field "timeoutSeconds" l);
  decode! job <- dec_ptr decode_job (json_field "job" l);
  Some (Build_DelayJobPayload Q executeAt namespace jobType taskID executionKey runGeneration runToken serviceName
          timeoutSeconds job).

Definition unmarshal_delay_payload (raw : string) : result (DelayJobPayload Q) :=
  match (decode! j <- json_parse raw; dec_delay_payload j) with
  | Some payload => Ok payload
  | None => Err (Errorf "cannot unmarshal into DelayJobPayload")
  end.

Definition decodePayload (raw : string) : result (DelayJobPayload Q) :=
  check! payload <- unmarshal_delay_payload raw;
  check! _ <- ValidateDelayJobPayload payload;
  Ok payload.

(** The version and whether there is a workload. *)
Definition dec_envelope (raw : string) : option (Z * bool) :=
  decode! j <- json_parse raw;
  decode! l <- dec_struct j;
  decode! version <- dec_int64 (json_field "version" l);
  Some (version, bool_decide (is_Some (json_optional "job" l))).

Definition decodeNotification (raw : string) : result (DelayJobPayload Q) :=
  match dec_envelope raw with
  | None => Err (Errorf "cannot unmarshal the delay notification")
  | Some (version, workload) =>
      if negb (version =? DelayJobNotificationVersion) then Err (Errorf "unsupported delay notification version")
      else if workload : bool then Err (Errorf "delay notification includes a workload")
      else
        check! payload <- unmarshal_delay_payload raw;
        check! _ <- ValidateDelayJobIdentity payload;
        Ok payload
  end.

(** What becomes of a delivery: nothing, an acknowledgement with its reason, or an item. *)
Inductive handled := Ignored | Acked (reason : string) | Offered (item : delayItem Q).

Definition handleMessage (now : Z) (id raw : string) : handled :=
  if str_empty id then Ignored
  else if str_empty raw then Acked "empty_payload"
  else
    match decodeNotification raw with
    | Err _ => Acked "decode_payload_failed"
    | Ok payload =>
        Offered (Build_delayItem Q (if dp_ExecuteAt payload <=? 0 then unix now else dp_ExecuteAt payload) 0 id
                   (dp_ExecutionKey payload) (Some payload))
    end.

(** [if d.addPending(item) { d.notify() }] *)
Definition offer (item : delayItem Q) (d : DelayDispatcher Q) : DelayDispatcher Q :=
  let '(accepted, d) := addPending sort_slice item d in if accepted : bool then notify d else d.

Definition due_options (now before : Z) : ListOptions := {|
  Filter := Build_FilterOptions [("status", [VStr StatusDistributed]); ("delay_state", [VStr JobDelayStatePending])]%string []
              (("delay_execute_at"%string, VInt (i64 (now + 1))) ::
               (if 0 <? before then [("id"%string, VInt before)] else []));
  Page := 1;
  PageSize := delayRecoveryBatchSize;
  SortBy := [("id"%string, SortOrderDescending)] |}.

(** One row of the recovery, and its error. *)
Definition recover_row (record : JobInfo) (d : DelayDispatcher Q) : option error * DelayDispatcher Q :=
  let d := d <| dd_recoveryBeforeID := job_ID record |> in
  match decodePayload (job_DelayPayload record) with
  | Err e => (Some (Wrapf "decode delay checkpoint" e), d)
  | Ok payload =>
      (None, offer (Build_delayItem Q (dp_ExecuteAt payload) 0 "" (dp_ExecutionKey payload) (Some payload)) d)
  end.

Fixpoint recover_rows (records : list JobInfo) (d : DelayDispatcher Q) : option error * DelayDispatcher Q :=
  match records with
  | [] => (None, d)
  | record :: rest =>
      let '(err, d) := recover_row record d in
      let '(errs, d) := recover_rows rest d in (join err errs, d)
  end.

Definition recoverDueCheckpoints (d : DelayDispatcher Q) : M (option error * DelayDispatcher Q) :=
  let! wall := wall_clock in
  let! entities := wrap_error "list due delay checkpoints"
    (List_ (E := JobInfo) [] (due_options (unix wall) (dd_recoveryBeforeID d))) in
  let '(errs, d) := recover_rows entities d in
  ret (errs, if Z.of_nat (length entities) <? delayRecoveryBatchSize then d <| dd_recoveryBeforeID := 0 |> else d).
End Messages.
