(* ===== verification/DelayLoops.v ===== *)
(** The goroutines of the delay dispatcher as a step relation, and what their
    interleavings keep: [Run], [scheduleLoop], [handleMessage], [recoverDueCheckpoints]
    and [releasePendingMessages] of
    [pkg/apiserver/event/workflow/job/jobdelay/delay_dispatcher.go].

    A goroutine that offers an item does so in two steps, [addPending] and [notify], and
    any number of them may be between the two.  The schedule loop looks for an item, is
    idle on [wake], or holds one while its timer runs; a dispatch takes any result and
    the broker answers any way. *)

From S2P Require Import Prelude GoStrings Config Json Quantity Policy Model Store Lease Budget.
From S2P Require Import Signals Scheduler PodResources Retry Cleanup JobInfos Components Controller JobExec RunJob KubeJobs.
From S2P Require Import DelayQueue DelayItems.

Section Loops.
Context {Q : Type}.
Variable sort_slice : list (delayItem Q) -> list (delayItem Q).
Variables backoffMin backoffMax : Z.

(** Where the schedule loop is; [fires] is when the timer of the item it holds fires. *)
Inductive Phase :=
  | Looking
  | Idle
  | Holding (item : delayItem Q) (fires : Z)
  | Stopped.

Inductive DelayEvent :=
  | EvAccepted (key : string)
  | EvDispatched (item : delayItem Q) (at_ : Z)
  | EvReleased (key : string).

Record Loops := {
  lp_d : DelayDispatcher Q;
  lp_phase : Phase;
  lp_notifying : nat;         (* goroutines between [addPending] and [notify] *)
  lp_now : Z;
  lp_log : list DelayEvent
}.
#[export] Instance eta_Loops : Settable Loops := fun l =>
  Build_Loops (lp_d l) (lp_phase l) (lp_notifying l) (lp_now l) (lp_log l).

Definition start (now : Z) : Loops := Build_Loops NewDelayDispatcher Looking 0 now [].

(** The acknowledged item is pending no more. *)
Definition released_events (item : delayItem Q) (d : DelayDispatcher Q) : list DelayEvent :=
  if bool_decide (itemKey item ∈ dd_pending d) then [] else [EvReleased (itemKey item)].

Inductive step : Loops -> Loops -> Prop :=
  | step_tick l now :
      lp_now l <= now ->
      step l (l <| lp_now := now |>)
  | step_accept l item d :
      lp_phase l <> Stopped ->
      addPending sort_slice item (lp_d l) = (true, d) ->
      step l (l <| lp_d := d |> <| lp_notifying := S (lp_notifying l) |>
                <| lp_log := (lp_log l ++ [EvAccepted (itemKey item)])%list |>)
  | step_notify l n :
      lp_phase l <> Stopped ->
      lp_notifying l = S n ->
      step l (l <| lp_d := notify (lp_d l) |> <| lp_notifying := n |>)
  | step_look_idle l d :
      lp_phase l = Looking ->
      nextItem (lp_now l) (lp_d l) = (None, d) ->
      step l (l <| lp_d := d |> <| lp_phase := Idle |>)
  | step_look_item l item wait d :
      lp_phase l = Looking ->
      nextItem (lp_now l) (lp_d l) = (Some (item, wait), d) ->
      step l (l <| lp_d := d |> <| lp_phase := Holding item (lp_now l + wait) |>)
  | step_wake_idle l :
      lp_phase l = Idle -> dd_wake (lp_d l) = true ->
      step l (l <| lp_d := (lp_d l) <| dd_wake := false |> |> <| lp_phase := Looking |>)
  | step_wake_holding l item fires :
      lp_phase l = Holding item fires -> dd_wake (lp_d l) = true ->
      step l (l <| lp_d := requeue sort_slice item ((lp_d l) <| dd_wake := false |>) |> <| lp_phase := Looking |>)
  | step_dispatch l item fires queue dispatched marked :
      lp_phase l = Holding item fires -> fires <= lp_now l ->
      let d := after_dispatch sort_slice backoffMin backoffMax queue (lp_now l) dispatched marked item (lp_d l) in
      step l (l <| lp_d := d |> <| lp_phase := Looking |>
                <| lp_log := (lp_log l ++ EvDispatched item (lp_now l) :: released_events item d)%list |>)
  | step_stop l :
      lp_notifying l = 0%nat -> lp_phase l <> Stopped ->
      step l (l <| lp_d := releasePendingMessages (lp_d l) |> <| lp_phase := Stopped |>).

Definition reachable (now : Z) (l : Loops) : Prop := rtc step (start now) l.
End Loops.
Arguments Phase Q : clear implicits.
Arguments DelayEvent Q : clear implicits.
Arguments Loops Q : clear implicits.

(** ** What holds in every reachable state *)

Section Invariant.
Context {Q : Type}.
Variable sort_slice : list (delayItem Q) -> list (delayItem Q).
Variables backoffMin backoffMax : Z.

Definition due_order (a b : delayItem Q) : Prop := di_executeAt a <= di_executeAt b.

Hypothesis sort_permutes : forall items, Permutation (sort_slice items) items.
Hypothesis sort_sorts : forall items, StronglySorted due_order (sort_slice items).

Definition held (l : Loops Q) : list (delayItem Q) :=
  match lp_phase l with Holding item _ => [item] | _ => [] end.

(** The items of the dispatcher: the one its schedule loop holds and those in the list. *)
Definition owned (l : Loops Q) : list (delayItem Q) := (held l ++ dd_items (lp_d l))%list.

(** Acceptances less releases of a key. *)
Fixpoint balance (k : string) (log : list (DelayEvent Q)) : Z :=
  match log with
  | [] => 0
  | EvAccepted key :: log => (if (key =? k)%string then 1 else 0) + balance k log
  | EvReleased key :: log => balance k log - (if (key =? k)%string then 1 else 0)
  | EvDispatched _ _ :: log => balance k log
  end.

(** A notification is on its way to the schedule loop. *)
Definition awake (l : Loops Q) : Prop := dd_wake (lp_d l) = true \/ (0 < lp_notifying l)%nat.

(** No item waits unnoticed. *)
Definition noticed (l : Loops Q) : Prop :=
  match lp_phase l with
  | Idle => dd_items (lp_d l) = [] \/ awake l
  | Holding item _ => Forall (due_order item) (dd_items (lp_d l)) \/ awake l
  | _ => True
  end.

(** Not before it is due, as far as a timer of at most [max_int64] nanoseconds can wait. *)
Definition on_time (started : Z) (item : delayItem Q) (at_ : Z) : Prop :=
  Z.min (di_executeAt item * Second) (started + max_int64) <= at_.

Record delay_ok (started : Z) (l : Loops Q) : Prop := {
  ok_keys : NoDup (map itemKey (owned l));
  ok_pending : dd_pending (lp_d l) = list_to_set (map itemKey (owned l));
  ok_named : ~ In ""%string (map itemKey (owned l));
  ok_sorted : StronglySorted due_order (dd_items (lp_d l));
  ok_noticed : noticed l;
  ok_clock : started <= lp_now l;
  ok_timer : forall item fires, lp_phase l = Holding item fires -> on_time started item fires;
  ok_balance : lp_phase l <> Stopped ->
    forall k, balance k (lp_log l) = if bool_decide (k ∈ dd_pending (lp_d l)) then 1 else 0;
  ok_events : forall item at_, In (EvDispatched item at_) (lp_log l) -> on_time started item at_
}.

Lemma sortItems_permutes items : Permutation (sortItems sort_slice items) items.
Proof. unfold sortItems. destruct (length items <? 2)%nat; [done|apply sort_permutes]. Qed.

Lemma sortItems_sorted items : StronglySorted due_order (sortItems sort_slice items).
Proof.
  unfold sortItems. destruct (Nat.ltb_spec (length items) 2) as [L|_]; [|apply sort_sorts].
  destruct items as [|a [|b items]]; cbn in L; [constructor|by repeat constructor|lia].
Qed.

Lemma balance_app k a b : balance k (a ++ b)%list = balance k a + balance k b.
Proof. induction a as [|[key|item t|key] a IH]; cbn [balance app]; rewrite ?IH; lia. Qed.

(** An item with the same key, for a retry. *)
Definition same_item (item item' : delayItem Q) : Prop :=
  di_key item' = di_key item /\ di_payload item' = di_payload item /\ di_msgID item' = di_msgID item.

Lemma same_item_key item item' : same_item item item' -> itemKey item' = itemKey item.
Proof. intros (K & P & M). unfold itemKey. by rewrite K, P, M. Qed.

Lemma retry_item_cases now item d :
  exists item', same_item item item' /\ retry_item sort_slice backoffMin backoffMax now item d = requeue sort_slice item' d.
Proof. eexists. split; [|reflexivity]. done. Qed.

Lemma acknowledge_cases queue now item d :
  let r := acknowledge sort_slice backoffMin backoffMax queue now item d in
  (exists item', same_item item item' /\ r = requeue sort_slice item' d) \/
  r = d <| dd_pending := dd_pending d ∖ {[itemKey item]} |>.
Proof. unfold acknowledge. destruct (Ack queue _); [left; apply retry_item_cases|by right]. Qed.

(** A dispatched item is queued again or its key is released. *)
Lemma after_dispatch_cases queue now dispatched marked item d :
  let r := after_dispatch sort_slice backoffMin backoffMax queue now dispatched marked item d in
  (exists item', same_item item item' /\ r = requeue sort_slice item' d) \/
  r = d <| dd_pending := dd_pending d ∖ {[itemKey item]} |>.
Proof.
  unfold after_dispatch, finish. destruct dispatched as [[]|e].
  - destruct marked; [apply acknowledge_cases|left; apply retry_item_cases].
  - destruct (errors_is _ e); [left; eexists; split; [|reflexivity]; done|].
    destruct (errors_is _ e); [apply acknowledge_cases|left; apply retry_item_cases].
Qed.

(** Without a queue nothing is ever released. *)
Lemma unconfigured_queue_keeps_items now dispatched marked item d :
  dd_pending (after_dispatch sort_slice backoffMin backoffMax None now dispatched marked item d) = dd_pending d.
Proof.
  unfold after_dispatch, finish. destruct dispatched as [[]|e]; [by destruct marked|].
  destruct (errors_is _ e); [done|]. by destruct (errors_is _ e).
Qed.

(** ** Requeueing the held item keeps the keys *)

Lemma requeued_keys item item' d :
  same_item item item' ->
  Permutation (map itemKey (dd_items (requeue sort_slice item' d))) (map itemKey (item :: dd_items d)).
Proof.
  intros S. cbn. rewrite (Permutation_map _ (sortItems_permutes _)), map_app. cbn [map].
  rewrite (same_item_key _ _ S). symmetry. apply Permutation_cons_append.
Qed.

(** The keys as one fact, up to their order. *)
Definition keys_ok (pending : gset string) (keys : list string) : Prop :=
  NoDup keys /\ pending = list_to_set keys /\ ~ In ""%string keys.

Lemma keys_ok_permuted pending a b : Permutation a b -> keys_ok pending b -> keys_ok pending a.
Proof.
  intros P (N & -> & E). split; [by rewrite P|]. split; [by rewrite P|]. intros X. apply E. by rewrite <- P.
Qed.

Lemma keys_ok_cons pending k keys : ~ k ∈ pending -> k <> ""%string -> keys_ok pending keys ->
  keys_ok ({[k]} ∪ pending) (k :: keys).
Proof.
  intros K E (N & -> & X). split; [constructor; [set_solver|done]|]. split; [done|].
  intros [->|Y]; [done|by apply X].
Qed.

Lemma keys_ok_tail pending k keys : keys_ok pending (k :: keys) -> keys_ok (pending ∖ {[k]}) keys.
Proof.
  intros (N & -> & X). inversion N; subst. split; [done|]. split; [set_solver|]. intros Y. apply X. by right.
Qed.

Lemma delay_ok_keys started l : delay_ok started l -> keys_ok (dd_pending (lp_d l)) (map itemKey (owned l)).
Proof. intros []. done. Qed.

Lemma delay_ok_start started : delay_ok started (start (Q := Q) started).
Proof.
  split; cbn; try done; try lia; constructor.
Qed.

(** ** The steps *)

Lemma delay_ok_tick started l now : lp_now l <= now -> delay_ok started l -> delay_ok started (l <| lp_now := now |>).
Proof. intros L []. split; try done. cbn. lia. Qed.

Lemma delay_ok_accept started l item d :
  lp_phase l <> Stopped -> addPending sort_slice item (lp_d l) = (true, d) -> delay_ok started l ->
  delay_ok started (l <| lp_d := d |> <| lp_notifying := S (lp_notifying l) |>
                      <| lp_log := (lp_log l ++ [EvAccepted (itemKey item)])%list |>).
Proof.
  intros R A I. pose proof (delay_ok_keys _ _ I) as K. destruct I. unfold addPending in A.
  destruct (str_empty (itemKey item)) eqn:E; [done|]. apply str_empty_false in E.
  destruct (bool_decide _) eqn:F; [done|]. apply bool_decide_eq_false in F. injection A as <-.
  assert (K' : keys_ok ({[itemKey item]} ∪ dd_pending (lp_d l))
             (map itemKey (held l ++ sortItems sort_slice (dd_items (lp_d l) ++ [item])))).
  { apply (keys_ok_permuted _ _ (itemKey item :: map itemKey (owned l))); [|by apply keys_ok_cons].
    rewrite map_app, sortItems_permutes, map_app. unfold owned. rewrite map_app. cbn [map].
    rewrite app_assoc. symmetry. apply Permutation_cons_append. }
  destruct K' as (N & P & X).
  split; cbn; try done.
  - apply sortItems_sorted.
  - unfold noticed, awake in *. cbn. destruct (lp_phase l); try done; right; right; lia.
  - intros _ k. rewrite balance_app, ok_balance0 by done. cbn. destruct (String.eqb_spec (itemKey item) k) as [<-|Ne].
    + rewrite bool_decide_eq_false_2 by done. rewrite bool_decide_eq_true_2 by set_solver. done.
    + rewrite Z.add_0_r, (bool_decide_ext (k ∈ {[itemKey item]} ∪ _) (k ∈ dd_pending (lp_d l))) by set_solver. lia.
  - intros i t Hi. apply in_app_or in Hi as [Hi|[Hi|[]]]; [by eapply ok_events0|done].
Qed.

Lemma delay_ok_notify started l n :
  lp_notifying l = S n -> delay_ok started l ->
  delay_ok started (l <| lp_d := notify (lp_d l) |> <| lp_notifying := n |>).
Proof.
  intros E []. split; try done. unfold noticed, awake. cbn. destruct (lp_phase l); try done; right; by left.
Qed.

Lemma delay_ok_idle started l d :
  lp_phase l = Looking -> nextItem (lp_now l) (lp_d l) = (None, d) -> delay_ok started l ->
  delay_ok started (l <| lp_d := d |> <| lp_phase := Idle |>).
Proof.
  intros P E []. unfold nextItem in E. destruct (dd_items (lp_d l)) eqn:I; [|done]. injection E as <-.
  unfold owned, held in *. rewrite P in *. split; unfold owned, held, noticed; cbn; try done.
  - by rewrite I.
  - by left.
  - intros _. by apply ok_balance0.
Qed.

Lemma wait_on_time started now item :
  let wait := time_sub (di_executeAt item * Second) now in
  started <= now -> on_time started item (now + (if wait <? 0 then 0 else wait)).
Proof.
  intros wait L. unfold on_time. unfold time_sub in wait. subst wait.
  generalize (di_executeAt item * Second). intros due. unfold max_int64, min_int64.
  set (big := 2 ^ 63). assert (0 < big) by done.
  destruct (Z.ltb_spec (Z.max (- big) (Z.min (big - 1) (due - now))) 0); lia.
Qed.

Lemma delay_ok_take started l item wait d :
  lp_phase l = Looking -> nextItem (lp_now l) (lp_d l) = (Some (item, wait), d) -> delay_ok started l ->
  delay_ok started (l <| lp_d := d |> <| lp_phase := Holding item (lp_now l + wait) |>).
Proof.
  intros P E []. unfold nextItem in E. destruct (dd_items (lp_d l)) as [|i rest] eqn:I; [done|].
  injection E as <- W <-. unfold owned, held in *. rewrite P, I in *. inversion ok_sorted0; subst.
  split; unfold owned, held, noticed; cbn; try done.
  - by left.
  - intros ? ? [= <- <-]. by apply wait_on_time.
  - intros _. by apply ok_balance0.
Qed.

Lemma delay_ok_wake_idle started l :
  lp_phase l = Idle -> delay_ok started l ->
  delay_ok started (l <| lp_d := (lp_d l) <| dd_wake := false |> |> <| lp_phase := Looking |>).
Proof.
  intros P []. unfold owned, held in *. rewrite P in *. split; unfold owned, held, noticed; cbn; try done.
  intros _. by apply ok_balance0.
Qed.

(** The held item, or another copy of it, goes back to the list. *)
Lemma delay_ok_requeue started l item item' fires wake log now :
  lp_phase l = Holding item fires -> same_item item item' -> lp_now l <= now ->
  (forall k, balance k log = balance k (lp_log l)) ->
  (forall i t, In (EvDispatched i t) log -> on_time started i t) ->
  delay_ok started l ->
  delay_ok started (Build_Loops (requeue sort_slice item' ((lp_d l) <| dd_wake := wake |>)) Looking (lp_notifying l) now log).
Proof.
  intros P S L B E I. pose proof (delay_ok_keys _ _ I) as K. destruct I.
  assert (K' : keys_ok (dd_pending (lp_d l))
             (map itemKey (dd_items (requeue sort_slice item' ((lp_d l) <| dd_wake := wake |>))))).
  { eapply keys_ok_permuted; [apply (requeued_keys item); done|]. unfold owned, held in K. rewrite P in K. exact K. }
  destruct K' as (N & U & X).
  split; unfold owned, held, noticed; cbn; try done.
  - apply sortItems_sorted.
  - lia.
  - intros _ k. rewrite B. apply ok_balance0. by rewrite P.
Qed.

(** The held item is released. *)
Lemma delay_ok_release started l item fires log :
  lp_phase l = Holding item fires ->
  (forall k, balance k log = balance k (lp_log l) - (if (itemKey item =? k)%string then 1 else 0)) ->
  (forall i t, In (EvDispatched i t) log -> on_time started i t) ->
  delay_ok started l ->
  delay_ok started (Build_Loops ((lp_d l) <| dd_pending := dd_pending (lp_d l) ∖ {[itemKey item]} |>) Looking
                      (lp_notifying l) (lp_now l) log).
Proof.
  intros P B E I. pose proof (delay_ok_keys _ _ I) as K. destruct I. unfold owned, held in K. rewrite P in K.
  assert (M : itemKey item ∈ dd_pending (lp_d l)) by (destruct K as (_ & -> & _); set_solver).
  apply keys_ok_tail in K as (N & U & X).
  split; unfold owned, held, noticed; cbn; try done.
  intros _ k. rewrite B, ok_balance0 by (by rewrite P). destruct (String.eqb_spec (itemKey item) k) as [<-|Ne].
  - rewrite bool_decide_eq_true_2 by done. rewrite bool_decide_eq_false_2 by set_solver. done.
  - rewrite (bool_decide_ext (k ∈ _ ∖ _) (k ∈ dd_pending (lp_d l))) by set_solver. lia.
Qed.

Lemma delay_ok_dispatch started l item fires queue dispatched marked :
  lp_phase l = Holding item fires -> fires <= lp_now l -> delay_ok started l ->
  let d := after_dispatch sort_slice backoffMin backoffMax queue (lp_now l) dispatched marked item (lp_d l) in
  delay_ok started (l <| lp_d := d |> <| lp_phase := Looking |>
                      <| lp_log := (lp_log l ++ EvDispatched item (lp_now l) :: released_events item d)%list |>).
Proof.
  intros P F I d.
  assert (T : on_time started item (lp_now l)) by (pose proof (ok_timer _ _ I _ _ P); unfold on_time in *; lia).
  assert (E : forall tail, (forall i t, In (EvDispatched i t) tail -> False) ->
            forall i t, In (EvDispatched i t) (lp_log l ++ EvDispatched item (lp_now l) :: tail) -> on_time started i t).
  { intros tail N i t H. apply in_app_or in H as [H|[[= <- <-]|H]]; [by apply (ok_events _ _ I)|done|by apply N in H]. }
  assert (M : itemKey item ∈ dd_pending (lp_d l)).
  { rewrite (ok_pending _ _ I). unfold owned, held. rewrite P. set_solver. }
  destruct (after_dispatch_cases queue (lp_now l) dispatched marked item (lp_d l)) as [(item' & S & D)|D];
    subst d; rewrite D; unfold released_events; cbn [dd_pending requeue].
  - rewrite bool_decide_eq_true_2 by done.
    apply (delay_ok_requeue started l item item' fires (dd_wake (lp_d l)) _ (lp_now l)); [done|done|done| |by apply E|done].
    intros k. rewrite balance_app. cbn. lia.
  - rewrite bool_decide_eq_false_2 by (cbn; set_solver).
    apply (delay_ok_release started l item fires); [done| |apply E; by intros ? ? [|[]]|done].
    intros k. rewrite balance_app. cbn. lia.
Qed.

Lemma delay_ok_stop started l : lp_phase l <> Stopped -> delay_ok started l ->
  delay_ok started (l <| lp_d := releasePendingMessages (lp_d l) |> <| lp_phase := Stopped |>).
Proof.
  intros _ []. split; unfold owned, held, noticed; cbn; try done; [apply NoDup_nil_2|tauto|constructor].
Qed.

Lemma delay_ok_step started l l' :
  step sort_slice backoffMin backoffMax l l' -> delay_ok started l -> delay_ok started l'.
Proof.
  destruct 1; intros I; eauto using delay_ok_tick, delay_ok_accept, delay_ok_notify, delay_ok_idle, delay_ok_take,
    delay_ok_wake_idle, delay_ok_stop, delay_ok_dispatch.
  apply (delay_ok_requeue started l item item fires false (lp_log l) (lp_now l)); try done.
  apply (ok_events _ _ I).
Qed.

Lemma delay_ok_reachable started l : reachable sort_slice backoffMin backoffMax started l -> delay_ok started l.
Proof.
  intros R. apply (rtc_ind_r (delay_ok started) (start started)) in R; [done|apply delay_ok_start|].
  intros y z _ S. by apply delay_ok_step.
Qed.

(** ** No deadlock *)

Definition dispatched_key (k : string) (ev : DelayEvent Q) : bool :=
  match ev with EvDispatched item _ => (itemKey item =? k)%string | _ => false end.

(** From [l] the loops can get to dispatch an item with the key. *)
Definition may_dispatch (k : string) (l : Loops Q) : Prop :=
  exists l' new, rtc (step sort_slice backoffMin backoffMax) l l' /\ lp_log l' = (lp_log l ++ new)%list /\
    existsb (dispatched_key k) new = true.

Lemma may_dispatch_step k l l' new :
  step sort_slice backoffMin backoffMax l l' -> lp_log l' = (lp_log l ++ new)%list -> may_dispatch k l' -> may_dispatch k l.
Proof.
  intros S E (l'' & new' & R & E' & X). exists l'', (new ++ new')%list. split; [by eapply rtc_l|].
  split; [by rewrite E', E, app_assoc|]. rewrite existsb_app, X. apply orb_true_r.
Qed.

Lemma may_dispatch_quiet k l l' :
  step sort_slice backoffMin backoffMax l l' -> lp_log l' = lp_log l -> may_dispatch k l' -> may_dispatch k l.
Proof. intros S E. apply (may_dispatch_step k l l' []); [done|]. by rewrite E, app_nil_r. Qed.

(** The broker acknowledges and the dispatch succeeds. *)
Definition served (l : Loops Q) (item : delayItem Q) (now : Z) : Loops Q :=
  let d := (lp_d l) <| dd_pending := dd_pending (lp_d l) ∖ {[itemKey item]} |> in
  l <| lp_now := now |> <| lp_d := d |> <| lp_phase := Looking |>
    <| lp_log := (lp_log l ++ EvDispatched item now :: released_events item d)%list |>.

Lemma serve l item fires :
  lp_phase l = Holding item fires ->
  rtc (step sort_slice backoffMin backoffMax) l (served l item (Z.max fires (lp_now l))).
Proof.
  intros P. set (now := Z.max fires (lp_now l)). assert (F : fires <= now) by (unfold now; lia).
  eapply rtc_l; [apply (step_tick _ _ _ l now); unfold now; lia|]. set (l1 := l <| lp_now := now |>).
  eapply rtc_l; [|apply rtc_refl].
  pose proof (step_dispatch sort_slice backoffMin backoffMax l1 item fires (Some (fun _ => None)) (Ok tt) (Ok tt) P F) as S.
  unfold after_dispatch, finish, acknowledge, Ack in S. destruct (str_empty (di_msgID item)); exact S.
Qed.

Lemma held_dispatched k l item fires :
  lp_phase l = Holding item fires -> itemKey item = k -> may_dispatch k l.
Proof.
  intros P <-. eexists _, _. split; [by apply serve|]. split; [reflexivity|]. cbn. by rewrite String.eqb_refl.
Qed.

Lemma looking_dispatches k n : forall l,
  length (dd_items (lp_d l)) = n -> lp_phase l = Looking -> In k (map itemKey (dd_items (lp_d l))) -> may_dispatch k l.
Proof.
  induction n as [|n IH]; intros l L P M; destruct (dd_items (lp_d l)) as [|item rest] eqn:I; try done.
  eapply may_dispatch_quiet; [eapply step_look_item; [done|unfold nextItem; by rewrite I]|done|].
  set (wait := if time_sub _ _ <? 0 then _ else _).
  destruct (String.eqb_spec (itemKey item) k) as [E|N]; [by eapply held_dispatched|].
  match goal with |- may_dispatch _ ?l1 => set (l' := l1) end.
  destruct (IH (served l' item (Z.max (lp_now l + wait) (lp_now l)))) as (l'' & new & R & E & X); try done.
  - cbn in L. by injection L.
  - by destruct M.
  - eexists l'', _. split; [etrans; [by apply (serve l' item (lp_now l + wait))|exact R]|].
    split; [rewrite E; unfold served; cbn; by rewrite <- app_assoc|]. rewrite existsb_app, X. apply orb_true_r.
Qed.

(** Every accepted item can still be dispatched, whatever happened before. *)
Lemma pending_dispatches started k l :
  delay_ok started l -> lp_phase l <> Stopped -> k ∈ dd_pending (lp_d l) -> may_dispatch k l.
Proof.
  intros I R K. pose proof (ok_noticed _ _ I) as Nt. rewrite (ok_pending _ _ I) in K.
  apply elem_of_list_to_set, list_elem_of_In in K. unfold owned, held, noticed in *.
  destruct (lp_phase l) as [| |item fires|] eqn:P; [|destruct Nt as [Em|A]; [by rewrite Em in K|]| |done].
  - by eapply looking_dispatches.
  - assert (W : dd_wake (lp_d l) = true -> may_dispatch k l).
    { intros W. eapply may_dispatch_quiet; [by eapply step_wake_idle|done|]. by eapply looking_dispatches. }
    destruct (dd_wake (lp_d l)) eqn:E; [by apply W|]. destruct A as [A|A]; [congruence|].
    destruct (lp_notifying l) as [|n] eqn:Nn; [lia|].
    eapply may_dispatch_quiet; [eapply step_notify; [by rewrite P|exact Nn]|done|].
    eapply may_dispatch_quiet; [by eapply step_wake_idle|done|]. by eapply looking_dispatches.
  - destruct K as [E|K]; [by eapply held_dispatched|].
    destruct (String.eqb_spec (itemKey item) k) as [E|N]; [by eapply held_dispatched|].
    destruct (looking_dispatches k (length (dd_items (lp_d l))) (served l item (Z.max fires (lp_now l)))) as (l' & new & S & E & X); try done.
    eexists l', _. split; [etrans; [by apply serve|exact S]|].
    split; [rewrite E; unfold served; cbn; by rewrite <- app_assoc|]. rewrite existsb_app, X. apply orb_true_r.
Qed.
End Invariant.

(** ** Correctness of the dispatcher's queue *)

(** C10: The dispatcher's queue under every interleaving of its goroutines and every result of a dispatch: a key is
    owned by one item and pending exactly as long, from its acceptance to its acknowledgement; the list is sorted by
    the time an item is due; no item waits without the schedule loop knowing of it or being about to; nothing is
    dispatched before it is due; and until the dispatcher stops every accepted item can still be dispatched. *)
Theorem delay_queue_exact {Q} (sort_slice : list (delayItem Q) -> list (delayItem Q)) backoffMin backoffMax started l :
  (forall items, Permutation (sort_slice items) items) ->
  (forall items, StronglySorted due_order (sort_slice items)) ->
  reachable sort_slice backoffMin backoffMax started l ->
  let keys := map itemKey (owned l) in
  (NoDup keys /\ dd_pending (lp_d l) = list_to_set keys) /\
  StronglySorted due_order (dd_items (lp_d l)) /\
  noticed l /\
  (forall item at_, In (EvDispatched item at_) (lp_log l) -> on_time started item at_) /\
  (lp_phase l <> Stopped -> forall k,
     balance k (lp_log l) = (if bool_decide (k ∈ dd_pending (lp_d l)) then 1 else 0) /\
     (k ∈ dd_pending (lp_d l) -> may_dispatch sort_slice backoffMin backoffMax k l)).
Proof.
  intros P S R keys. assert (I : delay_ok started l) by (eapply delay_ok_reachable; eauto).
  split; [split; [apply (ok_keys _ _ I)|apply (ok_pending _ _ I)]|].
  split; [apply (ok_sorted _ _ I)|]. split; [apply (ok_noticed _ _ I)|]. split; [apply (ok_events _ _ I)|].
  intros Rn k. split; [by apply (ok_balance _ _ I)|]. by eapply pending_dispatches.
Qed.

(** ** A sort by insertion *)

Section Insertion.
Context {Q : Type}.

#[local] Instance due_dec : RelDecision (due_order (Q := Q)).
Proof. intros a b. unfold due_order. apply _. Defined.

Definition sort_by_due : list (delayItem Q) -> list (delayItem Q) := merge_sort due_order.

Lemma sort_by_due_permutes items : Permutation (sort_by_due items) items.
Proof. apply merge_sort_Permutation. Qed.

Lemma sort_by_due_sorted items : StronglySorted due_order (sort_by_due items).
Proof. apply StronglySorted_merge_sort; unfold due_order; intros ?*; lia. Qed.
End Insertion.

Definition sample_item (key : string) (due : Z) : delayItem Z := Build_delayItem Z due 0 ("m-" ++ key)%string key None.

(** Two items are accepted, the later first; the schedule loop is woken, dispatches the one due first, and the broker
    does not acknowledge it. *)
Definition sample_loops : Loops Z :=
  Build_Loops
    (Build_DelayDispatcher Z (list_to_set ["a"; "b"]%string)
       [Build_delayItem Z 11 1 "m-a" "a" None; sample_item "b" 20] true 0)
    Looking 0 (11 * Second)
    [EvAccepted "b"; EvAccepted "a"; EvDispatched (sample_item "a" 10) (11 * Second)].

Lemma sample_loops_reachable : reachable sort_by_due (200 * Millisecond) (5 * Minute) 0 sample_loops.
Proof.
  unfold reachable.
  eapply rtc_l; [apply (step_accept _ _ _ _ (sample_item "b" 20)); [done|reflexivity]|].
  eapply rtc_l; [apply (step_accept _ _ _ _ (sample_item "a" 10)); [done|reflexivity]|].
  eapply rtc_l; [by eapply step_notify|]. eapply rtc_l; [by eapply step_notify|].
  eapply rtc_l; [eapply step_look_item; reflexivity|].
  eapply rtc_l; [apply (step_tick _ _ _ _ (11 * Second)); done|].
  eapply rtc_l; [apply (step_dispatch _ _ _ _ (sample_item "a" 10) (10 * Second) None (Ok tt) (Ok tt)); done|].
  match goal with |- rtc _ ?l _ => replace l with sample_loops; [apply rtc_refl|] end.
  vm_compute. reflexivity.
Qed.

Lemma delay_queue_exact_witness :
  may_dispatch sort_by_due (200 * Millisecond) (5 * Minute) "b" sample_loops /\ balance "b" (lp_log sample_loops) = 1.
Proof.
  destruct (delay_queue_exact sort_by_due (200 * Millisecond) (5 * Minute) 0 sample_loops sort_by_due_permutes
              sort_by_due_sorted sample_loops_reachable) as (_ & _ & _ & _ & D).
  destruct (D ltac:(done) "b"%string) as [B M]. split; [apply M; by vm_compute|exact B].
Defined.
