(* ===== verification/DelayRecovery.v ===== *)
(** Recovery of due checkpoints by the delay dispatcher: [recoverDueCheckpoints] of
    [pkg/apiserver/event/workflow/job/jobdelay/delay_dispatcher.go].

    A pass looks at one page of due rows, in descending order of their ids, below the
    cursor [recoveryBeforeID].  Other sessions may commit anything between two passes;
    still every row that stays due is looked at within a bounded number of passes,
    however many rows are retried or arrive meanwhile. *)

From S2P Require Import Prelude GoStrings Config Json Quantity Policy Model Store Hoare Lease LeaseProtocol Budget.
From S2P Require Import Signals Scheduler PodResources Retry Cleanup JobInfos Components Controller JobExec RunJob KubeJobs.
From S2P Require Import DelayQueue DelayItems.

(** ** A pass over the rows *)

Definition page (now : Z) (d : Database) (before : Z) : list JobInfo := select (E := JobInfo) [] (due_options now before) d.

(** The cursor after a page. *)
Definition next_before (rows : list JobInfo) (before : Z) : Z :=
  if Z.of_nat (length rows) <? delayRecoveryBatchSize then 0
  else List.last (map job_ID rows) before.

(** The pages of successive passes, each at its own time over its own store. *)
Fixpoint sweep (passes : list (Z * Database)) (before : Z) : list (list JobInfo) :=
  match passes with
  | [] => []
  | (now, d) :: passes => let rows := page now d before in rows :: sweep passes (next_before rows before)
  end.

Section Rows.
Context {Q : Type} `{QuantityOps Q} `{KubernetesJson Q}.
Variable decode_job : Json -> option (Job Q).
Variable sort_slice : list (delayItem Q) -> list (delayItem Q).

Lemma offer_pending (item : delayItem Q) d :
  dd_recoveryBeforeID (offer sort_slice item d) = dd_recoveryBeforeID d /\
  dd_pending d ⊆ dd_pending (offer sort_slice item d) /\
  (itemKey item <> ""%string -> itemKey item ∈ dd_pending (offer sort_slice item d)).
Proof.
  unfold offer, addPending. destruct (str_empty (itemKey item)) eqn:E.
  - apply str_empty_true in E. rewrite E. done.
  - destruct (bool_decide _) eqn:P; cbn; [apply bool_decide_eq_true in P; done|]. set_solver.
Qed.

(** What a pass is to do with its rows: each that decodes is pending afterwards. *)
Definition taken_up (rows : list JobInfo) (d d' : DelayDispatcher Q) : Prop :=
  dd_pending d ⊆ dd_pending d' /\
  forall r payload, In r rows -> decodePayload decode_job (job_DelayPayload r) = Ok payload ->
    TrimSpace (dp_ExecutionKey payload) ∈ dd_pending d'.

Lemma decoded_key raw payload : decodePayload decode_job raw = Ok payload -> blank (dp_ExecutionKey payload) = false.
Proof.
  unfold decodePayload, result_bind. destruct (unmarshal_delay_payload _ _) as [p|]; [|done].
  unfold ValidateDelayJobPayload, ValidateDelayJobIdentity. destruct (dp_Job p); [|done].
  destruct (blank (kj_Name _)); [done|]. destruct (blank (dp_TaskID p)); [done|].
  destruct (blank (dp_ExecutionKey p)) eqn:B; [done|]. destruct (_ =? 0); [done|]. by intros [= <-].
Qed.

Lemma recover_rows_taken rows d :
  let d' := snd (recover_rows decode_job sort_slice rows d) in
  taken_up rows d d' /\
  dd_recoveryBeforeID d' = List.last (map job_ID rows) (dd_recoveryBeforeID d).
Proof.
  revert d. induction rows as [|r rows IH]; intros d; [split; [split; [done|by intros ? ? []]|done]|].
  cbn [recover_rows]. destruct (recover_row decode_job sort_slice r d) as [err d1] eqn:E.
  specialize (IH d1). destruct (recover_rows decode_job sort_slice rows d1) as [errs d2] eqn:E2. cbn [snd] in *.
  destruct IH as [[P T] L].
  assert (R : dd_recoveryBeforeID d1 = job_ID r /\ dd_pending d ⊆ dd_pending d1 /\
              forall payload, decodePayload decode_job (job_DelayPayload r) = Ok payload ->
                TrimSpace (dp_ExecutionKey payload) ∈ dd_pending d1).
  { unfold recover_row in E. destruct (decodePayload decode_job (job_DelayPayload r)) as [payload|e] eqn:D.
    - injection E as _ <-. set (item := Build_delayItem Q _ _ _ _ _).
      destruct (offer_pending item (d <| dd_recoveryBeforeID := job_ID r |>)) as (B & S & I).
      split; [exact B|]. split; [exact S|]. intros ? [= <-]. apply decoded_key in D.
      assert (K : itemKey item = TrimSpace (dp_ExecutionKey payload)).
      { unfold itemKey, item. cbn [di_key]. unfold blank in D. by rewrite D. }
      rewrite <- K. apply I. rewrite K. unfold blank in D. by apply str_empty_false.
    - injection E as _ <-. by split. }
  destruct R as (B & S & I). split; [split|].
  - set_solver.
  - intros r' payload [<-|Hin] D; [apply P; by apply I|by eapply T].
  - rewrite L, B. symmetry. apply last_cons.
Qed.

Lemma due_query now b :
  List_ (E := JobInfo) [] (due_options now b) = statement (fun _ d => (Ok (page now d b), d)).
Proof. unfold List_, page, due_options. by destruct (0 <? b). Qed.

(** A pass that reaches the store takes up one page and moves the cursor. *)
Lemma pass_page d w errs d' w' :
  recoverDueCheckpoints decode_job sort_slice d w = (Ok (errs, d'), w') ->
  exists db, (db = w_db w \/ exists ev, head (w_env w) = Some ev /\ db = env_apply ev (w_db w)) /\ w_db w' = db /\
    let rows := page (unix (w_wall w)) db (dd_recoveryBeforeID d) in
    taken_up rows d d' /\ dd_recoveryBeforeID d' = next_before rows (dd_recoveryBeforeID d).
Proof.
  unfold recoverDueCheckpoints. intros E. erewrite bind_ok in E by reflexivity.
  set (now := unix (w_wall w)) in *. set (b := dd_recoveryBeforeID d) in *.
  assert (X : exists db w1, (db = w_db w \/ exists ev, head (w_env w) = Some ev /\ db = env_apply ev (w_db w)) /\
            w_db w1 = db /\ wrap_error "list due delay checkpoints" (List_ (E := JobInfo) [] (due_options now b)) w =
            (Ok (page now db b), w1)).
  { rewrite due_query in *. unfold bind, wrap_error, statement in *.
    destruct (w_env w) as [|[| |f] es] eqn:Ev; [| |discriminate E|];
      (eexists _, _; split; [|split; [|reflexivity]]; [eauto|reflexivity]). }
  destruct X as (db & w1 & Hdb & W & L). exists db. split; [done|].
  unfold bind in E. rewrite L in E.
  destruct (recover_rows_taken (page (unix (w_wall w)) db (dd_recoveryBeforeID d)) d) as [T B].
  destruct (recover_rows decode_job sort_slice _ d) as [errs1 d1] eqn:R. cbn [snd] in *. injection E as _ <- <-.
  split; [done|]. unfold next_before. by destruct (_ <? delayRecoveryBatchSize).
Qed.
End Rows.

(** ** Successive passes *)

Definition due_row (now : Z) (r : JobInfo) : bool :=
  (job_Status r =? StatusDistributed)%string && (job_DelayState r =? JobDelayStatePending)%string &&
  (job_DelayExecuteAt r <? i64 (now + 1)).

(** Rows are kept under their ids, which are positive and at most [top]. *)
Definition ids_to (top : Z) (d : Database) : Prop :=
  forall id r, db_jobs d !! id = Some r -> job_ID r = id /\ 1 <= id <= top.

Lemma row_id top d r : ids_to top d -> In r (rows (E := JobInfo) d) -> db_jobs d !! job_ID r = Some r /\ 1 <= job_ID r <= top.
Proof.
  intros W Hin. unfold rows in Hin. apply in_map_iff in Hin as ([id r'] & <- & Hin).
  apply list_elem_of_In, elem_of_map_to_list in Hin. cbn. destruct (W _ _ Hin) as [E B]. by rewrite E.
Qed.

Lemma row_in d id r : db_jobs d !! id = Some r -> In r (rows (E := JobInfo) d).
Proof.
  intros L. unfold rows. apply in_map_iff. exists (id, r). split; [done|].
  by apply list_elem_of_In, elem_of_map_to_list.
Qed.

Lemma job_rows_nodup top d : ids_to top d -> NoDup (map job_ID (rows (E := JobInfo) d)).
Proof.
  intros W. unfold rows. replace (map job_ID (map snd (map_to_list (table (Entity := Entity_JobInfo) d))))
    with (map fst (map_to_list (db_jobs d))); [apply NoDup_fst_map_to_list|].
  rewrite map_map. apply map_ext_in. intros [k r] Hin. apply list_elem_of_In, elem_of_map_to_list in Hin.
  cbn. symmetry. by apply (W k r Hin).
Qed.

Lemma due_matches now before r :
  row_matches (E := JobInfo) [] (Filter (due_options now before)) r =
    due_row now r && (negb (0 <? before) || (job_ID r <? before)).
Proof.
  unfold row_matches, due_row, due_options. destruct (0 <? before) eqn:B; cbn; by rewrite ?B, ?orb_false_r, ?andb_true_r, ?andb_assoc.
Qed.

Lemma descending now before a b :
  Is_true (row_le (E := JobInfo) (SortBy (due_options now before)) a b) -> job_ID b <= job_ID a.
Proof. rewrite Is_true_true. cbn. destruct (Z.eqb_spec (job_ID a) (job_ID b)); lia. Qed.

(** A strictly descending list below a bound ends far enough below it. *)
Lemma last_below l : forall bound before,
  StronglySorted Z.ge l -> NoDup l -> (forall z, In z l -> z < bound) -> l <> [] ->
  List.last l before <= bound - Z.of_nat (length l).
Proof.
  induction l as [|a l IH]; intros bound before S N B E; [done|]. inversion_clear S as [|? ? S' F].
  apply NoDup_cons in N as [Na N]. rewrite last_cons. pose proof (B a (or_introl eq_refl)).
  destruct l as [|b l]; [cbn; lia|]. cbn [length].
  assert (X : List.last (b :: l) a <= a - Z.of_nat (length (b :: l))).
  { apply IH; [done|done| |done]. intros z Hz. rewrite List.Forall_forall in F. specialize (F z Hz).
    assert (z <> a) by (intros ->; apply Na; by apply list_elem_of_In). lia. }
  cbn [length] in X. lia.
Qed.

Lemma sorted_map_ids now before l :
  StronglySorted (fun a b : JobInfo => Is_true (row_le (SortBy (due_options now before)) a b)) l ->
  StronglySorted Z.ge (map job_ID l).
Proof.
  induction 1 as [|a l S IH F]; cbn; constructor; [done|]. rewrite List.Forall_map. eapply List.Forall_impl; [|exact F].
  intros b R. apply descending in R. lia.
Qed.

Lemma sorted_take {A} (R : A -> A -> Prop) n l : StronglySorted R l -> StronglySorted R (take n l).
Proof.
  intros S. revert n. induction S as [|a l S IH F]; intros [|n]; cbn; try constructor; [apply IH|].
  rewrite <- (take_drop n l) in F. by apply List.Forall_app in F as [F _].
Qed.

Lemma last_above a b z before :
  StronglySorted Z.ge (a ++ b)%list -> NoDup (a ++ b)%list -> a <> [] -> In z b -> z < List.last a before.
Proof.
  intros S N Ne Hz. rewrite (app_removelast_last before Ne) in S, N.
  set (m := List.last a before) in *. rewrite <- app_assoc in S, N.
  apply StronglySorted_app_1_r in S. inversion_clear S as [|? ? _ F]. rewrite List.Forall_forall in F.
  specialize (F z Hz). apply NoDup_app in N as (_ & _ & N). apply NoDup_cons in N as [N _].
  assert (z <> m); [|lia]. intros ->. by apply N, list_elem_of_In.
Qed.

Lemma page_of_in {E K} `{Entity E K} op (r : E) l : In r (page_of op l) -> In r l.
Proof.
  unfold page_of. destruct (_ && _); [|done]. set (n := Z.to_nat _). set (m := Z.to_nat _). intros Hin.
  rewrite <- (take_drop m l). apply in_or_app. right. rewrite <- (take_drop n (drop m l)). apply in_or_app. by left.
Qed.

Lemma page_sorted now d before : StronglySorted Z.ge (map job_ID (page now d before)).
Proof.
  destruct (select_sorted_by (E := JobInfo) [] (due_options now before) d ltac:(done)) as (l & E & _ & S).
  unfold page. rewrite E. unfold page_of. cbn [PageSize Page due_options].
  change (Z.to_nat (delayRecoveryBatchSize * (1 - 1))) with 0%nat. rewrite drop_0. cbn [andb Z.ltb Z.compare].
  eapply sorted_map_ids, sorted_take, S.
Qed.

Lemma page_nodup top now d before : ids_to top d -> NoDup (map job_ID (page now d before)).
Proof.
  intros W. destruct (select_sorted_by (E := JobInfo) [] (due_options now before) d ltac:(done)) as (l & E & P & _).
  assert (N : NoDup (map job_ID l)).
  { rewrite (Permutation_map job_ID P). eapply NoDup_map_filter, job_rows_nodup, W. }
  unfold page. rewrite E. unfold page_of. cbn [PageSize Page due_options].
  change (Z.to_nat (delayRecoveryBatchSize * (1 - 1))) with 0%nat. rewrite drop_0.
  rewrite <- (take_drop (Z.to_nat delayRecoveryBatchSize) l), map_app in N. by apply NoDup_app in N as (N & _ & _).
Qed.

(** The page holds the row, or is full of rows with greater ids. *)
Lemma page_reaches top now d before r :
  ids_to top d -> db_jobs d !! job_ID r = Some r -> due_row now r = true ->
  (before = 0 \/ job_ID r < before) ->
  In r (page now d before) \/
  (Z.of_nat (length (page now d before)) = delayRecoveryBatchSize /\
   job_ID r < List.last (map job_ID (page now d before)) before).
Proof.
  intros W L D B.
  destruct (select_sorted_by (E := JobInfo) [] (due_options now before) d ltac:(done)) as (l & E & P & S).
  assert (Hin : In r l).
  { apply (Permutation_in _ (Permutation_sym P)), filter_In. split; [by eapply row_in|]. rewrite due_matches, D.
    destruct B as [->|B]; [done|]. apply Z.ltb_lt in B. rewrite B. apply orb_true_r. }
  unfold page. rewrite E. unfold page_of. cbn [PageSize Page due_options].
  change (Z.to_nat (delayRecoveryBatchSize * (1 - 1))) with 0%nat. rewrite drop_0.
  change ((0 <? delayRecoveryBatchSize) && (0 <? 1)) with true. cbn match.
  set (n := Z.to_nat delayRecoveryBatchSize).
  rewrite <- (take_drop n l) in Hin. apply in_app_or in Hin as [Hin|Hin]; [by left|right].
  assert (Len : (n < length l)%nat).
  { destruct (Nat.le_gt_cases (length l) n) as [Le|]; [|done]. by rewrite drop_ge in Hin. }
  split; [rewrite length_take, Nat.min_l by lia; done|].
  apply sorted_map_ids in S. assert (N : NoDup (map job_ID l)).
  { rewrite (Permutation_map job_ID P). eapply NoDup_map_filter, job_rows_nodup, W. }
  rewrite <- (take_drop n l), map_app in S, N.
  eapply last_above; [exact S|exact N| |by apply in_map].
  intros T. apply (f_equal length) in T. rewrite length_map, length_take in T. cbn [length] in T.
  assert (0 < n)%nat by (unfold n, delayRecoveryBatchSize; lia). lia.
Qed.

Lemma page_short now d before : Z.of_nat (length (page now d before)) <= delayRecoveryBatchSize.
Proof.
  destruct (select_sorted_by (E := JobInfo) [] (due_options now before) d ltac:(done)) as (l & E & _ & _).
  unfold page. rewrite E. unfold page_of. cbn [PageSize Page due_options].
  change ((0 <? delayRecoveryBatchSize) && (0 <? 1)) with true. cbn match. rewrite length_take.
  unfold delayRecoveryBatchSize. lia.
Qed.

(** What is left below the cursor; 0 starts a new sweep. *)
Definition ahead (top before : Z) : Z := if before =? 0 then top + 1 else before.

Lemma page_ids top now d before r : ids_to top d -> 0 <= before -> In r (page now d before) ->
  1 <= job_ID r < ahead top before.
Proof.
  intros W B Hin. unfold page, select in Hin. apply page_of_in in Hin. cbn [SortBy due_options] in Hin.
  apply (Permutation_in _ (merge_sort_Permutation _ _)), filter_In in Hin as [Hin M]. rewrite due_matches in M.
  apply andb_true_iff in M as [_ M]. destruct (row_id _ _ _ W Hin) as [_ I]. unfold ahead.
  destruct (Z.eqb_spec before 0); [lia|]. destruct (Z.ltb_spec 0 before); [|lia]. apply Z.ltb_lt in M. lia.
Qed.

(** A full page moves the cursor down by its size. *)
Lemma full_page top now d before :
  ids_to top d -> 0 <= before -> Z.of_nat (length (page now d before)) = delayRecoveryBatchSize ->
  let b' := next_before (page now d before) before in
  1 <= b' <= ahead top before - delayRecoveryBatchSize.
Proof.
  intros W B L. unfold next_before. rewrite L, Z.ltb_irrefl. cbn zeta.
  set (rows := page now d before) in *.
  assert (Ne : map job_ID rows <> []) by (destruct rows; [cbn in L; unfold delayRecoveryBatchSize in L; lia|done]).
  split.
  - assert (Hin : In (List.last (map job_ID rows) before) (map job_ID rows)).
    { rewrite (app_removelast_last before Ne) at 2. apply in_or_app. right. by left. }
    apply in_map_iff in Hin as (r & <- & Hin). by apply (page_ids top now d before) in Hin; [lia|..].
  - rewrite <- L, <- (length_map job_ID rows). apply last_below; [| | |done].
    + eapply page_sorted.
    + eapply page_nodup, W.
    + intros z Hz. apply in_map_iff in Hz as (r & <- & Hin). by apply (page_ids top now d before) in Hin; [lia|..].
Qed.

(** The row is there and due when the pass looks. *)
Definition stays_due (top id : Z) (pass : Z * Database) : Prop :=
  ids_to top (snd pass) /\ exists r, db_jobs (snd pass) !! id = Some r /\ due_row (fst pass) r = true.

Definition looked_at (id : Z) (pages : list (list JobInfo)) : Prop := exists rows, In rows pages /\ In id (map job_ID rows).

Lemma looked_at_later id rows pages : looked_at id pages -> looked_at id (rows :: pages).
Proof. intros (p & Hp & H). exists p. split; [by right|done]. Qed.

Lemma reach_ahead top id passes : forall before,
  1 <= id <= top -> Forall (stays_due top id) passes -> 0 <= before -> before = 0 \/ id < before ->
  ahead top before - id <= delayRecoveryBatchSize * Z.of_nat (length passes) -> looked_at id (sweep passes before).
Proof.
  induction passes as [|[now d] passes IH]; intros before I F B A L.
  - exfalso. cbn in L. unfold ahead in L. destruct (Z.eqb_spec before 0); lia.
  - apply Forall_cons_1 in F as [[W (r & Lr & D)] F']. cbn [fst snd] in *. pose proof (proj1 (W _ _ Lr)) as E. subst id.
    cbn [sweep]. destruct (page_reaches top now d before r W Lr D A) as [Hin|[Full Lt]].
    + eexists. split; [by left|]. by apply in_map.
    + pose proof (full_page _ _ _ _ W B Full) as [Lo Hi]. cbn zeta in Lo, Hi.
      set (b' := next_before (page now d before) before) in *.
      assert (Lt' : job_ID r < b') by (subst b'; unfold next_before; by rewrite Full, Z.ltb_irrefl).
      apply looked_at_later, IH; [done|done|lia|by right|]. unfold ahead at 1. destruct (Z.eqb_spec b' 0); [lia|].
      cbn [length] in L. unfold delayRecoveryBatchSize in *. lia.
Qed.

(** Wherever the cursor is, the sweep under way ends and the next one comes to the row. *)
Lemma reach_any top id passes : forall before,
  1 <= id <= top -> Forall (stays_due top id) passes -> 0 <= before ->
  before + delayRecoveryBatchSize + top <= delayRecoveryBatchSize * Z.of_nat (length passes) ->
  looked_at id (sweep passes before).
Proof.
  induction passes as [|[now d] passes IH]; intros before I F B L.
  - exfalso. unfold delayRecoveryBatchSize in L. cbn in L. lia.
  - destruct (decide (before = 0 \/ id < before)) as [A|A].
    { apply (reach_ahead top); [done|done|done|done|]. unfold ahead. unfold delayRecoveryBatchSize in *.
      destruct (Z.eqb_spec before 0); lia. }
    apply Forall_cons_1 in F as [[W _] F']. cbn [fst snd sweep] in *. apply looked_at_later.
    cbn [length] in L. unfold next_before. destruct (Z.ltb_spec (Z.of_nat (length (page now d before))) delayRecoveryBatchSize) as [Short|Long].
    + apply (reach_ahead top); [done|done|done|by left|]. unfold ahead, delayRecoveryBatchSize in *. cbn [Z.eqb]. lia.
    + assert (Full : Z.of_nat (length (page now d before)) = delayRecoveryBatchSize) by (pose proof (page_short now d before); lia).
      pose proof (full_page _ _ _ _ W B Full) as [Lo Hi]. cbn zeta in Lo, Hi. unfold next_before in Lo, Hi.
      rewrite Full, Z.ltb_irrefl in Lo, Hi. apply IH; [done|done|lia|].
      unfold ahead in Hi. unfold delayRecoveryBatchSize in *. destruct (Z.eqb_spec before 0); lia.
Qed.

(** C11: The recovery of due checkpoints.  A pass that gets an answer from the store takes up one page of due rows:
    every row of it that decodes is pending afterwards, and the cursor moves.  Whatever other sessions commit
    between the passes and wherever the cursor stands, a row that stays due is on a page of one of the next
    [(before + top) / 100 + 1] passes, [top] bounding the ids in use. *)
Theorem recovery_sweep_complete {Q} `{QuantityOps Q} `{KubernetesJson Q} decode_job
    (sort_slice : list (delayItem Q) -> list (delayItem Q)) :
  (forall (d d' : DelayDispatcher Q) w errs w',
     recoverDueCheckpoints decode_job sort_slice d w = (Ok (errs, d'), w') ->
     let rows := page (unix (w_wall w)) (w_db w') (dd_recoveryBeforeID d) in
     taken_up decode_job rows d d' /\ dd_recoveryBeforeID d' = next_before rows (dd_recoveryBeforeID d)) /\
  (forall top id passes before,
     1 <= id <= top -> Forall (stays_due top id) passes -> 0 <= before ->
     before + delayRecoveryBatchSize + top <= delayRecoveryBatchSize * Z.of_nat (length passes) ->
     looked_at id (sweep passes before)).
Proof.
  split; [|intros top id passes before; apply reach_any].
  intros d d' w errs w' E. destruct (pass_page decode_job sort_slice _ _ _ _ _ E) as (db & _ & <- & T). exact T.
Qed.

(** ** Three checkpoints, one of them later than the others *)

Definition due_job (id execute : Z) : JobInfo :=
  job_info_zero <| job_ID := id |> <| job_Status := StatusDistributed |> <| job_DelayState := JobDelayStatePending |>
    <| job_DelayExecuteAt := execute |>.

Definition due_store : Database :=
  (db_empty 1000) <| db_jobs := list_to_map [(1, due_job 1 5); (2, due_job 2 50); (3, due_job 3 7)] |>.

Lemma due_store_ids : ids_to 3 due_store.
Proof.
  intros id r L. unfold due_store in L. cbn in L.
  repeat (rewrite lookup_insert_Some in L; destruct L as [[<- <-]|[_ L]]; [by vm_compute|]).
  by rewrite lookup_empty in L.
Qed.

Lemma recovery_sweep_complete_witness :
  looked_at 1 (sweep [(10, due_store); (10, due_store)] 1) /\
  map (map job_ID) (sweep [(10, due_store); (10, due_store)] 1) = [[]; [3; 1]].
Proof.
  split; [|by vm_compute].
  refine (proj2 (recovery_sweep_complete (Q := Z) (fun _ => None) (fun l => l)) 3 1 _ 1 _ _ _ _); try done.
  assert (S : stays_due 3 1 (10, due_store)).
  { split; [exact due_store_ids|]. eexists. split; by vm_compute. }
  apply List.Forall_cons; [exact S|]. apply List.Forall_cons; [exact S|]. apply List.Forall_nil.
Defined.
