(* ===== verification/Sha1.v ===== *)
(** The [crypto/sha1] and [encoding/hex] packages of the language's standard library,
    as [event/workflow/job/jobresult/result_outbox.go] uses them to name a row: the
    digest of FIPS 180-4 and its text in lower-case hexadecimal digits. *)

From S2P Require Import Prelude GoStrings.

(** 32-bit words. *)
Definition word : Z := 2 ^ 32.
Definition w32 (z : Z) : Z := z mod word.
Definition rotl (n x : Z) : Z := Z.lor (w32 (Z.shiftl x n)) (Z.shiftr x (32 - n)).
Definition not32 (x : Z) : Z := word - 1 - x.

(** ** Padding: a bit 1, zeros, and the length in bits, to a multiple of 64 bytes *)

(** The bytes of [z], most significant first. *)
Fixpoint big_endian (n : nat) (z : Z) : list Z :=
  match n with O => [] | S n => (Z.shiftr z (8 * Z.of_nat n)) mod 256 :: big_endian n z end.

Definition pad_zeros (len : Z) : nat := Z.to_nat ((55 - len) mod 64).

Definition padded (message : list Z) : list Z :=
  let len := Z.of_nat (length message) in
  message ++ [128] ++ repeat 0 (pad_zeros len) ++ big_endian 8 (u64 (8 * len)).

(** ** One block *)

Fixpoint block_words (l : list Z) : list Z :=
  match l with
  | a :: b :: c :: d :: rest => (((a * 256 + b) * 256 + c) * 256 + d) :: block_words rest
  | _ => []
  end.

(** The schedule, the latest word first: a word is made of those 3, 8, 14 and 16 back. *)
Fixpoint extend (n : nat) (latest : list Z) : list Z :=
  match n with
  | O => latest
  | S n =>
      let back k := nth (k - 1) latest 0 in
      extend n (rotl 1 (Z.lxor (Z.lxor (back 3%nat) (back 8%nat)) (Z.lxor (back 14%nat) (back 16%nat))) :: latest)
  end.

Definition schedule (words : list Z) : list Z := rev (extend 64 (rev words)).

Definition state := (Z * Z * Z * Z * Z)%type.

Definition round (t : Z) (s : state) (w : Z) : state :=
  let '(a, b, c, d, e) := s in
  let '(f, k) :=
    if t <? 20 then (Z.lor (Z.land b c) (Z.land (not32 b) d), 0x5A827999)
    else if t <? 40 then (Z.lxor (Z.lxor b c) d, 0x6ED9EBA1)
    else if t <? 60 then (Z.lor (Z.lor (Z.land b c) (Z.land b d)) (Z.land c d), 0x8F1BBCDC)
    else (Z.lxor (Z.lxor b c) d, 0xCA62C1D6) in
  (w32 (rotl 5 a + f + e + k + w), a, rotl 30 b, c, d).

Fixpoint rounds (t : Z) (s : state) (ws : list Z) : state :=
  match ws with [] => s | w :: ws => rounds (t + 1) (round t s w) ws end.

Definition block (h : state) (words : list Z) : state :=
  let '(h0, h1, h2, h3, h4) := h in
  let '(a, b, c, d, e) := rounds 0 h (schedule words) in
  (w32 (h0 + a), w32 (h1 + b), w32 (h2 + c), w32 (h3 + d), w32 (h4 + e)).

Definition initial : state := (0x67452301, 0xEFCDAB89, 0x98BADCFE, 0x10325476, 0xC3D2E1F0).

(** Sixteen words at a time. *)
Fixpoint blocks (fuel : nat) (h : state) (words : list Z) : state :=
  match fuel, words with
  | S fuel, _ :: _ => blocks fuel (block h (take 16 words)) (drop 16 words)
  | _, _ => h
  end.

(** [sha1.Sum] *)
Definition sha1 (message : string) : list Z :=
  let words := block_words (padded (map code (explode message))) in
  let '(a, b, c, d, e) := blocks (length words) initial words in
  concat (map (big_endian 4) [a; b; c; d; e]).

(** [hex.EncodeToString] *)
Definition hex (l : list Z) : string := implode (concat (map (fun z => [digit (z / 16); digit (z mod 16)]) l)).

(** ** The published test vectors *)

Example sha1_abc : hex (sha1 "abc") = "a9993e364706816aba3e25717850c26c9cd0d89d"%string.
Proof. vm_compute. reflexivity. Qed.

Example sha1_empty : hex (sha1 "") = "da39a3ee5e6b4b0d3255bfef95601890afd80709"%string.
Proof. vm_compute. reflexivity. Qed.

Example sha1_two_blocks :
  hex (sha1 "abcdbcdecdefdefgefghfghighijhijkijkljklmklmnlmnomnopnopq")
  = "84983e441c3bd26ebaae4aa1f95129e5e54670f1"%string.
Proof. vm_compute. reflexivity. Qed.

(** ** Shape of a name *)

Lemma length_big_endian n z : length (big_endian n z) = n.
Proof. revert z. induction n; intros z; cbn; auto. Qed.

Lemma big_endian_bytes n z : List.Forall (fun b => 0 <= b < 256) (big_endian n z).
Proof. revert z. induction n; intros z; cbn; constructor; auto. apply Z.mod_pos_bound. lia. Qed.

(** Padding fills whole blocks. *)
Lemma length_padded message : Z.of_nat (length (padded message)) mod 64 = 0.
Proof.
  unfold padded. rewrite !length_app, repeat_length, length_big_endian. cbn [length].
  unfold pad_zeros. set (n := length message).
  assert (0 <= (55 - Z.of_nat n) mod 64) by (apply Z.mod_pos_bound; lia).
  rewrite !Nat2Z.inj_add, Z2Nat.id by done.
  replace (Z.of_nat n + (Z.of_nat 1 + ((55 - Z.of_nat n) mod 64 + Z.of_nat 8)))
    with (Z.of_nat n + 9 + (55 - Z.of_nat n) mod 64) by lia.
  rewrite Zplus_mod_idemp_r. replace (Z.of_nat n + 9 + (55 - Z.of_nat n)) with 64 by lia. done.
Qed.

Lemma length_sha1 message : length (sha1 message) = 20%nat.
Proof.
  unfold sha1. destruct (blocks _ _ _) as [[[[a b] c] d] e]. cbn [map concat].
  by rewrite !length_app, !length_big_endian.
Qed.

Lemma sha1_bytes message : List.Forall (fun b => 0 <= b < 256) (sha1 message).
Proof.
  unfold sha1. destruct (blocks _ _ _) as [[[[a b] c] d] e]. cbn [map concat].
  rewrite !List.Forall_app. repeat split; try apply big_endian_bytes. constructor.
Qed.

Lemma length_hex l : length (explode (hex l)) = (2 * length l)%nat.
Proof.
  unfold hex. rewrite explode_implode. induction l as [|z l IH]; [done|]. cbn [map concat].
  rewrite length_app. cbn [length]. lia.
Qed.
