(* ===== verification/Sha256.v ===== *)
(** [crypto/sha256] of the language's standard library, as
    [event/workflow/job/jobcallback/callback.go] uses it to name the execution of a
    terminal callback: the digest of FIPS 180-4.  Padding, words and hexadecimal text
    are those of [Sha1]. *)

From S2P Require Import Prelude GoStrings Sha1.

Definition rotr (n x : Z) : Z := rotl (32 - n) x.

(** The tables of the standard are the first 32 bits of the fractional parts of roots of the first primes: the
    cube roots of sixty-four of them for the rounds, the square roots of eight for the starting state.  [root k m]
    is the largest [r] below [2^n] with [r^k <= m], found a bit at a time. *)
Fixpoint root (n : nat) (k m r : Z) : Z :=
  match n with
  | O => r
  | S n => let r' := r + 2 ^ Z.of_nat n in root n k m (if r' ^ k <=? m then r' else r)
  end.

Definition fraction32 (k p : Z) : Z := w32 (root 40 k (p * 2 ^ (32 * k)) 0).

Definition is_prime (n : nat) : bool :=
  forallb (fun d => negb (Nat.eqb (Nat.modulo n d) 0)) (List.seq 2 (n - 2)).

Definition primes : list Z := map Z.of_nat (List.filter is_prime (List.seq 2 310)).

Definition constants : list Z := Eval vm_compute in map (fraction32 3) primes.

(** The schedule, the latest word first: a word is made of those 2, 7, 15 and 16 back. *)
Fixpoint extend256 (n : nat) (latest : list Z) : list Z :=
  match n with
  | O => latest
  | S n =>
      let back k := nth (k - 1) latest 0 in
      let x := back 15%nat in
      let y := back 2%nat in
      let s0 := Z.lxor (Z.lxor (rotr 7 x) (rotr 18 x)) (Z.shiftr x 3) in
      let s1 := Z.lxor (Z.lxor (rotr 17 y) (rotr 19 y)) (Z.shiftr y 10) in
      extend256 n (w32 (back 16%nat + s0 + back 7%nat + s1) :: latest)
  end.

Definition state256 := (Z * Z * Z * Z * Z * Z * Z * Z)%type.

Definition round256 (s : state256) (kw : Z * Z) : state256 :=
  let '(a, b, c, d, e, f, g, h) := s in
  let t1 := h + Z.lxor (Z.lxor (rotr 6 e) (rotr 11 e)) (rotr 25 e) +
            Z.lxor (Z.land e f) (Z.land (not32 e) g) + fst kw + snd kw in
  let t2 := Z.lxor (Z.lxor (rotr 2 a) (rotr 13 a)) (rotr 22 a) +
            Z.lxor (Z.lxor (Z.land a b) (Z.land a c)) (Z.land b c) in
  (w32 (t1 + t2), a, b, c, w32 (d + t1), e, f, g).

Definition block256 (s : state256) (words : list Z) : state256 :=
  let '(h0, h1, h2, h3, h4, h5, h6, h7) := s in
  let '(a, b, c, d, e, f, g, h) := fold_left round256 (combine constants (rev (extend256 48 (rev words)))) s in
  (w32 (h0 + a), w32 (h1 + b), w32 (h2 + c), w32 (h3 + d), w32 (h4 + e), w32 (h5 + f), w32 (h6 + g), w32 (h7 + h)).

Definition initial256 : state256 := Eval vm_compute in
  let h i := fraction32 2 (nth i primes 0) in
  (h 0%nat, h 1%nat, h 2%nat, h 3%nat, h 4%nat, h 5%nat, h 6%nat, h 7%nat).

Fixpoint blocks256 (fuel : nat) (s : state256) (words : list Z) : state256 :=
  match fuel, words with
  | S fuel, _ :: _ => blocks256 fuel (block256 s (take 16 words)) (drop 16 words)
  | _, _ => s
  end.

(** [sha256.Sum256] *)
Definition sha256 (message : string) : list Z :=
  let words := block_words (padded (map code (explode message))) in
  let '(a, b, c, d, e, f, g, h) := blocks256 (length words) initial256 words in
  concat (map (big_endian 4) [a; b; c; d; e; f; g; h]).

(** ** The published test vectors *)

Example sixty_four_rounds : length constants = 64%nat /\ last constants = Some 3329325298.
Proof. vm_compute. split; reflexivity. Qed.

Example sha256_abc :
  hex (sha256 "abc") = "ba7816bf8f01cfea414140de5dae2223b00361a396177a9cb410ff61f20015ad"%string.
Proof. vm_compute. reflexivity. Qed.

Example sha256_empty :
  hex (sha256 "") = "e3b0c44298fc1c149afbf4c8996fb92427ae41e4649b934ca495991b7852b855"%string.
Proof. vm_compute. reflexivity. Qed.

Example sha256_two_blocks :
  hex (sha256 "abcdbcdecdefdefgefghfghighijhijkijkljklmklmnlmnomnopnopq") =
  "248d6a61d20638b8e5c026930c3e6039a33ce45964ff2167f6ecedd419db06c1"%string.
Proof. vm_compute. reflexivity. Qed.
