(* ===== verification/Outbox.v ===== *)
(** The results of Jobs that finish later: [pkg/apiserver/event/workflow/job/jobresult],
    [result_outbox.go] and what [result.go] does to the data store.

    A Job that nobody waits for has a row in the result outbox.  The dispatcher moves it
    from pending to dispatching, sends its identity to the broker and notes the message's
    ID; a consumer claims the row with a token and a lease, renewed by its heartbeat,
    under which it records the result and deletes the row.  A row whose lease ran out
    returns to pending.

    The broker is [queue.Enqueue] of the messaging layer, [None] being a missing queue;
    [encode_payload] is [json.Marshal], [error_text] the text of an error, and the tokens
    [uuid.NewString()] are arguments. *)

From S2P Require Import Prelude GoStrings Config Json Quantity Policy Model Store Lease Budget.
From S2P Require Import Signals Scheduler PodResources Retry Cleanup JobInfos Components Controller JobExec RunJob KubeJobs.
From S2P Require Import PodLogs DelayQueue Sha1.

Definition JobResultOutboxStateResultPending : string := "result_pending".
Definition JobResultOutboxStateResultDispatching : string := "result_dispatching_queue".
Definition JobResultOutboxStateResultQueued : string := "result_queued".
Definition JobResultOutboxStateResultProcessingQueue : string := "result_processing_queue".
Definition JobResultOutboxStateFailed : string := "failed".

Definition resultOutboxBatchSize : Z := 10.
Definition resultOutboxProcessGrace : Z := 30 * Second.
Definition resultOutboxDispatchGrace : Z := 60 * Second.

Record JobResultPayload := {
  rp_OutboxID : string;
  rp_TaskID : string;
  rp_ExecutionKey : string;
  rp_RunGeneration : Z;
  rp_JobType : string;
  rp_Namespace : string;
  rp_Name : string;
  rp_ServiceName : string;
  rp_TimeoutSeconds : Z
}.
#[export] Instance eta_JobResultPayload : Settable JobResultPayload := fun p =>
  Build_JobResultPayload (rp_OutboxID p) (rp_TaskID p) (rp_ExecutionKey p) (rp_RunGeneration p) (rp_JobType p)
    (rp_Namespace p) (rp_Name p) (rp_ServiceName p) (rp_TimeoutSeconds p).

(** ** result.go: the payload; [None] is a nil pointer *)

Definition validateJobResultPayload (payload : option JobResultPayload) : result unit :=
  match payload with
  | None => Err (Errorf "result payload job name and namespace are required")
  | Some payload =>
      if blank (rp_Name payload) || blank (rp_Namespace payload)
      then Err (Errorf "result payload job name and namespace are required")
      else if blank (rp_TaskID payload) then Err (Errorf "result payload task ID is required")
      else if blank (rp_ExecutionKey payload) then Err (Errorf "result payload execution key is required")
      else if rp_RunGeneration payload =? 0 then Err (Errorf "result payload run generation is required")
      else Ok tt
  end.

Definition isResultPayloadProcessable (payload : option JobResultPayload) : bool :=
  is_ok (validateJobResultPayload payload).

Definition decode_payload (j : Json) : option JobResultPayload :=
  match dec_struct j with
  | Some o =>
      match dec_string (json_field "outboxId" o), dec_string (json_field "taskId" o),
            dec_string (json_field "executionKey" o), dec_uint64 (json_field "runGeneration" o),
            dec_string (json_field "jobType" o), dec_string (json_field "namespace" o),
            dec_string (json_field "name" o), dec_string (json_field "serviceName" o),
            dec_int64 (json_field "timeoutSeconds" o) with
      | Some id, Some task, Some key, Some g, Some ty, Some ns, Some name, Some svc, Some t =>
          Some (Build_JobResultPayload id task key g ty ns name svc t)
      | _, _, _, _, _, _, _, _, _ => None
      end
  | None => None
  end.

Definition decodeResultPayload (raw : string) : result JobResultPayload :=
  match json_parse raw with
  | None => Err (Errorf "invalid JSON")
  | Some j =>
      match decode_payload j with
      | None => Err (Errorf "cannot unmarshal into JobResultPayload")
      | Some payload =>
          if blank (rp_OutboxID payload) then Err (Errorf "result payload outbox ID is required") else
          check! _ <- validateJobResultPayload (Some payload); Ok payload
      end
  end.

Definition jobCompletionResult (error_text : error -> string) (status message : string) (err : option error) : string * string :=
  if str_empty status then
    match err with
    | None => (StatusFailed, "job status unknown"%string)
    | Some e => (StatusFromError e, JobErrorMessage error_text (Some e) message)
    end
  else match err with
       | Some e => (status, JobErrorMessage error_text (Some e) message)
       | None => (status, message)
       end.

Section Objects.
Context {Q : Type}.

Definition JobResultMatchesExecutionIdentity (payload : option JobResultPayload) (job : option (Job Q)) : bool :=
  match payload, job with
  | Some payload, Some job =>
      is_ok (validateJobResultPayload (Some payload)) &&
      (TrimSpace (annotation_of job AnnotationJobTaskID) =? TrimSpace (rp_TaskID payload))%string &&
      (TrimSpace (annotation_of job AnnotationJobExecutionKey) =? TrimSpace (rp_ExecutionKey payload))%string &&
      (TrimSpace (annotation_of job AnnotationJobRunGeneration) =? FormatUint (rp_RunGeneration payload) 10)%string
  | _, _ => false
  end.

(** [jobinfo.ComponentNameFromJobInfo] of an object. *)
Definition component_of_job (job : Job Q) : string :=
  let name := TrimSpace (annotation_of job AnnotationComponentName) in
  if negb (str_empty name) then name else TrimSpace (str_get (kj_Labels job) LabelComponentName).

Definition NewJobResultPayloadFromDelay (payload : option (DelayJobPayload Q)) (job : option (Job Q))
    : option JobResultPayload :=
  match payload, job with
  | Some payload, Some job =>
      let name := TrimSpace (kj_Name job) in
      let namespace := TrimSpace (kj_Namespace job) in
      if str_empty name || str_empty namespace then None else
      let serviceName := TrimSpace (dp_ServiceName payload) in
      let serviceName := if str_empty serviceName then component_of_job job else serviceName in
      Some {| rp_OutboxID := ""; rp_TaskID := dp_TaskID payload; rp_ExecutionKey := dp_ExecutionKey payload;
              rp_RunGeneration := dp_RunGeneration payload; rp_JobType := dp_JobType payload;
              rp_Namespace := namespace; rp_Name := name; rp_ServiceName := serviceName;
              rp_TimeoutSeconds := dp_TimeoutSeconds payload |}
  | _, _ => None
  end.

(** Seconds since the epoch. *)
Definition jobTimesFromStatus (job : option (Job Q)) : Z * Z :=
  match job with
  | None => (0, 0)
  | Some job =>
      (match js_StartTime (kj_Status job) with Some t => unix t | None => 0 end,
       match js_CompletionTime (kj_Status job) with Some t => unix t | None => 0 end)
  end.
End Objects.

(** ** result_outbox.go: a row and its payload *)

Definition jobResultOutboxID (payload : option JobResultPayload) : string :=
  match payload with
  | Some p =>
      if negb (is_ok (validateJobResultPayload payload)) then ""%string else
      hex (sha1 (TrimSpace (rp_TaskID p) ++ newline ++ TrimSpace (rp_Namespace p) ++ newline ++
                 TrimSpace (rp_Name p) ++ newline ++ TrimSpace (rp_ExecutionKey p) ++ newline ++
                 FormatUint (rp_RunGeneration p) 10))
  | None => ""%string
  end.

Definition BuildJobResultOutbox (payload : option JobResultPayload) (state : string) : option JobResultOutbox :=
  match payload with
  | Some p =>
      if negb (is_ok (validateJobResultPayload payload)) then None else
      Some (job_result_outbox_zero <| ob_ID := jobResultOutboxID payload |>
        <| ob_TaskID := TrimSpace (rp_TaskID p) |> <| ob_ExecutionKey := TrimSpace (rp_ExecutionKey p) |>
        <| ob_RunGeneration := rp_RunGeneration p |> <| ob_JobType := TrimSpace (rp_JobType p) |>
        <| ob_Namespace := TrimSpace (rp_Namespace p) |> <| ob_Name := TrimSpace (rp_Name p) |>
        <| ob_ServiceName := TrimSpace (rp_ServiceName p) |> <| ob_TimeoutSeconds := rp_TimeoutSeconds p |>
        <| ob_State := state |>)
  | None => None
  end.

Definition jobResultPayloadFromOutbox (outbox : JobResultOutbox) : option JobResultPayload :=
  let payload := {| rp_OutboxID := TrimSpace (ob_ID outbox); rp_TaskID := TrimSpace (ob_TaskID outbox);
    rp_ExecutionKey := TrimSpace (ob_ExecutionKey outbox); rp_RunGeneration := ob_RunGeneration outbox;
    rp_JobType := TrimSpace (ob_JobType outbox); rp_Namespace := TrimSpace (ob_Namespace outbox);
    rp_Name := TrimSpace (ob_Name outbox); rp_ServiceName := TrimSpace (ob_ServiceName outbox);
    rp_TimeoutSeconds := ob_TimeoutSeconds outbox |} in
  if isResultPayloadProcessable (Some payload) then Some payload else None.

Definition enqueueResultJob (encode_payload : JobResultPayload -> result string)
    (queue : option (string -> result string)) (payload : option JobResultPayload) : result string :=
  match payload with
  | None => Err (Errorf "result payload outbox ID is required")
  | Some p =>
      if blank (rp_OutboxID p) then Err (Errorf "result payload outbox ID is required") else
      check! _ <- validateJobResultPayload payload;
      match queue with
      | None => Err ErrResultQueueUnavailable
      | Some enqueue =>
          match encode_payload p with
          | Err e => Err (Wrapf "marshal result payload" e)
          | Ok raw => enqueue raw
          end
      end
  end.

(** ** Rows *)

Definition resultOutboxDatabaseTime : M Z :=
  let! now := wrap_error "read result outbox database clock" CurrentDatabaseTime in
  guard! negb (now =? time_zero) else Errorf "result outbox database clock is zero";
  ret now.

Definition getJobResultOutboxByID (id : string) : M JobResultOutbox :=
  let id := TrimSpace id in
  guard! negb (str_empty id) else ErrPrimaryEmpty;
  Get (E := JobResultOutbox) id.

Definition GetJobResultOutboxByPayload (payload : option JobResultPayload) : M JobResultOutbox :=
  getJobResultOutboxByID (jobResultOutboxID payload).

Definition CreateJobResultOutbox (payload : option JobResultPayload) (state : string) : M JobResultOutbox :=
  match BuildJobResultOutbox payload state with
  | None => throw (Errorf "result payload is nil")
  | Some outbox =>
      let! r := try (Add outbox) in
      match r with
      | Ok outbox => ret outbox
      | Err e => if errors_is ErrRecordExist e then getJobResultOutboxByID (ob_ID outbox) else throw e
      end
  end.

Definition deleteJobResultOutbox (id : string) : M unit :=
  if blank id then ret tt else
  let! r := try (Delete (E := JobResultOutbox) (TrimSpace id)) in
  match r with
  | Ok _ => ret tt
  | Err e => if errors_is ErrRecordNotExist e then ret tt else throw e
  end.

Definition outbox_options (values : list string) (pageSize : Z) : ListOptions := {|
  Filter := Build_FilterOptions [("state"%string, map VStr values)] [] [];
  Page := 1;
  PageSize := if pageSize <=? 0 then resultOutboxBatchSize else pageSize;
  SortBy := [("lease_expires_at", SortOrderAscending); ("update_time", SortOrderAscending);
             ("create_time", SortOrderAscending)]%string |}.

Definition listJobResultOutboxesByStates (states : list string) (pageSize : Z) : M (list JobResultOutbox) :=
  let values := List.filter (fun state => negb (str_empty state)) states in
  if (length values =? 0)%nat then ret [] else
  List_ (E := JobResultOutbox) [] (outbox_options values pageSize).

Definition compareAndSwapJobResultOutboxWithConditions (outbox : JobResultOutbox)
    (conditions : list (string * Cond)) (updates : list (string * Val)) : M bool :=
  guard! negb (blank (ob_ID outbox)) else ErrPrimaryEmpty;
  CompareAndSwapWithConditions (E := JobResultOutbox) (ob_ID outbox)
    (("id"%string, CEq (VStr (TrimSpace (ob_ID outbox)))) :: conditions) updates.

Definition compareAndSwapJobResultOutbox (outbox : JobResultOutbox) (from : string)
    (updates : list (string * Val)) : M bool :=
  compareAndSwapJobResultOutboxWithConditions outbox
    [("state", CEq (VStr from)); ("message_id", CEq (VStr (ob_MessageID outbox)))]%string updates.

(** What [extraUpdates] may hold: the message's ID and the lease, [None] a nil value. *)
Record Extra := { ex_message_id : string; ex_lease : option Z }.

Definition lease_val (lease : option Z) : Val := match lease with Some t => VTime t | None => VNull end.

Definition extra_updates (extra : option Extra) : list (string * Val) :=
  match extra with
  | Some x => [("message_id", VStr (ex_message_id x)); ("lease_expires_at", lease_val (ex_lease x))]%string
  | None => []
  end.

(** Whether the row was changed, and the caller's copy afterwards. *)
Definition trySetJobResultOutboxState (outbox : JobResultOutbox) (from to : string) (attempts : Z)
    (lastError : string) (extraUpdates : option Extra) : M (bool * JobResultOutbox) :=
  let updates := ([("state", VStr to); ("attempts", VInt attempts); ("last_error", VStr (TrimSpace lastError))]%string
                  ++ extra_updates extraUpdates)%list in
  let! ok := compareAndSwapJobResultOutbox outbox from updates in
  if ok : bool then
    let outbox := outbox <| ob_State := to |> <| ob_Attempts := attempts |> <| ob_LastError := TrimSpace lastError |> in
    ret (true, match extraUpdates with
               | Some x => outbox <| ob_MessageID := TrimSpace (ex_message_id x) |> <| ob_LeaseExpiresAt := ex_lease x |>
               | None => outbox
               end)
  else ret (false, outbox).

Definition setJobResultOutboxState (outbox : JobResultOutbox) (from to : string) (attempts : Z) (lastError : string)
    : M unit :=
  let! _ := trySetJobResultOutboxState outbox from to attempts lastError None in ret tt.

Definition next_attempts (outbox : JobResultOutbox) : Z := i64 (ob_Attempts outbox + 1).

Definition retryResultOutbox (outbox : JobResultOutbox) (lastError : string) : M unit :=
  let! _ := trySetJobResultOutboxState outbox JobResultOutboxStateResultProcessingQueue JobResultOutboxStateResultPending
              (next_attempts outbox) lastError (Some (Build_Extra "" None)) in
  ret tt.

Definition markJobResultOutboxFailed (outbox : JobResultOutbox) (message : string) : M unit :=
  setJobResultOutboxState outbox (ob_State outbox) JobResultOutboxStateFailed (next_attempts outbox) message.

(** ** The dispatcher *)

Section Dispatcher.
Variable encode_payload : JobResultPayload -> result string.
Variable error_text : error -> string.
Variable queue : option (string -> result string).
Variable uuid : string -> string.           (* [uuid.NewString()], for the row being dispatched *)

Definition dispatchPendingOutbox (outbox : JobResultOutbox) : M unit :=
  match jobResultPayloadFromOutbox outbox with
  | None => markJobResultOutboxFailed outbox "result outbox payload is invalid"
  | Some payload =>
      let! now := resultOutboxDatabaseTime in
      let! claimed := trySetJobResultOutboxState outbox JobResultOutboxStateResultPending
        JobResultOutboxStateResultDispatching (ob_Attempts outbox) (TrimSpace (ob_LastError outbox))
        (Some (Build_Extra (uuid (ob_ID outbox)) (Some (now + resultOutboxDispatchGrace)))) in
      let '(claimed, outbox) := claimed in
      if negb claimed then ret tt else
      match enqueueResultJob encode_payload queue (Some payload) with
      | Ok messageID =>
          let! now := resultOutboxDatabaseTime in
          let! _ := trySetJobResultOutboxState outbox JobResultOutboxStateResultDispatching
            JobResultOutboxStateResultQueued (ob_Attempts outbox) ""
            (Some (Build_Extra (TrimSpace messageID) (Some (now + resultOutboxDispatchGrace)))) in
          ret tt
      | Err e =>
          let! _ := trySetJobResultOutboxState outbox JobResultOutboxStateResultDispatching
            JobResultOutboxStateResultPending (next_attempts outbox) ("result enqueue failed: " ++ error_text e)
            (Some (Build_Extra "" None)) in
          ret tt
      end
  end.

Fixpoint dispatch_all (outboxes : list JobResultOutbox) : M unit :=
  match outboxes with
  | [] => ret tt
  | outbox :: rest => let! _ := dispatchPendingOutbox outbox in dispatch_all rest
  end.

Definition processResultPending (batchSize : Z) : M unit :=
  let! outboxes := listJobResultOutboxesByStates [JobResultOutboxStateResultPending] batchSize in
  dispatch_all outboxes.

(** One row of the recovery. *)
Definition recover_outbox (now : Z) (outbox : JobResultOutbox) : M unit :=
  let conditions lease := [("state", CEq (VStr (ob_State outbox))); ("message_id", CEq (VStr (ob_MessageID outbox)));
                           ("lease_expires_at", lease)]%string in
  match ob_LeaseExpiresAt outbox with
  | None =>
      let! _ := compareAndSwapJobResultOutboxWithConditions outbox (conditions CIsNull)
        [("state", VStr JobResultOutboxStateFailed);
         ("last_error", VStr "active result outbox has no lease; automatic recovery rejected")]%string in
      ret tt
  | Some lease =>
      if now <? lease then ret tt else
      let! _ := compareAndSwapJobResultOutboxWithConditions outbox (conditions (CEq (VTime lease)))
        [("state", VStr JobResultOutboxStateResultPending); ("message_id", VStr ""); ("lease_expires_at", VNull);
         ("attempts", VInt (next_attempts outbox));
         ("last_error", VStr "result notification or processing exceeded recovery grace")]%string in
      ret tt
  end.

Fixpoint recover_outboxes (now : Z) (outboxes : list JobResultOutbox) : M unit :=
  match outboxes with
  | [] => ret tt
  | outbox :: rest => let! _ := recover_outbox now outbox in recover_outboxes now rest
  end.

Definition recoverResultOutboxes (states : list string) (batchSize : Z) : M unit :=
  let! outboxes := listJobResultOutboxesByStates states batchSize in
  let! now := resultOutboxDatabaseTime in
  recover_outboxes now outboxes.

Definition active_states : list string :=
  [JobResultOutboxStateResultDispatching; JobResultOutboxStateResultQueued; JobResultOutboxStateResultProcessingQueue].

Definition processOnce (batchSize : Z) : M unit :=
  let! _ := recoverResultOutboxes active_states batchSize in
  processResultPending batchSize.
End Dispatcher.

(** ** The consumer's ownership *)

(** [ctx_err] is [ctx.Err()] of the caller's context. *)
Definition withResultOutboxOwnership {A} (ctx_err : option error) (outbox : JobResultOutbox)
    (persist : JobResultOutbox -> M A) : M A :=
  match ctx_err with Some e => throw e | None =>
  guard! negb (blank (ob_ID outbox)) && negb (blank (ob_MessageID outbox)) else ErrResultOutboxOwnershipLost;
  WithReadCommittedTransaction (
    let! owned := compareAndSwapJobResultOutbox outbox JobResultOutboxStateResultProcessingQueue [] in
    guard! owned else ErrResultOutboxOwnershipLost;
    let! current := getJobResultOutboxByID (ob_ID outbox) in
    let! now := resultOutboxDatabaseTime in
    guard! match ob_LeaseExpiresAt current with Some lease => now <? lease | None => false end
      else ErrResultOutboxOwnershipLost;
    persist current)
  end.

Definition renewResultOutboxLease (ctx_err : option error) (outbox : JobResultOutbox) : M unit :=
  withResultOutboxOwnership ctx_err outbox (fun _ =>
    let! now := resultOutboxDatabaseTime in
    let! renewed := compareAndSwapJobResultOutbox outbox JobResultOutboxStateResultProcessingQueue
      [("lease_expires_at"%string, VTime (now + resultOutboxProcessGrace))] in
    guard! renewed else ErrResultOutboxOwnershipLost;
    ret tt).

(** [bindResultOutboxJobUID]: the caller's copy afterwards. *)
Definition bindResultOutboxJobUID (ctx_err : option error) (outbox : JobResultOutbox) (uid : string) : M JobResultOutbox :=
  let changed := Wrapf "result Job UID changed" ErrResultDispatchNoRetry in
  if str_empty uid then ret outbox else
  if negb (str_empty (ob_JobUID outbox)) then
    (guard! (ob_JobUID outbox =? uid)%string else changed; ret outbox)
  else
    let! _ := withResultOutboxOwnership ctx_err outbox (fun current =>
      guard! str_empty (ob_JobUID current) || (ob_JobUID current =? uid)%string else changed;
      let! bound := compareAndSwapJobResultOutbox outbox JobResultOutboxStateResultProcessingQueue
        [("job_uid"%string, VStr uid)] in
      guard! bound else ErrResultOutboxOwnershipLost;
      ret tt) in
    ret (outbox <| ob_JobUID := uid |>).

(** At most two attempts; [token] gives each its UUID. *)
Fixpoint claim_attempts (attempts : nat) (token : nat -> string) (outbox : JobResultOutbox) (messageID : string)
    : M (bool * JobResultOutbox) :=
  match attempts with
  | O => ret (false, outbox)
  | S rest =>
      let claimable :=
        if (ob_State outbox =? JobResultOutboxStateResultQueued)%string
        then (ob_MessageID outbox =? TrimSpace messageID)%string
        else (ob_State outbox =? JobResultOutboxStateResultDispatching)%string in
      if negb claimable then ret (false, outbox) else
      match ob_LeaseExpiresAt outbox with
      | None => throw (Errorf "active result outbox has no lease")
      | Some lease =>
          let! now := resultOutboxDatabaseTime in
          let deadline := now + resultOutboxProcessGrace in
          let! claimed := compareAndSwapJobResultOutboxWithConditions outbox
            [("state", CEq (VStr (ob_State outbox))); ("message_id", CEq (VStr (ob_MessageID outbox)));
             ("lease_expires_at", CEq (VTime lease))]%string
            [("state", VStr JobResultOutboxStateResultProcessingQueue); ("message_id", VStr (token rest));
             ("lease_expires_at", VTime deadline); ("last_error", VStr "")]%string in
          if claimed : bool then
            ret (true, outbox <| ob_State := JobResultOutboxStateResultProcessingQueue |>
                              <| ob_MessageID := token rest |> <| ob_LeaseExpiresAt := Some deadline |>)
          else
            let! current := try (getJobResultOutboxByID (ob_ID outbox)) in
            match current with
            | Err e => if errors_is ErrRecordNotExist e then ret (false, outbox) else throw e
            | Ok current => claim_attempts rest token current messageID
            end
      end
  end.

Definition claimResultOutbox (token : nat -> string) (outbox : JobResultOutbox) (messageID : string)
    : M (bool * JobResultOutbox) := claim_attempts 2 token outbox messageID.

(** ** The job's record *)

Definition result_filters (payload : JobResultPayload) : FilterOptions :=
  Build_FilterOptions
    ((if str_empty (rp_JobType payload) then [] else [("type"%string, [VStr (rp_JobType payload)])]) ++
     (if str_empty (rp_ServiceName payload) then [] else [("service_name"%string, [VStr (rp_ServiceName payload)])]) ++
     [("execution_key", [VStr (rp_ExecutionKey payload)]); ("run_generation", [VInt (rp_RunGeneration payload)])]%string)
    [] [].

Definition findJobInfoForResult (payload : JobResultPayload) : M (option JobInfo) :=
  let! entities := wrap_error "list job info" (List_ (E := JobInfo)
    (job_info_index (job_info_zero <| job_TaskID := rp_TaskID payload |>))
    {| Filter := result_filters payload; Page := 1; PageSize := 1;
       SortBy := [("create_time"%string, SortOrderDescending)] |}) in
  ret (head entities).

(** The columns of a result. *)
Definition result_updates (now : Z) (jobInfo : JobInfo) (status message : string) (startTime endTime : Z) (info : string)
    : list (string * Val) :=
  [("status", VStr status);
   ("error", VStr (if one_of [StatusCompleted; StatusSkipped; StatusPassed] status then "" else TrimSpace message))]%string ++
  (if (0 <? startTime) && (job_StartTime jobInfo =? 0) then [("start_time"%string, VInt startTime)] else []) ++
  (if 0 <? endTime then [("end_time"%string, VInt endTime)]
   else if (job_EndTime jobInfo =? 0) && negb (status =? StatusRunning)%string
   then [("end_time"%string, VInt (unix now))] else []) ++
  (if (status =? StatusCompleted)%string && negb (str_empty info) then [("info"%string, VStr info)] else []).

Fixpoint update_attempts (attempts : nat) (payload : JobResultPayload) (status message : string)
    (startTime endTime : Z) (info : string) : M unit :=
  match attempts with
  | O => throw (Errorf "update job info: concurrent execution state changes did not converge")
  | S attempts =>
      let! found := findJobInfoForResult payload in
      match found with
      | None => ret tt
      | Some jobInfo =>
          if IsSettledDelayedExecutionStatus (job_Status jobInfo) then ret tt else
          let! now := wall_clock in
          let! updated := wrap_error "update job info" (CompareAndSwapWithConditions (E := JobInfo) (job_ID jobInfo)
            [("status", CEq (VStr (job_Status jobInfo))); ("execution_key", CEq (VStr (rp_ExecutionKey payload)));
             ("run_generation", CEq (VInt (rp_RunGeneration payload)));
             ("attempt", CEq (VInt (job_Attempt jobInfo)))]%string
            (result_updates now jobInfo status message startTime endTime info)) in
          if updated : bool then ret tt
          else update_attempts attempts payload status message startTime endTime info
      end
  end.

Definition UpdateJobInfoStatus (payload : JobResultPayload) (status message : string) (startTime endTime : Z)
    (info : string) : M unit :=
  guard! is_ok (validateJobResultPayload (Some payload)) else ErrResultDispatchNoRetry;
  update_attempts JobInfoSaveMaxAttempts payload status message startTime endTime info.
