(* ===== verification/DelayDispatch.v ===== *)
(** Dispatching a delayed job: [dispatch] and what it calls in
    [pkg/apiserver/event/workflow/job/jobdelay/delay_dispatcher.go].

    A dispatch is a [KubeRun]: the checkpoint, the result outbox and the scheduler are
    programs of the data store, the cluster answers as [Cluster] does.  The workspace
    manager is the interface [Manager]: the namespace it reads, the preparation of the
    workload for the workspace ([jobexec.PrepareTask]) and the workspace's own client.
    [quote] is the verb %q of [fmt]; [scope] is the workspace in the context, if any. *)

From S2P Require Import Prelude GoStrings Config Json Quantity Policy Model Store Lease Budget.
From S2P Require Import Signals Scheduler PodResources Retry Cleanup JobInfos Components Controller JobExec RunJob KubeJobs.
From S2P Require Import PodLogs DelayQueue Sha1 Outbox DelayItems.

Definition JobDeleteTimeout : Z := 30 * Second.

(** What the dispatcher looks at in a namespace. *)
Record NamespaceInfo := { ns_Owner : string; ns_Deleting : bool }.

Record Manager {Q : Type} := {
  on_namespace : list (KubeEvent Q) -> string -> result NamespaceInfo;
  prepare_task : Applications -> Workspace -> Job Q -> result (Job Q);
  tenant_client : Workspace -> result (Cluster Q)
}.
Arguments Manager Q : clear implicits.

Section Dispatch.
Context {Q : Type} `{QuantityOps Q} `{KubernetesJson Q}.
Variable decode_job : Json -> option (Job Q).
Variable error_text : error -> string.
Variable quote : string -> string.
Variable manager : option (Manager Q).

(** ** The checkpoint *)

Definition findDelayCheckpoint (scope : option string) (payload : DelayJobPayload Q) : M (option JobInfo) :=
  let! records := wrap_error "load delay checkpoint"
    (LoadJobInfos scope (TrimSpace (dp_TaskID payload)) (TrimSpace (dp_JobType payload)) (TrimSpace (dp_ServiceName payload))) in
  let executionKey := TrimSpace (dp_ExecutionKey payload) in
  ret (List.find (fun record => (job_RunGeneration record =? dp_RunGeneration payload) &&
                                (JobInfoExecutionKey record =? executionKey)%string) records).

(** Whether the execution is committed, and whether it is settled. *)
Definition delayedExecutionCommitted (scope : option string) (payload : DelayJobPayload Q) : M (bool * bool) :=
  if blank (dp_ExecutionKey payload) || (dp_RunGeneration payload =? 0) then ret (false, false) else
  let! jobInfos := wrap_error "load committed delayed job"
    (LoadJobInfos scope (TrimSpace (dp_TaskID payload)) (TrimSpace (dp_JobType payload)) (TrimSpace (dp_ServiceName payload))) in
  let executionKey := TrimSpace (dp_ExecutionKey payload) in
  ret (match List.find (fun jobInfo =>
               match job_ExecutionKey jobInfo with Some key => (TrimSpace key =? executionKey)%string | None => false end &&
               (job_RunGeneration jobInfo =? dp_RunGeneration payload)) jobInfos with
       | Some jobInfo => ((job_Status jobInfo =? StatusDistributed)%string, IsSettledDelayedExecutionStatus (job_Status jobInfo))
       | None => (false, false)
       end).

Definition delayExecutionCurrent (scope : option string) (payload : DelayJobPayload Q) : M bool :=
  if dp_RunGeneration payload =? 0 then ret true else
  let taskID := TrimSpace (dp_TaskID payload) in
  guard! negb (str_empty taskID)
    else Wrapf "delayed execution generation requires task ID" ErrDelayDispatchNoRetry;
  let! found := delayedExecutionCommitted scope payload in
  let '(committed, settled) := found in
  if settled : bool then ret false else
  if committed : bool then ret true else
  let! task := try (TaskByID taskID) in
  match task with
  | Err e => if errors_is ErrRecordNotExist e then ret false
             else throw (Wrapf "load workflow task for delayed job" e)
  | Ok task =>
      if negb (wq_RunGeneration task =? dp_RunGeneration payload) then ret false else
      let payloadToken := TrimSpace (dp_RunToken payload) in
      let taskToken := TrimSpace (wq_RunToken task) in
      if str_empty taskToken || (negb (str_empty payloadToken) && negb (taskToken =? payloadToken)%string)
      then ret false else ret true
  end.

Definition validateCheckpointNotification (checkpoint : JobInfo) (payload : DelayJobPayload Q) : result (DelayJobPayload Q) :=
  match decodePayload decode_job (job_DelayPayload checkpoint) with
  | Err e => Err (Wrapf "decode committed delayed workload" e)
  | Ok committed =>
      if bool_decide (NotificationForDelayJob committed = NotificationForDelayJob payload) then Ok committed
      else Err (Wrapf "notification differs from delayed checkpoint" ErrDelayDispatchNoRetry)
  end.

(** The row is still the pending execution of [checkpoint]. *)
Definition still_pending (checkpoint latest : JobInfo) : bool :=
  (job_AppID latest =? job_AppID checkpoint)%string &&
  (JobInfoExecutionKey latest =? JobInfoExecutionKey checkpoint)%string &&
  (job_RunGeneration latest =? job_RunGeneration checkpoint) && (job_Status latest =? StatusDistributed)%string &&
  (job_DelayState latest =? JobDelayStatePending)%string.

(** The error the dispatch ends with; it is never [Ok]. *)
Definition rejectCheckpoint {A} (checkpoint : JobInfo) (cause : error) : M A :=
  let! now := wall_clock in
  let! updated := wrap_error "reject delayed checkpoint" (CompareAndSwapWithConditions (E := JobInfo) (job_ID checkpoint)
    [("app_id", CEq (VStr (job_AppID checkpoint))); ("execution_key", CEq (VStr (JobInfoExecutionKey checkpoint)));
     ("run_generation", CEq (VInt (job_RunGeneration checkpoint))); ("status", CEq (VStr StatusDistributed));
     ("delay_state", CEq (VStr JobDelayStatePending))]%string
    [("status", VStr StatusFailed);
     ("error", VStr ("delayed workspace validation failed: " ++ error_text cause)); ("end_time", VInt (unix now))]%string) in
  if updated : bool then throw (ErrJoin ErrDelayDispatchNoRetry cause) else
  let! latest := try (Get (E := JobInfo) (job_ID checkpoint)) in
  match latest with
  | Err e =>
      if negb (errors_is ErrRecordNotExist e) then throw (Wrapf "reload rejected delayed checkpoint" e)
      else if still_pending checkpoint job_info_zero
      then throw (Errorf "reject delayed checkpoint: concurrent transition did not converge")
      else throw (ErrJoin ErrDelayDispatchNoRetry cause)
  | Ok latest =>
      if still_pending checkpoint latest
      then throw (Errorf "reject delayed checkpoint: concurrent transition did not converge")
      else throw (ErrJoin ErrDelayDispatchNoRetry cause)
  end.

Definition checkpointWorkspace (checkpoint : JobInfo) (payload : DelayJobPayload Q) : M (Applications * Workspace) :=
  if str_empty (job_AppID checkpoint) then rejectCheckpoint checkpoint (Errorf "delayed checkpoint has no application") else
  let! app := try (Get (E := Applications) (job_AppID checkpoint)) in
  match app with
  | Err e => if errors_is ErrRecordNotExist e
             then rejectCheckpoint checkpoint (Errorf "delayed application no longer exists")
             else throw (Wrapf "load delayed application" e)
  | Ok app =>
      if str_empty (app_WorkspaceID app) then rejectCheckpoint checkpoint ErrForbidden else
      let! space := try (Get (E := Workspace) (app_WorkspaceID app)) in
      match space with
      | Err e => if errors_is ErrRecordNotExist e
                 then rejectCheckpoint checkpoint (Errorf "delayed workspace no longer exists")
                 else throw (Wrapf "load delayed workspace" e)
      | Ok space =>
          if str_empty (ws_Namespace space) || negb (app_Namespace app =? ws_Namespace space)%string ||
             negb (dp_Namespace payload =? ws_Namespace space)%string ||
             negb (job_WorkspaceID checkpoint =? ws_ID space)%string
          then rejectCheckpoint checkpoint ErrForbidden
          else ret (app, space)
      end
  end.

Definition markDelayCheckpointDispatched (payload : option (DelayJobPayload Q)) : M unit :=
  match payload with
  | None => ret tt
  | Some payload =>
      let! record := findDelayCheckpoint None payload in
      match record with
      | None => ret tt
      | Some record =>
          if str_empty (job_DelayState record) || (job_DelayState record =? JobDelayStateDispatched)%string ||
             IsSettledDelayedExecutionStatus (job_Status record)
          then ret tt else
          guard! (job_DelayState record =? JobDelayStatePending)%string else Errorf "unexpected delay checkpoint state";
          let! updated := wrap_error "mark delay checkpoint dispatched"
            (CompareAndSwapWithConditions (E := JobInfo) (job_ID record)
              [("delay_state", CEq (VStr JobDelayStatePending)); ("status", CEq (VStr StatusDistributed));
               ("execution_key", CEq (VStr (JobInfoExecutionKey record)));
               ("run_generation", CEq (VInt (job_RunGeneration record)))]%string
              [("delay_state"%string, VStr JobDelayStateDispatched)]) in
          if updated : bool then ret tt else
          let! latest := findDelayCheckpoint None payload in
          match latest with
          | Some latest =>
              if (job_DelayState latest =? JobDelayStatePending)%string && (job_Status latest =? StatusDistributed)%string
              then throw (Errorf "mark delay checkpoint dispatched: concurrent state did not converge") else ret tt
          | None => ret tt
          end
      end
  end.

(** ** The result outbox *)

Definition resumeDelayedResultOutbox (outbox : JobResultOutbox) : result unit :=
  if one_of [JobResultOutboxStateResultPending; JobResultOutboxStateResultDispatching; JobResultOutboxStateResultQueued;
             JobResultOutboxStateResultProcessingQueue] (ob_State outbox) then Ok tt
  else if (ob_State outbox =? JobResultOutboxStateFailed)%string then
    let message := TrimSpace (ob_LastError outbox) in
    Err (Wrapf (if str_empty message then "result outbox is already marked failed" else message) ErrDelayDispatchNoRetry)
  else Err (Wrapf ("unexpected result outbox state " ++ ob_State outbox) ErrDelayDispatchNoRetry).

Definition ensureDelayedResultOutboxPending (payload : JobResultPayload) : M unit :=
  let! outbox := CreateJobResultOutbox (Some payload) JobResultOutboxStateResultPending in
  if (ob_State outbox =? JobResultOutboxStateResultPending)%string then ret tt
  else lift_result (resumeDelayedResultOutbox outbox).

(** ** The Job *)

Definition mismatch_message (payload : JobResultPayload) (job : option (Job Q)) : string :=
  let actual key := match job with Some job => TrimSpace (annotation_of job key) | None => ""%string end in
  ("job " ++ rp_Namespace payload ++ "/" ++ rp_Name payload ++ " belongs to another execution: task " ++
   quote (actual AnnotationJobTaskID) ++ " execution " ++ quote (actual AnnotationJobExecutionKey) ++ " generation " ++
   quote (actual AnnotationJobRunGeneration) ++ "; expected task " ++ quote (TrimSpace (rp_TaskID payload)) ++
   " execution " ++ quote (TrimSpace (rp_ExecutionKey payload)) ++ " generation " ++
   FormatUint (rp_RunGeneration payload) 10)%string.

Definition failDelayedJobIdentityMismatch (payload : JobResultPayload) (job : option (Job Q)) : K Q (result unit) :=
  let message := mismatch_message payload job in
  kube! now := in_job now_unix in
  kube! r := kdb (UpdateJobInfoStatus payload StatusFailed message 0 now "") in
  match r with
  | Err e => if errors_is ErrResultDispatchNoRetry e then kerr (Wrapf message ErrDelayDispatchNoRetry) else kerr e
  | Ok _ => kerr (Wrapf message ErrDelayDispatchNoRetry)
  end.

Section Tenant.
(** The workspace's client. *)
Variable client : Cluster Q.

Definition verifyDelayedJobIdentity (payload : option JobResultPayload) : K Q (result unit) :=
  match payload with
  | None => kok tt
  | Some result =>
      must! existing := JobExists (Some client) (rp_Namespace result) (rp_Name result) in
      match existing with
      | Some job =>
          if negb (JobResultMatchesExecutionIdentity payload (Some job))
          then failDelayedJobIdentityMismatch result (Some job) else kok tt
      | None => kok tt
      end
  end.

Definition handleDelayedJobCreateError (payload : JobResultPayload) (createErr : error) : K Q (result unit) :=
  kube! r := JobExists (Some client) (rp_Namespace payload) (rp_Name payload) in
  match r with
  | Ok (Some job) =>
      if negb (JobResultMatchesExecutionIdentity (Some payload) (Some job))
      then failDelayedJobIdentityMismatch payload (Some job)
      else kdb (ensureDelayedResultOutboxPending payload)
  | _ => kerr createErr
  end.

Definition createDelayedJob (job : Job Q) (payload : option JobResultPayload) : K Q (result unit) :=
  kube! r := CreateOrUpdateResource (kube_Get (Some client) (kj_Namespace job) (kj_Name job)) (kube_Create (Some client) job)
    (fun existing => if JobResultMatchesExecutionIdentity payload (Some existing) then kok tt
                     else kerr (Errorf ("existing delayed job " ++ kj_Namespace job ++ "/" ++ kj_Name job ++
                                        " belongs to another execution")%string)) in
  match r with
  | Err e =>
      if errors_is ErrDelayDispatchNoRetry e then kerr e else
      match payload with Some payload => handleDelayedJobCreateError payload e | None => kerr e end
  | Ok (live, _) =>
      match payload with
      | None => kok tt
      | Some result =>
          if negb (JobResultMatchesExecutionIdentity payload (Some live))
          then failDelayedJobIdentityMismatch result (Some live)
          else kdb (ensureDelayedResultOutboxPending result)
      end
  end.

(** The execution is admitted: what runs before its admission is released. *)
Definition run_admitted (job : Job Q) (jobType : string) (payload : option JobResultPayload) : K Q (result unit) :=
  let record status message := match payload with
                               | Some result => kube! _ := kdb (UpdateJobInfoStatus result status message 0 0 "") in kret tt
                               | None => kret tt
                               end in
  must! _ := verifyDelayedJobIdentity payload in
  kube! action := ApplyJobRunPolicy (Some client) job jobType in
  match action with
  | Err e =>
      match ExtractStatusError e with
      | Some _ =>
          kube! _ := record (StatusFromError e) (JobErrorMessage error_text (Some e) "") in
          kerr (Wrapf (error_text e) ErrDelayDispatchNoRetry)
      | None => kerr e
      end
  | Ok RunPolicyActionSkip => kube! _ := record StatusSkipped ""%string in kok tt
  | Ok runPolicyActionCreate => createDelayedJob job payload
  end.

Definition release_delayed (executionKey : string) (expires : option Z) (m : K Q (result unit)) : K Q (result unit) :=
  kube! r := m in
  kube! released := kdb (ReleaseJobAdmission None executionKey "delayed job dispatch returned" [expires]) in
  kret (match r, released with
        | r, Ok _ => r
        | Ok _, Err e => Err e
        | Err e, Err e' => Err (ErrJoin e e')
        end).

Definition execution_task (payload : DelayJobPayload Q) : JobTask :=
  job_task_zero <| jt_TaskID := dp_TaskID payload |> <| jt_ExecutionKey := dp_ExecutionKey payload |>
    <| jt_RunGeneration := dp_RunGeneration payload |>.

(** The Job to create, in its namespace and stamped with the execution. *)
Definition delayed_job (payload : DelayJobPayload Q) (job : Job Q) : result (Job Q) :=
  let namespace := if str_empty (dp_Namespace payload) then kj_Namespace job else dp_Namespace payload in
  if str_empty namespace then Err (Errorf "delay job namespace is empty") else
  if str_empty (kj_Name job) then Err (Errorf "delay job name is empty") else
  Ok (StampJobExecutionIdentity (execution_task payload) (job <| kj_Namespace := namespace |>)).

(** Queueing the due job with the scheduler and looking whether it is admitted; an admitted row without an owner
    has a deadline, which the caller's context takes over. *)
Definition admit_delayed (scope : option string) (payload : DelayJobPayload Q) : K Q (result JobInfo) :=
  must! checkpoint := kdb (findDelayCheckpoint scope payload) in
  match checkpoint with
  | None => kerr (Errorf "delayed job admission requires its committed checkpoint")
  | Some checkpoint =>
      must! now := kdb wall_clock in
      must! checkpoint := kwrap (Wrapf "queue due delayed job")
        (kdb (EnqueueJobForScheduling None (Some checkpoint) (Some (now + JobDeleteTimeout)) [])) in
      must! admitted := kdb (IsJobAdmitted None (dp_ExecutionKey payload) [job_SchedulingExpiresAt checkpoint]) in
      if admitted : bool then kube! _ := note (KvAdmitted (dp_ExecutionKey payload)) in kok checkpoint
      else kerr ErrDelayWaitingAdmission
  end.

Definition dispatchJob (scope : option string) (payload : DelayJobPayload Q) : K Q (result unit) :=
  match dp_Job payload with
  | None => kerr (Errorf "delay item is nil")
  | Some job =>
      match ValidateDelayJobPayload payload with
      | Err e => kerr (ErrJoin ErrDelayDispatchNoRetry e)
      | Ok _ =>
          must! current := kdb (delayExecutionCurrent scope payload) in
          if negb current then kok tt else
          must! job := kret (delayed_job payload job) in
          let jobType := if str_empty (dp_JobType payload) then JobDeployScheduled else dp_JobType payload in
          let result := NewJobResultPayloadFromDelay (Some payload) (Some job) in
          kube! outbox := (match result with
                           | Some _ => kdb (GetJobResultOutboxByPayload result)
                           | None => kerr ErrRecordNotExist
                           end) in
          match outbox with
          | Ok outbox => kret (resumeDelayedResultOutbox outbox)
          | Err e =>
              if negb (errors_is ErrRecordNotExist e) then kerr e else
              must! current := (match result with Some _ => kdb (delayExecutionCurrent scope payload) | None => kok true end) in
              if negb current then kok tt else
              must! checkpoint := admit_delayed scope payload in
              release_delayed (dp_ExecutionKey payload) (job_SchedulingExpiresAt checkpoint)
                (run_admitted job jobType result)
          end
      end
  end.
End Tenant.

(** ** [dispatch] *)

(** A committed, undispatched execution goes to its workspace. *)
Definition dispatch_to_workspace (m : Manager Q) (checkpoint : JobInfo) (committed : DelayJobPayload Q) (job : Job Q)
    : K Q (result unit) :=
  must! place := kdb (checkpointWorkspace checkpoint committed) in
  let '(app, space) := place in
  match prepare_task m app space job with
  | Err e => kdb (rejectCheckpoint checkpoint e)
  | Ok job =>
      kube! k := kget in
      match on_namespace m (kr_log k) (ws_Namespace space) with
      | Err e => kerr (Wrapf "read delayed workspace namespace" e)
      | Ok ns =>
          if negb (ns_Owner ns =? ws_ID space)%string || ns_Deleting ns
          then kdb (rejectCheckpoint checkpoint ErrForbidden) else
          match tenant_client m space with
          | Err e => kerr e
          | Ok client =>
              dispatchJob client (Some (ws_ID space))
                (Build_DelayJobPayload Q (dp_ExecuteAt committed) (dp_Namespace committed) (dp_JobType committed)
                   (dp_TaskID committed) (dp_ExecutionKey committed) (dp_RunGeneration committed) (dp_RunToken committed)
                   (dp_ServiceName committed) (dp_TimeoutSeconds committed) (Some job))
          end
      end
  end.

Definition dispatch (item : delayItem Q) : K Q (result unit) :=
  match di_payload item with
  | None => kerr (Errorf "delay item is nil")
  | Some payload =>
      match (match dp_Job payload with Some _ => ValidateDelayJobPayload payload | None => ValidateDelayJobIdentity payload end) with
      | Err e => kerr (ErrJoin ErrDelayDispatchNoRetry e)
      | Ok _ =>
          must! current := kdb (delayExecutionCurrent None payload) in
          if negb current then kok tt else
          match manager with
          | None => kerr (Errorf "delayed execution requires a workspace manager")
          | Some m =>
              must! checkpoint := kdb (findDelayCheckpoint None payload) in
              match checkpoint with
              | None => kerr (Wrapf "delayed checkpoint is missing" ErrDelayDispatchNoRetry)
              | Some checkpoint =>
                  must! committed := kret (validateCheckpointNotification checkpoint payload) in
                  kube! outbox := kdb (GetJobResultOutboxByPayload (NewJobResultPayloadFromDelay (Some committed) (dp_Job committed))) in
                  match outbox with
                  | Ok outbox => kret (resumeDelayedResultOutbox outbox)
                  | Err e =>
                      if negb (errors_is ErrRecordNotExist e) then kerr e else
                      if (job_DelayState checkpoint =? JobDelayStateDispatched)%string then kok tt else
                      match dp_Job committed with
                      | Some job => dispatch_to_workspace m checkpoint committed job
                      | None => kok tt   (* not after [decodePayload] *)
                      end
                  end
              end
          end
      end
  end.
End Dispatch.
