(* ===== verification/OutboxSpec.v ===== *)
(** What the result outbox of [Outbox] promises.

    [row_ok] is the type of a row: it is named by the digest of the identity it carries,
    its state is one of five, a pending row has no lease and no message, every other row
    that is not failed has a lease, and a row being processed has a token.  Every
    operation keeps it.

    A consumer owns a row while the row is in processing with the consumer's token.
    [disowned] is the opposite; only the claim that writes the token ends it, so a
    consumer that lost its row stays without it, and then no operation of that consumer
    has an effect. *)

From S2P Require Import Prelude GoStrings Config Json Quantity Policy Model Store Hoare Lease LeaseProtocol Budget.
From S2P Require Import Signals Scheduler PodResources Retry Cleanup JobInfos Components Controller JobExec RunJob KubeJobs.
From S2P Require Import DelayQueue Sha1 Outbox.

(** ** Columns *)

Section Columns.
Variables (o : JobResultOutbox) (us : list (string * Val)) (cs : list (string * Cond)).

Lemma ob_cond_nil : conds_hold [] o = true.
Proof. reflexivity. Qed.
Lemma ob_cond_id s : conds_hold (("id"%string, CEq (VStr s)) :: cs) o = (ob_ID o =? s)%string && conds_hold cs o.
Proof. reflexivity. Qed.
Lemma ob_cond_state s : conds_hold (("state"%string, CEq (VStr s)) :: cs) o = (ob_State o =? s)%string && conds_hold cs o.
Proof. reflexivity. Qed.
Lemma ob_cond_message s :
  conds_hold (("message_id"%string, CEq (VStr s)) :: cs) o = (ob_MessageID o =? s)%string && conds_hold cs o.
Proof. reflexivity. Qed.
Lemma ob_cond_lease t : conds_hold (("lease_expires_at"%string, CEq (VTime t)) :: cs) o =
  match ob_LeaseExpiresAt o with Some t' => t' =? t | None => false end && conds_hold cs o.
Proof. unfold conds_hold. cbn. unfold cond_holds, get_col. cbn. by destruct (ob_LeaseExpiresAt o). Qed.
Lemma ob_cond_lease_null : conds_hold (("lease_expires_at"%string, CIsNull) :: cs) o =
  match ob_LeaseExpiresAt o with Some _ => false | None => true end && conds_hold cs o.
Proof. unfold conds_hold. cbn. unfold cond_holds, get_col. cbn. by destruct (ob_LeaseExpiresAt o). Qed.

Lemma ob_upd_nil : apply_updates (E := JobResultOutbox) [] o = Some o.
Proof. reflexivity. Qed.
Lemma ob_upd_state s : apply_updates (("state"%string, VStr s) :: us) o = apply_updates us (o <| ob_State := s |>).
Proof. reflexivity. Qed.
Lemma ob_upd_attempts n :
  apply_updates (("attempts"%string, VInt n) :: us) o = apply_updates us (o <| ob_Attempts := n |>).
Proof. reflexivity. Qed.
Lemma ob_upd_error s :
  apply_updates (("last_error"%string, VStr s) :: us) o = apply_updates us (o <| ob_LastError := s |>).
Proof. reflexivity. Qed.
Lemma ob_upd_message s :
  apply_updates (("message_id"%string, VStr s) :: us) o = apply_updates us (o <| ob_MessageID := s |>).
Proof. reflexivity. Qed.
Lemma ob_upd_uid s : apply_updates (("job_uid"%string, VStr s) :: us) o = apply_updates us (o <| ob_JobUID := s |>).
Proof. reflexivity. Qed.
Lemma ob_upd_lease lease : apply_updates (("lease_expires_at"%string, lease_val lease) :: us) o =
  apply_updates us (o <| ob_LeaseExpiresAt := lease |>).
Proof. by destruct lease. Qed.
Lemma ob_upd_lease_some t : apply_updates (("lease_expires_at"%string, VTime t) :: us) o =
  apply_updates us (o <| ob_LeaseExpiresAt := Some t |>).
Proof. reflexivity. Qed.
Lemma ob_upd_lease_null : apply_updates (("lease_expires_at"%string, VNull) :: us) o =
  apply_updates us (o <| ob_LeaseExpiresAt := None |>).
Proof. reflexivity. Qed.
Lemma ob_upd_time t :
  apply_updates (("update_time"%string, VTime t) :: us) o = apply_updates us (o <| ob_UpdateTime := t |>).
Proof. reflexivity. Qed.
End Columns.

Create Rewrite HintDb outbox_cols.
#[export] Hint Rewrite ob_cond_nil ob_cond_id ob_cond_state ob_cond_message ob_cond_lease ob_cond_lease_null
  ob_upd_nil ob_upd_state ob_upd_attempts ob_upd_error ob_upd_message ob_upd_uid ob_upd_lease ob_upd_lease_some
  ob_upd_lease_null ob_upd_time : outbox_cols.

(** The conditions and updates of a compare-and-swap as facts about the fields. *)
Ltac outbox_simpl_in Hc Hu :=
  unfold extra_updates in Hu; cbn [app] in Hc, Hu;
  autorewrite with outbox_cols in Hc, Hu; injection Hu as <-; bool_to_prop.

(** ** Reading and advancing *)

Lemma read_only_outbox_time : read_only resultOutboxDatabaseTime.
Proof. unfold resultOutboxDatabaseTime. store_step. Qed.
Lemma read_only_get_outbox id : read_only (getJobResultOutboxByID id).
Proof. unfold getJobResultOutboxByID. store_step. Qed.
Lemma read_only_list_outbox states n : read_only (listJobResultOutboxesByStates states n).
Proof. unfold listJobResultOutboxesByStates. store_step. Qed.
Lemma read_only_find_result payload : read_only (findJobInfoForResult payload).
Proof. unfold findJobInfoForResult. store_step. Qed.
#[export] Hint Resolve read_only_outbox_time read_only_get_outbox read_only_list_outbox read_only_find_result : store.

Lemma advances_outbox_cas o cs us : advances (compareAndSwapJobResultOutboxWithConditions o cs us).
Proof. unfold compareAndSwapJobResultOutboxWithConditions. store_step. Qed.
#[export] Hint Resolve advances_outbox_cas : store.

Lemma advances_cas_outbox o from us : advances (compareAndSwapJobResultOutbox o from us).
Proof. unfold compareAndSwapJobResultOutbox. store_step. Qed.
#[export] Hint Resolve advances_cas_outbox : store.

Lemma advances_owned {A} ctx o (persist : JobResultOutbox -> M A) :
  (forall current, advances (persist current)) -> advances (withResultOutboxOwnership ctx o persist).
Proof.
  intros H. unfold withResultOutboxOwnership. destruct ctx; [apply advances_throw|]. destruct (_ && _); [|apply advances_throw].
  apply advances_transaction. store_step.
Qed.

(** ** Guarantees over the table *)

(** A relation on the database that every write of a row must respect. *)
Section Table.
Context (P : Database -> Database -> Prop) `{!PreOrder P}.

Lemma outbox_read_only {A} (m : M A) : read_only m -> guarantees P m.
Proof. apply guarantees_read_only. Qed.
Lemma outbox_bind {A B} (m : M A) (k : A -> M B) :
  guarantees P m -> (forall a, guarantees P (k a)) -> guarantees P (bind m k).
Proof. apply guarantees_bind. Qed.
Lemma outbox_transaction {A} (m : M A) : guarantees P m -> guarantees P (WithReadCommittedTransaction m).
Proof. apply guarantees_transaction. Qed.

Lemma outbox_cas o conditions updates :
  (forall now d row row', db_outbox d !! ob_ID o = Some row ->
     conds_hold (("id"%string, CEq (VStr (TrimSpace (ob_ID o)))) :: conditions) row = true ->
     apply_updates (updates ++ [("update_time"%string, VTime now)]) row = Some row' ->
     P d (with_table (<[ob_ID o := row']> (table d)) d)) ->
  guarantees P (compareAndSwapJobResultOutboxWithConditions o conditions updates).
Proof.
  intros Hw. unfold compareAndSwapJobResultOutboxWithConditions. destruct (negb _).
  - apply guarantees_cas. exact Hw.
  - apply outbox_read_only, read_only_throw.
Qed.

Lemma outbox_owned {A} ctx o (persist : JobResultOutbox -> M A) :
  (forall current, guarantees P (persist current)) ->
  guarantees P (compareAndSwapJobResultOutbox o JobResultOutboxStateResultProcessingQueue []) ->
  guarantees P (withResultOutboxOwnership ctx o persist).
Proof.
  intros Hp Hc. unfold withResultOutboxOwnership. destruct ctx; [apply outbox_read_only; store_step|].
  destruct (_ && _); [|apply outbox_read_only; store_step].
  apply outbox_transaction, outbox_bind; [exact Hc|]. intros owned.
  destruct owned; [|apply outbox_read_only; store_step].
  apply outbox_bind; [apply outbox_read_only; store_step|]. intros current.
  apply outbox_bind; [apply outbox_read_only; store_step|]. intros now.
  destruct (match ob_LeaseExpiresAt current with Some lease => now <? lease | None => false end);
    [apply Hp|apply outbox_read_only; store_step].
Qed.
End Table.

Ltac outbox_step :=
  repeat match goal with
  | |- forall _, _ => intros ?
  | |- guarantees _ (bind _ _) => apply (outbox_bind _)
  | |- guarantees _ (try _) => apply guarantees_try
  | |- guarantees _ (WithReadCommittedTransaction _) => apply (outbox_transaction _)
  | |- guarantees _ (compareAndSwapJobResultOutbox _ _ _) => unfold compareAndSwapJobResultOutbox
  | |- guarantees _ (compareAndSwapJobResultOutboxWithConditions _ _ _) => apply (outbox_cas _); intros ? ? ? ? ? ? ?
  | |- guarantees _ (withResultOutboxOwnership _ _ _) => apply (outbox_owned _)
  | |- guarantees _ (if ?c then _ else _) => destruct c eqn:?
  | |- guarantees _ (match ?c with _ => _ end) => destruct c eqn:?
  | |- guarantees _ _ => apply (outbox_read_only _); solve [auto with store | store_step]
  end.

(** ** The type of a row *)

Definition state_ok (r : JobResultOutbox) : Prop :=
  (ob_State r = JobResultOutboxStateResultPending /\ ob_LeaseExpiresAt r = None /\ ob_MessageID r = ""%string) \/
  ((ob_State r = JobResultOutboxStateResultDispatching \/ ob_State r = JobResultOutboxStateResultQueued) /\
   is_Some (ob_LeaseExpiresAt r)) \/
  (ob_State r = JobResultOutboxStateResultProcessingQueue /\ is_Some (ob_LeaseExpiresAt r) /\
   blank (ob_MessageID r) = false) \/
  ob_State r = JobResultOutboxStateFailed.

Record row_ok (id : string) (r : JobResultOutbox) : Prop := {
  ok_key : ob_ID r = id;
  ok_name : exists payload, jobResultPayloadFromOutbox r = Some payload /\ jobResultOutboxID (Some payload) = id;
  ok_state : state_ok r;
}.

Definition outbox_ok (d : Database) : Prop := map_Forall row_ok (db_outbox d).

Definition keeps_ok (d d' : Database) : Prop := outbox_ok d -> outbox_ok d'.

#[export] Instance keeps_ok_preorder : PreOrder keeps_ok.
Proof. split; [intros d W; exact W|intros a b c H1 H2 W; auto]. Qed.

Lemma payload_same r r' :
  ob_ID r' = ob_ID r -> ob_TaskID r' = ob_TaskID r -> ob_ExecutionKey r' = ob_ExecutionKey r ->
  ob_RunGeneration r' = ob_RunGeneration r -> ob_JobType r' = ob_JobType r -> ob_Namespace r' = ob_Namespace r ->
  ob_Name r' = ob_Name r -> ob_ServiceName r' = ob_ServiceName r -> ob_TimeoutSeconds r' = ob_TimeoutSeconds r ->
  jobResultPayloadFromOutbox r' = jobResultPayloadFromOutbox r.
Proof. intros E1 E2 E3 E4 E5 E6 E7 E8 E9. unfold jobResultPayloadFromOutbox. by rewrite E1, E2, E3, E4, E5, E6, E7, E8, E9. Qed.

(** A write that keeps the identity of its row. *)
Lemma keeps_ok_write d key row row' :
  db_outbox d !! key = Some row ->
  (row_ok key row -> jobResultPayloadFromOutbox row' = jobResultPayloadFromOutbox row /\ ob_ID row' = ob_ID row /\ state_ok row') ->
  keeps_ok d (with_table (<[key := row']> (table d)) d).
Proof.
  intros L H W. cbn. apply map_Forall_insert_2; [|exact W]. pose proof (W key row L) as O.
  destruct (H O) as (N & I & S). destruct O as [K M _]. split; [congruence|by rewrite N|done].
Qed.

Ltac row_write :=
  match goal with
  | L : db_outbox _ !! _ = Some _, Hc : conds_hold _ _ = true, Hu : apply_updates _ _ = Some _ |- _ =>
      outbox_simpl_in Hc Hu; eapply keeps_ok_write; [exact L|]; intros [? ? St];
      split; [by apply payload_same|split; [done|]]; unfold state_ok; cbn -[blank]
  end.

Lemma processing_ok r : state_ok r -> ob_State r = JobResultOutboxStateResultProcessingQueue ->
  is_Some (ob_LeaseExpiresAt r) /\ blank (ob_MessageID r) = false.
Proof. intros [[E _]|[[[E|E] _]|[(_ & L & B)|E]]] P; rewrite P in E || done; done. Qed.

Ltac state_solve :=
  match goal with
  | St : state_ok ?r, E : ob_State ?r = JobResultOutboxStateResultProcessingQueue |- _ =>
      destruct (processing_ok r St E)
  | _ => idtac
  end;
  first [ tauto | left; done | right; left; split; [by left|by eexists] | right; left; split; [by right|by eexists]
        | right; right; left; split; [assumption || done|split; [by eexists|assumption]] | right; right; right; done ].

Create HintDb outbox_type.

Lemma ok_trySet o from to attempts err extra :
  match extra with
  | Some x => (to = JobResultOutboxStateResultPending /\ ex_lease x = None /\ ex_message_id x = ""%string) \/
      ((to = JobResultOutboxStateResultDispatching \/ to = JobResultOutboxStateResultQueued) /\ is_Some (ex_lease x))
  | None => to = JobResultOutboxStateFailed
  end ->
  guarantees keeps_ok (trySetJobResultOutboxState o from to attempts err extra).
Proof.
  intros Hx. unfold trySetJobResultOutboxState. outbox_step. destruct extra as [[m l]|]; cbn in Hx.
  - row_write. destruct Hx as [(-> & -> & ->)|[T L]]; [by left|]. right. left. by split.
  - row_write. subst to. by right; right; right.
Qed.

Lemma ok_failed o message : guarantees keeps_ok (markJobResultOutboxFailed o message).
Proof. unfold markJobResultOutboxFailed, setJobResultOutboxState. outbox_step. by apply ok_trySet. Qed.

Lemma ok_retry o message : guarantees keeps_ok (retryResultOutbox o message).
Proof. unfold retryResultOutbox. outbox_step. apply ok_trySet. by left. Qed.

Lemma ok_dispatch encode error_text queue uuid o :
  guarantees keeps_ok (dispatchPendingOutbox encode error_text queue uuid o).
Proof.
  unfold dispatchPendingOutbox. destruct (jobResultPayloadFromOutbox o); [|apply ok_failed].
  outbox_step; apply ok_trySet; cbn; eauto.
Qed.

Lemma ok_dispatch_all encode error_text queue uuid l :
  guarantees keeps_ok (dispatch_all encode error_text queue uuid l).
Proof. induction l as [|o l IH]; cbn [dispatch_all]; outbox_step; [apply ok_dispatch|exact IH]. Qed.

Lemma ok_recover_all now l : guarantees keeps_ok (recover_outboxes now l).
Proof.
  induction l as [|o l IH]; cbn [recover_outboxes]; [outbox_step|]. apply (outbox_bind _); [|intros _; exact IH].
  unfold recover_outbox. outbox_step; row_write; state_solve.
Qed.

Lemma ok_once encode error_text queue uuid n : guarantees keeps_ok (processOnce encode error_text queue uuid n).
Proof.
  unfold processOnce, recoverResultOutboxes, processResultPending.
  outbox_step; [apply ok_recover_all|apply ok_dispatch_all].
Qed.

Lemma ok_claim token o messageID :
  (forall n, blank (token n) = false) -> guarantees keeps_ok (claimResultOutbox token o messageID).
Proof.
  intros Ht. unfold claimResultOutbox. revert o. generalize 2%nat as n.
  induction n as [|n IH]; intros o; cbn [claim_attempts]; outbox_step; try apply IH.
  row_write. pose proof (Ht n). state_solve.
Qed.

Lemma ok_owned {A} ctx o (persist : JobResultOutbox -> M A) :
  (forall current, guarantees keeps_ok (persist current)) ->
  guarantees keeps_ok (withResultOutboxOwnership ctx o persist).
Proof. intros H. outbox_step; [apply H|]. row_write. state_solve. Qed.

Lemma ok_renew ctx o : guarantees keeps_ok (renewResultOutboxLease ctx o).
Proof.
  apply ok_owned. outbox_step. row_write. state_solve.
Qed.

Lemma ok_bind ctx o uid : guarantees keeps_ok (bindResultOutboxJobUID ctx o uid).
Proof.
  unfold bindResultOutboxJobUID. repeat (match goal with |- guarantees _ (if ?c then _ else _) => destruct c end);
    try (outbox_step; fail).
  apply (outbox_bind _); [|intros _; outbox_step]. apply ok_owned. outbox_step. row_write. state_solve.
Qed.

Lemma ok_delete id : guarantees keeps_ok (deleteJobResultOutbox id).
Proof.
  unfold deleteJobResultOutbox. outbox_step. unfold Delete. outbox_step.
  apply guarantees_statement. intros t d r d' F W. injection F as <- <-. cbn. by apply map_Forall_delete.
Qed.

#[local] Opaque TrimSpace FormatUint sha1 hex.

(** A payload and the row built from it carry the same identity. *)
Lemma built_name payload state o :
  BuildJobResultOutbox payload state = Some o ->
  (exists q, jobResultPayloadFromOutbox o = Some q /\ jobResultOutboxID (Some q) = ob_ID o) /\
  ob_ID o = jobResultOutboxID payload /\ ob_State o = state /\ ob_LeaseExpiresAt o = None /\
  ob_MessageID o = ""%string.
Proof.
  unfold BuildJobResultOutbox. destruct payload as [p|]; [|done].
  destruct (is_ok (validateJobResultPayload (Some p))) eqn:V; [|done]. intros [= <-]. split; [|done].
  set (o := job_result_outbox_zero <| ob_ID := _ |> <| ob_TaskID := _ |> <| ob_ExecutionKey := _ |> <| ob_RunGeneration := _ |>
    <| ob_JobType := _ |> <| ob_Namespace := _ |> <| ob_Name := _ |> <| ob_ServiceName := _ |> <| ob_TimeoutSeconds := _ |>
    <| ob_State := _ |>).
  set (q := {| rp_OutboxID := TrimSpace (jobResultOutboxID (Some p));
      rp_TaskID := TrimSpace (TrimSpace (rp_TaskID p)); rp_ExecutionKey := TrimSpace (TrimSpace (rp_ExecutionKey p));
      rp_RunGeneration := rp_RunGeneration p; rp_JobType := TrimSpace (TrimSpace (rp_JobType p));
      rp_Namespace := TrimSpace (TrimSpace (rp_Namespace p)); rp_Name := TrimSpace (TrimSpace (rp_Name p));
      rp_ServiceName := TrimSpace (TrimSpace (rp_ServiceName p)); rp_TimeoutSeconds := rp_TimeoutSeconds p |}).
  assert (Vq : is_ok (validateJobResultPayload (Some q)) = true).
  { rewrite <- V. unfold validateJobResultPayload, blank, q.
    cbn [rp_Name rp_Namespace rp_TaskID rp_ExecutionKey rp_RunGeneration]. by rewrite !TrimSpace_idem. }
  assert (E : jobResultPayloadFromOutbox o = if is_ok (validateJobResultPayload (Some q)) then Some q else None)
    by reflexivity.
  exists q. rewrite E, Vq. split; [done|]. change (ob_ID o) with (jobResultOutboxID (Some p)).
  unfold jobResultOutboxID. rewrite V, Vq. unfold q.
  cbn [negb rp_TaskID rp_Namespace rp_Name rp_ExecutionKey rp_RunGeneration]. by rewrite !TrimSpace_idem.
Qed.

Lemma ok_create payload :
  guarantees keeps_ok (CreateJobResultOutbox payload JobResultOutboxStateResultPending).
Proof.
  unfold CreateJobResultOutbox. destruct (BuildJobResultOutbox _ _) as [o|] eqn:E; [|outbox_step].
  apply built_name in E as (N & I & S & L & M). outbox_step. unfold Add. outbox_step.
  apply guarantees_statement. intros t d r d' F W. cbn in F.
  destruct (db_outbox d !! ob_ID o); injection F as <- <-; [done|].
  cbn. apply map_Forall_insert_2; [|exact W]. split; [done|exact N|by left].
Qed.

#[local] Transparent TrimSpace FormatUint sha1 hex.

(** ** Who owns a row *)

(** No row under [id] is in processing with this token. *)
Definition disowned (id token : string) (d : Database) : Prop :=
  forall r, db_outbox d !! id = Some r ->
    ob_State r = JobResultOutboxStateResultProcessingQueue -> ob_MessageID r = token -> False.

Definition stays_disowned (id token : string) (d d' : Database) : Prop := disowned id token d -> disowned id token d'.

#[export] Instance stays_disowned_preorder id token : PreOrder (stays_disowned id token).
Proof. split; [intros d W; exact W|intros a b c H1 H2 W; auto]. Qed.

Section Others.
Variables id tok : string.

Lemma disowned_write d key row row' :
  db_outbox d !! key = Some row ->
  (ob_State row' = JobResultOutboxStateResultProcessingQueue -> ob_MessageID row' = tok ->
   ob_State row = JobResultOutboxStateResultProcessingQueue /\ ob_MessageID row = tok) ->
  stays_disowned id tok d (with_table (<[key := row']> (table d)) d).
Proof.
  intros L H W r. cbn. destruct (decide (key = id)) as [<-|N].
  - rewrite lookup_insert_eq. intros [= <-] S M. destruct (H S M). by apply (W row L).
  - rewrite lookup_insert_ne by done. apply W.
Qed.

Ltac other_write :=
  match goal with
  | L : db_outbox _ !! _ = Some _, Hc : conds_hold _ _ = true, Hu : apply_updates _ _ = Some _ |- _ =>
      outbox_simpl_in Hc Hu; eapply disowned_write; [exact L|]; cbn; intros S M; try (done || by split)
  end.

Lemma others_trySet o from to attempts err extra :
  to <> JobResultOutboxStateResultProcessingQueue ->
  guarantees (stays_disowned id tok) (trySetJobResultOutboxState o from to attempts err extra).
Proof. intros N. unfold trySetJobResultOutboxState. outbox_step. destruct extra as [[m l]|]; other_write. Qed.

Lemma others_failed o message : guarantees (stays_disowned id tok) (markJobResultOutboxFailed o message).
Proof. unfold markJobResultOutboxFailed, setJobResultOutboxState. outbox_step. by apply others_trySet. Qed.

Lemma others_retry o message : guarantees (stays_disowned id tok) (retryResultOutbox o message).
Proof. unfold retryResultOutbox. outbox_step. by apply others_trySet. Qed.

Lemma others_dispatch encode error_text queue uuid o :
  guarantees (stays_disowned id tok) (dispatchPendingOutbox encode error_text queue uuid o).
Proof.
  unfold dispatchPendingOutbox. destruct (jobResultPayloadFromOutbox o); [|apply others_failed].
  outbox_step; by apply others_trySet.
Qed.

Lemma others_dispatch_all encode error_text queue uuid l :
  guarantees (stays_disowned id tok) (dispatch_all encode error_text queue uuid l).
Proof. induction l as [|o l IH]; cbn [dispatch_all]; outbox_step; [apply others_dispatch|exact IH]. Qed.

Lemma others_recover_all now l : guarantees (stays_disowned id tok) (recover_outboxes now l).
Proof.
  induction l as [|o l IH]; cbn [recover_outboxes]; [outbox_step|]. apply (outbox_bind _); [|intros _; exact IH].
  unfold recover_outbox. outbox_step; other_write.
Qed.

Lemma others_once encode error_text queue uuid n :
  guarantees (stays_disowned id tok) (processOnce encode error_text queue uuid n).
Proof.
  unfold processOnce, recoverResultOutboxes, processResultPending.
  outbox_step; [apply others_recover_all|apply others_dispatch_all].
Qed.

Lemma others_claim token o messageID :
  (forall n, token n <> tok) -> guarantees (stays_disowned id tok) (claimResultOutbox token o messageID).
Proof.
  intros Ht. unfold claimResultOutbox. revert o. generalize 2%nat as n.
  induction n as [|n IH]; intros o; cbn [claim_attempts]; outbox_step; try apply IH.
  other_write. by destruct (Ht n).
Qed.

Lemma others_owned {A} ctx o (persist : JobResultOutbox -> M A) :
  (forall current, guarantees (stays_disowned id tok) (persist current)) ->
  guarantees (stays_disowned id tok) (withResultOutboxOwnership ctx o persist).
Proof. intros H. outbox_step; [apply H|]. other_write. Qed.

Lemma others_renew ctx o : guarantees (stays_disowned id tok) (renewResultOutboxLease ctx o).
Proof. apply others_owned. outbox_step. other_write. Qed.

Lemma others_bind ctx o uid : guarantees (stays_disowned id tok) (bindResultOutboxJobUID ctx o uid).
Proof.
  unfold bindResultOutboxJobUID. repeat (match goal with |- guarantees _ (if ?c then _ else _) => destruct c end);
    try (outbox_step; fail).
  apply (outbox_bind _); [|intros _; outbox_step]. apply others_owned. outbox_step. other_write.
Qed.

Lemma others_delete k : guarantees (stays_disowned id tok) (deleteJobResultOutbox k).
Proof.
  unfold deleteJobResultOutbox. outbox_step. unfold Delete. outbox_step.
  apply guarantees_statement. intros t d r d' F W. injection F as <- <-. intros r0. cbn.
  rewrite lookup_delete_Some. intros [_ L]. by apply W.
Qed.

Lemma others_create payload state :
  state <> JobResultOutboxStateResultProcessingQueue ->
  guarantees (stays_disowned id tok) (CreateJobResultOutbox payload state).
Proof.
  intros N. unfold CreateJobResultOutbox. destruct (BuildJobResultOutbox _ _) as [o|] eqn:E; [|outbox_step].
  apply built_name in E as (_ & _ & S & _ & _). outbox_step. unfold Add. outbox_step.
  apply guarantees_statement. intros t d r d' F W. cbn in F.
  destruct (db_outbox d !! ob_ID o) eqn:L; injection F as <- <-; [done|].
  intros r0. cbn. destruct (decide (ob_ID o = id)) as [<-|Ne].
  - rewrite lookup_insert_eq. intros [= <-] S' _. apply N. rewrite <- S. exact S'.
  - rewrite lookup_insert_ne by done. apply W.
Qed.
End Others.

(** ** A consumer that lost its row *)

(** What a run changed when the row is no longer the consumer's, and stays so. *)
Definition fenced_by (o : JobResultOutbox) {A} (Post : result A -> Prop) (m : M A) : Prop :=
  forall w r w', env_respects (stays_disowned (ob_ID o) (ob_MessageID o)) (w_env w) ->
    disowned (ob_ID o) (ob_MessageID o) (w_db w) -> m w = (r, w') -> noeffect w w' /\ Post r.

Lemma fenced_cas o us :
  fenced_by o (fun r => r <> Ok true) (compareAndSwapJobResultOutbox o JobResultOutboxStateResultProcessingQueue us).
Proof.
  intros w r w' He D E. unfold compareAndSwapJobResultOutbox, compareAndSwapJobResultOutboxWithConditions in E.
  destruct (negb _); [|by injection E as <- <-]. pose proof (cas_spec _ _ _ _ _ _ E) as C.
  destruct r as [[]|e]; [|done|done]. exfalso. destruct C as (w1 & row & row' & N & L & Hc & _ & _).
  destruct (noeffect_respects (stays_disowned (ob_ID o) (ob_MessageID o)) _ _ N He) as [K _].
  autorewrite with outbox_cols in Hc. bool_to_prop. by apply (K D row L).
Qed.

Lemma fenced_trySet o to attempts err extra :
  fenced_by o (fun r => forall x, r = Ok x -> x.1 = false)
    (trySetJobResultOutboxState o JobResultOutboxStateResultProcessingQueue to attempts err extra).
Proof.
  intros w r w' He D E. unfold trySetJobResultOutboxState, bind in E.
  destruct (compareAndSwapJobResultOutbox o _ _ w) as [c w1] eqn:C.
  destruct (fenced_cas o _ w c w1 He D C) as [N P]. destruct c as [[]|e]; [done| |].
  - injection E as <- <-. split; [done|]. by intros x [= <-].
  - injection E as <- <-. done.
Qed.

Lemma fenced_owned {A} ctx o (persist : JobResultOutbox -> M A) :
  (forall current, advances (persist current)) ->
  fenced_by o (fun r => is_ok r = false) (withResultOutboxOwnership ctx o persist).
Proof.
  intros Ha w r w' He D E. unfold withResultOutboxOwnership in E.
  destruct ctx; [by injection E as <- <-|]. destruct (_ && _); [|by injection E as <- <-].
  match type of E with WithReadCommittedTransaction ?body _ = _ =>
    assert (Hb : advances body) by store_step; pose proof (transaction_spec body w r w' Hb E) as T end.
  destruct r as [a|e]; [|done]. exfalso. destruct T as (w1 & Eb & _). unfold bind at 1 in Eb.
  destruct (compareAndSwapJobResultOutbox o _ _ w) as [c w2] eqn:C.
  destruct (fenced_cas o _ w c w2 He D C) as [_ P]. by destruct c as [[]|e].
Qed.

Lemma fenced_bind ctx o uid : fenced_by o (fun _ => True) (bindResultOutboxJobUID ctx o uid).
Proof.
  intros w r w' He D E. split; [|done]. unfold bindResultOutboxJobUID in E.
  destruct (str_empty uid); [by injection E as <- <-|].
  destruct (negb _); [by destruct (_ =? _)%string; injection E as <- <-|].
  unfold bind at 1 in E. match type of E with context [withResultOutboxOwnership ctx o ?p] => set (persist := p) in E end.
  assert (Ha : forall current, advances (persist current)) by (intros current; unfold persist; store_step).
  destruct (withResultOutboxOwnership ctx o persist w) as [r1 w1] eqn:F.
  destruct (fenced_owned ctx o persist Ha w r1 w1 He D F) as [N Ne]. destruct r1; [done|]. by injection E as <- <-.
Qed.

Lemma fenced_set o to attempts err extra k :
  fenced_by o (fun _ => True) (let! _ := trySetJobResultOutboxState o JobResultOutboxStateResultProcessingQueue to
    attempts err extra in ret (k : unit)).
Proof.
  intros w r w' He D E. split; [|done]. unfold bind in E.
  destruct (trySetJobResultOutboxState o _ _ _ _ _ w) as [x w1] eqn:T.
  destruct (fenced_trySet o to attempts err extra w x w1 He D T) as [N _]. by destruct x; injection E as <- <-.
Qed.

Lemma fenced_retry o message : fenced_by o (fun _ => True) (retryResultOutbox o message).
Proof. apply fenced_set. Qed.

Lemma fenced_failed o message :
  ob_State o = JobResultOutboxStateResultProcessingQueue ->
  fenced_by o (fun _ => True) (markJobResultOutboxFailed o message).
Proof. intros S. unfold markJobResultOutboxFailed, setJobResultOutboxState. rewrite S. apply fenced_set. Qed.

(** C32: Every operation on the result outbox keeps the table well typed under any interleaving that does: a row is
    named by the digest of the identity it carries, its state is one of the five, a pending row has neither lease nor
    message, an active row a lease, and a row in processing a token. *)
Theorem outbox_well_typed encode error_text queue uuid token :
  (forall n, blank (token n) = false) ->
  (forall payload, guarantees keeps_ok (CreateJobResultOutbox payload JobResultOutboxStateResultPending)) /\
  (forall n, guarantees keeps_ok (processOnce encode error_text queue uuid n)) /\
  (forall o messageID, guarantees keeps_ok (claimResultOutbox token o messageID)) /\
  (forall ctx o, guarantees keeps_ok (renewResultOutboxLease ctx o)) /\
  (forall ctx o uid, guarantees keeps_ok (bindResultOutboxJobUID ctx o uid)) /\
  (forall o message, guarantees keeps_ok (retryResultOutbox o message)) /\
  (forall o message, guarantees keeps_ok (markJobResultOutboxFailed o message)) /\
  (forall ctx o id, guarantees keeps_ok (withResultOutboxOwnership ctx o (fun _ => deleteJobResultOutbox id))).
Proof.
  intros Ht. split; [apply ok_create|split; [intros n; apply ok_once|split; [intros o m; by apply ok_claim|]]].
  split; [apply ok_renew|split; [apply ok_bind|split; [apply ok_retry|split; [apply ok_failed|]]]].
  intros ctx o id. apply ok_owned. intros _. apply ok_delete.
Qed.

(** A consumer takes the row of a delivered message. *)
Definition sample_payload : JobResultPayload :=
  Build_JobResultPayload "" "task-1" "key-1" 1 "instant_job" "ns" "web" "" 60.

Definition sample_row (state message : string) (lease : option Z) : JobResultOutbox :=
  (default job_result_outbox_zero (BuildJobResultOutbox (Some sample_payload) state))
    <| ob_MessageID := message |> <| ob_LeaseExpiresAt := lease |>.

Definition sample_outbox (row : JobResultOutbox) : Database :=
  (db_empty 1000000) <| db_outbox := {[ob_ID row := row]} |>.

Lemma sample_row_ok state message lease :
  state_ok (sample_row state message lease) ->
  outbox_ok (sample_outbox (sample_row state message lease)).
Proof.
  intros S. apply map_Forall_singleton. split; [done| |exact S].
  exists (default sample_payload (jobResultPayloadFromOutbox (sample_row state message lease))). by vm_compute.
Qed.

Lemma outbox_well_typed_witness :
  let row := sample_row JobResultOutboxStateResultQueued "1-0" (Some (2 * Second)) in
  let run := claimResultOutbox (fun _ => "token"%string) row "1-0" (seqw (sample_outbox row) 0) in
  outbox_ok (sample_outbox row) /\ is_ok (fst run) = true /\ outbox_ok (w_db (snd run)).
Proof.
  intros row run. assert (W : outbox_ok (sample_outbox row)).
  { apply sample_row_ok. right. left. split; [by right|by eexists]. }
  split; [exact W|]. split; [by vm_compute|].
  destruct (outbox_well_typed (fun _ => Ok ""%string) (fun _ => ""%string) None (fun _ => "uuid"%string)
    (fun _ => "token"%string) (fun _ => eq_refl)) as (_ & _ & C & _).
  apply (guarantees_run _ _ _ _ _ (C row "1-0"%string) (surjective_pairing run) (List.Forall_nil _)), W.
Defined.

(** Once a row is no longer in processing under a consumer's token, no other consumer's, dispatcher's or
    recovery's operation brings that state back, and no operation of the consumer has an effect: it can neither
    record a result, renew the lease, bind a UID, return the row nor fail it. *)
Theorem result_owner_is_fenced encode error_text queue uuid token (o : JobResultOutbox) :
  (forall n, token n <> ob_MessageID o) ->
  let R := stays_disowned (ob_ID o) (ob_MessageID o) in
  (forall n, guarantees R (processOnce encode error_text queue uuid n)) /\
  (forall other messageID, guarantees R (claimResultOutbox token other messageID)) /\
  (forall ctx other, guarantees R (renewResultOutboxLease ctx other)) /\
  (forall ctx other uid, guarantees R (bindResultOutboxJobUID ctx other uid)) /\
  (forall other message, guarantees R (retryResultOutbox other message)) /\
  (forall other message, guarantees R (markJobResultOutboxFailed other message)) /\
  (forall ctx other id, guarantees R (withResultOutboxOwnership ctx other (fun _ => deleteJobResultOutbox id))) /\
  (forall payload, guarantees R (CreateJobResultOutbox payload JobResultOutboxStateResultPending)) /\
  (forall A ctx (persist : JobResultOutbox -> M A), (forall current, advances (persist current)) ->
     fenced_by o (fun r => is_ok r = false) (withResultOutboxOwnership ctx o persist)) /\
  (forall ctx, fenced_by o (fun r => is_ok r = false) (renewResultOutboxLease ctx o)) /\
  (forall ctx uid, fenced_by o (fun _ => True) (bindResultOutboxJobUID ctx o uid)) /\
  (forall message, fenced_by o (fun _ => True) (retryResultOutbox o message)) /\
  (ob_State o = JobResultOutboxStateResultProcessingQueue ->
   forall message, fenced_by o (fun _ => True) (markJobResultOutboxFailed o message)).
Proof.
  intros Ht R. split; [intros n; apply others_once|split; [intros other m; by apply others_claim|]].
  split; [intros; apply others_renew|split; [intros; apply others_bind|split; [intros; apply others_retry|]]].
  split; [intros; apply others_failed|split; [intros; apply others_owned; intros _; apply others_delete|]].
  split; [intros; by apply others_create|split; [intros; by apply fenced_owned|]].
  split; [intros; apply fenced_owned; intros current; store_step|split; [intros; apply fenced_bind|split; intros; [apply fenced_retry|by apply fenced_failed]]].
Qed.

(** A consumer whose row was returned to pending. *)
Lemma result_owner_is_fenced_witness :
  let mine := sample_row JobResultOutboxStateResultProcessingQueue "mine" (Some (2 * Second)) in
  let d := sample_outbox (sample_row JobResultOutboxStateResultPending "" None) in
  let retried := retryResultOutbox mine "timeout" (seqw d 0) in
  let owned := withResultOutboxOwnership None mine (fun _ => deleteJobResultOutbox (ob_ID mine)) (seqw d 0) in
  disowned (ob_ID mine) "mine" d /\ noeffect (seqw d 0) (snd retried) /\
  noeffect (seqw d 0) (snd owned) /\ is_ok (fst owned) = false.
Proof.
  intros mine d retried owned. assert (D : disowned (ob_ID mine) "mine" d).
  { intros r L S _. unfold d, sample_outbox in L. cbn -[sample_row] in L. apply lookup_singleton_Some in L as [_ <-]. discriminate S. }
  split; [exact D|].
  destruct (result_owner_is_fenced (fun _ => Ok ""%string) (fun _ => ""%string) None (fun _ => "uuid"%string)
    (fun _ => "token"%string) mine ltac:(discriminate)) as (_ & _ & _ & _ & _ & _ & _ & _ & Own & _ & _ & Ret & _).
  split; [apply (Ret "timeout"%string _ (fst retried)); [apply List.Forall_nil|exact D|apply surjective_pairing]|].
  apply (Own _ None (fun _ => deleteJobResultOutbox (ob_ID mine))); [|apply List.Forall_nil|exact D|apply surjective_pairing].
  intros current. apply (guarantees_advances _ _ (ok_delete (ob_ID mine))).
Defined.

(** ** Names *)

Lemma digit_plain d : 0 <= d < 16 -> plain (digit d) = true.
Proof.
  intros D. unfold plain, between, digit, code, chr.
  destruct (Z.ltb_spec d 10); rewrite N_ascii_embedding by lia; rewrite Z2N.id by lia; lia.
Qed.

Lemma TrimSpace_hex l : List.Forall (fun b => 0 <= b < 256) l -> TrimSpace (hex l) = hex l.
Proof.
  intros F. apply TrimSpace_plain. induction F as [|b l B F IH]; [done|]. cbn. rewrite IH.
  rewrite !digit_plain; [done|split; [apply Z.mod_pos_bound|apply Z.mod_pos_bound]; lia|].
  split; [apply Z.div_pos; lia|]. apply Z.div_lt_upper_bound; lia.
Qed.

(** A row's key is its digest, 40 digits without space. *)
Lemma row_ok_key id r : row_ok id r -> TrimSpace (ob_ID r) = ob_ID r /\ blank (ob_ID r) = false.
Proof.
  intros [K (p & E & N) _]. rewrite K. unfold jobResultPayloadFromOutbox in E. cbv zeta in E.
  match type of E with (if isResultPayloadProcessable ?q then _ else _) = _ =>
    destruct (isResultPayloadProcessable q) eqn:V; [|done]; injection E as <- end.
  unfold jobResultOutboxID in N. unfold isResultPayloadProcessable in V. rewrite V in N. cbn [negb] in N.
  match type of N with hex (sha1 ?m) = _ => set (l := sha1 m) in N end.
  assert (T : TrimSpace id = id) by (rewrite <- N; apply TrimSpace_hex, sha1_bytes).
  split; [exact T|]. unfold blank. rewrite T. apply str_empty_false. intros X.
  pose proof (length_hex l) as H. rewrite N, X in H. unfold l in H. rewrite length_sha1 in H. done.
Qed.
