(* ===== verification/OutboxRecovery.v ===== *)
(** Recovery of results whose consumer is gone: [recoverResultOutboxes] of
    [event/workflow/job/jobresult/result_outbox.go], run alone.

    The dispatcher looks at a bounded number of rows per pass.  The order of its query
    puts the rows to recover before every live one, so a pass recovers as many as the
    bound allows and live processing never hides an expired row. *)

From S2P Require Import Prelude GoStrings Config Json Quantity Policy Model Store Hoare Lease LeaseProtocol Budget.
From S2P Require Import Signals Scheduler PodResources Retry Cleanup JobInfos Components Controller JobExec RunJob KubeJobs.
From S2P Require Import DelayQueue Sha1 Outbox OutboxSpec.

(** The lease does not reach past [now]; a missing lease is invalid. *)
Definition expired_result (now : Z) (r : JobResultOutbox) : bool :=
  match ob_LeaseExpiresAt r with Some lease => negb (now <? lease) | None => true end.

Definition active_result (r : JobResultOutbox) : bool := existsb (String.eqb (ob_State r)) active_states.

(** What becomes of a row at wall time [t]. *)
Definition recovered_result (t : Z) (r : JobResultOutbox) : JobResultOutbox :=
  match ob_LeaseExpiresAt r with
  | None => r <| ob_State := JobResultOutboxStateFailed |>
              <| ob_LastError := "active result outbox has no lease; automatic recovery rejected"%string |>
              <| ob_UpdateTime := t |>
  | Some _ => r <| ob_State := JobResultOutboxStateResultPending |> <| ob_MessageID := ""%string |>
                <| ob_LeaseExpiresAt := None |> <| ob_Attempts := next_attempts r |>
                <| ob_LastError := "result notification or processing exceeded recovery grace"%string |>
                <| ob_UpdateTime := t |>
  end.

Definition recovered_map (t : Z) (l : list JobResultOutbox) (m : gmap string JobResultOutbox) :=
  fold_left (fun m r => <[ob_ID r := recovered_result t r]> m) l m.

(** The row [r] of [d] is there and may be named by its key. *)
Definition present (d : Database) (r : JobResultOutbox) : Prop :=
  db_outbox d !! ob_ID r = Some r /\ TrimSpace (ob_ID r) = ob_ID r /\ blank (ob_ID r) = false.

Lemma seq_outbox_cas_true o cs us row row' d t :
  present d o -> db_outbox d !! ob_ID o = Some row -> known (E := JobResultOutbox) (map fst cs) = true ->
  conds_hold cs row = true -> ob_ID row = ob_ID o ->
  apply_updates (us ++ [("update_time"%string, VTime t)]) row = Some row' ->
  compareAndSwapJobResultOutboxWithConditions o cs us (seqw d t) =
    (Ok true, seqw (d <| db_outbox := <[ob_ID o := row']> (db_outbox d) |>) t).
Proof.
  intros (_ & T & B) L Kn C I U. unfold compareAndSwapJobResultOutboxWithConditions. rewrite B.
  cbn [negb]. erewrite (seq_cas_true (E := JobResultOutbox)); eauto; try done.
  - apply str_empty_false. intros X. rewrite X in B. by rewrite blank_empty in B.
  - rewrite ob_cond_id, C, T, I, String.eqb_refl. done.
Qed.

Lemma recover_outbox_seq now r d t :
  present d r -> expired_result now r = true ->
  recover_outbox now r (seqw d t) =
    (Ok tt, seqw (d <| db_outbox := <[ob_ID r := recovered_result t r]> (db_outbox d) |>) t).
Proof.
  intros P X. pose proof P as (L & _ & _). unfold recover_outbox, expired_result, recovered_result in *.
  destruct (ob_LeaseExpiresAt r) as [lease|] eqn:El.
  - apply negb_true_iff in X. rewrite X.
    erewrite bind_ok by (eapply seq_outbox_cas_true; [exact P|exact L|reflexivity| |reflexivity|reflexivity];
      autorewrite with outbox_cols; by rewrite El, !String.eqb_refl, Z.eqb_refl).
    reflexivity.
  - erewrite bind_ok by (eapply seq_outbox_cas_true; [exact P|exact L|reflexivity| |reflexivity|reflexivity];
      autorewrite with outbox_cols; by rewrite El, !String.eqb_refl).
    reflexivity.
Qed.

Lemma recover_live now l w :
  (forall r, In r l -> expired_result now r = false) -> recover_outboxes now l w = (Ok tt, w).
Proof.
  induction l as [|r l IH]; intros X; [done|]. cbn [recover_outboxes].
  erewrite bind_ok; [apply IH; intros r' Hr; apply X; by right|].
  specialize (X r (or_introl eq_refl)). unfold recover_outbox, expired_result in *.
  destruct (ob_LeaseExpiresAt r) as [lease|]; [|done]. apply negb_false_iff in X. by rewrite X.
Qed.

Lemma recover_expired now l rest d t :
  NoDup (map ob_ID l) -> (forall r, In r l -> present d r /\ expired_result now r = true) ->
  recover_outboxes now (l ++ rest)%list (seqw d t) =
    recover_outboxes now rest (seqw (d <| db_outbox := recovered_map t l (db_outbox d) |>) t).
Proof.
  revert d. induction l as [|r l IH]; intros d ND Hl.
  - cbn. by destruct d.
  - cbn [map] in ND. apply NoDup_cons in ND as [Hr ND]. destruct (Hl r (or_introl eq_refl)) as [P X].
    cbn [app recover_outboxes]. erewrite bind_ok by (by apply recover_outbox_seq).
    rewrite IH; [done|done|]. intros r' Hin. destruct (Hl r' (or_intror Hin)) as [(L & T & B) X'].
    split; [|done]. split; [|done]. cbn. rewrite lookup_insert_ne; [done|].
    intros E. apply Hr. rewrite E. by apply list_elem_of_In, in_map.
Qed.

Lemma recovered_map_lookup t l m id :
  NoDup (map ob_ID l) ->
  recovered_map t l m !! id =
    match List.find (fun r => String.eqb (ob_ID r) id) l with
    | Some r => Some (recovered_result t r)
    | None => m !! id
    end.
Proof.
  revert m. induction l as [|r l IH]; intros m ND; [done|]. cbn [map] in ND.
  apply NoDup_cons in ND as [Hr ND]. change (recovered_map t (r :: l) m)
    with (recovered_map t l (<[ob_ID r := recovered_result t r]> m)).
  rewrite IH by done. cbn [List.find]. destruct (String.eqb_spec (ob_ID r) id) as [<-|Hne].
  - destruct (List.find _ l) as [r'|] eqn:F; [|by rewrite lookup_insert_eq].
    apply find_some in F as [Hin E]. apply String.eqb_eq in E. exfalso. apply Hr.
    rewrite <- E. apply list_elem_of_In, in_map, Hin.
  - destruct (List.find _ l); [done|]. by rewrite lookup_insert_ne.
Qed.

(** ** The query *)

Lemma active_matches n r :
  row_matches (E := JobResultOutbox) [] (Filter (outbox_options active_states n)) r = active_result r.
Proof. unfold row_matches, active_result. cbn. by rewrite !andb_true_r. Qed.

(** A row to recover never comes after a live one. *)
Lemma expired_first now n (a b : JobResultOutbox) :
  Is_true (row_le (SortBy (outbox_options active_states n)) a b) ->
  expired_result now b = true -> expired_result now a = true.
Proof.
  rewrite Is_true_true. cbn [row_le outbox_options SortBy]. unfold expired_result, get_col. cbn.
  destruct (ob_LeaseExpiresAt a) as [la|], (ob_LeaseExpiresAt b) as [lb|]; cbn; try done.
  destruct (Z.eqb_spec la lb) as [->|]; [done|]. rewrite !negb_true_iff, !Z.ltb_ge. intros. lia.
Qed.

Definition expired_rows (now : Z) (d : Database) : list JobResultOutbox :=
  List.filter (fun r => active_result r && expired_result now r) (rows d).

Definition pass_size (n : Z) : nat := Z.to_nat (if n <=? 0 then resultOutboxBatchSize else n).

Lemma filter_filter_and {A} (p q : A -> bool) l :
  List.filter p (List.filter q l) = List.filter (fun a => q a && p a) l.
Proof.
  induction l as [|a l IH]; [done|]. cbn. destruct (q a); cbn; [|exact IH]. by destruct (p a); rewrite IH.
Qed.

(** A page: the rows to recover, as many as fit, then live ones. *)
Lemma recovery_page n now d :
  exists picked live, (select [] (outbox_options active_states n) d = picked ++ live)%list /\
    length picked = Nat.min (pass_size n) (length (expired_rows now d)) /\
    (exists rest, (picked ++ rest)%list ≡ₚ expired_rows now d) /\
    (forall r, In r live -> expired_result now r = false).
Proof.
  destruct (select_sorted_by (E := JobResultOutbox) [] (outbox_options active_states n) d ltac:(done)) as (l & -> & P & S).
  pose proof (sorted_split _ (expired_result now) l S (expired_first now n)) as Split.
  set (e := List.filter (expired_result now) l) in *. set (v := List.filter (fun a => negb (expired_result now a)) l) in *.
  assert (Pe : e ≡ₚ expired_rows now d).
  { unfold e, expired_rows. rewrite (filter_perm _ _ _ P), filter_filter_and.
    erewrite List.filter_ext; [reflexivity|]. intros r. by rewrite active_matches. }
  exists (take (pass_size n) e), (take (pass_size n - length e) v). split.
  - unfold page_of. cbn [PageSize Page outbox_options]. change (0 <? 1) with true. rewrite andb_true_r.
    assert ((0 <? (if n <=? 0 then resultOutboxBatchSize else n)) = true) as ->.
    { unfold resultOutboxBatchSize. destruct (Z.leb_spec n 0); lia. }
    rewrite Z.sub_diag, Z.mul_0_r. cbn [Z.to_nat]. rewrite drop_0, Split. apply take_app.
  - split; [|split].
    + rewrite length_take. by rewrite (Permutation_length Pe).
    + exists (drop (pass_size n) e). by rewrite take_drop.
    + intros r Hr. assert (Hv : In r v).
      { rewrite <- (take_drop (pass_size n - length e) v). apply in_or_app. by left. }
      unfold v in Hv. apply filter_In in Hv as [_ X]. by apply negb_true_iff in X.
Qed.

Lemma outbox_rows_nodup d : outbox_ok d -> NoDup (map ob_ID (rows (E := JobResultOutbox) d)).
Proof.
  intros W. unfold rows. cbn [table Entity_JobResultOutbox].
  replace (map ob_ID (map snd (map_to_list (db_outbox d)))) with (map fst (map_to_list (db_outbox d))).
  - apply NoDup_fst_map_to_list.
  - rewrite map_map. apply map_ext_in. intros [k r] Hin. apply list_elem_of_In, elem_of_map_to_list in Hin.
    cbn. symmetry. apply (W k r Hin).
Qed.

Lemma seq_outbox_time d t :
  0 < db_clock_micro d -> resultOutboxDatabaseTime (seqw d t) = (Ok (db_clock_micro d * Microsecond), seqw d t).
Proof.
  intros C. unfold resultOutboxDatabaseTime. erewrite bind_ok by (by apply wrap_ok, seq_clock).
  assert ((db_clock_micro d * Microsecond =? time_zero) = false) as ->; [|done].
  unfold time_zero, Second, Millisecond, Microsecond. lia.
Qed.

(** A pass of the recovery, alone, returns rows whose lease ran out to pending and fails active rows
    without a lease, as many as the pass may look at and no other; when it recovers fewer than that, none is
    left.  A consumer whose row is recovered has lost it. *)
Theorem recovery_pass_exact d t n :
  outbox_ok d -> 0 < db_clock_micro d ->
  let now := db_clock_micro d * Microsecond in
  exists picked d',
    recoverResultOutboxes active_states n (seqw d t) = (Ok tt, seqw d' t) /\
    length picked = Nat.min (pass_size n) (length (expired_rows now d)) /\ NoDup (map ob_ID picked) /\
    (forall r, In r picked -> db_outbox d !! ob_ID r = Some r /\ active_result r = true /\ expired_result now r = true /\
       db_outbox d' !! ob_ID r = Some (recovered_result t r) /\ forall token, disowned (ob_ID r) token d') /\
    (forall id, ~ In id (map ob_ID picked) -> db_outbox d' !! id = db_outbox d !! id) /\
    d' = d <| db_outbox := db_outbox d' |>.
Proof.
  intros W C now. destruct (recovery_page n now d) as (picked & live & Es & Len & (rest & P) & Live).
  assert (ND : NoDup (map ob_ID picked)).
  { pose proof (NoDup_map_filter ob_ID (fun r => active_result r && expired_result now r) _ (outbox_rows_nodup d W)) as N.
    change (List.filter _ (rows d)) with (expired_rows now d) in N. rewrite <- P, map_app in N.
    by apply NoDup_app in N as (N & _ & _). }
  assert (In_d : forall r, In r picked -> db_outbox d !! ob_ID r = Some r /\ active_result r = true /\
                   expired_result now r = true /\ present d r).
  { intros r Hr. assert (He : In r (expired_rows now d)).
    { apply (Permutation_in _ P), in_or_app. by left. }
    apply filter_In in He as [Hin X]. apply andb_true_iff in X as [A X].
    apply elem_rows in Hin as [k L]. pose proof (W k r L) as O. destruct (row_ok_key k r O) as [T B].
    destruct O as [K _ _]. cbn in L. rewrite <- K in L. by repeat split. }
  exists picked, (d <| db_outbox := recovered_map t picked (db_outbox d) |>).
  assert (Lk : forall r, In r picked -> recovered_map t picked (db_outbox d) !! ob_ID r = Some (recovered_result t r)).
  { intros r Hr. rewrite recovered_map_lookup by done. destruct (List.find _ picked) as [r'|] eqn:F.
    - apply find_some in F as [Hr' E]. apply String.eqb_eq in E.
      destruct (In_d r Hr) as (L & _), (In_d r' Hr') as (L' & _). rewrite E, L in L'. by injection L' as ->.
    - exfalso. pose proof (find_none _ _ F r Hr) as N. cbn in N. by rewrite String.eqb_refl in N. }
  split; [|split; [done|split; [done|split; [|split]]]].
  - unfold recoverResultOutboxes, listJobResultOutboxesByStates. cbn [List.filter active_states negb str_empty].
    erewrite bind_ok by (apply seq_List; reflexivity). erewrite bind_ok by (by apply seq_outbox_time).
    change (select (E := JobResultOutbox) [] _ d) with (select (E := JobResultOutbox) [] (outbox_options active_states n) d). rewrite Es, recover_expired; [|done|].
    + by apply recover_live.
    + intros r Hr. by destruct (In_d r Hr) as (_ & _ & X & Pr).
  - intros r Hr. destruct (In_d r Hr) as (L & A & X & _). repeat split; try done.
    + cbn. by apply Lk.
    + intros token r0. cbn. rewrite (Lk r Hr). intros [= <-] St. unfold recovered_result in St.
      by destruct (ob_LeaseExpiresAt r).
  - intros id N. cbn. rewrite recovered_map_lookup by done. destruct (List.find _ picked) as [r|] eqn:F; [|done].
    exfalso. apply N. apply find_some in F as [Hin E]. apply String.eqb_eq in E. rewrite <- E. by apply in_map.
  - done.
Qed.

(** A row in processing whose consumer is gone. *)
Lemma recovery_pass_exact_witness :
  let row := sample_row JobResultOutboxStateResultProcessingQueue "gone" (Some 0) in
  let d := sample_outbox row in
  exists d', recoverResultOutboxes active_states 10 (seqw d 7) = (Ok tt, seqw d' 7) /\
    db_outbox d' !! ob_ID row = Some (recovered_result 7 row) /\ disowned (ob_ID row) "gone" d'.
Proof.
  intros row d. assert (W : outbox_ok d).
  { apply sample_row_ok. right. right. left. split; [done|split; [by eexists|done]]. }
  destruct (recovery_pass_exact d 7 10 W eq_refl) as (picked & d' & E & Len & _ & P & _).
  assert (X : expired_rows (db_clock_micro d * Microsecond) d = [row]) by (vm_compute; reflexivity).
  rewrite X in Len. destruct picked as [|r [|r2 l]]; [discriminate Len| |discriminate Len].
  destruct (P r (or_introl eq_refl)) as (L & _ & _ & L' & D). unfold d, sample_outbox in L. cbn -[sample_row] in L.
  apply lookup_singleton_Some in L as [_ <-]. exists d'. split; [exact E|]. split; [exact L'|apply D].
Defined.
