(* ===== verification/Instant.v ===== *)
(** The controller of instant jobs: [pkg/apiserver/event/workflow/job/jobinstant]
    ([instant.go], [retry.go], [retry_resources.go], the creation budget of
    [scheduling.go]) and the observation of Jobs ([infrastructure/informer/job_observer.go]).

    A job with a retry policy is a sequence of attempts, each a Kubernetes Job of its
    own under the same name.  Which attempt it is, the UID of its Job and of the one it
    replaces are kept in the durable checkpoint; the pointer [cp] of the source, which
    its callees update, is passed and returned here.

    [json.Marshal] is a parameter.  [run_ctx] is the context
    with the checkpoint's deadline; the record of attempts ([KvSaved]) is noted when
    [SaveJobInfo] has returned. *)

From S2P Require Import Prelude GoStrings Config Json Quantity Policy Model Store Lease Budget Creation.
From S2P Require Import Signals Scheduler PodResources Retry Cleanup JobInfos Components Controller JobExec RunJob.
From S2P Require Import KubeJobs PodLogs DelayQueue.

Definition EvaluationDeadlineAnnotation : string := "eruun.io/evaluation-deadline".

#[export] Instance eta_checkpoint {Q} : Settable (InstantJobRetryCheckpoint Q) := fun cp =>
  Build_InstantJobRetryCheckpoint (rc_Kind cp) (rc_Version cp) (rc_Attempt cp) (rc_PreviousUID cp) (rc_CurrentUID cp)
    (rc_RetryAt cp) (rc_Deadline cp) (rc_Job cp) (rc_Runner cp).

(** An accepted checkpoint has a Job. *)
Definition cp_job {Q} (cp : InstantJobRetryCheckpoint Q) : Job Q := default job_zero (rc_Job cp).

(** ** retry_resources.go *)

Definition retryPodOwnedByJob {Q} (pod : Pod) (job : Job Q) : bool :=
  negb (str_empty (kj_UID job)) &&
  existsb (fun owner => (or_APIVersion owner =? "batch/v1")%string && (or_Kind owner =? "Job")%string &&
    (or_Name owner =? kj_Name job)%string && (or_UID owner =? kj_UID job)%string &&
    bool_decide (or_Controller owner = Some true)) (pod_OwnerReferences pod).

Definition oom_killed (status : ContainerStatus) : bool := bool_decide (cs_Terminated status = Some "OOMKilled"%string).

(** The containers of the Job's failed Pods that ran out of memory. *)
Definition oom_names {Q} (job : Job Q) (pods : list Pod) : gset string :=
  list_to_set (flat_map (fun pod =>
    if retryPodOwnedByJob pod job && (pod_Phase pod =? PodFailed)%string
    then map cs_Name (List.filter oom_killed (pod_InitContainerStatuses pod ++ pod_ContainerStatuses pod)) else []) pods).

Definition retryJobFailed {Q} (job : Job Q) : bool :=
  existsb (fun condition => (jc_Type condition =? JobFailed)%string && (jc_Status condition =? ConditionTrue)%string)
    (js_Conditions (kj_Status job)).

Section Instant.
Context {Q : Type} `{QuantityOps Q} `{KubernetesJson Q}.
Variable client : option (Cluster Q).
(** [c.ResourceWaiter] as a [JobObserver]. *)
Variable observer : option (JobCache Q).
Variable decode_job : Json -> option (Job Q).
Variable order : JobRetryPolicy Q -> list (string * Z).
Variable encode_checkpoint : InstantJobRetryCheckpoint Q -> result string.
Variable encode_payload : DelayJobPayload Q -> result string.
Variable scope : option string.
Variable error_text : error -> string.
Variable Ack : C unit.

Definition kack : K Q unit := in_job (exec Ack).

Definition save_info : K Q (result unit) :=
  kube! task := get_job in kdb (SaveJobInfo decode_job order encode_checkpoint scope task).

Definition stop_with (e : error) : error := ErrJoin ErrInfrastructureStop e.

Definition oomJobContainers (job : Job Q) : K Q (result (gset string)) :=
  if str_empty (kj_UID job) then kerr (Errorf "inspect OOM: job UID is required") else
  must! pods := kwrap (Wrapf "list OOM evidence for job") (kube_Pods client (kj_Namespace job) (kj_Name job)) in
  kok (oom_names job pods).

(** ** retry.go: ownership and the checkpoint *)

Definition ensureRetryWorkflowOwnership : K Q (result unit) :=
  kube! task := get_job in
  must! status := kdb (CurrentJobWorkflowOwnershipStatus task) in
  if (status =? StatusRunning)%string then kube! _ := note (KvOwned status) in kok tt
  else if (status =? StatusCancelled)%string then
    kube! _ := note (KvOwned status) in
    kube! _ := update_job (fun job => job <| jt_OwnerStatus := StatusCancelled |>) in kerr ContextCanceled
  else kerr (stop_with (Wrapf ("workflow is " ++ status) ErrWorkflowJobOwnershipChanged)).

Definition persistRetryCheckpoint (cp : InstantJobRetryCheckpoint Q) : K Q (result unit) :=
  match encode_checkpoint cp with
  | Err e => kerr (Wrapf "encode instant Job retry checkpoint" e)
  | Ok raw =>
      kube! _ := update_job (fun job => job <| jt_InternalInfo := raw |> <| jt_Attempt := rc_Attempt cp |>) in
      kube! _ := set_info (cp_job cp) in
      kube! _ := update_job (fun job => job <| jt_Status := StatusRunning |>) in
      must! _ := kwrap (fun e => stop_with (Wrapf "persist instant Job retry checkpoint" e)) save_info in
      kube! _ := note (KvSaved cp) in
      kube! _ := kack in
      kok tt
  end.

Definition managed_by (job : Job Q) : string := str_get (kj_Labels job) LabelManagedBy.

Definition retainRetryCheckpoint (cp : InstantJobRetryCheckpoint Q) (createdAt : option Z)
    : K Q (result (InstantJobRetryCheckpoint Q)) :=
  let job := cp_job cp in
  if bool_decide (is_Some (kj_TTLSecondsAfterFinished job)) && (managed_by job =? ManagedByEruun)%string then kok cp else
  must! job :=
    (match kj_TTLSecondsAfterFinished job with
     | Some _ => kok job
     | None =>
         must! createdAt := (match createdAt with Some t => kok t | None => kdb retryDatabaseTime end) in
         must! ttl := kwrap stop_with (kret (retryJobRetentionSeconds (rc_Deadline cp) (Some createdAt))) in
         kok (job <| kj_TTLSecondsAfterFinished := Some ttl |>)
     end) in
  let job := job <| kj_Labels := <[LabelManagedBy := ManagedByEruun]> (kj_Labels job) |> in
  let cp := cp <| rc_Job := Some job |> in
  must! _ := persistRetryCheckpoint cp in
  kok cp.

Definition attempt_annotation (cp : InstantJobRetryCheckpoint Q) : string := FormatUint (rc_Attempt cp) 10.

Definition newRetryCheckpoint (desired : Job Q) : K Q (result (option (InstantJobRetryCheckpoint Q))) :=
  kube! task := get_job in
  if negb (RetryJobMatchesTask (Some desired) task)
  then kerr (Errorf "jobRetryPolicy requires datastore and workflow execution identity") else
  must! now := kdb retryDatabaseTime in
  must! _ := ensureRetryWorkflowOwnership in
  must! existing := JobExists client (kj_Namespace desired) (kj_Name desired) in
  if match existing with
     | Some existing => negb (RunPolicyFromJob desired =? JobRunPolicyRecreate)%string && negb (job_completed existing)
     | None => false
     end
  then kerr (Errorf "enabling jobRetryPolicy on an existing unfinished Job requires runPolicy recreate") else
  kube! task := get_job in
  must! action := ApplyJobRunPolicy client desired (JobTypeForTask (Some task) JobDeployInstant) in
  match action with
  | RunPolicyActionSkip =>
      kube! _ := update_job (fun job => job <| jt_Status := StatusSkipped |>) in kok None
  | runPolicyActionCreate =>
      kube! task := get_job in
      if jt_Timeout task <=? 0 then kerr (Errorf "job timeout is not set") else
      let budget := i64 (now + i64 (jt_Timeout task * Second)) in
      let raw := annotation_of desired EvaluationDeadlineAnnotation in
      must! deadline :=
        (if negb (str_empty raw) && (jt_JobType task =? JobEval)%string then
           match ParseInt raw with
           | None => kerr (Errorf "invalid evaluation recovery deadline")
           | Some deadline =>
               if (deadline <=? now) || (i64 (budget + Second) <? deadline)
               then kerr (Errorf "invalid evaluation recovery deadline") else kok deadline
           end
         else kok budget) in
      must! ttl := kret (retryJobRetentionSeconds deadline (Some now)) in
      let job := match kj_TTLSecondsAfterFinished desired with
                 | Some t => if t <? ttl then desired <| kj_TTLSecondsAfterFinished := Some ttl |> else desired
                 | None => desired <| kj_TTLSecondsAfterFinished := Some ttl |>
                 end in
      let job := job <| kj_Annotations := <[AnnotationJobAttempt := "1"%string]> (kj_Annotations job) |> in
      let cp := Build_InstantJobRetryCheckpoint "instant_job_retry" 1 1 "" "" 0 deadline (Some job) None in
      must! _ := persistRetryCheckpoint cp in
      kok (Some cp)
  end.

Definition persistRetryAttemptUID (cp : InstantJobRetryCheckpoint Q) (live : Job Q)
    : K Q (result (InstantJobRetryCheckpoint Q)) :=
  if str_empty (kj_UID live) then kerr (stop_with (Errorf "created Job attempt has no UID")) else
  kube! _ := MarkResourceCreated ResourceJob (kj_Namespace live) (kj_Name live) in
  if (rc_CurrentUID cp =? kj_UID live)%string then kok cp else
  let cp := cp <| rc_CurrentUID := kj_UID live |> in
  must! _ := persistRetryCheckpoint cp in
  kok cp.

(** The execution whose Job is gone gives up its admission; only a first attempt that
    must not be repeated. *)
Definition markLostRetryExecution (task : JobTask) (cp : InstantJobRetryCheckpoint Q) (err : error) : error :=
  if str_empty (rc_CurrentUID cp) || (negb (jt_JobType task =? JobCommand)%string && negb (jt_JobType task =? JobEval)%string)
  then err else
  match RetryPolicyFromJob order (rc_Job cp) with
  | Ok (Some policy) =>
      if negb (OnOOM policy =? "stop")%string || negb (rc_Attempt cp =? 1) then err
      else ErrJoin ErrJobAdmissionRecoveryExecutionLost err
  | _ => err
  end.

Definition markAuthoritativeLostRetryExecution (task : JobTask) (cp : InstantJobRetryCheckpoint Q) (err : error) : error :=
  if negb (errors_is ErrJobExecutionIdentityChanged err) && negb (errors_is ErrNotFound err) then err
  else markLostRetryExecution task cp err.

Definition marked {A} (mark : JobTask -> error -> error) (m : K Q (result A)) : K Q (result A) :=
  kube! r := m in
  kube! task := get_job in
  kret (match r with Ok a => Ok a | Err e => Err (mark task e) end).

Definition retainLiveRetryAttempt (cp : InstantJobRetryCheckpoint Q) (live : Job Q)
    : K Q (result (InstantJobRetryCheckpoint Q)) :=
  kube! task := get_job in
  let changed := kerr (stop_with ErrJobExecutionIdentityChanged) in
  if negb (str_empty (rc_CurrentUID cp)) && negb (kj_UID live =? rc_CurrentUID cp)%string then changed else
  if str_empty (kj_UID live) || negb (RetryJobMatchesTask (Some live) task) then changed else
  if negb (str_empty (managed_by live)) && negb (managed_by live =? ManagedByEruun)%string then changed else
  must! cp := retainRetryCheckpoint cp (kj_CreationTimestamp live) in
  let ttl := kj_TTLSecondsAfterFinished (cp_job cp) in
  let retainTTL := match kj_TTLSecondsAfterFinished live with
                   | None => true
                   | Some t => t <? default 0 ttl
                   end in
  must! live :=
    (if retainTTL || negb (managed_by live =? ManagedByEruun)%string then
       must! _ := ensureRetryWorkflowOwnership in
       let updated := if retainTTL then live <| kj_TTLSecondsAfterFinished := ttl |> else live in
       let updated := updated <| kj_Labels := <[LabelManagedBy := ManagedByEruun]> (kj_Labels updated) |> in
       kwrap (fun e => stop_with (Wrapf "retain Job retry recovery evidence" e)) (kube_Update client updated)
     else kok live) in
  persistRetryAttemptUID cp live.

(** ** Waiting under the run's deadline *)

(** [select] on the context and a timer. *)
Definition wait_timer : K Q (result unit) :=
  kube! stopped := run_ctx in
  match stopped with
  | Some e => kerr e
  | None =>
      kube! ticks := next_ticks in
      match ticks with S _ => kok tt | O => kube! _ := expire in kerr DeadlineExceeded end
  end.

(** The loop of [waitRetryCreationBudget]. *)
Fixpoint wait_budget (ticks : nat) : K Q (result unit) :=
  must! _ := ensureRetryWorkflowOwnership in
  must! delay := kwrap stop_with (kdb ReserveResourceCreation) in
  if delay =? 0 then kube! _ := note KvPermit in ensureRetryWorkflowOwnership else
  kube! stopped := run_ctx in
  match stopped with
  | Some e => kerr e
  | None =>
      match ticks with
      | S ticks => wait_budget ticks
      | O => kube! _ := expire in kerr DeadlineExceeded
      end
  end.

Definition waitRetryCreationBudget : K Q (result unit) :=
  kube! task := get_job in
  if negb (jt_JobType task =? JobEval)%string && negb (jt_JobType task =? JobCommand)%string then kok tt else
  kube! ticks := next_ticks in wait_budget ticks.

Definition finished_phase (pod : Pod) : bool := (pod_Phase pod =? PodSucceeded)%string || (pod_Phase pod =? PodFailed)%string.

Definition previous_gone (cp : InstantJobRetryCheckpoint Q) : K Q (result bool) :=
  let previous := (cp_job cp) <| kj_UID := rc_PreviousUID cp |> in
  must! _ := ensureRetryWorkflowOwnership in
  must! live := kwrap stop_with (JobExists client (kj_Namespace previous) (kj_Name previous)) in
  match live with
  | Some live =>
      if negb (kj_UID live =? rc_PreviousUID cp)%string then kerr (stop_with ErrJobExecutionIdentityChanged) else kok false
  | None =>
      must! pods := kwrap (fun e => stop_with (Wrapf "wait previous Job pods" e))
        (kube_Pods client (kj_Namespace previous) (kj_Name previous)) in
      kok (forallb (fun pod => negb (retryPodOwnedByJob pod previous) || finished_phase pod) pods)
  end.

Definition waitPreviousRetryAttempt (cp : InstantJobRetryCheckpoint Q) : K Q (result unit) :=
  kube! ticks := next_ticks in poll_until ticks run_ctx expire (previous_gone cp).

(** ** An attempt *)

Definition deleteRetryJob (live : Job Q) : K Q (result unit) :=
  kube! owned := ensureRetryWorkflowOwnership in
  match (match owned with Err e => if errors_is ContextCanceled e then Ok tt else Err e | r => r end) with
  | Err e => kerr e
  | Ok _ =>
      kube! task := get_job in
      if str_empty (kj_UID live) || negb (RetryJobMatchesTask (Some live) task)
      then kerr (stop_with ErrJobExecutionIdentityChanged) else
      kube! r := kube_Delete client (kj_Namespace live) (kj_Name live) (kj_UID live)
        (if str_empty (kj_ResourceVersion live) then None else Some (kj_ResourceVersion live)) in
      match r with
      | Err e => if errors_is ErrNotFound e then kok tt
                 else kerr (stop_with (Wrapf "delete previous Job retry attempt" e))
      | Ok _ => kok tt
      end
  end.

Definition at_attempt (cp : InstantJobRetryCheckpoint Q) (live : Job Q) : bool :=
  (annotation_of live AnnotationJobAttempt =? attempt_annotation cp)%string.

(** The Job is not there: the attempt is created, unless it was before. *)
Definition create_attempt (cp : InstantJobRetryCheckpoint Q) : K Q (result (InstantJobRetryCheckpoint Q)) :=
  kube! task := get_job in
  if negb (str_empty (rc_CurrentUID cp)) then
    kerr (stop_with (markLostRetryExecution task cp (Errorf "job attempt disappeared; refusing to replay it"))) else
  must! _ := (if str_empty (rc_PreviousUID cp) then kok tt else waitPreviousRetryAttempt cp) in
  must! _ := ensureRetryWorkflowOwnership in
  must! cp := retainRetryCheckpoint cp None in
  must! _ := waitRetryCreationBudget in
  kube! r := kube_Create client (cp_job cp) in
  match r with
  | Ok created => persistRetryAttemptUID cp created
  | Err e =>
      if errors_is ErrAlreadyExists e then
        must! live := kwrap stop_with (kube_Get client (kj_Namespace (cp_job cp)) (kj_Name (cp_job cp))) in
        kube! task := get_job in
        if negb (RetryJobMatchesTask (Some live) task) || negb (at_attempt cp live)
        then kerr (stop_with ErrJobExecutionIdentityChanged)
        else persistRetryAttemptUID cp live
      else kerr (stop_with (Wrapf "create Job retry attempt" e))
  end.

(** The failed Job of the previous attempt. *)
Definition previous_attempt (cp : InstantJobRetryCheckpoint Q) (live : Job Q) : bool :=
  negb (str_empty (rc_PreviousUID cp)) && (kj_UID live =? rc_PreviousUID cp)%string &&
  (annotation_of live AnnotationJobAttempt =? FormatUint (u64 (rc_Attempt cp - 1)) 10)%string && retryJobFailed live.

Definition ensureRetryAttempt (cp : InstantJobRetryCheckpoint Q) : K Q (result (InstantJobRetryCheckpoint Q)) :=
  kube! stopped := run_ctx in
  match stopped with
  | Some e => kerr e
  | None =>
      must! _ :=
        (if 0 <? rc_RetryAt cp then
           must! now := kdb retryDatabaseTime in
           if 0 <? time_sub (rc_RetryAt cp) now then wait_timer else kok tt
         else kok tt) in
      must! _ := ensureRetryWorkflowOwnership in
      must! live := kwrap (fun e => stop_with (Wrapf "read Job retry attempt" e))
        (JobExists client (kj_Namespace (cp_job cp)) (kj_Name (cp_job cp))) in
      kube! task := get_job in
      match live with
      | None => create_attempt cp
      | Some live =>
          if negb (RetryJobMatchesTask (Some live) task)
          then kerr (stop_with (markLostRetryExecution task cp ErrJobExecutionIdentityChanged))
          else if at_attempt cp live
          then marked (fun task => markAuthoritativeLostRetryExecution task cp) (retainLiveRetryAttempt cp live)
          else if negb (previous_attempt cp live)
          then kerr (stop_with (markLostRetryExecution task cp
                 (Wrapf "refusing to replace unrecognized Job attempt" ErrJobExecutionIdentityChanged)))
          else must! _ := deleteRetryJob live in create_attempt cp
      end
  end.

(** ** informer/job_observer.go *)

(** The observer hands each state of its cache to [check] until that is done or fails,
    the context ends or the observer stops; [wakes] changes wake it before the deadline. *)
Fixpoint observe_jobs {S} (cache : JobCache Q) (namespace name : string) (check : S -> option (Job Q) -> K Q (result bool * S))
    (wakes : nat) (s : S) : K Q (result unit * S) :=
  let stopped_error := Errorf "kubernetes workload observer stopped" in
  kube! stopped := run_ctx in
  match stopped with
  | Some e => kret (Err e, s)
  | None =>
      kube! k := kget in
      if cache_stopped cache (kr_log k) then kret (Err stopped_error, s) else
      let snapshot := cache_get cache (kr_log k) namespace name in
      kube! _ := note (KvObserve namespace name snapshot) in
      match snapshot with
      | Err e => kret (Err (Wrapf "read observed Job" e), s)
      | Ok snapshot =>
          kube! r := check s snapshot in
          match r with
          | (Err e, s) => kret (Err e, s)
          | (Ok true, s) => kret (Ok tt, s)
          | (Ok false, s) =>
              kube! stopped := run_ctx in
              match stopped with
              | Some e => kret (Err e, s)
              | None =>
                  kube! k := kget in
                  if cache_stopped cache (kr_log k) then kret (Err stopped_error, s) else
                  match wakes with
                  | S wakes => observe_jobs cache namespace name check wakes s
                  | O => kube! _ := expire in kret (Err DeadlineExceeded, s)
                  end
              end
          end
      end
  end.

Definition WaitForJob {S} (cache : JobCache Q) (namespace name : string)
    (check : S -> option (Job Q) -> K Q (result bool * S)) (s : S) : K Q (result unit * S) :=
  if negb (cache_synced cache) then kret (Err (Errorf "kubernetes workload observer Job cache is not synchronized"), s) else
  if str_empty namespace || str_empty name
  then kret (Err (Errorf "Job observation requires namespace, name and a check"), s) else
  kube! wakes := next_ticks in observe_jobs cache namespace name check wakes s.

(** ** Waiting for an attempt *)

Record Watch := {
  wt_cp : InstantJobRetryCheckpoint Q;
  wt_terminal : option (Job Q);
  wt_confirmedVersion : string;
  wt_confirmedUID : string;
}.

Definition watched_attempt (task : JobTask) (cp : InstantJobRetryCheckpoint Q) (live : Job Q) : bool :=
  RetryJobMatchesTask (Some live) task && (kj_UID live =? rc_CurrentUID cp)%string && at_attempt cp live.

(** The Job has an outcome. *)
Definition attempt_settled (live : Job Q) : bool := job_completed live || retryJobFailed live.

(** A snapshot that needs no look at the server. *)
Definition ordinary (task : JobTask) (s : Watch) (snapshot : Job Q) : bool :=
  (watched_attempt task (wt_cp s) snapshot && negb (attempt_settled snapshot)) ||
  (negb (str_empty (kj_ResourceVersion snapshot)) && (kj_ResourceVersion snapshot =? wt_confirmedVersion s)%string &&
   (kj_UID snapshot =? wt_confirmedUID s)%string).

Definition check_attempt (s : Watch) (snapshot : option (Job Q)) : K Q (result bool * Watch) :=
  kube! task := get_job in
  if match snapshot with Some snapshot => ordinary task s snapshot | None => false end then kret (Ok false, s) else
  let cp := wt_cp s in
  kube! r := kube_Get client (kj_Namespace (cp_job cp)) (kj_Name (cp_job cp)) in
  match r with
  | Err e =>
      let err := Wrapf "confirm observed Job retry attempt" e in
      kret (Err (stop_with (if errors_is ErrNotFound e then markLostRetryExecution task cp err else err)), s)
  | Ok live =>
      let s := match snapshot with
               | Some snapshot => Build_Watch cp (wt_terminal s) (kj_ResourceVersion snapshot) (kj_UID snapshot)
               | None => s
               end in
      if negb (watched_attempt task cp live)
      then kret (Err (stop_with (markLostRetryExecution task cp ErrJobExecutionIdentityChanged)), s)
      else if attempt_settled live then
        kube! owned := ensureRetryWorkflowOwnership in
        match owned with
        | Err e => kret (Err e, s)
        | Ok _ => kret (Ok true, Build_Watch cp (Some live) (wt_confirmedVersion s) (wt_confirmedUID s))
        end
      else if negb (managed_by live =? ManagedByEruun)%string then
        kube! retained := marked (fun task => markAuthoritativeLostRetryExecution task cp) (retainLiveRetryAttempt cp live) in
        match retained with
        | Err e => kret (Err e, s)
        | Ok cp => kret (Ok false, Build_Watch cp (wt_terminal s) (wt_confirmedVersion s) (wt_confirmedUID s))
        end
      else kret (Ok false, s)
  end.

Definition waitRetryAttempt (cp : InstantJobRetryCheckpoint Q) : K Q (result (option (Job Q)) * InstantJobRetryCheckpoint Q) :=
  kube! owned := ensureRetryWorkflowOwnership in
  match owned with
  | Err e => kret (Err e, cp)
  | Ok _ =>
      match observer with
      | None => kret (Err (stop_with (Errorf "shared Kubernetes Job observer is not configured")), cp)
      | Some cache =>
          kube! r := WaitForJob cache (kj_Namespace (cp_job cp)) (kj_Name (cp_job cp)) check_attempt
            (Build_Watch cp None "" "") in
          let '(r, s) := r in
          match r with
          | Ok _ => kret (Ok (wt_terminal s), wt_cp s)
          | Err e =>
              kret (Err (if errors_is ContextCanceled e || errors_is DeadlineExceeded e then e else stop_with e), wt_cp s)
          end
      end
  end.

(** ** runWithRetryPolicy *)

(** An attempt that could not be observed to its end. *)
Definition stop_attempt (err : error) : K Q (result unit) :=
  if errors_is ErrJobAdmissionRecoveryExecutionLost err then
    kube! task := get_job in
    kube! cause := kdb (releaseLostJobAdmission (Q := Q) task err) in
    kerr (match cause with Ok c => c | Err c => c end)
  else kube! stopped := run_ctx in kerr (default err stopped).

Inductive AttemptEnd :=
  | Return (r : result unit)
  | Retry (cp : InstantJobRetryCheckpoint Q).

Definition return_err (e : error) : K Q AttemptEnd := kret (Return (Err e)).

(** What follows a failed attempt. *)
Definition next_attempt (policy : JobRetryPolicy Q) (cp : InstantJobRetryCheckpoint Q) (live : Job Q) (message : string)
    : K Q AttemptEnd :=
  if (OnOOM policy =? "stop")%string || (MaxRetries policy <? rc_Attempt cp)
  then return_err (StatusError StatusFailed (Errorf ("job failed after attempt: " ++ message))) else
  kube! containers := oomJobContainers live in
  match containers with
  | Err e => kube! stopped := run_ctx in return_err (default (stop_with e) stopped)
  | Ok containers =>
      if bool_decide (containers = ∅)
      then return_err (StatusError StatusFailed (Errorf ("non-OOM job failure: " ++ message))) else
      match (if (OnOOM policy =? "resize")%string
             then growOOMJobResources (order policy) (cp_job cp) policy containers else Ok (cp_job cp)) with
      | Err e => return_err (StatusError StatusFailed e)
      | Ok next =>
          kube! now := kdb retryDatabaseTime in
          match now with
          | Err e => return_err e
          | Ok now =>
              let attempt := u64 (rc_Attempt cp + 1) in
              let job := next <| kj_Annotations := <[AnnotationJobAttempt := FormatUint attempt 10]> (kj_Annotations next) |> in
              let cp := Build_InstantJobRetryCheckpoint (rc_Kind cp) (rc_Version cp) attempt (kj_UID live) ""
                (i64 (now + i64 (BackoffSeconds policy * Second))) (rc_Deadline cp) (Some job) None in
              kube! saved := persistRetryCheckpoint cp in
              match saved with
              | Err e => return_err e
              | Ok _ => kret (Retry cp)
              end
          end
      end
  end.

(** One turn of the loop. *)
Definition run_attempt (policy : JobRetryPolicy Q) (cp : InstantJobRetryCheckpoint Q) : K Q AttemptEnd :=
  kube! ensured := ensureRetryAttempt cp in
  match ensured with
  | Err e => kube! r := stop_attempt e in kret (Return r)
  | Ok cp =>
      kube! waited := waitRetryAttempt cp in
      let '(waited, cp) := waited in
      match waited with
      | Err e => kube! r := stop_attempt e in kret (Return r)
      | Ok live =>
          let live := default job_zero live in
          let '(status, message) := default (""%string, ""%string) (JobTerminalStatus live) in
          if (status =? StatusCompleted)%string then
            kube! _ := update_job (fun job => job <| jt_Status := StatusCompleted |> <| jt_Error := ""%string |>) in
            kret (Return (Ok tt))
          else next_attempt policy cp live message
      end
  end.

(** [None] when [turns] were not enough. *)
Fixpoint run_attempts (turns : nat) (policy : JobRetryPolicy Q) (cp : InstantJobRetryCheckpoint Q) : K Q (option (result unit)) :=
  match turns with
  | O => kret None
  | S turns =>
      kube! attempt := run_attempt policy cp in
      match attempt with
      | Return r => kret (Some r)
      | Retry cp => run_attempts turns policy cp
      end
  end.

(** The checkpoint to start from and its policy; [None] for a job that is skipped. *)
Definition start_checkpoint (desired : Job Q) (policy : option (JobRetryPolicy Q))
    : K Q (result (option (InstantJobRetryCheckpoint Q * option (JobRetryPolicy Q)))) :=
  kube! task := get_job in
  if negb (str_empty (jt_InternalInfo task)) then
    must! cp := kwrap stop_with (kret (DecodeInstantJobRetryCheckpoint decode_job order (Some task))) in
    must! policy := kwrap stop_with (kret (RetryPolicyFromJob order (rc_Job cp))) in
    kok (Some (cp, policy))
  else
    must! cp := newRetryCheckpoint desired in
    kok (option_map (fun cp => (cp, policy)) cp).

(** As many turns as the policy leaves attempts. *)
Definition turns_left (policy : JobRetryPolicy Q) (cp : InstantJobRetryCheckpoint Q) : nat :=
  S (Z.to_nat (MaxRetries policy + 1 - rc_Attempt cp)).

Definition runWithRetryPolicy (desired : Job Q) (policy : option (JobRetryPolicy Q)) : K Q (result unit) :=
  must! start := start_checkpoint desired policy in
  match start with
  | None => kok tt
  | Some (cp, policy) =>
      match policy with
      | None => kerr (Errorf "nil retry policy")
      | Some policy =>
          must! now := kdb retryDatabaseTime in
          (* [context.WithDeadline] *)
          kube! _ := (if time_sub (rc_Deadline cp) now <=? 0
                      then kube! stopped := job_ctx in match stopped with Some _ => kret tt | None => expire end
                      else kret tt) in
          kube! r := run_attempts (turns_left policy cp) policy cp in
          kret (default (Err (Errorf "more attempts than the policy allows")) r)
      end
  end.

(** ** instant.go *)

Definition EvaluationRunnerTerminal (record : option JobInfo) : result (string * bool) :=
  check! runner <- EvaluationRunnerCheckpoint decode_job order record;
  match fst runner with
  | None => Ok (""%string, false)
  | Some raw =>
      match (decode! l <- dec_struct raw;
             match json_field "terminal" l with
             | JNull => Some (""%string, false)
             | terminal =>
                 decode! t <- dec_struct terminal;
                 decode! outcome <- dec_string (json_field "outcome" t);
                 decode! complete <- dec_bool (json_field "collectionComplete" t);
                 Some (outcome, complete)
             end) with
      | None => Err (Errorf "decode evaluation runner terminal")
      | Some r => Ok r
      end
  end.

(** [json.Unmarshal] of an artifact's summary; not a JSON object: no. *)
Definition summary_complete (text : string) : bool :=
  match (decode! j <- json_parse text; decode! l <- dec_struct j; dec_bool (json_field "collectionComplete" l)) with
  | Some complete => complete
  | None => false
  end.

Definition source_artifact (task : JobTask) (artifact : JobArtifact) : bool :=
  (art_WorkspaceID artifact =? jt_WorkspaceID task)%string && (art_TaskID artifact =? jt_TaskID task)%string &&
  (art_ExecutionKey artifact =? jt_ExecutionKey task)%string && (art_Kind artifact =? "source")%string.

Definition evaluationSourceReady (task : JobTask) : M bool :=
  if str_empty (jt_WorkspaceID task) || str_empty (jt_TaskID task)
  then throw (Errorf "evaluation result collection identity is incomplete") else
  let! record := FindExistingJobInfo scope task in
  let! terminal := lift_result (EvaluationRunnerTerminal record) in
  let '(outcome, complete) := terminal in
  if str_empty outcome || negb complete ||
     ((jt_Status task =? StatusCompleted)%string && negb (outcome =? "succeeded")%string)
  then ret false else
  let! rows := List_ (E := JobArtifact)
    (Index (job_artifact_zero <| art_WorkspaceID := jt_WorkspaceID task |> <| art_TaskID := jt_TaskID task |>
              <| art_ExecutionKey := jt_ExecutionKey task |> <| art_Kind := "source"%string |>))
    (Build_ListOptions (Build_FilterOptions [] [] []) 1 1 []) in
  ret (match List.find (source_artifact task) rows with
       | Some artifact => summary_complete (art_Summary artifact)
       | None => false
       end).

(** [look] is [ctx.Err()]. *)
Definition allowEvaluationTerminalCleanup (look : K Q (option error)) : K Q bool :=
  kube! task := get_job in
  if negb (jt_JobType task =? JobEval)%string || negb (one_of [StatusCompleted; StatusFailed] (jt_Status task))
  then kret true else
  kube! stopped := look in
  match stopped with
  | Some _ => kret true
  | None =>
      kube! ready := kdb (evaluationSourceReady task) in
      kret (match ready with Ok b => b | Err _ => false end)
  end.

Definition cleanRetryAttempt : K Q (result unit) :=
  kube! task := get_job in
  must! cp := kret (DecodeInstantJobRetryCheckpoint decode_job order (Some task)) in
  match client with
  | None => kerr (Errorf "clean Job retry attempt: client is nil")
  | Some _ =>
      must! live := kube_Get client (kj_Namespace (cp_job cp)) (kj_Name (cp_job cp)) in
      if negb (str_empty (rc_CurrentUID cp)) && negb (kj_UID live =? rc_CurrentUID cp)%string
      then kerr ErrJobExecutionIdentityChanged else
      let wantAttempt :=
        if str_empty (rc_CurrentUID cp) && negb (str_empty (rc_PreviousUID cp)) && (kj_UID live =? rc_PreviousUID cp)%string
        then u64 (rc_Attempt cp - 1) else rc_Attempt cp in
      if negb (annotation_of live AnnotationJobAttempt =? FormatUint wantAttempt 10)%string
      then kerr ErrJobExecutionIdentityChanged
      else deleteRetryJob live
  end.

Variable c_Namespace : string.

(** The logs of a workspace's job are kept. *)
Definition collect_job_logs : K Q unit :=
  kube! k := kget in
  let task := jr_job (kr_run k) in
  if negb (IsWorkspaceJobType (jt_JobType task)) then kret tt else
  kube! logs := CollectJobPodLogs client c_Namespace (jt_Name task) in
  match logs with
  | Ok logs => if str_empty logs then kret tt else update_job (fun job => job <| jt_Info := logs |>)
  | Err _ => kret tt
  end.

Definition Clean : K Q unit :=
  kube! _ := collect_job_logs in
  kube! allowed := allowEvaluationTerminalCleanup job_ctx in
  if negb allowed then kret tt else
  kube! task := get_job in
  if negb (str_empty (jt_InternalInfo task)) then
    if one_of [StatusCompleted; StatusFailed] (jt_Status task) then kret tt
    else kube! _ := cleanRetryAttempt in kret tt
  else CleanCreatedBatchJobs client c_Namespace.

Definition SaveInfo : K Q (result unit) :=
  must! _ := save_info in
  kube! task := get_job in
  if one_of [StatusCompleted; StatusFailed] (jt_Status task) && negb (str_empty (jt_InternalInfo task)) then
    kube! allowed := allowEvaluationTerminalCleanup detached_ctx in
    if negb allowed then kok tt else kube! _ := cleanRetryAttempt in kok tt
  else kok tt.

Definition CleanCancelled : K Q (string * option error) :=
  kube! _ := collect_job_logs in
  kube! allowed := allowEvaluationTerminalCleanup detached_ctx in
  if negb allowed then kret (CancelledJobCleanupPreserved, None) else
  kube! deleted := DeleteCancelledBatchJob client decode_job order c_Namespace in
  kret (CancelledJobCleanupComplete, match deleted with Ok _ => None | Err e => Some e end).

(** The Job with a namespace, in place. *)
Definition with_namespace (job : Job Q) : Job Q :=
  if str_empty (kj_Namespace job) then job <| kj_Namespace := c_Namespace |> else job.

Definition distribute (job : Job Q) (startTime : Z) : K Q (result unit) :=
  kube! task := get_job in
  let payload := {|
    dp_ExecuteAt := startTime; dp_Namespace := kj_Namespace job;
    dp_JobType := JobTypeForTask (Some task) JobDeployInstant; dp_Job := Some job; dp_TaskID := jt_TaskID task;
    dp_ExecutionKey := jt_ExecutionKey task; dp_RunGeneration := jt_RunGeneration task;
    dp_RunToken := jt_RunToken task; dp_ServiceName := ResolveJobServiceName task; dp_TimeoutSeconds := jt_Timeout task |} in
  must! _ := PersistDelayJobCheckpoint decode_job order encode_checkpoint scope encode_payload payload in
  (* the notification of the queue is best effort *)
  kube! _ := kack in
  kok tt.

(** [run] when the Job starts at once. *)
Definition start_now (job : Job Q) : K Q (result unit) :=
  kube! task := get_job in
  must! _ := kdb (EnsureCurrentJobWorkflowOwnership task) in
  must! action := ApplyJobRunPolicy client job (JobTypeForTask (Some task) JobDeployInstant) in
  match action with
  | RunPolicyActionSkip =>
      kube! _ := update_job (fun job => job <| jt_Status := StatusSkipped |> <| jt_Error := ""%string |>) in
      kube! _ := kack in
      kok tt
  | runPolicyActionCreate => must! _ := CreateBatchJob client job in kok tt
  end.

Definition run : K Q (result unit) :=
  match client with
  | None => kerr no_client
  | Some _ =>
      kube! k := kget in
      match kr_info k with
      | None => kerr (Errorf "job info is not a Job")
      | Some job =>
          kube! task := get_job in
          let job := StampJobExecutionIdentity task (with_namespace job) in
          kube! _ := set_info job in
          kube! now := in_job now_unix in
          match StartTimeFromJob job with
          | Some startTime =>
              if now <? startTime then distribute job startTime else start_now job
          | None => start_now job
          end
      end
  end.
(** [Run] without a retry policy. *)
Definition run_once : K Q (option error) :=
  let failed e message :=
    kube! _ := update_job (fun job => ApplyJobError error_text job (Some e) message) in kret (Some e) in
  kube! ran := run in
  match ran with
  | Err e => failed e ""%string
  | Ok _ =>
      kube! task := get_job in
      if one_of [StatusSkipped; StatusDistributed] (jt_Status task)
      then kube! _ := update_job (fun job => job <| jt_Error := ""%string |>) in kret None else
      kube! waited := WaitBatchJob client error_text c_Namespace in
      let '(status, message, err) := waited in
      match err with
      | Some e => failed e message
      | None =>
          kube! _ := update_job (fun job =>
            job <| jt_Status := if str_empty status then StatusCompleted else status |> <| jt_Error := ""%string |>) in
          kret None
      end
  end.

(** A cancellation that won over the checkpoint: the parent's status decides. *)
Definition resolve_cancellation (err : option error) : K Q (option error) :=
  if negb (is_err ContextCanceled err) && negb (is_err ErrInfrastructureStop err) then kret err else
  kube! stop := in_job job_infrastructure_stop in
  if stop : bool then kret err else
  kube! owned := ensureRetryWorkflowOwnership in
  match owned with
  | Err e => if errors_is ContextCanceled e && negb (errors_is ErrInfrastructureStop e)
             then kret (Some ContextCanceled) else kret err
  | Ok _ => kret err
  end.

(** A completed evaluation needs its result. *)
Definition require_source (err : option error) : K Q (option error) :=
  match err with
  | Some _ => kret err
  | None =>
      kube! task := get_job in
      if (jt_JobType task =? JobEval)%string && (jt_Status task =? StatusCompleted)%string then
        kube! ready := kdb (evaluationSourceReady task) in
        kret (match ready with
              | Err e => Some (stop_with (Wrapf "verify evaluation result collection" e))
              | Ok false => Some (Errorf "evaluation runner completed without a collected result archive")
              | Ok true => None
              end)
      else kret None
  end.

Definition with_status (e : error) : error :=
  if errors_is ContextCanceled e then StatusError StatusCancelled e
  else if errors_is DeadlineExceeded e then StatusError StatusTimeout e
  else e.

(** [Run] with a retry policy. *)
Definition run_retrying (desired : Job Q) : K Q (option error) :=
  kube! task := get_job in
  let desired := StampJobExecutionIdentity task (with_namespace desired) in
  kube! _ := set_info desired in
  kube! r := (must! policy := kret (RetryPolicyFromJob order (Some desired)) in runWithRetryPolicy desired policy) in
  kube! err := resolve_cancellation (match r with Ok _ => None | Err e => Some e end) in
  kube! err := require_source err in
  match err with
  | None => kret None
  | Some e =>
      let e := with_status e in
      kube! _ := update_job (fun job => ApplyJobError error_text job (Some e) "") in
      kret (Some e)
  end.

Definition Run : K Q Ran :=
  kube! _ := update_job (fun job => job <| jt_Status := StatusRunning |> <| jt_Error := ""%string |>) in
  kube! _ := kack in
  kube! k := kget in
  kube! err :=
    (match kr_info k with
     | Some desired =>
         if negb (str_empty (annotation_of desired AnnotationJobRetryPolicy)) ||
            negb (str_empty (jt_InternalInfo (jr_job (kr_run k))))
         then run_retrying desired else run_once
     | None => run_once
     end) in
  kret (Returned err).
End Instant.
