(* ===== verification/KubeSpec.v ===== *)
(** The instant-job controller behind the interface of the job runner.

    [InstantJobCtl] packs the operations of [Instant.v] as the [JobController] that
    [RunJob.runJob] calls, and the theorem of this file discharges for it what the
    runner's theorems assume of controllers: [JobControllerLaws] of [RunJobSpec] and
    [JobControllerFrame] of [JobRunner].  Programs over a cluster are treated like those
    of the runner: [kkeeps] is [jkeeps] one level up. *)

From S2P Require Import Prelude GoStrings Config Json Quantity Policy Model Store Hoare Lease LeaseProtocol.
From S2P Require Import Budget Creation Signals Scheduler Admission AdmissionSpec AdmissionGuard PodResources Retry Cleanup.
From S2P Require Import JobInfos Components Controller ControllerSpec ControllerSafety JobExec RunJob RunJobSpec.
From S2P Require Import JobRunner KubeJobs PodLogs DelayQueue Instant.

(** ** Programs over a cluster *)

Definition kkeeps {Q A} (R : relation (KubeRun Q)) (m : K Q A) : Prop := forall k, R k (snd (m k)).

(** A relation on the run, whatever the requests. *)
Definition on_run {Q} (R : relation JobRun) (k k' : KubeRun Q) : Prop := R (kr_run k) (kr_run k').

#[export] Instance on_run_preorder {Q} R : PreOrder R -> PreOrder (on_run (Q := Q) R).
Proof. intros [Re Tr]. split; [intros k; apply Re|]. intros a b c. apply Tr. Qed.

Section KKeeps.
Context {Q : Type} (R : relation (KubeRun Q)) `{!PreOrder R}.

Lemma kkeeps_ret {A} (a : A) : kkeeps R (kret a).
Proof. intros k. reflexivity. Qed.

Lemma kkeeps_get : kkeeps R kget.
Proof. intros k. reflexivity. Qed.

Lemma kkeeps_job : kkeeps R get_job.
Proof. intros k. reflexivity. Qed.

Lemma kkeeps_bind {A B} (m : K Q A) (f : A -> K Q B) : kkeeps R m -> (forall a, kkeeps R (f a)) -> kkeeps R (kbind m f).
Proof. intros Hm Hf k. unfold kbind. specialize (Hm k). destruct (m k) as [a k']. etrans; [exact Hm|apply Hf]. Qed.

Lemma kkeeps_must {A B} (m : K Q (result A)) (f : A -> K Q (result B)) :
  kkeeps R m -> (forall a, kkeeps R (f a)) -> kkeeps R (kmust m f).
Proof. intros Hm Hf. apply kkeeps_bind; [done|]. intros [a|e]; [apply Hf|apply kkeeps_ret]. Qed.

Lemma kkeeps_wrap {A} f (m : K Q (result A)) : kkeeps R m -> kkeeps R (kwrap f m).
Proof. intros Hm. unfold kwrap. apply kkeeps_bind; [exact Hm|]. intros r. apply kkeeps_ret. Qed.

Lemma kkeeps_poll ticks look late (condition : K Q (result bool)) :
  kkeeps R look -> kkeeps R late -> kkeeps R condition -> kkeeps R (poll_until ticks look late condition).
Proof.
  intros Hl Ht Hc. induction ticks as [|ticks IH]; cbn [poll_until].
  all: apply kkeeps_bind; [done|]; intros [[|]|e]; [apply kkeeps_ret| |apply kkeeps_ret].
  all: apply kkeeps_bind; [done|]; intros [e|]; [apply kkeeps_ret|].
  - apply kkeeps_bind; [done|]. intros _. apply kkeeps_ret.
  - exact IH.
Qed.
End KKeeps.

Create HintDb kube.

(** Walk through a program that keeps a preorder. *)
Ltac kkeeps_tac :=
  cbv zeta;
  repeat match goal with
  | |- forall _, _ => intros ?
  | |- kkeeps _ _ => solve [eauto with kube]
  | |- kkeeps _ (kret _) => apply kkeeps_ret; apply _
  | |- kkeeps _ (kok _) => apply kkeeps_ret; apply _
  | |- kkeeps _ (kerr _) => apply kkeeps_ret; apply _
  | |- kkeeps _ kget => apply kkeeps_get; apply _
  | |- kkeeps _ get_job => apply kkeeps_job; apply _
  | |- kkeeps _ (kbind _ _) => apply kkeeps_bind; [apply _| |intros ?]
  | |- kkeeps _ (kmust _ _) => apply kkeeps_must; [apply _| |intros ?]
  | |- kkeeps _ (kwrap _ _) => apply kkeeps_wrap; [apply _|]
  | |- kkeeps _ (poll_until _ _ _ _) => apply kkeeps_poll; [apply _|..]
  | |- kkeeps _ (match ?x with _ => _ end) => destruct x
  end.

(** ** Database programs of the controller *)

(** Under every frame of the owner's row. *)
Definition framed {A} (m : M A) : Prop := forall P, OwnerFrame P -> guarantees P m.

Section Framed.
Context {Q : Type} `{QuantityOps Q} `{KubernetesJson Q}.

Lemma framed_database_time : framed retryDatabaseTime.
Proof. intros P F. unfold retryDatabaseTime. frame_step. Qed.

Lemma framed_ownership job : framed (CurrentJobWorkflowOwnershipStatus job).
Proof. intros P F. by apply frame_ownership_status. Qed.

Lemma framed_current job : framed (EnsureCurrentJobWorkflowOwnership job).
Proof. intros P F. unfold EnsureCurrentJobWorkflowOwnership, CurrentJobWorkflowOwnershipStatus, TaskByID. frame_step. Qed.

Lemma framed_save decode_job order encode scope job : framed (SaveJobInfo (Q := Q) decode_job order encode scope job).
Proof. intros P F. by apply frame_save. Qed.

Lemma framed_lost job cause : framed (releaseLostJobAdmission (Q := Q) job cause).
Proof. intros P F. by apply frame_lost. Qed.

Lemma framed_existing (desired existing : Job Q) : framed (validateExistingJobExecutionIdentity desired existing).
Proof. intros P F. unfold validateExistingJobExecutionIdentity, TaskByID. frame_step. Qed.

Lemma framed_count index f : framed (Count (E := JobInfo) index f).
Proof. intros P F. apply frame_read_only, read_only_Count. Qed.

Lemma framed_completed jobType (job : Job Q) : framed (jobCompletedInStore jobType job).
Proof.
  intros P F. unfold jobCompletedInStore. cbv zeta. destruct (str_empty jobType); [frame_step|]. destruct (_ || _); [frame_step|].
  apply frame_bind; [by apply framed_count|intros n; frame_step].
Qed.

Lemma framed_source decode_job order scope task : framed (evaluationSourceReady (Q := Q) decode_job order scope task).
Proof. intros P F. unfold evaluationSourceReady. frame_step. Qed.

Lemma framed_setting key conditions updates :
  framed (CompareAndSwapWithConditions (E := SystemSetting) key conditions updates).
Proof. intros P F. apply guarantees_cas. intros. by apply frame_other. Qed.

Lemma framed_budget_add budget : framed (Add (E := ResourceCreationBudget) budget).
Proof.
  intros P F. unfold Add. destruct (negb (primary_empty _)); [|frame_step].
  destruct (negb (str_empty _)); [|frame_step]. apply frame_statement; [exact F|]. intros t d. cbn.
  repeat (case_match; simplify_eq; try done).
Qed.

Lemma framed_budget_put budget : framed (Put (E := ResourceCreationBudget) budget).
Proof.
  intros P F. unfold Put. destruct (negb (primary_empty _)); [|frame_step].
  destruct (negb (str_empty _)); [|frame_step]. apply frame_statement; [exact F|]. intros t d. cbv zeta.
  by case_match.
Qed.

Lemma framed_reserve : framed ReserveResourceCreation.
Proof.
  intros P F. unfold ReserveResourceCreation. apply guarantees_wrap, frame_transaction.
  unfold reserve_creation, lock_policy_row, CompareAndSwap.
  apply frame_bind; [|intros _].
  { apply frame_bind; [by apply framed_setting|intros []; frame_step]. }
  apply frame_bind; [unfold LoadJobSchedulerPolicy; frame_step|intros policy].
  apply frame_bind; [unfold currentWorkflowDatabaseTime; frame_step|intros now].
  apply frame_bind; [frame_step|intros found].
  apply frame_bind; [frame_step|intros [budget create]].
  destruct (reserve_row now policy create budget) as [[budget' changed] wait]. destruct (negb changed); [frame_step|].
  destruct create; (apply frame_bind; [|intros ?; frame_step]).
  - by apply framed_budget_add.
  - by apply framed_budget_put.
Qed.
End Framed.

#[export] Hint Resolve framed_database_time framed_ownership framed_current framed_save framed_lost framed_existing
  framed_completed framed_source framed_reserve : kube.

(** ** The operations of the controller, walked through once *)

(** Changes of the job that leave its verdict and its durable identity. *)
Definition quiet_update (f : JobTask -> JobTask) : Prop := forall job,
  jt_Status (f job) = jt_Status job /\ jt_RunToken (f job) = jt_RunToken job /\
  jt_ExecutionKey (f job) = jt_ExecutionKey job.

Section Walk.
Context {Q : Type} `{QuantityOps Q} `{KubernetesJson Q}.
Context (observer : option (JobCache Q)).
Implicit Type client : option (Cluster Q).
Context (decode_job : Json -> option (Job Q)) (order : JobRetryPolicy Q -> list (string * Z)).
Context (encode_checkpoint : InstantJobRetryCheckpoint Q -> result string).
Context (encode_payload : DelayJobPayload Q -> result string) (scope : option string) (error_text : error -> string).
Context (Ack : C unit) (c_Namespace : string).

Context (R : relation JobRun) `{PreR : !PreOrder R}.
Hypothesis R_cause : jkeeps R job_cause.
Hypothesis R_ack : jkeeps R (exec Ack).
Hypothesis R_db : forall A (m : M A), framed m -> jkeeps R (jdb m).
Hypothesis R_quiet : forall f, quiet_update f -> jkeeps R (set_job f).

Abbreviation kR := (kkeeps (Q := Q) (on_run R)).

Lemma kR_job {A} (m : J A) : jkeeps R m -> kR (in_job m).
Proof. intros Hm k. unfold in_job, on_run. specialize (Hm (kr_run k)). by destruct (m (kr_run k)). Qed.

Lemma kR_db {A} (m : M A) : framed m -> kR (kdb m).
Proof. intros F. by apply kR_job, R_db. Qed.
Hint Resolve kR_db : kube.

Lemma kR_modify f : (forall k, kr_run (f k) = kr_run k) -> kR (kmodify f).
Proof. intros E k. unfold on_run. cbn. by rewrite E. Qed.

Lemma kR_note ev : kR (note ev).
Proof. by apply kR_modify. Qed.
Hint Resolve kR_note : kube.

Lemma kR_quiet f : quiet_update f -> kR (update_job f).
Proof. intros F. by apply kR_job, R_quiet. Qed.

Lemma kR_job_ctx : kR job_ctx.
Proof. unfold job_ctx. apply kkeeps_bind; [apply _|by apply kR_job|]. kkeeps_tac. Qed.
Hint Resolve kR_job_ctx : kube.

Lemma kR_expire : kR expire.
Proof. by apply kR_modify. Qed.
Hint Resolve kR_expire : kube.

Lemma kR_look : kR next_look.
Proof. intros k. unfold next_look, on_run. destruct (kr_looks k); reflexivity. Qed.
Hint Resolve kR_look : kube.

Lemma kR_ticks : kR next_ticks.
Proof. intros k. unfold next_ticks, on_run. destruct (kr_ticks k); reflexivity. Qed.
Hint Resolve kR_ticks : kube.

Lemma kR_run_ctx : kR run_ctx.
Proof. unfold run_ctx. kkeeps_tac. Qed.
Lemma kR_detached : kR detached_ctx.
Proof. unfold detached_ctx. kkeeps_tac. Qed.
Hint Resolve kR_run_ctx kR_detached : kube.

Lemma kR_kack : kR (kack Ack).
Proof. by apply kR_job. Qed.
Hint Resolve kR_kack : kube.

Lemma kR_Get client namespace name : kR (kube_Get client namespace name).
Proof. unfold kube_Get. kkeeps_tac. Qed.
Lemma kR_Create client job : kR (kube_Create client job).
Proof. unfold kube_Create. kkeeps_tac. Qed.
Lemma kR_Update client job : kR (kube_Update client job).
Proof. unfold kube_Update. kkeeps_tac. Qed.
Lemma kR_Delete client namespace name uid version : kR (kube_Delete client namespace name uid version).
Proof. unfold kube_Delete. kkeeps_tac. Qed.
Lemma kR_Pods client namespace name : kR (kube_Pods client namespace name).
Proof. unfold kube_Pods. kkeeps_tac. Qed.
Hint Resolve kR_Get kR_Create kR_Update kR_Delete kR_Pods : kube.

Lemma kR_foreground client namespace live : kR (deleteJobForeground client namespace live).
Proof. unfold deleteJobForeground. kkeeps_tac. Qed.
Hint Resolve kR_foreground : kube.

Lemma kR_owned : kR ensureRetryWorkflowOwnership.
Proof. unfold ensureRetryWorkflowOwnership. kkeeps_tac. by apply kR_quiet. Qed.
Hint Resolve kR_owned : kube.

Lemma kR_save_info : kR (save_info decode_job order encode_checkpoint scope).
Proof. unfold save_info. kkeeps_tac. Qed.
Hint Resolve kR_save_info : kube.

Lemma kR_deleteRetryJob client live : kR (deleteRetryJob client live).
Proof. unfold deleteRetryJob. kkeeps_tac. Qed.
Hint Resolve kR_deleteRetryJob : kube.

Lemma kR_cleanRetryAttempt client : kR (cleanRetryAttempt client decode_job order).
Proof. unfold cleanRetryAttempt. kkeeps_tac. Qed.
Hint Resolve kR_cleanRetryAttempt : kube.

Lemma kR_Pod client namespace name : kR (kube_Pod client namespace name).
Proof. unfold kube_Pod. kkeeps_tac. Qed.
Lemma kR_Logs client namespace pod container : kR (kube_Logs client namespace pod container).
Proof. unfold kube_Logs. kkeeps_tac. Qed.
Hint Resolve kR_Pod kR_Logs : kube.

Lemma kR_container client namespace owner pod container c :
  kR (collect_container client namespace owner pod container c).
Proof. unfold collect_container, ReadPodContainerLogsWithMode, confirm_pod. kkeeps_tac. Qed.
Hint Resolve kR_container : kube.

Lemma kR_containers client namespace owner pod containers c :
  kR (collect_containers client namespace owner pod containers c).
Proof. revert c. induction containers as [|x l IH]; intros c; cbn [collect_containers]; kkeeps_tac; apply IH. Qed.
Hint Resolve kR_containers : kube.

Lemma kR_pods client namespace owner pods c : kR (collect_pods client namespace owner pods c).
Proof.
  revert c. induction pods as [|pod pods IH]; intros c; cbn [collect_pods]; [kkeeps_tac|].
  destruct (match owner with Some job => negb (podOwnedByJob pod job) | None => false end); [apply IH|].
  apply kkeeps_bind; [apply _|apply kR_containers|]. intros c'. apply IH.
Qed.
Hint Resolve kR_pods : kube.

Lemma kR_logs client : kR (collect_job_logs client c_Namespace).
Proof. unfold collect_job_logs, CollectJobPodLogs, CollectJobPodLogsForJob. kkeeps_tac. by apply kR_quiet. Qed.
Hint Resolve kR_logs : kube.

Lemma kR_allow look : kR look -> kR (allowEvaluationTerminalCleanup decode_job order scope look).
Proof. intros L. unfold allowEvaluationTerminalCleanup. kkeeps_tac. Qed.

Lemma kR_refs deleteFn refs : (forall ns name, kR (deleteFn ns name)) -> kR (delete_refs c_Namespace deleteFn refs).
Proof. intros D. induction refs as [|ref refs IH]; cbn [delete_refs]; kkeeps_tac; done. Qed.

Lemma kR_clean_created client : kR (CleanCreatedBatchJobs client c_Namespace).
Proof.
  unfold CleanCreatedBatchJobs, CleanupNamespacedResources, ResourcesForCleanup. kkeeps_tac. apply kR_refs. kkeeps_tac.
Qed.
Hint Resolve kR_clean_created : kube.

Lemma kR_Clean client : kR (Clean client decode_job order scope c_Namespace).
Proof. unfold Clean. kkeeps_tac. by apply kR_allow, kR_job_ctx. Qed.

Lemma kR_SaveInfo client : kR (SaveInfo client decode_job order encode_checkpoint scope).
Proof. unfold SaveInfo. kkeeps_tac. by apply kR_allow, kR_detached. Qed.

Lemma kR_CleanCancelled client : kR (CleanCancelled client decode_job order scope c_Namespace).
Proof.
  unfold CleanCancelled, DeleteCancelledBatchJob, deleteCancelledKubernetesJob, waitForCancelledKubernetesResourceDeletion.
  kkeeps_tac. by apply kR_allow, kR_detached.
Qed.

(** [Run] sets the verdict. *)
Hypothesis R_set : forall f, jkeeps R (set_job f).

Lemma kR_update f : kR (update_job f).
Proof. by apply kR_job. Qed.
Hint Resolve kR_update : kube.

Lemma kR_info job : kR (set_info job).
Proof. unfold set_info. apply kkeeps_bind; [apply _|apply kR_update|]. intros _. by apply kR_modify. Qed.
Hint Resolve kR_info : kube.

Lemma kR_track ref : kR (track ref).
Proof. apply kR_modify. intros k. by destruct (existsb _ _). Qed.

Lemma kR_persist cp : kR (persistRetryCheckpoint decode_job order encode_checkpoint scope Ack cp).
Proof. unfold persistRetryCheckpoint. kkeeps_tac. Qed.
Hint Resolve kR_track kR_persist : kube.

Lemma kR_retain cp createdAt : kR (retainRetryCheckpoint decode_job order encode_checkpoint scope Ack cp createdAt).
Proof. unfold retainRetryCheckpoint. kkeeps_tac. Qed.
Hint Resolve kR_retain : kube.

Lemma kR_exists client namespace name : kR (JobExists client namespace name).
Proof. unfold JobExists. kkeeps_tac. Qed.
Hint Resolve kR_exists : kube.

Lemma kR_policy client job jobType : kR (ApplyJobRunPolicy client job jobType).
Proof.
  unfold ApplyJobRunPolicy, adoptReusableJobExecution, waitForJobUIDDeletion, jobUIDAbsent. kkeeps_tac.
Qed.
Hint Resolve kR_policy : kube.

Lemma kR_uid cp live : kR (persistRetryAttemptUID decode_job order encode_checkpoint scope Ack cp live).
Proof. unfold persistRetryAttemptUID, MarkResourceCreated. kkeeps_tac. Qed.
Hint Resolve kR_uid : kube.

Lemma kR_marked {A} mark (m : K Q (result A)) : kR m -> kR (marked mark m).
Proof. intros Hm. unfold marked. kkeeps_tac. Qed.

Lemma kR_retain_live client cp live : kR (retainLiveRetryAttempt client decode_job order encode_checkpoint scope Ack cp live).
Proof. unfold retainLiveRetryAttempt. kkeeps_tac. Qed.
Hint Resolve kR_retain_live : kube.

Lemma kR_budget : kR waitRetryCreationBudget.
Proof.
  unfold waitRetryCreationBudget. kkeeps_tac. rename a0 into ticks.
  induction ticks as [|ticks IH]; cbn [wait_budget]; kkeeps_tac; exact IH.
Qed.
Hint Resolve kR_budget : kube.

Lemma kR_previous client cp : kR (waitPreviousRetryAttempt client cp).
Proof. unfold waitPreviousRetryAttempt, previous_gone. kkeeps_tac. Qed.
Hint Resolve kR_previous : kube.

Lemma kR_create_attempt client cp : kR (create_attempt client decode_job order encode_checkpoint scope Ack cp).
Proof. unfold create_attempt. kkeeps_tac. Qed.
Hint Resolve kR_create_attempt : kube.

Lemma kR_timer : kR wait_timer.
Proof. unfold wait_timer. kkeeps_tac. Qed.
Hint Resolve kR_timer : kube.

Lemma kR_ensure client cp : kR (ensureRetryAttempt client decode_job order encode_checkpoint scope Ack cp).
Proof. unfold ensureRetryAttempt. kkeeps_tac. by apply kR_marked, kR_retain_live. Qed.
Hint Resolve kR_ensure : kube.

Lemma kR_check client s snapshot : kR (check_attempt client decode_job order encode_checkpoint scope Ack s snapshot).
Proof. unfold check_attempt. kkeeps_tac. by apply kR_marked, kR_retain_live. Qed.
Hint Resolve kR_check : kube.

Lemma kR_observe {S} cache namespace name (check : S -> option (Job Q) -> K Q (result bool * S)) wakes s :
  (forall s snapshot, kR (check s snapshot)) -> kR (observe_jobs cache namespace name check wakes s).
Proof. intros Hc. revert s. induction wakes as [|wakes IH]; intros s; cbn [observe_jobs]; kkeeps_tac; try done; apply IH. Qed.

Lemma kR_wait client cp : kR (waitRetryAttempt client observer decode_job order encode_checkpoint scope Ack cp).
Proof. unfold waitRetryAttempt, WaitForJob. kkeeps_tac. apply kR_observe, kR_check. Qed.
Hint Resolve kR_wait : kube.

Lemma kR_stop_attempt err : kR (stop_attempt (Q := Q) err).
Proof. unfold stop_attempt. kkeeps_tac. Qed.
Hint Resolve kR_stop_attempt : kube.

Lemma kR_next client policy cp live message :
  kR (next_attempt client decode_job order encode_checkpoint scope Ack policy cp live message).
Proof. unfold next_attempt, return_err, oomJobContainers. kkeeps_tac. Qed.
Hint Resolve kR_next : kube.

Lemma kR_attempts client turns policy cp :
  kR (run_attempts client observer decode_job order encode_checkpoint scope Ack turns policy cp).
Proof. revert cp. induction turns as [|turns IH]; intros cp; cbn [run_attempts]; [kkeeps_tac|]. unfold run_attempt. kkeeps_tac; apply IH. Qed.
Hint Resolve kR_attempts : kube.

Lemma kR_new client desired : kR (newRetryCheckpoint client decode_job order encode_checkpoint scope Ack desired).
Proof. unfold newRetryCheckpoint. kkeeps_tac. Qed.
Hint Resolve kR_new : kube.

Lemma kR_retrying_loop client desired policy :
  kR (runWithRetryPolicy client observer decode_job order encode_checkpoint scope Ack desired policy).
Proof. unfold runWithRetryPolicy, start_checkpoint. kkeeps_tac. Qed.
Hint Resolve kR_retrying_loop : kube.

Hypothesis R_now : jkeeps R now_unix.

Lemma kR_now : kR (in_job now_unix).
Proof. by apply kR_job. Qed.
Lemma kR_stop : kR (in_job job_infrastructure_stop).
Proof. apply kR_job. unfold job_infrastructure_stop. apply jkeeps_bind; [apply _|done|]. intros c. apply jkeeps_ret, _. Qed.
Hint Resolve kR_now kR_stop : kube.

Lemma kR_create_job client job : kR (CreateBatchJob client job).
Proof.
  unfold CreateBatchJob, CreateOrUpdateTrackedResource, CreateOrUpdateResource, MarkResourceCreated, MarkResourceObserved.
  kkeeps_tac.
Qed.
Hint Resolve kR_create_job : kube.

Lemma kR_wait_completion {S} client (matches : option (S -> Job Q -> bool * S)) ticks namespace name seen :
  kR (wait_completion client error_text matches ticks namespace name seen).
Proof.
  revert seen. induction ticks as [|ticks IH]; intros seen; cbn [wait_completion];
    unfold check_completion, jobSucceededOwnedPodsCompleted; kkeeps_tac; apply IH.
Qed.
Hint Resolve kR_wait_completion : kube.

Lemma kR_wait_job client : kR (WaitBatchJob client error_text c_Namespace).
Proof. unfold WaitBatchJob, WaitForJobCompletionMatching. kkeeps_tac. Qed.
Hint Resolve kR_wait_job : kube.

Lemma kR_start client : kR (run client decode_job order encode_checkpoint encode_payload scope Ack c_Namespace).
Proof. unfold run, start_now, distribute, PersistDelayJobCheckpoint. kkeeps_tac. Qed.
Hint Resolve kR_start : kube.

Lemma kR_Run client : kR (Run client observer decode_job order encode_checkpoint encode_payload scope error_text Ack c_Namespace).
Proof. unfold Run, run_retrying, resolve_cancellation, require_source, run_once. kkeeps_tac. Qed.
End Walk.

(** ** Controllers over a cluster *)

Section ClusterController.
Context {Q : Type} `{QuantityOps Q} `{KubernetesJson Q}.
Variable Ack : C unit.
(** The payload of a task. *)
Variable workload : JobTask -> option (Job Q).

(** What surrounds one call: the objects tracked so far, what ends its waits and what
    happened before at the cluster. *)
Record Call := {
  call_tracked : list ResourceRef;
  call_looks : list bool;
  call_ticks : list nat;
  call_log : list (KubeEvent Q);
}.

Definition in_cluster {A} (c : Call) (m : K Q A) : J A := fun j =>
  let '(a, k) := m (Build_KubeRun j (workload (jr_job j)) (call_tracked c) (call_looks c) false (call_ticks c) (call_log c)) in
  (a, kr_run k).

Lemma in_cluster_keeps {A} R c (m : K Q A) : kkeeps (on_run R) m -> jkeeps R (in_cluster c m).
Proof.
  intros Hm j. unfold in_cluster. match goal with |- context [m ?k] => specialize (Hm k); destruct (m k) as [a k'] end. exact Hm.
Qed.

(** The four operations of a controller. *)
Record Operations := {
  op_Run : K Q RunJob.Ran;
  op_Clean : K Q unit;
  op_SaveInfo : K Q (option error);
  op_CleanCancelled : K Q (string * option error);
}.

Definition ClusterController (ops : Operations) (run clean save cancelled : Call) : JobController := {|
  ctl_Run := in_cluster run (op_Run ops);
  ctl_Clean := in_cluster clean (op_Clean ops);
  ctl_SaveInfo := in_cluster save (op_SaveInfo ops);
  ctl_CleanCancelled := Some (in_cluster cancelled (op_CleanCancelled ops)) |}.

(** Any preorder that the steps of a controller keep, the operation keeps. *)
Definition walked {A} (m : K Q A) : Prop := forall R, PreOrder R ->
  jkeeps R job_cause -> jkeeps R (exec Ack) -> (forall A (m : M A), framed m -> jkeeps R (jdb m)) ->
  (forall f, quiet_update f -> jkeeps R (set_job f)) -> kkeeps (on_run R) m.

(** The same for [Run], which also sets the verdict and looks at the clock. *)
Definition walked_run {A} (m : K Q A) : Prop := forall R, PreOrder R ->
  jkeeps R job_cause -> jkeeps R (exec Ack) -> (forall A (m : M A), framed m -> jkeeps R (jdb m)) ->
  (forall f, jkeeps R (set_job f)) -> jkeeps R now_unix -> kkeeps (on_run R) m.

Record Walked (ops : Operations) : Prop := {
  run_walked : walked_run (op_Run ops);
  clean_walked : walked (op_Clean ops);
  save_walked : walked (op_SaveInfo ops);
  cancelled_walked : walked (op_CleanCancelled ops);
}.

Lemma walked_laws ops run clean save cancelled : Walked ops -> JobControllerLaws (ClusterController ops run clean save cancelled).
Proof.
  intros [Wr Wc Ws Wx].
  assert (Quiet : forall f, quiet_update f -> jkeeps quiet_step (set_job f)) by (intros f F; by apply set_job_quiet).
  assert (Db : forall A (m : M A), framed m -> jkeeps quiet_step (jdb m)).
  { intros A m _. apply kept_quiet_program, exec_kept. }
  assert (Cause : jkeeps quiet_step job_cause) by apply kept_quiet_program, cause_kept.
  assert (Acked : jkeeps quiet_step (exec Ack)) by apply kept_quiet_program, exec_kept.
  split; cbn [ctl_Run ctl_Clean ctl_SaveInfo ctl_CleanCancelled ClusterController].
  - apply in_cluster_keeps, Wr; try apply _; try (by apply quiet_silent_program); auto using set_job_silent with jobs.
  - apply in_cluster_keeps, Wc; auto; apply _.
  - apply in_cluster_keeps, Ws; auto; apply _.
  - intros m [= <-]. apply in_cluster_keeps, Wx; auto; apply _.
Qed.

Lemma walked_frame ops run clean save cancelled P : Walked ops -> OwnerFrame P ->
  JobControllerFrame P Ack (ClusterController ops run clean save cancelled).
Proof.
  intros [Wr Wc Ws Wx] F.
  assert (On : forall R, PreOrder R -> keeps R Ack -> (forall e e', outside (respecting P) e e' -> R e e') ->
    jkeeps (on_exec R) job_cause /\ jkeeps (on_exec R) (exec Ack) /\
    (forall A (m : M A), framed m -> jkeeps (on_exec R) (jdb m)) /\ (forall f, jkeeps (on_exec R) (set_job f)) /\
    jkeeps (on_exec R) now_unix).
  { intros R PR Ka Ko. repeat split.
    - by apply (on_cause P).
    - by apply on_exec_program.
    - intros A m Fm. apply (on_jdb P); [exact Ko|by apply Fm].
    - intros f j. unfold on_exec. reflexivity.
    - intros j. unfold on_exec. reflexivity. }
  split; cbn [ctl_Run ctl_Clean ctl_SaveInfo ctl_CleanCancelled ClusterController].
  1-3: intros R PR Ka Ko; destruct (On R PR Ka Ko) as (A1 & A2 & A3 & A4 & A5).
  - apply in_cluster_keeps, Wr; auto; apply _.
  - apply in_cluster_keeps, Wc; auto; apply _.
  - apply in_cluster_keeps, Ws; auto; apply _.
  - intros m [= <-] R PR Ka Ko. destruct (On R PR Ka Ko) as (A1 & A2 & A3 & A4 & A5).
    apply in_cluster_keeps, Wx; auto; apply _.
Qed.
End ClusterController.
Arguments Call Q : clear implicits.
Arguments Operations Q : clear implicits.

(** ** The controller of instant jobs *)

Section Controller.
Context {Q : Type} `{QuantityOps Q} `{KubernetesJson Q}.
Variable client : option (Cluster Q).
Variable observer : option (JobCache Q).
Variable decode_job : Json -> option (Job Q).
Variable order : JobRetryPolicy Q -> list (string * Z).
Variable encode_checkpoint : InstantJobRetryCheckpoint Q -> result string.
Variable encode_payload : DelayJobPayload Q -> result string.
Variable scope : option string.
Variable error_text : error -> string.
Variable Ack : C unit.
Variable workload : JobTask -> option (Job Q).

Definition instant_operations (c_Namespace : string) : Operations Q := {|
  op_Run := Run client observer decode_job order encode_checkpoint encode_payload scope error_text Ack c_Namespace;
  op_Clean := Clean client decode_job order scope c_Namespace;
  op_SaveInfo :=
    kube! r := SaveInfo client decode_job order encode_checkpoint scope in
    kret (match r with Ok _ => None | Err e => Some e end);
  op_CleanCancelled := CleanCancelled client decode_job order scope c_Namespace |}.

Definition NewInstantJobCtl (run clean save cancelled : Call Q) (task : JobTask) : JobController :=
  ClusterController workload (instant_operations (jt_Namespace task)) run clean save cancelled.

Lemma instant_walked c_Namespace : Walked Ack (instant_operations c_Namespace).
Proof.
  split; cbn [op_Run op_Clean op_SaveInfo op_CleanCancelled instant_operations].
  - intros R PR Cause Acked Db Set_ Now. apply kR_Run; auto.
  - intros R PR Cause Acked Db Quiet. apply kR_Clean; auto.
  - intros R PR Cause Acked Db Quiet. apply kkeeps_bind; [apply _|by apply kR_SaveInfo|]. intros r. apply kkeeps_ret, _.
  - intros R PR Cause Acked Db Quiet. apply kR_CleanCancelled; auto.
Qed.

(** The instant-job controller is a lawful controller.  Whatever the cluster
    answers, whatever other sessions commit and whenever it is cancelled, none of its
    operations touches the events of the runner; only [Run] changes the status of the
    job, and none its run token or execution key; and of the workflow's row the
    operations only change what the frames of the job runner allow. *)
Theorem instant_controller_lawful run clean save cancelled task :
  JobControllerLaws (NewInstantJobCtl run clean save cancelled task) /\
  forall P, OwnerFrame P -> JobControllerFrame P Ack (NewInstantJobCtl run clean save cancelled task).
Proof.
  split; [apply (walked_laws Ack), instant_walked|]. intros P F. apply walked_frame; [apply instant_walked|exact F].
Qed.
End Controller.

(** The controller of a cluster that refuses everything, under the frame of a task. *)
Lemma instant_controller_lawful_witness :
  let calm := Build_Call (Q := Z) [] [] [] [] in
  let refusing : Cluster Z := Build_Cluster (fun _ _ _ => Err ErrNotFound) (fun _ _ => Err ErrAlreadyExists) (fun _ _ => Err ErrNotFound)
    (fun _ _ _ _ _ => Some ErrNotFound) (fun _ _ _ => Ok []) (fun _ _ _ => Err ErrNotFound) (fun _ _ _ _ => Err ErrNotFound)
    (fun _ _ _ _ => None) in
  let controller := NewInstantJobCtl (Some refusing) None z_decode_job no_order (fun _ => Err ErrDatabase) (fun _ => Err ErrDatabase)
    None (fun _ => "failed"%string) (cret tt) (fun _ => None) calm calm calm calm sample_evaluation in
  JobControllerLaws controller /\ JobControllerFrame (task_protocol "t1") (cret tt) controller.
Proof.
  cbv zeta. split.
  - exact (proj1 (instant_controller_lawful _ _ _ _ _ _ _ _ _ _ _ _ _ _ _)).
  - apply (proj2 (instant_controller_lawful _ _ _ _ _ _ _ _ _ _ _ _ _ _ _)). apply task_protocol_frame.
Defined.
