(* ===== verification/InstantSpec.v ===== *)
(** What the attempts of an instant job may do to the cluster, in which order: the
    protocol of [Instant.runWithRetryPolicy].

    [Protocol] is what the checkpoint and the answers so far establish, [allowed] what
    may happen next and [after] what it establishes in turn; the theorem says that every
    run, whatever the cluster answers and other sessions commit, only does what is
    allowed.  The one law asked of the cluster is that updating an object keeps its UID. *)

From S2P Require Import Prelude GoStrings Config Json Quantity Policy Model Store Lease Budget Creation.
From S2P Require Import Signals Scheduler PodResources Retry Cleanup JobInfos Components Controller ControllerSpec.
From S2P Require Import JobExec RunJob RunJobSpec JobRunner KubeJobs DelayQueue Instant KubeSpec.

(** ** The protocol *)

Section Protocol.
Context {Q : Type} `{QuantityOps Q} `{KubernetesJson Q}.
Implicit Types (cp : InstantJobRetryCheckpoint Q) (live : Job Q).
(** The execution, and its retry policy. *)
Variable task : JobTask.
Variable policy : option (JobRetryPolicy Q).

Record Protocol := {
  pr_cp : option (InstantJobRetryCheckpoint Q);   (* the durable checkpoint *)
  pr_owner : option string;                       (* the task's status, if looked at since the last look at the Job *)
  pr_live : option (option (Job Q));              (* what is known of the Job: [Some None] that there is none *)
  pr_pods : option (list Pod);                    (* the Pods, if listed since *)
  pr_permit : bool;                               (* a creation permit is at hand *)
  pr_created : bool;                              (* a Create was sent for this attempt *)
  pr_claim : option string;                       (* the UID of a Job known to be this attempt's *)
}.

#[export] Instance eta_Protocol : Settable Protocol := fun p =>
  Build_Protocol (pr_cp p) (pr_owner p) (pr_live p) (pr_pods p) (pr_permit p) (pr_created p) (pr_claim p).

(** Nothing known but the checkpoint. *)
Definition protocol_start (cp : option (InstantJobRetryCheckpoint Q)) : Protocol :=
  Build_Protocol cp None None None false false None.

Definition looked (r : result (Job Q)) : option (option (Job Q)) :=
  match r with
  | Ok live => Some (Some live)
  | Err e => if errors_is ErrNotFound e then Some None else None
  end.

(** The Job carries the execution's identity and the attempt, and is not another than
    the one on record. *)
Definition claims cp live : bool :=
  RetryJobMatchesTask (Some live) task && at_attempt cp live &&
  (str_empty (rc_CurrentUID cp) || (kj_UID live =? rc_CurrentUID cp)%string).

Definition claimed (cp : option (InstantJobRetryCheckpoint Q)) (r : result (Job Q)) : option string :=
  match cp, r with
  | Some cp, Ok live => if claims cp live then Some (kj_UID live) else None
  | _, _ => None
  end.

Definition same_checkpoint_attempt (cp : option (InstantJobRetryCheckpoint Q)) cp' : bool :=
  match cp with Some cp => rc_Attempt cp' =? rc_Attempt cp | None => false end.

Definition after (p : Protocol) (ev : KubeEvent Q) : Protocol :=
  match ev with
  | KvGet _ _ r => p <| pr_owner := None |> <| pr_live := looked r |> <| pr_pods := None |> <| pr_permit := false |>
                     <| pr_claim := claimed (pr_cp p) r |>
  | KvPods _ _ pods => p <| pr_pods := match pods with Ok l => Some l | Err _ => None end |>
  | KvOwned status => p <| pr_owner := Some status |>
  | KvPermit => p <| pr_permit := true |> <| pr_owner := None |>
  | KvObserve _ _ _ | KvPod _ _ _ | KvLogs _ _ _ _ | KvDiscard _ _ _ _ _ | KvDeletePod _ _ _ _ | KvCron _ | KvAck _ _ _ | KvAdmitted _ => p
  | KvCreate _ r => p <| pr_owner := None |> <| pr_live := match r with Ok live => Some (Some live) | Err _ => None end |>
                      <| pr_pods := None |> <| pr_permit := false |> <| pr_created := true |>
                      <| pr_claim := match r with Ok live => Some (kj_UID live) | Err _ => None end |>
  | KvUpdate _ r => p <| pr_owner := None |> <| pr_live := match r with Ok live => Some (Some live) | Err _ => None end |>
                      <| pr_pods := None |>
  | KvDelete _ _ _ _ _ => p <| pr_owner := None |> <| pr_live := None |> <| pr_pods := None |> <| pr_claim := None |>
  | KvSaved cp => if same_checkpoint_attempt (pr_cp p) cp then p <| pr_cp := Some cp |> else protocol_start (Some cp)
  end.

(** The object named by the checkpoint. *)
Definition in_place (p : Protocol) (namespace name : string) : Prop :=
  forall cp, pr_cp p = Some cp -> namespace = kj_Namespace (cp_job cp) /\ name = kj_Name (cp_job cp).

(** Every Pod of the replaced attempt has ended. *)
Definition drained cp (pods : list Pod) : Prop :=
  Forall (fun pod => retryPodOwnedByJob pod ((cp_job cp) <| kj_UID := rc_PreviousUID cp |>) = true ->
                     finished_phase pod = true) pods.

(** A checkpoint of the same attempt: only its retention, labels and UID may differ. *)
Record same_attempt cp cp' : Prop := {
  sa_attempt : rc_Attempt cp' = rc_Attempt cp;
  sa_previous : rc_PreviousUID cp' = rc_PreviousUID cp;
  sa_retry_at : rc_RetryAt cp' = rc_RetryAt cp;
  sa_deadline : rc_Deadline cp' = rc_Deadline cp;
  sa_namespace : kj_Namespace (cp_job cp') = kj_Namespace (cp_job cp);
  sa_name : kj_Name (cp_job cp') = kj_Name (cp_job cp);
  sa_annotations : kj_Annotations (cp_job cp') = kj_Annotations (cp_job cp);
  sa_pod : kj_Pod (cp_job cp') = kj_Pod (cp_job cp);
}.

(** The next attempt: the current one is known to have failed out of memory, the policy
    allows another, and the deadline stays. *)
Definition next_checkpoint (p : Protocol) cp cp' : Prop :=
  rc_Attempt cp' = rc_Attempt cp + 1 /\ rc_PreviousUID cp' = rc_CurrentUID cp /\ rc_CurrentUID cp <> ""%string /\
  rc_CurrentUID cp' = ""%string /\ rc_Deadline cp' = rc_Deadline cp /\
  kj_Namespace (cp_job cp') = kj_Namespace (cp_job cp) /\ kj_Name (cp_job cp') = kj_Name (cp_job cp) /\
  (exists pol, policy = Some pol /\ OnOOM pol <> "stop"%string /\ rc_Attempt cp <= MaxRetries pol) /\
  pr_owner p = Some StatusRunning /\
  exists live pods, pr_live p = Some (Some live) /\ pr_pods p = Some pods /\ watched_attempt task cp live = true /\
    attempt_settled live = true /\ job_completed live = false /\ oom_names live pods <> ∅.

Definition save_allowed (p : Protocol) cp' : Prop :=
  match pr_cp p with
  | None => rc_Attempt cp' = 1 /\ rc_PreviousUID cp' = ""%string /\ rc_CurrentUID cp' = ""%string
  | Some cp =>
      (same_attempt cp cp' /\
       (rc_CurrentUID cp' = rc_CurrentUID cp \/
        (rc_CurrentUID cp = ""%string /\ rc_CurrentUID cp' <> ""%string /\ pr_claim p = Some (rc_CurrentUID cp')))) \/
      next_checkpoint p cp cp'
  end.

Definition allowed (p : Protocol) (ev : KubeEvent Q) : Prop :=
  match ev with
  | KvGet namespace name _ | KvObserve namespace name _ => in_place p namespace name
  | KvPods namespace name _ =>
      in_place p namespace name \/
      exists live, pr_live p = Some (Some live) /\ namespace = kj_Namespace live /\ name = kj_Name live
  | KvOwned status => status = StatusRunning \/ status = StatusCancelled
  | KvPermit => True
  | KvCreate job _ =>
      exists cp, pr_cp p = Some cp /\ job = cp_job cp /\ rc_CurrentUID cp = ""%string /\ pr_created p = false /\
        pr_owner p = Some StatusRunning /\ pr_live p = Some None /\
        (rc_PreviousUID cp <> ""%string -> exists pods, pr_pods p = Some pods /\ drained cp pods) /\
        (IsWorkspaceJobType (jt_JobType task) = true -> pr_permit p = true)
  | KvUpdate job _ =>
      exists live, pr_live p = Some (Some live) /\ kj_UID job = kj_UID live /\
        (forall cp, pr_cp p = Some cp ->
           pr_owner p = Some StatusRunning /\ claims cp live = true /\ kj_Annotations job = kj_Annotations live)
  | KvDelete namespace name uid _ _ =>
      uid <> ""%string /\ exists live, pr_live p = Some (Some live) /\ uid = kj_UID live /\ name = kj_Name live /\
        (forall cp, pr_cp p = Some cp ->
           namespace = kj_Namespace live /\ RetryJobMatchesTask (Some live) task = true /\
           previous_attempt cp live = true /\ pr_owner p <> None)
  | KvSaved cp => save_allowed p cp
  | KvPod _ _ _ | KvLogs _ _ _ _ | KvDiscard _ _ _ _ _ | KvDeletePod _ _ _ _ | KvCron _ | KvAck _ _ _ | KvAdmitted _ => False
  end.

Fixpoint accepts (p : Protocol) (evs : list (KubeEvent Q)) (q : Protocol) : Prop :=
  match evs with
  | [] => q = p
  | ev :: evs => allowed p ev /\ accepts (after p ev) evs q
  end.

Lemma accepts_snoc p evs ev q : accepts p evs q -> allowed q ev -> accepts p (evs ++ [ev]) (after q ev).
Proof.
  revert p. induction evs as [|e evs IH]; intros p.
  - cbn. by intros ->.
  - cbn. intros [A X] B. split; [done|by apply IH].
Qed.

(** ** The number of Jobs *)

Definition creates (evs : list (KubeEvent Q)) : nat :=
  length (List.filter (fun ev => match ev with KvCreate _ _ => true | _ => false end) evs).

(** Attempts begun: the current one counts once its Create was sent. *)
Definition begun (p : Protocol) : Z :=
  match pr_cp p with Some cp => rc_Attempt cp + (if pr_created p then 1 else 0) | None => 1 end.

Lemma begun_step p ev : allowed p ev ->
  begun p + (match ev with KvCreate _ _ => 1 | _ => 0 end) <= begun (after p ev).
Proof.
  destruct ev as [| job r | | | | | | | | | | | | | |cp']; cbn [allowed after]; try (unfold begun; cbn; lia).
  - intros (cp & E & _ & _ & F & _). unfold begun. cbn. rewrite E, F. lia.
  - unfold save_allowed, same_checkpoint_attempt, begun. destruct (pr_cp p) as [cp|] eqn:E.
    + intros A. destruct (Z.eqb_spec (rc_Attempt cp') (rc_Attempt cp)) as [S|N]; cbn; [lia|].
      destruct A as [[[S] _]|(S & _)]; [done|]. destruct (pr_created p); lia.
    + intros (A & _). cbn. lia.
Qed.

Lemma accepts_creates p evs q : accepts p evs q -> begun p + Z.of_nat (creates evs) <= begun q.
Proof.
  revert p. induction evs as [|ev evs IH]; intros p; [intros ->; cbn; lia|]. intros [A X]. apply IH in X.
  pose proof (begun_step p ev A) as B. unfold creates in *. destruct ev; cbn -[Z.of_nat] in *; lia.
Qed.

(** The attempts stay within the policy. *)
Definition within (p : Protocol) : Prop :=
  forall cp pol, pr_cp p = Some cp -> policy = Some pol -> rc_Attempt cp <= MaxRetries pol + 1.

Lemma accepts_within p evs q : (forall pol, policy = Some pol -> 0 <= MaxRetries pol) -> accepts p evs q -> within p -> within q.
Proof.
  intros Pol. revert p. induction evs as [|ev evs IH]; intros p; [by intros ->|]. intros [A X] W. apply (IH _ X). clear X IH.
  destruct ev; try exact W. intros cp' pol. cbn [after allowed] in *. unfold save_allowed, same_checkpoint_attempt in *.
  intros E Ep. assert (cp' = cp) as ->.
  { destruct (pr_cp p) as [cp0|]; [destruct (rc_Attempt cp =? rc_Attempt cp0)|]; cbn in E; congruence. }
  clear E. destruct (pr_cp p) as [cp0|] eqn:C.
  - destruct A as [[[S] _]|(S & _ & _ & _ & _ & _ & _ & (pol' & Ep' & _ & B) & _)].
    + rewrite S. by apply (W cp0).
    + rewrite Ep in Ep'. injection Ep' as <-. lia.
  - destruct A as [-> _]. specialize (Pol _ Ep). lia.
Qed.
End Protocol.

(** ** Runs that follow the protocol *)

(** The identity of an execution. *)
Record same_task (a b : JobTask) : Prop := {
  st_id : jt_TaskID b = jt_TaskID a;
  st_key : jt_ExecutionKey b = jt_ExecutionKey a;
  st_generation : jt_RunGeneration b = jt_RunGeneration a;
  st_type : jt_JobType b = jt_JobType a;
}.

#[export] Instance same_task_preorder : PreOrder same_task.
Proof. split; [by split|]. intros a b c [] []. split; congruence. Qed.

Lemma matches_same {Q} (live : option (Job Q)) a b : same_task a b -> RetryJobMatchesTask live b = RetryJobMatchesTask live a.
Proof. intros [A B C _]. unfold RetryJobMatchesTask. destruct live; [|done]. by rewrite A, B, C. Qed.

(** No request, and the same execution. *)
Record calm_step {Q} (k k' : KubeRun Q) : Prop := {
  calm_log : kr_log k' = kr_log k;
  calm_task : same_task (jr_job (kr_run k)) (jr_job (kr_run k'));
}.

#[export] Instance calm_step_preorder {Q} : PreOrder (calm_step (Q := Q)).
Proof. split; [by split|]. intros a b c [] []. split; [congruence|by etrans]. Qed.

Abbreviation calm := (kkeeps calm_step).
Abbreviation calm_for Q := (kkeeps (calm_step (Q := Q))).

Section Calm.
Context {Q : Type} `{QuantityOps Q} `{KubernetesJson Q}.

Lemma calm_job {A} (m : J A) : jkeeps job_kept m -> calm_for Q (in_job m).
Proof.
  intros Hm k. unfold in_job. specialize (Hm (kr_run k)). destruct (m (kr_run k)) as [a j].
  destruct Hm as [_ E]. cbn in E. split; cbn; [done|]. rewrite E. reflexivity.
Qed.

Lemma calm_db {A} (m : M A) : calm_for Q (kdb m).
Proof. apply calm_job, exec_kept. Qed.

Lemma calm_update f : (forall job, same_task job (f job)) -> calm_for Q (update_job f).
Proof. intros F k. split; [done|apply F]. Qed.

Lemma calm_info (job : Job Q) : calm (set_info job).
Proof. intros k. by split. Qed.

Lemma calm_track ref : calm_for Q (track ref).
Proof. intros k. unfold track. cbn. by destruct (existsb _ _). Qed.

Lemma calm_ticks : calm_for Q next_ticks.
Proof. intros k. unfold next_ticks. by destruct (kr_ticks k). Qed.

Lemma calm_expire : calm_for Q expire.
Proof. intros k. by split. Qed.

Lemma calm_look : calm_for Q next_look.
Proof. intros k. unfold next_look. by destruct (kr_looks k). Qed.

Lemma calm_kack Ack : calm_for Q (kack Ack).
Proof. apply calm_job, exec_kept. Qed.

Lemma calm_now : calm_for Q (in_job now_unix).
Proof. apply calm_job, now_kept. Qed.

Lemma calm_cause : calm_for Q (in_job job_cause).
Proof. apply calm_job, cause_kept. Qed.
End Calm.

#[export] Hint Resolve calm_db calm_info calm_track calm_ticks calm_expire calm_look calm_kack calm_now calm_cause : kube.

Lemma calm_job_ctx {Q} : calm_for Q job_ctx.
Proof. unfold job_ctx. kkeeps_tac. Qed.
#[export] Hint Resolve calm_job_ctx : kube.

Lemma calm_run_ctx {Q} : calm_for Q run_ctx.
Proof. unfold run_ctx. kkeeps_tac. Qed.
#[export] Hint Resolve calm_run_ctx : kube.

(** ** Runs that follow the protocol *)

Section Follows.
Context {Q : Type} `{QuantityOps Q} `{KubernetesJson Q}.
Variable task : JobTask.
Variable policy : option (JobRetryPolicy Q).
(** What happened before, and what is known at the start. *)
Variable L : list (KubeEvent Q).
Variable p0 : Protocol (Q := Q).
Implicit Type p : Protocol (Q := Q).

(** The run got to [p] by what is allowed. *)
Definition here p (k : KubeRun Q) : Prop :=
  (exists evs, kr_log k = (L ++ evs)%list /\ accepts task policy p0 evs p) /\ same_task task (jr_job (kr_run k)).

(** From [p], [m] gets to a [p'] that meets [Post] with its answer. *)
Definition follows {A} p (m : K Q A) (Post : A -> Protocol -> Prop) : Prop :=
  forall k, here p k -> exists p', Post (fst (m k)) p' /\ here p' (snd (m k)).

Definition okly {A} (Post : A -> Protocol (Q := Q) -> Prop) (r : result A) p : Prop :=
  match r with Ok a => Post a p | Err _ => True end.

Lemma follows_bind {A B} p (m : K Q A) (f : A -> K Q B) Mid Post :
  follows p m Mid -> (forall a p', Mid a p' -> follows p' (f a) Post) -> follows p (kbind m f) Post.
Proof.
  intros Hm Hf k Hk. unfold kbind. specialize (Hm k Hk). destruct (m k) as [a k']. destruct Hm as (p' & M & H').
  exact (Hf a p' M k' H').
Qed.

Lemma follows_must {A B} p (m : K Q (result A)) (f : A -> K Q (result B)) Mid Post :
  follows p m (okly Mid) -> (forall a p', Mid a p' -> follows p' (f a) (okly Post)) -> follows p (kmust m f) (okly Post).
Proof.
  intros Hm Hf. unfold kmust. refine (follows_bind _ _ _ _ _ Hm _). intros [a|e] p' M; [by apply Hf|].
  intros k Hk. by exists p'.
Qed.

Lemma follows_weaken {A} p (m : K Q A) Post Post' :
  (forall a p', Post' a p' -> Post a p') -> follows p m Post' -> follows p m Post.
Proof. intros X Hm k Hk. destruct (Hm k Hk) as (p' & M & H'). exists p'. auto. Qed.

Lemma follows_ret {A} p (a : A) (Post : A -> Protocol -> Prop) : Post a p -> follows p (kret a) Post.
Proof. intros X k Hk. by exists p. Qed.

Lemma follows_err {A} p e (Post : A -> Protocol -> Prop) : follows p (kerr e) (okly Post).
Proof. by apply follows_ret. Qed.

Lemma follows_wrap {A} p f (m : K Q (result A)) Post : follows p m (okly Post) -> follows p (kwrap f m) (okly Post).
Proof. intros Hm. unfold kwrap. refine (follows_bind _ _ _ _ _ Hm _). intros [a|e] p' M; by apply follows_ret. Qed.

(** A program without requests; [F] is what it answers. *)
Lemma follows_value {A} (F : A -> Prop) p (m : K Q A) (Post : A -> Protocol -> Prop) :
  calm m -> (forall k, F (fst (m k))) -> (forall a, F a -> Post a p) -> follows p m Post.
Proof.
  intros C V X k [(evs & E & A') S]. exists p. split; [apply X, V|]. destruct (C k) as [E' S'].
  split; [exists evs; by rewrite E'|by etrans].
Qed.

Lemma follows_calm {A} p (m : K Q A) (Post : A -> Protocol -> Prop) : calm m -> (forall a, Post a p) -> follows p m Post.
Proof. intros C X. by apply (follows_value (fun _ => True)). Qed.

Lemma follows_calm_bind {A B} p (m : K Q A) (f : A -> K Q B) Post :
  calm m -> (forall a, follows p (f a) Post) -> follows p (kbind m f) Post.
Proof. intros C X. apply (follows_bind _ _ _ (fun _ p' => p' = p)); [by apply follows_calm|]. by intros a p' ->. Qed.

Lemma follows_calm_must {A B} p (m : K Q (result A)) (f : A -> K Q (result B)) Post :
  calm m -> (forall a, follows p (f a) (okly Post)) -> follows p (kmust m f) (okly Post).
Proof. intros C X. unfold kmust. apply follows_calm_bind; [done|]. intros [a|e]; [apply X|by apply follows_ret]. Qed.

Lemma follows_job {A} p (f : JobTask -> K Q A) Post :
  (forall job, same_task task job -> follows p (f job) Post) -> follows p (kbind get_job f) Post.
Proof. intros X k Hk. apply (X _ (proj2 Hk) k Hk). Qed.

Lemma follows_get {A} p (f : KubeRun Q -> K Q A) Post : (forall k, follows p (f k) Post) -> follows p (kbind kget f) Post.
Proof. intros X k Hk. exact (X k k Hk). Qed.

Lemma follows_note p ev (Post : unit -> Protocol -> Prop) : allowed task policy p ev -> Post tt (after task p ev) ->
  follows p (note ev) Post.
Proof.
  intros A X k [(evs & E & Acc) S]. exists (after task p ev). split; [done|]. split; [|exact S].
  exists (evs ++ [ev])%list. split; [cbn; by rewrite E, app_assoc|by apply accepts_snoc].
Qed.

Lemma follows_note_bind {A} p ev (f : unit -> K Q A) Post : allowed task policy p ev -> follows (after task p ev) (f tt) Post ->
  follows p (kbind (note ev) f) Post.
Proof. intros A' X. apply (follows_bind _ _ _ (fun _ p' => p' = after task p ev)); [by apply follows_note|]. by intros [] p' ->. Qed.

Lemma follows_poll (I : Protocol -> Prop) (Post : Protocol -> Prop) ticks look late (condition : K Q (result bool)) p :
  calm look -> calm late ->
  (forall p, I p -> follows p condition (okly (fun b p' => if b : bool then Post p' else I p'))) ->
  I p -> follows p (poll_until ticks look late condition) (okly (fun _ => Post)).
Proof.
  intros Cl Ct Hc. revert p. induction ticks as [|ticks IH]; intros p Ip; cbn [poll_until].
  all: apply (follows_bind _ _ _ _ _ (Hc p Ip)); intros [[|]|e] p' M; [by apply follows_ret| |apply follows_err].
  all: apply follows_calm_bind; [done|]; intros [e|]; [apply follows_err|].
  - apply follows_calm_bind; [done|]. intros _. apply follows_err.
  - by apply IH.
Qed.
End Follows.
