(* ===== verification/RetryProtocol.v ===== *)
(** The attempts of an instant job follow the protocol of [InstantSpec]: one lemma per
    operation of [Instant.v], composed as the code composes them, and the theorems on
    [runWithRetryPolicy]. *)

From S2P Require Import Prelude GoStrings Config Json Quantity Policy Model Store Hoare Lease Budget Creation.
From S2P Require Import Signals Scheduler PodResources Retry Cleanup JobInfos Components Controller ControllerSpec.
From S2P Require Import JobExec RunJob RunJobSpec JobRunner KubeJobs DelayQueue Instant KubeSpec InstantSpec.

(** An ownership that cannot be established is not a cancellation. *)
Lemma get_error {E K} `{Entity E K} key w e w' : Get (E := E) key w = (Err e, w') -> errors_is ContextCanceled e = false.
Proof.
  unfold Get. destruct (negb _); [|by intros [= <- _]]. destruct (negb _); [|by intros [= <- _]].
  unfold statement. destruct (w_env w) as [|ev es]; [|destruct ev]; cbv zeta.
  3: by intros [= <- _].
  all: destruct (_ !! key); by intros [= <- _].
Qed.

Lemma ownership_error job w e w' :
  CurrentJobWorkflowOwnershipStatus job w = (Err e, w') -> errors_is ContextCanceled e = false.
Proof.
  unfold CurrentJobWorkflowOwnershipStatus. destruct (_ && _); [done|]. cbv zeta.
  destruct (_ || _); [by intros [= <- _]|]. unfold bind, try, TaskByID.
  destruct (Get _ w) as [[q|x] w1] eqn:G.
  - destruct (_ || _); by intros [= <- _].
  - intros [= <- _]. apply get_error in G. cbn. by rewrite G.
Qed.

Section Operations.
Context {Q : Type} `{QuantityOps Q} `{KubernetesJson Q}.
Variable client : option (Cluster Q).
Variable observer : option (JobCache Q).
Variable decode_job : Json -> option (Job Q).
Variable order : JobRetryPolicy Q -> list (string * Z).
Variable encode_checkpoint : InstantJobRetryCheckpoint Q -> result string.
Variable scope : option string.
Variable Ack : C unit.
Variables (task : JobTask) (policy : option (JobRetryPolicy Q)).
Variables (L : list (KubeEvent Q)) (p0 : Protocol (Q := Q)).
(** Updating an object keeps its UID. *)
Hypothesis update_keeps : forall cluster log job job', client = Some cluster ->
  on_update cluster log job = Ok job' -> kj_UID job' = kj_UID job.

Implicit Types (p : Protocol (Q := Q)) (cp : InstantJobRetryCheckpoint Q) (live : Job Q).
Abbreviation follows := (follows task policy L p0).
Abbreviation after := (after task).
Abbreviation allowed := (allowed task policy).

(** ** Requests *)

Lemma kdb_value {A} (F : result A -> Prop) (m : M A) k : (forall w r w', m w = (r, w') -> F r) -> F (fst (kdb (Q := Q) m k)).
Proof.
  intros X. unfold kdb, in_job, jdb, exec, db. destruct (m (ex_world (jr_exec (kr_run k)))) as [r w'] eqn:E. cbn. by eapply X.
Qed.

Lemma follows_kdb {A} (F : result A -> Prop) p (m : M A) Post :
  (forall w r w', m w = (r, w') -> F r) -> (forall r, F r -> Post r p) -> follows p (kdb m) Post.
Proof.
  intros X Y. apply (follows_value _ _ _ _ (fun r => F r)); [apply calm_db| |exact Y]. intros k. by apply kdb_value.
Qed.

Lemma follows_owned p : follows p ensureRetryWorkflowOwnership (fun r p' =>
  match r with
  | Ok _ => p' = p <| pr_owner := Some StatusRunning |>
  | Err e => errors_is ContextCanceled e = true -> p' = p <| pr_owner := Some StatusCancelled |>
  end).
Proof.
  unfold ensureRetryWorkflowOwnership. apply follows_job. intros job Same. unfold kmust.
  apply (follows_bind _ _ _ _ _ _ _ (fun r p' => p' = p /\ forall e, r = Err e -> errors_is ContextCanceled e = false)).
  { apply (follows_kdb (fun r => forall e, r = Err e -> errors_is ContextCanceled e = false)); [|done].
    intros w r w' E e ->. by eapply ownership_error. }
  intros [status|e] p' [-> N]; [|apply follows_ret; by rewrite N by done].
  destruct (String.eqb_spec status StatusRunning) as [->|_].
  { apply follows_note_bind; [by left|]. by apply follows_ret. }
  destruct (String.eqb_spec status StatusCancelled) as [->|_].
  - apply follows_note_bind; [by right|]. apply follows_calm_bind; [by apply calm_update|]. intros []. by apply follows_ret.
  - by apply follows_ret.
Qed.

Lemma follows_owned_must {B} p (f : unit -> K Q (result B)) Post :
  follows (p <| pr_owner := Some StatusRunning |>) (f tt) (okly Post) -> follows p (kmust ensureRetryWorkflowOwnership f) (okly Post).
Proof.
  intros X. refine (follows_must _ _ _ _ _ _ _ (fun _ p' => p' = p <| pr_owner := Some StatusRunning |>) _ _ _).
  - eapply follows_weaken; [|apply follows_owned]. intros [[]|e] p' E; [exact E|done].
  - intros [] p' ->. exact X.
Qed.

Definition seen p live : Protocol := after p (KvGet "" "" (Ok live)).
Definition missing p : Protocol := after p (KvGet "" "" (Err ErrNotFound)).

Lemma follows_Get p namespace name : in_place p namespace name -> follows p (kube_Get client namespace name) (fun r p' =>
  match r with
  | Ok live => p' = seen p live
  | Err e => errors_is ErrNotFound e = true -> p' = missing p
  end).
Proof.
  intros I. unfold kube_Get. apply follows_get. intros k. case client; [intros cluster|by apply follows_ret].
  apply follows_note_bind; [exact I|]. apply follows_ret. destruct (on_get _ _ _ _) as [live|e]; [done|].
  intros E. unfold missing, after. cbn. rewrite E. unfold claimed. by destruct (pr_cp p).
Qed.

Lemma follows_exists p namespace name : in_place p namespace name ->
  follows p (JobExists client namespace name) (okly (fun o p' =>
    match o with Some live => p' = seen p live | None => p' = missing p end)).
Proof.
  intros I. unfold JobExists. case_eq client; [intros cluster C|intros _; apply follows_err]. rewrite <- C.
  eapply follows_bind; [by apply follows_Get|]. intros [live|e] p'; cbn beta iota.
  - intros ->. by apply follows_ret.
  - intros E. destruct (errors_is ErrNotFound e); [|apply follows_err]. apply follows_ret. by apply E.
Qed.

(** ** The checkpoint *)

Lemma calm_save_info : calm_for Q (save_info decode_job order encode_checkpoint scope).
Proof. unfold save_info. kkeeps_tac. Qed.

Lemma follows_persist p cp : save_allowed task policy p cp ->
  follows p (persistRetryCheckpoint decode_job order encode_checkpoint scope Ack cp)
    (okly (fun _ p' => p' = after p (KvSaved cp))).
Proof.
  intros A. unfold persistRetryCheckpoint. destruct (encode_checkpoint cp) as [raw|e]; [|apply follows_err].
  apply follows_calm_bind; [by apply calm_update|]. intros _. apply follows_calm_bind; [apply calm_info|]. intros _.
  apply follows_calm_bind; [by apply calm_update|]. intros _.
  apply follows_calm_must; [apply kkeeps_wrap, calm_save_info; apply _|]. intros _.
  apply follows_note_bind; [exact A|]. apply follows_calm_bind; [apply calm_kack|]. intros _. by apply follows_ret.
Qed.

#[local] Instance same_attempt_preorder : PreOrder (same_attempt (Q := Q)).
Proof. split; [by split|]. intros a b c [] []. split; congruence. Qed.

(** A record of the attempt under way. *)
Lemma follows_persist_same p cp cp' : pr_cp p = Some cp -> same_attempt cp cp' ->
  (rc_CurrentUID cp' = rc_CurrentUID cp \/
   (rc_CurrentUID cp = ""%string /\ rc_CurrentUID cp' <> ""%string /\ pr_claim p = Some (rc_CurrentUID cp'))) ->
  follows p (persistRetryCheckpoint decode_job order encode_checkpoint scope Ack cp')
    (okly (fun _ p' => p' = p <| pr_cp := Some cp' |>)).
Proof.
  intros E S U. eapply follows_weaken; [|apply follows_persist].
  - intros [[]|e] p'; [|done]. cbn. rewrite E. cbn. rewrite (sa_attempt _ _ S), Z.eqb_refl. done.
  - unfold save_allowed. rewrite E. left. auto.
Qed.

(** The checkpoint on record. *)
Lemma on_record p cp : pr_cp p = Some cp -> p <| pr_cp := Some cp |> = p.
Proof. destruct p. cbn. by intros ->. Qed.

Lemma follows_retain p cp createdAt : pr_cp p = Some cp ->
  follows p (retainRetryCheckpoint decode_job order encode_checkpoint scope Ack cp createdAt)
    (okly (fun cp' p' => p' = p <| pr_cp := Some cp' |> /\ same_attempt cp cp' /\ rc_CurrentUID cp' = rc_CurrentUID cp)).
Proof.
  intros E. unfold retainRetryCheckpoint. cbv zeta. destruct (_ && _).
  { apply follows_ret. split; [by rewrite (on_record _ _ E)|done]. }
  apply (follows_must _ _ _ _ _ _ _ (fun job p' => p' = p /\
    exists ttl, job = (cp_job cp) <| kj_TTLSecondsAfterFinished := ttl |>)).
  { destruct (kj_TTLSecondsAfterFinished (cp_job cp)) as [t|] eqn:T.
    - apply follows_ret. split; [done|]. exists (Some t). destruct (cp_job cp). cbn in *. by rewrite T.
    - apply follows_calm_must; [destruct createdAt; [apply kkeeps_ret; apply _|apply calm_db]|]. intros t.
      apply follows_calm_must; [apply kkeeps_wrap; [apply _|apply kkeeps_ret; apply _]|]. intros ttl. apply follows_ret. split; [done|by exists (Some ttl)]. }
  intros job p' [-> [ttl ->]]. refine (follows_must _ _ _ _ _ _ _ _ _ (follows_persist_same _ cp _ E _ _) _).
  - by split.
  - by left.
  - intros _ p' ->. by apply follows_ret.
Qed.

Lemma follows_uid p cp live : pr_cp p = Some cp ->
  (rc_CurrentUID cp = ""%string -> pr_claim p = Some (kj_UID live)) -> (rc_CurrentUID cp = ""%string \/ rc_CurrentUID cp = kj_UID live) ->
  follows p (persistRetryAttemptUID decode_job order encode_checkpoint scope Ack cp live)
    (okly (fun cp' p' => p' = p <| pr_cp := Some cp' |> /\ same_attempt cp cp' /\
       rc_CurrentUID cp' = kj_UID live /\ rc_CurrentUID cp' <> ""%string)).
Proof.
  intros E C U. unfold persistRetryAttemptUID. destruct (str_empty (kj_UID live)) eqn:N; [apply follows_err|].
  apply str_empty_false in N. apply follows_calm_bind; [apply calm_track|]. intros _.
  destruct (String.eqb_spec (rc_CurrentUID cp) (kj_UID live)) as [Eq|Ne].
  - apply follows_ret. split; [by rewrite (on_record _ _ E)|]. by rewrite Eq.
  - destruct U as [U|]; [|done]. refine (follows_must _ _ _ _ _ _ _ _ _ (follows_persist_same _ cp _ E _ _) _).
    + by split.
    + right. auto.
    + intros _ p' ->. by apply follows_ret.
Qed.

(** ** The live Job *)

(** The attempt's Job is known by its UID. *)
Definition ready cp p : Prop := pr_cp p = Some cp /\ rc_CurrentUID cp <> ""%string.

Lemma follows_update p live job : pr_live p = Some (Some live) -> kj_UID job = kj_UID live ->
  (forall cp, pr_cp p = Some cp -> pr_owner p = Some StatusRunning /\ claims task cp live = true /\ kj_Annotations job = kj_Annotations live) ->
  follows p (kube_Update client job) (okly (fun live' p' => p' = after p (KvUpdate job (Ok live')) /\ kj_UID live' = kj_UID live)).
Proof.
  intros E U A. unfold kube_Update. apply follows_get. intros k. case_eq client; [intros cluster C|intros _; by apply follows_ret].
  apply follows_note_bind; [by exists live|]. apply follows_ret. destruct (on_update _ _ _) as [live'|e] eqn:W; [|done].
  split; [done|]. rewrite <- U. eapply update_keeps; eauto.
Qed.

Lemma claims_same cp cp' live : same_attempt cp cp' -> rc_CurrentUID cp' = rc_CurrentUID cp -> claims task cp' live = claims task cp live.
Proof. intros S U. unfold claims, at_attempt, attempt_annotation. by rewrite U, (sa_attempt _ _ S). Qed.

Lemma follows_retain_live p cp live : pr_cp p = Some cp -> pr_live p = Some (Some live) ->
  pr_claim p = claimed task (Some cp) (Ok live) -> at_attempt cp live = true ->
  follows p (retainLiveRetryAttempt client decode_job order encode_checkpoint scope Ack cp live)
    (okly (fun cp' p' => ready cp' p' /\ same_attempt cp cp')).
Proof.
  intros E El Ec At. unfold retainLiveRetryAttempt. apply follows_job. intros job Same. cbv zeta.
  rewrite (matches_same _ _ _ Same). destruct (_ && _) eqn:B1; [apply follows_err|].
  destruct (str_empty (kj_UID live) || _) eqn:B2; [apply follows_err|]. destruct (negb (str_empty (managed_by live)) && _); [apply follows_err|].
  apply orb_false_iff in B2 as [_ Mt]. apply negb_false_iff in Mt.
  assert (Cl : claims task cp live = true).
  { unfold claims. rewrite Mt, At. apply andb_false_iff in B1 as [B1|B1]; apply negb_false_iff in B1; rewrite B1, ?orb_true_r; done. }
  unfold claimed in Ec. rewrite Cl in Ec.
  refine (follows_must _ _ _ _ _ _ _ _ _ (follows_retain p cp _ E) _). intros cp1 p1 (-> & S1 & U1).
  apply (follows_must _ _ _ _ _ _ _ (fun live' p' => pr_cp p' = Some cp1 /\ pr_claim p' = Some (kj_UID live) /\ kj_UID live' = kj_UID live)).
  { destruct (_ || negb _); [|by apply follows_ret]. apply follows_owned_must. apply follows_wrap.
    eapply follows_weaken; [|apply (follows_update _ live)].
    - intros [live'|e] p'; [|done]. by intros [-> U].
    - by cbn.
    - by destruct (match kj_TTLSecondsAfterFinished live with Some _ => _ | None => _ end).
    - intros cp' [= <-]. split; [done|]. split; [by rewrite (claims_same _ _ _ S1 U1)|].
      by destruct (match kj_TTLSecondsAfterFinished live with Some _ => _ | None => _ end). }
  intros live' p' (E1 & C1 & U'). eapply follows_weaken; [|apply (follows_uid _ _ live' E1)].
  - intros [cp2|e] p2; [|done]. intros (-> & S2 & _ & N). split; [by split|by etrans].
  - intros _. by rewrite U'.
  - unfold claims in Cl. rewrite U1, U'. apply andb_true_iff in Cl as [_ Cl]. apply orb_true_iff in Cl as [Cl|Cl].
    + left. by apply str_empty_true.
    + right. symmetry. by apply String.eqb_eq.
Qed.

Lemma follows_marked {A} mark p (m : K Q (result A)) Post : follows p m (okly Post) -> follows p (marked mark m) (okly Post).
Proof.
  intros Hm. unfold marked. refine (follows_bind _ _ _ _ _ _ _ _ _ Hm _). intros r p' M. apply follows_job. intros job _.
  apply follows_ret. by destruct r.
Qed.

(** ** Replacing the previous attempt *)

Lemma follows_delete p cp live : pr_cp p = Some cp -> pr_live p = Some (Some live) -> previous_attempt cp live = true ->
  follows p (deleteRetryJob client live) (okly (fun _ p' => pr_cp p' = Some cp /\ pr_created p' = pr_created p)).
Proof.
  intros E El Pv. unfold deleteRetryJob. eapply follows_bind; [apply follows_owned|]. intros owned p1 O.
  assert (X : forall r : result unit, match r with Ok _ => exists s, p1 = p <| pr_owner := Some s |> | Err _ => True end ->
    follows p1 (match r with Err e => kerr e | Ok _ =>
      kube! task := get_job in
      if str_empty (kj_UID live) || negb (RetryJobMatchesTask (Some live) task)
      then kerr (stop_with ErrJobExecutionIdentityChanged) else
      kube! r := kube_Delete client (kj_Namespace live) (kj_Name live) (kj_UID live)
        (if str_empty (kj_ResourceVersion live) then None else Some (kj_ResourceVersion live)) in
      match r with
      | Err e => if errors_is ErrNotFound e then kok tt
                 else kerr (stop_with (Wrapf "delete previous Job retry attempt" e))
      | Ok _ => kok tt
      end end) (okly (fun _ p' => pr_cp p' = Some cp /\ pr_created p' = pr_created p))).
  { intros [_|e]; [|intros _; apply follows_err]. intros [s ->]. apply follows_job. intros job Same.
    rewrite (matches_same _ _ _ Same). destruct (_ || _) eqn:B; [apply follows_err|].
    apply orb_false_iff in B as [N Mt]. apply str_empty_false in N. apply negb_false_iff in Mt.
    apply (follows_bind _ _ _ _ _ _ _ (fun _ p' => pr_cp p' = Some cp /\ pr_created p' = pr_created p)).
    - unfold kube_Delete. apply follows_get. intros k. case client; [intros cluster|by apply follows_ret].
      apply follows_note_bind; [|by apply follows_ret]. split; [done|]. exists live.
      split; [exact El|]. do 2 (split; [done|]). intros cp' [= ->]%(eq_trans (eq_sym E)). done.
    - intros [[]|e] p' Hp; [by apply follows_ret|]. by destruct (errors_is ErrNotFound e); apply follows_ret. }
  destruct owned as [[]|e]; [apply (X (Ok tt)); eauto|]. destruct (errors_is ContextCanceled e).
  - apply (X (Ok tt)). eauto.
  - by apply (X (Err e)).
Qed.

Lemma follows_previous_gone p cp : pr_cp p = Some cp ->
  follows p (previous_gone client cp) (okly (fun b p' => pr_cp p' = Some cp /\ pr_created p' = pr_created p /\
    (b = true -> pr_live p' = Some None /\ exists pods, pr_pods p' = Some pods /\ drained cp pods))).
Proof.
  intros E. unfold previous_gone. cbv zeta. apply follows_owned_must.
  refine (follows_must _ _ _ _ _ _ _ _ _ (follows_wrap _ _ _ _ _ _ _ _ (follows_exists _ _ _ _)) _).
  { intros cp' [= ->]%(eq_trans (eq_sym E)). done. }
  intros [live|] p' ->; [destruct (negb _); [apply follows_err|by apply follows_ret]|].
  apply (follows_must _ _ _ _ _ _ _ (fun pods p' => pr_cp p' = Some cp /\ pr_created p' = pr_created p /\ pr_live p' = Some None /\
    pr_pods p' = Some pods)).
  - apply follows_wrap. unfold kube_Pods. apply follows_get. intros k. case client; [intros cluster|by apply follows_ret].
    apply follows_note_bind; [|apply follows_ret; by destruct (on_pods _ _ _ _)].
    left. intros cp' [= ->]%(eq_trans (eq_sym E)). done.
  - intros pods p' (A & B & C & D). apply follows_ret. split; [done|]. split; [done|]. intros F. split; [done|]. exists pods.
    split; [done|]. apply Forall_forall. intros pod I O. apply list_elem_of_In in I.
    pose proof (proj1 (forallb_forall _ _) F pod I) as X. cbv beta in X. rewrite O in X. exact X.
Qed.

Lemma follows_wait_previous p cp : pr_cp p = Some cp ->
  follows p (waitPreviousRetryAttempt client cp) (okly (fun _ p' => pr_cp p' = Some cp /\ pr_created p' = pr_created p /\
    pr_live p' = Some None /\ exists pods, pr_pods p' = Some pods /\ drained cp pods)).
Proof.
  intros E. unfold waitPreviousRetryAttempt. apply follows_calm_bind; [apply calm_ticks|]. intros ticks.
  apply (follows_poll _ _ _ _ (fun p' => pr_cp p' = Some cp /\ pr_created p' = pr_created p)); [apply calm_run_ctx|apply calm_expire| |done].
  intros p1 [E1 C1]. eapply follows_weaken; [|by apply follows_previous_gone]. intros [[]|e] p2; [| |done].
  - intros (A & B & X). rewrite <- C1. destruct (X eq_refl). by repeat split.
  - intros (A & B & _). by rewrite <- C1.
Qed.

(** ** Creating the attempt *)

Lemma follows_budget_loop ticks p : pr_owner p = Some StatusRunning ->
  follows p (wait_budget ticks) (okly (fun _ p' => p' = p <| pr_permit := true |>)).
Proof.
  intros O. assert (Same : forall q, q <| pr_owner := Some StatusRunning |> <| pr_permit := true |> = p <| pr_permit := true |> ->
    forall ticks, follows (q <| pr_owner := Some StatusRunning |>) (wait_budget ticks) (okly (fun _ p' => p' = p <| pr_permit := true |>))).
  2:{ specialize (Same p). destruct p. cbn in O. subst. by apply Same. }
  clear ticks. intros q Eq ticks. induction ticks as [|ticks IH]; cbn [wait_budget].
  all: apply follows_owned_must; apply follows_calm_must; [apply kkeeps_wrap, calm_db; apply _|]; intros delay.
  all: destruct (delay =? 0).
  1,3: apply follows_note_bind; [done|]; eapply follows_weaken; [|apply follows_owned];
    intros [[]|e] p'; [intros ->; exact Eq|done].
  all: apply follows_calm_bind; [apply calm_run_ctx|]; intros [e|]; [apply follows_err|].
  - apply follows_calm_bind; [apply calm_expire|]. intros _. apply follows_err.
  - exact IH.
Qed.

Lemma follows_budget p : pr_owner p = Some StatusRunning ->
  follows p waitRetryCreationBudget (okly (fun _ p' => exists b, p' = p <| pr_permit := b |> /\
    (IsWorkspaceJobType (jt_JobType task) = true -> b = true))).
Proof.
  intros O. unfold waitRetryCreationBudget. apply follows_job. intros job Same. rewrite (st_type _ _ Same).
  destruct (_ && _) eqn:W.
  - apply follows_ret. exists (pr_permit p). split; [by destruct p|]. unfold IsWorkspaceJobType.
    apply andb_true_iff in W as [W1%negb_true_iff W2%negb_true_iff]. by rewrite W1, W2.
  - apply follows_calm_bind; [apply calm_ticks|]. intros ticks. eapply follows_weaken; [|by apply follows_budget_loop].
    intros [[]|e] p'; [|done]. intros ->. by exists true.
Qed.

Lemma drained_same cp cp' pods : same_attempt cp cp' -> drained cp pods -> drained cp' pods.
Proof.
  intros S D. unfold drained, retryPodOwnedByJob in *. cbn in *. rewrite (sa_previous _ _ S), (sa_name _ _ S). exact D.
Qed.

Lemma follows_create p cp : pr_cp p = Some cp -> pr_created p = false ->
  (rc_PreviousUID cp = ""%string -> pr_live p = Some None) ->
  follows p (create_attempt client decode_job order encode_checkpoint scope Ack cp)
    (okly (fun cp' p' => ready cp' p' /\ same_attempt cp cp')).
Proof.
  intros E Cr Abs. unfold create_attempt. apply follows_job. intros job Same.
  destruct (str_empty (rc_CurrentUID cp)) eqn:N; [|apply follows_err]. apply str_empty_true in N. cbn [negb].
  apply (follows_must _ _ _ _ _ _ _ (fun _ p' => pr_cp p' = Some cp /\ pr_created p' = false /\ pr_live p' = Some None /\
    (rc_PreviousUID cp <> ""%string -> exists pods, pr_pods p' = Some pods /\ drained cp pods))).
  { destruct (str_empty (rc_PreviousUID cp)) eqn:Pv.
    - apply str_empty_true in Pv. apply follows_ret. split; [done|]. split; [done|]. split; [auto|done].
    - eapply follows_weaken; [|by apply follows_wait_previous]. intros [[]|e] p'; [|done]. intros (A & B & C & D).
      split; [done|]. split; [congruence|]. auto. }
  clear E Cr Abs. intros _ p1 (E & Cr & El & D). apply follows_owned_must.
  refine (follows_must _ _ _ _ _ _ _ _ _ (follows_retain _ cp _ _) _); [exact E|]. intros cp1 p2 (-> & S & U). rewrite N in U.
  refine (follows_must _ _ _ _ _ _ _ _ _ (follows_budget _ _) _); [done|]. intros _ p3 (b & -> & B).
  apply (follows_bind _ _ _ _ _ _ _ (fun r p' => pr_cp p' = Some cp1 /\ match r with Ok live => pr_claim p' = Some (kj_UID live) | Err _ => True end)).
  { unfold kube_Create. apply follows_get. intros k. case client; [intros cluster|by apply follows_ret].
    apply follows_note_bind; [|apply follows_ret; by destruct (on_create _ _ _)].
    exists cp1. split; [done|]. split; [done|]. split; [done|]. split; [exact Cr|]. split; [done|]. split; [exact El|]. split; [|exact B].
    rewrite (sa_previous _ _ S). intros P. destruct (D P) as (pods & X & Y). exists pods. split; [exact X|by eapply drained_same]. }
  intros [live|e] p4 (E4 & C4).
  - eapply follows_weaken; [|apply (follows_uid _ _ live E4)]; [|done|by left]. intros [cp2|e] p5; [|done].
    intros (-> & S2 & _ & N2). split; [by split|by etrans].
  - destruct (errors_is ErrAlreadyExists e); [|apply follows_err].
    apply (follows_must _ _ _ _ _ _ _ (fun live p' => p' = seen p4 live)).
    + apply follows_wrap. eapply follows_weaken; [|apply follows_Get].
      * by intros [live|e'] p'.
      * intros cp' [= ->]%(eq_trans (eq_sym E4)). done.
    + intros live p5 ->. apply follows_job. intros job' Same'. rewrite (matches_same _ _ _ Same').
      destruct (RetryJobMatchesTask (Some live) task) eqn:M; [|apply follows_err].
      destruct (at_attempt cp1 live) eqn:At; [|apply follows_err]. cbn [negb orb].
      eapply follows_weaken; [|apply (follows_uid (seen p4 live) cp1 live)]; [|exact E4| |by left].
      * intros [cp2|e'] p5; [|done]. intros (-> & S2 & _ & N2). split; [by split|by etrans].
      * intros _. cbn. rewrite E4. cbn. unfold claims. by rewrite M, At, U.
Qed.

Lemma follows_ensure p cp : pr_cp p = Some cp -> pr_created p = false ->
  follows p (ensureRetryAttempt client decode_job order encode_checkpoint scope Ack cp)
    (okly (fun cp' p' => ready cp' p' /\ same_attempt cp cp')).
Proof.
  intros E Cr. unfold ensureRetryAttempt. apply follows_calm_bind; [apply calm_run_ctx|]. intros [e|]; [apply follows_err|].
  apply follows_calm_must.
  { destruct (0 <? rc_RetryAt cp); [|apply kkeeps_ret; apply _]. unfold wait_timer. kkeeps_tac. }
  intros _. apply follows_owned_must.
  refine (follows_must _ _ _ _ _ _ _ _ _ (follows_wrap _ _ _ _ _ _ _ _ (follows_exists _ _ _ _)) _).
  { intros cp' [= ->]%(eq_trans (eq_sym E)). done. }
  intros [live|] p' ->; apply follows_job; intros job Same; [|by apply follows_create].
  rewrite (matches_same _ _ _ Same). destruct (RetryJobMatchesTask (Some live) task) eqn:M; [|apply follows_err]. cbn [negb].
  destruct (at_attempt cp live) eqn:At.
  - apply follows_marked. apply follows_retain_live; [exact E|done| |done]. cbn. by rewrite E.
  - destruct (previous_attempt cp live) eqn:Pv; [|apply follows_err]. cbn [negb].
    refine (follows_must _ _ _ _ _ _ _ _ _ (follows_delete (seen _ live) cp live E eq_refl Pv) _). intros _ p1 (E1 & C1).
    apply follows_create; [done|by rewrite C1|]. intros P. exfalso. unfold previous_attempt in Pv. by rewrite P in Pv.
Qed.

(** ** Waiting for the attempt *)

(** The outcome of the attempt was seen, by the worker that owns the task. *)
Definition outcome cp live p : Prop :=
  ready cp p /\ pr_live p = Some (Some live) /\ pr_owner p = Some StatusRunning /\ watched_attempt task cp live = true /\
  attempt_settled live = true.

Lemma follows_check p s snapshot : ready (wt_cp s) p ->
  follows p (check_attempt client decode_job order encode_checkpoint scope Ack s snapshot) (fun r p' =>
    match r with
    | (Ok true, s') => same_attempt (wt_cp s) (wt_cp s') /\ exists live, wt_terminal s' = Some live /\ outcome (wt_cp s') live p'
    | (Ok false, s') => same_attempt (wt_cp s) (wt_cp s') /\ ready (wt_cp s') p'
    | (Err _, _) => True
    end).
Proof.
  intros [E N]. unfold check_attempt. apply follows_job. intros job Same.
  destruct (match snapshot with Some _ => _ | None => false end); [by apply follows_ret|]. cbv zeta.
  eapply follows_bind; [apply follows_Get; by intros cp' [= ->]%(eq_trans (eq_sym E))|].
  intros [live|e] p'; [intros ->|intros _; by apply follows_ret].
  set (s1 := match snapshot with Some _ => _ | None => s end).
  assert (wt_cp s1 = wt_cp s) as E1 by (by subst s1; destruct snapshot). clearbody s1.
  unfold watched_attempt at 1. rewrite (matches_same _ _ _ Same). fold (watched_attempt task (wt_cp s) live).
  destruct (watched_attempt task (wt_cp s) live) eqn:W; [|by apply follows_ret]. cbn [negb].
  destruct (attempt_settled live) eqn:St.
  - eapply follows_bind; [apply follows_owned|]. intros [[]|e] p'; [|intros _; by apply follows_ret].
    intros ->. apply follows_ret. split; [done|]. exists live. by repeat split.
  - destruct (negb _).
    + eapply follows_bind; [apply follows_marked, (follows_retain_live (seen p live)); [exact E|done|..]|].
      * cbn. by rewrite E.
      * unfold watched_attempt in W. by apply andb_true_iff in W as [_ W].
      * intros [cp'|e] p' X; apply follows_ret; [|done]. cbn in X. by destruct X.
    + apply follows_ret. by rewrite E1.
Qed.

Lemma follows_observe {S} (I Done : S -> Protocol -> Prop) cache namespace name check wakes s p :
  (forall s p, I s p -> in_place p namespace name) ->
  (forall s p snapshot, I s p -> follows p (check s snapshot) (fun r p' =>
     match r with (Ok true, s') => Done s' p' | (Ok false, s') => I s' p' | (Err _, _) => True end)) ->
  I s p -> follows p (observe_jobs cache namespace name check wakes s)
    (fun r p' => match r with (Ok _, s') => Done s' p' | (Err _, _) => True end).
Proof.
  intros Pl Hc. revert s p. induction wakes as [|wakes IH]; intros s p Is; cbn [observe_jobs]; cbv zeta.
  all: apply follows_calm_bind; [apply calm_run_ctx|]; intros [e|]; [by apply follows_ret|].
  all: apply follows_get; intros k; destruct (cache_stopped _ _); [by apply follows_ret|].
  all: apply follows_note_bind; [by eapply Pl|]; cbn [InstantSpec.after].
  all: destruct (cache_get _ _ _ _) as [snapshot|e]; [|by apply follows_ret].
  all: refine (follows_bind _ _ _ _ _ _ _ _ _ (Hc s p snapshot Is) _); intros [[[|]|e] s'] p' M; [by apply follows_ret| |by apply follows_ret].
  all: apply follows_calm_bind; [apply calm_run_ctx|]; intros [e|]; [by apply follows_ret|].
  all: apply follows_get; intros k'; destruct (cache_stopped _ _); [by apply follows_ret|].
  - apply follows_calm_bind; [apply calm_expire|]. intros _. by apply follows_ret.
  - by apply IH.
Qed.

Lemma follows_wait p cp : ready cp p ->
  follows p (waitRetryAttempt client observer decode_job order encode_checkpoint scope Ack cp) (fun r p' =>
    match r with
    | (Ok live, cp') => same_attempt cp cp' /\ exists live', live = Some live' /\ outcome cp' live' p'
    | (Err _, _) => True
    end).
Proof.
  intros R. unfold waitRetryAttempt. eapply follows_bind; [apply follows_owned|].
  intros [[]|e] p'; [intros ->|intros _; by apply follows_ret]. case observer; [intros cache|by apply follows_ret].
  apply (follows_bind _ _ _ _ _ _ _ (fun r p' =>
    match r with
    | (Ok _, s) => same_attempt cp (wt_cp s) /\ exists live', wt_terminal s = Some live' /\ outcome (wt_cp s) live' p'
    | (Err _, _) => True
    end)).
  - unfold WaitForJob. destruct (negb _); [by apply follows_ret|]. destruct (_ || _); [by apply follows_ret|].
    apply follows_calm_bind; [apply calm_ticks|]. intros wakes.
    apply (follows_observe (fun s p' => same_attempt cp (wt_cp s) /\ ready (wt_cp s) p')).
    + intros s p' [S [E _]] cp' [= <-]%(eq_trans (eq_sym E)). split; symmetry; apply S.
    + intros s p' snapshot [S R']. eapply follows_weaken; [|by apply follows_check].
      intros [[[|]|e] s'] p''; [| |done]; intros [S' X]; (split; [by etrans|exact X]).
    + by split.
  - intros [[u|e] s] p' X; by apply follows_ret.
Qed.

(** ** The next attempt *)

Lemma grow_kept ord (job : Job Q) pol oom next : growOOMJobResources ord job pol oom = Ok next ->
  kj_Namespace next = kj_Namespace job /\ kj_Name next = kj_Name job.
Proof.
  unfold growOOMJobResources, result_bind. destruct (ValidateRetryJobResources _ _ _); [|done].
  destruct (grow_containers _ _ _ _); [|done]. destruct (grow_containers _ _ _ _); [|done].
  destruct (negb _); [done|]. by intros [= <-].
Qed.

Lemma follows_persist_next p cp cp' : pr_cp p = Some cp -> next_checkpoint task policy p cp cp' ->
  follows p (persistRetryCheckpoint decode_job order encode_checkpoint scope Ack cp')
    (okly (fun _ p' => pr_cp p' = Some cp' /\ pr_created p' = false)).
Proof.
  intros E Nx. eapply follows_weaken; [|apply follows_persist].
  - intros [[]|e] p'; [|done]. cbn. rewrite E. destruct Nx as [A _]. cbn. destruct (Z.eqb_spec (rc_Attempt cp') (rc_Attempt cp)); [lia|].
    by intros ->.
  - unfold save_allowed. rewrite E. by right.
Qed.

(** A new attempt is on record; its number, and why there may be one. *)
Definition renewed (pol : JobRetryPolicy Q) cp cp' p : Prop :=
  pr_cp p = Some cp' /\ pr_created p = false /\ rc_Attempt cp' = rc_Attempt cp + 1 /\ rc_Attempt cp <= MaxRetries pol.

Definition succeeded p : Prop :=
  exists cp live, outcome cp live p /\ job_completed live = true.

Definition ended (pol : JobRetryPolicy Q) cp (a : AttemptEnd) p : Prop :=
  match a with
  | Return (Ok _) => succeeded p
  | Return (Err _) => True
  | Retry cp' => renewed pol cp cp' p
  end.

Lemma follows_next pol p cp live message : policy = Some pol -> MaxRetries pol <= 10 -> 0 <= rc_Attempt cp ->
  outcome cp live p -> job_completed live = false ->
  follows p (next_attempt client decode_job order encode_checkpoint scope Ack pol cp live message) (ended pol cp).
Proof.
  intros Pol Max Pos ([E N] & El & O & W & St) Jc. unfold next_attempt, return_err.
  destruct (_ || _) eqn:B; [by apply follows_ret|]. apply orb_false_iff in B as [B1%String.eqb_neq B2%Z.ltb_ge].
  apply (follows_bind _ _ _ _ _ _ _ (fun r p' => match r with
    | Ok names => exists pods, names = oom_names live pods /\ p' = p <| pr_pods := Some pods |> | Err _ => True end)).
  { unfold oomJobContainers. destruct (str_empty _); [by apply follows_ret|].
    eapply (follows_must _ _ _ _ _ _ _ (fun pods p' => p' = p <| pr_pods := Some pods |>)).
    - apply follows_wrap. unfold kube_Pods. apply follows_get. intros k. case client; [intros cluster|by apply follows_ret].
      apply follows_note_bind; [right; eauto|]. apply follows_ret. cbn. by destruct (on_pods _ _ _ _).
    - intros pods p' ->. apply follows_ret. by exists pods. }
  intros [names|e] p1; [|intros _; apply follows_calm_bind; [apply calm_run_ctx|]; intros stopped; by apply follows_ret].
  intros (pods & -> & ->). case_bool_decide as Ne; [by apply follows_ret|].
  set (grown := if (OnOOM pol =? "resize")%string then _ else _).
  assert (G : forall next, grown = Ok next -> kj_Namespace next = kj_Namespace (cp_job cp) /\ kj_Name next = kj_Name (cp_job cp)).
  { subst grown. intros next. destruct (_ =? _)%string; [apply grow_kept|by intros [= <-]]. }
  destruct grown as [next|e]; [|by apply follows_ret]. destruct (G _ eq_refl) as [G1 G2]. clear G.
  apply follows_calm_bind; [apply calm_db|]. intros [now|e]; [|by apply follows_ret]. cbv zeta.
  rewrite u64_succ by (unfold two64; lia).
  assert (Ua : kj_UID live = rc_CurrentUID cp).
  { unfold watched_attempt in W. apply andb_true_iff in W as [W _]. apply andb_true_iff in W as [_ W]. by apply String.eqb_eq. }
  eapply follows_bind; [apply (follows_persist_next _ cp); [exact E|]|].
  - split; [done|]. split; [exact Ua|]. split; [exact N|]. split; [done|]. split; [done|]. split; [exact G1|]. split; [exact G2|].
    split; [by exists pol|]. split; [exact O|]. by exists live, pods.
  - intros [[]|e] p'; [|intros _; by apply follows_ret]. intros [A C]. apply follows_ret. by split.
Qed.

(** ** The loop *)

Lemma calm_stop_attempt err : calm_for Q (stop_attempt err).
Proof. unfold stop_attempt. kkeeps_tac. Qed.

Lemma follows_attempt pol p cp : policy = Some pol -> MaxRetries pol <= 10 -> 0 <= rc_Attempt cp ->
  pr_cp p = Some cp -> pr_created p = false ->
  follows p (run_attempt client observer decode_job order encode_checkpoint scope Ack pol cp) (ended pol cp).
Proof.
  intros Pol Max Pos E Cr. unfold run_attempt.
  assert (Stop : forall p' e, follows p' (kube! r := stop_attempt e in kret (Return (Q := Q) r)) (fun a _ => exists r, a = Return (Err r))).
  { intros p' e. apply (follows_bind _ _ _ _ _ _ _ (fun r _ => exists x, r = Err x)).
    - apply (follows_value _ _ _ _ (fun r => exists x, r = Err x)); [apply calm_stop_attempt| |done].
      intros k. unfold stop_attempt, get_job. destruct (errors_is _ e); cbv beta iota zeta delta [kbind kerr kret].
      + destruct (kdb _ _) as [[c|c] k']; by eexists.
      + destruct (run_ctx k) as [stopped k']. by eexists.
    - intros r p'' [x ->]. apply follows_ret. by eexists. }
  eapply follows_bind; [by apply follows_ensure|]. intros [cp1|e] p1.
  2:{ intros _. eapply follows_weaken; [|apply Stop]. by intros a p' [x ->]. }
  intros [R S]. eapply follows_bind; [by apply follows_wait|]. intros [[live|e] cp2] p2.
  2:{ intros _. eapply follows_weaken; [|apply Stop]. by intros a p' [x ->]. }
  intros (S2 & live' & -> & O). cbv beta iota delta [from_option id]. assert (At : rc_Attempt cp2 = rc_Attempt cp).
  { by rewrite (sa_attempt _ _ S2), (sa_attempt _ _ S). }
  assert (Nx : forall message, job_completed live' = false ->
    follows p2 (next_attempt client decode_job order encode_checkpoint scope Ack pol cp2 live' message) (ended pol cp)).
  { intros message Jc. eapply follows_weaken; [|apply follows_next; try done; lia].
    intros [[r|e]|cp3] p3; [done|done|]. unfold ended, renewed. by rewrite At. }
  unfold job_completed in Nx. destruct (JobTerminalStatus live') as [[status message]|] eqn:J; cbv beta iota in *.
  - destruct (status =? StatusCompleted)%string eqn:C; [|by apply Nx].
    apply follows_calm_bind; [by apply calm_update|]. intros _. apply follows_ret. exists cp2, live'. split; [done|].
    unfold job_completed. by rewrite J, C.
  - by apply Nx.
Qed.

(** The loop ends within its turns. *)
Lemma follows_attempts pol turns : policy = Some pol -> MaxRetries pol <= 10 -> forall p cp, 0 <= rc_Attempt cp ->
  pr_cp p = Some cp -> pr_created p = false -> (turns_left pol cp <= turns)%nat ->
  follows p (run_attempts client observer decode_job order encode_checkpoint scope Ack turns pol cp) (fun o p' =>
    match o with Some (Ok _) => succeeded p' | Some (Err _) => True | None => False end).
Proof.
  intros Pol Max. induction turns as [|turns IH]; intros p cp Pos E Cr T; unfold turns_left in T; [lia|]. cbn [run_attempts].
  eapply follows_bind; [by apply (follows_attempt pol)|]. intros [r|cp'] p' X.
  - apply follows_ret. by destruct r.
  - destruct X as (E' & Cr' & A & B). apply IH; try done; [lia|]. unfold turns_left. lia.
Qed.

(** ** The start *)

Lemma fresh_place p namespace name : pr_cp p = None -> in_place p namespace name.
Proof. intros E cp F. by rewrite E in F. Qed.
Hint Resolve fresh_place : kube.

Lemma follows_run_policy p job jobType : pr_cp p = None ->
  follows p (ApplyJobRunPolicy client job jobType) (okly (fun _ p' => pr_cp p' = None)).
Proof.
  intros E. unfold ApplyJobRunPolicy. assert (Same : exists c, c = client) by eauto. destruct Same as [c Same].
  rewrite <- Same at 1. clear Same. case c; [intros _|apply follows_err]. clear c.
  destruct (str_empty (kj_Namespace job)); [apply follows_err|]. destruct (str_empty (kj_Name job)); [apply follows_err|]. cbv zeta.
  refine (follows_must _ _ _ _ _ _ _ _ _ (follows_exists _ _ _ (fresh_place _ _ _ E)) _).
  intros [existing|] p' ->.
  2:{ destruct (_ =? _)%string; [|by apply follows_ret]. apply follows_calm_bind; [apply calm_db|]. by intros [[|]|e]; apply follows_ret. }
  apply follows_calm_must; [apply calm_db|]. intros _. destruct (_ =? _)%string.
  - destruct (JobTerminalStatus existing) as [[status message]|].
    + destruct (_ =? _)%string; [by apply follows_ret|apply follows_err].
    + apply (follows_must _ _ _ _ _ _ _ (fun _ p' => pr_cp p' = None)); [|intros _ p' E'; by apply follows_ret].
      unfold adoptReusableJobExecution. cbv zeta. destruct (parse_generation _); [|apply follows_err].
      destruct (_ || _); [apply follows_err|]. destruct (parse_generation _); [|apply follows_err].
      destruct (_ || _); [apply follows_err|]. destruct (_ && _ && _); [by apply follows_ret|].
      destruct (_ && _); [apply follows_err|]. apply follows_wrap.
      eapply follows_weaken; [|apply (follows_update (seen p existing) existing)]; [|done|done|].
      * intros [live'|e] p'; [|done]. by intros [-> _].
      * intros cp F. cbn in F. congruence.
  - assert (Wait : forall p1, pr_cp p1 = None -> follows p1
      (must! _ := waitForJobUIDDeletion client (kj_Namespace job) (kj_Name job) (kj_UID existing) in kok runPolicyActionCreate)
      (okly (fun _ p' => pr_cp p' = None))).
    { intros p1 E1. apply (follows_must _ _ _ _ _ _ _ (fun _ p' => pr_cp p' = None)); [|intros _ p' E'; by apply follows_ret].
      unfold waitForJobUIDDeletion. apply follows_calm_bind; [apply calm_ticks|]. intros ticks. apply follows_wrap.
      apply (follows_poll _ _ _ _ (fun p' => pr_cp p' = None)); [apply calm_job_ctx|apply kkeeps_ret; apply _| |exact E1].
      intros p2 E2. unfold jobUIDAbsent. eapply follows_bind; [by apply follows_Get, fresh_place|].
      intros [live|e] p3; cbn beta iota.
      - intros ->. apply follows_ret. cbn. by destruct (negb _).
      - intros F. destruct (errors_is _ _); [|apply follows_err]. rewrite (F eq_refl). by apply follows_ret. }
    apply (follows_bind _ _ _ _ _ _ _ (fun _ p' => pr_cp p' = None)).
    + unfold deleteJobForeground. destruct (_ || _) eqn:B; [by apply follows_ret|].
      apply orb_false_iff in B as [_ N%str_empty_false].
      unfold kube_Delete. apply follows_get. intros k. case client; [intros cluster|by apply follows_ret].
      apply follows_note_bind; [|by apply follows_ret]. split; [done|]. exists existing. do 3 (split; [done|]). intros cp F. cbn in F. congruence.
    + intros [[]|e] p1 E1; [by apply Wait|]. destruct (negb _); [apply follows_err|by apply Wait].
Qed.

(** A first attempt on record, or a job that is skipped. *)
Definition begins (o : option (InstantJobRetryCheckpoint Q)) p : Prop :=
  match o with
  | Some cp => pr_cp p = Some cp /\ pr_created p = false /\ rc_Attempt cp = 1
  | None => pr_cp p = None
  end.

Lemma follows_new p desired : pr_cp p = None ->
  follows p (newRetryCheckpoint client decode_job order encode_checkpoint scope Ack desired) (okly begins).
Proof.
  intros E. unfold newRetryCheckpoint. apply follows_job. intros job Same. destruct (negb _); [apply follows_err|].
  apply follows_calm_must; [apply calm_db|]. intros now. apply follows_owned_must.
  change (pr_cp (p <| pr_owner := Some StatusRunning |>) = None) in E. set (q := p <| pr_owner := _ |>) in *. clearbody q.
  refine (follows_must _ _ _ _ _ _ _ _ _ (follows_exists _ _ _ (fresh_place _ _ _ E)) _).
  intros existing p1 E1. assert (F : pr_cp p1 = None) by (destruct existing; by subst). clear E1.
  destruct (match existing with Some _ => _ | None => false end); [apply follows_err|].
  apply follows_job. intros job1 Same1. refine (follows_must _ _ _ _ _ _ _ _ _ (follows_run_policy _ _ _ F) _).
  intros action p2 F2. destruct action.
  2:{ apply follows_calm_bind; [by apply calm_update|]. intros _. by apply follows_ret. }
  apply follows_job. intros job2 Same2. destruct (jt_Timeout job2 <=? 0); [apply follows_err|]. cbv zeta.
  apply follows_calm_must.
  { destruct (_ && _); [|apply kkeeps_ret; apply _]. destruct (ParseInt _); [|apply kkeeps_ret; apply _].
    destruct (_ || _); apply kkeeps_ret; apply _. }
  intros deadline. apply follows_calm_must; [apply kkeeps_ret; apply _|]. intros ttl.
  match goal with |- InstantSpec.follows _ _ _ _ _ (kmust (persistRetryCheckpoint _ _ _ _ _ ?c) _) _ =>
    assert (A : rc_Attempt c = 1 /\ rc_PreviousUID c = ""%string /\ rc_CurrentUID c = ""%string) by done; generalize dependent c end.
  intros cp A. refine (follows_must _ _ _ _ _ _ _ _ _ (follows_persist p2 cp _) _).
  - unfold save_allowed. by rewrite F2.
  - intros _ p3 ->. apply follows_ret. cbn. rewrite F2. cbn. split; [done|]. split; [done|]. apply A.
Qed.
End Operations.

(** ** runWithRetryPolicy *)

Section Theorems.
Context {Q : Type} `{QuantityLaws Q} `{!KubernetesJson Q}.
Variable decode_job : Json -> option (Job Q).
Variable order : JobRetryPolicy Q -> list (string * Z).

(** Where a run starts and under which policy: the checkpoint of the task's row, or
    nothing and the policy of the submitted Job; [None] when the checkpoint is refused. *)
Definition resumes (job : JobTask) (policy : option (JobRetryPolicy Q))
    : option (option (InstantJobRetryCheckpoint Q) * option (JobRetryPolicy Q)) :=
  if str_empty (jt_InternalInfo job) then Some (None, policy) else
  match DecodeInstantJobRetryCheckpoint decode_job order (Some job) with
  | Ok cp => match RetryPolicyFromJob order (rc_Job cp) with Ok pol => Some (Some cp, pol) | Err _ => None end
  | Err _ => None
  end.

Definition keeps_uid (client : option (Cluster Q)) : Prop := forall cluster log job job',
  client = Some cluster -> on_update cluster log job = Ok job' -> kj_UID job' = kj_UID job.

Definition policy_bound (policy : option (JobRetryPolicy Q)) : Prop :=
  forall pol, policy = Some pol -> 0 <= MaxRetries pol <= 10.

Lemma policy_of_job job policy : RetryPolicyFromJob order (Some job) = Ok policy -> policy_bound policy.
Proof. intros E pol ->. apply retry_policy_ok in E as [V _]. by apply valid_policy_retries in V as [V _]. Qed.

(** What is known where a run starts. *)
Lemma resumes_sound job policy cp pol : resumes job policy = Some (cp, pol) -> policy_bound policy -> policy_bound pol /\
  forall cp0, cp = Some cp0 -> exists pol0, pol = Some pol0 /\ 1 <= rc_Attempt cp0 <= attempts_allowed pol0.
Proof.
  unfold resumes. destruct (str_empty _); [intros [= <- <-] B; by split|].
  destruct (DecodeInstantJobRetryCheckpoint decode_job order (Some job)) as [cp1|e] eqn:D; [|done].
  destruct (RetryPolicyFromJob order (rc_Job cp1)) as [pol1|e] eqn:R; [|done]. intros [= <- <-] _.
  apply decode_checkpoint_spec in D as (D & j & pol0 & J & P & _ & _ & _ & _ & N & _ & _ & _ & _ & B & _).
  rewrite J, P in R. injection R as <-. assert (Pb := policy_of_job _ _ P). split; [done|].
  intros cp0 [= <-]. exists pol0. split; [done|]. specialize (Pb _ eq_refl). apply dec_checkpoint_attempt in D.
  unfold attempts_allowed. rewrite u64_small in B by (unfold two64 in *; lia). lia.
Qed.

Section Run.
Variable client : option (Cluster Q).
Variable observer : option (JobCache Q).
Variable encode_checkpoint : InstantJobRetryCheckpoint Q -> result string.
Variable scope : option string.
Variable Ack : C unit.
Hypothesis Law : keeps_uid client.
Variables (desired : Job Q) (policy : option (JobRetryPolicy Q)).

(** A run that succeeded saw the current attempt complete, or there was nothing to run. *)
Definition run_ok task (p : Protocol (Q := Q)) : Prop := succeeded task p \/ pr_cp p = None.

(** The checkpoint a run starts with is on record. *)
Definition started pol (o : option (InstantJobRetryCheckpoint Q * option (JobRetryPolicy Q))) (p : Protocol (Q := Q)) : Prop :=
  match o with
  | Some (cp, pol') => pol' = pol /\ pr_cp p = Some cp /\ pr_created p = false /\ 1 <= rc_Attempt cp
  | None => pr_cp p = None
  end.

Lemma start_follows task k cp pol : resumes (jr_job (kr_run k)) policy = Some (cp, pol) -> policy_bound policy ->
  here task pol (kr_log k) (protocol_start cp) (protocol_start cp) k ->
  let '(r, k') := start_checkpoint client decode_job order encode_checkpoint scope Ack desired policy k in
  exists p', okly (started pol) r p' /\ here task pol (kr_log k) (protocol_start cp) p' k'.
Proof.
  intros R B Hk. destruct (resumes_sound _ _ _ _ R B) as [_ F]. revert R. unfold resumes, start_checkpoint, get_job, kbind.
  destruct (str_empty _) eqn:E; cbn [negb].
  - intros [= <- <-].
    pose proof (follows_new client decode_job order encode_checkpoint scope Ack task policy (kr_log k) (protocol_start None) Law
      (protocol_start None) desired eq_refl k Hk) as X. unfold kmust, kbind.
    destruct (newRetryCheckpoint _ _ _ _ _ _ _ k) as [[[cp|]|e] k']; destruct X as (p' & A & C); exists p'; (split; [|exact C]).
    + destruct A as (A1 & A2 & A3). cbn. repeat split; try done. lia.
    + exact A.
    + done.
  - unfold kmust, kwrap, kbind, kret, kok, kret. destruct (DecodeInstantJobRetryCheckpoint _ _ _) as [cp1|e]; [|done].
    destruct (RetryPolicyFromJob order (rc_Job cp1)) as [pol1|e]; [|done]. intros [= <- <-].
    exists (protocol_start (Some cp1)). split; [|exact Hk]. destruct (F _ eq_refl) as (pol0 & _ & A). cbn. repeat split; lia.
Qed.

Lemma follows_tail task L cp0 pol p start : policy_bound pol -> okly (started pol) start p ->
  follows task pol L (protocol_start cp0) p
    (match start with Err e => kret (Err e) | Ok None => kok tt | Ok (Some (cp, policy)) =>
      match policy with
      | None => kerr (Errorf "nil retry policy")
      | Some policy =>
          must! now := kdb retryDatabaseTime in
          kube! _ := (if time_sub (rc_Deadline cp) now <=? 0
                      then kube! stopped := job_ctx in match stopped with Some _ => kret tt | None => expire end
                      else kret tt) in
          kube! r := run_attempts client observer decode_job order encode_checkpoint scope Ack (turns_left policy cp) policy cp in
          kret (default (Err (Errorf "more attempts than the policy allows")) r)
      end
     end) (okly (fun _ => run_ok task)).
Proof.
  intros B St. destruct start as [[[cp policy']|]|e]; [|apply follows_ret; by right|by apply follows_ret].
  destruct St as (-> & E & Cr & A). destruct pol as [pol|]; [|apply follows_err]. specialize (B _ eq_refl).
  apply follows_calm_must; [apply calm_db|]. intros now. apply follows_calm_bind.
  { destruct (_ <=? 0); [|apply kkeeps_ret; apply _]. kkeeps_tac. }
  intros _. eapply follows_bind; [apply (follows_attempts _ _ _ _ _ _ _ _ _ _ _ Law pol); try done; lia|].
  intros [[r|e]|] p' X; apply follows_ret; [by left|done|done].
Qed.

Lemma creates_bound task cp pol pol0 evs p : resumes task policy = Some (cp, Some pol0) -> policy_bound policy -> pol = Some pol0 ->
  accepts task pol (protocol_start cp) evs p ->
  Z.of_nat (creates evs) <= attempts_allowed pol0 + 1 - match cp with Some cp => rc_Attempt cp | None => 1 end.
Proof.
  intros R B -> Acc. destruct (resumes_sound _ _ _ _ R B) as [B' F]. specialize (B' _ eq_refl) as M.
  assert (W : within (Some pol0) p).
  { eapply accepts_within; [|exact Acc|].
    - intros pol [= <-]. lia.
    - intros c pol E [= <-]. destruct (F c E) as (pol1 & [= <-] & A). unfold attempts_allowed in A. lia. }
  apply accepts_creates in Acc. unfold begun, attempts_allowed in *. cbn [pr_cp pr_created protocol_start] in Acc.
  destruct (pr_cp p) as [c|] eqn:E.
  - specialize (W c pol0 E eq_refl). destruct cp as [cp|], (pr_created p); lia.
  - destruct cp as [cp|]; [|lia]. destruct (F cp eq_refl) as (pol1 & [= <-] & A). unfold attempts_allowed in A. lia.
Qed.

(** C6: the attempts of a job follow the protocol.  Whatever the cluster answers, other
    sessions commit and the contexts do, as long as updating an object keeps its UID, a
    run of a job with a retry policy that starts from the checkpoint of its row (or from
    none) only does what [allowed] says of the checkpoint on record, the answers and the
    ownership looked up so far: a Job is created only from the checkpoint on record, by
    the owner of a running workflow, when the Job is known to be absent and the Pods of
    the attempt it replaces have ended, with a creation permit for the types that need
    one, and at most once per attempt; only the failed Job of the previous attempt is
    deleted, by its UID; only the Job that carries the execution and the attempt is
    updated or taken for the attempt's; and the next attempt is put on record only when
    the current one ended out of memory and the policy allows another.  At most as many
    Jobs are created as the policy leaves attempts.  A run succeeds only when the Job of
    the attempt on record was seen complete by the owner, or when there was nothing to
    run; and nothing is requested for a checkpoint that is refused. *)
Theorem retry_protocol k : RetryPolicyFromJob order (Some desired) = Ok policy ->
  let task := jr_job (kr_run k) in
  let '(r, k') := runWithRetryPolicy client observer decode_job order encode_checkpoint scope Ack desired policy k in
  exists evs, kr_log k' = (kr_log k ++ evs)%list /\
  match resumes task policy with
  | None => evs = [] /\ is_ok r = false
  | Some (cp, pol) => exists p,
      accepts task pol (protocol_start cp) evs p /\
      (r = Ok tt -> run_ok task p) /\
      (forall pol0, pol = Some pol0 ->
         Z.of_nat (creates evs) <= attempts_allowed pol0 + 1 - match cp with Some cp => rc_Attempt cp | None => 1 end)
  end.
Proof.
  intros Pol task. apply policy_of_job in Pol. unfold runWithRetryPolicy, kmust, kbind.
  assert (Here : forall pol cp, here task pol (kr_log k) (protocol_start cp) (protocol_start cp) k).
  { intros pol cp. split; [exists []; by rewrite app_nil_r|done]. }
  destruct (resumes task policy) as [[cp pol]|] eqn:R.
  - pose proof (start_follows task k cp pol R Pol (Here _ _)) as St.
    destruct (start_checkpoint _ _ _ _ _ _ _ _ k) as [start k1]. destruct St as (p1 & St & H1).
    pose proof (follows_tail task (kr_log k) cp pol p1 start (proj1 (resumes_sound _ _ _ _ R Pol)) St k1 H1) as T.
    match goal with |- let '(r, k') := ?m in _ => match type of T with context [fst (?m' k1)] =>
      replace m with (m' k1) by (by destruct start as [[[c q]|]|e]) end end.
    destruct (_ k1) as [r k2]. destruct T as (p & A & [(evs & E & Acc) _]). exists evs. split; [exact E|]. exists p. split; [exact Acc|].
    split; [intros ->; exact A|]. intros pol0 ->. by eapply creates_bound.
  - unfold resumes in R. unfold start_checkpoint, get_job, kbind. fold task. destruct (str_empty _); [done|]. cbn [negb].
    unfold kmust, kwrap, kbind, kret, kok, kret. destruct (DecodeInstantJobRetryCheckpoint _ _ _) as [cp1|e].
    2:{ exists []. by rewrite app_nil_r. }
    destruct (RetryPolicyFromJob order (rc_Job cp1)) as [pol1|e]; [done|]. exists []. by rewrite app_nil_r.
Qed.
End Run.
End Theorems.

(** C40: the loop of attempts ends.  From the checkpoint on record, with a policy within
    its bounds, the turns that the policy leaves are enough: the loop returns, whatever
    the cluster answers. *)
Theorem attempts_terminate {Q : Type} `{QuantityLaws Q} `{!KubernetesJson Q} client observer decode_job order encode_checkpoint scope Ack
    (pol : JobRetryPolicy Q) cp k :
  keeps_uid client -> MaxRetries pol <= 10 -> 0 <= rc_Attempt cp ->
  exists r, fst (run_attempts client observer decode_job order encode_checkpoint scope Ack (turns_left pol cp) pol cp k) = Some r.
Proof.
  intros Law Max Pos.
  destruct (follows_attempts client observer decode_job order encode_checkpoint scope Ack (jr_job (kr_run k)) (Some pol) (kr_log k)
    (protocol_start (Some cp)) Law pol (turns_left pol cp) eq_refl Max (protocol_start (Some cp)) cp Pos eq_refl eq_refl
    (Nat.le_refl _) k) as (p & X & _).
  - split; [exists []; by rewrite app_nil_r|done].
  - destruct (fst _) as [r|]; [by exists r|done].
Qed.

(** ** A run that is retried *)

(** Out of memory, the first attempt; the second completes. *)
Definition last_created (log : list (KubeEvent Z)) : option (Job Z) :=
  fold_left (fun o ev => match ev with
    | KvCreate _ (Ok job) => Some job
    | KvDelete _ _ _ _ None => None
    | _ => o
    end) log None.

Definition with_outcome (job : Job Z) : Job Z :=
  job <| kj_Status := Build_JobStatus
    [Build_JobCondition (if (kj_UID job =? "uid-1")%string then JobFailed else JobComplete) ConditionTrue "" ""] 0 0 0 None None |>.

Definition oom_cluster : Cluster Z := {|
  on_get log _ _ := match last_created log with Some job => Ok (with_outcome job) | None => Err ErrNotFound end;
  on_create log job := Ok (job <| kj_UID := ("uid-" ++ annotation_of job AnnotationJobAttempt)%string |>);
  on_update _ job := Ok job;
  on_delete _ _ _ _ _ := None;
  on_pods _ _ name := Ok [Build_Pod "web-1" "pod-1" [Build_OwnerReference "batch/v1" "Job" name "uid-1" (Some true)]
    [] ["main"%string] PodFailed "" []
    [Build_ContainerStatus "main" false false (Some "OOMKilled"%string) false 0 "" false None]];
  on_pod _ _ _ := Err ErrNotFound;
  on_logs _ _ _ _ := Err ErrNotFound;
  on_delete_pod _ _ _ _ := None |}.

Definition oom_observer : JobCache Z :=
  {| cache_synced := true; cache_stopped _ := false; cache_get _ _ _ := Ok None |}.

Definition retry_text : string := object [member "onOOM" (jq "retry"); member "maxRetries" "2"; member "backoffSeconds" "1"].

Definition oom_desired : Job Z :=
  job_zero <| kj_Name := "web"%string |> <| kj_Namespace := "ns"%string |> <| kj_BackoffLimit := Some 0 |>
    <| kj_Pod := pod_spec_zero <| ps_RestartPolicy := RestartPolicyNever |> |>
    <| kj_Annotations := list_to_map [(AnnotationJobTaskID, "t1"); (AnnotationJobExecutionKey, "k1");
         (AnnotationJobRunGeneration, "3"); (AnnotationJobAttempt, "1"); (AnnotationJobRetryPolicy, retry_text)]%string |>.

Definition oom_execution : JobTask :=
  sample_execution <| jt_JobType := JobDeployInstant |> <| jt_Timeout := 600 |>.

Definition oom_records : Database :=
  sample_records <| db_jobs := {[7 := (BuildJobInfoRecord oom_execution) <| job_ID := 7 |>]} |>.

Definition oom_run : KubeRun Z :=
  Build_KubeRun (sample_run <| jr_job := oom_execution |> <| jr_exec := (jr_exec sample_run) <| ex_world := seqw oom_records 50000 |> |>)
    (Some oom_desired) [] [] false [0; 1]%nat [].

Definition oom_result : result unit * KubeRun Z :=
  match RetryPolicyFromJob no_order (Some oom_desired) with
  | Ok policy => runWithRetryPolicy (Some oom_cluster) (Some oom_observer) z_decode_job no_order (fun _ => Ok "{}"%string) None
      (cret tt) oom_desired policy oom_run
  | Err e => (Err e, oom_run)
  end.

Lemma oom_keeps : keeps_uid (Some oom_cluster).
Proof. intros c log job job' [= <-] [= <-]. reflexivity. Qed.

(** Two Jobs are created, and the second attempt succeeds. *)
Lemma retry_protocol_witness :
  fst oom_result = Ok tt /\ creates (kr_log (snd oom_result)) = 2%nat /\
  exists policy p, RetryPolicyFromJob no_order (Some oom_desired) = Ok policy /\
    accepts oom_execution policy (protocol_start None) (kr_log (snd oom_result)) p /\ run_ok oom_execution p.
Proof.
  assert (F : fst oom_result = Ok tt) by (vm_compute; reflexivity).
  assert (C : creates (kr_log (snd oom_result)) = 2%nat) by (vm_compute; reflexivity).
  split; [exact F|]. split; [exact C|].
  assert (A : is_ok (RetryPolicyFromJob no_order (Some oom_desired)) = true) by (vm_compute; reflexivity).
  revert F. unfold oom_result. destruct (RetryPolicyFromJob no_order (Some oom_desired)) as [policy|e] eqn:P; [|discriminate A].
  intros F. exists policy.
  pose proof (retry_protocol z_decode_job no_order (Some oom_cluster) (Some oom_observer) (fun _ => Ok "{}"%string) None
    (cret tt) oom_keeps oom_desired policy oom_run P) as X. cbv zeta in X.
  destruct (runWithRetryPolicy _ _ _ _ _ _ _ _ _ oom_run) as [r k']. cbn [fst snd] in *.
  destruct X as (evs & E & X). change (resumes _ _ _ policy) with (Some (None : option (InstantJobRetryCheckpoint Z), policy)) in X.
  destruct X as (p & Acc & Okay & _). exists p. split; [reflexivity|]. rewrite E. split; [exact Acc|exact (Okay F)].
Defined.

Lemma attempts_terminate_witness :
  exists cp policy r, RetryPolicyFromJob no_order (Some oom_desired) = Ok (Some policy) /\
    fst (run_attempts (Some oom_cluster) (Some oom_observer) z_decode_job no_order (fun _ => Ok "{}"%string) None (cret tt)
      (turns_left policy cp) policy cp oom_run) = Some r.
Proof.
  assert (A : match RetryPolicyFromJob no_order (Some oom_desired) with Ok (Some pol) => MaxRetries pol <=? 10 | _ => false end = true)
    by (vm_compute; reflexivity).
  destruct (RetryPolicyFromJob no_order (Some oom_desired)) as [[policy|]|e]; [|discriminate A..].
  exists (Build_InstantJobRetryCheckpoint "instant_job_retry" 1 1 "" "" 0 (600 * Second) (Some oom_desired) None), policy.
  destruct (attempts_terminate (Some oom_cluster) (Some oom_observer) z_decode_job no_order (fun _ => Ok "{}"%string) None (cret tt)
    policy (Build_InstantJobRetryCheckpoint "instant_job_retry" 1 1 "" "" 0 (600 * Second) (Some oom_desired) None) oom_run
    oom_keeps (proj1 (Z.leb_le _ _) A) ltac:(discriminate)) as [r R].
  exists r. split; [reflexivity|exact R].
Defined.
