(* ===== verification/Results.v ===== *)
(** The consumer of finished Jobs' results: [pkg/apiserver/event/workflow/job/jobresult/result.go].

    A delivery of the broker names a row of the outbox.  The consumer claims the row,
    waits for the Job, records its outcome and logs, removes the completed Job and its
    Pods, deletes the row and acknowledges the delivery.  A run is a [KubeRun] whose
    context is the one of the delivery ([processCtx] of the source): the heartbeat that
    renews the lease in the background is another session of the data store, and its
    failure the cause that cancels this context.  [ack_queue] is the broker's [Ack],
    [token] the UUIDs of the claim's attempts.

    Left out: the loops that read and claim deliveries and the goroutine per delivery,
    of which the set of deliveries in flight and the delay after an error are modelled. *)

From S2P Require Import Prelude GoStrings Config Json Quantity Policy Model Store Lease Budget.
From S2P Require Import Signals Scheduler PodResources Retry Cleanup JobInfos Components Controller JobExec RunJob KubeJobs.
From S2P Require Import PodLogs DelayQueue Sha1 Outbox.

(** ** Deliveries in flight *)

(** Whether the delivery was not being handled, and the set afterwards. *)
Definition markMessageInFlight (id : string) (inFlight : gset string) : bool * gset string :=
  if str_empty id then (true, inFlight)
  else if bool_decide (id ∈ inFlight) then (false, inFlight)
  else (true, {[id]} ∪ inFlight).

Definition markMessageDone (id : string) (inFlight : gset string) : gset string :=
  if str_empty id then inFlight else inFlight ∖ {[id]}.

Definition releaseInFlightMessages (inFlight : gset string) : gset string := ∅.

Definition DefaultWorkerBackoffMin : Z := 200 * Millisecond.
Definition DefaultWorkerBackoffMax : Z := 5 * Minute.

Definition backoffDelay (backoffMin backoffMax current : Z) : Z :=
  let current := if current <=? 0 then backoffMin else current in
  let next := i64 (current * 2) in
  let next := if backoffMax <? next then backoffMax else next in
  if next <? backoffMin then backoffMin else next.

Record Message := { msg_ID : string; msg_Payload : string }.

Section Results.
Context {Q : Type} `{QuantityOps Q} `{KubernetesJson Q}.
Variable client : option (Cluster Q).
Variable error_text : error -> string.
Variable token : nat -> string.
Variable ack_queue : list (KubeEvent Q) -> string -> option error.

Definition ackMessage (msgID reason : string) : K Q (option error) :=
  if str_empty msgID then kret None else
  kube! k := kget in
  let err := ack_queue (kr_log k) msgID in
  kube! _ := note (KvAck msgID reason err) in
  kret err.

(** [d.ackMessage(...) == nil] *)
Definition acked (msgID reason : string) : K Q bool :=
  kube! err := ackMessage msgID reason in
  kret (match err with None => true | Some _ => false end).

(** A step of the row's owner under the context of the delivery. *)
Definition owned_step {A} (outbox : JobResultOutbox) (persist : JobResultOutbox -> M A) : K Q (result A) :=
  kube! stopped := job_ctx in
  kdb (withResultOutboxOwnership stopped outbox persist).

Definition bind_uid (outbox : JobResultOutbox) (uid : string) : K Q (result JobResultOutbox) :=
  kube! stopped := job_ctx in
  kdb (bindResultOutboxJobUID stopped outbox uid).

Definition cleanupPersistedResult (payload : JobResultPayload) (outbox : JobResultOutbox) (job : option (Job Q))
    : K Q (result unit) :=
  kube! stopped := job_ctx in
  match stopped with
  | Some e => kerr e
  | None =>
      must! _ := owned_step outbox (fun _ => ret tt) in
      kwrap (Wrapf "clean committed result")
        (DeleteCompletedJobAndPods client (rp_Namespace payload) (rp_Name payload) job)
  end.

(** [matchesExpectedJob]: the first Job with the payload's identity fixes the UID. *)
Definition matches_expected (payload : JobResultPayload) (expectedUID : string) (job : Job Q) : bool * string :=
  if negb (JobResultMatchesExecutionIdentity (Some payload) (Some job)) then (false, expectedUID) else
  let expectedUID := if str_empty expectedUID then kj_UID job else expectedUID in
  ((kj_UID job =? expectedUID)%string, expectedUID).

(** What is left of a Job that is gone. *)
Definition gone_job (namespace name uid : string) : Job Q :=
  job_zero <| kj_Name := name |> <| kj_Namespace := namespace |> <| kj_UID := uid |>.

(** [Jobs(namespace).Get], a missing Job being [None]. *)
Definition find_job (msg namespace name : string) : K Q (result (option (Job Q))) :=
  kube! r := kube_Get client namespace name in
  match r with
  | Ok job => kok (Some job)
  | Err e => if errors_is ErrNotFound e then kok None else kerr (Wrapf msg e)
  end.

(** The transaction that records the result; the status on record afterwards. *)
Definition persist_result (payload : JobResultPayload) (status message : string) (startTime endTime : Z) (logs : string)
    : M string :=
  let! _ := UpdateJobInfoStatus payload status message startTime endTime logs in
  let! saved := findJobInfoForResult payload in
  match saved with
  | Some saved =>
      guard! IsSettledDelayedExecutionStatus (job_Status saved)
        else Errorf "result status was not persisted for execution";
      ret (job_Status saved)
  | None => throw (Errorf "result status was not persisted for execution")
  end.

(** Recording the outcome [status] and removing the completed Job. *)
Definition record_result (payload : JobResultPayload) (outbox : JobResultOutbox) (job : option (Job Q))
    (status message : string) (err : option error) : K Q (result unit) :=
  let serviceName := TrimSpace (rp_ServiceName payload) in
  let serviceName := if str_empty serviceName
                     then match job with Some job => component_of_job job | None => serviceName end
                     else serviceName in
  let payload := payload <| rp_ServiceName := serviceName |> in
  let '(startTime, endTime) := jobTimesFromStatus job in
  kube! now := in_job now_unix in
  let endTime := if (endTime =? 0) && negb (status =? StatusRunning)%string then now else endTime in
  must! logs := (if (status =? StatusCompleted)%string
                 then kwrap (Wrapf "collect result logs before cleanup")
                        (CollectJobPodLogsForJob client (TrimSpace (rp_Namespace payload)) (rp_Name payload) job)
                 else kok ""%string) in
  must! persistedStatus := owned_step outbox (fun _ => persist_result payload status message startTime endTime logs) in
  must! _ := (if (persistedStatus =? StatusCompleted)%string then cleanupPersistedResult payload outbox job else kok tt) in
  match err with
  | Some e => match ExtractStatusError e with Some _ => kok tt | None => kerr e end
  | None => kok tt
  end.

(** After the wait, with the UID the wait expects. *)
Definition finish_wait (payload : JobResultPayload) (outbox : JobResultOutbox) (waited : string * string * option error)
    (expectedUID : string) : K Q (result unit * JobResultOutbox) :=
  let '(status, message, err) := waited in
  let namespace := TrimSpace (rp_Namespace payload) in
  if match err with Some e => errors_is ErrJobExecutionIdentityChanged e | None => false end
  then kret (Ok tt, outbox) else
  match match err with
        | Some e => match ExtractStatusError e with Some _ => None | None => Some (Wrapf "observe result job" e) end
        | None => None
        end with
  | Some e => kret (Err e, outbox)
  | None =>
      let '(status, message) := jobCompletionResult error_text status message err in
      kube! bound := bind_uid outbox expectedUID in
      match bound with
      | Err e => kret (Err e, outbox)
      | Ok outbox =>
          kube! found := find_job "get job after completion" namespace (rp_Name payload) in
          match found with
          | Err e => kret (Err e, outbox)
          | Ok job =>
              let '(same, expectedUID) := match job with
                                          | Some job => matches_expected payload expectedUID job
                                          | None => (true, expectedUID)
                                          end in
              if negb same then kret (Ok tt, outbox) else
              let job := match job with
                         | None => if str_empty expectedUID then None
                                   else Some (gone_job namespace (rp_Name payload) expectedUID)
                         | job => job
                         end in
              kube! r := record_result payload outbox job status message err in
              kret (r, outbox)
          end
      end
  end.

(** The error and the caller's copy of the row afterwards. *)
Definition processJobResultWithOutbox (payload : JobResultPayload) (outbox : JobResultOutbox)
    : K Q (result unit * JobResultOutbox) :=
  let stop e := kret (Err e, outbox) in
  if negb (isResultPayloadProcessable (Some payload)) || blank (ob_ID outbox) then stop ErrResultDispatchNoRetry else
  match client with
  | None => stop ErrResultDispatchNoRetry
  | Some _ =>
      let namespace := TrimSpace (rp_Namespace payload) in
      if str_empty namespace then stop ErrResultDispatchNoRetry else
      if rp_TimeoutSeconds payload <=? 0
      then stop (Wrapf "result payload has no timeout" ErrResultDispatchNoRetry) else
      kube! record := kdb (findJobInfoForResult payload) in
      match record with
      | Err e => stop e
      | Ok record =>
          match match record with
                | Some record => if IsSettledDelayedExecutionStatus (job_Status record) then Some record else None
                | None => None
                end with
          | Some record =>
              if negb (job_Status record =? StatusCompleted)%string then kret (Ok tt, outbox) else
              if str_empty (ob_JobUID outbox) then kret (Ok tt, outbox) else
              kube! r := cleanupPersistedResult payload outbox
                (Some (gone_job namespace (rp_Name payload) (ob_JobUID outbox))) in
              kret (r, outbox)
          | None =>
              kube! found := find_job "get job before processing result" namespace (rp_Name payload) in
              match found with
              | Err e => stop e
              | Ok current =>
                  if match current with
                     | Some _ => negb (JobResultMatchesExecutionIdentity (Some payload) current)
                     | None => false
                     end
                  then kret (Ok tt, outbox) else
                  let expectedUID := match current with Some job => kj_UID job | None => ""%string end in
                  kube! bound := bind_uid outbox expectedUID in
                  match bound with
                  | Err e => stop e
                  | Ok outbox =>
                      let expectedUID := if str_empty (ob_JobUID outbox) then expectedUID else ob_JobUID outbox in
                      kube! waited := WaitForJobCompletionMatching client error_text
                        (Some (matches_expected payload)) namespace (rp_Name payload) expectedUID in
                      finish_wait payload outbox (fst waited) (snd waited)
                  end
              end
          end
      end
  end.

(** The heartbeat's failure is the cause of the cancelled context. *)
Definition processOwnedResult (outbox : JobResultOutbox) (payload : JobResultPayload)
    : K Q (option error * JobResultOutbox) :=
  kube! r := processJobResultWithOutbox payload outbox in
  kube! cause := in_job job_cause in
  kret (join (match fst r with Ok _ => None | Err e => Some e end) cause, snd r).

Definition handleOutboxMessage (message : Message) (payload : JobResultPayload) : K Q bool :=
  kube! loaded := kdb (getJobResultOutboxByID (TrimSpace (rp_OutboxID payload))) in
  match loaded with
  | Err e => if errors_is ErrRecordNotExist e then acked (msg_ID message) "outbox_missing" else kret false
  | Ok outbox =>
      kube! claimed := kdb (claimResultOutbox token outbox (msg_ID message)) in
      match claimed with
      | Err _ => kret false
      | Ok (false, _) => acked (msg_ID message) "outbox_not_claimed"
      | Ok (true, outbox) =>
          kube! r := (match jobResultPayloadFromOutbox outbox with
                      | None => kret (Some ErrResultDispatchNoRetry, outbox)
                      | Some payload => processOwnedResult outbox payload
                      end) in
          let '(err, outbox) := r in
          match err with
          | Some e =>
              if errors_is ErrResultOutboxOwnershipLost e then kret false else
              if errors_is ErrResultDispatchNoRetry e then
                kube! marked := kdb (markJobResultOutboxFailed outbox (error_text e)) in
                match marked with
                | Err _ => kret false
                | Ok _ => acked (msg_ID message) "no_retry_process_error"
                end
              else
                kube! _ := kdb (retryResultOutbox outbox (error_text e)) in kret false
          | None =>
              kube! deleted := kdb (withResultOutboxOwnership None outbox (fun _ => deleteJobResultOutbox (ob_ID outbox))) in
              match deleted with
              | Err _ => kret false
              | Ok _ => acked (msg_ID message) "processed"
              end
          end
      end
  end.

Definition handleMessage (message : Message) : K Q bool :=
  if str_empty (msg_ID message) then kret true else
  if str_empty (msg_Payload message) then acked (msg_ID message) "empty_payload" else
  match decodeResultPayload (msg_Payload message) with
  | Err _ => acked (msg_ID message) "decode_payload_failed"
  | Ok payload => handleOutboxMessage message payload
  end.
End Results.
