(* ===== verification/ResultsSpec.v ===== *)
(** What the consumer of results in [Results] promises, whatever the cluster answers and
    the other sessions commit.

    [quiet] programs leave the data store alone and ask the cluster only questions.
    [settled_kept] says that a settled record of a job keeps its status and identity:
    the rely of the other sessions and a guarantee of the consumer.  Nothing is removed
    from the cluster before the result is on record as completed, and what is removed
    carries the UID bound to the outbox row; a consumer that lost its row changes
    nothing, in the store or in the cluster. *)

From S2P Require Import Prelude GoStrings Config Json Quantity Policy Model Store Hoare Lease LeaseProtocol Budget.
From S2P Require Import Creation Signals Scheduler Admission AdmissionSpec AdmissionGuard PodResources Retry Cleanup.
From S2P Require Import JobInfos Components Controller ControllerSpec ControllerSafety JobExec RunJob RunJobSpec.
From S2P Require Import JobRunner KubeJobs PodLogs DelayQueue Instant KubeSpec Sha1 Outbox OutboxSpec Results.

Section Basics.
Context {Q : Type} `{QuantityOps Q} `{KubernetesJson Q}.

Definition world_of (k : KubeRun Q) : World := ex_world (jr_exec (kr_run k)).

(** A request that changes the cluster. *)
Definition destructive (ev : KubeEvent Q) : bool :=
  match ev with
  | KvCreate _ _ | KvUpdate _ _ | KvDelete _ _ _ _ _ | KvDiscard _ _ _ _ _ | KvDeletePod _ _ _ _ => true
  | KvCron (CvGet _ _ _) => false
  | KvCron _ => true
  | _ => false
  end.

(** The log grew by events that meet [T]; the data store is as before. *)
Definition quiet (T : KubeEvent Q -> Prop) (k k' : KubeRun Q) : Prop :=
  world_of k' = world_of k /\ exists new, kr_log k' = (kr_log k ++ new)%list /\ List.Forall T new.

#[export] Instance quiet_preorder T : PreOrder (quiet T).
Proof.
  split.
  - intros k. split; [done|]. exists []. by rewrite app_nil_r.
  - intros a b c [W1 (n1 & L1 & F1)] [W2 (n2 & L2 & F2)]. split; [congruence|]. exists (n1 ++ n2)%list.
    split; [by rewrite L2, L1, app_assoc|]. by apply List.Forall_app.
Qed.

Definition question (ev : KubeEvent Q) : Prop := destructive ev = false.

Section Walk.
Context (T : KubeEvent Q -> Prop).
Hypothesis question_T : forall ev, question ev -> T ev.
Implicit Type client : option (Cluster Q).

Lemma quiet_log k f : (forall k, world_of (f k) = world_of k /\ kr_log (f k) = kr_log k) -> quiet T k (f k).
Proof. intros E. destruct (E k) as [W L]. split; [done|]. exists []. by rewrite L, app_nil_r. Qed.

Lemma quiet_note ev : T ev -> kkeeps (quiet T) (note ev).
Proof. intros Hev k. split; [done|]. exists [ev]. split; [done|]. by constructor. Qed.

Lemma quiet_question ev : destructive ev = false -> kkeeps (quiet T) (note ev).
Proof. intros C. by apply quiet_note, question_T. Qed.
Hint Extern 1 (kkeeps _ (note _)) => apply quiet_question; reflexivity : kube.

Lemma quiet_cause : kkeeps (quiet T) (in_job job_cause).
Proof.
  intros k. assert (W : ex_world (jr_exec (snd (job_cause (kr_run k)))) = world_of k).
  { unfold world_of, job_cause. destruct (ctx_cause (jr_exec (kr_run k))) as [above e] eqn:C. cbn [snd]. cbv zeta.
    assert (We : ex_world e = ex_world (jr_exec (kr_run k))).
    { unfold ctx_cause, cancel_ctx in C. destruct (ex_signals _) as [|[x|] l]; injection C as <- <-; [done| |done].
      by destruct (ex_cause _). }
    set (j1 := (kr_run k) <| jr_exec := e |>).
    assert (E1 : jr_exec (match above with Some cause => cancel_job cause j1 | None => j1 end) = e)
      by (destruct above; [by rewrite cancel_job_exec|done]).
    set (j2 := match above with Some cause => _ | None => _ end) in *. clearbody j2.
    destruct (jr_watched j2); [|by rewrite E1].
    destruct (jr_watch j2) as [|[reason|] r]; rewrite ?cancel_job_exec; cbn; by rewrite E1. }
  unfold in_job. destruct (job_cause (kr_run k)) as [c j]. split; [exact W|]. exists []. by rewrite app_nil_r.
Qed.
Hint Resolve quiet_cause : kube.

Lemma quiet_ctx : kkeeps (quiet T) job_ctx.
Proof. unfold job_ctx. kkeeps_tac. Qed.
Hint Resolve quiet_ctx : kube.

Lemma quiet_ticks : kkeeps (quiet T) next_ticks.
Proof. intros k. unfold next_ticks. destruct (kr_ticks k); [reflexivity|]. split; [done|]. exists []. by rewrite app_nil_r. Qed.
Hint Resolve quiet_ticks : kube.

Lemma quiet_now : kkeeps (quiet T) (in_job now_unix).
Proof. intros k. split; [done|]. exists []. by rewrite app_nil_r. Qed.

Lemma quiet_Get client namespace name : kkeeps (quiet T) (kube_Get client namespace name).
Proof. unfold kube_Get. kkeeps_tac. Qed.
Lemma quiet_Pods client namespace name : kkeeps (quiet T) (kube_Pods client namespace name).
Proof. unfold kube_Pods. kkeeps_tac. Qed.
Lemma quiet_Pod client namespace name : kkeeps (quiet T) (kube_Pod client namespace name).
Proof. unfold kube_Pod. kkeeps_tac. Qed.
Lemma quiet_Logs client namespace pod container : kkeeps (quiet T) (kube_Logs client namespace pod container).
Proof. unfold kube_Logs. kkeeps_tac. Qed.
Hint Resolve quiet_now quiet_Get quiet_Pods quiet_Pod quiet_Logs : kube.

Lemma quiet_find client msg namespace name : kkeeps (quiet T) (find_job client msg namespace name).
Proof. unfold find_job. kkeeps_tac. Qed.

Lemma quiet_wait {S} client error_text (matches : option (S -> Job Q -> bool * S)) namespace name seen :
  kkeeps (quiet T) (WaitForJobCompletionMatching client error_text matches namespace name seen).
Proof.
  unfold WaitForJobCompletionMatching. kkeeps_tac. match goal with |- kkeeps _ (wait_completion _ _ _ ?n _ _ _) =>
    generalize n; intros ticks end. revert seen. induction ticks as [|ticks IH]; intros seen; cbn [wait_completion];
    unfold check_completion, jobSucceededOwnedPodsCompleted; kkeeps_tac; apply IH.
Qed.

Lemma quiet_containers client namespace owner pod containers c :
  kkeeps (quiet T) (collect_containers client namespace owner pod containers c).
Proof.
  revert c. induction containers as [|x l IH]; intros c; cbn [collect_containers];
    unfold collect_container, ReadPodContainerLogsWithMode, confirm_pod; kkeeps_tac; apply IH.
Qed.
Hint Resolve quiet_containers : kube.

Lemma quiet_pods client namespace owner pods c : kkeeps (quiet T) (collect_pods client namespace owner pods c).
Proof.
  revert c. induction pods as [|pod pods IH]; intros c; cbn [collect_pods]; [kkeeps_tac|].
  destruct (match owner with Some job => negb (podOwnedByJob pod job) | None => false end); [apply IH|].
  apply kkeeps_bind; [apply _|apply quiet_containers|]. intros c'. apply IH.
Qed.
Hint Resolve quiet_pods : kube.

Lemma quiet_logs client namespace name owner :
  kkeeps (quiet T) (CollectJobPodLogsForJob client namespace name owner).
Proof. unfold CollectJobPodLogsForJob. kkeeps_tac. Qed.

Lemma quiet_absent client namespace name uid : kkeeps (quiet T) (jobUIDAbsent client namespace name uid).
Proof. unfold jobUIDAbsent. kkeeps_tac. Qed.
Lemma quiet_wait_absent client namespace name uid : kkeeps (quiet T) (waitForJobUIDDeletion client namespace name uid).
Proof. unfold waitForJobUIDDeletion, jobUIDAbsent. kkeeps_tac. Qed.
Hint Resolve quiet_absent quiet_wait_absent : kube.

End Walk.
#[local] Hint Resolve quiet_absent quiet_wait_absent quiet_Pods quiet_Get : kube.

(** *** Removing a completed Job *)

(** The Job named by the caller, when it is identified. *)
Definition identified (namespace name : string) (job : Job Q) : Prop :=
  kj_UID job <> ""%string /\ kj_Name job = name /\ (kj_Namespace job = ""%string \/ kj_Namespace job = namespace).

Section Removing.
Context (namespace name : string) (U : string -> Prop).
Implicit Type client : option (Cluster Q).

(** A removal of the Job of this name, under a UID that [U] allows; or of a succeeded Pod of such a Job, as the
    cluster listed it in [log]. *)
Definition target (log : list (KubeEvent Q)) (ev : KubeEvent Q) : Prop :=
  match ev with
  | KvDiscard ns n uid _ _ => ns = namespace /\ n = name /\ U uid
  | KvDeletePod ns n uid _ => exists label pods pod owner,
      In (KvPods ns label (Ok pods)) log /\ In pod pods /\ pod_Name pod = n /\ pod_UID pod = uid /\
      pod_Phase pod = PodSucceeded /\ In owner (pod_OwnerReferences pod) /\ or_Kind owner = "Job"%string /\ U (or_UID owner)
  | _ => False
  end.

Lemma target_more log log' ev : incl log log' -> target log ev -> target log' ev.
Proof.
  intros I. destruct ev; try done. cbn. intros (label & pods & pod & owner & L & R). exists label, pods, pod, owner.
  split; [by apply I|done].
Qed.

(** The cluster is asked questions and such removals; the store is as before. *)
Definition removes (k k' : KubeRun Q) : Prop :=
  world_of k' = world_of k /\
  exists new, kr_log k' = (kr_log k ++ new)%list /\ List.Forall (fun ev => question ev \/ target new ev) new.

Lemma targets_app (P : list (KubeEvent Q) -> KubeEvent Q -> Prop) (n1 n2 : list (KubeEvent Q)) :
  (forall log log' ev, incl log log' -> P log ev -> P log' ev) ->
  List.Forall (P n1) n1 -> List.Forall (P n2) n2 -> List.Forall (P (n1 ++ n2)%list) (n1 ++ n2)%list.
Proof.
  intros M F1 F2. apply List.Forall_app. split; eapply List.Forall_impl; [|exact F1| |exact F2]; intros ev; apply M.
  - apply incl_appl, incl_refl.
  - apply incl_appr, incl_refl.
Qed.

#[export] Instance removes_preorder : PreOrder removes.
Proof.
  split.
  - intros k. split; [done|]. exists []. by rewrite app_nil_r.
  - intros a b c [W1 (n1 & L1 & F1)] [W2 (n2 & L2 & F2)]. split; [congruence|]. exists (n1 ++ n2)%list.
    split; [by rewrite L2, L1, app_assoc|]. apply (targets_app (fun log ev => question ev \/ target log ev)); [|done|done].
    intros log log' ev I [X|X]; [by left|right; by eapply target_more].
Qed.

Lemma removes_quiet {A} (m : K Q A) : kkeeps (quiet question) m -> kkeeps removes m.
Proof.
  intros Hm k. destruct (Hm k) as [W (new & L & F)]. split; [done|]. exists new. split; [done|].
  eapply List.Forall_impl; [|exact F]. auto.
Qed.

(** A Pod of the list that is deleted. *)
Definition listed_pod (ns : string) (pods : list Pod) (job : Job Q) (ev : KubeEvent Q) : Prop :=
  exists pod err, In pod pods /\ ev = KvDeletePod ns (pod_Name pod) (pod_UID pod) err /\
    pod_Phase pod = PodSucceeded /\ podOwnedByJob pod job = true.

Lemma quiet_delete_loop client ns job all pods n first :
  incl pods all -> kkeeps (quiet (listed_pod ns all job)) (delete_completed_pods client ns job pods n first).
Proof.
  revert n first. induction pods as [|pod pods IH]; intros n first I; cbn [delete_completed_pods]; [kkeeps_tac|].
  assert (I' : incl pods all) by (intros x Hx; apply I; by right).
  destruct (_ || _) eqn:C; [by apply IH|]. apply orb_false_iff in C as [C1 C2].
  apply negb_false_iff in C1, C2. apply String.eqb_eq in C1. apply kkeeps_bind; [apply _| |].
  - unfold kube_DeletePod. kkeeps_tac. apply quiet_note. eexists pod, _. split; [apply I; by left|done].
  - intros [u|e]; [by apply IH|]. destruct (errors_is _ _); by apply IH.
Qed.

Lemma removes_pods client ns job :
  U (kj_UID job) -> kkeeps removes (deleteCompletedPodsForJob client ns job).
Proof.
  intros HU. unfold deleteCompletedPodsForJob. destruct client as [c|]; [|apply kkeeps_ret, _].
  destruct (_ || _); [apply kkeeps_ret, _|]. cbv zeta. set (ns' := if str_empty ns then _ else _).
  destruct (str_empty ns'); [apply kkeeps_ret, _|].
  intros k. unfold kwrap, kube_Pods. cbn -[delete_completed_pods].
  set (pods := on_pods c (kr_log k) ns' (kj_Name job)).
  set (k1 := k <| kr_log := (kr_log k ++ [KvPods ns' (kj_Name job) pods])%list |>).
  assert (W1 : world_of k1 = world_of k) by done.
  destruct pods as [pods|e]; cbn -[delete_completed_pods].
  2: { split; [done|]. eexists. split; [reflexivity|]. constructor; [by left|constructor]. }
  pose proof (quiet_delete_loop (Some c) ns' job (by_name pods) (by_name pods) 0 None (incl_refl _) k1) as [W (new & L & F)].
  unfold kmust, kbind. cbn -[delete_completed_pods]. fold k1.
  destruct (delete_completed_pods (Some c) ns' job (by_name pods) 0 None k1) as [r k2]. cbn in W, L.
  assert (R : removes k k2).
  { split; [congruence|]. exists (KvPods ns' (kj_Name job) (Ok pods) :: new)%list.
    split; [rewrite L; unfold k1; cbn; by rewrite <- app_assoc|].
    constructor; [by left|]. eapply List.Forall_impl; [|exact F]. intros ev (pod & err & I & -> & Ph & Own). right. cbn.
    unfold podOwnedByJob in Own. apply andb_true_iff in Own as [_ Own]. apply existsb_exists in Own as (owner & Io & Own).
    apply andb_true_iff in Own as [Ok' Ou]. apply String.eqb_eq in Ok', Ou.
    exists (kj_Name job), pods, pod, owner. split; [by left|]. split.
    - unfold by_name in I. apply list_elem_of_In in I. rewrite merge_sort_Permutation in I. by apply list_elem_of_In.
    - do 5 (split; [done|]). by rewrite Ou. }
  by destruct (snd r).
Qed.

Lemma removes_job client job :
  U (kj_UID job) -> kkeeps removes (remove_completed client namespace name job).
Proof.
  intros HU. unfold remove_completed. cbv zeta. apply kkeeps_bind; [apply _| |intros deleted].
  { unfold kube_Discard. kkeeps_tac. intros k. split; [done|]. eexists. split; [reflexivity|].
    constructor; [by right|constructor]. }
  apply kkeeps_must; [apply _| |intros _].
  - apply removes_quiet. kkeeps_tac.
  - apply kkeeps_must; [apply _|by apply removes_pods|]. intros _. apply kkeeps_ret, _.
Qed.

Lemma removes_identified client job :
  identified namespace name job -> U (kj_UID job) ->
  kkeeps removes (DeleteCompletedJobAndPods client namespace name (Some job)).
Proof.
  intros (N & E & M) HU. unfold DeleteCompletedJobAndPods, kmust, jobForCompletedCleanup.
  destruct client; [|by intros k]. destruct (_ || _); [by intros k|].
  rewrite (proj2 (str_empty_false _) N), E, String.eqb_refl.
  assert (str_empty (kj_Namespace job) || (kj_Namespace job =? namespace)%string = true) as ->.
  { destruct M as [-> | ->]; [done|]. by rewrite String.eqb_refl, orb_true_r. }
  by apply removes_job.
Qed.

Lemma removes_any client fallback :
  (forall uid, U uid) -> kkeeps removes (DeleteCompletedJobAndPods client namespace name fallback).
Proof.
  intros Any. unfold DeleteCompletedJobAndPods. apply kkeeps_must; [apply _| |intros [job|]].
  - apply removes_quiet. unfold jobForCompletedCleanup. kkeeps_tac.
  - by apply removes_job.
  - apply kkeeps_ret, _.
Qed.
End Removing.
End Basics.

(** ** Records of results *)

(** A settled record keeps its status and identity. *)
Definition settled_kept (d d' : Database) : Prop :=
  forall id r, db_jobs d !! id = Some r -> IsSettledDelayedExecutionStatus (job_Status r) = true ->
    exists r', db_jobs d' !! id = Some r' /\ job_Status r' = job_Status r /\ job_TaskID r' = job_TaskID r /\
      job_ExecutionKey r' = job_ExecutionKey r /\ job_RunGeneration r' = job_RunGeneration r.

#[export] Instance settled_kept_preorder : PreOrder settled_kept.
Proof.
  split.
  - intros d id r L S. by exists r.
  - intros a b c H1 H2 id r L S. destruct (H1 id r L S) as (r1 & L1 & S1 & T1 & K1 & G1). rewrite <- S1 in S.
    destruct (H2 id r1 L1 S) as (r2 & L2 & S2 & T2 & K2 & G2). exists r2. repeat split; congruence.
Qed.

Lemma settled_other d d' : db_jobs d' = db_jobs d -> settled_kept d d'.
Proof. intros E id r L S. rewrite E. by exists r. Qed.

(** The result of this execution is on record with the status [st]. *)
Definition recorded (payload : JobResultPayload) (st : string) (d : Database) : Prop :=
  exists id r, db_jobs d !! id = Some r /\ job_Status r = st /\ job_TaskID r = rp_TaskID payload /\
    job_ExecutionKey r = Some (rp_ExecutionKey payload) /\ job_RunGeneration r = rp_RunGeneration payload.

Lemma recorded_kept payload st d d' :
  IsSettledDelayedExecutionStatus st = true -> settled_kept d d' -> recorded payload st d -> recorded payload st d'.
Proof.
  intros S K (id & r & L & E & T & X & G). destruct (K id r L) as (r' & L' & E' & T' & X' & G'); [by rewrite E|].
  exists id, r'. repeat split; congruence.
Qed.

Lemma settled_owned {A} ctx o (persist : JobResultOutbox -> M A) :
  (forall current, guarantees settled_kept (persist current)) ->
  guarantees settled_kept (withResultOutboxOwnership ctx o persist).
Proof. intros P. outbox_step; [apply P|by apply settled_other]. Qed.

Lemma settled_bind ctx o uid : guarantees settled_kept (bindResultOutboxJobUID ctx o uid).
Proof.
  unfold bindResultOutboxJobUID. repeat (match goal with |- guarantees _ (if ?c then _ else _) => destruct c end);
    try (outbox_step; fail).
  apply (outbox_bind _); [|intros _; outbox_step]. apply settled_owned. outbox_step. by apply settled_other.
Qed.

(** The first settled result stays. *)
Lemma settled_update payload status message t1 t2 info :
  guarantees settled_kept (UpdateJobInfoStatus payload status message t1 t2 info).
Proof.
  unfold UpdateJobInfoStatus. destruct (is_ok _); [|apply (outbox_read_only _); auto with store].
  generalize JobInfoSaveMaxAttempts as n. induction n as [|n IH]; cbn [update_attempts]; [outbox_step|].
  apply (outbox_bind _); [apply (outbox_read_only _); auto with store|]. intros [jobInfo|]; [|outbox_step].
  destruct (IsSettledDelayedExecutionStatus (job_Status jobInfo)) eqn:S; [outbox_step|].
  apply (outbox_bind _); [apply (outbox_read_only _); auto with store|]. intros now.
  apply (outbox_bind _); [|intros []; [outbox_step|apply IH]]. apply guarantees_wrap, guarantees_cas.
  intros w d row row' L Hc _ id r Hr Sr. cbn. destruct (decide (job_ID jobInfo = id)) as [<-|N].
  - cbn in L. rewrite Hr in L. injection L as <-. cbn [conds_hold forallb] in Hc. apply andb_true_iff in Hc as [E _].
    unfold cond_holds in E. cbn in E. apply String.eqb_eq in E. by rewrite E, S in Sr.
  - exists r. by rewrite lookup_insert_ne.
Qed.

Lemma settled_persist payload status message t1 t2 info :
  guarantees settled_kept (persist_result payload status message t1 t2 info).
Proof.
  unfold persist_result. apply (outbox_bind _); [apply settled_update|]. intros _. outbox_step.
Qed.

Lemma triple_true {A} R (m : M A) : advances m -> triple R (fun _ => True) m (fun _ _ => True).
Proof. intros Ha w r w' He _ E. split; [done|]. by eapply advances_respects. Qed.

Lemma find_row payload d saved :
  is_ok (validateJobResultPayload (Some payload)) = true ->
  head (select (E := JobInfo) (job_info_index (job_info_zero <| job_TaskID := rp_TaskID payload |>))
    {| Filter := result_filters payload; Page := 1; PageSize := 1;
       SortBy := [("create_time"%string, SortOrderDescending)] |} d) = Some saved ->
  recorded payload (job_Status saved) d.
Proof.
  intros V Hd. assert (Hin : In saved (select (E := JobInfo) (job_info_index (job_info_zero <| job_TaskID := rp_TaskID payload |>))
    {| Filter := result_filters payload; Page := 1; PageSize := 1;
       SortBy := [("create_time"%string, SortOrderDescending)] |} d)).
  { destruct (select _ _ d) as [|a l]; [done|]. injection Hd as <-. by left. }
  apply select_matches in Hin as [Hm Hr]. apply elem_rows in Hr as [id L]. exists id, saved. split; [exact L|]. split; [done|].
  assert (Tn : rp_TaskID payload <> ""%string).
  { unfold validateJobResultPayload in V. destruct (blank (rp_Name payload) || _); [done|].
    destruct (blank (rp_TaskID payload)) eqn:B; [done|]. by apply blank_nonempty. }
  unfold row_matches in Hm. rewrite !andb_true_iff in Hm. destruct Hm as [[[Hi Hf] _] _].
  unfold job_info_index in Hi. cbn [job_TaskID] in Hi. unfold index_str in Hi.
  cbn -[select val_eqb str_empty] in Hi. rewrite (proj2 (str_empty_false _) Tn) in Hi. cbn in Hi.
  cbn [Filter] in Hf. unfold result_filters in Hf. cbn [In_] in Hf. rewrite !forallb_app, !andb_true_iff in Hf. destruct Hf as (_ & _ & Hf).
  cbn in Hf. unfold get_col in Hi, Hf. cbn in Hi, Hf.
  destruct (job_ExecutionKey saved) as [key|]; cbn in Hf; [|done].
  rewrite andb_true_r in Hi. rewrite !orb_false_r, andb_true_r in Hf. apply andb_true_iff in Hf as [Hk Hg].
  apply String.eqb_eq in Hi, Hk. apply Z.eqb_eq in Hg. subst key. done.
Qed.

Lemma recorded_stable payload st :
  IsSettledDelayedExecutionStatus st = true -> stable settled_kept (recorded payload st).
Proof. intros S d d' K. by apply recorded_kept. Qed.

Definition settled_record (payload : JobResultPayload) (st : string) (d : Database) : Prop :=
  IsSettledDelayedExecutionStatus st = true /\ recorded payload st d.

Lemma settled_record_stable payload st : stable settled_kept (settled_record payload st).
Proof. intros d d' K [S R]. split; [done|]. by eapply recorded_kept. Qed.

Lemma advances_result payload status message t1 t2 info :
  advances (persist_result payload status message t1 t2 info).
Proof. eapply guarantees_advances, settled_persist. Qed.

(** What [persist_result] answers is on record. *)
Lemma triple_find payload :
  is_ok (validateJobResultPayload (Some payload)) = true ->
  triple settled_kept (fun _ => True) (findJobInfoForResult payload)
    (on_ok (fun found d => forall saved, found = Some saved -> recorded payload (job_Status saved) d)).
Proof.
  intros V. unfold findJobInfoForResult.
  eapply triple_bind_ok with (Mid := fun l d => forall saved, head l = Some saved -> recorded payload (job_Status saved) d).
  - apply triple_wrap. apply triple_List; [apply _|by intros d d'|done|]. intros d _ saved. by apply find_row.
  - intros l. by apply triple_ret.
Qed.

Lemma triple_persist payload status message t1 t2 info :
  triple settled_kept (fun _ => True) (persist_result payload status message t1 t2 info)
    (on_ok (settled_record payload)).
Proof.
  unfold persist_result. destruct (is_ok (validateJobResultPayload (Some payload))) eqn:V.
  - eapply triple_bind_ok with (Mid := fun _ _ => True).
    { eapply triple_weaken; [..|eapply triple_true, guarantees_advances, settled_update]; [done|]. by intros [a|e] d. }
    intros _. eapply triple_bind_ok; [by apply triple_find|]. intros [saved|]; [|by apply triple_throw].
    apply triple_if; intros S; [|by apply triple_throw]. apply triple_ret. intros d F. split; [done|by apply F].
  - intros w r w' He _ E. unfold UpdateJobInfoStatus in E. rewrite V in E. by injection E as <- <-.
Qed.

Lemma triple_owned_persist ctx o payload status message t1 t2 info :
  triple settled_kept (fun _ => True)
    (withResultOutboxOwnership ctx o (fun _ => persist_result payload status message t1 t2 info))
    (on_ok (settled_record payload)).
Proof.
  unfold withResultOutboxOwnership. destruct ctx; [by apply triple_throw|].
  apply triple_if; intros _; [|by apply triple_throw].
  apply triple_transaction with (Post := on_ok (settled_record payload));
    [apply _| | |intros st; apply settled_record_stable|done|].
  - store_step. apply advances_result.
  - by intros d.
  - eapply triple_bind_ok with (Mid := fun _ _ => True).
    { eapply triple_weaken; [..|apply triple_true]; [done| |auto with store]. by intros [a|e] d. }
    intros owned. apply triple_if; intros _; [|by apply triple_throw].
    eapply triple_bind_ok with (Mid := fun _ _ => True).
    { eapply triple_weaken; [..|apply triple_true]; [done| |auto with store]. by intros [a|e] d. }
    intros current. eapply triple_bind_ok with (Mid := fun _ _ => True).
    { eapply triple_weaken; [..|apply triple_true]; [done| |]. by intros [a|e] d.
      apply read_only_advances. auto with store. }
    intros now. apply triple_if; intros _; [|by apply triple_throw]. apply triple_persist.
Qed.

(** ** Programs of the consumer *)

Section Consumer.
Context {Q : Type} `{QuantityOps Q} `{KubernetesJson Q}.
Implicit Type k : KubeRun Q.

Lemma kdb_run {A} (m : M A) k :
  fst (kdb m k) = fst (m (world_of k)) /\ world_of (snd (kdb m k)) = snd (m (world_of k)) /\
  kr_log (snd (kdb m k)) = kr_log k.
Proof. unfold kdb, in_job, jdb, exec, db, world_of. by destruct (m _) as [r w]. Qed.

(** Steps related by [R] whose value meets [P]. *)
Definition kvalue {A} (R : relation (KubeRun Q)) (P : A -> Prop) (m : K Q A) : Prop :=
  forall k, R k (snd (m k)) /\ P (fst (m k)).

Lemma kvalue_bind {A B} (R : relation (KubeRun Q)) `{!PreOrder R} (P : A -> Prop) (m : K Q A) (f : A -> K Q B) :
  kvalue R P m -> (forall a, P a -> kkeeps R (f a)) -> kkeeps R (kbind m f).
Proof.
  intros Hm Hf k. unfold kbind. destruct (Hm k) as [R1 Pa]. destruct (m k) as [a k']. cbn in *.
  etrans; [exact R1|]. by apply Hf.
Qed.

Lemma kvalue_keeps {A} (R : relation (KubeRun Q)) (m : K Q A) : kkeeps R m -> kvalue R (fun _ => True) m.
Proof. intros Hm k. by split. Qed.

(** *** The result is durable before the cluster changes *)

Definition others_settled k : Prop := env_respects settled_kept (w_env (world_of k)).
Definition store_of k : Database := w_db (world_of k).

Section Durable.
Variables (payload : JobResultPayload) (U : string -> Prop).

(** Each commit keeps the settled records, and what [U] allows is removed once the result is on record. *)
Definition removal (log : list (KubeEvent Q)) (d : Database) (ev : KubeEvent Q) : Prop :=
  question ev \/
  (target (rp_Namespace payload) (rp_Name payload) U log ev /\ settled_record payload StatusCompleted d).

Definition durable k k' : Prop :=
  others_settled k ->
  commits settled_kept (world_of k) (world_of k') /\
  exists new, kr_log k' = (kr_log k ++ new)%list /\ List.Forall (removal new (store_of k')) new.

Lemma durable_others k k' : durable k k' -> others_settled k ->
  settled_kept (store_of k) (store_of k') /\ others_settled k'.
Proof. intros D O. destruct (D O) as [C _]. revert O. apply commits_respects, C. apply _. Qed.

Lemma removal_later log log' d d' ev :
  incl log log' -> settled_kept d d' -> removal log d ev -> removal log' d' ev.
Proof.
  intros I K [X|[T S]]; [by left|right]. split; [by eapply target_more|]. by eapply settled_record_stable.
Qed.

#[export] Instance durable_preorder : PreOrder durable.
Proof.
  split.
  - intros k _. split; [reflexivity|]. exists []. by rewrite app_nil_r.
  - intros a b c H1 H2 O. destruct (durable_others _ _ H1 O) as [_ O1]. destruct (durable_others _ _ H2 O1) as [K2 _].
    destruct (H1 O) as (C1 & n1 & L1 & F1). destruct (H2 O1) as (C2 & n2 & L2 & F2). split; [by etrans|].
    exists (n1 ++ n2)%list. split; [by rewrite L2, L1, app_assoc|].
    apply (targets_app (fun log ev => removal log (store_of c) ev)); [| |done].
    + intros log log' ev I. by apply removal_later.
    + eapply List.Forall_impl; [|exact F1]. intros ev. apply removal_later; [apply incl_refl|done].
Qed.

Lemma durable_quiet k k' : quiet question k k' -> durable k k'.
Proof.
  intros [W (new & L & F)] _. split; [by rewrite W|]. exists new. split; [done|].
  eapply List.Forall_impl; [|exact F]. intros ev X. by left.
Qed.

Lemma durable_ask {A} (m : K Q A) : kkeeps (quiet question) m -> kkeeps durable m.
Proof. intros Hm k. apply durable_quiet, Hm. Qed.

Lemma durable_db {A} (m : M A) : guarantees settled_kept m -> kkeeps durable (kdb m).
Proof.
  intros G k _. destruct (kdb_run m k) as (_ & W & L). split.
  - rewrite W. eapply G, surjective_pairing.
  - exists []. by rewrite L, app_nil_r.
Qed.

(** Removals, once the result is on record. *)
Lemma durable_removal {A} (m : K Q A) k :
  kkeeps (removes (rp_Namespace payload) (rp_Name payload) U) m -> settled_record payload StatusCompleted (store_of k) ->
  durable k (snd (m k)).
Proof.
  intros Hm S _. destruct (Hm k) as [W (new & L & F)]. unfold store_of. rewrite W. split; [reflexivity|].
  exists new. split; [done|]. eapply List.Forall_impl; [|exact F]. intros ev [X|X]; [by left|by right].
Qed.

Lemma durable_owned_step {A} o (persist : JobResultOutbox -> M A) :
  (forall current, guarantees settled_kept (persist current)) -> kkeeps durable (owned_step o persist).
Proof.
  intros P. apply kkeeps_bind; [apply _|by apply durable_ask, quiet_ctx|]. intros stopped. by apply durable_db, settled_owned.
Qed.

(** From a database where the result is on record. *)
Definition durable_from {A} (m : K Q A) : Prop :=
  forall k, settled_record payload StatusCompleted (store_of k) -> durable k (snd (m k)).

Lemma durable_from_keeps {A} (m : K Q A) : kkeeps durable m -> durable_from m.
Proof. intros Hm k _. apply Hm. Qed.

(** A database step whose result says what is on record. *)
Lemma durable_then {A B} (m : K Q A) (f : A -> K Q B) k :
  durable k (snd (m k)) ->
  (others_settled k -> others_settled (snd (m k)) -> durable (snd (m k)) (snd (f (fst (m k)) (snd (m k))))) ->
  durable k (snd (kbind m f k)).
Proof.
  intros Hm Hf O. pose proof Hm as Hm'. unfold kbind. destruct (m k) as [a k1]. cbn in *.
  destruct (durable_others _ _ Hm O) as [_ O1]. specialize (Hf O O1).
  by apply (transitivity (R := durable) Hm' Hf).
Qed.

Lemma durable_from_bind {A B} (m : K Q A) (f : A -> K Q B) :
  kkeeps durable m -> (forall a, durable_from (f a)) -> durable_from (kbind m f).
Proof.
  intros Hm Hf k S. apply durable_then; [apply Hm|]. intros O O1. apply Hf.
  destruct (durable_others _ _ (Hm k) O) as [K _]. by eapply settled_record_stable.
Qed.
Lemma durable_from_then {A B} (m : K Q A) (f : A -> K Q B) :
  durable_from m -> (forall a, kkeeps durable (f a)) -> durable_from (kbind m f).
Proof. intros Hm Hf k S. apply durable_then; [by apply Hm|]. intros _ _. apply Hf. Qed.
End Durable.
End Consumer.

Section Process.
Context {Q : Type} `{QuantityOps Q} `{KubernetesJson Q}.
Variable client : option (Cluster Q).
Variable error_text : error -> string.
Variable payload : JobResultPayload.
Implicit Type k : KubeRun Q.

Section Removal.
Variable U : string -> Prop.

(** What may be removed: anything [U] allows, or the identified Job when [U] allows it. *)
Definition removable (job : option (Job Q)) : Prop :=
  (forall uid, U uid) \/
  exists j, job = Some j /\ identified (rp_Namespace payload) (rp_Name payload) j /\ U (kj_UID j).

Lemma durable_cleanup s o job :
  removable job -> durable_from payload U (cleanupPersistedResult client (payload <| rp_ServiceName := s |>) o job).
Proof.
  intros Rm. unfold cleanupPersistedResult.
  apply durable_from_bind; [apply durable_ask, quiet_ctx; auto|]. intros [e|]; [apply durable_from_keeps, kkeeps_ret, _|].
  apply durable_from_bind.
  { apply durable_owned_step. intros current. apply (outbox_read_only _). auto with store. }
  intros [u|e]; [|apply durable_from_keeps, kkeeps_ret, _].
  intros k S. apply (durable_removal payload U); [|exact S]. apply kkeeps_wrap; [apply _|].
  destruct Rm as [Any|(j & -> & Id & Uj)].
  - by apply removes_any.
  - by apply removes_identified.
Qed.

Lemma persisted s o status message t1 t2 info k :
  others_settled k ->
  let step := owned_step o (fun _ => persist_result (payload <| rp_ServiceName := s |>) status message t1 t2 info) in
  match fst (step k) with Ok st => settled_record payload st (store_of (snd (step k))) | Err _ => True end.
Proof.
  intros O step. unfold step, owned_step, kbind. pose proof (quiet_ctx question k) as [W _].
  destruct (job_ctx k) as [stopped k1]. cbn in W.
  set (m := withResultOutboxOwnership stopped o _). destruct (kdb_run m k1) as (E1 & E2 & _). unfold store_of.
  rewrite E1, E2, W. destruct (m (world_of k)) as [r w'] eqn:E. cbn.
  destruct (triple_owned_persist stopped o (payload <| rp_ServiceName := s |>) status message t1 t2 info _ _ _ O I E) as [Po _].
  by destruct r.
Qed.

Lemma durable_persist s o status message t1 t2 info (f : string -> K Q (result unit)) :
  (forall st, kkeeps (durable payload U) (f st) \/ (st = StatusCompleted /\ durable_from payload U (f st))) ->
  kkeeps (durable payload U)
    (kmust (owned_step o (fun _ => persist_result (payload <| rp_ServiceName := s |>) status message t1 t2 info)) f).
Proof.
  intros Hf k. unfold kmust. apply (durable_then payload U).
  - apply durable_owned_step. intros current. apply settled_persist.
  - intros O _. pose proof (persisted s o status message t1 t2 info k O) as Po. cbv zeta in Po.
    destruct (owned_step o _ k) as [r k2]. cbn in *. destruct r as [st|e]; [|apply kkeeps_ret; apply _].
    destruct (Hf st) as [K|[-> K]]; [apply K|by apply K].
Qed.

Lemma durable_record o job status message err :
  removable job -> kkeeps (durable payload U) (record_result client payload o job status message err).
Proof.
  intros Rm. unfold record_result. cbv zeta. destruct (jobTimesFromStatus job) as [t1 t2].
  apply kkeeps_bind; [apply _|by apply durable_ask, quiet_now|]. intros now.
  apply kkeeps_must; [apply _| |intros logs].
  { destruct (status =? StatusCompleted)%string; [|apply kkeeps_ret, _].
    apply kkeeps_wrap; [apply _|]. by apply durable_ask, quiet_logs. }
  apply durable_persist. intros st.
  set (last := match err with Some e => _ | None => _ end).
  assert (Last : forall r : result unit, kkeeps (durable payload U) (match r with Ok _ => last | Err e => kret (Err e) end)).
  { intros [u|e]; [|apply kkeeps_ret, _]. unfold last. destruct err as [e|]; [destruct (ExtractStatusError e)|]; apply kkeeps_ret, _. }
  destruct (String.eqb_spec st StatusCompleted) as [->|N].
  - right. split; [done|]. apply durable_from_then; [by apply durable_cleanup|exact Last].
  - left. apply kkeeps_bind; [apply _|apply kkeeps_ret, _|exact Last].
Qed.
End Removal.

(** *** The UID of the Job *)

Lemma expected_kept seen (job : Job Q) :
  (seen <> ""%string -> snd (matches_expected payload seen job) = seen) /\
  (fst (matches_expected payload seen job) = true -> kj_UID job = snd (matches_expected payload seen job)).
Proof.
  unfold matches_expected. destruct (negb _); [done|]. cbn. split.
  - intros N. by rewrite (proj2 (str_empty_false _) N).
  - by intros E%String.eqb_eq.
Qed.

(** A UID once expected stays. *)
Lemma check_expected c namespace name seen k :
  seen <> ""%string ->
  snd (fst (check_completion (Some c) error_text (Some (matches_expected payload)) namespace name seen k)) = seen.
Proof.
  intros N. unfold check_completion, kbind at 1. destruct (kube_Get (Some c) namespace name k) as [[job|e] k1]; [|done].
  unfold matched. destruct (expected_kept seen job) as [Kp _]. specialize (Kp N).
  destruct (matches_expected payload seen job) as [[] seen']; cbn in Kp; subst seen'; [|done]. cbn [negb].
  destruct (JobTerminalStatus job) as [[st msg]|]; [done|]. unfold kbind.
  by destruct (jobSucceededOwnedPodsCompleted (Some c) namespace job k1).
Qed.

Lemma wait_expected namespace name seen k :
  seen <> ""%string ->
  snd (fst (WaitForJobCompletionMatching client error_text (Some (matches_expected payload)) namespace name seen k)) = seen.
Proof.
  intros N. unfold WaitForJobCompletionMatching. case client; [intros c|done]. unfold kbind at 1.
  destruct (next_ticks k) as [ticks k0]. revert k0. induction ticks as [|ticks IH]; intros k0; cbn [wait_completion];
    unfold kbind at 1; pose proof (check_expected c namespace name seen k0 N) as C;
    destruct (check_completion _ _ _ _ _ _ k0) as [[r seen'] k1]; cbn in C; subst seen';
    (destruct r as [v|]; [done|]); unfold kbind; destruct (job_ctx k1) as [[e|] k2]; try done; apply IH.
Qed.

Lemma bind_value ctx o uid w o' w' :
  bindResultOutboxJobUID ctx o uid w = (Ok o', w') ->
  ob_ID o' = ob_ID o /\ ob_MessageID o' = ob_MessageID o /\
  (uid = ""%string -> o' = o) /\ (uid <> ""%string -> ob_JobUID o' = uid).
Proof.
  unfold bindResultOutboxJobUID. destruct (str_empty uid) eqn:Eu.
  - apply str_empty_true in Eu. by intros [= <- _].
  - apply str_empty_false in Eu. destruct (negb (str_empty (ob_JobUID o))).
    + destruct (String.eqb_spec (ob_JobUID o) uid) as [E|]; [|done]. by intros [= <- _].
    + intros E. unfold bind in E. destruct (withResultOutboxOwnership _ _ _ _) as [[u|e] w1]; [|done].
      injection E as <- _. by repeat split.
Qed.

(** *** Named answers *)

(** The API server answers a request for one object with that object. *)
Definition answers_named (cluster : Cluster Q) : Prop :=
  forall log namespace name job, on_get cluster log namespace name = Ok job ->
    kj_Name job = name /\ (kj_Namespace job = ""%string \/ kj_Namespace job = namespace).

Definition named_answer (namespace name : string) (r : result (option (Job Q))) : Prop :=
  match r with
  | Ok (Some job) => kj_Name job = name /\ (kj_Namespace job = ""%string \/ kj_Namespace job = namespace)
  | _ => True
  end.

Lemma find_named msg namespace name k :
  (forall cluster, client = Some cluster -> answers_named cluster) ->
  named_answer namespace name (fst (find_job client msg namespace name k)).
Proof.
  unfold find_job, kube_Get. case client; [intros c N|done]. specialize (N c eq_refl). cbn.
  destruct (on_get c (kr_log k) namespace name) as [job|e] eqn:E; cbn; [by eapply N|]. by destruct (errors_is ErrNotFound e).
Qed.

(** ** The whole of a result *)

(** The UID that the row is bound to; any UID for an unbound row, when [absent]. *)
Definition bound_uid (absent : Prop) (o : JobResultOutbox) (uid : string) : Prop :=
  ob_JobUID o <> ""%string /\ uid = ob_JobUID o \/ ob_JobUID o = ""%string /\ absent.

(** The cluster's answer to the first question about the Job is not a Job with a UID. *)
Definition unsighted (log : list (KubeEvent Q)) : Prop :=
  forall cluster job, client = Some cluster ->
    on_get cluster log (rp_Namespace payload) (rp_Name payload) = Ok job -> kj_UID job = ""%string.

Hypothesis named : forall cluster, client = Some cluster -> answers_named cluster.
Hypothesis trimmed : TrimSpace (rp_Namespace payload) = rp_Namespace payload.

Section Absent.
Variable absent : Prop.

Definition processed_at (m : K Q (result unit * JobResultOutbox)) k : Prop :=
  durable payload (bound_uid absent (snd (fst (m k)))) k (snd (m k)).

Definition processed (m : K Q (result unit * JobResultOutbox)) : Prop := forall k, processed_at m k.

(** Steps that remove nothing. *)
Definition asks {A} (P : A -> Prop) (m : K Q A) : Prop := forall U, kvalue (durable payload U) P m.

Lemma processed_bind_at {A} (P : A -> Prop) (m : K Q A) f k :
  (forall U, durable payload U k (snd (m k))) -> P (fst (m k)) -> (forall a, P a -> processed (f a)) ->
  processed_at (kbind m f) k.
Proof.
  intros Hm Pa Hf. unfold processed_at, kbind. destruct (m k) as [a k1] eqn:E.
  etrans; [apply Hm|]. by apply Hf.
Qed.

Lemma processed_bind {A} (P : A -> Prop) (m : K Q A) f :
  asks P m -> (forall a, P a -> processed (f a)) -> processed (kbind m f).
Proof. intros Hm Hf k. by eapply processed_bind_at; [intros U; apply Hm|apply (Hm (fun _ => True))|]. Qed.

Lemma processed_ret r o : processed (kret (r, o)).
Proof. intros k. unfold processed_at. reflexivity. Qed.

Lemma asks_quiet {A} (P : A -> Prop) (m : K Q A) :
  kkeeps (quiet question) m -> (forall k, P (fst (m k))) -> asks P m.
Proof. intros Hm HP U k. split; [by apply durable_quiet, Hm|apply HP]. Qed.

Lemma asks_db {A} (P : result A -> Prop) (m : M A) :
  guarantees settled_kept m -> (forall w, P (fst (m w))) -> asks P (kdb m).
Proof. intros Hm HP U k. split; [by apply durable_db|]. destruct (kdb_run m k) as (E & _). rewrite E. apply HP. Qed.

Lemma asks_bind_uid o uid :
  asks (fun r => forall o', r = Ok o' -> ob_ID o' = ob_ID o /\ ob_MessageID o' = ob_MessageID o /\
          (uid = ""%string -> o' = o) /\ (uid <> ""%string -> ob_JobUID o' = uid)) (bind_uid o uid).
Proof.
  intros U k. unfold bind_uid. split.
  - apply kkeeps_bind; [apply _|by apply durable_ask, quiet_ctx|]. intros stopped. apply durable_db, settled_bind.
  - unfold kbind. destruct (job_ctx k) as [stopped k1]. destruct (kdb_run (bindResultOutboxJobUID stopped o uid) k1) as (E & _).
    intros o' Eo. rewrite E in Eo. destruct (bindResultOutboxJobUID stopped o uid (world_of k1)) as [r w] eqn:B.
    cbn in Eo. subst r. by eapply bind_value.
Qed.

Lemma processed_cleanup (o : JobResultOutbox) (m : K Q (result unit)) :
  kkeeps (durable payload (bound_uid absent o)) m -> processed (kbind m (fun r => kret (r, o))).
Proof. intros Hm k. unfold processed_at, kbind. specialize (Hm k). by destruct (m k) as [r k1]. Qed.

(** The Job at hand after the wait may be removed. *)
Lemma removable_job o seen (job : option (Job Q)) :
  (ob_JobUID o <> ""%string -> seen = ob_JobUID o) -> (ob_JobUID o = ""%string -> absent) ->
  match job with
  | Some j => kj_Name j = rp_Name payload /\ (kj_Namespace j = ""%string \/ kj_Namespace j = rp_Namespace payload) /\ kj_UID j = seen
  | None => seen = ""%string
  end -> removable (bound_uid absent o) job.
Proof.
  intros Hs Hu Hj. destruct (decide (ob_JobUID o = ""%string)) as [E|N]; [left; intros uid; right; auto|right].
  specialize (Hs N). subst seen. destruct job as [j|]; [|done]. destruct Hj as (En & Ens & Eu).
  exists j. split; [done|]. split; [|by left]. split; [congruence|done].
Qed.

Lemma processed_finish o waited seen :
  (ob_JobUID o <> ""%string -> seen = ob_JobUID o) -> (ob_JobUID o = ""%string -> absent) ->
  processed (finish_wait client error_text payload o waited seen).
Proof.
  intros Hs Hu. unfold finish_wait. destruct waited as [[status message] err]. cbv zeta.
  destruct (match err with Some e => errors_is ErrJobExecutionIdentityChanged e | None => false end); [apply processed_ret|].
  destruct (match err with Some e => match ExtractStatusError e with Some _ => None | None => _ end | None => None end);
    [apply processed_ret|].
  destruct (jobCompletionResult error_text status message err) as [status' message'].
  eapply processed_bind; [apply asks_bind_uid|]. intros [o'|e] B; [|apply processed_ret].
  destruct (B o' eq_refl) as (_ & _ & B0 & B1). clear B.
  assert (Hs' : ob_JobUID o' <> ""%string -> seen = ob_JobUID o').
  { destruct (decide (seen = ""%string)) as [E|N]; [rewrite (B0 E); exact Hs|]. by rewrite (B1 N). }
  assert (Hu' : ob_JobUID o' = ""%string -> absent).
  { intros E'. apply Hu. destruct (decide (seen = ""%string)) as [E|N]; [by rewrite <- (B0 E)|]. by rewrite (B1 N) in E'. }
  eapply processed_bind; [apply asks_quiet; [apply quiet_find; auto|intros k; apply find_named, named]|].
  intros [[job|]|e] N; [| |apply processed_ret].
  - destruct (expected_kept seen job) as [K1 K2]. destruct (matches_expected payload seen job) as [same seen2].
    cbn in K1, K2. destruct same; [|apply processed_ret]. cbn [negb].
    apply processed_cleanup, durable_record, (removable_job o' seen2).
    + intros Ne. specialize (Hs' Ne). rewrite <- Hs'. apply K1. by rewrite Hs'.
    + exact Hu'.
    + rewrite trimmed in N. destruct N as [N1 N2]. repeat split; auto.
  - cbn [negb]. apply processed_cleanup, durable_record, (removable_job o' seen); [done|exact Hu'|].
    destruct (str_empty seen) eqn:E; [by apply str_empty_true|]. cbn. rewrite trimmed. auto.
Qed.

(** A removal under a UID that was bound before. *)
Lemma processed_settled o k :
  ob_JobUID o <> ""%string -> settled_record payload StatusCompleted (store_of k) ->
  durable payload (bound_uid absent o) k (snd (cleanupPersistedResult client payload o
    (Some (gone_job (TrimSpace (rp_Namespace payload)) (rp_Name payload) (ob_JobUID o))) k)).
Proof.
  intros Ne S. rewrite trimmed. pose proof (durable_cleanup (bound_uid absent o) (rp_ServiceName payload) o) as D.
  assert (Eta : payload <| rp_ServiceName := rp_ServiceName payload |> = payload) by by destruct payload.
  rewrite Eta in D. apply D; [|exact S]. apply (removable_job o (ob_JobUID o)); [done|done|]. cbn. auto.
Qed.

(** The Job at hand before the wait. *)
Definition expected_uid (current : option (Job Q)) : string :=
  match current with Some job => kj_UID job | None => ""%string end.

Lemma processed_wait o (current : option (Job Q)) :
  (expected_uid current = ""%string -> absent) ->
  processed (kube! bound := bind_uid o (expected_uid current) in
    match bound with
    | Err e => kret (Err e, o)
    | Ok outbox =>
        let expectedUID := if str_empty (ob_JobUID outbox) then expected_uid current else ob_JobUID outbox in
        kube! waited := WaitForJobCompletionMatching client error_text
          (Some (matches_expected payload)) (TrimSpace (rp_Namespace payload)) (rp_Name payload) expectedUID in
        finish_wait client error_text payload outbox (fst waited) (snd waited)
    end).
Proof.
  intros Ha. eapply processed_bind; [apply asks_bind_uid|]. intros [o'|e] B; [|apply processed_ret].
  destruct (B o' eq_refl) as (_ & _ & B0 & B1). cbv zeta.
  set (expected := if str_empty (ob_JobUID o') then expected_uid current else ob_JobUID o').
  eapply (processed_bind (fun r => expected <> ""%string -> snd r = expected)).
  - apply asks_quiet; [apply quiet_wait; auto|]. intros k'. apply wait_expected.
  - intros [waited seen] Hw. cbn in Hw. apply processed_finish.
    + intros Ne. unfold expected in Hw. rewrite (proj2 (str_empty_false _) Ne) in Hw. by apply Hw.
    + intros E. apply Ha. destruct (decide (expected_uid current = ""%string)) as [|N]; [done|]. by rewrite (B1 N) in E.
Qed.
End Absent.

(** The first question. *)
Lemma find_first msg k :
  match fst (find_job client msg (TrimSpace (rp_Namespace payload)) (rp_Name payload) k) with
  | Ok current => expected_uid current = ""%string -> unsighted (kr_log k)
  | Err _ => True
  end.
Proof.
  rewrite trimmed. unfold find_job, kube_Get, unsighted. case client; [intros c|done]. cbn.
  destruct (on_get c (kr_log k) (rp_Namespace payload) (rp_Name payload)) as [job|e] eqn:E; cbn.
  - intros Hu cluster job' [= <-] E'. rewrite E in E'. by injection E' as <-.
  - destruct (errors_is ErrNotFound e); [|done]. intros _ cluster job' [= <-] E'. by rewrite E in E'.
Qed.

(** What the record says of the execution is known where it was found. *)
Lemma processed_found (f : result (option JobInfo) -> K Q (result unit * JobResultOutbox)) k :
  is_ok (validateJobResultPayload (Some payload)) = true ->
  (forall r k1, kr_log k1 = kr_log k -> match r with
               | Ok (Some record) => recorded payload (job_Status record) (store_of k1)
               | _ => True
               end -> processed_at (unsighted (kr_log k)) (f r) k1) ->
  processed_at (unsighted (kr_log k)) (kbind (kdb (findJobInfoForResult payload)) f) k.
Proof.
  intros V Hf. set (m := kdb (findJobInfoForResult payload)). unfold processed_at.
  assert (E : kbind m f k = f (fst (m k)) (snd (m k))) by (unfold kbind; by destruct (m k)). rewrite E.
  rewrite <- E at 2. apply durable_then.
  - apply durable_db, (outbox_read_only _). auto with store.
  - unfold m. destruct (kdb_run (findJobInfoForResult payload) k) as (E1 & E2 & E3).
    intros O _. apply Hf; [exact E3|]. unfold store_of. rewrite E1, E2.
    destruct (findJobInfoForResult payload (world_of k)) as [r w] eqn:Ef. cbn.
    destruct (triple_find payload V _ _ _ O I Ef) as [Po _]. destruct r as [[record|]|e]; [by apply Po|done|done].
Qed.

Lemma processed_all o k : processed_at (unsighted (kr_log k)) (processJobResultWithOutbox client error_text payload o) k.
Proof.
  unfold processJobResultWithOutbox. cbv zeta. destruct (_ || _) eqn:V; [apply processed_ret|].
  match goal with |- processed_at _ (match client with Some _ => ?b | None => ?a end) _ =>
    cut (forall c : option (Cluster Q), processed_at (unsighted (kr_log k)) (match c with Some _ => b | None => a end) k); [intros X; apply X|] end.
  intros [c|]; [|apply processed_ret]. destruct (str_empty _); [apply processed_ret|].
  destruct (_ <=? _); [apply processed_ret|].
  apply processed_found.
  { apply orb_false_iff in V as [V _]. unfold isResultPayloadProcessable in V. by apply negb_false_iff in V. }
  intros [record|e] k1 Lg Hr; [|apply processed_ret].
  destruct (match record with Some r => if IsSettledDelayedExecutionStatus (job_Status r) then Some r else None | None => None end)
    as [r|] eqn:E.
  - destruct (String.eqb_spec (job_Status r) StatusCompleted) as [Es|]; [|apply processed_ret]. cbn [negb].
    destruct (str_empty (ob_JobUID o)) eqn:Eu; [apply processed_ret|]. apply str_empty_false in Eu.
    assert (S : settled_record payload StatusCompleted (store_of k1)).
    { destruct record as [r0|]; [|done]. destruct (IsSettledDelayedExecutionStatus (job_Status r0)) eqn:Sr; [|done].
      injection E as ->. rewrite Es in Sr, Hr. by split. }
    pose proof (processed_settled (unsighted (kr_log k)) o k1 Eu S) as D. unfold processed_at, kbind.
    by destruct (cleanupPersistedResult client payload o _ k1).
  - pose proof (find_first "get job before processing result" k1) as F. rewrite Lg in F.
    apply processed_bind_at with (P := fun r : result (option (Job Q)) => match r with
      | Ok current => expected_uid current = ""%string -> unsighted (kr_log k) | Err _ => True end);
      [intros U; apply durable_quiet, quiet_find; auto|exact F|].
    intros [current|e] N; [|apply processed_ret]. destruct (match current with Some _ => _ | None => _ end); [apply processed_ret|].
    by apply processed_wait.
Qed.
End Process.

(** *** A consumer that lost its row *)

Section Lost.
Context {Q : Type} `{QuantityOps Q} `{KubernetesJson Q}.
Variable client : option (Cluster Q).
Variable error_text : error -> string.
Variables id tok : string.
Implicit Type k : KubeRun Q.

Definition lost k : Prop :=
  env_respects (stays_disowned id tok) (w_env (world_of k)) /\ disowned id tok (store_of k).

(** From a lost row on: only other sessions change the store, and the cluster is only asked. *)
Definition harmless k k' : Prop :=
  lost k -> noeffect (world_of k) (world_of k') /\
    exists new, kr_log k' = (kr_log k ++ new)%list /\ List.Forall question new.

Lemma lost_kept k w' : noeffect (world_of k) w' -> lost k ->
  env_respects (stays_disowned id tok) (w_env w') /\ disowned id tok (w_db w').
Proof.
  intros N [E D]. destruct (noeffect_respects (stays_disowned id tok) _ _ N E) as [P E']. split; [done|by apply P].
Qed.

#[export] Instance harmless_preorder : PreOrder harmless.
Proof.
  split.
  - intros k L. split; [reflexivity|]. exists []. by rewrite app_nil_r.
  - intros a b c H1 H2 L. destruct (H1 L) as (N1 & n1 & L1 & F1).
    destruct (H2 (lost_kept _ _ N1 L)) as (N2 & n2 & L2 & F2). split; [by etrans|]. exists (n1 ++ n2)%list.
    split; [by rewrite L2, L1, app_assoc|]. by apply List.Forall_app.
Qed.

Lemma harmless_ask {A} (m : K Q A) : kkeeps (quiet question) m -> kkeeps harmless m.
Proof. intros Hm k L. destruct (Hm k) as [W N]. by rewrite W. Qed.

Lemma harmless_read {A} (m : M A) : read_only m -> kkeeps harmless (kdb m).
Proof.
  intros Hm k L. destruct (kdb_run m k) as (_ & W & E). rewrite W, E. split; [|exists []; by rewrite app_nil_r].
  eapply Hm, surjective_pairing.
Qed.

(** The owner's steps fail. *)
Lemma harmless_owned {A B} o (persist : JobResultOutbox -> M A) (f : A -> K Q (result B)) :
  ob_ID o = id -> ob_MessageID o = tok -> (forall current, advances (persist current)) ->
  kkeeps harmless (kmust (owned_step o persist) f).
Proof.
  intros Ei Et Ha k. unfold kmust, owned_step. unfold kbind at 2. unfold kbind.
  pose proof (harmless_ask _ (quiet_ctx question) k) as Hc. destruct (job_ctx k) as [stopped k1]. cbn in Hc.
  intros L. destruct (Hc L) as (N & G). pose proof (lost_kept _ _ N L) as L1. cbn [snd fst].
  destruct (kdb_run (withResultOutboxOwnership stopped o persist) k1) as (E1 & E2 & E3).
  destruct (kdb (withResultOutboxOwnership stopped o persist) k1) as [r k2]. cbn in E1, E2, E3. subst r.
  destruct (withResultOutboxOwnership stopped o persist (world_of k1)) as [r w] eqn:E. cbn in E2 |- *.
  pose proof (fenced_owned stopped o persist Ha) as F. unfold fenced_by in F. rewrite Ei, Et in F.
  destruct (F _ _ _ (proj1 L1) (proj2 L1) E) as [N' Ne]. destruct r as [a|e]; [done|].
  cbn. rewrite E2, E3. split; [by etrans|exact G].
Qed.

Lemma harmless_bind_uid o uid :
  ob_ID o = id -> ob_MessageID o = tok ->
  kvalue harmless (fun r => forall o', r = Ok o' -> ob_ID o' = id /\ ob_MessageID o' = tok) (bind_uid o uid).
Proof.
  intros Ei Et k. destruct (asks_bind_uid (Q := Q) (Build_JobResultPayload "" "" "" 0 "" "" "" "" 0) o uid (fun _ => True) k) as [_ V].
  split; [|intros o' Ho; destruct (V o' Ho) as (-> & -> & _); by split].
  unfold bind_uid. apply kkeeps_bind; [apply _|by apply harmless_ask, quiet_ctx|]. clear V. intros stopped.
  intros k1 L. destruct (kdb_run (bindResultOutboxJobUID stopped o uid) k1) as (_ & W & G). rewrite W, G.
  split; [|exists []; by rewrite app_nil_r]. pose proof (fenced_bind stopped o uid) as F. unfold fenced_by in F.
  rewrite Ei, Et in F. destruct (bindResultOutboxJobUID stopped o uid (world_of k1)) as [r w] eqn:E.
  by destruct (F _ _ _ (proj1 L) (proj2 L) E) as [N _].
Qed.

Lemma harmless_cleanup payload o job :
  ob_ID o = id -> ob_MessageID o = tok -> kkeeps harmless (cleanupPersistedResult client payload o job).
Proof.
  intros Ei Et. apply kkeeps_bind; [apply _|by apply harmless_ask, quiet_ctx|]. intros [e|]; [apply kkeeps_ret, _|].
  apply harmless_owned; [done|done|]. intros current. apply advances_ret.
Qed.

Lemma harmless_record payload o job status message err :
  ob_ID o = id -> ob_MessageID o = tok ->
  kkeeps harmless (record_result client payload o job status message err).
Proof.
  intros Ei Et. unfold record_result. cbv zeta. destruct (jobTimesFromStatus job) as [t1 t2].
  apply kkeeps_bind; [apply _|by apply harmless_ask, quiet_now|]. intros now.
  apply kkeeps_must; [apply _| |intros logs].
  { destruct (status =? StatusCompleted)%string; [|apply kkeeps_ret, _].
    apply kkeeps_wrap; [apply _|]. by apply harmless_ask, quiet_logs. }
  apply harmless_owned; [done|done|]. intros current. apply advances_result.
Qed.

Lemma harmless_finish payload o waited seen :
  ob_ID o = id -> ob_MessageID o = tok -> kkeeps harmless (finish_wait client error_text payload o waited seen).
Proof.
  intros Ei Et. unfold finish_wait. destruct waited as [[status message] err]. cbv zeta.
  destruct (match err with Some e => errors_is ErrJobExecutionIdentityChanged e | None => false end); [apply kkeeps_ret, _|].
  destruct (match err with Some e => match ExtractStatusError e with Some _ => None | None => _ end | None => None end);
    [apply kkeeps_ret, _|].
  destruct (jobCompletionResult error_text status message err) as [status' message'].
  eapply kvalue_bind; [apply _|by apply harmless_bind_uid|]. intros [o'|e] B; [|apply kkeeps_ret, _].
  destruct (B o' eq_refl) as [Ei' Et'].
  apply kkeeps_bind; [apply _|by apply harmless_ask, quiet_find|]. intros [job|e]; [|apply kkeeps_ret, _].
  destruct (match job with Some job => matches_expected payload seen job | None => (true, seen) end) as [same seen2].
  destruct same; [|apply kkeeps_ret, _]. cbn [negb].
  apply kkeeps_bind; [apply _|by apply harmless_record|]. intros r. apply kkeeps_ret, _.
Qed.

Lemma harmless_all payload o :
  ob_ID o = id -> ob_MessageID o = tok ->
  kkeeps harmless (processJobResultWithOutbox client error_text payload o).
Proof.
  intros Ei Et. unfold processJobResultWithOutbox. cbv zeta. destruct (_ || _); [apply kkeeps_ret, _|].
  match goal with |- kkeeps _ (match client with Some _ => ?b | None => ?a end) =>
    cut (forall c : option (Cluster Q), kkeeps harmless (match c with Some _ => b | None => a end)); [intros X; apply X|] end.
  intros [c|]; [|apply kkeeps_ret, _]. destruct (str_empty _); [apply kkeeps_ret, _|].
  destruct (_ <=? _); [apply kkeeps_ret, _|].
  apply kkeeps_bind; [apply _|apply harmless_read; auto with store|]. intros [record|e]; [|apply kkeeps_ret, _].
  destruct (match record with Some r => if IsSettledDelayedExecutionStatus (job_Status r) then Some r else None | None => None end)
    as [r|].
  - destruct (negb _); [apply kkeeps_ret, _|]. destruct (str_empty (ob_JobUID o)); [apply kkeeps_ret, _|].
    apply kkeeps_bind; [apply _|by apply harmless_cleanup|]. intros r'. apply kkeeps_ret, _.
  - apply kkeeps_bind; [apply _|by apply harmless_ask, quiet_find|]. intros [current|e]; [|apply kkeeps_ret, _].
    destruct (match current with Some _ => _ | None => _ end); [apply kkeeps_ret, _|].
    eapply kvalue_bind; [apply _|by apply harmless_bind_uid|]. intros [o'|e] B; [|apply kkeeps_ret, _].
    destruct (B o' eq_refl) as [Ei' Et'].
    apply kkeeps_bind; [apply _|by apply harmless_ask, quiet_wait|]. intros [waited seen]. by apply harmless_finish.
Qed.
End Lost.

(** ** The theorems *)

Lemma payload_trimmed o payload :
  jobResultPayloadFromOutbox o = Some payload -> TrimSpace (rp_Namespace payload) = rp_Namespace payload.
Proof.
  unfold jobResultPayloadFromOutbox. cbv zeta. destruct (isResultPayloadProcessable _); [|done]. intros [= <-].
  apply TrimSpace_idem.
Qed.


(** A consumer that lost its row, by an expired lease or another claim, changes nothing while it processes the
    result: the store differs by the commits of other sessions only, and the cluster is only asked questions. *)
Theorem lost_consumer_is_harmless {Q} `{QuantityOps Q} `{KubernetesJson Q} (client : option (Cluster Q)) error_text
    payload (o : JobResultOutbox) k r o' k' :
  lost (ob_ID o) (ob_MessageID o) k ->
  processJobResultWithOutbox client error_text payload o k = ((r, o'), k') ->
  noeffect (world_of k) (world_of k') /\
  exists new, kr_log k' = (kr_log k ++ new)%list /\ List.Forall (fun ev => destructive ev = false) new.
Proof.
  intros L E. pose proof (harmless_all client error_text (ob_ID o) (ob_MessageID o) payload o eq_refl eq_refl k) as D.
  rewrite E in D. exact (D L).
Qed.

(** ** A completed Job *)

Definition web_job : Job Z :=
  job_zero <| kj_Name := "web"%string |> <| kj_Namespace := "ns"%string |> <| kj_UID := "uid-1"%string |>
    <| kj_Annotations := list_to_map [(AnnotationJobTaskID, "task-1"); (AnnotationJobExecutionKey, "key-1");
         (AnnotationJobRunGeneration, "1")]%string |>
    <| kj_Status := Build_JobStatus [Build_JobCondition JobComplete ConditionTrue "" ""] 0 1 0 None None |>.

Definition web_pod : Pod :=
  Build_Pod "web-1" "pod-1" [Build_OwnerReference "batch/v1" "Job" "web" "uid-1" (Some true)] [] ["main"%string]
    PodSucceeded "" [] [].

Definition discarded (log : list (KubeEvent Z)) : bool :=
  existsb (fun ev => match ev with KvDiscard _ _ _ _ _ => true | _ => false end) log.

Definition web_cluster : Cluster Z := {|
  on_get log namespace name := if discarded log then Err ErrNotFound
                               else Ok (web_job <| kj_Name := name |> <| kj_Namespace := namespace |>);
  on_create _ job := Err ErrAlreadyExists;
  on_update _ job := Ok job;
  on_delete _ _ _ _ _ := None;
  on_pods _ _ _ := Ok [web_pod];
  on_pod _ _ _ := Ok web_pod;
  on_logs _ _ _ _ := Ok "done"%string;
  on_delete_pod _ _ _ _ := None |}.

Definition web_row : JobResultOutbox := sample_row JobResultOutboxStateResultProcessingQueue "mine" (Some (2 * Second)).

Definition web_record : JobInfo :=
  job_info_zero <| job_ID := 1 |> <| job_TaskID := "task-1"%string |> <| job_Type := "instant_job"%string |>
    <| job_ExecutionKey := Some "key-1"%string |> <| job_RunGeneration := 1 |> <| job_Status := StatusDistributed |>.

Definition web_run (d : Database) : KubeRun Z :=
  Build_KubeRun (sample_run <| jr_exec := (jr_exec sample_run) <| ex_world := seqw d 50000 |> |>) None [] [] false [] [].

Definition web_payload : JobResultPayload := default sample_payload (jobResultPayloadFromOutbox web_row).


(** The same consumer after its row was returned to pending. *)
Lemma lost_consumer_is_harmless_witness :
  let k := web_run ((sample_outbox (sample_row JobResultOutboxStateResultPending "" None)) <| db_jobs := {[1 := web_record]} |>) in
  let run := processJobResultWithOutbox (Some web_cluster) (fun _ => "failed"%string) web_payload web_row k in
  fst (fst run) = Err ErrResultOutboxOwnershipLost /\ store_of (snd run) = store_of k /\
  Forall (fun ev => destructive ev = false) (kr_log (snd run)).
Proof.
  intros k run. assert (F : fst (fst run) = Err ErrResultOutboxOwnershipLost) by (vm_compute; reflexivity).
  split; [exact F|].
  destruct (lost_consumer_is_harmless (Some web_cluster) (fun _ => "failed"%string) web_payload web_row k
    (fst (fst run)) (snd (fst run)) (snd run)) as ((es & Ee & Ed & _) & new & L & Fa).
  - split; [apply List.Forall_nil|]. intros r Lr S _. unfold k, web_run, store_of, world_of, sample_outbox in Lr.
    cbn -[sample_row] in Lr. apply lookup_singleton_Some in Lr as [_ <-]. discriminate S.
  - rewrite <- !surjective_pairing. reflexivity.
  - change (w_env (world_of k)) with (@nil EnvEvent) in Ee. symmetry in Ee. apply app_nil in Ee as [-> _]. split; [exact Ed|].
    rewrite L. exact Fa.
Defined.
