(* ===== verification/DelaySpec.v ===== *)
(** What a dispatch of a delayed job promises: [dispatch] of
    [pkg/apiserver/event/workflow/job/jobdelay/delay_dispatcher.go].

    Whatever the cluster answers and the other sessions commit: the cluster is changed
    only after the scheduler was seen to have admitted the execution; at most one Job is
    created, stamped with the execution's identity, and when the dispatch reports
    success its result has a row in the outbox; settled records of jobs keep their
    status.  The first sections say which database programs keep a relation that allows
    the dispatcher's writes, the later ones follow the requests to the cluster. *)

From S2P Require Import Prelude GoStrings Config Json Quantity Policy Model Store Hoare Lease LeaseProtocol Budget.
From S2P Require Import Creation Signals Scheduler Admission AdmissionSpec AdmissionGuard PodResources Retry Cleanup.
From S2P Require Import JobInfos Components Controller ControllerSpec ControllerSafety JobExec RunJob RunJobSpec.
From S2P Require Import JobRunner KubeJobs PodLogs DelayQueue Instant KubeSpec Sha1 Outbox OutboxSpec Results.
From S2P Require Import ResultsSpec DelayItems DelayDispatch.

(** ** The dispatcher's writes *)

(** A write of one job's row: its identity stays, and its status if it is settled. *)
Definition row_kept (r r' : JobInfo) : Prop :=
  job_TaskID r' = job_TaskID r /\ job_ExecutionKey r' = job_ExecutionKey r /\ job_RunGeneration r' = job_RunGeneration r /\
  (IsSettledDelayedExecutionStatus (job_Status r) = true -> job_Status r' = job_Status r) /\
  (job_SchedulingState r' = JobSchedulingAdmitted -> job_SchedulingState r = JobSchedulingAdmitted).

(** A relation on the database that allows them. *)
Class Allows (R : relation Database) : Prop := {
  allows_preorder : PreOrder R;
  allows_job : forall d id r r', db_jobs d !! id = Some r -> row_kept r r' -> R d (d <| db_jobs := <[id := r']> (db_jobs d) |>);
  allows_result : forall d id o, db_outbox d !! id = None -> R d (d <| db_outbox := <[id := o]> (db_outbox d) |>)
}.
#[export] Existing Instance allows_preorder.

(** A row of the outbox stays. *)
Definition row_stays (id : string) (d d' : Database) : Prop := is_Some (db_outbox d !! id) -> is_Some (db_outbox d' !! id).

#[export] Instance row_stays_preorder id : PreOrder (row_stays id).
Proof. split; unfold row_stays; eauto. Qed.

#[export] Instance row_stays_allows id : Allows (row_stays id).
Proof.
  split; [apply _|by intros d i r r2 _ _ Hi|].
  intros d i o L Hi. cbn. destruct (decide (i = id)) as [<-|N]; [by rewrite lookup_insert_eq|by rewrite lookup_insert_ne].
Qed.

#[export] Instance settled_kept_allows : Allows settled_kept.
Proof.
  split; [apply _| |by intros d id o _; apply settled_other].
  intros d id r r' L (T & K & G & S & _) i r0 Hi Si. cbn. destruct (decide (id = i)) as [<-|N].
    + rewrite L in Hi. injection Hi as <-. exists r'. rewrite lookup_insert_eq. repeat split; auto.
    + exists r0. by rewrite lookup_insert_ne.
Qed.

(** No row of the execution is admitted. *)
Definition unadmitted (key : string) (d : Database) : Prop :=
  forall id r, db_jobs d !! id = Some r -> job_ExecutionKey r = Some key -> job_SchedulingState r <> JobSchedulingAdmitted.

Definition unadmitted_kept (key : string) (d d' : Database) : Prop := unadmitted key d -> unadmitted key d'.

#[export] Instance unadmitted_preorder key : PreOrder (unadmitted_kept key).
Proof. split; unfold unadmitted_kept; eauto. Qed.

#[export] Instance unadmitted_allows key : Allows (unadmitted_kept key).
Proof.
  split; [apply _| |by intros d id o _ U].
  intros d id r r' L (_ & K & _ & _ & A) U i x Hi Kx. cbn in Hi. destruct (decide (id = i)) as [<-|N].
  - rewrite lookup_insert_eq in Hi. injection Hi as <-. rewrite K in Kx. intros E. by apply (U id r L Kx), A.
  - rewrite lookup_insert_ne in Hi by done. by apply (U i).
Qed.

Section Writes.
Context {Q : Type} `{QuantityOps Q} `{KubernetesJson Q}.
Context (R : relation Database) `{!Allows R}.

Lemma keeps_ro {A} (m : M A) : read_only m -> guarantees R m.
Proof. apply guarantees_read_only. Qed.
Lemma keeps_then {A B} (m : M A) (k : A -> M B) : guarantees R m -> (forall a, guarantees R (k a)) -> guarantees R (bind m k).
Proof. apply guarantees_bind. Qed.

Lemma keeps_ret_then {A B} (a : A) (k : A -> M B) : guarantees R (k a) -> guarantees R (bind (ret a) k).
Proof. exact id. Qed.

Lemma keeps_job_cas key conditions updates :
  (forall now row row', conds_hold conditions row = true ->
     apply_updates (updates ++ [("update_time"%string, VTime now)]) row = Some row' -> row_kept row row') ->
  guarantees R (CompareAndSwapWithConditions (E := JobInfo) key conditions updates).
Proof. intros HU. apply guarantees_cas. intros now d row row' L C U. eapply allows_job; eauto. Qed.

(** ** The scheduler *)

Lemma keeps_scheduling job conditions updates :
  (forall now row row', apply_updates (updates ++ [("update_time"%string, VTime now)]) row = Some row' -> row_kept row row') ->
  guarantees R (updateJobScheduling job conditions updates).
Proof.
  intros HU. unfold updateJobScheduling. apply keeps_then.
  - apply guarantees_wrap, keeps_job_cas. eauto.
  - intros [|]; apply keeps_ro; auto with store.
Qed.

Lemma keeps_transaction {A} (m : M A) : guarantees R m -> guarantees R (withJobSchedulingOwner None m).
Proof. apply guarantees_transaction. Qed.

Lemma keeps_release_body key reason expected : guarantees R (release_job (Q := Q) None key reason expected).
Proof.
  unfold release_job. apply keeps_then; [apply keeps_ro, read_only_by_key|]. intros job.
  do 2 (apply keeps_then; [apply keeps_ro; auto with store|intros _]).
  destruct (_ =? _)%string; [apply keeps_ro; auto with store|]. apply keeps_then.
  { apply keeps_ro. destruct (_ && _); [|auto with store].
    apply read_only_bind; [apply read_only_task_clock|auto with store]. }
  intros [|]; [apply keeps_ro; auto with store|]. apply keeps_then.
  { apply guarantees_try, keeps_scheduling. intros now row row' U. apply released_row in U. by subst row'. }
  intros [[]|e]; [apply keeps_ro; auto with store|].
  destruct (negb _); [apply keeps_ro; auto with store|].
  apply keeps_ro, read_only_bind; [apply read_only_by_key|]. store_step.
Qed.

Lemma keeps_released key reason expected : guarantees R (ReleaseJobAdmission (Q := Q) None key reason expected).
Proof.
  unfold ReleaseJobAdmission. apply keeps_then; [apply keeps_ro, read_only_owner|]. intros _.
  apply keeps_transaction, keeps_release_body.
Qed.

Lemma keeps_admitted key expected : guarantees R (IsJobAdmitted (Q := Q) None key expected).
Proof.
  unfold IsJobAdmitted. apply keeps_then; [apply keeps_ro, read_only_owner|]. intros _.
  apply keeps_transaction, keeps_ro. unfold is_job_admitted.
  repeat (apply read_only_bind; [solve [apply read_only_by_key | auto with store | apply read_only_task_clock]|intros ?]).
  destruct (negb _); [|auto with store]. apply read_only_bind; [apply read_only_current|]. store_step.
Qed.

Lemma enqueued_kept class priority queuedAt generation status deadline current job now row row' :
  apply_updates (E := JobInfo)
    (enqueue_updates false class priority queuedAt generation status deadline current job ++
     [("update_time"%string, VTime now)]) row = Some row' -> row_kept row row'.
Proof.
  unfold enqueue_updates, time_val. destruct queuedAt, deadline, (str_empty _ && _); cbn; intros [= <-]; done.
Qed.

Lemma keeps_queued job deadline : guarantees R (EnqueueJobForScheduling (Q := Q) None job deadline []).
Proof.
  unfold EnqueueJobForScheduling. cbn [length Nat.leb]. destruct job as [job|]; [|apply keeps_ro; auto with store].
  destruct (job_ExecutionKey job) as [key|]; [|apply keeps_ro; auto with store].
  destruct (negb _); [|apply keeps_ro; auto with store].
  apply keeps_then; [apply keeps_ro, read_only_owner|]. intros _. apply keeps_transaction.
  unfold enqueue_job. apply keeps_then.
  { unfold loadQueuedJobCheckpoint. apply keeps_then; [apply guarantees_try, keeps_ro, read_only_by_key|]. intros found.
    apply keeps_then; [apply keeps_ro; destruct found; [auto with store|]; rewrite andb_false_r; auto with store|].
    intros current. apply keeps_then; [|intros c; apply keeps_ro; store_step].
    apply keeps_then; [|intros locked; apply keeps_ro; store_step]. apply guarantees_wrap, keeps_job_cas.
    intros now row row' _ U. cbn in U. by injection U as <-. }
  intros current. apply keeps_then; [apply keeps_ro, read_only_task_clock|]. intros now.
  apply keeps_then; [apply keeps_ro; auto with store|]. intros _.
  apply keeps_ret_then.
  apply keeps_then; [apply keeps_ro; auto with store|]. intros priority. cbv zeta.
  destruct (_ && _); [apply keeps_ro; auto with store|]. destruct (_ && _); [apply keeps_ro; auto with store|].
  apply keeps_then; [|intros _; apply keeps_ro; auto with store].
  apply keeps_scheduling. intros u row row'. apply enqueued_kept.
Qed.

(** ** Checkpoints and results *)

Lemma read_only_checkpoint scope (payload : DelayJobPayload Q) : read_only (findDelayCheckpoint scope payload).
Proof. unfold findDelayCheckpoint. apply read_only_bind; [|store_step]. apply read_only_wrap, read_only_load. Qed.

Lemma read_only_execution scope (payload : DelayJobPayload Q) : read_only (delayExecutionCurrent scope payload).
Proof.
  unfold delayExecutionCurrent, delayedExecutionCommitted. pose proof read_only_load.
  repeat first [apply read_only_bind; [|intros ?]|apply read_only_wrap|apply read_only_load|case_goal|solve [auto with store|store_step]].
Qed.

Lemma row_kept_pending st row row' :
  job_Status row = st -> IsSettledDelayedExecutionStatus st = false ->
  job_TaskID row' = job_TaskID row -> job_ExecutionKey row' = job_ExecutionKey row ->
  job_RunGeneration row' = job_RunGeneration row -> job_SchedulingState row' = job_SchedulingState row -> row_kept row row'.
Proof. intros <- S T K G A. repeat split; try done; [by rewrite S|by rewrite A]. Qed.

Lemma cas_status cs st row :
  conds_hold cs row = true -> In ("status"%string, CEq (VStr st)) cs -> job_Status row = st.
Proof.
  intros C Hin. unfold conds_hold in C. rewrite forallb_forall in C. specialize (C _ Hin).
  unfold cond_holds in C. cbn in C. by apply String.eqb_eq in C.
Qed.

Lemma keeps_reject {A} error_text checkpoint cause : guarantees R (rejectCheckpoint (A := A) error_text checkpoint cause).
Proof.
  unfold rejectCheckpoint. apply keeps_then; [apply keeps_ro; auto with store|]. intros now.
  apply keeps_then; [|intros []; apply keeps_ro; store_step].
  apply guarantees_wrap, keeps_job_cas. intros u row row' C U.
  apply (row_kept_pending StatusDistributed); [|done|..].
  { eapply cas_status; [exact C|]. cbn. tauto. }
  all: cbn in U; by injection U as <-.
Qed.

Lemma keeps_place error_text checkpoint (payload : DelayJobPayload Q) :
  guarantees R (checkpointWorkspace error_text checkpoint payload).
Proof.
  unfold checkpointWorkspace.
  repeat first [apply keeps_reject|apply keeps_then; [|intros ?]|case_goal|solve [apply keeps_ro; auto with store]].
Qed.

Lemma keeps_mark (payload : option (DelayJobPayload Q)) : guarantees R (markDelayCheckpointDispatched payload).
Proof.
  unfold markDelayCheckpointDispatched. destruct payload as [payload|]; [|apply keeps_ro; auto with store].
  apply keeps_then; [apply keeps_ro, read_only_checkpoint|]. intros [record|]; [|apply keeps_ro; auto with store].
  destruct (_ || _); [apply keeps_ro; auto with store|]. destruct (_ =? _)%string; [|apply keeps_ro; auto with store].
  apply keeps_then.
  - apply guarantees_wrap, keeps_job_cas. intros u row row' C U.
    apply (row_kept_pending StatusDistributed); [|done|..].
    { eapply cas_status; [exact C|]. cbn. tauto. }
    all: cbn in U; by injection U as <-.
  - intros []; [apply keeps_ro; auto with store|].
    apply keeps_then; [apply keeps_ro, read_only_checkpoint|]. intros l. apply keeps_ro. store_step.
Qed.

Lemma keeps_result payload status message t1 t2 info : guarantees R (UpdateJobInfoStatus payload status message t1 t2 info).
Proof.
  unfold UpdateJobInfoStatus. destruct (is_ok _); [|apply keeps_ro; auto with store].
  generalize JobInfoSaveMaxAttempts as n. induction n as [|n IH]; cbn [update_attempts]; [apply keeps_ro; auto with store|].
  apply keeps_then; [apply keeps_ro; auto with store|]. intros [jobInfo|]; [|apply keeps_ro; auto with store].
  destruct (IsSettledDelayedExecutionStatus (job_Status jobInfo)) eqn:S; [apply keeps_ro; auto with store|].
  apply keeps_then; [apply keeps_ro; auto with store|]. intros now.
  apply keeps_then; [|intros []; [apply keeps_ro; auto with store|apply IH]].
  apply guarantees_wrap, keeps_job_cas. intros u row row' C U.
  apply (row_kept_pending (job_Status jobInfo)); [|done|..].
  { eapply cas_status; [exact C|]. by left. }
  all: unfold result_updates in U; repeat case_match; cbn in U; by injection U as <-.
Qed.

Lemma keeps_Add_result o : guarantees R (Add (E := JobResultOutbox) o).
Proof.
  unfold Add. destruct (negb _); [|apply keeps_ro; auto with store]. destruct (negb _); [|apply keeps_ro; auto with store].
  apply guarantees_statement. intros t d r d'. cbn. destruct (db_outbox d !! ob_ID o) eqn:L; [by intros [= _ <-]|].
  intros [= _ <-]. by apply allows_result.
Qed.

Lemma keeps_create payload state : guarantees R (CreateJobResultOutbox payload state).
Proof.
  unfold CreateJobResultOutbox. destruct (BuildJobResultOutbox payload state); [|apply keeps_ro; auto with store].
  apply keeps_then; [apply guarantees_try, keeps_Add_result|]. intros r. apply keeps_ro. store_step.
Qed.

Lemma keeps_ensure payload : guarantees R (ensureDelayedResultOutboxPending payload).
Proof.
  unfold ensureDelayedResultOutboxPending. apply keeps_then; [apply keeps_create|]. intros o. apply keeps_ro. store_step.
Qed.
End Writes.

(** ** Requests to the cluster *)

Section Requests.
Context {Q : Type} `{QuantityOps Q} `{KubernetesJson Q}.
Implicit Type k : KubeRun Q.

(** An event that neither changes the cluster nor admits. *)
Definition asked (ev : KubeEvent Q) : Prop :=
  destructive ev = false /\ match ev with KvAdmitted _ => False | _ => True end.

(** What the run policy may do. *)
Definition prepares (ev : KubeEvent Q) : Prop := match ev with KvCreate _ _ | KvAdmitted _ => False | _ => True end.

Lemma asked_prepares ev : asked ev -> prepares ev.
Proof. intros [D A]. by destruct ev. Qed.

Definition logs (T : KubeEvent Q -> Prop) k k' : Prop :=
  exists new, kr_log k' = (kr_log k ++ new)%list /\ List.Forall T new.

#[export] Instance logs_preorder T : PreOrder (logs T).
Proof.
  split; [intros k; exists []; by rewrite app_nil_r|].
  intros a b c (n1 & L1 & F1) (n2 & L2 & F2). exists (n1 ++ n2)%list. split; [by rewrite L2, L1, app_assoc|].
  by apply List.Forall_app.
Qed.

(** The run's store moves along, each of its own commits under [R]. *)
Definition moves (R : relation Database) k k' : Prop := commits R (world_of k) (world_of k').

#[export] Instance moves_preorder R : PreOrder (moves R).
Proof. split; unfold moves; [intros k; reflexivity|intros a b c H1 H2; by etrans]. Qed.

Lemma moves_run R `{!PreOrder R} k k' : moves R k k' -> env_respects R (w_env (world_of k)) ->
  R (store_of k) (store_of k') /\ env_respects R (w_env (world_of k')).
Proof. intros M. apply commits_respects; [apply _|exact M]. Qed.

Lemma moves_same R k k' : world_of k' = world_of k -> moves R k k'.
Proof. unfold moves. intros ->. reflexivity. Qed.

(** Both at once. *)
Definition tracks (T : KubeEvent Q -> Prop) (R : relation Database) k k' : Prop := logs T k k' /\ moves R k k'.

#[export] Instance tracks_preorder T R : PreOrder (tracks T R).
Proof.
  split; [intros k; by split|]. intros a b c [L1 M1] [L2 M2]. split; by etrans.
Qed.

Section Tracks.
Context (T : KubeEvent Q -> Prop) (R : relation Database) `{!Allows R}.
Hypothesis asked_T : forall ev, asked ev -> T ev.

Lemma quiet_tracks k k' : quiet T k k' -> tracks T R k k'.
Proof.
  intros [W L]. split; [exact L|]. unfold moves. by rewrite W.
Qed.

Lemma tracks_quiet {A} (m : K Q A) : kkeeps (quiet T) m -> kkeeps (tracks T R) m.
Proof. intros Hm k. apply quiet_tracks, Hm. Qed.

Lemma tracks_db {A} (m : M A) : guarantees R m -> kkeeps (tracks T R) (kdb m).
Proof.
  intros Hg k. destruct (kdb_run m k) as (_ & W & L). split; [exists []; by rewrite L, app_nil_r|].
  unfold moves. rewrite W. eapply Hg, surjective_pairing.
Qed.

Lemma tracks_read {A} (m : M A) : read_only m -> kkeeps (tracks T R) (kdb m).
Proof. intros Hm. by apply tracks_db, keeps_ro. Qed.

Lemma tracks_note ev : T ev -> kkeeps (tracks T R) (note ev).
Proof. intros Hev. by apply tracks_quiet, quiet_note. Qed.

Hint Extern 1 (kkeeps _ (note _)) => apply tracks_note, asked_T; split; done : kube.

Lemma tracks_ctx : kkeeps (tracks T R) job_ctx.
Proof.
  unfold job_ctx. apply kkeeps_bind; [apply _| |intros c; apply kkeeps_ret, _]. intros k.
  pose proof (quiet_cause T k) as Hq. by apply quiet_tracks.
Qed.
Lemma tracks_ticks : kkeeps (tracks T R) next_ticks.
Proof. intros k. apply quiet_tracks, quiet_ticks. Qed.
Lemma tracks_now : kkeeps (tracks T R) (in_job now_unix).
Proof. intros k. apply quiet_tracks, quiet_now. Qed.
Lemma tracks_Get client namespace name : kkeeps (tracks T R) (kube_Get client namespace name).
Proof. unfold kube_Get. kkeeps_tac. Qed.
Hint Resolve tracks_ctx tracks_ticks tracks_now tracks_Get : kube.

Lemma tracks_exists client namespace name : kkeeps (tracks T R) (JobExists client namespace name).
Proof. unfold JobExists. kkeeps_tac. Qed.
Hint Resolve tracks_exists : kube.

Lemma tracks_mismatch quote payload (job : option (Job Q)) :
  kkeeps (tracks T R) (failDelayedJobIdentityMismatch quote payload job).
Proof. unfold failDelayedJobIdentityMismatch. kkeeps_tac. apply tracks_db, keeps_result; apply _. Qed.
Hint Resolve tracks_mismatch : kube.

Lemma tracks_verify quote client payload : kkeeps (tracks T R) (verifyDelayedJobIdentity quote client payload).
Proof. unfold verifyDelayedJobIdentity. kkeeps_tac. Qed.

Lemma tracks_ensure payload : kkeeps (tracks T R) (kdb (ensureDelayedResultOutboxPending payload)).
Proof. apply tracks_db, keeps_ensure, _. Qed.
Hint Resolve tracks_ensure : kube.

Lemma tracks_create_error quote client payload e : kkeeps (tracks T R) (handleDelayedJobCreateError quote client payload e).
Proof. unfold handleDelayedJobCreateError. kkeeps_tac. Qed.
End Tracks.

(** The run policy of an admitted Job. *)
Lemma tracks_policy R `{!Allows R} client job jobType :
  kkeeps (tracks prepares R) (ApplyJobRunPolicy client job jobType).
Proof.
  assert (N : forall ev, prepares ev -> kkeeps (tracks prepares R) (note ev)) by (intros ev; apply tracks_note).
  pose proof (tracks_exists prepares R asked_prepares) as X. pose proof (tracks_Get prepares R asked_prepares) as G.
  pose proof (tracks_ctx prepares R) as C. pose proof (tracks_ticks prepares R) as Tk.
  unfold ApplyJobRunPolicy, adoptReusableJobExecution, waitForJobUIDDeletion, jobUIDAbsent, deleteJobForeground,
    kube_Delete, kube_Update.
  kkeeps_tac; try (by apply N); apply tracks_read; try apply _.
  - unfold validateExistingJobExecutionIdentity. store_step.
  - unfold jobCompletedInStore. store_step.
Qed.

(** ** Creating the Job *)

(** The new events, with what the run did to the store. *)
Definition emits (R : relation Database) {A} (S : A -> list (KubeEvent Q) -> KubeRun Q -> Prop) (m : K Q A) : Prop :=
  forall k, exists new, kr_log (snd (m k)) = (kr_log k ++ new)%list /\ moves R k (snd (m k)) /\
    (env_respects R (w_env (world_of k)) -> S (fst (m k)) new (snd (m k))).

Lemma emits_tracks T R {A} (m : K Q A) : kkeeps (tracks T R) m -> emits R (fun _ new _ => List.Forall T new) m.
Proof. intros Hm k. destruct (Hm k) as [(new & L & F) M]. exists new. auto. Qed.

Lemma emits_weaken R {A} (S S' : A -> list (KubeEvent Q) -> KubeRun Q -> Prop) m :
  emits R S m -> (forall a new k, S a new k -> S' a new k) -> emits R S' m.
Proof. intros Hm HS k. destruct (Hm k) as (new & L & M & X). exists new. auto. Qed.

Lemma emits_ret R {A} (S : A -> list (KubeEvent Q) -> KubeRun Q -> Prop) a :
  (forall k, S a [] k) -> emits R S (kret a).
Proof. intros HS k. exists []. rewrite app_nil_r. split; [done|]. split; [reflexivity|]. auto. Qed.

(** First a step that tracks, then the rest. *)
Lemma emits_after T R `{!PreOrder R} {A B} (m : K Q A) (f : A -> K Q B)
    (S : B -> list (KubeEvent Q) -> KubeRun Q -> Prop) :
  kkeeps (tracks T R) m -> (forall a, emits R S (f a)) ->
  (forall b n1 n2 k, List.Forall T n1 -> S b n2 k -> S b (n1 ++ n2)%list k) -> emits R S (kbind m f).
Proof.
  intros Hm Hf HS k. unfold kbind. destruct (Hm k) as [(n1 & L1 & F1) M1]. destruct (m k) as [a k1]. cbn in *.
  destruct (Hf a k1) as (n2 & L2 & M2 & S2). exists (n1 ++ n2)%list. split; [by rewrite L2, L1, app_assoc|].
  split; [by apply (transitivity (R := moves R) M1 M2)|]. intros E. apply HS; [done|]. by apply S2, (moves_run R _ _ M1).
Qed.

Lemma emits_must T R `{!PreOrder R} {A B} (m : K Q (result A)) (f : A -> K Q (result B))
    (S : result B -> list (KubeEvent Q) -> KubeRun Q -> Prop) :
  kkeeps (tracks T R) m -> (forall a, emits R S (f a)) ->
  (forall b n1 n2 k, List.Forall T n1 -> S b n2 k -> S b (n1 ++ n2)%list k) ->
  (forall e k, S (Err e) [] k) -> emits R S (kmust m f).
Proof.
  intros Hm Hf HS HE. unfold kmust. apply (emits_after T R); [exact Hm| |exact HS].
  intros [a|e]; [apply Hf|]. by apply emits_ret.
Qed.

(** Before the Job is created nothing else is, and afterwards the cluster is only asked. *)
Definition one_create (job : Job Q) (new : list (KubeEvent Q)) : Prop :=
  List.Forall prepares new \/
  exists n1 created n2, new = (n1 ++ KvCreate job created :: n2)%list /\ List.Forall prepares n1 /\ List.Forall asked n2.

Lemma one_create_prepend job n1 n2 : List.Forall prepares n1 -> one_create job n2 -> one_create job (n1 ++ n2)%list.
Proof.
  intros F [F2|(a & c & b & -> & Fa & Fb)]; [left; by apply List.Forall_app|right].
  exists (n1 ++ a)%list, c, b. split; [by rewrite app_assoc|]. split; [by apply List.Forall_app|done].
Qed.

Lemma asked_prepare new : List.Forall asked new -> List.Forall prepares new.
Proof. intros F. eapply List.Forall_impl; [|exact F]. apply asked_prepares. Qed.

(** The row of the Job's result is in the outbox. *)
Definition result_kept (payload : option JobResultPayload) k : Prop :=
  is_ok (validateJobResultPayload payload) = true -> is_Some (db_outbox (store_of k) !! jobResultOutboxID payload).

Lemma triple_create_row payload state :
  is_ok (validateJobResultPayload (Some payload)) = true ->
  triple (row_stays (jobResultOutboxID (Some payload))) (fun _ => True) (CreateJobResultOutbox (Some payload) state)
    (on_ok (fun _ d => is_Some (db_outbox d !! jobResultOutboxID (Some payload)))).
Proof.
  intros V. unfold CreateJobResultOutbox. destruct (BuildJobResultOutbox (Some payload) state) as [o|] eqn:B; [|by apply triple_throw].
  assert (Eo : ob_ID o = jobResultOutboxID (Some payload)).
  { unfold BuildJobResultOutbox in B. rewrite V in B. by injection B as <-. }
  rewrite <- Eo.
  eapply triple_bind_ok with (Mid := fun r d => match r with Ok _ => is_Some (db_outbox d !! ob_ID o) | Err _ => True end).
  - apply triple_try. unfold Add. apply triple_if; intros _; [|by apply triple_throw]. apply triple_if; intros _; [|by apply triple_throw].
    apply triple_statement; [apply _|by intros d d'|done|]. intros t d r d' _ E. cbn in E.
    destruct (db_outbox d !! ob_ID o) as [x|] eqn:L; injection E as <- <-; [done|]. cbn. by rewrite lookup_insert_eq.
  - intros [o'|e]; [by apply triple_ret|]. apply triple_if; intros _; [|by apply triple_throw].
    unfold getJobResultOutboxByID. apply triple_if; intros _; [|by apply triple_throw].
    assert (T : TrimSpace (ob_ID o) = ob_ID o).
    { rewrite Eo. unfold jobResultOutboxID. rewrite V. apply TrimSpace_hex, sha1_bytes. }
    rewrite T.
    apply triple_Get; [apply _|by intros d d'|done|]. intros d row _ L. by exists row.
Qed.
Lemma emits_bind R `{!PreOrder R} {A B} (S1 : A -> list (KubeEvent Q) -> KubeRun Q -> Prop)
    (S2 : A -> B -> list (KubeEvent Q) -> KubeRun Q -> Prop) (S : B -> list (KubeEvent Q) -> KubeRun Q -> Prop)
    (m : K Q A) (f : A -> K Q B) :
  emits R S1 m -> (forall a, emits R (S2 a) (f a)) ->
  (forall a b n1 n2 k1 k2, S1 a n1 k1 -> S2 a b n2 k2 -> S b (n1 ++ n2)%list k2) -> emits R S (kbind m f).
Proof.
  intros Hm Hf HS k. unfold kbind. destruct (Hm k) as (n1 & L1 & M1 & X1). destruct (m k) as [a k1]. cbn in *.
  destruct (Hf a k1) as (n2 & L2 & M2 & X2). exists (n1 ++ n2)%list. split; [by rewrite L2, L1, app_assoc|].
  split; [by apply (transitivity (R := moves R) M1 M2)|]. intros E. eapply HS; [by apply X1|]. by apply X2, (moves_run R _ _ M1).
Qed.

(** [R] lets the row of this result stay. *)
Definition stays (R : relation Database) (payload : option JobResultPayload) : Prop :=
  forall d d', R d d' -> row_stays (jobResultOutboxID payload) d d'.

Lemma stays_env R payload es : stays R payload -> env_respects R es -> env_respects (row_stays (jobResultOutboxID payload)) es.
Proof. intros S E. eapply List.Forall_impl; [|exact E]. intros ev He d. apply S, He. Qed.

Section Allowed.
Context (R : relation Database) `{!Allows R}.
Variables (quote : string -> string) (error_text : error -> string).
Variable client : Cluster Q.

(** Only questions, and success leaves the result's row. *)
Definition closes (payload : option JobResultPayload) (r : result unit) (new : list (KubeEvent Q)) k : Prop :=
  List.Forall asked new /\ (stays R payload -> r = Ok tt -> result_kept payload k).

Lemma closes_err payload e : emits R (closes payload) (kerr e).
Proof. apply emits_ret. intros k. split; [apply List.Forall_nil|done]. Qed.

Lemma closes_ensure payload : emits R (closes (Some payload)) (kdb (ensureDelayedResultOutboxPending payload)).
Proof.
  intros k. destruct (tracks_ensure asked R payload k) as [(new & L & F) M]. exists new. split; [done|]. split; [done|].
  intros E. split; [done|]. intros St Ok V. apply (stays_env _ _ _ St) in E.
  destruct (kdb_run (ensureDelayedResultOutboxPending payload) k) as (E1 & E2 & _). unfold store_of. rewrite E2.
  rewrite E1 in Ok. destruct (ensureDelayedResultOutboxPending payload (world_of k)) as [r w] eqn:Em. cbn in Ok |- *. subst r.
  assert (T : triple (row_stays (jobResultOutboxID (Some payload))) (fun _ => True) (ensureDelayedResultOutboxPending payload)
            (on_ok (fun _ d => is_Some (db_outbox d !! jobResultOutboxID (Some payload))))).
  { unfold ensureDelayedResultOutboxPending. eapply triple_bind_ok; [by apply triple_create_row|]. intros o.
    apply triple_if; intros _; [by apply triple_ret|]. apply triple_lift. intros d X. by destruct (resumeDelayedResultOutbox o). }
  by destruct (T _ _ _ E I Em) as [X _].
Qed.

Lemma closes_mismatch payload result job :
  emits R (closes payload) (failDelayedJobIdentityMismatch (Q := Q) quote result job).
Proof.
  unfold failDelayedJobIdentityMismatch.
  apply (emits_after asked R); [apply tracks_now; tauto| |].
  - intros now. apply (emits_after asked R); [apply tracks_db, keeps_result; apply _| |].
    + intros [u|e]; [apply closes_err|]. destruct (errors_is _ e); apply closes_err.
    + intros b n1 n2 k F [G X]. split; [by apply List.Forall_app|done].
  - intros b n1 n2 k F [G X]. split; [by apply List.Forall_app|done].
Qed.

Lemma closes_create_error payload e :
  emits R (closes (Some payload)) (handleDelayedJobCreateError quote client payload e).
Proof.
  unfold handleDelayedJobCreateError. apply (emits_after asked R); [apply tracks_exists; tauto| |].
  - intros [[job|]|e']; [|apply closes_err|apply closes_err].
    destruct (negb _); [apply closes_mismatch|apply closes_ensure].
  - intros b n1 n2 k F [G X]. split; [by apply List.Forall_app|done].
Qed.

(** What an admitted execution does to the cluster and the outbox. *)
Definition worked (job : Job Q) (payload : option JobResultPayload) (r : result unit) (new : list (KubeEvent Q)) k : Prop :=
  one_create job new /\ (stays R payload -> r = Ok tt -> List.Forall prepares new \/ result_kept payload k).

Lemma one_create_append job n1 n2 : one_create job n1 -> List.Forall asked n2 -> one_create job (n1 ++ n2)%list.
Proof.
  intros [F|(a & c & b & -> & Fa & Fb)] G.
  - left. apply List.Forall_app. split; [done|by apply asked_prepare].
  - right. exists a, c, (b ++ n2)%list. split; [by rewrite <- app_assoc|]. split; [done|by apply List.Forall_app].
Qed.

Lemma emits_reconcile (job : Job Q) onExisting :
  (forall existing, kkeeps (tracks asked R) (onExisting existing)) ->
  emits R (fun _ new _ => one_create job new)
    (CreateOrUpdateResource (kube_Get (Some client) (kj_Namespace job) (kj_Name job)) (kube_Create (Some client) job) onExisting).
Proof.
  intros Hx. assert (A : forall {A} (m : K Q A), kkeeps (tracks asked R) m -> emits R (fun _ new _ => one_create job new) m).
  { intros A m Hm. eapply emits_weaken; [apply (emits_tracks asked R), Hm|]. intros a new k F. left. by apply asked_prepare. }
  assert (P : forall (b : result (Job Q * bool)) n1 n2 (k : KubeRun Q), List.Forall asked n1 -> one_create job n2 -> one_create job (n1 ++ n2)%list)
    by (intros b n1 n2 k F; apply one_create_prepend; by apply asked_prepare).
  unfold CreateOrUpdateResource. apply (emits_after asked R); [apply tracks_Get; tauto| |exact P].
  intros [existing|e].
  { apply A. apply kkeeps_must; [apply _|apply Hx|]. intros u. apply kkeeps_ret, _. }
  destruct (negb _); [apply A, kkeeps_ret, _|].
  eapply (emits_bind R (fun c new _ => new = [KvCreate job c])) with (S2 := fun _ _ new _ => List.Forall asked new).
  - intros k. exists [KvCreate job (on_create client (kr_log k) job)]. split; [done|]. split; [by apply moves_same|done].
  - intros [created|e']; [apply (emits_tracks asked R), kkeeps_ret, _|].
    destruct (errors_is _ e'); [|apply (emits_tracks asked R), kkeeps_ret, _].
    apply (emits_tracks asked R). apply kkeeps_must; [apply _|apply tracks_Get; tauto|]. intros existing.
    apply kkeeps_must; [apply _|apply Hx|]. intros u. apply kkeeps_ret, _.
  - intros c b n1 n2 k1 k2 -> F. right. exists [], c, n2. auto.
Qed.

Lemma emits_create (job : Job Q) payload :
  emits R (worked job payload) (createDelayedJob quote client job payload).
Proof.
  unfold createDelayedJob.
  eapply (emits_bind R) with (S2 := fun _ => closes payload).
  - apply emits_reconcile. intros existing. destruct (JobResultMatchesExecutionIdentity _ _); apply kkeeps_ret, _.
  - intros [[live created]|e].
    + destruct payload as [result|].
      * destruct (negb _); [apply closes_mismatch|apply closes_ensure].
      * apply emits_ret. intros k. split; [apply List.Forall_nil|]. by intros _ _ V.
    + destruct (errors_is _ e); [apply closes_err|]. destruct payload; [apply closes_create_error|apply closes_err].
  - intros a b n1 n2 k1 k2 O [F X]. split; [by apply one_create_append|]. intros St Ok. right. by apply X.
Qed.

Lemma worked_prepend job payload r n1 n2 k :
  List.Forall prepares n1 -> worked job payload r n2 k -> worked job payload r (n1 ++ n2)%list k.
Proof.
  intros F [O X]. split; [by apply one_create_prepend|]. intros St Ok.
  destruct (X St Ok) as [G|G]; [left; by apply List.Forall_app|by right].
Qed.

Lemma worked_quiet job payload (m : K Q (result unit)) : kkeeps (tracks prepares R) m -> emits R (worked job payload) m.
Proof.
  intros Hm. eapply emits_weaken; [apply (emits_tracks prepares R), Hm|]. intros r new k F. split; [by left|]. intros _ _. by left.
Qed.

Lemma emits_admitted (job : Job Q) jobType payload :
  emits R (worked job payload) (run_admitted error_text quote client job jobType payload).
Proof.
  assert (Rec : forall (status message : string), kkeeps (tracks prepares R)
            (match payload with
             | Some result => kbind (kdb (UpdateJobInfoStatus result status message 0 0 "")) (fun _ => kret tt)
             | None => kret tt
             end)).
  { intros st msg. destruct payload; [|apply kkeeps_ret, _]. apply kkeeps_bind; [apply _|apply tracks_db, keeps_result; apply _|].
    intros u. apply kkeeps_ret, _. }
  unfold run_admitted. cbv zeta. apply (emits_must prepares R).
  - apply tracks_verify; [apply _|exact asked_prepares].
  - intros u. apply (emits_after prepares R); [apply tracks_policy, _| |].
    + intros [[|]|e].
      * apply emits_create.
      * apply worked_quiet, kkeeps_bind; [apply _|apply Rec|intros x; apply kkeeps_ret, _].
      * destruct (ExtractStatusError e); apply worked_quiet; [|apply kkeeps_ret, _].
        apply kkeeps_bind; [apply _|apply Rec|intros x; apply kkeeps_ret, _].
    + intros b n1 n2 k. apply worked_prepend.
  - intros b n1 n2 k. apply worked_prepend.
  - intros e k. split; [left; apply List.Forall_nil|done].
Qed.

(** ** The whole dispatch *)

Lemma emits_release job payload key expires m :
  emits R (worked job payload) m -> emits R (worked job payload) (release_delayed key expires m).
Proof.
  intros Hm k. destruct (Hm k) as (new & L & M & X). unfold release_delayed, kbind. destruct (m k) as [r k1]. cbn in L, M, X.
  destruct (tracks_db asked R _ (keeps_released (Q := Q) R key "delayed job dispatch returned" [expires]) k1) as [_ M2].
  destruct (kdb_run (ReleaseJobAdmission (Q := Q) None key "delayed job dispatch returned" [expires]) k1) as (_ & _ & L2).
  destruct (kdb (ReleaseJobAdmission None key "delayed job dispatch returned" [expires]) k1) as [released k2]. cbn in M2, L2.
  exists new. cbn. split; [by rewrite L2|]. split; [by apply (transitivity (R := moves R) M M2)|].
  intros E. destruct (X E) as [O W]. split; [done|]. intros St Er0.
  assert (Er : r = Ok tt) by (destruct r as [[]|e]; [done|]; by destruct released).
  destruct (W St Er) as [F|G]; [by left|right].
  intros V. destruct (moves_run R _ _ M E) as [_ E1]. destruct (moves_run R _ _ M2 E1) as [R2 _]. by apply (St _ _ R2), G.
Qed.

(** Either the cluster is only asked, or the execution is admitted before anything else. *)
Definition admitted_first (key : string) (made : Job Q -> Prop) (payload : Job Q -> option JobResultPayload)
    (r : result unit) (new : list (KubeEvent Q)) k : Prop :=
  List.Forall asked new \/
  exists n1 n2 job, new = (n1 ++ KvAdmitted key :: n2)%list /\ List.Forall asked n1 /\ made job /\
    worked job (payload job) r n2 k.

Lemma first_asked {key made payload} (m : K Q (result unit)) :
  kkeeps (tracks asked R) m -> emits R (admitted_first key made payload) m.
Proof.
  intros Hm. eapply emits_weaken; [apply (emits_tracks asked R), Hm|]. intros r new k F. by left.
Qed.

Lemma first_prepend {key made payload} r n1 n2 k :
  List.Forall asked n1 -> admitted_first key made payload r n2 k -> admitted_first key made payload r (n1 ++ n2)%list k.
Proof.
  intros F [G|(a & b & job & -> & Fa & J & W)]; [left; by apply List.Forall_app|right].
  exists (n1 ++ a)%list, b, job. split; [by rewrite app_assoc|]. split; [by apply List.Forall_app|done].
Qed.

Lemma first_err {key made payload} e : emits R (admitted_first key made payload) (kerr e).
Proof. apply first_asked, kkeeps_ret, _. Qed.

(** After a step that only asks. *)
Lemma first_must {key made payload A} (m : K Q (result A)) (f : A -> K Q (result unit)) :
  kkeeps (tracks asked R) m -> (forall a, emits R (admitted_first key made payload) (f a)) ->
  emits R (admitted_first key made payload) (kmust m f).
Proof.
  intros Hm Hf. apply (emits_must asked R); [exact Hm|exact Hf| |].
  - intros b n1 n2 k. apply first_prepend.
  - intros e k. left. apply List.Forall_nil.
Qed.

Lemma first_bind {key made payload A} (m : K Q A) (f : A -> K Q (result unit)) :
  kkeeps (tracks asked R) m -> (forall a, emits R (admitted_first key made payload) (f a)) ->
  emits R (admitted_first key made payload) (kbind m f).
Proof. intros Hm Hf. apply (emits_after asked R); [exact Hm|exact Hf|]. intros b n1 n2 k. apply first_prepend. Qed.

(** Programs of the store, one after the other, note nothing. *)
Lemma silent_must {A B} (m : K Q (result A)) (f : A -> K Q (result B)) (S : result B -> list (KubeEvent Q) -> KubeRun Q -> Prop) :
  kkeeps (tracks (fun _ => False) R) m -> (forall a, emits R S (f a)) -> (forall e k, S (Err e) [] k) -> emits R S (kmust m f).
Proof.
  intros Hm Hf HE. apply (emits_must (fun _ => False) R); [exact Hm|exact Hf| |exact HE].
  intros b n1 n2 k F X. destruct n1 as [|ev n1]; [exact X|]. by inversion F.
Qed.

Lemma emits_admit scope (payload : DelayJobPayload Q) :
  emits R (fun r new _ => new = if is_ok r then [KvAdmitted (dp_ExecutionKey payload)] else []) (admit_delayed scope payload).
Proof.
  assert (Nil : forall e, emits R (fun r new _ => new = if is_ok r then [KvAdmitted (dp_ExecutionKey payload)] else [])
                       (kerr (A := JobInfo) e)) by (intros e; by apply emits_ret).
  unfold admit_delayed. apply silent_must; [apply tracks_db, keeps_ro, read_only_checkpoint| |done].
  intros [checkpoint|]; [|apply Nil]. apply silent_must; [apply tracks_db, keeps_ro; auto with store| |done].
  intros now. apply silent_must; [apply kkeeps_wrap; [apply _|]; apply tracks_db, keeps_queued; apply _| |done].
  intros queued. apply silent_must; [apply tracks_db, keeps_admitted| |done].
  intros [|]; [|apply Nil]. intros k. exists [KvAdmitted (dp_ExecutionKey payload)]. split; [done|]. split; [by apply moves_same|done].
Qed.

Lemma must_ok {A B} (S : result B -> list (KubeEvent Q) -> KubeRun Q -> Prop) (a : A) (f : A -> K Q (result B)) :
  emits R S (f a) -> emits R S (kmust (kret (Ok a)) f).
Proof. exact id. Qed.

Lemma emits_dispatchJob scope (payload : DelayJobPayload Q) :
  emits R (admitted_first (dp_ExecutionKey payload)
             (fun made => exists job, dp_Job payload = Some job /\ delayed_job payload job = Ok made)
             (fun made => NewJobResultPayloadFromDelay (Some payload) (Some made)))
    (dispatchJob error_text quote client scope payload).
Proof.
  unfold dispatchJob. destruct (dp_Job payload) as [job|] eqn:J; [|apply first_err].
  destruct (ValidateDelayJobPayload payload); [|apply first_err].
  apply first_must; [apply tracks_read, read_only_execution|]. intros current.
  destruct (negb current); [apply first_asked, kkeeps_ret, _|].
  destruct (delayed_job payload job) as [made|e] eqn:Dj; [|exact (first_err e)]. apply must_ok.
  set (result := NewJobResultPayloadFromDelay (Some payload) (Some made)).
  apply first_bind.
  { destruct result; [|apply kkeeps_ret, _]. apply tracks_read.
    unfold GetJobResultOutboxByPayload, getJobResultOutboxByID. store_step. }
  intros [outbox|e]; [apply first_asked, kkeeps_ret, _|]. destruct (negb _); [apply first_err|].
  apply first_must; [destruct result; [apply tracks_read, read_only_execution|apply kkeeps_ret, _]|].
  intros current'. destruct (negb current'); [apply first_asked, kkeeps_ret, _|].
  unfold kmust at 1. eapply (emits_bind R) with
    (S2 := fun r => match r with Ok _ => worked made result | Err _ => fun _ new _ => new = [] end); [apply emits_admit| |].
  - intros [checkpoint|e2]; [apply emits_release, emits_admitted|]. by apply emits_ret.
  - intros [checkpoint|e2] b n1 n2 k1 k2 -> W; [|rewrite W; left; apply List.Forall_nil].
    right. exists [], n2, made. split; [done|]. split; [apply List.Forall_nil|]. split; [by exists job|exact W].
Qed.

(** *** [dispatch] *)

Definition same_identity (a b : DelayJobPayload Q) : Prop := NotificationForDelayJob a = NotificationForDelayJob b.

Definition same_row (a b : option JobResultPayload) : Prop :=
  jobResultOutboxID a = jobResultOutboxID b /\ is_ok (validateJobResultPayload a) = is_ok (validateJobResultPayload b).

(** The row's key depends on the identity and the object only. *)
Lemma same_result (a b : DelayJobPayload Q) (job : Job Q) :
  same_identity a b ->
  same_row (NewJobResultPayloadFromDelay (Some a) (Some job)) (NewJobResultPayloadFromDelay (Some b) (Some job)).
Proof.
  unfold same_row, same_identity, NotificationForDelayJob. intros [= _ T Ty Sv K G _]. unfold NewJobResultPayloadFromDelay.
  rewrite T, Ty, Sv, K, G. destruct (str_empty (TrimSpace (kj_Name job)) || _); [done|].
  unfold jobResultOutboxID, validateJobResultPayload. by cbn.
Qed.
Lemma reject_fails {A} checkpoint cause w (a : A) w' : rejectCheckpoint error_text checkpoint cause w = (Ok a, w') -> False.
Proof.
  unfold rejectCheckpoint, bind. destruct (wall_clock w) as [[now|e] w1]; [|done].
  destruct (wrap_error _ _ w1) as [[[|]|e] w2]; [done| |done].
  destruct (try _ w2) as [[[latest|e]|e] w3]; [| |done].
  - by destruct (still_pending checkpoint latest).
  - destruct (negb _); [done|]. by destruct (still_pending checkpoint job_info_zero).
Qed.

Lemma stamped (task : JobTask) (job : Job Q) :
  blank (jt_TaskID task) = false -> blank (jt_ExecutionKey task) = false -> 0 < jt_RunGeneration task ->
  let made := StampJobExecutionIdentity task job in
  kj_Name made = kj_Name job /\ kj_Namespace made = kj_Namespace job /\
  annotation_of made AnnotationJobTaskID = TrimSpace (jt_TaskID task) /\
  annotation_of made AnnotationJobExecutionKey = TrimSpace (jt_ExecutionKey task) /\
  annotation_of made AnnotationJobRunGeneration = FormatUint (jt_RunGeneration task) 10.
Proof.
  intros T K G made. subst made. unfold StampJobExecutionIdentity. rewrite T, K. apply Z.ltb_lt in G. rewrite G. cbv zeta.
  cbn [kj_Name kj_Namespace set]. split; [done|]. split; [done|]. unfold annotation_of, str_get. cbn [kj_Annotations set].
  generalize (FormatUint (jt_RunGeneration task) 10) (TrimSpace (jt_TaskID task)) (TrimSpace (jt_ExecutionKey task)).
  intros g t x. generalize (FormatUint (if jt_Attempt task =? 0 then u64 (i64 (jt_RetryCount task + 1)) else jt_Attempt task) 10).
  intros a. generalize (kj_Annotations job). intros m.
  rewrite !(lookup_insert_ne _ AnnotationJobAttempt) by discriminate. rewrite lookup_insert_eq.
  rewrite !(lookup_insert_ne _ AnnotationJobRunGeneration) by discriminate. rewrite lookup_insert_eq.
  rewrite !(lookup_insert_ne _ AnnotationJobExecutionKey) by discriminate. by rewrite lookup_insert_eq.
Qed.

Lemma first_weaken key (made made' : Job Q -> Prop) payload payload' r new k :
  (forall job, made job -> made' job) ->
  (forall job, same_row (payload job) (payload' job)) ->
  admitted_first key made payload r new k -> admitted_first key made' payload' r new k.
Proof.
  intros HM HP [F|(n1 & n2 & job & E & F & J & O & X)]; [by left|right]. exists n1, n2, job. split; [done|]. split; [done|].
  split; [by apply HM|]. split; [done|]. destruct (HP job) as [E1 E2]. unfold stays, result_kept in *. rewrite <- E1, <- E2. exact X.
Qed.

(** What a decoded payload is known to have. *)
Definition identified (payload : DelayJobPayload Q) : Prop :=
  blank (dp_TaskID payload) = false /\ blank (dp_ExecutionKey payload) = false /\ 0 < dp_RunGeneration payload.

Lemma decoded_valid decode_job raw (payload : DelayJobPayload Q) :
  decodePayload decode_job raw = Ok payload -> identified payload.
Proof.
  unfold decodePayload, unmarshal_delay_payload, result_bind. destruct (json_parse raw) as [j|]; [|done]. cbn [mbind option_bind].
  destruct (dec_delay_payload decode_job j) as [p|] eqn:D; [|done].
  assert (G : 0 <= dp_RunGeneration p).
  { unfold dec_delay_payload in D.
    repeat match type of D with context [match ?x with Some _ => _ | None => _ end] => destruct x eqn:?; [|done] end.
    injection D as <-. cbn.
    match goal with H : dec_uint64 _ = Some _ |- _ => apply dec_int_in_range in H; unfold two64 in *; lia end. }
  unfold ValidateDelayJobPayload, ValidateDelayJobIdentity. destruct (dp_Job p); [|done].
  destruct (blank (kj_Name _)); [done|]. destruct (blank (dp_TaskID p)) eqn:T; [done|].
  destruct (blank (dp_ExecutionKey p)) eqn:K; [done|]. destruct (Z.eqb_spec (dp_RunGeneration p) 0); [done|].
  intros [= <-]. split; [done|]. split; [done|lia].
Qed.

Lemma identified_same (a b : DelayJobPayload Q) : same_identity a b -> identified a -> identified b.
Proof. unfold same_identity, identified, NotificationForDelayJob. by intros [= _ -> _ _ -> -> _]. Qed.

End Allowed.

(** ** The way to the workspace *)

(** The checkpoint of a dispatch is a record of its execution. *)
Lemma moment_checkpoint (payload : DelayJobPayload Q) w checkpoint w' :
  findDelayCheckpoint None payload w = (Ok (Some checkpoint), w') ->
  (exists id, moment w (fun d => db_jobs d !! id = Some checkpoint)) /\
  JobInfoExecutionKey checkpoint = TrimSpace (dp_ExecutionKey payload) /\
  job_RunGeneration checkpoint = dp_RunGeneration payload.
Proof.
  unfold findDelayCheckpoint, bind, wrap_error, LoadJobInfos.
  destruct (blank _); [by intros [= X]|]. unfold bind, ret. destruct (List_ _ _ w) as [[rows|e] w1] eqn:L; [|done].
  intros [= X _]. apply find_some in X as [I X]. apply andb_true_iff in X as [G Ky].
  apply Z.eqb_eq in G. apply String.eqb_eq in Ky. split; [|by split].
  destruct (moment_List _ _ _ _ _ L) as (w2 & N & ->). apply select_matches in I as [_ I]. apply elem_rows in I as [id I].
  exists id, w2. by split.
Qed.

(** The place of a checkpoint, which a success read without a change. *)
Definition placed (w : World) (checkpoint : JobInfo) (committed : DelayJobPayload Q) (app : Applications) (space : Workspace) : Prop :=
  moment w (fun d => db_apps d !! job_AppID checkpoint = Some app) /\
  moment w (fun d => db_workspaces d !! app_WorkspaceID app = Some space) /\
  ws_ID space = job_WorkspaceID checkpoint /\ ws_Namespace space <> ""%string /\
  app_Namespace app = ws_Namespace space /\ dp_Namespace committed = ws_Namespace space.

Lemma place_found error_text checkpoint (committed : DelayJobPayload Q) w app space w' :
  checkpointWorkspace error_text checkpoint committed w = (Ok (app, space), w') ->
  noeffect w w' /\ placed w checkpoint committed app space.
Proof.
  unfold checkpointWorkspace. destruct (str_empty _); [by intros E%reject_fails|]. unfold bind at 1, try at 1.
  destruct (Get (job_AppID checkpoint) w) as [[app0|e] w1] eqn:Ga; [|by destruct (errors_is _ e); [intros E%reject_fails|]].
  assert (N1 : noeffect w w1) by (eapply (read_only_Get (E := Applications)), Ga). apply moment_Get in Ga.
  destruct (str_empty (app_WorkspaceID app0)); [by intros E%reject_fails|]. unfold bind, try.
  destruct (Get (app_WorkspaceID app0) w1) as [[space0|e] w2] eqn:Gs; [|by destruct (errors_is _ e); [intros E%reject_fails|]].
  assert (N2 : noeffect w1 w2) by (eapply (read_only_Get (E := Workspace)), Gs). apply moment_Get in Gs.
  destruct (_ || _) eqn:G; [by intros E%reject_fails|]. intros [= <- <- <-].
  split; [by etrans|]. split; [exact Ga|]. split; [by eapply moment_later|].
  apply orb_false_iff in G as [G N5]. apply orb_false_iff in G as [G N4]. apply orb_false_iff in G as [G1 N3].
  apply negb_false_iff, String.eqb_eq in N3, N4, N5. apply str_empty_false in G1. by rewrite N5.
Qed.

Section Route.
Variables (quote : string -> string) (error_text : error -> string) (decode_job : Json -> option (Job Q)).
Variable manager : option (Manager Q).
Variable payload : DelayJobPayload Q.
Variable k0 : KubeRun Q.

(** The workload of the execution's checkpoint, prepared for the checkpoint's workspace: the one whose record
    the checkpoint names, that its application belongs to and that owns the namespace. *)
Definition prepared_for (m : Manager Q) (space : Workspace) (job : Job Q) : Prop :=
  exists id checkpoint app ns committed job0,
    moment (world_of k0) (fun d => db_jobs d !! id = Some checkpoint) /\
    JobInfoExecutionKey checkpoint = TrimSpace (dp_ExecutionKey payload) /\
    job_RunGeneration checkpoint = dp_RunGeneration payload /\
    placed (world_of k0) checkpoint committed app space /\
    on_namespace m (kr_log k0) (ws_Namespace space) = Ok ns /\ ns_Owner ns = ws_ID space /\ ns_Deleting ns = false /\
    decodePayload decode_job (job_DelayPayload checkpoint) = Ok committed /\
    NotificationForDelayJob committed = NotificationForDelayJob payload /\ dp_Job committed = Some job0 /\
    prepare_task m app space job0 = Ok job.

(** The Job to create: prepared so, in the workspace's namespace and stamped with the execution. *)
Definition made_for (made : Job Q) : Prop :=
  (exists m space job, manager = Some m /\ prepared_for m space job /\
     kj_Name made = kj_Name job /\ kj_Namespace made = ws_Namespace space) /\
  annotation_of made AnnotationJobTaskID = TrimSpace (dp_TaskID payload) /\
  annotation_of made AnnotationJobExecutionKey = TrimSpace (dp_ExecutionKey payload) /\
  annotation_of made AnnotationJobRunGeneration = FormatUint (dp_RunGeneration payload) 10.

(** The dispatch ends without a request to the cluster, or at [dispatchJob] of the prepared workload. *)
Definition routed (out : result unit * KubeRun Q) : Prop :=
  (forall R, Allows R -> tracks asked R k0 (snd out)) \/
  exists m space client wp job k1,
    manager = Some m /\ prepared_for m space job /\ same_identity wp payload /\ identified payload /\
    dp_Namespace wp = ws_Namespace space /\ ws_Namespace space <> ""%string /\ dp_Job wp = Some job /\
    noeffect (world_of k0) (world_of k1) /\ kr_log k1 = kr_log k0 /\
    out = dispatchJob error_text quote client (Some (ws_ID space)) wp k1.

(** Nothing happened yet. *)
Definition so_far (k : KubeRun Q) : Prop := noeffect (world_of k0) (world_of k) /\ kr_log k = kr_log k0.

Lemma so_far_tracks k T R : so_far k -> tracks T R k0 k.
Proof. intros [N L]. split; [exists []; by rewrite app_nil_r|]. by apply commits_noeffect. Qed.

Lemma routed_stop k r : so_far k -> routed (r, k).
Proof. intros Sf. left. intros R _. by apply so_far_tracks. Qed.

Lemma routed_last (m : K Q (result unit)) k :
  so_far k -> (forall R, Allows R -> kkeeps (tracks asked R) m) -> routed (m k).
Proof. intros Sf Hm. left. intros R A. etrans; [by apply so_far_tracks|]. by apply Hm. Qed.

(** Reading the store. *)
Lemma routed_read {A} (m : M A) (f : result A -> K Q (result unit)) k :
  so_far k -> read_only m ->
  (forall r k1, so_far k1 -> m (world_of k) = (r, world_of k1) -> routed (f r k1)) ->
  routed (kbind (kdb m) f k).
Proof.
  intros [N L] Hm Hf. unfold kbind. destruct (kdb_run m k) as (E1 & E2 & E3). destruct (kdb m k) as [r k1]. cbn in E1, E2, E3.
  assert (E : m (world_of k) = (r, world_of k1)) by (rewrite E1, E2; apply surjective_pairing).
  apply Hf; [|exact E]. split; [etrans; [exact N|by eapply Hm]|congruence].
Qed.

Lemma routed_must {A} (m : M A) (f : A -> K Q (result unit)) k :
  so_far k -> read_only m ->
  (forall a k1, so_far k1 -> m (world_of k) = (Ok a, world_of k1) -> routed (f a k1)) ->
  routed (kmust (kdb m) f k).
Proof. intros Sf Hm Hf. apply routed_read; [done|done|]. intros [a|e] k1 S1 E; [by apply Hf|by apply routed_stop]. Qed.

Lemma routed_workspace m id checkpoint (committed : DelayJobPayload Q) job k :
  so_far k -> manager = Some m -> moment (world_of k0) (fun d => db_jobs d !! id = Some checkpoint) ->
  JobInfoExecutionKey checkpoint = TrimSpace (dp_ExecutionKey payload) ->
  job_RunGeneration checkpoint = dp_RunGeneration payload ->
  decodePayload decode_job (job_DelayPayload checkpoint) = Ok committed ->
  NotificationForDelayJob committed = NotificationForDelayJob payload -> dp_Job committed = Some job ->
  routed (dispatch_to_workspace error_text quote m checkpoint committed job k).
Proof.
  intros Sf HM Mc Ck Cg Dc I J. pose proof (identified_same committed payload I (decoded_valid _ _ _ Dc)) as V.
  pose proof (fun R (A : Allows R) => keeps_place (Q := Q) R error_text checkpoint committed) as Kp.
  unfold dispatch_to_workspace, kmust, kbind at 1.
  destruct (kdb_run (checkpointWorkspace error_text checkpoint committed) k) as (E1 & E2 & E3).
  pose proof (fun R (A : Allows R) => tracks_db asked R _ (Kp R A) k) as Tr.
  destruct (kdb (checkpointWorkspace error_text checkpoint committed) k) as [r k1]. cbn in E1, E2, E3, Tr.
  destruct r as [[app space]|e]; [|left; intros R A; etrans; [by apply so_far_tracks|by apply Tr]].
  destruct (place_found error_text checkpoint committed (world_of k) app space (world_of k1)) as (N & P1 & P2 & P3 & P4 & P5 & P6).
  { rewrite E1, E2. apply surjective_pairing. }
  assert (S1 : so_far k1) by (split; [etrans; [apply Sf|exact N]|rewrite E3; apply Sf]).
  assert (Pl : placed (world_of k0) checkpoint committed app space).
  { split; [eapply moment_later, P1; apply Sf|]. split; [eapply moment_later, P2; apply Sf|done]. }
  destruct (prepare_task m app space job) as [prepared|e] eqn:P;
    [|apply routed_last; [exact S1|intros R A; apply tracks_db, keeps_reject, _]].
  unfold kbind, kget. rewrite (proj2 S1). destruct (on_namespace m _ _) as [ns|e] eqn:Ns; [|by apply routed_stop].
  destruct (_ || _) eqn:Ow; [apply routed_last; [exact S1|intros R A; apply tracks_db, keeps_reject, _]|].
  apply orb_false_iff in Ow as [Ow Dl]. apply negb_false_iff, String.eqb_eq in Ow.
  destruct (tenant_client m space) as [client|e]; [|by apply routed_stop].
  right. exists m, space, client, (Build_DelayJobPayload Q (dp_ExecuteAt committed) (dp_Namespace committed)
    (dp_JobType committed) (dp_TaskID committed) (dp_ExecutionKey committed) (dp_RunGeneration committed)
    (dp_RunToken committed) (dp_ServiceName committed) (dp_TimeoutSeconds committed) (Some prepared)), prepared, k1.
  split; [exact HM|]. split.
  { exists id, checkpoint, app, ns, committed, job. do 10 (split; [done|]). exact P. }
  split; [exact I|]. split; [exact V|]. split; [exact P6|]. split; [exact P4|]. split; [reflexivity|]. split; [apply S1|].
  split; [apply S1|reflexivity].
Qed.

Lemma routed_dispatch (item : delayItem Q) :
  di_payload item = Some payload -> routed (dispatch decode_job error_text quote manager item k0).
Proof.
  intros Ei. assert (S0 : so_far k0) by (split; reflexivity).
  unfold dispatch. rewrite Ei. destruct (match dp_Job payload with Some _ => _ | None => _ end); [|by apply routed_stop].
  apply routed_must; [done|apply read_only_execution|]. intros current k1 S1 _.
  destruct (negb current); [by apply routed_stop|].
  destruct manager as [m|] eqn:HM; [|by apply routed_stop].
  apply routed_must; [done|apply read_only_checkpoint|]. intros [checkpoint|] k2 S2 Ec; [|by apply routed_stop].
  apply moment_checkpoint in Ec as ((id & Mc) & Ck & Cg). apply (moment_later (world_of k0)) in Mc; [|apply S1].
  unfold validateCheckpointNotification. destruct (decodePayload decode_job _) as [committed|e] eqn:D; [|exact (routed_stop _ _ S2)].
  destruct (bool_decide _) eqn:B; [|exact (routed_stop _ _ S2)]. apply bool_decide_eq_true in B.
  change (routed (kbind (kdb (GetJobResultOutboxByPayload (NewJobResultPayloadFromDelay (Some committed) (dp_Job committed))))
    (fun outbox => match outbox with
      | Ok outbox => kret (resumeDelayedResultOutbox outbox)
      | Err e => if negb (errors_is ErrRecordNotExist e) then kerr e else
          if (job_DelayState checkpoint =? JobDelayStateDispatched)%string then kok tt else
          match dp_Job committed with
          | Some job => dispatch_to_workspace error_text quote m checkpoint committed job
          | None => kok tt end end) k2)).
  apply routed_read; [done|unfold GetJobResultOutboxByPayload, getJobResultOutboxByID; store_step|].
  intros [outbox|e] k3 S3 _; [by apply routed_stop|]. destruct (negb _); [by apply routed_stop|].
  destruct (_ =? _)%string; [by apply routed_stop|].
  destruct (dp_Job committed) as [job|] eqn:J; [|by apply routed_stop].
  eapply routed_workspace; eauto.
Qed.

(** What [dispatchJob] creates is made so. *)
Lemma made_by m space (wp : DelayJobPayload Q) job made :
  manager = Some m -> prepared_for m space job -> dp_Namespace wp = ws_Namespace space -> ws_Namespace space <> ""%string ->
  same_identity wp payload -> identified payload -> delayed_job wp job = Ok made -> made_for made.
Proof.
  intros HM HP W N I V D. pose proof (identified_same payload wp ltac:(by symmetry) V) as (T & K & G).
  unfold delayed_job in D. cbv zeta in D. destruct (str_empty (dp_Namespace wp)) eqn:B.
  { apply str_empty_true in B. congruence. }
  destruct (str_empty (dp_Namespace wp)); [done|]. destruct (str_empty (kj_Name job)); [done|].
  injection D as <-. set (job' := job <| kj_Namespace := dp_Namespace wp |>).
  destruct (stamped (execution_task wp) job' T K G) as (En & Es & A1 & A2 & A3).
  revert I. unfold same_identity, NotificationForDelayJob. intros [= _ I1 _ _ I2 I3 _].
  split; [|rewrite A1, A2, A3, <- I1, <- I2, <- I3; done].
  exists m, space, job. rewrite En, Es. done.
Qed.

(** The run as a whole. *)
Lemma dispatched R `{!Allows R} (item : delayItem Q) r k' :
  di_payload item = Some payload -> dispatch decode_job error_text quote manager item k0 = (r, k') ->
  exists new, kr_log k' = (kr_log k0 ++ new)%list /\ moves R k0 k' /\
    (env_respects R (w_env (world_of k0)) ->
     admitted_first R (dp_ExecutionKey payload) made_for
       (fun made => NewJobResultPayloadFromDelay (Some payload) (Some made)) r new k').
Proof.
  intros Ei E. destruct (routed_dispatch item Ei) as [Tr|(m & space & client & wp & job & k1 & HM & P & I & V & W & N & J & Nk & L1 & Eo)].
  - rewrite E in Tr. destruct (Tr R _) as [(new & L & F) M]. exists new. split; [done|]. split; [done|]. intros _. by left.
  - rewrite E in Eo. destruct (emits_dispatchJob R quote error_text client (Some (ws_ID space)) wp k1) as (new & L & M & X).
    rewrite <- Eo in L, M, X. cbn [fst snd] in L, M, X. exists new. split; [by rewrite L, L1|]. split.
    { eapply (transitivity (R := moves R)), M. by apply commits_noeffect. }
    intros Env. assert (Ek : dp_ExecutionKey wp = dp_ExecutionKey payload) by (revert I; unfold same_identity, NotificationForDelayJob; by intros [=]).
    rewrite <- Ek. eapply first_weaken; [| |apply X; by apply (noeffect_respects R _ _ Nk)].
    + intros made (job1 & J1 & D). rewrite J in J1. injection J1 as <-. by eapply made_by.
    + intros made. by apply same_result.
Qed.
End Route.

(** The only Job created is the one [worked] speaks of. *)
Lemma created_once (job job' : Job Q) c new : one_create job new -> In (KvCreate job' c) new -> job' = job.
Proof.
  intros [F|(n1 & c0 & n2 & -> & F1 & F2)] I.
  - by pose proof (proj1 (List.Forall_forall _ _) F _ I).
  - apply in_app_or in I as [I|[[= -> _]|I]]; [|done|].
    + by pose proof (proj1 (List.Forall_forall _ _) F1 _ I).
    + by destruct (proj1 (List.Forall_forall _ _) F2 _ I).
Qed.

Lemma created_kept key made payload new k (job : Job Q) c :
  admitted_first (row_stays (jobResultOutboxID (payload job))) key made payload (Ok tt) new k -> In (KvCreate job c) new -> result_kept (payload job) k.
Proof.
  intros [F|(n1 & n2 & job0 & -> & F & _ & O & X)] I.
  - by destruct (proj1 (List.Forall_forall _ _) F _ I).
  - apply in_app_or in I as [I|[I|I]]; [by destruct (proj1 (List.Forall_forall _ _) F _ I)|done|].
    pose proof (created_once _ _ _ _ O I) as <-. destruct X as [X|X]; [by intros d d'|done| |exact X].
    by pose proof (proj1 (List.Forall_forall _ _) X _ I).
Qed.

(** ** An execution that is not admitted *)

Section Unadmitted.
Context (key : string).

Lemma unadmitted_stable : stable (unadmitted_kept key) (unadmitted key).
Proof. intros d d' H1 H2. by apply H1. Qed.

Lemma triple_reads {A} (m : M A) : read_only m -> triple (unadmitted_kept key) (unadmitted key) m (fun _ => unadmitted key).
Proof. intros Hm. by apply triple_read_only; [apply _|apply unadmitted_stable|exact Hm|]. Qed.

Lemma triple_reads_then {A B} (m : M A) (k : A -> M B) (Post : B -> Database -> Prop) :
  read_only m -> (forall a, triple (unadmitted_kept key) (unadmitted key) (k a) (on_ok Post)) ->
  triple (unadmitted_kept key) (unadmitted key) (bind m k) (on_ok Post).
Proof.
  intros Hm Hk. apply triple_bind_ok with (Mid := fun _ => unadmitted key); [|exact Hk].
  eapply triple_weaken; [done| |by apply triple_reads]. by intros [a|e] d.
Qed.

(** The row of the execution, which is not admitted. *)
Lemma triple_by_key :
  triple (unadmitted_kept key) (unadmitted key) (scheduledJobByExecutionKey None key)
    (on_ok (fun job d => job_SchedulingState job <> JobSchedulingAdmitted /\ unadmitted key d)).
Proof.
  unfold scheduledJobByExecutionKey. apply triple_if; intros _; [|by apply triple_throw].
  apply triple_bind_ok with
    (Mid := fun rows d => unadmitted key d /\ forall job, In job rows -> job_SchedulingState job <> JobSchedulingAdmitted).
  - apply triple_wrap, triple_List; [apply _|apply unadmitted_stable|done|]. intros d Ud. split; [done|]. intros job I.
    apply select_matches in I as [Mt I]. unfold row_matches in Mt. rewrite !andb_true_iff in Mt.
    destruct Mt as [[[_ Mt] _] _]. cbn in Mt. rewrite andb_true_r, orb_false_r in Mt.
    destruct (job_ExecutionKey job) as [x|] eqn:Kx; [|done]. cbn in Mt. apply String.eqb_eq in Mt. subst x.
    apply elem_rows in I as [id L]. by eapply Ud.
  - intros [|job [|]]; [by apply triple_throw| |by apply triple_throw]. apply triple_ret. intros d [Ud X]. split; [|done].
    apply X. by left.
Qed.

Lemma triple_not_admitted expected :
  triple (unadmitted_kept key) (unadmitted key) (IsJobAdmitted (Q := Q) None key expected)
    (fun r d => r <> Ok true /\ unadmitted key d).
Proof.
  unfold IsJobAdmitted. change (validateJobSchedulingOwner None) with (ret tt). apply triple_bind with (Mid := fun _ => unadmitted key).
  { by apply triple_ret. }
  intros _. apply triple_transaction; [apply _| |apply unadmitted_stable|intros a d d' H1 [H2 H3]; split; [done|by apply H1]|by intros e d|].
  { apply read_only_advances. unfold is_job_admitted.
    repeat (apply read_only_bind; [solve [apply read_only_by_key | auto with store | apply read_only_task_clock]|intros ?]).
    destruct (negb _); [|auto with store]. apply read_only_bind; [apply read_only_current|]. store_step. }
  unfold is_job_admitted. eapply triple_bind_ok; [apply triple_by_key|]. intros job. apply triple_pure. intros Hs.
  apply triple_reads_then; [auto with store|]. intros _. apply triple_reads_then; [auto with store|]. intros _.
  apply triple_reads_then; [apply read_only_task_clock|]. intros now. apply triple_if; intros _; [|by apply triple_throw].
  apply triple_reads_then; [apply read_only_current|]. intros valid. apply triple_if; intros _; [|by apply triple_throw].
  apply triple_if; intros _; [by apply triple_ret|]. apply triple_if; intros E; [|by apply triple_throw].
  by apply String.eqb_eq in E.
Qed.

(** What the run does while the execution is not admitted: it only asks. *)
Definition stalled k k' : Prop :=
  env_respects (unadmitted_kept key) (w_env (world_of k)) -> unadmitted key (store_of k) ->
  env_respects (unadmitted_kept key) (w_env (world_of k')) /\ unadmitted key (store_of k') /\ logs asked k k'.

#[local] Instance stalled_preorder : PreOrder stalled.
Proof.
  split; [intros k E U; repeat split; [done|done|reflexivity]|].
  intros a b c H1 H2 E U. destruct (H1 E U) as (E1 & U1 & L1). destruct (H2 E1 U1) as (E2 & U2 & L2).
  repeat split; [done|done|by etrans].
Qed.

Lemma tracks_stalled {A} (m : K Q A) : kkeeps (tracks asked (unadmitted_kept key)) m -> kkeeps stalled m.
Proof. intros Hm k E U. destruct (Hm k) as [L M]. destruct (moves_run _ _ _ M E) as [R1 E1]. auto. Qed.

(** As well, and it fails. *)
Definition stops {A} (m : K Q (result A)) : Prop :=
  forall k, env_respects (unadmitted_kept key) (w_env (world_of k)) -> unadmitted key (store_of k) ->
    stalled k (snd (m k)) /\ is_ok (fst (m k)) = false.

Lemma stops_must {A B} (m : K Q (result A)) (f : A -> K Q (result B)) :
  kkeeps stalled m -> (forall a, stops (f a)) -> stops (kmust m f).
Proof.
  intros Hm Hf k E U. unfold kmust, kbind. pose proof (Hm k) as S1. destruct (m k) as [[a|e] k1]; cbn in S1 |- *; [|done].
  destruct (S1 E U) as (E1 & U1 & _). destruct (Hf a k1 E1 U1) as [S2 O]. split; [by etrans|done].
Qed.

Lemma stops_then {A B} (m : K Q (result A)) (f : A -> K Q (result B)) : stops m -> kkeeps stalled (kmust m f).
Proof.
  intros Hm k E U. destruct (Hm k E U) as [S1 O]. unfold kmust, kbind. destruct (m k) as [[a|e] k1]; [done|]. by apply S1.
Qed.

Lemma stops_err {A} e : stops (kerr (A := A) e).
Proof. intros k E U. split; [reflexivity|done]. Qed.

Lemma stops_admit scope (payload : DelayJobPayload Q) : dp_ExecutionKey payload = key -> stops (admit_delayed scope payload).
Proof.
  intros K. set (R := unadmitted_kept key). unfold admit_delayed. rewrite K.
  apply stops_must; [apply tracks_stalled, tracks_db, keeps_ro, read_only_checkpoint|].
  intros [checkpoint|]; [|apply stops_err].
  apply stops_must; [apply tracks_stalled, tracks_db, keeps_ro; auto with store|]. intros now.
  apply stops_must; [apply tracks_stalled, kkeeps_wrap, tracks_db, keeps_queued; apply _|]. intros queued.
  intros k E U. unfold kmust, kbind. set (m := IsJobAdmitted None _ _).
  destruct (tracks_stalled (kdb m) (tracks_db asked R m (keeps_admitted R _ _)) k E U) as (E1 & U1 & L1).
  destruct (kdb_run m k) as (Em & _ & _).
  assert (N : fst (kdb m k) <> Ok true).
  { rewrite Em. destruct (m (world_of k)) as [r w] eqn:Er. by destruct (triple_not_admitted _ _ _ _ E U Er) as [[N _] _]. }
  destruct (kdb m k) as [[[|]|e] k1]; [done| |]; by repeat split.
Qed.

Lemma stalled_ok {A B} (a : A) (f : A -> K Q (result B)) : kkeeps stalled (f a) -> kkeeps stalled (kmust (kret (Ok a)) f).
Proof. exact id. Qed.

Lemma stalled_dispatchJob error_text quote client scope (payload : DelayJobPayload Q) :
  dp_ExecutionKey payload = key -> kkeeps stalled (dispatchJob error_text quote client scope payload).
Proof.
  intros K. unfold dispatchJob. pose proof (read_only_execution scope payload) as RO.
  destruct (dp_Job payload) as [job|]; [|apply kkeeps_ret, _]. destruct (ValidateDelayJobPayload payload); [|apply kkeeps_ret, _].
  apply kkeeps_must; [apply _|apply tracks_stalled, tracks_read, RO|]. intros current.
  destruct (negb current); [apply kkeeps_ret, _|]. apply kkeeps_must; [apply _|apply kkeeps_ret, _|]. intros made.
  set (result := NewJobResultPayloadFromDelay (Some payload) (Some made)).
  apply kkeeps_bind; [apply _| |].
  { destruct result; [|apply kkeeps_ret, _]. apply tracks_stalled, tracks_read.
    unfold GetJobResultOutboxByPayload, getJobResultOutboxByID. store_step. }
  intros [outbox|e]; [apply kkeeps_ret, _|]. destruct (negb _); [apply kkeeps_ret, _|].
  apply kkeeps_must; [apply _|destruct result; [apply tracks_stalled, tracks_read, RO|apply kkeeps_ret, _]|].
  intros current'. destruct (negb current'); [apply kkeeps_ret, _|]. by apply stops_then, stops_admit.
Qed.

Lemma stalled_dispatch decode_job error_text quote manager (item : delayItem Q) payload k :
  di_payload item = Some payload -> dp_ExecutionKey payload = key ->
  stalled k (snd (dispatch decode_job error_text quote manager item k)).
Proof.
  intros Ei K.
  destruct (routed_dispatch quote error_text decode_job manager payload k item Ei)
    as [Tr|(m & space & client & wp & job & k1 & _ & _ & I & _ & _ & _ & _ & N & L & Eo)].
  - intros E U. destruct (Tr (unadmitted_kept key) _) as [Lg M]. destruct (moves_run _ _ _ M E) as [R1 E1]. auto.
  - rewrite Eo. etrans; [|apply stalled_dispatchJob].
    + intros E U. destruct (noeffect_respects (unadmitted_kept key) _ _ N E) as [R1 E1]. split; [done|]. split; [by apply R1|].
      exists []. by rewrite app_nil_r.
    + revert I. unfold same_identity, NotificationForDelayJob. intros [=]. congruence.
Qed.
End Unadmitted.

(** C9: Dispatching a delayed job, whatever the cluster answers and the other sessions commit.  The cluster is only
    asked questions until the scheduler was seen to have admitted the execution; then at most one Job is created,
    and after its creation the cluster is only asked questions again.  The created Job is the workload committed in
    the checkpoint of this execution, prepared for the workspace that the checkpoint and its application name and that
    owns the namespace, in that namespace and stamped with the execution; checkpoint, application and workspace are
    rows that the store held during the run.  Each commit of the dispatch keeps the status and identity of the settled
    records it finds.  When the dispatch succeeds, the result of a created Job has its row in the outbox, provided no
    other session removed this row meanwhile, as a consumer does once it handled the result.  While no row of the
    execution is admitted and no other session admits one, the cluster is only asked questions. *)
Theorem delay_dispatch_protocol decode_job error_text quote (manager : option (Manager Q)) item payload k r k' :
  di_payload item = Some payload -> dispatch decode_job error_text quote manager item k = (r, k') ->
  commits settled_kept (world_of k) (world_of k') /\
  exists new, kr_log k' = (kr_log k ++ new)%list /\
    (others_settled k ->
     settled_kept (store_of k) (store_of k') /\
     (List.Forall asked new \/
      exists n1 n2 job, new = (n1 ++ KvAdmitted (dp_ExecutionKey payload) :: n2)%list /\ List.Forall asked n1 /\
        made_for decode_job manager payload k job /\ one_create job n2)) /\
    (env_respects (unadmitted_kept (dp_ExecutionKey payload)) (w_env (world_of k)) ->
     unadmitted (dp_ExecutionKey payload) (store_of k) -> List.Forall asked new) /\
    (forall job created, In (KvCreate job created) new -> r = Ok tt ->
       let result := NewJobResultPayloadFromDelay (Some payload) (Some job) in
       env_respects (row_stays (jobResultOutboxID result)) (w_env (world_of k)) -> result_kept result k').
Proof.
  intros Ei E.
  destruct (dispatched quote error_text decode_job manager payload k settled_kept item r k' Ei E) as (new & L & M & X).
  split; [exact M|]. exists new. split; [exact L|]. split; [|split].
  - intros O. split; [by apply (moves_run settled_kept _ _ M)|].
    destruct (X O) as [F|(n1 & n2 & job & En & F & J & W & _)]; [by left|right]. by exists n1, n2, job.
  - intros St U. destruct (stalled_dispatch _ decode_job error_text quote manager item payload k Ei eq_refl St U) as (_ & _ & n & Ln & F).
    rewrite E in Ln. cbn [snd] in Ln. rewrite L in Ln. apply app_inv_head in Ln. by subst n.
  - intros job c I -> result St.
    destruct (dispatched quote error_text decode_job manager payload k (row_stays (jobResultOutboxID result)) item (Ok tt) k' Ei E)
      as (new' & L' & M' & X').
    assert (new' = new) as -> by (rewrite L in L'; by apply app_inv_head in L').
    exact (created_kept _ _ _ _ _ _ c (X' St) I).
Qed.
End Requests.

(** ** One due job of a workspace *)

Definition due_text : string :=
  object [member "executeAt" "5"; member "namespace" (jq "ns"); member "jobType" (jq "instant_job");
    member "taskId" (jq "task-1"); member "executionKey" (jq "key-1"); member "runGeneration" "1";
    member "runToken" (jq "run-1"); member "serviceName" (jq "web"); member "timeoutSeconds" "60"; member "job" "{}"].

(** Admitted by a scheduling pass. *)
Definition due_row : JobInfo :=
  web_record <| job_ServiceName := "web"%string |> <| job_AppID := "app-1"%string |> <| job_WorkspaceID := "ws-1"%string |>
    <| job_DelayState := JobDelayStatePending |> <| job_DelayExecuteAt := 5 |> <| job_DelayPayload := due_text |>
    <| job_SchedulingState := JobSchedulingAdmitted |> <| job_SchedulingGeneration := 1 |>
    <| job_SchedulingQueuedAt := Some 0 |> <| job_SchedulingExpiresAt := Some (100 * Second) |>.

Definition due_space : Workspace := workspace_zero <| ws_ID := "ws-1"%string |> <| ws_Namespace := "ns"%string |>.

Definition due_app : Applications :=
  applications_zero <| app_ID := "app-1"%string |> <| app_WorkspaceID := "ws-1"%string |> <| app_Namespace := "ns"%string |>.

Definition due_database (row : JobInfo) : Database :=
  (db_empty 10000000) <| db_jobs := {[1 := row]} |> <| db_workspaces := {["ws-1"%string := due_space]} |>
    <| db_apps := {["app-1"%string := due_app]} |>.

Definition due_item : delayItem Z :=
  Build_delayItem Z 5 0 "1-0" "key-1"
    (Some (Build_DelayJobPayload Z 5 "" "instant_job" "task-1" "key-1" 1 "run-1" "web" 0 None)).

(** An empty cluster. *)
Definition due_cluster : Cluster Z := {|
  on_get log namespace name := Err ErrNotFound;
  on_create _ job := Ok job;
  on_update _ job := Ok job;
  on_delete _ _ _ _ _ := None;
  on_pods _ _ _ := Ok [];
  on_pod _ _ _ := Err ErrNotFound;
  on_logs _ _ _ _ := Err ErrNotFound;
  on_delete_pod _ _ _ _ := None |}.

Definition due_manager : Manager Z := {|
  on_namespace log namespace := Ok (Build_NamespaceInfo "ws-1" false);
  prepare_task app space job := Ok job;
  tenant_client space := Ok due_cluster |}.

Definition due_dispatch (row : JobInfo) : result unit * KubeRun Z :=
  dispatch (fun _ => Some (job_zero <| kj_Name := "web"%string |> <| kj_Namespace := "ns"%string |>)) (fun _ => "failed"%string) (fun s => s)
    (Some due_manager) due_item (web_run (due_database row)).

Definition creates (ev : KubeEvent Z) : bool := match ev with KvCreate _ _ => true | _ => false end.

(** The admitted execution is created and its result recorded as pending. *)
Lemma delay_dispatch_protocol_witness :
  let run := due_dispatch due_row in
  fst run = Ok tt /\ settled_kept (due_database due_row) (store_of (snd run)) /\
  exists payload job created, di_payload due_item = Some payload /\ In (KvCreate job created) (kr_log (snd run)) /\
    result_kept (NewJobResultPayloadFromDelay (Some payload) (Some job)) (snd run).
Proof.
  intros run. assert (F : fst run = Ok tt) by (vm_compute; reflexivity).
  assert (C : existsb creates (kr_log (snd run)) = true) by (vm_compute; reflexivity).
  split; [exact F|]. unfold run, due_dispatch in F, C |- *.
  set (k := web_run (due_database due_row)) in *.
  set (manager := Some due_manager) in *. set (decode := fun _ : Json => _) in *. set (text := fun _ : error => _) in *.
  edestruct (delay_dispatch_protocol decode text (fun s => s) manager due_item) with (k := k)
    (r := fst (dispatch decode text (fun s => s) manager due_item k)) (k' := snd (dispatch decode text (fun s => s) manager due_item k))
    as (_ & new & L & A & _ & X); [reflexivity|apply surjective_pairing|].
  split; [exact (proj1 (A (List.Forall_nil _)))|].
  apply existsb_exists in C as ([|job made| | | | | | | | | | | | | |] & I & E); try discriminate E.
  change (kr_log k) with (@nil (KubeEvent Z)) in L. cbn [app] in L. rewrite L in I.
  eexists _, job, made. split; [reflexivity|]. split; [rewrite L; exact I|]. exact (X job made I F (List.Forall_nil _)).
Defined.
