(* ===== verification/EventLoop.v ===== *)
(** The event loop: [pkg/apiserver/event/workflow/dispatcher.go] and [workflow.go], with
    [ClaimTaskForDispatch] of [domain/service/workflow/workflow_dispatch.go].

    The leader's dispatcher claims waiting tasks and publishes an envelope for each claim;
    a worker that receives an envelope claims the execution, starts a controller with a
    heartbeat beside it and acknowledges the message.  The controller is restarted while
    it cannot tell whether its last write went through.  Every function is a program of
    the data store ([M]), the runs of the controller one of [Controller.C].

    Parameters: [marshal_dispatch] is [json.Marshal], [schedule_lock] what the lock of an
    application answers, [statefulSetCleanupInfo] and [EnsureNoPendingStatefulSetCleanup]
    belong to the clean-up of StatefulSets ([statefulset_cleanup.go]), the broker is a
    function, [quote] is the verb %q, and [Start] has the answers of what a start calls in other packages. *)

From S2P Require Import Prelude GoStrings Config Json Policy Model Store Lease Signals Controller.

(** ** Envelopes *)

Record TaskDispatch := {
  td_Version : Z;
  td_TaskID : string;
  td_WorkflowID : string;
  td_ProjectID : string;
  td_AppID : string;
  td_RunGeneration : Z;
  td_RunToken : string;
}.

Definition taskDispatchVersion : Z := 2.

Definition validateTaskDispatch (t : TaskDispatch) : result unit :=
  if negb (td_Version t =? taskDispatchVersion) || blank (td_TaskID t) || (td_RunGeneration t =? 0) || blank (td_RunToken t)
  then Err (Errorf "invalid workflow dispatch envelope") else Ok tt.

Definition dec_dispatch (j : Json) : option TaskDispatch :=
  decode! l <- dec_struct j;
  decode! version <- dec_int64 (json_field "version" l);
  decode! taskID <- dec_string (json_field "taskId" l);
  decode! workflowID <- dec_string (json_field "workflowId" l);
  decode! projectID <- dec_string (json_field "projectId" l);
  decode! appID <- dec_string (json_field "appId" l);
  decode! runGeneration <- dec_uint64 (json_field "runGeneration" l);
  decode! runToken <- dec_string (json_field "runToken" l);
  Some (Build_TaskDispatch version taskID workflowID projectID appID runGeneration runToken).

Definition UnmarshalTaskDispatch (raw : string) : result TaskDispatch :=
  match (decode! j <- json_parse raw; dec_dispatch j) with
  | None => Err (Errorf "cannot unmarshal into TaskDispatch")
  | Some t => check! _ <- validateTaskDispatch t; Ok t
  end.

Definition dispatch_of (task : WorkflowQueue) : TaskDispatch := {|
  td_Version := taskDispatchVersion; td_TaskID := wq_TaskID task; td_WorkflowID := wq_WorkflowID task;
  td_ProjectID := wq_ProjectID task; td_AppID := wq_AppID task; td_RunGeneration := wq_RunGeneration task;
  td_RunToken := wq_RunToken task |}.

Definition isContextCancellationError (err : error) : bool :=
  errors_is ContextCanceled err || errors_is DeadlineExceeded err.

Definition DefaultWorkerBackoffMin : Z := 200 * Millisecond.
Definition DefaultWorkerBackoffMax : Z := 5 * Minute.

Definition workerBackoffDelay (current min max : Z) : Z :=
  if current <? min then min else let next := i64 (current * 2) in if max <? next then max else next.

(** [strings.EqualFold] with a lower-case ASCII text: besides the letter in either case, the
    long s (U+017F) folds to s and the Kelvin sign (U+212A) to k. *)
Fixpoint equal_fold (s t : bytes) : bool :=
  match t with
  | [] => match s with [] => true | _ => false end
  | c :: t =>
      match s with
      | [] => false
      | a :: s =>
          if Ascii.eqb (lower1 a) c then equal_fold s t
          else match s with
               | b :: s =>
                   if (code a =? 197) && (code b =? 191) && Ascii.eqb c "s" then equal_fold s t
                   else match s with
                        | d :: s => (code a =? 226) && (code b =? 132) && (code d =? 170) && Ascii.eqb c "k" && equal_fold s t
                        | [] => false
                        end
               | [] => false
               end
      end
  end.
Definition EqualFold (s t : string) : bool := equal_fold (explode s) (explode t).

Definition CancelSourceUser : string := "user".

Definition cancelled_by_user (task : WorkflowQueue) : bool :=
  (wq_Status task =? StatusCancelled)%string && EqualFold (TrimSpace (wq_CancelSource task)) CancelSourceUser.

Definition sameWorkflowTaskOwnership (expected recovered : WorkflowQueue) : bool :=
  (wq_TaskID expected =? wq_TaskID recovered)%string && (wq_RunGeneration expected =? wq_RunGeneration recovered) &&
  (wq_RunToken expected =? wq_RunToken recovered)%string && (wq_WorkerID expected =? wq_WorkerID recovered)%string.

(** ** The leader *)

Section Dispatcher.
Variable marshal_dispatch : TaskDispatch -> string.
Variable schedule_lock : string -> result unit.
Variable statefulSetCleanupInfo : WorkflowQueue -> result bool.
Variable EnsureNoPendingStatefulSetCleanup : string -> M unit.
Variable LeaseDuration : Z.

Definition MarshalTaskDispatch (t : TaskDispatch) : result string :=
  check! _ <- validateTaskDispatch t; Ok (marshal_dispatch t).

Definition cleanup_fence_reason : string :=
  "delayed workflow dispatch rejected: unfinished StatefulSet cleanup; resume the migration with the version update API".

(** Under the application's lock: the claim, or the task that was failed. *)
Definition claim_delayed (task : WorkflowQueue) (token : string) : M (option WorkflowQueue * bool * option WorkflowQueue) :=
  let! current := try (TaskByID (wq_TaskID task)) in
  match current with
  | Err e => if errors_is ErrRecordNotExist e then ret (None, false, None) else throw e
  | Ok current =>
      if negb (wq_Status current =? StatusWaiting)%string || negb (wq_RunGeneration current =? wq_RunGeneration task)
      then ret (None, false, None) else
      guard! negb (str_empty (wq_AppID current) || negb (wq_AppID current =? wq_AppID task)%string)
        else Errorf "workflow task changed application";
      let! migrationTask := lift_result (statefulSetCleanupInfo current) in
      let! fence := (if migrationTask : bool then ret (Ok tt) else try (EnsureNoPendingStatefulSetCleanup (wq_AppID current))) in
      match fence with
      | Err e =>
          guard! errors_is ErrPendingStatefulSetCleanup e else e;
          let! updated := wrap_error "fail delayed workflow task after cleanup fence"
            (UpdateTaskFieldsIfConditions (wq_TaskID current)
              [("status", CEq (VStr StatusWaiting)); ("run_generation", CEq (VInt (wq_RunGeneration current)))]%string
              [("status", VStr StatusFailed); ("scheduling_reason", VStr cleanup_fence_reason)]%string) in
          ret (None, false, if updated : bool
                            then Some (current <| wq_Status := StatusFailed |> <| wq_SchedulingReason := cleanup_fence_reason |>)
                            else None)
      | Ok _ =>
          let! claim := ClaimWorkflowTaskForDispatch (Some current) LeaseDuration token in
          let '(queued, claimed) := claim in ret (queued, claimed, None)
      end
  end.

(** The claim, and the task whose terminal callback is triggered. *)
Definition ClaimTaskForDispatch (task : WorkflowQueue) (token : string) : M (option WorkflowQueue * bool * option WorkflowQueue) :=
  guard! negb (blank (wq_TaskID task)) else ErrPrimaryEmpty;
  if (wq_Type task =? WorkflowTaskTypeJob)%string || (wq_ExecuteAt task <=? 0)
  then let! claim := ClaimWorkflowTaskForDispatch (Some task) LeaseDuration token in
       let '(queued, claimed) := claim in ret (queued, claimed, None)
  else
    let! claim := try (let! _ := lift_result (schedule_lock (wq_AppID task)) in claim_delayed task token) in
    match claim with
    | Ok claim => ret claim
    | Err e => if errors_is ErrApplicationOperationLocked e then ret (None, false, None) else throw e
    end.

(** What was handed to the broker, and its answer. *)
Definition Published : Type := list (string * result string).

(** The processor of [Dispatcher]. *)
Definition publish (enqueue : string -> result string) (queuedTask : WorkflowQueue) : result unit * Published :=
  match MarshalTaskDispatch (dispatch_of queuedTask) with
  | Err e => (Err (Wrapf "marshal task dispatch" e), [])
  | Ok b =>
      let answer := enqueue b in
      (match answer with Err e => Err (Wrapf "enqueue task dispatch" e) | Ok _ => Ok tt end, [(b, answer)])
  end.

(** [done]: the context was cancelled when the processor returned. *)
Definition claimAndProcessTask (enqueue : string -> result string) (done : bool) (task : WorkflowQueue) (token : string)
    : M Published :=
  let! claim := try (ClaimTaskForDispatch task token) in
  match claim with
  | Ok (Some queuedTask, true, _) =>
      let '(processed, published) := publish enqueue queuedTask in
      match processed with
      | Ok _ => ret published
      | Err e =>
          if errors_is ContextCanceled e || done then ret published else
          let! _ := try (ReleaseWorkflowDispatchClaim (Some queuedTask) "dispatch enqueue failed") in
          ret published
      end
  | _ => ret []
  end.

(** The tasks of one pass; [stop] and [done] are whether the context is found cancelled before and after a task. *)
Fixpoint dispatch_tasks (enqueue : string -> result string) (stop done : WorkflowQueue -> bool)
    (token : WorkflowQueue -> string) (tasks : list WorkflowQueue) : M Published :=
  match tasks with
  | [] => ret []
  | task :: rest =>
      if stop task then ret [] else
      let! published := claimAndProcessTask enqueue (done task) task (token task) in
      let! more := dispatch_tasks enqueue stop done token rest in
      ret (published ++ more)%list
  end.

(** One tick; [admitting] is [AdmitQueuedJobs] with its quota, whose failure ends the pass only when the context is
    cancelled. *)
Definition dispatcher_pass {A} (admitting : M A) (cancelled : bool) (enqueue : string -> result string)
    (stop done : WorkflowQueue -> bool) (token : WorkflowQueue -> string) : M Published :=
  let! admitted := try admitting in
  if negb (is_ok admitted) && cancelled then ret [] else
  let! tasks := try WaitingTasks in
  match tasks with Ok tasks => dispatch_tasks enqueue stop done token tasks | Err _ => ret [] end.
End Dispatcher.

(** ** The heartbeat *)

Inductive Heartbeat := Beats | Ends | Cancels (cause : error).

(** [None] when nothing is wrong. *)
Definition workflowLeaseRenewalMissCause (expected : WorkflowQueue) : M (option error) :=
  let! authoritative := try (TaskByID (wq_TaskID expected)) in
  match authoritative with
  | Err e =>
      if errors_is ErrRecordNotExist e
      then ret (Some (ErrJoin ErrWorkflowOwnershipLost (Wrapf "reload workflow task after lease renewal miss" e)))
      else ret (Some (ErrJoin ErrWorkflowLeaseRenewalFailed (Wrapf "reload workflow task after lease renewal miss" e)))
  | Ok authoritative =>
      if negb (sameWorkflowTaskOwnership expected authoritative)
      then ret (Some (ErrJoin ErrWorkflowOwnershipLost (Errorf "workflow task ownership changed")))
      else if cancelled_by_user authoritative then ret (Some ContextCanceled)
      else if (wq_Status authoritative =? StatusWaitingApprove)%string ||
              (isWorkflowTerminal (wq_Status authoritative) && negb (wq_Status authoritative =? StatusCancelled)%string)
      then ret None
      else ret (Some (ErrJoin ErrWorkflowLeaseRenewalFailed
                        (Errorf "workflow task rejected lease renewal while ownership remained unchanged")))
  end.

(** One tick of the heartbeat's goroutine. *)
Definition heartbeat_tick (LeaseDuration : Z) (task : WorkflowQueue) : M Heartbeat :=
  let! renewed := try (RenewWorkflowTaskLease (wq_TaskID task) (wq_RunGeneration task) (wq_RunToken task) (wq_WorkerID task)
                         LeaseDuration) in
  match renewed with
  | Err e => ret (Cancels (ErrJoin ErrInfrastructureStop (ErrJoin ErrWorkflowLeaseRenewalFailed e)))
  | Ok true => ret Beats
  | Ok false =>
      let! cause := workflowLeaseRenewalMissCause task in
      match cause with
      | None => ret Ends
      | Some cause =>
          if errors_is ContextCanceled cause && negb (errors_is ErrWorkflowOwnershipLost cause) &&
             negb (errors_is ErrWorkflowLeaseRenewalFailed cause)
          then ret (Cancels cause)
          else ret (Cancels (ErrJoin ErrInfrastructureStop cause))
      end
  end.

(** [cancelTask(nil); <-heartbeatDone]: a heartbeat that is still going expires the lease. *)
Definition stop_heartbeat (beating : bool) (task : WorkflowQueue) : M unit :=
  if beating then
    let! _ := try (ExpireWorkflowTaskLease (wq_TaskID task) (wq_RunGeneration task) (wq_RunToken task) (wq_WorkerID task)) in
    ret tt
  else ret tt.

(** ** The worker *)

(** What a start meets: the policy of callback URLs, the wait for a slot, the construction of the controller, and
    whether the heartbeat is still going when it fails. *)
Record Start := {
  st_policy : option error;
  st_slot : option error;
  st_controller : option error;
  st_beating : bool;
}.

Section Worker.
Variable error_text : error -> string.
Variables (workerIdentity : string) (LeaseDuration : Z).

Definition markTaskRunStartFailure (task : WorkflowQueue) (runErr : error) : M unit :=
  let! updated := try (UpdateTaskFieldsIfOwned (Some (task <| wq_Status := StatusFailed |>)) (wq_Status task)
                         [("status"%string, VStr StatusFailed)]) in
  match updated with
  | Ok true =>
      let! _ := try (TerminalizePrecreatedVersionUpdateCleanupJobs (wq_TaskID task) StatusFailed (error_text runErr)) in
      ret tt
  | _ => ret tt
  end.

(** [Ok true]: the controller was started. *)
Definition runWorkflowTask (start : Start) (task : option WorkflowQueue) : M (result bool) :=
  match task with
  | None => ret (Err (Errorf "invalid workflow task"))
  | Some task =>
      if str_empty (wq_TaskID task) then ret (Err (Errorf "invalid workflow task")) else
      if (wq_RunGeneration task =? 0) || str_empty (wq_RunToken task) || str_empty (wq_WorkerID task)
      then ret (Err ErrWorkflowOwnershipRequired) else
      match st_policy start with
      | Some err =>
          let runErr := Wrapf "load url security policy" err in
          let! _ := (if isContextCancellationError runErr then ret tt else markTaskRunStartFailure task runErr) in
          let! _ := stop_heartbeat (st_beating start) task in
          ret (Err runErr)
      | None =>
          match st_slot start with
          | Some err => let! _ := stop_heartbeat (st_beating start) task in ret (Err (Wrapf "acquire workflow slot" err))
          | None =>
              match st_controller start with
              | Some err =>
                  let runErr := Wrapf "init workflow controller" err in
                  let! _ := markTaskRunStartFailure task runErr in
                  let! _ := stop_heartbeat (st_beating start) task in
                  ret (Err runErr)
              | None => ret (Ok true)
              end
          end
      end
  end.

(** The task whose controller was started. *)
Definition runClaimedWorkflowTask (start : Start) (task : option WorkflowQueue) : M (result WorkflowQueue) :=
  let! started := runWorkflowTask start task in
  match started, task with
  | Err e, _ => ret (Err e)
  | Ok true, Some task => ret (Ok task)
  | _, _ => ret (Err (Errorf "workflow task did not start"))
  end.

(** Whether to acknowledge, the task's identifier, and the task that was started. *)
Definition processDispatchMessage (start : Start) (payload : string) : M (bool * string * option WorkflowQueue) :=
  match UnmarshalTaskDispatch payload with
  | Err _ => ret (true, ""%string, None)
  | Ok td =>
      let! task := try (TaskByID (td_TaskID td)) in
      match task with
      | Err e => if isContextCancellationError e then ret (false, td_TaskID td, None)
                 else ret (errors_is ErrRecordNotExist e, td_TaskID td, None)
      | Ok task =>
          if cancelled_by_user task then ret (true, td_TaskID td, None) else
          if negb (wq_RunToken task =? td_RunToken td)%string || negb (wq_RunGeneration task =? td_RunGeneration td)
          then ret (true, td_TaskID td, None) else
          let! claim := try (ClaimWorkflowTaskForExecution (td_TaskID td) (td_RunGeneration td) (td_RunToken td)
                               workerIdentity LeaseDuration) in
          match claim with
          | Err _ => ret (false, td_TaskID td, None)
          | Ok (_, false) => ret (true, td_TaskID td, None)
          | Ok (claimedTask, true) =>
              let! run := runClaimedWorkflowTask start claimedTask in
              match run with
              | Err e => ret (negb (isContextCancellationError e), td_TaskID td, None)
              | Ok started => ret (true, td_TaskID td, Some started)
              end
          end
      end
  end.

(** A batch of [StartWorker]: the messages to acknowledge, and the tasks that were started. *)
Fixpoint process_messages (start : string -> Start) (messages : list (string * string))
    : M (list (string * string) * list WorkflowQueue) :=
  match messages with
  | [] => ret ([], [])
  | (id, payload) :: rest =>
      let! done := processDispatchMessage (start id) payload in
      let '(ack, taskID, started) := done in
      let! more := process_messages start rest in
      ret (if ack : bool then ((id, taskID) :: fst more)%list else fst more,
           match started with Some task => task :: snd more | None => snd more end)
  end.
End Worker.

(** ** The reaper *)

Section Reaper.
Variable quote : string -> string.   (* %q *)

(** One expired approval: the task, and the reason of the terminal callback that is triggered. *)
Definition expired_approval (task : WorkflowQueue) : M (WorkflowQueue * string) :=
  let reason := ("approval step " ++ quote (wq_PendingApprovalStep task) ++ " timed out")%string in
  let! _ := try (TerminalizePrecreatedVersionUpdateCleanupJobs (wq_TaskID task) StatusTimeout reason) in
  ret (task, reason).

Fixpoint expired_approvals (tasks : list WorkflowQueue) : M (list (WorkflowQueue * string)) :=
  match tasks with
  | [] => ret []
  | task :: rest =>
      let! callback := expired_approval task in
      let! callbacks := expired_approvals rest in
      ret (callback :: callbacks)
  end.

(** What was triggered. *)
Definition expireApprovalDeadlines (limit : Z) : M (list (WorkflowQueue * string)) :=
  let! expired := try (ExpireApprovalDeadlines limit) in
  expired_approvals (match expired with Ok (tasks, _) => tasks | Err _ => [] end).

(** One tick of [startLeaseReaper]. *)
Definition lease_reaper_tick (limit : Z) : M (list (WorkflowQueue * string)) :=
  let! _ := try (RecoverExpiredWorkflowTasks [limit]) in
  expireApprovalDeadlines limit.
End Reaper.

(** ** Recovery of persistence *)

Section Recovery.
Context `{WorkflowDeps}.

(** The reloads of [waitForWorkflowTaskPersistenceRecovery]; the context is cancelled after [reloads] waits. *)
Fixpoint waitForWorkflowTaskPersistenceRecovery (reloads : nat) (taskID : string) : C (result WorkflowQueue) :=
  do! task := db (TaskByID taskID) in
  match task with
  | Ok task => cret (Ok task)
  | Err e =>
      if errors_is ErrRecordNotExist e
      then cret (Err (ErrJoin ErrWorkflowTaskPersistenceUncertain
                        (Wrapf "reload workflow task for persistence recovery" e))) else
      do! cause := ctx_cause in
      let stopped err := cret (Err (ErrJoin ErrWorkflowTaskPersistenceUncertain
                                      (Wrapf "wait for workflow task persistence recovery" err))) in
      match cause, reloads with
      | Some err, _ => stopped err
      | None, O => do! _ := modify (cancel_ctx (Some ContextCanceled)) in stopped ContextCanceled
      | None, S reloads => waitForWorkflowTaskPersistenceRecovery reloads taskID
      end
  end.

(** [NewWorkflowController]: a new controller for [task], in the same goroutine. *)
Definition NewWorkflowController (task : WorkflowQueue) : C unit := modify (fun e =>
  Build_Exec (ex_world e) (ex_signals e) (ex_cause e) task (wq_Status task) false false false false "" false
    (wr_failureReason e) (wr_skipExitAck e) (wr_suppressTerminalCallback e) (ex_log e)).

(** What becomes of a run's error. *)
Definition run_outcome (runErr : option error) (e : Exec) : option error + error :=
  let runErr' := match workflowRunStopResult e with
                 | Some (Some persistenceErr) =>
                     if is_err persistenceErr runErr then runErr
                     else Some (match runErr with Some r => ErrJoin r persistenceErr | None => persistenceErr end)
                 | _ => runErr
                 end in
  match workflowRunStopResult e with
  | Some None => inl None
  | _ =>
      match runErr' with
      | Some r =>
          if errors_is ErrWorkflowTaskPersistenceUncertain r then inr r
          else if errors_is ErrInfrastructureStop r then inl None
          else inl (Some r)
      | None => inl None
      end
  end.

(** [runs] bounds the restarts, [reloads] the waits of each recovery. *)
Fixpoint runWorkflowControllerWithPersistenceRecovery (runs reloads : nat) (concurrency : Z) : C (option error) :=
  do! runErr := Run concurrency in
  do! e := get_exec in
  match run_outcome runErr e with
  | inl err => cret err
  | inr runErr =>
      let expectedOwner := wc_task e in
      do! recovered := waitForWorkflowTaskPersistenceRecovery reloads (wq_TaskID expectedOwner) in
      match recovered with
      | Err err => cret (Some (ErrJoin runErr err))
      | Ok recovered =>
          if negb (sameWorkflowTaskOwnership expectedOwner recovered)
          then cret (Some (ErrJoin runErr (Wrapf "task ownership changed" ErrWorkflowOwnershipLost)))
          else if negb (wq_Status recovered =? StatusQueued)%string && negb (wq_Status recovered =? StatusRunning)%string
          then cret None
          else match runs with
               | O => cret (Some runErr)   (* out of fuel *)
               | S runs =>
                   do! _ := NewWorkflowController recovered in
                   runWorkflowControllerWithPersistenceRecovery runs reloads concurrency
               end
      end
  end.
End Recovery.
