(* ===== verification/EventLoopSpec.v ===== *)
(** What the event loop promises: [pkg/apiserver/event/workflow/dispatcher.go] and
    [workflow.go].

    An acknowledged dispatch message is spent: whatever the other sessions do, once
    [processDispatchMessage] acknowledges a message no worker can claim an execution with
    it any more, and every operation of the loop keeps it so ([dispatch_ack_is_final]).
    A claim and its delivery, run alone, start the execution once, and a redelivery of
    the same message changes nothing ([dispatch_runs_once]).  The restarts after a write
    whose fate is unknown never overwrite what has ended ([restarts_keep_the_end]). *)

From S2P Require Import Prelude GoStrings Config Json Policy Model Store Hoare Lease LeaseProtocol.
From S2P Require Import Signals Controller ControllerSpec ControllerSafety Retry EventLoop.

(** ** Relations on the queue *)

(** A relation that only looks at the queue. *)
Class QueueRelation (R : relation Database) : Prop := {
  queue_preorder : PreOrder R;
  queue_other : forall d d', db_queue d' = db_queue d -> R d d'
}.
#[export] Existing Instance queue_preorder.

Section QueueRelation.
Context (R : relation Database) `{!QueueRelation R}.

Lemma queue_ro {A} (m : M A) : read_only m -> guarantees R m.
Proof. apply guarantees_read_only. Qed.
Lemma queue_then {A B} (m : M A) (k : A -> M B) : guarantees R m -> (forall a, guarantees R (k a)) -> guarantees R (bind m k).
Proof. apply guarantees_bind. Qed.
Lemma queue_transaction {A} (m : M A) : guarantees R m -> guarantees R (WithReadCommittedTransaction m).
Proof. apply guarantees_transaction. Qed.

Lemma queue_cas_other {E K} `{Entity E K} key conditions updates : keeps_queue (E := E) ->
  guarantees R (CompareAndSwapWithConditions (E := E) key conditions updates).
Proof. intros K0. apply guarantees_cas. intros. apply queue_other, K0. Qed.

Lemma queue_update taskID conditions updates :
  (forall now d row row', db_queue d !! taskID = Some row -> conds_hold conditions row = true ->
     apply_updates (updates ++ [("update_time"%string, VTime now)]) row = Some row' ->
     R d (with_table (<[taskID := row']> (table d)) d)) ->
  guarantees R (UpdateTaskFieldsIfConditions taskID conditions updates).
Proof.
  intros HU. unfold UpdateTaskFieldsIfConditions. destruct (negb _); [|apply queue_ro; auto with store].
  apply guarantees_cas. intros now d row row' L C U. eauto.
Qed.

Lemma queue_for_each {A} (f : A -> M unit) l : (forall a, guarantees R (f a)) -> guarantees R (for_each f l).
Proof.
  intros Hf. induction l as [|a l IH]; cbn [for_each]; [apply queue_ro; auto with store|]. apply queue_then; auto.
Qed.

Lemma queue_recover_all recover tasks n : (forall t, guarantees R (recover t)) -> guarantees R (recover_all recover tasks n).
Proof.
  intros Hr. revert n. induction tasks as [|t tasks IH]; intros n; cbn [recover_all]; [apply queue_ro; auto with store|].
  apply queue_then; [apply guarantees_try, Hr|]. intros [[]|]; try apply IH. apply queue_ro; auto with store.
Qed.

Lemma queue_expire_approvals now tasks expired : (forall t, guarantees R (expire_approval now t)) ->
  guarantees R (expire_approvals now tasks expired).
Proof.
  intros He. revert expired. induction tasks as [|t tasks IH]; intros expired; cbn [expire_approvals];
    [apply queue_ro; auto with store|].
  apply queue_then; [apply guarantees_try, He|]. intros [[]|]; try apply IH. apply queue_ro; auto with store.
Qed.

Lemma queue_precreated taskID status reason : guarantees R (TerminalizePrecreatedVersionUpdateCleanupJobs taskID status reason).
Proof.
  unfold TerminalizePrecreatedVersionUpdateCleanupJobs.
  destruct (str_empty _); [apply queue_ro; auto with store|]. destruct (negb _); [apply queue_ro; auto with store|].
  apply queue_then; [apply guarantees_try, queue_ro; auto with store|]. intros [jobs|x].
  - apply queue_then; [apply queue_ro; auto with store|]. intros now. apply queue_for_each. intros j.
    unfold terminalize_precreated. destruct (_ || _); [apply queue_ro; auto with store|].
    apply queue_then; [by apply queue_cas_other|]. intros ?. apply queue_ro; auto with store.
  - destruct (errors_is _ _); apply queue_ro; auto with store.
Qed.

Lemma queue_terminalize taskID reason key : guarantees R (TerminalizeCancelledWorkflowJobs taskID reason key).
Proof.
  unfold TerminalizeCancelledWorkflowJobs. apply queue_then; [apply guarantees_try, queue_ro; auto with store|].
  intros [jobs|e]; [|apply queue_ro; store_step]. apply queue_for_each. intros job. unfold terminalize_job.
  destruct (jobSchedulingTerminal _); [apply queue_ro; auto with store|].
  destruct (_ && _); [apply queue_ro; auto with store|].
  apply queue_then; [apply queue_ro; auto with store|]. intros now.
  apply queue_then; [by apply guarantees_wrap, queue_cas_other|]. intros u. apply queue_ro. store_step.
Qed.
End QueueRelation.

#[export] Instance task_protocol_queue id : QueueRelation (task_protocol id).
Proof. split; [apply _|]. intros d d'. apply task_protocol_other. Qed.

(** One step of a proof that a program keeps a relation on the queue; what is left are the
    updates of the queue's rows. *)
Ltac queue_step R :=
  repeat match goal with
  | |- forall _, _ => intros ?
  | |- guarantees _ (bind _ _) => apply (queue_then R)
  | |- guarantees _ (try _) => apply guarantees_try
  | |- guarantees _ (wrap_error _ _) => apply guarantees_wrap
  | |- guarantees _ (WithReadCommittedTransaction _) => apply (queue_transaction R)
  | |- guarantees _ (TerminalizeCancelledWorkflowJobs _ _ _) => apply (queue_terminalize R)
  | |- guarantees _ (TerminalizePrecreatedVersionUpdateCleanupJobs _ _ _) => apply (queue_precreated R)
  | |- guarantees _ (recover_all _ _ _) => apply (queue_recover_all R)
  | |- guarantees _ (if ?c then _ else _) => destruct c
  | |- guarantees _ (match ?c with _ => _ end) => destruct c
  | |- guarantees _ (UpdateTaskFieldsIfConditions _ _ _) =>
      apply (queue_update R); intros ? ? ? ? ? ? ?
  | |- guarantees _ _ => solve [auto with queue]
  | |- guarantees _ _ => apply (queue_ro R); solve [auto with store | store_step]
  end.
Create HintDb queue.

(** ** Spent envelopes *)

(** No execution can be claimed with the envelope. *)
Definition spent_row (td : TaskDispatch) (r : WorkflowQueue) : Prop :=
  wq_Status r <> StatusQueued \/ wq_RunGeneration r <> td_RunGeneration td \/ wq_RunToken r <> td_RunToken td.

Definition spent (td : TaskDispatch) (d : Database) : Prop :=
  forall r, db_queue d !! td_TaskID td = Some r -> spent_row td r.

Definition spent_kept (td : TaskDispatch) (d d' : Database) : Prop := spent td d -> spent td d'.

#[export] Instance spent_queue td : QueueRelation (spent_kept td).
Proof.
  split; [split; unfold spent_kept; eauto|]. intros d d' E S r. rewrite E. apply S.
Qed.

Lemma spent_stable td : stable (spent_kept td) (spent td).
Proof. intros d d' K S. by apply K. Qed.

Lemma spent_insert td d key row row' :
  db_queue d !! key = Some row -> (spent_row td row -> spent_row td row') ->
  spent_kept td d (with_table (<[key := row']> (table d)) d).
Proof.
  intros L K S r. cbn. destruct (decide (key = td_TaskID td)) as [->|N].
  - rewrite lookup_insert_eq. intros [= <-]. apply K, S, L.
  - rewrite lookup_insert_ne by done. apply S.
Qed.

Lemma spent_written td d row row' :
  db_queue d !! td_TaskID td = Some row -> spent_row td row' ->
  spent td (with_table (<[td_TaskID td := row']> (table d)) d).
Proof. intros L K r. cbn. rewrite lookup_insert_eq. by intros [= <-]. Qed.

(** The written row leaves the queue, or keeps the columns of the claim. *)
Ltac spent_solve :=
  match goal with
  | L : _ !! _ = Some _, Hc : conds_hold _ _ = true, Hu : apply_updates _ _ = Some _ |- _ =>
      apply (spent_insert _ _ _ _ _ L); queue_simpl_in Hc Hu; unfold spent_row; cbn; intros ?
  end; first [left; discriminate | by auto | left; match goal with S : wq_Status _ = _ |- _ => rewrite S end; discriminate].

Section Spent.
Context (td : TaskDispatch).
Abbreviation R := (spent_kept td) (only parsing).

Lemma spent_claim task d token : token <> td_RunToken td -> guarantees R (ClaimWorkflowTaskForDispatch task d token).
Proof.
  intros N. unfold ClaimWorkflowTaskForDispatch. queue_step (spent_kept td).
  match goal with L : _ !! _ = Some _, Hc : conds_hold _ _ = true, Hu : apply_updates _ _ = Some _ |- _ =>
    apply (spent_insert _ _ _ _ _ L); queue_simpl_in Hc Hu; unfold spent_row; cbn; auto end.
Qed.

Lemma spent_release task reason : guarantees R (ReleaseWorkflowDispatchClaim task reason).
Proof. unfold ReleaseWorkflowDispatchClaim. queue_step (spent_kept td). spent_solve. Qed.

Lemma spent_execution id g token worker d : guarantees R (ClaimWorkflowTaskForExecution id g token worker d).
Proof. unfold ClaimWorkflowTaskForExecution. queue_step (spent_kept td). spent_solve. Qed.

Lemma spent_renew id g token worker d : guarantees R (RenewWorkflowTaskLease id g token worker d).
Proof. unfold RenewWorkflowTaskLease. queue_step (spent_kept td). spent_solve. Qed.

Lemma spent_expire id g token worker : guarantees R (ExpireWorkflowTaskLease id g token worker).
Proof. unfold ExpireWorkflowTaskLease. queue_step (spent_kept td). spent_solve. Qed.

Lemma spent_expire_approval now task : guarantees R (expire_approval now task).
Proof. unfold expire_approval. queue_step (spent_kept td). spent_solve. Qed.

Lemma spent_deadlines limit : guarantees R (ExpireApprovalDeadlines limit).
Proof.
  unfold ExpireApprovalDeadlines. queue_step (spent_kept td).
  apply (queue_expire_approvals R). intros t. apply spent_expire_approval.
Qed.

Lemma spent_recover limits : guarantees R (RecoverExpiredWorkflowTasks limits).
Proof. unfold RecoverExpiredWorkflowTasks, recover_task. queue_step (spent_kept td). all: spent_solve. Qed.

Lemma spent_recover_cancelled : guarantees R RecoverExpiredCancelledWorkflowTasks.
Proof. unfold RecoverExpiredCancelledWorkflowTasks, recover_cancelled_task. queue_step (spent_kept td). all: spent_solve. Qed.

Lemma spent_fail task err error_text : guarantees R (markTaskRunStartFailure error_text task err).
Proof. unfold markTaskRunStartFailure, UpdateTaskFieldsIfOwned. queue_step (spent_kept td). spent_solve. Qed.
End Spent.
#[export] Hint Resolve spent_release spent_execution spent_renew spent_expire spent_deadlines spent_recover
  spent_recover_cancelled spent_fail : queue.

Section SpentLoop.
Context (td : TaskDispatch).
Abbreviation R := (spent_kept td) (only parsing).

Lemma spent_stop b task : guarantees R (stop_heartbeat b task).
Proof. unfold stop_heartbeat. queue_step (spent_kept td). Qed.

Lemma spent_tick d task : guarantees R (heartbeat_tick d task).
Proof. unfold heartbeat_tick, workflowLeaseRenewalMissCause. queue_step (spent_kept td). Qed.
Hint Resolve spent_stop : queue.

Lemma spent_run error_text start task : guarantees R (runClaimedWorkflowTask error_text start task).
Proof. unfold runClaimedWorkflowTask, runWorkflowTask. queue_step (spent_kept td). Qed.
Hint Resolve spent_run : queue.

Lemma spent_message error_text worker d start payload :
  guarantees R (processDispatchMessage error_text worker d start payload).
Proof. unfold processDispatchMessage. queue_step (spent_kept td). Qed.
Hint Resolve spent_message : queue.

Lemma spent_messages error_text worker d start messages : guarantees R (process_messages error_text worker d start messages).
Proof. induction messages as [|[id payload] rest IH]; cbn [process_messages]; queue_step (spent_kept td). Qed.

Lemma spent_reaper quote limit : guarantees R (lease_reaper_tick quote limit).
Proof.
  unfold lease_reaper_tick, expireApprovalDeadlines. queue_step (spent_kept td).
  all: generalize (match a0 with Ok (tasks, _) => tasks | Err _ => [] end) as tasks; intros tasks.
  all: induction tasks as [|t rest IH]; cbn [expired_approvals]; unfold expired_approval; queue_step (spent_kept td).
Qed.

Section Leader.
Context (marshal_dispatch : TaskDispatch -> string) (schedule_lock : string -> result unit)
  (statefulSetCleanupInfo : WorkflowQueue -> result bool) (EnsureNoPendingStatefulSetCleanup : string -> M unit)
  (LeaseDuration : Z) (enqueue : string -> result string).
Hypothesis fence_spent : forall app, guarantees R (EnsureNoPendingStatefulSetCleanup app).

Lemma spent_process done task token : token <> td_RunToken td ->
  guarantees R (claimAndProcessTask marshal_dispatch schedule_lock statefulSetCleanupInfo EnsureNoPendingStatefulSetCleanup
                  LeaseDuration enqueue done task token).
Proof.
  intros N. unfold claimAndProcessTask, ClaimTaskForDispatch, claim_delayed, publish. pose proof (spent_claim td) as C.
  queue_step (spent_kept td). all: first [by apply C | apply fence_spent | spent_solve].
Qed.

Lemma spent_tasks stop done token tasks : (forall t, token t <> td_RunToken td) ->
  guarantees R (dispatch_tasks marshal_dispatch schedule_lock statefulSetCleanupInfo EnsureNoPendingStatefulSetCleanup
                  LeaseDuration enqueue stop done token tasks).
Proof.
  intros N. induction tasks as [|t rest IH]; cbn [dispatch_tasks]; [apply queue_ro; auto with store|].
  destruct (stop t); [apply queue_ro; auto with store|].
  apply queue_then; [by apply spent_process|]. intros published.
  apply queue_then; [exact IH|]. intros more. apply queue_ro. auto with store.
Qed.
End Leader.
End SpentLoop.

(** ** An acknowledged message *)

(** [Get] of a row that is not there. *)
Lemma triple_Get_missing R `{!PreOrder R} {E K} `{Entity E K} P key Post :
  stable R P -> (forall e d, driver_error e -> P d -> Post (Err e) d) ->
  (forall d, P d -> table d !! key = None -> Post (Err ErrRecordNotExist) d) ->
  (forall d row, P d -> table d !! key = Some row -> Post (Ok row) d) ->
  triple R P (Get (E := E) key) Post.
Proof.
  intros S HE HN HQ. unfold Get.
  repeat (apply triple_if; intros ?; [|apply triple_throw; intros d Hd; by apply HE]).
  apply triple_statement; [done|done|intros d Hd; by apply HE|]. intros t d r d' Hp F.
  destruct (table d !! key) as [row|] eqn:L; injection F as <- <-; auto.
Qed.

(** The claim of an execution: once it was attempted, the envelope is spent. *)
Lemma triple_claim_execution td worker lease :
  triple (spent_kept td) (fun _ => True)
    (ClaimWorkflowTaskForExecution (td_TaskID td) (td_RunGeneration td) (td_RunToken td) worker lease)
    (on_ok (fun _ => spent td)).
Proof.
  unfold ClaimWorkflowTaskForExecution. pose proof (spent_stable td) as S.
  assert (Read : forall A (m : M A) P (Post : A -> Database -> Prop), read_only m -> stable (spent_kept td) P ->
    (forall a d, P d -> Post a d) -> triple (spent_kept td) P m (on_ok Post)).
  { intros A m P Post Hm HS HP. apply triple_read_only; [apply _|done..|]. intros [a|e] d; cbn; auto. }
  apply triple_bind_ok with (Mid := fun _ _ => True); [by apply Read; auto with store|]. intros _.
  destruct (blank worker); [by apply triple_throw|].
  destruct (0 <? lease); [|by apply triple_throw].
  apply triple_bind_ok with (Mid := fun _ _ => True); [by apply Read; auto with store|]. intros now. cbv zeta.
  apply triple_bind_ok with (Mid := fun _ => spent td).
  - unfold UpdateTaskFieldsIfConditions. destruct (negb _); [|by apply triple_throw].
    apply triple_cas; [apply _|done|done| |].
    + intros d _ F r L. specialize (F r L). autorewrite with queue_cols in F. unfold spent_row.
      repeat (apply andb_false_iff in F as [F|F]); bool_to_prop; auto.
    + intros u d row row' _ L C U. queue_simpl_in C U. eapply spent_written; [exact L|]. by left.
  - intros u. destruct (negb u); [by apply triple_ret|].
    apply triple_bind_ok with (Mid := fun _ => spent td); [by apply Read; auto with store|]. intros task.
    destruct (_ || _); by apply triple_ret.
Qed.

(** An operation of the event loop: of the leader, of a worker, of a heartbeat, of the reaper. *)
Inductive loop_operation (td : TaskDispatch) : forall A, M A -> Prop :=
  | op_pass marshal lock info ensure lease A (admitting : M A) cancelled enqueue stop done token :
      guarantees (spent_kept td) admitting -> (forall app, guarantees (spent_kept td) (ensure app)) ->
      (forall task, token task <> td_RunToken td) ->
      loop_operation td _ (dispatcher_pass marshal lock info ensure lease admitting cancelled enqueue stop done token)
  | op_messages error_text worker lease start messages :
      loop_operation td _ (process_messages error_text worker lease start messages)
  | op_heartbeat lease task : loop_operation td _ (heartbeat_tick lease task)
  | op_reaper quote limit : loop_operation td _ (lease_reaper_tick quote limit)
  | op_reaper_cancelled : loop_operation td _ RecoverExpiredCancelledWorkflowTasks.

Lemma loop_operation_spent td A (m : M A) : loop_operation td A m -> guarantees (spent_kept td) m.
Proof.
  intros []; auto using spent_messages, spent_tick, spent_reaper with queue. unfold dispatcher_pass.
  queue_step (spent_kept td). by apply spent_tasks.
Qed.

Section Message.
Context (error_text : error -> string) (worker : string) (lease : Z) (start : Start) (payload : string) (td : TaskDispatch).
Hypothesis payload_td : UnmarshalTaskDispatch payload = Ok td.

Definition final_ack (r : result (bool * string * option WorkflowQueue)) (d : Database) : Prop :=
  exists ack started, r = Ok (ack, td_TaskID td, started) /\ (ack = true \/ is_Some started -> spent td d).

Lemma triple_message :
  triple (spent_kept td) (fun _ => True) (processDispatchMessage error_text worker lease start payload) final_ack.
Proof.
  unfold processDispatchMessage. rewrite payload_td. pose proof (spent_stable td) as S.
  assert (No : forall d, final_ack (Ok (false, td_TaskID td, None)) d).
  { intros d. exists false, None. split; [done|]. by intros [|[]]. }
  assert (Yes : forall d b s, spent td d -> final_ack (Ok (b, td_TaskID td, s)) d) by (intros d b s Hs; by exists b, s).
  apply triple_bind with (Mid := fun r d => match r with
    | Ok task => spent_row td task -> spent td d
    | Err e => isContextCancellationError e = false -> errors_is ErrRecordNotExist e = true -> spent td d end).
  { apply triple_try. unfold TaskByID. apply triple_Get_missing; [apply _|done|..].
    - intros e d He _ _ E. by rewrite (driver_error_is ErrRecordNotExist e He) in E by (by intros []).
    - intros d _ L _ _ r. cbn in L. by rewrite L.
    - intros d row _ L Hr r. cbn in L. rewrite L. by intros [= <-]. }
  intros [task|e].
  - destruct (cancelled_by_user task) eqn:C.
    { apply triple_ret. intros d Hd. apply Yes, Hd. left. unfold cancelled_by_user in C. apply andb_true_iff in C as [C _]. apply String.eqb_eq in C. by rewrite C. }
    destruct (_ || _) eqn:Ne.
    { apply triple_ret. intros d Hd. apply Yes, Hd. right. apply orb_true_iff in Ne as [E|E]; bool_to_prop; auto. }
    clear C Ne. eapply triple_weaken; [intros d _; exact I|intros r d Hq; exact Hq|].
    apply triple_bind with (Mid := fun r d => match r with Ok _ => spent td d | Err _ => True end).
    { apply triple_try. eapply triple_weaken; [..|apply triple_claim_execution]; [done|]. by intros [a|e] d. }
    intros [[claimed []]|e]; [|by apply triple_ret; intros d Hd; apply Yes|by apply triple_ret].
    apply triple_bind with (Mid := fun _ => spent td).
    { intros w r w' He Hp E. destruct (guarantees_run _ _ _ _ _ (spent_run td error_text start claimed) E He) as [G Ad].
      split; [|exact Ad]. destruct r as [r|e]; [by apply G|].
      exfalso. revert E. unfold runClaimedWorkflowTask, runWorkflowTask, stop_heartbeat, markTaskRunStartFailure, bind, try, ret.
      clear. intros E. repeat case_match; simplify_eq. }
    intros [task'|e]; apply triple_ret; intros d Hd; by apply Yes.
  - destruct (isContextCancellationError e) eqn:C; [by apply triple_ret|].
    apply triple_ret. intros d Hd. destruct (errors_is ErrRecordNotExist e) eqn:N; [apply Yes; auto|apply No].
Qed.
End Message.

(** C3: an acknowledged dispatch message is spent.  Let a worker process a message that
    carries the envelope [td], whatever the other sessions commit meanwhile, provided they
    do not make an execution claimable again under the envelope's task, generation and
    token.  The worker always answers; if it acknowledges the message or starts the task,
    no execution can be claimed with [td] any more.  That proviso is what the event loop
    keeps: a pass of the leader that draws another token, the workers' processing of any
    messages, the heartbeats and the reaper all leave a spent envelope spent. *)
Theorem dispatch_ack_is_final :
  forall td,
    (forall error_text worker lease start payload w r w',
       UnmarshalTaskDispatch payload = Ok td -> env_respects (spent_kept td) (w_env w) ->
       processDispatchMessage error_text worker lease start payload w = (r, w') ->
       exists ack started, r = Ok (ack, td_TaskID td, started) /\
         (ack = true \/ is_Some started -> spent td (w_db w'))) /\
    (forall A (m : M A) w r w',
       loop_operation td A m -> env_respects (spent_kept td) (w_env w) -> m w = (r, w') ->
       spent td (w_db w) -> spent td (w_db w')).
Proof.
  intros td. split.
  - intros error_text worker lease start payload w r w' U He E.
    by destruct (triple_message error_text worker lease start payload td U w r w' He I E).
  - intros A m w r w' Hop He E. by apply (guarantees_run _ _ _ _ _ (loop_operation_spent td A m Hop) E He).
Qed.

(** ** Restarts *)

Section Restarts.
Context (id : string) `{!WorkflowDeps} `{!RespectfulDeps id} `{!JobRunnerLaws (respectful id)}.
Hypothesis id_trimmed : TrimSpace id = id.
Hypothesis prepared : forall t, guarantees (task_protocol id) (prepareWorkspace t).

Lemma kept_cancel cause : keeps (outside (respectful id)) (modify (cancel_ctx cause)).
Proof.
  intros e. unfold modify, cancel_ctx. exists (ex_world e), (ex_signals e).
  destruct (ex_cause e) as [c|] eqn:C; [exists (Some c)|exists (Some (default ContextCanceled cause))];
    (split; [reflexivity|]); (split; [by intros x; rewrite ?C|]); destruct e; cbn in *; by subst.
Qed.

Lemma kept_wait reloads taskID : keeps (outside (respectful id)) (waitForWorkflowTaskPersistenceRecovery reloads taskID).
Proof.
  induction reloads as [|reloads IH]; cbn [waitForWorkflowTaskPersistenceRecovery];
    (apply keeps_cbind; [apply _|apply kept_db, queue_ro; auto with store|]); intros [task|e];
    try (apply keeps_ret, _); (destruct (errors_is _ _); [apply keeps_ret, _|]);
    (apply keeps_cbind; [apply _|apply kept_poll|]); intros [err|]; try (apply keeps_ret, _); [|exact IH].
  apply keeps_cbind; [apply _|apply kept_cancel|]. intros ?. apply keeps_ret, _.
Qed.

Lemma lasts_outside w0 e e' : lasts id w0 e -> outside (respectful id) e e' -> lasts id w0 e'.
Proof.
  intros (P & E & T) (w & s & c & W & _ & ->). destruct (respectful_run _ _ _ W E) as [E' P']. split; [by etransitivity|]. by destruct e.
Qed.

Lemma lasts_recovery runs reloads n e : startable id e ->
  lasts id (ex_world e) (snd (runWorkflowControllerWithPersistenceRecovery runs reloads n e)).
Proof.
  revert e. induction runs as [|runs IH]; intros e S;
    cbn [runWorkflowControllerWithPersistenceRecovery]; unfold cbind at 1;
    pose proof (lasts_Run id id_trimmed prepared n e S) as L; destruct (Run n e) as [runErr e1]; cbn [snd] in L;
    unfold cbind, get_exec; destruct (run_outcome runErr e1) as [err|r]; try exact L;
    pose proof (kept_wait reloads (wq_TaskID (wc_task e1)) e1) as K;
    destruct (waitForWorkflowTaskPersistenceRecovery _ _ e1) as [recovered e2]; cbn [snd] in K;
    pose proof (lasts_outside _ _ _ L K) as L2; (destruct recovered as [recovered|err]; [|exact L2]);
    (destruct (negb (sameWorkflowTaskOwnership _ _)) eqn:Own; [exact L2|]);
    (destruct (_ && _) eqn:Act; [exact L2|]); [exact L2|].
  pose proof L2 as (P & E & T). set (e3 := snd (NewWorkflowController recovered e2)).
  assert (D : startable id e3).
  { destruct S as (Ky & E0 & _). split; [by apply (respectful_run _ _ _ P E0)|]. split; [exact E|].
    unfold sameWorkflowTaskOwnership in Own. apply negb_false_iff in Own. rewrite !andb_true_iff in Own.
    destruct Own as [[[I _] _] _]. apply String.eqb_eq in I.
    destruct L as (_ & _ & T1). split; [cbn; congruence|]. cbn.
    apply andb_false_iff in Act as [A|A]; bool_to_prop; by rewrite A. }
  apply (lasts_trans _ _ _ _ P). exact (IH e3 D).
Qed.
End Restarts.

(** C19: restarts keep what has ended.  A worker runs a task's controller and, as long as a
    run cannot tell whether its last write went through, reloads the task and starts over.
    Let the other sessions, and the code the runs call, keep the task's row as the protocol
    asks: its generation does not go back, and within a generation a terminal status
    stays.  Then so does the whole sequence of runs, however many restarts and reloads there
    are, whatever fails and whenever the context is cancelled: each single write respects the
    row as it is by then, and what each commit of another session leaves, in the middle of a
    run or between two runs, is respected to the end.  So a cancellation committed elsewhere
    is never overwritten within its generation, and a deleted task is never brought back. *)
Theorem restarts_keep_the_end `{!WorkflowDeps} id runs reloads n e :
  RespectfulDeps id -> JobRunnerLaws (respectful id) -> (forall t, guarantees (task_protocol id) (prepareWorkspace t)) ->
  TrimSpace id = id -> startable id e ->
  let d := w_db (ex_world e) in
  let e' := snd (runWorkflowControllerWithPersistenceRecovery runs reloads n e) in
  let d' := w_db (ex_world e') in
  commits (task_protocol id) (ex_world e) (ex_world e') /\ lasting (task_protocol id) (ex_world e) (ex_world e') /\
  keyed d' /\ wq_TaskID (wc_task e') = id /\
  match db_queue d !! id, db_queue d' !! id with
  | Some r, Some r' =>
      wq_RunGeneration r <= wq_RunGeneration r' /\
      (wq_RunGeneration r' = wq_RunGeneration r -> jobSchedulingTerminal (wq_Status r) = true ->
       wq_Status r' = wq_Status r)
  | None, r' => r' = None
  | _, None => True
  end.
Proof.
  intros RD JL Pr Tr S d e' d'.
  pose proof (lasts_recovery id Tr Pr runs reloads n e S) as (C & _ & T). subst d d' e'. revert C T.
  generalize (snd (runWorkflowControllerWithPersistenceRecovery runs reloads n e)). intros e' C T.
  destruct S as (K & E & _). destruct (respectful_run _ _ _ C E) as [_ [K' P]].
  split; [exact C|]. split; [apply commits_lasting; [apply _|exact C|exact E]|]. split; [by apply K'|]. split; [exact T|].
  by destruct (db_queue (w_db (ex_world e)) !! id) as [r|], (db_queue (w_db (ex_world e')) !! id) as [r'|].
Qed.

(** ** One dispatch, run alone *)

Definition selected_row (task : WorkflowQueue) (token : string) (expires : Z) : WorkflowQueue :=
  task <| wq_Status := StatusQueued |> <| wq_RunGeneration := u64 (wq_RunGeneration task + 1) |>
       <| wq_RunToken := token |> <| wq_WorkerID := ""%string |> <| wq_LeaseExpiresAt := Some expires |>
       <| wq_DispatchAttempts := u64 (wq_DispatchAttempts task + 1) |>
       <| wq_SchedulingReason := "waiting task selected"%string |>.

Definition running_row (queued : WorkflowQueue) (worker : string) (expires t : Z) : WorkflowQueue :=
  queued <| wq_Status := StatusRunning |> <| wq_WorkerID := worker |> <| wq_LeaseExpiresAt := Some expires |>
         <| wq_SchedulingReason := "worker claimed dispatch"%string |> <| wq_UpdateTime := t |>.

Definition released_row (queued : WorkflowQueue) (reason : string) (t : Z) : WorkflowQueue :=
  queued <| wq_Status := StatusWaiting |> <| wq_RunToken := ""%string |> <| wq_WorkerID := ""%string |>
         <| wq_LeaseExpiresAt := None |> <| wq_SchedulingReason := reason |> <| wq_UpdateTime := t |>.

Definition with_row (id : string) (row : WorkflowQueue) (d : Database) : Database :=
  d <| db_queue := <[id := row]> (db_queue d) |>.

Section Alone.
Context (d : Database) (t : Z).

Lemma seq_identity id g token w : blank id = false -> g <> 0 -> blank token = false ->
  validateWorkflowExecutionIdentity id g token w = (Ok tt, w).
Proof. intros I G T. unfold validateWorkflowExecutionIdentity. rewrite I, T. by destruct (Z.eqb_spec g 0). Qed.

Lemma seq_update_row id cs us row row' :
  id <> ""%string -> cs <> [] -> Store.known (E := WorkflowQueue) (map fst cs) = true -> db_queue d !! id = Some row ->
  conds_hold cs row = true -> apply_updates (us ++ [("update_time"%string, VTime t)]) row = Some row' ->
  UpdateTaskFieldsIfConditions id cs us (seqw d t) = (Ok true, seqw (with_row id row' d) t).
Proof.
  intros I N K L C U. apply str_empty_false in I. unfold UpdateTaskFieldsIfConditions. rewrite I. cbn [negb].
  exact (seq_cas_true (E := WorkflowQueue) id cs us row row' d t I eq_refl N K L C U).
Qed.

Lemma seq_update_refused id cs us :
  id <> ""%string -> cs <> [] -> Store.known (E := WorkflowQueue) (map fst cs) = true ->
  (forall row, db_queue d !! id = Some row -> conds_hold cs row = false) ->
  UpdateTaskFieldsIfConditions id cs us (seqw d t) = (Ok false, seqw d t).
Proof.
  intros I N K C. apply str_empty_false in I. unfold UpdateTaskFieldsIfConditions. rewrite I. cbn [negb].
  by apply (seq_cas_false (E := WorkflowQueue)).
Qed.

Lemma seq_TaskByID id row : id <> ""%string -> db_queue d !! id = Some row -> TaskByID id (seqw d t) = (Ok row, seqw d t).
Proof. intros I L. by apply (seq_Get (E := WorkflowQueue)); [apply str_empty_false| |]. Qed.

Hypothesis clock : 0 < db_clock_micro d.

Lemma seq_claim task lease token : db_queue d !! wq_TaskID task = Some task -> wq_Status task = StatusWaiting ->
  blank (wq_TaskID task) = false -> 0 < lease ->
  let queued := selected_row task token (db_clock_micro d * Microsecond + lease) in
  ClaimWorkflowTaskForDispatch (Some task) lease token (seqw d t) =
    (Ok (Some queued, true), seqw (with_row (wq_TaskID task) (queued <| wq_UpdateTime := t |>) d) t).
Proof.
  intros L W I P. cbv zeta. unfold ClaimWorkflowTaskForDispatch. rewrite I. cbn [negb].
  rewrite (proj2 (Z.ltb_lt _ _) P). erewrite bind_ok by (by apply seq_task_clock). cbv zeta.
  erewrite bind_ok; [|eapply seq_update_row; [by apply blank_nonempty|done|done|exact L| |reflexivity]; autorewrite with queue_cols;
    by rewrite W, !String.eqb_refl, !Z.eqb_refl].
  reflexivity.
Qed.

Lemma seq_execution row worker lease :
  db_queue d !! wq_TaskID row = Some row -> wq_Status row = StatusQueued -> blank (wq_TaskID row) = false ->
  wq_RunGeneration row <> 0 -> blank (wq_RunToken row) = false -> blank worker = false -> 0 < lease ->
  let running := running_row row worker (db_clock_micro d * Microsecond + lease) t in
  ClaimWorkflowTaskForExecution (wq_TaskID row) (wq_RunGeneration row) (wq_RunToken row) worker lease (seqw d t) =
    (Ok (Some running, true), seqw (with_row (wq_TaskID row) running d) t).
Proof.
  intros L Q I G T W P. cbv zeta. unfold ClaimWorkflowTaskForExecution.
  erewrite bind_ok by (by apply seq_identity). rewrite W, (proj2 (Z.ltb_lt _ _) P).
  erewrite bind_ok by (by apply seq_task_clock). cbv zeta.
  erewrite bind_ok.
  2: { eapply seq_update_row; [by apply blank_nonempty|done|done|exact L| |reflexivity].
       autorewrite with queue_cols. by rewrite Q, !String.eqb_refl, !Z.eqb_refl. }
  cbn [negb]. unfold TaskByID.
  erewrite bind_ok by (apply (seq_Get (E := WorkflowQueue));
    [by apply str_empty_false, blank_nonempty|done|cbn; by rewrite lookup_insert_eq]).
  cbn. by rewrite !String.eqb_refl, Z.eqb_refl.
Qed.

Lemma seq_refused id g token worker lease row :
  db_queue d !! id = Some row -> wq_Status row <> StatusQueued -> blank id = false -> g <> 0 -> blank token = false ->
  blank worker = false -> 0 < lease ->
  ClaimWorkflowTaskForExecution id g token worker lease (seqw d t) = (Ok (None, false), seqw d t).
Proof.
  intros L Q I G T W P. unfold ClaimWorkflowTaskForExecution.
  erewrite bind_ok by (by apply seq_identity). rewrite W, (proj2 (Z.ltb_lt _ _) P).
  erewrite bind_ok by (by apply seq_task_clock). cbv zeta. rewrite (bind_ok _ _ _ false (seqw d t)); [reflexivity|].
  apply seq_update_refused; [by apply blank_nonempty|done|done|]. intros row'. rewrite L. intros [= <-].
  autorewrite with queue_cols. by apply String.eqb_neq in Q as ->.
Qed.

Lemma seq_release task row reason :
  db_queue d !! wq_TaskID task = Some row -> wq_Status row = StatusQueued -> wq_RunGeneration row = wq_RunGeneration task ->
  wq_RunToken row = wq_RunToken task -> blank (wq_TaskID task) = false ->
  wq_RunGeneration task <> 0 -> blank (wq_RunToken task) = false ->
  ReleaseWorkflowDispatchClaim (Some task) reason (seqw d t) =
    (Ok true, seqw (with_row (wq_TaskID task) (released_row row reason t) d) t).
Proof.
  intros L Q G Tk I Gz T. unfold ReleaseWorkflowDispatchClaim.
  rewrite (proj2 (str_empty_false _)) by (by apply blank_nonempty). cbn [negb].
  erewrite bind_ok by (by apply seq_identity).
  eapply seq_update_row; [by apply blank_nonempty|done|done|exact L| |reflexivity].
  autorewrite with queue_cols. by rewrite Q, G, Tk, !String.eqb_refl, !Z.eqb_refl.
Qed.
End Alone.

(** A start that meets no obstacle. *)
Definition unhindered (start : Start) : Prop := st_policy start = None /\ st_slot start = None /\ st_controller start = None.

(** The acknowledgement of a message whose execution is no longer queued. *)
Lemma redelivered error_text worker lease start payload td row d t :
  UnmarshalTaskDispatch payload = Ok td -> db_queue d !! td_TaskID td = Some row -> 0 < db_clock_micro d ->
  wq_RunToken row = td_RunToken td -> wq_RunGeneration row = td_RunGeneration td -> wq_Status row <> StatusQueued ->
  blank (td_TaskID td) = false -> td_RunGeneration td <> 0 -> blank (td_RunToken td) = false ->
  blank worker = false -> 0 < lease ->
  processDispatchMessage error_text worker lease start payload (seqw d t) = (Ok (true, td_TaskID td, None), seqw d t).
Proof.
  intros U L C Tk G S I Gz T W P. unfold processDispatchMessage. rewrite U.
  erewrite bind_ok by (eapply try_run, seq_TaskByID; [by apply blank_nonempty|exact L]). cbv beta iota.
  destruct (cancelled_by_user row); [done|]. rewrite Tk, G, String.eqb_refl, Z.eqb_refl. cbn [negb orb].
  by erewrite bind_ok by (eapply try_run, seq_refused; eauto).
Qed.

Lemma unhindered_run error_text start task w : unhindered start -> wq_TaskID task <> ""%string ->
  wq_RunGeneration task <> 0 -> wq_RunToken task <> ""%string -> wq_WorkerID task <> ""%string ->
  runClaimedWorkflowTask error_text start (Some task) w = (Ok (Ok task), w).
Proof.
  intros (S1 & S2 & S3) I G T W. unfold runClaimedWorkflowTask, runWorkflowTask. apply str_empty_false in I, T, W.
  rewrite I, T, W, (proj2 (Z.eqb_neq _ _) G). cbn [orb]. by rewrite S1, S2, S3.
Qed.

(** The first delivery. *)
Lemma delivered error_text worker lease start payload row d t :
  UnmarshalTaskDispatch payload = Ok (dispatch_of row) -> db_queue d !! wq_TaskID row = Some row -> 0 < db_clock_micro d ->
  wq_Status row = StatusQueued -> blank (wq_TaskID row) = false -> wq_RunGeneration row <> 0 ->
  blank (wq_RunToken row) = false -> blank worker = false -> 0 < lease -> unhindered start ->
  let running := running_row row worker (db_clock_micro d * Microsecond + lease) t in
  processDispatchMessage error_text worker lease start payload (seqw d t) =
    (Ok (true, wq_TaskID row, Some running), seqw (with_row (wq_TaskID row) running d) t).
Proof.
  intros U L C Q I G T W P S running. unfold processDispatchMessage. rewrite U.
  cbn [dispatch_of td_TaskID td_RunToken td_RunGeneration].
  erewrite bind_ok by (eapply try_run, seq_TaskByID; [by apply blank_nonempty|exact L]). cbv beta iota.
  replace (cancelled_by_user row) with false by (unfold cancelled_by_user; by rewrite Q).
  rewrite String.eqb_refl, Z.eqb_refl. cbn [negb orb].
  erewrite bind_ok by (eapply try_run; by apply seq_execution). cbv beta iota. fold running.
  assert (Ru : runClaimedWorkflowTask error_text start (Some running) (seqw (with_row (wq_TaskID row) running d) t) =
      (Ok (Ok running), seqw (with_row (wq_TaskID row) running d) t)).
  { apply unhindered_run; [done|by apply blank_nonempty|exact G|by apply blank_nonempty|by apply blank_nonempty]. }
  by erewrite bind_ok by exact Ru.
Qed.

(** An immediate task is claimed and handed to the broker. *)
Lemma passed marshal lock info ensure lease enqueue task token d t :
  let queued := selected_row task token (db_clock_micro d * Microsecond + lease) in
  let payload := marshal (dispatch_of queued) in
  db_queue d !! wq_TaskID task = Some task -> wq_Status task = StatusWaiting ->
  (wq_Type task =? WorkflowTaskTypeJob)%string || (wq_ExecuteAt task <=? 0) = true ->
  blank (wq_TaskID task) = false -> blank token = false -> wq_RunGeneration queued <> 0 -> 0 < lease -> 0 < db_clock_micro d ->
  claimAndProcessTask marshal lock info ensure lease enqueue false task token (seqw d t) =
    (match enqueue payload with
     | Ok _ => ret [(payload, enqueue payload)]
     | Err e => if errors_is ContextCanceled e then ret [(payload, enqueue payload)] else
         let! _ := try (ReleaseWorkflowDispatchClaim (Some queued) "dispatch enqueue failed") in ret [(payload, enqueue payload)]
     end) (seqw (with_row (wq_TaskID task) (queued <| wq_UpdateTime := t |>) d) t).
Proof.
  intros queued payload L W Im I T Gz P C.
  pose proof (seq_claim d t C task lease token L W I P) as Cl. cbv zeta in Cl. fold queued in Cl.
  assert (Mt : MarshalTaskDispatch marshal (dispatch_of queued) = Ok payload).
  { unfold MarshalTaskDispatch, validateTaskDispatch. cbn [dispatch_of td_Version td_TaskID td_RunGeneration td_RunToken].
    rewrite Z.eqb_refl, (proj2 (Z.eqb_neq _ _) Gz). replace (blank (wq_TaskID queued)) with false by done.
    by replace (blank (wq_RunToken queued)) with false by done. }
  unfold claimAndProcessTask, ClaimTaskForDispatch. rewrite I, Im. cbn [negb].
  set (d1 := with_row (wq_TaskID task) (queued <| wq_UpdateTime := t |>) d) in *.
  rewrite (bind_ok _ _ _ (Ok (Some queued, true, None)) (seqw d1 t)) by (eapply try_run; by erewrite bind_ok by exact Cl).
  unfold publish. rewrite Mt. destruct (enqueue payload) as [m|e]; cbv beta iota zeta; [done|]. cbn [errors_is].
  rewrite bool_decide_false by done. by rewrite orb_false_r.
Qed.

(** C18: a dispatch runs once.  Run alone, with [json.Marshal] and its inverse agreeing on
    the envelope: a leader that finds an immediate task waiting queues it under the next
    generation and the fresh token and hands the broker one message.  If the broker takes
    it, the worker that receives it starts the controller with the row running under that
    generation, token and worker, and acknowledges; every further delivery of the message, to
    any worker, is acknowledged and changes nothing.  If the broker fails, the claim is
    released: the task waits again, without a token. *)
Theorem dispatch_runs_once :
  forall marshal lock info ensure lease enqueue task token d t,
    let now := db_clock_micro d * Microsecond in
    let queued := selected_row task token (now + lease) in
    let payload := marshal (dispatch_of queued) in
    let pass := claimAndProcessTask marshal lock info ensure lease enqueue false task token (seqw d t) in
    db_queue d !! wq_TaskID task = Some task -> wq_Status task = StatusWaiting ->
    (wq_Type task =? WorkflowTaskTypeJob)%string || (wq_ExecuteAt task <=? 0) = true ->
    blank (wq_TaskID task) = false -> blank token = false -> 0 <= wq_RunGeneration task < two64 - 1 ->
    0 < lease -> 0 < db_clock_micro d ->
    match enqueue payload with
    | Ok message =>
        exists d1, pass = (Ok [(payload, Ok message)], seqw d1 t) /\
        forall error_text worker start,
          UnmarshalTaskDispatch payload = Ok (dispatch_of queued) -> blank worker = false -> unhindered start ->
          let running := running_row (queued <| wq_UpdateTime := t |>) worker (now + lease) t in
          exists d2, processDispatchMessage error_text worker lease start payload (seqw d1 t) =
              (Ok (true, wq_TaskID task, Some running), seqw d2 t) /\
            db_queue d2 = <[wq_TaskID task := running]> (db_queue d) /\
            forall error_text' worker' lease' start', blank worker' = false -> 0 < lease' ->
              processDispatchMessage error_text' worker' lease' start' payload (seqw d2 t) =
                (Ok (true, wq_TaskID task, None), seqw d2 t)
    | Err e =>
        errors_is ContextCanceled e = false ->
        exists d1, pass = (Ok [(payload, Err e)], seqw d1 t) /\
          db_queue d1 = <[wq_TaskID task := released_row queued "dispatch enqueue failed" t]> (db_queue d)
    end.
Proof.
  intros marshal lock info ensure lease enqueue task token d t now queued payload pass L W Im I T [G0 G1] P C.
  assert (Gz : wq_RunGeneration queued <> 0) by (cbn; rewrite u64_succ by lia; lia).
  pose proof (passed marshal lock info ensure lease enqueue task token d t L W Im I T Gz P C) as Pass.
  cbv zeta in Pass. fold now queued in Pass. fold payload in Pass. fold pass in Pass. rewrite Pass. clear Pass.
  set (d1 := with_row (wq_TaskID task) (queued <| wq_UpdateTime := t |>) d) in *.
  assert (Lk : db_queue d1 !! wq_TaskID task = Some (queued <| wq_UpdateTime := t |>)) by (cbn; by rewrite lookup_insert_eq).
  destruct (enqueue payload) as [message|e] eqn:E.
  - exists d1. split; [done|]. intros error_text worker start U Wk S running.
    exists (with_row (wq_TaskID task) running d1). split; [|split; [cbn; by rewrite insert_insert_eq|]].
    + pose proof (delivered error_text worker lease start payload (queued <| wq_UpdateTime := t |>) d1 t) as X.
      change (dispatch_of (queued <| wq_UpdateTime := t |>)) with (dispatch_of queued) in X.
      change (wq_TaskID (queued <| wq_UpdateTime := t |>)) with (wq_TaskID task) in X.
      change (wq_RunToken (queued <| wq_UpdateTime := t |>)) with token in X.
      exact (X U Lk C ltac:(reflexivity) I ltac:(exact Gz) T Wk P S).
    + intros error_text' worker' lease' start' W' P'.
      by apply (redelivered error_text' worker' lease' start' payload (dispatch_of queued) running _ t U); cbn;
        try rewrite lookup_insert_eq.
  - intros Nc. rewrite Nc. eexists.
    pose proof (seq_release d1 t queued (queued <| wq_UpdateTime := t |>) "dispatch enqueue failed"%string) as X.
    change (wq_TaskID queued) with (wq_TaskID task) in X. change (wq_RunToken queued) with token in X.
    specialize (X Lk ltac:(reflexivity) ltac:(reflexivity) ltac:(reflexivity) I Gz T).
    split; [by erewrite bind_ok by (eapply try_run, X)|]. cbn. by rewrite insert_insert_eq.
Qed.

(** ** Witnesses *)

Definition sample_marshal (td : TaskDispatch) : string :=
  object [member "version" (FormatUint (td_Version td) 10); member "taskId" (jq (td_TaskID td));
          member "runGeneration" (FormatUint (td_RunGeneration td) 10); member "runToken" (jq (td_RunToken td))].

Definition sample_waiting : WorkflowQueue :=
  ControllerSpec.sample_row <| wq_Status := StatusWaiting |> <| wq_WorkerID := ""%string |> <| wq_RunToken := ""%string |>.

Definition sample_start : Start := Build_Start None None None true.

Definition sample_queued : WorkflowQueue := selected_row sample_waiting "fresh" (1500000000 * Microsecond + 30 * Second).

Lemma dispatch_runs_once_witness :
  let payload := sample_marshal (dispatch_of sample_queued) in
  exists d1 d2 running,
    processDispatchMessage (fun _ => ""%string) "worker-b" (30 * Second) sample_start payload (seqw d1 0) =
      (Ok (true, "task"%string, Some running), seqw d2 0) /\
    db_queue d2 !! "task"%string = Some running /\ wq_Status running = StatusRunning.
Proof.
  intros payload.
  pose proof (dispatch_runs_once sample_marshal (fun _ => Ok tt) (fun _ => Ok false) (fun _ => ret tt) (30 * Second)
    (fun _ => Ok "1-0"%string) sample_waiting "fresh" (sample_db sample_waiting) 0) as X.
  cbv zeta in X.
  destruct X as (d1 & _ & X); [vm_compute; reflexivity|reflexivity..|split; vm_compute; congruence|done|done|].
  destruct (X (fun _ => ""%string) "worker-b"%string sample_start) as (d2 & E & Q & _);
    [vm_compute; reflexivity|reflexivity|done|].
  eexists d1, d2, _. split; [exact E|]. split; [rewrite Q; by rewrite lookup_insert_eq|reflexivity].
Defined.

(** Between the lookup and the claim another worker takes the execution. *)
Definition sample_rival (d : Database) : Database :=
  match db_queue d !! "task"%string with
  | Some r => with_row "task" (running_row r "worker-a" (600 * Second) 0) d
  | None => d
  end.

Lemma sample_rival_respects td d : spent_kept td d (sample_rival d).
Proof.
  unfold sample_rival. destruct (db_queue d !! "task"%string) as [r|] eqn:L; [|reflexivity].
  apply (spent_insert td d _ r _ L). intros _. by left.
Qed.

Lemma dispatch_ack_is_final_witness :
  let td := dispatch_of sample_queued in
  let run := processDispatchMessage (fun _ => ""%string) "worker-b" (30 * Second) sample_start (sample_marshal td)
    (Build_World (sample_db sample_queued) [EnvQuiet; EnvWrite sample_rival] 0) in
  fst run = Ok (true, "task"%string, None) /\ spent td (w_db (snd run)).
Proof.
  intros td run. destruct (dispatch_ack_is_final td) as [A _].
  assert (Fst : fst run = Ok (true, "task"%string, None)) by (vm_compute; reflexivity).
  split; [exact Fst|].
  destruct (A (fun _ => ""%string) "worker-b"%string (30 * Second) sample_start (sample_marshal td)
    (Build_World (sample_db sample_queued) [EnvQuiet; EnvWrite sample_rival] 0) (fst run) (snd run))
    as (ack & started & E & S); [vm_compute; reflexivity| |apply surjective_pairing|].
  - constructor; [intros d; exact (reflexivity d)|]. constructor; [exact (sample_rival_respects td)|constructor].
  - apply S. left. rewrite Fst in E. by injection E as <-.
Defined.

(** The task is cancelled while its controller runs, and stays so. *)
Lemma restarts_keep_the_end_witness :
  let e' := snd (runWorkflowControllerWithPersistenceRecovery (H := sample_deps) 2 2 1 (sample_exec sample_env)) in
  wq_TaskID (wc_task e') = "task"%string /\
  exists row, db_queue (w_db (ex_world e')) !! "task"%string = Some row /\ jobSchedulingTerminal (wq_Status row) = true.
Proof.
  assert (S : startable "task" (sample_exec sample_env)).
  { split; [exact (sample_keyed _)|]. split; [exact sample_env_respects|]. by split. }
  assert (Pr : forall t, guarantees (task_protocol "task") (prepareWorkspace (WorkflowDeps := sample_deps) t))
    by (intros t; apply guarantees_read_only; [exact (read_only_ret _)]).
  pose proof (restarts_keep_the_end (H := sample_deps) "task" 2 2 1 (sample_exec sample_env) sample_respectful
    (sample_runner_laws _) Pr eq_refl S) as T.
  assert (B : (wq_RunGeneration <$> db_queue (w_db (ex_world (snd (runWorkflowControllerWithPersistenceRecovery (H := sample_deps) 2 2 1
      (sample_exec sample_env))))) !! "task"%string) = Some 1) by (vm_compute; reflexivity).
  assert (N : w_env (ex_world (snd (runWorkflowControllerWithPersistenceRecovery (H := sample_deps) 2 2 1
      (sample_exec sample_env)))) = []) by (vm_compute; reflexivity).
  revert B N T. cbv zeta.
  generalize (snd (runWorkflowControllerWithPersistenceRecovery (H := sample_deps) 2 2 1 (sample_exec sample_env))).
  intros e' B N (_ & La & _ & I & _). split; [exact I|].
  destruct (db_queue (w_db (ex_world e')) !! "task"%string) as [row|] eqn:L; [|discriminate B]. injection B as G.
  exists row. split; [reflexivity|]. eapply sample_ended; [exact La|reflexivity|exact N|reflexivity|exact L|exact G].
Defined.
