(* ===== verification/Cancel.v ===== *)
(** Cancellation and approval by a user: [pkg/apiserver/domain/service/workflow/workflow_cancel.go],
    with the replay of terminal callbacks in [workflow_callback.go].

    A cancelled task that no worker has claimed gets its terminal callback from the service
    itself; a task with a worker is signalled through Redis and the worker ends it.  The
    database part of every operation is a program of the data store ([M]); what goes to
    Redis, and the callbacks that are started in goroutines of their own, are the events of
    [S].

    Parameters: the configuration of a callback ([loadWorkflowTerminalCallback]) and its
    delivery ([runWorkflowTerminalCallback]) belong to the application service and the
    callback controller; Redis is [Signals.Redis]. *)

From S2P Require Import Prelude GoStrings Config Policy Model Store Lease Signals Controller JobExec Sha1 Sha256 EventLoop.

Definition cancelWorkflowTaskCASMaxAttempts : nat := 3.
Definition workflowApprovalActionContinue : string := "continue".
Definition workflowApprovalActionCancel : string := "cancel".
Definition DefaultTaskRevoker : string := "system".
Definition TerminalCallbackReconciledReason : string := "terminal callback reconciled".

(** ** Which tasks can be cancelled *)

Definition taskRevoker (userName : string) : string :=
  let userName := TrimSpace userName in if str_empty userName then DefaultTaskRevoker else userName.

Definition isJobTerminalStatus (status : Status) : bool :=
  one_of [StatusCompleted; StatusPassed; StatusSkipped; StatusFailed; StatusTimeout; StatusReject; StatusCancelled] status.

(** The jobs of a task; no record is an empty list. *)
Definition jobs_of_task (taskID : string) : M (list JobInfo) :=
  let! entities := try (List_ (E := JobInfo) (Index (job_info_zero <| job_TaskID := taskID |>)) no_options) in
  match entities with
  | Ok jobs => ret jobs
  | Err e => if errors_is ErrRecordNotExist e then ret [] else throw e
  end.

Definition TaskHasActiveJobs (taskID : string) : M bool :=
  let taskID := TrimSpace taskID in
  if str_empty taskID then ret false else
  let! jobs := jobs_of_task taskID in
  ret (existsb (fun job => negb (isJobTerminalStatus (job_Status job))) jobs).

Definition hasNonterminalWorkflowJobs (taskID : string) : M bool :=
  let! jobs := wrap_error "list workflow jobs before cancellation" (jobs_of_task taskID) in
  ret (existsb (fun job => negb (jobSchedulingTerminal (job_Status job))) jobs).

Definition shouldCancelTaskWithStore (task : WorkflowQueue) : M bool :=
  if blank (wq_TaskID task) then ret false else
  if str_empty (wq_Status task) || IsWorkflowActiveStatus (wq_Status task) then ret true else
  if negb (wq_Status task =? StatusCancelled)%string then ret false else
  TaskHasActiveJobs (wq_TaskID task).

Definition shouldCancelTask (task : WorkflowQueue) : M bool := shouldCancelTaskWithStore task.

Definition shouldCancelAppTask (appID : string) (task : WorkflowQueue) : M bool :=
  if blank (wq_TaskID task) then ret false else
  if str_empty (wq_AppID task) || negb (wq_AppID task =? appID)%string then ret false else
  shouldCancelTask task.

(** No worker will end the task: the service triggers its terminal callback. *)
Definition shouldTriggerTerminalCallbackWithoutWorker (task : WorkflowQueue) : M bool :=
  let without_jobs := let! active := hasNonterminalWorkflowJobs (wq_TaskID task) in ret (negb active) in
  if (wq_Status task =? StatusWaitingApprove)%string then ret (wq_ApprovalPending task)
  else if (wq_Status task =? StatusQueued)%string then
    if negb (str_empty (wq_WorkerID task)) then ret false else without_jobs
  else if (wq_Status task =? StatusWaiting)%string then
    if (0 <? wq_DispatchAttempts task) || negb (str_empty (wq_RunToken task)) || negb (str_empty (wq_WorkerID task))
    then ret false else without_jobs
  else ret false.

Definition workflowTaskCancellationMatches (task : WorkflowQueue) (userName : string) : bool :=
  (wq_Status task =? StatusCancelled)%string && (wq_TaskRevoker task =? userName)%string &&
  (wq_CancelSource task =? CancelSourceUser)%string && negb (wq_ApprovalPending task) &&
  str_empty (wq_PendingApprovalStep task).

(** jobcallback.go *)
Definition TerminalCallbackExecutionKey (taskID : string) (generation : Z) (event : string) : string :=
  hex (sha256 (taskID ++ "|" ++ FormatUint generation 10 ++ "|-1|0|0|workflow-callback-" ++ taskID ++ "|" ++ event ++ "|" ++
               JobDeployCallback)).

(** ** The writes of a cancellation *)

Open Scope string_scope.
Open Scope Z_scope.

Definition clearWorkflowExecutionOwner (updates : list (string * Val)) : list (string * Val) :=
  (updates ++ [("run_token", VStr ""); ("worker_id", VStr ""); ("lease_expires_at", VNull)])%list.

Definition cancel_updates (userName pendingReason : string) : list (string * Val) :=
  [("task_revoker", VStr userName); ("status", VStr StatusCancelled); ("cancel_source", VStr CancelSourceUser);
   ("approval_pending", VBool false); ("pending_approval_step", VStr ""); ("scheduling_reason", VStr pendingReason)].

Definition approval_condition (task : WorkflowQueue) : ApproveTaskCondition :=
  Build_ApproveTaskCondition true (wq_Status task) (wq_CurrentStep task) (wq_PendingApprovalStep task).

Definition terminalize_cancelled (task : WorkflowQueue) (reason : string) : M unit :=
  TerminalizeCancelledWorkflowJobs (wq_TaskID task) reason
    (TerminalCallbackExecutionKey (wq_TaskID task) (wq_RunGeneration task) "cancelled").

(** [shouldCancelTaskWithStore] and what is already cancelled, around an attempt; [Ok (task, false)] when it was. *)
Definition check_cancellable (current : WorkflowQueue) (userName : string) (attempt : M (WorkflowQueue * bool))
    : M (WorkflowQueue * bool) :=
  let! cancellable := shouldCancelTaskWithStore current in
  if negb cancellable then throw ErrWorkflowTaskNotCancellable else
  if workflowTaskCancellationMatches current userName then ret (current, false) else attempt.

(** The compare-and-swap of an attempt. *)
Definition swap_cancelled (current : WorkflowQueue) (userName pendingReason : string) (callbackWithoutWorker : bool) : M bool :=
  let updates := cancel_updates userName pendingReason in
  let attemptUpdates := if callbackWithoutWorker then clearWorkflowExecutionOwner updates else updates in
  if wq_ApprovalPending current
  then ApproveTaskCAS (wq_TaskID current) (approval_condition current) attemptUpdates
  else UpdateTaskFieldsIfStatus (wq_TaskID current) (wq_Status current) attemptUpdates.

(** One attempt, and [retry] from the task's latest row. *)
Definition cancel_attempt (retry : WorkflowQueue -> M (WorkflowQueue * bool)) (current : WorkflowQueue)
    (userName pendingReason : string) (cancelSignalErr : option error) : M (WorkflowQueue * bool) :=
  let! callbackWithoutWorker := shouldTriggerTerminalCallbackWithoutWorker current in
  match (if callbackWithoutWorker then None else cancelSignalErr) with
  | Some err => throw err
  | None =>
      let! swapped := swap_cancelled current userName pendingReason callbackWithoutWorker in
      if swapped then
        let! _ := (if callbackWithoutWorker
                   then terminalize_cancelled current (TerminalCallbackReason pendingReason) else ret tt) in
        ret (current, callbackWithoutWorker)
      else
        let! latest := TaskByID (wq_TaskID current) in
        check_cancellable latest userName (retry latest)
  end.

(** The attempts that are left; the result is the task as it was last read, and whether it was cancelled without a
    worker. *)
Fixpoint cancel_attempts (n : nat) (current : WorkflowQueue) (userName pendingReason : string) (cancelSignalErr : option error)
    : M (WorkflowQueue * bool) :=
  match n with
  | O => throw ErrWorkflowTaskCancelConflict
  | S n =>
      check_cancellable current userName
        (cancel_attempt (fun latest => cancel_attempts n latest userName pendingReason cancelSignalErr)
           current userName pendingReason cancelSignalErr)
  end.

Definition cancelWorkflowTaskState (task : WorkflowQueue) (userName pendingReason : string) (cancelSignalErr : option error)
    : M (WorkflowQueue * bool) :=
  cancel_attempts cancelWorkflowTaskCASMaxAttempts task userName pendingReason cancelSignalErr.

Definition runCancelledTaskStoreUpdate {A} (taskID reason : string) (updateTask : M A) : M A :=
  WithTransaction (
    let! a := updateTask in
    let! _ := wrap_error "terminalize version update cleanup jobs"
      (TerminalizePrecreatedVersionUpdateCleanupJobs taskID StatusCancelled reason) in
    ret a).

(** With a status the caller insists on. *)
Definition cancel_if_status (task : WorkflowQueue) (userName reason pendingReason expectedStatus : string)
    (conflictErr : option error) (callbackWithoutWorker : bool) : M (WorkflowQueue * bool) :=
  let updates := cancel_updates userName pendingReason in
  let! swapped := UpdateTaskFieldsIfStatus (wq_TaskID task) expectedStatus
    (if callbackWithoutWorker then clearWorkflowExecutionOwner updates else updates) in
  if negb swapped then throw (default ErrRecordNotExist conflictErr) else
  let! _ := (if callbackWithoutWorker then terminalize_cancelled task reason else ret tt) in
  ret (task, callbackWithoutWorker).

(** [task.TaskRevoker = userName; ...] *)
Definition cancelled_task (task : WorkflowQueue) (userName pendingReason : string) (withoutWorker : bool) : WorkflowQueue :=
  let task := task <| wq_TaskRevoker := userName |> <| wq_Status := StatusCancelled |>
    <| wq_CancelSource := CancelSourceUser |> <| wq_ApprovalPending := false |> <| wq_PendingApprovalStep := "" |>
    <| wq_SchedulingReason := pendingReason |> in
  if withoutWorker then task <| wq_RunToken := "" |> <| wq_WorkerID := "" |> <| wq_LeaseExpiresAt := None |> else task.

(** ** The service *)

Inductive CancelEvent :=
  | SignalPublished (taskID reason : string)
  | CallbackTriggered (task : WorkflowQueue) (status reason : string).

Section Service.
Context {R : Type} `{Redis R}.

(** [sv_pings]: the answers of the pings to come; without one a ping succeeds. *)
Record Service := {
  sv_world : World;
  sv_redis : option R;
  sv_pings : list (result unit);
  sv_log : list CancelEvent;
}.

Definition Sv (A : Type) : Type := Service -> result A * Service.

Definition sret {A} (a : A) : Sv A := fun s => (Ok a, s).
Definition sthrow {A} (e : error) : Sv A := fun s => (Err e, s).
Definition sbind {A B} (m : Sv A) (k : A -> Sv B) : Sv B := fun s =>
  match m s with (Ok a, s') => k a s' | (Err e, s') => (Err e, s') end.
Definition stry {A} (m : Sv A) : Sv (result A) := fun s => let '(r, s') := m s in (Ok r, s').
Definition sdb {A} (m : M A) : Sv A := fun s =>
  let '(r, w) := m (sv_world s) in (r, Build_Service w (sv_redis s) (sv_pings s) (sv_log s)).
Definition slog (ev : CancelEvent) : Sv unit := fun s =>
  (Ok tt, Build_Service (sv_world s) (sv_redis s) (sv_pings s) (sv_log s ++ [ev])%list).

(** internal/cancelsignal *)
Definition RedisClientForCancelSignal : Sv unit := fun s =>
  match sv_redis s with
  | None => (Err ErrWorkflowCancelSignalUnavailable, s)
  | Some _ =>
      match sv_pings s with
      | [] => (Ok tt, s)
      | Ok _ :: pings => (Ok tt, Build_Service (sv_world s) (sv_redis s) pings (sv_log s))
      | Err _ :: pings => (Err (Wrapf "ping" ErrWorkflowCancelSignalUnavailable),
                           Build_Service (sv_world s) (sv_redis s) pings (sv_log s))
      end
  end.

Definition PublishWorkflowCancelSignal (taskID reason : string) : Sv unit := fun s =>
  match CancelWithClient (sv_redis s) (w_wall (sv_world s)) taskID reason with
  | Err e => (Err (Wrapf "publish workflow cancel signal" e), s)
  | Ok r => (Ok tt, Build_Service (sv_world s) (Some r) (sv_pings s) (sv_log s ++ [SignalPublished taskID reason])%list)
  end.

Definition triggerWorkflowTerminalCallbackOnApprovalActionAsync (task : WorkflowQueue) (status reason : string) : Sv unit :=
  slog (CallbackTriggered task status reason).

Notation "'sdo!' x := m 'in' k" := (sbind m (fun x => k)) (at level 10, x pattern, m at level 100, k at level 200) : eruun_scope.

(** The preflight failed and no callback replaces the signal. *)
Definition signal_unavailable (task : WorkflowQueue) (expectedStatus : string) (conflictErr : option error)
    (cancelSignalErr : error) : Sv unit :=
  match conflictErr with
  | Some conflictErr =>
      if str_empty expectedStatus then sthrow cancelSignalErr else
      sdo! current := stry (sdb (TaskByID (wq_TaskID task))) in
      match current with
      | Err e => sthrow (if errors_is ErrRecordNotExist e then conflictErr else cancelSignalErr)
      | Ok current => sthrow (if (wq_Status current =? expectedStatus)%string then cancelSignalErr else conflictErr)
      end
  | None => sthrow cancelSignalErr
  end.

(** After the task is cancelled in the store: the signal and the callback. *)
Definition announce_cancelled (task : WorkflowQueue) (reason : string) (withoutWorker connected : bool) : Sv unit :=
  let callback := if withoutWorker
    then triggerWorkflowTerminalCallbackOnApprovalActionAsync task StatusCancelled reason else sret tt in
  sdo! client := (if connected then sret (Ok tt) else stry RedisClientForCancelSignal) in
  match client with
  | Err _ => callback
  | Ok _ =>
      sdo! published := stry (PublishWorkflowCancelSignal (wq_TaskID task) reason) in
      match published with
      | Err e => if withoutWorker then callback else sthrow e
      | Ok _ => callback
      end
  end.

(** The cancellation itself; [cancelSignalErr] when the preflight failed. *)
Definition cancel_in_store (task : WorkflowQueue) (userName reason expectedStatus : string) (conflictErr : option error)
    (callbackWithoutWorker : bool) (cancelSignalErr : option error) : Sv unit :=
  let reason := if str_empty reason then "cancelled by " ++ userName else reason in
  let pendingReason := TerminalCallbackPendingReason reason in
  sdo! done := sdb (runCancelledTaskStoreUpdate (wq_TaskID task) reason
    (if negb (str_empty expectedStatus)
     then cancel_if_status task userName reason pendingReason expectedStatus conflictErr callbackWithoutWorker
     else cancelWorkflowTaskState task userName pendingReason cancelSignalErr)) in
  let '(current, withoutWorker) := done in
  announce_cancelled (cancelled_task current userName pendingReason withoutWorker) reason withoutWorker
    (match cancelSignalErr with None => true | Some _ => false end).

Definition cancelWorkflowTaskIfStatus (task : WorkflowQueue) (userName reason expectedStatus : string)
    (conflictErr : option error) : Sv unit :=
  sdo! cancellable := sdb (shouldCancelTask task) in
  if negb cancellable then sthrow ErrWorkflowTaskNotCancellable else
  sdo! callbackWithoutWorker := (if str_empty expectedStatus
    then sdb (shouldTriggerTerminalCallbackWithoutWorker task) else sret false) in
  sdo! client := stry RedisClientForCancelSignal in
  match client, callbackWithoutWorker with
  | Err cancelSignalErr, false => signal_unavailable task expectedStatus conflictErr cancelSignalErr
  | Err cancelSignalErr, true => cancel_in_store task userName reason expectedStatus conflictErr true (Some cancelSignalErr)
  | Ok _, _ => cancel_in_store task userName reason expectedStatus conflictErr callbackWithoutWorker None
  end.

Definition cancelWorkflowTask (task : WorkflowQueue) (userName reason : string) : Sv unit :=
  cancelWorkflowTaskIfStatus task userName reason "" None.

Definition CancelWorkflowTask (userName taskID reason : string) : Sv unit :=
  sdo! task := sdb (TaskByID taskID) in cancelWorkflowTask task userName reason.

Definition CancelWorkflowTaskForApp (appID userName taskID reason : string) : Sv unit :=
  if str_empty taskID then sthrow ErrWorkflowConfig else
  let userName := taskRevoker userName in
  sdo! task := sdb (TaskByID taskID) in
  if str_empty (wq_AppID task) || negb (wq_AppID task =? appID)%string then sthrow ErrWorkflowNotExist
  else cancelWorkflowTask task userName reason.

(** What was cancelled, before the error if there is one. *)
Fixpoint cancel_all (appID userName reason : string) (tasks : list WorkflowQueue) (cancelled : list string)
    : Sv (list string * option error) :=
  match tasks with
  | [] => sret (cancelled, None)
  | task :: rest =>
      sdo! shouldCancel := stry (sdb (shouldCancelAppTask appID task)) in
      match shouldCancel with
      | Err e => sret (cancelled, Some e)
      | Ok false => cancel_all appID userName reason rest cancelled
      | Ok true =>
          sdo! done := stry (cancelWorkflowTask task userName reason) in
          match done with
          | Ok _ => cancel_all appID userName reason rest (cancelled ++ [wq_TaskID task])%list
          | Err e =>
              if errors_is ErrWorkflowTaskNotCancellable e then cancel_all appID userName reason rest cancelled
              else sret (cancelled, Some (Wrapf "cancel workflow task" e))
          end
      end
  end.

Definition CancelAllWorkflowTasksForApp (appID userName reason : string) : Sv (list string * option error) :=
  let appID := TrimSpace appID in
  if str_empty appID then sret ([], Some ErrApplicationNotExist) else
  let userName := taskRevoker userName in
  sdo! tasks := stry (sdb (FindWorkflowTasksByAppID appID)) in
  match tasks with
  | Ok tasks => cancel_all appID userName reason tasks []
  | Err e => if errors_is ErrRecordNotExist e then sret ([], None) else sret ([], Some e)
  end.

Definition CancelDelayedVersionTaskForApp (appID userName taskID reason : string) : Sv unit :=
  if str_empty taskID then sthrow ErrWorkflowConfig else
  let userName := taskRevoker userName in
  sdo! task := sdb (TaskByID taskID) in
  if str_empty (wq_AppID task) || negb (wq_AppID task =? appID)%string then sthrow ErrWorkflowNotExist else
  sdo! now := sdb wall_clock in
  if negb (wq_Status task =? StatusWaiting)%string || (wq_ExecuteAt task <=? unix now)
  then sthrow ErrVersionUpdateTaskNotCancellable
  else cancelWorkflowTaskIfStatus task userName reason StatusWaiting (Some ErrVersionUpdateTaskNotCancellable).

(** ** Approvals *)

Record TaskApprovalResponse := {
  tar_TaskID : string;
  tar_Action : string;
  tar_Status : string;
}.

Definition approval_continue_updates (task : WorkflowQueue) : list (string * Val) :=
  [("approval_pending", VBool false); ("pending_approval_step", VStr ""); ("status", VStr StatusWaiting);
   ("current_step", VInt (i64 (Z.max (wq_CurrentStep task) 0 + 1)))].

Definition approval_cancel_updates (userName cancelReason : string) : list (string * Val) :=
  [("approval_pending", VBool false); ("pending_approval_step", VStr ""); ("status", VStr StatusCancelled);
   ("task_revoker", VStr userName); ("cancel_source", VStr CancelSourceUser); ("run_token", VStr ""); ("worker_id", VStr "");
   ("lease_expires_at", VNull); ("scheduling_reason", VStr (TerminalCallbackPendingReason cancelReason))].

Definition ApproveWorkflowTask (taskID action userName reason : string) : Sv TaskApprovalResponse :=
  let taskID := TrimSpace taskID in
  if str_empty taskID then sthrow ErrWorkflowTaskNotExist else
  let userName := taskRevoker userName in
  let normalizedAction := ToLower (TrimSpace action) in
  if negb (normalizedAction =? workflowApprovalActionContinue)%string &&
     negb (normalizedAction =? workflowApprovalActionCancel)%string
  then sthrow ErrWorkflowApprovalActionInvalid else
  sdo! task := stry (sdb (TaskByID taskID)) in
  match task with
  | Err e => sthrow (if errors_is ErrRecordNotExist e then ErrWorkflowTaskNotExist else e)
  | Ok task =>
      if negb (wq_ApprovalPending task) then sthrow ErrWorkflowTaskNotAwaitingApproval else
      if negb (wq_Status task =? StatusWaitingApprove)%string && negb (wq_Status task =? StatusWaiting)%string
      then sthrow ErrWorkflowTaskNotAwaitingApproval else
      let expectedCondition := approval_condition task in
      if (normalizedAction =? workflowApprovalActionContinue)%string then
        sdo! swapped := sdb (ApproveTaskCAS taskID expectedCondition (approval_continue_updates task)) in
        if negb swapped then sthrow ErrWorkflowTaskNotAwaitingApproval
        else sret (Build_TaskApprovalResponse (wq_TaskID task) normalizedAction StatusWaiting)
      else
        let cancelReason := if blank reason then "cancelled by " ++ userName else TrimSpace reason in
        sdo! _ := sdb (runCancelledTaskStoreUpdate taskID cancelReason (
          let! swapped := ApproveTaskCAS taskID expectedCondition (approval_cancel_updates userName cancelReason) in
          if negb swapped then throw ErrWorkflowTaskNotAwaitingApproval else
          terminalize_cancelled task cancelReason)) in
        let task := cancelled_task task userName (TerminalCallbackPendingReason cancelReason) true in
        sdo! _ := triggerWorkflowTerminalCallbackOnApprovalActionAsync task StatusCancelled cancelReason in
        sret (Build_TaskApprovalResponse (wq_TaskID task) normalizedAction StatusCancelled)
  end.
End Service.
Notation "'sdo!' x := m 'in' k" := (sbind m (fun x => k)) (at level 10, x pattern, m at level 100, k at level 200) : eruun_scope.

(** ** The replay of terminal callbacks: workflow_callback.go *)

Section Callbacks.
Context {Callback : Type}.
Context (loadWorkflowTerminalCallback : WorkflowQueue -> M (option Callback)).
Context (runWorkflowTerminalCallback : WorkflowQueue -> string -> string -> Callback -> M unit).

Definition triggerWorkflowTerminalCallbackOnApprovalAction (task : WorkflowQueue) (status reason : string) : M unit :=
  let! callback := loadWorkflowTerminalCallback task in
  match callback with Some callback => runWorkflowTerminalCallback task status reason callback | None => ret tt end.

Definition workflowHasActiveChildExecution (taskID : string) : M bool :=
  let! jobs := wrap_error "list cancelled workflow jobs before callback" (jobs_of_task taskID) in
  ret (existsb (fun job => negb (job_Type job =? JobDeployCallback)%string &&
    (IsCancelledJobCleanupPending (Some job) || (job_Status job =? StatusRunning)%string ||
     (job_SchedulingState job =? JobSchedulingAdmitted)%string)) jobs).

Definition terminalCallbackJobSettled (taskID : string) (generation : Z) (executionKey : string) : M bool :=
  let! entities := try (List_ (E := JobInfo) (Index (job_info_zero <| job_TaskID := taskID |>))
    (Build_ListOptions (Build_FilterOptions [("execution_key", [VStr executionKey])] [] []) 1 2 [])) in
  match entities with
  | Err e => if errors_is ErrRecordNotExist e then ret false else throw (Wrapf "load terminal callback job" e)
  | Ok jobs => ret (existsb (fun job => (job_RunGeneration job =? generation) &&
      bool_decide (job_ExecutionKey job = Some executionKey) && jobSchedulingTerminal (job_Status job)) jobs)
  end.

Definition reconcileWorkflowTerminalCallback (task : WorkflowQueue) (status reason : string) : M bool :=
  if negb (status =? StatusCancelled)%string || negb (IsTerminalCallbackPending (wq_SchedulingReason task))
  then let! _ := triggerWorkflowTerminalCallbackOnApprovalAction task status reason in ret true else
  let! current := wrap_error "load pending terminal callback task" (Get (E := WorkflowQueue) (wq_TaskID task)) in
  if negb (wq_Status current =? StatusCancelled)%string || negb (wq_RunGeneration current =? wq_RunGeneration task) ||
     negb (IsTerminalCallbackPending (wq_SchedulingReason current)) then ret false else
  if negb (str_empty (wq_RunToken current)) || negb (str_empty (wq_WorkerID current)) then ret false else
  let callbackReason := TerminalCallbackReason (wq_SchedulingReason current) in
  let! callback := loadWorkflowTerminalCallback current in
  let callbackKey := TerminalCallbackExecutionKey (wq_TaskID current) (wq_RunGeneration current) "cancelled" in
  let! active := workflowHasActiveChildExecution (wq_TaskID current) in
  if active then ret false else
  let! _ := TerminalizeCancelledWorkflowJobs (wq_TaskID current) callbackReason callbackKey in
  let! settled := terminalCallbackJobSettled (wq_TaskID current) (wq_RunGeneration current) callbackKey in
  let! _ := match callback with
    | Some callback => if settled then ret tt else runWorkflowTerminalCallback current status callbackReason callback
    | None => ret tt end in
  let! updated := wrap_error "complete terminal callback marker" (UpdateTaskFieldsIfConditions (wq_TaskID current)
    [("status", CEq (VStr StatusCancelled)); ("run_generation", CEq (VInt (wq_RunGeneration current)));
     ("run_token", CEq (VStr "")); ("worker_id", CEq (VStr ""));
     ("scheduling_reason", CEq (VStr (wq_SchedulingReason current)))]
    [("scheduling_reason", VStr TerminalCallbackReconciledReason)]) in
  guard! updated else ErrWorkflowOwnershipLost;
  ret true.

Definition ReconcileWorkflowTerminalCallback (task : WorkflowQueue) : M bool :=
  if negb (str_empty (wq_RunToken task)) || negb (str_empty (wq_WorkerID task)) then ret false
  else reconcileWorkflowTerminalCallback task StatusCancelled "".
End Callbacks.
