(* ===== verification/CancelSpec.v ===== *)
(** What cancellation promises: [pkg/apiserver/domain/service/workflow/workflow_cancel.go].

    The service's writes are [user_write]s, which every relation the workers, leaders and
    controllers rely on allows ([cancellation_respects_everyone]).  A cancellation that
    reports success leaves the task cancelled, and announces it ([cancel_is_announced]). *)

From S2P Require Import Prelude GoStrings Config Policy Model Store Hoare Lease LeaseProtocol.
From S2P Require Import Signals Controller ControllerSpec ControllerSafety JobExec EventLoop EventLoopSpec Sha256 Cancel.

(** ** The writes *)

(** What a user's cancellation or approval does to the task's row. *)
Definition user_write (r r' : WorkflowQueue) : Prop :=
  wq_TaskID r' = wq_TaskID r /\ wq_RunGeneration r' = wq_RunGeneration r /\
  (wq_RunToken r' = wq_RunToken r /\ wq_WorkerID r' = wq_WorkerID r \/ wq_RunToken r' = ""%string /\ wq_WorkerID r' = ""%string) /\
  (wq_Status r' = StatusCancelled /\ (jobSchedulingTerminal (wq_Status r) = true -> wq_Status r = StatusCancelled) \/
   wq_Status r' = StatusWaiting /\ (wq_Status r = StatusWaitingApprove \/ wq_Status r = StatusWaiting)).

(** A relation on the queue that allows them. *)
Class AllowsUser (R : relation Database) : Prop := {
  user_queue : QueueRelation R;
  user_allowed : forall d key row row', db_queue d !! key = Some row -> user_write row row' ->
    R d (with_table (<[key := row']> (table d)) d)
}.
#[export] Existing Instance user_queue.

#[export] Instance task_protocol_user id : AllowsUser (task_protocol id).
Proof.
  split; [apply _|]. intros d key row row' L (T & G & _ & S). apply (task_protocol_insert id _ _ _ _ L T).
  split; [by rewrite G|]. intros _ Tr. destruct S as [[-> C]|[_ [E|E]]]; [by rewrite C|by rewrite E in Tr..].
Qed.

#[export] Instance spent_user td : AllowsUser (spent_kept td).
Proof.
  split; [apply _|]. intros d key row row' L (_ & _ & _ & S). apply (spent_insert td d key row row' L). intros _. left.
  by destruct S as [[-> _]|[-> _]].
Qed.

#[export] Instance lease_protocol_queue : QueueRelation lease_protocol.
Proof. split; [apply _|]. apply lease_protocol_other. Qed.

#[export] Instance lease_protocol_user : AllowsUser lease_protocol.
Proof.
  split; [apply _|]. intros d key row row' L (T & G & O & S). apply (lease_protocol_insert d key row row' L). intros _. split.
  - intros Q. by destruct S as [[E _]|[E _]]; rewrite E in Q.
  - split; [done|]. right. split; [done|]. destruct O as [[-> ->]|[-> _]]; auto.
Qed.

(** ** The database programs *)

Section Programs.
Context (R : relation Database) `{!AllowsUser R}.

Lemma user_ro {A} (m : M A) : read_only m -> guarantees R m.
Proof. apply queue_ro. Qed.

Lemma user_cas key conditions updates :
  (forall now row row', conds_hold conditions row = true ->
     apply_updates (updates ++ [("update_time"%string, VTime now)]) row = Some row' -> user_write row row') ->
  guarantees R (CompareAndSwapWithConditions (E := WorkflowQueue) key conditions updates).
Proof. intros HU. apply guarantees_cas. intros now d row row' L C U. eapply user_allowed; eauto. Qed.

Lemma read_only_jobs taskID : read_only (jobs_of_task taskID).
Proof. unfold jobs_of_task. store_step. Qed.
Hint Resolve read_only_jobs : store.

Lemma read_only_active taskID : read_only (TaskHasActiveJobs taskID).
Proof. unfold TaskHasActiveJobs. store_step. Qed.
Hint Resolve read_only_active : store.

Lemma read_only_cancellable task : read_only (shouldCancelTaskWithStore task).
Proof. unfold shouldCancelTaskWithStore. store_step. Qed.

Lemma read_only_without_worker task : read_only (shouldTriggerTerminalCallbackWithoutWorker task).
Proof. unfold shouldTriggerTerminalCallbackWithoutWorker, hasNonterminalWorkflowJobs. store_step. Qed.

Lemma cancel_write status userName reason without now row row' :
  wq_Status row = status -> (jobSchedulingTerminal status = true -> status = StatusCancelled) ->
  apply_updates ((let updates := cancel_updates userName reason in
     if without : bool then clearWorkflowExecutionOwner updates else updates) ++ [("update_time"%string, VTime now)]) row = Some row' ->
  user_write row row'.
Proof.
  intros <- T U. destruct without; cbn in U; injection U as <-; (split; [done|]); (split; [done|]); (split; [by auto|]); by left.
Qed.
End Programs.

Lemma active_not_terminal s : IsWorkflowActiveStatus s = true -> jobSchedulingTerminal s = false.
Proof.
  unfold IsWorkflowActiveStatus, one_of. cbn [existsb].
  intros H. repeat (apply orb_prop in H as [H|H]; [apply String.eqb_eq in H as ->; reflexivity|]). discriminate.
Qed.

(** Cancelling the task ends what has not ended. *)
Definition cancellable (task : WorkflowQueue) : Prop :=
  jobSchedulingTerminal (wq_Status task) = true -> wq_Status task = StatusCancelled.

Lemma cancellable_status task w w' : shouldCancelTaskWithStore task w = (Ok true, w') -> cancellable task.
Proof.
  unfold shouldCancelTaskWithStore, cancellable. destruct (blank _); [discriminate|].
  destruct (str_empty _ || _) eqn:A.
  - intros _ T. apply orb_true_iff in A as [A|A].
    + unfold str_empty in A. apply String.eqb_eq in A. by rewrite A in T.
    + by rewrite (active_not_terminal _ A) in T.
  - destruct (wq_Status task =? StatusCancelled)%string eqn:E; [|discriminate]. intros _ _. by apply String.eqb_eq.
Qed.

Lemma advances_terminalize_cancelled task reason : advances (terminalize_cancelled task reason).
Proof. exact (guarantees_advances _ _ (queue_terminalize (task_protocol ""%string) _ _ _)). Qed.

Lemma advances_swap current userName pendingReason b : advances (swap_cancelled current userName pendingReason b).
Proof. unfold swap_cancelled, ApproveTaskCAS, UpdateTaskFieldsIfStatus, CompareAndSwap. store_step. Qed.

Lemma advances_check current userName attempt : advances attempt -> advances (check_cancellable current userName attempt).
Proof.
  intros Ha. unfold check_cancellable. apply advances_bind; [apply read_only_advances, read_only_cancellable|].
  intros c. destruct (negb c); [store_step|]. destruct (workflowTaskCancellationMatches _ _); [store_step|exact Ha].
Qed.

Lemma advances_attempt retry current userName pendingReason err : (forall latest, advances (retry latest)) ->
  advances (cancel_attempt retry current userName pendingReason err).
Proof.
  intros Hr. unfold cancel_attempt. apply advances_bind; [apply read_only_advances, read_only_without_worker|].
  intros b. destruct (if b then None else err); [store_step|]. apply advances_bind; [apply advances_swap|]. intros [].
  - apply advances_bind; [destruct b; [apply advances_terminalize_cancelled|store_step]|]. intros ?. store_step.
  - apply advances_bind; [store_step|]. intros latest. apply advances_check, Hr.
Qed.

Lemma advances_cancel_attempts n current userName pendingReason err : advances (cancel_attempts n current userName pendingReason err).
Proof.
  revert current. induction n as [|n IH]; intros current; cbn [cancel_attempts]; [store_step|].
  apply advances_check, advances_attempt, IH.
Qed.

Section Guarantees.
Context (R : relation Database) `{!AllowsUser R}.

Lemma user_then {A B} (m : M A) (k : A -> M B) : guarantees R m -> (forall a, guarantees R (k a)) -> guarantees R (bind m k).
Proof. apply queue_then. Qed.

Lemma user_swap current userName pendingReason b : cancellable current ->
  guarantees R (swap_cancelled current userName pendingReason b).
Proof.
  intros C. unfold swap_cancelled. destruct (wq_ApprovalPending current).
  - apply user_cas; [apply _|]. intros now row row' Hc Hu. eapply cancel_write; [|exact C|exact Hu].
    unfold approval_condition in Hc. cbn [atc_ApprovalPending atc_Status atc_CurrentStep atc_PendingApprovalStep] in Hc.
    autorewrite with queue_cols in Hc. by bool_to_prop.
  - unfold UpdateTaskFieldsIfStatus, CompareAndSwap. destruct (negb _); [|apply (user_ro R); auto with store].
    apply user_cas; [apply _|]. intros now row row' Hc Hu. eapply cancel_write; [|exact C|exact Hu].
    autorewrite with queue_cols in Hc. by bool_to_prop.
Qed.

Lemma user_check current userName attempt : (cancellable current -> guarantees R attempt) ->
  guarantees R (check_cancellable current userName attempt).
Proof.
  intros Ha. unfold check_cancellable. apply guarantees_bind_run; [apply (user_ro R), read_only_cancellable|].
  intros w [] w' E; cbn [negb]; [|apply (user_ro R); auto with store].
  destruct (workflowTaskCancellationMatches _ _); [apply (user_ro R); auto with store|].
  by apply Ha, (cancellable_status current w w').
Qed.

Lemma user_terminalize task reason : guarantees R (terminalize_cancelled task reason).
Proof. unfold terminalize_cancelled. apply queue_terminalize. apply _. Qed.

Lemma user_attempt retry current userName pendingReason err : cancellable current ->
  (forall latest, guarantees R (retry latest)) ->
  guarantees R (cancel_attempt retry current userName pendingReason err).
Proof.
  intros C Hr. unfold cancel_attempt. apply user_then; [apply (user_ro R), read_only_without_worker|].
  intros b. destruct (if b then None else err); [apply (user_ro R); auto with store|]. apply user_then; [by apply user_swap|]. intros [].
  - apply user_then; [destruct b; [apply user_terminalize|apply (user_ro R); auto with store]|]. intros ?.
    apply (user_ro R); auto with store.
  - apply user_then; [apply (user_ro R); auto with store|]. intros latest. apply user_check; intros _; apply Hr.
Qed.

Lemma user_attempts n current userName pendingReason err : guarantees R (cancel_attempts n current userName pendingReason err).
Proof.
  revert current. induction n as [|n IH]; intros current; cbn [cancel_attempts]; [apply (user_ro R); auto with store|].
  apply user_check. intros C. by apply user_attempt.
Qed.

Lemma user_if_status task userName reason pendingReason expected conflictErr b :
  (jobSchedulingTerminal expected = true -> expected = StatusCancelled) ->
  guarantees R (cancel_if_status task userName reason pendingReason expected conflictErr b).
Proof.
  intros T. unfold cancel_if_status. apply user_then.
  - unfold UpdateTaskFieldsIfStatus, CompareAndSwap. destruct (negb _); [|apply (user_ro R); auto with store].
    apply user_cas; [apply _|]. intros now row row' Hc Hu. eapply cancel_write; [|exact T|exact Hu].
    autorewrite with queue_cols in Hc. by bool_to_prop.
  - intros []; cbn [negb]; [|apply (user_ro R); auto with store].
    apply user_then; [destruct b; [apply user_terminalize|apply (user_ro R); auto with store]|]. intros ?.
    apply (user_ro R); auto with store.
Qed.

Lemma user_store_update {A} taskID reason (m : M A) : guarantees R m -> guarantees R (runCancelledTaskStoreUpdate taskID reason m).
Proof.
  intros Hm. apply queue_transaction. apply user_then; [exact Hm|]. intros a.
  apply user_then; [apply guarantees_wrap, queue_precreated, _|]. intros ?. apply (user_ro R); auto with store.
Qed.

Lemma user_approve taskID task updates :
  (wq_Status task = StatusWaitingApprove \/ wq_Status task = StatusWaiting) ->
  (forall now row row', wq_Status row = wq_Status task ->
     apply_updates (updates ++ [("update_time"%string, VTime now)]) row = Some row' -> user_write row row') ->
  guarantees R (ApproveTaskCAS taskID (approval_condition task) updates).
Proof.
  intros S HU. apply user_cas; [apply _|]. intros now row row' Hc Hu. eapply HU; [|exact Hu].
  unfold approval_condition in Hc. cbn [atc_ApprovalPending atc_Status atc_CurrentStep atc_PendingApprovalStep] in Hc.
  autorewrite with queue_cols in Hc. by bool_to_prop.
Qed.
End Guarantees.

(** ** The service's operations *)

Section Operations.
Context {Cli : Type} `{Redis Cli}.
Context (R : relation Database) `{!AllowsUser R}.

(** Each commit of the service's own is under [R]. *)
Definition svmoves (s s' : Service (R := Cli)) : Prop := commits R (sv_world s) (sv_world s').

#[local] Instance svmoves_preorder : PreOrder svmoves.
Proof. split; unfold svmoves; [intros s; reflexivity|intros a b c X Y; by etrans]. Qed.

Lemma svmoves_same s s' : sv_world s' = sv_world s -> svmoves s s'.
Proof. unfold svmoves. intros ->. reflexivity. Qed.

Definition svkeeps {A} (m : Sv (R := Cli) A) : Prop := forall s, svmoves s (snd (m s)).

Lemma svkeeps_ret {A} (a : A) : svkeeps (sret a).
Proof. intros s. reflexivity. Qed.
Lemma svkeeps_throw {A} e : svkeeps (sthrow (A := A) e).
Proof. intros s. reflexivity. Qed.
Lemma svkeeps_bind {A B} (m : Sv A) (k : A -> Sv B) : svkeeps m -> (forall a, svkeeps (k a)) -> svkeeps (sbind m k).
Proof.
  intros Hm Hk s. unfold sbind. pose proof (Hm s) as X. destruct (m s) as [[a|e] s1]; [|exact X].
  transitivity s1; [exact X|apply Hk].
Qed.
Lemma svkeeps_try {A} (m : Sv A) : svkeeps m -> svkeeps (stry m).
Proof. intros Hm s. unfold stry. pose proof (Hm s) as X. by destruct (m s). Qed.
Lemma svkeeps_db {A} (m : M A) : guarantees R m -> svkeeps (sdb m).
Proof. intros G s. unfold sdb. destruct (m (sv_world s)) as [r w] eqn:Em. by eapply G. Qed.
Lemma svkeeps_read {A} (m : M A) : read_only m -> svkeeps (sdb m).
Proof. intros Hm. by apply svkeeps_db, user_ro. Qed.
Lemma svkeeps_log ev : svkeeps (slog ev).
Proof. intros s. by apply svmoves_same. Qed.
Lemma svkeeps_trigger task status reason : svkeeps (triggerWorkflowTerminalCallbackOnApprovalActionAsync task status reason).
Proof. apply svkeeps_log. Qed.
Lemma svkeeps_client : svkeeps RedisClientForCancelSignal.
Proof. intros s. apply svmoves_same. unfold RedisClientForCancelSignal. by destruct (sv_redis s), (sv_pings s) as [|[] ?]. Qed.
Lemma svkeeps_publish taskID reason : svkeeps (PublishWorkflowCancelSignal taskID reason).
Proof. intros s. apply svmoves_same. unfold PublishWorkflowCancelSignal. by destruct (CancelWithClient _ _ _ _). Qed.

Create HintDb sv.
Hint Resolve svkeeps_ret svkeeps_throw svkeeps_trigger svkeeps_client svkeeps_publish : sv.

Ltac sv_step :=
  repeat match goal with
  | |- forall _, _ => intros ?
  | |- svkeeps (sbind _ _) => apply svkeeps_bind
  | |- svkeeps (stry _) => apply svkeeps_try
  | |- svkeeps (if ?c then _ else _) => destruct c eqn:?
  | |- svkeeps (match ?c with _ => _ end) => destruct c eqn:?
  | |- svkeeps _ => solve [auto with sv]
  | |- svkeeps (sdb _) => apply svkeeps_read; solve [auto with store | store_step]
  end.

Lemma svkeeps_announce task reason b c : svkeeps (announce_cancelled task reason b c).
Proof. unfold announce_cancelled. sv_step. Qed.
Hint Resolve svkeeps_announce : sv.

Lemma svkeeps_in_store task userName reason expected conflictErr b err :
  (jobSchedulingTerminal expected = true -> expected = StatusCancelled) ->
  svkeeps (cancel_in_store task userName reason expected conflictErr b err).
Proof.
  intros T. unfold cancel_in_store. cbv zeta. apply svkeeps_bind; [|intros [t w]; apply svkeeps_announce].
  apply svkeeps_db, user_store_update; [apply _|].
  destruct (str_empty expected); cbn [negb]; [apply user_attempts, _|apply user_if_status; [apply _|done]].
Qed.

Lemma svkeeps_if_status task userName reason expected conflictErr :
  (jobSchedulingTerminal expected = true -> expected = StatusCancelled) ->
  svkeeps (cancelWorkflowTaskIfStatus task userName reason expected conflictErr).
Proof.
  intros T. unfold cancelWorkflowTaskIfStatus, signal_unavailable.
  apply svkeeps_bind; [apply svkeeps_read, read_only_cancellable|]. intros cancellable. destruct (negb cancellable); [sv_step|].
  apply svkeeps_bind; [destruct (str_empty expected); [apply svkeeps_read, read_only_without_worker|sv_step]|].
  intros b. apply svkeeps_bind; [sv_step|]. intros [u|e]; [by apply svkeeps_in_store|].
  destruct b; [by apply svkeeps_in_store|]. sv_step.
Qed.

Lemma svkeeps_cancel task userName reason : svkeeps (cancelWorkflowTask task userName reason).
Proof. by apply svkeeps_if_status. Qed.
Hint Resolve svkeeps_cancel : sv.

Lemma svkeeps_all appID userName reason tasks cancelled : svkeeps (cancel_all appID userName reason tasks cancelled).
Proof.
  revert cancelled. induction tasks as [|t rest IH]; intros cancelled; cbn [cancel_all]; [sv_step|].
  apply svkeeps_bind; [apply svkeeps_try, svkeeps_read|].
  { unfold shouldCancelAppTask. destruct (blank _); [auto with store|]. destruct (_ || _); [auto with store|].
    apply read_only_cancellable. }
  intros [[|]|e]; [|apply IH|sv_step]. apply svkeeps_bind; [sv_step|]. intros [u|e]; [apply IH|].
  destruct (errors_is _ _); [apply IH|sv_step].
Qed.

Lemma svkeeps_approve taskID action userName reason : svkeeps (ApproveWorkflowTask taskID action userName reason).
Proof.
  unfold ApproveWorkflowTask. cbv zeta. destruct (str_empty _); [sv_step|]. destruct (_ && _); [sv_step|].
  apply svkeeps_bind; [sv_step|]. intros [task|e]; [|sv_step]. destruct (negb (wq_ApprovalPending task)); [sv_step|].
  destruct (negb _ && negb _) eqn:S; [sv_step|].
  assert (St : wq_Status task = StatusWaitingApprove \/ wq_Status task = StatusWaiting)
    by (apply andb_false_iff in S as [S|S]; bool_to_prop; auto).
  destruct (_ =? workflowApprovalActionContinue)%string.
  - apply svkeeps_bind; [|sv_step]. apply svkeeps_db, user_approve; [apply _|done|]. intros now row row' E U.
    unfold approval_continue_updates in U. cbn in U. injection U as <-. repeat split; [by left|]. right. by rewrite E.
  - apply svkeeps_bind; [|sv_step]. apply svkeeps_db, user_store_update; [apply _|]. apply user_then.
    + apply user_approve; [apply _|done|]. intros now row row' E U. unfold approval_cancel_updates in U. cbn in U.
      injection U as <-. repeat split; [by right|]. left. split; [done|]. rewrite E. destruct St as [-> | ->]; discriminate.
    + intros []; cbn [negb]; [apply user_terminalize, _|apply (user_ro R); auto with store].
Qed.
End Operations.

(** What a user may ask of the service. *)
Inductive user_operation {Cli} `{Redis Cli} : forall A, Sv (R := Cli) A -> Prop :=
  | op_cancel userName taskID reason : user_operation _ (CancelWorkflowTask userName taskID reason)
  | op_cancel_app appID userName taskID reason : user_operation _ (CancelWorkflowTaskForApp appID userName taskID reason)
  | op_cancel_all appID userName reason : user_operation _ (CancelAllWorkflowTasksForApp appID userName reason)
  | op_cancel_delayed appID userName taskID reason :
      user_operation _ (CancelDelayedVersionTaskForApp appID userName taskID reason)
  | op_approve taskID action userName reason : user_operation _ (ApproveWorkflowTask taskID action userName reason).

Section Users.
Context {Cli : Type} `{Redis Cli} (R : relation Database) `{!AllowsUser R}.

Lemma svkeeps_load {A} taskID (k : WorkflowQueue -> Sv (R := Cli) A) :
  (forall task, svkeeps R (k task)) -> svkeeps R (sbind (sdb (TaskByID taskID)) k).
Proof. intros Hk. apply svkeeps_bind; [|exact Hk]. apply svkeeps_read. auto with store. Qed.

Lemma user_operation_keeps A (m : Sv (R := Cli) A) : user_operation A m -> svkeeps R m.
Proof.
  intros [].
  - apply svkeeps_load. intros task. by apply svkeeps_cancel.
  - unfold CancelWorkflowTaskForApp. destruct (str_empty _); [by apply svkeeps_throw|].
    apply svkeeps_load. intros task. destruct (_ || _); [by apply svkeeps_throw|by apply svkeeps_cancel].
  - unfold CancelAllWorkflowTasksForApp. cbv zeta. destruct (str_empty _); [by apply svkeeps_ret|].
    apply svkeeps_bind; [apply svkeeps_try, svkeeps_read; unfold FindWorkflowTasksByAppID; auto with store|].
    intros [tasks|e]; [by apply svkeeps_all|]. destruct (errors_is _ _); by apply svkeeps_ret.
  - unfold CancelDelayedVersionTaskForApp. cbv zeta. destruct (str_empty _); [by apply svkeeps_throw|].
    apply svkeeps_load. intros task. destruct (_ || _); [by apply svkeeps_throw|].
    apply svkeeps_bind; [apply svkeeps_read; auto with store|]. intros now.
    destruct (_ || _); [by apply svkeeps_throw|by apply svkeeps_if_status].
  - by apply svkeeps_approve.
Qed.
End Users.

(** C4: cancellation respects everyone.  Whatever a user asks of the service (cancel a task, the
    tasks of an application, a delayed update; continue or cancel an approval) and whatever is
    committed meanwhile: each single commit of the service keeps what the others rely on, on the
    rows as it finds them.  It never overwrites a terminal status of the same generation nor
    brings back a deleted task (the rely of a controller's run), never makes a spent dispatch
    message claimable (the rely of the event loop), and never gives a generation a second
    executor (the lease protocol).  When the other sessions keep to these too, so does the whole
    operation, also from what each of their commits leaves to its end. *)
Theorem cancellation_respects_everyone :
  forall Cli (redis : Redis Cli) A (m : Sv (R := Cli) A) s,
    user_operation A m ->
    let w := sv_world s in
    let w' := sv_world (snd (m s)) in
    (forall id, commits (task_protocol id) w w' /\
       (env_respects (task_protocol id) (w_env w) ->
        task_protocol id (w_db w) (w_db w') /\ lasting (task_protocol id) w w')) /\
    (forall td, commits (spent_kept td) w w' /\
       (env_respects (spent_kept td) (w_env w) -> spent td (w_db w) -> spent td (w_db w'))) /\
    commits lease_protocol w w' /\
    (env_respects lease_protocol (w_env w) -> lease_protocol (w_db w) (w_db w')).
Proof.
  intros Cli redis A m s Hop w w'. split; [|split; [|split]].
  - intros id. pose proof (user_operation_keeps (task_protocol id) A m Hop s) as C. split; [exact C|]. intros E.
    split; [apply (commits_respects _ _ _ C E)|]. by apply commits_lasting; [apply _|exact C|].
  - intros td. pose proof (user_operation_keeps (spent_kept td) A m Hop s) as C. split; [exact C|]. intros E.
    apply (commits_respects _ _ _ C E).
  - exact (user_operation_keeps lease_protocol A m Hop s).
  - intros E. apply (commits_respects _ _ _ (user_operation_keeps lease_protocol A m Hop s) E).
Qed.

(** ** A successful cancellation *)

(** The task is cancelled, or gone. *)
Definition cancelled (id : string) (d : Database) : Prop :=
  forall r, db_queue d !! id = Some r -> wq_Status r = StatusCancelled.

Definition cancel_kept (id : string) (d d' : Database) : Prop :=
  (keyed d -> keyed d') /\ (cancelled id d -> cancelled id d').

#[export] Instance cancel_kept_queue id : QueueRelation (cancel_kept id).
Proof.
  split; [split|].
  - intros d. by split.
  - intros a b c [K1 C1] [K2 C2]. split; auto.
  - intros d d' E. unfold cancel_kept, keyed, cancelled. by rewrite E.
Qed.

Section Successful.
Context (id : string).

(** What is known of a task that was read. *)
Definition seen (t : WorkflowQueue) (d : Database) : Prop :=
  wq_TaskID t = id /\ keyed d /\ (wq_Status t = StatusCancelled -> cancelled id d).

Definition done (t : WorkflowQueue) (d : Database) : Prop := wq_TaskID t = id /\ keyed d /\ cancelled id d.

Lemma seen_stable t : stable (cancel_kept id) (seen t).
Proof. intros d d' [K C] (T & Kd & S). split; [done|]. auto. Qed.
Lemma done_stable t : stable (cancel_kept id) (done t).
Proof. intros d d' [K C] (T & Kd & S). split; [done|]. auto. Qed.
Lemma keyed_kept : stable (cancel_kept id) keyed.
Proof. by intros d d' [K _]. Qed.

Lemma triple_load : triple (cancel_kept id) keyed (TaskByID id) (on_ok seen).
Proof.
  unfold TaskByID. apply triple_Get; [apply _|apply keyed_kept|done|]. intros d row K L. split; [by apply K|]. split; [done|].
  intros S r. cbn in L. rewrite L. by intros [= <-].
Qed.

Lemma triple_cancel_reads {A} (m : M A) (P : Database -> Prop) : stable (cancel_kept id) P -> read_only m ->
  triple (cancel_kept id) P m (on_ok (fun _ => P)).
Proof. intros S Hm. apply triple_read_only; [apply _|done|done|]. by intros [a|e] d. Qed.

Lemma triple_others {A} (m : M A) (P : Database -> Prop) : stable (cancel_kept id) P -> guarantees (cancel_kept id) m ->
  triple (cancel_kept id) P m (on_ok (fun _ => P)).
Proof.
  intros S G w r w' E Hp Em. destruct (guarantees_run _ _ _ _ _ G Em E) as [G' Ad]. split; [|exact Ad]. destruct r; [|done].
  cbn. eapply S; [exact G'|exact Hp].
Qed.

(** The row that is written is cancelled. *)
Lemma written_done t d row row' : wq_TaskID t = id -> keyed d -> db_queue d !! wq_TaskID t = Some row ->
  wq_TaskID row' = wq_TaskID row -> wq_Status row' = StatusCancelled ->
  done t (with_table (<[wq_TaskID t := row']> (table d)) d).
Proof.
  intros T K L I S. split; [done|]. split.
  - intros x r. cbn. destruct (decide (wq_TaskID t = x)) as [<-|N].
    + rewrite lookup_insert_eq. intros [= <-]. rewrite I. by apply K.
    + rewrite lookup_insert_ne by done. apply K.
  - intros r. cbn. rewrite T, lookup_insert_eq. by intros [= <-].
Qed.

Lemma cancel_columns userName reason b now row row' :
  apply_updates ((let updates := cancel_updates userName reason in
     if b : bool then clearWorkflowExecutionOwner updates else updates) ++ [("update_time"%string, VTime now)]) row = Some row' ->
  wq_TaskID row' = wq_TaskID row /\ wq_Status row' = StatusCancelled.
Proof. destruct b; intros U; cbn in U; by injection U as <-. Qed.

Lemma triple_cas_done t conditions userName reason b :
  triple (cancel_kept id) (seen t)
    (CompareAndSwapWithConditions (E := WorkflowQueue) (wq_TaskID t) conditions
       (let updates := cancel_updates userName reason in if b : bool then clearWorkflowExecutionOwner updates else updates))
    (on_ok (fun swapped d => if swapped : bool then done t d else seen t d)).
Proof.
  apply triple_cas; [apply _|apply seen_stable|done|by intros d Hd _|].
  intros now d row row' (T & K & S) L _ U. destruct (cancel_columns _ _ _ _ _ _ U). by apply written_done with row.
Qed.

Lemma triple_swap t userName reason b :
  triple (cancel_kept id) (seen t) (swap_cancelled t userName reason b)
    (on_ok (fun swapped d => if swapped : bool then done t d else seen t d)).
Proof.
  unfold swap_cancelled. destruct (wq_ApprovalPending t); [apply triple_cas_done|].
  unfold UpdateTaskFieldsIfStatus, CompareAndSwap. destruct (negb _); [apply triple_cas_done|by apply triple_throw].
Qed.

Lemma matches_cancelled t userName : workflowTaskCancellationMatches t userName = true -> wq_Status t = StatusCancelled.
Proof.
  unfold workflowTaskCancellationMatches. rewrite !andb_true_iff. intros [[[[S _] _] _] _]. by apply String.eqb_eq.
Qed.

Lemma triple_check t userName attempt :
  triple (cancel_kept id) (seen t) attempt (on_ok (fun out => done (fst out))) ->
  triple (cancel_kept id) (seen t) (check_cancellable t userName attempt) (on_ok (fun out => done (fst out))).
Proof.
  intros Ht. unfold check_cancellable. eapply triple_bind_ok; [apply triple_cancel_reads; [apply seen_stable|apply read_only_cancellable]|].
  intros c. apply triple_if; intros _; [by apply triple_throw|]. apply triple_if; intros Mt; [|exact Ht].
  apply triple_ret. intros d (T & K & S). cbn. split; [done|]. split; [done|]. by apply S, (matches_cancelled t userName).
Qed.

Lemma triple_terminalize t reason : triple (cancel_kept id) (done t) (terminalize_cancelled t reason) (on_ok (fun _ => done t)).
Proof. apply triple_others; [apply done_stable|]. unfold terminalize_cancelled. apply queue_terminalize, _. Qed.

Lemma triple_attempts n t userName reason err :
  triple (cancel_kept id) (seen t) (cancel_attempts n t userName reason err) (on_ok (fun out => done (fst out))).
Proof.
  revert t. induction n as [|n IH]; intros t; cbn [cancel_attempts]; [by apply triple_throw|]. apply triple_check.
  unfold cancel_attempt. eapply triple_bind_ok; [apply triple_cancel_reads; [apply seen_stable|apply read_only_without_worker]|].
  intros b. destruct (if b then None else err); [by apply triple_throw|].
  eapply triple_bind_ok; [apply triple_swap|]. intros [].
  - eapply triple_bind_ok with (Mid := fun _ => done t); [destruct b; [apply triple_terminalize|by apply triple_ret]|].
    intros ?. by apply triple_ret.
  - eapply triple_bind_ok with (Mid := seen); [|intros latest; apply triple_check, IH].
    intros w r w' E (T & K & _) Em. rewrite T in Em. by apply (triple_load w r w').
Qed.

Lemma triple_if_status t userName reason pending expected conflictErr b :
  triple (cancel_kept id) (seen t) (cancel_if_status t userName reason pending expected conflictErr b)
    (on_ok (fun out => done (fst out))).
Proof.
  unfold cancel_if_status. eapply triple_bind_ok with (Mid := fun swapped d => if swapped : bool then done t d else seen t d).
  - unfold UpdateTaskFieldsIfStatus, CompareAndSwap. destruct (negb _); [apply triple_cas_done|by apply triple_throw].
  - intros []; cbn [negb]; [|by apply triple_throw].
    eapply triple_bind_ok with (Mid := fun _ => done t); [destruct b; [apply triple_terminalize|by apply triple_ret]|].
    intros ?. by apply triple_ret.
Qed.

Lemma triple_store_update t reason (m : M (WorkflowQueue * bool)) : advances m ->
  triple (cancel_kept id) (seen t) m (on_ok (fun out => done (fst out))) ->
  triple (cancel_kept id) (seen t) (runCancelledTaskStoreUpdate (wq_TaskID t) reason m) (on_ok (fun out => done (fst out))).
Proof.
  intros Ad Tm. unfold runCancelledTaskStoreUpdate, WithTransaction.
  apply triple_transaction; [apply _| |apply seen_stable|intros a; apply done_stable|done|].
  - apply advances_bind; [exact Ad|]. intros a. apply advances_bind; [|intros ?; store_step].
    apply advances_wrap. exact (guarantees_advances _ _ (queue_precreated (cancel_kept id) _ _ _)).
  - eapply triple_bind_ok; [exact Tm|]. intros a. eapply triple_bind_ok with (Mid := fun _ => done (fst a)); [|intros ?; by apply triple_ret].
    apply triple_others; [apply done_stable|]. apply guarantees_wrap, queue_precreated, _.
Qed.

(** *** Signals and callbacks *)

Context {Cli : Type} `{Redis Cli}.

(** Redis is configured and answers. *)
Definition reachable (s : Service (R := Cli)) : Prop :=
  is_Some (sv_redis s) /\ List.Forall (fun ping => is_ok ping = true) (sv_pings s).

Lemma client_run s r s1 : RedisClientForCancelSignal s = (r, s1) ->
  sv_world s1 = sv_world s /\ sv_log s1 = sv_log s /\ (reachable s -> is_ok r = true /\ reachable s1).
Proof.
  unfold RedisClientForCancelSignal, reachable. destruct (sv_redis s) eqn:Er; [|intros [= <- <-]; split; [done|]; split; [done|]; by intros [[? [=]] _]].
  destruct (sv_pings s) as [|[u|e] ps] eqn:Ep; intros [= <- <-]; cbn; (split; [done|]); (split; [done|]); intros [_ F].
  - by rewrite Er, Ep.
  - apply List.Forall_cons_iff in F as [_ F]. split; [done|]. by split.
  - by apply List.Forall_cons_iff in F as [F _].
Qed.

(** The announcement of a cancelled task. *)
Definition announcement (t : WorkflowQueue) (reason : string) (withoutWorker : bool) (unreachable : Prop)
    (evs : list CancelEvent) : Prop :=
  if withoutWorker
  then evs = [CallbackTriggered t StatusCancelled reason] \/
       evs = [SignalPublished (wq_TaskID t) reason; CallbackTriggered t StatusCancelled reason]
  else evs = [SignalPublished (wq_TaskID t) reason] \/ evs = [] /\ unreachable.

Lemma announce_run t reason b c (s : Service (R := Cli)) r s' : announce_cancelled t reason b c s = (r, s') ->
  sv_world s' = sv_world s /\
  match r with
  | Ok _ => exists evs, sv_log s' = (sv_log s ++ evs)%list /\ announcement t reason b (c = false /\ ~ reachable s) evs
  | Err _ => sv_log s' = sv_log s
  end.
Proof.
  unfold announce_cancelled, triggerWorkflowTerminalCallbackOnApprovalActionAsync, sbind.
  destruct ((if c then sret (Ok tt) else stry RedisClientForCancelSignal) s) as [rc s1] eqn:Ec.
  assert (C : sv_world s1 = sv_world s /\ sv_log s1 = sv_log s /\
    exists client, rc = Ok client /\ (is_ok client = false -> c = false /\ ~ reachable s)).
  { destruct c.
    - injection Ec as <- <-. split; [done|]. split; [done|]. by exists (Ok tt).
    - unfold stry in Ec. destruct (RedisClientForCancelSignal s) as [rr ss] eqn:Er. injection Ec as <- <-.
      apply client_run in Er as (W & L & Hr). split; [done|]. split; [done|]. exists rr. split; [done|].
      intros F. split; [done|]. intros X. destruct (Hr X) as [Y _]. by rewrite Y in F. }
  clear Ec. destruct C as (W & L & client & -> & U).
  destruct client as [u|e].
  - unfold stry, PublishWorkflowCancelSignal. destruct (CancelWithClient _ _ _ _) as [r1|e1].
    + destruct b; intros [= <- <-]; cbn; (split; [done|]); rewrite L; eexists; rewrite <- ?app_assoc; (split; [reflexivity|]); [by right|by left].
    + destruct b; intros [= <- <-]; cbn; (split; [done|]); rewrite ?L; [|done]. eexists. split; [reflexivity|]. by left.
  - destruct b; intros [= <- <-]; cbn; (split; [done|]); rewrite ?L.
    + eexists. split; [reflexivity|]. by left.
    + exists []. rewrite app_nil_r. split; [done|]. right. split; [done|]. by apply U.
Qed.

Lemma advances_if_status t userName reason pending expected conflictErr b :
  advances (cancel_if_status t userName reason pending expected conflictErr b).
Proof.
  unfold cancel_if_status, UpdateTaskFieldsIfStatus, CompareAndSwap. apply advances_bind; [store_step|].
  intros []; cbn [negb]; [|store_step]. apply advances_bind; [destruct b; [apply advances_terminalize_cancelled|store_step]|].
  intros ?. store_step.
Qed.

(** What a request that ends in [r] has done. *)
Definition outcome (s s' : Service (R := Cli)) (r : result unit) : Prop :=
  match r with
  | Ok _ => cancelled id (w_db (sv_world s')) /\
      exists t reason withoutWorker evs, sv_log s' = (sv_log s ++ evs)%list /\
        announcement t reason withoutWorker (~ reachable s) evs /\ wq_TaskID t = id /\ wq_Status t = StatusCancelled /\
        (withoutWorker = true -> wq_RunToken t = ""%string /\ wq_WorkerID t = ""%string)
  | Err _ => sv_log s' = sv_log s
  end.

Lemma sdb_run {A} (m : M A) (P : Database -> Prop) (Post : A -> Database -> Prop) (s : Service (R := Cli)) r s1 :
  triple (cancel_kept id) P m (on_ok Post) -> env_respects (cancel_kept id) (w_env (sv_world s)) -> P (w_db (sv_world s)) ->
  sdb m s = (r, s1) ->
  sv_log s1 = sv_log s /\ sv_redis s1 = sv_redis s /\ sv_pings s1 = sv_pings s /\
  env_respects (cancel_kept id) (w_env (sv_world s1)) /\ match r with Ok a => Post a (w_db (sv_world s1)) | Err _ => True end.
Proof.
  intros T E Hp. unfold sdb. destruct (m (sv_world s)) as [r1 w1] eqn:Em. intros [= <- <-].
  destruct (T _ _ _ E Hp Em) as [Q E1]. repeat split; [exact E1|]. by destruct r1.
Qed.

(** The write and the announcement. *)
Lemma cancelled_in_store t userName reason expected conflictErr b err s r s' :
  env_respects (cancel_kept id) (w_env (sv_world s)) -> seen t (w_db (sv_world s)) ->
  cancel_in_store t userName reason expected conflictErr b err s = (r, s') -> outcome s s' r.
Proof.
  intros E S. unfold cancel_in_store. cbv zeta. set (why := if str_empty reason then _ else _).
  set (m := if negb _ then _ else _). assert (Ad : advances m).
  { unfold m. destruct (str_empty expected); cbn [negb]; [apply advances_cancel_attempts|apply advances_if_status]. }
  assert (T : triple (cancel_kept id) (seen t) m (on_ok (fun out => done (fst out)))).
  { unfold m. destruct (str_empty expected); cbn [negb]; [apply triple_attempts|apply triple_if_status]. }
  unfold sbind. destruct (sdb _ s) as [r1 s1] eqn:E1.
  destruct (sdb_run _ _ _ _ _ _ (triple_store_update t why m Ad T) E S E1) as (L1 & R1 & P1 & _ & D1).
  destruct r1 as [[current b']|e]; [|intros [= <- <-]; exact L1]. intros A. apply announce_run in A as (W & A).
  destruct r as [u|e]; [|red; congruence]. destruct A as (evs & L & A). destruct D1 as (I & _ & Ca). split; [by rewrite W|].
  exists (cancelled_task current userName (TerminalCallbackPendingReason why) b'), why, b', evs.
  split; [by rewrite L, L1|]. split; [|by destruct b']. unfold announcement in *. destruct b'; [exact A|]. destruct A as [A|[A [_ U]]]; [by left|right]. split; [exact A|].
  unfold reachable in *. by rewrite R1, P1 in U.
Qed.

Lemma outcome_from (s s1 s' : Service (R := Cli)) r : sv_log s1 = sv_log s -> (reachable s -> reachable s1) ->
  outcome s1 s' r -> outcome s s' r.
Proof.
  intros L U. unfold outcome. rewrite L. destruct r as [u|e]; [|done]. intros (C & t & why & b & evs & E & A & X).
  split; [exact C|]. exists t, why, b, evs. split; [exact E|]. split; [|exact X]. unfold announcement in *.
  destruct b; [exact A|]. destruct A as [A|[A N]]; [by left|right; auto].
Qed.

Lemma unavailable_run t expected conflictErr err (s : Service (R := Cli)) r s' : signal_unavailable t expected conflictErr err s = (r, s') ->
  sv_log s' = sv_log s /\ is_ok r = false.
Proof.
  unfold signal_unavailable, sthrow. destruct conflictErr as [conflict|]; [|by intros [= <- <-]].
  destruct (str_empty expected); [by intros [= <- <-]|]. unfold sbind, stry, sdb.
  destruct (TaskByID (wq_TaskID t) (sv_world s)) as [[row|e] w]; by intros [= <- <-].
Qed.

Lemma cancelled_request t userName reason expected conflictErr s r s' :
  env_respects (cancel_kept id) (w_env (sv_world s)) -> seen t (w_db (sv_world s)) ->
  cancelWorkflowTaskIfStatus t userName reason expected conflictErr s = (r, s') -> outcome s s' r.
Proof.
  intros E S. unfold cancelWorkflowTaskIfStatus. unfold sbind at 1. destruct (sdb (shouldCancelTask t) s) as [r1 s1] eqn:E1.
  destruct (sdb_run _ _ _ _ _ _ (triple_cancel_reads _ _ (seen_stable t) (read_only_cancellable t)) E S E1) as (L1 & R1 & P1 & En1 & S1).
  destruct r1 as [can|e]; [|intros [= <- <-]; exact L1]. destruct (negb can); [intros [= <- <-]; exact L1|].
  unfold sbind at 1.
  match goal with |- context [match ?m s1 with (r, s') => _ end] => destruct (m s1) as [r2 s2] eqn:E2 end.
  assert (X2 : sv_log s2 = sv_log s1 /\ sv_redis s2 = sv_redis s1 /\ sv_pings s2 = sv_pings s1 /\
    env_respects (cancel_kept id) (w_env (sv_world s2)) /\ match r2 with Ok _ => seen t (w_db (sv_world s2)) | Err _ => True end).
  { destruct (str_empty expected); [|by injection E2 as <- <-].
    exact (sdb_run _ _ _ _ _ _ (triple_cancel_reads _ _ (seen_stable t) (read_only_without_worker t)) En1 S1 E2). }
  clear E2. destruct X2 as (L2 & R2 & P2 & En2 & S2). destruct r2 as [b|e]; [|intros [= <- <-]; red; congruence].
  unfold sbind at 1, stry at 1. destruct (RedisClientForCancelSignal s2) as [client s3] eqn:E3. apply client_run in E3 as (W3 & L3 & U3).
  assert (U : reachable s -> is_ok client = true /\ reachable s3).
  { intros [X Y]. apply U3. split; [by rewrite R2, R1|by rewrite P2, P1]. }
  assert (Go : forall b err, cancel_in_store t userName reason expected conflictErr b err s3 = (r, s') -> outcome s s' r).
  { intros b' err A. apply (outcome_from s s3 s' r); [congruence|apply U|]. by eapply cancelled_in_store; [..|exact A]; rewrite W3. }
  destruct client as [u|e]; [apply Go|]. destruct b; [apply Go|]. intros A. apply unavailable_run in A as [L4 F].
  destruct r; [done|]. red. congruence.
Qed.
End Successful.

(** The requests that cancel task [id]. *)
Inductive cancel_request {Cli} `{Redis Cli} (id : string) : Sv (R := Cli) unit -> Prop :=
  | request_task userName reason : cancel_request id (CancelWorkflowTask userName id reason)
  | request_app appID userName reason : cancel_request id (CancelWorkflowTaskForApp appID userName id reason)
  | request_delayed appID userName reason : cancel_request id (CancelDelayedVersionTaskForApp appID userName id reason).

Section Requests.
Context (id : string) {Cli : Type} `{Redis Cli}.

Lemma loaded_request (k : WorkflowQueue -> Sv (R := Cli) unit) s r s' :
  env_respects (cancel_kept id) (w_env (sv_world s)) -> keyed (w_db (sv_world s)) ->
  sbind (sdb (TaskByID id)) k s = (r, s') ->
  (forall t s1, sv_log s1 = sv_log s -> (reachable s -> reachable s1) -> env_respects (cancel_kept id) (w_env (sv_world s1)) ->
     seen id t (w_db (sv_world s1)) -> k t s1 = (r, s') -> outcome id s1 s' r) -> outcome id s s' r.
Proof.
  intros E K Em Hk. unfold sbind in Em. destruct (sdb (TaskByID id) s) as [r1 s1] eqn:E1.
  destruct (sdb_run id _ _ _ _ _ _ (triple_load id) E K E1) as (L1 & R1 & P1 & En1 & S1).
  destruct r1 as [t|e]; [|by injection Em as <- <-].
  apply (outcome_from id s s1); [exact L1|by unfold reachable; rewrite R1, P1|]. apply (Hk t s1); auto. unfold reachable. by rewrite R1, P1.
Qed.

Lemma request_outcome m (s : Service (R := Cli)) r s' : cancel_request id m ->
  env_respects (cancel_kept id) (w_env (sv_world s)) -> keyed (w_db (sv_world s)) -> m s = (r, s') -> outcome id s s' r.
Proof.
  intros Hm E K Em. destruct Hm as [userName reason|appID userName reason|appID userName reason].
  - eapply loaded_request; [exact E|exact K|exact Em|]. cbv beta. intros t s1 _ _ E1 S1 Ek.
    eapply cancelled_request; [exact E1|exact S1|exact Ek].
  - unfold CancelWorkflowTaskForApp in Em. destruct (str_empty id); [by injection Em as <- <-|].
    eapply loaded_request; [exact E|exact K|exact Em|]. cbv beta. intros t s1 _ _ E1 S1 Ek.
    destruct (_ || _); [by injection Ek as <- <-|]. eapply cancelled_request; [exact E1|exact S1|exact Ek].
  - unfold CancelDelayedVersionTaskForApp in Em. destruct (str_empty id); [by injection Em as <- <-|].
    eapply loaded_request; [exact E|exact K|exact Em|]. cbv beta. intros t s1 _ _ E1 S1 Ek.
    destruct (_ || _); [by injection Ek as <- <-|].
    apply (outcome_from id _ (Build_Service (sv_world s1) (sv_redis s1) (sv_pings s1) (sv_log s1))); [done|done|].
    unfold sbind, sdb, wall_clock in Ek. destruct (_ || _); [by injection Ek as <- <-|].
    eapply cancelled_request; [exact E1|exact S1|exact Ek].
Qed.
End Requests.

(** C15: a cancellation that succeeds is real and announced.  Let the other sessions leave a
    cancelled task cancelled.  When a request to cancel a task returns without an error, the
    task is cancelled in the store, or gone.  If no worker had it, its terminal callback was
    triggered, exactly once, with an owner-free snapshot of the cancelled task; if a worker
    may have it, the cancellation signal was published under the task's identifier, unless
    Redis could not be reached.  A request that fails publishes and triggers nothing. *)
Theorem cancel_is_announced :
  forall Cli (redis : Redis Cli) id (m : Sv (R := Cli) unit) s r s',
    cancel_request id m -> env_respects (cancel_kept id) (w_env (sv_world s)) -> keyed (w_db (sv_world s)) ->
    m s = (r, s') ->
    match r with
    | Err _ => sv_log s' = sv_log s
    | Ok _ =>
        (forall row, db_queue (w_db (sv_world s')) !! id = Some row -> wq_Status row = StatusCancelled) /\
        exists t reason evs, sv_log s' = (sv_log s ++ evs)%list /\ wq_TaskID t = id /\ wq_Status t = StatusCancelled /\
          (wq_RunToken t = ""%string /\ wq_WorkerID t = ""%string /\
             (evs = [CallbackTriggered t StatusCancelled reason] \/
              evs = [SignalPublished id reason; CallbackTriggered t StatusCancelled reason]) \/
           evs = [SignalPublished id reason] \/
           evs = [] /\ ~ (is_Some (sv_redis s) /\ List.Forall (fun ping => is_ok ping = true) (sv_pings s)))
    end.
Proof.
  intros Cli redis id m s r s' Hm E K Em. pose proof (request_outcome id m s r s' Hm E K Em) as O.
  destruct r as [u|e]; [|exact O]. destruct O as (C & t & reason & b & evs & L & A & I & S & Ow).
  split; [exact C|]. exists t, reason, evs. repeat (split; [done|]). unfold announcement in A. rewrite I in A.
  destruct b; [left|right; exact A]. by destruct (Ow eq_refl).
Qed.

(** ** The durable intent of a callback *)

(** Task [id] is cancelled in generation [g] and its terminal callback is still to be sent. *)
Definition intent (id : string) (g : Z) (d : Database) : Prop :=
  exists r, db_queue d !! id = Some r /\ wq_TaskID r = id /\ wq_Status r = StatusCancelled /\ wq_RunGeneration r = g /\
    IsTerminalCallbackPending (wq_SchedulingReason r) = true.

Definition intent_kept (id : string) (g : Z) (d d' : Database) : Prop := intent id g d -> intent id g d'.

#[export] Instance intent_queue id g : QueueRelation (intent_kept id g).
Proof.
  split; [split; unfold intent_kept; eauto|]. intros d d' E (r & L & X). exists r. by rewrite E.
Qed.

Section Intent.
Context (id : string) (g : Z) {Callback : Type}.
Context (load : WorkflowQueue -> M (option Callback)) (run : WorkflowQueue -> string -> string -> Callback -> M unit).
Hypothesis load_keeps : forall task, guarantees (intent_kept id g) (load task).
Hypothesis run_keeps : forall task status reason callback, guarantees (intent_kept id g) (run task status reason callback).

(** A replay that has not reported success. *)
Definition unsettled (r : result bool) (d : Database) : Prop := r <> Ok true -> intent id g d.

Lemma triple_kept {A} (m : M A) : guarantees (intent_kept id g) m -> triple (intent_kept id g) (intent id g) m (fun _ => intent id g).
Proof. intros G w r w' E Hp Em. destruct (guarantees_run _ _ _ _ _ G Em E) as [G' Ad]. split; [by apply G'|exact Ad]. Qed.

Lemma unsettled_then {A} (m : M A) (k : A -> M bool) : guarantees (intent_kept id g) m ->
  (forall a, triple (intent_kept id g) (intent id g) (k a) unsettled) -> triple (intent_kept id g) (intent id g) (bind m k) unsettled.
Proof.
  intros Hm Hk. apply triple_bind with (Mid := fun _ => intent id g); [|exact Hk].
  eapply triple_weaken; [..|apply (triple_kept m Hm)]; [done|]. intros [a|e] d Hd; [exact Hd|intros _; exact Hd].
Qed.

Lemma triple_reconcile task status reason :
  status = StatusCancelled -> IsTerminalCallbackPending (wq_SchedulingReason task) = true -> wq_TaskID task = id ->
  triple (intent_kept id g) (intent id g) (reconcileWorkflowTerminalCallback load run task status reason) unsettled.
Proof.
  intros -> P I. unfold reconcileWorkflowTerminalCallback. rewrite P. cbn [negb orb String.eqb].
  change (negb (StatusCancelled =? StatusCancelled)%string || false) with false. cbv beta iota.
  assert (Keep : forall b, triple (intent_kept id g) (intent id g) (ret b) unsettled) by (intros b; apply triple_ret; intros d Hd _; exact Hd).
  assert (Ro : forall A (m : M A), read_only m -> guarantees (intent_kept id g) m) by (intros A m; apply queue_ro).
  apply unsettled_then; [apply Ro; auto with store|]. intros current.
  destruct (_ || _ || _); [apply Keep|]. destruct (_ || _); [apply Keep|].
  apply unsettled_then; [apply load_keeps|]. intros callback.
  apply unsettled_then; [apply Ro; unfold workflowHasActiveChildExecution, jobs_of_task; store_step|].
  intros active. destruct active; [apply Keep|].
  apply unsettled_then; [apply queue_terminalize, _|]. intros _.
  apply unsettled_then; [apply Ro; unfold terminalCallbackJobSettled; store_step|]. intros settled.
  apply unsettled_then; [destruct callback; [destruct settled; [apply Ro; auto with store|apply run_keeps]|apply Ro; auto with store]|].
  intros _. apply triple_bind with (Mid := fun (updated : bool) d => updated = false -> intent id g d).
  - apply triple_wrap. unfold UpdateTaskFieldsIfConditions. destruct (negb _); [|apply triple_throw; intros d Hd _; exact Hd].
    apply triple_cas; [apply _|intros d d' K Hd; exact (K Hd)|intros e d _ Hd _; exact Hd|intros d Hd _ _; exact Hd|done].
  - intros []; [apply triple_ret; intros d _ N; by destruct N|]. apply triple_throw. intros d Hd _. by apply Hd.
Qed.
End Intent.

(** C21: the intent of a callback is durable.  When a cancelled task still has its terminal
    callback to send, and the other sessions, the loading of the callback and its delivery
    keep that intent, a replay that does not report success leaves the intent in the store:
    whatever fails, the configuration, the records of the jobs, the delivery or the final
    write, the next replay finds the callback again. *)
Theorem callback_intent_is_durable :
  forall Callback (load : WorkflowQueue -> M (option Callback)) run id g task w r w',
    (forall t, guarantees (intent_kept id g) (load t)) ->
    (forall t status reason callback, guarantees (intent_kept id g) (run t status reason callback)) ->
    wq_TaskID task = id -> IsTerminalCallbackPending (wq_SchedulingReason task) = true ->
    env_respects (intent_kept id g) (w_env w) -> intent id g (w_db w) ->
    ReconcileWorkflowTerminalCallback load run task w = (r, w') -> r <> Ok true ->
    exists row, db_queue (w_db w') !! id = Some row /\ wq_Status row = StatusCancelled /\ wq_RunGeneration row = g /\
      IsTerminalCallbackPending (wq_SchedulingReason row) = true.
Proof.
  intros Callback load run id g task w r w' Hl Hr I P E Hi Em N.
  assert (X : intent id g (w_db w')).
  { unfold ReconcileWorkflowTerminalCallback in Em. destruct (_ || _); [by injection Em as <- <-|].
    by apply (triple_reconcile id g load run Hl Hr task StatusCancelled ""%string eq_refl P I w r w' E Hi Em). }
  destruct X as (row & L & _ & S & G & Q). by exists row.
Qed.

(** ** Witnesses *)

(** A queued task without a worker, and a Redis that does not answer. *)
Definition sample_service (env : list EnvEvent) : Service (R := MapRedis) :=
  Build_Service (Build_World (sample_db sample_queued) env 0) (Some ∅) [Err ContextCanceled; Err ContextCanceled] [].

Lemma sample_service_keyed env : keyed (w_db (sv_world (sample_service env))).
Proof. intros x r. cbn. intros L. apply lookup_singleton_Some in L as [<- <-]. reflexivity. Qed.

Lemma sample_cancel_kept d : cancel_kept "task" d (sample_cancel d).
Proof.
  unfold sample_cancel. destruct (db_queue d !! "task"%string) as [r|] eqn:L; [|reflexivity].
  destruct (jobSchedulingTerminal (wq_Status r)) eqn:T; [reflexivity|]. split.
  - intros K x r'. cbn. destruct (decide ("task"%string = x)) as [<-|N].
    + rewrite lookup_insert_eq. intros [= <-]. exact (K _ _ L).
    + rewrite lookup_insert_ne by done. apply K.
  - intros _ r'. cbn. rewrite lookup_insert_eq. by intros [= <-].
Qed.

(** The task is cancelled without Redis, and its callback is triggered. *)
Lemma cancel_is_announced_witness :
  let m := CancelWorkflowTask (R := MapRedis) "alice" "task" "" in
  let s' := snd (m (sample_service [EnvQuiet])) in
  fst (m (sample_service [EnvQuiet])) = Ok tt /\
  (forall row, db_queue (w_db (sv_world s')) !! "task"%string = Some row -> wq_Status row = StatusCancelled) /\
  length (sv_log s') = 1%nat.
Proof.
  intros m s'. assert (F : fst (m (sample_service [EnvQuiet])) = Ok tt) by (vm_compute; reflexivity).
  split; [exact F|]. split; [|vm_compute; reflexivity].
  pose proof (cancel_is_announced MapRedis _ "task" m (sample_service [EnvQuiet]) (fst (m (sample_service [EnvQuiet]))) s'
    (request_task "task" "alice" "") ltac:(constructor; [intros d; exact (reflexivity d)|constructor]) (sample_service_keyed _)
    (surjective_pairing _)) as C.
  rewrite F in C. exact (proj1 C).
Defined.

(** The same request while another session cancels the task: it stays ended. *)
Lemma cancellation_respects_everyone_witness :
  let s := sample_service [EnvQuiet; EnvWrite sample_cancel] in
  let s' := snd (CancelWorkflowTask (R := MapRedis) "alice" "task" "" s) in
  commits (task_protocol "task") (sv_world s) (sv_world s') /\
  exists row, db_queue (w_db (sv_world s')) !! "task"%string = Some row /\ jobSchedulingTerminal (wq_Status row) = true.
Proof.
  intros s s'. destruct (cancellation_respects_everyone MapRedis _ unit (CancelWorkflowTask "alice" "task" "") s
    ltac:(constructor)) as [T _]. destruct (T "task"%string) as [C T1]. split; [exact C|].
  destruct (T1 sample_env_respects) as [_ La].
  assert (B : (wq_RunGeneration <$> db_queue (w_db (sv_world s')) !! "task"%string) = Some (wq_RunGeneration sample_queued))
    by (vm_compute; reflexivity).
  assert (N : w_env (sv_world s') = []) by (vm_compute; reflexivity).
  fold s' in La. revert B N La. generalize s'. intros x B N La.
  destruct (db_queue (w_db (sv_world x)) !! "task"%string) as [row|] eqn:L; [|discriminate B]. injection B as G.
  exists row. split; [reflexivity|]. eapply sample_ended; [exact La|reflexivity|exact N|reflexivity|exact L|exact G].
Defined.

Definition sample_pending : WorkflowQueue :=
  sample_queued <| wq_Status := StatusCancelled |> <| wq_RunToken := ""%string |>
    <| wq_SchedulingReason := TerminalCallbackPendingReason "stop" |>.

(** The delivery fails: the intent stays. *)
Lemma callback_intent_is_durable_witness :
  let replay := ReconcileWorkflowTerminalCallback (fun _ => ret (Some tt)) (fun _ _ _ _ => throw ErrDatabase) sample_pending in
  let out := replay (seqw (sample_db sample_pending) 0) in
  fst out = Err ErrDatabase /\
  exists row, db_queue (w_db (snd out)) !! "task"%string = Some row /\ IsTerminalCallbackPending (wq_SchedulingReason row) = true.
Proof.
  intros replay out. assert (F : fst out = Err ErrDatabase) by (vm_compute; reflexivity). split; [exact F|].
  destruct (callback_intent_is_durable unit (fun _ => ret (Some tt)) (fun _ _ _ _ => throw ErrDatabase) "task"
    (wq_RunGeneration sample_pending) sample_pending (seqw (sample_db sample_pending) 0) (fst out) (snd out))
    as (row & L & _ & _ & Q).
  - intros t. apply guarantees_read_only; [apply read_only_ret].
  - intros t st why cb. apply guarantees_read_only; [apply read_only_throw].
  - reflexivity.
  - vm_compute. reflexivity.
  - constructor.
  - exists sample_pending. repeat split; vm_compute; reflexivity.
  - apply surjective_pairing.
  - rewrite F. discriminate.
  - exists row. split; [exact L|exact Q].
Defined.
