(* ===== verification/CallbackReplay.v ===== *)
(** The replay of terminal callbacks by the controller's loop: [startTerminalCallbackRecovery] of
    [pkg/apiserver/event/workflow/workflow.go].

    One goroutine lists pages of cancelled tasks whose callback is still to be sent and
    starts a goroutine for each, at most [maxActive] of them; a finished goroutine sends its
    result through a buffered channel, unless the process stops first.  The state is the
    loop's variables, the running goroutines, the channel and the context;
    [replay_step] has an action of one of them. *)

From S2P Require Import Prelude GoStrings.
From stdpp Require Import gmap sets.

Definition batchSize : nat := 100.
Definition maxActive : nat := 8.

Record Replay := {
  rp_active : gset string;
  rp_pending : list string;   (* the identifiers of the listed tasks *)
  rp_page : Z;
  rp_running : list string;   (* the goroutines *)
  rp_results : list string;   (* the channel *)
  rp_done : bool;             (* [ctx.Done()] is closed *)
  rp_stopped : bool;          (* the loop has returned *)
}.

#[export] Instance eta_Replay : Settable Replay := fun s =>
  Build_Replay (rp_active s) (rp_pending s) (rp_page s) (rp_running s) (rp_results s) (rp_done s) (rp_stopped s).

(** [for len(pending) > 0 && len(active) < maxActive] *)
Fixpoint start_pending (active : gset string) (running pending : list string) : gset string * list string * list string :=
  match pending with
  | [] => (active, running, [])
  | id :: rest =>
      if (size active <? maxActive)%nat then
        if str_empty id || bool_decide (id ∈ active) then start_pending active running rest
        else start_pending ({[id]} ∪ active) (running ++ [id])%list rest
      else (active, running, pending)
  end.

Definition start_all (s : Replay) (page : Z) (pending : list string) : Replay :=
  let '(active, running, pending) := start_pending (rp_active s) (rp_running s) pending in
  s <| rp_active := active |> <| rp_pending := pending |> <| rp_page := page |> <| rp_running := running |>.

(** [schedule]; [answer] is what a listing of the page answers. *)
Definition schedule (answer : result (list string)) (s : Replay) : Replay :=
  if (maxActive <=? size (rp_active s))%nat then s else
  match rp_pending s with
  | [] =>
      match answer with
      | Err _ => s
      | Ok tasks => start_all s (if (length tasks <? batchSize)%nat then 1 else i64 (rp_page s + 1)) tasks
      end
  | pending => start_all s (rp_page s) pending
  end.

Definition replay_start : Replay := Build_Replay ∅ [] 1 [] [] false false.

Inductive replay_step : Replay -> Replay -> Prop :=
  | replay_tick s answer : rp_stopped s = false -> replay_step s (schedule answer s)
  | replay_send s before id after :   (* the channel has room *)
      rp_running s = (before ++ id :: after)%list -> (length (rp_results s) < maxActive)%nat ->
      replay_step s (s <| rp_running := (before ++ after)%list |> <| rp_results := (rp_results s ++ [id])%list |>)
  | replay_drop s before id after :   (* the process stops: the result is dropped *)
      rp_running s = (before ++ id :: after)%list -> rp_done s = true ->
      replay_step s (s <| rp_running := (before ++ after)%list |>)
  | replay_receive s id rest :
      rp_stopped s = false -> rp_results s = id :: rest ->
      replay_step s (s <| rp_active := rp_active s ∖ {[id]} |> <| rp_results := rest |>)
  | replay_shutdown s : replay_step s (s <| rp_done := true |>)
  | replay_exit s : rp_done s = true -> replay_step s (s <| rp_stopped := true |>).

Inductive replay_reachable : Replay -> Prop :=
  | replay_initial answer : replay_reachable (schedule answer replay_start)
  | replay_next s s' : replay_reachable s -> replay_step s s' -> replay_reachable s'.

(** ** What every interleaving keeps *)

(** The goroutines and the results on their way. *)
Definition flights (s : Replay) : list string := (rp_running s ++ rp_results s)%list.

Definition replay_ok (s : Replay) : Prop :=
  NoDup (flights s) /\ (forall id, id ∈ flights s -> id ∈ rp_active s) /\ (size (rp_active s) <= maxActive)%nat /\
  (rp_done s = false -> forall id, id ∈ rp_active s -> id ∈ flights s).

Lemma start_pending_spec pending active running results active' running' pending' :
  NoDup (running ++ results) -> (forall id, id ∈ running ++ results -> id ∈ active) -> (size active <= maxActive)%nat ->
  start_pending active running pending = (active', running', pending') ->
  NoDup (running' ++ results) /\ (forall id, id ∈ running' ++ results -> id ∈ active') /\
  (size active' <= maxActive)%nat /\ active ⊆ active' /\
  (forall id, id ∈ active' -> id ∈ active \/ id ∈ running' ++ results) /\
  (forall id, id ∈ running ++ results -> id ∈ running' ++ results) /\
  (forall id, id ∈ pending -> id <> ""%string -> id ∈ active' \/ id ∈ pending').
Proof.
  revert active running. induction pending as [|id rest IH]; intros active running N A B; cbn [start_pending].
  - intros [= <- <- <-]. split; [done|]. split; [done|]. split; [done|]. split; [done|]. split; [auto|]. split; [auto|].
    intros id Hid. by apply not_elem_of_nil in Hid.
  - destruct (size active <? maxActive)%nat eqn:C.
    2: { intros [= <- <- <-]. repeat split; auto. }
    apply Nat.ltb_lt in C. destruct (str_empty id || bool_decide (id ∈ active)) eqn:D.
    + intros E. destruct (IH _ _ N A B E) as (N' & A' & B' & S & F & K & P). repeat split; [done..|].
      intros x Hx Nx. apply elem_of_cons in Hx as [->|Hx]; [|by apply P]. left. apply S.
      apply orb_true_iff in D as [D|D]; [|by apply bool_decide_eq_true in D]. unfold str_empty in D.
      by apply String.eqb_eq in D.
    + apply orb_false_iff in D as [_ D]. apply bool_decide_eq_false in D. intros E.
      assert (Nf : id ∉ (running ++ results)%list) by (intros X; by apply D, A).
      assert (El : forall x, x ∈ ((running ++ [id]) ++ results)%list <-> x = id \/ x ∈ (running ++ results)%list).
      { intros x. rewrite !elem_of_app, list_elem_of_singleton. tauto. }
      destruct (IH ({[id]} ∪ active) (running ++ [id])%list) with (4 := E) as (N' & A' & B' & S & F & K & P).
      * rewrite <- app_assoc. cbn. rewrite <- Permutation_middle. by constructor.
      * intros x X. apply El in X as [->|X]; [set_solver|]. specialize (A x X). set_solver.
      * rewrite size_union by set_solver. rewrite size_singleton. lia.
      * split; [done|]. split; [done|]. split; [done|]. split; [set_solver|]. split; [|split].
        -- intros x X. destruct (F x X) as [Y|Y]; [|by right]. apply elem_of_union in Y as [Y|Y]; [|by left].
           apply elem_of_singleton in Y as ->. right. apply K, El. by left.
        -- intros x X. apply K, El. by right.
        -- intros x Hx Nx. apply elem_of_cons in Hx as [->|Hx]; [|by apply P]. left. apply S. set_solver.
Qed.

(** A tick: what it keeps, and that every task it listed is under way or pending. *)
Lemma schedule_spec answer s : replay_ok s ->
  replay_ok (schedule answer s) /\
  forall tasks id, answer = Ok tasks -> (size (rp_active s) < maxActive)%nat -> rp_pending s = [] ->
    id ∈ tasks -> id <> ""%string -> id ∈ rp_active (schedule answer s) \/ id ∈ rp_pending (schedule answer s).
Proof.
  intros Inv. pose proof Inv as (N & A & B & D). unfold schedule. destruct (maxActive <=? size (rp_active s))%nat eqn:C.
  { apply Nat.leb_le in C. split; [done|]. intros tasks id _ X. lia. }
  assert (Go : forall page pending, replay_ok (start_all s page pending) /\
    forall id, id ∈ pending -> id <> ""%string -> id ∈ rp_active (start_all s page pending) \/ id ∈ rp_pending (start_all s page pending)).
  { intros page pending. unfold start_all. destruct (start_pending _ _ pending) as [[active running] rest] eqn:E.
    destruct (start_pending_spec _ _ _ _ _ _ _ N A B E) as (N' & A' & B' & S & F & K & P). split; [|exact P].
    split; [exact N'|]. split; [exact A'|]. split; [exact B'|]. intros Nd id X. destruct (F id X) as [Y|Y]; [|exact Y].
    apply K. by apply D. }
  destruct (rp_pending s) as [|p ps] eqn:Ep.
  - destruct answer as [tasks|e].
    + destruct (Go (if (length tasks <? batchSize)%nat then 1%Z else i64 (rp_page s + 1)) tasks) as (G & P).
      split; [exact G|]. intros tasks' id [= <-] _ _. apply P.
    + split; [done|]. by intros tasks id [=].
  - destruct (Go (rp_page s) (p :: ps)) as (G & _). split; [exact G|]. done.
Qed.

Lemma step_ok s s' : replay_step s s' -> replay_ok s -> replay_ok s'.
Proof.
  intros [s0 answer _|s0 before id after E C|s0 before id after E C|s0 id rest _ E|s0|s0 _] Ok0;
    [by apply schedule_spec|..]; destruct Ok0 as (N & A & B & D); unfold replay_ok, flights in *; cbn.
  - rewrite E in N, A, D. assert (P : (before ++ after) ++ rp_results s0 ++ [id] ≡ₚ (before ++ id :: after) ++ rp_results s0).
    { solve_Permutation. }
    split; [by rewrite P|]. split; [intros x; rewrite P; apply A|]. split; [exact B|]. intros Nd x X. rewrite P. by apply D.
  - rewrite E in N, A. assert (P : (before ++ id :: after) ++ rp_results s0 ≡ₚ id :: ((before ++ after) ++ rp_results s0)).
    { solve_Permutation. }
    rewrite P in N. apply NoDup_cons in N as [_ N]. split; [exact N|]. split; [|split; [exact B|congruence]].
    intros x X. apply A. rewrite P. by right.
  - rewrite E in N, A, D. assert (P : rp_running s0 ++ id :: rest ≡ₚ id :: (rp_running s0 ++ rest)) by (by rewrite Permutation_middle).
    rewrite P in N. apply NoDup_cons in N as [Nx N]. split; [exact N|]. split; [|split].
    + intros x X. apply elem_of_difference. split; [apply A; rewrite P; by right|]. intros ->%elem_of_singleton. done.
    + etrans; [|exact B]. apply subseteq_size. set_solver.
    + intros Nd x [X Ne]%elem_of_difference. specialize (D Nd x X). rewrite P in D. apply elem_of_cons in D as [->|D]; [|done].
      by destruct Ne; apply elem_of_singleton.
  - done.
  - done.
Qed.

Lemma reachable_ok s : replay_reachable s -> replay_ok s.
Proof.
  induction 1 as [answer|s s' _ IH St]; [|by apply (step_ok s)]. apply schedule_spec.
  split; [constructor|]. split; [intros id X; by apply not_elem_of_nil in X|]. split; [vm_compute; lia|]. intros _ id X. set_solver.
Qed.

(** C20: the replay of callbacks is bounded and exact.  In every state the loop and its
    goroutines can reach, whatever the listings answer, however the goroutines
    interleave and whenever the process stops: at most eight replays are under way, at
    most one for each task, all of them known to the loop as active, which until the
    process stops knows no others; a goroutine that has its result can always send it,
    so none blocks on the channel; a listing loses no task: after a tick that listed a
    page, each of its tasks is under way or still pending; and once the process stops
    the loop can return. *)
Theorem replay_bounded_and_exact :
  forall s, replay_reachable s ->
    NoDup (rp_running s ++ rp_results s) /\
    (length (rp_running s) + length (rp_results s) <= maxActive)%nat /\
    (forall id, id ∈ (rp_running s ++ rp_results s)%list -> id ∈ rp_active s) /\
    (rp_done s = false -> forall id, id ∈ rp_active s <-> id ∈ (rp_running s ++ rp_results s)%list) /\
    (forall before id after, rp_running s = (before ++ id :: after)%list -> exists s', replay_step s s' /\
       rp_running s' = (before ++ after)%list /\ rp_results s' = (rp_results s ++ [id])%list) /\
    (forall tasks id, (size (rp_active s) < maxActive)%nat -> rp_pending s = [] -> id ∈ tasks -> id <> ""%string ->
       id ∈ rp_active (schedule (Ok tasks) s) \/ id ∈ rp_pending (schedule (Ok tasks) s)) /\
    (rp_done s = true -> exists s', replay_step s s' /\ rp_stopped s' = true).
Proof.
  intros s Hr. pose proof (reachable_ok s Hr) as Inv. pose proof Inv as (N & A & B & D). unfold flights in *.
  assert (L : (length (rp_running s) + length (rp_results s) <= maxActive)%nat).
  { rewrite <- length_app, <- (size_list_to_set (C := gset string)) by exact N. etrans; [|exact B]. apply subseteq_size.
    intros x X%elem_of_list_to_set. by apply A. }
  split; [exact N|]. split; [exact L|]. split; [exact A|]. split; [intros Nd id; split; [by apply D|apply A]|]. split; [|split].
  - intros before id after E. eexists. split; [apply (replay_send s before id after E)|by split].
    rewrite E, length_app in L. cbn in L. lia.
  - intros tasks id C P Hid Ne. destruct (schedule_spec (Ok tasks) s Inv) as (_ & X). by eapply X.
  - intros Dn. eexists. split; [by apply replay_exit|done].
Qed.

Lemma replay_bounded_and_exact_witness :
  let s := schedule (Ok ["a"; "b"; "a"]%string) replay_start in
  NoDup (rp_running s ++ rp_results s) /\ rp_running s = ["a"; "b"]%string.
Proof.
  intros s. split; [|vm_compute; reflexivity].
  exact (proj1 (replay_bounded_and_exact s (replay_initial _))).
Defined.
