(* ===== verification/CancelRecovery.v ===== *)
(** Cancelled jobs whose Kubernetes objects are still to be removed:
    [CleanupRecoveredCancelledJobsPage], its record and the CronJob part of
    [pkg/apiserver/event/workflow/job/jobexec/cancel_recovery.go], and the loop
    [startCancelledWorkflowRecovery] of [event/workflow/workflow.go] that calls it.

    When an expired owner of a cancelled task is recovered, its jobs are left as
    cancelled with the reason [cancelledJobCleanupPending]; the loop looks for such
    records page by page, removes the object of each and marks the record.  Requests go to
    the cluster of [KubeJobs]; [CronCluster] is its part on CronJobs.

    A page is cleaned under one context with a deadline, [DelTimeOut], that all its calls
    share: [within] is a call under it.  Its time can be over at any look and at the end of
    any wait, and then every later call of the page fails. *)

From S2P Require Import Prelude GoStrings Config Json Quantity Policy Model Store Lease Budget.
From S2P Require Import Signals Scheduler PodResources Retry Cleanup JobInfos Components Controller JobExec RunJob KubeJobs.

(** What the API server answers to requests on CronJobs. *)
Record CronCluster (Q : Type) := {
  on_get_cron : list (KubeEvent Q) -> string -> string -> result CronJob;
  on_create_cron : list (KubeEvent Q) -> CronJob -> result CronJob;
  on_update_cron : list (KubeEvent Q) -> CronJob -> result CronJob;
  on_delete_cron : list (KubeEvent Q) -> string -> string -> option string -> option error;
}.
Arguments on_get_cron {Q}.
Arguments on_create_cron {Q}.
Arguments on_update_cron {Q}.
Arguments on_delete_cron {Q}.

(** The columns the page is selected by. *)
Definition cancelled_cleanup_options (page pageSize : Z) : ListOptions :=
  Build_ListOptions
    (Build_FilterOptions
      [("type", [VStr JobDeployInstant; VStr JobCommand; VStr JobEval; VStr JobDeployScheduled]);
       ("status", [VStr StatusCancelled]); ("scheduling_reason", [VStr cancelledJobCleanupPending])]%string [] [])
    page pageSize [("update_time"%string, SortOrderAscending)].

(** The namespace of the job's workspace, by the record or by its application. *)
Definition cancelled_namespace (record : JobInfo) : M string :=
  let! spaceID :=
    (if str_empty (job_WorkspaceID record) && negb (str_empty (job_AppID record)) then
       let! app := wrap_error "load cancelled Job application" (Get (E := Applications) (job_AppID record)) in
       ret (app_WorkspaceID app)
     else ret (job_WorkspaceID record)) in
  guard! negb (str_empty spaceID) else Errorf "cancelled Kubernetes Job workspace is missing";
  let! space := wrap_error "load cancelled Job workspace" (Get (E := Workspace) spaceID) in
  guard! negb (blank (ws_Namespace space)) else Errorf "cancelled Kubernetes Job namespace is missing";
  ret (ws_Namespace space).

Definition CancelledCronJobMatches (record : JobInfo) (live : CronJob) : bool :=
  match job_ExecutionKey record with
  | None => false
  | Some key =>
      negb (str_empty (cj_UID live)) &&
      (str_get (cj_Annotations live) AnnotationJobTaskID =? job_TaskID record)%string &&
      (str_get (cj_Annotations live) AnnotationJobExecutionKey =? key)%string &&
      (str_get (cj_Annotations live) AnnotationJobRunGeneration =? FormatUint (job_RunGeneration record) 10)%string &&
      (str_get (cj_Annotations live) AnnotationJobAttempt =? FormatUint (job_Attempt record) 10)%string
  end.

Section CancelRecovery.
Context {Q : Type} `{QuantityOps Q} `{KubernetesJson Q}.
Variable client : option (Cluster Q).
Variable crons : CronCluster Q.
Variable decode_job : Json -> option (Job Q).
Variable order : JobRetryPolicy Q -> list (string * Z).

(** A call under the page's context. *)
Definition within {A} (call : K Q (result A)) : K Q (result A) :=
  kube! stopped := detached_ctx in
  match stopped with Some e => kerr e | None => call end.

(** ** [client.BatchV1().CronJobs(namespace)] *)

Definition cron_Get (namespace name : string) : K Q (result CronJob) :=
  kube! k := kget in
  match client with
  | None => kerr no_client
  | Some _ =>
      let live := on_get_cron crons (kr_log k) namespace name in
      kube! _ := note (KvCron (CvGet namespace name live)) in kret live
  end.

Definition cron_Create (cron : CronJob) : K Q (result CronJob) :=
  kube! k := kget in
  match client with
  | None => kerr no_client
  | Some _ =>
      let created := on_create_cron crons (kr_log k) cron in
      kube! _ := note (KvCron (CvCreate cron created)) in kret created
  end.

Definition cron_Update (cron : CronJob) : K Q (result CronJob) :=
  kube! k := kget in
  match client with
  | None => kerr no_client
  | Some _ =>
      let updated := on_update_cron crons (kr_log k) cron in
      kube! _ := note (KvCron (CvUpdate cron updated)) in kret updated
  end.

(** With a UID, in the foreground and with the UID as precondition. *)
Definition cron_Delete (namespace name : string) (uid : option string) : K Q (result unit) :=
  kube! k := kget in
  match client with
  | None => kerr no_client
  | Some _ =>
      let err := on_delete_cron crons (kr_log k) namespace name uid in
      kube! _ := note (KvCron (CvDelete namespace name uid err)) in
      kret (match err with Some e => Err e | None => Ok tt end)
  end.

Definition DeleteCancelledKubernetesCronJob (namespace : string) (live : CronJob) : K Q (result unit) :=
  let uid := cj_UID live in
  let wait := waitForCancelledKubernetesResourceDeletion
    (must! current := cron_Get namespace (cj_Name live) in kok (cj_UID current)) uid "CronJob" in
  kube! r := cron_Delete namespace (cj_Name live) (Some uid) in
  match r with
  | Err e => if errors_is ErrNotFound e then wait else kerr (Wrapf "delete cancelled Kubernetes CronJob" e)
  | Ok _ => wait
  end.

(** ** One record *)

(** Its checkpoint knows the Job's name, and must agree on the namespace. *)
Definition cancelled_resource (record : JobInfo) (key namespace : string) : result string :=
  check! resourceName <-
    (if HasInstantJobRetryCheckpoint (Some record) then
       check! checkpoint <- DecodeInstantJobRetryCheckpoint decode_job order (Some (task_of record key));
       let job := default job_zero (rc_Job checkpoint) in
       if negb (kj_Namespace job =? namespace)%string
       then Err (Errorf "cancelled Kubernetes Job checkpoint namespace changed") else Ok (kj_Name job)
     else Ok (TrimSpace (job_ServiceName record)));
  if str_empty resourceName then Err (Errorf "cancelled Kubernetes Job name is missing") else Ok resourceName.

Definition finish (record : JobInfo) (outcome : string) : K Q (result unit) :=
  within (kdb (finishCancelledJobCleanup record outcome)).

(** The Job is the execution's: it is removed. *)
Definition remove_cancelled_job (record : JobInfo) (namespace : string) (live : Job Q) : K Q (result unit) :=
  must! _ := kwrap (Wrapf "validate cancelled Kubernetes Job checkpoint")
    (kret (if HasInstantJobRetryCheckpoint (Some record)
           then ValidateInstantJobRetryExecution decode_job order (Some record) (Some live) else Ok tt)) in
  must! _ := within (deleteCancelledKubernetesJob client namespace live) in
  finish record CancelledJobCleanupComplete.

(** No Job of the execution: its CronJob, for a scheduled job. *)
Definition remove_cancelled_cron (record : JobInfo) (namespace : string) (replacementJob : bool) : K Q (result unit) :=
  let no_cron := finish record (if replacementJob then CancelledJobCleanupPreserved else CancelledJobCleanupComplete) in
  if (job_Type record =? JobDeployScheduled)%string then
    kube! r := within (cron_Get namespace (job_ServiceName record)) in
    match r with
    | Err e => if errors_is ErrNotFound e then no_cron else kerr (Wrapf "get cancelled Kubernetes CronJob" e)
    | Ok cron =>
        if negb (CancelledCronJobMatches record cron) then finish record CancelledJobCleanupPreserved else
        must! _ := within (DeleteCancelledKubernetesCronJob namespace cron) in
        finish record CancelledJobCleanupComplete
    end
  else no_cron.

(** What is at the record's name. *)
Definition remove_named (record : JobInfo) (namespace resourceName : string) : K Q (result unit) :=
  kube! r := within (kube_Get client namespace resourceName) in
  match r with
  | Err e => if errors_is ErrNotFound e then remove_cancelled_cron record namespace false
             else kerr (Wrapf "get cancelled Kubernetes Job" e)
  | Ok live => if cancelledKubernetesJobMatches record live then remove_cancelled_job record namespace live
               else remove_cancelled_cron record namespace true
  end.

Definition cleanupRecoveredCancelledJob (record : JobInfo) : K Q (result unit) :=
  match job_ExecutionKey record with
  | None => kerr (Errorf "cancelled Kubernetes Job identity is incomplete")
  | Some key =>
      if blank key then kerr (Errorf "cancelled Kubernetes Job identity is incomplete") else
      must! namespace := within (kdb (cancelled_namespace record)) in
      must! resourceName := kret (cancelled_resource record key namespace) in
      remove_named record namespace resourceName
  end.

(** ** A page of records *)

(** [errors.Join] with what failed before. *)
Definition join_err (err : option error) (e : error) : option error :=
  Some (match err with Some err => ErrJoin err e | None => e end).

(** One record's failure does not stop the others. *)
Fixpoint cleanup_records (records : list JobInfo) (cleaned : Z) (cleanupErr : option error) : K Q (Z * option error) :=
  match records with
  | [] => kret (cleaned, cleanupErr)
  | record :: rest =>
      if negb (IsCancelledJobCleanupPending (Some record)) then cleanup_records rest cleaned cleanupErr else
      kube! r := cleanupRecoveredCancelledJob record in
      match r with
      | Err e => cleanup_records rest cleaned
                   (join_err cleanupErr (Wrapf ("job " ++ FormatInt (job_ID record) 10) e))
      | Ok _ => cleanup_records rest (cleaned + 1) cleanupErr
      end
  end.

Definition CleanupRecoveredCancelledJobsPage (page pageSize : Z) : K Q (Z * Z * option error) :=
  match client with
  | None => kret (0, 0, Some (Errorf "cleanup recovered cancelled jobs: Kubernetes client and datastore are required"))
  | Some _ =>
      let page := if page <=? 0 then 1 else page in
      let pageSize := if (pageSize <=? 0) || (100 <? pageSize) then 100 else pageSize in
      kube! r := within (kdb (List_ (E := JobInfo) (Index job_info_zero) (cancelled_cleanup_options page pageSize))) in
      match r with
      | Err e => if errors_is ErrRecordNotExist e then kret (0, 0, None)
                 else kret (0, 0, Some (Wrapf "list recovered cancelled jobs" e))
      | Ok records =>
          kube! done := cleanup_records records 0 None in
          kret (fst done, Z.of_nat (length records), snd done)
      end
  end.

(** ** The loop *)

(** One turn of [startCancelledWorkflowRecovery] gives the page of the next; errors are
    logged.  The page is cleaned with a context of its own. *)
Definition cleanup_turn (cleanupPage : Z) : K Q Z :=
  kube! _ := kmodify (fun k => k <| kr_expired := false |>) in
  kube! r := CleanupRecoveredCancelledJobsPage cleanupPage 100 in
  let '(_, examined, _) := r in
  kret (if examined <? 100 then 1 else i64 (cleanupPage + 1)).

Definition cancelled_recovery_turn (cleanupPage : Z) : K Q Z :=
  kube! _ := kdb RecoverExpiredCancelledWorkflowTasks in cleanup_turn cleanupPage.

(** [turns] of them; the context is cancelled after the last. *)
Fixpoint repeat_turns (turn : Z -> K Q Z) (turns : nat) (cleanupPage : Z) : K Q Z :=
  match turns with
  | O => kret cleanupPage
  | S turns => kube! next := turn cleanupPage in repeat_turns turn turns next
  end.

Definition startCancelledWorkflowRecovery (turns : nat) : K Q Z := repeat_turns cancelled_recovery_turn turns 1.
End CancelRecovery.
