(* ===== verification/CancelRecoverySpec.v ===== *)
(** What the removal of cancelled jobs promises:
    [pkg/apiserver/event/workflow/job/jobexec/cancel_recovery.go].

    Whatever the cluster answers and other sessions commit, the removal for one record
    deletes nothing but objects it has just read and found to carry the execution's
    identity, and marks the record as settled only with the evidence for it: the object
    gone, or another's in its place ([cancelled_cleanup_safe]).  The loop over pages
    is in [CancelReach]. *)

From S2P Require Import Prelude GoStrings Config Json Quantity Policy Model Store Hoare Lease LeaseProtocol Budget.
From S2P Require Import Creation Signals Scheduler Admission AdmissionSpec AdmissionGuard PodResources Retry Cleanup.
From S2P Require Import JobInfos Components Controller ControllerSpec ControllerSafety JobExec RunJob RunJobSpec.
From S2P Require Import JobRunner KubeJobs PodLogs DelayQueue Instant KubeSpec Sha1 Outbox OutboxSpec Results ResultsSpec.
From S2P Require Import CancelRecovery.

(** ** Programs that only talk to the cluster *)

Section Asked.
Context {Q : Type} `{QuantityOps Q} `{KubernetesJson Q}.

(** [m] leaves the data store alone; its answer and its requests meet [P]. *)
Definition asked {A} (m : K Q A) (P : A -> list (KubeEvent Q) -> Prop) : Prop := forall k,
  world_of (snd (m k)) = world_of k /\
  exists l, kr_log (snd (m k)) = (kr_log k ++ l)%list /\ P (fst (m k)) l.

Lemma asked_ret {A} (a : A) (P : A -> list (KubeEvent Q) -> Prop) : P a [] -> asked (kret a) P.
Proof. intros HP k. split; [done|]. exists []. by rewrite app_nil_r. Qed.

Lemma asked_bind {A B} (m : K Q A) (f : A -> K Q B) P (R : B -> list (KubeEvent Q) -> Prop) :
  asked m P -> (forall a l, P a l -> asked (f a) (fun b l' => R b (l ++ l')%list)) -> asked (kbind m f) R.
Proof.
  intros Hm Hf k. unfold kbind. destruct (Hm k) as (W & l & L & HP). destruct (m k) as [a k1]. cbn [fst snd] in *.
  destruct (Hf a l HP k1) as (W1 & l1 & L1 & HR). split; [congruence|]. exists (l ++ l1)%list. by rewrite L1, L, <- app_assoc.
Qed.

Lemma asked_weaken {A} (m : K Q A) (P R : A -> list (KubeEvent Q) -> Prop) :
  (forall a l, P a l -> R a l) -> asked m P -> asked m R.
Proof. intros I Hm k. destruct (Hm k) as (W & l & L & HP). eauto 6. Qed.

Lemma asked_must {A B} (m : K Q (result A)) (f : A -> K Q (result B)) P (R : result B -> list (KubeEvent Q) -> Prop) :
  asked m P -> (forall a l, P (Ok a) l -> asked (f a) (fun b l' => R b (l ++ l')%list)) ->
  (forall e l, P (Err e) l -> R (Err e) l) -> asked (kmust m f) R.
Proof.
  intros Hm Hf He. apply (asked_bind _ _ P); [exact Hm|]. intros [a|e] l HP; [by apply Hf|].
  apply asked_ret. rewrite app_nil_r. by apply He.
Qed.

Lemma asked_wrap {A} f (m : K Q (result A)) (P R : result A -> list (KubeEvent Q) -> Prop) :
  asked m P -> (forall a l, P (Ok a) l -> R (Ok a) l) -> (forall e l, P (Err e) l -> R (Err (f e)) l) -> asked (kwrap f m) R.
Proof.
  intros Hm Ho He. apply (asked_bind _ _ P); [exact Hm|]. intros [a|e] l HP; apply asked_ret; rewrite app_nil_r; auto.
Qed.

(** Nothing is asked. *)
Definition silent {A} (_ : A) (l : list (KubeEvent Q)) : Prop := l = [].

Lemma asked_silent_bind {A B} (m : K Q A) (f : A -> K Q B) (R : B -> list (KubeEvent Q) -> Prop) :
  asked m silent -> (forall a, asked (f a) R) -> asked (kbind m f) R.
Proof. intros Hm Hf. apply (asked_bind _ _ silent); [exact Hm|]. intros a l ->. apply Hf. Qed.

Lemma asked_kget : asked kget silent.
Proof. intros k. split; [done|]. exists []. by rewrite app_nil_r. Qed.

Lemma asked_modify f : (forall k, world_of (f k) = world_of k /\ kr_log (f k) = kr_log k) -> asked (kmodify f) silent.
Proof. intros E k. destruct (E k) as [W L]. split; [done|]. exists []. by rewrite app_nil_r. Qed.

Lemma asked_note ev : asked (note ev) (fun _ l => l = [ev]).
Proof. intros k. split; [done|]. by exists [ev]. Qed.

Lemma asked_ticks : asked next_ticks silent.
Proof. intros k. unfold next_ticks. destruct (kr_ticks k); (split; [done|]; exists []; by rewrite app_nil_r). Qed.

Lemma asked_look : asked next_look silent.
Proof. intros k. unfold next_look. destruct (kr_looks k); (split; [done|]; exists []; by rewrite app_nil_r). Qed.

Lemma asked_expire : asked expire silent.
Proof. by apply asked_modify. Qed.

Lemma asked_detached : asked detached_ctx silent.
Proof.
  unfold detached_ctx. apply asked_silent_bind; [apply asked_kget|]. intros k. destruct (kr_expired k); [by apply asked_ret|].
  apply asked_silent_bind; [apply asked_look|]. intros []; [|by apply asked_ret].
  apply asked_silent_bind; [apply asked_expire|]. intros _. by apply asked_ret.
Qed.

(** A poll asks until the condition is met. *)
Lemma asked_poll ticks (condition : K Q (result bool)) (look gone : KubeEvent Q -> Prop) :
  asked condition (fun r l => exists ev, l = [ev] /\ look ev /\ (r = Ok true -> gone ev)) ->
  asked (poll_until ticks detached_ctx expire condition)
    (fun r l => List.Forall look l /\ (r = Ok tt -> exists before ev, l = (before ++ [ev])%list /\ gone ev)).
Proof.
  intros Hc. induction ticks as [|ticks IH]; cbn [poll_until].
  all: eapply asked_bind; [exact Hc|]; intros r l (ev & -> & Lk & G).
  all: destruct r as [[|]|e]; [apply asked_ret; split; [by constructor|]; intros _; exists [], ev; auto| |
    apply asked_ret; split; [by constructor|done]].
  all: apply asked_silent_bind; [apply asked_detached|]; intros [e|]; [apply asked_ret; split; [by constructor|done]|].
  - apply asked_silent_bind; [apply asked_expire|]. intros _. apply asked_ret. split; [by constructor|done].
  - eapply asked_weaken; [|exact IH]. intros a l [F D]. split; [by constructor|]. intros E.
    destruct (D E) as (before & ev' & -> & G'). by exists (ev :: before), ev'.
Qed.

Lemma asked_wait_gone (currentUID : K Q (result string)) uid kind (look gone : KubeEvent Q -> Prop) :
  asked currentUID (fun r l => exists ev, l = [ev] /\ look ev /\
    match r with Ok u => u <> uid -> gone ev | Err e => errors_is ErrNotFound e = true -> gone ev end) ->
  asked (waitForCancelledKubernetesResourceDeletion currentUID uid kind)
    (fun r l => List.Forall look l /\ (r = Ok tt -> exists before ev, l = (before ++ [ev])%list /\ gone ev)).
Proof.
  intros Hc. unfold waitForCancelledKubernetesResourceDeletion. apply asked_silent_bind; [apply asked_ticks|]. intros ticks.
  eapply asked_wrap; [apply (asked_poll ticks _ look gone)| |].
  - eapply asked_bind; [exact Hc|]. intros r l (ev & -> & Lk & G). destruct r as [u|e].
    + apply asked_ret. exists ev. repeat split; try done. intros [= E]. apply G. by apply negb_true_iff, String.eqb_neq in E.
    + destruct (errors_is ErrNotFound e); apply asked_ret; exists ev; repeat split; auto; discriminate.
  - intros [] l [F D]. auto.
  - intros e l [F D]. split; [done|discriminate].
Qed.

(** ** Requests *)

Context (cluster : Cluster Q) (crons : CronCluster Q).
Abbreviation client := (Some cluster).

Lemma asked_Get namespace name : asked (kube_Get client namespace name) (fun r l => l = [KvGet namespace name r]).
Proof.
  unfold kube_Get. apply asked_silent_bind; [apply asked_kget|]. intros k.
  eapply asked_bind; [apply asked_note|]. intros [] l ->. by apply asked_ret.
Qed.

Lemma asked_Delete namespace name uid version : asked (kube_Delete client namespace name uid version)
  (fun r l => exists err, l = [KvDelete namespace name uid version err] /\ r = match err with Some e => Err e | None => Ok tt end).
Proof.
  unfold kube_Delete. apply asked_silent_bind; [apply asked_kget|]. intros k.
  eapply asked_bind; [apply asked_note|]. intros [] l ->. apply asked_ret. by eexists.
Qed.

Lemma asked_cron_Get namespace name :
  asked (cron_Get client crons namespace name) (fun r l => l = [KvCron (CvGet namespace name r)]).
Proof.
  unfold cron_Get. apply asked_silent_bind; [apply asked_kget|]. intros k.
  eapply asked_bind; [apply asked_note|]. intros [] l ->. by apply asked_ret.
Qed.

Lemma asked_cron_Delete namespace name uid : asked (cron_Delete client crons namespace name uid)
  (fun r l => exists err, l = [KvCron (CvDelete namespace name uid err)] /\ r = match err with Some e => Err e | None => Ok tt end).
Proof.
  unfold cron_Delete. apply asked_silent_bind; [apply asked_kget|]. intros k.
  eapply asked_bind; [apply asked_note|]. intros [] l ->. apply asked_ret. by eexists.
Qed.
End Asked.

(** A call of the page is made, or refused since its time is over. *)
Lemma asked_within {Q} `{QuantityOps Q} `{KubernetesJson Q} {A} (call : K Q (result A)) (P : result A -> list (KubeEvent Q) -> Prop) :
  asked call P -> asked (within call) (fun r l => P r l \/ r = Err DeadlineExceeded /\ l = []).
Proof.
  intros Hm. unfold within. apply (asked_bind _ _ (fun stopped l => l = [] /\ (stopped = None \/ stopped = Some DeadlineExceeded))).
  - unfold detached_ctx. apply asked_silent_bind; [apply asked_kget|]. intros k. destruct (kr_expired k); [by apply asked_ret; auto|].
    apply asked_silent_bind; [apply asked_look|]. intros []; [|by apply asked_ret; auto].
    apply asked_silent_bind; [apply asked_expire|]. intros _. by apply asked_ret; auto.
  - intros stopped l [-> [->| ->]]; cbn [app]; [|by apply asked_ret; right].
    eapply asked_weaken; [|exact Hm]. auto.
Qed.

(** ** What the removal may ask, and what it must have seen *)

Section Evidence.
Context {Q : Type} `{QuantityOps Q} `{KubernetesJson Q}.
Context (decode_job : Json -> option (Job Q)) (order : JobRetryPolicy Q -> list (string * Z)).
Context (record : JobInfo) (namespace : string).

(** The Job is the cancelled execution's, by its identity and by the checkpoint. *)
Definition own_job (live : Job Q) : Prop :=
  cancelledKubernetesJobMatches record live = true /\
  (HasInstantJobRetryCheckpoint (Some record) = true ->
   ValidateInstantJobRetryExecution decode_job order (Some record) (Some live) = Ok tt).

(** A deletion names the object, by its name and UID, that an earlier request has read. *)
Definition own_request (before : list (KubeEvent Q)) (ev : KubeEvent Q) : Prop :=
  match ev with
  | KvDelete ns name uid _ _ => ns = namespace /\ uid <> ""%string /\
      exists asked live, KvGet namespace asked (Ok live) ∈ before /\ own_job live /\ name = kj_Name live /\ uid = kj_UID live
  | KvCron (CvDelete ns name uid _) => ns = namespace /\
      exists asked live, KvCron (CvGet namespace asked (Ok live)) ∈ before /\ CancelledCronJobMatches record live = true /\
        name = cj_Name live /\ uid = Some (cj_UID live)
  | _ => destructive ev = false
  end.

Fixpoint own_requests (before l : list (KubeEvent Q)) : Prop :=
  match l with
  | [] => True
  | ev :: l => own_request before ev /\ own_requests (before ++ [ev])%list l
  end.

Lemma own_requests_app before l l' :
  own_requests before l -> own_requests (before ++ l)%list l' -> own_requests before (l ++ l')%list.
Proof.
  revert before. induction l as [|ev l IH]; intros before; cbn [own_requests app]; [by rewrite app_nil_r|].
  intros [O Os] Os'. split; [done|]. apply IH; [done|]. by rewrite <- app_assoc.
Qed.

Lemma own_requests_harmless before l : List.Forall (fun ev => destructive ev = false) l -> own_requests before l.
Proof.
  intros F. revert before. induction F as [|ev l E _ IH]; intros before; cbn; [done|]. split; [|apply IH].
  by destruct ev as [| | | | | | | | | |[]| | | | |].
Qed.

Definition job_look (name : string) (ev : KubeEvent Q) : Prop := exists r, ev = KvGet namespace name r.
Definition job_gone (name uid : string) (ev : KubeEvent Q) : Prop := exists r, ev = KvGet namespace name r /\
  match r with Ok live => kj_UID live <> uid | Err e => errors_is ErrNotFound e = true end.
Definition cron_look (name : string) (ev : KubeEvent Q) : Prop := exists r, ev = KvCron (CvGet namespace name r).
Definition cron_gone (name uid : string) (ev : KubeEvent Q) : Prop := exists r, ev = KvCron (CvGet namespace name r) /\
  match r with Ok live => cj_UID live <> uid | Err e => errors_is ErrNotFound e = true end.

(** A removal: the deletion, refused at most because the object is gone, and looks at the
    object until it is gone. *)
Definition removal (delete : option error -> KubeEvent Q) (look gone : KubeEvent Q -> Prop) (l : list (KubeEvent Q)) : Prop :=
  exists err looks ev, l = (delete err :: looks ++ [ev])%list /\ List.Forall look looks /\ gone ev /\
    match err with Some e => errors_is ErrNotFound e = true | None => True end.

Definition job_removal (live : Job Q) : list (KubeEvent Q) -> Prop :=
  removal (KvDelete namespace (kj_Name live) (kj_UID live) None) (job_look (kj_Name live)) (job_gone (kj_Name live) (kj_UID live)).
Definition cron_removal (live : CronJob) : list (KubeEvent Q) -> Prop :=
  removal (fun err => KvCron (CvDelete namespace (cj_Name live) (Some (cj_UID live)) err)) (cron_look (cj_Name live))
    (cron_gone (cj_Name live) (cj_UID live)).

(** What was seen of the Job's name, when the Job of the execution is not there. *)
Inductive no_job (name : string) : bool -> KubeEvent Q -> Prop :=
  | job_absent e : errors_is ErrNotFound e = true -> no_job name false (KvGet namespace name (Err e))
  | job_replaced live : cancelledKubernetesJobMatches record live = false -> no_job name true (KvGet namespace name (Ok live)).

(** How a record is settled, and the requests that show it. *)
Inductive settlement (name : string) : string -> list (KubeEvent Q) -> Prop :=
  | job_is_removed live l : own_job live -> job_removal live l ->
      settlement name CancelledJobCleanupComplete (KvGet namespace name (Ok live) :: l)
  | cron_is_removed replaced seen live l : no_job name replaced seen -> job_Type record = JobDeployScheduled ->
      CancelledCronJobMatches record live = true -> cron_removal live l ->
      settlement name CancelledJobCleanupComplete (seen :: KvCron (CvGet namespace (job_ServiceName record) (Ok live)) :: l)
  | cron_is_kept replaced seen live : no_job name replaced seen -> job_Type record = JobDeployScheduled ->
      CancelledCronJobMatches record live = false ->
      settlement name CancelledJobCleanupPreserved [seen; KvCron (CvGet namespace (job_ServiceName record) (Ok live))]
  | nothing_scheduled replaced seen e : no_job name replaced seen -> job_Type record = JobDeployScheduled ->
      errors_is ErrNotFound e = true ->
      settlement name (if replaced then CancelledJobCleanupPreserved else CancelledJobCleanupComplete)
        [seen; KvCron (CvGet namespace (job_ServiceName record) (Err e))]
  | nothing_left replaced seen : no_job name replaced seen -> job_Type record <> JobDeployScheduled ->
      settlement name (if replaced then CancelledJobCleanupPreserved else CancelledJobCleanupComplete) [seen].

Context (cluster : Cluster Q) (crons : CronCluster Q).
Abbreviation client := (Some cluster).

(** The requests of a deletion, whatever becomes of it. *)
Definition deletion_requests (delete : option error -> KubeEvent Q) (look : KubeEvent Q -> Prop) (l : list (KubeEvent Q)) : Prop :=
  exists err looks, l = delete err :: looks /\ List.Forall look looks.

Lemma asked_delete_wait (m wait : K Q (result unit)) wrap delete (look gone : KubeEvent Q -> Prop) :
  asked m (fun r l => exists err, l = [delete err] /\ r = match err with Some e => Err e | None => Ok tt end) ->
  asked wait (fun r l => List.Forall look l /\ (r = Ok tt -> exists before ev, l = (before ++ [ev])%list /\ gone ev)) ->
  asked (kube! r := m in
         match r with
         | Err e => if errors_is ErrNotFound e then wait else kerr (wrap e)
         | Ok _ => wait
         end)
    (fun r l => deletion_requests delete look l /\ (r = Ok tt -> removal delete look gone l)).
Proof.
  intros Hm Hw. eapply asked_bind; [exact Hm|]. intros r l (err & -> & ->).
  assert (X : match err with Some e => errors_is ErrNotFound e = true | None => True end ->
    asked wait (fun r l => deletion_requests delete look ([delete err] ++ l)%list /\
                           (r = Ok tt -> removal delete look gone ([delete err] ++ l)%list))).
  { intros E. eapply asked_weaken; [|exact Hw]. intros r l [F D]. split; [by exists err, l|]. intros ->.
    destruct (D eq_refl) as (before & ev & -> & G). exists err, before, ev. apply List.Forall_app in F as [F _]. done. }
  destruct err as [e|]; [|by apply X]. destruct (errors_is ErrNotFound e) eqn:E; [by apply X|].
  apply asked_ret. split; [|done]. by exists (Some e), [].
Qed.

Lemma asked_delete_job live : kj_UID live <> ""%string ->
  asked (deleteCancelledKubernetesJob client namespace live) (fun r l =>
    (l = [] \/ deletion_requests (KvDelete namespace (kj_Name live) (kj_UID live) None) (job_look (kj_Name live)) l) /\
    (r = Ok tt -> job_removal live l)).
Proof.
  intros U. unfold deleteCancelledKubernetesJob, deleteJobForeground. cbv zeta. cbn [negb].
  destruct (false || str_empty namespace || str_empty (kj_Name live) || str_empty (kj_UID live)).
  - eapply asked_bind; [apply (asked_ret _ (fun r l => l = [] /\ exists e, r = Err (Errorf e))); split; [done|by eexists]|].
    intros r l (-> & e & ->). cbn. apply asked_ret. split; [by left|done].
  - eapply asked_weaken; [|apply asked_delete_wait; [apply asked_Delete|]].
    + intros r l [D R]. split; [by right|exact R].
    + apply asked_wait_gone. eapply asked_must; [apply asked_Get| |].
      * intros a l ->. apply asked_ret. eexists. split; [done|]. split; [by eexists|]. intros N. eexists. split; [done|exact N].
      * intros e l ->. eexists. split; [done|]. split; [by eexists|]. intros N. eexists. split; [done|exact N].
Qed.

Lemma asked_delete_cron live :
  asked (DeleteCancelledKubernetesCronJob client crons namespace live) (fun r l =>
    deletion_requests (fun err => KvCron (CvDelete namespace (cj_Name live) (Some (cj_UID live)) err)) (cron_look (cj_Name live)) l /\
    (r = Ok tt -> cron_removal live l)).
Proof.
  apply asked_delete_wait; [apply asked_cron_Delete|]. apply asked_wait_gone. eapply asked_must; [apply asked_cron_Get| |].
  - intros a l ->. apply asked_ret. eexists. split; [done|]. split; [by eexists|]. intros N. eexists. split; [done|exact N].
  - intros e l ->. eexists. split; [done|]. split; [by eexists|]. intros N. eexists. split; [done|exact N].
Qed.

(** ** The record *)

(** The only write: the record, still the cancelled execution's and still pending, gets
    its outcome and gives up its admission. *)
Definition settled_row (outcome : string) (now : Z) (row : JobInfo) : JobInfo :=
  (if str_empty (job_SchedulingState record) then row else row <| job_SchedulingState := JobSchedulingReleased |>)
    <| job_SchedulingReason := outcome |> <| job_UpdateTime := now |>.

Definition settles (outcome : string) (w w' : World) : Prop :=
  exists w1 row, noeffect w w1 /\ db_jobs (w_db w1) !! job_ID record = Some row /\
    job_Status row = StatusCancelled /\ job_SchedulingReason row = cancelledJobCleanupPending /\
    job_ExecutionKey row = job_ExecutionKey record /\ job_RunGeneration row = job_RunGeneration record /\
    job_Attempt row = job_Attempt record /\
    w' = w1 <| w_db := with_table (<[job_ID record := settled_row outcome (w_wall w) row]> (table (w_db w1))) (w_db w1) |>.

Lemma finish_settles key outcome w : job_ExecutionKey record = Some key ->
  match finishCancelledJobCleanup record outcome w with
  | (Ok _, w') => settles outcome w w'
  | (Err _, w') => noeffect w w'
  end.
Proof.
  intros K. unfold finishCancelledJobCleanup. cbv zeta. rewrite K. unfold bind, wrap_error.
  match goal with |- context [CompareAndSwapWithConditions ?a ?b ?c w] =>
    pose proof (cas_spec (E := JobInfo) a b c w) as S; destruct (CompareAndSwapWithConditions a b c w) as [[[|]|e] w1] eqn:Ew end;
    specialize (S _ _ eq_refl); cbn [fst snd]; [|exact S|exact S].
  destruct S as (w2 & row & row' & N & L & C & U & ->). exists w2, row. split; [exact N|]. split; [exact L|].
  cbn in C. rewrite !andb_true_iff in C. destruct C as (C1 & C2 & C3 & C4 & C5 & _). cbn in C1, C2, C3, C4, C5.
  repeat split; bool_to_prop; try done.
  - rewrite K. destruct (job_ExecutionKey row) as [k|]; cbn in C2; [|done]. by apply String.eqb_eq in C2 as ->.
  - do 3 f_equal. unfold settled_row. destruct (str_empty (job_SchedulingState record)); destruct row; cbn in U |- *; by injection U as <-.
Qed.

Definition concludes (name : string) (seen : list (KubeEvent Q)) (m : K Q (result unit)) : Prop := forall k,
  exists l, kr_log (snd (m k)) = (kr_log k ++ l)%list /\ own_requests seen l /\
    match fst (m k) with
    | Ok _ => exists outcome, settlement name outcome (seen ++ l) /\ settles outcome (world_of k) (world_of (snd (m k)))
    | Err _ => noeffect (world_of k) (world_of (snd (m k)))
    end.

Lemma concludes_err name seen e : concludes name seen (kerr e).
Proof. intros k. exists []. rewrite app_nil_r. split; [done|]. split; [done|]. cbn. reflexivity. Qed.

Lemma concludes_bind {A} name seen (m : K Q A) (f : A -> K Q (result unit)) P : asked m P ->
  (forall a l, P a l -> own_requests seen l /\ concludes name (seen ++ l) (f a)) -> concludes name seen (kbind m f).
Proof.
  intros Hm Hf k. unfold kbind. destruct (Hm k) as (W & l & L & HP). destruct (m k) as [a k1]. cbn [fst snd] in *.
  destruct (Hf a l HP) as [O C]. destruct (C k1) as (l1 & L1 & O1 & X). exists (l ++ l1)%list.
  rewrite L1, L, <- app_assoc. split; [done|]. split; [by apply own_requests_app|].
  destruct (fst (f a k1)); [|by rewrite <- W]. destruct X as (o & S & T). exists o. by rewrite app_assoc, <- W.
Qed.

Lemma concludes_within name seen (m : K Q (result unit)) : concludes name seen m -> concludes name seen (within m).
Proof.
  intros Hm. unfold within. eapply concludes_bind; [apply asked_detached|]. intros stopped l ->. split; [done|].
  rewrite app_nil_r. destruct stopped; [apply concludes_err|exact Hm].
Qed.

Lemma concludes_finish name seen key outcome : job_ExecutionKey record = Some key ->
  settlement name outcome seen -> concludes name seen (finish record outcome).
Proof.
  intros K S. unfold finish. apply concludes_within. intros k. exists []. destruct (kdb_run (finishCancelledJobCleanup record outcome) k) as (F & W & L).
  rewrite L, F, W, !app_nil_r. split; [done|]. split; [done|]. pose proof (finish_settles key outcome (world_of k) K) as X.
  destruct (finishCancelledJobCleanup record outcome (world_of k)) as [[u|e] w]; [by exists outcome|exact X].
Qed.

Lemma concludes_must {A} name seen (m : K Q (result A)) (f : A -> K Q (result unit)) P : asked m P ->
  (forall a l, P (Ok a) l -> own_requests seen l /\ concludes name (seen ++ l) (f a)) ->
  (forall e l, P (Err e) l -> own_requests seen l) -> concludes name seen (kmust m f).
Proof.
  intros Hm Hf He. apply (concludes_bind _ _ _ _ P); [exact Hm|]. intros [a|e] l HP; [by apply Hf|].
  split; [by apply (He e)|apply concludes_err].
Qed.

Lemma own_deletion_requests before delete (look : KubeEvent Q -> Prop) l :
  (forall err, own_request before (delete err)) -> (forall ev, look ev -> destructive ev = false) ->
  deletion_requests delete look l -> own_requests before l.
Proof.
  intros D Lk (err & looks & -> & F). split; [apply D|]. apply own_requests_harmless.
  eapply List.Forall_impl; [|exact F]. exact Lk.
Qed.

Lemma concludes_job name key live : job_ExecutionKey record = Some key ->
  cancelledKubernetesJobMatches record live = true ->
  concludes name [KvGet namespace name (Ok live)] (remove_cancelled_job client decode_job order record namespace live).
Proof.
  intros K M. unfold remove_cancelled_job.
  assert (U : kj_UID live <> ""%string).
  { unfold cancelledKubernetesJobMatches in M. rewrite K, !andb_true_iff in M. destruct M as [[[[M _] _] _] _].
    by apply negb_true_iff, String.eqb_neq in M. }
  eapply concludes_must with (P := fun r l => l = [] /\ (r = Ok tt -> own_job live)).
  { eapply asked_wrap; [apply (asked_ret _ (fun r l => l = [] /\ (r = Ok tt -> own_job live)))| |].
    - split; [done|]. intros E. split; [exact M|]. by destruct (HasInstantJobRetryCheckpoint _).
    - intros [] l [-> O]. auto.
    - intros e l [-> _]. split; [done|discriminate]. }
  2: by intros e l [-> _].
  intros [] l [-> O]. specialize (O eq_refl). split; [done|]. rewrite app_nil_r.
  assert (Own : forall l, l = [] \/ deletion_requests (KvDelete namespace (kj_Name live) (kj_UID live) None) (job_look (kj_Name live)) l ->
    own_requests [KvGet namespace name (Ok live)] l).
  { intros l [->|D]; [done|]. eapply own_deletion_requests; [| |exact D]; [|by intros ev [r ->]].
    intros err. split; [done|]. split; [exact U|]. exists name, live. split; [by apply list_elem_of_singleton|]. by destruct O. }
  eapply concludes_must; [by apply asked_within, asked_delete_job| |].
  - intros [] l [[D R]|[[=] _]]. split; [by apply Own|]. eapply concludes_finish; [exact K|]. cbn [app]. apply job_is_removed; [done|by apply R].
  - intros e l [[D _]|[_ ->]]; [by apply Own|done].
Qed.

Lemma concludes_cron name key replaced seen : job_ExecutionKey record = Some key -> no_job name replaced seen ->
  concludes name [seen] (remove_cancelled_cron client crons record namespace replaced).
Proof.
  intros K N. unfold remove_cancelled_cron. cbv zeta. destruct (String.eqb_spec (job_Type record) JobDeployScheduled) as [T|T].
  2: eapply concludes_finish; [exact K|]; by apply (nothing_left name replaced seen).
  eapply concludes_bind; [apply asked_within, asked_cron_Get|].
  intros r l [->|[-> ->]]; [|split; [done|exact (concludes_err _ _ _)]]. split; [by split|]. cbn [app].
  destruct r as [cron|e].
  - destruct (CancelledCronJobMatches record cron) eqn:M; cbn [negb].
    2: eapply concludes_finish; [exact K|]; by apply (cron_is_kept name replaced).
    assert (Own : forall l, deletion_requests (fun err => KvCron (CvDelete namespace (cj_Name cron) (Some (cj_UID cron)) err))
        (cron_look (cj_Name cron)) l ->
      own_requests [seen; KvCron (CvGet namespace (job_ServiceName record) (Ok cron))] l).
    { intros l D. eapply own_deletion_requests; [| |exact D]; [|by intros ev [r ->]]. intros err. split; [done|].
      exists (job_ServiceName record), cron. split; [|done]. apply list_elem_of_further, list_elem_of_here. }
    eapply concludes_must; [apply asked_within, asked_delete_cron| |].
    + intros [] l [[D R]|[[=] _]]. split; [by apply Own|]. eapply concludes_finish; [exact K|]. cbn [app].
      apply (cron_is_removed name replaced seen); auto.
    + intros e l [[D _]|[_ ->]]; [by apply Own|done].
  - destruct (errors_is ErrNotFound e) eqn:E; [|apply concludes_err].
    eapply concludes_finish; [exact K|]. by apply (nothing_scheduled name replaced).
Qed.

(** The requests and the write of a removal, once the names are known. *)
Lemma concludes_named key name : job_ExecutionKey record = Some key ->
  concludes name [] (remove_named client crons decode_job order record namespace name).
Proof.
  intros K. unfold remove_named. eapply concludes_bind; [apply asked_within, asked_Get|].
  intros r l [->|[-> ->]]; [|split; [done|exact (concludes_err _ _ _)]]. split; [by split|]. cbn [app].
  destruct r as [live|e].
  - destruct (cancelledKubernetesJobMatches record live) eqn:M; [by apply (concludes_job name key)|].
    apply (concludes_cron name key); [exact K|by constructor].
  - destruct (errors_is ErrNotFound e) eqn:E; [|apply concludes_err]. apply (concludes_cron name key); [exact K|by constructor].
Qed.
End Evidence.

Lemma settles_after record outcome w w1 w2 : noeffect w w1 -> settles record outcome w1 w2 -> settles record outcome w w2.
Proof.
  intros N (w3 & row & N1 & X). exists w3, row. split; [by etransitivity|].
  destruct N as (es & _ & _ & <-). exact X.
Qed.

Lemma read_only_namespace record : read_only (cancelled_namespace record).
Proof.
  unfold cancelled_namespace. apply read_only_bind.
  - destruct (_ && _); [|apply read_only_ret]. apply read_only_bind; [apply read_only_wrap, read_only_Get|].
    intros app. apply read_only_ret.
  - intros spaceID. destruct (negb _); [|apply read_only_throw].
    apply read_only_bind; [apply read_only_wrap, read_only_Get|]. intros space. destruct (negb _); [apply read_only_ret|apply read_only_throw].
Qed.

(** Nothing happens before the names are known. *)
Lemma cleanup_stages {Q} `{QuantityOps Q} `{KubernetesJson Q} decode_job order cluster crons record (k : KubeRun Q) :
  let cleanup := cleanupRecoveredCancelledJob (Some cluster) crons decode_job order record in
  exists k1, noeffect (world_of k) (world_of k1) /\ kr_log k1 = kr_log k /\
    ((exists e, cleanup k = (Err e, k1)) \/
     exists key namespace name, job_ExecutionKey record = Some key /\
       fst (cancelled_namespace record (world_of k)) = Ok namespace /\
       cancelled_resource decode_job order record key namespace = Ok name /\
       cleanup k = remove_named (Some cluster) crons decode_job order record namespace name k1).
Proof.
  cbv zeta. unfold cleanupRecoveredCancelledJob.
  destruct (job_ExecutionKey record) as [key|] eqn:K; [|exists k; split; [reflexivity|]; eauto].
  destruct (blank key); [exists k; split; [reflexivity|]; eauto|].
  set (call := within (kdb (cancelled_namespace record))).
  assert (X : noeffect (world_of k) (world_of (snd (call k))) /\ kr_log (snd (call k)) = kr_log k /\
    forall namespace, fst (call k) = Ok namespace -> fst (cancelled_namespace record (world_of k)) = Ok namespace).
  { unfold call, within, kbind. destruct (asked_detached k) as (W0 & l & L0 & ->). rewrite app_nil_r in L0.
    destruct (detached_ctx k) as [[e|] k0]; cbn [fst snd] in W0, L0; [by rewrite <- W0|].
    destruct (kdb_run (cancelled_namespace record) k0) as (F & W & L). rewrite W0 in F, W. rewrite W, F, L.
    split; [|by split]. eapply read_only_namespace, surjective_pairing. }
  destruct X as (N & L & F). unfold kmust, kbind, kret. destruct (call k) as [[namespace|e] k1]; cbn [fst snd] in N, L, F;
    exists k1; (split; [exact N|]); (split; [exact L|]); [|eauto].
  destruct (cancelled_resource decode_job order record key namespace) as [name|e] eqn:R; [|eauto].
  right. exists key, namespace, name. auto.
Qed.

(** Its effect on the data store. *)
Lemma cleanup_effect {Q} `{QuantityOps Q} `{KubernetesJson Q} decode_job order cluster crons record (k : KubeRun Q) :
  let run := cleanupRecoveredCancelledJob (Some cluster) crons decode_job order record k in
  match fst run with
  | Ok _ => exists outcome, outcome <> cancelledJobCleanupPending /\ settles record outcome (world_of k) (world_of (snd run))
  | Err _ => noeffect (world_of k) (world_of (snd run))
  end.
Proof.
  cbv zeta. destruct (cleanup_stages decode_job order cluster crons record k)
    as (k1 & N & L & [[e ->]|(key & namespace & name & K & _ & _ & ->)]); [exact N|].
  destruct (concludes_named decode_job order record namespace cluster crons key name K k1) as (l & _ & _ & X).
  destruct (fst _); [|by etransitivity]. destruct X as (outcome & S & T). exists outcome. split; [|by eapply settles_after].
  clear - S. by destruct S as [|? ? ? ? []|? ? ? []|? ? ? []|? ? []].
Qed.

(** C24: the removal of a cancelled execution's object is safe.  Whatever the cluster
    answers, whatever other sessions commit and whatever the record holds: all requests go
    to the namespace of the record's workspace; the only changes asked for are deletions of
    a Job or CronJob that an earlier request has read, named by its name and UID, and that
    carries the identity of the execution (and fits its checkpoint).  When the removal
    reports success, the record, still the same execution's and still pending at that
    moment, has been settled, and the requests show why: the object was deleted and then
    seen to be gone, or there was none, or nothing was deleted, another object has the name
    and the outcome says preserved.  When it fails, the data store is as the other sessions
    left it. *)
Theorem cancelled_cleanup_safe {Q} `{QuantityOps Q} `{KubernetesJson Q} decode_job order cluster crons record (k : KubeRun Q) :
  let run := cleanupRecoveredCancelledJob (Some cluster) crons decode_job order record k in
  exists l, kr_log (snd run) = (kr_log k ++ l)%list /\
    match fst run with
    | Ok _ => exists key namespace name outcome,
        job_ExecutionKey record = Some key /\ fst (cancelled_namespace record (world_of k)) = Ok namespace /\
        cancelled_resource decode_job order record key namespace = Ok name /\
        own_requests decode_job order record namespace [] l /\
        settlement decode_job order record namespace name outcome l /\
        settles record outcome (world_of k) (world_of (snd run))
    | Err _ =>
        noeffect (world_of k) (world_of (snd run)) /\
        (l = [] \/ exists namespace, fst (cancelled_namespace record (world_of k)) = Ok namespace /\
                                    own_requests decode_job order record namespace [] l)
    end.
Proof.
  cbv zeta. destruct (cleanup_stages decode_job order cluster crons record k)
    as (k1 & N & L & [[e ->]|(key & namespace & name & K & F & R & ->)]).
  { exists []. rewrite app_nil_r. split; [exact L|]. split; [exact N|by left]. }
  destruct (concludes_named decode_job order record namespace cluster crons key name K k1) as (l & L1 & O & X).
  exists l. split; [congruence|]. destruct (fst (remove_named _ _ _ _ _ _ _ k1)).
  - destruct X as (outcome & S & T). exists key, namespace, name, outcome. do 5 (split; [done|]).
    by eapply settles_after.
  - split; [by etransitivity|]. right. by exists namespace.
Qed.

(** ** A concrete removal *)

Definition stuck_record : JobInfo :=
  job_info_zero <| job_ID := 1 |> <| job_Type := JobCommand |> <| job_Status := StatusCancelled |>
    <| job_SchedulingReason := cancelledJobCleanupPending |>.

Definition left_record : JobInfo :=
  stuck_record <| job_ID := 2 |> <| job_ExecutionKey := Some "key-2"%string |> <| job_TaskID := "task-1"%string |>
    <| job_ServiceName := "web"%string |> <| job_WorkspaceID := "ws-1"%string |> <| job_RunGeneration := 1 |> <| job_Attempt := 1 |>.

Definition left_space : Workspace := workspace_zero <| ws_ID := "ws-1"%string |> <| ws_Namespace := "ns"%string |>.

Definition left_database : Database :=
  (db_empty 10000000) <| db_jobs := {[1 := stuck_record; 2 := left_record]} |> <| db_workspaces := {["ws-1"%string := left_space]} |>.

Definition left_job : Job Z :=
  job_zero <| kj_Name := "web"%string |> <| kj_Namespace := "ns"%string |> <| kj_UID := "uid-9"%string |>
    <| kj_Annotations := list_to_map [(AnnotationJobTaskID, "task-1"); (AnnotationJobExecutionKey, "key-2");
         (AnnotationJobRunGeneration, "1"); (AnnotationJobAttempt, "1")]%string |>.

(** The Job is there until it is deleted. *)
Definition left_cluster : Cluster Z := {|
  on_get log _ _ := if existsb (fun ev => match ev with KvDelete _ _ _ _ _ => true | _ => false end) log
                    then Err ErrNotFound else Ok left_job;
  on_create _ job := Ok job; on_update _ job := Ok job; on_delete _ _ _ _ _ := None;
  on_pods _ _ _ := Ok []; on_pod _ _ _ := Err ErrNotFound; on_logs _ _ _ _ := Err ErrNotFound; on_delete_pod _ _ _ _ := None |}.

Definition no_crons : CronCluster Z := {|
  on_get_cron _ _ _ := Err ErrNotFound; on_create_cron _ cron := Ok cron; on_update_cron _ cron := Ok cron;
  on_delete_cron _ _ _ _ := None |}.

Definition left_run : KubeRun Z := web_run left_database.

(** The Job is removed and the record settled. *)
Lemma cancelled_cleanup_safe_witness :
  let run := cleanupRecoveredCancelledJob (Some left_cluster) no_crons z_decode_job no_order left_record left_run in
  fst run = Ok tt /\
  kr_log (snd run) = [KvGet "ns" "web" (Ok left_job); KvDelete "ns" "web" "uid-9" None None; KvGet "ns" "web" (Err ErrNotFound)] /\
  exists name outcome, settlement z_decode_job no_order left_record "ns" name outcome (kr_log (snd run)) /\
    settles left_record outcome (world_of left_run) (world_of (snd run)).
Proof.
  intros run. assert (F : fst run = Ok tt) by (vm_compute; reflexivity). split; [exact F|]. split; [vm_compute; reflexivity|].
  destruct (cancelled_cleanup_safe z_decode_job no_order left_cluster no_crons left_record left_run) as (l & L & X).
  fold run in L, X. rewrite F in X. destruct X as (key & ns & name & outcome & _ & N & _ & _ & S & T).
  assert (ns = "ns"%string) as -> by (vm_compute in N; by injection N as <-).
  exists name, outcome. rewrite L. split; [exact S|exact T].
Defined.
