(* ===== verification/CancelReach.v ===== *)
(** The loop over the pages of cancelled jobs reaches every record it can settle:
    [startCancelledWorkflowRecovery] of [pkg/apiserver/event/workflow/workflow.go] with
    [CleanupRecoveredCancelledJobsPage] of [event/workflow/job/jobexec/cancel_recovery.go].

    A settled record leaves the selection, so the pages shift under the loop: a rotation
    over the pages can pass over records.  But a rotation that settles nothing has tried
    every one of them, and the selection only shrinks. *)

From S2P Require Import Prelude GoStrings Config Json Quantity Policy Model Store Hoare Lease Budget.
From S2P Require Import Signals Scheduler PodResources Retry Cleanup JobInfos Components Controller JobExec RunJob RunJobSpec.
From S2P Require Import Creation KubeJobs LeaseProtocol KubeSpec ResultsSpec CancelRecovery CancelRecoverySpec.

(** ** The selection *)

(** The record is selected by a page. *)
Definition waits (r : JobInfo) : bool :=
  row_matches (E := JobInfo) (Index job_info_zero) (Filter (cancelled_cleanup_options 1 100)) r.

Lemma waits_pending r : waits r = true -> IsCancelledJobCleanupPending (Some r) = true.
Proof.
  unfold waits, row_matches, cancelled_cleanup_options. cbn. rewrite ?andb_true_r, ?orb_false_r, ?andb_true_iff.
  intros (T & -> & ->). unfold RecoverableKubernetesJobType, IsInstantJobType.
  split; [|done]. split; [|done].
  repeat match goal with E : _ || _ = true |- _ => apply orb_true_iff in E as [E|E] end;
    apply String.eqb_eq in T as ->; reflexivity.
Qed.

Lemma waits_reason r : job_SchedulingReason r <> cancelledJobCleanupPending -> waits r = false.
Proof.
  intros N. destruct (waits r) eqn:W; [|done]. apply waits_pending in W. unfold IsCancelledJobCleanupPending in W.
  rewrite !andb_true_iff in W. destruct W as [_ W]. by apply String.eqb_eq in W.
Qed.

(** All of the selection, in the order of the pages. *)
Definition waiting_list (d : Database) : list JobInfo :=
  merge_sort (fun a b => Is_true (row_le (E := JobInfo) [("update_time"%string, SortOrderAscending)] a b))
    (List.filter waits (rows (E := JobInfo) d)).

Lemma page_of_waiting page d : 1 <= page ->
  select (E := JobInfo) (Index job_info_zero) (cancelled_cleanup_options page 100) d =
    take 100 (drop (Z.to_nat (100 * (page - 1))) (waiting_list d)).
Proof.
  intros P. unfold select, page_of. cbn [PageSize Page SortBy Filter cancelled_cleanup_options].
  change (0 <? 100) with true. destruct (Z.ltb_spec 0 page); [|lia]. reflexivity.
Qed.

Lemma in_waiting d r : In r (waiting_list d) <-> (exists id, db_jobs d !! id = Some r) /\ waits r = true.
Proof.
  unfold waiting_list. split.
  - intros Hin. apply (Permutation_in _ (merge_sort_Permutation _ _)), filter_In in Hin as [Hin W].
    split; [|done]. by apply elem_rows in Hin.
  - intros [L W]. apply (Permutation_in _ (Permutation_sym (merge_sort_Permutation _ _))), filter_In. split; [|done].
    by apply elem_rows.
Qed.

(** Its size. *)
Definition waiting_map (d : Database) : gmap Z JobInfo := filter (fun kr => waits (snd kr) = true) (db_jobs d).

Lemma waiting_length d : length (waiting_list d) = size (waiting_map d).
Proof.
  unfold waiting_list, rows. rewrite (Permutation_length (merge_sort_Permutation _ _)), <- length_map_to_list.
  unfold waiting_map. rewrite <- (length_map snd). apply Permutation_length.
  change (table (Entity := Entity_JobInfo) d) with (db_jobs d).
  induction (db_jobs d) as [|i x m L IH] using map_ind.
  - by rewrite map_filter_empty, map_to_list_empty.
  - etransitivity; [apply filter_perm, Permutation_map, (map_to_list_insert _ _ _ L)|]. cbn [map List.filter snd].
    destruct (waits x) eqn:W.
    + rewrite map_filter_insert_True by done.
      etransitivity; [exact (perm_skip _ IH)|]. symmetry.
      apply (Permutation_map snd (map_to_list_insert (filter (fun kr => waits (snd kr) = true) m) i x
        ltac:(apply map_lookup_filter_None; by left))).
    + by rewrite map_filter_insert_not' by (cbn; intros; congruence).
Qed.

Lemma waiting_nodup d : job_id_ok d -> NoDup (map job_ID (waiting_list d)).
Proof.
  intros W. unfold waiting_list. rewrite (Permutation_map job_ID (merge_sort_Permutation _ _)). apply NoDup_map_filter.
  unfold rows. replace (map job_ID (map snd (map_to_list (table (Entity := Entity_JobInfo) d))))
    with (map fst (map_to_list (db_jobs d))); [apply NoDup_fst_map_to_list|].
  rewrite map_map. apply map_ext_in. intros [k r] Hin. apply list_elem_of_In, elem_of_map_to_list in Hin.
  cbn. symmetry. by apply (W k r Hin).
Qed.

(** ** What the loop does to the store *)

Record shrinks (d d' : Database) : Prop := {
  same_spaces : db_workspaces d' = db_workspaces d;
  same_apps : db_apps d' = db_apps d;
  only_settled id : db_jobs d' !! id = db_jobs d !! id \/
    exists r r', db_jobs d !! id = Some r /\ waits r = true /\ db_jobs d' !! id = Some r' /\ waits r' = false /\ job_ID r' = job_ID r
}.

#[export] Instance shrinks_preorder : PreOrder shrinks.
Proof.
  split; [split; auto|]. intros a b c [S1 A1 J1] [S2 A2 J2]. split; [congruence..|]. intros id.
  destruct (J1 id) as [E|(r & r' & L & W & L' & W' & I)]; [rewrite <- E; apply J2|]. right.
  destruct (J2 id) as [E|(r2 & _ & L2 & W2 & _)]; [|congruence]. exists r, r'. by rewrite E.
Qed.

Lemma shrinks_ids d d' : shrinks d d' -> job_id_ok d -> job_id_ok d'.
Proof.
  intros [_ _ J] W id r L. destruct (J id) as [E|(r0 & r' & L0 & _ & L' & _ & I)]; [apply W; congruence|].
  assert (r = r') as -> by congruence. rewrite I. by apply W.
Qed.

Lemma shrinks_settled d d' id r : shrinks d d' -> db_jobs d !! id = Some r -> waits r = false -> db_jobs d' !! id = Some r.
Proof. intros [_ _ J] L W. destruct (J id) as [E|(r0 & _ & L0 & W0 & _)]; congruence. Qed.

Lemma shrinks_waiting d d' id r : shrinks d d' -> db_jobs d' !! id = Some r -> waits r = true -> db_jobs d !! id = Some r.
Proof. intros [_ _ J] L W. destruct (J id) as [E|(r0 & r' & _ & _ & L' & W' & _)]; congruence. Qed.

Lemma shrinks_map d d' : shrinks d d' -> waiting_map d' ⊆ waiting_map d.
Proof.
  intros S. apply map_subseteq_spec. intros id r. unfold waiting_map. rewrite !map_lookup_filter_Some. cbn.
  intros [L W]. split; [|done]. by eapply shrinks_waiting.
Qed.

Lemma shrinks_size d d' : shrinks d d' -> (size (waiting_map d') <= size (waiting_map d))%nat.
Proof. intros S. by apply map_subseteq_size, shrinks_map. Qed.

(** Nothing was settled when the selection is as large as before. *)
Lemma shrinks_same d d' : shrinks d d' -> size (waiting_map d') = size (waiting_map d) -> db_jobs d' = db_jobs d.
Proof.
  intros S E. assert (M : waiting_map d' = waiting_map d) by (apply map_subseteq_size_eq; [by apply shrinks_map|lia]).
  apply map_eq. intros id. destruct (only_settled _ _ S id) as [|(r & r' & L & W & L' & W' & _)]; [done|]. exfalso.
  assert (X : waiting_map d' !! id = Some r) by (rewrite M; apply map_lookup_filter_Some; auto).
  apply map_lookup_filter_Some in X as [X _]. congruence.
Qed.

(** ** One record, one page *)

Section Reach.
Context {Q : Type} `{QuantityOps Q} `{KubernetesJson Q}.
Context (decode_job : Json -> option (Job Q)) (order : JobRetryPolicy Q -> list (string * Z)).
Context (cluster : Cluster Q) (crons : CronCluster Q).
Abbreviation cleanup := (cleanupRecoveredCancelledJob (Some cluster) crons decode_job order).
Abbreviation turn := (cleanup_turn (Some cluster) crons decode_job order).

(** No other session is at work. *)
Definition alone (k : KubeRun Q) : Prop := w_env (world_of k) = [].

Lemma alone_noeffect w w' : w_env w = [] -> noeffect w w' -> w_env w' = [] /\ w_db w' = w_db w.
Proof. intros A (es & E & -> & _). rewrite A in E. symmetry in E. by apply app_eq_nil in E as [-> ->]. Qed.

Lemma cleanup_one record k : alone k -> job_id_ok (store_of k) ->
  db_jobs (store_of k) !! job_ID record = Some record -> waits record = true ->
  alone (snd (cleanup record k)) /\
  match fst (cleanup record k) with
  | Ok _ => shrinks (store_of k) (store_of (snd (cleanup record k))) /\
      (forall id, id <> job_ID record -> db_jobs (store_of (snd (cleanup record k))) !! id = db_jobs (store_of k) !! id) /\
      exists r', db_jobs (store_of (snd (cleanup record k))) !! job_ID record = Some r' /\ waits r' = false
  | Err _ => store_of (snd (cleanup record k)) = store_of k
  end.
Proof.
  intros A I L W. pose proof (cleanup_effect decode_job order cluster crons record k) as X. unfold alone, store_of in *.
  destruct (fst (cleanup record k)) as [u|e].
  2: by apply (alone_noeffect _ _ A).
  destruct X as (outcome & Ne & w1 & row & N & L1 & _ & _ & _ & _ & _ & ->).
  destruct (alone_noeffect _ _ A N) as [E D]. rewrite D in L1 |- *. assert (row = record) as -> by congruence.
  set (r' := settled_row record outcome _ record).
  assert (W' : waits r' = false).
  { apply waits_reason. unfold r', settled_row. by destruct (str_empty _). }
  assert (I' : job_ID r' = job_ID record) by (unfold r', settled_row; by destruct (str_empty _)).
  split; [exact E|]. cbn. split; [|split].
  - split; [done..|]. intros id. cbn. destruct (decide (id = job_ID record)) as [->|Nid].
    + right. exists record, r'. by rewrite lookup_insert_eq.
    + left. by rewrite lookup_insert_ne.
  - intros id Nid. by rewrite lookup_insert_ne.
  - exists r'. by rewrite lookup_insert_eq.
Qed.

(** *** The time of a page *)

(** No look finds the page's time over; it can still run out in a wait. *)
Definition no_late (k : KubeRun Q) : Prop := List.Forall (eq false) (kr_looks k).

Definition looked (k k' : KubeRun Q) : Prop := exists before, kr_looks k = (before ++ kr_looks k')%list.

#[local] Instance looked_preorder : PreOrder looked.
Proof.
  split; [intros k; by exists []|]. intros a b c (l1 & E1) (l2 & E2). exists (l1 ++ l2)%list. by rewrite E1, E2, app_assoc.
Qed.

Lemma looked_late k k' : looked k k' -> no_late k -> no_late k'.
Proof. intros (l & E). unfold no_late. rewrite E. intros X. by apply List.Forall_app in X as [_ X]. Qed.

Lemma looked_same {A} (m : K Q A) : (forall k, kr_looks (snd (m k)) = kr_looks k) -> kkeeps looked m.
Proof. intros E k. exists []. by rewrite E. Qed.

Lemma looked_look : kkeeps looked next_look.
Proof. intros k. unfold next_look. destruct (kr_looks k) as [|late r] eqn:E; [by exists []|]. exists [late]. by rewrite E. Qed.
Lemma looked_expire : kkeeps looked expire.
Proof. by apply looked_same. Qed.
Lemma looked_note ev : kkeeps looked (note ev).
Proof. by apply looked_same. Qed.
Lemma looked_ticks : kkeeps looked next_ticks.
Proof. apply looked_same. intros k. unfold next_ticks. by destruct (kr_ticks k). Qed.
Lemma looked_db {A} (m : M A) : kkeeps looked (kdb m).
Proof. apply looked_same. intros k. unfold kdb, in_job. by destruct (jdb m (kr_run k)). Qed.
#[local] Hint Resolve looked_look looked_expire looked_note looked_ticks looked_db : kube.

Lemma looked_detached : kkeeps looked detached_ctx.
Proof. unfold detached_ctx. kkeeps_tac. Qed.
#[local] Hint Resolve looked_detached : kube.

Lemma looked_within {A} (call : K Q (result A)) : kkeeps looked call -> kkeeps looked (within call).
Proof. intros Hc. unfold within. kkeeps_tac. Qed.
#[local] Hint Resolve looked_within : kube.

Lemma looked_Get namespace name : kkeeps looked (kube_Get (Some cluster) namespace name).
Proof. unfold kube_Get. kkeeps_tac. Qed.
Lemma looked_cron_Get namespace name : kkeeps looked (cron_Get (Some cluster) crons namespace name).
Proof. unfold cron_Get. kkeeps_tac. Qed.
Lemma looked_finish record outcome : kkeeps looked (finish record outcome).
Proof. apply looked_within, looked_db. Qed.
#[local] Hint Resolve looked_Get looked_cron_Get looked_finish : kube.

Lemma looked_wait current uid kind : kkeeps looked current ->
  kkeeps looked (waitForCancelledKubernetesResourceDeletion (Q := Q) current uid kind).
Proof. intros Hc. unfold waitForCancelledKubernetesResourceDeletion. kkeeps_tac. Qed.

Lemma looked_delete_job namespace live : kkeeps looked (deleteCancelledKubernetesJob (Some cluster) namespace live).
Proof.
  unfold deleteCancelledKubernetesJob, deleteJobForeground, kube_Delete. kkeeps_tac; apply looked_wait; kkeeps_tac.
Qed.

Lemma looked_delete_cron namespace live : kkeeps looked (DeleteCancelledKubernetesCronJob (Some cluster) crons namespace live).
Proof. unfold DeleteCancelledKubernetesCronJob, cron_Delete. kkeeps_tac; apply looked_wait; kkeeps_tac. Qed.
#[local] Hint Resolve looked_delete_job looked_delete_cron : kube.

Lemma looked_cleanup record : kkeeps looked (cleanup record).
Proof.
  unfold cleanupRecoveredCancelledJob, remove_named, remove_cancelled_job, remove_cancelled_cron. kkeeps_tac.
Qed.

(** Within the page's time a call is made. *)
Lemma within_timely {A} (call : K Q (result A)) k : kr_expired k = false -> no_late k ->
  exists k', within call k = call k' /\ world_of k' = world_of k /\ kr_expired k' = false /\ no_late k'.
Proof.
  intros E N. unfold within, detached_ctx, kbind, kget. rewrite E. unfold no_late, next_look in *.
  destruct (kr_looks k) as [|late r] eqn:L.
  - exists k. rewrite L. by repeat split.
  - inversion_clear N as [|? ? <- N']. exists (k <| kr_looks := r |>). by repeat split.
Qed.

(** After it, nothing of a page happens. *)
Lemma within_over {A} (call : K Q (result A)) k : kr_expired k = true -> within call k = (Err DeadlineExceeded, k).
Proof. intros E. unfold within, detached_ctx, kbind, kget. by rewrite E. Qed.

Lemma cleanup_over record k : kr_expired k = true -> exists e, cleanup record k = (Err e, k).
Proof.
  intros E. unfold cleanupRecoveredCancelledJob. destruct (job_ExecutionKey record) as [key|]; [|by eexists].
  destruct (blank key); [by eexists|]. unfold kmust, kbind at 1. rewrite within_over by done. by eexists.
Qed.

Lemma records_over records cleaned err k : kr_expired k = true ->
  snd (cleanup_records (Some cluster) crons decode_job order records cleaned err k) = k.
Proof.
  intros E. revert cleaned err. induction records as [|record rest IH]; intros cleaned err; cbn [cleanup_records]; [done|].
  destruct (negb _); [apply IH|]. unfold kbind. destruct (cleanup_over record k E) as [e ->]. apply IH.
Qed.

Context (d0 : Database) (good : JobInfo -> Prop).

(** The states the loop goes through. *)
Definition under_way (k : KubeRun Q) : Prop :=
  alone k /\ job_id_ok (store_of k) /\ shrinks d0 (store_of k) /\ no_late k.

Hypothesis settles_good : forall k record, under_way k -> kr_expired k = false ->
  db_jobs (store_of k) !! job_ID record = Some record ->
  waits record = true -> good record -> exists u, fst (cleanup record k) = Ok u.

(** No removal takes all of the page's time. *)
Hypothesis removals_end : forall k record, under_way k -> kr_expired k = false ->
  db_jobs (store_of k) !! job_ID record = Some record ->
  waits record = true -> kr_expired (snd (cleanup record k)) = false.

Definition settled (r : JobInfo) (d : Database) : Prop := exists r', db_jobs d !! job_ID r = Some r' /\ waits r' = false.

Lemma settled_stays r d d' : shrinks d d' -> settled r d -> settled r d'.
Proof. intros S (r' & L & W). exists r'. split; [|done]. by eapply shrinks_settled. Qed.

Lemma cleanup_listed records : forall cleaned err k, under_way k -> kr_expired k = false -> NoDup (map job_ID records) ->
  (forall r, In r records -> db_jobs (store_of k) !! job_ID r = Some r /\ waits r = true) ->
  let k' := snd (cleanup_records (Some cluster) crons decode_job order records cleaned err k) in
  under_way k' /\ shrinks (store_of k) (store_of k') /\ (forall r, In r records -> good r -> settled r (store_of k')).
Proof.
  induction records as [|record rest IH]; intros cleaned err k U Tm N Hin; cbn zeta; cbn [cleanup_records].
  { split; [done|]. by split. }
  destruct (Hin record (or_introl eq_refl)) as [L W]. rewrite (waits_pending _ W). cbn [negb].
  pose proof U as (A & I & S0 & Nl). pose proof (cleanup_one record k A I L W) as [A1 X].
  pose proof (settles_good k record U Tm L W) as Good. pose proof (removals_end k record U Tm L W) as Tm1.
  pose proof (looked_late _ _ (looked_cleanup record k) Nl) as Nl1. unfold kbind.
  cbn [map] in N. apply NoDup_cons in N as [Nr N].
  destruct (cleanup record k) as [[u|e] k1]; cbn [fst snd] in *.
  - destruct X as (S1 & Others & r' & L' & W').
    assert (U1 : under_way k1) by (split; [done|split; [by eapply shrinks_ids|split; [by etransitivity|done]]]).
    destruct (IH (cleaned + 1) err k1 U1 Tm1 N) as (U2 & S2 & G2).
    { intros r Hr. destruct (Hin r (or_intror Hr)) as [Lr Wr]. split; [|done]. rewrite Others; [done|].
      intros E. apply Nr. rewrite <- E. by apply list_elem_of_In, in_map. }
    split; [exact U2|]. split; [by etransitivity|]. intros r [<-|Hr] Gr; [|by apply G2].
    apply (settled_stays _ _ _ S2). by exists r'.
  - assert (U1 : under_way k1) by (unfold under_way; rewrite X; by split).
    edestruct (IH cleaned) as (U2 & S2 & G2); [exact U1|exact Tm1|exact N| |].
    { intros r Hr. rewrite X. apply Hin. by right. }
    split; [exact U2|]. split; [by rewrite <- X|]. intros r [<-|Hr] Gr; [|by apply G2].
    destruct (Good Gr) as [u E]. discriminate.
Qed.

Definition listing (page : Z) (d : Database) : list JobInfo :=
  take 100 (drop (Z.to_nat (100 * (page - 1))) (waiting_list d)).

Lemma listing_in page d r : In r (listing page d) -> In r (waiting_list d).
Proof.
  unfold listing. set (n := Z.to_nat _). intros Hin. rewrite <- (take_drop n (waiting_list d)). apply in_or_app. right.
  rewrite <- (take_drop 100 (drop n _)). apply in_or_app. by left.
Qed.

Lemma listing_nodup page d : job_id_ok d -> NoDup (map job_ID (listing page d)).
Proof.
  intros W. pose proof (waiting_nodup d W) as N. unfold listing. set (n := Z.to_nat _).
  rewrite <- (take_drop n (waiting_list d)), map_app in N. apply NoDup_app in N as (_ & _ & N).
  rewrite <- (take_drop 100 (drop n _)), map_app in N. by apply NoDup_app in N as (N & _ & _).
Qed.

Definition next_page (page : Z) (d : Database) : Z := if (length (listing page d) <? 100)%nat then 1 else page + 1.

Lemma turn_page page k : under_way k -> 1 <= page < 2 ^ 62 ->
  let k' := snd (turn page k) in
  under_way k' /\ shrinks (store_of k) (store_of k') /\ fst (turn page k) = next_page page (store_of k) /\
  (forall r, In r (listing page (store_of k)) -> good r -> settled r (store_of k')).
Proof.
  intros U P. cbv zeta. destruct (turn page k) as [next k'] eqn:T. cbn [fst snd].
  unfold cleanup_turn, CleanupRecoveredCancelledJobsPage, kbind, kmodify, kret in T.
  set (k0 := k <| kr_expired := false |>) in *. assert (W0 : world_of k0 = world_of k) by reflexivity.
  assert (U0 : under_way k0) by exact U. pose proof U0 as (A & I & S0 & Nl).
  replace (page <=? 0) with false in T by (symmetry; apply Z.leb_gt; lia).
  change ((100 <=? 0) || (100 <? 100)) with false in T. cbv iota zeta in T.
  destruct (within_timely (kdb (List_ (E := JobInfo) (Index job_info_zero) (cancelled_cleanup_options page 100))) k0 eq_refl Nl)
    as (k00 & Ew & W00 & X00 & N00). rewrite Ew in T.
  destruct (kdb_run (List_ (E := JobInfo) (Index job_info_zero) (cancelled_cleanup_options page 100)) k00) as (F & W & _).
  rewrite W00 in F, W.
  assert (E : world_of k0 = seqw (store_of k) (w_wall (world_of k))).
  { unfold alone in A. unfold store_of, seqw. rewrite W0 in A |- *. destruct (world_of k). cbn in *. by subst. }
  rewrite E, seq_List in F, W by done. rewrite page_of_waiting in F by lia. cbn [fst snd] in F, W.
  assert (Tm1 : kr_expired (snd (kdb (List_ (E := JobInfo) (Index job_info_zero) (cancelled_cleanup_options page 100)) k00)) = false)
    by (unfold kdb, in_job; by destruct (jdb _ (kr_run k00))).
  pose proof (looked_late _ _ (looked_db (List_ (E := JobInfo) (Index job_info_zero) (cancelled_cleanup_options page 100)) k00) N00) as Nl1.
  destruct (kdb _ k00) as [r k1]. cbn [fst snd] in F, W, Tm1, Nl1. subst r. fold (listing page (store_of k)) in T.
  assert (D1 : store_of k1 = store_of k) by (unfold store_of at 1; by rewrite W).
  assert (U1 : under_way k1) by (unfold under_way; rewrite D1; split; [unfold alone; by rewrite W|by destruct U as (_ & ? & ? & _)]).
  destruct (cleanup_listed (listing page (store_of k)) 0 None k1 U1 Tm1) as (U2 & S2 & G2).
  { apply listing_nodup. by destruct U as (_ & ? & _). }
  { intros r Hr. rewrite D1. apply listing_in, in_waiting in Hr as [[id L] Wt]. split; [|done].
    destruct U as (_ & Iu & _). by rewrite (Iu _ _ L). }
  rewrite D1 in S2. destruct (cleanup_records _ _ _ _ _ _ _ k1) as [[cleaned err] k2]. cbn [fst snd] in *.
  injection T as <- <-. split; [exact U2|]. split; [exact S2|]. split; [|exact G2]. unfold next_page.
  destruct (Nat.ltb_spec (length (listing page (store_of k))) 100), (Z.ltb_spec (Z.of_nat (length (listing page (store_of k)))) 100); try lia.
  apply i64_small. unfold in_int64, min_int64, max_int64. lia.
Qed.

(** ** Rotations *)

Abbreviation turns n page k := (repeat_turns (Q := Q) turn n page k).

Lemma turns_add n m page k : turns (n + m) page k = turns m (fst (turns n page k)) (snd (turns n page k)).
Proof.
  revert page k. induction n as [|n IH]; intros page k; [done|]. cbn [repeat_turns Nat.add]. unfold kbind.
  destruct (turn page k) as [page1 k1]. apply IH.
Qed.

Context (n0 : nat).
Hypothesis n0_small : Z.of_nat n0 < 2 ^ 62.

(** The pages the loop can be at. *)
Definition pages : Z := Z.of_nat n0 / 100 + 1.

Lemma pages_bounds : 0 < pages < 2 ^ 62 /\ 100 * (pages - 1) <= Z.of_nat n0 < 100 * pages.
Proof.
  unfold pages. pose proof (Z.div_mod (Z.of_nat n0) 100 ltac:(lia)). pose proof (Z.mod_pos_bound (Z.of_nat n0) 100 ltac:(lia)).
  lia.
Qed.

Definition at_page (page : Z) (k : KubeRun Q) : Prop :=
  under_way k /\ 1 <= page <= pages /\ (size (waiting_map (store_of k)) <= n0)%nat.

Definition cleared (d : Database) : Prop := forall id r, db_jobs d !! id = Some r -> waits r = true -> ~ good r.

Lemma cleared_stays d d' : shrinks d d' -> cleared d -> cleared d'.
Proof. intros S C id r L W. eapply C; [by eapply shrinks_waiting|done]. Qed.

Lemma listing_full page d : 1 <= page -> (100 <= length (listing page d))%nat -> 100 * page <= Z.of_nat (size (waiting_map d)).
Proof. intros P F. rewrite <- waiting_length. unfold listing in F. rewrite length_take, length_drop in F. lia. Qed.

Lemma turn_at_page page k : at_page page k ->
  at_page (fst (turn page k)) (snd (turn page k)) /\ shrinks (store_of k) (store_of (snd (turn page k))).
Proof.
  intros (U & P & Z0). pose proof pages_bounds as B.
  destruct (turn_page page k U) as (U1 & S & E & _); [pose proof pages_bounds; lia|].
  split; [|exact S]. split; [exact U1|]. pose proof (shrinks_size _ _ S). split; [|lia]. rewrite E. unfold next_page.
  destruct (Nat.ltb_spec (length (listing page (store_of k))) 100) as [|F]; [lia|].
  pose proof (listing_full page (store_of k) ltac:(lia) F) as X. lia.
Qed.

Lemma turns_at_page n page k : at_page page k ->
  at_page (fst (turns n page k)) (snd (turns n page k)) /\ shrinks (store_of k) (store_of (snd (turns n page k))).
Proof.
  revert page k. induction n as [|n IH]; intros page k A; [by split|]. cbn [repeat_turns]. unfold kbind.
  pose proof (turn_at_page page k A) as [A1 S1]. destruct (turn page k) as [page1 k1]. cbn [fst snd] in *.
  destruct (IH page1 k1 A1) as [A2 S2]. split; [exact A2|by etransitivity].
Qed.

(** The loop comes back to the first page. *)
Lemma back_to_first n page k : at_page page k -> pages + 1 - page <= Z.of_nat n ->
  exists i, (i <= n)%nat /\ fst (turns i page k) = 1.
Proof.
  revert page k. induction n as [|n IH]; intros page k A L; [pose proof A as (_ & P & _); lia|].
  pose proof (turn_at_page page k A) as [A1 _]. pose proof A as (U & P & Z0). pose proof pages_bounds as B.
  destruct (turn_page page k U) as (_ & _ & E & _); [pose proof pages_bounds; lia|].
  unfold next_page in E. destruct (length (listing page (store_of k)) <? 100)%nat.
  - exists 1%nat. split; [lia|]. cbn [repeat_turns]. unfold kbind. by destruct (turn page k).
  - destruct (IH (fst (turn page k)) (snd (turn page k)) A1) as (i & Li & Ei); [lia|]. exists (S i). split; [lia|].
    cbn [repeat_turns]. unfold kbind. by destruct (turn page k).
Qed.

(** A rotation settles a record, or has tried all of them. *)
Lemma rotation n page k : at_page page k ->
  100 * (page - 1) <= Z.of_nat (size (waiting_map (store_of k))) ->
  (forall r, In r (take (Z.to_nat (100 * (page - 1))) (waiting_list (store_of k))) -> ~ good r) ->
  pages + 1 - page <= Z.of_nat n ->
  exists i, (i <= n)%nat /\ let d := store_of (snd (turns i page k)) in
    cleared d \/ (size (waiting_map d) < size (waiting_map (store_of k)))%nat.
Proof.
  revert page k. induction n as [|n IH]; intros page k A Fit Tried L; [pose proof A as (_ & P & _); lia|].
  pose proof (turn_at_page page k A) as [A1 S1]. pose proof A as (U & P & Z0). pose proof pages_bounds as B.
  destruct (turn_page page k U) as (_ & _ & E & G); [pose proof pages_bounds; lia|].
  assert (One : turns 1 page k = turn page k) by (cbn [repeat_turns]; unfold kbind; by destruct (turn page k)).
  destruct (Nat.eq_dec (size (waiting_map (store_of (snd (turn page k))))) (size (waiting_map (store_of k)))) as [Same|Less].
  2: { exists 1%nat. split; [lia|]. rewrite One. right. pose proof (shrinks_size _ _ S1). lia. }
  pose proof (shrinks_same _ _ S1 Same) as J.
  assert (Bad : forall r, In r (listing page (store_of k)) -> ~ good r).
  { intros r Hr Gr. destruct (G r Hr Gr) as (r' & L' & W'). rewrite J in L'.
    apply listing_in, in_waiting in Hr as [[id Lr] W]. destruct U as (_ & I & _). rewrite (I _ _ Lr) in L'. congruence. }
  assert (Next : take (Z.to_nat (100 * page)) (waiting_list (store_of k)) =
    (take (Z.to_nat (100 * (page - 1))) (waiting_list (store_of k)) ++ listing page (store_of k))%list).
  { unfold listing. replace (Z.to_nat (100 * page)) with (Z.to_nat (100 * (page - 1)) + 100)%nat by lia.
    symmetry. apply take_take_drop. }
  assert (Tried' : forall r, In r (take (Z.to_nat (100 * page)) (waiting_list (store_of k))) -> ~ good r).
  { intros r. rewrite Next, in_app_iff. intros [Hr|Hr]; auto. }
  assert (Lists : waiting_list (store_of (snd (turn page k))) = waiting_list (store_of k)).
  { unfold waiting_list, rows. cbn [table Entity_JobInfo]. by rewrite J. }
  unfold next_page in E. destruct (Nat.ltb_spec (length (listing page (store_of k))) 100) as [Short|Full].
  - exists 1%nat. split; [lia|]. rewrite One. left. intros id r Lr W. rewrite J in Lr. apply Tried'. rewrite take_ge.
    + apply in_waiting. eauto.
    + unfold listing in Short. rewrite length_take, length_drop in Short. lia.
  - pose proof (listing_full page (store_of k) ltac:(lia) Full) as X.
    destruct (IH (fst (turn page k)) (snd (turn page k)) A1) as (i & Li & D).
    + rewrite E, Same. lia.
    + rewrite E, Lists. by replace (page + 1 - 1) with page by lia.
    + lia.
    + exists (S i). split; [lia|]. change (S i) with (1 + i)%nat. rewrite turns_add, One. by rewrite Same in D.
Qed.

(** Enough rotations. *)
Lemma rotations s : forall page k, at_page page k -> (size (waiting_map (store_of k)) <= s)%nat ->
  exists i, Z.of_nat i <= 2 * pages * (Z.of_nat s + 1) /\ cleared (store_of (snd (turns i page k))).
Proof.
  induction s as [s IH] using lt_wf_ind. intros page k A Sz.
  pose proof pages_bounds as B.
  pose proof A as (_ & P & _).
  destruct (back_to_first (Z.to_nat pages) page k A) as (i1 & L1 & E1); [lia|].
  destruct (turns_at_page i1 page k A) as [A1 S1]. rewrite E1 in A1.
  destruct (rotation (Z.to_nat pages) 1 (snd (turns i1 page k)) A1) as (i2 & L2 & D); [lia| |lia|].
  { change (Z.to_nat (100 * (1 - 1))) with 0%nat. by intros r []. }
  pose proof (turns_add i1 i2 page k) as T. rewrite E1 in T. rewrite <- T in D. destruct D as [D|D].
  - exists (i1 + i2)%nat. split; [nia|exact D].
  - destruct (turns_at_page (i1 + i2) page k A) as [A2 S2].
    pose proof (shrinks_size _ _ S1) as Z1.
    destruct (IH (size (waiting_map (store_of (snd (turns (i1 + i2) page k))))) ltac:(lia) _ _ A2 ltac:(lia)) as (i3 & L3 & C).
    exists (i1 + i2 + i3)%nat. rewrite turns_add. split; [nia|exact C].
Qed.
End Reach.


(** ** A concrete loop *)

Definition gone_cluster : Cluster Z := {|
  on_get _ _ _ := Err ErrNotFound; on_create _ job := Ok job; on_update _ job := Ok job; on_delete _ _ _ _ _ := None;
  on_pods _ _ _ := Ok []; on_pod _ _ _ := Err ErrNotFound; on_logs _ _ _ _ := Err ErrNotFound; on_delete_pod _ _ _ _ := None |}.

Lemma left_namespace d t : db_workspaces d = db_workspaces left_database ->
  cancelled_namespace left_record (seqw d t) = (Ok "ns"%string, seqw d t).
Proof.
  intros W. unfold cancelled_namespace. rewrite (bind_ok _ _ _ "ws-1"%string (seqw d t)) by reflexivity.
  change (negb (str_empty "ws-1")) with true. cbv iota. rewrite (bind_ok _ _ _ left_space (seqw d t)); [reflexivity|]. apply wrap_ok.
  by apply (seq_Get (E := Workspace)); [..|cbn; rewrite W].
Qed.

Lemma left_finish d t : db_jobs d !! 2 = Some left_record ->
  fst (finishCancelledJobCleanup left_record CancelledJobCleanupComplete (seqw d t)) = Ok tt.
Proof.
  intros L. unfold finishCancelledJobCleanup. cbv zeta.
  erewrite bind_ok by (apply wrap_ok; eapply (seq_cas_true (E := JobInfo));
    [reflexivity|reflexivity|discriminate|reflexivity|exact L|reflexivity|reflexivity]).
  reflexivity.
Qed.

Lemma db_expired {A} (m : M A) (k : KubeRun Z) : kr_expired (snd (kdb m k)) = kr_expired k.
Proof. unfold kdb, in_job. by destruct (jdb m (kr_run k)). Qed.

Lemma left_settles k : alone k -> kr_expired k = false -> no_late k -> db_workspaces (store_of k) = db_workspaces left_database ->
  db_jobs (store_of k) !! 2 = Some left_record ->
  exists k', cleanupRecoveredCancelledJob (Some gone_cluster) no_crons z_decode_job no_order left_record k = (Ok tt, k') /\
    kr_expired k' = false.
Proof.
  intros A Ex Nl W L. assert (E : world_of k = seqw (store_of k) (w_wall (world_of k))).
  { unfold alone, store_of, seqw in *. destruct (world_of k). cbn in *. by subst. }
  unfold cleanupRecoveredCancelledJob. change (job_ExecutionKey left_record) with (Some "key-2"%string). cbv iota.
  change (blank "key-2") with false. cbv iota. unfold kmust at 1, kbind at 1.
  destruct (within_timely (kdb (cancelled_namespace left_record)) k Ex Nl) as (k0 & -> & W0 & Ex0 & Nl0).
  destruct (kdb_run (cancelled_namespace left_record) k0) as (F & Wd & _). rewrite W0, E, left_namespace in F, Wd by done.
  pose proof (db_expired (cancelled_namespace left_record) k0) as Ex1. rewrite Ex0 in Ex1.
  pose proof (looked_late _ _ (looked_db (cancelled_namespace left_record) k0) Nl0) as Nl1.
  destruct (kdb _ k0) as [r k1]. cbn [fst snd] in F, Wd, Ex1, Nl1. subst r.
  change (cancelled_resource z_decode_job no_order left_record "key-2" "ns") with (@Ok string "web"%string).
  unfold kmust, kbind, kret. unfold remove_named, kbind.
  destruct (within_timely (kube_Get (Some gone_cluster) "ns" "web") k1 Ex1 Nl1) as (k2 & -> & W2 & Ex2 & Nl2).
  unfold kube_Get, kbind, kget, note, kmodify, kret. cbn [on_get gone_cluster]. cbv iota zeta.
  change (errors_is ErrNotFound ErrNotFound) with true. cbv iota. unfold remove_cancelled_cron. cbv zeta.
  change (job_Type left_record =? JobDeployScheduled)%string with false. cbv iota. unfold finish.
  match goal with |- exists k', within ?call ?k3 = _ /\ _ => destruct (within_timely call k3 Ex2 Nl2) as (k4 & -> & W4 & Ex4 & _) end.
  match goal with |- exists k', kdb ?m ?k4 = _ /\ _ => destruct (kdb_run m k4) as (F & _ & _); pose proof (db_expired m k4) as Ex5;
    exists (snd (kdb m k4)); rewrite Ex5; split; [|exact Ex4]; rewrite (surjective_pairing (kdb m k4)); f_equal; rewrite F end.
  rewrite W4. match goal with |- context [world_of ?x] => change (world_of x) with (world_of k2) end.
  rewrite W2, Wd. by apply left_finish.
Qed.


(** ** A deletion that does not end *)

(** The Job is never gone. *)
Definition held_cluster : Cluster Z := {|
  on_get _ _ name := if (name =? "web")%string then Ok left_job else Err ErrNotFound;
  on_create _ job := Ok job; on_update _ job := Ok job; on_delete _ _ _ _ _ := None;
  on_pods _ _ _ := Ok []; on_pod _ _ _ := Err ErrNotFound; on_logs _ _ _ _ := Err ErrNotFound; on_delete_pod _ _ _ _ := None |}.

(** A later record, whose Job is already gone. *)
Definition later_record : JobInfo :=
  left_record <| job_ID := 3 |> <| job_ExecutionKey := Some "key-3"%string |> <| job_ServiceName := "api"%string |>
    <| job_UpdateTime := 1 |>.

Definition held_run (ns : list (KubeEvent Z)) (expired : bool) : KubeRun Z :=
  (web_run (left_database <| db_jobs := {[2 := left_record; 3 := later_record]} |>)) <| kr_expired := expired |> <| kr_log := ns |>.

Lemma held_turn log expired : exists log',
  cleanup_turn (Some held_cluster) no_crons z_decode_job no_order 1 (held_run log expired) = (1, held_run log' true).
Proof. eexists. vm_compute. reflexivity. Qed.

(** The page's time goes to the first record, turn after turn: the later one is never settled. *)
Example held_deletion_starves_page : forall turns log expired,
  waits <$> db_jobs (store_of (snd (repeat_turns (cleanup_turn (Some held_cluster) no_crons z_decode_job no_order) turns 1
    (held_run log expired)))) !! 3 = Some true.
Proof.
  induction turns as [|turns IH]; intros log expired; [vm_compute; reflexivity|]. cbn [repeat_turns]. unfold kbind.
  destruct (held_turn log expired) as [log' ->]. apply IH.
Qed.
