(* ===== verification/Scheduled.v ===== *)
(** The controller of scheduled jobs: [pkg/apiserver/event/workflow/job/jobdelay/scheduled.go].

    The payload of a scheduled job is a CronJob, which is created or updated, or a Job
    that runs once: now, or, when its start time is ahead, through the delay queue.
    [cron_info] is the payload when it is a CronJob; a Job is [kr_info] of [KubeJobs]. *)

From S2P Require Import Prelude GoStrings Config Json Quantity Policy Model Store Lease Budget.
From S2P Require Import Signals Scheduler PodResources Retry Cleanup JobInfos Components Controller JobExec RunJob.
From S2P Require Import KubeJobs PodLogs DelayQueue Instant CancelRecovery.

Definition ResourceCronJob : string := "cronjob".

(** [jobresult/result.go] *)
Definition StampCronJobExecutionIdentity (task : JobTask) (cron : CronJob) : CronJob :=
  let stamp key value (cron : CronJob) := cron <| cj_Annotations := <[key := value]> (cj_Annotations cron) |> in
  let cron := stamp AnnotationJobTaskID (TrimSpace (jt_TaskID task)) cron in
  let cron := stamp AnnotationJobExecutionKey (TrimSpace (jt_ExecutionKey task)) cron in
  let cron := if 0 <? jt_RunGeneration task
              then stamp AnnotationJobRunGeneration (FormatUint (jt_RunGeneration task) 10) cron else cron in
  let attempt := if jt_Attempt task =? 0 then u64 (i64 (jt_RetryCount task + 1)) else jt_Attempt task in
  stamp AnnotationJobAttempt (FormatUint attempt 10) cron.

Section Scheduled.
Context {Q : Type} `{QuantityOps Q} `{KubernetesJson Q}.
Variable client : option (Cluster Q).
Variable crons : CronCluster Q.
Variable cron_info : option CronJob.
Variable decode_job : Json -> option (Job Q).
Variable order : JobRetryPolicy Q -> list (string * Z).
Variable encode_checkpoint : InstantJobRetryCheckpoint Q -> result string.
Variable encode_payload : DelayJobPayload Q -> result string.
Variable scope : option string.
Variable error_text : error -> string.
Variable Ack : C unit.
Variable c_Namespace : string.

(** [jobinfo.ScheduledJobInfo]: a CronJob or a Job. *)
Definition ScheduledJobInfo : K Q (result (CronJob + Job Q)) :=
  kube! k := kget in
  kret (match cron_info, kr_info k with
        | Some cron, _ => Ok (inl cron)
        | None, Some job => Ok (inr job)
        | None, None => Err (Errorf "scheduled job info has unexpected type")
        end).

(** Failures of a deletion are only logged. *)
Definition scheduled_Clean : K Q unit :=
  match client with
  | None => kret tt
  | Some _ =>
      kube! _ := CleanCreatedBatchJobs client c_Namespace in
      CleanupNamespacedResources ResourceCronJob c_Namespace (fun namespace name => cron_Delete client crons namespace name None)
  end.

(** The task shows the metadata of its payload. *)
Definition set_cron_info (cron : CronJob) : K Q unit :=
  update_job (fun task => task <| jt_InfoAnnotations := cj_Annotations cron |>).

Definition runCronJob (cron : CronJob) : K Q (result unit) :=
  let cron := if str_empty (cj_Namespace cron) then cron <| cj_Namespace := c_Namespace |> else cron in
  kube! task := get_job in
  let cron := StampCronJobExecutionIdentity task cron in
  kube! _ := set_cron_info cron in
  let namespace := cj_Namespace cron in
  must! _ := CreateOrUpdateTrackedResource
    (cron_Get client crons namespace (cj_Name cron)) (cron_Create client crons cron)
    (fun existing => must! _ := cron_Update client crons (cron <| cj_ResourceVersion := cj_ResourceVersion existing |>) in kok tt)
    ResourceCronJob namespace (cj_Name cron) in
  kok tt.

Definition scheduled_distribute (job : Job Q) (startTime : Z) : K Q (result unit) :=
  kube! task := get_job in
  let payload := {|
    dp_ExecuteAt := startTime; dp_Namespace := kj_Namespace job;
    dp_JobType := JobTypeForTask (Some task) JobDeployScheduled; dp_Job := Some job; dp_TaskID := jt_TaskID task;
    dp_ExecutionKey := jt_ExecutionKey task; dp_RunGeneration := jt_RunGeneration task;
    dp_RunToken := jt_RunToken task; dp_ServiceName := ResolveJobServiceName task; dp_TimeoutSeconds := jt_Timeout task |} in
  must! _ := PersistDelayJobCheckpoint decode_job order encode_checkpoint scope encode_payload payload in
  (* the notification of the queue is best effort *)
  kube! _ := kack Ack in
  kok tt.

Definition runOneTimeJob (job : Job Q) : K Q (result unit) :=
  kube! task := get_job in
  let job := StampJobExecutionIdentity task (with_namespace c_Namespace job) in
  kube! _ := set_info job in
  must! _ := kdb (EnsureCurrentJobWorkflowOwnership task) in
  must! action := ApplyJobRunPolicy client job (JobTypeForTask (Some task) JobDeployScheduled) in
  match action with
  | RunPolicyActionSkip =>
      kube! _ := update_job (fun job => job <| jt_Status := StatusSkipped |> <| jt_Error := ""%string |>) in
      kube! _ := kack Ack in
      kok tt
  | runPolicyActionCreate =>
      kube! now := in_job now_unix in
      let create := must! _ := CreateBatchJob client job in kok tt in
      match StartTimeFromJob job with
      | Some startTime => if now <? startTime then scheduled_distribute job startTime else create
      | None => create
      end
  end.

Definition scheduled_run : K Q (result unit) :=
  match client with
  | None => kerr no_client
  | Some _ =>
      must! info := ScheduledJobInfo in
      match info with
      | inl cron => runCronJob cron
      | inr job => runOneTimeJob job
      end
  end.

Definition scheduled_Run : K Q Ran :=
  let failed e message :=
    kube! _ := update_job (fun job => ApplyJobError error_text job (Some e) message) in kret (Returned (Some e)) in
  let settle f := kube! _ := update_job f in kret (Returned None) in
  kube! _ := update_job (fun job => job <| jt_Status := StatusRunning |> <| jt_Error := ""%string |>) in
  kube! _ := kack Ack in
  kube! ran := scheduled_run in
  match ran with
  | Err e => failed e ""%string
  | Ok _ =>
      kube! task := get_job in
      if one_of [StatusSkipped; StatusDistributed] (jt_Status task)
      then settle (fun job => job <| jt_Error := ""%string |>) else
      match cron_info with
      | Some _ => settle (fun job => job <| jt_Status := StatusCompleted |> <| jt_Error := ""%string |>)
      | None =>
          kube! waited := WaitBatchJob client error_text c_Namespace in
          let '(status, message, err) := waited in
          match err with
          | Some e => failed e message
          | None => settle (fun job =>
              job <| jt_Status := if str_empty status then StatusCompleted else status |> <| jt_Error := ""%string |>)
          end
      end
  end.

(** The base's [SaveInfo]. *)
Definition scheduled_SaveInfo : K Q (option error) :=
  kube! r := save_info decode_job order encode_checkpoint scope in
  kret (match r with Ok _ => None | Err e => Some e end).

(** The first CronJob the run created. *)
Definition cancel_created_cron (refs : list ResourceRef) : K Q (string * option error) :=
  match List.filter ref_Created refs with
  | [] => kret (CancelledJobCleanupPreserved, None)
  | ref :: _ =>
      let namespace := if str_empty (ref_Namespace ref) then c_Namespace else ref_Namespace ref in
      kube! r := cron_Get client crons namespace (ref_Name ref) in
      match r with
      | Err e => if errors_is ErrNotFound e then kret (CancelledJobCleanupComplete, None)
                 else kret (""%string, Some (Wrapf "get cancelled Kubernetes CronJob" e))
      | Ok cron =>
          kube! task := get_job in
          if negb (CancelledCronJobMatches (BuildJobInfoRecord task) cron)
          then kret (""%string, Some (Errorf "cancelled Kubernetes CronJob execution identity changed")) else
          kube! deleted := DeleteCancelledKubernetesCronJob client crons namespace cron in
          kret (match deleted with
                | Ok _ => (CancelledJobCleanupComplete, None)
                | Err e => (""%string, Some e)
                end)
      end
  end.

Definition scheduled_CleanCancelled : K Q (string * option error) :=
  kube! k := kget in
  match cron_info, kr_info k with
  | None, Some _ =>
      kube! deleted := DeleteCancelledBatchJob client decode_job order c_Namespace in
      kret (CancelledJobCleanupComplete, match deleted with Ok _ => None | Err e => Some e end)
  | _, _ => kube! refs := ResourcesForCleanup ResourceCronJob in cancel_created_cron refs
  end.
End Scheduled.
