(* ===== verification/ScheduledSpec.v ===== *)
(** The controller of scheduled jobs behind the interface of the job runner:
    [pkg/apiserver/event/workflow/job/jobdelay/scheduled.go].

    [NewScheduledJobCtl] packs the operations of [Scheduled.v] as the [JobController] that
    [RunJob.runJob] calls; the theorems discharge for it what the runner assumes, and say
    what a run and a clean-up ask of the cluster. *)

From S2P Require Import Prelude GoStrings Config Json Quantity Policy Model Store Hoare Lease LeaseProtocol.
From S2P Require Import Budget Creation Signals Scheduler Admission AdmissionSpec AdmissionGuard PodResources Retry Cleanup.
From S2P Require Import JobInfos Components Controller ControllerSpec ControllerSafety JobExec RunJob RunJobSpec.
From S2P Require Import JobRunner KubeJobs PodLogs DelayQueue Instant KubeSpec Sha1 Outbox OutboxSpec Results ResultsSpec.
From S2P Require Import CancelRecovery CancelRecoverySpec Scheduled.

(** ** The operations, walked through once *)

Section Walk.
Context {Q : Type} `{QuantityOps Q} `{KubernetesJson Q}.
Context (client : option (Cluster Q)) (crons : CronCluster Q) (cron_info : option CronJob).
Context (decode_job : Json -> option (Job Q)) (order : JobRetryPolicy Q -> list (string * Z)).
Context (encode_checkpoint : InstantJobRetryCheckpoint Q -> result string).
Context (encode_payload : DelayJobPayload Q -> result string) (scope : option string) (error_text : error -> string).
Context (Ack : C unit) (c_Namespace : string).

Context (R : relation JobRun) `{PreR : !PreOrder R}.
Hypothesis R_cause : jkeeps R job_cause.
Hypothesis R_ack : jkeeps R (exec Ack).
Hypothesis R_db : forall A (m : M A), framed m -> jkeeps R (jdb m).
Hypothesis R_quiet : forall f, quiet_update f -> jkeeps R (set_job f).

Abbreviation kR := (kkeeps (Q := Q) (on_run R)).

Hint Resolve kR_db kR_quiet kR_job_ctx kR_note kR_Get kR_track kR_clean_created kR_detached kR_expire kR_ticks kR_save_info kR_foreground : kube.

Lemma kR_cron_Get namespace name : kR (cron_Get client crons namespace name).
Proof. unfold cron_Get. kkeeps_tac. Qed.
Lemma kR_cron_Create cron : kR (cron_Create client crons cron).
Proof. unfold cron_Create. kkeeps_tac. Qed.
Lemma kR_cron_Update cron : kR (cron_Update client crons cron).
Proof. unfold cron_Update. kkeeps_tac. Qed.
Lemma kR_cron_Delete namespace name uid : kR (cron_Delete client crons namespace name uid).
Proof. unfold cron_Delete. kkeeps_tac. Qed.
Hint Resolve kR_cron_Get kR_cron_Create kR_cron_Update kR_cron_Delete : kube.

Lemma kR_scheduled_Clean : kR (scheduled_Clean client crons c_Namespace).
Proof.
  unfold scheduled_Clean, CleanupNamespacedResources, ResourcesForCleanup. kkeeps_tac. apply kR_refs; [apply _|]. kkeeps_tac.
Qed.

Lemma kR_scheduled_SaveInfo : kR (scheduled_SaveInfo decode_job order encode_checkpoint scope).
Proof. unfold scheduled_SaveInfo. kkeeps_tac. Qed.

Lemma kR_scheduled_CleanCancelled : kR (scheduled_CleanCancelled client crons cron_info decode_job order c_Namespace).
Proof.
  unfold scheduled_CleanCancelled, cancel_created_cron, DeleteCancelledKubernetesCronJob, ResourcesForCleanup,
    DeleteCancelledBatchJob, deleteCancelledKubernetesJob, waitForCancelledKubernetesResourceDeletion.
  kkeeps_tac.
Qed.

(** [Run] sets the verdict. *)
Hypothesis R_set : forall f, jkeeps R (set_job f).
Hypothesis R_now : jkeeps R now_unix.

Hint Resolve kR_update kR_info kR_kack kR_create_job kR_wait_job kR_policy kR_now : kube.

Lemma kR_scheduled_Run : kR (scheduled_Run client crons cron_info decode_job order encode_checkpoint encode_payload scope
  error_text Ack c_Namespace).
Proof.
  unfold scheduled_Run, scheduled_run, ScheduledJobInfo, runCronJob, runOneTimeJob, scheduled_distribute, set_cron_info,
    PersistDelayJobCheckpoint, CreateOrUpdateTrackedResource, CreateOrUpdateResource, MarkResourceCreated, MarkResourceObserved.
  kkeeps_tac.
Qed.
End Walk.

(** ** The controller *)

Section Controller.
Context {Q : Type} `{QuantityOps Q} `{KubernetesJson Q}.
Variables (client : option (Cluster Q)) (crons : CronCluster Q).
(** The payload of a task: a CronJob or a Job. *)
Variables (cron_payload : JobTask -> option CronJob) (workload : JobTask -> option (Job Q)).
Variables (decode_job : Json -> option (Job Q)) (order : JobRetryPolicy Q -> list (string * Z)).
Variable encode_checkpoint : InstantJobRetryCheckpoint Q -> result string.
Variable encode_payload : DelayJobPayload Q -> result string.
Variables (scope : option string) (error_text : error -> string) (Ack : C unit).

Definition scheduled_operations (cron_info : option CronJob) (c_Namespace : string) : Operations Q := {|
  op_Run := scheduled_Run client crons cron_info decode_job order encode_checkpoint encode_payload scope error_text Ack c_Namespace;
  op_Clean := scheduled_Clean client crons c_Namespace;
  op_SaveInfo := scheduled_SaveInfo decode_job order encode_checkpoint scope;
  op_CleanCancelled := scheduled_CleanCancelled client crons cron_info decode_job order c_Namespace |}.

Definition NewScheduledJobCtl (run clean save cancelled : Call Q) (task : JobTask) : JobController :=
  ClusterController workload (scheduled_operations (cron_payload task) (jt_Namespace task)) run clean save cancelled.

Lemma scheduled_walked cron_info c_Namespace : Walked Ack (scheduled_operations cron_info c_Namespace).
Proof.
  split; cbn [op_Run op_Clean op_SaveInfo op_CleanCancelled scheduled_operations].
  - intros R PR Cause Acked Db Set_ Now. by apply kR_scheduled_Run.
  - intros R PR Cause Acked Db Quiet. by apply kR_scheduled_Clean.
  - intros R PR Cause Acked Db Quiet. by apply kR_scheduled_SaveInfo.
  - intros R PR Cause Acked Db Quiet. by apply kR_scheduled_CleanCancelled.
Qed.

(** The scheduled-job controller is lawful, like the controller of instant jobs. *)
Theorem scheduled_controller_lawful run clean save cancelled task :
  JobControllerLaws (NewScheduledJobCtl run clean save cancelled task) /\
  forall P, OwnerFrame P -> JobControllerFrame P Ack (NewScheduledJobCtl run clean save cancelled task).
Proof.
  split; [apply (walked_laws Ack), scheduled_walked|]. intros P F. apply walked_frame; [apply scheduled_walked|exact F].
Qed.
End Controller.

(** ** A CronJob, from its creation to its removal *)

(** The identity of the execution is complete and without white space, and the attempt of
    the record is the one stamped. *)
Record identified (task : JobTask) : Prop := {
  task_trimmed : TrimSpace (jt_TaskID task) = jt_TaskID task;
  key_trimmed : TrimSpace (jt_ExecutionKey task) = jt_ExecutionKey task;
  key_there : jt_ExecutionKey task <> ""%string;
  generation_there : 0 < jt_RunGeneration task;
  attempt_counted : jt_Attempt task = 0 \/ u64 (i64 (jt_RetryCount task + 1)) <= jt_Attempt task;
}.

Definition same_execution (task task' : JobTask) : Prop :=
  jt_TaskID task' = jt_TaskID task /\ jt_ExecutionKey task' = jt_ExecutionKey task /\
  jt_RunGeneration task' = jt_RunGeneration task /\ jt_Attempt task' = jt_Attempt task /\ jt_RetryCount task' = jt_RetryCount task.

(** What the stamp writes. *)
Definition stamped_attempt_of (task : JobTask) : Z :=
  if jt_Attempt task =? 0 then u64 (i64 (jt_RetryCount task + 1)) else jt_Attempt task.

Section Stamp.
Context (task : JobTask) (cron : CronJob).
Abbreviation stamp key := (str_get (cj_Annotations (StampCronJobExecutionIdentity task cron)) key).

Lemma stamped_annotations : cj_Annotations (StampCronJobExecutionIdentity task cron) =
  <[AnnotationJobAttempt := FormatUint (stamped_attempt_of task) 10]>
  ((if 0 <? jt_RunGeneration task then insert AnnotationJobRunGeneration (FormatUint (jt_RunGeneration task) 10) else id)
  (<[AnnotationJobExecutionKey := TrimSpace (jt_ExecutionKey task)]>
  (<[AnnotationJobTaskID := TrimSpace (jt_TaskID task)]> (cj_Annotations cron)))).
Proof. unfold StampCronJobExecutionIdentity. by destruct (0 <? jt_RunGeneration task). Qed.

Ltac stamp_lookup :=
  unfold str_get; rewrite stamped_annotations; destruct (0 <? jt_RunGeneration task) eqn:G; unfold id;
  repeat (rewrite lookup_insert_eq || (rewrite lookup_insert_ne by discriminate)); try done.

Lemma stamped_task : stamp AnnotationJobTaskID = TrimSpace (jt_TaskID task).
Proof. stamp_lookup. Qed.
Lemma stamped_key : stamp AnnotationJobExecutionKey = TrimSpace (jt_ExecutionKey task).
Proof. stamp_lookup. Qed.
Lemma stamped_generation : 0 < jt_RunGeneration task -> stamp AnnotationJobRunGeneration = FormatUint (jt_RunGeneration task) 10.
Proof. intros P. apply Z.ltb_lt in P. stamp_lookup. Qed.
Lemma stamped_attempt : stamp AnnotationJobAttempt = FormatUint (stamped_attempt_of task) 10.
Proof. stamp_lookup. Qed.

Lemma attempts_agree : jt_Attempt task = 0 \/ u64 (i64 (jt_RetryCount task + 1)) <= jt_Attempt task ->
  Z.max (jt_Attempt task) (u64 (i64 (jt_RetryCount task + 1))) = stamped_attempt_of task.
Proof.
  unfold stamped_attempt_of. pose proof (Z.mod_pos_bound (i64 (jt_RetryCount task + 1)) two64 eq_refl) as B. fold (u64 (i64 (jt_RetryCount task + 1))) in B.
  destruct (Z.eqb_spec (jt_Attempt task) 0); lia.
Qed.
End Stamp.

(** What the stamp says of a task is what the removal asks for. *)
Lemma stamp_matches task task' cron live : identified task -> same_execution task task' ->
  cj_Annotations live = cj_Annotations (StampCronJobExecutionIdentity task cron) -> cj_UID live <> ""%string ->
  CancelledCronJobMatches (BuildJobInfoRecord task') live = true.
Proof.
  intros [T Kt Kn G A] (E1 & E2 & E3 & E4 & E5) An U.
  destruct (CancelledCronJobMatches (BuildJobInfoRecord task') live) eqn:M; [done|]. exfalso. revert M.
  unfold CancelledCronJobMatches.
  change (job_ExecutionKey (BuildJobInfoRecord task')) with
    (if str_empty (jt_ExecutionKey task') then None else Some (jt_ExecutionKey task')).
  change (job_TaskID (BuildJobInfoRecord task')) with (jt_TaskID task').
  change (job_RunGeneration (BuildJobInfoRecord task')) with (jt_RunGeneration task').
  change (job_Attempt (BuildJobInfoRecord task')) with (Z.max (jt_Attempt task') (u64 (i64 (jt_RetryCount task' + 1)))).
  rewrite E1, E2, E3, E4, E5, An, stamped_task, stamped_key, stamped_generation, stamped_attempt, T, Kt by done.
  destruct (str_empty (jt_ExecutionKey task)) eqn:Ke; [destruct (Kn (proj1 (String.eqb_eq _ _) Ke))|].
  apply String.eqb_neq in U. unfold str_empty. rewrite U, (attempts_agree task A), !String.eqb_refl. discriminate.
Qed.

Section Cron.
Context {Q : Type} `{QuantityOps Q} `{KubernetesJson Q}.
Context (cluster : Cluster Q) (crons : CronCluster Q) (c_Namespace : string).
Abbreviation client := (Some cluster).

(** The task and the tracked objects stay. *)
Definition kept_run (k k' : KubeRun Q) : Prop := kr_tracked k' = kr_tracked k /\ jr_job (kr_run k') = jr_job (kr_run k).
#[export] Instance kept_run_preorder : PreOrder kept_run.
Proof. split; [by intros k|]. intros a b c [E F] [E' F']. unfold kept_run. split; congruence. Qed.

Lemma kept_note ev : kkeeps kept_run (note ev).
Proof. intros k. by split. Qed.
Hint Resolve kept_note : kube.

(** The requests that write [sent]: it is created, or put in the place of what is there. *)
Section Writes.
Variable sent : CronJob.
Abbreviation got r := (KvCron (CvGet (cj_Namespace sent) (cj_Name sent) r) : KubeEvent Q).

Inductive written : bool -> list (KubeEvent Q) -> Prop :=
  | cron_created e made : errors_is ErrNotFound e = true -> written true [got (Err e); KvCron (CvCreate sent (Ok made))]
  | cron_updated existing done :
      written false [got (Ok existing); KvCron (CvUpdate (sent <| cj_ResourceVersion := cj_ResourceVersion existing |>) (Ok done))]
  | cron_raced e e' existing done : errors_is ErrNotFound e = true -> errors_is ErrAlreadyExists e' = true ->
      written false [got (Err e); KvCron (CvCreate sent (Err e')); got (Ok existing);
                     KvCron (CvUpdate (sent <| cj_ResourceVersion := cj_ResourceVersion existing |>) (Ok done))].

(** Also of a run that fails. *)
Definition write_request (l : list (KubeEvent Q)) (ev : KubeEvent Q) : Prop :=
  match ev with
  | KvCron (CvGet namespace name _) => namespace = cj_Namespace sent /\ name = cj_Name sent
  | KvCron (CvCreate cron _) => cron = sent
  | KvCron (CvUpdate cron _) => exists existing, got (Ok existing) ∈ l /\
      cron = sent <| cj_ResourceVersion := cj_ResourceVersion existing |>
  | _ => False
  end.

Lemma asked_cron_Create cron : asked (cron_Create client crons cron) (fun r l => l = [KvCron (CvCreate cron r)]).
Proof.
  unfold cron_Create. apply asked_silent_bind; [apply asked_kget|]. intros k.
  eapply asked_bind; [apply asked_note|]. intros [] l ->. by apply asked_ret.
Qed.

Lemma asked_cron_Update cron : asked (cron_Update client crons cron) (fun r l => l = [KvCron (CvUpdate cron r)]).
Proof.
  unfold cron_Update. apply asked_silent_bind; [apply asked_kget|]. intros k.
  eapply asked_bind; [apply asked_note|]. intros [] l ->. by apply asked_ret.
Qed.

Lemma asked_put : asked
  (CreateOrUpdateResource (cron_Get client crons (cj_Namespace sent) (cj_Name sent)) (cron_Create client crons sent)
    (fun existing => must! _ := cron_Update client crons (sent <| cj_ResourceVersion := cj_ResourceVersion existing |>) in kok tt))
  (fun r l => List.Forall (write_request l) l /\ match r with Ok res => written (snd res) l | Err _ => True end).
Proof.
  unfold CreateOrUpdateResource.
  assert (Upd : forall existing pre, List.Forall (write_request pre) pre -> got (Ok existing) ∈ pre ->
    (forall done, written false (pre ++ [KvCron (CvUpdate (sent <| cj_ResourceVersion := cj_ResourceVersion existing |>) (Ok done))])%list) ->
    asked (must! _ := (must! _ := cron_Update client crons (sent <| cj_ResourceVersion := cj_ResourceVersion existing |>) in kok tt) in
           kok (existing, false))
      (fun r l => List.Forall (write_request (pre ++ l)) (pre ++ l)%list /\ match r with Ok res => written (snd res) (pre ++ l)%list | Err _ => True end)).
  { intros existing pre F I Wr.
    assert (F' : forall r, List.Forall (write_request (pre ++ [KvCron (CvUpdate (sent <| cj_ResourceVersion := cj_ResourceVersion existing |>) r)]))
      (pre ++ [KvCron (CvUpdate (sent <| cj_ResourceVersion := cj_ResourceVersion existing |>) r)])%list).
    { intros r. apply List.Forall_app. split.
      - eapply List.Forall_impl; [|exact F]. intros [| | | | | | | | | |[]| | | | |]; cbn; try done.
        intros (ex & Iex & Eq). exists ex. split; [|exact Eq]. apply elem_of_app. by left.
      - constructor; [|constructor]. cbn. exists existing. split; [|done]. apply elem_of_app. by left. }
    eapply asked_must with (P := fun r l => exists u, l = [KvCron (CvUpdate (sent <| cj_ResourceVersion := cj_ResourceVersion existing |>) u)] /\
      match r, u with Ok _, Ok _ => True | Err _, Err _ => True | _, _ => False end).
    - eapply asked_must; [apply asked_cron_Update| |].
      + intros a l ->. apply asked_ret. rewrite app_nil_r. by eexists.
      + intros e l ->. by eexists.
    - intros [] l ([u|] & -> & X); [|done]. apply asked_ret. rewrite app_nil_r. split; [apply F'|apply Wr].
    - intros e l (u & -> & _). split; [apply F'|done]. }
  eapply asked_bind; [apply asked_cron_Get|]. intros r l ->. destruct r as [existing|e].
  { apply (Upd existing [got (Ok existing)]); [by repeat constructor|by apply list_elem_of_singleton|]. intros d. constructor. }
  destruct (errors_is ErrNotFound e) eqn:Nf; cbn [negb].
  2: { apply asked_ret. split; [by repeat constructor|done]. }
  eapply asked_bind; [apply asked_cron_Create|]. intros r l ->. destruct r as [made|e'].
  { apply asked_ret. split; [by repeat constructor|by constructor]. }
  destruct (errors_is ErrAlreadyExists e') eqn:Ex.
  2: { apply asked_ret. split; [by repeat constructor|done]. }
  eapply asked_must; [apply asked_cron_Get| |].
  2: { intros e2 l ->. split; [by repeat constructor|done]. }
  intros existing l ->. apply (Upd existing [got (Err e); KvCron (CvCreate sent (Err e')); got (Ok existing)]).
  - by repeat constructor.
  - apply list_elem_of_further, list_elem_of_further, list_elem_of_here.
  - intros d. by constructor.
Qed.

Lemma kept_put : kkeeps kept_run
  (CreateOrUpdateResource (cron_Get client crons (cj_Namespace sent) (cj_Name sent)) (cron_Create client crons sent)
    (fun existing => must! _ := cron_Update client crons (sent <| cj_ResourceVersion := cj_ResourceVersion existing |>) in kok tt)).
Proof. unfold CreateOrUpdateResource, cron_Get, cron_Create, cron_Update. kkeeps_tac. Qed.
End Writes.

(** [track]: the first entry for an object stays. *)
Definition with_ref (ref : ResourceRef) (refs : list ResourceRef) : list ResourceRef :=
  if existsb (fun existing => (ref_Kind existing =? ref_Kind ref)%string &&
       (ref_Namespace existing =? ref_Namespace ref)%string && (ref_Name existing =? ref_Name ref)%string) refs
  then refs else (refs ++ [ref])%list.

Lemma track_run ref (k : KubeRun Q) : kr_tracked (snd (track ref k)) = with_ref ref (kr_tracked k) /\ kr_run (snd (track ref k)) = kr_run k /\
  kr_log (snd (track ref k)) = kr_log k.
Proof. unfold track, kmodify, with_ref. cbn [snd]. by destruct (existsb _ _). Qed.

Definition in_namespace (cron : CronJob) : CronJob :=
  if str_empty (cj_Namespace cron) then cron <| cj_Namespace := c_Namespace |> else cron.

Lemma run_cron_spec cron (k : KubeRun Q) :
  let task := jr_job (kr_run k) in
  let sent := StampCronJobExecutionIdentity task (in_namespace cron) in
  let run := runCronJob client crons c_Namespace cron k in
  same_execution task (jr_job (kr_run (snd run))) /\
  exists l, kr_log (snd run) = (kr_log k ++ l)%list /\ List.Forall (write_request sent l) l /\
    match fst run with
    | Ok _ => exists made, written sent made l /\
        kr_tracked (snd run) = with_ref (Build_ResourceRef ResourceCronJob (cj_Namespace sent) (cj_Name sent) made) (kr_tracked k)
    | Err _ => kr_tracked (snd run) = kr_tracked k
    end.
Proof.
  cbv zeta. destruct (runCronJob _ _ _ _ k) as [r k'] eqn:E. cbn [fst snd]. revert E.
  unfold runCronJob, CreateOrUpdateTrackedResource, kmust, kbind, get_job. cbv zeta. fold (in_namespace cron).
  set (sent := StampCronJobExecutionIdentity (jr_job (kr_run k)) (in_namespace cron)).
  assert (K1 : kr_tracked (snd (set_cron_info sent k)) = kr_tracked k /\ kr_log (snd (set_cron_info sent k)) = kr_log k /\
    same_execution (jr_job (kr_run k)) (jr_job (kr_run (snd (set_cron_info sent k))))) by (repeat split).
  destruct (set_cron_info sent k) as [[] k1]. cbn [snd] in K1. destruct K1 as (T1 & L1 & S1).
  destruct (asked_put sent k1) as (_ & l & L2 & F & W). destruct (kept_put sent k1) as [T2 J2].
  destruct (CreateOrUpdateResource _ _ _ k1) as [[[t made]|e] k2]; cbn [fst snd] in *.
  - intros E. assert (E' : r = Ok tt /\ k' = snd (track (Build_ResourceRef ResourceCronJob (cj_Namespace sent) (cj_Name sent) made) k2)).
    { revert E. destruct made; intros E; by injection E as <- <-. }
    destruct E' as [-> ->]. destruct (track_run (Build_ResourceRef ResourceCronJob (cj_Namespace sent) (cj_Name sent) made) k2) as (T3 & R3 & L3).
    rewrite R3, T3, L3, J2, T2, T1. split; [exact S1|]. exists l. split; [congruence|]. split; [exact F|]. by exists made.
  - intros [= <- <-]. rewrite J2. split; [exact S1|]. exists l. split; [congruence|]. split; [exact F|congruence].
Qed.

(** The first CronJob that the run created. *)
Definition created_cron (refs : list ResourceRef) : option ResourceRef :=
  head (List.filter ref_Created (List.filter (fun ref => str_empty ResourceCronJob || (ref_Kind ref =? ResourceCronJob)%string) refs)).

(** What the clean-up after a cancellation asks and answers. *)
Definition cancel_outcome decode_job order (record : JobInfo) (refs : list ResourceRef) (answer : string * option error)
    (l : list (KubeEvent Q)) : Prop :=
  match created_cron refs with
  | None => answer = (CancelledJobCleanupPreserved, None) /\ l = []
  | Some ref =>
      let namespace := if str_empty (ref_Namespace ref) then c_Namespace else ref_Namespace ref in
      own_requests decode_job order record namespace [] l /\
      match answer with
      | (outcome, None) => outcome = CancelledJobCleanupComplete /\
          ((exists e, errors_is ErrNotFound e = true /\ l = [KvCron (CvGet namespace (ref_Name ref) (Err e))]) \/
           exists live l', l = KvCron (CvGet namespace (ref_Name ref) (Ok live)) :: l' /\
             CancelledCronJobMatches record live = true /\ cron_removal namespace live l')
      | (outcome, Some _) => outcome = ""%string
      end
  end.

Lemma cancel_spec decode_job order cron (k : KubeRun Q) :
  let run := scheduled_CleanCancelled client crons (Some cron) decode_job order c_Namespace k in
  world_of (snd run) = world_of k /\
  exists l, kr_log (snd run) = (kr_log k ++ l)%list /\
    cancel_outcome decode_job order (BuildJobInfoRecord (jr_job (kr_run k))) (kr_tracked k) (fst run) l.
Proof.
  cbv zeta. set (record := BuildJobInfoRecord (jr_job (kr_run k))).
  destruct (scheduled_CleanCancelled _ _ _ _ _ _ k) as [answer k'] eqn:E. cbn [fst snd]. revert E.
  unfold scheduled_CleanCancelled, ResourcesForCleanup, cancel_created_cron, kbind, kget, kret. cbv zeta.
  unfold cancel_outcome, created_cron. destruct (List.filter ref_Created _) as [|ref rest]; cbn [head].
  { intros [= <- <-]. split; [done|]. exists []. by rewrite app_nil_r. }
  set (namespace := if str_empty (ref_Namespace ref) then c_Namespace else ref_Namespace ref).
  unfold cron_Get, kbind, kget, note, kmodify, kret, get_job. cbv zeta.
  set (live := on_get_cron crons (kr_log k) namespace (ref_Name ref)).
  set (k1 := k <| kr_log := (kr_log k ++ [KvCron (CvGet namespace (ref_Name ref) live)])%list |>).
  assert (J1 : BuildJobInfoRecord (jr_job (kr_run k1)) = record) by reflexivity. clearbody live record.
  assert (L1 : kr_log k1 = (kr_log k ++ [KvCron (CvGet namespace (ref_Name ref) live)])%list) by reflexivity.
  assert (W1 : world_of k1 = world_of k) by reflexivity. clearbody k1.
  assert (Own : own_requests decode_job order record namespace [] [KvCron (CvGet namespace (ref_Name ref) live)]) by by split.
  destruct live as [live|e].
  - rewrite J1. destruct (CancelledCronJobMatches record live) eqn:M; cbn [negb].
    2: { cbv beta. intros [= <- <-]. split; [exact W1|]. eexists. split; [exact L1|]. split; [exact Own|reflexivity]. }
    destruct (asked_delete_cron namespace cluster crons live k1) as (W & l & L & D & R).
    destruct (DeleteCancelledKubernetesCronJob _ _ _ _ k1) as [r k2]. cbn [fst snd] in *.
    assert (Own2 : own_requests decode_job order record namespace [] (KvCron (CvGet namespace (ref_Name ref) (Ok live)) :: l)).
    { split; [done|]. cbn [app]. eapply own_deletion_requests; [| |exact D]; [|by intros ev [x ->]]. intros err. split; [done|].
      exists (ref_Name ref), live. split; [by apply list_elem_of_singleton|done]. }
    assert (L2 : kr_log k2 = (kr_log k ++ KvCron (CvGet namespace (ref_Name ref) (Ok live)) :: l)%list) by by rewrite L, L1, <- app_assoc.
    cbv beta. intros [= <- <-]. split; [congruence|]. eexists. split; [exact L2|]. split; [exact Own2|].
    destruct r as [[]|e]; [|reflexivity]. split; [reflexivity|]. right. exists live, l. auto.
  - destruct (errors_is ErrNotFound e) eqn:Nf; cbv beta; intros [= <- <-]; (split; [exact W1|]; eexists; split; [exact L1|]; split; [exact Own|]);
      [|reflexivity]. split; [reflexivity|]. left. by exists e.
Qed.
End Cron.

(** C26: a scheduled CronJob belongs to its execution.  Take a task with a complete
    identity, and whatever the cluster answers.  Its run writes one CronJob, stamped with
    that identity: it is created, or put in the place of what a request has just read, and
    nothing else is asked; when the run reports success one of the two was done, and the
    object is tracked as created or as seen.  Any CronJob that carries those annotations
    is recognised as the execution's.  When the execution is cancelled, the clean-up looks
    only at the first CronJob the run created: it deletes it, by the UID it has just read,
    if it is the execution's, and reports it complete when it was gone or has been seen to
    go; without one it asks nothing and says so. *)
Theorem scheduled_cron_owned {Q} `{QuantityOps Q} `{KubernetesJson Q} cluster crons decode_job order c_Namespace cron
    (k : KubeRun Q) :
  let task := jr_job (kr_run k) in
  let sent := StampCronJobExecutionIdentity task (in_namespace c_Namespace cron) in
  let run := runCronJob (Some cluster) crons c_Namespace cron k in
  let record := BuildJobInfoRecord (jr_job (kr_run (snd run))) in
  let cancel := scheduled_CleanCancelled (Some cluster) crons (Some cron) decode_job order c_Namespace (snd run) in
  identified task ->
  (exists l, kr_log (snd run) = (kr_log k ++ l)%list /\ List.Forall (write_request sent l) l /\
    match fst run with
    | Ok _ => exists made, written sent made l /\
        kr_tracked (snd run) = with_ref (Build_ResourceRef ResourceCronJob (cj_Namespace sent) (cj_Name sent) made) (kr_tracked k)
    | Err _ => kr_tracked (snd run) = kr_tracked k
    end) /\
  (forall live, cj_Annotations live = cj_Annotations sent -> cj_UID live <> ""%string ->
     CancelledCronJobMatches record live = true) /\
  exists l, kr_log (snd cancel) = (kr_log (snd run) ++ l)%list /\
    cancel_outcome c_Namespace decode_job order record (kr_tracked (snd run)) (fst cancel) l.
Proof.
  intros task sent run record cancel I. destruct (run_cron_spec cluster crons c_Namespace cron k) as [S R].
  split; [exact R|]. split.
  - intros live An U. by apply (stamp_matches task _ (in_namespace c_Namespace cron)).
  - exact (proj2 (cancel_spec cluster crons c_Namespace decode_job order cron (snd run))).
Qed.

(** ** A concrete CronJob *)

Definition nightly : CronJob := Build_CronJob "" "nightly" "" "" ∅ JNull.

(** The CronJob is there as it was sent, from its creation to its deletion. *)
Definition nightly_crons : CronCluster Z := {|
  on_get_cron log _ _ :=
    fold_left (fun r ev => match ev with
                           | KvCron (CvCreate cron _) => Ok (cron <| cj_UID := "uid-7"%string |>)
                           | KvCron (CvDelete _ _ _ _) => Err ErrNotFound
                           | _ => r
                           end) log (Err ErrNotFound);
  on_create_cron _ cron := Ok (cron <| cj_UID := "uid-7"%string |>);
  on_update_cron _ cron := Ok cron;
  on_delete_cron _ _ _ _ := None |}.

Definition nightly_run : KubeRun Z :=
  let k := web_run (db_empty 10000000) in
  k <| kr_run := (kr_run k) <| jr_job :=
    job_task_zero <| jt_TaskID := "task-1"%string |> <| jt_ExecutionKey := "key-7"%string |> <| jt_RunGeneration := 3 |> |> |>.

Lemma nightly_identified : identified (jr_job (kr_run nightly_run)).
Proof. split; [reflexivity|reflexivity|discriminate|reflexivity|by left]. Qed.

Lemma scheduled_cron_owned_witness :
  let run := runCronJob (Some left_cluster) nightly_crons "ns" nightly nightly_run in
  let cancel := scheduled_CleanCancelled (Some left_cluster) nightly_crons (Some nightly) z_decode_job no_order "ns" (snd run) in
  fst run = Ok tt /\ fst cancel = (CancelledJobCleanupComplete, None) /\ length (kr_log (snd cancel)) = 5%nat /\
  exists l, kr_log (snd cancel) = (kr_log (snd run) ++ l)%list /\
    cancel_outcome "ns" z_decode_job no_order (BuildJobInfoRecord (jr_job (kr_run (snd run)))) (kr_tracked (snd run)) (fst cancel) l.
Proof.
  split; [vm_compute; reflexivity|]. split; [vm_compute; reflexivity|]. split; [vm_compute; reflexivity|].
  exact (proj2 (proj2 (scheduled_cron_owned left_cluster nightly_crons z_decode_job no_order "ns" nightly nightly_run nightly_identified))).
Defined.
