(* ===== verification/Workflows.v ===== *)
(** Workflow definitions and the part of one that a version update runs:
    [pkg/apiserver/domain/model/workflow.go], and of [pkg/apiserver/event/workflow] the files
    [job_builder_inputs.go] (validation), [job_builder_execution_scope.go] and
    [job_builder_resource_actions.go] (decoding).

    [Steps] and [SubSteps] are slices of pointers, which a JSON null leaves nil: they are lists of options.  Reading
    a field of a nil step is a nil pointer dereference, [nil_dereference], which nothing in the builder handles. *)

From S2P Require Import Prelude GoStrings Config Json Policy Model Store.

(** ** domain/model/workflow.go *)

Record Policies := {
  pol_Policies : list string;
  pol_Path : string;
  pol_Container : string;
  pol_InitSQLURL : string;
}.

#[export] Instance eta_Policies : Settable Policies := fun p =>
  Build_Policies (pol_Policies p) (pol_Path p) (pol_Container p) (pol_InitSQLURL p).

Record WorkflowSubStep := {
  sub_SchedulingClass : string;
  sub_Name : string;
  sub_WorkflowType : string;
  sub_Properties : list Policies;
}.

#[export] Instance eta_WorkflowSubStep : Settable WorkflowSubStep := fun s =>
  Build_WorkflowSubStep (sub_SchedulingClass s) (sub_Name s) (sub_WorkflowType s) (sub_Properties s).

Record WorkflowStepApproval := {
  wa_NotifyURL : string;
  wa_Message : string;
  wa_Method : string;
  wa_Headers : option (gmap string string);
  wa_TimeoutSeconds : Z;
}.

Record WorkflowStep := {
  step_SchedulingClass : string;
  step_Name : string;
  step_StepType : string;
  step_WorkflowType : string;
  step_Mode : string;
  step_Approval : option WorkflowStepApproval;
  step_Properties : list Policies;
  step_SubSteps : list (option WorkflowSubStep);
}.

#[export] Instance eta_WorkflowStep : Settable WorkflowStep := fun s =>
  Build_WorkflowStep (step_SchedulingClass s) (step_Name s) (step_StepType s) (step_WorkflowType s) (step_Mode s)
    (step_Approval s) (step_Properties s) (step_SubSteps s).

Definition step_zero : WorkflowStep := Build_WorkflowStep "" "" "" "" "" None [] [].

Record WorkflowSteps := {
  steps_FailurePolicy : string;
  steps_Steps : list (option WorkflowStep);
}.

#[export] Instance eta_WorkflowSteps : Settable WorkflowSteps := fun s =>
  Build_WorkflowSteps (steps_FailurePolicy s) (steps_Steps s).

(** *** [json.Unmarshal] *)

Definition dec_policies (j : Json) : option Policies :=
  decode! l <- dec_struct j;
  decode! policies <- dec_list dec_string (json_field "policies" l);
  decode! path <- dec_string (json_field "path" l);
  decode! container <- dec_string (json_field "container" l);
  decode! url <- dec_string (json_field "initSqlUrl" l);
  Some (Build_Policies policies path container url).

Definition dec_sub_step (j : Json) : option WorkflowSubStep :=
  decode! l <- dec_struct j;
  decode! class <- dec_string (json_field "schedulingClass" l);
  decode! name <- dec_string (json_field "name" l);
  decode! type <- dec_string (json_field "workflowType" l);
  decode! properties <- dec_list dec_policies (json_field "properties" l);
  Some (Build_WorkflowSubStep class name type properties).

Definition dec_approval (j : Json) : option WorkflowStepApproval :=
  decode! l <- dec_struct j;
  decode! url <- dec_string (json_field "notifyUrl" l);
  decode! message <- dec_string (json_field "message" l);
  decode! method <- dec_string (json_field "method" l);
  decode! headers <- dec_map dec_string (json_field "headers" l);
  decode! timeout <- dec_int64 (json_field "timeoutSeconds" l);
  Some (Build_WorkflowStepApproval url message method headers timeout).

Definition dec_step (j : Json) : option WorkflowStep :=
  decode! l <- dec_struct j;
  decode! class <- dec_string (json_field "schedulingClass" l);
  decode! name <- dec_string (json_field "name" l);
  decode! stepType <- dec_string (json_field "stepType" l);
  decode! type <- dec_string (json_field "workflowType" l);
  decode! mode <- dec_string (json_field "mode" l);
  decode! approval <- dec_ptr dec_approval (json_field "approval" l);
  decode! properties <- dec_list dec_policies (json_field "properties" l);
  decode! subSteps <- dec_list (dec_ptr dec_sub_step) (json_field "subSteps" l);
  Some (Build_WorkflowStep class name stepType type mode approval properties subSteps).

Definition dec_steps (j : Json) : option WorkflowSteps :=
  decode! l <- dec_struct j;
  decode! policy <- dec_string (json_field "failurePolicy" l);
  decode! steps <- dec_list (dec_ptr dec_step) (json_field "steps" l);
  Some (Build_WorkflowSteps policy steps).

(** *** Component names *)

Definition extractPolicyNames (policies : list Policies) : list string := concat (map pol_Policies policies).

Definition is_approval (step : WorkflowStep) : bool :=
  (ParseWorkflowStepType (step_StepType step) =? "approval")%string.

Definition names_or (names : list string) (name : string) : list string :=
  match names with [] => if str_empty name then [] else [name] | _ => names end.

Definition StepComponentNames (step : WorkflowStep) : list string :=
  if is_approval step then [] else names_or (extractPolicyNames (step_Properties step)) (step_Name step).

Definition SubStepComponentNames (sub : WorkflowSubStep) : list string :=
  names_or (extractPolicyNames (sub_Properties sub)) (sub_Name sub).

(** ** Dereferences *)

Definition nil_dereference : error := Errorf "invalid memory address or nil pointer dereference".

(** The pointers of a slice that is ranged over and dereferenced. *)
Definition deref {A} (p : option A) : result A := match p with Some a => Ok a | None => Err nil_dereference end.

(** Elements in order, up to the first error. *)
Fixpoint traverse {A B} (f : A -> result B) (l : list A) : result (list B) :=
  match l with
  | [] => Ok []
  | a :: rest => check! b <- f a; check! bs <- traverse f rest; Ok (b :: bs)
  end.

(** ** job_builder_inputs.go: validation *)

Definition validateWorkflowJobType (jobType stepName : string) : result unit :=
  if IsSupportedWorkflowJobType jobType then Ok tt
  else Err (Errorf ("workflow step " ++ stepName ++ " has unsupported jobType " ++ jobType)).

Definition check_step_job_types (step : option WorkflowStep) : result unit :=
  match step with
  | None => Ok tt
  | Some step =>
      if is_approval step then Ok tt else
      check! _ <- validateWorkflowJobType (step_WorkflowType step) (step_Name step);
      check! _ <- traverse (fun sub => match sub with
                                       | None => Ok tt
                                       | Some sub => validateWorkflowJobType (sub_WorkflowType sub) (sub_Name sub)
                                       end) (step_SubSteps step);
      Ok tt
  end.

Definition validateWorkflowJobTypes (steps : WorkflowSteps) : result unit :=
  check! _ <- traverse check_step_job_types (steps_Steps steps); Ok tt.

(** job_builder_component.go *)
Fixpoint log_archive_options (componentName : string) (properties : list Policies) (fallback : string * string)
    : string * string :=
  match properties with
  | [] => fallback
  | property :: rest =>
      let path := TrimSpace (pol_Path property) in
      let container := TrimSpace (pol_Container property) in
      if one_of (pol_Policies property) componentName then (path, container)
      else log_archive_options componentName rest
             (if str_empty (fst fallback) && negb (str_empty path) then (path, container) else fallback)
  end.

Definition logArchiveUploadOptionsForComponent (componentName : string) (properties : list Policies) : string * string :=
  log_archive_options componentName properties ("", "")%string.

Definition check_archive_component (stepName jobType : string) (properties : list Policies)
    (componentMap : gmap string ApplicationComponent) (name : string) : result unit :=
  match componentMap !! name with
  | None => Err (Errorf ("workflow step " ++ stepName ++ " references missing component " ++ name ++ " for jobType "
    ++ jobType))
  | Some component =>
      if negb (ComponentTypeUsesPods (ac_ComponentType component))
      then Err (Errorf ("workflow step " ++ stepName ++ " component " ++ ac_Name component ++ " with type " ++
                        ac_ComponentType component ++ " does not use pods for jobType " ++ jobType))
      else if blank (fst (logArchiveUploadOptionsForComponent name properties))
      then Err (Errorf ("workflow step " ++ stepName ++ " requires properties.path for component " ++ name ++
                        " and jobType " ++ jobType))
      else Ok tt
  end%string.

Definition validateLogArchiveUploadStepInputs (stepName jobType : string) (properties : list Policies)
    (componentNames : list string) (componentMap : gmap string ApplicationComponent) : result unit :=
  if negb (TrimSpace jobType =? JobLogArchiveUpload)%string then Ok tt else
  check! _ <- traverse (check_archive_component stepName jobType properties componentMap) componentNames; Ok tt.

Definition check_step_archive (componentMap : gmap string ApplicationComponent)
  (step : option WorkflowStep) : result unit :=
  match step with
  | None => Ok tt
  | Some step =>
      if is_approval step then Ok tt else
      check! _ <- validateLogArchiveUploadStepInputs (step_Name step) (step_WorkflowType step) (step_Properties step)
                    (StepComponentNames step) componentMap;
      check! _ <- traverse (fun sub => match sub with
                                       | None => Ok tt
                                       | Some sub => validateLogArchiveUploadStepInputs (sub_Name sub)
                                         (sub_WorkflowType sub)
                                                       (sub_Properties sub) (SubStepComponentNames sub) componentMap
                                       end) (step_SubSteps step);
      Ok tt
  end.

Definition validateLogArchiveUploadWorkflowInputs (steps : WorkflowSteps)
    (componentMap : gmap string ApplicationComponent) : result unit :=
  check! _ <- traverse (check_step_archive componentMap) (steps_Steps steps); Ok tt.

(** The classes of a step and its sub-steps: a nil pointer, or the verdict. *)
Definition check_step_classes (step : option WorkflowStep) : result (result unit) :=
  check! step <- deref step;
  match ValidateJobSchedulingClass (step_SchedulingClass step) with
  | Err e => Ok (Err e)
  | Ok _ =>
      (fix subs (l : list (option WorkflowSubStep)) : result (result unit) :=
         match l with
         | [] => Ok (Ok tt)
         | sub :: rest =>
             check! sub <- deref sub;
             match ValidateJobSchedulingClass (sub_SchedulingClass sub) with
             | Err e => Ok (Err e)
             | Ok _ => subs rest
             end
         end) (step_SubSteps step)
  end.

Fixpoint check_classes (steps : list (option WorkflowStep)) : result (result unit) :=
  match steps with
  | [] => Ok (Ok tt)
  | step :: rest =>
      check! verdict <- check_step_classes step;
      match verdict with Err e => Ok (Err e) | Ok _ => check_classes rest end
  end.

(** ** job_builder.go *)

(** The steps up to the first that is no approval; a nil step is left out. *)
Fixpoint leading_approvals (steps : list (option WorkflowStep)) : list (option WorkflowStep) :=
  match steps with
  | [] => []
  | None :: rest => leading_approvals rest
  | Some step :: rest => if is_approval step then Some step :: leading_approvals rest else []
  end.

Definition leadingApprovalWorkflowSteps (steps : WorkflowSteps) : WorkflowSteps :=
  Build_WorkflowSteps (steps_FailurePolicy steps) (leading_approvals (steps_Steps steps)).

(** ** job_builder_resource_actions.go *)

Record VersionUpdateResourceActionInfo := {
  va_Source : string;
  va_Version : Z;
  va_RestartOnly : bool;
  va_RestartComponents : list string;
  va_ImageReadyComponents : list string;
  va_ImageReadyTimeoutSeconds : Z;
  va_ExecutionScope : string;
  va_ExecutionComponents : list string;
  va_RouteDeleteComponents : list string;
  va_DeletedServices : option (gmap string (list string));
}.

Definition dec_resource_action (j : Json) : option VersionUpdateResourceActionInfo :=
  decode! l <- dec_struct j;
  decode! source <- dec_string (json_field "source" l);
  decode! version <- dec_int64 (json_field "version" l);
  decode! restartOnly <- dec_bool (json_field "restartOnly" l);
  decode! restart <- dec_list dec_string (json_field "restartComponents" l);
  decode! ready <- dec_list dec_string (json_field "imageReadyComponents" l);
  decode! timeout <- dec_int64 (json_field "imageReadyTimeoutSeconds" l);
  decode! scope <- dec_string (json_field "executionScope" l);
  decode! components <- dec_list dec_string (json_field "executionComponents" l);
  decode! routes <- dec_list dec_string (json_field "routeDeleteComponents" l);
  decode! services <- dec_map (dec_list dec_string) (json_field "deletedServices" l);
  Some (Build_VersionUpdateResourceActionInfo source version restartOnly restart ready timeout scope components
          routes services).

Definition dec_action_marker (j : Json) : option (string * Z) :=
  decode! l <- dec_struct j;
  decode! source <- dec_string (json_field "source" l);
  decode! version <- dec_int64 (json_field "version" l);
  Some (source, version).

Definition JobInfoSourceVersionUpdateAction : string := "version_update_action".

(** [None] when the task carries none. *)
Definition versionUpdateResourceActionInfoFromTask (task : WorkflowQueue)
    : result (option VersionUpdateResourceActionInfo) :=
  let raw := TrimSpace (wq_ResourceActionInfo task) in
  if str_empty raw then Ok None else
  match json_parse raw with
  | None => Err (Errorf "invalid resource action info")
  | Some j =>
      match dec_action_marker j with
      | None => Err (Errorf "cannot unmarshal resource action info")
      | Some (source, version) =>
          if negb (source =? JobInfoSourceVersionUpdateAction)%string
          then Err (Errorf ("unsupported resource action info source " ++ source))
          else if negb (version =? 1)
          then Err (Errorf ("unsupported resource action info version " ++ FormatInt version 10))
          else match dec_resource_action j with
               | None => Err (Errorf "cannot unmarshal resource action info")
               | Some info => Ok (Some info)
               end
      end
  end.

Definition versionUpdateImageReadyTimeoutForComponent (task : WorkflowQueue) (componentName : string) : option Z :=
  match versionUpdateResourceActionInfoFromTask task with
  | Ok (Some info) =>
      if (va_ImageReadyTimeoutSeconds info <=? 0) || str_empty componentName then None
      else if one_of (va_ImageReadyComponents info) componentName then Some (va_ImageReadyTimeoutSeconds info) else None
  | _ => None
  end.

Definition versionUpdateDeletesRoute (task : WorkflowQueue) (componentName : string) : bool :=
  match versionUpdateResourceActionInfoFromTask task with
  | Ok (Some info) => negb (str_empty componentName) && one_of (va_RouteDeleteComponents info) componentName
  | _ => false
  end.

Definition versionUpdateDeletedServices (task : WorkflowQueue) (componentName : string) : list string :=
  match versionUpdateResourceActionInfoFromTask task with
  | Ok (Some info) =>
      if str_empty componentName then [] else default [] (default ∅ (va_DeletedServices info) !! componentName)
  | _ => []
  end.

(** ** job_builder_execution_scope.go *)

Definition VersionUpdateExecutionScopeFullWorkflow : string := "full_workflow".
Definition VersionUpdateExecutionScopeChangedComponents : string := "changed_components".

(** [domain/spec/application_policy.go] *)
Definition NormalizeVersionUpdateExecutionScope (scope : string) : string * bool :=
  let scope := ToLower (TrimSpace scope) in
  if str_empty scope || (scope =? VersionUpdateExecutionScopeFullWorkflow)%string
  then (VersionUpdateExecutionScopeFullWorkflow, true)
  else if (scope =? VersionUpdateExecutionScopeChangedComponents)%string
  then (VersionUpdateExecutionScopeChangedComponents, true)
  else (""%string, false).

Definition versionUpdateExecutionComponentSet (components : list string) : gset string :=
  list_to_set (List.filter (fun name => negb (str_empty name)) components).

Definition versionUpdateExecutionComponentAllowed (name : string) (allowed : gset string) : bool :=
  bool_decide (name ∈ allowed).

Definition versionUpdateExecutionScopeJobTypeDeploysComponents (jobType : string) : bool :=
  one_of [""%string; JobDeploy] (TrimSpace jobType).

Definition filterWorkflowPoliciesByExecutionComponents (policies : list Policies)
  (allowed : gset string) : list Policies :=
  List.filter (fun policy => match pol_Policies policy with [] => false | _ => true end)
    (map (fun policy => policy <| pol_Policies :=
            List.filter (fun name => versionUpdateExecutionComponentAllowed name allowed)
              (pol_Policies policy) |>) policies).

(** What is left of the properties of a step, or of its name when it has none. *)
Definition scoped_properties (jobType name : string) (properties : list Policies) (allowed : gset string)
    : option (list Policies) :=
  if negb (versionUpdateExecutionScopeJobTypeDeploysComponents jobType) then None
  else match properties with
       | [] => if versionUpdateExecutionComponentAllowed name allowed then Some [] else None
       | _ => match filterWorkflowPoliciesByExecutionComponents properties allowed with
              | [] => None
              | kept => Some kept
              end
       end.

Definition filterWorkflowSubStepByExecutionComponents (sub : option WorkflowSubStep) (allowed : gset string)
    : option WorkflowSubStep :=
  match sub with
  | None => None
  | Some sub =>
      match scoped_properties (sub_WorkflowType sub) (sub_Name sub) (sub_Properties sub) allowed with
      | Some properties => Some (sub <| sub_Properties := properties |>)
      | None => None
      end
  end.

Definition filterWorkflowStepByExecutionComponents (step : option WorkflowStep) (allowed : gset string)
    : option WorkflowStep :=
  match step with
  | None => None
  | Some step =>
      if is_approval step then Some step else
      match step_SubSteps step with
      | [] =>
          match scoped_properties (step_WorkflowType step) (step_Name step) (step_Properties step) allowed with
          | Some properties => Some (step <| step_Properties := properties |>)
          | None => None
          end
      | subs =>
          match omap (fun sub => filterWorkflowSubStepByExecutionComponents sub allowed) subs with
          | [] => None
          | kept => Some (step <| step_SubSteps := map Some kept |>)
          end
      end
  end.

Definition filterVersionUpdateExecutionScopeWorkflowSteps (steps : WorkflowSteps)
    (info : VersionUpdateResourceActionInfo) : result WorkflowSteps :=
  let '(scope, ok) := NormalizeVersionUpdateExecutionScope (va_ExecutionScope info) in
  if negb ok then Err (Errorf ("unsupported version update executionScope " ++ va_ExecutionScope info))
  else if negb (scope =? VersionUpdateExecutionScopeChangedComponents)%string then Ok steps
  else
    let allowed := versionUpdateExecutionComponentSet (va_ExecutionComponents info) in
    Ok (Build_WorkflowSteps (steps_FailurePolicy steps)
          (map (fun step => Some (default step_zero (filterWorkflowStepByExecutionComponents step allowed)))
             (steps_Steps steps))).

(** ** What is left of a workflow in a version update *)

Definition deploying (type name : string) (properties : list Policies) : list string :=
  if versionUpdateExecutionScopeJobTypeDeploysComponents type then names_or (extractPolicyNames properties) name else [].

Definition sub_components (sub : option WorkflowSubStep) : list string :=
  match sub with Some sub => SubStepComponentNames sub | None => [] end.

Definition sub_deploying (sub : option WorkflowSubStep) : list string :=
  match sub with Some sub => deploying (sub_WorkflowType sub) (sub_Name sub) (sub_Properties sub) | None => [] end.

(** The components a step builds jobs for; sub-steps replace those of the step itself. *)
Definition step_components (step : WorkflowStep) : list string :=
  if is_approval step then [] else
  match step_SubSteps step with [] => StepComponentNames step | subs => concat (map sub_components subs) end.

(** Those it deploys. *)
Definition step_deploying (step : WorkflowStep) : list string :=
  if is_approval step then [] else
  match step_SubSteps step with
  | [] => deploying (step_WorkflowType step) (step_Name step) (step_Properties step)
  | subs => concat (map sub_deploying subs)
  end.

(** Properties that name a component, if there are any: a name of the step is then never a fallback for them. *)
Definition resolved (properties : list Policies) : Prop := properties = [] \/ extractPolicyNames properties <> [].

Definition step_resolved (step : WorkflowStep) : Prop :=
  resolved (step_Properties step) /\
  List.Forall (fun sub => match sub with Some sub => resolved (sub_Properties sub) | None => True end)
    (step_SubSteps step).

Section Scope.
Variable allowed : gset string.

Local Abbreviation keep := (List.filter (fun name => versionUpdateExecutionComponentAllowed name allowed)).

Lemma extract_filtered policies :
  extractPolicyNames (filterWorkflowPoliciesByExecutionComponents policies allowed) = keep (extractPolicyNames policies).
Proof.
  unfold extractPolicyNames, filterWorkflowPoliciesByExecutionComponents. induction policies as [|p l IH]; [done|].
  cbn [map concat List.filter]. rewrite List.filter_app, <- IH.
  change (pol_Policies (p <| pol_Policies := ?x |>)) with x.
  destruct (keep (pol_Policies p)) as [|n names] eqn:E; [done|]. cbn [map concat]. by rewrite <- E.
Qed.

Lemma kept_nonempty policies p l : filterWorkflowPoliciesByExecutionComponents policies allowed = p :: l ->
  pol_Policies p <> [].
Proof.
  intros E. assert (H : In p (filterWorkflowPoliciesByExecutionComponents policies allowed)) by (rewrite E; by left).
  apply filter_In in H as [_ H]. by destruct (pol_Policies p).
Qed.

(** What is kept of properties builds jobs for the allowed components only, in the same order. *)
Lemma scoped_names type name properties :
  match scoped_properties type name properties allowed with
  | Some kept => names_or (extractPolicyNames kept) name = keep (deploying type name properties)
  | None => resolved properties -> keep (deploying type name properties) = []
  end.
Proof.
  unfold scoped_properties, deploying. destruct (versionUpdateExecutionScopeJobTypeDeploysComponents type); [|done].
  cbn [negb].
  destruct properties as [|p properties].
  - unfold names_or, extractPolicyNames. cbn. destruct (versionUpdateExecutionComponentAllowed name allowed) eqn:A.
    + destruct (str_empty name); [done|]. cbn. by rewrite A.
    + intros _. destruct (str_empty name); [done|]. cbn. by rewrite A.
  - pose proof (extract_filtered (p :: properties)) as E.
    destruct (filterWorkflowPoliciesByExecutionComponents (p :: properties) allowed) as [|q kept] eqn:K.
    + intros [R|R]; [discriminate|]. destruct (extractPolicyNames (p :: properties)) as [|n names]; [done|].
      exact (eq_sym E).
    + pose proof (kept_nonempty _ _ _ K) as N. assert (X : extractPolicyNames (q :: kept) <> []).
      { unfold extractPolicyNames. cbn. destruct (pol_Policies q); [done|discriminate]. }
      rewrite E in X |- *. destruct (extractPolicyNames (p :: properties)) as [|n names]; [done|].
      cbn [names_or]. by destruct (keep (n :: names)).
Qed.

Lemma sub_scope sub :
  sub_components (filterWorkflowSubStepByExecutionComponents sub allowed) = keep (sub_deploying sub) \/
  filterWorkflowSubStepByExecutionComponents sub allowed = None.
Proof.
  destruct sub as [sub|]; [|by right]. cbn. pose proof (scoped_names (sub_WorkflowType sub) (sub_Name sub)
    (sub_Properties sub)) as S.
  destruct (scoped_properties _ _ _ _) as [kept|]; [left; exact S|by right].
Qed.

Definition kept_subs (subs : list (option WorkflowSubStep)) : list WorkflowSubStep :=
  omap (fun sub => filterWorkflowSubStepByExecutionComponents sub allowed) subs.

Lemma subs_scope subs :
  (forall name, In name (concat (map sub_components (map Some (kept_subs subs)))) ->
    In name (keep (concat (map sub_deploying subs)))) /\
  (List.Forall (fun sub => match sub with Some sub => resolved (sub_Properties sub) | None => True end) subs ->
   concat (map sub_components (map Some (kept_subs subs))) = keep (concat (map sub_deploying subs))).
Proof.
  induction subs as [|sub subs [IH1 IH2]]; [done|]. unfold kept_subs in *. cbn [omap list_omap map concat].
  rewrite List.filter_app. destruct sub as [sub|]; cbn [filterWorkflowSubStepByExecutionComponents sub_deploying].
  2:{ cbn [List.filter app]. split; [exact IH1|]. intros F. apply IH2. by inversion F. }
  pose proof (scoped_names (sub_WorkflowType sub) (sub_Name sub) (sub_Properties sub)) as S.
  destruct (scoped_properties _ _ _ _) as [kept|]; cbn [map concat].
  - change (sub_components _) with (names_or (extractPolicyNames kept) (sub_Name sub)). rewrite S. split.
    + intros name [X|X]%in_app_or; apply in_or_app; auto.
    + intros F. f_equal. apply IH2. by inversion F.
  - split.
    + intros name X. apply in_or_app. right. by apply IH1.
    + intros F. inversion F as [|? ? R F']. subst. rewrite (S R). by apply IH2.
Qed.

Lemma step_scope step : let step' := default step_zero (filterWorkflowStepByExecutionComponents (Some step) allowed) in
  (is_approval step = true -> step' = step) /\
  (is_approval step = false -> is_approval step' = false /\
    (forall name, In name (step_components step') -> In name (keep (step_deploying step))) /\
    (step_resolved step -> step_components step' = keep (step_deploying step))).
Proof.
  cbv zeta. cbn [filterWorkflowStepByExecutionComponents]. unfold step_deploying.
  destruct (is_approval step) eqn:A; [done|]. split; [done|]. intros _.
  destruct (step_SubSteps step) as [|sub subs] eqn:S.
  - pose proof (scoped_names (step_WorkflowType step) (step_Name step) (step_Properties step)) as N.
    destruct (scoped_properties _ _ _ _) as [kept|].
    + unfold default, id. assert (C : step_components (step <| step_Properties := kept |>) = names_or
        (extractPolicyNames kept) (step_Name step)).
      { unfold step_components, StepComponentNames. change (is_approval (step <| step_Properties := kept |>)) with
          (is_approval step).
        change (step_SubSteps (step <| step_Properties := kept |>)) with (step_SubSteps step). by rewrite A, S. }
      split; [exact A|]. rewrite C, N. done.
    + split; [done|]. split; [done|]. intros [R _]. by rewrite (N R).
  - destruct (subs_scope (sub :: subs)) as [X Y]. unfold kept_subs in X, Y.
    destruct (omap _ (sub :: subs)) as [|k kept] eqn:K.
    + split; [done|]. split; [done|]. intros [_ R]. rewrite S in R. by rewrite <- (Y R).
    + unfold default, id. split; [exact A|].
      assert (C : step_components (step <| step_SubSteps := map Some (k :: kept) |>) = concat (map sub_components
        (map Some (k :: kept)))).
      { unfold step_components. change (is_approval (step <| step_SubSteps := map Some (k :: kept) |>)) with
          (is_approval step).
        by rewrite A. }
      rewrite C. split; [exact X|]. intros [_ R]. rewrite S in R. by apply Y.
Qed.
End Scope.

Lemma allowed_components components name :
  versionUpdateExecutionComponentAllowed name (versionUpdateExecutionComponentSet components) = true <->
  In name components /\ name <> ""%string.
Proof.
  unfold versionUpdateExecutionComponentAllowed, versionUpdateExecutionComponentSet.
  rewrite bool_decide_eq_true, elem_of_list_to_set, list_elem_of_In, filter_In, negb_true_iff, str_empty_false. done.
Qed.

Lemma allowed_one_of components name :
  versionUpdateExecutionComponentAllowed name (versionUpdateExecutionComponentSet components) =
  one_of components name && negb (str_empty name).
Proof.
  apply eq_iff_eq_true. rewrite allowed_components, andb_true_iff, negb_true_iff, str_empty_false.
  unfold one_of. rewrite existsb_exists. split.
  - intros [I N]. split; [|done]. exists name. split; [done|apply String.eqb_refl].
  - intros [(x & I & E) N]. apply String.eqb_eq in E. by subst x.
Qed.


(** One step deploys two components, of which one changed. *)
Definition sample_step_two : WorkflowStep :=
  Build_WorkflowStep "" "deploy" "" "deploy" "DAG" None [Build_Policies ["api"; "web"]%string "" "" ""] [].

Definition changed_info (components : list string) : VersionUpdateResourceActionInfo :=
  Build_VersionUpdateResourceActionInfo JobInfoSourceVersionUpdateAction 1 false [] [] 0
    VersionUpdateExecutionScopeChangedComponents components [] None.


(** Properties that name no component: the workflow deploys the component the step is named after, but a version
    update of that component skips the step.  The application service stores no such properties
    ([workflowModelPoliciesFromRequest] leaves them out), so its steps are [step_resolved]. *)
Example unresolved_step_skipped :
  let step := Build_WorkflowStep "" "api" "" "deploy" "" None [Build_Policies [] "" "" ""] [] in
  step_components step = ["api"%string] /\
  filterWorkflowStepByExecutionComponents (Some step) (versionUpdateExecutionComponentSet ["api"%string]) = None.
Proof. vm_compute. split; reflexivity. Qed.
