(* ===== verification/Plan.v ===== *)
(** From the steps of a workflow to executions with jobs: [job_builder_steps.go], [job_builder_common.go] and
    [job_builder_resource_actions.go] of [pkg/apiserver/event/workflow], and the parts of [job_builder_component.go]
    that make jobs without Kubernetes objects.

    [buildJobsForComponent], which renders the Kubernetes objects of a component, is a parameter.

    A map of jobs by priority is a finite map: Go visits it in no particular order, and only the error reported when
    several jobs fail depends on it.  A nil job cannot be in the map, since the builder adds none. *)

From S2P Require Import Prelude GoStrings Config Naming Json Quantity Policy Model Store Lease Budget.
From S2P Require Import Signals Scheduler PodResources Retry Cleanup JobInfos Controller Sha1 Sha256 Workflows.

Definition DeployTimeout : Z := 1200.
Definition JobPriorityMaxHigh : Z := 0.
Definition JobPriorityHigh : Z := 1.
Definition JobPriorityNormal : Z := 10.
Definition versionUpdateCleanupStepName : string := "cleanup-removed-components".
Definition versionUpdateRestartStepName : string := "restart-components".
Definition WorkflowModeStepByStep : string := "StepByStep".
Definition WorkflowModeDAG : string := "DAG".
Definition WorkflowStepTypeComponent : string := "component".
Definition WorkflowStepTypeApproval : string := "approval".

(** ** job_builder_common.go *)

Abbreviation Buckets := (gmap Z (list JobTask)).

Definition newJobBuckets : Buckets :=
  {[JobPriorityMaxHigh := []; JobPriorityHigh := []; JobPriorityNormal := []; JobPriorityLow := []]}.

Definition append_jobs (priority : Z) (jobs : list JobTask) (buckets : Buckets) : Buckets :=
  <[priority := (default [] (buckets !! priority) ++ jobs)%list]> buckets.

Definition mergeJobBuckets (dst src : Buckets) : Buckets :=
  map_fold (fun priority jobs dst => match jobs with [] => dst | _ => append_jobs priority jobs dst end) dst src.

Definition all_jobs (buckets : Buckets) : list JobTask := concat (map snd (map_to_list buckets)).

Definition bucketsEmpty (buckets : Buckets) : bool :=
  forallb (fun kv => match snd kv with [] => true | _ => false end) (map_to_list buckets).

Definition countJobs (buckets : Buckets) : Z :=
  fold_left (fun n kv => n + Z.of_nat (length (snd kv))) (map_to_list buckets) 0.

(** The jobs of a step; an approval step has a nil map. *)
Definition jobs_of (execution : StepExecution) : Buckets := default ∅ (se_Jobs execution).

Definition component_execution (name mode : string) (buckets : Buckets) : StepExecution :=
  Build_StepExecution None "" name mode WorkflowStepTypeComponent "" None (Some buckets).

(** ** job_builder_component.go *)

Definition NewJobTask (name namespace : string) (task : WorkflowQueue) (timeoutSeconds : Z) : JobTask :=
  job_task_zero <| jt_Name := name |> <| jt_Namespace := namespace |> <| jt_WorkflowID := wq_WorkflowID task |>
    <| jt_ProjectID := wq_ProjectID task |> <| jt_AppID := wq_AppID task |> <| jt_TaskID := wq_TaskID task |>
    <| jt_Status := StatusQueued |> <| jt_Timeout := timeoutSeconds |>.

Definition setDeployTimeout (jobTask : JobTask) : JobTask := jobTask <| jt_Timeout := DeployTimeout |>.

Definition low_priority (jobs : list JobTask) : Buckets := append_jobs JobPriorityLow jobs newJobBuckets.

Definition cleanup_job (component : ApplicationComponent) (task : WorkflowQueue) (timeout : Z) : JobTask :=
  setDeployTimeout ((NewJobTask (ac_Name component) (ac_Namespace component) task timeout)
    <| jt_JobType := JobCleanupResources |> <| jt_JobInfo := PayloadComponent component |>
    <| jt_Info := ("cleanup resources: " ++ ac_Namespace component ++ "/" ++ ac_Name component)%string |>).

Definition buildCleanupJobsForComponent (component : ApplicationComponent) (task : WorkflowQueue)
  (timeout : Z) : Buckets :=
  low_priority [cleanup_job component task timeout].

(** The components of a list of names: each once, the empty and the unknown names left out. *)
Fixpoint distinct_components (names : list string) (componentMap : gmap string ApplicationComponent)
    (seen : gset string) : list ApplicationComponent :=
  match names with
  | [] => []
  | name :: rest =>
      if str_empty name || bool_decide (name ∈ seen) then distinct_components rest componentMap seen
      else
        let others := distinct_components rest componentMap ({[name]} ∪ seen) in
        match componentMap !! name with Some component => component :: others | None => others end
  end.

Definition archive_job (properties : list Policies) (task : WorkflowQueue) (timeout : Z)
  (component : ApplicationComponent)
    : JobTask :=
  let path := TrimSpace (fst (logArchiveUploadOptionsForComponent (ac_Name component) properties)) in
  setDeployTimeout ((NewJobTask (ac_Name component) (ac_Namespace component) task timeout)
    <| jt_JobType := JobLogArchiveUpload |> <| jt_JobInfo := PayloadOther |>
    <| jt_Info := ("log archive upload: " ++ ac_Namespace component ++ "/" ++ ac_Name component ++ " " ++
      path)%string |>).

Definition buildLogArchiveUploadJobs (componentNames : list string) (componentMap : gmap string ApplicationComponent)
    (task : WorkflowQueue) (timeout : Z) (workflowProperties : list Policies) : Buckets :=
  low_priority (map (archive_job workflowProperties task timeout) (distinct_components componentNames componentMap ∅)).

(** The store components of a list of names, each component name once. *)
Fixpoint database_components (names : list string) (componentMap : gmap string ApplicationComponent)
    (seen : gset string) : list ApplicationComponent :=
  match names with
  | [] => []
  | name :: rest =>
      match componentMap !! name with
      | Some component =>
          if negb (ac_ComponentType component =? StoreJob)%string || bool_decide (ac_Name component ∈ seen)
          then database_components rest componentMap seen
          else component :: database_components rest componentMap ({[ac_Name component]} ∪ seen)
      | None => database_components rest componentMap seen
      end
  end.

Definition databaseResetWorkflowName : string := "database-reset".

Definition buildDatabaseResetJobs (componentNames : list string) (componentMap : gmap string ApplicationComponent)
    (task : WorkflowQueue) (timeout : Z) (executionKey : string) : Buckets :=
  match database_components componentNames componentMap ∅ with
  | [] => newJobBuckets
  | first :: _ as components =>
      low_priority [setDeployTimeout ((NewJobTask databaseResetWorkflowName (ac_Namespace first) task timeout)
        <| jt_JobType := JobDatabaseReset |> <| jt_JobInfo := PayloadOther |>
        <| jt_InfoResetKey := Some (TrimSpace executionKey) |>
        <| jt_Info := ("database reset: " ++ Join (map ac_Name components) ", ")%string |>)]
  end.

(** ** job_builder_resource_actions.go *)

Definition restart_job (task : WorkflowQueue) (timeout ready : Z) (component : ApplicationComponent) : JobTask :=
  let jobTask := setDeployTimeout ((NewJobTask (ac_Name component) (ac_Namespace component) task timeout)
    <| jt_JobType := JobVersionRestart |> <| jt_JobInfo := PayloadOther |>
    <| jt_Info := ("restart component: " ++ ac_Namespace component ++ "/" ++ ac_Name component)%string |>) in
  if 0 <? ready then jobTask <| jt_Timeout := ready |> else jobTask.

Definition buildVersionRestartJobs (componentNames : list string) (componentMap : gmap string ApplicationComponent)
    (task : WorkflowQueue) (timeout ready : Z) : Buckets :=
  low_priority (map (restart_job task timeout ready) (distinct_components componentNames componentMap ∅)).

Definition buildVersionUpdateRestartExecution (info : VersionUpdateResourceActionInfo)
    (componentMap : gmap string ApplicationComponent) (task : WorkflowQueue) (timeout : Z) : option StepExecution :=
  let buckets := buildVersionRestartJobs (va_RestartComponents info) componentMap task timeout
                   (va_ImageReadyTimeoutSeconds info) in
  if bucketsEmpty buckets then None
  else Some (component_execution versionUpdateRestartStepName WorkflowModeStepByStep buckets).

(** ** job_builder_steps.go *)

(** Scheduling classes: one of its own takes precedence. *)
Definition applyExecutionSchedulingClass (class : string) (execution : StepExecution) : StepExecution :=
  let execution := if str_empty (se_SchedulingClass execution) then execution <| se_SchedulingClass := class |>
                   else execution in
  let apply (task : JobTask) := if str_empty (jt_SchedulingClass task)
    then task <| jt_SchedulingClass := se_SchedulingClass execution |> else task in
  execution <| se_Jobs := option_map (fun jobs => fmap (M := gmap Z) (map apply) jobs) (se_Jobs execution) |>.

Definition normalizedStepMode (mode : string) : string := if str_empty mode then WorkflowModeStepByStep else mode.

Definition firstNonEmptyJobStepName (name fallback : string) : string :=
  if negb (blank name) then name else if negb (blank fallback) then fallback else ""%string.

Definition convertApprovalExecution (approval : option WorkflowStepApproval) : option ApprovalExecution :=
  match approval with
  | None => None
  | Some approval =>
      let headers := match wa_Headers approval with
                     | Some h => if bool_decide (h = ∅) then None else Some h
                     | None => None
                     end in
      Some (Build_ApprovalExecution (TrimSpace (wa_NotifyURL approval)) (TrimSpace (wa_Message approval))
              (ToUpper (TrimSpace (wa_Method approval))) headers (wa_TimeoutSeconds approval))
  end.

Definition of_nat (n : nat) : string := FormatInt (Z.of_nat n) 10.

Definition workflowStepExecutionKey (stepIndex componentIndex : nat) : string :=
  "step:" ++ of_nat stepIndex ++ "/component:" ++ of_nat componentIndex.

Definition workflowSubStepExecutionKey (stepIndex subStepIndex componentIndex : nat) : string :=
  "step:" ++ of_nat stepIndex ++ "/substep:" ++ of_nat subStepIndex ++ "/component:" ++ of_nat componentIndex.

Section Builder.
(** The jobs of a component with its execution key. *)
Variable buildJobsForComponent : WorkflowQueue -> ApplicationComponent -> string -> M Buckets.
Variable defaultJobTimeoutSeconds : Z.

(** The components of a group in order; an unknown name is left out. *)
Fixpoint append_components (buckets : Buckets) (index : nat) (names : list string) (workflowType : string)
    (componentMap : gmap string ApplicationComponent) (task : WorkflowQueue) (key : nat -> string) : M Buckets :=
  match names with
  | [] => ret buckets
  | name :: rest =>
      match componentMap !! name with
      | None => append_components buckets (S index) rest workflowType componentMap task key
      | Some component =>
          let! built :=
            (if (workflowType =? JobCleanupResources)%string
             then ret (buildCleanupJobsForComponent component task defaultJobTimeoutSeconds)
             else wrap_error ("build component " ++ ac_Name component)
                    (buildJobsForComponent task component (key index))) in
          append_components (mergeJobBuckets buckets built) (S index) rest workflowType componentMap task key
      end
  end.

Definition appendComponentGroup (buckets : Buckets) (componentNames : list string) (workflowType : string)
    (workflowProperties : list Policies) (componentMap : gmap string ApplicationComponent) (task : WorkflowQueue)
    (key : nat -> string) : M Buckets :=
  if (workflowType =? JobDatabaseReset)%string
  then ret (mergeJobBuckets buckets (buildDatabaseResetJobs componentNames componentMap task defaultJobTimeoutSeconds
    (key 0%nat)))
  else if (workflowType =? JobLogArchiveUpload)%string
  then ret (mergeJobBuckets buckets
              (buildLogArchiveUploadJobs componentNames componentMap task defaultJobTimeoutSeconds workflowProperties))
  else append_components buckets 0 componentNames workflowType componentMap task key.

(** An execution, unless it has no jobs. *)
Definition unless_empty (name mode : string) (buckets : Buckets) : list StepExecution :=
  if bucketsEmpty buckets then [] else [component_execution name mode buckets].

Definition buildSequentialSubStepExecution (sub : WorkflowSubStep) (componentMap : gmap string ApplicationComponent)
    (task : WorkflowQueue) (key : nat -> string) : M (list StepExecution) :=
  let names := SubStepComponentNames sub in
  let! buckets := appendComponentGroup newJobBuckets names (sub_WorkflowType sub)
    (sub_Properties sub) componentMap task key in
  let displayName := match names with
                     | [only] => if blank (sub_Name sub) then only else sub_Name sub
                     | _ => sub_Name sub
                     end in
  ret (map (fun execution => execution <| se_SchedulingClass := sub_SchedulingClass sub |>)
         (unless_empty displayName WorkflowModeStepByStep buckets)).

Fixpoint sequential_sub_steps (stepIndex subStepIndex : nat) (subs : list (option WorkflowSubStep))
    (componentMap : gmap string ApplicationComponent) (task : WorkflowQueue) : M (list StepExecution) :=
  match subs with
  | [] => ret []
  | sub :: rest =>
      let! sub := lift_result (deref sub) in
      let! executions := wrap_error ("build substep " ++ sub_Name sub)
        (buildSequentialSubStepExecution sub componentMap task (workflowSubStepExecutionKey stepIndex subStepIndex)) in
      let! others := sequential_sub_steps stepIndex (S subStepIndex) rest componentMap task in
      ret (executions ++ others)%list
  end.

Fixpoint parallel_sub_steps (buckets : Buckets) (stepIndex subStepIndex : nat) (subs : list (option WorkflowSubStep))
    (componentMap : gmap string ApplicationComponent) (task : WorkflowQueue) : M Buckets :=
  match subs with
  | [] => ret buckets
  | sub :: rest =>
      let! sub := lift_result (deref sub) in
      let! subBuckets := appendComponentGroup newJobBuckets (SubStepComponentNames sub) (sub_WorkflowType sub)
        (sub_Properties sub) componentMap task (workflowSubStepExecutionKey stepIndex subStepIndex) in
      let subExecution := applyExecutionSchedulingClass (sub_SchedulingClass sub)
        (Build_StepExecution None "" "" "" "" "" None (Some subBuckets)) in
      parallel_sub_steps (mergeJobBuckets buckets (jobs_of subExecution)) stepIndex
        (S subStepIndex) rest componentMap task
  end.

Definition buildParallelSubStepExecution (stepIndex : nat) (step : WorkflowStep) (mode : string)
    (componentMap : gmap string ApplicationComponent) (task : WorkflowQueue) : M (list StepExecution) :=
  let! buckets := parallel_sub_steps newJobBuckets stepIndex 0 (step_SubSteps step) componentMap task in
  ret (unless_empty (firstNonEmptyJobStepName (step_Name step) "parallel-group") mode buckets).

Definition buildSubStepExecutions (stepIndex : nat) (step : WorkflowStep) (mode : string)
    (componentMap : gmap string ApplicationComponent) (task : WorkflowQueue) : M (list StepExecution) :=
  if IsParallel mode then buildParallelSubStepExecution stepIndex step mode componentMap task
  else sequential_sub_steps stepIndex 0 (step_SubSteps step) componentMap task.

Definition buildParallelComponentExecution (stepName fallbackStepName mode : string) (componentNames : list string)
    (workflowType : string) (workflowProperties : list Policies) (componentMap : gmap string ApplicationComponent)
    (task : WorkflowQueue) (key : nat -> string) : M (list StepExecution) :=
  let! buckets := appendComponentGroup newJobBuckets componentNames workflowType workflowProperties componentMap task
    key in
  ret (unless_empty (firstNonEmptyJobStepName stepName fallbackStepName) mode buckets).

Definition buildDatabaseResetStepExecution (stepName : string) (componentNames : list string)
    (componentMap : gmap string ApplicationComponent) (task : WorkflowQueue)
      (executionKey : string) : list StepExecution :=
  unless_empty (firstNonEmptyJobStepName stepName "database-reset") WorkflowModeStepByStep
    (buildDatabaseResetJobs componentNames componentMap task defaultJobTimeoutSeconds executionKey).

(** One execution per component. *)
Fixpoint buildSequentialComponentExecutions (index : nat) (componentNames : list string) (workflowType : string)
    (workflowProperties : list Policies) (componentMap : gmap string ApplicationComponent) (task : WorkflowQueue)
    (key : nat -> string) : M (list StepExecution) :=
  match componentNames with
  | [] => ret []
  | name :: rest =>
      let! buckets := appendComponentGroup newJobBuckets [name] workflowType workflowProperties componentMap task
                        (fun _ => key index) in
      let! others := buildSequentialComponentExecutions (S index) rest workflowType workflowProperties componentMap
        task key in
      ret (unless_empty name WorkflowModeStepByStep buckets ++ others)%list
  end.

Definition buildWorkflowStepExecutions (stepIndex : nat) (step : WorkflowStep)
    (componentMap : gmap string ApplicationComponent) (task : WorkflowQueue) : M (list StepExecution) :=
  let mode := normalizedStepMode (step_Mode step) in
  if is_approval step
  then ret [Build_StepExecution None "" (step_Name step) mode WorkflowStepTypeApproval ""
              (convertApprovalExecution (step_Approval step)) None]
  else match step_SubSteps step with
  | _ :: _ => buildSubStepExecutions stepIndex step mode componentMap task
  | [] =>
      match StepComponentNames step with
      | [] => ret []
      | componentNames =>
          let key := workflowStepExecutionKey stepIndex in
          if (step_WorkflowType step =? JobDatabaseReset)%string
          then ret (buildDatabaseResetStepExecution (step_Name step) componentNames componentMap task (key 0%nat))
          else if IsParallel mode && (1 <? length componentNames)%nat
          then buildParallelComponentExecution (step_Name step) "parallel-group" mode componentNames
            (step_WorkflowType step)
                 (step_Properties step) componentMap task key
          else buildSequentialComponentExecutions 0 componentNames (step_WorkflowType step) (step_Properties step)
                 componentMap task key
      end
  end.

(** The executions of each step, with the step's scheduling class. *)
Fixpoint step_groups (stepIndex : nat) (steps : list (option WorkflowStep))
    (componentMap : gmap string ApplicationComponent) (task : WorkflowQueue) : M (list (list StepExecution)) :=
  match steps with
  | [] => ret []
  | step :: rest =>
      let! step := lift_result (deref step) in
      let! executions := wrap_error ("build workflow step " ++ step_Name step)
                           (buildWorkflowStepExecutions stepIndex step componentMap task) in
      let! others := step_groups (S stepIndex) rest componentMap task in
      ret (map (applyExecutionSchedulingClass (step_SchedulingClass step)) executions :: others)
  end.

Definition buildWorkflowStepExecutionGroups (steps : WorkflowSteps) (componentMap : gmap string ApplicationComponent)
    (task : WorkflowQueue) : M (list (list StepExecution)) :=
  step_groups 0 (steps_Steps steps) componentMap task.
End Builder.
