(* ===== verification/Restore.v ===== *)
(** The identity of a job and what it takes over from committed records:
    [applyWorkflowExecutionIdentity] and [restoreCommittedJobExecutions] of
    [pkg/apiserver/event/workflow/job_builder.go], and [EvaluationExecutionRank] of [pkg/apiserver/jobs/recovery.go].

    The slot of a job is its step, its priority and its position among the jobs of that priority.  The execution key
    is the digest of the task, the generation, the slot, the name and the type.  A record of the task is taken over
    by the slot whose key it has, computed for the record's own generation; an evaluation that was recovered has a
    key of its own, and names the key it started from. *)

From S2P Require Import Prelude GoStrings Config Json Quantity Policy Model Store Lease Budget.
From S2P Require Import Signals Scheduler PodResources Retry Cleanup JobInfos Controller Sha1 Sha256 Workflows Plan.

(** ** Keys *)

Definition identity_text (taskID : string) (generation stepIndex priority jobIndex : Z)
  (name jobType : string) : string :=
  taskID ++ "|" ++ FormatUint generation 10 ++ "|" ++ FormatInt stepIndex 10 ++ "|" ++ FormatInt priority 10 ++ "|" ++
  FormatInt jobIndex 10 ++ "|" ++ name ++ "|" ++ jobType.

Definition workflowExecutionKey (taskID : string) (generation stepIndex priority jobIndex : Z) (name jobType : string)
    : string :=
  hex (sha256 (identity_text taskID generation stepIndex priority jobIndex name jobType)).

Definition workflowJobExecutionKey (task : WorkflowQueue) (stepIndex priority jobIndex : Z)
  (name jobType : string) : string :=
  workflowExecutionKey (wq_TaskID task) (wq_RunGeneration task) stepIndex priority jobIndex name jobType.

Definition recovery_text (root : string) (index : Z) : string := root ++ "/recovery/" ++ FormatInt index 10.

Definition recoveryExecutionKey (root : string) (index : Z) : string := hex (sha256 (recovery_text root index)).

(** ** Identity *)

(** [jobinfo.ApplyExecutionIdentity] on the annotations of a Kubernetes Job and the key of a callback; the identity in
    the Job's Pod template, which is not modelled, is left out. *)
Definition ApplyExecutionIdentity (job : JobTask) : JobTask :=
  if str_empty (jt_ExecutionKey job) || (jt_RunGeneration job =? 0) then job else
  match jt_JobInfo job with
  | PayloadBatchJob =>
      job <| jt_InfoAnnotations := <[AnnotationJobRunGeneration := FormatUint (jt_RunGeneration job) 10]>
             (<[AnnotationJobExecutionKey := jt_ExecutionKey job]> (jt_InfoAnnotations job)) |>
  | PayloadCallback _ => job <| jt_JobInfo := PayloadCallback (jt_ExecutionKey job) |>
  | _ => job
  end.

Definition identify (task : WorkflowQueue) (stepIndex priority jobIndex : Z) (job : JobTask) : JobTask :=
  let job := job
    <| jt_ExecutionKey := workflowJobExecutionKey task stepIndex priority jobIndex (jt_Name job) (jt_JobType job) |>
    <| jt_WorkspaceID := if str_empty (jt_WorkspaceID job) then wq_WorkspaceID task else jt_WorkspaceID job |>
    <| jt_RunGeneration := wq_RunGeneration task |> <| jt_OwnerRunGeneration := wq_RunGeneration task |>
    <| jt_OwnerStatus := wq_Status task |> <| jt_RunToken := wq_RunToken task |> <| jt_WorkerID := wq_WorkerID task |>
    <| jt_Attempt := u64 (i64 (jt_RetryCount job + 1)) |> in
  ApplyExecutionIdentity job.

Definition applyWorkflowJobExecutionIdentity (jobs : list JobTask) (task : WorkflowQueue) (stepIndex priority : Z)
    : list JobTask :=
  imap (fun jobIndex job => identify task stepIndex priority (Z.of_nat jobIndex) job) jobs.

Definition map_steps (f : Z -> Buckets -> Buckets) (executions : list StepExecution) : list StepExecution :=
  imap (fun stepIndex execution => execution <| se_Jobs := option_map (f (Z.of_nat stepIndex))
    (se_Jobs execution) |>) executions.

Definition applyWorkflowExecutionIdentity (executions : list StepExecution) (task : WorkflowQueue) : list StepExecution :=
  map_steps (fun stepIndex =>
    map_imap (fun priority jobs => Some (applyWorkflowJobExecutionIdentity jobs task stepIndex priority))) executions.

(** ** Restoring *)

(** Where the results of an evaluation are kept: the targets are a type and a mode each. *)
Record JobResultPolicy := {
  rp_RetentionDays : Z;
  rp_Targets : list (string * string);
}.

(** The metadata of an execution; of the evaluation's traits, what the builder reads besides the runner's
    configuration. *)
Record evaluationInfo := {
  ei_RootExecutionKey : string;
  ei_RecoveryIndex : Z;
  ei_ResumeCheckpointID : string;
  ei_ExecutionDeadline : Z;
  ei_RecoveryName : string;
  ei_TimeoutSeconds : Z;
  ei_TaskPackageID : string;
  ei_ResultPolicy : option JobResultPolicy;
}.

#[export] Instance eta_evaluationInfo : Settable evaluationInfo := fun i =>
  Build_evaluationInfo (ei_RootExecutionKey i) (ei_RecoveryIndex i) (ei_ResumeCheckpointID i) (ei_ExecutionDeadline i)
    (ei_RecoveryName i) (ei_TimeoutSeconds i) (ei_TaskPackageID i) (ei_ResultPolicy i).

Definition maxEvaluationRecoveries : Z := 3.

Section Restore.
Context {Q : Type} `{QuantityOps Q} `{KubernetesJson Q}.
Variable decode_job : Json -> option (Job Q).
Variable order : JobRetryPolicy Q -> list (string * Z).
(** [decodeEvaluationInfo] of the jobs package. *)
Variable decodeEvaluationInfo : string -> result evaluationInfo.

(** The rank of a record in the slot with that key: 0 for the first execution, then the number of the recovery. *)
Definition EvaluationExecutionRank (record : JobInfo) (expectedRoot : string) : option Z :=
  match job_ExecutionKey record with
  | None => None
  | Some key =>
      if (key =? expectedRoot)%string then Some 0
      else if negb (job_Type record =? JobEval)%string then None
      else match decodeEvaluationInfo (job_EvaluationInfo record) with
           | Err _ => None
           | Ok info =>
               if negb (ei_RootExecutionKey info =? expectedRoot)%string || (ei_RecoveryIndex info <? 1) ||
                  (maxEvaluationRecoveries <? ei_RecoveryIndex info) || str_empty (ei_ResumeCheckpointID info)
               then None
               else if (key =? recoveryExecutionKey (ei_RootExecutionKey info) (ei_RecoveryIndex info))%string
               then Some (ei_RecoveryIndex info) else None
           end
  end.

Definition isRestorableCommittedJobStatus (jobTask : JobTask) (status : string) : bool :=
  one_of [StatusCompleted; StatusPassed; StatusSkipped; StatusFailed; StatusTimeout; StatusCancelled;
    StatusReject] status ||
  (status =? StatusDistributed)%string &&
  (IsInstantJobType (jt_JobType jobTask) || (jt_JobType jobTask =? JobDeployScheduled)%string).

Definition status_of (record : JobInfo) : string := TrimSpace (job_Status record).

Definition has_retry_checkpoint (record : JobInfo) : bool :=
  (status_of record =? StatusRunning)%string && HasInstantJobRetryCheckpoint (Some record).

(** The key of the slot in the generation of a record. *)
Definition slot_key (task : WorkflowQueue) (stepIndex priority jobIndex : Z) (jobTask : JobTask)
  (generation : Z) : string :=
  workflowExecutionKey (wq_TaskID task) generation stepIndex priority jobIndex (jt_Name jobTask) (jt_JobType jobTask).

(** The rank of a record the slot may take over. *)
Definition candidate_rank (task : WorkflowQueue) (stepIndex priority jobIndex : Z) (jobTask : JobTask) (jobInfo : JobInfo)
    : option Z :=
  if (job_RunGeneration jobInfo =? 0) || (wq_RunGeneration task <? job_RunGeneration jobInfo) then None else
  match EvaluationExecutionRank jobInfo
          (slot_key task stepIndex priority jobIndex jobTask (job_RunGeneration jobInfo)) with
  | None => None
  | Some rank =>
      let status := status_of jobInfo in
      let reservedRecovery := (0 <? rank) && one_of [StatusQueued; StatusPrepare; StatusRunning] status in
      if negb (isRestorableCommittedJobStatus jobTask status) && negb (has_retry_checkpoint jobInfo) &&
         negb reservedRecovery
      then None else Some rank
  end.

(** One record of the loop over the records. *)
Definition select_record (task : WorkflowQueue) (stepIndex priority jobIndex : Z) (jobTask : JobTask)
    (selected : option JobInfo) (jobInfo : JobInfo) : option JobInfo :=
  match candidate_rank task stepIndex priority jobIndex jobTask jobInfo with
  | None => selected
  | Some rank =>
      match selected with
      | None => Some jobInfo
      | Some current =>
          let selectedRank := default 0 (EvaluationExecutionRank current
            (slot_key task stepIndex priority jobIndex jobTask (job_RunGeneration current))) in
          if (job_RunGeneration jobInfo <? job_RunGeneration current) ||
             ((job_RunGeneration current =? job_RunGeneration jobInfo) && (rank <=? selectedRank))
          then selected else Some jobInfo
      end
  end.

Definition selected_record (task : WorkflowQueue) (stepIndex priority jobIndex : Z) (jobTask : JobTask)
    (entities : list JobInfo) : option JobInfo :=
  fold_left (select_record task stepIndex priority jobIndex jobTask) entities None.

(** What the job takes over from the record. *)
Definition adopt (selected : JobInfo) (jobTask : JobTask) : JobTask :=
  jobTask <| jt_ExecutionKey := default ""%string (job_ExecutionKey selected) |>
    <| jt_RunGeneration := job_RunGeneration selected |> <| jt_Status := status_of selected |>
    <| jt_StartTime := job_StartTime selected |> <| jt_EndTime := job_EndTime selected |>
    <| jt_Info := job_Info selected |> <| jt_InternalInfo := job_InternalInfo selected |>
    <| jt_EvaluationInfo := job_EvaluationInfo selected |> <| jt_Error := job_Error selected |>
    <| jt_DelayState := job_DelayState selected |> <| jt_DelayExecuteAt := job_DelayExecuteAt selected |>
    <| jt_DelayPayload := job_DelayPayload selected |>
    <| jt_SchedulingClass := if str_empty (job_SchedulingClass selected) then jt_SchedulingClass jobTask
                             else job_SchedulingClass selected |>
    <| jt_Attempt := if 0 <? job_Attempt selected then job_Attempt selected else jt_Attempt jobTask |>.

(** [jobinstant/retry.go]: the job continues with the payload and the attempt of its checkpoint. *)
Definition RestoreInstantJobRetryCheckpoint (task : JobTask) : result JobTask :=
  check! cp <- DecodeInstantJobRetryCheckpoint decode_job order (Some task);
  match rc_Job cp with
  | None => Err nil_dereference
  | Some job => Ok (task <| jt_JobInfo := PayloadBatchJob |> <| jt_InfoLabels := kj_Labels job |> <| jt_InfoAnnotations := kj_Annotations job |>
                      <| jt_Attempt := rc_Attempt cp |>)
  end.

Definition restore_job (task : WorkflowQueue) (entities : list JobInfo) (stepIndex priority jobIndex : Z)
  (jobTask : JobTask)
    : result JobTask :=
  match selected_record task stepIndex priority jobIndex jobTask entities with
  | None => Ok jobTask
  | Some selected =>
      let jobTask := adopt selected jobTask in
      if has_retry_checkpoint selected
      then match RestoreInstantJobRetryCheckpoint jobTask with
           | Ok jobTask => Ok jobTask
           | Err e => Err (Wrapf "restore instant job retry" e)
           end
      else Ok jobTask
  end.

Definition restore_jobs (task : WorkflowQueue) (entities : list JobInfo) (stepIndex priority : Z) (jobs : list JobTask)
    : result (list JobTask) :=
  traverse (fun '(jobIndex, jobTask) => restore_job task entities stepIndex priority (Z.of_nat jobIndex) jobTask)
    (imap pair jobs).

Definition restore_buckets (task : WorkflowQueue) (entities : list JobInfo) (stepIndex : Z) (buckets : Buckets)
    : result Buckets :=
  check! restored <- traverse (fun '(priority, jobs) =>
    check! jobs <- restore_jobs task entities stepIndex priority jobs; Ok (priority, jobs)) (map_to_list buckets);
  Ok (list_to_map restored).

Definition restore_steps (task : WorkflowQueue) (entities : list JobInfo) (executions : list StepExecution)
    : result (list StepExecution) :=
  traverse (fun '(stepIndex, execution) =>
    match se_Jobs execution with
    | None => Ok execution
    | Some buckets =>
        check! buckets <- restore_buckets task entities (Z.of_nat stepIndex) buckets;
        Ok (execution <| se_Jobs := Some buckets |>)
    end) (imap pair executions).

Definition committed_statuses : list string :=
  [StatusQueued; StatusPrepare; StatusRunning; StatusDistributed; StatusCompleted; StatusPassed; StatusSkipped;
   StatusFailed; StatusTimeout; StatusCancelled; StatusReject].

Definition committed_options : ListOptions :=
  Build_ListOptions (Build_FilterOptions [("status"%string, map VStr committed_statuses)] [] []) 0 0 [].

(** The columns the query for the records is on: [AppID] is none of them. *)
Definition committed_query (task : WorkflowQueue) : list (string * Val) :=
  job_info_index (job_info_zero <| job_TaskID := wq_TaskID task |> <| job_AppID := wq_AppID task |>
    <| job_WorkspaceID := if (wq_Type task =? WorkflowTaskTypeJob)%string then wq_WorkspaceID task else ""%string |>).

Definition restoreCommittedJobExecutions (executions : list StepExecution) (task : WorkflowQueue) : M
  (list StepExecution) :=
  if (wq_RunGeneration task =? 0) || str_empty (wq_TaskID task) then ret executions else
  let! entities := wrap_error "list committed jobs" (List_ (E := JobInfo) (committed_query task) committed_options) in
  lift_result (restore_steps task entities executions).
End Restore.
