(* ===== verification/RestoreSpec.v ===== *)
(** What a plan takes over from committed records, and that job identities tell jobs apart.

    [committed_work_taken_over]: each job of the plan takes over exactly the newest record of its slot, if any.
    [plan_jobs_apart]: as long as the texts behind the keys of the plan have different digests, no two jobs of a
    restored plan have the same execution key, so no record is taken over twice. *)

From S2P Require Import Prelude GoStrings Config Naming Json Quantity Policy Model Store Lease Budget.
From S2P Require Import Signals Scheduler PodResources Retry Cleanup JobInfos Controller Sha1 Sha256.
From S2P Require Import Workflows Plan Restore.

(** ** Texts *)

Definition free (sep : ascii) (s : string) : Prop := ~ In sep (explode s).

Lemma free_app sep a b : free sep a -> free sep b -> free sep (a ++ b).
Proof. unfold free. intros A B. rewrite explode_app. intros [H|H]%in_app_or; auto. Qed.

(** A text up to its first separator is read back. *)
Lemma split_at sep a b x y : free sep a -> free sep b ->
  (a ++ String sep x = b ++ String sep y)%string -> a = b /\ x = y.
Proof.
  revert b. induction a as [|c a IH]; intros [|c' b] A B; cbn; intros E.
  - by injection E.
  - injection E as -> _. exfalso. apply B. by left.
  - injection E as <- _. exfalso. apply A. by left.
  - injection E as -> E. destruct (IH b) as [-> ->]; try done.
    + intros H. apply A. by right.
    + intros H. apply B. by right.
Qed.

Lemma alnum_free sep s : is_lower_alnum sep = false ->
  List.Forall (fun c => is_lower_alnum c = true) (explode s) -> free sep s.
Proof. intros N F H. rewrite List.Forall_forall in F. apply F in H. congruence. Qed.

Lemma FormatUint_free sep n : is_digit sep = false -> 0 <= n -> free sep (FormatUint n 10).
Proof.
  intros N B H. unfold FormatUint in H. rewrite explode_implode in H.
  destruct (format_digits_spec 64 n [] ltac:(lia) B eq_refl) as [D _].
  rewrite forallb_forall in D. apply D in H. congruence.
Qed.

Lemma FormatInt_free sep n : is_digit sep = false -> sep <> "-"%char -> free sep (FormatInt n 10).
Proof.
  intros N D. unfold FormatInt. destruct (n <? 0) eqn:E; bool_to_prop.
  - apply free_app; [|apply FormatUint_free; [done|lia]]. intros [H|[]]. by apply D.
  - apply FormatUint_free; [done|lia].
Qed.

Lemma FormatInt_inj a b : - two64 < a < two64 -> - two64 < b < two64 -> FormatInt a 10 = FormatInt b 10 -> a = b.
Proof.
  intros A B. unfold FormatInt.
  assert (X : forall n m, 0 <= m -> ("-" ++ FormatUint n 10)%string = FormatUint m 10 -> False).
  { intros n m Hm E. apply (FormatUint_free "-" m eq_refl Hm). rewrite <- E. by left. }
  destruct (a <? 0) eqn:Ea, (b <? 0) eqn:Eb; bool_to_prop; intros E.
  - injection E as E. apply FormatUint_decimal_inj in E; lia.
  - exfalso. eapply X; [|exact E]; lia.
  - exfalso. eapply X; [|exact (eq_sym E)]; lia.
  - apply FormatUint_decimal_inj in E; lia.
Qed.

(** *** Digests *)

Definition digest (text : string) : string := hex (sha256 text).

Lemma execution_key taskID g i p k name type :
  workflowExecutionKey taskID g i p k name type = digest (identity_text taskID g i p k name type).
Proof. reflexivity. Qed.

Lemma recovery_key root n : recoveryExecutionKey root n = digest (recovery_text root n).
Proof. reflexivity. Qed.

Lemma sha256_bytes message : List.Forall (fun b => 0 <= b < 256) (sha256 message).
Proof.
  unfold sha256. destruct (blocks256 _ _ _) as [[[[[[[a b] c] d] e] f] g] h]. cbn [map concat].
  rewrite !List.Forall_app. repeat split; try apply big_endian_bytes. constructor.
Qed.

Lemma hex_alnum l : List.Forall (fun b => 0 <= b < 256) l ->
  List.Forall (fun c => is_lower_alnum c = true) (explode (hex l)).
Proof.
  intros F. unfold hex. rewrite explode_implode. induction F as [|z l B F IH]; cbn [map concat]; [constructor|].
  cbn [app]. constructor; [|constructor; [|exact IH]]; apply digit_alnum.
  - split; [apply Z.div_pos; lia|]. apply Z.div_lt_upper_bound; lia.
  - pose proof (Z.mod_pos_bound z 16). lia.
Qed.

Lemma digest_free sep text : is_lower_alnum sep = false -> free sep (digest text).
Proof. intros N. apply alnum_free; [done|]. apply hex_alnum, sha256_bytes. Qed.

#[local] Opaque digest workflowExecutionKey recoveryExecutionKey.

(** *** Identities *)

Definition addressed (z : Z) : Prop := - two64 < z < two64.

(** The identity of a job of a task gives its slot back. *)
Lemma identity_slot taskID g g' i i' p p' k k' name name' type type' :
  0 <= g -> 0 <= g' -> addressed i -> addressed i' -> addressed p -> addressed p' -> addressed k -> addressed k' ->
  identity_text taskID g i p k name type = identity_text taskID g' i' p' k' name' type' ->
  i = i' /\ p = p' /\ k = k'.
Proof.
  intros G G' I I' P P' K K' E. unfold identity_text in E. apply (inj (String.append taskID)) in E.
  injection E as E. apply split_at in E as [_ E]; [|by apply FormatUint_free..].
  apply split_at in E as [Ei E]; [|by apply FormatInt_free..].
  apply split_at in E as [Ep E]; [|by apply FormatInt_free..].
  apply split_at in E as [Ek _]; [|by apply FormatInt_free..].
  repeat split; by apply FormatInt_inj.
Qed.

Lemma recovery_root a b n m : free "/" a -> free "/" b -> recovery_text a n = recovery_text b m -> a = b.
Proof. intros A B E. unfold recovery_text in E. by apply (split_at "/") in E as [-> _]. Qed.

(** The text of an identity holds a bar, that of a recovery none. *)
Lemma identity_not_recovery taskID g i p k name type root n :
  free "|" root -> identity_text taskID g i p k name type <> recovery_text root n.
Proof.
  intros F E. assert (X : free "|" (recovery_text root n)).
  { unfold recovery_text. apply free_app; [done|]. apply free_app; [cbv; intuition discriminate|].
    by apply FormatInt_free. }
  apply X. rewrite <- E. unfold identity_text. rewrite explode_app. apply in_or_app. right. by left.
Qed.

(** ** Slots *)

Definition job_at (executions : list StepExecution) (i : nat) (p : Z) (k : nat) : option JobTask :=
  match executions !! i with
  | Some execution => match jobs_of execution !! p with Some jobs => jobs !! k | None => None end
  | None => None
  end.

(** The plan with its jobs transformed slot by slot. *)
Definition slotwise (R : nat -> Z -> nat -> JobTask -> JobTask -> Prop)
  (executions executions' : list StepExecution) : Prop :=
  length executions' = length executions /\
  forall i p k,
    match job_at executions i p k with
    | Some job => exists job', job_at executions' i p k = Some job' /\ R i p k job job'
    | None => job_at executions' i p k = None
    end.

Lemma slotwise_job R executions executions' i p k job : slotwise R executions executions' ->
  job_at executions' i p k = Some job -> exists job0, job_at executions i p k = Some job0 /\ R i p k job0 job.
Proof.
  intros [_ S] E. specialize (S i p k). destruct (job_at executions i p k) as [job0|]; [|congruence].
  destruct S as (job' & E' & X). rewrite E in E'. injection E' as ->. eauto.
Qed.

Lemma traverse_ok {A B} (f : A -> result B) l bs : traverse f l = Ok bs -> Forall2 (fun a b => f a = Ok b) l bs.
Proof.
  revert bs. induction l as [|a l IH]; cbn; intros bs E; [injection E as <-; constructor|].
  destruct (f a) as [b|e] eqn:F; [|discriminate]. cbn in E. destruct (traverse f l) as [bs'|e]; [|discriminate].
  cbn in E. injection E as <-. constructor; auto.
Qed.

Lemma traverse_err {A B} (f : A -> result B) l e : traverse f l = Err e -> exists a, In a l /\ f a = Err e.
Proof.
  induction l as [|a l IH]; cbn; intros E; [discriminate|].
  destruct (f a) as [b|e'] eqn:F; cbn in E; [|injection E as ->; eauto].
  destruct (traverse f l) as [bs|e'] eqn:T; [discriminate|]. cbn in E. injection E as ->.
  destruct IH as (x & Hx & Ex); eauto.
Qed.

(** A traversal with the position of each element. *)
Lemma traverse_imap_ok {A B} (f : nat * A -> result B) l bs : traverse f (imap pair l) = Ok bs ->
  length bs = length l /\ forall n, match l !! n with
                                    | Some a => exists b, bs !! n = Some b /\ f (n, a) = Ok b
                                    | None => bs !! n = None
                                    end.
Proof.
  intros T. apply traverse_ok in T. pose proof (Forall2_length _ _ _ T) as L. rewrite length_imap in L. split; [done|].
  intros n. destruct (l !! n) as [a|] eqn:E.
  - assert (E' : imap pair l !! n = Some (n, a)) by (by rewrite list_lookup_imap, E).
    destruct (Forall2_lookup_l _ _ _ _ _ T E') as (b & Eb & F). eauto.
  - apply lookup_ge_None in E. apply lookup_ge_None. lia.
Qed.

Lemma traverse_imap_err {A B} (f : nat * A -> result B) l e : traverse f (imap pair l) = Err e ->
  exists n a, l !! n = Some a /\ f (n, a) = Err e.
Proof.
  intros (x & Hx & F)%traverse_err. apply list_elem_of_In, elem_of_lookup_imap in Hx as (n & a & -> & E). eauto.
Qed.

(** The values of a map, transformed with their keys. *)
Lemma transformed_map {B C} (R : Z -> B -> C -> Prop) (m : gmap Z B) (l : list (Z * C)) :
  Forall2 (fun kb kc => fst kb = fst kc /\ R (fst kb) (snd kb) (snd kc)) (map_to_list m) l ->
  forall p, match m !! p with
            | Some b => exists c, (list_to_map l : gmap Z C) !! p = Some c /\ R p b c
            | None => (list_to_map l : gmap Z C) !! p = None
            end.
Proof.
  intros T. assert (K : map fst l = map fst (map_to_list m)).
  { induction T as [|[p b] [p' c] l0 l' [F _] T IH]; [done|]. cbn. cbn in F. by f_equal. }
  assert (N : NoDup (l.*1)). { change (l.*1) with (map fst l). rewrite K. apply NoDup_fst_map_to_list. }
  intros p. destruct (m !! p) as [b|] eqn:E.
  - apply elem_of_map_to_list, list_elem_of_lookup in E as [n E].
    destruct (Forall2_lookup_l _ _ _ _ _ T E) as ([p' c] & Ec & F & X). cbn in F, X. subst p'.
    exists c. split; [|done]. apply elem_of_list_to_map_1; [done|]. by eapply list_elem_of_lookup_2.
  - apply not_elem_of_list_to_map_1. change (l.*1) with (map fst l). rewrite K.
    intros (x & -> & H)%list_elem_of_fmap. destruct x as [q b]. apply elem_of_map_to_list in H. cbn in E. congruence.
Qed.

Lemma traverse_map_ok {B C} (f : Z -> B -> result C) (m : gmap Z B) l :
  traverse (fun '(p, b) => check! c <- f p b; Ok (p, c)) (map_to_list m) = Ok l ->
  forall p, match m !! p with
            | Some b => exists c, (list_to_map l : gmap Z C) !! p = Some c /\ f p b = Ok c
            | None => (list_to_map l : gmap Z C) !! p = None
            end.
Proof.
  intros T. apply (transformed_map (fun p b c => f p b = Ok c)). apply traverse_ok in T.
  eapply Forall2_impl; [exact T|]. intros [p b] [p' c]. cbn. destruct (f p b) as [c'|]; [|discriminate].
  cbn. by intros [= -> ->].
Qed.

Lemma job_at_step executions i execution p k : executions !! i = Some execution ->
  job_at executions i p k = match jobs_of execution !! p with Some jobs => jobs !! k | None => None end.
Proof. unfold job_at. by intros ->. Qed.

(** ** Restoring *)

(** A later generation, or a later recovery within one. *)
Definition newer (a b : JobInfo * Z) : Prop :=
  job_RunGeneration (fst b) < job_RunGeneration (fst a) \/
  job_RunGeneration (fst a) = job_RunGeneration (fst b) /\ snd b < snd a.

Section Restoring.
Context {Q : Type} `{QuantityOps Q} `{KubernetesJson Q}.
Variable decode_job : Json -> option (Job Q).
Variable order : JobRetryPolicy Q -> list (string * Z).
Variable decodeEvaluationInfo : string -> result evaluationInfo.
Variable task : WorkflowQueue.

Local Abbreviation rank_of := (candidate_rank decodeEvaluationInfo task).
Local Abbreviation select_in := (selected_record decodeEvaluationInfo task).

Lemma candidate_rank_is i p k job r rank : rank_of i p k job r = Some rank ->
  EvaluationExecutionRank decodeEvaluationInfo r (slot_key task i p k job (job_RunGeneration r)) = Some rank /\
  job_RunGeneration r <> 0 /\ job_RunGeneration r <= wq_RunGeneration task.
Proof.
  unfold candidate_rank. destruct (_ || _) eqn:G; [discriminate|]. apply orb_false_iff in G as [G1 G2].
  destruct (EvaluationExecutionRank _ _ _) as [rank'|]; [|discriminate]. destruct (_ && _ && _); [discriminate|].
  intros [= ->]. apply Z.eqb_neq in G1. apply Z.ltb_ge in G2. done.
Qed.

(** The kept record is one of those seen, and none seen is newer. *)
Lemma select_fold i p k job l : forall kept seen,
  (match kept with
   | None => forall r, In r seen -> rank_of i p k job r = None
   | Some c => In c seen /\ exists rank, rank_of i p k job c = Some rank /\
       forall r rank', In r seen -> rank_of i p k job r = Some rank' -> ~ newer (r, rank') (c, rank)
   end) ->
  match fold_left (select_record decodeEvaluationInfo task i p k job) l kept with
  | None => forall r, In r (seen ++ l) -> rank_of i p k job r = None
  | Some c => In c (seen ++ l) /\ exists rank, rank_of i p k job c = Some rank /\
      forall r rank', In r (seen ++ l) -> rank_of i p k job r = Some rank' -> ~ newer (r, rank') (c, rank)
  end.
Proof.
  induction l as [|r l IH]; intros kept seen Inv; cbn [fold_left]; [by rewrite app_nil_r|].
  replace (seen ++ r :: l)%list with ((seen ++ [r]) ++ l)%list by (by rewrite <- app_assoc). apply IH. clear IH.
  assert (S : forall x, In x (seen ++ [r]) -> In x seen \/ x = r).
  { intros x [X|[X|[]]]%in_app_or; auto. }
  unfold select_record. destruct (rank_of i p k job r) as [rank|] eqn:R.
  - destruct kept as [c|].
    + destruct Inv as (Ic & rc & Rc & Max). pose proof (candidate_rank_is _ _ _ _ _ _ Rc) as (-> & _). unfold default, id.
      match goal with |- context [if ?b then _ else _] => destruct b eqn:B end.
      * split; [apply in_or_app; by left|]. exists rc. split; [done|]. intros x rx Hx Rx.
        destruct (S x Hx) as [Hs| ->]; [by apply Max|]. rewrite R in Rx. injection Rx as <-.
        unfold newer. cbn. apply orb_true_iff in B as [B|[B1 B2]%andb_true_iff]; bool_to_prop; lia.
      * split; [apply in_or_app; right; by left|]. exists rank. split; [done|]. intros x rx Hx Rx.
        apply orb_false_iff in B as [B1 B2]. apply andb_false_iff in B2.
        destruct (S x Hx) as [Hs| ->].
        -- specialize (Max x rx Hs Rx). unfold newer in *. cbn in *.
           destruct B2 as [B2|B2]; bool_to_prop; lia.
        -- rewrite R in Rx. injection Rx as <-. unfold newer. cbn. lia.
    + split; [apply in_or_app; right; by left|]. exists rank. split; [done|]. intros x rx Hx Rx.
      destruct (S x Hx) as [Hs| ->]; [by rewrite (Inv x Hs) in Rx|]. rewrite R in Rx. injection Rx as <-.
      unfold newer. cbn. lia.
  - destruct kept as [c|].
    + destruct Inv as (Ic & rc & Rc & Max). split; [apply in_or_app; by left|]. exists rc. split; [done|].
      intros x rx Hx Rx. destruct (S x Hx) as [Hs| ->]; [by apply Max|congruence].
    + intros x Hx. destruct (S x Hx) as [Hs| ->]; auto.
Qed.

(** What a slot may take over: nothing when no record qualifies, else a newest one. *)
Definition newest (i p k : Z) (job : JobTask) (records : JobInfo -> Prop) (selected : option JobInfo) : Prop :=
  match selected with
  | None => forall r, records r -> rank_of i p k job r = None
  | Some c => records c /\ exists rank, rank_of i p k job c = Some rank /\
      forall r rank', records r -> rank_of i p k job r = Some rank' -> ~ newer (r, rank') (c, rank)
  end.

Lemma selected_newest i p k job entities : newest i p k job (fun r => In r entities) (select_in i p k job entities).
Proof. exact (select_fold i p k job entities None [] (fun r F => match F with end)). Qed.

(** The job as it continues from a record. *)
Definition resumes (selected : JobInfo) (job job' : JobTask) : Prop :=
  if has_retry_checkpoint selected
  then RestoreInstantJobRetryCheckpoint decode_job order (adopt selected job) = Ok job'
  else job' = adopt selected job.

Definition taken_over (records : JobInfo -> Prop) (i : nat) (p : Z) (k : nat) (job job' : JobTask) : Prop :=
  exists selected, newest (Z.of_nat i) p (Z.of_nat k) job records selected /\
    match selected with None => job' = job | Some r => resumes r job job' end.

Lemma restore_job_ok entities (i k : nat) p job job' :
  restore_job decode_job order decodeEvaluationInfo task entities (Z.of_nat i) p (Z.of_nat k) job = Ok job' ->
  taken_over (fun r => In r entities) i p k job job'.
Proof.
  unfold restore_job. intros E. eexists. split; [apply selected_newest|].
  destruct (select_in _ _ _ _ _) as [r|]; [|by injection E as <-]. unfold resumes.
  destruct (has_retry_checkpoint r); [|by injection E as <-].
  destruct (RestoreInstantJobRetryCheckpoint _ _ _) as [j|e]; [|discriminate]. exact E.
Qed.

Lemma restore_steps_slots entities executions restored :
  restore_steps decode_job order decodeEvaluationInfo task entities executions = Ok restored ->
  slotwise (taken_over (fun r => In r entities)) executions restored.
Proof.
  intros E. apply traverse_imap_ok in E as [L E]. split; [done|]. intros i p k. specialize (E i). unfold job_at at 1.
  destruct (executions !! i) as [execution|] eqn:Ei; [|unfold job_at; by rewrite E].
  destruct E as (execution' & Ei' & F). rewrite (job_at_step _ _ _ _ _ Ei'). unfold jobs_of at 1.
  destruct (se_Jobs execution) as [buckets|] eqn:J.
  2:{ injection F as <-. unfold jobs_of. rewrite J. done. }
  unfold default, id. destruct (restore_buckets _ _ _ _ _ _ _) as [buckets'|] eqn:R; [|discriminate]. cbn in F.
  injection F as <-.
  unfold restore_buckets in R.
  match type of R with (check! restored <- ?t; _) = _ => destruct t as [l|] eqn:T; [|discriminate] end.
  injection R as <-. pose proof (traverse_map_ok _ _ _ T p) as X.
  change (jobs_of (execution <| se_Jobs := Some (list_to_map l) |>) !! p) with ((list_to_map l : gmap Z
    (list JobTask)) !! p).
  destruct (buckets !! p) as [jobs|] eqn:P; [|by rewrite X].
  destruct X as (jobs' & -> & X). apply traverse_imap_ok in X as [_ X]. specialize (X k).
  destruct (jobs !! k) as [job|]; [|done]. destruct X as (job' & Ek & X). exists job'. split; [done|].
  by apply restore_job_ok.
Qed.

(** The text behind the key of a job that took something over, or nothing. *)
Lemma rank_text r root rank : EvaluationExecutionRank decodeEvaluationInfo r root = Some rank ->
  exists key, job_ExecutionKey r = Some key /\
    (key = root \/ exists n, In n [1; 2; 3] /\ key = recoveryExecutionKey root n).
Proof.
  unfold EvaluationExecutionRank. destruct (job_ExecutionKey r) as [key|]; [|discriminate]. intros E. exists key.
  split; [done|].
  destruct (key =? root)%string eqn:K; [left; by apply String.eqb_eq|]. right. revert E.
  destruct (negb _); [discriminate|]. destruct (decodeEvaluationInfo _) as [info|]; [|discriminate].
  destruct (_ || _) eqn:G; [discriminate|]. rewrite !orb_false_iff, negb_false_iff, String.eqb_eq in G.
  destruct G as [[[<- L] U] _].
  match goal with |- (if ?c then _ else _) = _ -> _ => destruct c eqn:K'; [intros _|by intros E] end.
  apply String.eqb_eq in K'.
  exists (ei_RecoveryIndex info). split; [|done]. unfold maxEvaluationRecoveries in U. bool_to_prop. cbn. lia.
Qed.
End Restoring.

(** ** Identities tell jobs apart *)

Section Apart.
Variable task : WorkflowQueue.

(** The texts whose digests can be the key of a slot, in the given generations. *)
Definition slot_text (g : Z) (i : nat) (p : Z) (k : nat) (job : JobTask) : string :=
  identity_text (wq_TaskID task) g (Z.of_nat i) p (Z.of_nat k) (jt_Name job) (jt_JobType job).

Definition slot_texts (generations : list Z) (i : nat) (p : Z) (k : nat) (job : JobTask) : list string :=
  concat (map (fun g => let text := slot_text g i p k job in
                        text :: map (recovery_text (digest text)) [1; 2; 3]) generations).

Definition slots (executions : list StepExecution) : list (nat * Z * nat * JobTask) :=
  concat (imap (fun i execution =>
    concat (map (fun pj => imap (fun k job => (i, fst pj, k, job)) (snd pj)) (map_to_list
      (jobs_of execution)))) executions).

Definition plan_texts (generations : list Z) (executions : list StepExecution) : list string :=
  concat (map (fun '(i, p, k, job) => slot_texts generations i p k job) (slots executions)).

Definition distinct_digests (texts : list string) : Prop :=
  forall a b, In a texts -> In b texts -> digest a = digest b -> a = b.

(** Positions and priorities that fit in a machine integer. *)
Definition addressable (executions : list StepExecution) : Prop :=
  forall i p k job, job_at executions i p k = Some job ->
    addressed (Z.of_nat i) /\ addressed p /\ addressed (Z.of_nat k).

Lemma in_slots executions i p k job : job_at executions i p k = Some job -> In (i, p, k, job) (slots executions).
Proof.
  unfold job_at. destruct (executions !! i) as [execution|] eqn:Ei; [|discriminate].
  destruct (jobs_of execution !! p) as [jobs|] eqn:Ep; [|discriminate]. intros Ek.
  apply in_concat. eexists. split.
  - apply list_elem_of_In, elem_of_lookup_imap. exists i, execution. by split.
  - apply in_concat. eexists. split.
    + apply in_map_iff. exists (p, jobs). split; [reflexivity|]. apply list_elem_of_In. by apply elem_of_map_to_list.
    + apply list_elem_of_In, elem_of_lookup_imap. by exists k, job.
Qed.

Lemma in_plan_texts generations executions i p k job text : job_at executions i p k = Some job ->
  In text (slot_texts generations i p k job) -> In text (plan_texts generations executions).
Proof.
  intros E T. apply in_concat. exists (slot_texts generations i p k job). split; [|done].
  apply in_map_iff. exists (i, p, k, job). split; [done|]. by apply in_slots.
Qed.

Lemma in_slot_texts generations i p k job text : In text (slot_texts generations i p k job) ->
  exists g, In g generations /\
    (text = slot_text g i p k job \/ exists n, text = recovery_text (digest (slot_text g i p k job)) n).
Proof.
  intros (l & Hl & T)%in_concat. apply in_map_iff in Hl as (g & <- & G). exists g. split; [done|].
  destruct T as [T|T]; [by left|right]. apply in_map_iff in T as (n & <- & _). by exists n.
Qed.

Lemma slot_text_in generations g i p k job : In g generations -> In (slot_text g i p k job)
  (slot_texts generations i p k job).
Proof. intros G. apply in_concat. eexists. split; [apply in_map_iff; by exists g|by left]. Qed.

(** A text belongs to one slot. *)
Lemma texts_apart generations executions i p k job i' p' k' job' text :
  distinct_digests (plan_texts generations executions) -> addressable executions ->
  (forall g, In g generations -> 0 <= g) ->
  job_at executions i p k = Some job -> job_at executions i' p' k' = Some job' ->
  In text (slot_texts generations i p k job) -> In text (slot_texts generations i' p' k' job') ->
  (i, p, k) = (i', p', k').
Proof.
  intros D A G E E' T T'.
  destruct (A _ _ _ _ E) as (Ai & Ap & Ak), (A _ _ _ _ E') as (Ai' & Ap' & Ak').
  assert (X : forall g g', In g generations -> In g' generations ->
    slot_text g i p k job = slot_text g' i' p' k' job' -> (i, p, k) = (i', p', k')).
  { intros g g' Hg Hg' Et. apply identity_slot in Et as (I & P & K); auto.
    apply Nat2Z.inj in I, K. congruence. }
  apply in_slot_texts in T as (g & Hg & T), T' as (g' & Hg' & T').
  assert (Fb : forall t, free "|" (digest t)) by (intros t; by apply digest_free).
  assert (Fs : forall t, free "/" (digest t)) by (intros t; by apply digest_free).
  destruct T as [->|[n ->]], T' as [Et|[n' Et]].
  - exact (X g g' Hg Hg' Et).
  - exfalso. by eapply identity_not_recovery; [apply Fb|exact Et].
  - exfalso. symmetry in Et. by eapply identity_not_recovery; [apply Fb|exact Et].
  - apply recovery_root in Et; [|apply Fs..]. apply D in Et.
    + exact (X g g' Hg Hg' Et).
    + apply (in_plan_texts _ _ _ _ _ _ _ E). by apply slot_text_in.
    + apply (in_plan_texts _ _ _ _ _ _ _ E'). by apply slot_text_in.
Qed.
End Apart.

(** Identifying a plan gives each job its slot's identity. *)
Definition named (job job' : JobTask) : Prop := jt_Name job' = jt_Name job /\ jt_JobType job' = jt_JobType job.

Definition owned_by (task : WorkflowQueue) (job : JobTask) : Prop :=
  jt_OwnerRunGeneration job = wq_RunGeneration task /\ jt_OwnerStatus job = wq_Status task /\
  jt_RunToken job = wq_RunToken task /\ jt_WorkerID job = wq_WorkerID task.

Lemma identify_spec task i p k job : let job' := identify task i p k job in
  named job job' /\ owned_by task job' /\ jt_TaskID job' = jt_TaskID job /\
  jt_RunGeneration job' = wq_RunGeneration task /\
  jt_ExecutionKey job' = workflowJobExecutionKey task i p k (jt_Name job) (jt_JobType job).
Proof.
  cbv zeta. unfold identify, ApplyExecutionIdentity. destruct (_ || _); [by repeat split|].
  match goal with |- context [match jt_JobInfo ?x with _ => _ end] => by destruct (jt_JobInfo x) end.
Qed.

Lemma identity_slots executions task :
  slotwise (fun i p k job job' => job' = identify task (Z.of_nat i) p (Z.of_nat k) job) executions
    (applyWorkflowExecutionIdentity executions task).
Proof.
  unfold applyWorkflowExecutionIdentity, map_steps. split; [apply length_imap|]. intros i p k. unfold job_at.
  rewrite list_lookup_imap. destruct (executions !! i) as [execution|]; [|done]. cbn [fmap option_fmap option_map].
  unfold jobs_of. cbn. destruct (se_Jobs execution) as [buckets|]; [|done]. cbn. unfold id.
  rewrite map_lookup_imap. destruct (buckets !! p) as [jobs|]; [|done]. cbn.
  unfold applyWorkflowJobExecutionIdentity. rewrite list_lookup_imap. destruct (jobs !! k) as [job|]; [|done]. cbn. eauto.
Qed.

(** ** Properties *)

(** The rows the query for committed records finds. *)
Definition committed (task : WorkflowQueue) (d : Database) (r : JobInfo) : Prop :=
  (exists id, db_jobs d !! id = Some r) /\ job_TaskID r = wq_TaskID task /\ In (job_Status r) committed_statuses /\
  (wq_Type task = WorkflowTaskTypeJob -> wq_WorkspaceID task <> ""%string -> job_WorkspaceID r = wq_WorkspaceID task).

Lemma val_eqb_str a b : val_eqb (VStr a) (VStr b) = true <-> a = b.
Proof. apply String.eqb_eq. Qed.

Lemma existsb_status s l : existsb (fun v => negb (is_null v) && val_eqb (VStr s) v) (map VStr l) = true <-> In s l.
Proof.
  rewrite existsb_exists. split.
  - intros (v & Hv & E). apply in_map_iff in Hv as (x & <- & Hx). apply andb_true_iff in E as [_ E].
    apply val_eqb_str in E. by subst.
  - intros Hs. exists (VStr s). split; [by apply in_map|]. cbn. by rewrite String.eqb_refl.
Qed.

Lemma committed_rows task d : wq_TaskID task <> ""%string -> forall r,
  In r (select (E := JobInfo) (committed_query task) committed_options d) <-> committed task d r.
Proof.
  intros T r. change (In r (List.filter (row_matches (committed_query task) (Filter committed_options)) (rows d)) <->
    committed task d r).
  rewrite filter_In, elem_rows. unfold row_matches, committed.
  cbn [committed_options Filter In_ NotEqual LessThan forallb fst snd].
  rewrite !andb_true_r, andb_true_iff. change (get_col "status" r) with (VStr (job_Status r)).
  rewrite existsb_status.
  assert (X : forallb (fun kv => val_eqb (get_col (fst kv) r) (snd kv)) (committed_query task) = true <->
    job_TaskID r = wq_TaskID task /\
    (wq_Type task = WorkflowTaskTypeJob -> wq_WorkspaceID task <> ""%string -> job_WorkspaceID r = wq_WorkspaceID task)).
  { unfold committed_query, job_info_index, index_str. cbn. apply str_empty_false in T. unfold str_empty in *.
    rewrite T, app_nil_r.
    destruct (wq_Type task =? WorkflowTaskTypeJob)%string eqn:J; bool_to_prop.
    - destruct (wq_WorkspaceID task =? "")%string eqn:W; cbn; bool_to_prop;
        rewrite ?andb_true_r, ?andb_true_iff, !String.eqb_eq;
        intuition congruence.
    - cbn. rewrite andb_true_r, String.eqb_eq. intuition congruence. }
  rewrite X. tauto.
Qed.

Lemma newest_ext {dei : string -> result evaluationInfo} task i p k job (R R' : JobInfo -> Prop) selected :
  (forall r, R r <-> R' r) -> newest dei task i p k job R selected -> newest dei task i p k job R' selected.
Proof.
  intros X N. destruct selected as [c|]; cbn in *.
  - destruct N as (Rc & rank & Ck & Max). split; [by apply X|]. exists rank. split; [done|].
    intros r rank' Hr. apply Max. by apply X.
  - intros r Hr. apply N. by apply X.
Qed.

Lemma slotwise_impl (R R' : nat -> Z -> nat -> JobTask -> JobTask -> Prop) executions executions' :
  (forall i p k job job', job_at executions i p k = Some job -> R i p k job job' -> R' i p k job job') ->
  slotwise R executions executions' -> slotwise R' executions executions'.
Proof.
  intros X [L S]. split; [done|]. intros i p k. specialize (S i p k). specialize (X i p k).
  destruct (job_at executions i p k) as [job|]; [|done]. destruct S as (job' & E & S). eauto.
Qed.

(** What a plan and its restoration share besides the jobs. *)
Definition frame_of (execution : StepExecution) : StepExecution := execution <| se_Jobs := None |>.

Lemma restore_steps_frame {Q} `{QuantityOps Q} `{KubernetesJson Q} decode_job order dei task entities executions
  restored :
  restore_steps decode_job order dei task entities executions = Ok restored ->
  map frame_of restored = map frame_of executions.
Proof.
  intros E. unfold restore_steps in E. apply traverse_imap_ok in E as [L E]. apply list_eq. intros n. specialize (E n).
  rewrite !list_lookup_fmap. destruct (executions !! n) as [execution|]; [|by rewrite E].
  destruct E as (execution' & -> & F). destruct (se_Jobs execution); [|by injection F as <-].
  destruct (restore_buckets _ _ _ _ _ _ _); [|discriminate]. by injection F as <-.
Qed.

Lemma restore_steps_fails {Q} `{QuantityOps Q} `{KubernetesJson Q} decode_job order dei task entities executions e :
  restore_steps decode_job order dei task entities executions = Err e ->
  exists i p k job r err, job_at executions i p k = Some job /\
    newest dei task (Z.of_nat i) p (Z.of_nat k) job (fun r => In r entities) (Some r) /\ has_retry_checkpoint r = true /\
    RestoreInstantJobRetryCheckpoint decode_job order (adopt r job) = Err err /\
      e = Wrapf "restore instant job retry" err.
Proof.
  intros E. apply traverse_imap_err in E as (i & execution & Ei & E).
  destruct (se_Jobs execution) as [buckets|] eqn:J; [|discriminate].
  destruct (restore_buckets _ _ _ _ _ _ _) as [b|e0] eqn:B; [discriminate|]. cbn in E. injection E as ->.
  unfold restore_buckets in B. destruct (traverse _ _) as [l|e0] eqn:T in B; [discriminate|]. cbn in B. injection B as ->.
  apply traverse_err in T as ([p jobs] & Hp & T). apply list_elem_of_In, elem_of_map_to_list in Hp.
  destruct (restore_jobs _ _ _ _ _ _ _ _) as [l|e0] eqn:R; [discriminate|]. cbn in T. injection T as ->.
  apply traverse_imap_err in R as (k & job & Ek & R). unfold restore_job in R.
  pose proof (selected_newest dei task (Z.of_nat i) p (Z.of_nat k) job entities) as N.
  destruct (selected_record _ _ _ _ _ _ _) as [r|]; [|discriminate].
  destruct (has_retry_checkpoint r) eqn:Hr; [|discriminate].
  destruct (RestoreInstantJobRetryCheckpoint _ _ _) as [j|err] eqn:F; [discriminate|]. injection R as <-.
  exists i, p, k, job, r, err. repeat split; try done; try apply N.
  unfold job_at, jobs_of. rewrite Ei, J. cbn. unfold id. by rewrite Hp.
Qed.

(** Alone, restoring reads the committed rows and changes nothing. *)
Lemma restore_alone {Q} `{QuantityOps Q} `{KubernetesJson Q} decode_job order dei executions task d t :
  wq_RunGeneration task <> 0 -> wq_TaskID task <> ""%string ->
  restoreCommittedJobExecutions decode_job order dei executions task (seqw d t) =
    (restore_steps decode_job order dei task (select (E := JobInfo) (committed_query task) committed_options d)
      executions,
     seqw d t).
Proof.
  intros G T. unfold restoreCommittedJobExecutions. rewrite (proj2 (Z.eqb_neq _ _) G), (proj2 (str_empty_false _) T).
  cbn [orb].
  erewrite bind_ok by (erewrite wrap_ok; [reflexivity|]; apply seq_List; [done|];
    unfold committed_query, job_info_index, index_str; cbn; by repeat case_match).
  by destruct (restore_steps _ _ _ _ _ _).
Qed.

Lemma restored_slots {Q} `{QuantityOps Q} `{KubernetesJson Q} decode_job order dei executions task d restored :
  wq_TaskID task <> ""%string ->
  restore_steps decode_job order dei task (select (E := JobInfo) (committed_query task) committed_options d) executions =
    Ok restored ->
  slotwise (taken_over decode_job order dei task (committed task d)) executions restored.
Proof.
  intros T E. eapply slotwise_impl; [|by eapply restore_steps_slots].
  intros i p k job job' _ (c & N & X). exists c. split; [|done].
  eapply newest_ext; [exact (committed_rows task d T)|exact N].
Qed.

(** C13: a plan takes over committed work.  When no other session interferes, restoring reads the database and changes
    nothing.  It keeps the steps, priorities and positions of the plan, and each job takes over the newest committed
    record of its slot: of the latest generation up to the task's, then of the latest recovery, among those it may
    take over; a job without such a record is left as it is.  It fails only when the record taken over is a running
    instant job whose retry checkpoint cannot be restored. *)
Theorem committed_work_taken_over {Q} `{QuantityOps Q} `{KubernetesJson Q} decode_job order dei executions task d t :
  wq_RunGeneration task <> 0 -> wq_TaskID task <> ""%string ->
  match restoreCommittedJobExecutions decode_job order dei executions task (seqw d t) with
  | (Ok restored, w') => w' = seqw d t /\ map frame_of restored = map frame_of executions /\
      slotwise (taken_over decode_job order dei task (committed task d)) executions restored
  | (Err e, w') => w' = seqw d t /\ exists i p k job r err, job_at executions i p k = Some job /\
      newest dei task (Z.of_nat i) p (Z.of_nat k) job (committed task d) (Some r) /\ has_retry_checkpoint r = true /\
      RestoreInstantJobRetryCheckpoint decode_job order (adopt r job) = Err err /\
        e = Wrapf "restore instant job retry" err
  end.
Proof.
  intros G T. rewrite (restore_alone _ _ _ _ _ _ _ G T).
  destruct (restore_steps _ _ _ _ _ _) as [restored|e] eqn:R; (split; [done|]).
  - split; [by eapply restore_steps_frame|by apply restored_slots].
  - apply restore_steps_fails in R as (i & p & k & job & r & err & E & N & X).
    exists i, p, k, job, r, err. split; [done|]. split; [|done].
    eapply newest_ext; [exact (committed_rows task d T)|exact N].
Qed.

(** Every generation the keys of a restored plan can be of. *)
Definition generations (task : WorkflowQueue) (d : Database) : list Z :=
  wq_RunGeneration task :: map (fun kr => job_RunGeneration (snd kr)) (map_to_list (db_jobs d)).

Lemma retry_keeps {Q} `{QuantityOps Q} `{KubernetesJson Q} decode_job order job job' :
  RestoreInstantJobRetryCheckpoint decode_job order job = Ok job' ->
  named job job' /\ jt_ExecutionKey job' = jt_ExecutionKey job /\ jt_TaskID job' = jt_TaskID job /\
  (forall task, owned_by task job -> owned_by task job') /\ jt_Status job' = jt_Status job.
Proof.
  unfold RestoreInstantJobRetryCheckpoint. generalize (DecodeInstantJobRetryCheckpoint decode_job order (Some job)).
  intros [cp|e]; [|discriminate]. unfold result_bind. destruct (rc_Job cp) as [kjob|]; [|discriminate].
  generalize (kj_Labels kjob) (kj_Annotations kjob) (rc_Attempt cp). intros labels annotations attempt [= <-]. done.
Qed.

Lemma resumes_keeps {Q} `{QuantityOps Q} `{KubernetesJson Q} decode_job order selected job job' :
  resumes decode_job order selected job job' ->
  named job job' /\ jt_ExecutionKey job' = default ""%string (job_ExecutionKey selected) /\
    jt_TaskID job' = jt_TaskID job /\
  (forall task, owned_by task job -> owned_by task job') /\ jt_Status job' = status_of selected.
Proof.
  unfold resumes. destruct (has_retry_checkpoint selected); [|by intros ->].
  intros (Nm & K & T & O & St)%retry_keeps. repeat split; try done; try apply Nm; apply (O task); assumption.
Qed.

Lemma taken_text {Q} `{QuantityOps Q} `{KubernetesJson Q} decode_job order dei task d i p k (job0 job job' : JobTask) :
  named job0 job -> jt_ExecutionKey job = digest (slot_text task (wq_RunGeneration task) i p k job0) ->
  taken_over decode_job order dei task (committed task d) i p k job job' ->
  exists text, In text (slot_texts task (generations task d) i p k job0) /\ jt_ExecutionKey job' = digest text.
Proof.
  intros [Nm Ty] K (selected & N & X). destruct selected as [r|].
  2:{ subst job'. eexists. split; [|exact K]. apply slot_text_in. by left. }
  assert (Kr : jt_ExecutionKey job' = default ""%string (job_ExecutionKey r)).
  { apply (resumes_keeps _ _ _ _ _ X). }
  destruct N as [([row L] & _) (rank & C & _)]. apply candidate_rank_is in C as (C & _).
  apply rank_text in C as (key & Ek & C). rewrite Ek in Kr. cbn in Kr. unfold id in Kr.
  assert (Hg : In (job_RunGeneration r) (generations task d)).
  { right. apply in_map_iff. exists (row, r). split; [done|]. by apply list_elem_of_In, elem_of_map_to_list. }
  unfold slot_key in C. rewrite Nm, Ty, execution_key in C. set (text := slot_text task (job_RunGeneration r) i p k job0).
  assert (Ht : In text (slot_texts task (generations task d) i p k job0)) by (by apply slot_text_in).
  destruct C as [C|(n & Hn & C)].
  - exists text. split; [done|]. by rewrite Kr, C.
  - exists (recovery_text (digest text) n). split; [|by rewrite Kr, C, recovery_key].
    apply in_concat. eexists. split; [apply in_map_iff; by exists (job_RunGeneration r)|]. right.
    apply in_map_iff. by exists n.
Qed.

(** C16: no two jobs of a plan are taken for each other.  Give a plan its identities and restore it.  As long as the
    texts behind the keys of its slots have different digests, two jobs of the restored plan with the same execution
    key are at the same position of the same priority of the same step; in particular no two jobs take over the same
    record, whatever names and types the jobs have and whatever the records hold. *)
Theorem plan_jobs_apart {Q} `{QuantityOps Q} `{KubernetesJson Q} decode_job order dei executions task d t restored w' :
  restoreCommittedJobExecutions decode_job order dei (applyWorkflowExecutionIdentity executions task) task (seqw d t) =
    (Ok restored, w') ->
  addressable executions -> (forall g, In g (generations task d) -> 0 <= g) ->
  distinct_digests (plan_texts task (generations task d) executions) ->
  forall i p k job i' p' k' job',
    job_at restored i p k = Some job -> job_at restored i' p' k' = Some job' ->
    jt_ExecutionKey job = jt_ExecutionKey job' -> (i, p, k) = (i', p', k').
Proof.
  intros E A G D. pose proof (identity_slots executions task) as S.
  set (plan := applyWorkflowExecutionIdentity executions task) in *.
  assert (X : forall i p k job, job_at restored i p k = Some job -> exists job0 text,
    job_at executions i p k = Some job0 /\ In text (slot_texts task (generations task d) i p k job0) /\
    jt_ExecutionKey job = digest text).
  { intros i p k job Ej. destruct (decide (wq_RunGeneration task = 0 \/ wq_TaskID task = ""%string)) as [Z|N].
    - unfold restoreCommittedJobExecutions in E.
      replace ((wq_RunGeneration task =? 0) || str_empty (wq_TaskID task)) with true in E
        by (symmetry; apply orb_true_iff; rewrite Z.eqb_eq, str_empty_true; exact Z).
      injection E as <- _. destruct (slotwise_job _ _ _ _ _ _ _ S Ej) as (job0 & E0 & ->).
      exists job0, (slot_text task (wq_RunGeneration task) i p k job0). split; [done|].
      split; [apply slot_text_in; by left|].
      destruct (identify_spec task (Z.of_nat i) p (Z.of_nat k) job0) as (_ & _ & _ & _ & ->). apply execution_key.
    - apply Decidable.not_or in N as [N1 N2].
      rewrite (restore_alone _ _ _ _ _ _ _ N1 N2) in E. injection E as E _.
      pose proof (restored_slots _ _ _ _ _ _ _ N2 E) as C. destruct (slotwise_job _ _ _ _ _ _ _ C Ej) as (job1 & E1 & T).
      destruct (slotwise_job _ _ _ _ _ _ _ S E1) as (job0 & E0 & Id). exists job0.
      destruct (identify_spec task (Z.of_nat i) p (Z.of_nat k) job0) as (Nm & _ & _ & _ & K). rewrite <- Id in Nm, K.
      unfold workflowJobExecutionKey in K. rewrite execution_key in K.
      destruct (taken_text _ _ _ _ _ _ _ _ _ _ _ Nm K T) as (text & Ht & Ek). eauto. }
  intros i p k job i' p' k' job' Ej Ej' K.
  destruct (X _ _ _ _ Ej) as (job0 & text & E0 & T & Ek), (X _ _ _ _ Ej') as (job0' & text' & E0' & T' & Ek').
  rewrite Ek, Ek' in K. apply D in K; [|exact (in_plan_texts _ _ _ _ _ _ _ _ E0 T)|exact
    (in_plan_texts _ _ _ _ _ _ _ _ E0' T')].
  subst text'.
  by apply (texts_apart task (generations task d) executions i p k job0 i' p' k' job0' text).
Qed.

(** ** A plan of two jobs, one of which an earlier generation finished *)

Definition distinct_digestsb (texts : list string) : bool :=
  let digests := map (fun text => (text, digest text)) texts in
  forallb (fun a => forallb (fun b => negb (snd a =? snd b)%string || (fst a =? fst b)%string) digests) digests.

Lemma distinct_digestsb_sound texts : distinct_digestsb texts = true -> distinct_digests texts.
Proof.
  unfold distinct_digestsb. intros E a b Ha Hb D. rewrite forallb_forall in E.
  specialize (E (a, digest a) (in_map (fun text => (text, digest text)) _ _ Ha)). rewrite forallb_forall in E.
  specialize (E (b, digest b) (in_map (fun text => (text, digest text)) _ _ Hb)). cbn [fst snd] in E.
  rewrite D, String.eqb_refl in E. cbn in E. by apply String.eqb_eq.
Qed.

Definition plan_task : WorkflowQueue :=
  workflow_queue_zero <| wq_TaskID := "t1"%string |> <| wq_RunGeneration := 2 |> <| wq_RunToken := "token"%string |>
    <| wq_WorkerID := "w2"%string |> <| wq_Status := StatusRunning |>.

Definition plan_job (name : string) : JobTask :=
  job_task_zero <| jt_Name := name |> <| jt_TaskID := "t1"%string |> <| jt_JobType := JobDeploy |>
    <| jt_Status := StatusQueued |>.

Definition two_jobs : list StepExecution :=
  [component_execution "deploy" WorkflowModeDAG {[JobPriorityNormal := [plan_job "api"; plan_job "web"]]}].

(** The first generation deployed [api] and was deploying [web] when its worker was lost. *)
Definition first_generation : Database :=
  let row id name k status := job_info_zero <| job_ID := id |> <| job_TaskID := "t1"%string |> <| job_Status := status |>
    <| job_RunGeneration := 1 |> <| job_Type := JobDeploy |> <| job_ServiceName := name |>
    <| job_ExecutionKey := Some (workflowExecutionKey "t1" 1 0 JobPriorityNormal k name JobDeploy) |> in
  (db_empty 1) <| db_jobs := {[7 := row 7 "api"%string 0 StatusCompleted; 8 := row 8 "web"%string 1 StatusRunning]} |>.

Definition no_evaluation (text : string) : result evaluationInfo := Err (Errorf "decode evaluation execution").

Definition identified : list StepExecution := applyWorkflowExecutionIdentity two_jobs plan_task.

Definition restored_two : result (list StepExecution) :=
  fst (restoreCommittedJobExecutions z_decode_job no_order no_evaluation identified plan_task (seqw first_generation 0)).

(** [api] is taken over as completed; [web] runs again, in the second generation. *)
Lemma committed_work_taken_over_witness :
  (exists restored, restored_two = Ok restored /\
    option_map (fun job => (jt_Status job, jt_RunGeneration job)) (job_at restored 0 JobPriorityNormal 0) =
      Some (StatusCompleted, 1) /\
    option_map (fun job => (jt_Status job, jt_RunGeneration job)) (job_at restored 0 JobPriorityNormal 1) =
      Some (StatusQueued, 2) /\
    slotwise (taken_over z_decode_job no_order no_evaluation plan_task
      (committed plan_task first_generation)) identified restored).
Proof.
  pose proof (committed_work_taken_over z_decode_job no_order no_evaluation identified plan_task first_generation 0
    ltac:(done) ltac:(done)) as T.
  assert (E : exists restored, restored_two = Ok restored /\
    option_map (fun job => (jt_Status job, jt_RunGeneration job)) (job_at restored 0 JobPriorityNormal 0) =
      Some (StatusCompleted, 1) /\
    option_map (fun job => (jt_Status job, jt_RunGeneration job)) (job_at restored 0 JobPriorityNormal 1) =
      Some (StatusQueued, 2)) by (eexists; split; [vm_compute; reflexivity|split; vm_compute; reflexivity]).
  destruct E as (restored & E & E0 & E1). exists restored. split; [exact E|]. split; [exact E0|]. split; [exact E1|].
  revert T E. unfold restored_two. generalize (restoreCommittedJobExecutions z_decode_job no_order no_evaluation
    identified
    plan_task (seqw first_generation 0)). intros [r w]. cbn [fst]. intros T ->. destruct T as (_ & _ & T). exact T.
Defined.

Lemma plan_jobs_apart_witness : exists restored, restored_two = Ok restored /\
  forall i p k job i' p' k' job', job_at restored i p k = Some job -> job_at restored i' p' k' = Some job' ->
    jt_ExecutionKey job = jt_ExecutionKey job' -> (i, p, k) = (i', p', k').
Proof.
  assert (E : exists restored, restored_two = Ok restored) by (eexists; vm_compute; reflexivity).
  destruct E as (restored & E). exists restored. split; [exact E|].
  assert (P : exists w', restoreCommittedJobExecutions z_decode_job no_order no_evaluation identified
    plan_task (seqw first_generation 0) = (Ok restored, w')).
  { revert E. unfold restored_two. generalize (restoreCommittedJobExecutions z_decode_job no_order no_evaluation
      identified
      plan_task (seqw first_generation 0)). intros [r w]. cbn [fst]. intros ->. by exists w. }
  destruct P as (w' & P).
  apply (plan_jobs_apart z_decode_job no_order no_evaluation two_jobs plan_task first_generation 0 restored w' P).
  - intros i p k job E'%in_slots. assert (S : slots two_jobs =
      [(0%nat, JobPriorityNormal, 0%nat, plan_job "api"); (0%nat, JobPriorityNormal, 1%nat, plan_job "web")])
      by (vm_compute; reflexivity).
    rewrite S in E'. unfold addressed, two64. destruct E' as [[= <- <- <- _]|[[= <- <- <- _]|[]]]; (repeat split);
      reflexivity.
  - intros g Hg. assert (Gs : generations plan_task first_generation = [2; 1; 1]) by (vm_compute; reflexivity).
    rewrite Gs in Hg. cbn in Hg. lia.
  - apply distinct_digestsb_sound. vm_compute. reflexivity.
Defined.
