(* ===== verification/Evaluation.v ===== *)
(** Rendering the Kubernetes Job of an evaluation: [BuildEvaluationTask] of [pkg/apiserver/jobs/builder.go], which the
    builder of a plan calls for the evaluations that are still to run.

    The builder passes no traits, so a job without execution metadata is refused and no new capability is created.
    The Job's Pod, its runner container and its configuration are rendered by [render_runner], a parameter: of the Job
    only the labels, the annotations and the time to live are followed here. *)

From S2P Require Import Prelude GoStrings Config Json Quantity Policy Model Store Lease Budget.
From S2P Require Import Signals Scheduler PodResources Retry Cleanup JobInfos Controller Sha1 Sha256 Workflows Plan Restore.

Definition KindDataset : string := "dataset".
Definition EvaluationCollectionGraceSeconds : Z := 960.
Definition EvaluationRunnerLabel : string := "eruun.io/evaluation-runner".
Definition EvaluationTaskLabel : string := "eruun.io/task-id".
Definition EvaluationDeadlineAnnotation : string := "eruun.io/evaluation-deadline".

(** [int32] *)
Definition i32 (z : Z) : Z := (z + 2 ^ 31) mod 2 ^ 32 - 2 ^ 31.

(** ** spec/job.go: where the results go *)

Definition DefaultJobResultPolicy : JobResultPolicy :=
  {| rp_RetentionDays := 90; rp_Targets := [("database", "full")]%string |}.

(** Whether a target is valid after those seen, and whether the database keeps metadata only. *)
Fixpoint check_targets (targets : list (string * string)) (seen : gset string) (metadata : bool) : result bool :=
  match targets with
  | [] => if metadata && negb (bool_decide ("minio"%string ∈ seen))
          then Err (Errorf "database metadata mode requires minio full mode") else Ok metadata
  | (type, mode) :: rest =>
      if bool_decide (type ∈ seen) then Err (Errorf ("duplicate result target " ++ type))
      else if (type =? "minio")%string then
        if negb (mode =? "full")%string then Err (Errorf "minio requires full mode")
        else check_targets rest ({[type]} ∪ seen) metadata
      else if (type =? "database")%string then
        if negb (mode =? "full")%string && negb (mode =? "metadata")%string
        then Err (Errorf "database mode must be full or metadata")
        else check_targets rest ({[type]} ∪ seen) (mode =? "metadata")%string
      else Err (Errorf ("unsupported result target " ++ type))
  end.

Definition ValidateJobResultPolicy (p : JobResultPolicy) : result unit :=
  if (rp_RetentionDays p <? 1) || (3650 <? rp_RetentionDays p)
  then Err (Errorf "retentionDays must be between 1 and 3650")
  else if (length (rp_Targets p) <? 1)%nat || (2 <? length (rp_Targets p))%nat
  then Err (Errorf "choose one or both database and minio targets")
  else check! _ <- check_targets (rp_Targets p) ∅ false; Ok tt.

Section Evaluation.
Context {Q : Type} `{QuantityOps Q} `{KubernetesJson Q}.
Variable decode_job : Json -> option (Job Q).
Variable order : JobRetryPolicy Q -> list (string * Z).
Variable decodeEvaluationInfo : string -> result evaluationInfo.
(** [json.Marshal] of the execution metadata. *)
Variable encode_info : evaluationInfo -> result string.
(** [spec.DecodeJobJSON] of a workspace's policy over the default one. *)
Variable decode_result_policy : string -> JobResultPolicy -> result JobResultPolicy.
(** [cfg.Jobs]: nil, or whether MinIO is configured. *)
Variable jobs_config : option bool.
(** [buildCommandJob] and the runner's container and configuration. *)
Variable render_runner : JobTask -> evaluationInfo -> JobArtifact -> result (Job Q).

(** A lower limit governs only what is rendered anew. *)
Definition check_timeout (info : evaluationInfo) (job : JobTask) : M unit :=
  if str_empty (ei_ResumeCheckpointID info) && negb (jt_Status job =? StatusRunning)%string &&
     negb (jt_Status job =? StatusDistributed)%string
  then
    let! policy := wrap_error "evaluation timeout policy unavailable" LoadJobSchedulerPolicy in
    if MaxEvaluationTimeoutSeconds policy <? ei_TimeoutSeconds info
    then throw (Errorf "evaluation timeoutSeconds exceeds the current maximum") else ret tt
  else ret tt.

(** The policy of the execution, or its workspace's at this moment. *)
Definition evaluation_policy (info : evaluationInfo) (job : JobTask) : M JobResultPolicy :=
  match ei_ResultPolicy info with
  | Some policy => ret policy
  | None =>
      let! space := wrap_error "resolve evaluation workspace" (Get (E := Workspace) (jt_WorkspaceID job)) in
      if negb (ws_Namespace space =? jt_Namespace job)%string
      then throw (Errorf "evaluation namespace does not belong to its workspace")
      else
        let! policy := wrap_error "read workspace evaluation policy"
          (lift_result (if str_empty (ws_JobResultPolicy space) then Ok DefaultJobResultPolicy
                        else decode_result_policy (ws_JobResultPolicy space) DefaultJobResultPolicy)) in
        let! _ := wrap_error "workspace evaluation policy" (lift_result (ValidateJobResultPolicy policy)) in
        ret policy
  end.

(** The labels of the job's previous payload, the runner's own excepted, and the component it belongs to. *)
Definition keep_ownership (job : JobTask) (workload : Job Q) : Job Q :=
  match jt_JobInfo job with
  | PayloadBatchJob =>
      let own := base.delete EvaluationTaskLabel (base.delete EvaluationRunnerLabel (jt_InfoLabels job)) in
      let workload := workload <| kj_Labels := own ∪ kj_Labels workload |> in
      let name := str_get (jt_InfoAnnotations job) AnnotationComponentName in
      if str_empty name then workload
      else workload <| kj_Annotations := <[AnnotationComponentName := name]> (kj_Annotations workload) |>
  | _ => workload
  end.

(** [time.Time.Sub], in whole seconds. *)
Definition seconds_left (deadline now : Z) : Z :=
  Z.quot (Z.max min_int64 (Z.min max_int64 (deadline - now))) Second.

(** The job with its new payload and the metadata it ran with. *)
Definition rendered_job (job : JobTask) (info : evaluationInfo) (workload : Job Q) (timeout : Z) : result JobTask :=
  check! snapshot <- encode_info info;
  Ok (job <| jt_Timeout := timeout |> <| jt_JobType := JobEval |> <| jt_JobInfo := PayloadBatchJob |>
        <| jt_InfoLabels := kj_Labels workload |> <| jt_InfoAnnotations := kj_Annotations workload |>
        <| jt_EvaluationInfo := snapshot |>).

(** The deadline of a recovery is absolute: a running attempt is taken up as it was committed, a new one has what is
    left by the database's clock. *)
Definition under_deadline (job : JobTask) (info : evaluationInfo) (workload : Job Q) : M JobTask :=
  if (jt_Status job =? StatusRunning)%string && negb (str_empty (jt_InternalInfo job))
  then lift_result (RestoreInstantJobRetryCheckpoint decode_job order job)
  else
    let! now := wrap_error "query evaluation recovery database clock" CurrentDatabaseTime in
    if now =? time_zero then throw (Errorf "query evaluation recovery database clock: zero timestamp") else
    let timeout := seconds_left (ei_ExecutionDeadline info) now in
    if timeout <=? EvaluationCollectionGraceSeconds then throw (Errorf "evaluation recovery deadline elapsed") else
    let workload := workload <| kj_Annotations :=
      <[EvaluationDeadlineAnnotation := FormatInt (ei_ExecutionDeadline info) 10]> (kj_Annotations workload) |> in
    lift_result (rendered_job job info workload timeout).

(** The task package, in this workspace and still kept. *)
Definition evaluation_dataset (info : evaluationInfo) (job : JobTask) : M JobArtifact :=
  let! dataset := wrap_error "resolve evaluation task package" (Get (E := JobArtifact) (ei_TaskPackageID info)) in
  if negb (art_Kind dataset =? KindDataset)%string || negb (art_WorkspaceID dataset =? jt_WorkspaceID job)%string ||
     art_Expired dataset
  then throw (Errorf "task package is unavailable in this workspace") else ret dataset.

(** With [spec.JobTraits{}], the traits the builder passes. *)
Definition BuildEvaluationTask (job : JobTask) : M JobTask :=
  if str_empty (jt_Name job) || str_empty (jt_Namespace job) || str_empty (jt_WorkspaceID job) ||
     str_empty (jt_TaskID job)
  then throw (Errorf "invalid evaluation Job identity") else
  match jobs_config with
  | None => throw (Errorf "evaluation Runner is not configured")
  | Some minio =>
      if str_empty (jt_EvaluationInfo job) then throw (Errorf "traits.eval is required") else
      let! info := lift_result (decodeEvaluationInfo (jt_EvaluationInfo job)) in
      let job := if str_empty (ei_RecoveryName info) then job else job <| jt_Name := ei_RecoveryName info |> in
      let! _ := check_timeout info job in
      let! policy := evaluation_policy info job in
      let info := info <| ei_ResultPolicy := Some policy |> in
      if existsb (fun target => (fst target =? "minio")%string) (rp_Targets policy) && negb minio
      then throw (Errorf "MinIO has not been configured by the administrator") else
      let! dataset := evaluation_dataset info job in
      let! workload := lift_result (render_runner job info dataset) in
      let workload := (keep_ownership job workload)
        <| kj_TTLSecondsAfterFinished := Some (i32 (rp_RetentionDays policy * 86400)) |> in
      let timeout := i64 (ei_TimeoutSeconds info + EvaluationCollectionGraceSeconds) in
      if 0 <? ei_ExecutionDeadline info
      then under_deadline (job <| jt_Timeout := timeout |>) info workload
      else lift_result (rendered_job job info workload timeout)
  end.
End Evaluation.
