(* ===== verification/Generate.v ===== *)
(** Generating the plan of a task: [GenerateJobTasks] of [pkg/apiserver/event/workflow/job_builder.go] with its inputs
    ([job_builder_inputs.go]), the persisted clean-ups ([job_builder_cleanup.go]) and the clean-up of a failed workflow
    ([job_builder_failure_cleanup.go]).

    [GenerateJobTasks] and [buildWorkflowFailureCleanupJobs] have the types of the fields of [Controller.WorkflowDeps]
    of the same names: [builder_deps] is the controller's interface with this builder.

    [ctx_scope] is the workspace and namespace in the request's context, and [dec_time] the JSON form of an instant. *)

From S2P Require Import Prelude GoStrings Config Naming Json Quantity Policy Model Store Lease Budget.
From S2P Require Import Signals Scheduler PodResources Retry Cleanup JobInfos JobExec Controller Workflows Plan Restore Evaluation.

(** ** Versioned clean-up of removed components *)

Record VersionUpdateCleanupComponent := {
  vc_Component : option ApplicationComponent;
  vc_ResourceAppName : string;
  vc_InsertBeforeStepIndex : Z;
  vc_RequireStatefulSetDeletion : bool;
  vc_StatefulSetPVCTemplatesToDelete : list string;
}.

Record VersionUpdateCleanupInfo := {
  vi_Source : string;
  vi_CleanupOnly : bool;
  vi_ResolvesTaskIDs : list string;
  vi_Components : list VersionUpdateCleanupComponent;
}.

Definition dec_object (j : Json) : option (option Json) :=
  match j with JNull => Some None | JObj _ => Some (Some j) | _ => None end.

Definition dec_component (dec_time : Json -> option Z) (j : Json) : option ApplicationComponent :=
  decode! l <- dec_struct j;
  decode! id <- dec_int64 (json_field "id" l);
  decode! app <- dec_string (json_field "appId" l);
  decode! name <- dec_string (json_field "name" l);
  decode! namespace <- dec_string (json_field "namespace" l);
  decode! image <- dec_string (json_field "image" l);
  decode! replicas <- dec_int32 (json_field "replicas" l);
  decode! type <- dec_string (json_field "componentType" l);
  decode! properties <- dec_object (json_field "properties" l);
  decode! traits <- dec_object (json_field "traits" l);
  decode! status <- dec_string (json_field "status" l);
  decode! ready <- dec_int32 (json_field "readyReplicas" l);
  decode! abnormal <- dec_string (json_field "lastAbnormal" l);
  decode! created <- dec_time (json_field "createTime" l);
  decode! updated <- dec_time (json_field "updateTime" l);
  Some (Build_ApplicationComponent id app name namespace image replicas type properties traits status ready abnormal
          "" created updated).

Definition dec_cleanup_component (dec_time : Json -> option Z) (j : Json) : option VersionUpdateCleanupComponent :=
  decode! l <- dec_struct j;
  decode! component <- dec_ptr (dec_component dec_time) (json_field "component" l);
  decode! name <- dec_string (json_field "resourceAppName" l);
  decode! index <- dec_int64 (json_field "insertBeforeStepIndex" l);
  decode! deletion <- dec_bool (json_field "requireStatefulSetDeletion" l);
  decode! templates <- dec_list dec_string (json_field "statefulSetPVCTemplatesToDelete" l);
  Some (Build_VersionUpdateCleanupComponent component name index deletion templates).

Definition dec_cleanup_info (dec_time : Json -> option Z) (j : Json) : option VersionUpdateCleanupInfo :=
  decode! l <- dec_struct j;
  decode! source <- dec_string (json_field "source" l);
  decode! only <- dec_bool (json_field "cleanupOnly" l);
  decode! resolves <- dec_list dec_string (json_field "resolvesTaskIDs" l);
  decode! components <- dec_list (dec_cleanup_component dec_time) (json_field "components" l);
  Some (Build_VersionUpdateCleanupInfo source only resolves components).

Definition pvc_templates (names : list string) : list string := NormalizeVersionUpdateCleanupPVCTemplateNames [names].

Definition check_cleanup_component (only : bool) (component : VersionUpdateCleanupComponent) : result unit :=
  let store := match vc_Component component with
               | Some c => (ac_ComponentType c =? StoreJob)%string
               | None => false
               end in
  if vc_RequireStatefulSetDeletion component && only
  then Err (Errorf "cleanup-only task cannot carry a StatefulSet deletion contract")
  else if vc_RequireStatefulSetDeletion component && negb store
  then Err (Errorf "cleanup StatefulSet deletion is only valid for store components")
  else match pvc_templates (vc_StatefulSetPVCTemplatesToDelete component) with
       | [] => Ok tt
       | _ => if vc_RequireStatefulSetDeletion component then Ok tt
              else Err (Errorf "cleanup PVC deletion templates require StatefulSet deletion")
       end.

Definition validateVersionUpdateCleanupInfo (info : VersionUpdateCleanupInfo) : result unit :=
  check! _ <- traverse (check_cleanup_component (vi_CleanupOnly info)) (vi_Components info); Ok tt.

(** [None] when the task carries none. *)
Definition versionUpdateCleanupInfoFromTask (dec_time : Json -> option Z) (task : WorkflowQueue)
    : result (option VersionUpdateCleanupInfo) :=
  let raw := TrimSpace (wq_CleanupInfo task) in
  if str_empty raw then Ok None else
  match (decode! j <- json_parse raw; dec_cleanup_info dec_time j) with
  | None => Err (Errorf "cannot unmarshal cleanup info")
  | Some info =>
      if negb (vi_Source info =? JobInfoSourceVersionUpdateRemove)%string
      then Err (Errorf ("unsupported cleanup info source " ++ vi_Source info))
      else check! _ <- validateVersionUpdateCleanupInfo info; Ok (Some info)
  end.

Definition versionUpdateCleanupOnlyFromTask (dec_time : Json -> option Z) (task : WorkflowQueue) : bool :=
  match versionUpdateCleanupInfoFromTask dec_time task with Ok (Some info) => vi_CleanupOnly info | _ => false end.

(** A record that does not even decode is not one of these. *)
Definition isVersionUpdateCleanupJobInfo (record : JobInfo) : bool :=
  let raw := TrimSpace (job_InternalInfo record) in
  if str_empty raw then false else
  match (decode! j <- json_parse raw; decode! l <- dec_struct j; dec_string (json_field "source" l)) with
  | Some source => (source =? JobInfoSourceVersionUpdateRemove)%string
  | None => false
  end.

Definition validatePersistedCleanupComponent (component : option ApplicationComponent) : result ApplicationComponent :=
  match component with
  | None => Err (Errorf "component is nil")
  | Some component =>
      if blank (ac_Name component) then Err (Errorf "component name is empty")
      else if blank (ac_AppID component) then Err (Errorf "component appID is empty")
      else Ok component
  end.

Definition dec_marker (raw : string) : option VersionUpdateCleanupJobMarker :=
  decode! j <- json_parse raw;
  decode! l <- dec_struct j;
  decode! source <- dec_string (json_field "source" l);
  decode! deletion <- dec_bool (json_field "requireStatefulSetDeletion" l);
  decode! templates <- dec_list dec_string (json_field "statefulSetPVCTemplatesToDelete" l);
  Some (Build_VersionUpdateCleanupJobMarker source deletion templates).

Definition validatePersistedCleanupJobContract (component : VersionUpdateCleanupComponent)
  (record : JobInfo) : result unit :=
  match dec_marker (job_InternalInfo record) with
  | None => Err (Errorf "decode cleanup job info marker")
  | Some marker =>
      if negb (bool_decide (pvc_templates (vc_StatefulSetPVCTemplatesToDelete component) =
                            pvc_templates (vm_StatefulSetPVCTemplatesToDelete marker)))
      then Err (Errorf "cleanup job info StatefulSet PVC deletion templates do not match task cleanup info")
      else if negb (Bool.eqb (vm_RequireStatefulSetDeletion marker) (vc_RequireStatefulSetDeletion component))
      then Err (Errorf "cleanup job info StatefulSet deletion requirement does not match task cleanup info")
      else Ok tt
  end.

Record persistedCleanupJobInfo := {
  pc_Record : JobInfo;
  pc_Component : ApplicationComponent;
  pc_InsertBeforeStepIndex : Z;
}.

(** The marked records of the task, by the component they name. *)
Fixpoint marked_records (task : WorkflowQueue) (entities : list JobInfo) (byName : gmap string JobInfo)
    : result (gmap string JobInfo) :=
  match entities with
  | [] => Ok byName
  | record :: rest =>
      if negb (TrimSpace (job_TaskID record) =? TrimSpace (wq_TaskID task))%string ||
         negb (TrimSpace (job_Type record) =? JobCleanupResources)%string || negb (isVersionUpdateCleanupJobInfo record)
      then marked_records task rest byName
      else if str_empty (job_ServiceName record) then Err (Errorf "cleanup job info service name is empty")
      else match byName !! job_ServiceName record with
           | Some _ => Err (Errorf ("duplicate cleanup job info for component " ++ job_ServiceName record))
           | None => marked_records task rest (<[job_ServiceName record := record]> byName)
           end
  end.

Definition match_cleanup (byName : gmap string JobInfo) (cleanupComponent : VersionUpdateCleanupComponent)
    : result persistedCleanupJobInfo :=
  check! component <- validatePersistedCleanupComponent (vc_Component cleanupComponent);
  if vc_InsertBeforeStepIndex cleanupComponent <? 0 then Err (Errorf "cleanup insert step index is negative") else
  match byName !! ac_Name component with
  | None => Err (Errorf ("precreated cleanup job info not found for component " ++ ac_Name component))
  | Some record =>
      match validatePersistedCleanupJobContract cleanupComponent record with
      | Err e => Err (Wrapf ("validate cleanup component " ++ ac_Name component ++ " contract") e)
      | Ok _ => Ok (Build_persistedCleanupJobInfo record
                   (component <| ac_ResourceAppName := TrimSpace (vc_ResourceAppName cleanupComponent) |>)
                   (vc_InsertBeforeStepIndex cleanupComponent))
      end
  end.

Definition cleanup_le (a b : persistedCleanupJobInfo) : bool :=
  if negb (pc_InsertBeforeStepIndex a =? pc_InsertBeforeStepIndex b)
  then pc_InsertBeforeStepIndex a <? pc_InsertBeforeStepIndex b
  else if negb (job_ID (pc_Record a) =? job_ID (pc_Record b)) then job_ID (pc_Record a) <? job_ID (pc_Record b)
  else negb (String.ltb (job_ServiceName (pc_Record b)) (job_ServiceName (pc_Record a))).

Definition cleanup_type_options : ListOptions :=
  Build_ListOptions (Build_FilterOptions [("type"%string, [VStr JobCleanupResources])] [] []) 0 0 [].

Definition loadPersistedCleanupJobInfos (dec_time : Json -> option Z) (task : WorkflowQueue)
    : M (list persistedCleanupJobInfo) :=
  let! info := lift_result (versionUpdateCleanupInfoFromTask dec_time task) in
  match default [] (vi_Components <$> info) with
  | [] => ret []
  | components =>
      if blank (wq_TaskID task) then throw (Errorf "task id is empty") else
      let! listed := try (List_ (E := JobInfo)
        (job_info_index (job_info_zero <| job_TaskID := TrimSpace (wq_TaskID task) |>)) cleanup_type_options) in
      match listed with
      | Err e => if errors_is ErrRecordNotExist e then ret [] else throw e
      | Ok entities =>
          let! byName := lift_result (marked_records task entities ∅) in
          let! records := lift_result (traverse (match_cleanup byName) components) in
          ret (merge_sort (fun a b => Is_true (cleanup_le a b)) records)
      end
  end.

Definition persistedCleanupJobTask (timeout : Z) (task : WorkflowQueue) (cleanup : persistedCleanupJobInfo) : JobTask :=
  let record := pc_Record cleanup in
  let component := pc_Component cleanup in
  let name := if negb (blank (ac_Name component)) then ac_Name component
              else if negb (blank (job_ServiceName record)) then TrimSpace (job_ServiceName record)
              else if negb (blank (job_Info record)) then TrimSpace (job_Info record) else "cleanup-resources"%string in
  setDeployTimeout ((NewJobTask name (ac_Namespace component) task timeout)
    <| jt_JobType := JobCleanupResources |> <| jt_JobInfo := PayloadComponent component |>
    <| jt_Info := if blank (job_Info record)
                  then ("cleanup resources: " ++ ac_Namespace component ++ "/" ++ name)%string
                  else TrimSpace (job_Info record) |>
    <| jt_InternalInfo := job_InternalInfo record |>
    <| jt_Status := if blank (job_Status record) then StatusQueued else TrimSpace (job_Status record) |>).

(** [addCleanupExecution] *)
Definition add_cleanup (stepCount : Z) (cleanups : gmap Z StepExecution) (index : Z) (jobs : Buckets)
    : gmap Z StepExecution :=
  if bucketsEmpty jobs then cleanups else
  let index := Z.min stepCount (Z.max 0 index) in
  let execution := default (component_execution versionUpdateCleanupStepName WorkflowModeStepByStep newJobBuckets)
                     (cleanups !! index) in
  <[index := execution <| se_Jobs := Some (mergeJobBuckets (jobs_of execution) jobs) |>]> cleanups.

Section Cleanups.
(** [fmt.Sprintf("%v", err)]. *)
Variable error_text : error -> string.

(** A clean-up whose payload is a text. *)
Definition failed_cleanup_job (task : WorkflowQueue) (timeout : Z) (err : error) : JobTask :=
  setDeployTimeout ((NewJobTask "cleanup-resources" "" task timeout) <| jt_JobType := JobCleanupResources |>
    <| jt_JobInfo := PayloadText ("load persisted cleanup jobs: " ++ error_text err) |>
    <| jt_Info := "cleanup resources: failed to load persisted cleanup jobs"%string |>).

Definition buildPersistedCleanupExecutions (dec_time : Json -> option Z) (task : WorkflowQueue) (timeout stepCount : Z)
    : M (gmap Z StepExecution) :=
  let! loaded := try (loadPersistedCleanupJobInfos dec_time task) in
  ret (match loaded with
       | Err e => add_cleanup stepCount ∅ 0 {[JobPriorityLow := [failed_cleanup_job task timeout e]]}
       | Ok records =>
           fold_left (fun cleanups record => add_cleanup stepCount cleanups (pc_InsertBeforeStepIndex record)
                        {[JobPriorityLow := [persistedCleanupJobTask timeout task record]]}) records ∅
       end).

(** [jobinfo.CleanupComponentFromJobInfo]: a payload of any other type is refused. *)
Definition CleanupComponentFromJobInfo (job : JobTask) : result ApplicationComponent :=
  match jt_JobInfo job with
  | PayloadComponent component => Ok component
  | _ => Err (Errorf "job info is not *model.ApplicationComponent")
  end.

(** [Run] of the controller of clean-ups, [jobcleanup/cleanup_resources.go]: [clean] is what it does with the component
    the job carries, which is not modelled.  It was given a client and a store when it was made. *)
Definition cleanup_Run (clean : ApplicationComponent -> JobTask -> option error * JobTask) (job : JobTask)
    : option error * JobTask :=
  RunJobWithStatus error_text job (fun job =>
    match CleanupComponentFromJobInfo job with
    | Err e => (Some e, job)
    | Ok component => clean component job
    end).
End Cleanups.

(** ** job_builder.go: putting the steps together *)

(** The clean-up of an index, and the executions that follow it. *)
Fixpoint merge_groups (index : Z) (groups : list (list StepExecution)) (cleanups : gmap Z StepExecution)
    : list StepExecution :=
  let cleanup := match cleanups !! index with
                 | Some execution => if bucketsEmpty (jobs_of execution) then [] else [execution]
                 | None => []
                 end in
  match groups with
  | [] => cleanup
  | group :: rest => (cleanup ++ group ++ merge_groups (index + 1) rest cleanups)%list
  end.

Definition mergeStepExecutionsWithCleanup (stepGroups : list (list StepExecution))
  (cleanupExecutions : gmap Z StepExecution)
    : list StepExecution * Z :=
  let executions := merge_groups 0 stepGroups cleanupExecutions in
  (executions, fold_left (fun n execution => n + countJobs (jobs_of execution)) executions 0).

Definition applyWorkflowFailurePolicyToExecutions (policy : string) (executions : list StepExecution) : list
  StepExecution :=
  map (fun execution => execution <| se_FailurePolicy := policy |>) executions.

Section Generate.
Context {Q : Type} `{QuantityOps Q} `{KubernetesJson Q}.
Variable decode_job : Json -> option (Job Q).
Variable order : JobRetryPolicy Q -> list (string * Z).
Variable decodeEvaluationInfo : string -> result evaluationInfo.
Variable dec_time : Json -> option Z.
Variable error_text : error -> string.
Variable buildJobsForComponent : WorkflowQueue -> ApplicationComponent -> string -> M Buckets.
(** [jobs.BuildTask] for a task and a namespace: the jobs of each stage. *)
Variable BuildTask : WorkflowQueue -> string -> M (list (list JobTask)).
(** [spec.DecodeJobJSON] of a Job declaration: the name of each stage and the number of its steps. *)
Variable decode_declaration : string -> result (list (string * Z)).
(** What rendering an evaluation takes besides ([Evaluation]). *)
Variable encode_info : evaluationInfo -> result string.
Variable decode_result_policy : string -> JobResultPolicy -> result JobResultPolicy.
Variable jobs_config : option bool.
Variable render_runner : JobTask -> evaluationInfo -> JobArtifact -> result (Job Q).
Variable ctx_scope : option (string * string).
Variable defaultJobTimeoutSeconds : Z.

Definition failed_generation (task : WorkflowQueue) (err : error) (now : Z) : StepExecution :=
  let prepared := Wrapf "prepare workflow job tasks" err in
  let jobTask := setDeployTimeout ((NewJobTask "workflow-generation" "" task defaultJobTimeoutSeconds)
    <| jt_JobType := JobCleanupResources |> <| jt_JobInfo := PayloadText (error_text prepared) |>
    <| jt_Info := "workflow generation failed"%string |> <| jt_Status := StatusFailed |> <| jt_Error := error_text prepared |>
    <| jt_StartTime := unix now |> <| jt_EndTime := unix now |>) in
  Build_StepExecution (Some prepared) "" "workflow-generation" WorkflowModeStepByStep WorkflowStepTypeComponent "" None
    (Some {[JobPriorityLow := applyWorkflowJobExecutionIdentity [jobTask] task 0 JobPriorityLow]}).

(** A plan whose only job has failed. *)
Definition failedWorkflowGenerationExecution (task : WorkflowQueue) (err : error) : M (list StepExecution) :=
  let! now := wall_clock in ret [failed_generation task err now].

(** ** job_builder_inputs.go *)

Definition loadWorkflowTaskApplication (task : WorkflowQueue) : M Applications :=
  if blank (wq_AppID task) then throw (Errorf "workflow task appID is empty") else
  let! app := try (Get (E := Applications) (wq_AppID task)) in
  match app with
  | Ok app => ret app
  | Err e => if errors_is ErrRecordNotExist e
             then throw (Wrapf ("application " ++ wq_AppID task ++ " not found") e)
             else throw (Wrapf ("get application " ++ wq_AppID task) e)
  end.

Definition loadResourceAppName (task : WorkflowQueue) : M string :=
  let! app := loadWorkflowTaskApplication task in
  if blank (app_Name app) then throw (Errorf ("application " ++ wq_AppID task ++ " name is empty"))
  else ret (ApplicationResourceKey (app_Name app)).

Definition task_components (task : WorkflowQueue) : M (list ApplicationComponent) :=
  wrap_error ("list application components for app " ++ wq_AppID task)
    (List_ (E := ApplicationComponent)
      (application_component_index (application_component_zero <| ac_AppID := wq_AppID task |>)) no_options).

(** The components of the application, resources named after it. *)
Definition component_map (resourceAppName : string) (components : list ApplicationComponent)
    : gmap string ApplicationComponent :=
  fold_left (fun m component => <[ac_Name component := component <| ac_ResourceAppName := resourceAppName |>]> m)
    components ∅.

Definition loadWorkflowJobTaskInputs (task : WorkflowQueue) : M (WorkflowSteps * gmap string ApplicationComponent) :=
  let! workflow := wrap_error ("get workflow " ++ wq_WorkflowID task) (Get (E := Workflow) (wq_WorkflowID task)) in
  let! workflowSteps := lift_result (match dec_steps (default JNull (flow_Steps workflow)) with
                                     | Some steps => Ok steps
                                     | None => Err (Errorf "unmarshal workflow steps")
                                     end) in
  let! _ := lift_result (validateWorkflowJobTypes workflowSteps) in
  let! components := task_components task in
  let! resourceAppName := (match components with
             | [] => ret ""%string
             | _ => wrap_error "resolve application name for resource naming" (loadResourceAppName task)
             end) in
  let componentMap := component_map resourceAppName components in
  let! _ := lift_result (validateLogArchiveUploadWorkflowInputs workflowSteps componentMap) in
  ret (workflowSteps, componentMap).

(** ** job_builder_failure_cleanup.go *)

Definition component_le (a b : ApplicationComponent) : bool :=
  let left := (ac_Namespace a ++ "/" ++ ac_Name a)%string in
  let right := (ac_Namespace b ++ "/" ++ ac_Name b)%string in
  if (left =? right)%string then ac_ID a <=? ac_ID b else String.ltb left right.

Definition buildWorkflowFailureCleanupJobs (task : WorkflowQueue) : M (list JobTask) :=
  let! app := loadWorkflowTaskApplication task in
  let! components := task_components task in
  match components with
  | [] => ret []
  | _ =>
      if blank (app_Name app) then throw (Errorf ("application " ++ wq_AppID task ++ " name is empty")) else
      let resourceAppName := ApplicationResourceKey (app_Name app) in
      let components := merge_sort (fun a b => Is_true (component_le a b))
        (map (fun component => component <| ac_ResourceAppName := resourceAppName |>) components) in
      let cleanupJobs := concat (map (fun component =>
        default [] (buildCleanupJobsForComponent component task defaultJobTimeoutSeconds !! JobPriorityLow))
          components) in
      ret (applyWorkflowJobExecutionIdentity cleanupJobs task (-1) JobPriorityLow)
  end.

(** ** job_builder.go: evaluations are rendered after their identity is restored *)

Definition render_evaluation (task : JobTask) : M JobTask :=
  if negb (jt_JobType task =? JobEval)%string || isWorkflowTerminal (jt_Status task) ||
    (jt_Status task =? StatusSkipped)%string
  then ret task
  else
    let! task := wrap_error ("render evaluation " ++ jt_Name task) 
      (BuildEvaluationTask decode_job order decodeEvaluationInfo encode_info decode_result_policy jobs_config
        render_runner task) in
    ret (ApplyExecutionIdentity task).

Fixpoint each {A B} (f : A -> M B) (l : list A) : M (list B) :=
  match l with
  | [] => ret []
  | a :: rest => let! b := f a in let! others := each f rest in ret (b :: others)
  end.

Definition render_buckets (buckets : Buckets) : M Buckets :=
  let! rendered := each (fun '(priority, jobs) => let! jobs := each render_evaluation jobs in ret (priority, jobs))
                     (map_to_list buckets) in
  ret (list_to_map rendered).

Definition renderEvaluationExecutions (executions : list StepExecution) : M (list StepExecution) :=
  each (fun execution =>
    match se_Jobs execution with
    | None => ret execution
    | Some buckets => let! buckets := render_buckets buckets in ret (execution <| se_Jobs := Some buckets |>)
    end) executions.

(** Restore and render; a failed rendering is a failed generation, a failed restoration an error. *)
Definition settle_plan (task : WorkflowQueue) (executions : list StepExecution) : M (list StepExecution) :=
  let! executions := restoreCommittedJobExecutions decode_job order decodeEvaluationInfo
                       (applyWorkflowExecutionIdentity executions task) task in
  let! rendered := try (renderEvaluationExecutions executions) in
  match rendered with
  | Ok executions => ret executions
  | Err e => failedWorkflowGenerationExecution task e
  end.

(** ** Jobs of a workspace *)

Definition stage_execution (declared : string * Z) (stage : list JobTask) : StepExecution :=
  let priority (job : JobTask) := if (jt_JobType job =? JobDeployPVC)%string then JobPriorityMaxHigh else
    JobPriorityNormal in
  (component_execution (fst declared) (if 1 <? snd declared then WorkflowModeDAG else WorkflowModeStepByStep)
    (fold_left (fun buckets job => append_jobs (priority job) [job] buckets) stage ∅))
    <| se_FailurePolicy := WorkflowFailurePolicyCleanupFailed |>.

(** A Go panic, which ends the run of the builder, and not an error it returns: nothing of the builder recovers. *)
Definition index_out_of_range : error := Errorf "index out of range".

(** The stage of each declared stage; a stage more than declared is an index out of range. *)
Fixpoint stage_executions (declared : list (string * Z)) (stages : list (list JobTask)) : result (list StepExecution) :=
  match stages, declared with
  | [], _ => Ok []
  | stage :: stages, d :: declared =>
      check! others <- stage_executions declared stages; Ok (stage_execution d stage :: others)
  | _ :: _, [] => Err index_out_of_range
  end.

Definition generate_workspace_job (task : WorkflowQueue) : M (list StepExecution) :=
  let denied := throw (Errorf "workspace Job requires its persisted workspace execution scope") in
  match ctx_scope with
  | None => denied
  | Some (workspaceID, namespace) =>
      if negb (str_empty (wq_AppID task)) || negb (workspaceID =? wq_WorkspaceID task)%string || str_empty namespace
      then denied else
      let! stages := try (BuildTask task namespace) in
      match stages with
      | Err e => failedWorkflowGenerationExecution task e
      | Ok stages =>
          match decode_declaration (wq_JobSpec task) with
          | Err e => failedWorkflowGenerationExecution task e
          | Ok declared =>
              let! executions := lift_result (stage_executions declared stages) in
              settle_plan task executions
          end
      end
  end.

(** ** Workflows *)

(** The steps the task runs, and what a version update asks besides. *)
Definition task_steps (task : WorkflowQueue) (workflowSteps : WorkflowSteps)
    : result (WorkflowSteps * option VersionUpdateResourceActionInfo) :=
  let workflowSteps := if versionUpdateCleanupOnlyFromTask dec_time task
                       then leadingApprovalWorkflowSteps workflowSteps else workflowSteps in
  check! action <- versionUpdateResourceActionInfoFromTask task;
  match action with
  | None => Ok (workflowSteps, None)
  | Some info =>
      let workflowSteps := if va_RestartOnly info then leadingApprovalWorkflowSteps workflowSteps else workflowSteps in
      check! workflowSteps <- filterVersionUpdateExecutionScopeWorkflowSteps workflowSteps info;
      Ok (workflowSteps, Some info)
  end.

Definition workflow_policy (task : WorkflowQueue) (workflowSteps : WorkflowSteps) : result string :=
  let '(policy, ok) := NormalizeWorkflowFailurePolicy (steps_FailurePolicy workflowSteps) in
  if ok then Ok policy
  else Err (Errorf ("workflow " ++ wq_WorkflowID task ++ " has unsupported failurePolicy " ++ steps_FailurePolicy
    workflowSteps)).

(** The executions of the checked steps: the groups, their clean-ups between them, the restarts after them. *)
Definition assemble (task : WorkflowQueue) (componentMap : gmap string ApplicationComponent)
  (workflowSteps : WorkflowSteps)
    (action : option VersionUpdateResourceActionInfo) (failurePolicy : string) (stepGroups : list (list StepExecution))
    : M (list StepExecution) :=
  let! cleanups := buildPersistedCleanupExecutions error_text dec_time task defaultJobTimeoutSeconds
                     (Z.of_nat (length (steps_Steps workflowSteps))) in
  let executions := fst (mergeStepExecutionsWithCleanup stepGroups cleanups) in
  let restarts := match action with
                  | Some info => option_list (buildVersionUpdateRestartExecution info componentMap task
                    defaultJobTimeoutSeconds)
                  | None => []
                  end in
  let executions := applyWorkflowFailurePolicyToExecutions failurePolicy (executions ++ restarts)%list in
  ret (map (fun execution => applyExecutionSchedulingClass (se_SchedulingClass execution) execution) executions).

Definition generate_workflow (task : WorkflowQueue) : M (list StepExecution) :=
  let! inputs := try (loadWorkflowJobTaskInputs task) in
  match (check! inputs <- inputs; check! steps <- task_steps task (fst inputs);
         check! policy <- workflow_policy task (fst steps); Ok (snd inputs, steps, policy)) with
  | Err e => failedWorkflowGenerationExecution task e
  | Ok (componentMap, (workflowSteps, action), failurePolicy) =>
      let! classes := lift_result (check_classes (steps_Steps workflowSteps)) in
      match classes with
      | Err e => failedWorkflowGenerationExecution task e
      | Ok _ =>
          let! stepGroups := try (buildWorkflowStepExecutionGroups buildJobsForComponent defaultJobTimeoutSeconds
                                    workflowSteps componentMap task) in
          match stepGroups with
          | Err e => failedWorkflowGenerationExecution task e
          | Ok stepGroups =>
              let! executions := assemble task componentMap workflowSteps action failurePolicy stepGroups in
              settle_plan task executions
          end
      end
  end.

Definition GenerateJobTasks (task : WorkflowQueue) : M (list StepExecution) :=
  if (wq_Type task =? WorkflowTaskTypeJob)%string then generate_workspace_job task else generate_workflow task.

(** The controller's interface with this builder. *)
Definition builder_deps (base : WorkflowDeps) : WorkflowDeps := {|
  Controller.RunJobs := @Controller.RunJobs base;
  prepareWorkspace := @prepareWorkspace base;
  Controller.GenerateJobTasks := GenerateJobTasks;
  Controller.buildWorkflowFailureCleanupJobs := buildWorkflowFailureCleanupJobs;
  saveCleanupInfo := @saveCleanupInfo base;
  workspaceManager := @workspaceManager base;
  workspaceEnsure := @workspaceEnsure base;
  workspaceEnsureEvaluationRunner := @workspaceEnsureEvaluationRunner base;
  evaluationConfigured := @evaluationConfigured base;
  prepareJobTask := @prepareJobTask base;
  range_jobs := @range_jobs base;
  Controller.error_text := @Controller.error_text base |}.
End Generate.
