(* ===== verification/GenerateSpec.v ===== *)
(** What a generated plan is: where the clean-ups of removed components are placed and what they clean up, and that a
    plan is complete, owned by the run that generated it, and made without writing.

    [cleanups_precede_their_step] is about the clean-ups of a version update, [generated_plan_well_formed] about
    every plan of [GenerateJobTasks]. *)

From S2P Require Import Prelude GoStrings Config Naming Json Quantity Policy Model Store Hoare Lease LeaseProtocol Budget.
From S2P Require Import Signals Scheduler PodResources Retry Cleanup JobInfos JobExec Controller Sha1 Sha256.
From S2P Require Import Workflows Plan Restore RestoreSpec Evaluation Generate.

(** ** What a program can return *)

Definition yields {A} (P : A -> Prop) (m : M A) : Prop := forall w a w', m w = (Ok a, w') -> P a.

Section Yields.
Context {A B : Type}.

Lemma yields_ret (P : A -> Prop) a : P a -> yields P (ret a).
Proof. by intros H w a' w' [= <- _]. Qed.

Lemma yields_throw (P : A -> Prop) e : yields P (throw e).
Proof. by intros w a' w' [=]. Qed.

Lemma yields_bind (P : A -> Prop) (R : B -> Prop) (m : M A) (k : A -> M B) :
  yields P m -> (forall a, P a -> yields R (k a)) -> yields R (bind m k).
Proof.
  intros Hm Hk w b w' E. unfold bind in E. destruct (m w) as [[a|e] w1] eqn:Em; [|discriminate].
  exact (Hk a (Hm _ _ _ Em) _ _ _ E).
Qed.

Lemma yields_any (m : M A) : yields (fun _ => True) m.
Proof. done. Qed.

Lemma yields_weaken (P P' : A -> Prop) (m : M A) : (forall a, P a -> P' a) -> yields P m -> yields P' m.
Proof. intros X H w a w' E. exact (X a (H _ _ _ E)). Qed.

Lemma yields_try (P : A -> Prop) (m : M A) : yields P m -> yields (fun r => match r with Ok a => P a | Err _ => True
  end) (try m).
Proof. intros H w r w' E. unfold try in E. destruct (m w) as [[a|e] w1] eqn:Em; injection E as <- _;
  [by eapply H|done]. Qed.

Lemma yields_wrap (P : A -> Prop) msg (m : M A) : yields P m -> yields P (wrap_error msg m).
Proof. intros H w a w' E. unfold wrap_error in E. destruct (m w) as [[a1|e] w1] eqn:Em; [|discriminate].
  injection E as <- <-. by eapply H. Qed.

Lemma yields_lift (P : A -> Prop) (r : result A) : (forall a, r = Ok a -> P a) -> yields P (lift_result r).
Proof. intros H w a w' E. destruct r as [x|e]; [|discriminate]. injection E as <- _. by apply H. Qed.

End Yields.

Lemma each_yields {A B} (f : A -> M B) (R : A -> B -> Prop) l :
  (forall a, yields (R a) (f a)) -> yields (Forall2 R l) (each f l).
Proof.
  intros H. induction l as [|a l IH]; cbn [each]; [apply yields_ret; constructor|].
  eapply yields_bind; [apply H|]. intros b Hb. eapply yields_bind; [apply IH|]. intros bs Hbs.
  apply yields_ret. by constructor.
Qed.

Lemma each_read_only {A B} (f : A -> M B) l : (forall a, read_only (f a)) -> read_only (each f l).
Proof.
  intros H. induction l as [|a l IH]; cbn [each]; [apply read_only_ret|].
  apply read_only_bind; [apply H|]. intros b. apply read_only_bind; [apply IH|]. intros bs. apply read_only_ret.
Qed.

(** ** Buckets *)

Lemma buckets_empty (b : Buckets) : bucketsEmpty b = false <-> exists p k job, match b !! p with Some l => l !! k |
  None => None end = Some job.
Proof.
  unfold bucketsEmpty. split.
  - intros E. apply not_true_iff_false in E. rewrite forallb_forall in E.
    destruct (List.find (fun kv => match snd kv with [] => false | _ => true end) (map_to_list b)) as [[p l]|] eqn:F.
    + apply find_some in F as [Hin F]. cbn in F. destruct l as [|job l]; [discriminate|].
      apply list_elem_of_In, elem_of_map_to_list in Hin. exists p, 0%nat, job. by rewrite Hin.
    + exfalso. apply E. intros x Hx. pose proof (find_none _ _ F x Hx) as N. cbn in N. by destruct (snd x).
  - intros (p & k & job & E). apply not_true_iff_false. rewrite forallb_forall. intros All.
    destruct (b !! p) as [l|] eqn:L; [|discriminate]. specialize (All (p, l)). cbn in All.
    destruct l as [|x l]; [discriminate|]. discriminate All. by apply list_elem_of_In, elem_of_map_to_list.
Qed.

Lemma slotwise_empty R executions executions' i : slotwise R executions executions' ->
  forall e e', executions !! i = Some e -> executions' !! i = Some e' ->
    bucketsEmpty (jobs_of e') = bucketsEmpty (jobs_of e).
Proof.
  intros [_ S] e e' E E'. apply eq_iff_eq_true. rewrite <- !not_false_iff_true, !buckets_empty.
  apply not_iff_compat. split; intros (p & k & job & X).
  - specialize (S i p k). rewrite (job_at_step _ _ _ _ _ E), (job_at_step _ _ _ _ _ E'), X in S.
    destruct (match jobs_of e !! p with Some l => l !! k | None => None end) as [job0|] eqn:Y;
      [by exists p, k, job0|congruence].
  - specialize (S i p k). rewrite (job_at_step _ _ _ _ _ E), (job_at_step _ _ _ _ _ E'), X in S.
    destruct S as (job' & Y & _). by exists p, k, job'.
Qed.

(** ** The steps of a plan *)

(** An approval has no jobs; any other step has some, unless the plan is that of a workspace's Job. *)
Definition shaped (nonempty : bool) (execution : StepExecution) : Prop :=
  se_generationError execution = None /\
  ((se_StepType execution = WorkflowStepTypeApproval /\ se_Jobs execution = None) \/
   (se_StepType execution = WorkflowStepTypeComponent /\ se_Jobs execution <> None /\
    (nonempty = true -> bucketsEmpty (jobs_of execution) = false))).

Lemma shaped_unless_empty name mode buckets : List.Forall (shaped true) (unless_empty name mode buckets).
Proof.
  unfold unless_empty. destruct (bucketsEmpty buckets) eqn:E; [constructor|]. constructor; [|constructor].
  split; [done|]. right. split; [done|]. split; [done|]. by intros _.
Qed.

(** Steps that differ in their names, classes, policies and the contents of their jobs only. *)
Definition similar (e e' : StepExecution) : Prop :=
  se_generationError e' = se_generationError e /\ se_StepType e' = se_StepType e /\
  (se_Jobs e' = None <-> se_Jobs e = None) /\ bucketsEmpty (jobs_of e') = bucketsEmpty (jobs_of e).

Lemma similar_shaped b e e' : similar e e' -> shaped b e -> shaped b e'.
Proof.
  intros (G & T & J & B) [H1 H2]. split; [congruence|]. rewrite T, B.
  destruct H2 as [[? ?]|[? [? ?]]]; [left|right]; tauto.
Qed.

Lemma fmap_empty (f : list JobTask -> list JobTask) (b : Buckets) :
  (forall l, length (f l) = length l) -> bucketsEmpty (fmap (M := gmap Z) f b) = bucketsEmpty b.
Proof.
  intros L. apply eq_iff_eq_true. rewrite <- !not_false_iff_true, !buckets_empty. apply not_iff_compat.
  assert (X : forall l k, (exists job, f l !! k = Some job) <-> (exists job, l !! k = Some job)).
  { intros l k. change ((is_Some (f l !! k)) <-> is_Some (l !! k)). by rewrite !lookup_lt_is_Some, L. }
  split; intros (p & k & job & E); exists p, k; revert E; rewrite lookup_fmap; destruct (b !! p) as [l|]; cbn; try done;
    intros E; apply (X l k); eauto.
Qed.

Lemma similar_class class e : similar e (applyExecutionSchedulingClass class e).
Proof.
  unfold applyExecutionSchedulingClass. split; [by destruct (str_empty _)|]. split; [by destruct (str_empty _)|].
  assert (J : se_Jobs (if str_empty (se_SchedulingClass e) then e <| se_SchedulingClass := class |> else e) = se_Jobs e)
    by (by destruct (str_empty _)).
  unfold jobs_of. cbn [se_Jobs set].
  match goal with |- context [option_map ?f (se_Jobs ?x)] => set (g := f) end. rewrite J.
  destruct (se_Jobs e) as [b|]; cbn; [|done]. split; [done|]. unfold id. apply fmap_empty. intros l. apply length_map.
Qed.

Lemma shaped_classes b class l : List.Forall (shaped b) l -> List.Forall (shaped b) (map
  (applyExecutionSchedulingClass class) l).
Proof.
  intros F. apply List.Forall_map. eapply List.Forall_impl; [|exact F]. intros e. apply similar_shaped, similar_class.
Qed.

Section Steps.
Variable buildJobsForComponent : WorkflowQueue -> ApplicationComponent -> string -> M Buckets.
Variable defaultJobTimeoutSeconds : Z.

Lemma shaped_sub_steps i subs componentMap task : forall n,
  yields (List.Forall (shaped true)) (sequential_sub_steps buildJobsForComponent defaultJobTimeoutSeconds i n subs
    componentMap task).
Proof.
  induction subs as [|sub subs IH]; intros n; cbn [sequential_sub_steps]; [apply yields_ret; constructor|].
  eapply yields_bind; [apply yields_any|]. intros sub' _. eapply (yields_bind (List.Forall (shaped true))).
  - apply yields_wrap. unfold buildSequentialSubStepExecution. eapply yields_bind; [apply yields_any|]. intros buckets _.
    apply yields_ret, List.Forall_map. eapply List.Forall_impl; [|apply shaped_unless_empty]. by intros e.
  - intros executions F. eapply yields_bind; [apply IH|]. intros others F'. apply yields_ret, List.Forall_app. by split.
Qed.

Lemma shaped_sequence names type properties componentMap task key : forall n,
  yields (List.Forall (shaped true)) (buildSequentialComponentExecutions buildJobsForComponent defaultJobTimeoutSeconds n
    names type properties componentMap task key).
Proof.
  induction names as [|name names IH]; intros n; cbn [buildSequentialComponentExecutions]; [apply yields_ret;
    constructor|].
  eapply yields_bind; [apply yields_any|]. intros buckets _. eapply yields_bind; [apply IH|]. intros others F.
  apply yields_ret, List.Forall_app. split; [apply shaped_unless_empty|done].
Qed.

Lemma shaped_step i step componentMap task : yields (List.Forall (shaped true))
  (buildWorkflowStepExecutions buildJobsForComponent defaultJobTimeoutSeconds i step componentMap task).
Proof.
  unfold buildWorkflowStepExecutions. destruct (is_approval step).
  { apply yields_ret. constructor; [|constructor]. split; [done|]. by left. }
  destruct (step_SubSteps step) as [|sub subs] eqn:S.
  - destruct (StepComponentNames step) as [|name names]; [apply yields_ret; constructor|].
    destruct (_ =? _)%string; [apply yields_ret, shaped_unless_empty|]. destruct (_ && _); [|apply shaped_sequence].
    eapply yields_bind; [apply yields_any|]. intros buckets _. apply yields_ret, shaped_unless_empty.
  - unfold buildSubStepExecutions. destruct (IsParallel _); [|apply shaped_sub_steps].
    eapply yields_bind; [apply yields_any|]. intros buckets _. apply yields_ret, shaped_unless_empty.
Qed.

Lemma shaped_groups steps componentMap task : forall i,
  yields (List.Forall (List.Forall (shaped true)))
    (step_groups buildJobsForComponent defaultJobTimeoutSeconds i steps componentMap task).
Proof.
  induction steps as [|step steps IH]; intros i; cbn [step_groups]; [apply yields_ret; constructor|].
  eapply yields_bind; [apply yields_any|]. intros step' _.
  eapply yields_bind; [apply yields_wrap, shaped_step|]. intros executions F.
  eapply yields_bind; [apply IH|]. intros others F'. apply yields_ret. constructor; [by apply shaped_classes|done].
Qed.
End Steps.

(** ** Clean-ups between the steps *)

Definition clamp (n i : Z) : Z := Z.min n (Z.max 0 i).

(** A clean-up step with jobs of the lowest priority. *)
Definition cleanup_step (jobs : list JobTask) : option StepExecution :=
  match jobs with
  | [] => None
  | _ => Some (component_execution versionUpdateCleanupStepName WorkflowModeStepByStep
    (append_jobs JobPriorityLow jobs newJobBuckets))
  end.

Lemma merge_one b p job : mergeJobBuckets b {[p := [job]]} = append_jobs p [job] b.
Proof. unfold mergeJobBuckets. by rewrite map_fold_singleton. Qed.

Lemma empty_one p job : bucketsEmpty {[p := [job]]} = false.
Proof. apply buckets_empty. exists p, 0%nat, job. by rewrite lookup_singleton_eq. Qed.

(** One more job at an index. *)
Lemma add_one n cleanups index job (before : Z -> list JobTask) :
  (forall i, cleanups !! i = cleanup_step (before i)) ->
  forall i, add_cleanup n cleanups index {[JobPriorityLow := [job]]} !! i =
    cleanup_step (before i ++ (if i =? clamp n index then [job] else [])).
Proof.
  intros C i. unfold add_cleanup. rewrite empty_one. fold (clamp n index).
  destruct (i =? clamp n index) eqn:E; bool_to_prop.
  - subst i. rewrite lookup_insert_eq, C. destruct (before (clamp n index)) as [|j l];
      unfold cleanup_step, default, id; cbn [app]; by rewrite merge_one.
  - rewrite lookup_insert_ne by done. by rewrite C, app_nil_r.
Qed.

Section Cleanups.
Variable error_text : error -> string.
Variable task : WorkflowQueue.
Variables timeout n : Z.

Definition cleanup_jobs (records : list persistedCleanupJobInfo) (i : Z) : list JobTask :=
  map (persistedCleanupJobTask timeout task)
    (List.filter (fun record => i =? clamp n (pc_InsertBeforeStepIndex record)) records).

Lemma add_records records : forall seen cleanups,
  (forall i, cleanups !! i = cleanup_step (cleanup_jobs seen i)) -> forall i,
  fold_left (fun cleanups record => add_cleanup n cleanups (pc_InsertBeforeStepIndex record)
    {[JobPriorityLow := [persistedCleanupJobTask timeout task record]]}) records cleanups !! i =
  cleanup_step (cleanup_jobs (seen ++ records) i).
Proof.
  induction records as [|r records IH]; intros seen cleanups C; cbn [fold_left]; [by rewrite app_nil_r|].
  replace (seen ++ r :: records)%list with ((seen ++ [r]) ++ records)%list by (by rewrite <- app_assoc).
  apply IH. intros i. rewrite (add_one _ _ _ _ _ C). unfold cleanup_jobs. rewrite List.filter_app, map_app.
  cbn [List.filter].
  by destruct (i =? clamp n (pc_InsertBeforeStepIndex r)).
Qed.

(** The clean-ups before each step: those of the records, or one that fails. *)
Definition cleanups_of (loaded : result (list persistedCleanupJobInfo)) (i : Z) : list JobTask :=
  match loaded with
  | Ok records => cleanup_jobs records i
  | Err e => if i =? clamp n 0 then [failed_cleanup_job error_text task timeout e] else []
  end.

Lemma built_cleanups dec_time w : exists cleanups,
  buildPersistedCleanupExecutions error_text dec_time task timeout n w = (Ok cleanups, snd
    (loadPersistedCleanupJobInfos dec_time task w)) /\
  forall i, cleanups !! i = cleanup_step (cleanups_of (fst (loadPersistedCleanupJobInfos dec_time task w)) i).
Proof.
  unfold buildPersistedCleanupExecutions, bind, try. destruct (loadPersistedCleanupJobInfos dec_time task w) as
    [[records|e] w'];
    eexists; (split; [reflexivity|]); intros i; cbn [fst]; unfold cleanups_of.
  - apply (add_records records [] ∅). intros j. by rewrite lookup_empty.
  - apply (add_one n ∅ 0 _ (fun _ => [])). intros j. by rewrite lookup_empty.
Qed.
End Cleanups.

Lemma cleanup_step_nonempty jobs e : cleanup_step jobs = Some e -> shaped true e /\ bucketsEmpty (jobs_of e) = false.
Proof.
  destruct jobs as [|j l]; [discriminate|]. intros [= <-].
  assert (B : bucketsEmpty (jobs_of (component_execution versionUpdateCleanupStepName WorkflowModeStepByStep
    (append_jobs JobPriorityLow (j :: l) newJobBuckets))) = false); [|split; [split; [done|by right]|done]].
  apply buckets_empty. exists JobPriorityLow, 0%nat, j. unfold jobs_of, component_execution. cbn [se_Jobs].
  unfold default, id, append_jobs. by rewrite lookup_insert_eq.
Qed.

(** The merged plan, with the clean-up steps written out. *)
Fixpoint placed (i : Z) (at_ : Z -> option StepExecution) (groups : list (list StepExecution)) : list StepExecution :=
  match groups with
  | [] => option_list (at_ i)
  | group :: rest => option_list (at_ i) ++ group ++ placed (i + 1) at_ rest
  end.

Lemma merged_groups (at_ : Z -> option StepExecution) cleanups :
  (forall i e, at_ i = Some e -> bucketsEmpty (jobs_of e) = false) -> (forall i, cleanups !! i = at_ i) ->
  forall groups i, merge_groups i groups cleanups = placed i at_ groups.
Proof.
  intros Sh C. assert (X : forall i, match cleanups !! i with
    | Some execution => if bucketsEmpty (jobs_of execution) then [] else [execution] | None => [] end = option_list
      (at_ i)).
  { intros i. rewrite C. destruct (at_ i) as [e|] eqn:E; [|done]. by rewrite (Sh _ _ E). }
  induction groups as [|g groups IH]; intros i; cbn [merge_groups placed]; rewrite X; [done|]. by rewrite IH.
Qed.

Lemma list_error index op w e w' : List_ (E := JobInfo) index op w = (Err e, w') -> e = ErrDatabase.
Proof.
  unfold List_. change (str_empty TableName) with false. cbn [negb]. intros E.
  destruct (statement_spec _ _ _ _ E) as (w1 & _ & [[X _]|(d & X & _)]); [by injection X|].
  destruct (known _); [discriminate|by injection X].
Qed.

(** *** The records of the clean-ups *)

(** The components a version update removed. *)
Definition removed (info : option VersionUpdateCleanupInfo) : list VersionUpdateCleanupComponent :=
  default [] (vi_Components <$> info).

(** The record that was made for a clean-up of the task, as it was read. *)
Definition recorded_for (task : WorkflowQueue) (w : World) (name : string) (record : JobInfo) : Prop :=
  (exists id, moment w (fun d => db_jobs d !! id = Some record)) /\
  TrimSpace (job_TaskID record) = TrimSpace (wq_TaskID task) /\
  TrimSpace (job_Type record) = JobCleanupResources /\ job_ServiceName record = name.

(** A component that was removed and what was loaded for it. *)
Definition loaded_for (task : WorkflowQueue) (w : World) (target : VersionUpdateCleanupComponent)
    (loaded : persistedCleanupJobInfo) : Prop :=
  0 <= vc_InsertBeforeStepIndex target /\ pc_InsertBeforeStepIndex loaded = vc_InsertBeforeStepIndex target /\
  exists component, vc_Component target = Some component /\ blank (ac_Name component) = false /\
    pc_Component loaded = (component <| ac_ResourceAppName := TrimSpace (vc_ResourceAppName target) |>) /\
    recorded_for task w (ac_Name component) (pc_Record loaded).

Section Loading.
Variable dec_time : Json -> option Z.
Variable task : WorkflowQueue.
Variable w : World.

Definition recorded_names (byName : gmap string JobInfo) : Prop := map_Forall (recorded_for task w) byName.

Lemma marked_names entities : (forall r, In r entities -> exists id, moment w (fun d => db_jobs d !! id = Some r)) ->
  forall byName, recorded_names byName -> forall m, marked_records task entities byName = Ok m -> recorded_names m.
Proof.
  induction entities as [|r l IH]; intros R byName B m; cbn [marked_records]; [by intros [= <-]|].
  assert (Rl : forall r0, In r0 l -> exists id, moment w (fun d => db_jobs d !! id = Some r0)) by (intros; apply R; by right).
  destruct (_ || _ || _) eqn:G; [by apply IH|]. destruct (str_empty _); [discriminate|].
  destruct (byName !! _); [discriminate|]. apply IH; [done|]. apply map_Forall_insert_2; [|done].
  apply orb_false_iff in G as [G _]. apply orb_false_iff in G as [G1 G2]. apply negb_false_iff, String.eqb_eq in G1, G2.
  split; [apply R; by left|done].
Qed.

Lemma match_target byName target loaded : recorded_names byName -> match_cleanup byName target = Ok loaded ->
  loaded_for task w target loaded.
Proof.
  intros B. unfold match_cleanup, validatePersistedCleanupComponent.
  destruct (vc_Component target) as [c|] eqn:C; [|discriminate].
  destruct (blank (ac_Name c)) eqn:N; [discriminate|]. destruct (blank (ac_AppID c)); [discriminate|]. cbn [result_bind].
  destruct (_ <? 0) eqn:I; [discriminate|]. destruct (byName !! ac_Name c) as [r|] eqn:L; [|discriminate].
  destruct (validatePersistedCleanupJobContract _ _); [|discriminate]. intros [= <-]. bool_to_prop.
  split; [done|]. split; [done|]. exists c. split; [done|]. split; [done|]. split; [done|]. exact (B _ _ L).
Qed.

Lemma loaded_records records w' : loadPersistedCleanupJobInfos dec_time task w = (Ok records, w') ->
  exists info targets, versionUpdateCleanupInfoFromTask dec_time task = Ok info /\ Permutation (removed info) targets /\
    Forall2 (loaded_for task w) targets records.
Proof.
  unfold loadPersistedCleanupJobInfos, bind, lift_result, try, ret.
  destruct (versionUpdateCleanupInfoFromTask dec_time task) as [info|e]; [|discriminate]. cbv beta iota.
  unfold removed. destruct (default [] (vi_Components <$> info)) as [|c components] eqn:C.
  { intros X. injection X as <- _. exists info, []. by rewrite C. }
  destruct (blank _); [discriminate|].
  match goal with |- context [List_ ?a ?b w] => destruct (List_ a b w) as [[entities|e] w1] eqn:L end.
  2: { apply list_error in L as ->. discriminate. }
  destruct (marked_records task entities ∅) as [byName|] eqn:Mk; [|discriminate].
  destruct (traverse _ _) as [l|] eqn:T; [|discriminate]. intros [= <- _].
  assert (B : recorded_names byName).
  { eapply marked_names; [|by intros ? ?; rewrite lookup_empty|exact Mk]. intros r I.
    by destruct (moment_listed _ _ _ _ _ _ L I) as [id X]; exists id. }
  assert (F : Forall2 (fun loaded target => loaded_for task w target loaded) l (c :: components)).
  { apply Forall2_flip. apply traverse_ok in T. eapply Forall2_impl; [exact T|]. intros t r. by apply match_target. }
  eapply Permutation_Forall2 in F as (targets & P & F); [|symmetry; apply (merge_sort_Permutation (fun a b => Is_true (cleanup_le a b)))].
  exists info, targets. rewrite C. split; [done|]. split; [done|]. by apply Forall2_flip in F.
Qed.
End Loading.

(** *** The clean-ups *)

Section Cleaning.
Variable error_text : error -> string.
Variable task : WorkflowQueue.
Variable w : World.

(** The job that cleans up a removed component: its controller gets that component, with the name its resources
    are called by, and it goes on from the component's record. *)
Definition cleans_up (target : VersionUpdateCleanupComponent) (job : JobTask) : Prop :=
  exists component record, vc_Component target = Some component /\ recorded_for task w (ac_Name component) record /\
    jt_Name job = ac_Name component /\ jt_Namespace job = ac_Namespace component /\
    jt_JobType job = JobCleanupResources /\ jt_TaskID job = wq_TaskID task /\ jt_AppID job = wq_AppID task /\
    jt_Status job = (if blank (job_Status record) then StatusQueued else TrimSpace (job_Status record)) /\
    jt_InternalInfo job = job_InternalInfo record /\
    forall clean, cleanup_Run error_text clean job = RunJobWithStatus error_text job
      (clean (component <| ac_ResourceAppName := TrimSpace (vc_ResourceAppName target) |>)).

(** A clean-up that fails when it is run, before it cleans up anything. *)
Definition fails_at_once (job : JobTask) : Prop :=
  jt_JobType job = JobCleanupResources /\ jt_TaskID job = wq_TaskID task /\ jt_Status job = StatusQueued /\
  forall clean, exists e job', cleanup_Run error_text clean job = (Some e, job') /\ jt_Status job' = StatusFailed.

Lemma run_component clean job component : jt_JobInfo job = PayloadComponent component ->
  cleanup_Run error_text clean job = RunJobWithStatus error_text job (clean component).
Proof.
  intros E. unfold cleanup_Run, RunJobWithStatus, CleanupComponentFromJobInfo.
  change (jt_JobInfo (startJobTransition job)) with (jt_JobInfo job). by rewrite E.
Qed.

Lemma run_refused clean job text : jt_JobInfo job = PayloadText text ->
  exists e job', cleanup_Run error_text clean job = (Some e, job') /\ jt_Status job' = StatusFailed.
Proof.
  intros E. unfold cleanup_Run, RunJobWithStatus, CleanupComponentFromJobInfo.
  change (jt_JobInfo (startJobTransition job)) with (jt_JobInfo job). rewrite E. eexists _, _. split; reflexivity.
Qed.

Lemma loaded_cleans timeout target loaded : loaded_for task w target loaded ->
  cleans_up target (persistedCleanupJobTask timeout task loaded).
Proof.
  intros (_ & _ & c & C & N & P & R). exists c, (pc_Record loaded).
  assert (Nm : ac_Name (pc_Component loaded) = ac_Name c) by (by rewrite P).
  assert (Ns : ac_Namespace (pc_Component loaded) = ac_Namespace c) by (by rewrite P).
  split; [exact C|]. split; [exact R|]. split.
  { change (jt_Name _) with (if negb (blank (ac_Name (pc_Component loaded))) then ac_Name (pc_Component loaded)
      else if negb (blank (job_ServiceName (pc_Record loaded))) then TrimSpace (job_ServiceName (pc_Record loaded))
      else if negb (blank (job_Info (pc_Record loaded))) then TrimSpace (job_Info (pc_Record loaded))
      else "cleanup-resources"%string). by rewrite Nm, N. }
  split; [exact Ns|]. do 5 (split; [reflexivity|]). intros clean. rewrite <- P. by apply run_component.
Qed.

Lemma failed_fails timeout e : fails_at_once (failed_cleanup_job error_text task timeout e).
Proof. do 3 (split; [reflexivity|]). intros clean. by eapply run_refused. Qed.

Lemma filtered {A B} (R : A -> B -> Prop) f g l l' : (forall a b, R a b -> f a = g b) -> Forall2 R l l' ->
  Forall2 R (List.filter f l) (List.filter g l').
Proof.
  intros E F. induction F as [|a b l l' H F IH]; [constructor|]. cbn [List.filter]. rewrite (E _ _ H).
  destruct (g b); [by constructor|done].
Qed.

(** The removed components whose position is a step, positions beyond the workflow being those of its ends. *)
Definition targets_at (n i : Z) (targets : list VersionUpdateCleanupComponent) : list VersionUpdateCleanupComponent :=
  List.filter (fun target => i =? clamp n (vc_InsertBeforeStepIndex target)) targets.

Lemma cleanups_clean timeout n records info targets : Permutation (removed info) targets ->
  Forall2 (loaded_for task w) targets records -> forall i,
  exists here, Permutation (targets_at n i (removed info)) here /\ Forall2 cleans_up here (cleanup_jobs task timeout n records i).
Proof.
  intros P F i. exists (targets_at n i targets). split; [by apply filter_perm|].
  unfold cleanup_jobs. apply Forall2_fmap_r. eapply Forall2_impl; [apply filtered, F|apply loaded_cleans].
  intros target loaded (_ & -> & _). done.
Qed.
End Cleaning.

(** C22: the clean-ups of a version update run before the steps they are recorded for.  Building them never fails, and
    merging puts, before each step and after the last, one clean-up step with the clean-ups of that position, when
    there are any, and changes nothing else; positions beyond the workflow are those of its ends.  When the records
    can be read, the clean-ups of a position are exactly one for each component the update removed there: the job is
    named after the component, goes on from the record stored for it, and its controller is given that component with
    the name its resources have.  When they cannot, there is one clean-up, before the first step, and its controller
    fails at once, whatever a clean-up does. *)
Theorem cleanups_precede_their_step error_text dec_time task timeout groups w :
  let n := Z.of_nat (length groups) in
  let loaded := fst (loadPersistedCleanupJobInfos dec_time task w) in
  exists cleanups jobs,
    buildPersistedCleanupExecutions error_text dec_time task timeout n w = (Ok cleanups, snd
      (loadPersistedCleanupJobInfos dec_time task w)) /\
    fst (mergeStepExecutionsWithCleanup groups cleanups) = placed 0 (fun i => cleanup_step (jobs i)) groups /\
    match loaded with
    | Ok _ => exists info, versionUpdateCleanupInfoFromTask dec_time task = Ok info /\ forall i,
        exists here, Permutation (targets_at n i (removed info)) here /\ Forall2 (cleans_up error_text task w) here (jobs i)
    | Err e => exists job, fails_at_once error_text task job /\ forall i, jobs i = if i =? 0 then [job] else []
    end.
Proof.
  cbv zeta. set (n := Z.of_nat (length groups)).
  destruct (built_cleanups error_text task timeout n dec_time w) as (cleanups & E & C).
  eexists cleanups, _. split; [done|]. split.
  - cbn [mergeStepExecutionsWithCleanup fst]. apply merged_groups; [|exact C].
    intros i e X. apply (cleanup_step_nonempty _ _ X).
  - destruct (loadPersistedCleanupJobInfos dec_time task w) as [[records|e] w'] eqn:L; cbn [fst].
    + apply loaded_records in L as (info & targets & I & P & F). exists info. split; [done|].
      by apply (cleanups_clean _ _ _ _ _ _ _ targets).
    + eexists. split; [apply failed_fails|]. intros i. unfold cleanups_of. by replace (clamp n 0) with 0 by (unfold clamp; lia).
Qed.

(** ** Settling a plan *)

(** What the last steps of the builder leave of an execution. *)
Definition kin (e e' : StepExecution) : Prop :=
  se_generationError e' = se_generationError e /\ se_StepType e' = se_StepType e /\
  se_FailurePolicy e' = se_FailurePolicy e /\ (se_Jobs e' = None <-> se_Jobs e = None).

#[local] Instance kin_reflexive : Reflexive kin.
Proof. intros e. exact (conj eq_refl (conj eq_refl (conj eq_refl (iff_refl _)))). Qed.

Definition complete (nonempty : bool) (execution : StepExecution) : Prop :=
  shaped nonempty execution /\ In (se_FailurePolicy execution) [WorkflowFailurePolicyCleanupFailed;
    WorkflowFailurePolicyCleanupAll].

Lemma kin_complete b R executions executions' :
  Forall2 kin executions executions' -> slotwise R executions executions' ->
  List.Forall (complete b) executions -> List.Forall (complete b) executions'.
Proof.
  intros K S F. apply List.Forall_forall. intros e' He'. apply list_elem_of_In, list_elem_of_lookup in He' as [i E'].
  destruct (Forall2_lookup_r _ _ _ _ _ K E') as (e & E & G & T & P & J).
  pose proof (slotwise_empty _ _ _ i S e e' E E') as B.
  rewrite List.Forall_forall in F. destruct (F e) as [Sh Po]; [apply list_elem_of_In; by eapply list_elem_of_lookup_2|].
  split; [|by rewrite P]. eapply similar_shaped; [|exact Sh]. exact (conj G (conj T (conj J B))).
Qed.

Lemma complete_class b class e : complete b e -> complete b (applyExecutionSchedulingClass class e).
Proof.
  intros [S P]. split; [by eapply similar_shaped; [apply similar_class|]|].
  unfold applyExecutionSchedulingClass. by destruct (str_empty _).
Qed.

Lemma identity_kin executions task : Forall2 kin executions (applyWorkflowExecutionIdentity executions task).
Proof.
  apply Forall2_same_length_lookup. unfold applyWorkflowExecutionIdentity, map_steps. split; [by rewrite length_imap|].
  intros i e e'. rewrite list_lookup_imap. intros E. rewrite E. intros [= <-].
  split; [done|]. split; [done|]. split; [done|]. unfold set; cbn. destruct (se_Jobs e); cbn; [split; discriminate|done].
Qed.

Lemma restore_kin {Q} `{QuantityOps Q} `{KubernetesJson Q} decode_job order dei task entities executions restored :
  restore_steps decode_job order dei task entities executions = Ok restored -> Forall2 kin executions restored.
Proof.
  intros R. apply traverse_imap_ok in R as [L R]. apply Forall2_same_length_lookup. split; [done|].
  intros i e e' E E'. specialize (R i). rewrite E in R. destruct R as (e0 & E0 & F). rewrite E' in E0. injection E0 as <-.
  destruct (se_Jobs e) as [b|] eqn:J; [|injection F as <-; by repeat split].
  destruct (restore_buckets _ _ _ _ _ _ _); [|discriminate]. injection F as <-. split; [done|]. split; [done|].
  split; [done|]. rewrite J. split; discriminate.
Qed.

(** What rendering keeps of a job. *)
Definition rendered (job job' : JobTask) : Prop :=
  (forall task, owned_by task job -> owned_by task job') /\ jt_TaskID job' = jt_TaskID job /\
  jt_ExecutionKey job' = jt_ExecutionKey job /\ jt_RunGeneration job' = jt_RunGeneration job.

(** A job with the same owner and identity. *)
Ltac rendered_fields := split; [intros ? O; exact O|split; [reflexivity|split; reflexivity]].

Lemma rendered_refl job : rendered job job.
Proof. rendered_fields. Qed.

Lemma rendered_trans a b c : rendered a b -> rendered b c -> rendered a c.
Proof.
  intros (O & T & K & G) (O' & T' & K' & G'). split; [intros task X; by apply O', O|]. repeat split; congruence.
Qed.

Lemma rendered_identity job : rendered job (ApplyExecutionIdentity job).
Proof.
  unfold ApplyExecutionIdentity. destruct (_ || _); [apply rendered_refl|]. destruct (jt_JobInfo job); rendered_fields.
Qed.

Section Render.
Context {Q : Type} `{QuantityOps Q} `{KubernetesJson Q}.
Variable decode_job : Json -> option (Job Q).
Variable order : JobRetryPolicy Q -> list (string * Z).
Variable decodeEvaluationInfo : string -> result evaluationInfo.
Variable encode_info : evaluationInfo -> result string.
Variable decode_result_policy : string -> JobResultPolicy -> result JobResultPolicy.
Variable jobs_config : option bool.
Variable render_runner : JobTask -> evaluationInfo -> JobArtifact -> result (Job Q).

Local Abbreviation rendering := (BuildEvaluationTask decode_job order decodeEvaluationInfo encode_info
  decode_result_policy jobs_config render_runner).
Local Abbreviation rendering_one := (render_evaluation decode_job order decodeEvaluationInfo encode_info
  decode_result_policy jobs_config render_runner).
Local Abbreviation rendering_all := (renderEvaluationExecutions decode_job order decodeEvaluationInfo encode_info
  decode_result_policy jobs_config render_runner).

Lemma rendered_snapshot job info (workload : Job Q) limit job' :
  rendered_job encode_info job info workload limit = Ok job' -> rendered job job'.
Proof. unfold rendered_job. destruct (encode_info info); [|done]. intros [= <-]. rendered_fields. Qed.

Lemma rendered_checkpoint job job' : RestoreInstantJobRetryCheckpoint decode_job order job = Ok job' -> rendered job job'.
Proof.
  unfold RestoreInstantJobRetryCheckpoint. destruct (DecodeInstantJobRetryCheckpoint _ _ _) as [cp|]; [|done].
  cbn [result_bind]. destruct (rc_Job cp); [|done]. intros [= <-]. rendered_fields.
Qed.

(** Rendering gives a job another name, payload, time and metadata, and nothing else. *)
Lemma rendering_keeps job : yields (rendered job) (rendering job).
Proof.
  unfold BuildEvaluationTask. destruct (_ || _); [apply yields_throw|]. destruct jobs_config as [minio|]; [|apply yields_throw].
  destruct (str_empty (jt_EvaluationInfo job)); [apply yields_throw|]. eapply yields_bind; [apply yields_any|]. intros info _.
  set (named := if str_empty (ei_RecoveryName info) then job else job <| jt_Name := ei_RecoveryName info |>).
  assert (N : rendered job named) by (unfold named; destruct (str_empty _); rendered_fields).
  eapply yields_bind; [apply yields_any|]. intros [] _. eapply yields_bind; [apply yields_any|]. intros policy _. cbv zeta.
  destruct (_ && _); [apply yields_throw|]. eapply yields_bind; [apply yields_any|]. intros dataset _.
  eapply yields_bind; [apply yields_any|]. intros workload _. destruct (0 <? _).
  - unfold under_deadline. destruct (_ && _).
    + apply yields_lift. intros job' R%rendered_checkpoint. eapply rendered_trans; [exact N|exact R].
    + eapply yields_bind; [apply yields_any|]. intros now _. destruct (_ =? _); [apply yields_throw|].
      destruct (_ <=? _); [apply yields_throw|]. apply yields_lift. intros job' R%rendered_snapshot.
      eapply rendered_trans; [exact N|exact R].
  - apply yields_lift. intros job' R%rendered_snapshot. by eapply rendered_trans.
Qed.

Lemma reads_rendering job : read_only (rendering job).
Proof.
  unfold BuildEvaluationTask, check_timeout, evaluation_policy, evaluation_dataset, under_deadline, LoadJobSchedulerPolicy.
  cbv zeta. store_step.
Qed.

Lemma render_one job : yields (rendered job) (rendering_one job).
Proof.
  unfold render_evaluation. destruct (_ || _); [apply yields_ret, rendered_refl|].
  eapply yields_bind; [apply yields_wrap, rendering_keeps|]. intros job' R. apply yields_ret.
  eapply rendered_trans; [exact R|apply rendered_identity].
Qed.

Lemma render_slots executions : yields (fun executions' => Forall2 kin executions executions' /\
  slotwise (fun _ _ _ job job' => rendered job job') executions executions')
  (rendering_all executions).
Proof.
  set (jobs_kept (b b' : Buckets) := forall p, match b !! p with
    | Some l => exists l', b' !! p = Some l' /\ Forall2 rendered l l' | None => b' !! p = None end).
  eapply (yields_weaken (Forall2 (fun e e' => kin e e' /\ jobs_kept (jobs_of e) (jobs_of e')) executions)).
  { intros executions' F. split; [eapply Forall2_impl; [exact F|]; by intros ? ? []|].
    split; [symmetry; by eapply Forall2_length|]. intros i p k. unfold job_at.
    destruct (executions !! i) as [e|] eqn:E.
    - destruct (Forall2_lookup_l _ _ _ _ _ F E) as (e' & -> & _ & J). specialize (J p).
      destruct (jobs_of e !! p) as [l|]; [|by rewrite J]. destruct J as (l' & -> & R).
      destruct (l !! k) as [job|] eqn:Ek; [by apply (Forall2_lookup_l _ _ _ _ _ R Ek)|].
      apply lookup_ge_None. apply lookup_ge_None in Ek. by rewrite <- (Forall2_length _ _ _ R).
    - by rewrite (proj2 (lookup_ge_None executions' i)) by (rewrite <- (Forall2_length _ _ _ F);
        by apply lookup_ge_None). }
  apply each_yields. intros e. destruct (se_Jobs e) as [b|] eqn:J.
  - eapply (yields_bind (jobs_kept b)).
    + unfold render_buckets. eapply yields_bind; [apply (each_yields _ (fun kb kc => fst kb = fst kc /\
        Forall2 rendered (snd kb) (snd kc)))|].
      * intros [p l]. eapply yields_bind; [apply (each_yields _ rendered), render_one|]. intros l' R. by apply yields_ret.
      * intros l R. apply yields_ret. exact (transformed_map (fun _ => Forall2 rendered) b l R).
    + intros b' R. apply yields_ret. split; [split; [done|split; [done|split; [done|rewrite J; split;
        discriminate]]]|]. unfold jobs_of. rewrite J. exact R.
  - apply yields_ret. split; [by repeat split|]. unfold jobs_of. rewrite J. intros p.
    change (default ∅ None) with (∅ : Buckets). by rewrite lookup_empty.
Qed.
End Render.

Lemma failed_owned error_text timeout task err now i p k job :
  job_at [failed_generation error_text timeout task err now] i p k = Some job -> owned_by task job.
Proof.
  destruct i as [|i]; [|by destruct i]. unfold job_at, failed_generation, jobs_of.
  cbn [lookup list_lookup se_Jobs default].
  unfold id. destruct (decide (p = JobPriorityLow)) as [->|N].
  - rewrite lookup_singleton_eq. unfold applyWorkflowJobExecutionIdentity. destruct k as [|k]; [|by destruct k].
    cbn [imap lookup list_lookup]. intros [= <-]. apply identify_spec.
  - rewrite lookup_singleton_ne by done. discriminate.
Qed.

(** *** How a program can fail *)

Definition fails {A} (P : error -> Prop) (m : M A) : Prop := forall w e w', m w = (Err e, w') -> P e.

Lemma fails_ret {A} P (a : A) : fails P (ret a).
Proof. by intros w e w' [=]. Qed.

Lemma fails_bind {A B} P (m : M A) (k : A -> M B) : fails P m -> (forall a, fails P (k a)) -> fails P (bind m k).
Proof.
  intros Hm Hk w e w' E. unfold bind in E. destruct (m w) as [[a|e1] w1] eqn:Em; [by eapply Hk|].
  injection E as <- <-. by eapply Hm.
Qed.

Lemma fails_try {A} P (m : M A) : fails P (try m).
Proof. intros w e w' E. unfold try in E. by destruct (m w). Qed.

Lemma fails_lift {A} (P : error -> Prop) (r : result A) : (forall e, r = Err e -> P e) -> fails P (lift_result r).
Proof. intros H w e w' E. destruct r as [x|e0]; [discriminate|]. injection E as -> _. by apply H. Qed.

Lemma fails_wrap {A} (P : error -> Prop) msg (m : M A) : (forall e, P (Wrapf msg e)) -> fails P (wrap_error msg m).
Proof. intros H w e w' E. unfold wrap_error in E. destruct (m w) as [[a|e0] w1]; [discriminate|].
  by injection E as <- _. Qed.

(** What is reported as an error, and not as a plan that fails. *)
Inductive refusal : error -> Prop :=
  | refuse_scope : refusal (Errorf "workspace Job requires its persisted workspace execution scope")
  | refuse_list e : refusal (Wrapf "list committed jobs" e)
  | refuse_checkpoint e : refusal (Wrapf "restore instant job retry" e).

(** A step or a sub-step that is nil. *)
Definition has_nil (steps : list (option WorkflowStep)) : Prop :=
  In None steps \/ exists step, In (Some step) steps /\ In None (step_SubSteps step).

Section Generated.
Context {Q : Type} `{QuantityOps Q} `{KubernetesJson Q}.
Variable decode_job : Json -> option (Job Q).
Variable order : JobRetryPolicy Q -> list (string * Z).
Variable decodeEvaluationInfo : string -> result evaluationInfo.
Variable dec_time : Json -> option Z.
Variable error_text : error -> string.
Variable buildJobsForComponent : WorkflowQueue -> ApplicationComponent -> string -> M Buckets.
Variable BuildTask : WorkflowQueue -> string -> M (list (list JobTask)).
Variable decode_declaration : string -> result (list (string * Z)).
Variable encode_info : evaluationInfo -> result string.
Variable decode_result_policy : string -> JobResultPolicy -> result JobResultPolicy.
Variable jobs_config : option bool.
Variable render_runner : JobTask -> evaluationInfo -> JobArtifact -> result (Job Q).
Variable ctx_scope : option (string * string).
Variable timeout : Z.
Variable task : WorkflowQueue.

(** The runtime panics of the builder, which end the run: a workflow with a nil step, and a declaration with fewer
    stages than [BuildTask] made jobs for. *)
Definition panics (e : error) : Prop :=
  if (wq_Type task =? WorkflowTaskTypeJob)%string
  then e = index_out_of_range /\ exists declared stages, decode_declaration (wq_JobSpec task) = Ok declared /\
    (length declared < length (stages : list (list JobTask)))%nat
  else e = nil_dereference /\ exists read steps action, task_steps dec_time task read = Ok (steps, action) /\
    has_nil (steps_Steps steps).

Local Abbreviation restoring := (restoreCommittedJobExecutions decode_job order decodeEvaluationInfo).
Local Abbreviation settling := (settle_plan decode_job order decodeEvaluationInfo error_text encode_info
  decode_result_policy jobs_config render_runner timeout task).
Local Abbreviation generation := (GenerateJobTasks decode_job order decodeEvaluationInfo dec_time error_text
  buildJobsForComponent BuildTask decode_declaration encode_info decode_result_policy jobs_config render_runner ctx_scope
  timeout task).

Definition plan_failed (plan : list StepExecution) : Prop :=
  exists err now, plan = [failed_generation error_text timeout task err now].

Definition plan_ok (nonempty : bool) (plan : list StepExecution) : Prop :=
  (plan_failed plan \/ List.Forall (complete nonempty) plan) /\
  forall i p k job, job_at plan i p k = Some job -> owned_by task job.

Lemma failing b err : yields (plan_ok b) (failedWorkflowGenerationExecution error_text timeout task err).
Proof.
  intros w plan w' [= <- _]. split; [left; by exists err, (w_wall w)|]. intros i p k job. apply failed_owned.
Qed.

(** What taking over keeps: the owner. *)
Definition owner_kept (job job' : JobTask) : Prop := owned_by task job -> owned_by task job'.

Lemma restoring_yields executions : yields (fun restored => Forall2 kin executions restored /\
  slotwise (fun _ _ _ => owner_kept) executions restored) (restoring executions task).
Proof.
  unfold restoreCommittedJobExecutions. destruct (_ || _).
  - apply yields_ret. split; [reflexivity|]. split; [done|]. intros i p k.
    destruct (job_at executions i p k) as [job|]; [|done]. exists job. split; [done|]. by intros O.
  - eapply yields_bind; [apply yields_any|]. intros entities _. apply yields_lift. intros restored R.
    split; [by eapply restore_kin|]. eapply slotwise_impl; [|by eapply restore_steps_slots].
    intros i p k job job' _ (c & _ & X). destruct c as [r|]; [|subst job'; by intros O]. intros O.
    by apply (resumes_keeps _ _ _ _ _ X).
Qed.

Lemma settling_ok b executions : List.Forall (complete b) executions -> yields (plan_ok b) (settling executions).
Proof.
  intros F. unfold settle_plan. pose proof (identity_kin executions task) as K0.
  pose proof (identity_slots executions task) as S0.
  pose proof (kin_complete b _ _ _ K0 S0 F) as F0. set (plan := applyWorkflowExecutionIdentity executions task) in *.
  assert (O0 : forall i p k job, job_at plan i p k = Some job -> owned_by task job).
  { intros i p k job E. destruct (slotwise_job _ _ _ _ _ _ _ S0 E) as (job0 & _ & ->). apply identify_spec. }
  eapply yields_bind; [apply restoring_yields|]. intros restored [K1 S1].
  pose proof (kin_complete b _ _ _ K1 S1 F0) as F1.
  eapply yields_bind; [apply yields_try, render_slots|].
  intros [plan'|e]; [|intros _; apply failing].
  intros [K2 S2]. apply yields_ret. split; [right; exact (kin_complete b _ _ _ K2 S2 F1)|].
  intros i p k job E. destruct (slotwise_job _ _ _ _ _ _ _ S2 E) as (job1 & E1 & R & _). apply R.
  destruct (slotwise_job _ _ _ _ _ _ _ S1 E1) as (job0 & E0 & R'). apply R'. by eapply O0.
Qed.

(** *** Assembling the steps *)

Lemma shaped_placed at_ groups : (forall i e, at_ i = Some e -> shaped true e) ->
  List.Forall (List.Forall (shaped true)) groups -> forall i, List.Forall (shaped true) (placed i at_ groups).
Proof.
  intros C F. assert (X : forall i, List.Forall (shaped true) (option_list (at_ i))).
  { intros i. destruct (at_ i) as [e|] eqn:E; constructor; [by eapply C|constructor]. }
  induction F as [|g groups G F IH]; intros i; cbn [placed]; [apply X|]. by rewrite !List.Forall_app.
Qed.

Lemma shaped_restarts info componentMap t : List.Forall (shaped true)
  (option_list (buildVersionUpdateRestartExecution info componentMap t timeout)).
Proof.
  unfold buildVersionUpdateRestartExecution. destruct (bucketsEmpty _) eqn:B; constructor; [|constructor].
  split; [done|]. right. split; [done|]. split; [done|]. by intros _.
Qed.

Lemma assembled t componentMap steps action policy groups : List.Forall (List.Forall (shaped true)) groups ->
  In policy [WorkflowFailurePolicyCleanupFailed; WorkflowFailurePolicyCleanupAll] ->
  yields (List.Forall (complete true)) (assemble dec_time error_text timeout t componentMap steps action policy groups).
Proof.
  intros F Po w plan w' E. unfold assemble, bind in E.
  destruct (built_cleanups error_text t timeout (Z.of_nat (length (steps_Steps steps))) dec_time w) as (cleanups & B & C).
  rewrite B in E. injection E as <- _. cbn [mergeStepExecutionsWithCleanup fst].
  apply List.Forall_map. apply (List.Forall_impl (P := complete true)); [intros e; apply complete_class|].
  unfold applyWorkflowFailurePolicyToExecutions. apply List.Forall_map.
  apply (List.Forall_impl (P := shaped true)); [intros e S; by split|]. apply List.Forall_app. split.
  - rewrite (merged_groups _ cleanups (fun i e X => proj2 (cleanup_step_nonempty _ _ X)) C).
    apply shaped_placed; [|done]. intros i e. apply cleanup_step_nonempty.
  - destruct action; [apply shaped_restarts|constructor].
Qed.

Lemma policy_checked steps policy : workflow_policy task steps = Ok policy ->
  In policy [WorkflowFailurePolicyCleanupFailed; WorkflowFailurePolicyCleanupAll].
Proof.
  unfold workflow_policy, NormalizeWorkflowFailurePolicy. cbv zeta.
  repeat destruct (_ =? _)%string; intros [= <-]; cbn [In]; auto.
Qed.

Lemma staged declared stages executions : stage_executions declared stages = Ok executions ->
  List.Forall (complete false) executions.
Proof.
  revert declared executions. induction stages as [|s stages IH]; intros declared executions; cbn [stage_executions].
  { destruct declared; intros [= <-]; constructor. }
  destruct declared as [|d declared]; [discriminate|]. cbn [stage_executions].
  destruct (stage_executions declared stages) as [l|] eqn:E; cbn [result_bind]; [|discriminate].
  intros [= <-]. constructor; [|by eapply IH]. split; [|by left]. split; [done|]. by right.
Qed.

(** *** Plans *)

Lemma workspace_plans : yields (plan_ok false) (generate_workspace_job decode_job order decodeEvaluationInfo error_text
  BuildTask decode_declaration encode_info decode_result_policy jobs_config render_runner ctx_scope timeout task).
Proof.
  unfold generate_workspace_job. destruct ctx_scope as [[id namespace]|]; [|apply yields_throw].
  destruct (_ || _ || _); [apply yields_throw|]. eapply yields_bind; [apply yields_any|].
  intros [stages|e] _; [|apply failing].
  destruct (decode_declaration _) as [declared|e]; [|apply failing].
  eapply (yields_bind (List.Forall (complete false))); [apply yields_lift, staged|]. apply settling_ok.
Qed.

Lemma workflow_plans : yields (plan_ok true) (generate_workflow decode_job order decodeEvaluationInfo dec_time error_text
  buildJobsForComponent encode_info decode_result_policy jobs_config render_runner timeout task).
Proof.
  unfold generate_workflow. eapply yields_bind; [apply yields_any|]. intros inputs _.
  destruct inputs as [inputs|e]; cbn [result_bind]; [|apply failing].
  destruct (task_steps _ _ _) as [[steps action]|e]; cbn [result_bind]; [|apply failing].
  destruct (workflow_policy _ _) as [policy|e] eqn:P; cbn [result_bind]; [|apply failing].
  eapply yields_bind; [apply yields_any|]. intros [[]|e] _; [|apply failing].
  eapply yields_bind; [apply yields_try, shaped_groups|]. intros [groups|e] F; [|apply failing].
  eapply yields_bind; [apply assembled; [exact F|by eapply policy_checked]|]. apply settling_ok.
Qed.

(** *** Refusals *)

Lemma failing_never P t err : fails P (failedWorkflowGenerationExecution error_text timeout t err).
Proof. intros w e w' [=]. Qed.

Lemma settling_fails executions : fails refusal (settling executions).
Proof.
  unfold settle_plan. apply fails_bind.
  - unfold restoreCommittedJobExecutions. destruct (_ || _); [apply fails_ret|].
    apply fails_bind; [apply fails_wrap; constructor|]. intros entities. apply fails_lift. intros e R.
    apply restore_steps_fails in R as (i & p & k & job & r & err & _ & _ & _ & _ & ->). constructor.
  - intros restored. apply fails_bind; [apply fails_try|]. intros [plan|e]; [apply fails_ret|apply failing_never].
Qed.

Lemma fails_weaken {A} (P P' : error -> Prop) (m : M A) : (forall e, P e -> P' e) -> fails P m -> fails P' m.
Proof. intros X F w e w' E. exact (X e (F _ _ _ E)). Qed.

Lemma stages_fail declared stages e : stage_executions declared stages = Err e ->
  e = index_out_of_range /\ (length declared < length stages)%nat.
Proof.
  revert stages. induction declared as [|d declared IH]; intros [|s stages]; cbn [stage_executions]; try discriminate.
  - intros [= <-]. split; [done|]. cbn. lia.
  - specialize (IH stages). destruct (stage_executions declared stages) as [l|e0]; cbn [result_bind]; [discriminate|].
    intros [= <-]. destruct (IH eq_refl). split; [done|]. cbn. lia.
Qed.

Lemma step_classes_fail step e : check_step_classes step = Err e ->
  e = nil_dereference /\ (step = None \/ exists s, step = Some s /\ In None (step_SubSteps s)).
Proof.
  unfold check_step_classes. destruct step as [step|]; cbn [deref result_bind]; [|intros [= <-]; auto].
  destruct (ValidateJobSchedulingClass _); [|discriminate]. intros E.
  assert (X : e = nil_dereference /\ In None (step_SubSteps step)); [|destruct X; split; [done|right; eauto]].
  revert E. induction (step_SubSteps step) as [|[s|] subs IH]; [discriminate| |].
  - cbn [deref result_bind]. destruct (ValidateJobSchedulingClass _); [|discriminate]. intros E. destruct (IH E).
    split; [done|by right].
  - intros [= <-]. split; [done|by left].
Qed.

Lemma classes_fail steps e : check_classes steps = Err e -> e = nil_dereference /\ has_nil steps.
Proof.
  induction steps as [|s steps IH]; cbn [check_classes]; [discriminate|].
  destruct (check_step_classes s) as [[]|e0] eqn:S; cbn [result_bind]; [|discriminate|].
  - intros E. destruct (IH E) as [-> [N|(s' & I & N)]]; (split; [done|]); [left; by right|right; exists s'; split; [by right|done]].
  - intros [= <-]. apply step_classes_fail in S as [-> [->|(s' & -> & N)]]; (split; [done|]); [by left; left|].
    right. exists s'. split; [by left|done].
Qed.

Lemma workspace_fails : wq_Type task = WorkflowTaskTypeJob -> fails (fun e => refusal e \/ panics e)
  (generate_workspace_job decode_job order decodeEvaluationInfo error_text
  BuildTask decode_declaration encode_info decode_result_policy jobs_config render_runner ctx_scope timeout task).
Proof.
  intros Ty. assert (D : fails (A := list StepExecution) (fun e => refusal e \/ panics e)
    (throw (Errorf "workspace Job requires its persisted workspace execution scope"))).
  { intros w e w' [= <- _]. left. constructor. }
  unfold generate_workspace_job. destruct ctx_scope as [[id namespace]|]; [|exact D]. destruct (_ || _ || _); [exact D|].
  apply fails_bind; [apply fails_try|]. intros [stages|e]; [|apply failing_never].
  destruct (decode_declaration _) as [declared|e] eqn:Dd; [|apply failing_never].
  apply fails_bind; [|intros executions; eapply fails_weaken; [|apply settling_fails]; by left].
  apply fails_lift. intros e [-> L]%stages_fail. right. unfold panics. rewrite Ty, String.eqb_refl. split; [done|].
  by exists declared, stages.
Qed.

Lemma workflow_fails : wq_Type task <> WorkflowTaskTypeJob -> fails (fun e => refusal e \/ panics e)
  (generate_workflow decode_job order decodeEvaluationInfo dec_time error_text
  buildJobsForComponent encode_info decode_result_policy jobs_config render_runner timeout task).
Proof.
  intros Ty. unfold generate_workflow. apply fails_bind; [apply fails_try|].
  intros [[read componentMap]|e]; cbn [result_bind fst snd]; [|apply failing_never].
  destruct (task_steps dec_time task read) as [[steps action]|e] eqn:St; cbn [result_bind fst snd]; [|apply failing_never].
  destruct (workflow_policy task steps) as [policy|e]; cbn [result_bind fst snd]; [|apply failing_never].
  apply fails_bind.
  { apply fails_lift. intros e [-> N]%classes_fail. right. unfold panics. rewrite (proj2 (String.eqb_neq _ _) Ty).
    split; [done|]. by exists read, steps, action. }
  intros [[]|e]; [|apply failing_never].
  apply fails_bind; [apply fails_try|]. intros [groups|e]; [|apply failing_never].
  apply fails_bind; [|intros executions; eapply fails_weaken; [|apply settling_fails]; by left].
  intros w e w' E. unfold assemble, bind in E.
  destruct (built_cleanups error_text task timeout (Z.of_nat (length (steps_Steps steps))) dec_time w) as (cleanups & B & _).
  rewrite B in E. discriminate.
Qed.

(** *** Writing *)

Create HintDb writes.

Section Writing.
Variable P : Database -> Database -> Prop.
Hypothesis components_write : forall task component key, guarantees P (buildJobsForComponent task component key).
Hypothesis stages_write : forall task namespace, guarantees P (BuildTask task namespace).

Lemma writes_nothing {A} (m : M A) : read_only m -> guarantees P m.
Proof. apply guarantees_read_only. Qed.

#[local] Hint Resolve components_write stages_write : writes.

(** The builder's own statements only read. *)
Ltac writes_step :=
  repeat match goal with
  | |- forall _, _ => intros ?
  | |- guarantees _ (bind _ _) => apply guarantees_bind
  | |- guarantees _ (try _) => apply guarantees_try
  | |- guarantees _ (wrap_error _ _) => apply guarantees_wrap
  | |- guarantees _ (if ?c then _ else _) => destruct c
  | |- guarantees _ (match ?c with _ => _ end) => destruct c
  | |- guarantees _ _ => solve [eauto with writes]
  | |- guarantees _ _ => apply writes_nothing; solve [auto with store | store_step]
  end.

Lemma writes_components buckets names type properties componentMap t key :
  guarantees P (appendComponentGroup buildJobsForComponent timeout buckets names type properties componentMap t key).
Proof.
  unfold appendComponentGroup. destruct (_ =? _)%string; [writes_step|]. destruct (_ =? _)%string; [writes_step|].
  generalize 0%nat. revert buckets.
  induction names as [|name names IH]; intros buckets n; cbn [append_components]; [writes_step|].
  destruct (componentMap !! name); [|apply IH]. apply guarantees_bind; [writes_step|intros built; apply IH].
Qed.
#[local] Hint Resolve writes_components : writes.

Lemma writes_sequence names type properties componentMap t key : forall i, guarantees P
  (buildSequentialComponentExecutions buildJobsForComponent timeout i names type properties componentMap t key).
Proof.
  induction names as [|name names IH]; intros i; cbn [buildSequentialComponentExecutions]; writes_step.
Qed.

Lemma writes_sub_steps i subs componentMap t : forall n,
  guarantees P (sequential_sub_steps buildJobsForComponent timeout i n subs componentMap t).
Proof.
  induction subs as [|sub subs IH]; intros n; cbn [sequential_sub_steps]; unfold buildSequentialSubStepExecution;
    writes_step.
Qed.

Lemma writes_parallel i subs componentMap t : forall buckets n,
  guarantees P (parallel_sub_steps buildJobsForComponent timeout buckets i n subs componentMap t).
Proof.
  induction subs as [|sub subs IH]; intros buckets n; cbn [parallel_sub_steps]; writes_step.
Qed.
#[local] Hint Resolve writes_sequence writes_sub_steps writes_parallel : writes.

Lemma writes_step_executions i step componentMap t :
  guarantees P (buildWorkflowStepExecutions buildJobsForComponent timeout i step componentMap t).
Proof.
  unfold buildWorkflowStepExecutions. destruct (is_approval step); [writes_step|].
  destruct (step_SubSteps step); unfold buildSubStepExecutions, buildParallelComponentExecution,
    buildParallelSubStepExecution; writes_step.
Qed.
#[local] Hint Resolve writes_step_executions : writes.

Lemma writes_groups steps componentMap t : forall i, guarantees P (step_groups buildJobsForComponent timeout i steps
  componentMap t).
Proof. induction steps as [|step steps IH]; intros i; cbn [step_groups]; writes_step. Qed.

Lemma writes_rendering executions : guarantees P (renderEvaluationExecutions decode_job order decodeEvaluationInfo
  encode_info decode_result_policy jobs_config render_runner executions).
Proof.
  apply writes_nothing, each_read_only. intros e. destruct (se_Jobs e) as [b|]; [|apply read_only_ret].
  apply read_only_bind; [|intros b'; apply read_only_ret]. apply read_only_bind; [|intros l; apply read_only_ret].
  apply each_read_only. intros [p l]. apply read_only_bind; [|intros l'; apply read_only_ret].
  apply each_read_only. intros job. unfold render_evaluation. destruct (_ || _); [apply read_only_ret|].
  apply read_only_bind; [apply read_only_wrap, reads_rendering|]. intros job'. apply read_only_ret.
Qed.
#[local] Hint Resolve writes_groups writes_rendering : writes.

Lemma writes_generation : guarantees P generation.
Proof.
  unfold GenerateJobTasks, generate_workspace_job, generate_workflow, assemble, settle_plan, restoreCommittedJobExecutions,
    buildWorkflowStepExecutionGroups, failedWorkflowGenerationExecution, buildPersistedCleanupExecutions,
    loadPersistedCleanupJobInfos, loadWorkflowJobTaskInputs, task_components, loadResourceAppName,
    loadWorkflowTaskApplication.
  writes_step.
Qed.
End Writing.

End Generated.

(** ** A workflow of one step, before which a component is cleaned up *)

Definition deploy_task : WorkflowQueue :=
  plan_task <| wq_WorkflowID := "flow"%string |> <| wq_AppID := "app"%string |>.

Definition one_step : Json :=
  JObj [("steps"%string, JArr [JObj [("name"%string, JStr "deploy"); ("properties"%string,
    JArr [JObj [("policies"%string, JArr [JStr "api"])]])]])].

Definition deploy_database : Database :=
  (db_empty 1) <| db_workflows := {["flow"%string := workflow_zero <| flow_ID := "flow"%string |> <| flow_Steps :=
    Some one_step |>]} |>
    <| db_apps := {["app"%string := applications_zero <| app_ID := "app"%string |> <| app_Name := "shop"%string |>]} |>
    <| db_components := {[1 := application_component_zero <| ac_ID := 1 |> <| ac_AppID := "app"%string |> <| ac_Name
      := "api"%string |>]} |>.

Definition one_deploy (task : WorkflowQueue) (component : ApplicationComponent) (key : string) : M Buckets :=
  ret {[JobPriorityNormal := [(NewJobTask (ac_Name component) "" task 60) <| jt_JobType := JobDeploy |>]]}.

Definition no_time (j : Json) : option Z := match j with JNull => Some 0 | _ => None end.

Definition generate_one (task : WorkflowQueue) : M (list StepExecution) :=
  GenerateJobTasks z_decode_job no_order no_evaluation no_time (fun _ => "failed"%string) one_deploy
    (fun _ _ => ret []) (fun _ => Ok []) (fun _ => Ok ""%string) (fun _ policy => Ok policy) None
    (fun _ _ _ => Err (Errorf "no image")) None 60 task.


(** The second of two steps is preceded by the removal of a component. *)
Definition remove_task : WorkflowQueue := deploy_task <| wq_CleanupInfo :=
  ("{" ++ jq "source" ++ ":" ++ jq JobInfoSourceVersionUpdateRemove ++ "," ++ jq "components" ++ ":[{" ++
   jq "component" ++ ":{" ++ jq "name" ++ ":" ++ jq "old" ++ "," ++ jq "appId" ++ ":" ++ jq "app" ++ "}," ++
   jq "insertBeforeStepIndex" ++ ":1}]}")%string |>.

Definition removal : JobInfo :=
  job_info_zero <| job_ID := 9 |> <| job_TaskID := "t1"%string |> <| job_Type := JobCleanupResources |>
    <| job_ServiceName := "old"%string |> <| job_Status := StatusQueued |>
    <| job_InternalInfo := ("{" ++ jq "source" ++ ":" ++ jq JobInfoSourceVersionUpdateRemove ++ "}")%string |>.

Definition remove_database : Database := deploy_database <| db_jobs := {[9 := removal]} |>.

Definition two_groups : list (list StepExecution) :=
  [[component_execution "deploy" WorkflowModeStepByStep ∅]; [component_execution "notify" WorkflowModeStepByStep ∅]].

(** The removed component is cleaned up between the two steps. *)
Lemma cleanups_precede_their_step_witness : exists cleanups job,
  fst (buildPersistedCleanupExecutions (fun _ => ""%string) no_time remove_task 60 2 (seqw remove_database 0)) = Ok cleanups /\
  map se_Name (fst (mergeStepExecutionsWithCleanup two_groups cleanups)) =
    ["deploy"; versionUpdateCleanupStepName; "notify"]%string /\
  job_at (fst (mergeStepExecutionsWithCleanup two_groups cleanups)) 1 JobPriorityLow 0 = Some job /\
  jt_Name job = "old"%string /\ jt_Status job = StatusQueued.
Proof.
  destruct (cleanups_precede_their_step (fun _ => ""%string) no_time remove_task 60 two_groups (seqw remove_database 0)) as
    (cleanups & jobs & B & M & L).
  change (Z.of_nat (length two_groups)) with 2 in *. assert (X : exists info records,
    versionUpdateCleanupInfoFromTask no_time remove_task = Ok info /\
    fst (loadPersistedCleanupJobInfos no_time remove_task (seqw remove_database 0)) = Ok records /\
    (exists target, targets_at 2 1 (removed info) = [target] /\ ac_Name <$> vc_Component target = Some "old"%string) /\
    targets_at 2 0 (removed info) = [] /\ targets_at 2 2 (removed info) = [])
    by (eexists _, _; split; [vm_compute; reflexivity|]; split; [vm_compute; reflexivity|]; split;
        [eexists; split; reflexivity|by split]).
  destruct X as (info & records & I & R & (target & T1 & N) & T0 & T2). rewrite R in L. destruct L as (info' & I' & L).
  rewrite I in I'. injection I' as <-.
  destruct (L 0) as (h0 & P0 & F0), (L 1) as (h1 & P1 & F1), (L 2) as (h2 & P2 & F2).
  rewrite T0 in P0. rewrite T1 in P1. rewrite T2 in P2. apply Permutation_nil in P0 as ->. apply Permutation_nil in P2 as ->.
  apply Permutation_length_1_inv in P1 as ->.
  apply Forall2_nil_inv_l in F0. apply Forall2_nil_inv_l in F2. apply Forall2_cons_inv_l in F1 as (job & l & C & F1 & J1).
  apply Forall2_nil_inv_l in F1 as ->. exists cleanups, job. split; [by rewrite B|].
  assert (M' : fst (mergeStepExecutionsWithCleanup two_groups cleanups) =
    [component_execution "deploy" WorkflowModeStepByStep ∅;
     component_execution versionUpdateCleanupStepName WorkflowModeStepByStep (append_jobs JobPriorityLow [job] newJobBuckets);
     component_execution "notify" WorkflowModeStepByStep ∅]).
  { rewrite M. unfold two_groups. cbn [placed]. change (0 + 1) with 1. change (1 + 1) with 2. by rewrite F0, J1, F2. }
  rewrite M'. split; [reflexivity|]. split; [reflexivity|].
  destruct C as (c & record & Vc & Rf & Nm & _ & _ & _ & _ & St & _). rewrite Vc in N. injection N as N. split; [congruence|].
  rewrite St. destruct Rf as ((id & w1 & (es & Es & D & _) & Lk) & _).
  destruct es as [|ev es]; [|by destruct es]. cbn in D. rewrite D in Lk. cbn in Lk.
  apply lookup_singleton_Some in Lk as [_ <-]. reflexivity.
Defined.
