(* ===== verification/Locker.v ===== *)
(** The in-process locker: [pkg/apiserver/infrastructure/locker] ([options.go],
    [memory.go]) and its use by
    [pkg/apiserver/domain/service/internal/schedulelock/app_schedule_lock.go].

    Mutex objects made for one key share one lock entry through a pointer, so the
    entries live in a heap and a mutex holds an address.  Every operation runs
    under the entry's (or the locker's) Go mutex and is one atomic step; time is
    read inside it, and passes between two readings by the amount the operation
    is given.  [ctx] is [ctx.Err()] when the context is looked at. *)

From S2P Require Import Prelude GoStrings.

(** ** Options *)

Record Options := { TTL : Z; RetryDelay : Z; RetryCount : Z }.
#[export] Instance Options_settable : Settable Options :=
  fun o => Build_Options (TTL o) (RetryDelay o) (RetryCount o).

Definition DefaultTTL : Z := 30 * Second.
Definition DefaultRetryDelay : Z := 500 * Millisecond.
Definition DefaultRetryCount : Z := -1.

Definition DefaultOptions : Options :=
  {| TTL := DefaultTTL; RetryDelay := DefaultRetryDelay; RetryCount := DefaultRetryCount |}.

Definition ApplyOptions (opts : list (Options -> Options)) : Options :=
  fold_left (fun o opt => opt o) opts DefaultOptions.

Definition WithTTL (ttl : Z) (o : Options) : Options := if 0 <? ttl then o <| TTL := ttl |> else o.
Definition WithRetryCount (count : Z) (o : Options) : Options := o <| RetryCount := count |>.

(** ** State *)

Record memoryLockEntry := {
  held : bool;
  owner : string;
  expiresAt : option Z  (* [None]: the zero time *)
}.
#[export] Instance memoryLockEntry_settable : Settable memoryLockEntry :=
  fun e => Build_memoryLockEntry (held e) (owner e) (expiresAt e).

Inductive Mutex :=
  | MemoryMutex (key : string) (entry : nat) (options : Options) (ownerID : string)
  | degradedMutex (key : string) (err : error).

Record LockWorld := {
  (* MemoryLocker *)
  locks : gmap string nat;
  prefix : string;
  closed : bool;
  (* the objects it and its clients point to *)
  entries : list memoryLockEntry;
  mutexes : list Mutex;
  (* package variable and system clock *)
  ownerIDCounter : Z;
  clock : Z
}.
#[export] Instance LockWorld_settable : Settable LockWorld :=
  fun w => Build_LockWorld (locks w) (prefix w) (closed w) (entries w) (mutexes w) (ownerIDCounter w) (clock w).

Definition NewMemoryLocker (prefix : string) (counter now : Z) : LockWorld :=
  {| locks := ∅; prefix := prefix; closed := false; entries := []; mutexes := [];
     ownerIDCounter := counter; clock := now |}.

(** ** Operations *)

Definition prefixedKey (w : LockWorld) (key : string) : string :=
  if str_empty (prefix w) then key else (prefix w ++ ":" ++ key)%string.

Definition new_entry : memoryLockEntry := {| held := false; owner := ""; expiresAt := None |}.

(** The address of the new mutex object and the state after it. *)
Definition NewMutex (key : string) (opts : list (Options -> Options)) (w : LockWorld) : nat * LockWorld :=
  let address := length (mutexes w) in
  if closed w then
    (address, w <| mutexes := (mutexes w ++ [degradedMutex (prefixedKey w key) ErrLockerClosed])%list |>)
  else
    let fullKey := prefixedKey w key in
    let options := ApplyOptions opts in
    let '(entry, w) :=
      match locks w !! fullKey with
      | Some entry => (entry, w)
      | None =>
          let entry := length (entries w) in
          (entry, w <| entries := (entries w ++ [new_entry])%list |>
                    <| locks := <[ fullKey := entry ]> (locks w) |>)
      end in
    (address, w <| mutexes := (mutexes w ++ [MemoryMutex fullKey entry options ""])%list |>).

Definition Close (w : LockWorld) : LockWorld := w <| closed := true |>.

(** [atomic.AddInt64] and [fmt.Sprintf("mem-%d-%d", ...)] *)
Definition owner_id (nanos id : Z) : string :=
  ("mem-" ++ FormatInt nanos 10 ++ "-" ++ FormatInt id 10)%string.

Definition generateOwnerID (w : LockWorld) : string * LockWorld :=
  let id := i64 (ownerIDCounter w + 1) in
  (owner_id (clock w) id, w <| ownerIDCounter := id |>).

Definition tick (d : Z) (w : LockWorld) : LockWorld := w <| clock := clock w + Z.max 0 d |>.

(** The two objects an operation on mutex [m] works on. *)
Definition mutex_at (w : LockWorld) (m : nat) : option (string * nat * Options * string * memoryLockEntry) :=
  match mutexes w !! m with
  | Some (MemoryMutex key entry options ownerID) =>
      match entries w !! entry with
      | Some e => Some (key, entry, options, ownerID, e)
      | None => None
      end
  | _ => None
  end.

Definition expired (e : memoryLockEntry) (now : Z) : bool :=
  held e && match expiresAt e with Some t => t <? now | None => false end.

(** [d] is the time between the two readings of the clock. *)
Definition tryAcquire (d : Z) (m : nat) (w : LockWorld) : bool * LockWorld :=
  match mutex_at w m with
  | Some (key, entry, options, _, e) =>
      let now := clock w in
      let e := if expired e now then e <| held := false |> <| owner := "" |> else e in
      let w := w <| entries := <[ entry := e ]> (entries w) |> in
      if held e then (false, w)
      else
        let '(ownerID, w) := generateOwnerID (tick d w) in
        let e := e <| held := true |> <| owner := ownerID |> <| expiresAt := Some (now + TTL options) |> in
        (true, w <| mutexes := <[ m := MemoryMutex key entry options ownerID ]> (mutexes w) |>
                 <| entries := <[ entry := e ]> (entries w) |>)
  | None => (false, w)
  end.

Definition degraded (w : LockWorld) (m : nat) : option error :=
  match mutexes w !! m with Some (degradedMutex _ err) => Some err | _ => None end.

Definition TryLock (ctx : option error) (d : Z) (m : nat) (w : LockWorld) : result unit * LockWorld :=
  match degraded w m with
  | Some err => (Err err, w)
  | None =>
      match ctx with
      | Some err => (Err err, w)
      | None =>
          let '(ok, w) := tryAcquire d m w in
          (if ok then Ok tt else Err ErrLockAcquireFailed, w)
      end
  end.

(** [!e.held || e.owner != m.ownerID || !time.Now().Before(e.expiresAt)] *)
Definition not_held (e : memoryLockEntry) (ownerID : string) (now : Z) : bool :=
  negb (held e) || negb (owner e =? ownerID)%string ||
  negb (match expiresAt e with Some t => now <? t | None => false end).

(** An operation of the holder: [f] gets the entry and the options. *)
Definition as_holder (f : memoryLockEntry -> Options -> memoryLockEntry) (ctx : option error)
    (d : Z) (m : nat) (w : LockWorld) : result unit * LockWorld :=
  match degraded w m with
  | Some err => (Err err, w)
  | None =>
      match ctx with
      | Some err => (Err err, w)
      | None =>
          match mutex_at w m with
          | Some (_, entry, options, ownerID, e) =>
              if not_held e ownerID (clock w) then (Err ErrLockNotHeld, w)
              else let w := tick d w in
                   (Ok tt, w <| entries := <[ entry := f e options ]> (entries w) |>)
          | None => (Err ErrLockNotHeld, w)
          end
      end
  end.

Definition Unlock (ctx : option error) (m : nat) (w : LockWorld) : result unit * LockWorld :=
  as_holder (fun e _ => e <| held := false |> <| owner := "" |> <| expiresAt := None |>) ctx 0 m w.

(** The new expiry is counted from the second reading of the clock. *)
Definition Extend (ctx : option error) (d : Z) (m : nat) (w : LockWorld) : result unit * LockWorld :=
  as_holder (fun e options => e <| expiresAt := Some (clock (tick d w) + TTL options) |>) ctx d m w.

(** [MemoryMutex.Lock]: before each attempt and while waiting the context is looked
    at ([ctx i]); between two attempts other goroutines run and time passes
    ([env i]).  A negative retry count means to wait for ever: [None] is a call
    that has not returned within the given number of attempts. *)
Fixpoint lock_loop (fuel : nat) (retryCount attempts : Z) (ctx : nat -> option error * option error)
    (env : nat -> LockWorld -> LockWorld) (i : nat) (m : nat) (w : LockWorld) : option (result unit * LockWorld) :=
  match fuel with
  | O => None
  | S n =>
      match fst (ctx i) with
      | Some err => Some (Err err, w)
      | None =>
          let '(ok, w) := tryAcquire 0 m w in
          if ok then Some (Ok tt, w)
          else
            let attempts := if 0 <=? retryCount then attempts + 1 else attempts in
            if (0 <=? retryCount) && (retryCount <? attempts) then Some (Err ErrLockAcquireFailed, w)
            else
              match snd (ctx i) with
              | Some err => Some (Err err, w)
              | None => lock_loop n retryCount attempts ctx env (S i) m (env i w)
              end
      end
  end.

Definition Lock (fuel : nat) (ctx : nat -> option error * option error) (env : nat -> LockWorld -> LockWorld)
    (m : nat) (w : LockWorld) : option (result unit * LockWorld) :=
  match mutexes w !! m with
  | Some (MemoryMutex _ _ options _) => lock_loop fuel (RetryCount options) 0 ctx env 0 m w
  | Some (degradedMutex _ err) => Some (Err err, w)
  | None => None
  end.

(** ** The application schedule lock *)

Definition appScheduleLockKey : string := "app-schedule".
Definition appScheduleLockTTL : Z := 2 * Minute.

Definition mapAppScheduleLockError (err : error) : error :=
  if errors_is ErrLockAcquireFailed err || errors_is ErrLockAlreadyHeld err then ErrApplicationOperationLocked
  else if errors_is ContextCanceled err || errors_is DeadlineExceeded err then err
  else ErrDistributedLockUnavailable.

(** [WithAppScheduleLock] with [autoExtend] off: [d] is the time the acquisition
    takes and [unlockCtx] the state of the unlock's own context. *)
Definition WithAppScheduleLock {A} (provided : bool) (ctx unlockCtx : option error) (d : Z)
    (appID : string) (fn : LockWorld -> result A * LockWorld) (w : LockWorld) : result A * LockWorld :=
  let appID := ToLower (TrimSpace appID) in
  if str_empty appID then (Err ErrApplicationNotExist, w)
  else if negb provided then (Err ErrDistributedLockUnavailable, w)
  else
    let key := (appScheduleLockKey ++ ":" ++ appID)%string in
    let '(mutex, w) := NewMutex key [WithTTL appScheduleLockTTL; WithRetryCount 0] w in
    match TryLock ctx d mutex w with
    | (Err err, w) => (Err (mapAppScheduleLockError err), w)
    | (Ok _, w) =>
        let '(r, w) := fn w in
        let '(_, w) := Unlock unlockCtx mutex w in
        (r, w)
    end.

(** ** Histories *)

Inductive op :=
  | OpNew (key : string) (opts : list (Options -> Options))
  | OpClose
  | OpTryLock (ctx : option error) (d : Z) (m : nat)
  | OpUnlock (ctx : option error) (m : nat)
  | OpExtend (ctx : option error) (d : Z) (m : nat)
  | OpTime (d : Z).

Definition exec (o : op) (w : LockWorld) : LockWorld :=
  match o with
  | OpNew key opts => snd (NewMutex key opts w)
  | OpClose => Close w
  | OpTryLock ctx d m => snd (TryLock ctx d m w)
  | OpUnlock ctx m => snd (Unlock ctx m w)
  | OpExtend ctx d m => snd (Extend ctx d m w)
  | OpTime d => tick d w
  end.

Fixpoint run (l : list op) (w : LockWorld) : LockWorld :=
  match l with [] => w | o :: l => run l (exec o w) end.

(** ** The invariant *)

Definition owner_of (w : LockWorld) (m : nat) : option string :=
  match mutexes w !! m with Some (MemoryMutex _ _ _ o) => Some o | _ => None end.

(** An owner ID was generated at some time with a number the counter has passed. *)
Definition issued (w : LockWorld) (o : string) (n : Z) : Prop :=
  exists t, o = owner_id t n /\ 0 < n <= ownerIDCounter w.

Record wf (w : LockWorld) : Prop := {
  wf_entry : forall k p, locks w !! k = Some p -> (p < length (entries w))%nat;
  wf_inj : forall k k' p, locks w !! k = Some p -> locks w !! k' = Some p -> k = k';
  wf_shared : forall m k p o id, mutexes w !! m = Some (MemoryMutex k p o id) -> locks w !! k = Some p;
  wf_owner : forall p e, entries w !! p = Some e -> held e = true -> owner e <> ""%string;
  wf_issued : forall m o, owner_of w m = Some o -> o = ""%string \/ exists n, issued w o n;
  wf_distinct : forall m m' o, owner_of w m = Some o -> owner_of w m' = Some o ->
    o = ""%string \/ m = m'
}.

(** Mutex [m] holds the lock of a key at the current time. *)
Definition holding (w : LockWorld) (m : nat) (key : string) : Prop :=
  exists p o id e t, mutexes w !! m = Some (MemoryMutex key p o id) /\ entries w !! p = Some e /\
    held e = true /\ owner e = id /\ expiresAt e = Some t /\ clock w < t.

Lemma owner_id_inj t n t' n' :
  0 < n <= max_int64 -> 0 < n' <= max_int64 -> owner_id t n = owner_id t' n' -> n = n'.
Proof.
  intros H H' E. unfold owner_id, FormatInt in E.
  rewrite (proj2 (Z.ltb_ge n 0)), (proj2 (Z.ltb_ge n' 0)) in E by lia.
  apply (f_equal explode) in E. rewrite !explode_app in E. rewrite !app_assoc in E.
  change (explode "-") with ["-"%char] in E. rewrite <- !app_assoc in E. cbn [app] in E.
  rewrite !app_assoc in E.
  assert (D : forall z, 0 < z -> existsb is_dash (explode (FormatUint z 10)) = false).
  { intros z Z. unfold FormatUint. rewrite explode_implode. apply format_decimal_no_dash; [lia|done]. }
  apply last_segment_inj in E; [|apply D; lia..].
  apply (f_equal implode) in E. rewrite !implode_explode in E.
  unfold max_int64 in *. apply FormatUint_decimal_inj in E; unfold two64; lia.
Qed.

Lemma owner_id_nonempty t n : owner_id t n <> ""%string.
Proof. discriminate. Qed.

Lemma mutex_at_Some w m key p o id e :
  mutex_at w m = Some (key, p, o, id, e) <->
  mutexes w !! m = Some (MemoryMutex key p o id) /\ entries w !! p = Some e.
Proof.
  unfold mutex_at. destruct (mutexes w !! m) as [[k q o' id'|]|]; [|naive_solver..].
  destruct (entries w !! q) eqn:E; naive_solver.
Qed.

Lemma owner_of_Some w m id :
  owner_of w m = Some id <-> exists k p o, mutexes w !! m = Some (MemoryMutex k p o id).
Proof. unfold owner_of. destruct (mutexes w !! m) as [[]|]; naive_solver. Qed.

(** *** The state changes operations are made of *)

Lemma wf_clock w t : wf w -> wf (w <| clock := t |>).
Proof. by intros []. Qed.

Lemma wf_closed w b : wf w -> wf (w <| closed := b |>).
Proof. by intros []. Qed.

Lemma wf_set_entry w p e :
  wf w -> (held e = true -> owner e <> ""%string) -> wf (w <| entries := <[ p := e ]> (entries w) |>).
Proof.
  intros [E I S O Iss D] H. split; try assumption.
  - intros k q L. cbn. rewrite length_insert. by eapply E.
  - intros q e' L Hd. cbn in L. apply list_lookup_insert_Some in L as [(_ & -> & _)|[_ L]]; eauto.
Qed.

Lemma wf_new_entry w key :
  wf w -> locks w !! key = None ->
  wf (w <| entries := (entries w ++ [new_entry])%list |>
        <| locks := <[ key := length (entries w) ]> (locks w) |>).
Proof.
  intros [E I S O Iss D] N. split; try assumption; cbn.
  - intros k p. rewrite length_app, lookup_insert_Some. cbn. intros [[_ <-]|[_ L]]; [lia|].
    apply E in L. lia.
  - intros k k' p. rewrite !lookup_insert_Some.
    intros [[<- <-]|[_ L]] [[<- L']|[_ L']]; try congruence.
    + apply E in L'. lia.
    + subst. apply E in L. lia.
    + by apply (I _ _ p).
  - intros m k p o id L. rewrite lookup_insert_ne; [by eapply S|]. intros <-. apply S in L. congruence.
  - intros p e L Hd. apply lookup_app_Some in L as [L|[_ L]]; [by eapply O|].
    apply list_lookup_singleton_Some in L as [_ <-]. discriminate.
Qed.

Lemma owner_of_new w mu m id :
  owner_of (w <| mutexes := (mutexes w ++ [mu])%list |>) m = Some id ->
  owner_of w m = Some id \/ exists k p o, mu = MemoryMutex k p o id.
Proof.
  rewrite !owner_of_Some. cbn. intros (k & p & o & L).
  apply lookup_app_Some in L as [L|[_ L]]; [eauto|].
  apply list_lookup_singleton_Some in L as [_ ->]. eauto.
Qed.

Lemma wf_new_mutex w mu :
  wf w -> (forall k p o id, mu = MemoryMutex k p o id -> id = ""%string /\ locks w !! k = Some p) ->
  wf (w <| mutexes := (mutexes w ++ [mu])%list |>).
Proof.
  intros [E I S O Iss D] H. split; try assumption.
  - intros m k p o id L. cbn in *. apply lookup_app_Some in L as [L|[_ L]]; [by eapply S|].
    apply list_lookup_singleton_Some in L as [_ Eq]. by apply (H k p o id).
  - intros m id [L|(k & p & o & ->)]%owner_of_new; [|left; by apply (H k p o id)].
    by apply (Iss m).
  - intros m m' id [L|(k & p & o & ->)]%owner_of_new; [|left; by apply (H k p o id)].
    intros [L'|(k & p & o & ->)]%owner_of_new; [|left; by apply (H k p o id)]. by apply D.
Qed.

Lemma wf_acquired w m key p o id t :
  wf w -> 0 <= ownerIDCounter w < max_int64 -> mutexes w !! m = Some (MemoryMutex key p o id) ->
  let n := ownerIDCounter w + 1 in
  wf (w <| ownerIDCounter := n |>
        <| mutexes := <[ m := MemoryMutex key p o (owner_id t n) ]> (mutexes w) |>).
Proof.
  intros [E I S O Iss D] B L n. set (w' := _ <| mutexes := _ |>).
  assert (Own : forall m' o', owner_of w' m' = Some o' ->
    (m' = m /\ o' = owner_id t n) \/ (m' <> m /\ owner_of w m' = Some o')).
  { intros m' o'. rewrite !owner_of_Some. cbn. intros (k & q & oo & L').
    apply list_lookup_insert_Some in L' as [(<- & [= <- <- <- <-] & _)|[N L']]; [auto|]. right. eauto. }
  assert (Fresh : forall m', owner_of w m' <> Some (owner_id t n)).
  { intros m' L'. destruct (Iss _ _ L') as [?|(n' & t' & Eq & B')]; [by apply (owner_id_nonempty t n)|].
    apply owner_id_inj in Eq; lia. }
  split; try assumption.
  - intros m' k q oo i' L'. cbn in L'. apply list_lookup_insert_Some in L' as [(-> & [= <- <- <- <-] & _)|[_ L']].
    + by eapply (S m').
    + by eapply S.
  - intros m' o' [[-> ->]|[_ L']]%Own.
    + right. exists n, t. cbn. split; [done|lia].
    + destruct (Iss _ _ L') as [->|(n' & t' & -> & B')]; [by left|right].
      exists n', t'. cbn. split; [done|lia].
  - intros m1 m2 o' [[-> ->]|[N1 L1]]%Own [[-> E2]|[N2 L2]]%Own; auto.
    + by apply Fresh in L2.
    + subst. by apply Fresh in L1.
Qed.

(** *** Every operation preserves the invariant *)

Lemma wf_NewMutex key opts w : wf w -> wf (snd (NewMutex key opts w)).
Proof.
  intros W. unfold NewMutex. destruct (closed w); [by apply wf_new_mutex|].
  destruct (locks w !! prefixedKey w key) as [p|] eqn:L.
  - apply wf_new_mutex; [done|]. by intros ? ? ? ? [= <- <- <- <-].
  - apply wf_new_mutex; [by apply wf_new_entry|]. intros ? ? ? ? [= <- <- <- <-].
    split; [done|]. apply lookup_insert_eq.
Qed.

Lemma NewMutex_counter key opts w : ownerIDCounter (snd (NewMutex key opts w)) = ownerIDCounter w.
Proof. unfold NewMutex. by destruct (closed w), (locks w !! prefixedKey w key). Qed.

(** What an acquisition does, with the objects it works on at hand. *)
Definition acquired (d : Z) (m : nat) (key : string) (p : nat) (o : Options) (e : memoryLockEntry)
    (w : LockWorld) : LockWorld :=
  let id := owner_id (clock w + Z.max 0 d) (i64 (ownerIDCounter w + 1)) in
  w <| clock := clock w + Z.max 0 d |> <| ownerIDCounter := i64 (ownerIDCounter w + 1) |>
    <| mutexes := <[ m := MemoryMutex key p o id ]> (mutexes w) |>
    <| entries := <[ p := {| held := true; owner := id; expiresAt := Some (clock w + TTL o) |} ]> (entries w) |>.

(** The lock of an entry can be taken. *)
Definition free (e : memoryLockEntry) (now : Z) : bool := negb (held e) || expired e now.

Lemma tryAcquire_eq d m w key p o id e :
  mutex_at w m = Some (key, p, o, id, e) ->
  tryAcquire d m w = if free e (clock w) then (true, acquired d m key p o e w) else (false, w).
Proof.
  intros M. pose proof (proj1 (mutex_at_Some _ _ _ _ _ _ _) M) as [_ L].
  unfold tryAcquire, free. rewrite M. destruct (expired e (clock w)) eqn:X; cbn.
  - rewrite orb_true_r. unfold acquired. cbn. by rewrite list_insert_insert_eq.
  - rewrite orb_false_r. rewrite list_insert_id by done.
    assert (Id : w <| entries := entries w |> = w) by by destruct w. rewrite Id.
    by destruct (held e) eqn:H.
Qed.

Lemma tryAcquire_none d m w : mutex_at w m = None -> tryAcquire d m w = (false, w).
Proof. intros M. unfold tryAcquire. by rewrite M. Qed.

Lemma wf_acquired_all d m key p o id e w :
  wf w -> 0 <= ownerIDCounter w < max_int64 -> mutex_at w m = Some (key, p, o, id, e) ->
  wf (acquired d m key p o e w) /\ ownerIDCounter (acquired d m key p o e w) = ownerIDCounter w + 1.
Proof.
  intros W B [M L]%mutex_at_Some.
  assert (I : i64 (ownerIDCounter w + 1) = ownerIDCounter w + 1)
    by (apply i64_small; unfold in_int64, min_int64, max_int64 in *; lia).
  unfold acquired. rewrite I. split; [|done].
  pose proof (wf_acquired (w <| clock := clock w + Z.max 0 d |>) m key p o id (clock w + Z.max 0 d)
    (wf_clock _ _ W) B M) as W'.
  apply (wf_set_entry _ p _ W'). intros _. apply owner_id_nonempty.
Qed.

Lemma wf_tryAcquire d m w :
  wf w -> 0 <= ownerIDCounter w < max_int64 ->
  let w' := snd (tryAcquire d m w) in
  wf w' /\ ownerIDCounter w <= ownerIDCounter w' <= ownerIDCounter w + 1.
Proof.
  intros W B. destruct (mutex_at w m) as [[[[[key p] o] id] e]|] eqn:M.
  - rewrite (tryAcquire_eq _ _ _ _ _ _ _ _ M). destruct (free e (clock w)); cbn [snd]; [|split; [done|lia]].
    pose proof (wf_acquired_all d _ _ _ _ _ _ _ W B M) as [? ->]. split; [done|lia].
  - rewrite tryAcquire_none by done. cbn. split; [done|lia].
Qed.

Lemma wf_as_holder f ctx d m w :
  wf w -> (forall e o, held (f e o) = true -> held e = true /\ owner (f e o) = owner e) ->
  let w' := snd (as_holder f ctx d m w) in wf w' /\ ownerIDCounter w' = ownerIDCounter w.
Proof.
  intros W F. unfold as_holder. destruct (degraded w m); [done|]. destruct ctx; [done|].
  destruct (mutex_at w m) as [[[[[key p] o] id] e]|] eqn:M; [|done].
  destruct (not_held e id (clock w)); [done|]. cbn. split; [|done].
  apply (wf_set_entry (tick d w) p (f e o)); [by apply wf_clock|].
  intros [H ->]%F. apply mutex_at_Some in M as [_ L]. by apply (wf_owner _ W p e).
Qed.

Lemma wf_exec o w :
  wf w -> 0 <= ownerIDCounter w < max_int64 ->
  wf (exec o w) /\ ownerIDCounter w <= ownerIDCounter (exec o w) <= ownerIDCounter w + 1.
Proof.
  intros W B. destruct o as [key opts| |ctx d m|ctx m|ctx d m|d]; cbn [exec].
  - rewrite NewMutex_counter. split; [by apply wf_NewMutex|lia].
  - split; [by apply wf_closed|cbn; lia].
  - unfold TryLock. destruct (degraded w m); [split; [done|cbn; lia]|].
    destruct ctx; [split; [done|cbn; lia]|].
    pose proof (wf_tryAcquire d m w W B). by destruct (tryAcquire d m w).
  - unfold Unlock. destruct (wf_as_holder (fun e _ => e <| held := false |> <| owner := "" |> <| expiresAt := None |>)
      ctx 0 m w W) as [H ->]; [done|]. split; [done|lia].
  - unfold Extend. destruct (wf_as_holder (fun e o => e <| expiresAt := Some (clock (tick d w) + TTL o) |>)
      ctx d m w W) as [H ->]; [done|]. split; [done|lia].
  - split; [by apply wf_clock|cbn; lia].
Qed.

Lemma wf_run l w :
  wf w -> 0 <= ownerIDCounter w -> ownerIDCounter w + Z.of_nat (length l) <= max_int64 -> wf (run l w).
Proof.
  revert w. induction l as [|o l IH]; intros w W B C; [done|]. cbn [length run] in *.
  destruct (wf_exec o w W) as [W' [B1 B2]]; [lia|]. apply IH; [done|lia..].
Qed.

Lemma wf_init p c now : wf (NewMemoryLocker p c now).
Proof. by split; cbn; intros; try done. Qed.

(** ** Leases *)

(** Mutex [m] has taken the lock of a key until [t]. *)
Definition lease (w : LockWorld) (m : nat) (key : string) (t : Z) : Prop :=
  exists p o e, mutexes w !! m = Some (MemoryMutex key p o (owner e)) /\ entries w !! p = Some e /\
    held e = true /\ expiresAt e = Some t.

Lemma holding_lease w m key : holding w m key <-> exists t, lease w m key t /\ clock w < t.
Proof.
  split.
  - intros (p & o & id & e & t & M & L & H & <- & X & C). exists t. split; [|done]. by exists p, o, e.
  - intros (t & (p & o & e & M & L & H & X) & C). by exists p, o, (owner e), e, t.
Qed.

(** Mutexes of one key share the entry. *)
Lemma same_entry w m m' key p p' o o' id id' :
  wf w -> mutexes w !! m = Some (MemoryMutex key p o id) ->
  mutexes w !! m' = Some (MemoryMutex key p' o' id') -> p = p'.
Proof. intros W M M'. apply (wf_shared _ W) in M, M'. congruence. Qed.

Lemma lease_unique w m m' key t t' :
  wf w -> lease w m key t -> lease w m' key t' -> m = m' /\ t = t'.
Proof.
  intros W (p & o & e & M & L & H & X) (p' & o' & e' & M' & L' & H' & X').
  assert (p = p') as <- by by eapply same_entry. simplify_eq. split; [|done].
  destruct (wf_distinct _ W m m' (owner e)) as [E|E]; [apply owner_of_Some; eauto..| |done].
  by apply (wf_owner _ W) in L.
Qed.

(** An entry that is leased is not free before the lease ends, and no other mutex
    of the key passes for its holder. *)
Lemma lease_excludes w m key t m' p o id e :
  wf w -> lease w m key t -> clock w < t -> mutex_at w m' = Some (key, p, o, id, e) ->
  free e (clock w) = false /\ (m' <> m -> not_held e id (clock w) = true).
Proof.
  intros W Ls C M'. pose proof M' as N%mutex_at_Some. destruct N as [N Le].
  pose proof Ls as (p0 & o0 & e0 & M & L & H & X).
  assert (p0 = p) as -> by by eapply same_entry. simplify_eq. split.
  - unfold free, expired. rewrite H, X. cbn. apply Z.ltb_ge. lia.
  - intros Ne. unfold not_held. rewrite H. cbn.
    destruct (owner e =? id)%string eqn:E; [|done]. bool_to_prop. subst id.
    destruct Ne. apply (lease_unique w m' m key t t W); [|done]. by exists p, o, e.
Qed.

(** Operations of other mutexes, even of the same key, leave a lease alone. *)
Definition acts_as (m : nat) (o : op) : bool :=
  match o with OpUnlock _ m' | OpExtend _ _ m' => (m' =? m)%nat | _ => false end.

Lemma lease_entries w w' m key t p e :
  lease w m key t -> mutexes w' = mutexes w -> entries w' = <[ p := e ]> (entries w) ->
  (forall q o id, mutexes w !! m = Some (MemoryMutex key q o id) -> q <> p) -> lease w' m key t.
Proof.
  intros (q & o & e' & M & L & H & X) Em Ee N. exists q, o, e'. rewrite Em, Ee.
  split; [done|]. rewrite list_lookup_insert_ne; [done|]. intros ->. by apply (N q o (owner e')).
Qed.

Lemma lease_as_holder f ctx d m m' key t w :
  wf w -> lease w m key t -> clock w < t -> m' <> m -> lease (snd (as_holder f ctx d m' w)) m key t.
Proof.
  intros W Ls C N. unfold as_holder. destruct (degraded w m'); [done|]. destruct ctx; [done|].
  destruct (mutex_at w m') as [[[[[k p] o] id] e]|] eqn:M; [|done].
  destruct (not_held e id (clock w)) eqn:NH; [done|]. cbn.
  eapply lease_entries; [exact Ls|done..|]. intros q o' id' M' ->. pose proof M as [Mm _]%mutex_at_Some.
  assert (k = key) as -> by (apply (wf_inj _ W _ _ p); by eapply (wf_shared _ W)).
  destruct (lease_excludes _ _ _ _ _ _ _ _ _ W Ls C M) as [_ X]. rewrite X in NH; done.
Qed.

Lemma lease_acquired d m m' key t w p k o id e :
  wf w -> lease w m key t -> clock w < t -> mutex_at w m' = Some (k, p, o, id, e) ->
  free e (clock w) = true -> lease (acquired d m' k p o e w) m key t.
Proof.
  intros W Ls C M F. pose proof M as [Mm _]%mutex_at_Some.
  pose proof Ls as (q & o' & e' & M' & L & H & X).
  assert (Nq : q <> p).
  { intros ->. assert (k = key) as -> by (apply (wf_inj _ W _ _ p); by eapply (wf_shared _ W)).
    destruct (lease_excludes _ _ _ _ _ _ _ _ _ W Ls C M) as [Y _]. congruence. }
  exists q, o', e'. unfold acquired. cbn. rewrite !list_lookup_insert_ne; [done|congruence|].
  intros ->. congruence.
Qed.

Lemma lease_NewMutex key opts m k t w :
  wf w -> lease w m k t -> lease (snd (NewMutex key opts w)) m k t.
Proof.
  intros W (p & o & e & M & L & H & X). exists p, o, e. unfold NewMutex.
  destruct (closed w), (locks w !! prefixedKey w key); cbn;
    rewrite ?(lookup_app_l_Some _ _ _ _ M), ?(lookup_app_l_Some _ _ _ _ L); done.
Qed.

Lemma lease_exec o m key t w :
  wf w -> lease w m key t -> clock w < t -> acts_as m o = false -> lease (exec o w) m key t.
Proof.
  intros W Ls C A. destruct o as [k opts| |ctx d m'|ctx m'|ctx d m'|d]; cbn [exec acts_as] in *.
  - by apply lease_NewMutex.
  - exact Ls.
  - unfold TryLock. destruct (degraded w m'); [exact Ls|]. destruct ctx; [exact Ls|].
    destruct (mutex_at w m') as [[[[[k p] o] id] e]|] eqn:M.
    + rewrite (tryAcquire_eq _ _ _ _ _ _ _ _ M). destruct (free e (clock w)) eqn:F; [|exact Ls].
      by eapply lease_acquired.
    + rewrite tryAcquire_none by done. exact Ls.
  - apply lease_as_holder; [done..|]. by apply Nat.eqb_neq.
  - apply lease_as_holder; [done..|]. by apply Nat.eqb_neq.
  - exact Ls.
Qed.

Lemma memory_not_degraded w m key p o id e :
  mutex_at w m = Some (key, p, o, id, e) -> degraded w m = None.
Proof. intros [M _]%mutex_at_Some. unfold degraded. by rewrite M. Qed.

(** C37: mutual exclusion of the in-process locker.  In every state reached by any
    history of operations on any number of mutexes (one counter overflow apart), at
    most one mutex holds the lock of a key.  While it does, no operation of another
    mutex changes its lease, an attempt to lock the key by any mutex fails, and
    unlocking or extending by another mutex is refused. *)
Theorem locker_mutual_exclusion p now l w m key :
  Z.of_nat (length l) <= max_int64 -> w = run l (NewMemoryLocker p 0 now) -> holding w m key ->
  (forall m', holding w m' key -> m' = m) /\
  (forall o t, lease w m key t -> acts_as m o = false -> lease (exec o w) m key t) /\
  (forall m' e q o id d, mutex_at w m' = Some (key, q, o, id, e) ->
     TryLock None d m' w = (Err ErrLockAcquireFailed, w) /\
     (m' <> m -> Unlock None m' w = (Err ErrLockNotHeld, w) /\ Extend None d m' w = (Err ErrLockNotHeld, w))).
Proof.
  intros Len -> Hold. assert (W : wf (run l (NewMemoryLocker p 0 now))).
  { apply wf_run; [apply wf_init|cbn; lia..]. }
  set (w := run _ _) in *. clearbody w. clear Len.
  apply holding_lease in Hold as (t & Ls & C). split; [|split].
  - intros m' (t' & Ls' & _)%holding_lease. by apply (lease_unique w m' m key t' t).
  - intros o t' Ls'. assert (t' = t) as -> by by apply (lease_unique w m m key t' t). by apply lease_exec.
  - intros m' e q o id d M. destruct (lease_excludes _ _ _ _ _ _ _ _ _ W Ls C M) as [F N].
    unfold TryLock, Unlock, Extend, as_holder. rewrite (memory_not_degraded _ _ _ _ _ _ _ M), M.
    rewrite (tryAcquire_eq _ _ _ _ _ _ _ _ M), F. split; [done|]. intros Ne. by rewrite N.
Qed.

(** ** Taking and giving back *)

Lemma acquired_lease d m key p o id e w :
  mutex_at w m = Some (key, p, o, id, e) ->
  lease (acquired d m key p o e w) m key (clock w + TTL o).
Proof.
  intros [M L]%mutex_at_Some. apply lookup_lt_Some in M, L. unfold acquired, lease. cbn.
  eexists p, o, _. split; [|split; [by apply list_lookup_insert_eq|done]].
  by rewrite list_lookup_insert_eq.
Qed.

Lemma lease_mutex_at w m key t :
  lease w m key t -> exists p o e, mutex_at w m = Some (key, p, o, owner e, e) /\
    entries w !! p = Some e /\ held e = true /\ expiresAt e = Some t.
Proof. intros (p & o & e & M & L & H & X). exists p, o, e. split; [|done]. by apply mutex_at_Some. Qed.

Lemma lease_entry w m key t m' p o id e :
  wf w -> lease w m key t -> mutex_at w m' = Some (key, p, o, id, e) ->
  held e = true /\ expiresAt e = Some t.
Proof.
  intros W (p0 & o0 & e0 & M & L & H & X) [N Le]%mutex_at_Some.
  assert (p0 = p) as -> by by eapply same_entry. by simplify_eq.
Qed.

(** What the holder leaves behind. *)
Lemma unlock_holder w m key t :
  lease w m key t -> clock w < t ->
  exists p o e, mutexes w !! m = Some (MemoryMutex key p o (owner e)) /\ entries w !! p = Some e /\
    Unlock None m w = (Ok tt, w <| clock := clock w + Z.max 0 0 |> <| entries := <[ p := new_entry ]> (entries w) |>).
Proof.
  intros (p & o & e & M & L & H & X)%lease_mutex_at C. exists p, o, e.
  pose proof M as [Mm _]%mutex_at_Some. split; [done|]. split; [done|].
  unfold Unlock, as_holder. rewrite (memory_not_degraded _ _ _ _ _ _ _ M), M. unfold not_held.
  rewrite H, X, String.eqb_refl. cbn. by rewrite (proj2 (Z.ltb_lt _ _) C).
Qed.

Lemma unlock_frees w m key t m' p o id e :
  wf w -> lease w m key t -> clock w < t ->
  mutex_at (snd (Unlock None m w)) m' = Some (key, p, o, id, e) -> free e (clock w) = true.
Proof.
  intros W Ls C. destruct (unlock_holder _ _ _ _ Ls C) as (q & o' & e' & M & L & ->).
  cbn [snd]. intros [N Le]%mutex_at_Some. cbn in N, Le.
  assert (q = p) as -> by by eapply same_entry.
  rewrite list_lookup_insert_eq in Le by by eapply lookup_lt_Some. by injection Le as <-.
Qed.

Definition reachable (w : LockWorld) : Prop :=
  exists p now l, Z.of_nat (length l) <= max_int64 /\ w = run l (NewMemoryLocker p 0 now).

Lemma reachable_wf w : reachable w -> wf w.
Proof. intros (p & now & l & Len & ->). apply wf_run; [apply wf_init|cbn; lia..]. Qed.

(** The lock is handed over.  In a reachable state an attempt succeeds exactly
    when the lock was never taken, given back, or its lease has ended; then the
    mutex holds it for its TTL.  A holder can give it back before its lease ends,
    and afterwards, as after a lease that ended, every mutex of the key can take it. *)
Theorem lock_handover w m key p o id e d :
  reachable w -> mutex_at w m = Some (key, p, o, id, e) ->
  (fst (TryLock None d m w) = Ok tt <-> free e (clock w) = true) /\
  (free e (clock w) = true -> lease (snd (TryLock None d m w)) m key (clock w + TTL o)) /\
  (forall t, lease w m key t -> clock w < t -> fst (Unlock None m w) = Ok tt /\
     forall m' p' o' id' e', mutex_at (snd (Unlock None m w)) m' = Some (key, p', o', id', e') ->
       free e' (clock w) = true) /\
  (forall m' t, lease w m' key t -> t < clock w -> free e (clock w) = true).
Proof.
  intros W%reachable_wf M. unfold TryLock.
  rewrite (memory_not_degraded _ _ _ _ _ _ _ M), (tryAcquire_eq _ _ _ _ _ _ _ _ M).
  split; [by destruct (free e (clock w))|]. split; [|split].
  - intros ->. by eapply acquired_lease.
  - intros t Ls C. split; [|intros; by eapply unlock_frees].
    destruct (unlock_holder _ _ _ _ Ls C) as (? & ? & ? & _ & _ & ->). done.
  - intros m' t Ls C. destruct (lease_entry _ _ _ _ _ _ _ _ _ W Ls M) as [H X].
    unfold free, expired. rewrite H, X. by apply Z.ltb_lt.
Qed.

(** ** Waiting for the lock *)

(** The state at attempt [i] of a call that has not returned. *)
Fixpoint before (env : nat -> LockWorld -> LockWorld) (i : nat) (w : LockWorld) : LockWorld :=
  match i with O => w | S n => env n (before env n w) end.

Lemma tryAcquire_busy d m w : fst (tryAcquire d m w) = false -> tryAcquire d m w = (false, w).
Proof.
  destruct (mutex_at w m) as [[[[[key p] o] id] e]|] eqn:M; [|by rewrite tryAcquire_none].
  rewrite (tryAcquire_eq _ _ _ _ _ _ _ _ M). by destruct (free e (clock w)).
Qed.

Section Waiting.
Variables (retries : Z) (ctx : nat -> option error * option error) (env : nat -> LockWorld -> LockWorld)
  (m : nat) (w : LockWorld).

Definition alive (i : nat) : Prop := ctx i = (None, None).
Definition busy (i : nat) : Prop := fst (tryAcquire 0 m (before env i w)) = false.

(** After [i] failed attempts the call is at attempt [i]. *)
Lemma lock_loop_advance fuel i :
  (forall j, (j < i)%nat -> alive j /\ busy j) -> (0 <= retries -> Z.of_nat i <= retries) -> (i <= fuel)%nat ->
  lock_loop fuel retries 0 ctx env 0 m w =
  lock_loop (fuel - i) retries (if 0 <=? retries then Z.of_nat i else 0) ctx env i m (before env i w).
Proof.
  induction i as [|i IH]; intros A B F.
  { rewrite Nat.sub_0_r. by destruct (0 <=? retries). }
  rewrite IH; [|intros; apply A; lia|lia|lia].
  destruct (fuel - i)%nat as [|n] eqn:E; [lia|]. replace (fuel - S i)%nat with n by lia.
  cbn [lock_loop before]. destruct (A i ltac:(lia)) as [C Bz]. unfold alive in C. rewrite C. cbn [fst snd].
  rewrite (tryAcquire_busy _ _ _ Bz). destruct (0 <=? retries) eqn:R; cbn [andb]; [|done]. bool_to_prop.
  rewrite (proj2 (Z.ltb_ge _ _)) by lia. f_equal. lia.
Qed.

Lemma lock_loop_total fuel attempts i w' :
  0 <= attempts <= retries -> (Z.to_nat (retries - attempts) < fuel)%nat ->
  lock_loop fuel retries attempts ctx env i m w' <> None.
Proof.
  revert attempts i w'. induction fuel as [|n IH]; intros a i w' B F; [lia|]. cbn [lock_loop].
  destruct (fst (ctx i)); [done|]. destruct (tryAcquire 0 m w') as [[] w1]; [done|].
  rewrite (proj2 (Z.leb_le 0 retries)) by lia. cbn [andb].
  destruct (retries <? a + 1) eqn:E; [done|]. bool_to_prop. destruct (snd (ctx i)); [done|].
  apply IH; lia.
Qed.
End Waiting.

(** waiting for the lock.  [Lock] with a retry count returns after at most one
    attempt more than the count.  As long as the context is alive it takes the lock
    at the first attempt that finds it free, and gives up exactly when all of them
    find it taken; without a retry count it waits for the first that finds it free. *)
Theorem lock_waits ctx env m w key p o id fuel n :
  mutexes w !! m = Some (MemoryMutex key p o id) ->
  (0 <= RetryCount o -> (Z.to_nat (RetryCount o) < fuel)%nat -> Lock fuel ctx env m w <> None) /\
  ((forall j, (j < n)%nat -> alive ctx j /\ busy env m w j) -> alive ctx n -> (n < fuel)%nat ->
   (0 <= RetryCount o -> Z.of_nat n <= RetryCount o) ->
   (~ busy env m w n -> Lock fuel ctx env m w = Some (Ok tt, snd (tryAcquire 0 m (before env n w)))) /\
   (busy env m w n -> RetryCount o = Z.of_nat n ->
    Lock fuel ctx env m w = Some (Err ErrLockAcquireFailed, before env n w))).
Proof.
  intros M. unfold Lock. rewrite M. split; [intros; apply lock_loop_total; lia|]. intros A C F B.
  rewrite (lock_loop_advance _ _ _ _ _ _ n) by (done || lia).
  destruct (fuel - n)%nat as [|k] eqn:E; [lia|]. cbn [lock_loop]. unfold alive in C. rewrite C. cbn [fst snd].
  split; intros Bz.
  - unfold busy in Bz. by destruct (tryAcquire 0 m (before env n w)) as [[] w'].
  - intros R. rewrite (tryAcquire_busy _ _ _ Bz), R. rewrite (proj2 (Z.leb_le 0 _)) by lia.
    cbn [andb]. by rewrite (proj2 (Z.ltb_lt _ _)) by lia.
Qed.

(** ** The application schedule lock excludes *)

Lemma clock_exec o w : clock w <= clock (exec o w).
Proof.
  destruct o as [k opts| |ctx d m|ctx m|ctx d m|d]; cbn [exec]; [..|cbn; lia].
  - unfold NewMutex. destruct (closed w), (locks w !! prefixedKey w k); cbn; lia.
  - cbn. lia.
  - unfold TryLock. destruct (degraded w m); [cbn; lia|]. destruct ctx; [cbn; lia|].
    destruct (mutex_at w m) as [[[[[key p] o] id] e]|] eqn:M; [|rewrite tryAcquire_none by done; cbn; lia].
    rewrite (tryAcquire_eq _ _ _ _ _ _ _ _ M). destruct (free e (clock w)); cbn; lia.
  - unfold Unlock, as_holder. repeat case_goal; cbn; lia.
  - unfold Extend, as_holder. repeat case_goal; cbn; lia.
Qed.

Lemma clock_run l w : clock w <= clock (run l w).
Proof.
  revert w. induction l as [|o l IH]; intros w; cbn; [lia|].
  pose proof (clock_exec o w). specialize (IH (exec o w)). lia.
Qed.

Lemma run_app l l' w : run (l ++ l') w = run l' (run l w).
Proof. revert w. induction l as [|o l IH]; intros w; cbn; [done|]. apply IH. Qed.

(** A lease outlives what others do while it lasts. *)
Lemma lease_run l w m key t :
  wf w -> 0 <= ownerIDCounter w -> ownerIDCounter w + Z.of_nat (length l) <= max_int64 ->
  lease w m key t -> (forall o, o ∈ l -> acts_as m o = false) -> clock (run l w) < t ->
  lease (run l w) m key t /\ wf (run l w).
Proof.
  revert w. induction l as [|o l IH]; intros w W B Len Ls A C; [done|]. cbn [run length] in *.
  pose proof (clock_exec o w). pose proof (clock_run l (exec o w)).
  destruct (wf_exec o w W) as [W' [B1 B2]]; [lia|]. apply IH; [done|lia|lia| | |done].
  - apply lease_exec; [done|done|lia|]. apply A. by left.
  - intros o' I. apply A. by right.
Qed.

Lemma prefix_NewMutex key opts w : prefix (snd (NewMutex key opts w)) = prefix w.
Proof. unfold NewMutex. by destruct (closed w), (locks w !! prefixedKey w key). Qed.

Lemma prefix_run l w : prefix (run l w) = prefix w.
Proof.
  revert w. induction l as [|o l IH]; intros w; cbn; [done|]. rewrite IH.
  destruct o as [k opts| |ctx d m|ctx m|ctx d m|d]; cbn [exec]; [apply prefix_NewMutex|done|..|done].
  - unfold TryLock. destruct (degraded w m); [done|]. destruct ctx; [done|].
    destruct (mutex_at w m) as [[[[[key p] o] id] e]|] eqn:M; [|by rewrite tryAcquire_none].
    rewrite (tryAcquire_eq _ _ _ _ _ _ _ _ M). by destruct (free e (clock w)).
  - unfold Unlock, as_holder. by repeat case_goal.
  - unfold Extend, as_holder. by repeat case_goal.
Qed.

(** The mutex made for a key, in the state after it was made. *)
Lemma NewMutex_at key opts w :
  wf w -> closed w = false ->
  let '(m, w') := NewMutex key opts w in
  m = length (mutexes w) /\ wf w' /\ clock w' = clock w /\ degraded w' m = None /\
  exists p e, mutex_at w' m = Some (prefixedKey w key, p, ApplyOptions opts, ""%string, e) /\
    locks w' !! prefixedKey w key = Some p /\
    match locks w !! prefixedKey w key with
    | Some q => q = p /\ entries w !! q = Some e
    | None => e = new_entry
    end.
Proof.
  intros W C. pose proof (wf_NewMutex key opts w W) as W'. unfold NewMutex in *. rewrite C in *.
  destruct (locks w !! prefixedKey w key) as [p|] eqn:L;
    (split; [done|split; [exact W'|split; [done|]]]); unfold degraded; cbn;
    rewrite list_lookup_middle by done; (split; [done|]).
  - pose proof (wf_entry _ W _ _ L) as [e Le]%lookup_lt_is_Some_2.
    exists p, e. split; [|done]. apply mutex_at_Some. cbn. by rewrite list_lookup_middle by done.
  - exists (length (entries w)), new_entry. split; [|split; [apply lookup_insert_eq|done]].
    apply mutex_at_Some. cbn. by rewrite !list_lookup_middle by done.
Qed.

(** The lock of a key is free for the next taker. *)
Definition available (w : LockWorld) (key : string) : Prop :=
  forall p e, locks w !! key = Some p -> entries w !! p = Some e -> free e (clock w) = true.

Definition schedule_key (w : LockWorld) (appID : string) : string :=
  prefixedKey w (appScheduleLockKey ++ ":" ++ ToLower (TrimSpace appID))%string.

Definition schedule_options : list (Options -> Options) :=
  [WithTTL appScheduleLockTTL; WithRetryCount 0].

Lemma schedule_lock_busy {A} u d appID (fn : LockWorld -> result A * LockWorld) w m t :
  wf w -> closed w = false -> ToLower (TrimSpace appID) <> ""%string ->
  lease w m (schedule_key w appID) t -> clock w < t ->
  WithAppScheduleLock true None u d appID fn w =
  (Err ErrApplicationOperationLocked,
   snd (NewMutex (appScheduleLockKey ++ ":" ++ ToLower (TrimSpace appID))%string schedule_options w)).
Proof.
  intros W Cl Ne Ls C. unfold WithAppScheduleLock. rewrite (proj2 (str_empty_false _) Ne). cbn [negb].
  unfold schedule_key in Ls. set (k := (appScheduleLockKey ++ ":" ++ ToLower (TrimSpace appID))%string) in *.
  fold schedule_options. pose proof (NewMutex_at k schedule_options w W Cl) as N.
  pose proof (lease_NewMutex k schedule_options _ _ _ _ W Ls) as Ls'.
  destruct (NewMutex k schedule_options w) as [mu w1]. destruct N as (_ & W1 & C1 & Dg & p & e & M & _).
  destruct (lease_excludes w1 m _ t _ _ _ _ _ W1 Ls' ltac:(cbn in *; lia) M) as [F _].
  unfold TryLock. rewrite Dg, (tryAcquire_eq _ _ _ _ _ _ _ _ M), F. done.
Qed.

(** The state an operation starts in once its lock attempt succeeded. *)
Definition schedule_started (d : Z) (appID : string) (w : LockWorld) : LockWorld :=
  let key := (appScheduleLockKey ++ ":" ++ ToLower (TrimSpace appID))%string in
  let '(m, w) := NewMutex key schedule_options w in snd (TryLock None d m w).

(** When the lock is free the operation runs under a lease of two minutes. *)
Lemma schedule_lock_runs {A} u d appID (fn : LockWorld -> result A * LockWorld) w :
  wf w -> closed w = false -> 0 <= ownerIDCounter w < max_int64 ->
  ToLower (TrimSpace appID) <> ""%string -> available w (schedule_key w appID) ->
  let w1 := schedule_started d appID w in
  wf w1 /\ prefix w1 = prefix w /\ ownerIDCounter w1 = ownerIDCounter w + 1 /\
    lease w1 (length (mutexes w)) (schedule_key w appID) (clock w + 2 * Minute) /\
    WithAppScheduleLock true None u d appID fn w =
    (fst (fn w1), snd (Unlock u (length (mutexes w)) (snd (fn w1)))).
Proof.
  intros W Cl B Ne Av. unfold WithAppScheduleLock, schedule_started.
  rewrite (proj2 (str_empty_false _) Ne). cbn [negb]. unfold schedule_key in *. set (k := (appScheduleLockKey ++ ":" ++ ToLower (TrimSpace appID))%string) in *.
  fold schedule_options. pose proof (NewMutex_at k schedule_options w W Cl) as N.
  pose proof (NewMutex_counter k schedule_options w) as Cn. pose proof (prefix_NewMutex k schedule_options w) as P.
  destruct (NewMutex k schedule_options w) as [mu w0]. cbn [snd] in *.
  destruct N as (-> & W0 & C0 & Dg & p & e & M & _ & E).
  assert (F : free e (clock w0) = true).
  { rewrite C0. destruct (locks w !! prefixedKey w k) as [q|] eqn:L; [|by subst].
    destruct E as [-> E]. by apply (Av p). }
  unfold TryLock. rewrite Dg, (tryAcquire_eq _ _ _ _ _ _ _ _ M), F. cbn [snd].
  set (w1 := acquired _ _ _ _ _ _ _).
  destruct (wf_acquired_all d _ _ _ _ _ _ _ W0 ltac:(lia) M) as [W1 Cn1].
  split; [exact W1|]. split; [exact P|]. split; [subst w1; lia|]. split.
  - rewrite <- C0. exact (acquired_lease d _ _ _ _ _ _ _ M).
  - destruct (fn w1) as [r w2]. cbn [fst snd]. by destruct (Unlock u (length (mutexes w)) w2).
Qed.

Lemma unlock_available w m key t :
  wf w -> lease w m key t -> clock w < t -> available (snd (Unlock None m w)) key.
Proof.
  intros W Ls C. destruct (unlock_holder _ _ _ _ Ls C) as (q & o & e & M & L & ->). cbn [snd].
  intros p e' K Le. cbn in K, Le. apply (wf_shared _ W) in M. assert (q = p) as -> by congruence.
  rewrite list_lookup_insert_eq in Le by by eapply lookup_lt_Some. by injection Le as <-.
Qed.

Lemma reachable_counter w : reachable w -> 0 <= ownerIDCounter w.
Proof.
  intros (p & now & l & Len & ->).
  enough (H : forall l w, wf w -> 0 <= ownerIDCounter w ->
    ownerIDCounter w + Z.of_nat (length l) <= max_int64 -> 0 <= ownerIDCounter (run l w)).
  { apply H; [apply wf_init|done|cbn; lia]. }
  clear. induction l as [|o l IH]; intros w W B Len; [done|]. cbn [run length] in *.
  destruct (wf_exec o w W) as [W' [B1 B2]]; [lia|]. apply IH; [done|lia..].
Qed.

(** Operations of one application exclude each other.  When the lock of the
    application is free the operation runs, with the lock taken for two minutes.
    Whatever others do in the meantime, a second operation of the same application
    (its identifier compared without blanks and case) that starts while the first
    runs and the two minutes are not over is refused: it has no effect but the new
    mutex object, whatever its body.  When the first ends in time and its unlock is
    not cut off, the lock is free again. *)
Theorem schedule_lock_exclusive {A B} w u d appID (fn : LockWorld -> result A * LockWorld) :
  reachable w -> closed w = false -> ownerIDCounter w < max_int64 ->
  ToLower (TrimSpace appID) <> ""%string -> available w (schedule_key w appID) ->
  let w1 := schedule_started d appID w in
  WithAppScheduleLock true None u d appID fn w =
    (fst (fn w1), snd (Unlock u (length (mutexes w)) (snd (fn w1)))) /\
    forall l, let w2 := run l w1 in
      (forall o, o ∈ l -> acts_as (length (mutexes w)) o = false) ->
      ownerIDCounter w1 + Z.of_nat (length l) <= max_int64 -> clock w2 < clock w + 2 * Minute ->
      (forall u' d' appID', closed w2 = false -> ToLower (TrimSpace appID') = ToLower (TrimSpace appID) ->
         exists key, forall fn' : LockWorld -> result B * LockWorld,
         WithAppScheduleLock true None u' d' appID' fn' w2 =
         (Err ErrApplicationOperationLocked, snd (NewMutex key schedule_options w2))) /\
      (snd (fn w1) = w2 -> u = None ->
         available (snd (WithAppScheduleLock true None u d appID fn w)) (schedule_key w appID)).
Proof.
  intros R Cl Cn Ne Av. pose proof (reachable_wf _ R) as W. pose proof (reachable_counter _ R) as C0.
  destruct (schedule_lock_runs u d appID fn w W Cl (conj C0 Cn) Ne Av) as (W1 & P & Cn1 & Ls & ->).
  split; [done|]. set (w1 := schedule_started d appID w) in *. intros l w2 Al Len C.
  destruct (lease_run l w1 _ _ _ W1 ltac:(lia) Len Ls Al C) as [Ls2 W2]. fold w2 in Ls2, W2. split.
  - intros u' d' appID' Cl2 E. eexists. intros fn'. eapply schedule_lock_busy; [done|done|by rewrite E| |exact C].
    unfold schedule_key, prefixedKey in *. subst w2. rewrite prefix_run, P, E. exact Ls2.
  - intros -> ->. cbn [snd]. by eapply unlock_available.
Qed.

(** ** Witnesses *)

Definition sample_ops : list op :=
  [OpNew "app-schedule:a" schedule_options; OpNew "app-schedule:a" schedule_options; OpTryLock None 0 0].

Definition sample_world : LockWorld := run sample_ops (NewMemoryLocker "" 0 1000).

Lemma sample_reachable : reachable sample_world.
Proof. exists ""%string, 1000, sample_ops. split; [|reflexivity]. vm_compute. discriminate. Qed.

Definition sample_entry : memoryLockEntry :=
  {| held := true; owner := "mem-1000-1"; expiresAt := Some (1000 + 2 * Minute) |}.

Lemma sample_at m : m = 0%nat \/ m = 1%nat ->
  mutex_at sample_world m = Some ("app-schedule:a"%string, 0%nat, ApplyOptions schedule_options,
    (if (m =? 0)%nat then "mem-1000-1" else "")%string, sample_entry).
Proof. intros [->| ->]; vm_compute; reflexivity. Qed.

Lemma sample_lease : lease sample_world 0 "app-schedule:a" (1000 + 2 * Minute).
Proof.
  exists 0%nat, (ApplyOptions schedule_options), sample_entry.
  pose proof (proj1 (mutex_at_Some _ _ _ _ _ _ _) (sample_at 0 (or_introl eq_refl))) as [M L].
  split; [exact M|]. split; [exact L|]. split; reflexivity.
Qed.

Lemma sample_clock : clock sample_world = 1000.
Proof. vm_compute. reflexivity. Qed.

Lemma sample_holding : holding sample_world 0 "app-schedule:a".
Proof.
  apply holding_lease. exists (1000 + 2 * Minute). split; [exact sample_lease|].
  rewrite sample_clock. reflexivity.
Qed.

Lemma locker_mutual_exclusion_witness :
  (forall m', holding sample_world m' "app-schedule:a" -> m' = 0%nat) /\
  TryLock None 0 1 sample_world = (Err ErrLockAcquireFailed, sample_world).
Proof.
  destruct (locker_mutual_exclusion "" 1000 sample_ops sample_world 0 "app-schedule:a")
    as (U & _ & X); [vm_compute; discriminate|reflexivity|exact sample_holding|].
  split; [exact U|]. exact (proj1 (X 1%nat _ _ _ _ 0 (sample_at 1 (or_intror eq_refl)))).
Defined.

Lemma lock_handover_witness : fst (Unlock None 0 sample_world) = Ok tt.
Proof.
  destruct (lock_handover sample_world 0 _ _ _ _ _ 0 sample_reachable (sample_at 0 (or_introl eq_refl)))
    as (_ & _ & U & _).
  apply (U (1000 + 2 * Minute)); [exact sample_lease|]. rewrite sample_clock. reflexivity.
Defined.

Lemma lock_waits_witness :
  Lock 1 (fun _ => (None, None)) (fun _ w => w) 1 sample_world = Some (Err ErrLockAcquireFailed, sample_world).
Proof.
  destruct (lock_waits (fun _ => (None, None)) (fun _ w => w) 1 sample_world _ _ _ _ 1 0
    (proj1 (proj1 (mutex_at_Some _ _ _ _ _ _ _) (sample_at 1 (or_intror eq_refl))))) as [_ H].
  apply H; [intros j J; inversion J|reflexivity|lia|reflexivity|vm_compute; reflexivity|reflexivity].
Defined.

Definition sample_body (w : LockWorld) : result Z * LockWorld := (Ok 1, tick Second w).

(** While the application of the sample runs, a second call is refused. *)
Lemma schedule_lock_exclusive_witness :
  fst (WithAppScheduleLock true None None 0 " B " sample_body sample_world) = Ok 1 /\
  forall fn : LockWorld -> result Z * LockWorld,
    fst (WithAppScheduleLock true None None 0 "b" fn (run [OpTime Second] (schedule_started 0 " B " sample_world))) =
    Err ErrApplicationOperationLocked.
Proof.
  destruct (@schedule_lock_exclusive Z Z sample_world None 0 " B " sample_body
    sample_reachable eq_refl) as (E & H);
    [vm_compute; reflexivity|vm_compute; discriminate|intros p e K; vm_compute in K; discriminate K|].
  rewrite E. split; [reflexivity|]. intros fn.
  destruct (H [OpTime Second]) as [X _].
  - intros o I. apply list_elem_of_singleton in I as ->. reflexivity.
  - vm_compute. discriminate.
  - vm_compute. reflexivity.
  - destruct (X None 0 "b"%string eq_refl eq_refl) as [key ->]. reflexivity.
Defined.
